(* ===== verification/_CoqProject ===== *)
-Q . S2P
Prelude.v
IntelPtPkt.v
OrderedEvents.v
Sample.v
Evlist.v
ArmSpePkt.v
Mmap.v
AuxtraceHeap.v
AuxtraceQueues.v
BlockRange.v
CallPath.v
ThreadStack.v
Callchain.v
SortKeys.v
Hists.v
HistSpec.v
HistReport.v
HistCumul.v
Maps.v
Levenshtein.v
Strings.v
Strfilter.v
SessionSwap.v
Cpumap.v
FeatFd.v
HeaderFeat.v
HeaderDesc.v
HeaderFile.v
HeaderPipe.v
Session.v
SessionPipe.v
SessionDeliver.v
Config.v
ConfigCmd.v
Pmu.v
