(* ===== verification/Prelude.v ===== *)
(** * A verification library for the trace data path of perf

    perf records the events of a machine into a file (perf.data) and analyses
    that file later, often on another machine.  This library models, as
    executable definitions, the code that the data passes on its way from the
    kernel to a tool, and proves what each part promises to the next.

    ** The program and how its parts interact

    Recording.  The kernel writes records into ring buffers; util/mmap.c reads
    them and pushes their bytes to the file.  Hardware tracers write AUX area
    data, which util/auxtrace.c indexes.  At the end util/header.c stores the
    events, their ids and what the machine was (the feature sections) around
    the data.

    Opening.  util/header.c finds out the byte order of the file and reads the
    events and the features, lists of cpus (util/cpumap.c) among them, into the
    session.

    Reading.  util/session.c maps the data section of the file window by
    window and hands out one record after the other.  If the file comes from a
    machine of the other byte order it converts the record in place.  The
    event list of util/evlist.c finds the event that a record belongs to, the
    sample codec of util/evsel.c takes the time out of it, and the reordering
    queue of util/ordered-events.c delays it until no older record can follow;
    then it is delivered and parsed in full.

    Decoding.  AUX area data is queued per cpu or thread and merged by time with
    a heap (util/auxtrace.c); packet decoders (util/intel-pt-decoder,
    util/arm-spe-pkt-decoder.c) split it into packets.  The branches that come
    out of them build call stacks (util/thread-stack.c), whose calls are
    interned as call paths (util/call-path.c).

    Resolving and reporting.  MMAP records tell which file is mapped where in a
    process (util/map.c); addresses of samples are looked up there.  Samples are
    aggregated in histograms (util/hist.c) by sort keys (util/sort.c), call
    chains in trees (util/callchain.c), basic blocks in ranges
    (util/block-range.c).  Small languages select what is shown
    (util/strfilter.c, the globs of util/string.c, util/levenshtein.c for
    suggestions).

    ** The files

    - [Prelude]: this file; machine-width integers as [Z] with explicit
      wrap-around, byte buffers with checked reads and writes, little endian
      coding, byte swaps, the result type [res] and its monad, tactics, the
      hint database [perfdb] and the rewrite database [perflen].
    - [IntelPtPkt]: util/intel-pt-decoder/intel-pt-pkt-decoder.c, every
      intel_pt_get_* function and intel_pt_get_packet, and the loop of
      intel_pt_dump (util/intel-pt.c).
    - [OrderedEvents]: util/ordered-events.c.  The state is the structure's
      fields; list objects are numbered slots, so that the hint [oe->last] is
      a pointer that can be stale; malloc is an oracle.
    - [Sample]: util/evsel.c, sample sizes and id positions,
      perf_evsel__parse_sample, perf_evsel__parse_id_sample,
      perf_evsel__parse_sample_timestamp, perf_event__sample_event_size and
      perf_event__synthesize_sample; mem_bswap_64 of util/memswap.c.
    - [Evlist]: util/evlist.c, the table of sample ids, its interface [IdTable],
      the agreement checks and the attribution of records to events.
    - [ArmSpePkt]: util/arm-spe-pkt-decoder.c and the loop of arm_spe_dump
      (util/arm-spe.c), with the text of the packet descriptions.
    - [Mmap]: util/mmap.c, reading, consuming and pushing a ring buffer; every
      read of the kernel's head is an argument, so that it may move.
    - [AuxtraceHeap], [AuxtraceQueues]: util/auxtrace.c, the heap of queues, the
      queues of buffers, their splitting, and the index of AUX area events.
    - [BlockRange]: util/block-range.c and its users in builtin-annotate.c and
      util/annotate.c; a set of ranges in a red-black tree whose library code is
      the class [RbTree].
    - [CallPath], [ThreadStack]: util/call-path.c and util/thread-stack.c; nodes
      and stacks are numbered objects, allocation is an oracle, the callback of
      a finished call is a parameter.
    - [Callchain]: util/callchain.c, cursors and the trees of chains, with
      branch_type_count of util/branch.c; the keys that frames are compared by
      are instances of the class [ChainKey].
    - [SortKeys]: util/sort.c, the comparisons of entries, and the columns of
      ui/hist.c; the class [SortKey] of what a tree of entries needs of its key.
    - [Hists]: util/hist.c, from a sample to its entries in every mode,
      collapsing, output, filters and decay; entries are numbered objects in
      several trees at once.  [HistSpec] proves what adding entries does,
      [HistReport] what the steps after it do, [HistCumul] what the iterator of
      the cumulative mode does with a call chain.
    - [Maps]: util/map.c, util/map_groups.h and the handlers of util/thread.c and
      util/machine.c that change maps; a heap of reference counted objects and
      a monad whose failures are accesses to freed objects; a thread has the
      name space of thread__new and the maps of its leader, which is made when
      it is not there.
    - [Levenshtein], [Strings], [Strfilter]: util/levenshtein.c, util/string.c
      (numbers, globs, argument vectors, escapes) and util/strfilter.c.
    - [SessionSwap]: util/session.c, every perf_event__*_swap operation, the
      table perf_event__swap_ops and event_swap, on the bytes of a record; the
      offsets are computed from the structures of util/event.h.
    - [Cpumap]: util/cpumap.c, lists of cpus as text, and the CPU_MAP records of
      util/event.c.
    - [FeatFd]: the input and output layer of util/header.c (struct feat_fd, a
      file or a buffer), readn and writen of util/util.c, the structures of
      util/env.h; a monad of computations that can fail, fault or hang; the
      class [Kernel] of what the system decides; the laws [Emits] of writers
      and [Runs] of readers, with a lemma for every way to compose them.
    - [HeaderFeat]: the writers and readers of the feature sections of
      util/header.c; [HeaderDesc]: those of event and group descriptions.
    - [HeaderFile]: perf_session__write_header and perf_session__read_header
      with the table of sections, and the detection of format and byte order.
    - [HeaderPipe]: the records of util/header.c that carry attributes and
      features through a pipe, written and read.
    - [Session]: util/session.c, fetch_mmaped_event, reader__process_events,
      perf_session__process_event, process_finished_round and
      __perf_session__process_events, composed of the parts above.
    - [SessionPipe]: the loop of __perf_session__process_pipe_events and skipn.
    - [SessionDeliver]: the delivery of a parsed record (machines__deliver_event),
      samples of counters read together, and the records of the id index.
    - [Config]: util/config.c, the parser of configuration files with its buffers,
      the set of sections and items, values; [ConfigCmd]: builtin-config.c, the
      command that shows and changes them, and the choice of files.
    - [Pmu]: the formats and aliases of util/pmu.c, from the terms of an event to
      the config words.

    ** What the theorems show

    - Session: a file of passes is delivered completely and in time order
      ([session_delivers_in_order], from the bytes of the file to the tool);
      the windowed reader visits every record once ([reader_gives_every_record])
      and loops for ever on a cut record ([reader_hangs]); what comes through a
      pipe, in reads of any size, is delivered the same way
      ([pipe_delivers_in_order]).
    - SessionDeliver: the periods a tool is told of a counter add up to its last
      value less the value stored for its id before, which is 0 for a fresh id
      ([read_periods_exact]); the id index, however long, arrives at the reader
      ([id_index_roundtrip]).
    - Config, ConfigCmd: the parser is safe on any file and collects every variable
      once ([config_parser_safe]); what one run of the command assigns in the
      file it chose, the next one finds, for names and values that the syntax of
      the file can hold ([config_settings_persist]; [hash_is_cut],
      [dotted_name_unreadable] and [capital_lost] show some that it cannot).
    - Pmu: every bit of the config words is the or of what the terms put there, so
      that a term that fits can be read back where no other term has bits
      ([pmu_event_configured]; [repeated_term_ored] and [too_big_is_cut] show the
      other cases).
    - Evlist: a record is attributed to the event that owns its id, parsed and
      timed as that event lays it out ([evlist_event_owner]).
    - Sample: synthesized samples parse back ([sample_roundtrip]); arbitrary
      records are parsed within their bounds ([parse_sample_safe]); the short
      cuts by position agree with the full parse ([event2id_agrees],
      [timestamp_agrees]); the bookkeeping is an invariant
      ([evsel_bookkeeping]); pairs of 32-bit fields survive the byte order
      ([cross_endian_u32s]).
    - OrderedEvents: the two search loops refine a stable insertion; runs of any
      calls, with a callback that succeeds, conserve events, and deliver them
      sorted when nothing was counted as unordered; [flush_error_stale_last] is
      what a failing callback leads to.
    - IntelPtPkt, ArmSpePkt: decoding stays in the buffer, consumes it, is
      stable under more input, and inverts an encoder, runs of padding of the
      latter included ([arm_spe_dump_stream]); the texts fit.
    - SessionSwap: foreign records become native field by field
      ([event_swap_native], [hdr_attr_swap_native]).  Sample bodies and sample ids
      are made of 64-bit words there, as session.c treats them: two 32-bit fields
      of one word come out exchanged ([pair_word_exchanged]) until the parser
      undoes it ([cross_endian_u32s]).  Also which parts are not converted, and
      which values of the file are trusted.
    - Mmap: the documented reading loop returns exactly the new records, of at
      most sizeof(union perf_event) bytes ([mmap_drain]; longer ones that wrap
      are cut, [mmap_read_truncates]); pushing
      hands out exactly the new bytes; the backward search ends at the last
      whole record.
    - AuxtraceHeap, AuxtraceQueues: pop takes a minimum, add keeps the heap;
      queues hold the events of the file in file order, for queue indices below
      2^26 ([auxtrace_queues_file_order]; [auxtrace_queues_index_wraps] for larger
      ones); split buffers tile their range; the index is read back as written.

    - BlockRange: every basic block is counted exactly in the ranges it covers
      ([blocks_counted_exactly]); creation refines cutting and filling
      ([create_spans_range]); the printed shares are fractions of at most one.
    - CallPath, ThreadStack: equal call chains get equal nodes
      ([call_paths_interned]); balanced calls are each reported once
      ([balanced_calls_reported]); the stack refines the list of open calls
      ([event_stacks_refine]); no operation leaves its arrays
      ([thread_stacks_safe]), with one exception for a branch between two
      addresses that are both 0 ([branch_from_nowhere]).
    - Callchain: the figures of a node are those of the chains that end in it or
      pass it ([chains_aggregated]), also after merging ([chain_trees_merge]), for
      keys and frames whose comparison is lawful ([ChainKey]; the default key is
      not on all frames, [match_not_transitive]).
    - HistSpec, HistReport, HistCumul: for keys that are lawful orders ([SortKey]) and
      with memory, a histogram has one entry per key with the sums over
      the samples of that key ([histogram_exact]), collapsed and sorted it is
      the report of the samples ([report_exact]), and filters and decay keep its
      totals true but for the rows that the zap flags of perf top remove
      ([report_totals_stay], [zapped_rows_counted]); with callees, a sample counts
      once per row of its chain ([cumulative_exact]; for keys that depend on more
      than the place, [recursion_counted_again]); SortKeys proves which keys are
      orders and shows the ones that are not.
    - Maps: an address is found in the mapping made last
      ([address_space_found]); references are exact and nothing freed is used
      ([maps_never_dangle]); addresses for objdump convert back and forth
      ([objdump_roundtrip]).
    - Cpumap: printed lists of cpus and CPU_MAP records give the map back
      ([cpu_list_roundtrip], [cpu_map_event_roundtrip]) while the ints of the
      parser do not overflow ([read_sum_overflows] is a list where they do).
    - FeatFd, HeaderFeat, HeaderDesc, HeaderFile, HeaderPipe: what a feature's writer stores
      its reader finds, in a file or a record and in either byte order but for
      BPF_BTF, whose reader has one only
      ([feature_roundtrip], [event_desc_roundtrip], [group_desc_roundtrip]);
      without room a writer fails and has stored a proper prefix
      ([feature_no_room]; CPU_TOPOLOGY loses the error, [topology_error_lost]);
      the readers that neither look for the end of a string nor compute the size
      of an array are safe on any bytes when the
      size they are told is inside the buffer ([plain_readers_safe]; theorems on
      [Crashes], [empty_record_overread] and [bitmap_overflows] for the rest);
      a finished file can be opened, with every event, id and stored
      feature, and its data is untouched ([header_roundtrip]); through a pipe the
      attributes and the features that can be sent arrive in records
      ([pipe_header_roundtrip]; sending CLOCKID faults,
      [synthesize_clockid_faults]).
    - Levenshtein, Strings, Strfilter: the table computes the least cost of an
      edit script; globs match as a reference semantics says; filters mean what
      their grammar says and print back to text that parses.

    Theorems that show where the code departs from its intention are stated
    like the others, on the same definitions.

    ** Conventions, bounds and fuel

    C integers of [w] bits are [Z] values with [wrap w] (or [sint w]) where the
    code may overflow.  An access outside the memory that the code was given
    is a value ([None], [Oob]), so that safety is a theorem and not an
    assumption.  Loops that are not structural take fuel.  The fuel is the
    number of bytes or items that a turn consumes at least one of (dump loops,
    copy loops, heap paths), the number of words of a byte count
    (mem_bswap_64), or an argument of the theorem together with a bound that
    suffices (two passes per record for the reader).  Running out of it is a
    value of its own where it could be mistaken for a result.  The host is
    little endian and 64 bits wide, as the windows and [unsigned long] require.

    Code outside the repository is a parameter: malloc, mmap, read and write
    (any number of bytes per call), lib/rbtree.c, libtraceevent, hash_64,
    hweight64, the kernel's writes to the ring, the callbacks of a tool.
    Numbers of the kernel interface (record types, sample bits, the layout of
    struct perf_event_attr) are constants.

    ** What is not modelled

    The commands (builtin-*.c, except perf config), the user interfaces, benchmarks, self tests,
    scripts, architecture tables and generated event tables; symbol, ELF, DWARF,
    BPF and unwinding code, which are calls of libraries; the event parser
    (flex and bison) and the files of sysfs that describe PMUs; build ids, tracing data and BPF
    programs of the file header; the tables of machines and threads, comms and
    name spaces; hierarchies, pairs and column widths of histograms, keys that
    format trace data or ask for source lines; printing.  Of the modelled files, what only prints, sets up mappings, or
    calls the kernel; the sorting of call chains for the output.

    ** Plan

    Next: perf_session__peek_event; time ranges; the output order of call chains;
    hierarchies of histograms and hists__link; the state machine of
    util/intel-pt-decoder/intel-pt-decoder.c. *)

From stdpp Require Export base tactics option list numbers gmap sorting.
#[global] Open Scope Z_scope.

Create HintDb perfdb.
Create Rewrite HintDb perflen.

(** * Machine-width integers *)

(** [wrap w z] is the value a C unsigned integer of [w] bits holds after
    being assigned [z]. *)
Definition wrap (w z : Z) : Z := z mod 2 ^ w.

Declare Scope cint_scope.
Delimit Scope cint_scope with c.

Abbreviation u8 := (wrap 8).
Abbreviation u16 := (wrap 16).
Abbreviation u32 := (wrap 32).
Abbreviation u64 := (wrap 64).
Notation "a +64 b" := (wrap 64 (a + b)) (at level 50, left associativity) : cint_scope.
Notation "a -64 b" := (wrap 64 (a - b)) (at level 50, left associativity) : cint_scope.
Notation "a *64 b" := (wrap 64 (a * b)) (at level 40, left associativity) : cint_scope.
Notation "a <<64 b" := (wrap 64 (Z.shiftl a b)) (at level 30, no associativity) : cint_scope.
#[global] Open Scope cint_scope.

Definition U64_MAX : Z := 2 ^ 64 - 1.

(** [sint w z] is the value a C signed integer of [w] bits holds after being
    assigned [z] (two's complement). *)
Definition sint (w z : Z) : Z :=
  let m := z mod 2 ^ w in if m <? 2 ^ (w - 1) then m else m - 2 ^ w.

(** [hasf t f] is the C test [t & f] used as a condition. *)
Definition hasf (t f : Z) : bool := negb (Z.land t f =? 0).

Definition is_uint (w z : Z) : Prop := 0 <= z < 2 ^ w.

Lemma wrap_bound w z : 0 <= w -> 0 <= wrap w z < 2 ^ w.
Proof. intros; apply Z.mod_pos_bound; by apply Z.pow_pos_nonneg. Qed.

Lemma wrap_small w z : is_uint w z -> wrap w z = z.
Proof. apply Z.mod_small. Qed.

Lemma wrap_wrap w z : wrap w (wrap w z) = wrap w z.
Proof. unfold wrap. apply Zmod_mod. Qed.

Lemma u64_bound z : 0 <= u64 z < 18446744073709551616.
Proof. apply (wrap_bound 64); lia. Qed.

Lemma u64_small z : 0 <= z < 18446744073709551616 -> u64 z = z.
Proof. apply (wrap_small 64). Qed.

Lemma u32_bound z : 0 <= u32 z < 4294967296.
Proof. apply (wrap_bound 32); lia. Qed.

Lemma u32_small z : 0 <= z < 4294967296 -> u32 z = z.
Proof. apply (wrap_small 32). Qed.

Lemma sint32_small z : -2147483648 <= z < 2147483648 -> sint 32 z = z.
Proof.
  intros Hz. unfold sint. change (2 ^ 32) with 4294967296.
  change (2 ^ (32 - 1)) with 2147483648.
  destruct (Z.ltb_spec (z mod 4294967296) 2147483648); Z.div_mod_to_equations; lia.
Qed.

#[export] Hint Resolve u64_bound u32_bound wrap_bound : perfdb.

(** * Bit tests *)

Lemma hasf_pow2 t k : 0 <= k -> hasf t (2 ^ k) = Z.testbit t k.
Proof.
  intros Hk. unfold hasf.
  destruct (Z.testbit t k) eqn:Ht.
  - destruct (Z.eqb_spec (Z.land t (2 ^ k)) 0) as [He|]; [|done].
    assert (Hb : Z.testbit (Z.land t (2 ^ k)) k = true)
      by (rewrite Z.land_spec, Ht, Z.pow2_bits_true; done).
    rewrite He, Z.bits_0 in Hb. done.
  - destruct (Z.eqb_spec (Z.land t (2 ^ k)) 0) as [|Hne]; [done|].
    destruct Hne. apply Z.bits_inj'. intros n Hn.
    rewrite Z.land_spec, Z.bits_0.
    destruct (decide (n = k)) as [->|]; [by rewrite Ht|].
    rewrite Z.pow2_bits_false by done. by rewrite andb_false_r.
Qed.

Lemma testbit_above n w i : 0 <= n < 2 ^ w -> 0 <= w <= i -> Z.testbit n i = false.
Proof.
  intros Hn Hw. rewrite <- (Z.mod_small n (2 ^ w)) by done.
  apply Z.mod_pow2_bits_high; lia.
Qed.

Lemma land_mask z w : 0 <= w -> Z.land z (2 ^ w - 1) = z mod 2 ^ w.
Proof. intros. rewrite Z.sub_1_r, <- Z.ones_equiv. by apply Z.land_ones. Qed.

Lemma hasf_1 t : hasf t 1 = Z.odd t.
Proof. change 1 with (2 ^ 0). rewrite hasf_pow2 by lia. apply Z.bit0_odd. Qed.

Lemma hasf_2 t : hasf t 2 = Z.odd (t / 2).
Proof.
  change 2 with (2 ^ 1) at 1. rewrite hasf_pow2 by lia.
  rewrite Z.testbit_odd, Z.shiftr_div_pow2 by lia. done.
Qed.

(** The top bit of a [w+1]-bit word. *)
Lemma hasf_top t k : 0 <= k -> 0 <= t < 2 ^ (k + 1) -> hasf t (2 ^ k) = (2 ^ k <=? t).
Proof.
  intros Hk Ht. rewrite hasf_pow2 by lia.
  rewrite Z.pow_add_r in Ht by lia.
  rewrite Z.testbit_odd, Z.shiftr_div_pow2 by lia.
  assert (0 < 2 ^ k) by (apply Z.pow_pos_nonneg; lia).
  destruct (Z.leb_spec (2 ^ k) t).
  - replace (t / 2 ^ k) with 1; [done|]. apply (Z.div_unique_pos t (2 ^ k) 1 (t - 2 ^ k)); lia.
  - by rewrite Z.div_small by lia.
Qed.

Lemma lor_add_disjoint a b k :
  0 <= k -> 0 <= a < 2 ^ k -> Z.lor a (Z.shiftl b k) = a + b * 2 ^ k.
Proof.
  intros Hk Ha. rewrite <- Z.shiftl_mul_pow2 by lia. symmetry.
  rewrite <- Z.add_lor_land. replace (Z.land a (Z.shiftl b k)) with 0; [lia|].
  symmetry. apply Z.bits_inj'. intros n Hn. rewrite Z.land_spec, Z.bits_0.
  destruct (Z.lt_ge_cases n k).
  - rewrite Z.shiftl_spec_low by lia. apply andb_false_r.
  - rewrite (testbit_above a k n) by lia. done.
Qed.

(** * Byte buffers *)

Abbreviation byte := Z (only parsing).
Abbreviation bytes := (list Z) (only parsing).

Definition byte_ok (b : byte) : Prop := 0 <= b < 256.
Definition bytes_ok (bs : bytes) : Prop := Forall byte_ok bs.

Definition zlen {A} (l : list A) : Z := Z.of_nat (length l).

(** Checked reads of a buffer: [None] is an access outside it. *)
Definition rd8 (buf : bytes) (off : Z) : option byte :=
  if off <? 0 then None else buf !! Z.to_nat off.

Definition rdn (buf : bytes) (off : Z) (n : nat) : option bytes :=
  if (off <? 0) || (zlen buf <? off + Z.of_nat n) then None
  else Some (take n (drop (Z.to_nat off) buf)).

(** Little endian value of a byte sequence and its inverse. *)
Fixpoint le_val (bs : bytes) : Z :=
  match bs with
  | [] => 0
  | b :: bs' => b + 256 * le_val bs'
  end.

Fixpoint le_bytes (n : nat) (z : Z) : bytes :=
  match n with
  | O => []
  | S n' => z mod 256 :: le_bytes n' (z / 256)
  end.

Definition rd_le (buf : bytes) (off : Z) (n : nat) : option Z :=
  bs ← rdn buf off n; Some (le_val bs).

Lemma zlen_nonneg {A} (l : list A) : 0 <= zlen l.
Proof. unfold zlen; lia. Qed.

Lemma zlen_app {A} (l k : list A) : zlen (l ++ k) = zlen l + zlen k.
Proof. unfold zlen. rewrite length_app. lia. Qed.

Lemma zlen_cons {A} (x : A) l : zlen (x :: l) = 1 + zlen l.
Proof. unfold zlen. simpl. lia. Qed.

Lemma zlen_nil {A} : zlen (@nil A) = 0.
Proof. done. Qed.

#[export] Hint Rewrite @zlen_app @zlen_cons @zlen_nil : perflen.
#[export] Hint Resolve zlen_nonneg : perfdb.

Lemma length_le_bytes n z : length (le_bytes n z) = n.
Proof. revert z; induction n; intros; simpl; auto. Qed.

Lemma zlen_le_bytes n z : zlen (le_bytes n z) = Z.of_nat n.
Proof. unfold zlen. by rewrite length_le_bytes. Qed.

Lemma le_bytes_ok n z : bytes_ok (le_bytes n z).
Proof.
  revert z; induction n; intros z; simpl; constructor; [|apply IHn].
  unfold byte_ok. apply Z.mod_pos_bound. lia.
Qed.

Lemma le_val_bytes n z : le_val (le_bytes n z) = z mod 256 ^ Z.of_nat n.
Proof.
  revert z; induction n as [|n IH]; intros z.
  - simpl. by rewrite Z.mod_1_r.
  - cbn [le_bytes le_val]. rewrite IH.
    rewrite Nat2Z.inj_succ, Z.pow_succ_r by lia.
    rewrite Z.rem_mul_r by (try apply Z.pow_nonzero; lia). done.
Qed.

Lemma le_val_app l k : le_val (l ++ k) = le_val l + 256 ^ zlen l * le_val k.
Proof.
  unfold zlen. induction l as [|b l IH]; [cbn; lia|]. cbn [le_val app length].
  rewrite IH, Nat2Z.inj_succ, Z.pow_succ_r by lia. lia.
Qed.

Lemma le_val_bound bs : bytes_ok bs -> 0 <= le_val bs < 256 ^ zlen bs.
Proof.
  unfold zlen. induction 1 as [|b bs Hb Hbs IH]; [simpl; lia|].
  unfold byte_ok in Hb.
  cbn [le_val length]. rewrite Nat2Z.inj_succ, Z.pow_succ_r by lia. lia.
Qed.

Lemma le_bytes_val bs : bytes_ok bs -> le_bytes (length bs) (le_val bs) = bs.
Proof.
  induction 1 as [|b bs Hb Hbs IH]; [done|].
  unfold byte_ok in Hb. cbn [length le_bytes le_val].
  replace ((b + 256 * le_val bs) mod 256) with b
    by (rewrite Z.mul_comm, Z_mod_plus_full, Z.mod_small; lia).
  replace ((b + 256 * le_val bs) / 256) with (le_val bs)
    by (rewrite Z.mul_comm, Z_div_plus_full, Z.div_small; lia).
  by rewrite IH.
Qed.

Lemma le_bytes_app n m z :
  le_bytes (n + m) z = le_bytes n z ++ le_bytes m (z / 256 ^ Z.of_nat n).
Proof.
  revert z; induction n as [|n IH]; intros z; [by rewrite Z.div_1_r|].
  cbn [Nat.add le_bytes app]. rewrite IH, Nat2Z.inj_succ, Z.pow_succ_r by lia.
  by rewrite Z.div_div by lia.
Qed.

Lemma le_bytes_mod n z : le_bytes n (z mod 256 ^ Z.of_nat n) = le_bytes n z.
Proof.
  rewrite <- le_val_bytes. rewrite <- (length_le_bytes n z) at 1.
  apply le_bytes_val, le_bytes_ok.
Qed.

(** Two 32-bit halves laid out one after the other. *)
Lemma le_bytes_halves lo hi :
  0 <= lo < 2 ^ 32 -> le_bytes 8 (lo + 2 ^ 32 * hi) = le_bytes 4 lo ++ le_bytes 4 hi.
Proof.
  intros Hlo. rewrite (le_bytes_app 4 4). rewrite <- (le_bytes_mod 4 (lo + 2 ^ 32 * hi)).
  change (256 ^ Z.of_nat 4) with (2 ^ 32). rewrite (Z.mul_comm (2 ^ 32)).
  rewrite Z_mod_plus_full, Z_div_plus_full, Z.mod_small, Z.div_small by lia. done.
Qed.

Lemma bytes_ok_app l k : bytes_ok (l ++ k) <-> bytes_ok l /\ bytes_ok k.
Proof. apply Forall_app. Qed.

Lemma bytes_ok_lookup bs i b : bytes_ok bs -> bs !! i = Some b -> byte_ok b.
Proof. intros Hf Hl. by apply (Forall_lookup_1 _ _ _ _ Hf Hl). Qed.

(** A read inside the buffer succeeds. *)
Lemma rd8_in buf off : 0 <= off < zlen buf -> exists b, rd8 buf off = Some b /\ buf !! Z.to_nat off = Some b.
Proof.
  intros Ho. unfold rd8. destruct (Z.ltb_spec off 0); [lia|].
  destruct (lookup_lt_is_Some_2 buf (Z.to_nat off)) as [b Hb]; [unfold zlen in Ho; lia|].
  eauto.
Qed.

Lemma rdn_in buf off n :
  0 <= off -> off + Z.of_nat n <= zlen buf ->
  rdn buf off n = Some (take n (drop (Z.to_nat off) buf)).
Proof.
  intros H1 H2. unfold rdn.
  destruct (Z.ltb_spec off 0); [lia|].
  destruct (Z.ltb_spec (zlen buf) (off + Z.of_nat n)); [lia|]. done.
Qed.

Lemma rd_le_in buf off n :
  0 <= off -> off + Z.of_nat n <= zlen buf ->
  rd_le buf off n = Some (le_val (take n (drop (Z.to_nat off) buf))).
Proof. intros H1 H2. unfold rd_le. by rewrite rdn_in. Qed.

(** Reads depend on the bytes they cover only. *)
Lemma rd8_app buf ext off b : rd8 buf off = Some b -> rd8 (buf ++ ext) off = Some b.
Proof.
  unfold rd8. destruct (off <? 0); [done|]. intros Hl.
  by apply lookup_app_l_Some.
Qed.

Lemma rdn_app buf ext off n bs : rdn buf off n = Some bs -> rdn (buf ++ ext) off n = Some bs.
Proof.
  unfold rdn. rewrite zlen_app.
  destruct (Z.ltb_spec off 0); [done|].
  destruct (Z.ltb_spec (zlen buf) (off + Z.of_nat n)); [done|].
  pose proof (zlen_nonneg ext).
  destruct (Z.ltb_spec (zlen buf + zlen ext) (off + Z.of_nat n)); [lia|].
  simpl. intros [= <-]. f_equal. unfold zlen in *.
  rewrite drop_app_le by lia. rewrite take_app_le by (rewrite length_drop; lia). done.
Qed.

Lemma rd_le_app buf ext off n v : rd_le buf off n = Some v -> rd_le (buf ++ ext) off n = Some v.
Proof.
  unfold rd_le. destruct (rdn buf off n) as [bs|] eqn:E; [|done].
  simpl. intros [= <-]. by rewrite (rdn_app _ _ _ _ _ E).
Qed.

(** Reading back what was laid out. *)
Lemma rdn_mid pre bs post off n :
  off = zlen pre -> n = length bs -> rdn (pre ++ bs ++ post) off n = Some bs.
Proof.
  intros -> ->. pose proof (zlen_nonneg post). rewrite rdn_in.
  - unfold zlen. rewrite Nat2Z.id, drop_app_length, take_app_length. done.
  - unfold zlen; lia.
  - rewrite !zlen_app. unfold zlen in *. lia.
Qed.

Lemma rd_le_mid pre z post off n :
  off = zlen pre -> 0 <= z < 256 ^ Z.of_nat n ->
  rd_le (pre ++ le_bytes n z ++ post) off n = Some z.
Proof.
  intros Ho Hz. unfold rd_le.
  rewrite (rdn_mid pre (le_bytes n z) post) by (done || by rewrite length_le_bytes).
  simpl. rewrite le_val_bytes, Z.mod_small; done.
Qed.

Lemma rd8_mid pre b post off : off = zlen pre -> rd8 (pre ++ b :: post) off = Some b.
Proof.
  intros ->. unfold rd8, zlen. destruct (Z.ltb_spec (Z.of_nat (length pre)) 0); [lia|].
  rewrite Nat2Z.id, lookup_app_r by lia. by rewrite Nat.sub_diag.
Qed.

(** Writing into a buffer: [None] is an access outside it. *)
Definition wrn (buf : bytes) (off : Z) (bs : bytes) : option bytes :=
  if (off <? 0) || (zlen buf <? off + zlen bs) then None
  else Some (take (Z.to_nat off) buf ++ bs ++ drop (Z.to_nat off + length bs) buf).

Lemma wrn_app pre post bs off :
  off = zlen pre -> zlen bs <= zlen post ->
  wrn (pre ++ post) off bs = Some (pre ++ bs ++ drop (length bs) post).
Proof.
  intros -> Hl. unfold wrn. rewrite zlen_app. pose proof (zlen_nonneg pre).
  destruct (Z.ltb_spec (zlen pre) 0); [lia|].
  destruct (Z.ltb_spec (zlen pre + zlen post) (zlen pre + zlen bs)); [lia|]. simpl.
  unfold zlen. rewrite Nat2Z.id, take_app_length, drop_app_add'; done.
Qed.

(** * Results of C functions that may fail *)

(** [Err e] is an error return, [Oob] an access outside the memory given. *)
Inductive res (A : Type) : Type :=
| Ok (a : A)
| Err (e : Z)
| Oob.
Arguments Ok {A} _.
Arguments Err {A} _.
Arguments Oob {A}.

#[export] Instance res_bind : MBind res := fun A B f m =>
  match m with Ok a => f a | Err e => Err e | Oob => Oob end.
#[export] Instance res_ret : MRet res := @Ok.

(** A checked access as a result. *)
Definition mem {A} (o : option A) : res A :=
  match o with Some a => Ok a | None => Oob end.

Ltac rred := cbn [mbind res_bind mem].

(** * Byte order *)

Definition bswap (n : nat) (v : Z) : Z := le_val (reverse (le_bytes n v)).
Abbreviation bswap_16 := (bswap 2).
Abbreviation bswap_32 := (bswap 4).
Abbreviation bswap_64 := (bswap 8).

Lemma bswap_involutive n v : 0 <= v < 256 ^ Z.of_nat n -> bswap n (bswap n v) = v.
Proof.
  intros Hv. unfold bswap.
  assert (Hok : bytes_ok (reverse (le_bytes n v)))
    by (apply Forall_reverse, le_bytes_ok).
  pose proof (le_bytes_val _ Hok) as Hb. rewrite length_reverse, length_le_bytes in Hb.
  rewrite Hb, reverse_involutive, le_val_bytes, Z.mod_small; done.
Qed.

Lemma bswap_bound n v : 0 <= bswap n v < 256 ^ Z.of_nat n.
Proof.
  unfold bswap.
  assert (Hok : bytes_ok (reverse (le_bytes n v))) by (apply Forall_reverse, le_bytes_ok).
  pose proof (le_val_bound _ Hok) as Hb. unfold zlen in Hb.
  by rewrite length_reverse, length_le_bytes in Hb.
Qed.

(** * Sorted lists *)

(** The order of a search tree around one of its nodes. *)
Lemma StronglySorted_mid {A} (R : relation A) `{!Transitive R} (a : list A) x b :
  StronglySorted R (a ++ x :: b) <->
  StronglySorted R a /\ StronglySorted R b /\ (forall y, y ∈ a -> R y x) /\ (forall y, y ∈ b -> R x y).
Proof.
  split.
  - intros Hs. pose proof (StronglySorted_app_1_l _ _ _ Hs) as Ha.
    pose proof (StronglySorted_app_1_r _ _ _ Hs) as Hb.
    apply StronglySorted_cons in Hb as [Hn Hb]. rewrite Forall_forall in Hn.
    split_and!; try done. intros y Hy.
    exact (StronglySorted_app_1_elem_of _ _ _ _ _ Hs Hy (list_elem_of_here _ _)).
  - intros (Ha & Hb & Hl & Hr). induction Ha as [|y a Ha IH Hy]; simpl.
    + constructor; [done|]. by apply Forall_forall.
    + constructor; [apply IH; intros; apply Hl; by right|].
      apply Forall_app. split; [done|].
      assert (R y x) by (apply Hl; by left).
      constructor; [done|]. apply Forall_forall. intros z Hz. etrans; eauto.
Qed.

(** * Tactics *)

(** Destructs every boolean test of the goal or of [H] into its [Prop]
    meaning. *)
Ltac destruct_test c :=
  lazymatch c with
  | ?a <? ?b => destruct (Z.ltb_spec a b)
  | ?a <=? ?b => destruct (Z.leb_spec a b)
  | ?a =? ?b => destruct (Z.eqb_spec a b)
  | _ => destruct c eqn:?
  end.

Ltac case_test :=
  match goal with
  | |- context [ if ?c then _ else _ ] => destruct_test c
  end.

Ltac case_test_in H :=
  match type of H with
  | context [ if ?c then _ else _ ] => destruct_test c
  end.

(** One step of the option monad, leaving the operations folded. *)
Ltac mred := cbn [mbind option_bind].

Ltac zlens := autorewrite with perflen in *.
