(* ===== verification/IntelPtPkt.v ===== *)
(** Model of util/intel-pt-decoder/intel-pt-pkt-decoder.c and .h (the Intel
    Processor Trace packet decoder) and of the dump loop of util/intel-pt.c.

    A buffer [buf], [len] of the source is a [bytes] list and its length; every
    [buf\[i\]] or multi-byte load is a checked read, so [None] is an access
    outside the buffer.  Each [intel_pt_get_*] takes the packet being filled
    and returns the C return value with the packet after the call. *)

From S2P Require Import Prelude.

(** * Data *)

Definition INTEL_PT_NEED_MORE_BYTES : Z := -1.
Definition INTEL_PT_BAD_PACKET : Z := -2.
Definition INTEL_PT_PKT_MAX_SZ : Z := 16.

Inductive intel_pt_pkt_type :=
| INTEL_PT_BAD | INTEL_PT_PAD | INTEL_PT_TNT | INTEL_PT_TIP_PGD
| INTEL_PT_TIP_PGE | INTEL_PT_TSC | INTEL_PT_TMA | INTEL_PT_MODE_EXEC
| INTEL_PT_MODE_TSX | INTEL_PT_MTC | INTEL_PT_TIP | INTEL_PT_FUP
| INTEL_PT_CYC | INTEL_PT_VMCS | INTEL_PT_PSB | INTEL_PT_PSBEND
| INTEL_PT_CBR | INTEL_PT_TRACESTOP | INTEL_PT_PIP | INTEL_PT_OVF
| INTEL_PT_MNT | INTEL_PT_PTWRITE | INTEL_PT_PTWRITE_IP | INTEL_PT_EXSTOP
| INTEL_PT_EXSTOP_IP | INTEL_PT_MWAIT | INTEL_PT_PWRE | INTEL_PT_PWRX.

#[export] Instance intel_pt_pkt_type_eq_dec : EqDecision intel_pt_pkt_type.
Proof. solve_decision. Defined.

Record intel_pt_pkt := Pkt {
  pkt_type : intel_pt_pkt_type;
  pkt_count : Z;
  pkt_payload : Z
}.

(** [memset(packet, 0, sizeof(struct intel_pt_pkt))]. *)
Definition pkt_zero : intel_pt_pkt := Pkt INTEL_PT_BAD 0 0.

Definition set_type (t : intel_pt_pkt_type) (p : intel_pt_pkt) : intel_pt_pkt :=
  Pkt t (pkt_count p) (pkt_payload p).
Definition set_count (c : Z) (p : intel_pt_pkt) : intel_pt_pkt :=
  Pkt (pkt_type p) c (pkt_payload p).
Definition set_payload (v : Z) (p : intel_pt_pkt) : intel_pt_pkt :=
  Pkt (pkt_type p) (pkt_count p) v.

Definition BIT63 : Z := 2 ^ 63.
Definition NR_FLAG : Z := BIT63.

(** The result of a getter: C return value and packet. *)
Abbreviation getter := (option (Z * intel_pt_pkt)) (only parsing).

(** * Extended (0x02 prefixed) packets *)

(** [for (count = n; count; count--) { if (payload & BIT63) break; payload <<= 1; }] *)
Fixpoint long_tnt_loop (count : nat) (payload : Z) : Z * Z :=
  match count with
  | O => (0, payload)
  | S c =>
      if hasf payload BIT63 then (Z.of_nat count, payload)
      else long_tnt_loop c (payload <<64 1)
  end.

Definition intel_pt_get_long_tnt (buf : bytes) (p : intel_pt_pkt) : getter :=
  if zlen buf <? 8 then Some (INTEL_PT_NEED_MORE_BYTES, p) else
  payload ← rd_le buf 0 8;
  let '(count, payload) := long_tnt_loop 47 payload in
  Some (8, set_payload (payload <<64 1) (set_count count (set_type INTEL_PT_TNT p))).

Definition intel_pt_get_pip (buf : bytes) (p : intel_pt_pkt) : getter :=
  if zlen buf <? 8 then Some (INTEL_PT_NEED_MORE_BYTES, p) else
  payload ← rd_le buf 2 6;
  let p := set_payload (Z.shiftr payload 1) (set_type INTEL_PT_PIP p) in
  Some (8, if hasf payload 1 then set_payload (Z.lor (pkt_payload p) NR_FLAG) p else p).

Definition intel_pt_get_tracestop (p : intel_pt_pkt) : getter :=
  Some (2, set_type INTEL_PT_TRACESTOP p).

Definition intel_pt_get_cbr (buf : bytes) (p : intel_pt_pkt) : getter :=
  if zlen buf <? 4 then Some (INTEL_PT_NEED_MORE_BYTES, p) else
  v ← rd_le buf 2 2;
  Some (4, set_payload v (set_type INTEL_PT_CBR p)).

Definition intel_pt_get_vmcs (buf : bytes) (p : intel_pt_pkt) : getter :=
  let count := Z.shiftr (52 - 5) 3 in
  if (count <? 1) || (7 <? count) then Some (INTEL_PT_BAD_PACKET, p) else
  if zlen buf <? count + 2 then Some (INTEL_PT_NEED_MORE_BYTES, p) else
  v ← rd_le buf 2 (Z.to_nat count);
  Some (count + 2, set_payload v (set_count count (set_type INTEL_PT_VMCS p))).

Definition intel_pt_get_ovf (p : intel_pt_pkt) : getter :=
  Some (2, set_type INTEL_PT_OVF p).

(** [for (i = 2; i < 16; i += 2) if (buf\[i\] != 2 || buf\[i + 1\] != 0x82) return BAD;]
    with [n] iterations left; [Some true] when every pair matched.  As in C,
    [buf\[i + 1\]] is read only when [buf\[i\]] matched. *)
Fixpoint psb_loop (buf : bytes) (i : Z) (n : nat) : option bool :=
  match n with
  | O => Some true
  | S n' =>
      b0 ← rd8 buf i;
      if negb (b0 =? 2) then Some false else
      b1 ← rd8 buf (i + 1);
      if negb (b1 =? 0x82) then Some false else psb_loop buf (i + 2) n'
  end.

Definition intel_pt_get_psb (buf : bytes) (p : intel_pt_pkt) : getter :=
  if zlen buf <? 16 then Some (INTEL_PT_NEED_MORE_BYTES, p) else
  ok ← psb_loop buf 2 7;
  if (ok : bool) then Some (16, set_type INTEL_PT_PSB p)
  else Some (INTEL_PT_BAD_PACKET, p).

Definition intel_pt_get_psbend (p : intel_pt_pkt) : getter :=
  Some (2, set_type INTEL_PT_PSBEND p).

Definition intel_pt_get_tma (buf : bytes) (p : intel_pt_pkt) : getter :=
  if zlen buf <? 7 then Some (INTEL_PT_NEED_MORE_BYTES, p) else
  b2 ← rd8 buf 2; b3 ← rd8 buf 3; b5 ← rd8 buf 5; b6 ← rd8 buf 6;
  Some (7, set_count (Z.lor b5 (Z.shiftl (Z.land b6 1) 8))
             (set_payload (Z.lor b2 (Z.shiftl b3 8)) (set_type INTEL_PT_TMA p))).

Definition intel_pt_get_pad (p : intel_pt_pkt) : getter :=
  Some (1, set_type INTEL_PT_PAD p).

Definition intel_pt_get_mnt (buf : bytes) (p : intel_pt_pkt) : getter :=
  if zlen buf <? 11 then Some (INTEL_PT_NEED_MORE_BYTES, p) else
  v ← rd_le buf 3 8;
  Some (11, set_payload v (set_type INTEL_PT_MNT p)).

Definition intel_pt_get_3byte (buf : bytes) (p : intel_pt_pkt) : getter :=
  if zlen buf <? 3 then Some (INTEL_PT_NEED_MORE_BYTES, p) else
  b2 ← rd8 buf 2;
  if b2 =? 0x88 then intel_pt_get_mnt buf p else Some (INTEL_PT_BAD_PACKET, p).

Definition intel_pt_get_ptwrite (buf : bytes) (p : intel_pt_pkt) : getter :=
  b1 ← rd8 buf 1;
  let count := Z.land (Z.shiftr b1 5) 0x3 in
  let p := set_type (if hasf b1 (2 ^ 7) then INTEL_PT_PTWRITE_IP else INTEL_PT_PTWRITE)
             (set_count count p) in
  if count =? 0 then
    if zlen buf <? 6 then Some (INTEL_PT_NEED_MORE_BYTES, p) else
    v ← rd_le buf 2 4; Some (6, set_payload v p)
  else if count =? 1 then
    if zlen buf <? 10 then Some (INTEL_PT_NEED_MORE_BYTES, p) else
    v ← rd_le buf 2 8; Some (10, set_payload v p)
  else Some (INTEL_PT_BAD_PACKET, p).

Definition intel_pt_get_exstop (p : intel_pt_pkt) : getter :=
  Some (2, set_type INTEL_PT_EXSTOP p).

Definition intel_pt_get_exstop_ip (p : intel_pt_pkt) : getter :=
  Some (2, set_type INTEL_PT_EXSTOP_IP p).

Definition intel_pt_get_mwait (buf : bytes) (p : intel_pt_pkt) : getter :=
  if zlen buf <? 10 then Some (INTEL_PT_NEED_MORE_BYTES, p) else
  v ← rd_le buf 2 8;
  Some (10, set_payload v (set_type INTEL_PT_MWAIT p)).

Definition intel_pt_get_pwre (buf : bytes) (p : intel_pt_pkt) : getter :=
  if zlen buf <? 4 then Some (INTEL_PT_NEED_MORE_BYTES, p) else
  v ← rd_le buf 2 2;
  Some (4, set_payload v (set_type INTEL_PT_PWRE p)).

Definition intel_pt_get_pwrx (buf : bytes) (p : intel_pt_pkt) : getter :=
  if zlen buf <? 7 then Some (INTEL_PT_NEED_MORE_BYTES, p) else
  v ← rd_le buf 2 5;
  Some (7, set_payload v (set_type INTEL_PT_PWRX p)).

Definition intel_pt_get_ext (buf : bytes) (p : intel_pt_pkt) : getter :=
  if zlen buf <? 2 then Some (INTEL_PT_NEED_MORE_BYTES, p) else
  b1 ← rd8 buf 1;
  if Z.land b1 0x1f =? 0x12 then intel_pt_get_ptwrite buf p else
  if b1 =? 0xa3 then intel_pt_get_long_tnt buf p else
  if b1 =? 0x43 then intel_pt_get_pip buf p else
  if b1 =? 0x83 then intel_pt_get_tracestop p else
  if b1 =? 0x03 then intel_pt_get_cbr buf p else
  if b1 =? 0xc8 then intel_pt_get_vmcs buf p else
  if b1 =? 0xf3 then intel_pt_get_ovf p else
  if b1 =? 0x82 then intel_pt_get_psb buf p else
  if b1 =? 0x23 then intel_pt_get_psbend p else
  if b1 =? 0x73 then intel_pt_get_tma buf p else
  if b1 =? 0xC3 then intel_pt_get_3byte buf p else
  if b1 =? 0x62 then intel_pt_get_exstop p else
  if b1 =? 0xE2 then intel_pt_get_exstop_ip p else
  if b1 =? 0xC2 then intel_pt_get_mwait buf p else
  if b1 =? 0x22 then intel_pt_get_pwre buf p else
  if b1 =? 0xA2 then intel_pt_get_pwrx buf p else
  Some (INTEL_PT_BAD_PACKET, p).

(** * Single-byte-header packets *)

(** [for (count = n; count; count--) { if (byte & BIT(7)) break; byte <<= 1; }],
    [byte] being an [unsigned int]. *)
Fixpoint short_tnt_loop (count : nat) (b : Z) : Z * Z :=
  match count with
  | O => (0, b)
  | S c =>
      if hasf b (2 ^ 7) then (Z.of_nat count, b)
      else short_tnt_loop c (u32 (Z.shiftl b 1))
  end.

Definition intel_pt_get_short_tnt (b : Z) (p : intel_pt_pkt) : getter :=
  let '(count, b) := short_tnt_loop 6 b in
  Some (1, set_payload (b <<64 57) (set_count count (set_type INTEL_PT_TNT p))).

(** The body of [for (shift = 5; byte & 1; shift += 7)].  The guard
    [offs > 9] ends the loop after at most nine iterations, so [fuel] 10 is
    never exhausted ([cyc_loop_fuel]). *)
Fixpoint cyc_loop (fuel : nat) (buf : bytes) (len offs shift b payload : Z)
    : option (Z * Z) :=
  match fuel with
  | O => None
  | S fuel =>
      if negb (hasf b 1) then Some (offs, payload) else
      if 9 <? offs then Some (INTEL_PT_BAD_PACKET, payload) else
      if len <? offs then Some (INTEL_PT_NEED_MORE_BYTES, payload) else
      b ← rd8 buf offs;
      cyc_loop fuel buf len (offs + 1) (shift + 7) b
        (Z.lor payload ((Z.shiftr b 1) <<64 shift))
  end.

Definition intel_pt_get_cyc (b : Z) (buf : bytes) (p : intel_pt_pkt) : getter :=
  '(offs, payload) ← cyc_loop 10 buf (zlen buf - 1) 1 5 (Z.shiftr b 2) (Z.shiftr b 3);
  if offs <? 0 then Some (offs, p)
  else Some (offs, set_payload payload (set_type INTEL_PT_CYC p)).

Definition intel_pt_get_ip (t : intel_pt_pkt_type) (b : Z) (buf : bytes)
    (p : intel_pt_pkt) : getter :=
  let count := Z.shiftr b 5 in
  let p := set_count count p in
  if count =? 0 then Some (0 + 1, set_type t p)
  else if count =? 1 then
    if zlen buf <? 3 then Some (INTEL_PT_NEED_MORE_BYTES, p) else
    v ← rd_le buf 1 2; Some (2 + 1, set_type t (set_payload v p))
  else if count =? 2 then
    if zlen buf <? 5 then Some (INTEL_PT_NEED_MORE_BYTES, p) else
    v ← rd_le buf 1 4; Some (4 + 1, set_type t (set_payload v p))
  else if (count =? 3) || (count =? 4) then
    if zlen buf <? 7 then Some (INTEL_PT_NEED_MORE_BYTES, p) else
    v ← rd_le buf 1 6; Some (6 + 1, set_type t (set_payload v p))
  else if count =? 6 then
    if zlen buf <? 9 then Some (INTEL_PT_NEED_MORE_BYTES, p) else
    v ← rd_le buf 1 8; Some (8 + 1, set_type t (set_payload v p))
  else Some (INTEL_PT_BAD_PACKET, p).

Definition intel_pt_get_mode (buf : bytes) (p : intel_pt_pkt) : getter :=
  if zlen buf <? 2 then Some (INTEL_PT_NEED_MORE_BYTES, p) else
  b1 ← rd8 buf 1;
  let hi := Z.shiftr b1 5 in
  let lo := Z.land b1 3 in
  if hi =? 0 then
    let p := set_type INTEL_PT_MODE_EXEC p in
    if lo =? 0 then Some (2, set_payload 16 p)
    else if lo =? 1 then Some (2, set_payload 64 p)
    else if lo =? 2 then Some (2, set_payload 32 p)
    else Some (INTEL_PT_BAD_PACKET, p)
  else if hi =? 1 then
    let p := set_type INTEL_PT_MODE_TSX p in
    if lo =? 3 then Some (INTEL_PT_BAD_PACKET, p)
    else Some (2, set_payload lo p)
  else Some (INTEL_PT_BAD_PACKET, p).

Definition intel_pt_get_tsc (buf : bytes) (p : intel_pt_pkt) : getter :=
  if zlen buf <? 8 then Some (INTEL_PT_NEED_MORE_BYTES, p) else
  v ← rd_le buf 1 7;
  Some (8, set_payload v (set_type INTEL_PT_TSC p)).

Definition intel_pt_get_mtc (buf : bytes) (p : intel_pt_pkt) : getter :=
  if zlen buf <? 2 then Some (INTEL_PT_NEED_MORE_BYTES, p) else
  b1 ← rd8 buf 1;
  Some (2, set_payload b1 (set_type INTEL_PT_MTC p)).

(** * The decoder *)

Definition intel_pt_do_get_packet (buf : bytes) : getter :=
  let p := pkt_zero in
  if zlen buf =? 0 then Some (INTEL_PT_NEED_MORE_BYTES, p) else
  b ← rd8 buf 0;
  if negb (hasf b 1) then
    if b =? 0 then intel_pt_get_pad p else
    if b =? 2 then intel_pt_get_ext buf p else
    intel_pt_get_short_tnt b p
  else if hasf b 2 then intel_pt_get_cyc b buf p
  else
    let lo := Z.land b 0x1f in
    if lo =? 0x0D then intel_pt_get_ip INTEL_PT_TIP b buf p else
    if lo =? 0x11 then intel_pt_get_ip INTEL_PT_TIP_PGE b buf p else
    if lo =? 0x01 then intel_pt_get_ip INTEL_PT_TIP_PGD b buf p else
    if lo =? 0x1D then intel_pt_get_ip INTEL_PT_FUP b buf p else
    if lo =? 0x19 then
      if b =? 0x99 then intel_pt_get_mode buf p else
      if b =? 0x19 then intel_pt_get_tsc buf p else
      if b =? 0x59 then intel_pt_get_mtc buf p else
      Some (INTEL_PT_BAD_PACKET, p)
    else Some (INTEL_PT_BAD_PACKET, p).

(** [while (ret < 8 && len > (size_t)ret && !buf\[ret\]) ret += 1;], at most
    [fuel] = 8 iterations because [ret] starts positive. *)
Fixpoint pad_loop (fuel : nat) (buf : bytes) (ret : Z) : option Z :=
  match fuel with
  | O => Some ret
  | S fuel =>
      if (ret <? 8) && (ret <? zlen buf) then
        b ← rd8 buf ret;
        if b =? 0 then pad_loop fuel buf (ret + 1) else Some ret
      else Some ret
  end.

Definition intel_pt_get_packet (buf : bytes) : getter :=
  '(ret, p) ← intel_pt_do_get_packet buf;
  if 0 <? ret then ret' ← pad_loop 8 buf ret; Some (ret', p)
  else Some (ret, p).

(** One line of the dump of intel_pt_dump: the bytes it covers and the packet,
    [None] for "Bad packet!". *)
Definition dump_line : Type := bytes * option intel_pt_pkt.

(** The [while (len)] loop of intel_pt_dump; every turn consumes at least one
    byte, so [length buf] turns are enough ([intel_pt_dump_partition]). *)
Fixpoint dump_loop (fuel : nat) (buf : bytes) : option (list dump_line) :=
  match fuel with
  | O => if zlen buf =? 0 then Some [] else None
  | S fuel =>
      if zlen buf =? 0 then Some [] else
      '(ret, p) ← intel_pt_get_packet buf;
      let pkt_len := if 0 <? ret then ret else 1 in
      line ← rdn buf 0 (Z.to_nat pkt_len);
      rest ← dump_loop fuel (drop (Z.to_nat pkt_len) buf);
      Some ((line, if 0 <? ret then Some p else None) :: rest)
  end.

Definition intel_pt_dump (buf : bytes) : option (list dump_line) :=
  dump_loop (length buf) buf.

(** * Safety: no read outside the buffer, no overlong result *)

(** A getter's result is acceptable for a buffer of [len] bytes. *)
Definition ret_ok (len : Z) (r : option (Z * intel_pt_pkt)) : Prop :=
  exists ret p, r = Some (ret, p) /\
    (ret = INTEL_PT_NEED_MORE_BYTES /\ len < INTEL_PT_PKT_MAX_SZ \/
     ret = INTEL_PT_BAD_PACKET \/
     1 <= ret <= len /\ ret <= INTEL_PT_PKT_MAX_SZ).

Lemma ret_ok_some len ret p :
  ret = INTEL_PT_NEED_MORE_BYTES /\ len < INTEL_PT_PKT_MAX_SZ \/
  ret = INTEL_PT_BAD_PACKET \/ 1 <= ret <= len /\ ret <= INTEL_PT_PKT_MAX_SZ ->
  ret_ok len (Some (ret, p)).
Proof. unfold ret_ok. eauto. Qed.

Ltac pt_arith :=
  unfold INTEL_PT_NEED_MORE_BYTES, INTEL_PT_BAD_PACKET, INTEL_PT_PKT_MAX_SZ in *; lia.

(** Runs a getter: resolves its length guards, checked reads and tests. *)
Ltac pt_step :=
  match goal with
  | |- ret_ok _ (Some _) => apply ret_ok_some; pt_arith
  | |- ret_ok _ (mbind _ (rd_le ?b ?o ?n)) =>
      rewrite (rd_le_in b o n) by pt_arith; mred
  | |- ret_ok _ (mbind _ (rd8 ?b ?o)) =>
      let E := fresh "E" in
      destruct (rd8_in b o) as (? & E & ?); [pt_arith|]; rewrite E; mred
  | |- ret_ok _ (if _ then _ else _) => case_test
  | |- ret_ok _ (let '(_, _) := ?x in _) => destruct x
  end.

Lemma psb_loop_ok buf i n :
  0 <= i -> i + 2 * Z.of_nat n <= zlen buf -> exists ok, psb_loop buf i n = Some ok.
Proof.
  revert i; induction n as [|n IH]; intros i H0 H1; simpl; [eauto|].
  destruct (rd8_in buf i) as (b0 & E0 & _); [lia|]. rewrite E0. simpl.
  case_test; [eauto|].
  destruct (rd8_in buf (i + 1)) as (b1 & E1 & _); [lia|]. rewrite E1. simpl.
  case_test; [eauto|]. apply IH; lia.
Qed.

Lemma intel_pt_get_psb_ok buf p : ret_ok (zlen buf) (intel_pt_get_psb buf p).
Proof.
  unfold intel_pt_get_psb. pt_step; [pt_step|].
  destruct (psb_loop_ok buf 2 7) as [ok E]; [lia..|]. rewrite E. simpl.
  destruct ok; pt_step.
Qed.

(** The CYC loop stays inside the buffer, never exhausts its fuel and never
    shifts by 64 or more. *)
Lemma cyc_loop_fuel fuel buf len offs shift b payload :
  len = zlen buf - 1 -> 1 <= offs -> offs <= len + 1 ->
  offs <= 10 -> 11 <= Z.of_nat fuel + offs ->
  exists ret payload', cyc_loop fuel buf len offs shift b payload = Some (ret, payload') /\
    (ret = INTEL_PT_NEED_MORE_BYTES /\ zlen buf < INTEL_PT_PKT_MAX_SZ \/
     ret = INTEL_PT_BAD_PACKET \/ 1 <= ret <= zlen buf /\ ret <= 10).
Proof.
  revert offs shift b payload. induction fuel as [|fuel IH];
    intros offs shift b payload Hlen Ho1 Ho2 Ho3 Hf; [lia|]. cbn [cyc_loop].
  case_test; [do 2 eexists; split; [reflexivity|]; right; right; lia|].
  case_test; [do 2 eexists; split; [reflexivity|]; auto|].
  case_test; [do 2 eexists; split; [reflexivity|]; left; pt_arith|].
  destruct (rd8_in buf offs) as (b' & E & _); [lia|]. rewrite E. simpl.
  apply IH; lia.
Qed.

Lemma intel_pt_get_cyc_ok b buf p :
  1 <= zlen buf -> ret_ok (zlen buf) (intel_pt_get_cyc b buf p).
Proof.
  intros Hl. unfold intel_pt_get_cyc.
  destruct (cyc_loop_fuel 10 buf (zlen buf - 1) 1 5 (Z.shiftr b 2) (Z.shiftr b 3))
    as (ret & payload & E & Hr); [lia..|]. rewrite E. simpl.
  case_test; pt_step.
Qed.

Lemma intel_pt_get_long_tnt_ok buf p : ret_ok (zlen buf) (intel_pt_get_long_tnt buf p).
Proof. unfold intel_pt_get_long_tnt; cbv zeta; repeat pt_step. Qed.

Lemma intel_pt_get_pip_ok buf p : ret_ok (zlen buf) (intel_pt_get_pip buf p).
Proof. unfold intel_pt_get_pip; cbv zeta; repeat pt_step. Qed.

Lemma intel_pt_get_cbr_ok buf p : ret_ok (zlen buf) (intel_pt_get_cbr buf p).
Proof. unfold intel_pt_get_cbr; cbv zeta; repeat pt_step. Qed.

Lemma intel_pt_get_vmcs_ok buf p : ret_ok (zlen buf) (intel_pt_get_vmcs buf p).
Proof. unfold intel_pt_get_vmcs. change (Z.shiftr (52 - 5) 3) with 5. repeat pt_step. Qed.

Lemma intel_pt_get_tma_ok buf p : ret_ok (zlen buf) (intel_pt_get_tma buf p).
Proof. unfold intel_pt_get_tma; cbv zeta; repeat pt_step. Qed.

Lemma intel_pt_get_mnt_ok buf p : ret_ok (zlen buf) (intel_pt_get_mnt buf p).
Proof. unfold intel_pt_get_mnt; cbv zeta; repeat pt_step. Qed.

Lemma intel_pt_get_mwait_ok buf p : ret_ok (zlen buf) (intel_pt_get_mwait buf p).
Proof. unfold intel_pt_get_mwait; cbv zeta; repeat pt_step. Qed.

Lemma intel_pt_get_pwre_ok buf p : ret_ok (zlen buf) (intel_pt_get_pwre buf p).
Proof. unfold intel_pt_get_pwre; cbv zeta; repeat pt_step. Qed.

Lemma intel_pt_get_pwrx_ok buf p : ret_ok (zlen buf) (intel_pt_get_pwrx buf p).
Proof. unfold intel_pt_get_pwrx; cbv zeta; repeat pt_step. Qed.

Lemma intel_pt_get_mode_ok buf p : ret_ok (zlen buf) (intel_pt_get_mode buf p).
Proof. unfold intel_pt_get_mode; cbv zeta; repeat pt_step. Qed.

Lemma intel_pt_get_tsc_ok buf p : ret_ok (zlen buf) (intel_pt_get_tsc buf p).
Proof. unfold intel_pt_get_tsc; cbv zeta; repeat pt_step. Qed.

Lemma intel_pt_get_mtc_ok buf p : ret_ok (zlen buf) (intel_pt_get_mtc buf p).
Proof. unfold intel_pt_get_mtc; cbv zeta; repeat pt_step. Qed.

Lemma intel_pt_get_3byte_ok buf p : ret_ok (zlen buf) (intel_pt_get_3byte buf p).
Proof. unfold intel_pt_get_3byte; repeat pt_step. apply intel_pt_get_mnt_ok. Qed.

Lemma intel_pt_get_ptwrite_ok buf p :
  2 <= zlen buf -> ret_ok (zlen buf) (intel_pt_get_ptwrite buf p).
Proof. intros. unfold intel_pt_get_ptwrite; cbv zeta; repeat pt_step. Qed.

Lemma intel_pt_get_ip_ok t b buf p :
  1 <= zlen buf -> ret_ok (zlen buf) (intel_pt_get_ip t b buf p).
Proof. intros Hl. unfold intel_pt_get_ip; cbv zeta; repeat pt_step. Qed.

Lemma intel_pt_get_short_tnt_ok b (buf : bytes) p :
  1 <= zlen buf -> ret_ok (zlen buf) (intel_pt_get_short_tnt b p).
Proof. intros. unfold intel_pt_get_short_tnt. repeat pt_step. Qed.

#[local] Hint Resolve intel_pt_get_psb_ok intel_pt_get_cyc_ok intel_pt_get_3byte_ok
  intel_pt_get_ptwrite_ok intel_pt_get_ip_ok intel_pt_get_short_tnt_ok
  intel_pt_get_long_tnt_ok intel_pt_get_pip_ok intel_pt_get_cbr_ok intel_pt_get_vmcs_ok intel_pt_get_tma_ok intel_pt_get_mnt_ok intel_pt_get_mwait_ok intel_pt_get_pwre_ok intel_pt_get_pwrx_ok intel_pt_get_mode_ok intel_pt_get_tsc_ok intel_pt_get_mtc_ok : perfdb.

Lemma intel_pt_get_ext_ok buf p : ret_ok (zlen buf) (intel_pt_get_ext buf p).
Proof.
  unfold intel_pt_get_ext. pt_step; [pt_step|]. pt_step.
  repeat (case_test; [solve [eauto with perfdb] || (apply ret_ok_some; pt_arith)|]).
  pt_step.
Qed.
#[local] Hint Resolve intel_pt_get_ext_ok : perfdb.

Lemma intel_pt_do_get_packet_ok buf : ret_ok (zlen buf) (intel_pt_do_get_packet buf).
Proof.
  unfold intel_pt_do_get_packet. pose proof (zlen_nonneg buf). cbv zeta.
  pt_step; [pt_step|]. assert (1 <= zlen buf) by lia. pt_step.
  repeat case_test; solve [eauto with perfdb | apply ret_ok_some; pt_arith].
Qed.

Lemma pad_loop_ok fuel buf ret :
  1 <= ret <= zlen buf ->
  exists ret', pad_loop fuel buf ret = Some ret' /\ ret <= ret' <= zlen buf /\
    (ret' = ret \/ ret' <= 8).
Proof.
  revert ret; induction fuel as [|fuel IH]; intros ret Hr; simpl; [exists ret; split; [reflexivity|lia]|].
  destruct (Z.ltb_spec ret 8), (Z.ltb_spec ret (zlen buf)); simpl;
    try (exists ret; split; [reflexivity|lia]).
  destruct (rd8_in buf ret) as (b & E & _); [lia|]. rewrite E. simpl.
  case_test; [|exists ret; split; [reflexivity|lia]].
  destruct (IH (ret + 1)) as (r & -> & ?); [lia|]. exists r. split; [reflexivity|lia].
Qed.

Lemma intel_pt_get_packet_ok (buf : list Z) :
  exists ret p, intel_pt_get_packet buf = Some (ret, p) /\
    (ret = INTEL_PT_NEED_MORE_BYTES /\ zlen buf < INTEL_PT_PKT_MAX_SZ \/
     ret = INTEL_PT_BAD_PACKET \/
     1 <= ret <= zlen buf /\ ret <= INTEL_PT_PKT_MAX_SZ).
Proof.
  unfold intel_pt_get_packet.
  destruct (intel_pt_do_get_packet_ok buf) as (ret & p & -> & Hr). mred.
  case_test; [|eexists _, _; split; [reflexivity|pt_arith]].
  destruct (pad_loop_ok 8 buf ret) as (ret' & -> & Hr'); [pt_arith|]. mred.
  eexists _, _; split; [reflexivity|]. pt_arith.
Qed.

(** C18: On every buffer the packet decoder reads only bytes of the buffer and
    returns either BAD_PACKET, NEED_MORE_BYTES, or a packet length that is at
    least 1, at most the buffer's length and at most INTEL_PT_PKT_MAX_SZ;
    NEED_MORE_BYTES is returned only for buffers shorter than
    INTEL_PT_PKT_MAX_SZ. *)
Theorem intel_pt_get_packet_safe (buf : list Z) :
  exists ret p, intel_pt_get_packet buf = Some (ret, p) /\
    (ret = INTEL_PT_NEED_MORE_BYTES /\ zlen buf < INTEL_PT_PKT_MAX_SZ \/
     ret = INTEL_PT_BAD_PACKET \/
     1 <= ret <= zlen buf /\ ret <= INTEL_PT_PKT_MAX_SZ).
Proof. apply intel_pt_get_packet_ok. Qed.

(** * The dump loop partitions the buffer *)

Lemma dump_loop_ok fuel buf :
  (length buf <= fuel)%nat ->
  exists lines, dump_loop fuel buf = Some lines /\ concat (fst <$> lines) = buf /\
    Forall (fun l : dump_line => 1 <= zlen (fst l) <= INTEL_PT_PKT_MAX_SZ) lines.
Proof.
  revert buf; induction fuel as [|fuel IH]; intros buf Hf.
  { destruct buf; [|simpl in Hf; lia]. exists []. simpl. auto. }
  cbn [dump_loop]. destruct (Z.eqb_spec (zlen buf) 0) as [H0|H0].
  { exists []. destruct buf; [simpl; auto|]. zlens. pose proof (zlen_nonneg buf). lia. }
  destruct (intel_pt_get_packet_ok buf) as (ret & p & -> & Hr). mred.
  set (n := if 0 <? ret then ret else 1).
  pose proof (zlen_nonneg buf).
  assert (Hn : 1 <= n <= zlen buf /\ n <= INTEL_PT_PKT_MAX_SZ)
    by (unfold n; case_test; pt_arith).
  rewrite rdn_in by lia. mred.
  destruct (IH (drop (Z.to_nat n) buf)) as (lines & -> & Hc & Hl).
  { rewrite length_drop. unfold zlen in *. lia. }
  mred. eexists; split; [reflexivity|]. rewrite drop_0. split.
  - rewrite fmap_cons. simpl. by rewrite Hc, take_drop.
  - constructor; [|done]. simpl. unfold zlen in *. rewrite length_take. lia.
Qed.

(** The trace dump terminates on every buffer without reading outside it,
    and its lines are non-empty, at most 16 bytes wide and concatenate to
    exactly the buffer: no byte is skipped or printed twice. *)
Theorem intel_pt_dump_partition (buf : list Z) :
  exists lines, intel_pt_dump buf = Some lines /\ concat (fst <$> lines) = buf /\
    Forall (fun l : dump_line => 1 <= zlen (fst l) <= INTEL_PT_PKT_MAX_SZ) lines.
Proof. by apply dump_loop_ok. Qed.

(** * Decoding depends on the packet's own bytes only *)

(** [stable m m']: unless [m] asks for more bytes, [m'] has the same result. *)
Definition stable (m m' : option (Z * intel_pt_pkt)) : Prop :=
  forall r q, m = Some (r, q) -> r <> INTEL_PT_NEED_MORE_BYTES -> m' = Some (r, q).

Lemma stable_refl m : stable m m.
Proof. by intros r q. Qed.

Lemma stable_more p m : stable (Some (INTEL_PT_NEED_MORE_BYTES, p)) m.
Proof. intros r q [= <- <-]. done. Qed.

Lemma stable_len (buf ext : bytes) k p m m' :
  stable m m' ->
  stable (if zlen buf <? k then Some (INTEL_PT_NEED_MORE_BYTES, p) else m)
    (if zlen (buf ++ ext) <? k then Some (INTEL_PT_NEED_MORE_BYTES, p) else m').
Proof.
  intros Hm. zlens. pose proof (zlen_nonneg ext).
  destruct (Z.ltb_spec (zlen buf) k); [apply stable_more|].
  destruct (Z.ltb_spec (zlen buf + zlen ext) k); [lia|done].
Qed.

Lemma stable_rd8 buf ext o f g :
  (forall v, stable (f v) (g v)) -> stable (rd8 buf o ≫= f) (rd8 (buf ++ ext) o ≫= g).
Proof.
  intros Hfg r q. destruct (rd8 buf o) as [v|] eqn:E; [|done].
  rewrite (rd8_app _ _ _ _ E). apply Hfg.
Qed.

Lemma stable_rd_le buf ext o n f g :
  (forall v, stable (f v) (g v)) -> stable (rd_le buf o n ≫= f) (rd_le (buf ++ ext) o n ≫= g).
Proof.
  intros Hfg r q. destruct (rd_le buf o n) as [v|] eqn:E; [|done].
  rewrite (rd_le_app _ _ _ _ _ E). apply Hfg.
Qed.

Lemma stable_if (c : bool) m m' k k' :
  stable m m' -> stable k k' -> stable (if c then m else k) (if c then m' else k').
Proof. by destruct c. Qed.

Ltac stable_step :=
  first [ apply stable_refl | apply stable_more | apply stable_len
        | apply stable_rd8; intros ? | apply stable_rd_le; intros ? | apply stable_if ].

Lemma psb_loop_app buf ext i n ok :
  psb_loop buf i n = Some ok -> psb_loop (buf ++ ext) i n = Some ok.
Proof.
  revert i; induction n as [|n IH]; intros i; [done|]. cbn [psb_loop].
  destruct (rd8 buf i) as [b0|] eqn:E0; [|done]. rewrite (rd8_app _ _ _ _ E0). mred.
  case_test; [done|].
  destruct (rd8 buf (i + 1)) as [b1|] eqn:E1; [|done]. rewrite (rd8_app _ _ _ _ E1). mred.
  case_test; [done|]. apply IH.
Qed.

Lemma intel_pt_get_psb_stable buf ext p :
  stable (intel_pt_get_psb buf p) (intel_pt_get_psb (buf ++ ext) p).
Proof.
  unfold intel_pt_get_psb. apply stable_len. intros r q.
  destruct (psb_loop buf 2 7) as [ok|] eqn:E; [|done].
  by rewrite (psb_loop_app _ _ _ _ _ E).
Qed.

Lemma cyc_loop_app fuel buf ext len len' offs shift b payload r v :
  len <= len' ->
  cyc_loop fuel buf len offs shift b payload = Some (r, v) ->
  r <> INTEL_PT_NEED_MORE_BYTES ->
  cyc_loop fuel (buf ++ ext) len' offs shift b payload = Some (r, v).
Proof.
  intros Hl. revert offs shift b payload. induction fuel as [|fuel IH];
    intros offs shift b payload; [done|]. cbn [cyc_loop].
  case_test; [done|]. case_test; [done|].
  case_test; [by intros [= <- <-]|]. intros Hs Hr.
  destruct (Z.ltb_spec len' offs); [lia|].
  destruct (rd8 buf offs) as [b'|] eqn:E; [|done]. rewrite (rd8_app _ _ _ _ E). mred.
  by apply IH.
Qed.

Lemma intel_pt_get_cyc_stable b buf ext p :
  stable (intel_pt_get_cyc b buf p) (intel_pt_get_cyc b (buf ++ ext) p).
Proof.
  unfold intel_pt_get_cyc. intros r q. zlens. pose proof (zlen_nonneg ext).
  destruct (cyc_loop 10 buf _ _ _ _ _) as [[o v]|] eqn:E; [|done]. mred. intros Hq Hr.
  assert (Ho : o <> INTEL_PT_NEED_MORE_BYTES)
    by (intros ->; simpl in Hq; by injection Hq as <- <-).
  apply (cyc_loop_app _ _ ext _ (zlen buf + zlen ext - 1)) in E; [|lia|done].
  by rewrite E.
Qed.

Lemma intel_pt_get_ptwrite_stable buf ext p :
  stable (intel_pt_get_ptwrite buf p) (intel_pt_get_ptwrite (buf ++ ext) p).
Proof. unfold intel_pt_get_ptwrite; cbv zeta; repeat stable_step. Qed.

Lemma intel_pt_get_ip_stable t b buf ext p :
  stable (intel_pt_get_ip t b buf p) (intel_pt_get_ip t b (buf ++ ext) p).
Proof. unfold intel_pt_get_ip; cbv zeta; repeat stable_step. Qed.

Lemma intel_pt_get_ext_stable buf ext p :
  stable (intel_pt_get_ext buf p) (intel_pt_get_ext (buf ++ ext) p).
Proof.
  unfold intel_pt_get_ext, intel_pt_get_long_tnt, intel_pt_get_pip, intel_pt_get_cbr,
    intel_pt_get_vmcs, intel_pt_get_tma, intel_pt_get_3byte, intel_pt_get_mnt,
    intel_pt_get_mwait, intel_pt_get_pwre, intel_pt_get_pwrx; cbv zeta.
  repeat first [ apply intel_pt_get_psb_stable | apply intel_pt_get_ptwrite_stable
               | stable_step ].
Qed.

(** Once the decoder has decided on a packet (or has rejected the bytes),
    appending further trace bytes changes neither the packet nor its length:
    decoding never depends on bytes after the packet, so a packet split over
    two buffers decodes as if the buffers were joined. *)
Theorem intel_pt_do_get_packet_prefix (buf ext : list Z) (r : Z) (q : intel_pt_pkt) :
  intel_pt_do_get_packet buf = Some (r, q) -> r <> INTEL_PT_NEED_MORE_BYTES ->
  intel_pt_do_get_packet (buf ++ ext) = Some (r, q).
Proof.
  revert r q. change (stable (intel_pt_do_get_packet buf) (intel_pt_do_get_packet (buf ++ ext))).
  unfold intel_pt_do_get_packet. cbv zeta.
  destruct (Z.eqb_spec (zlen buf) 0); [apply stable_more|].
  zlens. pose proof (zlen_nonneg ext). pose proof (zlen_nonneg buf).
  destruct (Z.eqb_spec (zlen buf + zlen ext) 0); [lia|].
  apply stable_rd8; intros b. unfold intel_pt_get_mode, intel_pt_get_tsc, intel_pt_get_mtc.
  repeat first [ apply intel_pt_get_ext_stable | apply intel_pt_get_cyc_stable
               | apply intel_pt_get_ip_stable | stable_step ].
Qed.

Lemma intel_pt_do_get_packet_prefix_witness :
  intel_pt_do_get_packet ([0x59; 0x2a] ++ [0x00; 0x19]) = Some (2, Pkt INTEL_PT_MTC 0 0x2a).
Proof. apply intel_pt_do_get_packet_prefix; [reflexivity | discriminate]. Defined.

(** * Round trips with the packet formats *)

(** The taken/not-taken bits of a TNT packet, oldest branch first, as the
    consumers of the packet read them ([payload & BIT63], [payload <<= 1]). *)
Definition tnt_bits (p : intel_pt_pkt) : list bool :=
  (fun i => Z.testbit (pkt_payload p) (63 - i)) <$> seqZ 0 (pkt_count p).

(** The packet formats: a stop bit followed by the branch bits, oldest first. *)
Definition tnt_word (bs : list bool) : Z := foldl (fun a b => 2 * a + Z.b2z b) 1 bs.
Definition short_tnt_enc (bs : list bool) : bytes := [2 * tnt_word bs].
Definition long_tnt_enc (bs : list bool) : bytes := [0x02; 0xa3] ++ le_bytes 6 (tnt_word bs).

Lemma tnt_word_snoc bs b : tnt_word (bs ++ [b]) = 2 * tnt_word bs + Z.b2z b.
Proof. unfold tnt_word. by rewrite foldl_app. Qed.

Lemma tnt_word_bound bs : 2 ^ zlen bs <= tnt_word bs < 2 ^ (zlen bs + 1).
Proof.
  induction bs as [|b bs IH] using rev_ind; [done|].
  rewrite tnt_word_snoc. zlens. pose proof (zlen_nonneg bs).
  rewrite !Z.pow_add_r in * by lia. destruct b; simpl; lia.
Qed.

Lemma tnt_word_bit bs i b :
  bs !! i = Some b -> Z.testbit (tnt_word bs) (zlen bs - 1 - Z.of_nat i) = b.
Proof.
  revert i; induction bs as [|c bs IH] using rev_ind; intros i Hl; [done|].
  rewrite tnt_word_snoc. zlens. unfold zlen in *.
  apply lookup_app_Some in Hl as [Hl|[Hge Hl]].
  - pose proof (lookup_lt_Some _ _ _ Hl).
    replace (Z.of_nat (length bs) + (1 + 0) - 1 - Z.of_nat i)
      with (Z.succ (Z.of_nat (length bs) - 1 - Z.of_nat i)) by lia.
    rewrite Z.testbit_succ_r by lia. by apply IH.
  - apply list_lookup_singleton_Some in Hl as [Hi ->].
    replace (Z.of_nat (length bs) + (1 + 0) - 1 - Z.of_nat i) with 0 by lia.
    by rewrite Z.testbit_0_r.
Qed.

Lemma long_tnt_loop_norm d c P :
  2 ^ (63 - Z.of_nat d) <= P < 2 ^ (64 - Z.of_nat d) -> (d <= c)%nat -> (d <= 63)%nat ->
  long_tnt_loop c P = (Z.of_nat c - Z.of_nat d, P * 2 ^ Z.of_nat d).
Proof.
  revert c P; induction d as [|d IH]; intros c P HP Hc Hd.
  - change (Z.of_nat 0) with 0 in *. rewrite Z.pow_0_r, Z.mul_1_r, Z.sub_0_r.
    destruct c as [|c]; [done|]. cbn [long_tnt_loop].
    unfold BIT63. rewrite hasf_top by lia.
    destruct (Z.leb_spec (2 ^ 63) P); [done|lia].
  - destruct c as [|c]; [lia|]. cbn [long_tnt_loop].
    assert (H63 : 2 ^ (64 - Z.of_nat (S d)) <= 2 ^ 63) by (apply Z.pow_le_mono_r; lia).
    assert (0 < 2 ^ (63 - Z.of_nat (S d))) by (apply Z.pow_pos_nonneg; lia).
    unfold BIT63. rewrite hasf_top by lia.
    destruct (Z.leb_spec (2 ^ 63) P); [lia|].
    rewrite Z.shiftl_mul_pow2, u64_small by lia.
    replace (63 - Z.of_nat d) with (1 + (63 - Z.of_nat (S d))) in IH by lia.
    replace (64 - Z.of_nat d) with (1 + (64 - Z.of_nat (S d))) in IH by lia.
    rewrite !(Z.pow_add_r 2 1) in IH by lia.
    rewrite (IH c) by lia. f_equal; [lia|].
    rewrite (Nat2Z.inj_succ d), Z.pow_succ_r by lia. lia.
Qed.

Lemma short_tnt_loop_norm d c P :
  2 ^ (7 - Z.of_nat d) <= P < 2 ^ (8 - Z.of_nat d) -> (d <= c)%nat -> (d <= 7)%nat ->
  short_tnt_loop c P = (Z.of_nat c - Z.of_nat d, P * 2 ^ Z.of_nat d).
Proof.
  revert c P; induction d as [|d IH]; intros c P HP Hc Hd.
  - change (Z.of_nat 0) with 0 in *. rewrite Z.pow_0_r, Z.mul_1_r, Z.sub_0_r.
    destruct c as [|c]; [done|]. cbn [short_tnt_loop]. rewrite hasf_top by lia.
    destruct (Z.leb_spec (2 ^ 7) P); [done|lia].
  - destruct c as [|c]; [lia|]. cbn [short_tnt_loop].
    assert (H63 : 2 ^ (8 - Z.of_nat (S d)) <= 2 ^ 7) by (apply Z.pow_le_mono_r; lia).
    assert (0 < 2 ^ (7 - Z.of_nat (S d))) by (apply Z.pow_pos_nonneg; lia).
    rewrite hasf_top by lia.
    destruct (Z.leb_spec (2 ^ 7) P); [lia|].
    rewrite Z.shiftl_mul_pow2, u32_small by lia.
    replace (7 - Z.of_nat d) with (1 + (7 - Z.of_nat (S d))) in IH by lia.
    replace (8 - Z.of_nat d) with (1 + (8 - Z.of_nat (S d))) in IH by lia.
    rewrite !(Z.pow_add_r 2 1) in IH by lia.
    rewrite (IH c) by lia. f_equal; [lia|].
    rewrite (Nat2Z.inj_succ d), Z.pow_succ_r by lia. lia.
Qed.

(** Reading the bits back: the payload holds the word [w] with its stop bit at
    position 64, whatever is below. *)
Lemma tnt_bits_of_word bs payload sh t :
  0 <= sh -> 0 <= t < 2 ^ sh -> sh + zlen bs = 64 ->
  payload = u64 (tnt_word bs * 2 ^ sh + t) ->
  tnt_bits (Pkt INTEL_PT_TNT (zlen bs) payload) = bs.
Proof.
  intros Hs Ht Hn ->. unfold tnt_bits. cbn [pkt_payload pkt_count].
  apply list_eq. intros i. rewrite list_lookup_fmap.
  destruct (decide (i < length bs)%nat) as [Hi|Hi].
  - rewrite lookup_seqZ_lt by (unfold zlen; lia). simpl.
    destruct (lookup_lt_is_Some_2 bs i Hi) as [b Hb]. rewrite Hb. f_equal.
    rewrite <- (tnt_word_bit _ _ _ Hb). unfold zlen in *.
    unfold wrap. rewrite Z.mod_pow2_bits_low by lia.
    rewrite Z.add_comm, <- lor_add_disjoint, Z.lor_spec by lia.
    rewrite (testbit_above t sh) by lia. rewrite Z.shiftl_spec by lia.
    simpl. f_equal. lia.
  - rewrite lookup_seqZ_ge by (unfold zlen; lia).
    by rewrite lookup_ge_None_2 by lia.
Qed.

Lemma do_get_packet_long_tnt rest :
  intel_pt_do_get_packet (0x02 :: 0xa3 :: rest) =
  intel_pt_get_long_tnt (0x02 :: 0xa3 :: rest) pkt_zero.
Proof.
  unfold intel_pt_do_get_packet. cbv zeta. pose proof (zlen_nonneg rest).
  rewrite !zlen_cons. destruct (Z.eqb_spec (1 + (1 + zlen rest)) 0); [lia|].
  change (rd8 (0x02 :: 0xa3 :: rest) 0) with (Some 0x02). mred.
  change (hasf 2 1) with false. cbn [negb Z.eqb Pos.eqb].
  unfold intel_pt_get_ext. rewrite !zlen_cons.
  destruct (Z.ltb_spec (1 + (1 + zlen rest)) 2); [lia|].
  change (rd8 (0x02 :: 0xa3 :: rest) 1) with (Some 0xa3). mred.
  change (Z.land 0xa3 0x1f =? 0x12) with false. done.
Qed.

Lemma long_tnt_decode bs ext :
  zlen bs <= 47 ->
  exists v, intel_pt_do_get_packet (long_tnt_enc bs ++ ext)
              = Some (8, Pkt INTEL_PT_TNT (zlen bs) v) /\
    tnt_bits (Pkt INTEL_PT_TNT (zlen bs) v) = bs.
Proof.
  intros Hn. pose proof (tnt_word_bound bs) as Hw. pose proof (zlen_nonneg bs) as H0.
  pose proof (zlen_nonneg ext).
  assert (Hw6 : tnt_word bs < 256 ^ 6)
    by (eapply Z.lt_le_trans; [apply Hw|]; change (256 ^ 6) with (2 ^ 48);
        apply Z.pow_le_mono_r; lia).
  assert (H2 : 0 < 2 ^ zlen bs) by (apply Z.pow_pos_nonneg; lia).
  set (P := tnt_word bs * 2 ^ 16 + 0xa302).
  assert (Henc : long_tnt_enc bs = le_bytes 8 P).
  { unfold long_tnt_enc, P. cbn [le_bytes app]. repeat f_equal; Z.div_mod_to_equations; lia. }
  set (d := Z.to_nat (47 - zlen bs)).
  assert (Hloop : long_tnt_loop 47 P = (zlen bs, P * 2 ^ Z.of_nat d)).
  { rewrite (long_tnt_loop_norm d) by
      (try lia; unfold P, d; rewrite Z2Nat.id by lia;
       replace (63 - (47 - zlen bs)) with (zlen bs + 16) by lia;
       replace (64 - (47 - zlen bs)) with (zlen bs + 1 + 16) by lia;
       rewrite !(Z.pow_add_r _ _ 16) by lia; lia).
    f_equal. unfold d. lia. }
  eexists. split.
  - unfold long_tnt_enc at 1. cbn [app]. rewrite do_get_packet_long_tnt.
    change (0x02 :: 0xa3 :: le_bytes 6 (tnt_word bs) ++ ext) with (long_tnt_enc bs ++ ext).
    unfold intel_pt_get_long_tnt.
    destruct (Z.ltb_spec (zlen (long_tnt_enc bs ++ ext)) 8) as [Hlt|].
    { rewrite Henc, zlen_app, zlen_le_bytes in Hlt. lia. }
    rewrite Henc, <- (app_nil_l (le_bytes 8 P ++ ext)).
    rewrite rd_le_mid by (done || unfold P; lia). mred. rewrite Hloop. reflexivity.
  - apply (tnt_bits_of_word bs _ (64 - zlen bs) (0xa302 * 2 ^ (Z.of_nat d + 1))); try lia.
    + split; [lia|]. replace (64 - zlen bs) with (16 + (Z.of_nat d + 1)) by (unfold d; lia).
      rewrite (Z.pow_add_r 2 16) by lia. apply Z.mul_lt_mono_pos_r; [|lia].
      apply Z.pow_pos_nonneg; lia.
    + cbn [pkt_payload set_payload]. f_equal. rewrite Z.shiftl_mul_pow2 by lia. unfold P.
      replace (64 - zlen bs) with (16 + (Z.of_nat d + 1)) by (unfold d; lia).
      rewrite !Z.pow_add_r by lia. lia.
Qed.

Lemma do_get_packet_short_tnt w rest :
  2 <= w -> intel_pt_do_get_packet (2 * w :: rest) = intel_pt_get_short_tnt (2 * w) pkt_zero.
Proof.
  intros Hw. unfold intel_pt_do_get_packet. cbv zeta. pose proof (zlen_nonneg rest).
  rewrite !zlen_cons. destruct (Z.eqb_spec (1 + zlen rest) 0); [lia|].
  change (rd8 (2 * w :: rest) 0) with (Some (2 * w)). mred.
  rewrite hasf_1, Z.odd_mul. cbn [Z.odd andb negb].
  destruct (Z.eqb_spec (2 * w) 0); [lia|]. destruct (Z.eqb_spec (2 * w) 2); [lia|]. done.
Qed.

Lemma short_tnt_decode bs ext :
  1 <= zlen bs <= 6 ->
  exists v, intel_pt_do_get_packet (short_tnt_enc bs ++ ext)
              = Some (1, Pkt INTEL_PT_TNT (zlen bs) v) /\
    tnt_bits (Pkt INTEL_PT_TNT (zlen bs) v) = bs.
Proof.
  intros Hn. pose proof (tnt_word_bound bs) as Hw.
  assert (H2 : 2 ^ 1 <= 2 ^ zlen bs) by (apply Z.pow_le_mono_r; lia).
  set (d := Z.to_nat (6 - zlen bs)).
  assert (Hloop : short_tnt_loop 6 (2 * tnt_word bs)
                  = (zlen bs, 2 * tnt_word bs * 2 ^ Z.of_nat d)).
  { rewrite (short_tnt_loop_norm d) by
      (try lia; unfold d; rewrite Z2Nat.id by lia;
       replace (7 - (6 - zlen bs)) with (1 + zlen bs) by lia;
       replace (8 - (6 - zlen bs)) with (1 + (zlen bs + 1)) by lia;
       rewrite !(Z.pow_add_r _ 1) by lia; lia).
    f_equal. unfold d. lia. }
  eexists. split.
  - unfold short_tnt_enc. cbn [app]. rewrite do_get_packet_short_tnt by lia.
    unfold intel_pt_get_short_tnt. rewrite Hloop. reflexivity.
  - apply (tnt_bits_of_word bs _ (64 - zlen bs) 0); try lia.
    cbn [pkt_payload set_payload]. f_equal. rewrite Z.shiftl_mul_pow2 by lia.
    replace (64 - zlen bs) with (58 + Z.of_nat d) by (unfold d; lia).
    rewrite !Z.pow_add_r by lia. lia.
Qed.

(** A branch history of up to 6 bits encoded as a short TNT packet, or of
    up to 47 bits encoded as a long TNT packet, is decoded back bit for bit:
    the packet's count is the number of branches and reading the payload from
    its top bit downwards gives the branches oldest first. *)
Theorem intel_pt_tnt_roundtrip (bs : list bool) (ext : list Z) :
  (1 <= zlen bs <= 6 ->
   exists p, intel_pt_do_get_packet (short_tnt_enc bs ++ ext) = Some (1, p) /\
     pkt_type p = INTEL_PT_TNT /\ tnt_bits p = bs) /\
  (zlen bs <= 47 ->
   exists p, intel_pt_do_get_packet (long_tnt_enc bs ++ ext) = Some (8, p) /\
     pkt_type p = INTEL_PT_TNT /\ tnt_bits p = bs).
Proof.
  split; intros Hn.
  - destruct (short_tnt_decode bs ext Hn) as (v & ? & ?). eauto.
  - destruct (long_tnt_decode bs ext Hn) as (v & ? & ?). eauto.
Qed.

Lemma intel_pt_tnt_roundtrip_witness :
  exists p, intel_pt_do_get_packet (short_tnt_enc [true; false; true] ++ [0x00]) = Some (1, p) /\
    pkt_type p = INTEL_PT_TNT /\ tnt_bits p = [true; false; true].
Proof.
  apply (intel_pt_tnt_roundtrip [true; false; true] [0x00]). split; vm_compute; discriminate.
Defined.

(** The CYC format: five payload bits in the header byte, then seven per
    continuation byte, least significant first. *)
Fixpoint cyc_tail (n : nat) (w : Z) : bytes :=
  match n with
  | O => []
  | S n => if w =? 0 then []
           else (2 * (w mod 128) + (if w / 128 =? 0 then 0 else 1)) :: cyc_tail n (w / 128)
  end.
Definition cyc_enc (v : Z) : bytes :=
  (8 * (v mod 32) + (if v / 32 =? 0 then 0 else 4) + 3) :: cyc_tail 9 (v / 32).

Lemma hasf_1_even_plus a c : hasf (2 * a + (if (c : bool) then 0 else 1)) 1 = negb c.
Proof. rewrite hasf_1, Z.odd_add, Z.odd_mul. by destruct c. Qed.

Lemma shiftr_1_even_plus a c : Z.shiftr (2 * a + (if (c : bool) then 0 else 1)) 1 = a.
Proof. rewrite Z.shiftr_div_pow2 by lia. destruct c; Z.div_mod_to_equations; lia. Qed.

Lemma cyc_loop_S fuel buf len offs shift b payload :
  cyc_loop (S fuel) buf len offs shift b payload =
  if negb (hasf b 1) then Some (offs, payload) else
  if 9 <? offs then Some (INTEL_PT_BAD_PACKET, payload) else
  if len <? offs then Some (INTEL_PT_NEED_MORE_BYTES, payload) else
  b ← rd8 buf offs;
  cyc_loop fuel buf len (offs + 1) (shift + 7) b
    (Z.lor payload ((Z.shiftr b 1) <<64 shift)).
Proof. done. Qed.

Lemma cyc_loop_tail n w pre ext b shift acc len offs :
  0 <= w < 128 ^ Z.of_nat n -> hasf b 1 = negb (w =? 0) ->
  offs = zlen pre -> 1 <= offs -> offs + Z.of_nat n <= 10 ->
  zlen pre + zlen (cyc_tail n w) + zlen ext <= len + 1 ->
  0 <= shift -> 0 <= acc < 2 ^ shift -> w * 2 ^ shift < 2 ^ 64 ->
  cyc_loop (S n) (pre ++ cyc_tail n w ++ ext) len offs shift b acc
    = Some (offs + zlen (cyc_tail n w), acc + w * 2 ^ shift).
Proof.
  revert w pre b shift acc offs.
  induction n as [|n IH]; intros w pre b shift acc offs Hw Hb Ho Ho1 Hon Hlen Hs Hacc Hws.
  { cbn [cyc_loop cyc_tail]. rewrite Hb. change (Z.of_nat 0) with 0 in Hw.
    replace w with 0 by lia. simpl. f_equal. f_equal; [unfold zlen; simpl; lia | lia]. }
  rewrite cyc_loop_S. cbn [cyc_tail] in *. rewrite Hb.
  destruct (Z.eqb_spec w 0) as [->|Hne]; [simpl; repeat f_equal; unfold zlen; simpl; lia|].
  cbn [negb]. destruct (Z.ltb_spec 9 offs); [lia|].
  set (x := 2 * (w mod 128) + (if w / 128 =? 0 then 0 else 1)) in *. zlens.
  pose proof (zlen_nonneg (cyc_tail n (w / 128))). pose proof (zlen_nonneg ext).
  destruct (Z.ltb_spec len offs); [lia|].
  assert (Hrd : rd8 (pre ++ (x :: cyc_tail n (w / 128)) ++ ext) offs = Some x).
  { unfold rd8. destruct (Z.ltb_spec offs 0); [lia|]. subst offs.
    unfold zlen. rewrite Nat2Z.id. cbn [app]. by rewrite list_lookup_middle. }
  rewrite Hrd. mred.
  assert (Hpos : 0 < 2 ^ shift) by (apply Z.pow_pos_nonneg; lia).
  assert (Hm : 0 <= w mod 128 < 128) by (apply Z.mod_pos_bound; lia).
  assert (Hdm : w = 128 * (w / 128) + w mod 128) by (apply Z.div_mod; lia).
  assert (Hd0 : 0 <= w / 128) by (apply Z.div_pos; lia).
  replace (Z.shiftr x 1) with (w mod 128) by (symmetry; apply shiftr_1_even_plus).
  rewrite u64_small
    by (rewrite Z.shiftl_mul_pow2 by lia; change (2 ^ 64) with 18446744073709551616 in Hws; nia).
  rewrite lor_add_disjoint by lia.
  replace (pre ++ (x :: cyc_tail n (w / 128)) ++ ext)
    with ((pre ++ [x]) ++ cyc_tail n (w / 128) ++ ext) by (by rewrite <- app_assoc).
  assert (H7 : 2 ^ (shift + 7) = 128 * 2 ^ shift) by (rewrite Z.pow_add_r by lia; lia).
  rewrite IH.
  - apply f_equal, f_equal2; [lia|]. rewrite H7. nia.
  - rewrite Nat2Z.inj_succ, Z.pow_succ_r in Hw by lia. lia.
  - apply hasf_1_even_plus.
  - zlens. lia.
  - lia.
  - lia.
  - zlens. lia.
  - lia.
  - rewrite H7. nia.
  - rewrite H7. nia.
Qed.

(** Every 64-bit cycle count encoded as a CYC packet (at most ten bytes)
    is decoded to exactly that count, consuming exactly the encoded bytes. *)
Theorem intel_pt_cyc_roundtrip (v : Z) (ext : list Z) :
  is_uint 64 v ->
  intel_pt_do_get_packet (cyc_enc v ++ ext) =
  Some (zlen (cyc_enc v), Pkt INTEL_PT_CYC 0 v).
Proof.
  intros [Hv0 Hv]. unfold cyc_enc, intel_pt_do_get_packet. cbv zeta. cbn [app].
  pose proof (zlen_nonneg (cyc_tail 9 (v / 32) ++ ext)).
  rewrite zlen_cons. destruct (Z.eqb_spec (1 + zlen (cyc_tail 9 (v / 32) ++ ext)) 0); [lia|].
  set (b := 8 * (v mod 32) + (if v / 32 =? 0 then 0 else 4) + 3).
  change (rd8 (b :: cyc_tail 9 (v / 32) ++ ext) 0) with (Some b). mred.
  assert (Hm : 0 <= v mod 32 < 32) by (apply Z.mod_pos_bound; lia).
  assert (Hb : b = 2 * (2 * (2 * (v mod 32) + (if v / 32 =? 0 then 0 else 1)) + 1) + 1)
    by (unfold b; destruct (v / 32 =? 0); lia).
  assert (Hb1 : hasf b 1 = true) by (rewrite hasf_1, Hb, Z.odd_add, Z.odd_mul; done).
  set (c := 2 * (v mod 32) + (if v / 32 =? 0 then 0 else 1)) in *.
  assert (Hb2 : hasf b 2 = true).
  { rewrite hasf_2. replace (b / 2) with (2 * c + 1) by (Z.div_mod_to_equations; lia).
    by rewrite Z.odd_add, Z.odd_mul. }
  rewrite Hb1, Hb2. cbn [negb]. unfold intel_pt_get_cyc.
  replace (Z.shiftr b 2) with c
    by (rewrite Z.shiftr_div_pow2 by lia; Z.div_mod_to_equations; lia).
  replace (Z.shiftr b 3) with (v mod 32)
    by (rewrite Z.shiftr_div_pow2 by lia; unfold c in *;
        destruct (v / 32 =? 0); Z.div_mod_to_equations; lia).
  change (b :: cyc_tail 9 (v / 32) ++ ext) with ([b] ++ cyc_tail 9 (v / 32) ++ ext).
  assert (Hdiv : 0 <= v / 32 < 2 ^ 59)
    by (split; [apply Z.div_pos; lia | apply Z.div_lt_upper_bound; lia]).
  rewrite cyc_loop_tail.
  - mred. zlens. pose proof (zlen_nonneg (cyc_tail 9 (v / 32))).
    destruct (Z.ltb_spec (1 + zlen (cyc_tail 9 (v / 32))) 0); [lia|].
    do 2 f_equal. unfold set_payload. cbn [pkt_type pkt_count set_type].
    f_equal. change (2 ^ 5) with 32. rewrite (Z.div_mod v 32) at 3 by lia. lia.
  - lia.
  - apply hasf_1_even_plus.
  - done.
  - lia.
  - lia.
  - zlens. lia.
  - lia.
  - lia.
  - lia.
Qed.

Lemma intel_pt_cyc_roundtrip_witness :
  intel_pt_do_get_packet (cyc_enc 1000000 ++ [0x00]) = Some (4, Pkt INTEL_PT_CYC 0 1000000).
Proof. apply (intel_pt_cyc_roundtrip 1000000 [0x00]). split; vm_compute; congruence. Defined.
