(* ===== verification/OrderedEvents.v ===== *)
(** Model of util/ordered-events.c and .h: the queue that reorders the events
    of a perf.data file by timestamp.

    [struct ordered_events] is a record; its intrusive lists [events] and
    [cache] hold the [ordered_event] objects, each named by its slot (the
    address of the object), and [last] is a slot, so the hint pointer of the
    source, which may also dangle, is kept as a pointer.  malloc is an oracle
    on the number of calls made so far; the deliver callback and session_done
    act on a client state [W] threaded through the calls.

    The layout constants are those of a 64-bit build: an [ordered_event] has 40
    bytes and an [ordered_events_buffer] header 16. *)

From S2P Require Import Prelude.

(** * Data *)

Definition ETIME : Z := 62.
Definition ENOMEM : Z := 12.

Inductive oe_flush :=
| OE_FLUSH__NONE | OE_FLUSH__FINAL | OE_FLUSH__ROUND
| OE_FLUSH__HALF | OE_FLUSH__TOP | OE_FLUSH__TIME.

(** [64 * 1024 / sizeof(struct ordered_event)] *)
Definition MAX_SAMPLE_BUFFER : Z := 64 * 1024 / 40.
Definition sizeof_buffer : Z := 16 + MAX_SAMPLE_BUFFER * 40.

Section OrderedEvents.
Context {E : Type} (header_size : E -> Z).

Record ordered_event := OEvent {
  oev_slot : Z;
  oev_timestamp : Z;
  oev_file_offset : Z;
  oev_event : option E
}.

Record ordered_events := OE {
  last_flush : Z;
  next_flush : Z;
  max_timestamp : Z;
  max_alloc_size : Z;
  cur_alloc_size : Z;
  events : list ordered_event;
  cache : list ordered_event;
  to_free : list Z;
  buffer : option Z;
  last : option Z;
  buffer_idx : Z;
  nr_events : Z;
  last_flush_type : oe_flush;
  nr_unordered_events : Z;
  copy_on_queue : bool;
  data : Z;
  (* allocator state: calls of malloc made, buffers handed out *)
  mcalls : nat;
  nbuf : Z
}.

Implicit Types oe : ordered_events.

Definition with_last_flush v oe := OE v (next_flush oe) (max_timestamp oe) (max_alloc_size oe) (cur_alloc_size oe) (events oe) (cache oe) (to_free oe) (buffer oe) (last oe) (buffer_idx oe) (nr_events oe) (last_flush_type oe) (nr_unordered_events oe) (copy_on_queue oe) (data oe) (mcalls oe) (nbuf oe).
Definition with_next_flush v oe := OE (last_flush oe) v (max_timestamp oe) (max_alloc_size oe) (cur_alloc_size oe) (events oe) (cache oe) (to_free oe) (buffer oe) (last oe) (buffer_idx oe) (nr_events oe) (last_flush_type oe) (nr_unordered_events oe) (copy_on_queue oe) (data oe) (mcalls oe) (nbuf oe).
Definition with_max_timestamp v oe := OE (last_flush oe) (next_flush oe) v (max_alloc_size oe) (cur_alloc_size oe) (events oe) (cache oe) (to_free oe) (buffer oe) (last oe) (buffer_idx oe) (nr_events oe) (last_flush_type oe) (nr_unordered_events oe) (copy_on_queue oe) (data oe) (mcalls oe) (nbuf oe).
Definition with_cur_alloc_size v oe := OE (last_flush oe) (next_flush oe) (max_timestamp oe) (max_alloc_size oe) v (events oe) (cache oe) (to_free oe) (buffer oe) (last oe) (buffer_idx oe) (nr_events oe) (last_flush_type oe) (nr_unordered_events oe) (copy_on_queue oe) (data oe) (mcalls oe) (nbuf oe).
Definition with_events v oe := OE (last_flush oe) (next_flush oe) (max_timestamp oe) (max_alloc_size oe) (cur_alloc_size oe) v (cache oe) (to_free oe) (buffer oe) (last oe) (buffer_idx oe) (nr_events oe) (last_flush_type oe) (nr_unordered_events oe) (copy_on_queue oe) (data oe) (mcalls oe) (nbuf oe).
Definition with_cache v oe := OE (last_flush oe) (next_flush oe) (max_timestamp oe) (max_alloc_size oe) (cur_alloc_size oe) (events oe) v (to_free oe) (buffer oe) (last oe) (buffer_idx oe) (nr_events oe) (last_flush_type oe) (nr_unordered_events oe) (copy_on_queue oe) (data oe) (mcalls oe) (nbuf oe).
Definition with_last v oe := OE (last_flush oe) (next_flush oe) (max_timestamp oe) (max_alloc_size oe) (cur_alloc_size oe) (events oe) (cache oe) (to_free oe) (buffer oe) v (buffer_idx oe) (nr_events oe) (last_flush_type oe) (nr_unordered_events oe) (copy_on_queue oe) (data oe) (mcalls oe) (nbuf oe).
Definition with_nr_events v oe := OE (last_flush oe) (next_flush oe) (max_timestamp oe) (max_alloc_size oe) (cur_alloc_size oe) (events oe) (cache oe) (to_free oe) (buffer oe) (last oe) (buffer_idx oe) v (last_flush_type oe) (nr_unordered_events oe) (copy_on_queue oe) (data oe) (mcalls oe) (nbuf oe).
Definition with_last_flush_type v oe := OE (last_flush oe) (next_flush oe) (max_timestamp oe) (max_alloc_size oe) (cur_alloc_size oe) (events oe) (cache oe) (to_free oe) (buffer oe) (last oe) (buffer_idx oe) (nr_events oe) v (nr_unordered_events oe) (copy_on_queue oe) (data oe) (mcalls oe) (nbuf oe).
Definition with_nr_unordered v oe := OE (last_flush oe) (next_flush oe) (max_timestamp oe) (max_alloc_size oe) (cur_alloc_size oe) (events oe) (cache oe) (to_free oe) (buffer oe) (last oe) (buffer_idx oe) (nr_events oe) (last_flush_type oe) v (copy_on_queue oe) (data oe) (mcalls oe) (nbuf oe).
Definition with_buffer b idx oe := OE (last_flush oe) (next_flush oe) (max_timestamp oe) (max_alloc_size oe) (cur_alloc_size oe) (events oe) (cache oe) (to_free oe) b (last oe) idx (nr_events oe) (last_flush_type oe) (nr_unordered_events oe) (copy_on_queue oe) (data oe) (mcalls oe) (nbuf oe).
Definition with_alloc tf mc nb oe := OE (last_flush oe) (next_flush oe) (max_timestamp oe) (max_alloc_size oe) (cur_alloc_size oe) (events oe) (cache oe) tf (buffer oe) (last oe) (buffer_idx oe) (nr_events oe) (last_flush_type oe) (nr_unordered_events oe) (copy_on_queue oe) (data oe) mc nb.

(** ordered_events__set_alloc_size, ordered_events__set_copy_on_queue. *)
Definition ordered_events__set_alloc_size oe (size : Z) : ordered_events :=
  OE (last_flush oe) (next_flush oe) (max_timestamp oe) size (cur_alloc_size oe) (events oe) (cache oe) (to_free oe) (buffer oe) (last oe) (buffer_idx oe) (nr_events oe) (last_flush_type oe) (nr_unordered_events oe) (copy_on_queue oe) (data oe) (mcalls oe) (nbuf oe).
Definition ordered_events__set_copy_on_queue oe (copy : bool) : ordered_events :=
  OE (last_flush oe) (next_flush oe) (max_timestamp oe) (max_alloc_size oe) (cur_alloc_size oe) (events oe) (cache oe) (to_free oe) (buffer oe) (last oe) (buffer_idx oe) (nr_events oe) (last_flush_type oe) (nr_unordered_events oe) copy (data oe) (mcalls oe) (nbuf oe).

(** The object a slot pointer refers to, when it is on the [events] list,
    with the objects before and after it. *)
Fixpoint find_slot (s : Z) (l : list ordered_event)
    : option (list ordered_event * ordered_event * list ordered_event) :=
  match l with
  | [] => None
  | x :: l' =>
      if oev_slot x =? s then Some ([], x, l') else
      '(pre, y, post) ← find_slot s l'; Some (x :: pre, y, post)
  end.

(** * Queueing *)

(** The forward loop of queue_event from the cursor on: the list from the
    cursor with [new] linked in, and whether the list head was reached. *)
Fixpoint walk_forward (timestamp : Z) (new : ordered_event) (l : list ordered_event)
    : list ordered_event * bool :=
  match l with
  | [] => ([new], true)
  | x :: l' =>
      if oev_timestamp x <=? timestamp then
        let '(r, tail) := walk_forward timestamp new l' in (x :: r, tail)
      else (new :: x :: l', false)
  end.

(** The backward loop, on the list from the cursor back to the list head
    (nearest first). *)
Fixpoint walk_backward (timestamp : Z) (new : ordered_event) (l : list ordered_event)
    : list ordered_event :=
  match l with
  | [] => [new]
  | x :: l' =>
      if timestamp <? oev_timestamp x then x :: walk_backward timestamp new l'
      else new :: x :: l'
  end.

(** queue_event; [None] when [oe->last] is not on the list, where the source
    follows the links of an object that is not queued. *)
Definition queue_event oe (new : ordered_event) : option ordered_events :=
  let timestamp := oev_timestamp new in
  let oe1 := with_last (Some (oev_slot new))
               (with_nr_events (u32 (nr_events oe + 1)) oe) in
  match last oe with
  | None => Some (with_max_timestamp timestamp (with_events (new :: events oe) oe1))
  | Some s =>
      '(pre, cur, post) ← find_slot s (events oe);
      if oev_timestamp cur <=? timestamp then
        let '(l, tail) := walk_forward timestamp new (cur :: post) in
        let oe2 := with_events (pre ++ l) oe1 in
        Some (if (tail : bool) then with_max_timestamp timestamp oe2 else oe2)
      else
        let back := walk_backward timestamp new (cur :: reverse pre) in
        Some (with_events (reverse back ++ post) oe1)
  end.

(** * Allocation *)

Context (malloc_ok : nat -> bool) (junk : Z -> Z * Z).

Definition new_object (s : Z) (ev : E) : ordered_event :=
  OEvent s (fst (junk s)) (snd (junk s)) (Some ev).


Definition malloc oe : bool * ordered_events :=
  (malloc_ok (mcalls oe), with_alloc (to_free oe) (S (mcalls oe)) (nbuf oe) oe).

Definition __dup_event oe (event : E) : option E * ordered_events :=
  if cur_alloc_size oe <? max_alloc_size oe then
    let '(ok, oe) := malloc oe in
    if (ok : bool) then (Some event, with_cur_alloc_size (cur_alloc_size oe +64 header_size event) oe)
    else (None, oe)
  else (None, oe).

Definition dup_event oe (event : E) : option E * ordered_events :=
  if copy_on_queue oe then __dup_event oe event else (Some event, oe).

Definition __free_dup_event oe (event : option E) : ordered_events :=
  match event with
  | Some e => with_cur_alloc_size (cur_alloc_size oe -64 header_size e) oe
  | None => oe
  end.

Definition free_dup_event oe (event : option E) : ordered_events :=
  if copy_on_queue oe then __free_dup_event oe event else oe.

(** alloc_event.  An object taken from the cache keeps the timestamp and file
    offset of its previous use; in a new buffer they are whatever malloc
    returned, written [junk s] for slot [s]. *)
Definition alloc_event oe (event : E) : option ordered_event * ordered_events :=
  let '(new_event, oe) := dup_event oe event in
  match new_event with
  | None => (None, oe)
  | Some ev =>
      let size := sizeof_buffer in
      match cache oe with
      | x :: cache' =>
          (Some (OEvent (oev_slot x) (oev_timestamp x) (oev_file_offset x) (Some ev)),
           with_cache cache' oe)
      | [] =>
          match buffer oe with
          | Some b =>
              let s := b * MAX_SAMPLE_BUFFER + buffer_idx oe in
              let idx := buffer_idx oe + 1 in
              (Some (new_object s ev),
               with_buffer (if idx =? MAX_SAMPLE_BUFFER then None else Some b) idx oe)
          | None =>
              if (cur_alloc_size oe +64 size) <? max_alloc_size oe then
                let '(ok, oe) := malloc oe in
                if (ok : bool) then
                  let b := nbuf oe in
                  let oe := with_cur_alloc_size (cur_alloc_size oe +64 size) oe in
                  let oe := with_alloc (b :: to_free oe) (mcalls oe) (b + 1) oe in
                  (Some (new_object (b * MAX_SAMPLE_BUFFER) ev), with_buffer (Some b) 1 oe)
                else (None, free_dup_event oe (Some ev))
              else (None, oe)
          end
      end
  end.

Definition ordered_events__new_event oe (timestamp : Z) (event : E)
    : option (option Z * ordered_events) :=
  let '(new, oe) := alloc_event oe event in
  match new with
  | None => Some (None, oe)
  | Some new =>
      oe ← queue_event oe (OEvent (oev_slot new) timestamp (oev_file_offset new) (oev_event new));
      Some (Some (oev_slot new), oe)
  end.

Definition ordered_events__delete oe (event : ordered_event) : ordered_events :=
  let oe := with_cache
              (OEvent (oev_slot event) (oev_timestamp event) (oev_file_offset event) None :: cache oe)
              (with_events (filter (fun x => oev_slot x <> oev_slot event) (events oe)) oe) in
  let oe := with_nr_events (u32 (nr_events oe - 1)) oe in
  free_dup_event oe (oev_event event).

Definition set_file_offset (s fo : Z) (l : list ordered_event) : list ordered_event :=
  (fun x => if oev_slot x =? s
            then OEvent (oev_slot x) (oev_timestamp x) fo (oev_event x) else x) <$> l.

(** * Flushing *)

Context {W : Type} (deliver : W -> ordered_event -> Z * W) (session_done : W -> bool).

(** The list_for_each_entry_safe loop of do_flush over the queued objects [l].
    The result says whether the loop ran to its end ([None]) or returned. *)
Fixpoint flush_loop (limit : Z) (l : list ordered_event) oe (w : W)
    : option Z * ordered_events * W :=
  match l with
  | [] => (None, oe, w)
  | iter :: l' =>
      if session_done w then (Some 0, oe, w)
      else if limit <? oev_timestamp iter then (None, oe, w)
      else
        let '(ret, w) := deliver w iter in
        if negb (ret =? 0) then (Some ret, oe, w)
        else
          let oe := ordered_events__delete oe iter in
          let oe := with_last_flush (oev_timestamp iter) oe in
          flush_loop limit l' oe w
  end.

(** The timestamp of the object a slot pointer refers to, queued or cached;
    [None] for a pointer to neither. *)
Definition slot_timestamp oe (s : Z) : option Z :=
  '(_, cur, _) ← find_slot s (events oe ++ cache oe); Some (oev_timestamp cur).

Definition do_flush oe (w : W) : option (Z * ordered_events * W) :=
  let limit := next_flush oe in
  last_ts ← match last oe with
            | None => Some 0
            | Some s => slot_timestamp oe s
            end;
  if limit =? 0 then Some (0, oe, w) else
  let '(ret, oe, w) := flush_loop limit (events oe) oe w in
  match ret with
  | Some r => Some (r, oe, w)
  | None =>
      Some (0,
        match reverse (events oe) with
        | [] => with_last None oe
        | x :: _ => if last_ts <=? limit then with_last (Some (oev_slot x)) oe else oe
        end, w)
  end.

Definition __ordered_events__flush oe (how : oe_flush) (timestamp : Z) (w : W)
    : option (Z * ordered_events * W) :=
  if nr_events oe =? 0 then Some (0, oe, w) else
  let finish oe :=
    '(err, oe, w) ← do_flush oe w;
    let oe :=
      if err =? 0 then
        let oe := match how with
                  | OE_FLUSH__ROUND => with_next_flush (max_timestamp oe) oe
                  | _ => oe
                  end in
        with_last_flush_type how oe
      else oe in
    Some (err, oe, w) in
  match how with
  | OE_FLUSH__FINAL | OE_FLUSH__TOP => finish (with_next_flush U64_MAX oe)
  | OE_FLUSH__HALF =>
      match last oe, events oe with
      | Some s, first :: _ =>
          lst ← slot_timestamp oe s;
          finish (with_next_flush
            (oev_timestamp first +64 ((lst -64 oev_timestamp first) / 2)) oe)
      | _, _ => Some (0, oe, w)
      end
  | OE_FLUSH__TIME => finish (with_next_flush timestamp oe)
  | OE_FLUSH__ROUND | OE_FLUSH__NONE => finish oe
  end.

Definition ordered_events__flush oe (how : oe_flush) (w : W)
    : option (Z * ordered_events * W) :=
  __ordered_events__flush oe how 0 w.

Definition ordered_events__flush_time oe (timestamp : Z) (w : W)
    : option (Z * ordered_events * W) :=
  __ordered_events__flush oe OE_FLUSH__TIME timestamp w.

Definition ordered_events__queue oe (event : E) (timestamp file_offset : Z) (w : W)
    : option (Z * ordered_events * W) :=
  if (timestamp =? 0) || (timestamp =? U64_MAX) then Some (- ETIME, oe, w) else
  let oe := if timestamp <? last_flush oe
            then with_nr_unordered (u32 (nr_unordered_events oe + 1)) oe else oe in
  '(oevent, oe) ← ordered_events__new_event oe timestamp event;
  '(oevent, oe, w) ←
    match oevent with
    | Some s => Some (Some s, oe, w)
    | None =>
        '(_, oe, w) ← ordered_events__flush oe OE_FLUSH__HALF w;
        '(oevent, oe) ← ordered_events__new_event oe timestamp event;
        Some (oevent, oe, w)
    end;
  match oevent with
  | None => Some (- ENOMEM, oe, w)
  | Some s => Some (0, with_events (set_file_offset s file_offset (events oe)) oe, w)
  end.

Definition ordered_events__first_time oe : Z :=
  match events oe with
  | [] => 0
  | event :: _ => oev_timestamp event
  end.

(** * Set up and tear down *)

Definition ordered_events__init oe (d : Z) : ordered_events :=
  OE (last_flush oe) (next_flush oe) (max_timestamp oe) U64_MAX 0 [] [] []
     (buffer oe) (last oe) (buffer_idx oe) (nr_events oe) (last_flush_type oe)
     (nr_unordered_events oe) (copy_on_queue oe) d (mcalls oe) (nbuf oe).

(** [memset(oe, 0, sizeof( *oe))]; the allocator state is not part of it. *)
Definition memset_zero oe : ordered_events :=
  OE 0 0 0 0 0 [] [] [] None None 0 0 OE_FLUSH__NONE 0 false 0 (mcalls oe) (nbuf oe).

(** The event held by the object in slot [s]: NULL once it was deleted. *)
Definition slot_event oe (s : Z) : option E :=
  '(_, x, _) ← find_slot s (events oe); oev_event x.

(** ordered_events_buffer__free: the accounting of the events of the first
    [max] objects of the buffer. *)
Definition ordered_events_buffer__free (b max : Z) oe : ordered_events :=
  if copy_on_queue oe then
    foldl (fun oe' i => __free_dup_event oe' (slot_event oe (b * MAX_SAMPLE_BUFFER + i)))
      oe (seqZ 0 max)
  else oe.

Definition ordered_events__free oe : ordered_events :=
  match to_free oe with
  | [] => oe
  | _ =>
      let '(oe, rest) :=
        match buffer oe with
        | Some b => (ordered_events_buffer__free b (buffer_idx oe) oe,
                     filter (fun x => x <> b) (to_free oe))
        | None => (oe, to_free oe)
        end in
      let oe := foldl (fun oe b => ordered_events_buffer__free b MAX_SAMPLE_BUFFER oe) oe rest in
      with_alloc [] (mcalls oe) (nbuf oe) oe
  end.

Definition ordered_events__reinit oe : ordered_events :=
  let oe := ordered_events__free oe in
  let oe := memset_zero oe in
  ordered_events__init oe (data oe).

(** * The queue stays sorted and well formed *)

Definition le_ts (x y : ordered_event) : Prop := oev_timestamp x <= oev_timestamp y.

(** What linking an event into the queue has to do: after every event that is
    not later, before every later one. *)
Definition stable_insert (new : ordered_event) (l : list ordered_event) : list ordered_event :=
  filter (fun x => oev_timestamp x <= oev_timestamp new) l ++
  new :: filter (fun x => oev_timestamp new < oev_timestamp x) l.

(** The first slot that was never handed out. *)
Definition frontier oe : Z :=
  match buffer oe with
  | Some b => b * MAX_SAMPLE_BUFFER + buffer_idx oe
  | None => nbuf oe * MAX_SAMPLE_BUFFER
  end.

Record oe_wf oe : Prop := {
  wf_sorted : StronglySorted le_ts (events oe);
  wf_nodup : NoDup (oev_slot <$> events oe ++ cache oe);
  wf_slots : Forall (fun x => 0 <= oev_slot x < frontier oe) (events oe ++ cache oe);
  wf_buf : match buffer oe with
           | Some b => (0 <= b /\ b = nbuf oe - 1) /\ 0 < buffer_idx oe < MAX_SAMPLE_BUFFER
           | None => True
           end;
  wf_nbuf : 0 <= nbuf oe;
  wf_nr : nr_events oe = u32 (zlen (events oe))
}.

(** [oe->last] is a queued event, and NULL exactly for the empty queue;
    [oe->max_timestamp] is the timestamp of the newest queued event. *)
Definition last_ok oe : Prop :=
  match last oe with
  | None => events oe = []
  | Some s => s ∈ oev_slot <$> events oe
  end.

Definition max_ok oe : Prop :=
  forall l x, events oe = l ++ [x] -> max_timestamp oe = oev_timestamp x.

Definition oe_inv oe : Prop := oe_wf oe /\ last_ok oe /\ max_ok oe.

Lemma stable_insert_perm new l : stable_insert new l ≡ₚ new :: l.
Proof.
  unfold stable_insert. rewrite <- Permutation_middle. f_equiv.
  induction l as [|x l IH]; [done|]. rewrite !filter_cons.
  destruct (decide (oev_timestamp x <= oev_timestamp new)),
    (decide (oev_timestamp new < oev_timestamp x)); try lia.
  - simpl. by rewrite IH.
  - rewrite <- Permutation_middle. by rewrite IH.
Qed.

Lemma StronglySorted_filter_ts (P : ordered_event -> Prop) `{!forall x, Decision (P x)} l :
  StronglySorted le_ts l -> StronglySorted le_ts (filter P l).
Proof.
  induction 1 as [|x l Hs IH Hf]; [constructor|]. rewrite filter_cons.
  case_decide; [|done]. constructor; [done|].
  rewrite Forall_forall in Hf |- *. intros y Hy%list_elem_of_filter. apply Hf. tauto.
Qed.

Lemma StronglySorted_snoc_app l k :
  StronglySorted le_ts l -> StronglySorted le_ts k ->
  (forall x y, x ∈ l -> y ∈ k -> le_ts x y) -> StronglySorted le_ts (l ++ k).
Proof.
  intros Hl Hk Hlk. induction Hl as [|x l Hs IH Hf]; [done|]. simpl. constructor.
  - apply IH. intros. apply Hlk; [by right|done].
  - apply Forall_app. split; [done|]. apply Forall_forall. intros y Hy. apply Hlk; [left|done].
Qed.

Lemma StronglySorted_app_inv l k :
  StronglySorted le_ts (l ++ k) ->
  StronglySorted le_ts l /\ StronglySorted le_ts k /\ (forall x y, x ∈ l -> y ∈ k -> le_ts x y).
Proof.
  induction l as [|a l IH]; simpl; intros Hs.
  { split; [constructor|]. split; [done|]. intros x y Hx. by apply elem_of_nil in Hx. }
  inversion Hs as [|? ? Hs' Hf]; subst. destruct (IH Hs') as (Hl & Hk & Hlk).
  apply Forall_app in Hf as [Hf1 Hf2]. rewrite Forall_forall in Hf2.
  split; [by constructor|]. split; [done|].
  intros x y [->|Hx]%elem_of_cons Hy; [by apply Hf2 | by apply Hlk].
Qed.

Lemma stable_insert_sorted new l :
  StronglySorted le_ts l -> StronglySorted le_ts (stable_insert new l).
Proof.
  intros Hl. unfold stable_insert. apply StronglySorted_snoc_app.
  - by apply StronglySorted_filter_ts.
  - constructor; [by apply StronglySorted_filter_ts|].
    apply Forall_forall. intros y [Hy _]%list_elem_of_filter. unfold le_ts. lia.
  - intros x y [Hx _]%list_elem_of_filter [->|[Hy _]%list_elem_of_filter]%elem_of_cons;
      unfold le_ts; lia.
Qed.

Lemma filter_all (P : ordered_event -> Prop) `{!forall x, Decision (P x)} l :
  Forall P l -> filter P l = l.
Proof. induction 1; [done|]. rewrite filter_cons. by case_decide; f_equal. Qed.

Lemma filter_none (P : ordered_event -> Prop) `{!forall x, Decision (P x)} l :
  Forall (fun x => ~ P x) l -> filter P l = [].
Proof. induction 1; [done|]. rewrite filter_cons. by case_decide. Qed.

(** Both search loops of queue_event find the place of [stable_insert]. *)
Lemma walk_forward_insert new l :
  StronglySorted le_ts l -> fst (walk_forward (oev_timestamp new) new l) = stable_insert new l.
Proof.
  unfold stable_insert.
  induction 1 as [|x l Hs IH Hf]; [done|]. simpl. rewrite !filter_cons.
  destruct (Z.leb_spec (oev_timestamp x) (oev_timestamp new)).
  - rewrite decide_True, decide_False by lia.
    destruct (walk_forward _ _ _) as [r tl]. simpl in *. by rewrite IH.
  - rewrite decide_False, decide_True by lia. unfold le_ts in Hf.
    rewrite filter_none, filter_all; [done| |]; eapply Forall_impl; try done; simpl; lia.
Qed.

Lemma walk_forward_tail new l :
  StronglySorted le_ts l ->
  snd (walk_forward (oev_timestamp new) new l) = true <->
  Forall (fun x => oev_timestamp x <= oev_timestamp new) l.
Proof.
  induction 1 as [|x l Hs IH Hf]; [by split; [constructor|]|]. simpl.
  destruct (Z.leb_spec (oev_timestamp x) (oev_timestamp new)).
  - destruct (walk_forward _ _ _) as [r tl]. simpl in *. rewrite IH, Forall_cons. tauto.
  - simpl. split; [done|]. intros [? _]%Forall_cons. lia.
Qed.

Lemma walk_backward_insert new l :
  StronglySorted le_ts (reverse l) ->
  reverse (walk_backward (oev_timestamp new) new l) = stable_insert new (reverse l).
Proof.
  unfold stable_insert. induction l as [|x l IH]; [done|].
  rewrite reverse_cons. intros Hs. apply StronglySorted_app_inv in Hs as (Hl & _ & Hx).
  assert (Hle : Forall (fun y => oev_timestamp y <= oev_timestamp x) (reverse l))
    by (apply Forall_forall; intros y Hy; apply (Hx y x); [done|by left]).
  simpl. rewrite !filter_app. destruct (Z.ltb_spec (oev_timestamp new) (oev_timestamp x)).
  - rewrite reverse_cons, IH by done. rewrite !filter_cons, decide_False, decide_True by lia.
    rewrite !filter_nil, app_nil_r, <- app_assoc. done.
  - rewrite !reverse_cons. rewrite !filter_cons, decide_True, decide_False by lia.
    rewrite !filter_nil, app_nil_r, filter_all, filter_none, <- app_assoc; [done| |];
      eapply Forall_impl; try done; simpl; lia.
Qed.

Lemma find_slot_Some s l pre x post :
  find_slot s l = Some (pre, x, post) -> l = pre ++ x :: post /\ oev_slot x = s.
Proof.
  revert pre. induction l as [|y l IH]; intros pre; [done|]. simpl.
  destruct (Z.eqb_spec (oev_slot y) s) as [<-|]; [by intros [= <- <- <-]|].
  destruct (find_slot s l) as [[[pre' z] post']|]; [|done]. simpl.
  intros [= <- -> ->]. destruct (IH pre' eq_refl) as [-> ->]. done.
Qed.

Lemma find_slot_in s l :
  s ∈ oev_slot <$> l -> exists pre x post, find_slot s l = Some (pre, x, post).
Proof.
  induction l as [|y l IH]; [by intros ?%elem_of_nil|]. simpl.
  rewrite elem_of_cons. destruct (Z.eqb_spec (oev_slot y) s); [by eauto|].
  intros [->|Hs]; [done|]. destruct (IH Hs) as (pre & x & post & ->). simpl. eauto.
Qed.

Lemma stable_insert_app_l new l k :
  Forall (fun x => oev_timestamp x <= oev_timestamp new) l ->
  stable_insert new (l ++ k) = l ++ stable_insert new k.
Proof.
  intros Hl. unfold stable_insert. rewrite !filter_app, (filter_all _ l) by done.
  rewrite (filter_none (fun x => oev_timestamp new < oev_timestamp x) l)
    by (eapply Forall_impl; [done|]; simpl; lia).
  by rewrite <- app_assoc.
Qed.

Lemma stable_insert_app_r new l k :
  Forall (fun x => oev_timestamp new < oev_timestamp x) k ->
  stable_insert new (l ++ k) = stable_insert new l ++ k.
Proof.
  intros Hk. unfold stable_insert. rewrite !filter_app, (filter_all (fun x => oev_timestamp new < oev_timestamp x) k) by done.
  rewrite (filter_none (fun x => oev_timestamp x <= oev_timestamp new) k)
    by (eapply Forall_impl; [done|]; simpl; lia).
  by rewrite app_nil_r, <- app_assoc.
Qed.

(** queue_event as one insertion, whatever queued event the hint names. *)
Lemma queue_event_spec oe new :
  StronglySorted le_ts (events oe) -> last_ok oe ->
  exists mt, queue_event oe new =
    Some (with_max_timestamp mt (with_events (stable_insert new (events oe))
            (with_last (Some (oev_slot new)) (with_nr_events (u32 (nr_events oe + 1)) oe)))) /\
    (Forall (fun x => oev_timestamp x <= oev_timestamp new) (events oe) ->
     mt = oev_timestamp new) /\
    (~ Forall (fun x => oev_timestamp x <= oev_timestamp new) (events oe) ->
     mt = max_timestamp oe).
Proof.
  unfold queue_event, last_ok. intros Hs Hl.
  destruct (last oe) as [s|] eqn:El.
  2:{ rewrite Hl. eexists. split; [reflexivity|]. split; [done|]. intros []. constructor. }
  destruct (find_slot_in s (events oe) Hl) as (pre & cur & post & Ef). rewrite Ef. mred.
  apply find_slot_Some in Ef as [Ee _].
  rewrite Ee in Hs. pose proof (StronglySorted_app_inv _ _ Hs) as (Hpre & Hcp & Hle).
  assert (Hp : Forall (fun x => oev_timestamp x <= oev_timestamp cur) pre)
    by (apply Forall_forall; intros y Hy; apply (Hle y cur); [done|by left]).
  assert (Hq : Forall (fun x => oev_timestamp cur <= oev_timestamp x) post)
    by (inversion Hcp; subst; done).
  destruct (Z.leb_spec (oev_timestamp cur) (oev_timestamp new)).
  - pose proof (walk_forward_insert new _ Hcp) as Hw.
    pose proof (walk_forward_tail new _ Hcp) as Ht.
    assert (Hp' : Forall (fun x => oev_timestamp x <= oev_timestamp new) pre)
      by (eapply Forall_impl; [exact Hp|]; simpl; lia).
    destruct (walk_forward _ _ _) as [l tl]. cbn [fst snd] in *. subst l.
    rewrite Ee, stable_insert_app_l by done. destruct tl.
    + eexists. split; [reflexivity|]. split; [done|]. intros [].
      apply Forall_app. split; [done|]. by apply Ht.
    + exists (max_timestamp oe). split; [done|]. split; [|done].
      intros [_ Hc%Ht]%Forall_app. done.
  - exists (max_timestamp oe). split; [|split; [|done]].
    + rewrite Ee. replace (pre ++ cur :: post) with ((pre ++ [cur]) ++ post)
        by (by rewrite <- app_assoc).
      rewrite stable_insert_app_r by (eapply Forall_impl; [exact Hq|]; simpl; lia).
      rewrite walk_backward_insert; rewrite reverse_cons, reverse_involutive; [done|].
      change (cur :: post) with ([cur] ++ post) in Hs. rewrite app_assoc in Hs.
      by destruct (StronglySorted_app_inv _ _ Hs) as (? & _).
    + rewrite Ee. intros [_ Hc]%Forall_app. apply Forall_cons in Hc as [Hc _]. lia.
Qed.

Lemma MAX_SAMPLE_BUFFER_val : MAX_SAMPLE_BUFFER = 1638.
Proof. done. Qed.

(** The fields the queue's order depends on. *)
Definition same_queue oe oe' : Prop :=
  events oe' = events oe /\ last oe' = last oe /\ max_timestamp oe' = max_timestamp oe /\
  last_flush oe' = last_flush oe /\ next_flush oe' = next_flush oe /\
  nr_events oe' = nr_events oe /\ nr_unordered_events oe' = nr_unordered_events oe.

Lemma oe_wf_ext oe oe' :
  events oe' = events oe -> cache oe' = cache oe -> buffer oe' = buffer oe ->
  buffer_idx oe' = buffer_idx oe -> nbuf oe' = nbuf oe -> nr_events oe' = nr_events oe ->
  oe_wf oe -> oe_wf oe'.
Proof.
  intros He Hc Hb Hi Hn Hr [H1 H2 H3 H4 H5 H6].
  assert (Hf : frontier oe' = frontier oe) by (unfold frontier; by rewrite Hb, Hi, Hn).
  split; rewrite ?He, ?Hc, ?Hb, ?Hi, ?Hn, ?Hr, ?Hf; done.
Qed.

Lemma dup_event_spec oe e r oe' :
  dup_event oe e = (r, oe') ->
  same_queue oe oe' /\ cache oe' = cache oe /\ buffer oe' = buffer oe /\
  buffer_idx oe' = buffer_idx oe /\ nbuf oe' = nbuf oe /\
  match r with Some e' => e' = e | None => True end.
Proof.
  unfold dup_event, __dup_event, malloc, same_queue.
  repeat case_test; intros [= <- <-]; simpl; tauto.
Qed.

Lemma frontier_nonneg oe : oe_wf oe -> 0 <= frontier oe.
Proof.
  intros [_ _ _ H4 H5 _]. unfold frontier. pose proof MAX_SAMPLE_BUFFER_val.
  destruct (buffer oe); [destruct H4|]; nia.
Qed.

Lemma slots_fresh oe s :
  oe_wf oe -> frontier oe <= s -> s ∉ oev_slot <$> events oe ++ cache oe.
Proof.
  intros Hwf Hs (x & -> & Hx)%list_elem_of_fmap.
  pose proof (wf_slots _ Hwf) as Hf. rewrite Forall_forall in Hf.
  specialize (Hf x Hx). lia.
Qed.

(** Moving the allocation frontier past a slot that is not handed out twice. *)
Lemma oe_wf_frontier oe oe' :
  oe_wf oe -> events oe' = events oe -> cache oe' = cache oe -> nr_events oe' = nr_events oe ->
  frontier oe <= frontier oe' -> 0 <= nbuf oe' ->
  match buffer oe' with
  | Some b => (0 <= b /\ b = nbuf oe' - 1) /\ 0 < buffer_idx oe' < MAX_SAMPLE_BUFFER
  | None => True
  end -> oe_wf oe'.
Proof.
  intros [H1 H2 H3 H4 H5 H6] He Hc Hr Hf Hn Hb.
  split; rewrite ?He, ?Hc, ?Hr; try done.
  eapply Forall_impl; [exact H3|]. simpl. lia.
Qed.

Lemma alloc_event_spec oe e r oe' :
  oe_wf oe -> alloc_event oe e = (r, oe') ->
  same_queue oe oe' /\ oe_wf oe' /\
  match r with
  | None => True
  | Some x => (oev_slot x ∉ oev_slot <$> events oe' ++ cache oe') /\
      0 <= oev_slot x < frontier oe' /\ oev_event x = Some e
  end.
Proof.
  intros Hwf. unfold alloc_event.
  destruct (dup_event oe e) as [ne oe1] eqn:Ed.
  apply dup_event_spec in Ed as (Hq & Hc & Hb & Hi & Hn & He).
  pose proof Hq as (Hqe & Hql & Hqm & Hqlf & Hqnf & Hqn & Hqu).
  assert (Hwf1 : oe_wf oe1) by (by apply (oe_wf_ext oe)).
  clear Hwf Hc Hb Hi Hn. destruct ne as [ev|]; [subst ev|by intros [= <- <-]].
  pose proof MAX_SAMPLE_BUFFER_val as HM. pose proof (frontier_nonneg _ Hwf1) as H0.
  pose proof (slots_fresh oe1 (frontier oe1) Hwf1 ltac:(lia)) as Hfresh.
  destruct (cache oe1) as [|x c] eqn:Ec.
  2:{ intros [= <- <-]. split; [done|].
      destruct Hwf1 as [H1 H2 H3 H4 H5 H6]. rewrite Ec in H2, H3.
      rewrite fmap_app, fmap_cons in H2. apply Forall_app in H3 as [H3 [H3x H3c]%Forall_cons].
      rewrite <- Permutation_middle in H2. apply NoDup_cons in H2 as [Hx H2].
      simpl. split; [|split; [by rewrite fmap_app|done]].
      split; simpl; rewrite ?fmap_app; try done. by apply Forall_app. }
  pose proof (wf_buf _ Hwf1) as Hbf. pose proof (wf_nbuf _ Hwf1) as Hnb.
  destruct (buffer oe1) as [b|] eqn:Eb.
  { intros [= <- <-]. split; [done|].
    assert (Hf : frontier oe1 = b * MAX_SAMPLE_BUFFER + buffer_idx oe1)
      by (unfold frontier; by rewrite Eb).
    match goal with |- oe_wf ?o /\ _ => set (oe2 := o) end.
    assert (Hf2 : frontier oe2 = frontier oe1 + 1).
    { unfold frontier, oe2. simpl. rewrite Eb. case_test; nia. }
    split; [apply (oe_wf_frontier oe1); try done; try lia; unfold oe2; simpl; case_test; try done; lia|].
    simpl. rewrite Hf2, <- Hf. rewrite Ec. split; [done|]. split; [lia|done]. }
  assert (Hf : frontier oe1 = nbuf oe1 * MAX_SAMPLE_BUFFER)
    by (unfold frontier; by rewrite Eb).
  case_test; [|by intros [= <- <-]]. unfold malloc. case_test.
  - intros [= <- <-]. split; [done|].
    match goal with |- oe_wf ?o /\ _ => set (oe2 := o) end.
    assert (Hf2 : frontier oe2 = frontier oe1 + 1) by (unfold frontier, oe2; simpl; rewrite Eb; lia).
    split; [apply (oe_wf_frontier oe1); try done; try lia; unfold oe2; simpl; lia|].
    simpl. rewrite Hf2, <- Hf, Ec. split; [done|]. split; [lia|done].
  - intros [= <- <-]. unfold free_dup_event, __free_dup_event.
    case_test; simpl; (split; [done|]; split; [by apply (oe_wf_ext oe1)|done]).
Qed.

Lemma queue_event_inv oe new oe' :
  oe_inv oe -> oev_slot new ∉ oev_slot <$> events oe ++ cache oe ->
  0 <= oev_slot new < frontier oe -> queue_event oe new = Some oe' -> oe_inv oe'.
Proof.
  intros (Hwf & Hl & Hm) Hfresh Hfr Hq.
  destruct (queue_event_spec oe new (wf_sorted _ Hwf) Hl) as (mt & Eq & Hmt1 & Hmt2).
  rewrite Eq in Hq. injection Hq as <-.
  pose proof (stable_insert_perm new (events oe)) as Hp.
  destruct Hwf as [H1 H2 H3 H4 H5 H6]. split; [|split].
  - split; simpl; try done.
    + by apply stable_insert_sorted.
    + rewrite fmap_app, Hp, fmap_cons. simpl. apply NoDup_cons. by rewrite <- fmap_app.
    + rewrite Hp. simpl. by apply Forall_cons.
    + rewrite H6. unfold zlen. rewrite (Permutation_length Hp). simpl.
      unfold wrap. rewrite Zplus_mod_idemp_l. f_equal. lia.
  - unfold last_ok. simpl. rewrite Hp. simpl. by left.
  - intros l x. simpl. intros Hx.
    destruct (decide (Forall (fun y => oev_timestamp y <= oev_timestamp new) (events oe)))
      as [Hall|Hnot].
    + rewrite Hmt1 by done. unfold stable_insert in Hx.
      rewrite (filter_none (fun y => oev_timestamp new < oev_timestamp y)) in Hx
        by (eapply Forall_impl; [exact Hall|]; simpl; lia).
      by apply app_inj_tail in Hx as [_ ->].
    + rewrite Hmt2 by done.
      destruct (events oe) as [|z zs _] eqn:Ez using rev_ind; [by destruct Hnot|].
      rewrite (Hm zs z) by done. f_equal.
      assert (Hz : oev_timestamp new < oev_timestamp z).
      { apply Z.nle_gt. intros Hle. apply Hnot. apply Forall_app. split; [|by constructor].
        apply StronglySorted_app_inv in H1 as (_ & _ & H1).
        apply Forall_forall. intros y Hy. specialize (H1 y z Hy (list_elem_of_here _ _)).
        unfold le_ts in H1. lia. }
      rewrite stable_insert_app_r in Hx by (by constructor).
      by apply app_inj_tail in Hx as [_ ->].
Qed.

(** * Flushing delivers the due prefix of the queue in order *)

Inductive delivered : W -> list ordered_event -> W -> Prop :=
| delivered_nil w : delivered w [] w
| delivered_cons w x w1 l w2 :
    deliver w x = (0, w1) -> delivered w1 l w2 -> delivered w (x :: l) w2.

#[local] Hint Constructors delivered : core.

(** [oe->last_flush] after the objects [l] were delivered. *)
Definition flushed_to (lf : Z) (l : list ordered_event) : Z := foldl (fun _ x => oev_timestamp x) lf l.

Lemma free_dup_event_spec oe ev :
  exists v, free_dup_event oe ev = with_cur_alloc_size v oe.
Proof.
  unfold free_dup_event, __free_dup_event.
  destruct (copy_on_queue oe), ev; eauto; by exists (cur_alloc_size oe); destruct oe.
Qed.

Lemma ordered_events__delete_head oe x l :
  oe_wf oe -> events oe = x :: l ->
  let oe' := ordered_events__delete oe x in
  events oe' = l /\ oe_wf oe' /\ last oe' = last oe /\ max_timestamp oe' = max_timestamp oe /\
  next_flush oe' = next_flush oe /\ nr_unordered_events oe' = nr_unordered_events oe.
Proof.
  intros [H1 H2 H3 H4 H5 H6] He. cbv zeta. rewrite He in H1, H2, H3, H6. simpl in H2, H3.
  apply NoDup_cons in H2 as [Hx H2].
  assert (Hfl : filter (fun y => oev_slot y <> oev_slot x) (events oe) = l).
  { rewrite He, filter_cons, decide_False by (by intros []). apply filter_all.
    apply Forall_forall. intros y Hy ?. apply Hx. rewrite fmap_app.
    apply elem_of_app. left. apply list_elem_of_fmap. eauto. }
  set (oe1 := with_nr_events (u32 (nr_events oe - 1)) (with_cache
    (OEvent (oev_slot x) (oev_timestamp x) (oev_file_offset x) None :: cache oe)
    (with_events (filter (fun y => oev_slot y <> oev_slot x) (events oe)) oe))).
  assert (Hwf1 : oe_wf oe1).
  { inversion H1; subst. apply Forall_cons in H3 as [H3x H3].
    split; simpl; rewrite ?Hfl; try done.
    - rewrite fmap_app, fmap_cons. simpl. rewrite <- Permutation_middle.
      apply NoDup_cons. by rewrite <- fmap_app.
    - apply Forall_app in H3 as [? ?]. apply Forall_app. split; [done|]. by constructor.
    - rewrite H6. zlens. unfold wrap. rewrite Zminus_mod_idemp_l. f_equal. lia. }
  change (ordered_events__delete oe x) with (free_dup_event oe1 (oev_event x)).
  destruct (free_dup_event_spec oe1 (oev_event x)) as [v ->].
  split; [exact Hfl|]. split; [by apply (oe_wf_ext oe1)|done].
Qed.

(** What a run of the flush loop over the whole queue of [oe] leaves. *)
Definition flush_result (limit : Z) oe (w : W) (r : option Z) oe' (w' : W) : Prop :=
  exists d w1, events oe = d ++ events oe' /\ oe_wf oe' /\
    Forall (fun x => oev_timestamp x <= limit) d /\ delivered w d w1 /\
    (r = None -> w' = w1 /\
       (events oe' = [] \/ exists x k, events oe' = x :: k /\ limit < oev_timestamp x)) /\
    last_flush oe' = flushed_to (last_flush oe) d /\ last oe' = last oe /\
    max_timestamp oe' = max_timestamp oe /\ next_flush oe' = next_flush oe /\
    nr_unordered_events oe' = nr_unordered_events oe.

Lemma flush_result_stop limit oe w r w' :
  oe_wf oe ->
  (r = None -> w' = w /\
    (events oe = [] \/ exists x k, events oe = x :: k /\ limit < oev_timestamp x)) ->
  flush_result limit oe w r oe w'.
Proof. intros Hwf Hr. exists [], w. split_and!; auto. Qed.

Lemma flush_loop_spec limit l oe w r oe' w' :
  oe_wf oe -> events oe = l -> flush_loop limit l oe w = (r, oe', w') ->
  flush_result limit oe w r oe' w'.
Proof.
  revert oe w. induction l as [|x l IH]; intros oe w Hwf He; simpl.
  { intros [= <- <- <-]. apply flush_result_stop; auto. }
  destruct (session_done w); [intros [= <- <- <-]; by apply flush_result_stop|].
  destruct (Z.ltb_spec limit (oev_timestamp x)).
  { intros [= <- <- <-]. apply flush_result_stop; [done|]. intros _. split; [done|]. eauto. }
  destruct (deliver w x) as [ret w1] eqn:Ed.
  destruct (Z.eqb_spec ret 0) as [->|]; simpl;
    [|intros [= <- <- <-]; by apply flush_result_stop].
  destruct (ordered_events__delete_head oe x l Hwf He) as (He1 & Hwf1 & Hl1 & Hm1 & Hn1 & Hu1).
  intros Hrun.
  destruct (IH (with_last_flush (oev_timestamp x) (ordered_events__delete oe x)) w1)
    as (d & w2 & Hrest & Hwf2 & Hd & Hdel & Hr & Hlf & Hl & Hm & Hn & Hu);
    [by apply (oe_wf_ext (ordered_events__delete oe x))|done|done|].
  simpl in *. exists (x :: d), w2. split_and!; try done; try congruence.
  - rewrite He. simpl. f_equal. congruence.
  - by constructor.
  - by econstructor.
Qed.

Lemma find_slot_app_l s l k pre x post :
  find_slot s l = Some (pre, x, post) -> find_slot s (l ++ k) = Some (pre, x, post ++ k).
Proof.
  revert pre. induction l as [|y l IH]; intros pre; [done|]. simpl.
  destruct (oev_slot y =? s); [by intros [= <- <- <-]|].
  destruct (find_slot s l) as [[[pre' z] post']|]; [|done]. simpl. intros [= <- -> ->].
  by rewrite (IH pre' eq_refl).
Qed.

(** The client the guarantees are stated for: it accepts every event and does
    not ask to stop. *)
Definition reliable : Prop :=
  (forall w x, fst (deliver w x) = 0) /\ (forall w, session_done w = false).

Lemma flush_loop_reliable limit l oe w :
  reliable -> exists oe' w', flush_loop limit l oe w = (None, oe', w').
Proof.
  intros [Hd Hs]. revert oe w. induction l as [|x l IH]; intros oe w; simpl; [eauto|].
  rewrite Hs. case_test; [eauto|]. specialize (Hd w x). destruct (deliver w x) as [r w1].
  simpl in Hd. subst r. simpl. apply IH.
Qed.

Lemma sorted_rest_late limit x k :
  StronglySorted le_ts (x :: k) -> limit < oev_timestamp x ->
  Forall (fun y => limit < oev_timestamp y) (x :: k).
Proof.
  intros Hs Hx. inversion Hs as [|? ? _ Hf]; subst. constructor; [done|].
  eapply Forall_impl; [exact Hf|]. unfold le_ts. simpl. lia.
Qed.

Lemma slot_timestamp_last oe s :
  last_ok oe -> last oe = Some s ->
  exists x, x ∈ events oe /\ oev_slot x = s /\ slot_timestamp oe s = Some (oev_timestamp x).
Proof.
  unfold last_ok. intros Hl Es. rewrite Es in Hl.
  destruct (find_slot_in s (events oe) Hl) as (pre & x & post & Hf).
  unfold slot_timestamp. rewrite (find_slot_app_l _ _ _ _ _ _ Hf). mred.
  apply find_slot_Some in Hf as [He Hs]. exists x. rewrite He.
  split; [apply elem_of_app; right; left|done].
Qed.

(** do_flush with a reliable client: the due prefix [d] is delivered in order,
    the rest stays queued and the invariant is restored. *)
Lemma do_flush_spec oe w :
  reliable -> oe_inv oe ->
  exists oe' w' d, do_flush oe w = Some (0, oe', w') /\ oe_inv oe' /\
    events oe = d ++ events oe' /\ delivered w d w' /\
    (next_flush oe <> 0 -> Forall (fun x => oev_timestamp x <= next_flush oe) d /\
       Forall (fun x => next_flush oe < oev_timestamp x) (events oe')) /\
    last_flush oe' = flushed_to (last_flush oe) d /\
    max_timestamp oe' = max_timestamp oe /\
    nr_unordered_events oe' = nr_unordered_events oe.
Proof.
  intros Hrel (Hwf & Hl & Hm). unfold do_flush.
  assert (Hts : exists ts, match last oe with None => Some 0 | Some s => slot_timestamp oe s end
    = Some ts /\ forall s, last oe = Some s ->
      exists x, x ∈ events oe /\ oev_slot x = s /\ oev_timestamp x = ts).
  { destruct (last oe) as [s|] eqn:El; [|exists 0; by split].
    destruct (slot_timestamp_last oe s Hl El) as (x & Hx & Hs & ->).
    eexists; split; [reflexivity|]. intros s' [= <-]. by exists x. }
  destruct Hts as (ts & -> & Hcur). mred.
  destruct (Z.eqb_spec (next_flush oe) 0) as [H0|H0].
  { exists oe, w, []. split_and!; try done; constructor. }
  destruct (flush_loop_reliable (next_flush oe) (events oe) oe w Hrel) as (oe1 & w1 & Hfl).
  rewrite Hfl.
  destruct (flush_loop_spec _ _ _ _ _ _ _ Hwf eq_refl Hfl)
    as (d & w2 & He & Hwf1 & Hd & Hdel & Hr & Hlf & Hl1 & Hm1 & Hn1 & Hu1).
  destruct (Hr eq_refl) as [-> Hrest]. clear Hr.
  remember (events oe1) as rest eqn:He1. symmetry in He1.
  pose proof (wf_sorted _ Hwf1) as Hs1. rewrite He1 in Hs1.
  assert (Hlate : Forall (fun x => next_flush oe < oev_timestamp x) rest)
    by (destruct Hrest as [->|(x & k & -> & Hx)]; [constructor|by apply sorted_rest_late]).
  assert (Hm1' : max_ok oe1).
  { intros l x Hx. rewrite Hm1. apply (Hm (d ++ l)).
    rewrite He, <- He1, Hx. by rewrite app_assoc. }
  assert (Hlast : last_ok oe1 \/ ts <= next_flush oe).
  { destruct (Z.le_gt_cases ts (next_flush oe)) as [|Hgt]; [by right|left].
    unfold last_ok in *. rewrite Hl1, He1. destruct (last oe) as [s|].
    2:{ rewrite Hl in He. by apply symmetry, app_eq_nil in He as [_ ->]. }
    destruct (Hcur s eq_refl) as (y & Hy & <- & Hyts).
    rewrite He in Hy. apply elem_of_app in Hy as [Hy|Hy]; [|by apply list_elem_of_fmap_2].
    rewrite Forall_forall in Hd. specialize (Hd y Hy). lia. }
  destruct (reverse rest) as [|x rr] eqn:Erev.
  - apply (f_equal reverse) in Erev. rewrite reverse_involutive in Erev. simpl in Erev.
    eexists _, _, d. split; [reflexivity|]. simpl. rewrite He1, Erev in *.
    split; [|done]. split; [by apply (oe_wf_ext oe1)|]. done.
  - apply (f_equal reverse) in Erev. rewrite reverse_involutive, reverse_cons in Erev.
    destruct (Z.leb_spec ts (next_flush oe)) as [Hle|Hgt]; eexists _, _, d;
      (split; [reflexivity|]); simpl; rewrite He1; (split; [|done]).
    + split; [by apply (oe_wf_ext oe1)|]. split; [|done]. unfold last_ok. simpl.
      rewrite He1, Erev, fmap_app. apply elem_of_app. right. left.
    + split; [done|]. split; [|done]. destruct Hlast; [done|lia].
Qed.

Lemma oe_inv_ext oe oe' :
  events oe' = events oe -> cache oe' = cache oe -> buffer oe' = buffer oe ->
  buffer_idx oe' = buffer_idx oe -> nbuf oe' = nbuf oe -> nr_events oe' = nr_events oe ->
  last oe' = last oe -> max_timestamp oe' = max_timestamp oe -> oe_inv oe -> oe_inv oe'.
Proof.
  intros He Hc Hb Hi Hn Hr Hl Hm (Hwf & H2 & H3). split; [by apply (oe_wf_ext oe)|].
  unfold last_ok, max_ok. by rewrite He, Hl, Hm.
Qed.

(** The outcome of a flush: the delivered prefix [d] and the state after it. *)
Definition flush_post oe (w : W) oe' (w' : W) (d : list ordered_event) : Prop :=
  oe_inv oe' /\ events oe = d ++ events oe' /\ delivered w d w' /\
  last_flush oe' = flushed_to (last_flush oe) d /\
  nr_unordered_events oe' = nr_unordered_events oe.

Lemma __ordered_events__flush_spec oe how ts w :
  reliable -> oe_inv oe ->
  exists oe' w' d, __ordered_events__flush oe how ts w = Some (0, oe', w') /\
    flush_post oe w oe' w' d /\
    (how = OE_FLUSH__FINAL -> zlen (events oe) < 2 ^ 32 ->
     Forall (fun x => oev_timestamp x <= U64_MAX) (events oe) -> events oe' = []).
Proof.
  intros Hrel Hinv. unfold __ordered_events__flush.
  assert (Hnone : flush_post oe w oe w []) by (split_and!; auto).
  destruct (Z.eqb_spec (nr_events oe) 0) as [H0|H0].
  { exists oe, w, []. split; [done|]. split; [done|]. intros _ Hlen _.
    destruct Hinv as (Hwf & _). rewrite (wf_nr _ Hwf), u32_small in H0
      by (pose proof (zlen_nonneg (events oe)); lia).
    destruct (events oe); [done|]. zlens. pose proof (zlen_nonneg l). lia. }
  assert (Hrun : forall nf, exists oe' w' d,
    ('(err, oe, w) ← do_flush (with_next_flush nf oe) w;
     let oe := if err =? 0 then
         let oe := match how with OE_FLUSH__ROUND => with_next_flush (max_timestamp oe) oe
                   | _ => oe end in with_last_flush_type how oe else oe in
     Some (err, oe, w)) = Some (0, oe', w') /\ flush_post oe w oe' w' d /\
    (nf = U64_MAX -> Forall (fun x => oev_timestamp x <= U64_MAX) (events oe) ->
     events oe' = [])).
  { intros nf.
    destruct (do_flush_spec (with_next_flush nf oe) w Hrel) as
      (oe1 & w1 & d & -> & Hi1 & He1 & Hd1 & Hp1 & Hlf1 & Hm1 & Hu1);
      [by apply (oe_inv_ext oe)|]. mred. simpl in *.
    eexists _, w1, d. split; [reflexivity|]. split.
    - destruct how; simpl; (split; [by apply (oe_inv_ext oe1)|]); done.
    - intros -> Hall. destruct Hp1 as [_ Hlate]; [done|]. rewrite He1 in Hall.
      apply Forall_app in Hall as [_ Hall].
      assert (Hnil : events oe1 = []).
      { destruct (events oe1) as [|x k]; [done|]. apply Forall_cons in Hall, Hlate. lia. }
      destruct how; simpl; done. }
  assert (Hself : with_next_flush (next_flush oe) oe = oe) by (by destruct oe).
  destruct how; try (destruct (Hrun U64_MAX) as (oe' & w' & d & Hr & Hp & Hf);
                     exists oe', w', d; by auto).
  - destruct (Hrun (next_flush oe)) as (oe' & w' & d & Hr & Hp & _). rewrite Hself in Hr.
    exists oe', w', d. by split_and!.
  - destruct (Hrun (next_flush oe)) as (oe' & w' & d & Hr & Hp & _). rewrite Hself in Hr.
    exists oe', w', d. by split_and!.
  - destruct (last oe) as [s|] eqn:El; [|by exists oe, w, []].
    destruct (events oe) as [|first l] eqn:Ee; [by exists oe, w, []|].
    destruct Hinv as (_ & Hl & _).
    destruct (slot_timestamp_last oe s Hl El) as (x & _ & _ & ->). mred.
    destruct (Hrun (oev_timestamp first +64 ((oev_timestamp x -64 oev_timestamp first) / 2)))
      as (oe' & w' & d & Hr & Hp & _). exists oe', w', d. by split_and!.
  - destruct (Hrun ts) as (oe' & w' & d & Hr & Hp & _). exists oe', w', d. by split_and!.
Qed.

(** * Queueing preserves the invariant *)

Definition new_event_post oe (ts : Z) (e : E) (r : option Z) oe' : Prop :=
  oe_inv oe' /\ last_flush oe' = last_flush oe /\
  nr_unordered_events oe' = nr_unordered_events oe /\
  match r with
  | None => events oe' = events oe
  | Some s => exists fo, (s ∉ oev_slot <$> events oe) /\
      events oe' = stable_insert (OEvent s ts fo (Some e)) (events oe)
  end.

Lemma ordered_events__new_event_spec oe ts e :
  oe_inv oe ->
  exists r oe', ordered_events__new_event oe ts e = Some (r, oe') /\
    new_event_post oe ts e r oe' /\ (r = None <-> fst (alloc_event oe e) = None).
Proof.
  intros Hinv. unfold ordered_events__new_event.
  destruct (alloc_event oe e) as [new oe1] eqn:Ea.
  pose proof Hinv as (Hwf & Hl & Hm).
  destruct (alloc_event_spec _ _ _ _ Hwf Ea) as ((He & Hla & Hmt & Hlf & Hnf & Hn & Hu) & Hwf1 & Hnew).
  assert (Hinv1 : oe_inv oe1)
    by (split; [done|]; unfold last_ok, max_ok in *; rewrite He, Hla, Hmt; done).
  destruct new as [x|]; simpl.
  2:{ exists None, oe1. split; [done|]. split; [by split_and!|done]. }
  destruct Hnew as (Hfr & Hfr2 & Hev). set (y := OEvent _ _ _ _).
  destruct (queue_event_spec oe1 y (wf_sorted _ Hwf1) ltac:(apply Hinv1)) as (mt & Hq & _).
  rewrite Hq. mred. eexists _, _. split; [reflexivity|]. split; [|done].
  split; [by apply (queue_event_inv oe1 y)|]. simpl. split; [done|]. split; [done|].
  exists (oev_file_offset x). rewrite He. unfold y. rewrite Hev. split; [|done].
  rewrite <- He. rewrite fmap_app in Hfr. intros Hin. apply Hfr, elem_of_app. by left.
Qed.

Lemma set_file_offset_stable_insert s ts fo fo' ev l :
  s ∉ oev_slot <$> l ->
  set_file_offset s fo (stable_insert (OEvent s ts fo' ev) l) = stable_insert (OEvent s ts fo ev) l.
Proof.
  intros Hs. unfold stable_insert, set_file_offset. rewrite fmap_app, fmap_cons. simpl.
  rewrite Z.eqb_refl.
  assert (Hid : forall P `{!forall x : ordered_event, Decision (P x)},
    (fun x => if oev_slot x =? s
              then OEvent (oev_slot x) (oev_timestamp x) fo (oev_event x) else x) <$> filter P l
    = filter P l).
  { intros P HP. rewrite <- (list_fmap_id (filter P l)) at 2. apply list_fmap_ext.
    intros i x Hx%list_elem_of_lookup_2%list_elem_of_filter. destruct Hx as [_ Hx].
    destruct (Z.eqb_spec (oev_slot x) s) as [<-|]; [|done].
    destruct Hs. by apply list_elem_of_fmap_2. }
  by rewrite !Hid.
Qed.

Lemma StronglySorted_fmap_ts f l :
  (forall x, oev_timestamp (f x) = oev_timestamp x) ->
  StronglySorted le_ts l -> StronglySorted le_ts (f <$> l).
Proof.
  intros Hf. induction 1 as [|x l Hs IH Hx]; [constructor|]. simpl. constructor; [done|].
  apply Forall_fmap. eapply Forall_impl; [exact Hx|]. unfold le_ts. simpl. intros y. by rewrite !Hf.
Qed.

Lemma set_file_offset_inv s fo oe :
  oe_inv oe -> oe_inv (with_events (set_file_offset s fo (events oe)) oe).
Proof.
  intros ([H1 H2 H3 H4 H5 H6] & Hl & Hm). set (f := fun x : ordered_event => if oev_slot x =? s
    then OEvent (oev_slot x) (oev_timestamp x) fo (oev_event x) else x).
  assert (Hfs : forall x, oev_slot (f x) = oev_slot x) by (intros x; unfold f; by case_test).
  assert (Hft : forall x, oev_timestamp (f x) = oev_timestamp x)
    by (intros x; unfold f; by case_test).
  assert (Hslots : oev_slot <$> (f <$> events oe) = oev_slot <$> events oe)
    by (rewrite <- list_fmap_compose; apply list_fmap_ext; intros; apply Hfs).
  change (set_file_offset s fo (events oe)) with (f <$> events oe). split; [|split].
  - split; simpl; try done.
    + by apply StronglySorted_fmap_ts.
    + rewrite fmap_app in *. by rewrite Hslots.
    + apply Forall_app in H3 as [? ?]. apply Forall_app. split; [|done].
      apply Forall_fmap. eapply Forall_impl; [done|]. simpl. intros x. by rewrite Hfs.
    + unfold zlen. by rewrite length_fmap.
  - unfold last_ok in *. simpl. destruct (last oe); [by rewrite Hslots|by rewrite Hl].
  - intros l x Hx. simpl in *.
    apply fmap_snoc_inv in Hx || apply fmap_app_inv in Hx.
    destruct Hx as (l1 & l2 & -> & Hx2 & He).
    destruct l2 as [|y [|]]; try done. simpl in Hx2. injection Hx2 as ->.
    rewrite Hft. by apply (Hm l1).
Qed.

(** The outcome of ordered_events__queue: [d] was delivered by the flush made
    when the allocation limit is hit. *)
Definition queue_post oe (w : W) (e : E) (ts fo : Z) (r : Z) oe' (w' : W)
    (d : list ordered_event) : Prop :=
  oe_inv oe' /\ delivered w d w' /\ last_flush oe' = flushed_to (last_flush oe) d /\
  exists rest, events oe = d ++ rest /\
    ((r <> 0 /\ events oe' = rest /\
      (r = - ETIME -> nr_unordered_events oe' = nr_unordered_events oe)) \/
     (r = 0 /\ exists s, events oe' = stable_insert (OEvent s ts fo (Some e)) rest)).

Lemma ordered_events__queue_spec oe e ts fo w :
  reliable -> oe_inv oe ->
  exists r oe' w' d, ordered_events__queue oe e ts fo w = Some (r, oe', w') /\
    queue_post oe w e ts fo r oe' w' d /\
    (r = - ETIME \/ nr_unordered_events oe' =
      if ts <? last_flush oe then u32 (nr_unordered_events oe + 1) else nr_unordered_events oe) /\
    (fst (alloc_event (if ts <? last_flush oe
       then with_nr_unordered (u32 (nr_unordered_events oe + 1)) oe else oe) e) <> None -> d = []).
Proof.
  intros Hrel Hinv. unfold ordered_events__queue.
  case_test.
  { exists (- ETIME), oe, w, []. split; [done|]. split; [|split; [by left|done]].
    split; [done|]. split; [done|]. split; [done|]. exists (events oe). split; [done|].
    left. by split_and!. }
  set (oe0 := if ts <? last_flush oe then _ else oe).
  assert (H0 : oe_inv oe0 /\ events oe0 = events oe /\ last_flush oe0 = last_flush oe)
    by (unfold oe0; case_test; split_and!; try done; by apply (oe_inv_ext oe)).
  destruct H0 as (Hinv0 & He0 & Hlf0).
  replace (if ts <? last_flush oe then u32 (nr_unordered_events oe + 1)
           else nr_unordered_events oe) with (nr_unordered_events oe0)
    by (unfold oe0; by case_test).
  destruct (ordered_events__new_event_spec oe0 ts e Hinv0) as (r & oe1 & -> & Hp1 & Hr). mred.
  destruct Hp1 as (Hi1 & Hlf1 & Hu1 & Hev1). destruct r as [s|]; mred.
  { destruct Hev1 as (fo' & Hs & Hev1). eexists _, _, _, []. split; [reflexivity|].
    split; [|split; [by right|done]].
    split; [by apply set_file_offset_inv|]. split; [auto|]. split; [simpl; congruence|].
    exists (events oe). split; [done|]. right. split; [done|]. exists s. simpl.
    rewrite Hev1, <- He0. by apply set_file_offset_stable_insert. }
  destruct (__ordered_events__flush_spec oe1 OE_FLUSH__HALF 0 w Hrel Hi1)
    as (oe2 & w2 & d & Hfl & (Hi2 & He2 & Hd2 & Hlf2 & Hu2) & _).
  unfold ordered_events__flush. rewrite Hfl. mred.
  destruct (ordered_events__new_event_spec oe2 ts e Hi2) as (r & oe3 & -> & Hp3 & _). mred.
  destruct Hp3 as (Hi3 & Hlf3 & Hu3 & Hev3).
  assert (Hsplit : events oe = d ++ events oe2) by congruence.
  assert (Hlf : last_flush oe3 = flushed_to (last_flush oe) d) by congruence.
  assert (Hnu : nr_unordered_events oe3 = nr_unordered_events oe0) by congruence.
  assert (Hnil : fst (alloc_event oe0 e) <> None -> d = []) by (intros []; by apply Hr).
  destruct r as [s|].
  - destruct Hev3 as (fo' & Hs & Hev3). eexists _, _, _, d. split; [reflexivity|].
    split; [|split; [by right|done]].
    split; [by apply set_file_offset_inv|]. split; [done|]. split; [done|].
    exists (events oe2). split; [done|]. right. split; [done|]. exists s. simpl.
    rewrite Hev3. by apply set_file_offset_stable_insert.
  - eexists _, _, _, d. split; [reflexivity|]. split; [|split; [by right|done]].
    split; [done|]. split; [done|]. split; [done|]. exists (events oe2). split; [done|]. left.
    by split_and!.
Qed.

(** ** What flushing and queueing leave alone, for clients of the queue *)

(** The bytes of the copies of the queued events. *)
Definition payload_size (x : ordered_event) : Z := match oev_event x with Some e => header_size e | None => 0 end.
Definition copied_size (l : list ordered_event) : Z := foldr (fun x n => payload_size x + n) 0 l.
Definition copies oe : Z := if copy_on_queue oe then copied_size (events oe) else 0.

(** Memory for the queue is there: the limit is the default one, the accounting is
    exact, at most [n] buffers were allocated and [n] events are queued; [extra]
    bytes are for an event that is not queued yet. *)
Record room oe (n extra : Z) : Prop := {
  ro_max : max_alloc_size oe = U64_MAX;
  ro_cur : cur_alloc_size oe = nbuf oe * sizeof_buffer + copies oe + extra;
  ro_nbuf : 0 <= nbuf oe <= n;
  ro_sizes : Forall (fun x => 0 <= payload_size x < 2 ^ 16) (events oe);
  ro_len : zlen (events oe) <= n
}.
Abbreviation has_room oe n := (room oe n 0).

Lemma copied_size_bound l : Forall (fun x => 0 <= payload_size x < 2 ^ 16) l -> 0 <= copied_size l <= zlen l * 2 ^ 16.
Proof. induction 1 as [|x l Hx _ IH]; [done|]. rewrite zlen_cons. change (copied_size (x :: l)) with (payload_size x + copied_size l). lia. Qed.

Lemma copied_size_perm l1 l2 : l1 ≡ₚ l2 -> copied_size l1 = copied_size l2.
Proof. induction 1 as [|x l1 l2 _ IH|x y l|l1 l2 l3 _ IH1 _ IH2]; unfold copied_size in *; cbn [foldr] in *; lia. Qed.

Lemma copies_bound oe n extra : room oe n extra -> 0 <= copies oe <= n * 2 ^ 16.
Proof.
  intros [_ _ Hn Hs Hl]. unfold copies. destruct (copy_on_queue oe); [|lia]. pose proof (copied_size_bound _ Hs). lia.
Qed.

Lemma filter_first_slot (x : ordered_event) l : NoDup (oev_slot <$> x :: l) ->
  filter (fun y => oev_slot y <> oev_slot x) (x :: l) = l.
Proof.
  rewrite fmap_cons. intros [Hx _]%NoDup_cons. rewrite filter_cons_False by auto.
  induction l as [|y l IH]; [done|]. rewrite fmap_cons in Hx. apply not_elem_of_cons in Hx as [Hy Hx].
  rewrite filter_cons_True by auto. by rewrite IH.
Qed.

(** Deleting the first event gives its copy back. *)
Lemma delete_room oe x l n : events oe = x :: l -> NoDup (oev_slot <$> events oe) -> has_room oe n -> n < 2 ^ 40 ->
  events (ordered_events__delete oe x) = l /\ has_room (ordered_events__delete oe x) n.
Proof.
  intros He Hnd Hroom Hn. pose proof (copies_bound _ _ _ Hroom) as Hcb. destruct Hroom as [R1 R2 R3 R4 R5].
  rewrite He in Hnd. pose proof (filter_first_slot x l Hnd) as Hf.
  assert (Hev : events (ordered_events__delete oe x) = l).
  { unfold ordered_events__delete, free_dup_event, __free_dup_event. cbn -[filter]. rewrite He.
    destruct (copy_on_queue oe), (oev_event x); exact Hf. }
  split; [done|]. rewrite He in R4, R5. apply Forall_cons in R4 as [Rx R4]. rewrite zlen_cons in R5.
  assert (Hsz : sizeof_buffer = 65536) by (vm_compute; done). pose proof (copied_size_bound l R4) as Hl.
  split; rewrite ?Hev; try done; try lia.
  - unfold ordered_events__delete, free_dup_event, __free_dup_event. cbn. by destruct (copy_on_queue oe), (oev_event x).
  - unfold copies in *. rewrite He in *. cbn [copied_size foldr] in *. fold (copied_size l) in *.
    assert (Hc : copy_on_queue (ordered_events__delete oe x) = copy_on_queue oe /\ nbuf (ordered_events__delete oe x) = nbuf oe /\
      cur_alloc_size (ordered_events__delete oe x) = if copy_on_queue oe then cur_alloc_size oe -64 payload_size x else cur_alloc_size oe).
    { unfold ordered_events__delete, free_dup_event, __free_dup_event, payload_size. cbn.
      destruct (copy_on_queue oe) eqn:Ec, (oev_event x); cbn; split_and!; try done.
      rewrite Z.sub_0_r, u64_small; [done|]. nia. }
    destruct Hc as (-> & -> & ->). rewrite Hev. destruct (copy_on_queue oe); [|lia]. rewrite u64_small; [lia|nia].
  - unfold ordered_events__delete, free_dup_event, __free_dup_event. cbn. by destruct (copy_on_queue oe), (oev_event x).
Qed.

Lemma flush_loop_room limit l : forall oe w r oe' w' n, events oe = l -> NoDup (oev_slot <$> events oe) ->
  has_room oe n -> n < 2 ^ 40 -> flush_loop limit l oe w = (r, oe', w') -> has_room oe' n.
Proof.
  induction l as [|x l IH]; intros oe w r oe' w' n He Hnd Hroom Hn; cbn [flush_loop]; [by intros [= _ <- _]|].
  destruct (session_done w); [by intros [= _ <- _]|].
  destruct (limit <? oev_timestamp x); [by intros [= _ <- _]|].
  destruct (deliver w x) as [ret w1]. destruct (negb (ret =? 0)); [by intros [= _ <- _]|].
  destruct (delete_room oe x l n He Hnd Hroom Hn) as [He' Hroom'].
  apply IH; [done| |by destruct Hroom'|done]. cbn [events with_last_flush]. rewrite He'.
  rewrite He, fmap_cons in Hnd. by apply NoDup_cons in Hnd as [_ Hnd].
Qed.

Lemma do_flush_room oe w r oe' w' n : oe_wf oe -> has_room oe n -> n < 2 ^ 40 -> do_flush oe w = Some (r, oe', w') -> has_room oe' n.
Proof.
  intros Hwf Hroom Hn. unfold do_flush. destruct (match last oe with None => _ | Some s => _ end); [|done]. mred.
  destruct (next_flush oe =? 0); [by intros [= _ <- _]|].
  assert (Hnd : NoDup (oev_slot <$> events oe)).
  { pose proof (wf_nodup _ Hwf) as H. rewrite fmap_app in H. by apply NoDup_app in H as (H & _). }
  destruct (flush_loop _ _ oe w) as [[r1 oe1] w1] eqn:Ef. eapply flush_loop_room in Ef; [|done..].
  destruct r1 as [r1|]; [by intros [= _ <- _]|].
  intros [= _ <- _]. destruct (reverse (events oe1)); [by destruct Ef|]. by case_test; destruct Ef.
Qed.

(** A round flush delivers what is not later than the newest event of the
    round before the last one, and remembers the newest event of this one. *)
Lemma round_flush_spec oe w :
  reliable -> oe_inv oe ->
  exists oe' w' d, ordered_events__flush oe OE_FLUSH__ROUND w = Some (0, oe', w') /\
    flush_post oe w oe' w' d /\ (forall n, n < 2 ^ 40 -> has_room oe n -> has_room oe' n) /\
    max_timestamp oe' = max_timestamp oe /\
    (next_flush oe' = next_flush oe \/ next_flush oe' = max_timestamp oe) /\
    Forall (fun x => oev_timestamp x <= next_flush oe) d.
Proof.
  intros Hrel Hinv. unfold ordered_events__flush, __ordered_events__flush.
  destruct (nr_events oe =? 0).
  { exists oe, w, []. split; [done|]. split; [by split_and!; auto|]. split_and!; auto. }
  destruct (do_flush_spec oe w Hrel Hinv) as (oe1 & w1 & d & Hf & Hi & He & Hd & Hb & Hlf & Hm & Hu).
  rewrite Hf. mred. change (0 =? 0) with true. cbv iota.
  eexists _, _, (if next_flush oe =? 0 then [] else d). split; [done|].
  destruct (Z.eqb_spec (next_flush oe) 0) as [H0|H0].
  - assert (Heq : oe1 = oe /\ w1 = w).
    { revert Hf. unfold do_flush.
      destruct (match last oe with None => _ | Some s => _ end); [|done]. mred. rewrite H0.
      by intros [= <- <-]. }
    destruct Heq as [-> ->]. split; [split; [by apply (oe_inv_ext oe)|]; split_and!; auto|].
    split_and!; auto. intros n _ []. by split.
  - destruct (Hb H0) as [Hb1 _].
    split; [split; [by apply (oe_inv_ext oe1)|]; by split_and!|].
    split; [|cbn; split_and!; auto]. intros n Hn Hroom. destruct (do_flush_room _ _ _ _ _ n (proj1 Hinv) Hroom Hn Hf). by split.
Qed.

Lemma dup_event_room oe e n : (forall k, malloc_ok k = true) -> has_room oe n -> n < 2 ^ 40 -> 0 <= header_size e < 2 ^ 16 ->
  exists oe', dup_event oe e = (Some e, oe') /\ room oe' n (if copy_on_queue oe' then header_size e else 0) /\
    cache oe' = cache oe /\ buffer oe' = buffer oe.
Proof.
  intros Hok Hroom Hn He. pose proof (copies_bound _ _ _ Hroom) as Hcb. destruct Hroom as [R1 R2 R3 R4 R5].
  unfold dup_event. destruct (copy_on_queue oe) eqn:Ec; [|exists oe; rewrite Ec; split; [done|]; split; [by split|done]].
  assert (Hsz : sizeof_buffer = 65536) by (vm_compute; done).
  unfold __dup_event, malloc. rewrite R1. destruct (Z.ltb_spec (cur_alloc_size oe) U64_MAX); [|unfold U64_MAX in *; nia].
  rewrite Hok. eexists. split; [done|]. cbn. rewrite Ec. split; [|done].
  split; try done. unfold copies in *. cbn -[copied_size]. rewrite u64_small; [lia|nia].
Qed.

Lemma alloc_event_room oe e n :
  (forall k, malloc_ok k = true) -> has_room oe n -> n < 2 ^ 40 -> 0 <= header_size e < 2 ^ 16 ->
  exists x oe', alloc_event oe e = (Some x, oe') /\ room oe' (n + 1) (if copy_on_queue oe' then header_size e else 0).
Proof.
  intros Hok Hroom Hlt He. unfold alloc_event.
  destruct (dup_event_room oe e n Hok Hroom Hlt He) as (oe1 & -> & Hr & _).
  pose proof (copies_bound _ _ _ Hr) as Hcb. destruct Hr as [R1 R2 R3 R4 R5].
  destruct (cache oe1) as [|x l]; [|by eexists _, _; split; [done|split; cbn; lia || done]].
  destruct (buffer oe1) as [b|]; [by eexists _, _; split; [done|split; cbn; lia || done]|].
  assert (Hsz : sizeof_buffer = 65536) by (vm_compute; done).
  assert (Hx : 0 <= (if copy_on_queue oe1 then header_size e else 0) < 2 ^ 16) by (destruct (copy_on_queue oe1); lia).
  rewrite u64_small by nia. rewrite R1. destruct (Z.ltb_spec (cur_alloc_size oe1 + sizeof_buffer) U64_MAX);
    [|unfold U64_MAX in *; nia].
  unfold malloc. rewrite Hok. cbn. eexists _, _. split; [done|].
  split; [done| |cbn; lia|done|cbn; lia]. unfold copies in *. cbn -[copied_size]. rewrite u64_small by nia. rewrite Hsz in *. lia.
Qed.

(** With room a proper timestamp is always accepted, at its place. *)
Lemma queue_accepts oe e ts fo w n :
  (forall k, malloc_ok k = true) -> reliable -> oe_inv oe -> has_room oe n -> n < 2 ^ 40 -> 0 <= header_size e < 2 ^ 16 ->
  0 < ts < U64_MAX -> last_flush oe <= ts ->
  exists oe' s, ordered_events__queue oe e ts fo w = Some (0, oe', w) /\ oe_inv oe' /\
    events oe' = stable_insert (OEvent s ts fo (Some e)) (events oe) /\
    last_flush oe' = last_flush oe /\ next_flush oe' = next_flush oe /\
    max_timestamp oe' <= Z.max (max_timestamp oe) ts /\ has_room oe' (n + 1).
Proof.
  intros Hok Hrel Hinv Hroom Hn Hsize Hts Hlf.
  destruct (ordered_events__queue_spec oe e ts fo w Hrel Hinv) as (r & oe' & w' & d & Hq & Hp & _ & Hd).
  destruct (Z.ltb_spec ts (last_flush oe)) as [|_]; [lia|].
  destruct (alloc_event_room oe e n Hok Hroom Hn Hsize) as (x & oe1 & Ha & Hroom1).
  rewrite Ha in Hd. specialize (Hd ltac:(done)). subst d.
  pose proof Hinv as (Hwf & Hl & Hm).
  destruct (alloc_event_spec _ _ _ _ Hwf Ha) as ((He & Hla & Hmt & Hlf1 & Hnf & Hnr & Hu) & Hwf1 & Hnew).
  assert (Hl1 : last_ok oe1) by (unfold last_ok in *; by rewrite He, Hla).
  pose proof Hq as Hq2. unfold ordered_events__queue, ordered_events__new_event in Hq2.
  destruct (Z.eqb_spec ts 0); [lia|]. destruct (Z.eqb_spec ts U64_MAX); [lia|]. cbn [orb] in Hq2.
  destruct (Z.ltb_spec ts (last_flush oe)); [lia|]. rewrite Ha in Hq2.
  destruct (queue_event_spec oe1 (OEvent (oev_slot x) ts (oev_file_offset x) (oev_event x))
    (wf_sorted _ Hwf1) Hl1) as (mt & Hqe & Hmt1 & Hmt2).
  cbn [mbind option_bind] in Hq2. rewrite Hqe in Hq2. cbn [mbind option_bind] in Hq2.
  injection Hq2 as Hr Hoe Hw. subst r w'.
  destruct Hp as (Hi & _ & Hlf' & rest & Hrest & Hcase). simpl in Hrest. subst rest.
  destruct Hcase as [[? _]|[_ [s Hs]]]; [done|].
  exists oe', s. split; [done|]. split; [done|]. split; [done|]. split; [done|].
  assert (Hroom' : has_room oe' (n + 1)).
  { pose proof (copied_size_perm _ _ (stable_insert_perm (OEvent s ts fo (Some e)) (events oe))) as Hcs.
    rewrite <- Hs in Hcs. cbn [copied_size foldr payload_size oev_event] in Hcs. fold (copied_size (events oe)) in Hcs.
    destruct Hroom as [_ _ _ R4 R5], Hroom1 as [Q1 Q2 Q3 _ _]. rewrite <- He in Hcs.
    assert (Hp : events oe' ≡ₚ OEvent s ts fo (Some e) :: events oe) by (rewrite Hs; apply stable_insert_perm).
    split; [by rewrite <- Hoe| |by rewrite <- Hoe| |].
    - unfold copies in *. rewrite Hcs, <- Hoe. cbn -[copied_size]. rewrite Q2. destruct (copy_on_queue oe1); lia.
    - rewrite Hp. by constructor.
    - unfold zlen in *. rewrite (Permutation_length Hp). cbn. lia. }
  rewrite <- Hoe in *. cbn. split; [done|]. split; [|exact Hroom'].
  destruct (decide (Forall (fun y => oev_timestamp y <= ts) (events oe1))) as [Hall|Hall].
  - rewrite Hmt1 by done. cbn. lia.
  - rewrite Hmt2 by done. lia.
Qed.

(** Wherever the hint oe->last points in the queue, queue_event links the
    new event after every queued event that is not later and before every
    later one: the two search loops compute the same stable insertion, the
    queue stays sorted, and nothing else of the queue moves. *)
Theorem queue_event_stable_insert oe (new : ordered_event) :
  oe_inv oe ->
  exists oe', queue_event oe new = Some oe' /\
    events oe' = filter (fun x => oev_timestamp x <= oev_timestamp new) (events oe) ++
                 new :: filter (fun x => oev_timestamp new < oev_timestamp x) (events oe) /\
    StronglySorted le_ts (events oe') /\ last oe' = Some (oev_slot new).
Proof.
  intros (Hwf & Hl & Hm).
  destruct (queue_event_spec oe new (wf_sorted _ Hwf) Hl) as (mt & -> & _).
  eexists. split; [reflexivity|]. simpl. split; [done|]. split; [|done].
  apply stable_insert_sorted, Hwf.
Qed.

(** A final flush hands every queued event to a reliable client, in the
    order of the queue (hence by timestamp), and leaves the queue empty with
    oe->last reset. *)
Theorem ordered_events__flush_final_drains oe (w : W) :
  reliable -> oe_inv oe -> zlen (events oe) < 2 ^ 32 ->
  Forall (fun x => oev_timestamp x <= U64_MAX) (events oe) ->
  exists oe' w', ordered_events__flush oe OE_FLUSH__FINAL w = Some (0, oe', w') /\
    delivered w (events oe) w' /\ events oe' = [] /\ last oe' = None /\ oe_inv oe'.
Proof.
  intros Hrel Hinv Hlen Hts.
  destruct (__ordered_events__flush_spec oe OE_FLUSH__FINAL 0 w Hrel Hinv)
    as (oe' & w' & d & Hfl & (Hi & He & Hd & _) & Hnil).
  specialize (Hnil eq_refl Hlen Hts). rewrite Hnil, app_nil_r in He. subst d.
  exists oe', w'. split_and!; try done.
  destruct Hi as (_ & Hl & _). unfold last_ok in Hl. destruct (last oe'); [|done].
  rewrite Hnil in Hl. by apply elem_of_nil in Hl.
Qed.

End OrderedEvents.

(** * Runs of the queue *)

Section Runs.
Context {E : Type} (header_size : E -> Z) (malloc_ok : nat -> bool) (junk : Z -> Z * Z).

(** A client that records what it is given. *)
Definition log_deliver (w : list (@ordered_event E)) (x : @ordered_event E)
    : Z * list (@ordered_event E) := (0, w ++ [x]).
Definition never_done (w : list (@ordered_event E)) : bool := false.

Inductive oe_op :=
| Op_queue (e : E) (timestamp file_offset : Z)
| Op_flush (how : oe_flush)
| Op_flush_time (timestamp : Z).

(** A state of a run: the queue, what was delivered, what was accepted, and
    whether a queueing had to flush half of the queue to get memory. *)
Record run_state := Run {
  rs_oe : @ordered_events E;
  rs_log : list (@ordered_event E);
  rs_accepted : list (Z * Z * option E);
  rs_halved : bool
}.

Definition oev_key (x : @ordered_event E) : Z * Z * option E :=
  (oev_timestamp x, oev_file_offset x, oev_event x).

Definition run_op (op : oe_op) (st : run_state) : option run_state :=
  match op with
  | Op_queue e ts fo =>
      let oe := rs_oe st in
      let ts := u64 ts in
      let oe0 := if ts <? last_flush oe
                 then with_nr_unordered (u32 (nr_unordered_events oe + 1)) oe else oe in
      let halved := match fst (alloc_event header_size malloc_ok junk oe0 e) with
                    | Some _ => false | None => true end in
      '(r, oe, w) ← ordered_events__queue header_size malloc_ok junk log_deliver never_done
                      oe e ts fo (rs_log st);
      Some (Run oe w (if r =? 0 then rs_accepted st ++ [(ts, fo, Some e)] else rs_accepted st)
              (rs_halved st || halved))
  | Op_flush how =>
      '(_, oe, w) ← ordered_events__flush header_size log_deliver never_done
                      (rs_oe st) how (rs_log st);
      Some (Run oe w (rs_accepted st) (rs_halved st))
  | Op_flush_time ts =>
      '(_, oe, w) ← ordered_events__flush_time header_size log_deliver never_done
                      (rs_oe st) (u64 ts) (rs_log st);
      Some (Run oe w (rs_accepted st) (rs_halved st))
  end.

Fixpoint run_ops (ops : list oe_op) (st : run_state) : option run_state :=
  match ops with
  | [] => Some st
  | op :: ops' => st' ← run_op op st; run_ops ops' st'
  end.

(** A freshly initialised queue (zeroed storage, then ordered_events__init). *)
Definition fresh_oe (d : Z) : @ordered_events E :=
  ordered_events__init (OE 0 0 0 0 0 [] [] [] None None 0 0 OE_FLUSH__NONE 0 false 0 0 0) d.

Definition fresh_run (oe : @ordered_events E) : run_state := Run oe [] [] false.

Lemma log_reliable : reliable log_deliver never_done.
Proof. done. Qed.

Lemma delivered_log w d w' : delivered log_deliver w d w' -> w' = w ++ d.
Proof.
  induction 1 as [w|w x w1 l w2 Hd Hl IH]; [by rewrite app_nil_r|].
  injection Hd as <-. rewrite IH. by rewrite <- app_assoc.
Qed.

Lemma fresh_oe_inv d copy size :
  oe_inv (ordered_events__set_copy_on_queue (ordered_events__set_alloc_size (fresh_oe d) size) copy).
Proof.
  split; [split; simpl; try done; constructor|]. split; [done|].
  intros l x Hx. simpl in Hx. by apply symmetry, app_nil in Hx as [_ ?].
Qed.

(** The part of the invariant that speaks about the delivered stream. *)
Definition stream_ok (n : Z) (st : run_state) : Prop :=
  0 <= nr_unordered_events (rs_oe st) <= n /\
  (nr_unordered_events (rs_oe st) = 0 -> rs_halved st = false ->
   StronglySorted le_ts (rs_log st) /\
   Forall (fun x => oev_timestamp x <= last_flush (rs_oe st)) (rs_log st) /\
   Forall (fun x => last_flush (rs_oe st) <= oev_timestamp x) (events (rs_oe st))).

Definition run_ok (n : Z) (st : run_state) : Prop :=
  oe_inv (rs_oe st) /\
  (oev_key <$> rs_log st) ++ (oev_key <$> events (rs_oe st)) ≡ₚ rs_accepted st /\
  stream_ok n st.

Lemma flushed_to_snoc lf l x : flushed_to lf (l ++ [x]) = @oev_timestamp E x.
Proof. unfold flushed_to. by rewrite foldl_app. Qed.

(** Delivering the prefix [d] of a sorted queue extends a sorted stream. *)
Lemma stream_extend lf (w d rest : list (@ordered_event E)) :
  StronglySorted le_ts w -> Forall (fun x => oev_timestamp x <= lf) w ->
  StronglySorted le_ts (d ++ rest) -> Forall (fun x => lf <= oev_timestamp x) (d ++ rest) ->
  StronglySorted le_ts (w ++ d) /\
  Forall (fun x => oev_timestamp x <= flushed_to lf d) (w ++ d) /\
  Forall (fun x => flushed_to lf d <= oev_timestamp x) rest.
Proof.
  intros Hw Hwl Hs Hdl. apply Forall_app in Hdl as [Hd Hr].
  apply StronglySorted_app_inv in Hs as (Hsd & _ & Hdr).
  rewrite Forall_forall in Hwl, Hd.
  split; [apply StronglySorted_snoc_app; try done; intros x y Hx Hy;
          specialize (Hwl x Hx); specialize (Hd y Hy); unfold le_ts; lia|].
  destruct d as [|z d _] using rev_ind.
  { rewrite app_nil_r. split; [by apply Forall_forall|done]. }
  rewrite flushed_to_snoc. apply StronglySorted_app_inv in Hsd as (_ & _ & Hz).
  assert (Hlz : lf <= oev_timestamp z) by (apply Hd, elem_of_app; right; left).
  split.
  - apply Forall_forall. intros x [Hx|[Hx|Hx]%elem_of_app]%elem_of_app.
    + specialize (Hwl x Hx). lia.
    + apply (Hz x z Hx). left.
    + apply list_elem_of_singleton in Hx as ->. lia.
  - apply Forall_forall. intros x Hx. apply (Hdr z x); [apply elem_of_app; right; left|done].
Qed.

Lemma run_flush_ok n st oe' w' d :
  0 <= n -> run_ok n st ->
  flush_post log_deliver (rs_oe st) (rs_log st) oe' w' d ->
  run_ok n (Run oe' w' (rs_accepted st) (rs_halved st)).
Proof.
  intros Hn (Hinv & Hperm & Hu & Hst) (Hi & He & Hd & Hlf & Hnu). apply delivered_log in Hd as ->.
  split; [done|]. split.
  { simpl. rewrite <- Hperm, He, !fmap_app. by rewrite <- app_assoc. }
  split; simpl; [by rewrite Hnu|]. rewrite Hnu, Hlf. intros H0 Hh.
  destruct (Hst H0 Hh) as (H1 & H2 & H3). rewrite He in H3.
  destruct Hinv as (Hwf & _). pose proof (wf_sorted _ Hwf) as Hs. rewrite He in Hs.
  by apply (stream_extend _ _ _ (events oe')).
Qed.

Lemma run_queue_ok n st e ts fo r oe' w' d h :
  0 <= ts -> 0 <= n -> n + 1 < 2 ^ 32 -> run_ok n st ->
  queue_post log_deliver (rs_oe st) (rs_log st) e ts fo r oe' w' d ->
  (r = - ETIME \/ nr_unordered_events oe' =
     if ts <? last_flush (rs_oe st) then u32 (nr_unordered_events (rs_oe st) + 1)
     else nr_unordered_events (rs_oe st)) ->
  (h = false -> d = []) ->
  run_ok (n + 1) (Run oe' w'
    (if r =? 0 then rs_accepted st ++ [(ts, fo, Some e)] else rs_accepted st) (rs_halved st || h)).
Proof.
  intros Hts Hn Hn32 (Hinv & Hperm & Hu & Hst) (Hi & Hd & Hlf & rest & He & Hcase) Hnu Hh.
  apply delivered_log in Hd as ->. split; [done|].
  split.
  { simpl. rewrite He in Hperm. rewrite !fmap_app in *. rewrite <- app_assoc in *.
    destruct Hcase as [(Hr & -> & _)|(-> & s & ->)].
    - destruct (Z.eqb_spec r 0); [done|]. by rewrite <- Hperm.
    - simpl. rewrite stable_insert_perm, fmap_cons, <- Hperm.
      by rewrite !app_assoc, <- Permutation_cons_append, Permutation_middle. }
  assert (Hnu' : nr_unordered_events oe' = nr_unordered_events (rs_oe st) \/
    nr_unordered_events oe' = nr_unordered_events (rs_oe st) + 1 /\ ts < last_flush (rs_oe st)).
  { destruct Hnu as [-> | ->].
    - destruct Hcase as [(_ & _ & Hc)|(Hc & _)]; [left; by apply Hc|by unfold ETIME in Hc].
    - case_test; [right|by left]. split; [|done]. apply u32_small. lia. }
  split; cbn [rs_oe rs_log rs_halved]; [lia|]. intros H0 [Hh0 Hh1]%orb_false_iff.
  specialize (Hh Hh1). subst d. rewrite app_nil_r.
  destruct Hnu' as [Hnu'|[Hnu' _]]; [|lia].
  destruct (Hst ltac:(lia) Hh0) as (H1 & H2 & H3). simpl in He, Hlf. rewrite Hlf.
  split; [done|]. split; [done|].
  destruct Hcase as [(_ & -> & _)|(Hr & s & ->)]; [by rewrite <- He|].
  rewrite stable_insert_perm, <- He. constructor; [|done]. simpl.
  destruct Hnu as [Hnu|Hnu]; [rewrite Hr in Hnu; by unfold ETIME in Hnu|].
  destruct (Z.ltb_spec ts (last_flush (rs_oe st))); [|done].
  rewrite Hnu in Hnu'. rewrite u32_small in Hnu' by lia. lia.
Qed.

Lemma run_op_ok n op st :
  0 <= n -> n + 1 < 2 ^ 32 -> run_ok n st ->
  exists st', run_op op st = Some st' /\ run_ok (n + 1) st'.
Proof.
  intros Hn Hn32 Hok. pose proof Hok as (Hinv & _).
  assert (Hmono : forall st', run_ok n st' -> run_ok (n + 1) st')
    by (intros st' (? & ? & ? & ?); split; [done|]; split; [done|]; split; [lia|done]).
  destruct op as [e ts fo|how|ts]; simpl.
  - destruct (ordered_events__queue_spec header_size malloc_ok junk log_deliver never_done
      (rs_oe st) e (u64 ts) fo (rs_log st) log_reliable Hinv)
      as (r & oe' & w' & d & -> & Hp & Hnu & Hd). mred.
    eexists. split; [reflexivity|]. pose proof (u64_bound ts).
    eapply (run_queue_ok n st e (u64 ts) fo); try done; [lia|].
    destruct (fst (alloc_event _ _ _ _ _)); [|done]. intros _. by apply Hd.
  - destruct (__ordered_events__flush_spec header_size log_deliver never_done
      (rs_oe st) how 0 (rs_log st) log_reliable Hinv) as (oe' & w' & d & Hf & Hp & _).
    unfold ordered_events__flush. rewrite Hf. mred. eexists. split; [reflexivity|].
    by apply Hmono, (run_flush_ok n st _ _ d).
  - destruct (__ordered_events__flush_spec header_size log_deliver never_done
      (rs_oe st) OE_FLUSH__TIME (u64 ts) (rs_log st) log_reliable Hinv)
      as (oe' & w' & d & Hf & Hp & _).
    unfold ordered_events__flush_time. rewrite Hf. mred. eexists. split; [reflexivity|].
    by apply Hmono, (run_flush_ok n st _ _ d).
Qed.

Lemma run_ops_ok n ops st :
  0 <= n -> n + zlen ops < 2 ^ 32 -> run_ok n st ->
  exists st', run_ops ops st = Some st' /\ run_ok (n + zlen ops) st'.
Proof.
  revert n st. induction ops as [|op ops IH]; intros n st Hn Hn32 Hok; simpl.
  { exists st. split; [done|]. zlens. by rewrite Z.add_0_r. }
  zlens. pose proof (zlen_nonneg ops).
  destruct (run_op_ok n op st) as (st1 & -> & Hok1); [lia|lia|done|]. mred.
  destruct (IH (n + 1) st1) as (st2 & -> & Hok2); [lia|lia|done|].
  exists st2. split; [done|]. by replace (n + (1 + zlen ops)) with (n + 1 + zlen ops) by lia.
Qed.

Lemma fresh_run_ok d size copy :
  run_ok 0 (fresh_run (ordered_events__set_copy_on_queue
    (ordered_events__set_alloc_size (fresh_oe d) size) copy)).
Proof. split; [apply fresh_oe_inv|]. split; [done|]. split; [done|]. repeat constructor. Qed.

(** C17: From a freshly initialised queue (any allocation limit, copying or not, any
    malloc behaviour) and with a deliver callback that always succeeds and a session
    that is not done, every sequence of fewer than 2^32 queue and flush calls runs to
    the end without following a stale pointer; the queue's invariant holds afterwards,
    and the delivered events together with the still queued ones are exactly the
    accepted events, each once.  A callback that fails is not covered: it leaves
    oe->last pointing to an event that is gone ([flush_error_stale_last]). *)
Theorem ordered_events_conserves (ops : list oe_op) (d size : Z) (copy : bool) :
  zlen ops < 2 ^ 32 ->
  exists st, run_ops ops (fresh_run (ordered_events__set_copy_on_queue
      (ordered_events__set_alloc_size (fresh_oe d) size) copy)) = Some st /\
    oe_inv (rs_oe st) /\
    (oev_key <$> rs_log st) ++ (oev_key <$> events (rs_oe st)) ≡ₚ rs_accepted st.
Proof.
  intros Hn. destruct (run_ops_ok 0 ops _ ltac:(lia) Hn (fresh_run_ok d size copy))
    as (st & -> & Hi & Hp & _). eauto.
Qed.

(** When no event was counted as unordered and no queueing had to flush
    half of the queue for memory, the events are delivered in non-decreasing
    timestamp order over the whole run, however queue and flush calls were
    interleaved. *)
Theorem ordered_events_delivery_sorted (ops : list oe_op) (d size : Z) (copy : bool) st :
  zlen ops < 2 ^ 32 ->
  run_ops ops (fresh_run (ordered_events__set_copy_on_queue
      (ordered_events__set_alloc_size (fresh_oe d) size) copy)) = Some st ->
  rs_halved st = false -> nr_unordered_events (rs_oe st) = 0 ->
  StronglySorted le_ts (rs_log st).
Proof.
  intros Hn Hrun Hh Hu.
  destruct (run_ops_ok 0 ops _ ltac:(lia) Hn (fresh_run_ok d size copy))
    as (st' & Hrun' & _ & _ & _ & Hs). rewrite Hrun in Hrun'. injection Hrun' as <-.
  by apply Hs.
Qed.

End Runs.

(** * Concrete runs: witnesses and the corner cases of the source *)

Module OrderedEventsExamples.

Definition esz (e : Z) : Z := 8.
Definition always (n : nat) : bool := true.
Definition zeros (s : Z) : Z * Z := (0, 0).
Definition ev (s t : Z) : ordered_event := OEvent s t 0 (Some t).

(** Two queued events with the hint on the earlier one. *)
Definition two_events : ordered_events :=
  OE 0 0 20 U64_MAX sizeof_buffer [ev 0 10; ev 1 20] [] [0] (Some 0) (Some 0) 2 2
     OE_FLUSH__NONE 0 false 0 1 1.

Lemma two_events_inv : oe_inv two_events.
Proof.
  split; [|split].
  - split; simpl; try done.
    + repeat constructor; unfold le_ts; simpl; lia.
    + apply (bool_decide_unpack (NoDup [0; 1])). vm_compute. exact I.
    + repeat constructor; unfold frontier; simpl; lia.
  - left.
  - intros l x Hx. destruct l as [|a [|b [|]]]; simplify_eq/=; done.
Qed.

Lemma queue_event_stable_insert_witness :
  exists oe', queue_event two_events (ev 2 15) = Some oe' /\
    events oe' = [ev 0 10; ev 2 15; ev 1 20] /\
    StronglySorted le_ts (events oe') /\ last oe' = Some 2.
Proof. apply (queue_event_stable_insert two_events (ev 2 15)). exact two_events_inv. Defined.

Lemma ordered_events__flush_final_drains_witness :
  exists oe' w', ordered_events__flush esz log_deliver never_done two_events OE_FLUSH__FINAL []
      = Some (0, oe', w') /\
    delivered log_deliver [] (events two_events) w' /\ events oe' = [] /\ last oe' = None /\
    oe_inv oe'.
Proof.
  apply (ordered_events__flush_final_drains esz log_deliver never_done two_events []).
  - exact log_reliable.
  - exact two_events_inv.
  - reflexivity.
  - repeat constructor; vm_compute; discriminate.
Defined.

(** Out-of-order arrival with a round flush in between. *)
Definition sample_ops : list oe_op :=
  [Op_queue 30 30 0; Op_queue 10 10 1; Op_queue 20 20 2; Op_flush OE_FLUSH__ROUND;
   Op_queue 40 40 3; Op_queue 35 35 4; Op_flush OE_FLUSH__ROUND; Op_flush OE_FLUSH__FINAL].

Definition fresh_sample : @run_state Z :=
  fresh_run (ordered_events__set_copy_on_queue
    (ordered_events__set_alloc_size (fresh_oe 0) U64_MAX) false).

Lemma ordered_events_conserves_witness :
  exists st, run_ops esz always zeros sample_ops fresh_sample = Some st /\
    oe_inv (rs_oe st) /\
    (oev_key <$> rs_log st) ++ (oev_key <$> events (rs_oe st)) ≡ₚ rs_accepted st.
Proof. apply (ordered_events_conserves esz always zeros). reflexivity. Defined.

Lemma ordered_events_delivery_sorted_witness :
  exists st, run_ops esz always zeros sample_ops fresh_sample = Some st /\
    oev_timestamp <$> rs_log st = [10; 20; 30; 35; 40] /\ StronglySorted le_ts (rs_log st).
Proof.
  eexists. split; [vm_compute; reflexivity|]. split; [reflexivity|].
  apply (ordered_events_delivery_sorted esz always zeros sample_ops 0 U64_MAX false).
  - reflexivity.
  - vm_compute. reflexivity.
  - reflexivity.
  - reflexivity.
Defined.

(** The unordered count misses events.  With an allocation limit, queueing
    event 20 first flushes half of the queue, which delivers event 30; event
    20 was compared with last_flush before that flush, so it is delivered
    after event 30 while nr_unordered_events is still 0. *)
Theorem half_flush_unordered_not_counted :
  exists st,
    run_ops esz always zeros
      [Op_queue 10 10 0; Op_queue 30 30 1; Op_queue 100 100 2; Op_queue 20 20 3;
       Op_flush OE_FLUSH__FINAL]
      (fresh_run (ordered_events__set_copy_on_queue
         (ordered_events__set_alloc_size (fresh_oe 0) (sizeof_buffer + 17)) true)) = Some st /\
    oev_timestamp <$> rs_log st = [10; 30; 20; 100] /\
    nr_unordered_events (rs_oe st) = 0 /\ rs_halved st = true.
Proof. eexists. split; [vm_compute; reflexivity|]. done. Qed.

(** A flush that a client stops with an error after the hinted event was
    delivered leaves oe->last pointing to an event that is no longer queued;
    the next queue_event would follow the links of that cached object. *)
Theorem flush_error_stale_last :
  exists oe' w',
    ordered_events__flush esz
      (fun (w : list ordered_event) x => if oev_timestamp x =? 20 then (-5, w) else (0, w ++ [x]))
      never_done two_events OE_FLUSH__FINAL [] = Some (-5, oe', w') /\
    oev_slot <$> events oe' = [1] /\ last oe' = Some 0 /\
    queue_event oe' (ev 2 15) = None.
Proof. eexists _, _. split; [vm_compute; reflexivity|]. done. Qed.

End OrderedEventsExamples.
