(* ===== verification/Sample.v ===== *)
(** Model of the sample codec of util/evsel.c: sample sizes and id positions,
    perf_evsel__parse_sample, perf_evsel__parse_sample_timestamp,
    perf_event__sample_event_size and perf_event__synthesize_sample, with the
    structures of util/event.h and util/evsel.h, the byte swappers of
    util/memswap.c and perf_evlist__event2id of util/evlist.c.

    The host is little endian and 64 bits wide.  A [perf_event] is its header
    and the bytes of the record, header included; [array] of the source is a
    byte offset into them and every load is checked.  A pointer that the parser
    leaves into the record is modelled by what it points to. *)

From S2P Require Import Prelude.

(** * The kernel interface (uapi/linux/perf_event.h) *)

Definition PERF_SAMPLE_IP : Z := 2 ^ 0.
Definition PERF_SAMPLE_TID : Z := 2 ^ 1.
Definition PERF_SAMPLE_TIME : Z := 2 ^ 2.
Definition PERF_SAMPLE_ADDR : Z := 2 ^ 3.
Definition PERF_SAMPLE_READ : Z := 2 ^ 4.
Definition PERF_SAMPLE_CALLCHAIN : Z := 2 ^ 5.
Definition PERF_SAMPLE_ID : Z := 2 ^ 6.
Definition PERF_SAMPLE_CPU : Z := 2 ^ 7.
Definition PERF_SAMPLE_PERIOD : Z := 2 ^ 8.
Definition PERF_SAMPLE_STREAM_ID : Z := 2 ^ 9.
Definition PERF_SAMPLE_RAW : Z := 2 ^ 10.
Definition PERF_SAMPLE_BRANCH_STACK : Z := 2 ^ 11.
Definition PERF_SAMPLE_REGS_USER : Z := 2 ^ 12.
Definition PERF_SAMPLE_STACK_USER : Z := 2 ^ 13.
Definition PERF_SAMPLE_WEIGHT : Z := 2 ^ 14.
Definition PERF_SAMPLE_DATA_SRC : Z := 2 ^ 15.
Definition PERF_SAMPLE_IDENTIFIER : Z := 2 ^ 16.
Definition PERF_SAMPLE_TRANSACTION : Z := 2 ^ 17.
Definition PERF_SAMPLE_REGS_INTR : Z := 2 ^ 18.
Definition PERF_SAMPLE_PHYS_ADDR : Z := 2 ^ 19.
Definition PERF_FORMAT_TOTAL_TIME_ENABLED : Z := 2 ^ 0.
Definition PERF_FORMAT_TOTAL_TIME_RUNNING : Z := 2 ^ 1.
Definition PERF_FORMAT_ID : Z := 2 ^ 2.
Definition PERF_FORMAT_GROUP : Z := 2 ^ 3.
Definition PERF_RECORD_SAMPLE : Z := 9.
Definition PERF_RECORD_MISC_CPUMODE_MASK : Z := 7.
Definition PERF_SAMPLE_REGS_ABI_NONE : Z := 0.
Definition EFAULT : Z := 14.
Definition UINT64_MAX : Z := 2 ^ 64 - 1.
Definition sizeof_header : Z := 8.

(** * Data of util/event.h and util/evsel.h *)

Definition PERF_SAMPLE_MASK : Z :=
  Z.lor PERF_SAMPLE_IP (Z.lor PERF_SAMPLE_TID (Z.lor PERF_SAMPLE_TIME
  (Z.lor PERF_SAMPLE_ADDR (Z.lor PERF_SAMPLE_ID (Z.lor PERF_SAMPLE_STREAM_ID
  (Z.lor PERF_SAMPLE_CPU (Z.lor PERF_SAMPLE_PERIOD PERF_SAMPLE_IDENTIFIER))))))).

(** PERF_MEM_S(OP, NA) | PERF_MEM_S(LVL, NA) | PERF_MEM_S(SNOOP, NA) |
    PERF_MEM_S(LOCK, NA) | PERF_MEM_S(TLB, NA). *)
Definition PERF_MEM_DATA_SRC_NONE : Z :=
  Z.lor (2 ^ 0) (Z.lor (2 ^ 5) (Z.lor (2 ^ 19) (Z.lor (2 ^ 24) (2 ^ 26)))).

Record perf_event_attr := Attr {
  sample_type : Z;
  sample_period : Z;
  read_format : Z;
  sample_id_all : bool;
  sample_regs_user : Z;
  sample_regs_intr : Z
}.

Record perf_evsel := Evsel {
  attr : perf_event_attr;
  sample_size : Z;
  id_pos : Z;
  is_pos : Z;
  needs_swap : bool
}.

Record perf_event := Event {
  hdr_type : Z;
  hdr_misc : Z;
  hdr_size : Z;
  ev_mem : bytes
}.

Record regs_dump := Regs { regs_abi : Z; regs_mask : Z; regs_vals : list Z }.
Record stack_dump := Stack { stack_offset : Z; stack_size : Z; stack_data : bytes }.

(** The union of struct sample_read: [group.nr] shares its storage with
    [one.value]. *)
Inductive read_values :=
| ReadGroup (nr : Z) (values : list Z)
| ReadOne (value id : Z).

Record sample_read := SRead {
  time_enabled : Z;
  time_running : Z;
  read_vals : read_values
}.

(** A [struct ip_callchain] or [struct branch_stack]: the count and the words
    after it (three per branch entry); [None] is the null pointer. *)
Abbreviation counted := (option (Z * list Z)) (only parsing).

Record perf_sample := Sample {
  s_ip : Z; s_pid : Z; s_tid : Z; s_time : Z; s_addr : Z; s_id : Z;
  s_stream_id : Z; s_period : Z; s_weight : Z; s_transaction : Z; s_cpu : Z;
  s_raw_size : Z; s_data_src : Z; s_phys_addr : Z; s_cpumode : Z; s_misc : Z;
  s_raw_data : bytes;
  s_callchain : counted;
  s_branch_stack : counted;
  s_user_regs : regs_dump;
  s_intr_regs : regs_dump;
  s_user_stack : stack_dump;
  s_read : sample_read
}.

Definition no_regs : regs_dump := Regs 0 0 [].
Definition no_stack : stack_dump := Stack 0 0 [].
Definition no_read : sample_read := SRead 0 0 (ReadOne 0 0).

(** * Sample size and id position *)

(** [for (i = 0; i < 64; i++) if (mask & (1ULL << i)) size++;] *)
Definition count_bits (mask : Z) : Z :=
  foldl (fun size i => if hasf mask (2 ^ i) then size + 1 else size) 0 (seqZ 0 64).

Definition __perf_evsel__sample_size (sample_type : Z) : Z :=
  let mask := Z.land sample_type PERF_SAMPLE_MASK in
  let size := count_bits mask in
  size * 8.

Definition __perf_evsel__calc_id_pos (sample_type : Z) : Z :=
  if hasf sample_type PERF_SAMPLE_IDENTIFIER then 0 else
  if negb (hasf sample_type PERF_SAMPLE_ID) then -1 else
  let idx := 0 in
  let idx := if hasf sample_type PERF_SAMPLE_IP then idx + 1 else idx in
  let idx := if hasf sample_type PERF_SAMPLE_TID then idx + 1 else idx in
  let idx := if hasf sample_type PERF_SAMPLE_TIME then idx + 1 else idx in
  let idx := if hasf sample_type PERF_SAMPLE_ADDR then idx + 1 else idx in
  idx.

Definition __perf_evsel__calc_is_pos (sample_type : Z) : Z :=
  let idx := 1 in
  if hasf sample_type PERF_SAMPLE_IDENTIFIER then 1 else
  if negb (hasf sample_type PERF_SAMPLE_ID) then -1 else
  let idx := if hasf sample_type PERF_SAMPLE_CPU then idx + 1 else idx in
  let idx := if hasf sample_type PERF_SAMPLE_STREAM_ID then idx + 1 else idx in
  idx.

Definition perf_evsel__calc_id_pos (e : perf_evsel) : perf_evsel :=
  Evsel (attr e) (sample_size e) (__perf_evsel__calc_id_pos (sample_type (attr e)))
    (__perf_evsel__calc_is_pos (sample_type (attr e))) (needs_swap e).

Definition with_sample_type (t : Z) (a : perf_event_attr) : perf_event_attr :=
  Attr t (sample_period a) (read_format a) (sample_id_all a) (sample_regs_user a) (sample_regs_intr a).

Definition __perf_evsel__set_sample_bit (e : perf_evsel) (bit : Z) : perf_evsel :=
  if negb (hasf (sample_type (attr e)) bit) then
    perf_evsel__calc_id_pos
      (Evsel (with_sample_type (Z.lor (sample_type (attr e)) bit) (attr e))
         (u32 (sample_size e + 8)) (id_pos e) (is_pos e) (needs_swap e))
  else e.

Definition __perf_evsel__reset_sample_bit (e : perf_evsel) (bit : Z) : perf_evsel :=
  if hasf (sample_type (attr e)) bit then
    perf_evsel__calc_id_pos
      (Evsel (with_sample_type (Z.land (sample_type (attr e)) (Z.lnot bit)) (attr e))
         (u32 (sample_size e - 8)) (id_pos e) (is_pos e) (needs_swap e))
  else e.

Definition perf_evsel__set_sample_id (e : perf_evsel) (can_sample_identifier : bool) : perf_evsel :=
  let e :=
    if can_sample_identifier then
      __perf_evsel__set_sample_bit (__perf_evsel__reset_sample_bit e PERF_SAMPLE_ID)
        PERF_SAMPLE_IDENTIFIER
    else __perf_evsel__set_sample_bit e PERF_SAMPLE_ID in
  Evsel (Attr (sample_type (attr e)) (sample_period (attr e))
           (Z.lor (read_format (attr e)) PERF_FORMAT_ID) (sample_id_all (attr e))
           (sample_regs_user (attr e)) (sample_regs_intr (attr e)))
    (sample_size e) (id_pos e) (is_pos e) (needs_swap e).

(** perf_evsel__init, as far as the codec's fields go. *)
Definition perf_evsel__init (a : perf_event_attr) : perf_evsel :=
  perf_evsel__calc_id_pos (Evsel a (__perf_evsel__sample_size (sample_type a)) 0 0 false).

(** * Loads *)

Definition rd64 (m : bytes) (off : Z) : res Z := mem (rd_le m off 8).

Fixpoint rd_words (m : bytes) (off : Z) (n : nat) : res (list Z) :=
  match n with
  | O => Ok []
  | S n' => v ← rd64 m off; vs ← rd_words m (off + 8) n'; Ok (v :: vs)
  end.

(** [u.val32\[0\]], [u.val32\[1\]] of union u64_swap. *)
Definition val32_0 (v : Z) : Z := v mod 2 ^ 32.
Definition val32_1 (v : Z) : Z := v / 2 ^ 32.

(** "undo swap of u64, then swap on individual u32s" *)
Definition unswap_u32s (swapped : bool) (v : Z) : Z * Z :=
  if swapped then
    let v := bswap_64 v in (bswap_32 (val32_0 v), bswap_32 (val32_1 v))
  else (val32_0 v, val32_1 v).

(** A word of the sample selected by bit [f]: its value and the next offset. *)
Definition fld (type f : Z) (dflt : Z) (m : bytes) (off : Z) : res (Z * Z) :=
  if hasf type f then v ← rd64 m off; Ok (v, off + 8) else Ok (dflt, off).

(** * Id samples of non-sample records *)

Definition fld_back (type f : Z) (dflt : Z) (m : bytes) (off : Z) : res (Z * Z) :=
  if hasf type f then v ← rd64 m off; Ok (v, off - 8) else Ok (dflt, off).

(** The fields of a sample that an id sample carries. *)
Record id_sample := IdSample {
  i_id : Z; i_cpu : Z; i_stream_id : Z; i_time : Z; i_pid : Z; i_tid : Z
}.

Definition perf_evsel__parse_id_sample (e : perf_evsel) (ev : perf_event) (d : id_sample)
    : res id_sample :=
  let type := sample_type (attr e) in
  let swapped := needs_swap e in
  let m := ev_mem ev in
  let array := sizeof_header + 8 * ((hdr_size ev - sizeof_header) / 8 - 1) in
  '(id, array) ← fld_back type PERF_SAMPLE_IDENTIFIER (i_id d) m array;
  '(cpu, array) ←
    (if hasf type PERF_SAMPLE_CPU then
       v ← rd64 m array; Ok (fst (unswap_u32s swapped v), array - 8)
     else Ok (i_cpu d, array));
  '(stream_id, array) ← fld_back type PERF_SAMPLE_STREAM_ID (i_stream_id d) m array;
  '(id, array) ← fld_back type PERF_SAMPLE_ID id m array;
  '(time, array) ← fld_back type PERF_SAMPLE_TIME (i_time d) m array;
  '(pid, tid) ←
    (if hasf type PERF_SAMPLE_TID then
       v ← rd64 m array; Ok (unswap_u32s swapped v)
     else Ok (i_pid d, i_tid d));
  Ok (IdSample id cpu stream_id time pid tid).

(** * Parsing a sample *)

Definition overflow (endp max_size offset size : Z) : bool :=
  (max_size <? size) || (endp <? offset + size).

(** OVERFLOW_CHECK(offset, size, max_size) followed by [k]. *)
Definition OVERFLOW_CHECK {A} (endp offset size max_size : Z) (k : res A) : res A :=
  if overflow endp max_size offset size then Err (- EFAULT) else k.

Definition OVERFLOW_CHECK_u64 {A} (endp offset : Z) (k : res A) : res A :=
  OVERFLOW_CHECK endp offset 8 8 k.

Definition perf_event__check_size (ev : perf_event) (sample_size : Z) : bool :=
  hdr_size ev <? sample_size + sizeof_header.

(** A word behind an OVERFLOW_CHECK_u64. *)
Definition cfld (type f dflt endp : Z) (m : bytes) (off : Z) : res (Z * Z) :=
  if hasf type f then
    OVERFLOW_CHECK_u64 endp off (v ← rd64 m off; Ok (v, off + 8))
  else Ok (dflt, off).

(** The PERF_SAMPLE_READ block. *)
Definition parse_read (type read_format endp : Z) (m : bytes) (off : Z)
    : res (sample_read * Z) :=
  if negb (hasf type PERF_SAMPLE_READ) then Ok (no_read, off) else
  OVERFLOW_CHECK_u64 endp off (
  first ← rd64 m off;
  let off := off + 8 in
  '(te, off) ← cfld read_format PERF_FORMAT_TOTAL_TIME_ENABLED 0 endp m off;
  '(tr, off) ← cfld read_format PERF_FORMAT_TOTAL_TIME_RUNNING 0 endp m off;
  if hasf read_format PERF_FORMAT_GROUP then
    let max_group_nr := UINT64_MAX / 16 in
    if max_group_nr <? first then Err (- EFAULT) else
    let sz := u64 (first * 16) in
    OVERFLOW_CHECK endp off sz endp (
    values ← rd_words m off (Z.to_nat (sz / 8));
    Ok (SRead te tr (ReadGroup first values), off + sz))
  else
    OVERFLOW_CHECK_u64 endp off (
    id ← rd64 m off;
    Ok (SRead te tr (ReadOne first id), off + 8))).

(** A counted array of [n]-word entries: the callchain and branch stack
    blocks. *)
Definition parse_counted (n : Z) (endp : Z) (m : bytes) (off : Z) : res ((Z * list Z) * Z) :=
  let max_nr := UINT64_MAX / (8 * n) in
  OVERFLOW_CHECK_u64 endp off (
  nr ← rd64 m off;
  let off := off + 8 in
  if max_nr <? nr then Err (- EFAULT) else
  let sz := u64 (nr * (8 * n)) in
  OVERFLOW_CHECK endp off sz endp (
  ws ← rd_words m off (Z.to_nat (sz / 8));
  Ok ((nr, ws), off + sz))).

Definition parse_callchain (type endp : Z) (m : bytes) (off : Z) : res (counted * Z) :=
  if hasf type PERF_SAMPLE_CALLCHAIN then
    '(c, off) ← parse_counted 1 endp m off; Ok (Some c, off)
  else Ok (None, off).

Definition parse_branch_stack (type endp : Z) (m : bytes) (off : Z) : res (counted * Z) :=
  if hasf type PERF_SAMPLE_BRANCH_STACK then
    '(c, off) ← parse_counted 3 endp m off; Ok (Some c, off)
  else Ok (None, off).

(** mem_bswap_64 of util/memswap.c: [while (byte_size > 0)] swap one word;
    [fuel] is the number of words. *)
Fixpoint mem_bswap_64_loop (fuel : nat) (m : bytes) (off byte_size : Z) : res bytes :=
  match fuel with
  | O => Ok m
  | S fuel =>
      if 0 <? byte_size then
        v ← rd64 m off;
        m ← mem (wrn m off (le_bytes 8 (bswap_64 v)));
        mem_bswap_64_loop fuel m (off + 8) (byte_size - 8)
      else Ok m
  end.
Definition mem_bswap_64 (m : bytes) (off byte_size : Z) : res bytes :=
  mem_bswap_64_loop (Z.to_nat ((byte_size + 7) / 8)) m off byte_size.

(** The PERF_SAMPLE_RAW block: raw size, raw data, the event memory after the
    in-place swap and the next offset.  The byte count of mem_bswap_64 is an
    [int]. *)
Definition parse_raw (type : Z) (swapped : bool) (endp : Z) (m : bytes) (off : Z)
    : res (Z * bytes * bytes * Z) :=
  if negb (hasf type PERF_SAMPLE_RAW) then Ok (0, [], m, off) else
  OVERFLOW_CHECK_u64 endp off (
  v ← rd64 m off;
  let raw_size := fst (unswap_u32s swapped v) in
  m ← (if swapped then mem_bswap_64 m off (sint 32 raw_size) else Ok m);
  let off := off + 4 in
  OVERFLOW_CHECK endp off raw_size endp (
  raw ← mem (rdn m off (Z.to_nat raw_size));
  Ok (raw_size, raw, m, off + raw_size))).

(** [hweight64] is the bit-operations library's population count. *)
Section Codec.
Context (hweight64 : Z -> Z).

(** The PERF_SAMPLE_REGS_USER and PERF_SAMPLE_REGS_INTR blocks. *)
Definition parse_regs (type f mask endp : Z) (m : bytes) (off : Z) : res (regs_dump * Z) :=
  if negb (hasf type f) then Ok (no_regs, off) else
  OVERFLOW_CHECK_u64 endp off (
  abi ← rd64 m off;
  let off := off + 8 in
  if negb (abi =? PERF_SAMPLE_REGS_ABI_NONE) then
    let sz := hweight64 mask * 8 in
    OVERFLOW_CHECK endp off sz endp (
    vs ← rd_words m off (Z.to_nat (sz / 8));
    Ok (Regs abi mask vs, off + sz))
  else Ok (Regs abi 0 [], off)).

(** The PERF_SAMPLE_STACK_USER block. *)
Definition parse_stack (type endp : Z) (m : bytes) (off : Z) : res (stack_dump * Z) :=
  if negb (hasf type PERF_SAMPLE_STACK_USER) then Ok (no_stack, off) else
  OVERFLOW_CHECK_u64 endp off (
  sz ← rd64 m off;
  let off := off + 8 in
  let offset := u16 (off - 8) in
  if sz =? 0 then Ok (Stack offset 0 [], off) else
  OVERFLOW_CHECK endp off sz endp (
  dump ← mem (rdn m off (Z.to_nat sz));
  let off := off + sz in
  OVERFLOW_CHECK_u64 endp off (
  size ← rd64 m off;
  if sz <? size then Err (- EFAULT) else
  Ok (Stack offset size dump, off + 8)))).

Definition perf_evsel__parse_sample (e : perf_evsel) (ev : perf_event) : res perf_sample :=
  let type := sample_type (attr e) in
  let swapped := needs_swap e in
  let max_size := hdr_size ev in
  let endp := max_size in
  let m := ev_mem ev in
  let cpumode := u8 (Z.land (hdr_misc ev) PERF_RECORD_MISC_CPUMODE_MASK) in
  let m32 := 2 ^ 32 - 1 in
  if negb (hdr_type ev =? PERF_RECORD_SAMPLE) then
    d ← (if negb (sample_id_all (attr e))
         then Ok (IdSample UINT64_MAX m32 UINT64_MAX UINT64_MAX m32 m32)
         else perf_evsel__parse_id_sample e ev
                (IdSample UINT64_MAX m32 UINT64_MAX UINT64_MAX m32 m32));
    Ok (Sample 0 (i_pid d) (i_tid d) (i_time d) 0 (i_id d) (i_stream_id d)
          (sample_period (attr e)) 0 0 (i_cpu d) 0 PERF_MEM_DATA_SRC_NONE 0 cpumode
          (hdr_misc ev) [] None None no_regs no_regs no_stack no_read)
  else
  let array := sizeof_header in
  if perf_event__check_size ev (sample_size e) then Err (- EFAULT) else
  '(id, array) ← fld type PERF_SAMPLE_IDENTIFIER UINT64_MAX m array;
  '(ip, array) ← fld type PERF_SAMPLE_IP 0 m array;
  '(pid, tid, array) ←
    (if hasf type PERF_SAMPLE_TID then
       v ← rd64 m array; Ok (unswap_u32s swapped v, array + 8)
     else Ok (m32, m32, array));
  '(time, array) ← fld type PERF_SAMPLE_TIME UINT64_MAX m array;
  '(addr, array) ← fld type PERF_SAMPLE_ADDR 0 m array;
  '(id, array) ← fld type PERF_SAMPLE_ID id m array;
  '(stream_id, array) ← fld type PERF_SAMPLE_STREAM_ID UINT64_MAX m array;
  '(cpu, array) ←
    (if hasf type PERF_SAMPLE_CPU then
       v ← rd64 m array; Ok (fst (unswap_u32s swapped v), array + 8)
     else Ok (m32, array));
  '(period, array) ← fld type PERF_SAMPLE_PERIOD (sample_period (attr e)) m array;
  '(read, array) ← parse_read type (read_format (attr e)) endp m array;
  '(callchain, array) ← parse_callchain type endp m array;
  '(raw_size, raw_data, m, array) ← parse_raw type swapped endp m array;
  '(branch_stack, array) ← parse_branch_stack type endp m array;
  '(user_regs, array) ←
    parse_regs type PERF_SAMPLE_REGS_USER (sample_regs_user (attr e)) endp m array;
  '(user_stack, array) ← parse_stack type endp m array;
  '(weight, array) ← cfld type PERF_SAMPLE_WEIGHT 0 endp m array;
  '(data_src, array) ← cfld type PERF_SAMPLE_DATA_SRC PERF_MEM_DATA_SRC_NONE endp m array;
  '(transaction, array) ← cfld type PERF_SAMPLE_TRANSACTION 0 endp m array;
  '(intr_regs, array) ←
    parse_regs type PERF_SAMPLE_REGS_INTR (sample_regs_intr (attr e)) endp m array;
  '(phys_addr, array) ← fld type PERF_SAMPLE_PHYS_ADDR 0 m array;
  Ok (Sample ip pid tid time addr id stream_id period weight transaction cpu raw_size
        data_src phys_addr cpumode (hdr_misc ev) raw_data callchain branch_stack
        user_regs intr_regs user_stack read).

Definition perf_evsel__parse_sample_timestamp (e : perf_evsel) (ev : perf_event) : res Z :=
  let type := sample_type (attr e) in
  let m := ev_mem ev in
  if negb (hasf type PERF_SAMPLE_TIME) then Err (-1) else
  if negb (hdr_type ev =? PERF_RECORD_SAMPLE) then
    if negb (sample_id_all (attr e)) then Err (-1) else
    d ← perf_evsel__parse_id_sample e ev (IdSample 0 0 0 UINT64_MAX 0 0);
    Ok (i_time d)
  else
  if perf_event__check_size ev (sample_size e) then Err (- EFAULT) else
  let array := sizeof_header in
  let array := if hasf type PERF_SAMPLE_IDENTIFIER then array + 8 else array in
  let array := if hasf type PERF_SAMPLE_IP then array + 8 else array in
  let array := if hasf type PERF_SAMPLE_TID then array + 8 else array in
  rd64 m array.

(** The 64-bit words behind the header, [(size - sizeof(header)) >> 3] in size_t:
    for a record shorter than its header the difference wraps. *)
Definition event_words (ev : perf_event) : Z :=
  Z.shiftr (if hdr_size ev <? sizeof_header then hdr_size ev -64 sizeof_header
            else hdr_size ev - sizeof_header) 3.

(** perf_evlist__event2id of util/evlist.c, given [evlist->id_pos] and
    [evlist->is_pos]. *)
Definition perf_evlist__event2id (evlist_id_pos evlist_is_pos : Z) (ev : perf_event) : res Z :=
  let n := event_words ev in
  if hdr_type ev =? PERF_RECORD_SAMPLE then
    if n <=? evlist_id_pos then Err (-1) else
    rd64 (ev_mem ev) (sizeof_header + 8 * evlist_id_pos)
  else
    if n <? evlist_is_pos then Err (-1) else
    rd64 (ev_mem ev) (sizeof_header + 8 * (n - evlist_is_pos)).

(** * Size of a sample record *)

(** [if (type & f) result += k;], in [size_t] arithmetic. *)
Definition add_if (type f k result : Z) : Z :=
  if hasf type f then result +64 k else result.

Definition counted_nr (c : counted) : Z := match c with Some (nr, _) => nr | None => 0 end.

Definition read_nr (r : sample_read) : Z :=
  match read_vals r with ReadGroup nr _ => nr | ReadOne v _ => v end.

Definition add_read (type read_format : Z) (r : sample_read) (result : Z) : Z :=
  if negb (hasf type PERF_SAMPLE_READ) then result else
  let result := result +64 8 in
  let result := add_if read_format PERF_FORMAT_TOTAL_TIME_ENABLED 8 result in
  let result := add_if read_format PERF_FORMAT_TOTAL_TIME_RUNNING 8 result in
  if hasf read_format PERF_FORMAT_GROUP then
    let sz := read_nr r *64 16 in result +64 sz
  else result +64 8.

Definition add_regs (type f : Z) (r : regs_dump) (result : Z) : Z :=
  if negb (hasf type f) then result else
  if negb (regs_abi r =? 0) then
    let result := result +64 8 in
    let sz := hweight64 (regs_mask r) *64 8 in
    result +64 sz
  else result +64 8.

Definition add_stack (type : Z) (st : stack_dump) (result : Z) : Z :=
  if negb (hasf type PERF_SAMPLE_STACK_USER) then result else
  let sz := stack_size st in
  let result := result +64 8 in
  if negb (sz =? 0) then (result +64 sz) +64 8 else result.

Definition perf_event__sample_event_size (s : perf_sample) (type read_format : Z) : Z :=
  let result := sizeof_header in
  let result := add_if type PERF_SAMPLE_IDENTIFIER 8 result in
  let result := add_if type PERF_SAMPLE_IP 8 result in
  let result := add_if type PERF_SAMPLE_TID 8 result in
  let result := add_if type PERF_SAMPLE_TIME 8 result in
  let result := add_if type PERF_SAMPLE_ADDR 8 result in
  let result := add_if type PERF_SAMPLE_ID 8 result in
  let result := add_if type PERF_SAMPLE_STREAM_ID 8 result in
  let result := add_if type PERF_SAMPLE_CPU 8 result in
  let result := add_if type PERF_SAMPLE_PERIOD 8 result in
  let result := add_read type read_format (s_read s) result in
  let result := add_if type PERF_SAMPLE_CALLCHAIN
                  ((counted_nr (s_callchain s) + 1) *64 8) result in
  let result := if hasf type PERF_SAMPLE_RAW
                then (result +64 4) +64 s_raw_size s else result in
  let result := add_if type PERF_SAMPLE_BRANCH_STACK
                  ((counted_nr (s_branch_stack s) *64 24) +64 8) result in
  let result := add_regs type PERF_SAMPLE_REGS_USER (s_user_regs s) result in
  let result := add_stack type (s_user_stack s) result in
  let result := add_if type PERF_SAMPLE_WEIGHT 8 result in
  let result := add_if type PERF_SAMPLE_DATA_SRC 8 result in
  let result := add_if type PERF_SAMPLE_TRANSACTION 8 result in
  let result := add_regs type PERF_SAMPLE_REGS_INTR (s_intr_regs s) result in
  add_if type PERF_SAMPLE_PHYS_ADDR 8 result.

(** * Synthesizing a sample record *)

(** The writer: the event memory and the offset [array]; [None] is a write
    outside the memory or a read past the end of a source array. *)
Abbreviation writer := (option (bytes * Z)) (only parsing).

Definition wr (w : bytes * Z) (bs : bytes) : writer :=
  m ← wrn (fst w) (snd w) bs; Some (m, snd w + zlen bs).

(** [*array = v; array++;] *)
Definition wr64 (w : bytes * Z) (v : Z) : writer := wr w (le_bytes 8 v).

Definition wr64_if (type f : Z) (v : Z) (w : bytes * Z) : writer :=
  if hasf type f then wr64 w v else Some w.

(** [memcpy(array, words, sz); array = (void * )array + sz;] *)
Definition wr_words (w : bytes * Z) (ws : list Z) (sz : Z) : writer :=
  bs ← rdn (concat (le_bytes 8 <$> ws)) 0 (Z.to_nat sz); wr w bs.

Definition synth_read (type read_format : Z) (r : sample_read) (w : bytes * Z) : writer :=
  if negb (hasf type PERF_SAMPLE_READ) then Some w else
  w ← wr64 w (match read_vals r with ReadGroup nr _ => nr | ReadOne v _ => v end);
  w ← wr64_if read_format PERF_FORMAT_TOTAL_TIME_ENABLED (time_enabled r) w;
  w ← wr64_if read_format PERF_FORMAT_TOTAL_TIME_RUNNING (time_running r) w;
  match read_vals r with
  | ReadGroup nr values =>
      if hasf read_format PERF_FORMAT_GROUP then wr_words w values (nr *64 16) else None
  | ReadOne _ id =>
      if hasf read_format PERF_FORMAT_GROUP then None else wr64 w id
  end.

(** The callchain and branch stack blocks: the count and the words after it are
    copied as one array of [(nr * n + 1)] words. *)
Definition synth_counted (type f n : Z) (c : counted) (w : bytes * Z) : writer :=
  if hasf type f then
    '(nr, ws) ← c; wr_words w (nr :: ws) ((nr *64 (8 * n)) +64 8)
  else Some w.

(** The raw block.  The 64-bit store covers the first four bytes of the raw
    data too; its upper half is what the union held before ([u_hi]). *)
Definition synth_raw (type u_hi : Z) (raw_size : Z) (raw : bytes) (w : bytes * Z) : writer :=
  if negb (hasf type PERF_SAMPLE_RAW) then Some w else
  m ← wrn (fst w) (snd w) (le_bytes 8 (u32 raw_size + 2 ^ 32 * u32 u_hi));
  bs ← rdn raw 0 (Z.to_nat raw_size);
  wr (m, snd w + 4) bs.

Definition synth_regs (type f : Z) (r : regs_dump) (w : bytes * Z) : writer :=
  if negb (hasf type f) then Some w else
  if negb (regs_abi r =? 0) then
    w ← wr64 w (regs_abi r);
    wr_words w (regs_vals r) (hweight64 (regs_mask r) *64 8)
  else wr64 w 0.

Definition synth_stack (type : Z) (st : stack_dump) (w : bytes * Z) : writer :=
  if negb (hasf type PERF_SAMPLE_STACK_USER) then Some w else
  let sz := stack_size st in
  w ← wr64 w sz;
  if negb (sz =? 0) then
    bs ← rdn (stack_data st) 0 (Z.to_nat sz);
    w ← wr w bs; wr64 w sz
  else Some w.

(** [u0] is the initial content of the union's upper half. *)
Definition perf_event__synthesize_sample (m : bytes) (type read_format : Z)
    (s : perf_sample) (u0 : Z) : option bytes :=
  let u_hi := u0 in
  w ← wr64_if type PERF_SAMPLE_IDENTIFIER (s_id s) (m, sizeof_header);
  w ← wr64_if type PERF_SAMPLE_IP (s_ip s) w;
  let u_hi := if hasf type PERF_SAMPLE_TID then s_tid s else u_hi in
  w ← wr64_if type PERF_SAMPLE_TID (u32 (s_pid s) + 2 ^ 32 * u32 (s_tid s)) w;
  w ← wr64_if type PERF_SAMPLE_TIME (s_time s) w;
  w ← wr64_if type PERF_SAMPLE_ADDR (s_addr s) w;
  w ← wr64_if type PERF_SAMPLE_ID (s_id s) w;
  w ← wr64_if type PERF_SAMPLE_STREAM_ID (s_stream_id s) w;
  let u_hi := if hasf type PERF_SAMPLE_CPU then 0 else u_hi in
  w ← wr64_if type PERF_SAMPLE_CPU (u32 (s_cpu s)) w;
  w ← wr64_if type PERF_SAMPLE_PERIOD (s_period s) w;
  w ← synth_read type read_format (s_read s) w;
  w ← synth_counted type PERF_SAMPLE_CALLCHAIN 1 (s_callchain s) w;
  w ← synth_raw type u_hi (s_raw_size s) (s_raw_data s) w;
  w ← synth_counted type PERF_SAMPLE_BRANCH_STACK 3 (s_branch_stack s) w;
  w ← synth_regs type PERF_SAMPLE_REGS_USER (s_user_regs s) w;
  w ← synth_stack type (s_user_stack s) w;
  w ← wr64_if type PERF_SAMPLE_WEIGHT (s_weight s) w;
  w ← wr64_if type PERF_SAMPLE_DATA_SRC (s_data_src s) w;
  w ← wr64_if type PERF_SAMPLE_TRANSACTION (s_transaction s) w;
  w ← synth_regs type PERF_SAMPLE_REGS_INTR (s_intr_regs s) w;
  w ← wr64_if type PERF_SAMPLE_PHYS_ADDR (s_phys_addr s) w;
  Some (fst w).

(** * The record format, as bytes *)

Definition words_bytes (ws : list Z) : bytes := concat (le_bytes 8 <$> ws).

Definition word_if (type f v : Z) : bytes := if hasf type f then le_bytes 8 v else [].

Definition read_bytes (type rf : Z) (r : sample_read) : bytes :=
  if negb (hasf type PERF_SAMPLE_READ) then [] else
  le_bytes 8 (read_nr r) ++ word_if rf PERF_FORMAT_TOTAL_TIME_ENABLED (time_enabled r) ++
  word_if rf PERF_FORMAT_TOTAL_TIME_RUNNING (time_running r) ++
  match read_vals r with
  | ReadGroup _ values => words_bytes values
  | ReadOne _ id => le_bytes 8 id
  end.

Definition counted_bytes (type f : Z) (c : counted) : bytes :=
  if hasf type f then
    match c with Some (nr, ws) => words_bytes (nr :: ws) | None => [] end
  else [].

Definition raw_bytes (type raw_size : Z) (raw : bytes) : bytes :=
  if hasf type PERF_SAMPLE_RAW then le_bytes 4 raw_size ++ raw else [].

Definition regs_bytes (type f : Z) (r : regs_dump) : bytes :=
  if hasf type f then
    if regs_abi r =? 0 then le_bytes 8 0 else words_bytes (regs_abi r :: regs_vals r)
  else [].

Definition stack_bytes (type : Z) (st : stack_dump) : bytes :=
  if hasf type PERF_SAMPLE_STACK_USER then
    if stack_size st =? 0 then le_bytes 8 0
    else le_bytes 8 (stack_size st) ++ stack_data st ++ le_bytes 8 (stack_size st)
  else [].

Definition sample_bytes (type rf : Z) (s : perf_sample) : bytes :=
  word_if type PERF_SAMPLE_IDENTIFIER (s_id s) ++
  word_if type PERF_SAMPLE_IP (s_ip s) ++
  word_if type PERF_SAMPLE_TID (s_pid s + 2 ^ 32 * s_tid s) ++
  word_if type PERF_SAMPLE_TIME (s_time s) ++
  word_if type PERF_SAMPLE_ADDR (s_addr s) ++
  word_if type PERF_SAMPLE_ID (s_id s) ++
  word_if type PERF_SAMPLE_STREAM_ID (s_stream_id s) ++
  word_if type PERF_SAMPLE_CPU (s_cpu s) ++
  word_if type PERF_SAMPLE_PERIOD (s_period s) ++
  read_bytes type rf (s_read s) ++
  counted_bytes type PERF_SAMPLE_CALLCHAIN (s_callchain s) ++
  raw_bytes type (s_raw_size s) (s_raw_data s) ++
  counted_bytes type PERF_SAMPLE_BRANCH_STACK (s_branch_stack s) ++
  regs_bytes type PERF_SAMPLE_REGS_USER (s_user_regs s) ++
  stack_bytes type (s_user_stack s) ++
  word_if type PERF_SAMPLE_WEIGHT (s_weight s) ++
  word_if type PERF_SAMPLE_DATA_SRC (s_data_src s) ++
  word_if type PERF_SAMPLE_TRANSACTION (s_transaction s) ++
  regs_bytes type PERF_SAMPLE_REGS_INTR (s_intr_regs s) ++
  word_if type PERF_SAMPLE_PHYS_ADDR (s_phys_addr s).

(** * Samples the codec is meant for *)

Definition u64s (ws : list Z) : Prop := Forall (is_uint 64) ws.

Definition counted_ok (type f n : Z) (c : counted) : Prop :=
  hasf type f = true ->
  exists nr ws, c = Some (nr, ws) /\ zlen ws = n * nr /\ is_uint 64 nr /\ u64s ws.

Definition regs_ok (type f mask : Z) (r : regs_dump) : Prop :=
  hasf type f = true -> is_uint 64 (regs_abi r) /\
  (regs_abi r <> 0 -> regs_mask r = mask /\ zlen (regs_vals r) = hweight64 mask /\
                      u64s (regs_vals r)).

Definition read_ok (type rf : Z) (r : sample_read) : Prop :=
  hasf type PERF_SAMPLE_READ = true ->
  is_uint 64 (time_enabled r) /\ is_uint 64 (time_running r) /\
  match read_vals r with
  | ReadGroup nr vs => hasf rf PERF_FORMAT_GROUP = true /\ zlen vs = 2 * nr /\ is_uint 64 nr /\ u64s vs
  | ReadOne v id => hasf rf PERF_FORMAT_GROUP = false /\ is_uint 64 v /\ is_uint 64 id
  end.

Definition raw_ok (type raw_size : Z) (raw : bytes) : Prop :=
  hasf type PERF_SAMPLE_RAW = true -> 4 <= raw_size /\ raw_size = zlen raw.

Definition stack_ok (type : Z) (st : stack_dump) : Prop :=
  hasf type PERF_SAMPLE_STACK_USER = true -> stack_size st = zlen (stack_data st).

Record sample_ok (a : perf_event_attr) (s : perf_sample) : Prop := {
  ok_words : u64s [s_id s; s_ip s; s_time s; s_addr s; s_stream_id s; s_period s;
                   s_weight s; s_data_src s; s_transaction s; s_phys_addr s];
  ok_u32s : Forall (is_uint 32) [s_pid s; s_tid s; s_cpu s];
  ok_read : read_ok (sample_type a) (read_format a) (s_read s);
  ok_callchain : counted_ok (sample_type a) PERF_SAMPLE_CALLCHAIN 1 (s_callchain s);
  ok_raw : raw_ok (sample_type a) (s_raw_size s) (s_raw_data s);
  ok_branch : counted_ok (sample_type a) PERF_SAMPLE_BRANCH_STACK 3 (s_branch_stack s);
  ok_user_regs : regs_ok (sample_type a) PERF_SAMPLE_REGS_USER (sample_regs_user a) (s_user_regs s);
  ok_stack : stack_ok (sample_type a) (s_user_stack s);
  ok_intr_regs : regs_ok (sample_type a) PERF_SAMPLE_REGS_INTR (sample_regs_intr a) (s_intr_regs s)
}.

(** * Synthesizing writes exactly the record format *)

(** [puts f bs]: the block [f] writes [bs] at the current offset and advances
    past it, touching nothing else. *)
Definition puts (f : bytes * Z -> option (bytes * Z)) (bs : bytes) : Prop :=
  forall pre post, zlen bs <= zlen post ->
    f (pre ++ post, zlen pre) = Some ((pre ++ bs) ++ drop (length bs) post, zlen (pre ++ bs)).

Lemma puts_nil : puts Some [].
Proof. intros pre post _. by rewrite app_nil_r, drop_0. Qed.

Lemma puts_wr bs : puts (fun w => wr w bs) bs.
Proof.
  intros pre post Hl. unfold wr. cbn [fst snd]. rewrite wrn_app by done. mred.
  by rewrite app_assoc, zlen_app.
Qed.

Lemma puts_bind f g b1 b2 :
  puts f b1 -> puts g b2 -> puts (fun w => w' ← f w; g w') (b1 ++ b2).
Proof.
  intros Hf Hg pre post Hl. rewrite zlen_app in Hl. pose proof (zlen_nonneg b2).
  rewrite Hf by lia. mred. rewrite Hg by (unfold zlen in *; rewrite length_drop; lia).
  rewrite drop_drop, length_app, <- !app_assoc. done.
Qed.

Lemma puts_word_if type f v : puts (wr64_if type f v) (word_if type f v).
Proof.
  unfold wr64_if, word_if. destruct (hasf type f); [apply puts_wr|apply puts_nil].
Qed.

Lemma zlen_words_bytes ws : zlen (words_bytes ws) = 8 * zlen ws.
Proof.
  induction ws as [|v ws IH]; [done|].
  change (words_bytes (v :: ws)) with (le_bytes 8 v ++ words_bytes ws).
  rewrite zlen_app, zlen_cons, zlen_le_bytes, IH. lia.
Qed.

Lemma words_bytes_cons v ws : words_bytes (v :: ws) = le_bytes 8 v ++ words_bytes ws.
Proof. done. Qed.

Lemma puts_words ws sz : sz = 8 * zlen ws -> puts (fun w => wr_words w ws sz) (words_bytes ws).
Proof.
  intros ->. intros pre post Hl. unfold wr_words.
  change (concat (le_bytes 8 <$> ws)) with (words_bytes ws).
  pose proof (zlen_nonneg ws). pose proof (zlen_words_bytes ws).
  rewrite rdn_in by lia. mred. rewrite drop_0, take_ge by (unfold zlen in *; lia).
  by apply puts_wr.
Qed.

Ltac solve_small := unfold is_uint in *; lia.

Lemma puts_read type rf r :
  read_ok type rf r -> zlen (read_bytes type rf r) < 2 ^ 64 ->
  puts (synth_read type rf r) (read_bytes type rf r).
Proof.
  unfold read_ok, synth_read, read_bytes, read_nr.
  destruct (hasf type PERF_SAMPLE_READ); [cbn [negb]|intros _ _; apply puts_nil].
  intros Hok Hlen. destruct (Hok eq_refl) as (_ & _ & Hv). clear Hok.
  apply (puts_bind (fun w => wr64 w _)); [apply puts_wr|].
  apply puts_bind; [apply puts_word_if|]. apply puts_bind; [apply puts_word_if|].
  destruct (read_vals r) as [nr vs|v id].
  - destruct Hv as (-> & Hz & Hnr & _). apply puts_words.
    rewrite !zlen_app, zlen_words_bytes, zlen_le_bytes in Hlen.
    pose proof (zlen_nonneg (word_if rf PERF_FORMAT_TOTAL_TIME_ENABLED (time_enabled r))).
    pose proof (zlen_nonneg (word_if rf PERF_FORMAT_TOTAL_TIME_RUNNING (time_running r))).
    rewrite u64_small by solve_small. lia.
  - destruct Hv as (-> & _). apply puts_wr.
Qed.

Lemma puts_counted type f n c :
  0 < n -> counted_ok type f n c -> zlen (counted_bytes type f c) < 2 ^ 64 ->
  puts (synth_counted type f n c) (counted_bytes type f c).
Proof.
  unfold counted_ok, synth_counted, counted_bytes. intros Hn.
  destruct (hasf type f); [|intros _ _; apply puts_nil].
  intros Hok Hlen. destruct (Hok eq_refl) as (nr & ws & -> & Hz & Hnr & _). mred.
  apply puts_words. rewrite zlen_words_bytes in Hlen. rewrite zlen_cons in *.
  assert (0 <= nr * (8 * n)) by (unfold is_uint in Hnr; nia).
  rewrite (u64_small (nr * (8 * n))) by lia. rewrite u64_small by lia. lia.
Qed.

Lemma puts_regs type f mask r :
  regs_ok type f mask r -> zlen (regs_bytes type f r) < 2 ^ 64 ->
  puts (synth_regs type f r) (regs_bytes type f r).
Proof.
  unfold regs_ok, synth_regs, regs_bytes.
  destruct (hasf type f); [cbn [negb]|intros _ _; apply puts_nil].
  intros Hok Hlen. destruct (Hok eq_refl) as [Ha Hr]. clear Hok.
  destruct (Z.eqb_spec (regs_abi r) 0) as [He|Hne]; cbn [negb]; [apply puts_wr|].
  destruct (Hr Hne) as (Hm & Hz & _). rewrite words_bytes_cons.
  apply (puts_bind (fun w => wr64 w _)); [apply puts_wr|]. apply puts_words.
  rewrite zlen_words_bytes, zlen_cons in Hlen. pose proof (zlen_nonneg (regs_vals r)).
  rewrite Hm, u64_small by lia. lia.
Qed.

Lemma puts_stack type st :
  stack_ok type st -> puts (synth_stack type st) (stack_bytes type st).
Proof.
  unfold stack_ok, synth_stack, stack_bytes.
  destruct (hasf type PERF_SAMPLE_STACK_USER); [cbn [negb]|intros _; apply puts_nil].
  intros Hok. specialize (Hok eq_refl). rewrite Hok.
  pose proof (zlen_nonneg (stack_data st)) as H0.
  destruct (Z.eqb_spec (zlen (stack_data st)) 0) as [He|Hne]; cbn [negb].
  - rewrite He, <- (app_nil_r (le_bytes 8 0)).
    apply (puts_bind (fun w => wr64 w _)); [apply puts_wr|apply puts_nil].
  - apply (puts_bind (fun w => wr64 w _)); [apply puts_wr|].
    assert (Hrd : rdn (stack_data st) 0 (Z.to_nat (zlen (stack_data st))) = Some (stack_data st)).
    { rewrite rdn_in by lia. f_equal. rewrite drop_0, take_ge by (unfold zlen; lia). done. }
    intros pre post Hl. rewrite Hrd. mred.
    apply (puts_bind (fun w => wr w _) (fun w => wr64 w _)); [apply puts_wr|apply puts_wr|done].
Qed.

Lemma puts_raw type u raw_size raw :
  raw_ok type raw_size raw -> zlen (raw_bytes type raw_size raw) < 2 ^ 32 ->
  puts (synth_raw type u raw_size raw) (raw_bytes type raw_size raw).
Proof.
  unfold raw_ok, synth_raw, raw_bytes.
  destruct (hasf type PERF_SAMPLE_RAW); [cbn [negb]|intros _ _; apply puts_nil].
  intros Hok Hlen pre post Hl. destruct (Hok eq_refl) as [H4 Hraw]. clear Hok.
  rewrite zlen_app, zlen_le_bytes in Hl, Hlen. cbn [fst snd].
  assert (Hsplit : le_bytes 8 (u32 raw_size + 2 ^ 32 * u32 u) = le_bytes 4 raw_size ++ le_bytes 4 (u32 u)).
  { rewrite (u32_small raw_size) by lia. apply le_bytes_halves. lia. }
  rewrite wrn_app by (try done; rewrite zlen_le_bytes; lia). mred.
  rewrite length_le_bytes, Hsplit, <- app_assoc, (app_assoc pre).
  rewrite rdn_in by lia. mred. rewrite drop_0, take_ge by (unfold zlen in *; lia).
  replace (zlen pre + 4) with (zlen (pre ++ le_bytes 4 raw_size))
    by (by rewrite zlen_app, zlen_le_bytes).
  rewrite puts_wr by (rewrite zlen_app, zlen_le_bytes; unfold zlen in *; rewrite length_drop; lia).
  do 2 f_equal; [|by rewrite <- app_assoc].
  rewrite length_app, !length_le_bytes, <- !app_assoc. do 3 f_equal.
  rewrite drop_app_ge by (rewrite length_le_bytes; unfold zlen in *; lia).
  rewrite length_le_bytes, drop_drop. f_equal. unfold zlen in *. lia.
Qed.

(** The rest of a writer that ends by returning the memory. *)
Definition puts_all (k : bytes * Z -> option bytes) (bs : bytes) : Prop :=
  forall pre post, zlen bs <= zlen post ->
    k (pre ++ post, zlen pre) = Some (pre ++ bs ++ drop (length bs) post).

Lemma puts_all_bind f k b bs :
  puts f b -> puts_all k bs -> puts_all (fun w => w' ← f w; k w') (b ++ bs).
Proof.
  intros Hf Hk pre post Hl. rewrite zlen_app in Hl. pose proof (zlen_nonneg bs).
  rewrite Hf by lia. mred. rewrite Hk by (unfold zlen in *; rewrite length_drop; lia).
  rewrite drop_drop, length_app, <- !app_assoc. done.
Qed.

Lemma puts_all_end f b : puts f b -> puts_all (fun w => w' ← f w; Some (fst w')) b.
Proof.
  intros Hf pre post Hl. rewrite Hf by done. mred. cbn [fst]. by rewrite <- app_assoc.
Qed.

Lemma zlen_app_lt {A} (l k : list A) n : zlen (l ++ k) < n -> zlen l < n /\ zlen k < n.
Proof. rewrite zlen_app. pose proof (zlen_nonneg l). pose proof (zlen_nonneg k). lia. Qed.

Lemma synthesize_puts a s u0 :
  sample_ok a s -> zlen (sample_bytes (sample_type a) (read_format a) s) < 2 ^ 32 ->
  forall hdr post, zlen hdr = sizeof_header ->
  zlen (sample_bytes (sample_type a) (read_format a) s) <= zlen post ->
  perf_event__synthesize_sample (hdr ++ post) (sample_type a) (read_format a) s u0 =
  Some (hdr ++ sample_bytes (sample_type a) (read_format a) s ++
        drop (length (sample_bytes (sample_type a) (read_format a) s)) post).
Proof.
  intros [_ Hu32 Hread Hcc Hraw Hbs Hur Hst Hir] Hlen hdr post Hh Hp.
  apply Forall_cons in Hu32 as [Hpid Hu32]. apply Forall_cons in Hu32 as [Htid Hu32].
  apply Forall_cons in Hu32 as [Hcpu _].
  unfold perf_event__synthesize_sample. rewrite <- Hh. cbv zeta. unfold sample_bytes in *.
  match goal with |- ?L = Some (_ ++ ?bs ++ _) =>
    let L' := eval pattern (hdr ++ post, zlen hdr) in L in
    match L' with ?k _ => enough (Hputs : puts_all k bs) by (exact (Hputs hdr post Hp)) end
  end. clear Hp Hh hdr post.
  rewrite (u32_small (s_pid s)), (u32_small (s_tid s)), (u32_small (s_cpu s)) by done.
  repeat match goal with H : zlen (_ ++ _) < _ |- _ => apply zlen_app_lt in H as [? H] end.
  repeat first
    [ apply puts_all_bind; [first [ apply puts_word_if | apply puts_read; [done|lia]
        | apply puts_counted; [lia|done|lia] | apply puts_raw; [done|lia]
        | eapply puts_regs; [done|lia] | apply puts_stack; done ]|]
    | apply puts_all_end, puts_word_if ].
Qed.

(** * The computed size is the size of the record *)

Lemma u64_add_small l k : u64 (u64 l + k) = u64 (l + k).
Proof. unfold wrap. apply Zplus_mod_idemp_l. Qed.

Lemma u64_add2_small l a b : u64 (u64 (u64 l + a) + b) = u64 (l + (a + b)).
Proof. unfold wrap. rewrite Zplus_mod_idemp_l, <- Z.add_assoc, Zplus_mod_idemp_l. done. Qed.

Lemma u64_add3_small l a b c : u64 (u64 (u64 (u64 l + a) + b) + c) = u64 (l + (a + b + c)).
Proof. rewrite u64_add2_small, <- Z.add_assoc, u64_add_small. f_equal. lia. Qed.

Lemma add_if_bytes type f v (l : bytes) :
  add_if type f 8 (u64 (zlen l)) = u64 (zlen (l ++ word_if type f v)).
Proof.
  unfold add_if, word_if. destruct (hasf type f); [|by rewrite app_nil_r].
  by rewrite u64_add_small, zlen_app, zlen_le_bytes.
Qed.

Lemma add_read_bytes type rf r (l : bytes) :
  read_ok type rf r -> zlen (read_bytes type rf r) < 2 ^ 32 ->
  add_read type rf r (u64 (zlen l)) = u64 (zlen (l ++ read_bytes type rf r)).
Proof.
  unfold read_ok, add_read, read_bytes, read_nr.
  destruct (hasf type PERF_SAMPLE_READ); cbn [negb]; [|intros _; by rewrite app_nil_r].
  intros Hok Hlen. destruct (Hok eq_refl) as (_ & _ & Hv). clear Hok.
  rewrite u64_add_small.
  replace (zlen l + 8) with (zlen (l ++ le_bytes 8 (read_nr r)))
    by (by rewrite zlen_app, zlen_le_bytes).
  rewrite (add_if_bytes _ _ (time_enabled r)), (add_if_bytes _ _ (time_running r)).
  unfold read_nr in *. rewrite !app_assoc in *. rewrite zlen_app in Hlen.
  destruct (read_vals r) as [nr vs|v id].
  - destruct Hv as (-> & Hz & Hnr & _). rewrite zlen_words_bytes in Hlen.
    match type of Hlen with zlen ?x + _ < _ => pose proof (zlen_nonneg x) end.
    rewrite (u64_small (nr * 16)) by solve_small.
    rewrite u64_add_small, (zlen_app _ (words_bytes vs)), zlen_words_bytes. f_equal. lia.
  - destruct Hv as (-> & _). by rewrite u64_add_small, (zlen_app _ (le_bytes 8 id)), zlen_le_bytes.
Qed.

Lemma add_counted_bytes type f n c (l : bytes) k :
  0 < n -> counted_ok type f n c -> zlen (counted_bytes type f c) < 2 ^ 32 ->
  (forall nr, 0 <= nr -> 8 * (n * nr + 1) < 2 ^ 32 -> counted_nr c = nr -> k = 8 * (n * nr + 1)) ->
  add_if type f k (u64 (zlen l)) = u64 (zlen (l ++ counted_bytes type f c)).
Proof.
  unfold counted_ok, add_if, counted_bytes. intros Hn.
  destruct (hasf type f); [|intros _ _ _; by rewrite app_nil_r].
  intros Hok Hlen Hk. destruct (Hok eq_refl) as (nr & ws & -> & Hz & Hnr & _).
  rewrite zlen_words_bytes, zlen_cons, Hz in Hlen. unfold is_uint in Hnr.
  rewrite (Hk nr) by (try done; lia).
  rewrite u64_add_small, zlen_app, zlen_words_bytes, zlen_cons, Hz. f_equal. lia.
Qed.

Lemma add_regs_bytes type f mask r (l : bytes) :
  regs_ok type f mask r -> zlen (regs_bytes type f r) < 2 ^ 32 ->
  add_regs type f r (u64 (zlen l)) = u64 (zlen (l ++ regs_bytes type f r)).
Proof.
  unfold regs_ok, add_regs, regs_bytes.
  destruct (hasf type f); cbn [negb]; [|intros _ _; by rewrite app_nil_r].
  intros Hok Hlen. destruct (Hok eq_refl) as [_ Hr]. clear Hok.
  destruct (Z.eqb_spec (regs_abi r) 0) as [He|Hne]; cbn [negb].
  - by rewrite u64_add_small, zlen_app, zlen_le_bytes.
  - destruct (Hr Hne) as (Hm & Hz & _).
    rewrite zlen_words_bytes, zlen_cons in Hlen. pose proof (zlen_nonneg (regs_vals r)).
    rewrite Hm, (u64_small (hweight64 mask * 8)) by lia.
    rewrite u64_add2_small, zlen_app, zlen_words_bytes, zlen_cons, Hz. f_equal. lia.
Qed.

Lemma add_stack_bytes type st (l : bytes) :
  stack_ok type st -> add_stack type st (u64 (zlen l)) = u64 (zlen (l ++ stack_bytes type st)).
Proof.
  unfold stack_ok, add_stack, stack_bytes.
  destruct (hasf type PERF_SAMPLE_STACK_USER); cbn [negb]; [|intros _; by rewrite app_nil_r].
  intros Hok. specialize (Hok eq_refl).
  destruct (Z.eqb_spec (stack_size st) 0) as [He|Hne]; cbn [negb].
  - by rewrite u64_add_small, zlen_app, zlen_le_bytes.
  - rewrite u64_add3_small, !zlen_app, !zlen_le_bytes, Hok. f_equal. lia.
Qed.

Lemma add_raw_bytes type raw_size raw (l : bytes) :
  raw_ok type raw_size raw ->
  (if hasf type PERF_SAMPLE_RAW then (u64 (zlen l) +64 4) +64 raw_size else u64 (zlen l))
  = u64 (zlen (l ++ raw_bytes type raw_size raw)).
Proof.
  unfold raw_ok, raw_bytes. destruct (hasf type PERF_SAMPLE_RAW); [|by rewrite app_nil_r].
  intros Hok. destruct (Hok eq_refl) as [_ Hr].
  by rewrite u64_add2_small, !zlen_app, zlen_le_bytes, Hr.
Qed.

Lemma sample_event_size_bytes a s :
  sample_ok a s -> zlen (sample_bytes (sample_type a) (read_format a) s) < 2 ^ 32 ->
  perf_event__sample_event_size s (sample_type a) (read_format a) =
  sizeof_header + zlen (sample_bytes (sample_type a) (read_format a) s).
Proof.
  intros [_ _ Hread Hcc Hraw Hbs Hur Hst Hir] Hlen.
  transitivity (u64 (zlen (le_bytes 8 0 ++ sample_bytes (sample_type a) (read_format a) s))).
  - unfold perf_event__sample_event_size, sample_bytes in *. cbv zeta.
    repeat match goal with H : zlen (_ ++ _) < _ |- _ => apply zlen_app_lt in H as [? H] end.
    change sizeof_header with (u64 (zlen (le_bytes 8 0))).
    rewrite (add_if_bytes _ _ (s_id s)), (add_if_bytes _ _ (s_ip s)),
      (add_if_bytes _ _ (s_pid s + 2 ^ 32 * s_tid s)), (add_if_bytes _ _ (s_time s)),
      (add_if_bytes _ _ (s_addr s)), (add_if_bytes _ _ (s_id s)),
      (add_if_bytes _ _ (s_stream_id s)), (add_if_bytes _ _ (s_cpu s)),
      (add_if_bytes _ _ (s_period s)).
    rewrite add_read_bytes by done.
    rewrite (add_counted_bytes _ _ 1 (s_callchain s)); [|done..|].
    2: { intros nr Hge Hn ->. rewrite u64_small; lia. }
    rewrite (add_raw_bytes _ _ (s_raw_data s)) by done.
    rewrite (add_counted_bytes _ _ 3 (s_branch_stack s)); [|done..|].
    2: { intros nr Hge Hn ->. rewrite (u64_small (nr * 24)), u64_small; lia. }
    rewrite (add_regs_bytes _ _ _ _ _ Hur), (add_stack_bytes _ _ _ Hst) by done.
    rewrite (add_if_bytes _ _ (s_weight s)), (add_if_bytes _ _ (s_data_src s)),
      (add_if_bytes _ _ (s_transaction s)), (add_regs_bytes _ _ _ _ _ Hir),
      (add_if_bytes _ _ (s_phys_addr s)) by done.
    by rewrite <- !app_assoc.
  - rewrite zlen_app, zlen_le_bytes. change sizeof_header with 8. apply u64_small.
    pose proof (zlen_nonneg (sample_bytes (sample_type a) (read_format a) s)). lia.
Qed.

(** * Parsing reads the record format back *)

(** [m] holds [bs] at offset [off]. *)
Definition holds (m : bytes) (off : Z) (bs : bytes) : Prop :=
  exists pre post, m = pre ++ bs ++ post /\ zlen pre = off.

Lemma holds_app m off b1 b2 :
  holds m off (b1 ++ b2) -> holds m off b1 /\ holds m (off + zlen b1) b2.
Proof.
  intros (pre & post & -> & <-). rewrite <- app_assoc. split.
  - by exists pre, (b2 ++ post).
  - exists (pre ++ b1), post. by rewrite <- app_assoc, zlen_app.
Qed.

Lemma rd64_holds m off v : holds m off (le_bytes 8 v) -> is_uint 64 v -> rd64 m off = Ok v.
Proof. intros (pre & post & -> & <-) Hv. unfold rd64. by rewrite rd_le_mid. Qed.

Lemma rdn_holds m off bs n : holds m off bs -> n = length bs -> rdn m off n = Some bs.
Proof. intros (pre & post & -> & <-) ->. by apply rdn_mid. Qed.

Lemma rd_words_holds m off ws n :
  holds m off (words_bytes ws) -> u64s ws -> n = length ws -> rd_words m off n = Ok ws.
Proof.
  intros Hm Hws ->. revert off Hm. induction Hws as [|v ws Hv Hws IH]; intros off Hm; [done|].
  rewrite words_bytes_cons in Hm. apply holds_app in Hm as [H1 H2].
  rewrite zlen_le_bytes in H2. cbn [rd_words length].
  rewrite (rd64_holds _ _ _ H1 Hv). rred. by rewrite IH.
Qed.

Lemma zlen_word_if type f v : zlen (word_if type f v) = if hasf type f then 8 else 0.
Proof. unfold word_if. by destruct (hasf type f). Qed.

(** A field of the sample is read when its bit is set, and is [dflt] if not. *)
Definition sel {A} (type f : Z) (v dflt : A) : A := if hasf type f then v else dflt.

Lemma fld_holds type f v dflt m off :
  holds m off (word_if type f v) -> is_uint 64 v ->
  fld type f dflt m off = Ok (sel type f v dflt, off + zlen (word_if type f v)).
Proof.
  unfold fld, sel. rewrite zlen_word_if. unfold word_if. intros Hm Hv.
  destruct (hasf type f); [by rewrite (rd64_holds _ _ _ Hm Hv)|by rewrite Z.add_0_r].
Qed.

Lemma overflow_check_fits {A} endp off size max (k : res A) :
  size <= max -> off + size <= endp -> OVERFLOW_CHECK endp off size max k = k.
Proof.
  intros H1 H2. unfold OVERFLOW_CHECK, overflow.
  destruct (Z.ltb_spec max size); [lia|]. by destruct (Z.ltb_spec endp (off + size)); [lia|].
Qed.

Lemma overflow_check64_fits {A} endp off (k : res A) :
  off + 8 <= endp -> OVERFLOW_CHECK_u64 endp off k = k.
Proof. intros. by apply overflow_check_fits. Qed.

Lemma cfld_holds type f v dflt endp m off :
  holds m off (word_if type f v) -> is_uint 64 v -> off + zlen (word_if type f v) <= endp ->
  cfld type f dflt endp m off = Ok (sel type f v dflt, off + zlen (word_if type f v)).
Proof.
  intros Hm Hv. rewrite <- (fld_holds _ _ _ dflt _ _ Hm Hv), zlen_word_if. unfold cfld, fld.
  destruct (hasf type f); [|done]. intros. by apply overflow_check64_fits.
Qed.

Lemma parse_counted_holds n endp m off nr ws :
  0 < n -> holds m off (words_bytes (nr :: ws)) -> zlen ws = n * nr -> is_uint 64 nr -> u64s ws ->
  0 <= off -> off + zlen (words_bytes (nr :: ws)) <= endp -> endp < 2 ^ 32 ->
  parse_counted n endp m off = Ok ((nr, ws), off + zlen (words_bytes (nr :: ws))).
Proof.
  intros Hn Hm Hz Hnr Hws Hoff. rewrite zlen_words_bytes, zlen_cons. intros He He32.
  rewrite words_bytes_cons in Hm. apply holds_app in Hm as [H1 H2]. rewrite zlen_le_bytes in H2.
  pose proof (zlen_nonneg ws). unfold parse_counted. unfold is_uint in Hnr.
  assert (nr * (8 * n) = 8 * zlen ws) as Hsz by lia.
  rewrite overflow_check64_fits by lia. rewrite (rd64_holds _ _ _ H1 Hnr). rred.
  destruct (Z.ltb_spec (UINT64_MAX / (8 * n)) nr) as [Hbig|_].
  { pose proof (Z.mul_succ_div_gt UINT64_MAX (8 * n)) as Hgt.
    assert (8 * n * Z.succ (UINT64_MAX / (8 * n)) <= 8 * n * nr) by (apply Z.mul_le_mono_nonneg_l; lia).
    unfold UINT64_MAX in *. lia. }
  rewrite Hsz, u64_small by lia. rewrite overflow_check_fits by lia.
  rewrite (rd_words_holds _ _ ws) by (done || (unfold zlen; rewrite Z.mul_comm, Z.div_mul; lia)).
  rred. f_equal. f_equal. lia.
Qed.

Lemma parse_callchain_holds type endp m off c :
  counted_ok type PERF_SAMPLE_CALLCHAIN 1 c ->
  holds m off (counted_bytes type PERF_SAMPLE_CALLCHAIN c) ->
  0 <= off -> off + zlen (counted_bytes type PERF_SAMPLE_CALLCHAIN c) <= endp -> endp < 2 ^ 32 ->
  parse_callchain type endp m off =
    Ok (sel type PERF_SAMPLE_CALLCHAIN c None, off + zlen (counted_bytes type PERF_SAMPLE_CALLCHAIN c)).
Proof.
  unfold counted_ok, parse_callchain, sel, counted_bytes.
  destruct (hasf type PERF_SAMPLE_CALLCHAIN); [|intros; by rewrite zlen_nil, Z.add_0_r].
  intros Hok. destruct (Hok eq_refl) as (nr & ws & -> & Hz & Hnr & Hws). intros Hm ? ? ?.
  by rewrite (parse_counted_holds 1 endp m off nr ws).
Qed.

Lemma parse_branch_stack_holds type endp m off c :
  counted_ok type PERF_SAMPLE_BRANCH_STACK 3 c ->
  holds m off (counted_bytes type PERF_SAMPLE_BRANCH_STACK c) ->
  0 <= off -> off + zlen (counted_bytes type PERF_SAMPLE_BRANCH_STACK c) <= endp -> endp < 2 ^ 32 ->
  parse_branch_stack type endp m off =
    Ok (sel type PERF_SAMPLE_BRANCH_STACK c None,
        off + zlen (counted_bytes type PERF_SAMPLE_BRANCH_STACK c)).
Proof.
  unfold counted_ok, parse_branch_stack, sel, counted_bytes.
  destruct (hasf type PERF_SAMPLE_BRANCH_STACK); [|intros; by rewrite zlen_nil, Z.add_0_r].
  intros Hok. destruct (Hok eq_refl) as (nr & ws & -> & Hz & Hnr & Hws). intros Hm ? ? ?.
  by rewrite (parse_counted_holds 3 endp m off nr ws).
Qed.

(** What the parser makes of a read block. *)
Definition expected_read (type rf : Z) (r : sample_read) : sample_read :=
  sel type PERF_SAMPLE_READ
    (SRead (sel rf PERF_FORMAT_TOTAL_TIME_ENABLED (time_enabled r) 0)
       (sel rf PERF_FORMAT_TOTAL_TIME_RUNNING (time_running r) 0) (read_vals r)) no_read.

Lemma parse_read_holds type rf endp m off r :
  read_ok type rf r -> holds m off (read_bytes type rf r) -> 0 <= off ->
  off + zlen (read_bytes type rf r) <= endp -> endp < 2 ^ 32 ->
  parse_read type rf endp m off =
    Ok (expected_read type rf r, off + zlen (read_bytes type rf r)).
Proof.
  unfold read_ok, parse_read, expected_read, sel, read_bytes.
  destruct (hasf type PERF_SAMPLE_READ); cbn [negb]; [|intros; by rewrite zlen_nil, Z.add_0_r].
  intros Hok Hm Hoff He He32. destruct (Hok eq_refl) as (Hte & Htr & Hv). clear Hok.
  apply holds_app in Hm as [H1 Hm]. apply holds_app in Hm as [H2 Hm]. apply holds_app in Hm as [H3 H4].
  rewrite !zlen_app, ?zlen_le_bytes in *. change (Z.of_nat 8) with 8 in *.
  pose proof (zlen_nonneg (word_if rf PERF_FORMAT_TOTAL_TIME_ENABLED (time_enabled r))).
  pose proof (zlen_nonneg (word_if rf PERF_FORMAT_TOTAL_TIME_RUNNING (time_running r))).
  unfold read_nr in *. destruct (read_vals r) as [nr vs|v id].
  - destruct Hv as (-> & Hz & Hnr & Hvs). pose proof (zlen_nonneg vs). rewrite zlen_words_bytes in *.
    rewrite overflow_check64_fits by lia. rewrite (rd64_holds _ _ _ H1 Hnr). rred.
    rewrite (cfld_holds _ _ _ _ _ _ _ H2 Hte) by lia. rred.
    rewrite (cfld_holds _ _ _ _ _ _ _ H3 Htr) by lia. rred.
    destruct (Z.ltb_spec (UINT64_MAX / 16) nr) as [Hbig|_].
    { change (UINT64_MAX / 16) with 1152921504606846975 in Hbig. lia. }
    rewrite u64_small by lia. rewrite overflow_check_fits by lia.
    rewrite (rd_words_holds _ _ vs) by (done || (unfold zlen in *; Z.div_mod_to_equations; lia)).
    rred. f_equal. f_equal. lia.
  - destruct Hv as (-> & Hval & Hid). rewrite zlen_le_bytes in *. change (Z.of_nat 8) with 8 in *.
    rewrite overflow_check64_fits by lia. rewrite (rd64_holds _ _ _ H1 Hval). rred.
    rewrite (cfld_holds _ _ _ _ _ _ _ H2 Hte) by lia. rred.
    rewrite (cfld_holds _ _ _ _ _ _ _ H3 Htr) by lia. rred.
    rewrite overflow_check64_fits by lia. rewrite (rd64_holds _ _ _ H4 Hid). rred.
    f_equal. f_equal. lia.
Qed.

Lemma val32_halves lo hi :
  is_uint 32 lo -> val32_0 (lo + 2 ^ 32 * hi) = lo /\ val32_1 (lo + 2 ^ 32 * hi) = hi.
Proof.
  unfold val32_0, val32_1, is_uint. intros Hlo. rewrite (Z.mul_comm (2 ^ 32)).
  rewrite Z_mod_plus_full, Z_div_plus_full, Z.mod_small, Z.div_small by lia. lia.
Qed.

Lemma parse_raw_holds type endp m off raw_size raw :
  raw_ok type raw_size raw -> bytes_ok raw -> holds m off (raw_bytes type raw_size raw) -> 0 <= off ->
  off + zlen (raw_bytes type raw_size raw) <= endp -> endp < 2 ^ 32 ->
  parse_raw type false endp m off =
    Ok (sel type PERF_SAMPLE_RAW raw_size 0, sel type PERF_SAMPLE_RAW raw [], m,
        off + zlen (raw_bytes type raw_size raw)).
Proof.
  unfold raw_ok, parse_raw, sel, raw_bytes.
  destruct (hasf type PERF_SAMPLE_RAW); cbn [negb]; [|intros; do 2 f_equal; change (off = off + 0); lia].
  intros Hok Hb Hm Hoff He He32. destruct (Hok eq_refl) as [H4 Hr]. clear Hok.
  rewrite zlen_app, zlen_le_bytes in *. change (Z.of_nat 4) with 4 in *.
  assert (Hsplit : raw = le_bytes 4 (le_val (take 4 raw)) ++ drop 4 raw).
  { rewrite <- (take_drop 4 raw) at 1. f_equal. symmetry.
    assert (Hl : length (take 4 raw) = 4%nat) by (rewrite length_take; unfold zlen in *; lia).
    rewrite <- Hl at 1. apply le_bytes_val. by apply Forall_take. }
  pose proof Hm as Hm8. rewrite Hsplit, app_assoc, <- le_bytes_halves in Hm8 by lia.
  apply holds_app in Hm8 as [H8 _]. apply holds_app in Hm as [_ Hm]. rewrite zlen_le_bytes in Hm.
  assert (Ht4 : is_uint 32 (le_val (take 4 raw))).
  { pose proof (le_val_bound (take 4 raw) ltac:(by apply Forall_take)) as Hlv.
    replace (zlen (take 4 raw)) with 4 in Hlv by (unfold zlen in *; rewrite length_take; lia). done. }
  rewrite overflow_check64_fits by lia.
  rewrite (rd64_holds _ _ _ H8) by (unfold is_uint in *; lia). rred.
  unfold unswap_u32s. cbn [fst].
  destruct (val32_halves raw_size (le_val (take 4 raw))) as [-> _]; [unfold is_uint; lia|].
  rewrite overflow_check_fits by lia.
  rewrite (rdn_holds _ _ raw) by (done || (unfold zlen in *; lia)). rred. do 2 f_equal. lia.
Qed.

Definition expected_regs (type f : Z) (r : regs_dump) : regs_dump :=
  sel type f (if regs_abi r =? 0 then Regs 0 0 [] else r) no_regs.

Lemma parse_regs_holds type f mask endp m off r :
  regs_ok type f mask r -> holds m off (regs_bytes type f r) -> 0 <= off ->
  off + zlen (regs_bytes type f r) <= endp ->
  parse_regs type f mask endp m off =
    Ok (expected_regs type f r, off + zlen (regs_bytes type f r)).
Proof.
  unfold regs_ok, parse_regs, expected_regs, sel, regs_bytes.
  destruct (hasf type f); cbn [negb]; [|intros; by rewrite zlen_nil, Z.add_0_r].
  intros Hok Hm Hoff He. destruct (Hok eq_refl) as [Ha Hr]. clear Hok.
  destruct (Z.eqb_spec (regs_abi r) 0) as [Hz|Hnz].
  - rewrite zlen_le_bytes in *. rewrite overflow_check64_fits by lia.
    rewrite (rd64_holds _ _ _ Hm) by done. done.
  - destruct (Hr Hnz) as (<- & Hz & Hvs). rewrite zlen_words_bytes, zlen_cons in *.
    pose proof (zlen_nonneg (regs_vals r)).
    rewrite words_bytes_cons in Hm. apply holds_app in Hm as [H1 H2]. rewrite zlen_le_bytes in H2.
    rewrite overflow_check64_fits by lia. rewrite (rd64_holds _ _ _ H1 Ha). rred.
    destruct (Z.eqb_spec (regs_abi r) PERF_SAMPLE_REGS_ABI_NONE); [done|]. cbn [negb].
    rewrite overflow_check_fits by lia.
    rewrite (rd_words_holds _ _ (regs_vals r))
      by (done || (rewrite Z.div_mul by lia; unfold zlen in *; lia)).
    rred. destruct r; cbn [regs_abi regs_mask regs_vals] in *. do 2 f_equal. lia.
Qed.

Definition expected_stack (type pos : Z) (st : stack_dump) : stack_dump :=
  sel type PERF_SAMPLE_STACK_USER (Stack (u16 pos) (stack_size st) (stack_data st)) no_stack.

Lemma parse_stack_holds type endp m off st :
  stack_ok type st -> holds m off (stack_bytes type st) -> 0 <= off ->
  off + zlen (stack_bytes type st) <= endp -> endp < 2 ^ 32 ->
  parse_stack type endp m off =
    Ok (expected_stack type off st, off + zlen (stack_bytes type st)).
Proof.
  unfold stack_ok, parse_stack, expected_stack, sel, stack_bytes.
  destruct (hasf type PERF_SAMPLE_STACK_USER); cbn [negb]; [|intros; by rewrite zlen_nil, Z.add_0_r].
  intros Hok Hm Hoff He He32. specialize (Hok eq_refl). pose proof (zlen_nonneg (stack_data st)).
  destruct (Z.eqb_spec (stack_size st) 0) as [Hz|Hnz].
  - rewrite zlen_le_bytes in *. rewrite overflow_check64_fits by lia.
    rewrite (rd64_holds _ _ _ Hm) by done. rred. rewrite Z.add_simpl_r.
    destruct (stack_data st) eqn:Hd; [by rewrite Hz|]. rewrite zlen_cons in *.
    pose proof (zlen_nonneg l). lia.
  - rewrite !zlen_app, !zlen_le_bytes in *. change (Z.of_nat 8) with 8 in *.
    apply holds_app in Hm as [H1 Hm]. rewrite zlen_le_bytes in Hm. apply holds_app in Hm as [H2 H3].
    change (Z.of_nat 8) with 8 in *. rewrite <- Hok in *.
    rewrite overflow_check64_fits by lia. rewrite (rd64_holds _ _ _ H1) by (unfold is_uint; lia). rred.
    destruct (Z.eqb_spec (stack_size st) 0); [lia|]. rewrite overflow_check_fits by lia.
    rewrite (rdn_holds _ _ _ _ H2) by (unfold zlen in *; lia). rred.
    rewrite overflow_check64_fits by lia. rewrite (rd64_holds _ _ _ H3) by (unfold is_uint; lia). rred.
    rewrite Z.ltb_irrefl, Z.add_simpl_r. do 2 f_equal. lia.
Qed.

(** The part of the record before the user stack. *)
Definition before_stack_bytes (type rf : Z) (s : perf_sample) : bytes :=
  word_if type PERF_SAMPLE_IDENTIFIER (s_id s) ++
  word_if type PERF_SAMPLE_IP (s_ip s) ++
  word_if type PERF_SAMPLE_TID (s_pid s + 2 ^ 32 * s_tid s) ++
  word_if type PERF_SAMPLE_TIME (s_time s) ++
  word_if type PERF_SAMPLE_ADDR (s_addr s) ++
  word_if type PERF_SAMPLE_ID (s_id s) ++
  word_if type PERF_SAMPLE_STREAM_ID (s_stream_id s) ++
  word_if type PERF_SAMPLE_CPU (s_cpu s) ++
  word_if type PERF_SAMPLE_PERIOD (s_period s) ++
  read_bytes type rf (s_read s) ++
  counted_bytes type PERF_SAMPLE_CALLCHAIN (s_callchain s) ++
  raw_bytes type (s_raw_size s) (s_raw_data s) ++
  counted_bytes type PERF_SAMPLE_BRANCH_STACK (s_branch_stack s) ++
  regs_bytes type PERF_SAMPLE_REGS_USER (s_user_regs s).

(** The sample that a record written from [s] parses to: the selected fields
    of [s], the parser's defaults for the others. *)
Definition expected_sample (a : perf_event_attr) (misc : Z) (s : perf_sample) : perf_sample :=
  let type := sample_type a in
  let rf := read_format a in
  let m32 := 2 ^ 32 - 1 in
  Sample (sel type PERF_SAMPLE_IP (s_ip s) 0)
    (sel type PERF_SAMPLE_TID (s_pid s) m32)
    (sel type PERF_SAMPLE_TID (s_tid s) m32)
    (sel type PERF_SAMPLE_TIME (s_time s) UINT64_MAX)
    (sel type PERF_SAMPLE_ADDR (s_addr s) 0)
    (sel type PERF_SAMPLE_ID (s_id s) (sel type PERF_SAMPLE_IDENTIFIER (s_id s) UINT64_MAX))
    (sel type PERF_SAMPLE_STREAM_ID (s_stream_id s) UINT64_MAX)
    (sel type PERF_SAMPLE_PERIOD (s_period s) (sample_period a))
    (sel type PERF_SAMPLE_WEIGHT (s_weight s) 0)
    (sel type PERF_SAMPLE_TRANSACTION (s_transaction s) 0)
    (sel type PERF_SAMPLE_CPU (s_cpu s) m32)
    (sel type PERF_SAMPLE_RAW (s_raw_size s) 0)
    (sel type PERF_SAMPLE_DATA_SRC (s_data_src s) PERF_MEM_DATA_SRC_NONE)
    (sel type PERF_SAMPLE_PHYS_ADDR (s_phys_addr s) 0)
    (Z.land misc PERF_RECORD_MISC_CPUMODE_MASK) misc
    (sel type PERF_SAMPLE_RAW (s_raw_data s) [])
    (sel type PERF_SAMPLE_CALLCHAIN (s_callchain s) None)
    (sel type PERF_SAMPLE_BRANCH_STACK (s_branch_stack s) None)
    (expected_regs type PERF_SAMPLE_REGS_USER (s_user_regs s))
    (expected_regs type PERF_SAMPLE_REGS_INTR (s_intr_regs s))
    (expected_stack type (sizeof_header + zlen (before_stack_bytes type rf s)) (s_user_stack s))
    (expected_read type rf (s_read s)).

Definition bit (type f : Z) : Z := if hasf type f then 1 else 0.

(** Number of words of the fixed part of a sample. *)
Definition fixed_words (type : Z) : Z :=
  bit type PERF_SAMPLE_IDENTIFIER + bit type PERF_SAMPLE_IP + bit type PERF_SAMPLE_TID +
  bit type PERF_SAMPLE_TIME + bit type PERF_SAMPLE_ADDR + bit type PERF_SAMPLE_ID +
  bit type PERF_SAMPLE_STREAM_ID + bit type PERF_SAMPLE_CPU + bit type PERF_SAMPLE_PERIOD.

Lemma hasf_land_pow2 t mask k :
  0 <= k -> hasf (Z.land t mask) (2 ^ k) = hasf t (2 ^ k) && Z.testbit mask k.
Proof. intros. rewrite !hasf_pow2, Z.land_spec by done. done. Qed.

Lemma count_masked t mask l acc :
  Forall (fun i => 0 <= i) l ->
  foldl (fun n i => if hasf (Z.land t mask) (2 ^ i) then n + 1 else n) acc l =
  foldl (fun n i => n + bit t (2 ^ i)) acc (List.filter (Z.testbit mask) l).
Proof.
  intros Hl. revert acc. induction Hl as [|i l Hi Hl IH]; intros acc; [done|].
  cbn [foldl]. rewrite hasf_land_pow2, IH by done. unfold bit.
  destruct (Z.testbit mask i) eqn:Hb.
  - cbn [List.filter]. rewrite Hb. cbn [foldl].
    rewrite andb_true_r. by destruct (hasf t (2 ^ i)); rewrite ?Z.add_0_r.
  - cbn [List.filter]. rewrite Hb. by rewrite andb_false_r.
Qed.

Lemma sample_size_fixed type : __perf_evsel__sample_size type = 8 * fixed_words type.
Proof.
  unfold __perf_evsel__sample_size, count_bits. cbv zeta. rewrite count_masked.
  - replace (List.filter (Z.testbit PERF_SAMPLE_MASK) (seqZ 0 64))
      with [0; 1; 2; 3; 6; 7; 8; 9; 16] by (by vm_compute).
    cbn [foldl]. unfold fixed_words, PERF_SAMPLE_IDENTIFIER, PERF_SAMPLE_IP, PERF_SAMPLE_TID,
      PERF_SAMPLE_TIME, PERF_SAMPLE_ADDR, PERF_SAMPLE_ID, PERF_SAMPLE_STREAM_ID,
      PERF_SAMPLE_CPU, PERF_SAMPLE_PERIOD. lia.
  - apply Forall_forall. intros i Hi. apply elem_of_seqZ in Hi. lia.
Qed.

Lemma zlen_word_bit type f v : zlen (word_if type f v) = 8 * bit type f.
Proof. rewrite zlen_word_if. unfold bit. by destruct (hasf type f). Qed.

Lemma fixed_words_bytes type rf s : 8 * fixed_words type <= zlen (sample_bytes type rf s).
Proof.
  unfold sample_bytes. do 9 rewrite zlen_app. rewrite !zlen_word_bit. unfold fixed_words.
  match goal with |- context [zlen (read_bytes ?a ?b ?c ++ ?d)] =>
    pose proof (zlen_nonneg (read_bytes a b c ++ d)) end. lia.
Qed.

Lemma u8_cpumode misc :
  u8 (Z.land misc PERF_RECORD_MISC_CPUMODE_MASK) = Z.land misc PERF_RECORD_MISC_CPUMODE_MASK.
Proof.
  change PERF_RECORD_MISC_CPUMODE_MASK with (2 ^ 3 - 1). rewrite land_mask by lia.
  apply wrap_small. pose proof (Z.mod_pos_bound misc (2 ^ 3)). unfold is_uint. lia.
Qed.

(** The word holding the two 32-bit halves [lo] and [hi]. *)
Lemma fld_halves {A} type f lo hi m off (k : Z -> Z -> Z -> res A) :
  holds m off (word_if type f (lo + 2 ^ 32 * hi)) -> is_uint 32 lo -> is_uint 32 hi ->
  forall d, ('(p, t, o) ← (if hasf type f then v ← rd64 m off; Ok (unswap_u32s false v, off + 8)
             else Ok (d, d, off)); k p t o) =
  k (sel type f lo d) (sel type f hi d) (off + zlen (word_if type f (lo + 2 ^ 32 * hi))).
Proof.
  intros Hm Hlo Hhi d. rewrite zlen_word_if. unfold sel, word_if in *.
  destruct (hasf type f); [|by rewrite Z.add_0_r].
  rewrite (rd64_holds _ _ _ Hm) by (unfold is_uint in *; lia). rred. unfold unswap_u32s.
  by destruct (val32_halves lo hi) as [-> ->].
Qed.

Lemma fld_cpu {A} type m off cpu (k : Z -> Z -> res A) :
  holds m off (word_if type PERF_SAMPLE_CPU cpu) -> is_uint 32 cpu ->
  forall d, ('(c, o) ← (if hasf type PERF_SAMPLE_CPU
                        then v ← rd64 m off; Ok (fst (unswap_u32s false v), off + 8)
             else Ok (d, off)); k c o) =
  k (sel type PERF_SAMPLE_CPU cpu d) (off + zlen (word_if type PERF_SAMPLE_CPU cpu)).
Proof.
  intros Hm Hc d. rewrite zlen_word_if. unfold sel, word_if in *.
  destruct (hasf type PERF_SAMPLE_CPU); [|by rewrite Z.add_0_r].
  rewrite (rd64_holds _ _ _ Hm) by (unfold is_uint in *; lia). rred. unfold unswap_u32s. cbn [fst].
  destruct (val32_halves cpu 0) as [Hv _]; [done|]. rewrite Z.mul_0_r, Z.add_0_r in Hv. by rewrite Hv.
Qed.

Ltac zlen_pos :=
  repeat match goal with
  | |- context [zlen ?l] =>
      lazymatch goal with H : 0 <= zlen l |- _ => fail | _ => pose proof (zlen_nonneg l) end
  | _ : context [zlen ?l] |- _ =>
      lazymatch goal with H : 0 <= zlen l |- _ => fail | _ => pose proof (zlen_nonneg l) end
  end.

(** A record that holds the bytes of [s] parses to the selected fields of [s]. *)
Lemma parse_sample_holds e ev s :
  let a := attr e in
  let bs := sample_bytes (sample_type a) (read_format a) s in
  sample_ok a s -> bytes_ok (s_raw_data s) -> holds (ev_mem ev) sizeof_header bs ->
  hdr_type ev = PERF_RECORD_SAMPLE -> hdr_size ev = sizeof_header + zlen bs -> hdr_size ev < 2 ^ 16 ->
  needs_swap e = false -> sample_size e = __perf_evsel__sample_size (sample_type a) ->
  perf_evsel__parse_sample e ev = Ok (expected_sample a (hdr_misc ev) s).
Proof.
  intros a bs [Hw Hu32 Hread Hcc Hraw Hbs Hur Hst Hir] Hrb Hm Hty Hsz Hlt Hns Hss.
  repeat (apply Forall_cons in Hw as [? Hw]). clear Hw.
  repeat (apply Forall_cons in Hu32 as [? Hu32]). clear Hu32.
  pose proof (fixed_words_bytes (sample_type a) (read_format a) s) as Hfix.
  fold bs in Hfix. unfold perf_evsel__parse_sample. fold a.
  rewrite Hty, Hns, Hsz. cbv zeta. change (PERF_RECORD_SAMPLE =? PERF_RECORD_SAMPLE) with true. cbn [negb].
  unfold perf_event__check_size. rewrite Hss, Hsz, sample_size_fixed.
  destruct (Z.ltb_spec (sizeof_header + zlen bs) (8 * fixed_words (sample_type a) + sizeof_header)); [lia|].
  rewrite Hsz in Hlt. clear Hfix Hsz Hss Hns Hty. unfold expected_sample.
  set (type := sample_type a) in *. set (rf := read_format a) in *.
  remember (sizeof_header + zlen bs) as endp eqn:Hend. clear H12.
  subst bs. unfold sample_bytes in Hm, Hend. change sizeof_header with 8 in *.
  repeat match type of Hm with holds _ _ (_ ++ _) =>
    let H1 := fresh "Hb" in apply holds_app in Hm as [H1 Hm] end.
  rewrite !zlen_app in Hend. zlen_pos.
  repeat first
    [ rewrite u8_cpumode
    | erewrite fld_halves by done
    | erewrite fld_cpu by done
    | erewrite fld_holds by done; rred
    | erewrite cfld_holds by (done || lia); rred
    | erewrite parse_read_holds by (done || lia); rred
    | erewrite parse_callchain_holds by (done || lia); rred
    | erewrite parse_raw_holds by (done || lia); rred
    | erewrite parse_branch_stack_holds by (done || lia); rred
    | erewrite parse_regs_holds by (done || lia); rred
    | erewrite parse_stack_holds by (done || lia); rred ].
  unfold before_stack_bytes. rewrite !zlen_app, !Z.add_assoc. done.
Qed.

Lemma synthesize_parse e s misc u0 hdr room :
  let a := attr e in
  let size := perf_event__sample_event_size s (sample_type a) (read_format a) in
  sample_ok a s -> bytes_ok (s_raw_data s) ->
  zlen (sample_bytes (sample_type a) (read_format a) s) < 2 ^ 16 - sizeof_header ->
  zlen hdr = sizeof_header -> zlen room = size - sizeof_header ->
  needs_swap e = false -> sample_size e = __perf_evsel__sample_size (sample_type a) ->
  exists m,
    perf_event__synthesize_sample (hdr ++ room) (sample_type a) (read_format a) s u0 = Some m /\
    m = hdr ++ sample_bytes (sample_type a) (read_format a) s /\ zlen m = size /\
    perf_evsel__parse_sample e (Event PERF_RECORD_SAMPLE misc size m) =
      Ok (expected_sample a misc s).
Proof.
  intros a size Hok Hb Hlt Hh Hroom Hns Hss.
  set (bs := sample_bytes (sample_type a) (read_format a) s) in *.
  change sizeof_header with 8 in *. pose proof (zlen_nonneg bs).
  assert (Hsize : size = 8 + zlen bs) by (apply sample_event_size_bytes; [done|fold bs; lia]).
  exists (hdr ++ bs). split_and!.
  - rewrite synthesize_puts by (done || (fold bs; lia)). fold bs.
    rewrite (drop_ge room) by (unfold zlen in *; lia). by rewrite app_nil_r.
  - done.
  - rewrite zlen_app. lia.
  - rewrite (parse_sample_holds e _ s); cbn [ev_mem hdr_type hdr_size]; fold a; fold bs; try done.
    + exists hdr, []. by rewrite app_nil_r.
    + lia.
Qed.

(** * Parsing arbitrary records *)

(** [r] does not leave the memory, and a result satisfies [P]. *)
Definition safe {A} (P : A -> Prop) (r : res A) : Prop :=
  match r with Ok v => P v | Err _ => True | Oob => False end.

Lemma safe_bind {A B} (P : A -> Prop) (Q : B -> Prop) r (k : A -> res B) :
  safe P r -> (forall v, P v -> safe Q (k v)) -> safe Q (r ≫= k).
Proof. destruct r; cbn; auto. Qed.

Lemma safe_check {A} (P : A -> Prop) endp off size max k :
  (off + size <= endp -> size <= max -> safe P k) -> safe P (OVERFLOW_CHECK endp off size max k).
Proof.
  intros Hk. unfold OVERFLOW_CHECK, overflow.
  destruct (Z.ltb_spec max size); [done|]. destruct (Z.ltb_spec endp (off + size)); [done|].
  by apply Hk.
Qed.

Section Safety.
Context (m : bytes) (endp : Z).
Context (Hb : bytes_ok m) (Hend : endp <= zlen m) (He16 : endp < 2 ^ 16).
Context (Hhw : forall z, 0 <= hweight64 z <= 64).

Lemma rd64_in off : 0 <= off -> off + 8 <= endp -> exists v, rd64 m off = Ok v /\ is_uint 64 v.
Proof using Hb Hend.
  intros H1 H2. unfold rd64. rewrite rd_le_in by lia. eexists. split; [done|].
  pose proof (le_val_bound (take 8 (drop (Z.to_nat off) m))) as Hv.
  replace (zlen (take 8 (drop (Z.to_nat off) m))) with 8 in Hv
    by (unfold zlen in *; rewrite length_take, length_drop; lia).
  apply Hv. by apply Forall_take, Forall_drop.
Qed.

Lemma rd64_safe off : 0 <= off -> off + 8 <= endp -> safe (is_uint 64) (rd64 m off).
Proof using Hb Hend. intros H1 H2. by destruct (rd64_in off H1 H2) as (v & -> & Hv). Qed.

Lemma rd_words_safe n off :
  0 <= off -> off + 8 * Z.of_nat n <= endp ->
  safe (fun ws => length ws = n /\ u64s ws) (rd_words m off n).
Proof using Hb Hend.
  revert off. induction n as [|n IH]; intros off H1 H2.
  - split; [done|constructor].
  - cbn [rd_words]. eapply safe_bind; [apply rd64_safe; lia|]. intros v Hv.
    eapply safe_bind; [apply IH; lia|]. intros vs [Hl Hvs]. cbn. split; [lia|by constructor].
Qed.

(** A word of the fixed part takes the eight bytes its bit announces. *)
Lemma fixed_safe {A} type f (g : Z -> A) d off :
  0 <= off -> off + 8 * bit type f <= endp ->
  safe (fun r => snd r = off + 8 * bit type f)
    (if hasf type f then v ← rd64 m off; Ok (g v, off + 8) else Ok (d, off)).
Proof using Hb Hend.
  unfold bit. intros H1 H2. destruct (hasf type f); [|cbn; lia].
  destruct (rd64_in off) as (v & -> & _); [lia..|]. cbn. lia.
Qed.

(** The value of a block and an offset not before the block. *)
Definition blk {A} (P : A -> Prop) (off : Z) (r : A * Z) : Prop := P (fst r) /\ off <= snd r.

Lemma cfld_safe type f d off :
  0 <= off -> is_uint 64 d -> safe (blk (is_uint 64) off) (cfld type f d endp m off).
Proof using Hb Hend.
  unfold cfld. intros H1 Hd. destruct (hasf type f); [|by split].
  apply safe_check. intros H2 _. eapply safe_bind; [by apply rd64_safe|].
  intros v Hv. split; [done|]. cbn. lia.
Qed.

(** A counted array holds as many entries of [n] words as its count says. *)
Definition counted_in (n : Z) (c : counted) : Prop :=
  match c with Some (nr, ws) => is_uint 64 nr /\ zlen ws = n * nr | None => True end.

Lemma parse_counted_safe n off :
  0 < n -> 0 <= off ->
  safe (blk (fun c => is_uint 64 (fst c) /\ zlen (snd c) = n * fst c) off) (parse_counted n endp m off).
Proof using Hb Hend He16.
  intros Hn Ho. unfold parse_counted. apply safe_check. intros H1 _.
  eapply safe_bind; [by apply rd64_safe|]. intros nr Hnr.
  destruct (Z.ltb_spec (UINT64_MAX / (8 * n)) nr) as [|Hle]; [done|].
  assert (Hmul : nr * (8 * n) <= UINT64_MAX).
  { pose proof (Z.mul_div_le UINT64_MAX (8 * n)).
    assert (8 * n * nr <= 8 * n * (UINT64_MAX / (8 * n))) by (apply Z.mul_le_mono_nonneg_l; lia). lia. }
  unfold is_uint, UINT64_MAX in *. assert (0 <= nr * (8 * n)) by nia.
  rewrite u64_small by lia. apply safe_check. intros H2 _.
  assert (Hdiv : nr * (8 * n) / 8 = n * nr) by (rewrite (Z.mul_comm 8), Z.mul_assoc, Z.div_mul; lia).
  eapply safe_bind; [apply rd_words_safe; lia|]. intros ws [Hl _]. rewrite Hdiv in Hl.
  cbn. split_and!; cbn; [lia..| |lia]. unfold zlen. rewrite Hl. lia.
Qed.

Lemma parse_callchain_safe type off :
  0 <= off -> safe (blk (counted_in 1) off) (parse_callchain type endp m off).
Proof using Hb Hend He16.
  intros Ho. unfold parse_callchain. destruct (hasf type PERF_SAMPLE_CALLCHAIN); [|by split].
  eapply safe_bind; [by apply parse_counted_safe|]. intros [[nr ws] o] [Hc Hl]. by split.
Qed.

Lemma parse_branch_stack_safe type off :
  0 <= off -> safe (blk (counted_in 3) off) (parse_branch_stack type endp m off).
Proof using Hb Hend He16.
  intros Ho. unfold parse_branch_stack. destruct (hasf type PERF_SAMPLE_BRANCH_STACK); [|by split].
  eapply safe_bind; [by apply parse_counted_safe|]. intros [[nr ws] o] [Hc Hl]. by split.
Qed.

Definition read_in (r : sample_read) : Prop :=
  match read_vals r with ReadGroup nr vs => zlen vs = 2 * nr | ReadOne _ _ => True end.

Lemma parse_read_safe type rf off :
  0 <= off -> safe (blk read_in off) (parse_read type rf endp m off).
Proof using Hb Hend He16.
  intros Ho. unfold parse_read. destruct (hasf type PERF_SAMPLE_READ); [cbn [negb]|by split].
  apply safe_check. intros H1 _. eapply safe_bind; [by apply rd64_safe|]. intros first Hf.
  eapply safe_bind; [apply cfld_safe; [lia|done]|]. intros [te o1] [_ Ho1]. cbn in Ho1.
  eapply safe_bind; [apply cfld_safe; [lia|done]|]. intros [tr o2] [_ Ho2]. cbn in Ho2.
  destruct (hasf rf PERF_FORMAT_GROUP).
  - destruct (Z.ltb_spec (UINT64_MAX / 16) first) as [|Hle]; [done|].
    change (UINT64_MAX / 16) with 1152921504606846975 in Hle. unfold is_uint in Hf.
    rewrite u64_small by lia. apply safe_check. intros H2 _.
    assert (Hdiv : first * 16 / 8 = 2 * first) by (Z.div_mod_to_equations; lia).
    eapply safe_bind; [apply rd_words_safe; lia|]. intros vs [Hl _]. rewrite Hdiv in Hl.
    split; [unfold read_in; cbn; unfold zlen; rewrite Hl; lia|cbn; lia].
  - apply safe_check. intros H2 _. eapply safe_bind; [apply rd64_safe; lia|].
    intros id _. split; [done|cbn; lia].
Qed.

(** Unswapped, the raw block leaves the record as it is. *)
Lemma parse_raw_safe type off :
  0 <= off ->
  safe (fun '(size, raw, m', o) => zlen raw = size /\ m' = m /\ off <= o)
    (parse_raw type false endp m off).
Proof using Hb Hend.
  intros Ho. unfold parse_raw. destruct (hasf type PERF_SAMPLE_RAW); [cbn [negb]|by split].
  apply safe_check. intros H1 _. eapply safe_bind; [by apply rd64_safe|]. intros v Hv.
  rred. unfold unswap_u32s. cbn [fst]. unfold val32_0.
  pose proof (Z.mod_pos_bound v (2 ^ 32)). apply safe_check. intros H2 _.
  rewrite rdn_in by lia. rred. split_and!; [|done|lia].
  unfold zlen in *. rewrite length_take, length_drop. lia.
Qed.

Definition regs_in (mask : Z) (r : regs_dump) : Prop :=
  regs_abi r <> 0 -> regs_mask r = mask /\ zlen (regs_vals r) = hweight64 mask.

Lemma parse_regs_safe type f mask off :
  0 <= off -> safe (blk (regs_in mask) off) (parse_regs type f mask endp m off).
Proof using Hb Hend Hhw.
  intros Ho. unfold parse_regs. destruct (hasf type f); [cbn [negb]|by split].
  apply safe_check. intros H1 _. eapply safe_bind; [by apply rd64_safe|]. intros abi Ha.
  destruct (Z.eqb_spec abi PERF_SAMPLE_REGS_ABI_NONE) as [->|]; cbn [negb].
  { split; [done|cbn; lia]. }
  specialize (Hhw mask). apply safe_check. intros H2 _. rewrite Z.div_mul by lia.
  eapply safe_bind; [apply rd_words_safe; lia|]. intros vs [Hl _].
  split; [|cbn; lia]. intros _. cbn. split; [done|]. unfold zlen. rewrite Hl. lia.
Qed.

Definition stack_in (st : stack_dump) : Prop := 0 <= stack_size st <= zlen (stack_data st).

Lemma parse_stack_safe type off :
  0 <= off -> safe (blk stack_in off) (parse_stack type endp m off).
Proof using Hb Hend.
  intros Ho. unfold parse_stack. destruct (hasf type PERF_SAMPLE_STACK_USER); [cbn [negb]|by split].
  apply safe_check. intros H1 _. eapply safe_bind; [by apply rd64_safe|]. intros sz Hsz.
  destruct (Z.eqb_spec sz 0); [split; [split; [done|apply zlen_nonneg]|cbn; lia]|].
  unfold is_uint in Hsz. apply safe_check. intros H2 _. rewrite rdn_in by lia. rred.
  apply safe_check. intros H3 _. eapply safe_bind; [apply rd64_safe; lia|]. intros size Hs.
  destruct (Z.ltb_spec sz size); [done|]. split; [|cbn; lia]. unfold stack_in, is_uint in *. cbn.
  unfold zlen in *. rewrite length_take, length_drop. lia.
Qed.

(** Every count and size of the sample is backed by the data it points to. *)
Record sample_in_bounds (a : perf_event_attr) (s : perf_sample) : Prop := {
  in_callchain : counted_in 1 (s_callchain s);
  in_branch_stack : counted_in 3 (s_branch_stack s);
  in_read : read_in (s_read s);
  in_raw : zlen (s_raw_data s) = s_raw_size s;
  in_user_regs : regs_in (sample_regs_user a) (s_user_regs s);
  in_intr_regs : regs_in (sample_regs_intr a) (s_intr_regs s);
  in_user_stack : stack_in (s_user_stack s)
}.

(** The variable part of the record, from the read block on. *)
Lemma parse_sample_safe_aux e ev :
  m = ev_mem ev -> endp = hdr_size ev ->
  hdr_type ev = PERF_RECORD_SAMPLE -> needs_swap e = false ->
  sample_size e = __perf_evsel__sample_size (sample_type (attr e)) ->
  hasf (sample_type (attr e)) PERF_SAMPLE_PHYS_ADDR = false ->
  safe (sample_in_bounds (attr e)) (perf_evsel__parse_sample e ev).
Proof using Hb Hend He16 Hhw.
  intros Hm He Hty Hns Hss Hnp. unfold perf_evsel__parse_sample.
  rewrite Hty, Hns, <- Hm, <- He. cbv zeta.
  change (PERF_RECORD_SAMPLE =? PERF_RECORD_SAMPLE) with true. cbn [negb].
  unfold perf_event__check_size. rewrite Hss, sample_size_fixed, <- He.
  set (type := sample_type (attr e)) in *.
  destruct (Z.ltb_spec endp (8 * fixed_words type + sizeof_header)) as [|Hfix]; [done|].
  unfold fixed_words in Hfix. change sizeof_header with 8 in *.
  assert (Hbit : forall f, 0 <= bit type f) by (intros f; unfold bit; by destruct (hasf type f)).
  pose proof (Hbit PERF_SAMPLE_IDENTIFIER). pose proof (Hbit PERF_SAMPLE_IP).
  pose proof (Hbit PERF_SAMPLE_TID). pose proof (Hbit PERF_SAMPLE_TIME).
  pose proof (Hbit PERF_SAMPLE_ADDR). pose proof (Hbit PERF_SAMPLE_ID).
  pose proof (Hbit PERF_SAMPLE_STREAM_ID). pose proof (Hbit PERF_SAMPLE_CPU).
  pose proof (Hbit PERF_SAMPLE_PERIOD). clear Hbit.
  do 2 (eapply safe_bind; [apply (fixed_safe _ _ (fun v => v)); lia|];
        let o := fresh "o" in let Ho := fresh "Ho" in intros [? o] Ho; cbn in Ho).
  eapply safe_bind; [apply fixed_safe; lia|]. intros [[pid tid] o1] Ho1. cbn in Ho1.
  do 4 (eapply safe_bind; [apply (fixed_safe _ _ (fun v => v)); lia|];
        let o := fresh "o" in let Ho := fresh "Ho" in intros [? o] Ho; cbn in Ho).
  eapply safe_bind; [apply (fixed_safe _ _ (fun v => fst (unswap_u32s false v))); lia|].
  intros [cpu o6] Ho6. cbn in Ho6.
  eapply safe_bind; [apply (fixed_safe _ _ (fun v => v)); lia|]. intros [period o7] Ho7. cbn in Ho7.
  eapply safe_bind; [apply parse_read_safe; lia|]. intros [rd o8] [Hrd Ho8]. cbn in Hrd, Ho8.
  eapply safe_bind; [apply parse_callchain_safe; lia|]. intros [cc o9] [Hcc Ho9]. cbn in Hcc, Ho9.
  eapply safe_bind; [apply parse_raw_safe; lia|].
  intros [[[rs raw] m'] o10] (Hraw & -> & Ho10).
  eapply safe_bind; [apply parse_branch_stack_safe; lia|]. intros [br o11] [Hbr Ho11]. cbn in Hbr, Ho11.
  eapply safe_bind; [apply parse_regs_safe; lia|]. intros [ur o12] [Hur Ho12]. cbn in Hur, Ho12.
  eapply safe_bind; [apply parse_stack_safe; lia|]. intros [st o13] [Hst Ho13]. cbn in Hst, Ho13.
  do 3 (eapply safe_bind; [apply cfld_safe; [lia|done]|];
        let o := fresh "o" in let Ho := fresh "Ho" in intros [? o] [_ Ho]; cbn in Ho).
  eapply safe_bind; [apply parse_regs_safe; lia|]. intros [ir o17] [Hir Ho17]. cbn in Hir, Ho17.
  unfold fld. rewrite Hnp. rred. by split.
Qed.

End Safety.

(** * The parser's id, time and size bookkeeping *)

Lemma bind_ok {A B} (r : res A) (k : A -> res B) v :
  r ≫= k = Ok v -> exists a, r = Ok a /\ k a = Ok v.
Proof. destruct r; [|done..]. eauto. Qed.

Ltac bind_inv H :=
  repeat (apply bind_ok in H; let Hr := fresh "Hr" in destruct H as (?x & Hr & H);
          repeat match type of H with (let '_ := ?x in _) = _ => destruct x end).

(** The words the fixed part's reads return. *)
Lemma fld_ok type f d m off v o :
  fld type f d m off = Ok (v, o) ->
  o = off + 8 * bit type f /\ (hasf type f = true -> rd64 m off = Ok v) /\ (hasf type f = false -> v = d).
Proof.
  unfold fld, bit. destruct (hasf type f).
  - intros H. apply bind_ok in H as (w & Hw & [= <- <-]). split_and!; [lia|done|done].
  - intros [= <- <-]. split_and!; [lia|done|done].
Qed.

Lemma word_ok {A} type f (g : Z -> A) d m off v o :
  (if hasf type f then v ← rd64 m off; Ok (g v, off + 8) else Ok (d, off)) = Ok (v, o) ->
  o = off + 8 * bit type f.
Proof.
  unfold bit. destruct (hasf type f).
  - intros H. apply bind_ok in H as (w & _ & [= _ <-]). lia.
  - intros [= _ <-]. lia.
Qed.

(** What a successful parse of a sample record says about its fixed part. *)
Record fixed_part (e : perf_evsel) (ev : perf_event) (s : perf_sample) (ident : Z) : Prop := {
  fp_size : sample_size e + sizeof_header <= hdr_size ev;
  fp_ident : hasf (sample_type (attr e)) PERF_SAMPLE_IDENTIFIER = true ->
    rd64 (ev_mem ev) sizeof_header = Ok ident;
  fp_time : hasf (sample_type (attr e)) PERF_SAMPLE_TIME = true ->
    rd64 (ev_mem ev) (sizeof_header + 8 * (bit (sample_type (attr e)) PERF_SAMPLE_IDENTIFIER +
      bit (sample_type (attr e)) PERF_SAMPLE_IP + bit (sample_type (attr e)) PERF_SAMPLE_TID)) = Ok (s_time s);
  fp_id : hasf (sample_type (attr e)) PERF_SAMPLE_ID = true ->
    rd64 (ev_mem ev) (sizeof_header + 8 * (bit (sample_type (attr e)) PERF_SAMPLE_IDENTIFIER +
      bit (sample_type (attr e)) PERF_SAMPLE_IP + bit (sample_type (attr e)) PERF_SAMPLE_TID +
      bit (sample_type (attr e)) PERF_SAMPLE_TIME + bit (sample_type (attr e)) PERF_SAMPLE_ADDR)) = Ok (s_id s);
  fp_no_id : hasf (sample_type (attr e)) PERF_SAMPLE_ID = false -> s_id s = ident
}.

Lemma parse_sample_fixed e ev s :
  hdr_type ev = PERF_RECORD_SAMPLE -> perf_evsel__parse_sample e ev = Ok s ->
  exists ident, fixed_part e ev s ident.
Proof.
  intros Hty H. unfold perf_evsel__parse_sample in H. rewrite Hty in H. cbv zeta in H.
  change (PERF_RECORD_SAMPLE =? PERF_RECORD_SAMPLE) with true in H. cbn [negb] in H.
  unfold perf_event__check_size in H.
  destruct (Z.ltb_spec (hdr_size ev) (sample_size e + sizeof_header)) as [|Hsz]; [done|].
  set (type := sample_type (attr e)) in *.
  bind_inv H. injection H as <-. exists z. clear Hr5 Hr6 Hr7 Hr8 Hr9 Hr10 Hr11 Hr12 Hr13 Hr14 Hr15 Hr16 Hr17 Hr18.
  apply fld_ok in Hr as (-> & Hid & _). apply fld_ok in Hr0 as (-> & _ & _).
  apply word_ok in Hr1 as ->. apply fld_ok in Hr2 as (-> & Htime & _).
  apply fld_ok in Hr3 as (-> & _ & _). apply fld_ok in Hr4 as (_ & Hid2 & Hno).
  split; try done; cbn [s_time s_id]; intros Hf; fold type.
  - rewrite <- (Htime Hf). f_equal. lia.
  - rewrite <- (Hid2 Hf). f_equal. lia.
Qed.

(** The evsel's bookkeeping agrees with its sample type. *)
Record evsel_ok (e : perf_evsel) : Prop := {
  eo_size : sample_size e = __perf_evsel__sample_size (sample_type (attr e));
  eo_id_pos : id_pos e = __perf_evsel__calc_id_pos (sample_type (attr e));
  eo_is_pos : is_pos e = __perf_evsel__calc_is_pos (sample_type (attr e))
}.

Lemma bit_range type f : 0 <= bit type f <= 1.
Proof. unfold bit. destruct (hasf type f); lia. Qed.

Lemma calc_id_pos_bits type :
  __perf_evsel__calc_id_pos type =
  if hasf type PERF_SAMPLE_IDENTIFIER then 0 else
  if hasf type PERF_SAMPLE_ID then
    bit type PERF_SAMPLE_IP + bit type PERF_SAMPLE_TID + bit type PERF_SAMPLE_TIME +
    bit type PERF_SAMPLE_ADDR
  else -1.
Proof.
  unfold __perf_evsel__calc_id_pos, bit.
  destruct (hasf type PERF_SAMPLE_IDENTIFIER), (hasf type PERF_SAMPLE_ID); try done; cbn [negb].
  by destruct (hasf type PERF_SAMPLE_IP), (hasf type PERF_SAMPLE_TID),
    (hasf type PERF_SAMPLE_TIME), (hasf type PERF_SAMPLE_ADDR).
Qed.

Lemma event_words_long ev : sizeof_header <= hdr_size ev -> event_words ev = (hdr_size ev - 8) / 8.
Proof.
  unfold event_words. change sizeof_header with 8. intros Hs.
  destruct (Z.ltb_spec (hdr_size ev) 8); [lia|]. by rewrite Z.shiftr_div_pow2.
Qed.

Lemma sample_event2id e ev s :
  evsel_ok e -> hdr_type ev = PERF_RECORD_SAMPLE ->
  hasf (sample_type (attr e)) PERF_SAMPLE_IDENTIFIER <> hasf (sample_type (attr e)) PERF_SAMPLE_ID ->
  perf_evsel__parse_sample e ev = Ok s -> perf_evlist__event2id (id_pos e) (is_pos e) ev = Ok (s_id s).
Proof.
  intros [Hsz Hip _] Hty Hone Hp. destruct (parse_sample_fixed _ _ _ Hty Hp) as [ident [H1 H2 _ H4 H5]].
  unfold perf_evlist__event2id. rewrite Hty, Hip, calc_id_pos_bits.
  change (PERF_RECORD_SAMPLE =? PERF_RECORD_SAMPLE) with true.
  rewrite Hsz, sample_size_fixed in H1. unfold fixed_words in H1. set (type := sample_type (attr e)) in *.
  change sizeof_header with 8 in *.
  pose proof (bit_range type PERF_SAMPLE_IDENTIFIER). pose proof (bit_range type PERF_SAMPLE_ID).
  pose proof (bit_range type PERF_SAMPLE_IP). pose proof (bit_range type PERF_SAMPLE_TID).
  pose proof (bit_range type PERF_SAMPLE_TIME). pose proof (bit_range type PERF_SAMPLE_ADDR).
  pose proof (bit_range type PERF_SAMPLE_STREAM_ID). pose proof (bit_range type PERF_SAMPLE_CPU).
  pose proof (bit_range type PERF_SAMPLE_PERIOD).
  rewrite event_words_long by (change sizeof_header with 8; lia).
  unfold bit at 1 in H1. unfold bit at 1 in H4. unfold bit at 5 in H1.
  destruct (hasf type PERF_SAMPLE_IDENTIFIER), (hasf type PERF_SAMPLE_ID); try done.
  - destruct (Z.leb_spec ((hdr_size ev - 8) / 8) 0); [Z.div_mod_to_equations; lia|].
    rewrite H5 by done. by apply H2.
  - case_test; [Z.div_mod_to_equations; lia|]. by apply H4.
Qed.

Lemma fld_back_ok type f d m off v o :
  fld_back type f d m off = Ok (v, o) ->
  o = off - 8 * bit type f /\ (hasf type f = true -> rd64 m off = Ok v) /\ (hasf type f = false -> v = d).
Proof.
  unfold fld_back, bit. destruct (hasf type f).
  - intros H. apply bind_ok in H as (w & Hw & [= <- <-]). split_and!; [lia|done|done].
  - intros [= <- <-]. split_and!; [lia|done|done].
Qed.

Lemma word_back_ok {A} type f (g : Z -> A) d m off v o :
  (if hasf type f then v ← rd64 m off; Ok (g v, off - 8) else Ok (d, off)) = Ok (v, o) ->
  o = off - 8 * bit type f.
Proof.
  unfold bit. destruct (hasf type f).
  - intros H. apply bind_ok in H as (w & _ & [= _ <-]). lia.
  - intros [= _ <-]. lia.
Qed.

(** Whether an id sample can be read does not depend on the defaults. *)
Lemma fld_back_total type f d d' m off v o :
  fld_back type f d m off = Ok (v, o) -> exists v', fld_back type f d' m off = Ok (v', o).
Proof. unfold fld_back. destruct (hasf type f); [eauto|]. intros [= _ <-]. eauto. Qed.

Lemma parse_id_sample_total e ev d d' r :
  perf_evsel__parse_id_sample e ev d = Ok r -> exists r', perf_evsel__parse_id_sample e ev d' = Ok r'.
Proof.
  unfold perf_evsel__parse_id_sample. cbv zeta. intros H. bind_inv H.
  destruct (fld_back_total _ _ _ (i_id d') _ _ _ _ Hr) as [? ->]. rred.
  assert (Hc : exists v', (if hasf (sample_type (attr e)) PERF_SAMPLE_CPU then
       v ← rd64 (ev_mem ev) z0; Ok (fst (unswap_u32s (needs_swap e) v), z0 - 8)
     else Ok (i_cpu d', z0)) = Ok (v', z2)).
  { destruct (hasf (sample_type (attr e)) PERF_SAMPLE_CPU); [eauto|]. injection Hr0 as _ <-. eauto. }
  destruct Hc as [? ->]. rred.
  destruct (fld_back_total _ _ _ (i_stream_id d') _ _ _ _ Hr1) as [? ->]. rred.
  match goal with |- context [fld_back _ PERF_SAMPLE_ID ?x _ _] =>
    destruct (fld_back_total _ _ _ x _ _ _ _ Hr2) as [? ->] end. rred.
  destruct (fld_back_total _ _ _ (i_time d') _ _ _ _ Hr3) as [? ->]. rred.
  destruct (hasf (sample_type (attr e)) PERF_SAMPLE_TID); [rewrite Hr4|]; rred; eauto.
Qed.

Lemma parse_id_sample_ok e ev d r :
  perf_evsel__parse_id_sample e ev d = Ok r ->
  let type := sample_type (attr e) in
  let last := sizeof_header + 8 * ((hdr_size ev - sizeof_header) / 8 - 1) in
  let before_id := last - 8 * (bit type PERF_SAMPLE_IDENTIFIER + bit type PERF_SAMPLE_CPU +
                               bit type PERF_SAMPLE_STREAM_ID) in
  (hasf type PERF_SAMPLE_IDENTIFIER = true -> hasf type PERF_SAMPLE_ID = false ->
   rd64 (ev_mem ev) last = Ok (i_id r)) /\
  (hasf type PERF_SAMPLE_ID = true -> rd64 (ev_mem ev) before_id = Ok (i_id r)) /\
  (hasf type PERF_SAMPLE_TIME = true ->
   rd64 (ev_mem ev) (before_id - 8 * bit type PERF_SAMPLE_ID) = Ok (i_time r)).
Proof.
  unfold perf_evsel__parse_id_sample. cbv zeta. intros H. bind_inv H. injection H as <-. cbn [i_id i_time].
  apply fld_back_ok in Hr as (-> & Hid & _). apply word_back_ok in Hr0 as ->.
  apply fld_back_ok in Hr1 as (-> & _ & _). apply fld_back_ok in Hr2 as (-> & Hid2 & Hno).
  apply fld_back_ok in Hr3 as (-> & Htime & _). split_and!.
  - intros H1 H2. rewrite (Hno H2). auto.
  - intros Hf. rewrite <- (Hid2 Hf). f_equal. lia.
  - intros Hf. rewrite <- (Htime Hf). f_equal. lia.
Qed.

Lemma calc_is_pos_bits type :
  __perf_evsel__calc_is_pos type =
  if hasf type PERF_SAMPLE_IDENTIFIER then 1 else
  if hasf type PERF_SAMPLE_ID then
    1 + bit type PERF_SAMPLE_CPU + bit type PERF_SAMPLE_STREAM_ID
  else -1.
Proof.
  unfold __perf_evsel__calc_is_pos, bit.
  destruct (hasf type PERF_SAMPLE_IDENTIFIER), (hasf type PERF_SAMPLE_ID); try done; cbn [negb].
  by destruct (hasf type PERF_SAMPLE_CPU), (hasf type PERF_SAMPLE_STREAM_ID).
Qed.

Lemma id_sample_event2id e ev s :
  evsel_ok e -> hdr_type ev <> PERF_RECORD_SAMPLE -> sample_id_all (attr e) = true ->
  hasf (sample_type (attr e)) PERF_SAMPLE_IDENTIFIER <> hasf (sample_type (attr e)) PERF_SAMPLE_ID ->
  sizeof_header + 8 * is_pos e <= hdr_size ev ->
  perf_evsel__parse_sample e ev = Ok s -> perf_evlist__event2id (id_pos e) (is_pos e) ev = Ok (s_id s).
Proof.
  intros [_ _ Hpos] Hty Hall Hone Hsz Hp. unfold perf_evsel__parse_sample in Hp. cbv zeta in Hp.
  unfold perf_evlist__event2id.
  destruct (Z.eqb_spec (hdr_type ev) PERF_RECORD_SAMPLE) as [|_]; [done|]. cbn [negb] in Hp.
  rewrite Hall in Hp. cbn [negb] in Hp. apply bind_ok in Hp as (r & Hp & [= <-]). cbn [s_id].
  apply parse_id_sample_ok in Hp as (H1 & H2 & _). rewrite Hpos, calc_is_pos_bits in *.
  set (type := sample_type (attr e)) in *. change sizeof_header with 8 in *.
  pose proof (bit_range type PERF_SAMPLE_IDENTIFIER). pose proof (bit_range type PERF_SAMPLE_CPU).
  pose proof (bit_range type PERF_SAMPLE_STREAM_ID). pose proof (bit_range type PERF_SAMPLE_ID).
  rewrite event_words_long by (change sizeof_header with 8; repeat (case_match); lia). unfold bit at 1 in H2.
  destruct (hasf type PERF_SAMPLE_IDENTIFIER), (hasf type PERF_SAMPLE_ID); try done;
    (case_test; [Z.div_mod_to_equations; lia|]).
  - rewrite <- H1 by done; f_equal; lia.
  - rewrite <- H2 by done; f_equal; lia.
Qed.

Lemma sample_timestamp e ev s :
  hasf (sample_type (attr e)) PERF_SAMPLE_TIME = true ->
  hdr_type ev = PERF_RECORD_SAMPLE \/ sample_id_all (attr e) = true ->
  perf_evsel__parse_sample e ev = Ok s -> perf_evsel__parse_sample_timestamp e ev = Ok (s_time s).
Proof.
  intros Ht Hkind Hp. unfold perf_evsel__parse_sample_timestamp. rewrite Ht. cbv zeta. cbn [negb].
  destruct (Z.eqb_spec (hdr_type ev) PERF_RECORD_SAMPLE) as [Hty|Hty]; cbn [negb].
  - destruct (parse_sample_fixed _ _ _ Hty Hp) as [ident [H1 _ H3 _ _]].
    unfold perf_event__check_size. case_test; [lia|]. rewrite <- H3 by done. unfold bit.
    f_equal. destruct (hasf _ PERF_SAMPLE_IDENTIFIER), (hasf _ PERF_SAMPLE_IP),
      (hasf _ PERF_SAMPLE_TID); lia.
  - destruct Hkind as [|Hall]; [done|]. rewrite Hall. cbn [negb].
    unfold perf_evsel__parse_sample in Hp. cbv zeta in Hp.
    destruct (Z.eqb_spec (hdr_type ev) PERF_RECORD_SAMPLE) as [|_]; [done|].
    rewrite Hall in Hp. cbn [negb] in Hp. apply bind_ok in Hp as (r & Hp & [= <-]). cbn [s_time].
    destruct (parse_id_sample_total e ev _ (IdSample 0 0 0 UINT64_MAX 0 0) _ Hp) as [r' Hr'].
    rewrite Hr'. rred. apply parse_id_sample_ok in Hp as (_ & _ & H3).
    apply parse_id_sample_ok in Hr' as (_ & _ & H3'). f_equal.
    specialize (H3 Ht). specialize (H3' Ht). congruence.
Qed.


(** The positions of the bits of PERF_SAMPLE_MASK. *)
Definition fixed_bits : list Z := [0; 1; 2; 3; 6; 7; 8; 9; 16].

Lemma bit_pow2 t k : 0 <= k -> bit t (2 ^ k) = Z.b2z (Z.testbit t k).
Proof. intros. unfold bit. rewrite hasf_pow2 by done. by destruct (Z.testbit t k). Qed.

Lemma fixed_words_sum t :
  fixed_words t = foldr (fun k n => Z.b2z (Z.testbit t k) + n) 0 fixed_bits.
Proof.
  unfold fixed_words, PERF_SAMPLE_IDENTIFIER, PERF_SAMPLE_IP, PERF_SAMPLE_TID, PERF_SAMPLE_TIME,
    PERF_SAMPLE_ADDR, PERF_SAMPLE_ID, PERF_SAMPLE_STREAM_ID, PERF_SAMPLE_CPU, PERF_SAMPLE_PERIOD.
  rewrite !bit_pow2 by done. cbn [foldr fixed_bits]. lia.
Qed.

Lemma sum_bits_ext t t' l :
  (forall k, k ∈ l -> Z.testbit t' k = Z.testbit t k) ->
  foldr (fun k n => Z.b2z (Z.testbit t' k) + n) 0 l = foldr (fun k n => Z.b2z (Z.testbit t k) + n) 0 l.
Proof.
  induction l as [|k l IH]; intros Hext; [done|]. cbn [foldr].
  rewrite Hext by apply list_elem_of_here. rewrite IH; [done|].
  intros j Hj. apply Hext. by apply list_elem_of_further.
Qed.

(** Flipping one bit of the list changes the sum by that bit. *)
Lemma sum_bits_flip t t' k l :
  NoDup l -> k ∈ l -> (forall j, j <> k -> Z.testbit t' j = Z.testbit t j) ->
  foldr (fun k n => Z.b2z (Z.testbit t' k) + n) 0 l =
  foldr (fun k n => Z.b2z (Z.testbit t k) + n) 0 l + Z.b2z (Z.testbit t' k) - Z.b2z (Z.testbit t k).
Proof.
  intros Hnd Hk Hext. induction Hnd as [|j l Hj Hnd IH]; [by apply not_elem_of_nil in Hk|].
  cbn [foldr]. apply elem_of_cons in Hk as [-> | Hk].
  - rewrite (sum_bits_ext t t' l); [lia|]. intros i Hi. apply Hext. by intros ->.
  - rewrite IH by done. rewrite (Hext j) by (intros ->; done). lia.
Qed.

Lemma fixed_bits_nodup : NoDup fixed_bits.
Proof. apply (bool_decide_unpack (NoDup fixed_bits)). vm_compute. exact I. Qed.

Lemma fixed_bits_nonneg k : k ∈ fixed_bits -> 0 <= k.
Proof.
  intros Hk. assert (Hf : Forall (fun k => 0 <= k) fixed_bits) by (by repeat constructor).
  rewrite Forall_forall in Hf. by apply Hf.
Qed.

Lemma fixed_words_range t : 0 <= fixed_words t <= 9.
Proof.
  rewrite fixed_words_sum. cbn [foldr fixed_bits].
  repeat match goal with |- context [Z.b2z (Z.testbit t ?k)] =>
    let b := fresh "b" in set (b := Z.testbit t k); assert (0 <= Z.b2z b <= 1) by (by destruct b);
    generalize dependent (Z.b2z b); intros end.
  lia.
Qed.

Lemma testbit_set t k j : 0 <= k -> Z.testbit (Z.lor t (2 ^ k)) j = Z.testbit t j || (k =? j).
Proof. intros. by rewrite Z.lor_spec, Z.pow2_bits_eqb. Qed.

Lemma testbit_clear t k j :
  0 <= k -> 0 <= j -> Z.testbit (Z.land t (Z.lnot (2 ^ k))) j = Z.testbit t j && negb (k =? j).
Proof. intros. by rewrite Z.land_spec, Z.lnot_spec, Z.pow2_bits_eqb. Qed.

Lemma set_sample_bit_ok e k :
  k ∈ fixed_bits -> evsel_ok e -> evsel_ok (__perf_evsel__set_sample_bit e (2 ^ k)).
Proof.
  intros Hk Hok. pose proof (fixed_bits_nonneg k Hk) as H0. unfold __perf_evsel__set_sample_bit.
  rewrite hasf_pow2 by done. destruct (Z.testbit (sample_type (attr e)) k) eqn:Hb; [done|].
  cbn [negb]. split; [|done..]. destruct Hok as [Hs _ _].
  cbn. rewrite Hs, !sample_size_fixed. set (t := sample_type (attr e)) in *.
  pose proof (fixed_words_range t) as Hr. rewrite u32_small by lia.
  rewrite !fixed_words_sum, (sum_bits_flip t (Z.lor t (2 ^ k)) k) by
    (apply fixed_bits_nodup || done || (intros j Hj; rewrite testbit_set by done;
       destruct (Z.eqb_spec k j); [congruence|apply orb_false_r])).
  rewrite Hb, testbit_set, Z.eqb_refl, orb_true_r by done. cbn [Z.b2z]. lia.
Qed.

Lemma reset_sample_bit_ok e k :
  k ∈ fixed_bits -> evsel_ok e -> evsel_ok (__perf_evsel__reset_sample_bit e (2 ^ k)).
Proof.
  intros Hk Hok. pose proof (fixed_bits_nonneg k Hk) as H0. unfold __perf_evsel__reset_sample_bit.
  rewrite hasf_pow2 by done. destruct (Z.testbit (sample_type (attr e)) k) eqn:Hb; [|done].
  split; [|done..]. destruct Hok as [Hs _ _].
  cbn. rewrite Hs, !sample_size_fixed. set (t := sample_type (attr e)) in *.
  pose proof (fixed_words_range t) as Hr.
  assert (Hflip : fixed_words (Z.land t (Z.lnot (2 ^ k))) = fixed_words t - 1).
  { rewrite !fixed_words_sum, (sum_bits_flip t (Z.land t (Z.lnot (2 ^ k))) k).
    - rewrite Hb, testbit_clear, Z.eqb_refl, andb_false_r by done. cbn [Z.b2z]. lia.
    - apply fixed_bits_nodup.
    - done.
    - intros j Hj. destruct (Z.lt_ge_cases j 0); [by rewrite !Z.testbit_neg_r|].
      rewrite testbit_clear by done. destruct (Z.eqb_spec k j); [congruence|apply andb_true_r]. }
  pose proof (fixed_words_range (Z.land t (Z.lnot (2 ^ k)))) as Hr'.
  rewrite u32_small by lia. rewrite Hflip. lia.
Qed.

Lemma testbit_set_sample_bit e k j :
  0 <= k -> Z.testbit (sample_type (attr (__perf_evsel__set_sample_bit e (2 ^ k)))) j =
            Z.testbit (sample_type (attr e)) j || (k =? j).
Proof.
  intros Hk. unfold __perf_evsel__set_sample_bit. rewrite hasf_pow2 by done.
  destruct (Z.testbit (sample_type (attr e)) k) eqn:Hb; cbn [negb]; [|by apply testbit_set].
  destruct (Z.eqb_spec k j) as [<-|]; [by rewrite Hb|by rewrite orb_false_r].
Qed.

Lemma testbit_reset_sample_bit e k j :
  0 <= k -> 0 <= j -> Z.testbit (sample_type (attr (__perf_evsel__reset_sample_bit e (2 ^ k)))) j =
            Z.testbit (sample_type (attr e)) j && negb (k =? j).
Proof.
  intros Hk Hj. unfold __perf_evsel__reset_sample_bit. rewrite hasf_pow2 by done.
  destruct (Z.testbit (sample_type (attr e)) k) eqn:Hb; [by apply testbit_clear|].
  destruct (Z.eqb_spec k j) as [<-|]; [by rewrite Hb|by rewrite andb_true_r].
Qed.

(** The operations on an evsel's sample type, on bits of the fixed part. *)
Inductive type_op := SetBit (k : Z) | ResetBit (k : Z) | SetSampleId (can_sample_identifier : bool).

Definition type_op_ok (o : type_op) : Prop :=
  match o with SetBit k | ResetBit k => k ∈ fixed_bits | SetSampleId _ => True end.

Definition run_type_op (e : perf_evsel) (o : type_op) : perf_evsel :=
  match o with
  | SetBit k => __perf_evsel__set_sample_bit e (2 ^ k)
  | ResetBit k => __perf_evsel__reset_sample_bit e (2 ^ k)
  | SetSampleId can => perf_evsel__set_sample_id e can
  end.

Lemma set_sample_id_ok e can : evsel_ok e -> evsel_ok (perf_evsel__set_sample_id e can).
Proof.
  intros Hok. unfold perf_evsel__set_sample_id.
  assert (H6 : 6 ∈ fixed_bits) by (apply (bool_decide_unpack (6 ∈ fixed_bits)); vm_compute; exact I).
  assert (H16 : 16 ∈ fixed_bits) by (apply (bool_decide_unpack (16 ∈ fixed_bits)); vm_compute; exact I).
  destruct can.
  - destruct (set_sample_bit_ok _ 16 H16 (reset_sample_bit_ok e 6 H6 Hok)). by split.
  - destruct (set_sample_bit_ok e 6 H6 Hok). by split.
Qed.

Lemma run_type_ops_ok ops : forall e,
  Forall type_op_ok ops -> evsel_ok e -> evsel_ok (foldl run_type_op e ops).
Proof.
  induction ops as [|o ops IH]; intros e Hops Hok; [done|]. apply Forall_cons in Hops as [Ho Hops].
  apply IH; [done|]. destruct o; cbn in Ho |- *;
    auto using set_sample_bit_ok, reset_sample_bit_ok, set_sample_id_ok.
Qed.

Lemma perf_evsel__init_ok a : evsel_ok (perf_evsel__init a).
Proof. by split. Qed.


(** C6: On an arbitrary sample record whose memory covers header.size bytes,
    in the host's byte order and without PERF_SAMPLE_PHYS_ADDR,
    perf_evsel__parse_sample reads no byte outside the record whatever the
    record contains, and a sample it accepts has every count and size (call
    chain, branch stack, group values, registers, raw data, stack dump) backed
    by the data it points to. *)
Theorem parse_sample_safe e ev :
  (forall z, 0 <= hweight64 z <= 64) ->
  bytes_ok (ev_mem ev) -> hdr_size ev <= zlen (ev_mem ev) -> hdr_size ev < 2 ^ 16 ->
  hdr_type ev = PERF_RECORD_SAMPLE -> needs_swap e = false -> evsel_ok e ->
  hasf (sample_type (attr e)) PERF_SAMPLE_PHYS_ADDR = false ->
  perf_evsel__parse_sample e ev <> Oob /\
  forall s, perf_evsel__parse_sample e ev = Ok s -> sample_in_bounds (attr e) s.
Proof.
  intros Hhw Hb Hsz H16 Hty Hns [Hss _ _] Hnp.
  pose proof (parse_sample_safe_aux _ _ Hb Hsz H16 Hhw e ev eq_refl eq_refl Hty Hns Hss Hnp) as Hsafe.
  destruct (perf_evsel__parse_sample e ev) as [s| |]; [|done..].
  split; [done|]. by intros ? [= <-].
Qed.

(** However an evsel's sample type is edited bit by bit or by
    perf_evsel__set_sample_id after perf_evsel__init, its cached sample_size,
    id_pos and is_pos stay those of the sample type, as long as the edited bits
    are bits that perf_evsel__init counts; after perf_evsel__set_sample_id with
    the identifier available exactly one of ID and IDENTIFIER is selected. *)
Theorem evsel_bookkeeping a ops :
  Forall type_op_ok ops ->
  let e := foldl run_type_op (perf_evsel__init a) ops in
  evsel_ok e /\
  let t := sample_type (attr (perf_evsel__set_sample_id e true)) in
  hasf t PERF_SAMPLE_IDENTIFIER = true /\ hasf t PERF_SAMPLE_ID = false.
Proof.
  intros Hops e. split; [apply run_type_ops_ok; [done|apply perf_evsel__init_ok]|].
  unfold perf_evsel__set_sample_id, PERF_SAMPLE_ID, PERF_SAMPLE_IDENTIFIER. cbn [attr sample_type].
  rewrite !hasf_pow2, !testbit_set_sample_bit, !testbit_reset_sample_bit by done.
  by rewrite orb_true_r, andb_false_r.
Qed.

(** The id that perf_evlist__event2id picks out of a raw record by
    position is the id that parsing the record gives, for samples and for
    other records carrying an id sample, when exactly one of ID and IDENTIFIER
    is selected and a non-sample record has room for its id sample. *)
Theorem event2id_agrees e ev s :
  evsel_ok e ->
  hasf (sample_type (attr e)) PERF_SAMPLE_IDENTIFIER <> hasf (sample_type (attr e)) PERF_SAMPLE_ID ->
  hdr_type ev = PERF_RECORD_SAMPLE \/
  (hdr_type ev <> PERF_RECORD_SAMPLE /\ sample_id_all (attr e) = true /\
   sizeof_header + 8 * is_pos e <= hdr_size ev) ->
  perf_evsel__parse_sample e ev = Ok s -> perf_evlist__event2id (id_pos e) (is_pos e) ev = Ok (s_id s).
Proof.
  intros Hok Hone [Hty | (Hty & Hall & Hsz)] Hp;
    [by apply sample_event2id|by apply id_sample_event2id].
Qed.

(** perf_evsel__parse_sample_timestamp, the short cut that queues events
    before parsing them, returns the time that the full parse returns, for
    samples and for other records with an id sample. *)
Theorem timestamp_agrees e ev s :
  hasf (sample_type (attr e)) PERF_SAMPLE_TIME = true ->
  hdr_type ev = PERF_RECORD_SAMPLE \/ sample_id_all (attr e) = true ->
  perf_evsel__parse_sample e ev = Ok s -> perf_evsel__parse_sample_timestamp e ev = Ok (s_time s).
Proof. apply sample_timestamp. Qed.

(** PERF_SAMPLE_PHYS_ADDR is read without an overflow check: a record that
    ends where the physical address should start is not rejected with -EFAULT
    (as it is for every other optional word) but read past its end. *)
Theorem phys_addr_unchecked e ev :
  sample_type (attr e) = PERF_SAMPLE_PHYS_ADDR -> evsel_ok e ->
  hdr_type ev = PERF_RECORD_SAMPLE -> hdr_size ev = sizeof_header -> zlen (ev_mem ev) = hdr_size ev ->
  perf_evsel__parse_sample e ev = Oob.
Proof.
  intros Ht [Hss _ _] Hty Hsz Hl. rewrite Ht in Hss. rewrite Hsz in Hl.
  unfold perf_evsel__parse_sample, perf_event__check_size. rewrite Ht, Hty, Hss, Hsz.
  assert (Hoob : rd64 (ev_mem ev) 8 = Oob) by (unfold rd64, rd_le, rdn; by rewrite Hl).
  lazy -[rd64 ev_mem hdr_misc needs_swap attr sample_period]. by rewrite Hoob.
Qed.

Lemma mem_bswap_64_past_end fuel m off size :
  (1 < fuel)%nat -> 0 <= off -> off + 8 = zlen m -> 8 < size -> mem_bswap_64_loop fuel m off size = Oob.
Proof.
  intros Hf Hoff Hl Hs. destruct fuel as [|[|fuel]]; [lia..|]. cbn [mem_bswap_64_loop].
  destruct (Z.ltb_spec 0 size); [|lia]. unfold rd64. rewrite rd_le_in by lia. rred.
  unfold wrn. rewrite zlen_le_bytes. destruct (Z.ltb_spec off 0); [lia|].
  destruct (Z.ltb_spec (zlen m) (off + Z.of_nat 8)); [lia|]. rred. cbn [orb].
  destruct (Z.ltb_spec 0 (size - 8)); [|lia].
  rred. match goal with |- context [rd_le ?x (off + 8) 8] => set (m' := x) end.
  assert (Hm' : zlen m' = zlen m).
  { unfold m'. rewrite !zlen_app, zlen_le_bytes. unfold zlen in *.
    rewrite length_take, length_drop, length_le_bytes. lia. }
  unfold rd_le, rdn. rewrite Hm'.
  destruct (Z.ltb_spec (off + 8) 0); [lia|].
  destruct (Z.ltb_spec (zlen m) (off + 8 + Z.of_nat 8)); [done|lia].
Qed.

(** For a file of the other byte order the raw block is byte swapped in
    place before its size is checked: a raw size larger than the record makes
    mem_bswap_64 read and write past the end of the record instead of the
    -EFAULT that the same size gets in the host's byte order. *)
Theorem swapped_raw_unchecked e ev v :
  sample_type (attr e) = PERF_SAMPLE_RAW -> evsel_ok e ->
  hdr_type ev = PERF_RECORD_SAMPLE -> hdr_size ev = 16 -> zlen (ev_mem ev) = hdr_size ev ->
  rd64 (ev_mem ev) sizeof_header = Ok v -> needs_swap e = true ->
  8 < fst (unswap_u32s true v) < 2 ^ 31 ->
  perf_evsel__parse_sample e ev = Oob.
Proof.
  intros Ht [Hss _ _] Hty Hsz Hl Hv Hns Hraw. rewrite Ht in Hss. rewrite Hsz in Hl.
  unfold perf_evsel__parse_sample, perf_event__check_size. rewrite Ht, Hty, Hss, Hsz, Hns.
  assert (Hoob : parse_raw 1024 true 16 (ev_mem ev) 8 = Oob).
  { unfold parse_raw. change (hasf 1024 PERF_SAMPLE_RAW) with true. cbn [negb].
    rewrite overflow_check64_fits by lia. change (rd64 (ev_mem ev) 8) with (rd64 (ev_mem ev) sizeof_header).
    rewrite Hv. rred. rewrite sint32_small by lia. unfold mem_bswap_64.
    rewrite mem_bswap_64_past_end; [done| |lia..].
    assert (2 <= (fst (unswap_u32s true v) + 7) / 8) by (Z.div_mod_to_equations; lia). lia. }
  lazy -[parse_raw ev_mem hdr_misc attr sample_period sample_regs_user sample_regs_intr read_format
    parse_branch_stack parse_regs parse_stack cfld]. by rewrite Hoob.
Qed.

End Codec.

(** Big endian bytes. *)
Definition be_bytes (n : nat) (z : Z) : bytes := reverse (le_bytes n z).

(** Two 32-bit fields that a big endian machine packed into one word of a
    sample (pid and tid) come back right after the file reader has swapped the
    word as a 64-bit value: the parser's "undo swap of u64, then swap on
    individual u32s" restores both. *)
Theorem cross_endian_u32s pid tid :
  is_uint 32 pid -> is_uint 32 tid ->
  unswap_u32s true (bswap_64 (le_val (be_bytes 4 pid ++ be_bytes 4 tid))) = (pid, tid).
Proof.
  intros Hp Ht. unfold unswap_u32s, be_bytes.
  assert (Hb : forall z, le_val (reverse (le_bytes 4 z)) = bswap_32 z) by done.
  rewrite le_val_app, !Hb. unfold zlen. rewrite length_reverse, length_le_bytes.
  change (256 ^ Z.of_nat 4) with (2 ^ 32).
  pose proof (bswap_bound 4 pid) as H1. pose proof (bswap_bound 4 tid) as H2.
  change (256 ^ Z.of_nat 4) with (2 ^ 32) in *.
  rewrite bswap_involutive by (change (256 ^ Z.of_nat 8) with (2 ^ 64); lia).
  destruct (val32_halves (bswap_32 pid) (bswap_32 tid)) as [-> ->]; [done|].
  by rewrite !bswap_involutive.
Qed.

(** * Concrete instances *)

Module SampleExamples.

(** Every sample type bit, a group read with both times. *)
Definition full_attr : perf_event_attr :=
  Attr (2 ^ 20 - 1) 4000 (Z.lor PERF_FORMAT_GROUP 3) true 5 1.

Definition full_sample : perf_sample :=
  Sample 1 2 3 4 5 6 7 8 9 10 11 4 12 13 0 0 [1; 2; 3; 4] (Some (2, [20; 21]))
    (Some (1, [30; 31; 32])) (Regs 2 5 [40; 41]) (Regs 1 1 [50]) (Stack 0 8 [1; 2; 3; 4; 5; 6; 7; 8])
    (SRead 60 61 (ReadGroup 1 [62; 63])).

Definition full_evsel : perf_evsel := perf_evsel__init full_attr.

(** Concrete side conditions: conjunctions, lists and ranges of numerals. *)
Ltac concrete := repeat first [apply conj | apply Forall_cons | apply Forall_nil]; (reflexivity || (cbn; lia) || done).

Lemma full_sample_ok : sample_ok count_bits full_attr full_sample.
Proof.
  split; [concrete..| | | | | | |]; intros _.
  - concrete.
  - exists 2, [20; 21]. concrete.
  - concrete.
  - exists 1, [30; 31; 32]. concrete.
  - split; [concrete|intros _; concrete].
  - concrete.
  - split; [concrete|intros _; concrete].
Qed.

Definition full_room : bytes := replicate 272 0.
Definition full_hdr : bytes := replicate 8 0.


Lemma count_loop_bound mask l acc :
  acc <= foldl (fun size i => if hasf mask (2 ^ i) then size + 1 else size) acc l <= acc + zlen l.
Proof.
  revert acc. induction l as [|i l IH]; intros acc; [unfold zlen; cbn; lia|].
  cbn [foldl]. rewrite zlen_cons. specialize (IH (if hasf mask (2 ^ i) then acc + 1 else acc)).
  destruct (hasf mask (2 ^ i)); lia.
Qed.

Lemma count_bits_bound z : 0 <= count_bits z <= 64.
Proof. unfold count_bits. apply (count_loop_bound z (seqZ 0 64) 0). Qed.

(** An event with ip, tid, time, id and a call chain, and a record of it. *)
Definition small_attr : perf_event_attr := Attr (2 ^ 0 + 2 ^ 1 + 2 ^ 2 + 2 ^ 5 + 2 ^ 6) 4000 0 true 0 0.
Definition small_evsel : perf_evsel := perf_evsel__init small_attr.
Definition small_words : list Z := [7; 2 + 2 ^ 32 * 3; 99; 42; 1; 5].
Definition small_event (ty : Z) : perf_event :=
  Event ty 2 56 (replicate 8 0 ++ words_bytes small_words).

Lemma parse_sample_safe_witness :
  perf_evsel__parse_sample count_bits small_evsel (small_event PERF_RECORD_SAMPLE) <> Oob /\
  forall s, perf_evsel__parse_sample count_bits small_evsel (small_event PERF_RECORD_SAMPLE) = Ok s ->
    sample_in_bounds count_bits small_attr s.
Proof.
  apply (parse_sample_safe count_bits small_evsel (small_event PERF_RECORD_SAMPLE)).
  - exact count_bits_bound.
  - apply Forall_app. split; [by apply Forall_replicate|].
    vm_compute. repeat (apply Forall_cons; split; [split; discriminate || reflexivity|]). apply Forall_nil.
    exact I.
  - vm_compute. discriminate.
  - reflexivity.
  - reflexivity.
  - reflexivity.
  - apply perf_evsel__init_ok.
  - reflexivity.
Defined.

Lemma evsel_bookkeeping_witness :
  let e := foldl run_type_op (perf_evsel__init small_attr) [SetBit 7; ResetBit 2; SetSampleId false] in
  evsel_ok e /\
  let t := sample_type (attr (perf_evsel__set_sample_id e true)) in
  hasf t PERF_SAMPLE_IDENTIFIER = true /\ hasf t PERF_SAMPLE_ID = false.
Proof.
  apply (evsel_bookkeeping small_attr [SetBit 7; ResetBit 2; SetSampleId false]).
  repeat constructor.
Defined.

Lemma event2id_agrees_witness :
  perf_evlist__event2id (id_pos small_evsel) (is_pos small_evsel) (small_event PERF_RECORD_SAMPLE) = Ok 42.
Proof.
  refine (event2id_agrees count_bits small_evsel (small_event PERF_RECORD_SAMPLE)
            (Sample 7 2 3 99 0 42 UINT64_MAX 4000 0 0 (2 ^ 32 - 1) 0 PERF_MEM_DATA_SRC_NONE 0 2 2 []
               (Some (1, [5])) None no_regs no_regs no_stack no_read) _ _ _ _).
  - apply perf_evsel__init_ok.
  - discriminate.
  - left. reflexivity.
  - vm_compute. reflexivity.
Defined.

Lemma timestamp_agrees_witness :
  perf_evsel__parse_sample_timestamp small_evsel (small_event 1) = Ok 1.
Proof.
  refine (timestamp_agrees count_bits small_evsel (small_event 1)
            (Sample 0 42 0 1 0 5 UINT64_MAX 4000 0 0 (2 ^ 32 - 1) 0 PERF_MEM_DATA_SRC_NONE 0 2 2 []
               None None no_regs no_regs no_stack no_read) _ _ _).
  - reflexivity.
  - right. reflexivity.
  - vm_compute. reflexivity.
Defined.

Lemma cross_endian_u32s_witness :
  unswap_u32s true (bswap_64 (le_val (be_bytes 4 1234 ++ be_bytes 4 5678))) = (1234, 5678).
Proof. apply cross_endian_u32s; split; reflexivity || discriminate. Defined.

Lemma phys_addr_unchecked_witness :
  perf_evsel__parse_sample count_bits (perf_evsel__init (Attr PERF_SAMPLE_PHYS_ADDR 1 0 true 0 0))
    (Event PERF_RECORD_SAMPLE 2 8 (replicate 8 0)) = Oob.
Proof. apply phys_addr_unchecked; try reflexivity. apply perf_evsel__init_ok. Defined.

Definition swapped_evsel : perf_evsel :=
  Evsel (Attr PERF_SAMPLE_RAW 1 0 true 0 0) 0 (-1) (-1) true.

Lemma swapped_raw_unchecked_witness :
  perf_evsel__parse_sample count_bits swapped_evsel
    (Event PERF_RECORD_SAMPLE 2 16 (replicate 8 0 ++ le_bytes 8 (bswap_64 (bswap_32 4096)))) = Oob.
Proof.
  apply (swapped_raw_unchecked count_bits swapped_evsel
    (Event PERF_RECORD_SAMPLE 2 16 (replicate 8 0 ++ le_bytes 8 (bswap_64 (bswap_32 4096))))
    (bswap_64 (bswap_32 4096))); try reflexivity.
  - split; reflexivity.
  - split; reflexivity.
Defined.

End SampleExamples.
