(* ===== verification/Evlist.v ===== *)
(** Model of the event list of util/evlist.c: the list of events, the hash
    table from sample ids to events, the checks that the events agree on where
    the id stands in a record, and perf_evlist__event2evsel,
    perf_evlist__parse_sample and perf_evlist__parse_sample_timestamp, which
    find the event a record belongs to.

    A pointer to a [struct perf_evsel] is a number; the events that are linked
    into the list can be dereferenced.  [hash_64] of linux/hash.h is a
    parameter: the value of [hash_64(id, PERF_EVLIST__HLIST_BITS)]. *)

From S2P Require Import Prelude Sample.

(** * The table of sample ids *)

Definition PERF_EVLIST__HLIST_BITS : Z := 8.
Definition PERF_EVLIST__HLIST_SIZE : Z := Z.shiftl 1 PERF_EVLIST__HLIST_BITS.

(** [sid_evsel] is the event that an id belongs to. *)
Record perf_sample_id := Sid { sid_id : Z; sid_evsel : nat }.

(** What a table of ids promises to its users: the last id added is found
    first, other ids are found as before. *)
Class IdTable (T : Type) := {
  idt_ok : T -> Prop;
  idt_add : T -> perf_sample_id -> option T;
  idt_find : T -> Z -> option (option perf_sample_id);
  idt_add_total t s : idt_ok t -> exists t', idt_add t s = Some t' /\ idt_ok t';
  idt_find_total t id : idt_ok t -> exists r, idt_find t id = Some r;
  idt_find_add t s t' id : idt_ok t -> idt_add t s = Some t' ->
    idt_find t' id = if sid_id s =? id then Some (Some s) else idt_find t id
}.

(** Adding one after the other, and the abstract result: the last entry of an
    id, or what the table held before. *)
Fixpoint idt_add_all {T} `{IdTable T} (t : T) (l : list perf_sample_id) : option T :=
  match l with
  | [] => Some t
  | s :: l => t ← idt_add t s; idt_add_all t l
  end.

Fixpoint last_sid (id : Z) (l : list perf_sample_id) (d : option perf_sample_id)
    : option perf_sample_id :=
  match l with
  | [] => d
  | s :: l => last_sid id l (if sid_id s =? id then Some s else d)
  end.

Lemma idt_add_all_find {T} `{IdTable T} (l : list perf_sample_id) : forall (t : T) id r,
  idt_ok t -> idt_find t id = Some r ->
  exists t', idt_add_all t l = Some t' /\ idt_ok t' /\ idt_find t' id = Some (last_sid id l r).
Proof.
  induction l as [|s l IH]; intros t id r Hok Hr; cbn [idt_add_all last_sid]; [by eauto|].
  destruct (idt_add_total t s Hok) as (t1 & Hadd & Hok1). rewrite Hadd. mred.
  apply IH; [done|]. rewrite (idt_find_add t s t1 id Hok Hadd). by destruct (_ =? _).
Qed.

Section Evlist.
Context (hash_64 : Z -> Z).

Abbreviation heads_t := (list (list perf_sample_id)) (only parsing).

(** hlist_for_each_entry over one bucket. *)
Fixpoint bucket_find (id : Z) (head : list perf_sample_id) : option perf_sample_id :=
  match head with
  | [] => None
  | sid :: head => if sid_id sid =? id then Some sid else bucket_find id head
  end.

(** The array accesses are checked: [None] is a bucket outside the array. *)
Definition heads_add (heads : heads_t) (sid : perf_sample_id) : option heads_t :=
  let hash := hash_64 (sid_id sid) in
  if hash <? 0 then None else
  head ← heads !! Z.to_nat hash;
  Some (<[Z.to_nat hash := sid :: head]> heads).

Definition heads_find (heads : heads_t) (id : Z) : option (option perf_sample_id) :=
  let hash := hash_64 id in
  if hash <? 0 then None else
  head ← heads !! Z.to_nat hash;
  Some (bucket_find id head).

(** * The event list *)

Record perf_evlist := Evlist {
  el_entries : list (nat * perf_evsel);
  el_heads : heads_t;
  el_nr_entries : Z;
  el_id_pos : Z;
  el_is_pos : Z;
  el_combined_sample_type : Z;
  el_ids : list (nat * Z)
}.

Implicit Types el : perf_evlist.

(** perf_evlist__init: empty buckets; the structure was zeroed. *)
Definition perf_evlist__init : perf_evlist :=
  Evlist [] (replicate (Z.to_nat PERF_EVLIST__HLIST_SIZE) []) 0 0 0 0 [].

(** [None]: the first entry of an empty list is no event. *)
Definition perf_evlist__first el : option (nat * perf_evsel) := head (el_entries el).

Definition with_pos p1 p2 el : perf_evlist :=
  Evlist (el_entries el) (el_heads el) (el_nr_entries el) p1 p2 (el_combined_sample_type el) (el_ids el).
Definition with_entries l n el : perf_evlist :=
  Evlist l (el_heads el) n (el_id_pos el) (el_is_pos el) (el_combined_sample_type el) (el_ids el).

Definition perf_evlist__set_id_pos el : option perf_evlist :=
  '(_, first) ← perf_evlist__first el;
  Some (with_pos (id_pos first) (is_pos first) el).

Definition perf_evlist__update_id_pos el : option perf_evlist :=
  perf_evlist__set_id_pos
    (with_entries (prod_map id perf_evsel__calc_id_pos <$> el_entries el) (el_nr_entries el) el).

Definition perf_evlist__add el (evsel : nat) (e : perf_evsel) : option perf_evlist :=
  let nr := el_nr_entries el in
  let el := with_entries (el_entries el ++ [(evsel, e)]) (nr + 1) el in
  if nr =? 0 then perf_evlist__set_id_pos el else Some el.

Definition perf_evlist__remove el (evsel : nat) : perf_evlist :=
  with_entries (filter (fun x => x.1 <> evsel) (el_entries el)) (el_nr_entries el - 1) el.

(** The object [SID(evsel, cpu, thread)] that is linked into the table is left out as
    a place: every caller gives each id of an event a cpu and thread of its own
    (perf_event__process_attr and perf_session__read_header number the ids), so the
    node linked is always one that is not in the table yet. *)
Definition perf_evlist__id_hash el (evsel : nat) (id : Z) : option perf_evlist :=
  heads ← heads_add (el_heads el) (Sid id evsel);
  Some (Evlist (el_entries el) heads (el_nr_entries el) (el_id_pos el) (el_is_pos el)
          (el_combined_sample_type el) (el_ids el)).

(** The ids of all events are kept in one list of (event, id) pairs. *)
Definition perf_evlist__id_add el (evsel : nat) (id : Z) : option perf_evlist :=
  el ← perf_evlist__id_hash el evsel id;
  Some (Evlist (el_entries el) (el_heads el) (el_nr_entries el) (el_id_pos el) (el_is_pos el)
          (el_combined_sample_type el) (el_ids el ++ [(evsel, id)])).

Definition perf_evlist__id2sid el (id : Z) : option (option perf_sample_id) :=
  heads_find (el_heads el) id.

Definition perf_evlist__sample_id_all el : option bool :=
  '(_, first) ← perf_evlist__first el; Some (sample_id_all (attr first)).

Definition perf_evlist__id2evsel el (id : Z) : option (option nat) :=
  if (el_nr_entries el =? 1) || (id =? 0) then
    '(p, _) ← perf_evlist__first el; Some (Some p)
  else
  sid ← perf_evlist__id2sid el id;
  match sid with
  | Some sid => Some (Some (sid_evsel sid))
  | None =>
      all ← perf_evlist__sample_id_all el;
      if negb all then '(p, _) ← perf_evlist__first el; Some (Some p) else Some None
  end.

Definition perf_evlist__id2evsel_strict el (id : Z) : option (option nat) :=
  if id =? 0 then Some None else
  sid ← perf_evlist__id2sid el id;
  Some (option_map sid_evsel sid).

(** [Ok None] is the NULL that the source returns. *)
Definition perf_evlist__event2evsel el (ev : perf_event) : res (option nat) :=
  '(p, first) ← mem (perf_evlist__first el);
  if el_nr_entries el =? 1 then Ok (Some p) else
  if negb (sample_id_all (attr first)) && negb (hdr_type ev =? PERF_RECORD_SAMPLE) then Ok (Some p)
  else
  match perf_evlist__event2id (el_id_pos el) (el_is_pos el) ev with
  | Err _ => Ok None
  | Oob => Oob
  | Ok id =>
      if id =? 0 then Ok (Some p) else
      sid ← mem (heads_find (el_heads el) id);
      Ok (option_map sid_evsel sid)
  end.

(** The event a pointer refers to. *)
Definition evsel_at el (p : nat) : option perf_evsel :=
  '(_, (_, e)) ← list_find (fun x => x.1 = p) (el_entries el); Some e.

Context (hweight64 : Z -> Z).

Definition perf_evlist__parse_sample el (ev : perf_event) : res perf_sample :=
  evsel ← perf_evlist__event2evsel el ev;
  match evsel with
  | None => Err (- EFAULT)
  | Some p => e ← mem (evsel_at el p); perf_evsel__parse_sample hweight64 e ev
  end.

Definition perf_evlist__parse_sample_timestamp el (ev : perf_event) : res Z :=
  evsel ← perf_evlist__event2evsel el ev;
  match evsel with
  | None => Err (- EFAULT)
  | Some p => e ← mem (evsel_at el p); perf_evsel__parse_sample_timestamp e ev
  end.

(** * The agreement of the events *)

Definition perf_evlist__valid_sample_type el : bool :=
  if el_nr_entries el =? 1 then true else
  if (el_id_pos el <? 0) || (el_is_pos el <? 0) then false else
  forallb (fun x => (id_pos x.2 =? el_id_pos el) && (is_pos x.2 =? el_is_pos el)) (el_entries el).

Definition perf_evlist__valid_sample_id_all el : option bool :=
  '(_, first) ← perf_evlist__first el;
  Some (forallb (fun x => Bool.eqb (sample_id_all (attr first)) (sample_id_all (attr x.2)))
          (tail (el_entries el))).

Definition perf_evlist__valid_read_format el : option bool :=
  '(_, first) ← perf_evlist__first el;
  let rf := read_format (attr first) in
  let st := sample_type (attr first) in
  Some (forallb (fun x => rf =? read_format (attr x.2)) (el_entries el) &&
        negb (hasf st PERF_SAMPLE_READ && negb (hasf rf PERF_FORMAT_ID))).

Definition perf_evlist__read_format el : option Z :=
  '(_, first) ← perf_evlist__first el; Some (read_format (attr first)).

Definition combine_types (t : Z) (l : list (nat * perf_evsel)) : Z :=
  foldl (fun acc x => Z.lor acc (sample_type (attr x.2))) t l.

Definition with_combined v el : perf_evlist :=
  Evlist (el_entries el) (el_heads el) (el_nr_entries el) (el_id_pos el) (el_is_pos el) v (el_ids el).

Definition __perf_evlist__combined_sample_type el : Z * perf_evlist :=
  if negb (el_combined_sample_type el =? 0) then (el_combined_sample_type el, el) else
  let v := combine_types (el_combined_sample_type el) (el_entries el) in (v, with_combined v el).

Definition perf_evlist__combined_sample_type el : Z * perf_evlist :=
  __perf_evlist__combined_sample_type (with_combined 0 el).

(** A [u16]: the sizes are those of the members of struct perf_sample. *)
Definition perf_evlist__id_hdr_size el : option Z :=
  '(_, first) ← perf_evlist__first el;
  if negb (sample_id_all (attr first)) then Some 0 else
  let t := sample_type (attr first) in
  let size := 0 in
  let size := if hasf t PERF_SAMPLE_TID then u16 (size + 4 * 2) else size in
  let size := if hasf t PERF_SAMPLE_TIME then u16 (size + 8) else size in
  let size := if hasf t PERF_SAMPLE_ID then u16 (size + 8) else size in
  let size := if hasf t PERF_SAMPLE_STREAM_ID then u16 (size + 8) else size in
  let size := if hasf t PERF_SAMPLE_CPU then u16 (size + 4 * 2) else size in
  let size := if hasf t PERF_SAMPLE_IDENTIFIER then u16 (size + 8) else size in
  Some size.

(** * The hash table keeps its promise *)

Hypothesis hash_bound : forall id, 0 <= hash_64 id < PERF_EVLIST__HLIST_SIZE.

Definition heads_ok (heads : heads_t) : Prop := zlen heads = PERF_EVLIST__HLIST_SIZE.

Lemma heads_bucket heads id :
  heads_ok heads -> exists head, heads !! Z.to_nat (hash_64 id) = Some head /\ (hash_64 id <? 0) = false.
Proof using hash_bound.
  intros Hok. pose proof (hash_bound id). unfold heads_ok, zlen in Hok.
  destruct (lookup_lt_is_Some_2 heads (Z.to_nat (hash_64 id))) as [head Hh]; [lia|].
  exists head. split; [done|]. apply Z.ltb_ge. lia.
Qed.

Lemma heads_add_total t s :
  heads_ok t -> exists t', heads_add t s = Some t' /\ heads_ok t'.
Proof using hash_bound.
  intros Hok. destruct (heads_bucket t (sid_id s) Hok) as (head & Hh & Hn).
  unfold heads_add. rewrite Hn, Hh. mred. eexists. split; [done|].
  unfold heads_ok, zlen. by rewrite length_insert.
Qed.

Lemma heads_find_total t id : heads_ok t -> exists r, heads_find t id = Some r.
Proof using hash_bound.
  intros Hok. destruct (heads_bucket t id Hok) as (head & Hh & Hn).
  unfold heads_find. rewrite Hn, Hh. mred. eauto.
Qed.

Lemma heads_find_add t s t' id :
  heads_ok t -> heads_add t s = Some t' ->
  heads_find t' id = if sid_id s =? id then Some (Some s) else heads_find t id.
Proof using hash_bound.
  intros Hok Hadd. destruct (heads_bucket t (sid_id s) Hok) as (head & Hh & Hn).
  unfold heads_add in Hadd. rewrite Hn, Hh in Hadd. cbn [mbind option_bind] in Hadd. injection Hadd as <-.
  unfold heads_find. destruct (Z.eqb_spec (sid_id s) id) as [<- | Hne].
  - rewrite Hn, list_lookup_insert_eq by (by eapply lookup_lt_Some). mred. cbn [bucket_find].
    by rewrite Z.eqb_refl.
  - destruct (heads_bucket t id Hok) as (head' & Hh' & Hn'). rewrite Hn'.
    destruct (decide (Z.to_nat (hash_64 (sid_id s)) = Z.to_nat (hash_64 id))) as [He|He].
    + rewrite He in *. rewrite list_lookup_insert_eq by (by eapply lookup_lt_Some). rewrite Hh. mred.
      cbn [bucket_find]. by destruct (Z.eqb_spec (sid_id s) id).
    + by rewrite list_lookup_insert_ne.
Qed.

#[local] Instance heads_table : IdTable heads_t := {|
  idt_ok := heads_ok; idt_add := heads_add; idt_find := heads_find;
  idt_add_total := heads_add_total; idt_find_total := heads_find_total;
  idt_find_add := heads_find_add
|}.

Lemma init_heads_ok : heads_ok (el_heads perf_evlist__init).
Proof. done. Qed.

Lemma init_find id : heads_find (el_heads perf_evlist__init) id = Some None.
Proof using hash_bound.
  unfold heads_find. destruct (heads_bucket _ id init_heads_ok) as (head & Hh & Hn).
  rewrite Hn, Hh. mred. apply lookup_replicate in Hh as [-> _]. done.
Qed.

(** * Building a list *)

(** The invariant of the list. *)
Record evlist_wf el : Prop := {
  ew_nr : el_nr_entries el = zlen (el_entries el);
  ew_nodup : NoDup (el_entries el).*1;
  ew_heads : heads_ok (el_heads el)
}.

Lemma evlist_init_wf : evlist_wf perf_evlist__init.
Proof. split; [done|constructor|done]. Qed.

Lemma evlist_add_wf el p e :
  evlist_wf el -> p ∉ (el_entries el).*1 ->
  exists el', perf_evlist__add el p e = Some el' /\ evlist_wf el' /\
    el_entries el' = el_entries el ++ [(p, e)] /\ el_heads el' = el_heads el.
Proof.
  intros [Hn Hd Hh] Hp.
  assert (Hwf : evlist_wf (with_entries (el_entries el ++ [(p, e)]) (el_nr_entries el + 1) el)).
  { split; cbn; [|rewrite fmap_app; cbn; apply NoDup_app; split; [done|]; split; [|apply NoDup_singleton];
      intros x Hx ->%list_elem_of_singleton; done|done].
    rewrite zlen_app, Hn. done. }
  unfold perf_evlist__add. destruct (Z.eqb_spec (el_nr_entries el) 0) as [H0|]; [|by eauto].
  destruct (el_entries el) as [|x l] eqn:El; [|rewrite zlen_cons in Hn; pose proof (zlen_nonneg l); lia].
  unfold perf_evlist__set_id_pos, perf_evlist__first. cbn. eexists. split; [done|].
  split; [|done]. destruct Hwf as [H1 H2 H3]. by split.
Qed.

Lemma evlist_remove_wf el p e :
  evlist_wf el -> (p, e) ∈ el_entries el -> evlist_wf (perf_evlist__remove el p).
Proof.
  intros [Hn Hd Hh] Hp. unfold perf_evlist__remove.
  apply list_elem_of_split in Hp as (l1 & l2 & El). rewrite El in *. rewrite fmap_app, fmap_cons in Hd.
  cbn [fst] in Hd. apply NoDup_app in Hd as (Hd1 & H1 & H2). apply NoDup_cons in H2 as [H2 Hd2].
  assert (Hall : forall l, p ∉ l.*1 -> filter (fun x : nat * perf_evsel => x.1 <> p) l = l).
  { intros l. induction l as [|[q f] l IH]; [done|]. rewrite fmap_cons, not_elem_of_cons. cbn [fst].
    intros [Hq Hl]. rewrite filter_cons, decide_True by (cbn; congruence). by rewrite IH. }
  assert (Hp1 : p ∉ l1.*1) by (intros Hin; apply (H1 p Hin); left).
  assert (Hf : filter (fun x : nat * perf_evsel => x.1 <> p) (l1 ++ (p, e) :: l2) = l1 ++ l2).
  { rewrite filter_app, filter_cons, decide_False by (cbn; tauto). by rewrite !Hall. }
  split; cbn [with_entries el_nr_entries el_entries el_heads]; [|rewrite Hf, fmap_app|done].
  - rewrite Hf, Hn, !zlen_app, zlen_cons. lia.
  - apply NoDup_app. split; [done|]. split; [|done]. intros x Hx Hx2. apply (H1 x Hx). by right.
Qed.

(** Registering the ids of the events, as the reader of the file header does. *)
Fixpoint id_add_all el (l : list (nat * Z)) : option perf_evlist :=
  match l with
  | [] => Some el
  | (p, id) :: l => el ← perf_evlist__id_add el p id; id_add_all el l
  end.

Definition to_sid (x : nat * Z) : perf_sample_id := Sid x.2 x.1.

Lemma id_add_all_heads l : forall el,
  evlist_wf el ->
  exists el', id_add_all el l = Some el' /\ evlist_wf el' /\
    idt_add_all (el_heads el) (to_sid <$> l) = Some (el_heads el') /\
    el_entries el' = el_entries el /\ el_nr_entries el' = el_nr_entries el /\
    el_id_pos el' = el_id_pos el /\ el_is_pos el' = el_is_pos el.
Proof using hash_bound.
  induction l as [|[p id] l IH]; intros el Hwf; [by exists el|].
  pose proof Hwf as [Hn Hd Hh]. cbn [id_add_all]. unfold perf_evlist__id_add, perf_evlist__id_hash.
  rewrite fmap_cons. cbn [idt_add_all].
  destruct (heads_add_total (el_heads el) (Sid id p) Hh) as (heads' & Hadd & Hok).
  change (to_sid (p, id)) with (Sid id p). change (idt_add (el_heads el)) with (heads_add (el_heads el)).
  rewrite Hadd. mred. apply (IH (Evlist (el_entries el) heads' (el_nr_entries el) (el_id_pos el)
    (el_is_pos el) (el_combined_sample_type el) (el_ids el ++ [(p, id)]))).
  by split.
Qed.

Lemma evsel_at_in el p e : evlist_wf el -> (p, e) ∈ el_entries el -> evsel_at el p = Some e.
Proof.
  intros [_ Hd _] Hin. unfold evsel_at.
  destruct (list_find_elem_of (fun x : nat * perf_evsel => x.1 = p) (el_entries el) (p, e) Hin eq_refl)
    as [[i [q f]] Hf]. rewrite Hf. mred.
  apply list_find_Some in Hf as (Hq & Heq & _). cbn in Heq. subst q. f_equal.
  apply list_elem_of_lookup in Hin as [j Hj].
  assert (i = j); [|by simplify_eq].
  apply (NoDup_lookup (el_entries el).*1 i j p Hd); rewrite list_lookup_fmap.
  - by rewrite Hq.
  - by rewrite Hj.
Qed.

(** The head of the list is not the only event, or it is the one looked for. *)
Lemma first_in el p e :
  evlist_wf el -> (p, e) ∈ el_entries el ->
  exists q f, perf_evlist__first el = Some (q, f) /\ (el_nr_entries el = 1 -> q = p).
Proof.
  intros [Hn _ _] Hin. unfold perf_evlist__first.
  destruct (el_entries el) as [|[q f] l]; [by apply elem_of_nil in Hin|].
  exists q, f. split; [done|]. intros H1. rewrite Hn, zlen_cons in H1.
  destruct l; [|rewrite zlen_cons in H1; pose proof (zlen_nonneg l); lia].
  apply list_elem_of_singleton in Hin. by simplify_eq.
Qed.

Lemma valid_pos el p e :
  perf_evlist__valid_sample_type el = true -> el_nr_entries el <> 1 -> (p, e) ∈ el_entries el ->
  el_id_pos el = id_pos e /\ el_is_pos el = is_pos e.
Proof.
  unfold perf_evlist__valid_sample_type. intros Hv H1 Hin.
  destruct (Z.eqb_spec (el_nr_entries el) 1); [done|].
  destruct (_ || _); [done|]. rewrite forallb_forall in Hv.
  specialize (Hv (p, e)). rewrite <- list_elem_of_In in Hv. specialize (Hv Hin).
  apply andb_true_iff in Hv as [Ha Hb]. cbn [snd] in *. apply Z.eqb_eq in Ha, Hb. done.
Qed.

Lemma valid_all_first el p e q f :
  perf_evlist__valid_sample_id_all el = Some true -> perf_evlist__first el = Some (q, f) ->
  (p, e) ∈ el_entries el -> sample_id_all (attr f) = sample_id_all (attr e).
Proof.
  unfold perf_evlist__valid_sample_id_all, perf_evlist__first. intros Hv Hf Hin.
  destruct (el_entries el) as [|x l]; [done|]. cbn [head] in *. injection Hf as ->. cbn [mbind option_bind] in Hv.
  injection Hv as Hv. cbn [tail] in Hv. apply elem_of_cons in Hin as [[= _ <-]|Hin]; [done|].
  rewrite forallb_forall in Hv. specialize (Hv (p, e)). rewrite <- list_elem_of_In in Hv.
  by apply Bool.eqb_prop, Hv.
Qed.

(** What a record must carry for its id to be found by position. *)
Definition has_id (e : perf_evsel) (ev : perf_event) : Prop :=
  hdr_type ev = PERF_RECORD_SAMPLE \/
  (hdr_type ev <> PERF_RECORD_SAMPLE /\ sample_id_all (attr e) = true /\
   sizeof_header + 8 * is_pos e <= hdr_size ev).

Lemma event2evsel_found el p e ev s :
  evlist_wf el -> perf_evlist__valid_sample_type el = true ->
  perf_evlist__valid_sample_id_all el = Some true -> (p, e) ∈ el_entries el -> evsel_ok e ->
  hasf (sample_type (attr e)) PERF_SAMPLE_IDENTIFIER <> hasf (sample_type (attr e)) PERF_SAMPLE_ID ->
  has_id e ev -> perf_evsel__parse_sample hweight64 e ev = Ok s ->
  heads_find (el_heads el) (s_id s) = Some (Some (Sid (s_id s) p)) -> s_id s <> 0 ->
  perf_evlist__event2evsel el ev = Ok (Some p).
Proof.
  intros Hwf Hv Ha Hin He Hone Hid Hp Hfind H0. destruct (first_in el p e Hwf Hin) as (q & f & Hf & Hq).
  unfold perf_evlist__event2evsel. rewrite Hf. rred.
  destruct (Z.eqb_spec (el_nr_entries el) 1) as [H1|H1]; [by rewrite Hq|].
  destruct (valid_pos el p e Hv H1 Hin) as [-> ->].
  assert (Hg : negb (sample_id_all (attr f)) && negb (hdr_type ev =? PERF_RECORD_SAMPLE) = false).
  { rewrite (valid_all_first el p e q f Ha Hf Hin). destruct Hid as [-> |(_ & -> & _)]; [|done].
    rewrite Z.eqb_refl. by rewrite andb_false_r. }
  rewrite Hg.
  assert (Hev : perf_evlist__event2id (id_pos e) (is_pos e) ev = Ok (s_id s)).
  { destruct Hid as [Hty |(Hty & Hall & Hsz)];
      [by eapply sample_event2id|by eapply id_sample_event2id]. }
  rewrite Hev. destruct (Z.eqb_spec (s_id s) 0); [done|]. by rewrite Hfind.
Qed.

(** C4: A record is attributed to its event.  When the events of the list
    agree on the position of the id (the two checks of the list hold) and the
    ids have been registered in any order, however they collide in the hash
    table, then a record that carries the id last registered for an event is
    given to that event by perf_evlist__event2evsel, parsed by
    perf_evlist__parse_sample as that event lays it out, and
    perf_evlist__parse_sample_timestamp returns the time of that parse. *)
Theorem evlist_event_owner el0 adds p e ev s :
  evlist_wf el0 -> el_heads el0 = el_heads perf_evlist__init ->
  perf_evlist__valid_sample_type el0 = true -> perf_evlist__valid_sample_id_all el0 = Some true ->
  (p, e) ∈ el_entries el0 -> evsel_ok e ->
  hasf (sample_type (attr e)) PERF_SAMPLE_IDENTIFIER <> hasf (sample_type (attr e)) PERF_SAMPLE_ID ->
  has_id e ev -> perf_evsel__parse_sample hweight64 e ev = Ok s ->
  last_sid (s_id s) (to_sid <$> adds) None = Some (Sid (s_id s) p) -> s_id s <> 0 ->
  exists el, id_add_all el0 adds = Some el /\
    perf_evlist__event2evsel el ev = Ok (Some p) /\
    perf_evlist__parse_sample el ev = Ok s /\
    (hasf (sample_type (attr e)) PERF_SAMPLE_TIME = true ->
     perf_evlist__parse_sample_timestamp el ev = Ok (s_time s)).
Proof using hash_bound.
  intros Hwf0 Hh0 Hv Ha Hin He Hone Hid Hp Hlast H0.
  destruct (id_add_all_heads adds el0 Hwf0) as (el & Hel & Hwf & Hheads & Hent & Hnr & Hip & His).
  exists el. split; [done|].
  assert (Hfind : heads_find (el_heads el) (s_id s) = Some (Some (Sid (s_id s) p))).
  { destruct (idt_add_all_find (to_sid <$> adds) (el_heads el0) (s_id s) None) as (t & Ht & _ & Hf).
    - apply Hwf0.
    - change (heads_find (el_heads el0) (s_id s) = Some None). rewrite Hh0. apply init_find.
    - rewrite Hheads in Ht. injection Ht as <-. rewrite Hlast in Hf. exact Hf. }
  assert (Hown : perf_evlist__event2evsel el ev = Ok (Some p)).
  { apply (event2evsel_found el p e ev s); try done; [| |by rewrite Hent].
    - unfold perf_evlist__valid_sample_type in *. by rewrite Hent, Hnr, Hip, His.
    - unfold perf_evlist__valid_sample_id_all, perf_evlist__first in *. by rewrite Hent. }
  rewrite <- Hent in Hin. pose proof (evsel_at_in el p e Hwf Hin) as Hat.
  split; [done|]. unfold perf_evlist__parse_sample, perf_evlist__parse_sample_timestamp.
  rewrite Hown. rred. rewrite Hat. rred. split; [done|]. intros Ht.
  eapply sample_timestamp; [done| |done]. destruct Hid as [|(_ & ? & _)]; [by left|by right].
Qed.

End Evlist.

Module EvlistExamples.

(** A hash with many collisions. *)
Definition hash4 (id : Z) : Z := id mod 4.

Lemma hash4_bound id : 0 <= hash4 id < PERF_EVLIST__HLIST_SIZE.
Proof.
  unfold hash4. change PERF_EVLIST__HLIST_SIZE with 256. pose proof (Z.mod_pos_bound id 4). lia.
Qed.

Definition ip_evsel : perf_evsel :=
  perf_evsel__init (Attr (2 ^ 16 + 2 ^ 0) 4000 0 true 0 0).
Definition time_evsel : perf_evsel :=
  perf_evsel__init (Attr (2 ^ 16 + 2 ^ 1 + 2 ^ 2) 4000 0 true 0 0).

(** Two events that are laid out differently after the identifier. *)
Definition two_events : perf_evlist :=
  Evlist [(1%nat, ip_evsel); (2%nat, time_evsel)] (el_heads perf_evlist__init) 2 0 1 0 [].

Example two_events_built :
  (el ← perf_evlist__add perf_evlist__init 1 ip_evsel; perf_evlist__add el 2 time_evsel)
  = Some two_events.
Proof. reflexivity. Qed.

Definition owned_event : perf_event :=
  Event PERF_RECORD_SAMPLE 2 32
    (replicate 8 0 ++ le_bytes 8 7 ++ le_bytes 4 42 ++ le_bytes 4 43 ++ le_bytes 8 1000).

Definition owned_sample : perf_sample :=
  Sample 0 42 43 1000 0 7 UINT64_MAX 4000 0 0 (2 ^ 32 - 1) 0 PERF_MEM_DATA_SRC_NONE 0 2 2 []
    None None no_regs no_regs no_stack no_read.

(** The ids 3, 7 and 11 share a bucket. *)
Lemma evlist_event_owner_witness :
  exists el, id_add_all hash4 two_events [(1%nat, 3); (2%nat, 7); (1%nat, 11)] = Some el /\
    perf_evlist__event2evsel hash4 el owned_event = Ok (Some 2%nat) /\
    perf_evlist__parse_sample hash4 count_bits el owned_event = Ok owned_sample /\
    (hasf (sample_type (attr time_evsel)) PERF_SAMPLE_TIME = true ->
     perf_evlist__parse_sample_timestamp hash4 el owned_event = Ok 1000).
Proof.
  apply (evlist_event_owner hash4 count_bits hash4_bound two_events
           [(1%nat, 3); (2%nat, 7); (1%nat, 11)] 2 time_evsel owned_event owned_sample).
  - split; [done| |done]. apply (bool_decide_unpack _). vm_compute. exact I.
  - reflexivity.
  - reflexivity.
  - reflexivity.
  - right. left.
  - apply perf_evsel__init_ok.
  - vm_compute. discriminate.
  - left. reflexivity.
  - vm_compute. reflexivity.
  - reflexivity.
  - vm_compute. discriminate.
Defined.

End EvlistExamples.
