(* ===== verification/ArmSpePkt.v ===== *)
(** Model of util/arm-spe-pkt-decoder.c and .h (the Arm Statistical Profiling
    Extension packet decoder and its packet descriptions) and of the dump loop
    of util/arm-spe.c, on a little endian 64-bit host.

    The trace is a [bytes] list [m] whose first byte is at address [base]; a
    decoder call looks at offset [off] with [len] bytes announced.  Every load
    is checked against [m]: [None] is an access outside the trace, which is not
    the same as an access beyond [len]. *)

From S2P Require Import Prelude.
From stdpp Require Import strings.
#[local] Open Scope Z_scope.

(** * Data *)

Definition ARM_SPE_NEED_MORE_BYTES : Z := -1.
Definition ARM_SPE_BAD_PACKET : Z := -2.
Definition ARM_SPE_PKT_DESC_MAX : Z := 256.

Inductive arm_spe_pkt_type :=
| ARM_SPE_BAD | ARM_SPE_PAD | ARM_SPE_END | ARM_SPE_TIMESTAMP | ARM_SPE_ADDRESS
| ARM_SPE_COUNTER | ARM_SPE_CONTEXT | ARM_SPE_OP_TYPE | ARM_SPE_EVENTS
| ARM_SPE_DATA_SOURCE.

#[export] Instance arm_spe_pkt_type_eq_dec : EqDecision arm_spe_pkt_type.
Proof. solve_decision. Defined.

(** [index] is an [unsigned char]. *)
Record arm_spe_pkt := SpePkt {
  spe_type : arm_spe_pkt_type;
  spe_index : Z;
  spe_payload : Z
}.

Definition spe_zero : arm_spe_pkt := SpePkt ARM_SPE_BAD 0 0.
Definition spe_set_type (t : arm_spe_pkt_type) (p : arm_spe_pkt) : arm_spe_pkt :=
  SpePkt t (spe_index p) (spe_payload p).
Definition spe_set_index (i : Z) (p : arm_spe_pkt) : arm_spe_pkt :=
  SpePkt (spe_type p) (u8 i) (spe_payload p).
Definition spe_set_payload (v : Z) (p : arm_spe_pkt) : arm_spe_pkt :=
  SpePkt (spe_type p) (spe_index p) v.

Definition SPE_HEADER0_PAD : Z := 0x0.
Definition SPE_HEADER0_END : Z := 0x1.
Definition SPE_HEADER0_ADDRESS : Z := 0x30.
Definition SPE_HEADER0_ADDRESS_MASK : Z := 0x38.
Definition SPE_HEADER0_COUNTER : Z := 0x18.
Definition SPE_HEADER0_COUNTER_MASK : Z := 0x38.
Definition SPE_HEADER0_TIMESTAMP : Z := 0x71.
Definition SPE_HEADER0_EVENTS : Z := 0x2.
Definition SPE_HEADER0_EVENTS_MASK : Z := 0xf.
Definition SPE_HEADER0_SOURCE : Z := 0x3.
Definition SPE_HEADER0_SOURCE_MASK : Z := 0xf.
Definition SPE_HEADER0_CONTEXT : Z := 0x24.
Definition SPE_HEADER0_CONTEXT_MASK : Z := 0x3c.
Definition SPE_HEADER0_OP_TYPE : Z := 0x8.
Definition SPE_HEADER0_OP_TYPE_MASK : Z := 0x3c.
Definition SPE_HEADER1_ALIGNMENT : Z := 0x0.
Definition SPE_HEADER1_ADDRESS : Z := 0xb0.
Definition SPE_HEADER1_ADDRESS_MASK : Z := 0xf8.
Definition SPE_HEADER1_COUNTER : Z := 0x98.
Definition SPE_HEADER1_COUNTER_MASK : Z := 0xf8.

(** * Decoding *)

(** C return value and packet. *)
Abbreviation spe_getter := (option (Z * arm_spe_pkt)) (only parsing).

Definition payloadlen (byte : Z) : Z := Z.shiftl 1 (Z.shiftr (Z.land byte 0x30) 4).

Section Decode.
Context (m : bytes) (base : Z).

Definition arm_spe_get_payload (off len : Z) (p : arm_spe_pkt) : spe_getter :=
  b0 ← rd8 m off;
  let payload_len := payloadlen b0 in
  if len <? 1 + payload_len then Some (ARM_SPE_NEED_MORE_BYTES, p) else
  if (payload_len =? 1) || (payload_len =? 2) || (payload_len =? 4) || (payload_len =? 8) then
    v ← rd_le m (off + 1) (Z.to_nat payload_len);
    Some (1 + payload_len, spe_set_payload v p)
  else Some (ARM_SPE_BAD_PACKET, p).

Definition arm_spe_get_pad (p : arm_spe_pkt) : spe_getter := Some (1, spe_set_type ARM_SPE_PAD p).

Definition arm_spe_get_alignment (off len : Z) (p : arm_spe_pkt) : spe_getter :=
  b0 ← rd8 m off;
  let alignment := Z.shiftl 1 (Z.land b0 0xf + 1) in
  if len <? alignment then Some (ARM_SPE_NEED_MORE_BYTES, p) else
  Some (alignment - Z.land (base + off) (alignment - 1), spe_set_type ARM_SPE_PAD p).

Definition arm_spe_get_end (p : arm_spe_pkt) : spe_getter := Some (1, spe_set_type ARM_SPE_END p).

Definition arm_spe_get_timestamp (off len : Z) (p : arm_spe_pkt) : spe_getter :=
  arm_spe_get_payload off len (spe_set_type ARM_SPE_TIMESTAMP p).

Definition arm_spe_get_events (off len : Z) (p : arm_spe_pkt) : spe_getter :=
  '(ret, p) ← arm_spe_get_payload off len p;
  Some (ret, spe_set_index (ret - 1) (spe_set_type ARM_SPE_EVENTS p)).

Definition arm_spe_get_data_source (off len : Z) (p : arm_spe_pkt) : spe_getter :=
  arm_spe_get_payload off len (spe_set_type ARM_SPE_DATA_SOURCE p).

Definition arm_spe_get_context (off len : Z) (p : arm_spe_pkt) : spe_getter :=
  b0 ← rd8 m off;
  arm_spe_get_payload off len (spe_set_index (Z.land b0 0x3) (spe_set_type ARM_SPE_CONTEXT p)).

Definition arm_spe_get_op_type (off len : Z) (p : arm_spe_pkt) : spe_getter :=
  b0 ← rd8 m off;
  arm_spe_get_payload off len (spe_set_index (Z.land b0 0x3) (spe_set_type ARM_SPE_OP_TYPE p)).

(** The index of an address or counter packet, from its one or two headers. *)
Definition header_index (off ext_hdr : Z) : option Z :=
  b0 ← rd8 m off;
  if negb (ext_hdr =? 0) then
    b1 ← rd8 m (off + 1); Some (Z.lor (Z.shiftl (Z.land b0 0x3) 3) (Z.land b1 0x7))
  else Some (Z.land b0 0x7).

Definition arm_spe_get_counter (off len ext_hdr : Z) (p : arm_spe_pkt) : spe_getter :=
  if len <? 2 then Some (ARM_SPE_NEED_MORE_BYTES, p) else
  let p := spe_set_type ARM_SPE_COUNTER p in
  idx ← header_index off ext_hdr;
  let p := spe_set_index idx p in
  v ← rd_le m (off + 1) 2;
  Some (1 + ext_hdr + 2, spe_set_payload v p).

Definition arm_spe_get_addr (off len ext_hdr : Z) (p : arm_spe_pkt) : spe_getter :=
  if len <? 8 then Some (ARM_SPE_NEED_MORE_BYTES, p) else
  let p := spe_set_type ARM_SPE_ADDRESS p in
  idx ← header_index off ext_hdr;
  let p := spe_set_index idx p in
  v ← rd_le m (off + 1) 8;
  Some (1 + ext_hdr + 8, spe_set_payload v p).

Definition arm_spe_do_get_packet (off len : Z) : spe_getter :=
  let p := spe_zero in
  let bad := Some (ARM_SPE_BAD_PACKET, p) in
  if len =? 0 then Some (ARM_SPE_NEED_MORE_BYTES, p) else
  byte ← rd8 m off;
  if byte =? SPE_HEADER0_PAD then arm_spe_get_pad p
  else if byte =? SPE_HEADER0_END then arm_spe_get_end p
  else if hasf byte 0xc0 then
    if hasf byte 0x80 then
      if Z.land byte SPE_HEADER0_ADDRESS_MASK =? SPE_HEADER0_ADDRESS
      then arm_spe_get_addr off len 0 p
      else if Z.land byte SPE_HEADER0_COUNTER_MASK =? SPE_HEADER0_COUNTER
      then arm_spe_get_counter off len 0 p
      else bad
    else if byte =? SPE_HEADER0_TIMESTAMP then arm_spe_get_timestamp off len p
    else if Z.land byte SPE_HEADER0_EVENTS_MASK =? SPE_HEADER0_EVENTS
    then arm_spe_get_events off len p
    else if Z.land byte SPE_HEADER0_SOURCE_MASK =? SPE_HEADER0_SOURCE
    then arm_spe_get_data_source off len p
    else if Z.land byte SPE_HEADER0_CONTEXT_MASK =? SPE_HEADER0_CONTEXT
    then arm_spe_get_context off len p
    else if Z.land byte SPE_HEADER0_OP_TYPE_MASK =? SPE_HEADER0_OP_TYPE
    then arm_spe_get_op_type off len p
    else bad
  else if Z.land byte 0xe0 =? 0x20 then
    byte ← rd8 m (off + 1);
    if byte =? SPE_HEADER1_ALIGNMENT then arm_spe_get_alignment off len p
    else if Z.land byte SPE_HEADER1_ADDRESS_MASK =? SPE_HEADER1_ADDRESS
    then arm_spe_get_addr off len 1 p
    else if Z.land byte SPE_HEADER1_COUNTER_MASK =? SPE_HEADER1_COUNTER
    then arm_spe_get_counter off len 1 p
    else bad
  else bad.

(** [while (ret < 16 && len > (size_t)ret && !buf\[ret\]) ret += 1;], with at
    most 16 turns. *)
Fixpoint spe_pad_loop (fuel : nat) (off len ret : Z) : option Z :=
  match fuel with
  | O => Some ret
  | S fuel =>
      if (ret <? 16) && (ret <? len) then
        b ← rd8 m (off + ret);
        if b =? 0 then spe_pad_loop fuel off len (ret + 1) else Some ret
      else Some ret
  end.

Definition arm_spe_get_packet (off len : Z) : spe_getter :=
  '(ret, p) ← arm_spe_do_get_packet off len;
  if (0 <? ret) && bool_decide (spe_type p = ARM_SPE_PAD) then
    ret ← spe_pad_loop 16 off len ret; Some (ret, p)
  else Some (ret, p).

(** The [while (len)] loop of arm_spe_dump: one line per packet, its bytes and
    the packet ([None] for "Bad packet!").  [len] is a [size_t] and wraps when a
    packet is longer than what is left. *)
Fixpoint spe_dump_loop (fuel : nat) (off len : Z) : option (list (bytes * option arm_spe_pkt)) :=
  match fuel with
  | O => None
  | S fuel =>
      if len =? 0 then Some [] else
      '(ret, p) ← arm_spe_get_packet off len;
      let pkt_len := if 0 <? ret then ret else 1 in
      line ← rdn m off (Z.to_nat pkt_len);
      rest ← spe_dump_loop fuel (off + pkt_len) (len -64 pkt_len);
      Some ((line, if 0 <? ret then Some p else None) :: rest)
  end.

Definition arm_spe_dump (fuel : nat) : option (list (bytes * option arm_spe_pkt)) :=
  spe_dump_loop fuel 0 (zlen m).

End Decode.

(** * The packet format *)

(** Packets with a one-byte header, as the architecture lays them out. *)
Inductive spe_msg :=
| MPad
| MEnd
| MTimestamp (v : Z)
| MEvents (sz v : Z)
| MSource (sz v : Z)
| MContext (idx v : Z)
| MOpType (idx v : Z)
| MAddr (idx v : Z)
| MCounter (idx v : Z).

#[export] Instance spe_msg_eq_dec : EqDecision spe_msg.
Proof. solve_decision. Defined.

Definition msg_header (x : spe_msg) : Z :=
  match x with
  | MPad => 0x00
  | MEnd => 0x01
  | MTimestamp _ => 0x71
  | MEvents sz _ => 0x42 + 16 * sz
  | MSource sz _ => 0x43 + 16 * sz
  | MContext idx _ => 0x64 + idx
  | MOpType idx _ => 0x48 + idx
  | MAddr idx _ => 0xb0 + idx
  | MCounter idx _ => 0x98 + idx
  end.

(** Payload bytes and value. *)
Definition msg_payload (x : spe_msg) : nat * Z :=
  match x with
  | MPad | MEnd => (0%nat, 0)
  | MTimestamp v => (8%nat, v)
  | MEvents sz v | MSource sz v => (Z.to_nat (2 ^ sz), v)
  | MContext _ v => (4%nat, v)
  | MOpType _ v => (1%nat, v)
  | MAddr _ v => (8%nat, v)
  | MCounter _ v => (2%nat, v)
  end.

Definition msg_encode (x : spe_msg) : bytes :=
  msg_header x :: le_bytes (fst (msg_payload x)) (snd (msg_payload x)).

Definition msg_packet (x : spe_msg) : arm_spe_pkt :=
  match x with
  | MPad => SpePkt ARM_SPE_PAD 0 0
  | MEnd => SpePkt ARM_SPE_END 0 0
  | MTimestamp v => SpePkt ARM_SPE_TIMESTAMP 0 v
  | MEvents sz v => SpePkt ARM_SPE_EVENTS (2 ^ sz) v
  | MSource _ v => SpePkt ARM_SPE_DATA_SOURCE 0 v
  | MContext idx v => SpePkt ARM_SPE_CONTEXT idx v
  | MOpType idx v => SpePkt ARM_SPE_OP_TYPE idx v
  | MAddr idx v => SpePkt ARM_SPE_ADDRESS idx v
  | MCounter idx v => SpePkt ARM_SPE_COUNTER idx v
  end.

Definition msg_ok (x : spe_msg) : Prop :=
  0 <= snd (msg_payload x) < 256 ^ Z.of_nat (fst (msg_payload x)) /\
  match x with
  | MEvents sz _ | MSource sz _ => 0 <= sz < 4
  | MContext idx _ | MOpType idx _ => 0 <= idx < 4
  | MAddr idx _ | MCounter idx _ => 0 <= idx < 8
  | _ => True
  end.

Lemma below4 n : 0 <= n < 4 -> n = 0 \/ n = 1 \/ n = 2 \/ n = 3.
Proof. lia. Qed.

Lemma below8 n :
  0 <= n < 8 -> n = 0 \/ n = 1 \/ n = 2 \/ n = 3 \/ n = 4 \/ n = 5 \/ n = 6 \/ n = 7.
Proof. lia. Qed.

Lemma zlen_msg_encode x : zlen (msg_encode x) = 1 + Z.of_nat (fst (msg_payload x)).
Proof. unfold msg_encode. by rewrite zlen_cons, zlen_le_bytes. Qed.

Section Message.
Context (m : bytes) (base off len : Z).

(** Evaluates a decoder on a header that is a numeral. *)
Ltac spe_run H8 HN :=
  lazy -[rd8] in H8; unfold arm_spe_do_get_packet; rewrite H8;
  lazy -[rd_le rd8 Z.ltb Z.add] in HN |- *; rewrite ?H8;
  lazy -[rd_le rd8 Z.ltb Z.add];
  repeat match goal with |- context [len <? ?k] => destruct (Z.ltb_spec len k); [lia|] end;
  rewrite ?HN; reflexivity.

Lemma do_get_packet_msg x :
  msg_ok x -> rd8 m off = Some (msg_header x) ->
  rd_le m (off + 1) (fst (msg_payload x)) = Some (snd (msg_payload x)) ->
  1 + Z.of_nat (fst (msg_payload x)) <= len ->
  arm_spe_do_get_packet m base off len =
    Some (1 + Z.of_nat (fst (msg_payload x)), msg_packet x).
Proof.
  intros [Hv Hok] H8 HN Hlen.
  destruct (Z.eqb_spec len 0) as [|Hne]; [lia|]. apply Z.eqb_neq in Hne.
  assert (Hstart : forall k, (if len =? 0 then Some (ARM_SPE_NEED_MORE_BYTES, spe_zero) else k) = k)
    by (intros k; by rewrite Hne).
  destruct x; cbn [msg_header msg_payload msg_packet fst snd] in *.
  all: try (apply below4 in Hok as [-> | [-> | [-> | ->]]]).
  all: try (apply below8 in Hok as [-> | [-> | [-> | [-> | [-> | [-> | [-> | ->]]]]]]]).
  all: unfold arm_spe_do_get_packet; rewrite Hstart; spe_run H8 HN.
Qed.

End Message.

(** * Dumping a trace *)

Definition msgs_encode (xs : list spe_msg) : bytes := List.concat (msg_encode <$> xs).

Lemma zlen_msgs_cons x xs : zlen (msgs_encode (x :: xs)) = zlen (msg_encode x) + zlen (msgs_encode xs).
Proof. unfold msgs_encode. rewrite fmap_cons. cbn [List.concat]. by rewrite zlen_app. Qed.

Lemma get_packet_msg pre x post base len :
  msg_ok x -> x <> MPad -> zlen (msg_encode x) <= len ->
  arm_spe_get_packet (pre ++ msg_encode x ++ post) base (zlen pre) len =
    Some (zlen (msg_encode x), msg_packet x).
Proof.
  intros Hok Hpad Hlen. unfold arm_spe_get_packet. rewrite zlen_msg_encode in *.
  rewrite (do_get_packet_msg _ _ _ _ x); [|done| | |lia].
  - mred. destruct (Z.ltb_spec 0 (1 + Z.of_nat (fst (msg_payload x)))); [|lia].
    by destruct x.
  - by apply rd8_mid.
  - unfold msg_encode. rewrite <- app_comm_cons, cons_middle, app_assoc.
    apply rd_le_mid; [by rewrite zlen_app|]. apply Hok.
Qed.

(** The pads at the start of a line: [k] of them, up to 16, and then the end of the
    trace or another packet. *)
Lemma spe_pad_loop_run pre k post : (k <= 16)%nat ->
  k = 16%nat \/ post = [] \/ (exists b post', post = b :: post' /\ b <> 0) ->
  forall n fuel, (n <= k)%nat -> (k - n < fuel)%nat ->
  spe_pad_loop (pre ++ replicate k 0 ++ post) fuel (zlen pre) (Z.of_nat k + zlen post) (Z.of_nat n) = Some (Z.of_nat k).
Proof.
  intros Hk Hpost n fuel. revert n. induction fuel as [|fuel IH]; intros n Hn Hf; [lia|].
  cbn [spe_pad_loop]. pose proof (zlen_nonneg post).
  destruct (decide (n = k)) as [->|Hne].
  - destruct (Z.ltb_spec (Z.of_nat k) 16), (Z.ltb_spec (Z.of_nat k) (Z.of_nat k + zlen post)); try done.
    destruct Hpost as [->|[->|(b & post' & -> & Hb)]]; [lia|by rewrite zlen_nil in *; lia|].
    cbn [andb]. replace (zlen pre + Z.of_nat k) with (zlen (pre ++ replicate k 0))
      by (rewrite zlen_app; unfold zlen; rewrite length_replicate; lia).
    rewrite app_assoc. rewrite rd8_mid by done. cbn. by replace (b =? 0) with false by lia.
  - destruct (Z.ltb_spec (Z.of_nat n) 16); [|lia].
    destruct (Z.ltb_spec (Z.of_nat n) (Z.of_nat k + zlen post)); [|lia]. cbn [andb].
    assert (Er : replicate k 0 = replicate n 0 ++ 0 :: replicate (k - S n) 0).
    { change (0 :: replicate (k - S n) 0) with (replicate (S (k - S n)) 0).
      rewrite <- replicate_add. f_equal. lia. }
    assert (E8 : rd8 (pre ++ replicate k 0 ++ post) (zlen pre + Z.of_nat n) = Some 0).
    { rewrite Er. replace (zlen pre + Z.of_nat n) with (zlen (pre ++ replicate n 0))
        by (rewrite zlen_app; unfold zlen; rewrite length_replicate; lia).
      rewrite <- app_assoc, app_assoc. cbn [app]. by apply rd8_mid. }
    rewrite E8. cbn. replace (Z.of_nat n + 1) with (Z.of_nat (S n)) by lia. apply IH; lia.
Qed.

(** ** What a dump shows *)

(** The line of [n] pads, if there are any. *)
Definition pad_line (n : nat) : list (bytes * option arm_spe_pkt) :=
  match n with O => [] | S _ => [(replicate n 0, Some (msg_packet MPad))] end.

(** One line for every packet, except that pads that follow one another are put on
    one line, 16 at most; [n] of them are waiting. *)
Fixpoint spe_lines (n : nat) (xs : list spe_msg) : list (bytes * option arm_spe_pkt) :=
  match xs with
  | [] => pad_line n
  | MPad :: xs => if (n =? 16)%nat then pad_line n ++ spe_lines 1 xs else spe_lines (S n) xs
  | x :: xs => pad_line n ++ (msg_encode x, Some (msg_packet x)) :: spe_lines 0 xs
  end.

Lemma spe_lines_pads n k xs : (n + k <= 16)%nat ->
  spe_lines n (replicate k MPad ++ xs) = spe_lines (n + k) xs.
Proof.
  revert n. induction k as [|k IH]; intros n Hn; [by rewrite Nat.add_0_r|].
  cbn [replicate app spe_lines]. destruct (Nat.eqb_spec n 16); [lia|].
  rewrite IH by lia. f_equal. lia.
Qed.

(** A full line, or one that another packet or the end follows. *)
Lemma spe_lines_cut k xs : k = 16%nat \/ (forall ys, xs <> MPad :: ys) ->
  spe_lines k xs = pad_line k ++ spe_lines 0 xs.
Proof.
  intros Hk. destruct xs as [|x xs]; [by rewrite app_nil_r|]. destruct x; try done.
  destruct Hk as [->|Hk]; [done|]. by destruct (Hk xs).
Qed.

(** The pads that a trace starts with, as many as fit a line. *)
Lemma leading_pads (xs : list spe_msg) (room : nat) : exists k ys,
  xs = replicate k MPad ++ ys /\ (k <= room)%nat /\ (k = room \/ forall zs, ys <> MPad :: zs).
Proof.
  revert xs. induction room as [|room IH]; intros xs; [exists 0%nat, xs; auto|].
  destruct xs as [|x xs]; [exists 0%nat, []; split; [done|]; split; [lia|by right]|].
  destruct (decide (x = MPad)) as [->|Hx].
  - destruct (IH xs) as (k & ys & -> & Hk & Hs). exists (S k), ys. split; [done|]. split; [lia|].
    destruct Hs as [->|Hs]; auto.
  - exists 0%nat, (x :: xs). split; [done|]. split; [lia|]. right. congruence.
Qed.

Lemma msgs_encode_app xs ys : msgs_encode (xs ++ ys) = msgs_encode xs ++ msgs_encode ys.
Proof. unfold msgs_encode. by rewrite fmap_app, concat_app. Qed.

Lemma msgs_encode_pads k : msgs_encode (replicate k MPad) = replicate k 0.
Proof. induction k as [|k IH]; [done|]. cbn [replicate]. rewrite <- IH. done. Qed.

Lemma msg_header_pos x : msg_ok x -> x <> MPad -> msg_header x <> 0.
Proof. intros [_ Hok] Hx. destruct x; cbn in *; (done || lia). Qed.

(** A trace is empty or starts with a byte that is not a pad, if no pad is in front. *)
Lemma msgs_first xs : Forall msg_ok xs -> (forall ys, xs <> MPad :: ys) ->
  msgs_encode xs = [] \/ exists b post, msgs_encode xs = b :: post /\ b <> 0.
Proof.
  intros Hok Hx. destruct xs as [|x xs]; [by left|right]. apply Forall_cons in Hok as [Hok _].
  eexists _, _. split; [reflexivity|]. apply msg_header_pos; [done|]. intros ->. by apply (Hx xs).
Qed.

Lemma get_packet_pads pre k xs base : (0 < k <= 16)%nat -> Forall msg_ok xs ->
  (k = 16%nat \/ forall zs, xs <> MPad :: zs) ->
  arm_spe_get_packet (pre ++ replicate k 0 ++ msgs_encode xs) base (zlen pre) (Z.of_nat k + zlen (msgs_encode xs)) =
    Some (Z.of_nat k, msg_packet MPad).
Proof.
  intros Hk Hok Hs. pose proof (zlen_nonneg (msgs_encode xs)). unfold arm_spe_get_packet.
  assert (E : arm_spe_do_get_packet (pre ++ replicate k 0 ++ msgs_encode xs) base (zlen pre)
    (Z.of_nat k + zlen (msgs_encode xs)) = Some (1, msg_packet MPad)).
  { unfold arm_spe_do_get_packet. destruct (Z.eqb_spec (Z.of_nat k + zlen (msgs_encode xs)) 0); [lia|].
    destruct k as [|k]; [lia|]. cbn [replicate app]. rewrite (rd8_mid _ _ _ (zlen pre)) by done. reflexivity. }
  rewrite E. mred. cbn [msg_packet spe_type].
  change ((0 <? 1) && bool_decide (ARM_SPE_PAD = ARM_SPE_PAD)) with true. cbn iota.
  change 1 with (Z.of_nat 1). rewrite (spe_pad_loop_run pre k (msgs_encode xs)); [done|lia| |lia|lia].
  destruct Hs as [->|Hs]; [by left|right]. by apply msgs_first.
Qed.

Lemma spe_dump_loop_msgs fuel : forall xs pre base,
  Forall msg_ok xs -> (length xs < fuel)%nat -> zlen (msgs_encode xs) < 2 ^ 64 ->
  spe_dump_loop (pre ++ msgs_encode xs) base fuel (zlen pre) (zlen (msgs_encode xs)) = Some (spe_lines 0 xs).
Proof.
  induction fuel as [|fuel IH]; intros xs pre base Hok Hf Hl; [lia|].
  destruct (leading_pads xs 16) as (k & ys & -> & Hk & Hs). rewrite spe_lines_pads by lia. cbn [Nat.add].
  rewrite spe_lines_cut by done. rewrite msgs_encode_app, msgs_encode_pads in *.
  apply Forall_app in Hok as [_ Hok]. rewrite length_app, length_replicate in Hf.
  rewrite zlen_app in *. pose proof (zlen_nonneg (msgs_encode ys)).
  assert (Hz : zlen (replicate k 0) = Z.of_nat k) by (unfold zlen; by rewrite length_replicate).
  rewrite Hz in *. destruct k as [|k].
  - change (Z.of_nat 0) with 0 in *. rewrite Z.add_0_l in *. cbn [replicate app pad_line] in *. destruct ys as [|x ys]; [done|].
    apply Forall_cons in Hok as [Hx Hok]. cbn [length] in Hf.
    assert (Hp : x <> MPad) by (destruct Hs as [|Hs]; [done|]; intros ->; by apply (Hs ys)).
    rewrite zlen_msgs_cons in *. pose proof (zlen_nonneg (msgs_encode ys)).
    pose proof (zlen_msg_encode x) as He. cbn [spe_dump_loop].
    destruct (Z.eqb_spec (zlen (msg_encode x) + zlen (msgs_encode ys)) 0); [lia|].
    change (msgs_encode (x :: ys)) with (msg_encode x ++ msgs_encode ys).
    rewrite get_packet_msg by (done || lia). mred. cbn [fst snd].
    destruct (Z.ltb_spec 0 (zlen (msg_encode x))); [|lia].
    rewrite rdn_mid by (done || (unfold zlen; lia)). mred.
    rewrite u64_small by lia. rewrite Z.add_simpl_l, app_assoc, <- zlen_app.
    rewrite IH by (done || lia). by destruct x.
  - cbn [spe_dump_loop]. destruct (Z.eqb_spec (Z.of_nat (S k) + zlen (msgs_encode ys)) 0); [lia|].
    rewrite get_packet_pads by (done || lia). mred. cbn [fst snd].
    destruct (Z.ltb_spec 0 (Z.of_nat (S k))); [|lia].
    rewrite rdn_mid by (by rewrite Nat2Z.id, length_replicate || done). mred.
    rewrite u64_small by lia. rewrite Z.add_simpl_l, app_assoc.
    replace (zlen pre + Z.of_nat (S k)) with (zlen (pre ++ replicate (S k) 0)) by (rewrite zlen_app, Hz; lia).
    rewrite IH by (done || lia). done.
Qed.

(** C23: The dump of a trace made of well formed packets with one-byte headers (PAD,
    END, timestamp, events, data source, context, operation type, address and
    counter packets, indices and payloads in the range of their fields) shows
    exactly those packets, in order, each on a line with its own bytes, type, index
    and payload, except that PADs that follow one another share a line, at most 16
    of them; and it ends.  Packets with two-byte headers and malformed traces are
    not meant here ([arm_spe_ext_counter_payload], [arm_spe_short_overread]). *)
Theorem arm_spe_dump_stream xs base :
  Forall msg_ok xs -> zlen (msgs_encode xs) < 2 ^ 64 ->
  arm_spe_dump (msgs_encode xs) base (S (length xs)) = Some (spe_lines 0 xs).
Proof. intros Hok Hl. by apply (spe_dump_loop_msgs (S (length xs)) xs []); [|lia|]. Qed.

(** * Arbitrary traces *)

(** A decoder's result is acceptable for [len] announced bytes. *)
Definition spe_ret_ok (len : Z) (r : option (Z * arm_spe_pkt)) : Prop :=
  exists ret p, r = Some (ret, p) /\
    (ret = ARM_SPE_NEED_MORE_BYTES \/ ret = ARM_SPE_BAD_PACKET \/ 1 <= ret <= len).

Lemma spe_ret_ok_some len ret p :
  ret = ARM_SPE_NEED_MORE_BYTES \/ ret = ARM_SPE_BAD_PACKET \/ 1 <= ret <= len ->
  spe_ret_ok len (Some (ret, p)).
Proof. unfold spe_ret_ok. eauto. Qed.

Lemma alignment_ret x k : 0 <= k -> 1 <= 2 ^ k - Z.land x (2 ^ k - 1) <= 2 ^ k.
Proof.
  intros Hk. rewrite land_mask by done. pose proof (Z.mod_pos_bound x (2 ^ k)).
  assert (0 < 2 ^ k) by (apply Z.pow_pos_nonneg; lia). lia.
Qed.

Section Arbitrary.
Context (m : bytes) (base off len : Z).
Context (Hm : bytes_ok m) (Hoff : 0 <= off) (Hlen : 10 <= len) (Hend : zlen m = off + len).

Lemma payloadlen_cases b : payloadlen b = 1 \/ payloadlen b = 2 \/ payloadlen b = 4 \/ payloadlen b = 8.
Proof.
  unfold payloadlen. rewrite (Z.land_comm b), Z.shiftr_land. change (Z.shiftr 0x30 4) with (2 ^ 2 - 1).
  rewrite Z.land_comm, land_mask by lia. pose proof (Z.mod_pos_bound (Z.shiftr b 4) (2 ^ 2)).
  destruct (below4 (Z.shiftr b 4 mod 2 ^ 2)) as [-> | [-> | [-> | ->]]]; [lia|by auto..].
Qed.

Ltac spe_step :=
  match goal with
  | |- spe_ret_ok _ (Some _) =>
      apply spe_ret_ok_some; unfold ARM_SPE_NEED_MORE_BYTES, ARM_SPE_BAD_PACKET; lia
  | |- spe_ret_ok _ (mbind _ (rd_le ?b ?o ?n)) => rewrite (rd_le_in b o n) by lia; mred
  | |- spe_ret_ok _ (mbind _ (rd8 ?b ?o)) =>
      let E := fresh "E" in
      destruct (rd8_in b o) as (? & E & ?); [lia|]; rewrite E; mred
  | |- spe_ret_ok _ (if _ then _ else _) => case_test
  end.

Lemma get_payload_ok p : spe_ret_ok len (arm_spe_get_payload m off len p).
Proof using Hoff Hlen Hend.
  unfold arm_spe_get_payload. spe_step. pose proof (payloadlen_cases x).
  repeat spe_step.
Qed.

Lemma header_index_ok ext : exists idx, header_index m off ext = Some idx.
Proof using Hoff Hlen Hend.
  unfold header_index. destruct (rd8_in m off) as (b & -> & _); [lia|]. mred.
  destruct (negb (ext =? 0)); [|eauto].
  destruct (rd8_in m (off + 1)) as (b1 & -> & _); [lia|]. mred. eauto.
Qed.

Lemma get_addr_ok ext p : 0 <= ext <= 1 -> spe_ret_ok len (arm_spe_get_addr m off len ext p).
Proof using Hoff Hlen Hend.
  intros He. unfold arm_spe_get_addr. spe_step; [spe_step|].
  destruct (header_index_ok ext) as [idx ->]. mred. repeat spe_step.
Qed.

Lemma get_counter_ok ext p : 0 <= ext <= 1 -> spe_ret_ok len (arm_spe_get_counter m off len ext p).
Proof using Hoff Hlen Hend.
  intros He. unfold arm_spe_get_counter. spe_step; [spe_step|].
  destruct (header_index_ok ext) as [idx ->]. mred. repeat spe_step.
Qed.

Lemma get_events_ok p : spe_ret_ok len (arm_spe_get_events m off len p).
Proof using Hoff Hlen Hend.
  unfold arm_spe_get_events. destruct (get_payload_ok p) as (ret & p' & -> & Hr). mred.
  by apply spe_ret_ok_some.
Qed.

Lemma get_alignment_ok p : spe_ret_ok len (arm_spe_get_alignment m base off len p).
Proof using Hm Hoff Hlen Hend.
  unfold arm_spe_get_alignment. spe_step. rewrite Z.shiftl_1_l.
  assert (Hk : 0 <= Z.land x 0xf + 1).
  { change 0xf with (2 ^ 4 - 1). rewrite land_mask by lia.
    pose proof (Z.mod_pos_bound x (2 ^ 4)). lia. }
  spe_step; [spe_step|]. pose proof (alignment_ret (base + off) _ Hk). spe_step.
Qed.

Lemma spe_do_get_packet_ok : spe_ret_ok len (arm_spe_do_get_packet m base off len).
Proof using Hm Hoff Hlen Hend.
  unfold arm_spe_do_get_packet, arm_spe_get_pad, arm_spe_get_end, arm_spe_get_timestamp,
    arm_spe_get_data_source, arm_spe_get_context, arm_spe_get_op_type.
  repeat first [ apply get_payload_ok | apply get_events_ok | apply get_alignment_ok
               | apply get_addr_ok; lia | apply get_counter_ok; lia | spe_step ].
Qed.

Lemma spe_pad_loop_ok fuel ret :
  1 <= ret <= len -> exists ret', spe_pad_loop m fuel off len ret = Some ret' /\ ret <= ret' <= len.
Proof using Hm Hoff Hlen Hend.
  revert ret. induction fuel as [|fuel IH]; intros ret Hr; [exists ret; by split; [|lia]|].
  cbn [spe_pad_loop]. destruct (Z.ltb_spec ret 16); [|exists ret; by split; [|lia]].
  destruct (Z.ltb_spec ret len); [|exists ret; by split; [|lia]]. cbn [andb].
  destruct (rd8_in m (off + ret)) as (b & -> & _); [lia|]. mred.
  destruct (b =? 0); [|exists ret; by split; [|lia]].
  destruct (IH (ret + 1)) as (r & -> & Hr'); [lia|]. exists r. by split; [|lia].
Qed.

Lemma spe_get_packet_ok : spe_ret_ok len (arm_spe_get_packet m base off len).
Proof using Hm Hoff Hlen Hend.
  unfold arm_spe_get_packet. destruct spe_do_get_packet_ok as (ret & p & -> & Hr). mred.
  destruct (Z.ltb_spec 0 ret); cbn [andb]; [|by apply spe_ret_ok_some].
  case_bool_decide; [|by apply spe_ret_ok_some].
  destruct (spe_pad_loop_ok 16 ret) as (r & -> & Hr').
  { unfold ARM_SPE_NEED_MORE_BYTES, ARM_SPE_BAD_PACKET in Hr. lia. }
  mred. apply spe_ret_ok_some. unfold ARM_SPE_NEED_MORE_BYTES, ARM_SPE_BAD_PACKET in *. lia.
Qed.

End Arbitrary.

(** With at least ten bytes announced and no byte available beyond them,
    arm_spe_get_packet reads only announced bytes, whatever the trace holds and
    wherever the buffer is in memory, and returns an error or a length between
    1 and the announced length. *)
Theorem arm_spe_get_packet_safe m base off len :
  bytes_ok m -> 0 <= off -> 10 <= len -> zlen m = off + len ->
  exists ret p, arm_spe_get_packet m base off len = Some (ret, p) /\
    (ret = ARM_SPE_NEED_MORE_BYTES \/ ret = ARM_SPE_BAD_PACKET \/ 1 <= ret <= len).
Proof. apply spe_get_packet_ok. Qed.

Lemma header16_bits b :
  0x20 <= b < 0x40 -> hasf b 0xc0 = false /\ (Z.land b 0xe0 =? 0x20) = true.
Proof.
  intros Hb. assert (Hall : forallb (fun b => negb (hasf b 0xc0) && (Z.land b 0xe0 =? 0x20)) (seqZ 32 32) = true)
    by (by vm_compute).
  rewrite forallb_forall in Hall. specialize (Hall b).
  apply andb_prop in Hall as [H1 H2].
  - split; [by apply negb_true_iff|done].
  - apply list_elem_of_In, elem_of_seqZ. lia.
Qed.

(** The dispatch on the header of an address or counter packet. *)
Lemma addr_dispatch m base off len idx :
  0 <= idx < 8 -> 0 < len -> rd8 m off = Some (0xb0 + idx) ->
  arm_spe_do_get_packet m base off len = arm_spe_get_addr m off len 0 spe_zero.
Proof.
  intros Hi Hl H8. unfold arm_spe_do_get_packet. rewrite H8. mred.
  destruct (Z.eqb_spec len 0); [lia|].
  by apply below8 in Hi as [-> | [-> | [-> | [-> | [-> | [-> | [-> | ->]]]]]]].
Qed.

Lemma counter_dispatch m base off len idx :
  0 <= idx < 8 -> 0 < len -> rd8 m off = Some (0x98 + idx) ->
  arm_spe_do_get_packet m base off len = arm_spe_get_counter m off len 0 spe_zero.
Proof.
  intros Hi Hl H8. unfold arm_spe_do_get_packet. rewrite H8. mred.
  destruct (Z.eqb_spec len 0); [lia|].
  by apply below8 in Hi as [-> | [-> | [-> | [-> | [-> | [-> | [-> | ->]]]]]]].
Qed.

(** With fewer bytes the length guards are too weak: at the end of a trace
    an address packet cut to eight bytes, a counter packet cut to two bytes and
    a one-byte 16-bit header are all decoded past the end of the buffer. *)
Theorem arm_spe_short_overread m base idx b :
  (0 <= idx < 8 -> zlen m = 8 -> rd8 m 0 = Some (0xb0 + idx) -> arm_spe_get_packet m base 0 8 = None) /\
  (0 <= idx < 8 -> zlen m = 2 -> rd8 m 0 = Some (0x98 + idx) -> arm_spe_get_packet m base 0 2 = None) /\
  (0x20 <= b < 0x40 -> arm_spe_get_packet [b] base 0 1 = None).
Proof.
  split_and!.
  - intros Hi Hl H8. assert (Hn : rd_le m (0 + 1) 8 = None) by (unfold rd_le, rdn; by rewrite Hl).
    unfold arm_spe_get_packet. rewrite (addr_dispatch _ _ _ _ idx) by done.
    unfold arm_spe_get_addr, header_index. rewrite H8. mred. by rewrite Hn.
  - intros Hi Hl H8. assert (Hn : rd_le m (0 + 1) 2 = None) by (unfold rd_le, rdn; by rewrite Hl).
    unfold arm_spe_get_packet. rewrite (counter_dispatch _ _ _ _ idx) by done.
    unfold arm_spe_get_counter, header_index. rewrite H8. mred. by rewrite Hn.
  - intros Hb. destruct (header16_bits b Hb) as [H1 H2].
    unfold arm_spe_get_packet, arm_spe_do_get_packet. change (rd8 [b] 0) with (Some b).
    change (rd8 [b] (0 + 1)) with (@None Z). mred. change (1 =? 0) with false. cbv iota.
    destruct (Z.eqb_spec b SPE_HEADER0_PAD); [unfold SPE_HEADER0_PAD in *; lia|].
    destruct (Z.eqb_spec b SPE_HEADER0_END); [unfold SPE_HEADER0_END in *; lia|].
    by rewrite H1, H2.
Qed.

Lemma header16_ext_counter h1 :
  0x98 <= h1 < 0xa0 ->
  (h1 =? SPE_HEADER1_ALIGNMENT) = false /\
  (Z.land h1 SPE_HEADER1_ADDRESS_MASK =? SPE_HEADER1_ADDRESS) = false /\
  (Z.land h1 SPE_HEADER1_COUNTER_MASK =? SPE_HEADER1_COUNTER) = true.
Proof.
  intros Hb. replace h1 with (0x98 + (h1 - 0x98)) by lia.
  destruct (below8 (h1 - 0x98)) as [-> | [-> | [-> | [-> | [-> | [-> | [-> | ->]]]]]]]; by auto with lia.
Qed.

(** The payload of an extended counter packet (two header bytes) is read
    one byte too early: the decoder reports the second header byte and the low
    payload byte as the counter value instead of the two payload bytes. *)
Theorem arm_spe_ext_counter_payload h0 h1 lo hi post base len :
  0x20 <= h0 < 0x40 -> 0x98 <= h1 < 0xa0 -> 4 <= len ->
  exists idx, arm_spe_get_packet (h0 :: h1 :: lo :: hi :: post) base 0 len =
    Some (4, SpePkt ARM_SPE_COUNTER idx (h1 + 256 * lo)).
Proof.
  intros H0 H1 Hlen. destruct (header16_bits h0 H0) as [Ha Hb].
  destruct (header16_ext_counter h1 H1) as (Hc & Hd & He).
  unfold arm_spe_get_packet, arm_spe_do_get_packet.
  set (m := h0 :: _). change (rd8 m 0) with (Some h0). change (rd8 m (0 + 1)) with (Some h1). mred.
  destruct (Z.eqb_spec len 0); [lia|].
  destruct (Z.eqb_spec h0 SPE_HEADER0_PAD); [unfold SPE_HEADER0_PAD in *; lia|].
  destruct (Z.eqb_spec h0 SPE_HEADER0_END); [unfold SPE_HEADER0_END in *; lia|].
  rewrite Ha, Hb, Hc, Hd, He. unfold arm_spe_get_counter.
  destruct (Z.ltb_spec len 2); [lia|]. unfold header_index.
  change (rd8 m 0) with (Some h0). change (rd8 m (0 + 1)) with (Some h1). mred. cbn [negb Z.eqb].
  rewrite rd_le_in by (unfold m; rewrite ?zlen_cons; pose proof (zlen_nonneg post); lia). mred.
  assert (Hv : le_val (take 2 (drop (Z.to_nat (0 + 1)) m)) = h1 + 256 * lo) 
    by (unfold m; change (Z.to_nat (0 + 1)) with 1%nat; cbn; lia).
  rewrite Hv. eexists. reflexivity.
Qed.

(** * Packet descriptions *)

(** Texts are byte strings. *)
Fixpoint str (s : string) : bytes :=
  match s with
  | EmptyString => []
  | String c s => Z.of_N (Ascii.N_of_ascii c) :: str s
  end.

Definition digit (d : Z) : Z := if d <? 10 then 48 + d else 87 + d.

Fixpoint digits (b : Z) (fuel : nat) (z : Z) (acc : bytes) : bytes :=
  match fuel with
  | O => acc
  | S fuel =>
      let acc := digit (z mod b) :: acc in
      if z / b =? 0 then acc else digits b fuel (z / b) acc
  end.

(** [%d], [%lld] and [%llx]: a 64-bit number has at most 20 decimal and 16
    hexadecimal digits. *)
Definition fmt_d (z : Z) : bytes := if z <? 0 then 45 :: digits 10 20 (- z) [] else digits 10 20 z [].
Definition fmt_x (z : Z) : bytes := digits 16 16 z [].

(** snprintf of an already formatted text: at most [n] bytes are stored,
    terminator included; the length of the whole text is returned. *)
Definition snprintf (m : bytes) (buf n : Z) (text : bytes) : option (bytes * Z) :=
  if n =? 0 then Some (m, zlen text) else
  m ← wrn m buf (take (Z.to_nat (n - 1)) text ++ [0]); Some (m, zlen text).

(** The buffer, the pointer [buf], [blen] and [ret]. *)
Record desc_st := DescSt { d_mem : bytes; d_buf : Z; d_blen : Z; d_ret : Z }.

(** [ret = snprintf(buf, buf_len, text); buf += ret; blen -= ret;] *)
Definition emit (buf_len : Z) (text : bytes) (d : desc_st) : option desc_st :=
  '(m, ret) ← snprintf (d_mem d) (d_buf d) buf_len text;
  Some (DescSt m (d_buf d + ret) (d_blen d -64 ret) ret).

Definition emit_if (c : bool) (buf_len : Z) (text : bytes) (d : desc_st) : option desc_st :=
  if c then emit buf_len text d else Some d.

(** [if (ret < 0) return ret; blen -= ret; return buf_len - blen;] *)
Definition desc_end (buf_len : Z) (d : desc_st) : option (bytes * Z) :=
  if d_ret d <? 0 then Some (d_mem d, d_ret d) else
  let blen := d_blen d -64 d_ret d in
  Some (d_mem d, sint 32 (buf_len -64 blen)).

Definition arm_spe_pkt_name (t : arm_spe_pkt_type) : option string :=
  match t with
  | ARM_SPE_BAD => None
  | ARM_SPE_PAD => Some "PAD"
  | ARM_SPE_END => Some "END"
  | ARM_SPE_TIMESTAMP => Some "TS"
  | ARM_SPE_ADDRESS => Some "ADDR"
  | ARM_SPE_COUNTER => Some "LAT"
  | ARM_SPE_CONTEXT => Some "CONTEXT"
  | ARM_SPE_OP_TYPE => Some "OP-TYPE"
  | ARM_SPE_EVENTS => Some "EVENTS"
  | ARM_SPE_DATA_SOURCE => Some "DATA-SOURCE"
  end%string.

Definition NS_FLAG : Z := 2 ^ 63.
Definition EL_FLAG : Z := Z.lor (2 ^ 62) (2 ^ 61).

Definition b2d (b : bool) : Z := if b then 1 else 0.

(** The address without its top byte: [payload &= ~(0xffULL << 56)]. *)
Definition low56 (payload : Z) : Z := Z.land payload (Z.lnot (Z.shiftl 0xff 56)).

Definition arm_spe_pkt_desc (p : arm_spe_pkt) (m : bytes) (buf_len : Z) : option (bytes * Z) :=
  let payload := spe_payload p in
  let idx := spe_index p in
  let print := fun text => snprintf m 0 buf_len text in
  let start := DescSt m 0 buf_len 0 in
  name ← (str <$> arm_spe_pkt_name (spe_type p));
  match spe_type p with
  | ARM_SPE_BAD | ARM_SPE_PAD | ARM_SPE_END => print name
  | ARM_SPE_EVENTS =>
      d ← emit buf_len (str "EV") start;
      d ← emit_if (hasf payload 0x1) buf_len (str " EXCEPTION-GEN") d;
      d ← emit_if (hasf payload 0x2) buf_len (str " RETIRED") d;
      d ← emit_if (hasf payload 0x4) buf_len (str " L1D-ACCESS") d;
      d ← emit_if (hasf payload 0x8) buf_len (str " L1D-REFILL") d;
      d ← emit_if (hasf payload 0x10) buf_len (str " TLB-ACCESS") d;
      d ← emit_if (hasf payload 0x20) buf_len (str " TLB-REFILL") d;
      d ← emit_if (hasf payload 0x40) buf_len (str " NOT-TAKEN") d;
      d ← emit_if (hasf payload 0x80) buf_len (str " MISPRED") d;
      d ← emit_if ((1 <? idx) && hasf payload 0x100) buf_len (str " LLC-ACCESS") d;
      d ← emit_if ((1 <? idx) && hasf payload 0x200) buf_len (str " LLC-REFILL") d;
      d ← emit_if ((1 <? idx) && hasf payload 0x400) buf_len (str " REMOTE-ACCESS") d;
      desc_end buf_len d
  | ARM_SPE_OP_TYPE =>
      if idx =? 0 then print (if hasf payload 0x1 then str "COND-SELECT" else str "INSN-OTHER")
      else if idx =? 1 then
        d ← emit buf_len (if hasf payload 0x1 then str "ST" else str "LD") start;
        if hasf payload 0x2 then
          d ← emit_if (hasf payload 0x4) buf_len (str " AT") d;
          d ← emit_if (hasf payload 0x8) buf_len (str " EXCL") d;
          d ← emit_if (hasf payload 0x10) buf_len (str " AR") d;
          desc_end buf_len d
        else
          d ← emit_if (hasf payload 0x4) buf_len (str " SIMD-FP") d;
          desc_end buf_len d
      else if idx =? 2 then
        d ← emit buf_len (str "B") start;
        d ← emit_if (hasf payload 0x1) buf_len (str " COND") d;
        d ← emit_if (hasf payload 0x2) buf_len (str " IND") d;
        desc_end buf_len d
      else Some (m, 0)
  | ARM_SPE_DATA_SOURCE | ARM_SPE_TIMESTAMP =>
      print (name ++ str " " ++ fmt_d (sint 64 payload))
  | ARM_SPE_ADDRESS =>
      let ns := b2d (hasf payload NS_FLAG) in
      let el := Z.shiftr (Z.land payload EL_FLAG) 61 in
      if (idx =? 0) || (idx =? 1) then
        print (str (if idx =? 1 then "TGT" else "PC") ++ str " 0x" ++ fmt_x (low56 payload) ++
               str " el" ++ fmt_d el ++ str " ns=" ++ fmt_d ns)
      else if idx =? 2 then print (str "VA 0x" ++ fmt_x payload)
      else if idx =? 3 then
        print (str "PA 0x" ++ fmt_x (low56 payload) ++ str " ns=" ++ fmt_d ns)
      else Some (m, 0)
  | ARM_SPE_CONTEXT =>
      print (name ++ str " 0x" ++ fmt_x payload ++ str " el" ++ fmt_d (idx + 1))
  | ARM_SPE_COUNTER =>
      d ← emit buf_len (name ++ str " " ++ fmt_d (u16 payload) ++ str " ") start;
      d ← (if idx =? 0 then '(m, ret) ← snprintf (d_mem d) (d_buf d) buf_len (str "TOT");
                            Some (DescSt m (d_buf d) (d_blen d) ret)
           else if idx =? 1 then '(m, ret) ← snprintf (d_mem d) (d_buf d) buf_len (str "ISSUE");
                            Some (DescSt m (d_buf d) (d_blen d) ret)
           else if idx =? 2 then '(m, ret) ← snprintf (d_mem d) (d_buf d) buf_len (str "XLAT");
                            Some (DescSt m (d_buf d) (d_blen d) ret)
           else Some (DescSt (d_mem d) (d_buf d) (d_blen d) 0));
      desc_end buf_len d
  end.

(** ** What a description says *)

Definition when (c : bool) (s : string) : list bytes := if c then [str s] else [].

(** A run of conditional pieces. *)
Definition conds_pieces (l : list (bool * string)) : list bytes :=
  List.concat ((fun cs => when (fst cs) (snd cs)) <$> l).

(** The pieces of the text of a packet; [None] when nothing is written. *)
Definition desc_pieces (p : arm_spe_pkt) : option (list bytes) :=
  let v := spe_payload p in
  let idx := spe_index p in
  let bit := Z.testbit v in
  match spe_type p with
  | ARM_SPE_BAD => None
  | ARM_SPE_PAD => Some [str "PAD"]
  | ARM_SPE_END => Some [str "END"]
  | ARM_SPE_TIMESTAMP => Some [str "TS " ++ fmt_d (sint 64 v)]
  | ARM_SPE_DATA_SOURCE => Some [str "DATA-SOURCE " ++ fmt_d (sint 64 v)]
  | ARM_SPE_CONTEXT => Some [str "CONTEXT 0x" ++ fmt_x v ++ str " el" ++ fmt_d (idx + 1)]
  | ARM_SPE_EVENTS =>
      Some (str "EV" :: conds_pieces
        [(bit 0, " EXCEPTION-GEN"); (bit 1, " RETIRED"); (bit 2, " L1D-ACCESS");
         (bit 3, " L1D-REFILL"); (bit 4, " TLB-ACCESS"); (bit 5, " TLB-REFILL");
         (bit 6, " NOT-TAKEN"); (bit 7, " MISPRED"); ((1 <? idx)%Z && bit 8, " LLC-ACCESS");
         ((1 <? idx)%Z && bit 9, " LLC-REFILL"); ((1 <? idx)%Z && bit 10, " REMOTE-ACCESS")]%string)
  | ARM_SPE_OP_TYPE =>
      if idx =? 0 then Some [str (if bit 0 then "COND-SELECT" else "INSN-OTHER")]
      else if idx =? 1 then
        Some (str (if bit 0 then "ST" else "LD") :: conds_pieces
          [(bit 1 && bit 2, " AT"); (bit 1 && bit 3, " EXCL"); (bit 1 && bit 4, " AR");
           (negb (bit 1) && bit 2, " SIMD-FP")]%string)
      else if idx =? 2 then 
        Some (str "B" :: conds_pieces [(bit 0, " COND"); (bit 1, " IND")]%string)
      else None
  | ARM_SPE_ADDRESS =>
      let ns := str " ns=" ++ fmt_d (b2d (bit 63)) in
      if idx <? 2 then
        Some [str (if idx =? 1 then "TGT" else "PC") ++ str " 0x" ++ fmt_x (low56 v) ++
              str " el" ++ fmt_d (Z.shiftr (Z.land v EL_FLAG) 61) ++ ns]
      else if idx =? 2 then Some [str "VA 0x" ++ fmt_x v]
      else if idx =? 3 then Some [str "PA 0x" ++ fmt_x (low56 v) ++ ns]
      else None
  | ARM_SPE_COUNTER =>
      Some ((str "LAT " ++ fmt_d (u16 v) ++ str " ") ::
        conds_pieces [((idx =? 0)%Z, "TOT"); ((idx =? 1)%Z, "ISSUE"); ((idx =? 2)%Z, "XLAT")]%string)
  end.

(** The branches of arm_spe_pkt_desc that subtract the last length twice. *)
Definition counts_last_twice (p : arm_spe_pkt) : bool :=
  match spe_type p with
  | ARM_SPE_EVENTS => true
  | ARM_SPE_OP_TYPE => (spe_index p =? 1) || (spe_index p =? 2)
  | _ => false
  end.

Definition desc_ret (p : arm_spe_pkt) (pieces : list bytes) : Z :=
  zlen (List.concat pieces) +
  (if counts_last_twice p then zlen (default [] (last pieces)) else 0).

(** The buffer holds the C string [t]. *)
Definition holds_text (m t : bytes) : Prop := zlen m = 256 /\ exists rest, m = t ++ 0 :: rest.

Lemma snprintf_ok pre post s :
  zlen (pre ++ post) = 256 -> zlen pre + zlen s < 256 ->
  exists m', snprintf (pre ++ post) (zlen pre) 256 s = Some (m', zlen s) /\ holds_text m' (pre ++ s).
Proof.
  intros Hz Hs. unfold snprintf. change (256 =? 0) with false. cbv iota.
  rewrite zlen_app in Hz. pose proof (zlen_nonneg pre). pose proof (zlen_nonneg s).
  rewrite take_ge by (unfold zlen in *; lia).
  rewrite wrn_app by (try done; rewrite zlen_app; change (zlen [0]) with 1; lia). mred.
  eexists. split; [reflexivity|]. split.
  - rewrite !zlen_app. change (zlen [0]) with 1. unfold zlen in *.
    rewrite length_drop, length_app. cbn [length]. lia.
  - exists (drop (length (s ++ [0])) post). by rewrite <- !app_assoc.
Qed.

(** [d] has written the pieces [ps]. *)
Record wrote (ps : list bytes) (d : desc_st) : Prop := {
  wr_text : holds_text (d_mem d) (List.concat ps);
  wr_buf : d_buf d = zlen (List.concat ps);
  wr_blen : d_blen d = 256 - zlen (List.concat ps);
  wr_ret : d_ret d = zlen (default [] (last ps))
}.

Lemma concat_snoc {A} (ps : list (list A)) s : List.concat (ps ++ [s]) = List.concat ps ++ s.
Proof. rewrite concat_app. cbn. by rewrite app_nil_r. Qed.

Lemma emit_ok ps d s :
  wrote ps d -> zlen (List.concat ps) + zlen s < 256 ->
  exists d', emit 256 s d = Some d' /\ wrote (ps ++ [s]) d'.
Proof.
  intros [[Hz [rest Hm]] Hb Hl _] Hs. unfold emit. rewrite Hb, Hm in *.
  destruct (snprintf_ok (List.concat ps) (0 :: rest) s Hz Hs) as (m' & -> & Ht). mred.
  eexists. split; [reflexivity|]. pose proof (zlen_nonneg (List.concat ps)). pose proof (zlen_nonneg s).
  split; cbn [d_mem d_buf d_blen d_ret]; rewrite ?concat_snoc, ?zlen_app; try done.
  - rewrite Hl, u64_small; lia.
  - by rewrite last_snoc.
Qed.

Lemma emit_first m s :
  zlen m = 256 -> zlen s < 256 -> exists d, emit 256 s (DescSt m 0 256 0) = Some d /\ wrote [s] d.
Proof.
  intros Hz Hs. unfold emit. cbn [d_mem d_buf d_blen].
  change (snprintf m 0 256 s) with (snprintf ([] ++ m) (zlen (@nil Z)) 256 s).
  destruct (snprintf_ok [] m s Hz Hs) as (m' & -> & Ht). mred. eexists. split; [reflexivity|].
  pose proof (zlen_nonneg s).
  split; cbn [d_mem d_buf d_blen d_ret List.concat last default]; rewrite ?app_nil_r; try done.
  rewrite u64_small; lia.
Qed.

Fixpoint emit_all {A} (l : list (bool * string)) (d : desc_st) (k : desc_st -> option A) : option A :=
  match l with
  | [] => k d
  | (c, s) :: l => d ← emit_if c 256 (str s) d; emit_all l d k
  end.

Fixpoint conds_len (l : list (bool * string)) : Z :=
  match l with [] => 0 | (_, s) :: l => zlen (str s) + conds_len l end.

Lemma conds_len_nonneg l : 0 <= conds_len l.
Proof. induction l as [|[c s] l IH]; cbn; [lia|]. pose proof (zlen_nonneg (str s)). lia. Qed.

Lemma emit_all_ok {A} l (k : desc_st -> option A) : forall ps d,
  wrote ps d -> zlen (List.concat ps) + conds_len l < 256 ->
  exists d', wrote (ps ++ conds_pieces l) d' /\ emit_all l d k = k d'.
Proof.
  induction l as [|[c s] l IH]; intros ps d Hw Hs.
  - exists d. split; [|done]. unfold conds_pieces. cbn. by rewrite app_nil_r.
  - cbn [emit_all conds_len] in *. pose proof (zlen_nonneg (str s)). pose proof (conds_len_nonneg l).
    unfold conds_pieces. rewrite fmap_cons. cbn [List.concat fst snd]. fold (conds_pieces l).
    destruct c; cbn [emit_if when].
    + destruct (emit_ok ps d (str s) Hw) as (d1 & -> & Hw1); [lia|]. mred.
      destruct (IH (ps ++ [str s]) d1 Hw1) as (d' & Hw' & ->).
      { rewrite concat_snoc, zlen_app. lia. }
      exists d'. by rewrite <- app_assoc in Hw'.
    + mred. destruct (IH ps d Hw) as (d' & Hw' & ->); [lia|]. by exists d'.
Qed.

Lemma last_piece_le (ps : list bytes) : zlen (default [] (last ps)) <= zlen (List.concat ps).
Proof.
  destruct ps as [|s ps _] using rev_ind; [done|].
  rewrite last_snoc, concat_snoc, zlen_app. cbn. pose proof (zlen_nonneg (List.concat ps)). lia.
Qed.

Lemma desc_end_ok ps d :
  wrote ps d -> 2 * zlen (List.concat ps) < 256 ->
  exists m', desc_end 256 d = Some (m', zlen (List.concat ps) + zlen (default [] (last ps))) /\
    holds_text m' (List.concat ps).
Proof.
  intros [Ht _ Hl Hr] Hs. pose proof (last_piece_le ps) as Hle. exists (d_mem d). split; [|done]. unfold desc_end. rewrite Hr, Hl.
  pose proof (zlen_nonneg (default [] (last ps))). pose proof (zlen_nonneg (List.concat ps)).
  destruct (Z.ltb_spec (zlen (default [] (last ps))) 0); [lia|].
  rewrite (u64_small (256 - _ - _)) by lia. rewrite u64_small by lia. rewrite sint32_small by lia.
  do 2 f_equal. lia.
Qed.

Lemma digits_len b fuel : forall z acc, zlen (digits b fuel z acc) <= Z.of_nat fuel + zlen acc.
Proof.
  induction fuel as [|fuel IH]; intros z acc; cbn [digits]; [lia|].
  case_test; [rewrite zlen_cons; lia|]. specialize (IH (z / b) (digit (z mod b) :: acc)).
  rewrite zlen_cons in IH. lia.
Qed.

Lemma fmt_d_len z : zlen (fmt_d z) <= 21.
Proof.
  unfold fmt_d. case_test; [rewrite zlen_cons|];
    match goal with |- context [digits 10 20 ?x []] => pose proof (digits_len 10 20 x []) as Hd end;
    change (zlen (@nil Z)) with 0 in Hd; lia.
Qed.

Lemma fmt_x_len z : zlen (fmt_x z) <= 16.
Proof.
  unfold fmt_x. pose proof (digits_len 16 16 z []) as Hd. change (zlen (@nil Z)) with 0 in Hd. lia.
Qed.

Lemma zlen_concat_conds l : zlen (List.concat (conds_pieces l)) <= conds_len l.
Proof.
  induction l as [|[c s] l IH]; [done|]. unfold conds_pieces. rewrite fmap_cons.
  cbn [List.concat fst snd conds_len]. fold (conds_pieces l). rewrite concat_app, zlen_app.
  pose proof (zlen_nonneg (str s)). destruct c; cbn [when List.concat];
    rewrite ?app_nil_r, ?zlen_nil; lia.
Qed.

(** A composite description: a first piece and conditional pieces. *)
Lemma composite_ok m first l :
  zlen m = 256 -> 2 * (zlen first + conds_len l) < 256 ->
  exists m', (d ← emit 256 first (DescSt m 0 256 0); emit_all l d (desc_end 256)) =
    Some (m', zlen (List.concat (first :: conds_pieces l)) +
              zlen (default [] (last (first :: conds_pieces l)))) /\
    holds_text m' (List.concat (first :: conds_pieces l)).
Proof.
  intros Hm Hs. pose proof (zlen_nonneg first). pose proof (conds_len_nonneg l).
  destruct (emit_first m first Hm) as (d & -> & Hw); [lia|]. mred.
  destruct (emit_all_ok l (desc_end 256) [first] d Hw) as (d' & Hw' & ->).
  { cbn [List.concat]. rewrite app_nil_r. lia. }
  apply (desc_end_ok (first :: conds_pieces l) d'); [done|].
  cbn [List.concat]. rewrite zlen_app. pose proof (zlen_concat_conds l). lia.
Qed.

Lemma print_ok m s :
  zlen m = 256 -> zlen s < 256 ->
  exists m', snprintf m 0 256 s = Some (m', zlen (List.concat [s]) + 0) /\
    holds_text m' (List.concat [s]).
Proof.
  intros Hm Hs. change (snprintf m 0 256 s) with (snprintf ([] ++ m) (zlen (@nil Z)) 256 s).
  destruct (snprintf_ok [] m s Hm Hs) as (m' & -> & Ht). exists m'.
  cbn [List.concat]. by rewrite app_nil_r, Z.add_0_r.
Qed.

(** Lengths of texts made of literals and numbers. *)
Ltac text_len :=
  rewrite ?zlen_app;
  repeat match goal with
  | |- context [zlen (str ?s)] => let n := eval vm_compute in (zlen (str s)) in change (zlen (str s)) with n
  | |- context [zlen (fmt_d ?z)] => let H := fresh in pose proof (fmt_d_len z) as H; revert H; generalize (zlen (fmt_d z)); intros ? H
  | |- context [zlen (fmt_x ?z)] => let H := fresh in pose proof (fmt_x_len z) as H; revert H; generalize (zlen (fmt_x z)); intros ? H
  end; lia.

(** Masks with one bit as bit tests. *)
Ltac mask_bits v :=
  repeat match goal with
  | |- context [hasf v ?k] =>
      let n := eval vm_compute in (Z.log2 k) in
      change (hasf v k) with (hasf v (2 ^ n)); rewrite (hasf_pow2 v n) by done
  end.

(** [arm_spe_pkt_desc] does what [desc_pieces] says. *)
Definition desc_good (p : arm_spe_pkt) (m : bytes) : Prop :=
  match desc_pieces p with
  | Some ps => exists m', arm_spe_pkt_desc p m 256 = Some (m', desc_ret p ps) /\
                 holds_text m' (List.concat ps)
  | None => arm_spe_pkt_desc p m 256 = Some (m, 0)
  end.

Ltac desc_unfold :=
  unfold desc_good, desc_ret, counts_last_twice, desc_pieces, arm_spe_pkt_desc;
  cbn [spe_type spe_index spe_payload arm_spe_pkt_name fmap option_fmap option_map]; mred.

Lemma desc_address_ok idx v m :
  zlen m = 256 -> 0 <= idx -> desc_good (SpePkt ARM_SPE_ADDRESS idx v) m.
Proof.
  intros Hm Hi. desc_unfold. mask_bits v.
  destruct (Z.ltb_spec idx 2).
  - replace ((idx =? 0) || (idx =? 1)) with true
      by (destruct (Z.eqb_spec idx 0), (Z.eqb_spec idx 1); done || lia).
    apply print_ok; [done|]. destruct (idx =? 1); text_len.
  - replace ((idx =? 0) || (idx =? 1)) with false
      by (destruct (Z.eqb_spec idx 0), (Z.eqb_spec idx 1); done || lia).
    destruct (idx =? 2); [apply print_ok; [done|text_len]|].
    destruct (idx =? 3); [apply print_ok; [done|text_len]|done].
Qed.

Lemma desc_op_type_ok idx v m :
  zlen m = 256 -> desc_good (SpePkt ARM_SPE_OP_TYPE idx v) m.
Proof.
  intros Hm. desc_unfold. mask_bits v.
  destruct (Z.eqb_spec idx 0) as [->|].
  { destruct (Z.testbit v 0); by apply print_ok. }
  destruct (Z.eqb_spec idx 1) as [->|].
  { match goal with |- exists m', _ = Some (m', zlen (List.concat (?a :: conds_pieces ?l)) + _) /\ _ =>
      destruct (composite_ok m a l Hm) as (m' & Hd & Ht) end.
    - by destruct (Z.testbit v 0).
    - exists m'. split; [|exact Ht]. etransitivity; [|exact Hd].
      by destruct (Z.testbit v 0), (Z.testbit v 1). }
  destruct (Z.eqb_spec idx 2) as [->|]; [|done].
  match goal with |- exists m', _ = Some (m', zlen (List.concat (?a :: conds_pieces ?l)) + _) /\ _ =>
      exact (composite_ok m a l Hm eq_refl) end.
Qed.

Lemma desc_events_ok idx v m :
  zlen m = 256 -> desc_good (SpePkt ARM_SPE_EVENTS idx v) m.
Proof.
  intros Hm. desc_unfold. mask_bits v.
  match goal with |- exists m', _ = Some (m', zlen (List.concat (?a :: conds_pieces ?l)) + _) /\ _ =>
      exact (composite_ok m a l Hm eq_refl) end.
Qed.

Lemma desc_counter_ok idx v m :
  zlen m = 256 -> desc_good (SpePkt ARM_SPE_COUNTER idx v) m.
Proof.
  intros Hm. desc_unfold.
  change (str "LAT" ++ str " " ++ fmt_d (u16 v) ++ str " ") with (str "LAT " ++ fmt_d (u16 v) ++ str " ").
  set (a := str "LAT " ++ fmt_d (u16 v) ++ str " ").
  assert (Ha : zlen a < 30) by (unfold a; text_len).
  destruct (emit_first m a Hm) as (d & -> & [[Hz [rest Ht]] Hb Hl Hr]); [lia|]. mred.
  cbn [List.concat] in *. rewrite app_nil_r in *.
  assert (Hunit : forall s, zlen (str s) < 10 ->
    exists m', (d ← ('(m, ret) ← snprintf (d_mem d) (d_buf d) 256 (str s);
                      Some (DescSt m (d_buf d) (d_blen d) ret)); desc_end 256 d) =
         Some (m', zlen (a ++ str s) + 0) /\
       holds_text m' (a ++ str s)).
  { intros s Hs. rewrite Hb, Ht in *. pose proof (zlen_nonneg a). pose proof (zlen_nonneg (str s)).
    destruct (snprintf_ok a (0 :: rest) (str s) Hz) as (m' & -> & Hh); [lia|]. mred. exists m'.
    split; [|done]. unfold desc_end. cbn [d_ret d_blen d_mem]. case_test; [lia|].
    rewrite Hl, (u64_small (256 - _ - _)), u64_small by lia. rewrite sint32_small by lia.
    rewrite zlen_app. do 2 f_equal. lia. }
  destruct (Z.eqb_spec idx 0) as [->|]; [exact (Hunit "TOT"%string eq_refl)|].
  destruct (Z.eqb_spec idx 1) as [->|]; [exact (Hunit "ISSUE"%string eq_refl)|].
  destruct (Z.eqb_spec idx 2) as [->|]; [exact (Hunit "XLAT"%string eq_refl)|].
  mred. exists (d_mem d). unfold desc_end. cbn [d_ret d_blen d_mem Z.ltb]. pose proof (zlen_nonneg a).
  rewrite Hl. change (0 <? 0) with false. cbv iota.
  rewrite (u64_small (256 - _ - _)), u64_small by lia. rewrite sint32_small by lia.
  change (List.concat (conds_pieces [(false, "TOT"); (false, "ISSUE"); (false, "XLAT")]%string)) with (@nil Z).
  rewrite app_nil_r. split; [do 2 f_equal; lia|]. split; [done|]. by exists rest.
Qed.

(** arm_spe_pkt_desc never writes outside the 256-byte buffer it is given
    and leaves in it the C string that names the packet's type, index, flags
    and payload; for an index the decoder does not know it writes nothing and
    returns 0.  Its return value is the length of the text, except for event
    and load/store/branch packets, where the length of the last piece is
    counted twice. *)
Theorem arm_spe_pkt_desc_text p m :
  zlen m = ARM_SPE_PKT_DESC_MAX -> spe_type p <> ARM_SPE_BAD -> 0 <= spe_index p ->
  match desc_pieces p with
  | Some ps => exists m', arm_spe_pkt_desc p m ARM_SPE_PKT_DESC_MAX = Some (m', desc_ret p ps) /\
                 holds_text m' (List.concat ps)
  | None => arm_spe_pkt_desc p m ARM_SPE_PKT_DESC_MAX = Some (m, 0)
  end.
Proof.
  intros Hm Hb Hi. change ARM_SPE_PKT_DESC_MAX with 256 in *. destruct p as [t idx v].
  fold (desc_good (SpePkt t idx v) m). cbn [spe_type spe_index] in *.
  destruct t; try done;
    auto using desc_address_ok, desc_op_type_ok, desc_events_ok, desc_counter_ok;
    desc_unfold; apply print_ok; done || text_len.
Qed.

(** * Concrete instances *)

Module ArmSpeExamples.

Definition some_msgs : list spe_msg :=
  replicate 19 MPad ++ [MTimestamp 123456789; MContext 1 0x42; MPad; MPad; MEvents 1 0x102; MAddr 2 0xffff000012345678;
   MCounter 0 300; MOpType 2 3; MSource 0 7; MEnd].

Ltac msg_side := vm_compute; repeat split; discriminate || reflexivity.

Lemma some_msgs_ok : Forall msg_ok some_msgs.
Proof. repeat (apply Forall_cons; split; [msg_side|]). apply Forall_nil. exact I. Qed.

Lemma arm_spe_dump_stream_witness :
  arm_spe_dump (msgs_encode some_msgs) 0x1000 (S (length some_msgs)) = Some (spe_lines 0 some_msgs) /\
  fst <$> take 3 (spe_lines 0 some_msgs) = [replicate 16 0; replicate 3 0; msg_encode (MTimestamp 123456789)].
Proof. split; [apply arm_spe_dump_stream; [exact some_msgs_ok|reflexivity]|reflexivity]. Defined.

Lemma arm_spe_get_packet_safe_witness :
  exists ret p, arm_spe_get_packet (0x20 :: replicate 15 0) 0x1001 0 16 = Some (ret, p) /\
    (ret = ARM_SPE_NEED_MORE_BYTES \/ ret = ARM_SPE_BAD_PACKET \/ 1 <= ret <= 16).
Proof.
  apply arm_spe_get_packet_safe; [|discriminate|discriminate|reflexivity].
  apply Forall_cons. split; [split; [discriminate|reflexivity]|].
  apply Forall_replicate. split; [discriminate|reflexivity].
Defined.

Lemma arm_spe_short_overread_witness :
  arm_spe_get_packet (0xb2 :: replicate 7 1) 0 0 8 = None /\
  arm_spe_get_packet [0x9a; 1] 0 0 2 = None /\ arm_spe_get_packet [0x20] 0 0 1 = None.
Proof.
  split_and!.
  - apply (arm_spe_short_overread (0xb2 :: replicate 7 1) 0 2 0x20); [lia|reflexivity..].
  - apply (arm_spe_short_overread [0x9a; 1] 0 2 0x20); [lia|reflexivity..].
  - apply (arm_spe_short_overread [] 0 2 0x20). lia.
Defined.

Lemma arm_spe_ext_counter_payload_witness :
  exists idx, arm_spe_get_packet [0x20; 0x99; 1; 2] 0 0 4 = Some (4, SpePkt ARM_SPE_COUNTER idx (0x99 + 256 * 1)).
Proof. apply (arm_spe_ext_counter_payload 0x20 0x99 1 2 []); lia. Defined.

Definition mispredicted : arm_spe_pkt := SpePkt ARM_SPE_EVENTS 1 0x82.

Lemma arm_spe_pkt_desc_text_witness :
  exists m', arm_spe_pkt_desc mispredicted (replicate 256 7) 256 = Some (m', 26) /\
    holds_text m' (str "EV RETIRED MISPRED").
Proof.
  apply (arm_spe_pkt_desc_text mispredicted (replicate 256 7)); [reflexivity|discriminate|discriminate].
Defined.

End ArmSpeExamples.
