(* ===== verification/Mmap.v ===== *)
(** Model of the ring buffer reader of util/mmap.c and util/mmap.h:
    perf_mmap__read, perf_mmap__read_event, perf_mmap__read_init,
    overwrite_rb_find_range, perf_mmap__push, perf_mmap__consume,
    perf_mmap__read_done and the reference counting of a map.

    The control page is the field [km_tail] (what the tool last wrote as tail)
    and one argument per read of the kernel's head: the kernel may move its head
    between two reads of one function, so every perf_mmap__read_head is its own
    argument, in program order.  [None] is an access outside the mapped memory
    or a BUG_ON. *)

From S2P Require Import Prelude.

(** * Data *)

Definition PERF_SAMPLE_MAX_SIZE : Z := 65536.
Definition EAGAIN : Z := 11.
Definition ENOENT : Z := 2.
Definition EINVAL : Z := 22.
Definition sizeof_event_header : Z := 8.

(** sizeof(union perf_event): its largest member is struct mmap2_event, 72 bytes
    and a file name of PATH_MAX bytes. *)
Definition sizeof_perf_event : Z := 72 + 4096.

(** [mm_data] is the data area after the control page ([None]: not mapped). *)
Record perf_mmap := Mmap {
  mm_data : option bytes;
  mm_mask : Z;
  mm_refcnt : Z;
  mm_prev : Z;
  mm_start : Z;
  mm_end : Z;
  mm_overwrite : bool;
  mm_aux_base : bool;
  mm_event_copy : bytes;
  km_tail : Z
}.

Definition set_range (m : perf_mmap) (s e : Z) : perf_mmap :=
  Mmap (mm_data m) (mm_mask m) (mm_refcnt m) (mm_prev m) s e (mm_overwrite m)
    (mm_aux_base m) (mm_event_copy m) (km_tail m).
Definition set_start (m : perf_mmap) (s : Z) : perf_mmap := set_range m s (mm_end m).
Definition set_end (m : perf_mmap) (e : Z) : perf_mmap := set_range m (mm_start m) e.
Definition set_prev (m : perf_mmap) (p : Z) : perf_mmap :=
  Mmap (mm_data m) (mm_mask m) (mm_refcnt m) p (mm_start m) (mm_end m) (mm_overwrite m)
    (mm_aux_base m) (mm_event_copy m) (km_tail m).
Definition set_refcnt (m : perf_mmap) (r : Z) : perf_mmap :=
  Mmap (mm_data m) (mm_mask m) r (mm_prev m) (mm_start m) (mm_end m) (mm_overwrite m)
    (mm_aux_base m) (mm_event_copy m) (km_tail m).
Definition set_event_copy (m : perf_mmap) (c : bytes) : perf_mmap :=
  Mmap (mm_data m) (mm_mask m) (mm_refcnt m) (mm_prev m) (mm_start m) (mm_end m)
    (mm_overwrite m) (mm_aux_base m) c (km_tail m).

(** * Reference counting *)

Definition perf_mmap__write_tail (m : perf_mmap) (tail : Z) : perf_mmap :=
  Mmap (mm_data m) (mm_mask m) (mm_refcnt m) (mm_prev m) (mm_start m) (mm_end m)
    (mm_overwrite m) (mm_aux_base m) (mm_event_copy m) tail.

Definition perf_mmap__munmap (m : perf_mmap) : perf_mmap :=
  match mm_data m with
  | Some _ => Mmap None (mm_mask m) 0 (mm_prev m) (mm_start m) (mm_end m) (mm_overwrite m)
                false (mm_event_copy m) (km_tail m)
  | None => Mmap None (mm_mask m) (mm_refcnt m) (mm_prev m) (mm_start m) (mm_end m)
              (mm_overwrite m) false (mm_event_copy m) (km_tail m)
  end.

Definition perf_mmap__get (m : perf_mmap) : perf_mmap := set_refcnt m (mm_refcnt m + 1).

Definition perf_mmap__put (m : perf_mmap) : option perf_mmap :=
  if (match mm_data m with Some _ => true | None => false end) && (mm_refcnt m =? 0) then None else
  let m := set_refcnt m (mm_refcnt m - 1) in
  Some (if mm_refcnt m =? 0 then perf_mmap__munmap m else m).

(** [head] is what perf_mmap__read_head returns. *)
Definition perf_mmap__empty (m : perf_mmap) (head : Z) : bool :=
  (head =? mm_prev m) && negb (mm_aux_base m).

Definition perf_mmap__consume (m : perf_mmap) (head : Z) : option perf_mmap :=
  let m := if negb (mm_overwrite m) then perf_mmap__write_tail m (mm_prev m) else m in
  if (mm_refcnt m =? 1) && perf_mmap__empty m head then perf_mmap__put m else Some m.

(** * Reading one event *)

(** [event->header.size] of the event at [pos]. *)
Definition event_size (data : bytes) (pos : Z) : option Z := rd_le data (pos + 6) 2.

(** The do-while loop that copies an event that straddles the end of the ring
    into [event_copy]; it copies at least one byte a turn. *)
Fixpoint copy_loop (fuel : nat) (data : bytes) (mask offset len : Z) (dst : Z) (copy : bytes)
    : option bytes :=
  match fuel with
  | O => None
  | S fuel =>
      let cpy := Z.min (mask + 1 - Z.land offset mask) len in
      bs ← rdn data (Z.land offset mask) (Z.to_nat cpy);
      copy ← wrn copy dst bs;
      let offset := u32 (offset + cpy) in
      let dst := dst + cpy in
      let len := len - cpy in
      if len =? 0 then Some copy else copy_loop fuel data mask offset len dst copy
  end.

(** perf_mmap__read: the event (or NULL), the new [*startp] and event_copy.
    The event returned by reference is the bytes it covers. *)
Definition perf_mmap__read (data : bytes) (mask startp end_ : Z) (copy : bytes)
    : option (option bytes * Z * bytes) :=
  let diff := sint 32 (end_ - startp) in
  if sizeof_event_header <=? diff then
    let pos := Z.land startp mask in
    size ← event_size data pos;
    if (size <? sizeof_event_header) || (diff <? size) then Some (None, startp, copy) else
    if negb (pos + size =? Z.land (u64 (startp + size)) mask) then
      let len := Z.min sizeof_perf_event size in
      copy ← copy_loop (S (Z.to_nat len)) data mask (u32 startp) len 0 copy;
      event ← rdn copy 0 (Z.to_nat size);
      Some (Some event, u64 (startp + size), copy)
    else
      event ← rdn data pos (Z.to_nat size);
      Some (Some event, u64 (startp + size), copy)
  else Some (None, startp, copy).

Definition perf_mmap__read_event (m : perf_mmap) (head : Z) : option (option bytes * perf_mmap) :=
  if mm_refcnt m =? 0 then Some (None, m) else
  let m := if negb (mm_overwrite m) then set_end m head else m in
  data ← mm_data m;
  '(event, start, copy) ← perf_mmap__read data (mm_mask m) (mm_start m) (mm_end m) (mm_event_copy m);
  let m := set_event_copy (set_start m start) copy in
  let m := if negb (mm_overwrite m) then set_prev m (mm_start m) else m in
  Some (event, m).

(** * Finding the range to read *)

(** The [while (true)] loop: every turn that goes on has read a header of
    positive size, so the distance to [start] grows; [pheader] is the position
    of the last header read. *)
Fixpoint find_range_loop (fuel : nat) (data : bytes) (mask start evt_head pheader : Z) : option Z :=
  match fuel with
  | O => None
  | S fuel =>
      let size := mask + 1 in
      let dist := u64 (evt_head - start) in
      if size <=? dist then
        if size <? dist then
          sz ← event_size data pheader; Some (u64 (evt_head - sz))
        else Some evt_head
      else
        let pheader := Z.land evt_head mask in
        sz ← event_size data pheader;
        if sz =? 0 then Some evt_head
        else find_range_loop fuel data mask start (u64 (evt_head + sz)) pheader
  end.

Definition overwrite_rb_find_range (data : bytes) (mask start : Z) : option Z :=
  find_range_loop (S (S (Z.to_nat mask))) data mask start start (Z.land start mask).

(** [head1] and [head2]: the read of the function and that of
    perf_mmap__consume. *)
Definition __perf_mmap__read_init (m : perf_mmap) (head1 head2 : Z) : option (Z * perf_mmap) :=
  let old := mm_prev m in
  let m := set_range m (if mm_overwrite m then head1 else old) (if mm_overwrite m then old else head1) in
  if mm_start m =? mm_end m then Some (- EAGAIN, m) else
  let size := u64 (mm_end m - mm_start m) in
  if mm_mask m + 1 <? size then
    if negb (mm_overwrite m) then
      m ← perf_mmap__consume (set_prev m head1) head2; Some (- EAGAIN, m)
    else
      data ← mm_data m;
      e ← overwrite_rb_find_range data (mm_mask m) (mm_start m);
      Some (0, set_end m e)
  else Some (0, m).

Definition perf_mmap__read_init (m : perf_mmap) (head1 head2 : Z) : option (Z * perf_mmap) :=
  if mm_refcnt m =? 0 then Some (- ENOENT, m) else __perf_mmap__read_init m head1 head2.

Definition perf_mmap__read_done (m : perf_mmap) (head : Z) : perf_mmap :=
  if mm_refcnt m =? 0 then m else set_prev m head.

(** * Pushing the whole range *)

Section Push.
Context {T : Type} (push : T -> bytes -> T * Z).

(** [head0]: the read of perf_mmap__push itself; [head1], [head2]: those of
    perf_mmap__read_init; [head3]: that of the final perf_mmap__consume. *)
Definition perf_mmap__push (m : perf_mmap) (to : T) (head0 head1 head2 head3 : Z)
    : option (Z * perf_mmap * T) :=
  let head := head0 in
  '(rc, m) ← perf_mmap__read_init m head1 head2;
  if rc <? 0 then Some (if rc =? - EAGAIN then 0 else -1, m, to) else
  data ← mm_data m;
  let mask := mm_mask m in
  let size := u64 (mm_end m - mm_start m) in
  let last := fun (m : perf_mmap) (to : T) =>
    let size := u64 (mm_end m - mm_start m) in
    buf ← rdn data (Z.land (mm_start m) mask) (Z.to_nat size);
    let m := set_start m (u64 (mm_start m + size)) in
    let '(to, r) := push to buf in
    if r <? 0 then Some (-1, m, to) else
    m ← perf_mmap__consume (set_prev m head) head3; Some (rc, m, to) in
  if negb (u64 (Z.land (mm_start m) mask + size) =? Z.land (mm_end m) mask) then
    let size := mask + 1 - Z.land (mm_start m) mask in
    buf ← rdn data (Z.land (mm_start m) mask) (Z.to_nat size);
    let m := set_start m (u64 (mm_start m + size)) in
    let '(to, r) := push to buf in
    if r <? 0 then Some (-1, m, to) else last m to
  else last m to.

End Push.

(** * The ring as a stream *)

(** The [n] bytes of the stream from position [p] on: position [p] of the
    stream is at offset [p mod size] of the data area. *)
Definition ring_at (data : bytes) (p : Z) (n : nat) : bytes :=
  (fun i => data !!! Z.to_nat ((p + i) mod zlen data)) <$> seqZ 0 (Z.of_nat n).

Lemma length_ring_at data p n : length (ring_at data p n) = n.
Proof. unfold ring_at. rewrite length_fmap, length_seqZ. lia. Qed.

Lemma zlen_ring_at data p n : zlen (ring_at data p n) = Z.of_nat n.
Proof. unfold zlen. by rewrite length_ring_at. Qed.

Lemma ring_at_app data p n k :
  ring_at data p (n + k) = ring_at data p n ++ ring_at data (p + Z.of_nat n) k.
Proof.
  unfold ring_at. rewrite Nat2Z.inj_add, seqZ_app, fmap_app by lia. f_equal.
  replace (seqZ (0 + Z.of_nat n) (Z.of_nat k)) with (Z.add (Z.of_nat n) <$> seqZ 0 (Z.of_nat k))
    by (rewrite fmap_add_seqZ; f_equal; lia).
  rewrite <- list_fmap_compose.
  apply list_fmap_ext. intros i x _. unfold compose. do 3 f_equal. lia.
Qed.

Lemma lookup_ring_at data p n i :
  (i < n)%nat -> ring_at data p n !! i = Some (data !!! Z.to_nat ((p + Z.of_nat i) mod zlen data)).
Proof. intros Hi. unfold ring_at. rewrite list_lookup_fmap, lookup_seqZ_lt by lia. done. Qed.

(** A range that does not cross the end of the data area is contiguous. *)
Lemma rdn_ring data p n :
  0 < zlen data -> p mod zlen data + Z.of_nat n <= zlen data ->
  rdn data (p mod zlen data) n = Some (ring_at data p n).
Proof.
  intros Hz Hn. pose proof (Z.mod_pos_bound p (zlen data) Hz) as Hp.
  rewrite rdn_in by lia. f_equal. apply list_eq_same_length with n.
  - apply length_ring_at.
  - unfold zlen in *. rewrite length_take, length_drop. lia.
  - intros i x y Hi Hx Hy. rewrite lookup_ring_at in Hy by done. injection Hy as <-.
    rewrite lookup_take in Hx. destruct (decide (i < n)%nat); [|done].
    rewrite lookup_drop in Hx. symmetry. apply list_lookup_total_correct. rewrite <- Hx. f_equal.
    rewrite <- Z.add_mod_idemp_l, Z.mod_small by lia. lia.
Qed.

(** The stream repeats with the size of the data area. *)
Lemma ring_at_congr data p q n :
  p mod zlen data = q mod zlen data -> ring_at data p n = ring_at data q n.
Proof.
  intros Heq. unfold ring_at. apply list_fmap_ext. intros i x _. do 2 f_equal.
  by rewrite <- (Zplus_mod_idemp_l p), <- (Zplus_mod_idemp_l q), Heq.
Qed.

Section Ring.
Context (data : bytes) (mask k : Z).
Context (Hk : 3 <= k <= 30) (Hmask : mask = 2 ^ k - 1) (Hdata : zlen data = 2 ^ k).

Lemma ring_size_pos : 8 <= zlen data <= 2 ^ 30.
Proof using Hk Hmask Hdata.
  rewrite Hdata. split; [change 8 with (2 ^ 3)|]; apply Z.pow_le_mono_r; lia.
Qed.

Lemma mask_succ : mask + 1 = zlen data.
Proof using Hk Hmask Hdata. lia. Qed.

Lemma land_ring p : Z.land p mask = p mod zlen data.
Proof using Hk Hmask Hdata. rewrite Hmask, Hdata. apply land_mask. lia. Qed.

Lemma wrap_ring w p : 30 <= w -> wrap w p mod zlen data = p mod zlen data.
Proof using Hk Hmask Hdata.
  intros Hw. unfold wrap. rewrite Hdata. apply Z.mod_mod_divide.
  exists (2 ^ (w - k)). rewrite <- Z.pow_add_r by lia. f_equal. lia.
Qed.

Lemma copy_loop_ok fuel : forall offset len pre post,
  0 < len -> (Z.to_nat len < fuel)%nat -> len <= zlen post ->
  copy_loop fuel data mask offset len (zlen pre) (pre ++ post) =
    Some (pre ++ ring_at data offset (Z.to_nat len) ++ drop (Z.to_nat len) post).
Proof using Hk Hmask Hdata.
  pose proof ring_size_pos as Hsz.
  induction fuel as [|fuel IH]; intros offset len pre post Hl Hf Hp; [lia|].
  cbn [copy_loop]. rewrite land_ring, mask_succ.
  pose proof (Z.mod_pos_bound offset (zlen data)) as Hmod.
  set (cpy := Z.min (zlen data - offset mod zlen data) len).
  assert (Hc : 0 < cpy <= len /\ offset mod zlen data + cpy <= zlen data) by lia.
  rewrite rdn_ring by lia. mred.
  assert (Hzr : zlen (ring_at data offset (Z.to_nat cpy)) = cpy) by (rewrite zlen_ring_at; lia).
  rewrite wrn_app by (done || lia). mred. rewrite length_ring_at.
  destruct (Z.eqb_spec (len - cpy) 0) as [He|He].
  - by replace len with cpy by lia.
  - replace (zlen pre + cpy) with (zlen (pre ++ ring_at data offset (Z.to_nat cpy)))
      by (rewrite zlen_app; lia).
    rewrite app_assoc, IH by (try lia; unfold zlen in *; rewrite length_drop; lia).
    rewrite (ring_at_congr data (u32 (offset + cpy)) (offset + cpy)) by (apply wrap_ring; lia).
    replace (Z.to_nat len) with (Z.to_nat cpy + Z.to_nat (len - cpy))%nat by lia.
    rewrite ring_at_app, drop_drop, <- !app_assoc. by rewrite Z2Nat.id by lia.
Qed.

Lemma copy_straddling offset len copy :
  0 < len <= zlen copy ->
  copy_loop (S (Z.to_nat len)) data mask offset len 0 copy =
    Some (ring_at data offset (Z.to_nat len) ++ drop (Z.to_nat len) copy).
Proof using Hk Hmask Hdata.
  intros Hl. apply (copy_loop_ok _ offset len [] copy); lia.
Qed.

(** The bytes of the event of [size] bytes at [p] as the reader hands them out:
    an event that straddles the end of the ring is cut to
    sizeof(union perf_event) bytes, the rest is what event_copy held. *)
Definition event_bytes (p size : Z) (copy : bytes) : bytes :=
  if p mod zlen data + size <? zlen data then ring_at data p (Z.to_nat size)
  else ring_at data p (Z.to_nat (Z.min sizeof_perf_event size)) ++
       drop (Z.to_nat sizeof_perf_event) (take (Z.to_nat size) copy).

(** The header of the event at an 8-byte aligned position. *)
Definition size_at (p : Z) : Z := le_val (drop 6 (ring_at data p 8)).

Lemma aligned_room p : p mod 8 = 0 -> p mod zlen data + 8 <= zlen data.
Proof using Hk Hmask Hdata.
  intros Hp. pose proof ring_size_pos as Hsz. pose proof (Z.mod_pos_bound p (zlen data)) as Hm.
  assert (Hd : zlen data = 8 * 2 ^ (k - 3)).
  { rewrite Hdata. change 8 with (2 ^ 3). rewrite <- Z.pow_add_r by lia. f_equal. lia. }
  assert (Hpm : (p mod zlen data) mod 8 = 0).
  { rewrite Z.mod_mod_divide; [done|]. exists (2 ^ (k - 3)). lia. }
  assert (p mod zlen data = 8 * (p mod zlen data / 8)) by (Z.div_mod_to_equations; lia).
  nia.
Qed.

Lemma event_size_at p : p mod 8 = 0 -> event_size data (p mod zlen data) = Some (size_at p).
Proof using Hk Hmask Hdata.
  intros Hp. pose proof (aligned_room p Hp) as Hr. pose proof ring_size_pos.
  pose proof (Z.mod_pos_bound p (zlen data)) as Hm.
  unfold event_size, rd_le, size_at.
  pose proof (rdn_ring data p 8 ltac:(lia) ltac:(lia)) as H8.
  rewrite rdn_in in H8 by lia. injection H8 as <-. rewrite rdn_in by lia. mred. do 2 f_equal.
  rewrite skipn_firstn_comm, drop_drop. cbn [Nat.sub]. do 2 f_equal. lia.
Qed.

Lemma event_copied p size copy :
  0 < size <= zlen copy -> zlen copy = PERF_SAMPLE_MAX_SIZE ->
  rdn (ring_at data p (Z.to_nat (Z.min sizeof_perf_event size)) ++
       drop (Z.to_nat (Z.min sizeof_perf_event size)) copy) 0 (Z.to_nat size) =
  Some (ring_at data p (Z.to_nat (Z.min sizeof_perf_event size)) ++
        drop (Z.to_nat sizeof_perf_event) (take (Z.to_nat size) copy)).
Proof using Hk Hmask Hdata.
  intros Hs Hc. unfold sizeof_perf_event. set (len := Z.min (72 + 4096) size).
  assert (Hl : 0 < len <= size) by lia. pose proof (length_ring_at data p (Z.to_nat len)) as Hr.
  rewrite rdn_in; [|lia|].
  - rewrite drop_0, take_app_ge, Hr by lia. f_equal. f_equal.
    rewrite skipn_firstn_comm. destruct (decide (size <= 72 + 4096)).
    + by replace (Z.to_nat size - Z.to_nat len)%nat with 0%nat by lia;
        replace (Z.to_nat size - Z.to_nat (72 + 4096))%nat with 0%nat by lia.
    + by replace (Z.to_nat len) with (Z.to_nat (72 + 4096)) by lia.
  - rewrite zlen_app, zlen_ring_at. unfold zlen in *. rewrite length_drop. lia.
Qed.

Lemma perf_mmap__read_ok p e copy :
  0 <= p -> p mod 8 = 0 -> e < 2 ^ 64 -> 8 <= size_at p <= e - p -> e - p <= zlen data ->
  zlen copy = PERF_SAMPLE_MAX_SIZE -> size_at p < PERF_SAMPLE_MAX_SIZE ->
  exists copy', perf_mmap__read data mask p e copy =
      Some (Some (event_bytes p (size_at p) copy), p + size_at p, copy') /\
    zlen copy' = PERF_SAMPLE_MAX_SIZE.
Proof using Hk Hmask Hdata.
  intros Hp Ha He Hs Hd Hc Hmax. pose proof ring_size_pos as Hsz.
  pose proof (Z.mod_pos_bound p (zlen data)) as Hm. unfold PERF_SAMPLE_MAX_SIZE in *.
  unfold perf_mmap__read. rewrite sint32_small by lia.
  destruct (Z.leb_spec sizeof_event_header (e - p)) as [_|Hlt]; [|unfold sizeof_event_header in Hlt; lia].
  rewrite land_ring, (event_size_at p Ha). mred. set (size := size_at p) in *.
  destruct (Z.ltb_spec size sizeof_event_header); [unfold sizeof_event_header in *; lia|].
  destruct (Z.ltb_spec (e - p) size); [lia|]. cbn [orb].
  rewrite land_ring, wrap_ring by lia. rewrite (u64_small (p + size)) by lia.
  unfold event_bytes. destruct (Z.ltb_spec (p mod zlen data + size) (zlen data)) as [Hin|Hout].
  - rewrite <- Zplus_mod_idemp_l, (Z.mod_small (_ + size)), Z.eqb_refl by lia. cbn [negb].
    rewrite rdn_ring by lia. mred. eauto.
  - destruct (Z.eqb_spec (p mod zlen data + size) ((p + size) mod zlen data)) as [Heq|_].
    { pose proof (Z.mod_pos_bound (p + size) (zlen data)). lia. }
    cbn [negb]. rewrite copy_straddling by (unfold sizeof_perf_event; lia). mred.
    rewrite (ring_at_congr data (u32 p) p) by (apply wrap_ring; lia).
    rewrite event_copied by (unfold PERF_SAMPLE_MAX_SIZE; lia). mred. eexists. split; [reflexivity|].
    rewrite zlen_app, zlen_ring_at. unfold sizeof_perf_event, zlen in *. rewrite length_drop. lia.
Qed.

Lemma perf_mmap__read_empty p copy : perf_mmap__read data mask p p copy = Some (None, p, copy).
Proof using Hk Hmask Hdata. unfold perf_mmap__read. by rewrite Z.sub_diag. Qed.

(** ** Records *)

(** A record whose header announces its length, short enough to be copied. *)
Record rec_ok (r : bytes) : Prop := {
  rec_len : 8 <= zlen r <= sizeof_perf_event;
  rec_align : zlen r mod 8 = 0;
  rec_size : le_val (take 2 (drop 6 r)) = zlen r
}.

Lemma stream_head p r rest :
  rec_ok r -> ring_at data p (length (r ++ rest)) = r ++ rest ->
  ring_at data p (length r) = r /\ ring_at data (p + zlen r) (length rest) = rest /\ size_at p = zlen r.
Proof using Hk Hmask Hdata.
  intros [Hl _ Hs] Hr. rewrite length_app, ring_at_app in Hr.
  apply app_inj_1 in Hr as [H1 H2]; [|apply length_ring_at]. split_and!; [done|done|].
  unfold size_at. rewrite <- Hs. f_equal. rewrite <- H1 at 1.
  replace (length r) with (8 + (length r - 8))%nat by (unfold zlen in Hl; lia).
  rewrite ring_at_app, drop_app_le by (rewrite length_ring_at; lia).
  rewrite take_app_le by (rewrite length_drop, length_ring_at; lia).
  rewrite take_ge; [done|]. rewrite length_drop, length_ring_at. lia.
Qed.

Lemma event_bytes_rec p r copy :
  rec_ok r -> ring_at data p (length r) = r -> zlen copy = PERF_SAMPLE_MAX_SIZE ->
  event_bytes p (zlen r) copy = r.
Proof using Hk Hmask Hdata.
  intros [Hl _ _] Hr Hc. unfold event_bytes. rewrite Z.min_r by lia.
  replace (Z.to_nat (zlen r)) with (length r) by (unfold zlen; lia). rewrite Hr.
  case_test; [done|]. rewrite drop_ge; [apply app_nil_r|].
  rewrite length_take. unfold zlen, sizeof_perf_event in *. lia.
Qed.

(** ** Draining the ring *)

(** The loop of the usage comment above perf_mmap__read_event, with a head that
    does not move: [while (event = perf_mmap__read_event()) { ...;
    perf_mmap__consume(); }]. *)
Fixpoint drain (fuel : nat) (m : perf_mmap) (head : Z) : option (list bytes * perf_mmap) :=
  match fuel with
  | O => None
  | S fuel =>
      '(ev, m) ← perf_mmap__read_event m head;
      match ev with
      | None => Some ([], m)
      | Some e =>
          m ← perf_mmap__consume m head;
          '(es, m) ← drain fuel m head;
          Some (e :: es, m)
      end
  end.

(** A forward map over [data] that other users hold too. *)
Record forward (m : perf_mmap) : Prop := {
  fw_data : mm_data m = Some data;
  fw_mask : mm_mask m = mask;
  fw_ref : 2 <= mm_refcnt m;
  fw_dir : mm_overwrite m = false;
  fw_copy : zlen (mm_event_copy m) = PERF_SAMPLE_MAX_SIZE
}.

Lemma consume_forward m head :
  forward m -> perf_mmap__consume m head = Some (perf_mmap__write_tail m (mm_prev m)).
Proof using Hk Hmask Hdata.
  intros [_ _ Hr Hd _]. unfold perf_mmap__consume. rewrite Hd. cbn [negb].
  change (mm_refcnt (perf_mmap__write_tail m (mm_prev m))) with (mm_refcnt m).
  by destruct (Z.eqb_spec (mm_refcnt m) 1); [lia|].
Qed.

Lemma read_event_forward m r rest :
  forward m -> rec_ok r -> 0 <= mm_start m -> mm_start m mod 8 = 0 ->
  ring_at data (mm_start m) (length (r ++ rest)) = r ++ rest -> zlen (r ++ rest) <= zlen data ->
  mm_start m + zlen (r ++ rest) < 2 ^ 64 ->
  exists m', perf_mmap__read_event m (mm_start m + zlen (r ++ rest)) = Some (Some r, m') /\ forward m' /\
    mm_start m' = mm_start m + zlen r /\ mm_prev m' = mm_start m + zlen r.
Proof using Hk Hmask Hdata.
  intros [Hd Hm Hr Ho Hc] Hrec H0 Ha Hs Hz Hlt. unfold perf_mmap__read_event.
  destruct (Z.eqb_spec (mm_refcnt m) 0); [lia|]. rewrite Ho. unfold set_end, set_start, set_range, set_event_copy, set_prev.
  cbn [negb mm_data mm_mask mm_start mm_end mm_event_copy]. rewrite Hd, Hm. mred.
  destruct (stream_head _ _ _ Hrec Hs) as (H1 & H2 & H3).
  pose proof Hrec as [Hl _ _]. pose proof (zlen_nonneg rest). rewrite zlen_app in *.
  destruct (perf_mmap__read_ok (mm_start m) (mm_start m + (zlen r + zlen rest)) (mm_event_copy m))
    as (copy' & -> & Hc'); rewrite ?H3; try done; try (unfold PERF_SAMPLE_MAX_SIZE, sizeof_perf_event in *; lia).
  mred. rewrite ?H3, event_bytes_rec by done. cbn. rewrite Ho. eexists. split; [reflexivity|].
  split; [by split|]. done.
Qed.

Lemma drain_forward rs : forall m,
  forward m -> Forall rec_ok rs -> 0 <= mm_start m -> mm_start m mod 8 = 0 ->
  ring_at data (mm_start m) (length (concat rs)) = concat rs -> zlen (concat rs) <= zlen data ->
  mm_start m + zlen (concat rs) < 2 ^ 64 -> (rs <> [] \/ km_tail m = mm_start m) ->
  exists m', drain (S (length rs)) m (mm_start m + zlen (concat rs)) = Some (rs, m') /\ forward m' /\
    km_tail m' = mm_start m + zlen (concat rs) /\ mm_prev m' = mm_start m + zlen (concat rs).
Proof using Hk Hmask Hdata.
  induction rs as [|r rs IH]; intros m Hf Hok H0 Ha Hs Hz Hlt Htail.
  - cbn [concat] in *. rewrite zlen_nil, Z.add_0_r in *. cbn [drain].
    destruct Hf as [Hd Hm Hr Ho Hc]. unfold perf_mmap__read_event.
    destruct (Z.eqb_spec (mm_refcnt m) 0); [lia|]. rewrite Ho. unfold set_end, set_start, set_range, set_event_copy, set_prev.
    cbn [negb mm_data mm_mask mm_start mm_end mm_event_copy]. rewrite Hd, Hm. mred.
    rewrite perf_mmap__read_empty. mred. cbn. rewrite Ho. eexists. split; [reflexivity|].
    split; [by split|]. split; [|done]. cbn. by destruct Htail.
  - apply Forall_cons in Hok as [Hr Hok]. cbn [concat] in *.
    destruct (read_event_forward m r (concat rs) Hf Hr H0 Ha Hs Hz Hlt) as (m1 & He & Hf1 & Hst & Hpr).
    cbn [length]. remember (S (length rs)) as fuel eqn:Hfuel. cbn [drain]. rewrite He. mred. rewrite (consume_forward m1 _ Hf1). mred.
    destruct (stream_head _ _ _ Hr Hs) as (_ & H2 & _). rewrite zlen_app in *.
    pose proof (zlen_nonneg r). destruct Hr as [_ Hal _].
    set (m2 := perf_mmap__write_tail m1 (mm_prev m1)).
    assert (Hst2 : mm_start m2 = mm_start m + zlen r) by done.
    destruct (IH m2) as (m' & Hdr & Hf' & Ht' & Hp'); try done; rewrite ?Hst2; try done; try lia.
    + by destruct Hf1; split.
    + rewrite <- Zplus_mod_idemp_l, Ha, Z.add_0_l. done.
    + right. cbn. lia.
    + rewrite Hst2 in *. replace (mm_start m + (zlen r + zlen (concat rs))) with
        (mm_start m + zlen r + zlen (concat rs)) by lia.
      rewrite Hdr. mred. eexists. by split.
Qed.

Lemma read_init_forward m h1 h2 :
  forward m -> 0 <= mm_prev m < h1 -> h1 < 2 ^ 64 -> h1 - mm_prev m <= zlen data ->
  perf_mmap__read_init m h1 h2 = Some (0, set_range m (mm_prev m) h1).
Proof using Hk Hmask Hdata.
  intros [Hd Hm Hr Ho Hc] Hp Hh Hs. unfold perf_mmap__read_init, __perf_mmap__read_init.
  destruct (Z.eqb_spec (mm_refcnt m) 0); [lia|]. rewrite Ho. unfold set_range.
  cbn [mm_start mm_end mm_mask]. destruct (Z.eqb_spec (mm_prev m) h1); [lia|].
  rewrite u64_small, Hm, mask_succ by lia.
  by destruct (Z.ltb_spec (zlen data) (h1 - mm_prev m)); [lia|].
Qed.

(** ** Pushing *)

(** The collector that appends every chunk it is given. *)
Definition append_chunk (to buf : bytes) : bytes * Z := (to ++ buf, 0).

Lemma push_forward m to h0 h1 h2 h3 :
  forward m -> 0 <= mm_prev m < h1 -> h1 < 2 ^ 64 -> h1 - mm_prev m <= zlen data ->
  exists m', perf_mmap__push append_chunk m to h0 h1 h2 h3 =
      Some (0, m', to ++ ring_at data (mm_prev m) (Z.to_nat (h1 - mm_prev m))) /\
    forward m' /\ mm_prev m' = h0 /\ km_tail m' = h0.
Proof using Hk Hmask Hdata.
  intros Hf Hp Hh Hs. pose proof ring_size_pos as Hsz. unfold perf_mmap__push.
  rewrite (read_init_forward m h1 h2) by done. mred. destruct Hf as [Hd Hm Hr Ho Hc]. change (0 <? 0) with false.
  unfold set_range, set_start. cbn [mm_data mm_start mm_end mm_mask]. rewrite Hd, Hm. mred.
  set (p := mm_prev m) in *. rewrite !land_ring. pose proof (Z.mod_pos_bound p (zlen data)) as Hmod.
  pose proof (Z.mod_pos_bound h1 (zlen data)) as Hmod1. rewrite (u64_small (h1 - p)) by lia.
  rewrite (u64_small (p mod zlen data + (h1 - p))) by lia.
  assert (Hcons : forall m' s, mm_data m' = Some data -> mm_mask m' = mask -> 2 <= mm_refcnt m' ->
     mm_overwrite m' = false -> zlen (mm_event_copy m') = PERF_SAMPLE_MAX_SIZE ->
     exists m'', (m0 ← perf_mmap__consume (set_prev m' h0) h3; Some (0, m0, s : bytes)) = Some (0, m'', s) /\
       forward m'' /\ mm_prev m'' = h0 /\ km_tail m'' = h0).
  { intros m' s ? ? ? ? ?. assert (Hf' : forward (set_prev m' h0)) by (by split).
    rewrite (consume_forward _ _ Hf'). mred. eexists. split; [reflexivity|]. by split. }
  assert (Hend : p mod zlen data + (h1 - p) < zlen data -> (p mod zlen data + (h1 - p) = h1 mod zlen data)).
  { intros Hlt. replace h1 with (p + (h1 - p)) at 2 by lia.
    rewrite <- Zplus_mod_idemp_l, (Z.mod_small (_ + _)) by lia. done. }
  destruct (Z.eqb_spec (p mod zlen data + (h1 - p)) (h1 mod zlen data)) as [Heq|Hne]; cbn [negb].
  - rewrite rdn_ring by lia. mred. cbn [append_chunk]. change (0 <? 0) with false. cbn iota.
    by apply Hcons.
  - assert (Hout : zlen data <= p mod zlen data + (h1 - p)) by (destruct (Z.le_gt_cases (zlen data) (p mod zlen data + (h1 - p))); [done|exfalso; auto]).
    rewrite mask_succ. set (c := zlen data - p mod zlen data).
    assert (Hcv : 0 < c <= h1 - p /\ p mod zlen data + c = zlen data) by (unfold c; lia).
    clearbody c. rewrite (rdn_ring data p) by lia. mred. unfold append_chunk at 1. change (0 <? 0) with false. cbn iota.
    unfold set_range. cbn [mm_data mm_start mm_end mm_mask].
    rewrite (u64_small (p + c)) by lia. rewrite (u64_small (h1 - (p + c))) by lia.
    assert (Hpc : (p + c) mod zlen data = 0).
    { replace (p + c) with ((p - p mod zlen data) + zlen data) by lia.
      rewrite <- Zplus_mod_idemp_r, Z.mod_same, Z.add_0_r by lia.
      rewrite Zminus_mod, Zmod_mod, Z.sub_diag. apply Z.mod_0_l. lia. }
    rewrite rdn_ring by lia. mred. cbn [append_chunk]. change (0 <? 0) with false. cbn iota.
    rewrite <- app_assoc.
    replace (ring_at data p (Z.to_nat c) ++ ring_at data (p + c) (Z.to_nat (h1 - (p + c))))
      with (ring_at data p (Z.to_nat (h1 - p))).
    + by apply Hcons.
    + rewrite <- (Z2Nat.id c) at 2 by lia. rewrite <- ring_at_app. f_equal. lia.
Qed.

End Ring.

(** C20: Reading a ring the way its usage comment says (read_init, then read_event and
    consume until NULL) returns exactly the records the kernel wrote between the last
    position read and its head, in order and whole even when a record wraps around the
    end of the ring, and gives all their space back to the kernel (tail = head).  The
    ring has 2^3 to 2^30 bytes and is not in overwrite mode, the head stays, and the
    records are multiples of 8 bytes not larger than sizeof(union perf_event), the size
    of the buffer for wrapped ones ([rec_ok]); a longer record that wraps is truncated
    ([mmap_read_truncates]). *)
Theorem mmap_drain data mask k m rs :
  3 <= k <= 30 -> mask = 2 ^ k - 1 -> zlen data = 2 ^ k -> forward data mask m ->
  rs <> [] -> Forall rec_ok rs -> 0 <= mm_prev m -> mm_prev m mod 8 = 0 ->
  ring_at data (mm_prev m) (length (concat rs)) = concat rs -> zlen (concat rs) <= zlen data ->
  mm_prev m + zlen (concat rs) < 2 ^ 64 ->
  let head := mm_prev m + zlen (concat rs) in
  exists m1 m2, perf_mmap__read_init m head head = Some (0, m1) /\
    drain (S (length rs)) m1 head = Some (rs, m2) /\
    km_tail m2 = head /\ perf_mmap__read_done m2 head = m2.
Proof.
  intros Hk Hmask Hdata Hf Hne Hok H0 Ha Hs Hz Hlt head.
  assert (Hpos : 0 < zlen (concat rs)).
  { destruct Hok as [|r rs [Hr _ _] _]; [done|]. cbn [concat]. rewrite zlen_app.
    pose proof (zlen_nonneg (concat rs)). lia. }
  eexists. rewrite (read_init_forward data mask k Hk Hmask Hdata) by (done || lia).
  destruct (drain_forward data mask k Hk Hmask Hdata rs (set_range m (mm_prev m) head))
    as (m2 & Hd & [H1 H2 H3 H4 H5] & Ht & Hp); try done; [by destruct Hf; split|by left|].
  exists m2. split_and!; try done. unfold perf_mmap__read_done.
  destruct (Z.eqb_spec (mm_refcnt m2) 0); [done|]. unfold set_prev. destruct m2; cbn in *. by rewrite Hp.
Qed.

(** perf_mmap__push hands the collector exactly the bytes between the last
    position pushed and the kernel's head, in one chunk or in two when they wrap
    around the end of the ring, and then moves prev and the tail to that head,
    provided the head does not move between the two times it is read. *)
Theorem mmap_push_exact data mask k m to head h2 h3 :
  3 <= k <= 30 -> mask = 2 ^ k - 1 -> zlen data = 2 ^ k -> forward data mask m ->
  0 <= mm_prev m < head -> head < 2 ^ 64 -> head - mm_prev m <= zlen data ->
  exists m', perf_mmap__push append_chunk m to head head h2 h3 =
      Some (0, m', to ++ ring_at data (mm_prev m) (Z.to_nat (head - mm_prev m))) /\
    mm_prev m' = head /\ km_tail m' = head.
Proof.
  intros Hk Hmask Hdata Hf Hp Hh Hs.
  destruct (push_forward data mask k Hk Hmask Hdata m to head head h2 h3 Hf Hp Hh Hs)
    as (m' & Hpush & _ & Hpr & Ht). eauto.
Qed.

(** perf_mmap__push reads the head twice.  When the kernel moves its head
    from [h0] to [h1] in between, everything up to [h1] is pushed but only [h0]
    is remembered, so the next push delivers the bytes from [h0] to [h1] a
    second time. *)
Theorem mmap_push_race data mask k m to h0 h1 head h2 h3 :
  3 <= k <= 30 -> mask = 2 ^ k - 1 -> zlen data = 2 ^ k -> forward data mask m ->
  0 <= mm_prev m < h1 -> mm_prev m <= h0 < h1 -> h1 <= head < 2 ^ 64 ->
  head - mm_prev m <= zlen data ->
  exists m1 m2,
    perf_mmap__push append_chunk m to h0 h1 h2 h3 =
      Some (0, m1, to ++ ring_at data (mm_prev m) (Z.to_nat (h1 - mm_prev m))) /\
    perf_mmap__push append_chunk m1 [] head head h2 h3 =
      Some (0, m2, ring_at data h0 (Z.to_nat (h1 - h0)) ++ ring_at data h1 (Z.to_nat (head - h1))).
Proof.
  intros Hk Hmask Hdata Hf Hp H0 H1 Hs.
  destruct (push_forward data mask k Hk Hmask Hdata m to h0 h1 h2 h3 Hf Hp) as (m1 & Hp1 & Hf1 & Hpr & _);
    [lia..|].
  destruct (push_forward data mask k Hk Hmask Hdata m1 [] head head h2 h3 Hf1) as (m2 & Hp2 & _);
    [rewrite Hpr; lia|lia|rewrite Hpr; lia|].
  exists m1, m2. split; [done|]. rewrite Hp2, Hpr. cbn [app].
  replace (Z.to_nat (head - h0)) with (Z.to_nat (h1 - h0) + Z.to_nat (head - h1))%nat by lia.
  rewrite ring_at_app. do 4 f_equal. lia.
Qed.

(** A record longer than sizeof(union perf_event) (a sample with a large
    stack dump, say) that wraps around the end of the ring is returned
    truncated: only its first sizeof(union perf_event) bytes are copied, the
    rest is whatever event_copy held before. *)
Theorem mmap_read_truncates data mask k p e copy :
  3 <= k <= 30 -> mask = 2 ^ k - 1 -> zlen data = 2 ^ k ->
  0 <= p -> p mod 8 = 0 -> e < 2 ^ 64 -> e - p <= zlen data -> zlen copy = PERF_SAMPLE_MAX_SIZE ->
  sizeof_perf_event < size_at data p <= e - p -> size_at data p < PERF_SAMPLE_MAX_SIZE ->
  zlen data <= p mod zlen data + size_at data p ->
  exists copy', perf_mmap__read data mask p e copy =
    Some (Some (ring_at data p (Z.to_nat sizeof_perf_event) ++
                drop (Z.to_nat sizeof_perf_event) (take (Z.to_nat (size_at data p)) copy)),
          p + size_at data p, copy').
Proof.
  intros Hk Hmask Hdata Hp Ha He Hd Hc Hs Hmax Hw.
  destruct (perf_mmap__read_ok data mask k Hk Hmask Hdata p e copy) as (copy' & -> & _);
    [done..|unfold sizeof_perf_event in Hs; lia|done|done|done|].
  unfold event_bytes. destruct (Z.ltb_spec (p mod zlen data + size_at data p) (zlen data)); [lia|].
  rewrite Z.min_l by lia. eauto.
Qed.

(** ** The backward ring *)

(** [q] is reached from [p] by skipping whole records. *)
Inductive boundary (data : bytes) (p : Z) : Z -> Prop :=
| boundary_start : boundary data p p
| boundary_next q : boundary data p q -> boundary data p (q + size_at data q).

#[local] Hint Constructors boundary : perfdb.

Lemma find_range_ok data mask k start fuel :
  3 <= k <= 30 -> mask = 2 ^ k - 1 -> zlen data = 2 ^ k -> 0 <= start -> start + 2 ^ 31 < 2 ^ 64 ->
  (forall b, boundary data start b -> b - start < zlen data ->
     8 <= size_at data b < 2 ^ 16 /\ size_at data b mod 8 = 0) ->
  forall h ph, boundary data start h -> h mod 8 = 0 -> 0 <= h - start < zlen data ->
  zlen data - (h - start) < Z.of_nat fuel ->
  exists e, find_range_loop fuel data mask start h ph = Some e /\ boundary data start e /\
    e - start <= zlen data /\ (e - start = zlen data \/ zlen data < e + size_at data e - start).
Proof.
  intros Hk Hmask Hdata H0 H64 Hrec. pose proof (ring_size_pos data mask k Hk Hmask Hdata) as Hsz.
  induction fuel as [|fuel IH]; intros h ph Hb Ha Hd Hf; [lia|].
  destruct (Hrec h Hb) as [Hs Hs8]; [lia|]. cbn [find_range_loop].
  rewrite (mask_succ data mask k Hk Hmask Hdata), u64_small by lia.
  destruct (Z.leb_spec (zlen data) (h - start)); [lia|].
  rewrite (land_ring data mask k Hk Hmask Hdata), (event_size_at data mask k Hk Hmask Hdata h Ha). mred.
  destruct (Z.eqb_spec (size_at data h) 0); [lia|]. rewrite (u64_small (h + _)) by lia.
  assert (Hb' : boundary data start (h + size_at data h)) by (by apply boundary_next).
  assert (Ha' : (h + size_at data h) mod 8 = 0) by (by rewrite Z.add_mod, Ha, Hs8).
  destruct (Z.lt_ge_cases (h + size_at data h - start) (zlen data)) as [Hlt|Hge]; [apply IH; done || lia|].
  destruct fuel as [|fuel]; [lia|]. cbn [find_range_loop].
  rewrite (mask_succ data mask k Hk Hmask Hdata), u64_small by lia.
  destruct (Z.leb_spec (zlen data) (h + size_at data h - start)); [|lia].
  destruct (Z.ltb_spec (zlen data) (h + size_at data h - start)).
  - rewrite (event_size_at data mask k Hk Hmask Hdata h Ha). mred.
    rewrite Z.add_simpl_r, u64_small by lia. eexists. split; [reflexivity|]. split_and!; [done|lia|lia].
  - eexists. split; [reflexivity|]. split_and!; [done|lia|lia].
Qed.

(** On a full backward ring the search for the readable range ends, and
    the end it reports is a record boundary that keeps exactly the newest
    records that fit in the ring: no record is cut and the next one would not
    fit. *)
Theorem overwrite_rb_find_range_ok data mask k start :
  3 <= k <= 30 -> mask = 2 ^ k - 1 -> zlen data = 2 ^ k ->
  0 <= start -> start mod 8 = 0 -> start + 2 ^ 31 < 2 ^ 64 ->
  (forall b, boundary data start b -> b - start < zlen data ->
     8 <= size_at data b < 2 ^ 16 /\ size_at data b mod 8 = 0) ->
  exists e, overwrite_rb_find_range data mask start = Some e /\ boundary data start e /\
    e - start <= zlen data /\ (e - start = zlen data \/ zlen data < e + size_at data e - start).
Proof.
  intros Hk Hmask Hdata H0 Ha H64 Hrec. pose proof (ring_size_pos data mask k Hk Hmask Hdata).
  apply (find_range_ok data mask k); auto with perfdb; lia.
Qed.

(** * Concrete instances *)

Module MmapExamples.

(** A 32-byte ring with two records, the second one wrapping around. *)
Definition rec1 : bytes := [9; 0; 0; 0; 0; 0; 16; 0; 1; 2; 3; 4; 5; 6; 7; 8].
Definition rec2 : bytes := [9; 0; 0; 0; 0; 0; 16; 0; 11; 12; 13; 14; 15; 16; 17; 18].
Definition ring : bytes := drop 8 rec2 ++ rec1 ++ take 8 rec2.
Definition ring_map : perf_mmap :=
  Mmap (Some ring) 31 2 40 0 0 false false (replicate (Z.to_nat PERF_SAMPLE_MAX_SIZE) 0) 40.

Lemma ring_map_forward : forward ring 31 ring_map.
Proof. split; reflexivity || (cbn; lia). Qed.

Lemma rec1_ok : rec_ok rec1.
Proof. split; [vm_compute; split; discriminate|reflexivity..]. Qed.
Lemma rec2_ok : rec_ok rec2.
Proof. split; [vm_compute; split; discriminate|reflexivity..]. Qed.

Lemma mmap_drain_witness :
  exists m1 m2, perf_mmap__read_init ring_map 72 72 = Some (0, m1) /\
    drain 3 m1 72 = Some ([rec1; rec2], m2) /\ km_tail m2 = 72 /\ perf_mmap__read_done m2 72 = m2.
Proof.
  apply (mmap_drain ring 31 5 ring_map [rec1; rec2]);
    [lia|reflexivity|reflexivity|exact ring_map_forward|discriminate| |cbn; lia|reflexivity| | |].
  - exact (Forall_cons_2 _ _ _ rec1_ok (Forall_cons_2 _ _ _ rec2_ok (Forall_nil_2 _))).
  - vm_compute. reflexivity.
  - vm_compute. discriminate.
  - vm_compute. reflexivity.
Defined.

Lemma mmap_push_exact_witness :
  exists m', perf_mmap__push append_chunk ring_map [] 72 72 72 72 = Some (0, m', rec1 ++ rec2) /\
    mm_prev m' = 72 /\ km_tail m' = 72.
Proof.
  apply (mmap_push_exact ring 31 5 ring_map [] 72 72 72);
    [lia|reflexivity|reflexivity|exact ring_map_forward|cbn; lia|lia|vm_compute; discriminate].
Defined.

Lemma mmap_push_race_witness :
  exists m1 m2,
    perf_mmap__push append_chunk ring_map [] 56 72 72 72 = Some (0, m1, rec1 ++ rec2) /\
    perf_mmap__push append_chunk m1 [] 72 72 72 72 = Some (0, m2, rec2).
Proof.
  apply (mmap_push_race ring 31 5 ring_map [] 56 72 72 72 72);
    [lia|reflexivity|reflexivity|exact ring_map_forward|cbn; lia|cbn; lia|lia|vm_compute; discriminate].
Defined.

(** A record of 5000 bytes in the last 8 bytes of an 8192-byte ring. *)
Definition big_ring : bytes := replicate (Z.to_nat 8184) 7 ++ [9; 0; 0; 0; 0; 0; 0x88; 0x13].

Lemma mmap_read_truncates_witness :
  exists copy', perf_mmap__read big_ring 8191 8184 16376 (replicate (Z.to_nat 65536) 0) =
    Some (Some (ring_at big_ring 8184 4168 ++ replicate 832 0), 13184, copy').
Proof.
  destruct (mmap_read_truncates big_ring 8191 13 8184 16376 (replicate (Z.to_nat 65536) 0)) as [copy' Hc];
    [lia|reflexivity|vm_compute; reflexivity|lia|reflexivity|lia|vm_compute; discriminate|
     unfold zlen; rewrite length_replicate; reflexivity|vm_compute; split; [reflexivity|discriminate]|
     vm_compute; reflexivity|vm_compute; discriminate|].
  exists copy'. rewrite Hc. replace (size_at big_ring 8184) with 5000 by (vm_compute; reflexivity).
  change (Z.to_nat sizeof_perf_event) with 4168%nat. change (Z.to_nat 5000) with 5000%nat.
  rewrite take_replicate, drop_replicate. reflexivity.
Defined.

(** Every record of [ring] is 16 bytes long. *)
Lemma ring_sizes b : boundary ring 40 b -> b mod 16 = 8 /\ size_at ring b = 16.
Proof.
  assert (Hsize : forall b, b mod 16 = 8 -> size_at ring b = 16).
  { intros c Hc. assert (Hm : c mod 32 = 8 mod 32 \/ c mod 32 = 24 mod 32) by (Z.div_mod_to_equations; lia).
    unfold size_at. destruct Hm as [Hm | Hm];
      [rewrite (ring_at_congr ring c 8 8 Hm)|rewrite (ring_at_congr ring c 24 8 Hm)]; reflexivity. }
  induction 1 as [|q Hq [IH1 IH2]]; [done|]. assert (Hq' : (q + size_at ring q) mod 16 = 8).
  { rewrite IH2. Z.div_mod_to_equations. lia. }
  split; [done|]. by apply Hsize.
Qed.

Lemma overwrite_rb_find_range_ok_witness :
  exists e, overwrite_rb_find_range ring 31 40 = Some e /\ boundary ring 40 e /\
    e - 40 <= 32 /\ (e - 40 = 32 \/ 32 < e + size_at ring e - 40).
Proof.
  apply (overwrite_rb_find_range_ok ring 31 5 40);
    [lia|reflexivity|reflexivity|lia|reflexivity|reflexivity|].
  intros b Hb _. destruct (ring_sizes b Hb) as [_ ->]. split; [lia|reflexivity].
Defined.

End MmapExamples.
