(* ===== verification/AuxtraceHeap.v ===== *)
(** Model of the heap of util/auxtrace.c and util/auxtrace.h that orders AUX
    area tracing queues by timestamp: auxtrace_heapify, auxtrace_heap__add,
    auxtrace_heap__pop, auxtrace_heap__free.

    [heap_array] is the list of the allocated items, so its length is heap_sz;
    every access is checked and [None] is an access outside the array.
    Positions are natural numbers: a heap of 2^31 items does not fit in
    memory. *)

From S2P Require Import Prelude.
#[local] Open Scope nat_scope.

(** * Data and operations *)

Record auxtrace_heap_item := HeapItem { queue_nr : nat; ordinal : Z }.

#[export] Instance heap_item_inhabited : Inhabited auxtrace_heap_item := populate (HeapItem 0 0).
#[export] Instance heap_item_eq_dec : EqDecision auxtrace_heap_item.
Proof. solve_decision. Defined.

Record auxtrace_heap := Heap {
  heap_array : list auxtrace_heap_item;
  heap_cnt : nat
}.

Definition heap_sz (h : auxtrace_heap) : nat := length (heap_array h).

Definition AUXTRACE_INIT_NR_QUEUES : nat := 32.

(** [heap_array\[pos\] = it]. *)
Definition wr_item (arr : list auxtrace_heap_item) (pos : nat) (it : auxtrace_heap_item)
    : option (list auxtrace_heap_item) :=
  if decide (pos < length arr) then Some (<[pos := it]> arr) else None.

Definition parent (pos : nat) : nat := (pos - 1) / 2.

(** The [while (pos)] loop of auxtrace_heapify: [pos] decreases, so [pos] turns
    are enough. *)
Fixpoint heapify_loop (fuel : nat) (arr : list auxtrace_heap_item) (pos : nat) (ord : Z)
    : option (list auxtrace_heap_item * nat) :=
  match fuel with
  | O => Some (arr, pos)
  | S fuel =>
      if pos =? 0 then Some (arr, pos) else
      p ← arr !! parent pos;
      if (ordinal p <=? ord)%Z then Some (arr, pos) else
      arr ← wr_item arr pos p;
      heapify_loop fuel arr (parent pos) ord
  end.

Definition auxtrace_heapify (arr : list auxtrace_heap_item) (pos : nat) (it : auxtrace_heap_item)
    : option (list auxtrace_heap_item) :=
  '(arr, pos) ← heapify_loop pos arr pos (ordinal it); wr_item arr pos it.

(** [while (heap_sz <= queue_nr) heap_sz <<= 1;]; doubling [queue_nr] times is
    enough. *)
Fixpoint grow_sz (fuel sz q : nat) : nat :=
  match fuel with
  | O => sz
  | S fuel => if sz <=? q then grow_sz fuel (sz * 2) q else sz
  end.

(** [realloc_ok]: whether realloc succeeds; [Some (r, h)] is the return value
    and the heap. *)
Definition auxtrace_heap__add (h : auxtrace_heap) (q : nat) (ord : Z) (realloc_ok : bool)
    : option (Z * auxtrace_heap) :=
  let add (h : auxtrace_heap) :=
    arr ← auxtrace_heapify (heap_array h) (heap_cnt h) (HeapItem q ord);
    Some (0%Z, Heap arr (heap_cnt h + 1)) in
  if heap_sz h <=? q then
    if realloc_ok then
      let sz := grow_sz q AUXTRACE_INIT_NR_QUEUES q in
      add (Heap (heap_array h ++ replicate (sz - heap_sz h) inhabitant) (heap_cnt h))
    else Some ((-12)%Z, h)
  else add h.

(** The [while (1)] loop of auxtrace_heap__pop: [inl arr] is the early return,
    [inr (arr, pos)] the break. *)
Fixpoint pop_loop (fuel : nat) (arr : list auxtrace_heap_item) (cnt pos : nat)
    : option (list auxtrace_heap_item + list auxtrace_heap_item * nat) :=
  match fuel with
  | O => None
  | S fuel =>
      let left := pos * 2 + 1 in
      if cnt <=? left then Some (inr (arr, pos)) else
      let right := left + 1 in
      l ← arr !! left;
      if cnt <=? right then
        arr ← wr_item arr pos l; Some (inl arr)
      else
        r ← arr !! right;
        if (ordinal l <? ordinal r)%Z then
          arr ← wr_item arr pos l; pop_loop fuel arr cnt left
        else
          arr ← wr_item arr pos r; pop_loop fuel arr cnt right
  end.

Definition auxtrace_heap__pop (h : auxtrace_heap) : option auxtrace_heap :=
  let cnt := heap_cnt h in
  if cnt =? 0 then Some h else
  res ← pop_loop cnt (heap_array h) cnt 0;
  match res with
  | inl arr => Some (Heap arr (cnt - 1))
  | inr (arr, pos) =>
      last ← arr !! (cnt - 1);
      arr ← auxtrace_heapify arr pos last;
      Some (Heap arr (cnt - 1))
  end.

Definition auxtrace_heap__free (h : auxtrace_heap) : auxtrace_heap := Heap [] 0.

(** * Heap order *)

(** The ordinal at a position. *)
Definition ord_at (arr : list auxtrace_heap_item) (i : nat) : Z := ordinal (arr !!! i).

Definition heap_order (arr : list auxtrace_heap_item) (cnt : nat) : Prop :=
  forall i, 0 < i < cnt -> (ord_at arr (parent i) <= ord_at arr i)%Z.

(** Heap order except around the hole [pos]. *)
Record hole (arr : list auxtrace_heap_item) (cnt pos : nat) : Prop := {
  hole_order : forall i, 0 < i < cnt -> i <> pos -> parent i <> pos ->
    (ord_at arr (parent i) <= ord_at arr i)%Z;
  hole_skip : forall c, 0 < c < cnt -> parent c = pos -> 0 < pos ->
    (ord_at arr (parent pos) <= ord_at arr c)%Z
}.

Lemma parent_lt i : 0 < i -> parent i < i.
Proof. intros. unfold parent. apply Nat.Div0.div_lt_upper_bound. lia. Qed.

Lemma parent_left p : parent (p * 2 + 1) = p.
Proof. unfold parent. replace (p * 2 + 1 - 1) with (p * 2) by lia. apply Nat.div_mul. lia. Qed.

Lemma parent_right p : parent (p * 2 + 1 + 1) = p.
Proof.
  unfold parent. replace (p * 2 + 1 + 1 - 1) with (1 + p * 2) by lia.
  rewrite Nat.div_add by lia. done.
Qed.

Lemma parent_children p c : 0 < c -> parent c = p -> c = p * 2 + 1 \/ c = p * 2 + 1 + 1.
Proof.
  unfold parent. intros Hc Hp. pose proof (Nat.div_mod (c - 1) 2). pose proof (Nat.mod_upper_bound (c - 1) 2). lia.
Qed.

Lemma ord_at_insert arr i j x :
  i < length arr -> ord_at (<[i := x]> arr) j = if decide (i = j) then ordinal x else ord_at arr j.
Proof.
  intros Hi. unfold ord_at. destruct (decide (i = j)) as [->|Hne].
  - by rewrite list_lookup_total_insert_eq.
  - by rewrite list_lookup_total_insert_ne.
Qed.

Lemma lookup_ord arr i : i < length arr -> exists x, arr !! i = Some x /\ ord_at arr i = ordinal x.
Proof.
  intros Hi. destruct (lookup_lt_is_Some_2 arr i Hi) as [x Hx]. exists x. split; [done|].
  unfold ord_at. by rewrite (list_lookup_total_correct _ _ _ Hx).
Qed.

(** The contents, with [x] in the hole. *)
Definition filled (arr : list auxtrace_heap_item) (cnt pos : nat) (x : auxtrace_heap_item) :=
  take cnt (<[pos := x]> arr).

(** Moving an item into the hole moves the hole. *)
Lemma filled_move arr cnt pos q x y :
  pos < cnt -> q < cnt -> cnt <= length arr -> arr !! q = Some y ->
  filled (<[pos := y]> arr) cnt q x ≡ₚ filled arr cnt pos x.
Proof.
  intros Hp Hq Hc Hy. unfold filled.
  destruct (decide (pos = q)) as [->|Hne].
  { by rewrite (list_insert_id arr q y). }
  rewrite !take_insert_lt by done.
  rewrite <- (list_insert_insert_eq (take cnt arr) pos y x).
  apply Permutation_insert_swap.
  - apply list_lookup_insert_eq. rewrite length_take. lia.
  - rewrite list_lookup_insert_ne by done. by rewrite lookup_take_lt.
Qed.

(** ** Sifting up *)

Lemma wr_item_ok arr pos it : pos < length arr -> wr_item arr pos it = Some (<[pos := it]> arr).
Proof. intros. unfold wr_item. by rewrite decide_True. Qed.

Ltac ord_simpl := rewrite ?ord_at_insert by (rewrite ?length_insert; lia); repeat case_decide; try congruence; try lia.

(** Moving the parent of the hole down keeps heap order except around the new
    hole. *)
Lemma hole_up arr cnt pos p ord :
  0 < pos < cnt -> cnt <= length arr -> arr !! parent pos = Some p -> (ord < ordinal p)%Z ->
  hole arr cnt pos -> (forall c, 0 < c < cnt -> parent c = pos -> (ord <= ord_at arr c)%Z) ->
  hole (<[pos := p]> arr) cnt (parent pos) /\
  (forall c, 0 < c < cnt -> parent c = parent pos -> (ord <= ord_at (<[pos := p]> arr) c)%Z).
Proof.
  intros Hp Hc Hpar Hlt [H1 H2] H3. pose proof (parent_lt pos ltac:(lia)) as Hpp.
  assert (Ho : ord_at arr (parent pos) = ordinal p)
    by (unfold ord_at; by rewrite (list_lookup_total_correct _ _ _ Hpar)).
  assert (Hroot : 0 < parent pos -> (ord_at arr (parent (parent pos)) <= ordinal p)%Z).
  { intros H0. rewrite <- Ho. pose proof (parent_lt (parent pos) H0). apply H1; lia. }
  split; [split|].
  - intros i Hi Hne Hne'. pose proof (parent_lt i ltac:(lia)). ord_simpl.
    + rewrite <- Ho. apply H2; lia.
    + apply H1; lia.
  - intros c Hcc Hpc H0. pose proof (parent_lt (parent pos) H0). ord_simpl.
    etransitivity; [by apply Hroot|]. rewrite <- Ho, <- Hpc. apply H1; lia.
  - intros c Hcc Hpc. ord_simpl. transitivity (ordinal p); [lia|]. rewrite <- Ho, <- Hpc. apply H1; lia.
Qed.

Lemma heapify_loop_ok fuel : forall arr cnt pos it,
  pos <= fuel -> pos < cnt -> cnt <= length arr -> hole arr cnt pos ->
  (forall c, 0 < c < cnt -> parent c = pos -> (ordinal it <= ord_at arr c)%Z) ->
  exists arr' pos', heapify_loop fuel arr pos (ordinal it) = Some (arr', pos') /\
    pos' < cnt /\ length arr' = length arr /\ heap_order (<[pos' := it]> arr') cnt /\
    filled arr' cnt pos' it ≡ₚ filled arr cnt pos it /\
    drop cnt arr' = drop cnt arr.
Proof.
  induction fuel as [|fuel IH]; intros arr cnt pos it Hf Hp Hc Hh Hch.
  - assert (pos = 0) as -> by lia. exists arr, 0. cbn. split_and!; try done.
    intros i Hi. pose proof (parent_lt i ltac:(lia)). destruct Hh as [H1 _]. ord_simpl.
    + apply Hch; lia.
    + apply H1; lia.
  - cbn [heapify_loop]. destruct (Nat.eqb_spec pos 0) as [->|Hne].
    { exists arr, 0. split_and!; try done. intros i Hi. pose proof (parent_lt i ltac:(lia)).
      destruct Hh as [H1 _]. ord_simpl; [apply Hch; lia|apply H1; lia]. }
    pose proof (parent_lt pos ltac:(lia)) as Hpp.
    destruct (lookup_ord arr (parent pos)) as (p & Hpar & Ho); [lia|]. rewrite Hpar. mred.
    destruct (Z.leb_spec (ordinal p) (ordinal it)) as [Hle|Hgt].
    { exists arr, pos. split_and!; try done. intros i Hi. pose proof (parent_lt i ltac:(lia)).
      destruct Hh as [H1 _]. ord_simpl;
        first [apply Hch; lia | apply H1; lia | subst; lia]. }
    rewrite wr_item_ok by lia. mred.
    destruct (hole_up arr cnt pos p (ordinal it)) as [Hh' Hch']; try done; [lia|].
    destruct (IH (<[pos := p]> arr) cnt (parent pos) it) as (arr' & pos' & -> & Hp' & Hl & Hho & Hperm & Hdr);
      try done; rewrite ?length_insert; try lia.
    exists arr', pos'. rewrite length_insert in Hl. split_and!; try done.
    + rewrite Hperm. apply filled_move; done || lia.
    + rewrite Hdr. apply drop_insert_lt. lia.
Qed.

Lemma auxtrace_heapify_ok arr cnt pos it :
  pos < cnt -> cnt <= length arr -> hole arr cnt pos ->
  (forall c, 0 < c < cnt -> parent c = pos -> (ordinal it <= ord_at arr c)%Z) ->
  exists arr', auxtrace_heapify arr pos it = Some arr' /\ length arr' = length arr /\
    heap_order arr' cnt /\ take cnt arr' ≡ₚ filled arr cnt pos it /\ drop cnt arr' = drop cnt arr.
Proof.
  intros Hp Hc Hh Hch. unfold auxtrace_heapify.
  destruct (heapify_loop_ok pos arr cnt pos it) as (arr' & pos' & -> & Hp' & Hl & Hho & Hperm & Hdr);
    try done. mred. rewrite wr_item_ok by lia. eexists. split; [reflexivity|].
  rewrite length_insert. split_and!; try done. rewrite drop_insert_lt by lia. done.
Qed.

(** ** Popping *)

Lemma hole_mono arr cnt cnt' pos : cnt' <= cnt -> hole arr cnt pos -> hole arr cnt' pos.
Proof. intros Hle [H1 H2]. split; intros; [apply H1|apply H2]; lia. Qed.

Lemma filled_last arr cnt x :
  0 < cnt <= length arr -> filled arr cnt (cnt - 1) x ≡ₚ x :: take (cnt - 1) arr.
Proof.
  intros Hc. unfold filled. replace cnt with (S (cnt - 1)) at 1 by lia.
  rewrite (take_S_r _ _ x) by (apply list_lookup_insert_eq; lia).
  rewrite take_insert_ge by lia. by rewrite Permutation_app_comm.
Qed.

(** Moving the smaller child of the hole up keeps heap order except around the
    new hole. *)
Lemma hole_down arr cnt pos c it :
  pos < cnt -> cnt <= length arr -> 0 < c < cnt -> parent c = pos -> arr !! c = Some it ->
  (forall d, 0 < d < cnt -> parent d = pos -> (ordinal it <= ord_at arr d)%Z) ->
  hole arr cnt pos -> hole (<[pos := it]> arr) cnt c.
Proof.
  intros Hp Hc Hcc Hpc Hit Hmin [H1 H2]. pose proof (parent_lt c ltac:(lia)) as Hlt.
  assert (Ho : ord_at arr c = ordinal it)
    by (unfold ord_at; by rewrite (list_lookup_total_correct _ _ _ Hit)).
  split.
  - intros i Hi Hne Hne'. pose proof (parent_lt i ltac:(lia)). ord_simpl.
    + apply Hmin; lia.
    + subst i. rewrite <- Ho. apply H2; lia.
    + apply H1; lia.
  - intros d Hd Hpd H0. pose proof (parent_lt d ltac:(lia)). rewrite Hpc. ord_simpl.
    rewrite <- Ho, <- Hpd. apply H1; lia.
Qed.

(** The value left in the hole was copied up. *)
Definition stale (arr : list auxtrace_heap_item) (pos : nat) : Prop :=
  pos = 0 \/ ord_at arr (parent pos) = ord_at arr pos.

Lemma pop_loop_ok cnt x fuel : forall arr pos,
  pos < cnt -> cnt <= length arr -> cnt <= pos + fuel -> hole arr cnt pos -> stale arr pos ->
  (exists arr', pop_loop fuel arr cnt pos = Some (inl arr') /\ length arr' = length arr /\
     heap_order arr' (cnt - 1) /\ filled arr cnt pos x ≡ₚ x :: take (cnt - 1) arr') \/
  (exists arr' pos', pop_loop fuel arr cnt pos = Some (inr (arr', pos')) /\ length arr' = length arr /\
     pos' < cnt /\ cnt <= pos' * 2 + 1 /\ hole arr' cnt pos' /\ stale arr' pos' /\
     filled arr cnt pos x ≡ₚ filled arr' cnt pos' x).
Proof.
  induction fuel as [|fuel IH]; intros arr pos Hp Hc Hf Hh Hst; [lia|].
  cbn [pop_loop]. destruct (Nat.leb_spec cnt (pos * 2 + 1)) as [Hleaf|Hleft].
  { right. exists arr, pos. by split_and!. }
  destruct (lookup_ord arr (pos * 2 + 1)) as (l & Hl & Hlo); [lia|]. rewrite Hl. mred.
  pose proof (parent_left pos) as Hpl. pose proof (parent_right pos) as Hpr.
  destruct (Nat.leb_spec cnt (pos * 2 + 1 + 1)) as [Hone|Htwo].
  { left. rewrite wr_item_ok by lia. mred. eexists. split; [reflexivity|].
    rewrite length_insert. split; [done|]. assert (Hlast : pos * 2 + 1 = cnt - 1) by lia. split.
    - intros i Hi. pose proof (parent_lt i ltac:(lia)).
      destruct (hole_down arr cnt pos (pos * 2 + 1) l) as [H1 _]; try done; [lia| |].
      { intros d Hd Hpd. destruct (parent_children pos d) as [-> | ->]; lia. }
      apply H1; [lia..|]. intros Heq. pose proof (parent_lt i ltac:(lia)). lia.
    - rewrite <- (filled_move arr cnt pos (cnt - 1) x l) by (congruence || lia).
      rewrite filled_last by (rewrite length_insert; lia). done. }
  destruct (lookup_ord arr (pos * 2 + 1 + 1)) as (r & Hr & Hro); [lia|]. rewrite Hr. mred.
  assert (Hmove : forall c it, arr !! c = Some it -> c < cnt -> pos < c -> parent c = pos ->
     (forall d, 0 < d < cnt -> parent d = pos -> (ordinal it <= ord_at arr d)%Z) ->
     hole (<[pos := it]> arr) cnt c /\ stale (<[pos := it]> arr) c /\
     filled arr cnt pos x ≡ₚ filled (<[pos := it]> arr) cnt c x).
  { intros c it Hit Hlt Hgt Hpar Hmin. split_and!.
    - apply hole_down; done || lia.
    - right. rewrite Hpar. ord_simpl. unfold ord_at. by rewrite (list_lookup_total_correct _ _ _ Hit).
    - symmetry. apply filled_move; done || lia. }
  destruct (Z.ltb_spec (ordinal l) (ordinal r)) as [Hlr|Hlr]; rewrite wr_item_ok by lia; mred.
  - destruct (Hmove (pos * 2 + 1) l) as (Hh' & Hst' & Hperm); [done|lia|lia|done| |].
    { intros d Hd Hpd. destruct (parent_children pos d) as [-> | ->]; lia. }
    destruct (IH (<[pos := l]> arr) (pos * 2 + 1)) as [Hi | Hi]; try done; rewrite ?length_insert; try lia.
    + left. rewrite length_insert in Hi. destruct Hi as (a & H1 & H2 & H3 & H4).
      exists a. split_and!; try done. by rewrite Hperm.
    + right. rewrite length_insert in Hi. destruct Hi as (a & q & H1 & H2 & H3 & H4 & H5 & H6 & H7).
      exists a, q. split_and!; try done. by rewrite Hperm.
  - destruct (Hmove (pos * 2 + 1 + 1) r) as (Hh' & Hst' & Hperm); [done|lia|lia|done| |].
    { intros d Hd Hpd. destruct (parent_children pos d) as [-> | ->]; lia. }
    destruct (IH (<[pos := r]> arr) (pos * 2 + 1 + 1)) as [Hi | Hi]; try done; rewrite ?length_insert; try lia.
    + left. rewrite length_insert in Hi. destruct Hi as (a & H1 & H2 & H3 & H4).
      exists a. split_and!; try done. by rewrite Hperm.
    + right. rewrite length_insert in Hi. destruct Hi as (a & q & H1 & H2 & H3 & H4 & H5 & H6 & H7).
      exists a, q. split_and!; try done. by rewrite Hperm.
Qed.

(** * The heap as a priority queue *)

(** The items in the heap. *)
Definition items (h : auxtrace_heap) : list auxtrace_heap_item := take (heap_cnt h) (heap_array h).

(** Heap order; every queue is in the heap at most once and below heap_sz, which
    bounds the number of items by the size of the array. *)
Record heap_ok (h : auxtrace_heap) : Prop := {
  ho_cnt : heap_cnt h <= heap_sz h;
  ho_order : heap_order (heap_array h) (heap_cnt h);
  ho_nodup : NoDup (queue_nr <$> items h);
  ho_bound : Forall (fun it => queue_nr it < heap_sz h) (items h)
}.

Lemma heap_ok_empty : heap_ok (Heap [] 0).
Proof. split; cbn; [lia| |constructor|constructor]. intros i Hi. lia. Qed.

Lemma heap_order_root arr cnt i : heap_order arr cnt -> i < cnt -> (ord_at arr 0 <= ord_at arr i)%Z.
Proof.
  intros Ho. induction i as [i IH] using lt_wf_ind. intros Hi.
  destruct i as [|i]; [lia|]. pose proof (parent_lt (S i) ltac:(lia)).
  etransitivity; [apply (IH (parent (S i))); lia|]. apply Ho. lia.
Qed.

Lemma root_min h x :
  heap_ok h -> items h !! 0 = Some x -> Forall (fun it => (ordinal x <= ordinal it)%Z) (items h).
Proof.
  intros [Hc Ho _ _] Hx. unfold items, heap_sz in *. apply Forall_lookup. intros i it Hit.
  apply lookup_take_Some in Hit as [Hit Hi]. apply lookup_take_Some in Hx as [Hx _].
  pose proof (heap_order_root _ _ i Ho Hi) as Hle. unfold ord_at in Hle.
  by rewrite (list_lookup_total_correct _ _ _ Hit), (list_lookup_total_correct _ _ _ Hx) in Hle.
Qed.

Lemma pop_items h x :
  heap_ok h -> items h !! 0 = Some x ->
  exists h', auxtrace_heap__pop h = Some h' /\ heap_sz h' = heap_sz h /\
    heap_cnt h' = heap_cnt h - 1 /\ heap_order (heap_array h') (heap_cnt h') /\ items h ≡ₚ x :: items h'.
Proof.
  intros [Hc Ho _ _] Hx. destruct h as [arr cnt]. unfold items, heap_sz in *. cbn [heap_array heap_cnt] in *.
  apply lookup_take_Some in Hx as [Hx H0].
  assert (Hh : hole arr cnt 0) by (split; [intros; by apply Ho|intros; lia]).
  assert (Hall : take cnt arr = filled arr cnt 0 x) by (unfold filled; by rewrite list_insert_id).
  unfold auxtrace_heap__pop. cbn [heap_array heap_cnt]. destruct (Nat.eqb_spec cnt 0); [lia|].
  destruct (pop_loop_ok cnt x cnt arr 0) as [(a & Hl & Hlen & Hord & Hp) | (a & q & Hl & Hlen & Hq & Hleaf & Hhq & Hst & Hp)];
    try done; [by left|rewrite Hl; mred..].
  { eexists. split; [reflexivity|]. cbn. split_and!; try done. by rewrite Hall. }
  destruct (lookup_ord a (cnt - 1)) as (y & Hy & Hyo); [lia|]. rewrite Hy. mred.
  destruct (decide (q = cnt - 1)) as [->|Hne].
  - assert (Hid : auxtrace_heapify a (cnt - 1) y = Some a).
    { unfold auxtrace_heapify. assert (Hloop : heapify_loop (cnt - 1) a (cnt - 1) (ordinal y) = Some (a, cnt - 1)).
      - destruct (cnt - 1) as [|n1] eqn:Hn; [done|]. cbn [heapify_loop Nat.eqb].
        pose proof (parent_lt (S n1) ltac:(lia)).
        destruct (lookup_ord a (parent (S n1))) as (p & -> & Hpo); [lia|]. mred.
        destruct Hst as [|Hst]; [lia|]. rewrite Hpo, Hyo in Hst.
        by destruct (Z.leb_spec (ordinal p) (ordinal y)); [|lia].
      - rewrite Hloop. mred. rewrite wr_item_ok by lia. by rewrite list_insert_id. }
    rewrite Hid. mred. eexists. split; [reflexivity|]. cbn. split_and!; try done.
    + intros i Hi. pose proof (parent_lt i ltac:(lia)). destruct Hhq as [H1 _]. apply H1; lia.
    + rewrite Hall, Hp. apply filled_last. lia.
  - destruct (auxtrace_heapify_ok a (cnt - 1) q y) as (a' & -> & Hlen' & Hord & Hp' & _);
      [lia|lia|by apply (hole_mono _ cnt); [lia|]| |].
    { intros c Hcc Hpc. destruct (parent_children q c); lia. }
    mred. eexists. split; [reflexivity|]. cbn. split_and!; try done; [congruence|].
    rewrite Hall, Hp, Hp'. rewrite <- (filled_move a cnt q (cnt - 1) x y) by (done || lia).
    rewrite filled_last by (rewrite length_insert; lia). unfold filled. done.
Qed.

(** C21: auxtrace_heap__pop removes exactly the top of the heap, which is an
    item with the least ordinal, and leaves a heap of the other items; on an
    empty heap it does nothing. *)
Theorem auxtrace_heap__pop_min h :
  heap_ok h ->
  (heap_cnt h = 0 /\ auxtrace_heap__pop h = Some h) \/
  (exists x h', items h !! 0 = Some x /\ auxtrace_heap__pop h = Some h' /\ heap_ok h' /\
     items h ≡ₚ x :: items h' /\ Forall (fun it => (ordinal x <= ordinal it)%Z) (items h)).
Proof.
  intros Hok. destruct (decide (heap_cnt h = 0)) as [H0|H0].
  { left. split; [done|]. unfold auxtrace_heap__pop. by rewrite H0. }
  right. destruct (lookup_lt_is_Some_2 (items h) 0) as [x Hx].
  { unfold items. rewrite length_take. destruct Hok as [Hc _ _ _]. unfold heap_sz in Hc. lia. }
  destruct (pop_items h x Hok Hx) as (h' & Hpop & Hsz & Hcnt & Hord & Hp).
  exists x, h'. split_and!; try done; [|by apply root_min].
  pose proof Hok as [Hc _ Hnd Hb]. split; [lia|done| |].
  - rewrite Hp in Hnd. rewrite fmap_cons in Hnd. by apply NoDup_cons in Hnd as [_ Hnd].
  - rewrite Hp in Hb. rewrite Hsz. by apply Forall_cons in Hb as [_ Hb].
Qed.

(** ** Adding *)

Lemma grow_sz_enough fuel sz q : 0 < sz -> q < sz * 2 ^ fuel -> q < grow_sz fuel sz q.
Proof.
  revert sz. induction fuel as [|fuel IH]; intros sz H0 Hq; cbn [grow_sz]; [cbn in Hq; lia|].
  destruct (Nat.leb_spec sz q); [|done]. apply IH; [lia|]. rewrite Nat.pow_succ_r' in Hq. lia.
Qed.

Lemma nodup_bounded (l : list nat) n : NoDup l -> Forall (fun q => q < n) l -> length l <= n.
Proof.
  intros Hnd Hb. rewrite <- (length_seq n 0). apply submseteq_length. apply NoDup_submseteq; [done|].
  intros x Hx. rewrite Forall_forall in Hb. apply elem_of_seq. specialize (Hb x Hx). lia.
Qed.

Lemma heapify_add h q ord :
  heap_ok h -> queue_nr (HeapItem q ord) ∉ (queue_nr <$> items h) -> q < heap_sz h ->
  exists arr, auxtrace_heapify (heap_array h) (heap_cnt h) (HeapItem q ord) = Some arr /\
    heap_ok (Heap arr (heap_cnt h + 1)) /\
    items (Heap arr (heap_cnt h + 1)) ≡ₚ HeapItem q ord :: items h.
Proof.
  intros [Hc Ho Hnd Hb] Hq Hlt. set (it := HeapItem q ord) in *.
  assert (Hnd' : NoDup (queue_nr <$> it :: items h)) by (rewrite fmap_cons; by apply NoDup_cons).
  assert (Hb' : Forall (fun i => queue_nr i < heap_sz h) (it :: items h)) by (by apply Forall_cons).
  assert (Hroom : heap_cnt h + 1 <= length (heap_array h)).
  { assert (Hlen : length (queue_nr <$> it :: items h) <= heap_sz h)
      by (apply nodup_bounded; [done|by apply Forall_fmap]).
    rewrite length_fmap in Hlen. unfold items in Hlen. cbn [length] in Hlen.
    rewrite length_take in Hlen. unfold heap_sz in *. lia. }
  destruct (auxtrace_heapify_ok (heap_array h) (heap_cnt h + 1) (heap_cnt h) it)
    as (arr & Harr & Hl & Hord & Hp & _); [lia|done| | |].
  { split; [intros; apply Ho; lia|]. intros c Hcc Hpc. pose proof (parent_lt c). lia. }
  { intros c Hcc Hpc. pose proof (parent_lt c). lia. }
  assert (Hitems : items (Heap arr (heap_cnt h + 1)) ≡ₚ it :: items h).
  { unfold items. cbn [heap_array heap_cnt]. rewrite Hp.
    pose proof (filled_last (heap_array h) (heap_cnt h + 1) it ltac:(lia)) as Hf.
    by rewrite Nat.add_sub in Hf. }
  exists arr. split_and!; try done. split; unfold heap_sz in *; cbn [heap_array heap_cnt]; rewrite ?Hl; try done.
  - by rewrite Hitems.
  - by rewrite Hitems.
Qed.

(** Adding a queue that is not in the heap adds exactly that item, keeps
    the heap in order and never writes outside the array, however far the
    array has to grow; without memory to grow it the heap is unchanged and
    -ENOMEM is returned. *)
Theorem auxtrace_heap__add_ok h q ord :
  heap_ok h -> q ∉ (queue_nr <$> items h) ->
  (exists h', auxtrace_heap__add h q ord true = Some (0%Z, h') /\ heap_ok h' /\
     items h' ≡ₚ HeapItem q ord :: items h) /\
  (heap_sz h <= q -> auxtrace_heap__add h q ord false = Some ((-12)%Z, h)).
Proof.
  intros Hok Hq. split.
  2: { intros Hle. unfold auxtrace_heap__add. by destruct (Nat.leb_spec (heap_sz h) q); [|lia]. }
  unfold auxtrace_heap__add. destruct (Nat.leb_spec (heap_sz h) q) as [Hgrow|Hlt].
  - set (sz := grow_sz q AUXTRACE_INIT_NR_QUEUES q).
    assert (Hsz : q < sz).
    { apply grow_sz_enough; [unfold AUXTRACE_INIT_NR_QUEUES; lia|].
      pose proof (Nat.pow_gt_lin_r 2 q). unfold AUXTRACE_INIT_NR_QUEUES. lia. }
    set (h1 := Heap (heap_array h ++ replicate (sz - heap_sz h) inhabitant) (heap_cnt h)).
    assert (Hsz1 : heap_sz h1 = sz).
    { unfold h1, heap_sz in *. cbn. rewrite length_app, length_replicate. lia. }
    assert (Hitems : items h1 = items h).
    { unfold items, h1. cbn. destruct Hok as [Hc _ _ _]. unfold heap_sz in Hc. by rewrite take_app_le. }
    assert (Hok1 : heap_ok h1).
    { destruct Hok as [Hc Ho Hnd Hb]. split; rewrite ?Hitems, ?Hsz1; try done.
      - cbn. unfold heap_sz in *. lia.
      - intros i Hi. cbn in Hi. pose proof (parent_lt i ltac:(lia)). unfold ord_at, h1, heap_sz in *.
        cbn [heap_array]. rewrite !lookup_total_app_l by lia. by apply Ho.
      - eapply Forall_impl; [exact Hb|]. cbn. intros it Hit. lia. }
    destruct (heapify_add h1 q ord Hok1) as (arr & Harr & Hok' & Hp);
      [by rewrite Hitems|by rewrite Hsz1|].
    rewrite Harr. mred. eexists. split; [reflexivity|]. by rewrite Hitems in Hp.
  - destruct (heapify_add h q ord Hok Hq Hlt) as (arr & Harr & Hok' & Hp).
    rewrite Harr. mred. eauto.
Qed.

(** * Concrete instances *)

Module AuxtraceHeapExamples.

Definition heap3 : auxtrace_heap :=
  Heap (HeapItem 5 10 :: HeapItem 1 30 :: HeapItem 2 20 :: HeapItem 3 35 :: replicate 28 inhabitant) 4.

Lemma heap3_ok : heap_ok heap3.
Proof.
  split; [vm_compute; lia| | |].
  - intros i Hi. cbn in Hi. destruct i as [|[|[|[|i]]]]; vm_compute; lia || discriminate.
  - apply (bool_decide_unpack (NoDup _)). vm_compute. exact I.
  - vm_compute. repeat constructor.
Qed.

Lemma auxtrace_heap__pop_min_witness :
  exists x h', items heap3 !! 0 = Some x /\ auxtrace_heap__pop heap3 = Some h' /\ heap_ok h' /\
    items heap3 ≡ₚ x :: items h' /\ Forall (fun it => (ordinal x <= ordinal it)%Z) (items heap3).
Proof.
  destruct (auxtrace_heap__pop_min heap3 heap3_ok) as [[H _] | H]; [discriminate H|exact H].
Defined.

Lemma auxtrace_heap__add_ok_witness :
  (exists h', auxtrace_heap__add heap3 40 5 true = Some (0%Z, h') /\ heap_ok h' /\
     items h' ≡ₚ HeapItem 40 5 :: items heap3) /\
  auxtrace_heap__add heap3 40 5 false = Some ((-12)%Z, heap3).
Proof.
  destruct (auxtrace_heap__add_ok heap3 40 5%Z heap3_ok) as [H1 H2].
  - apply (bool_decide_unpack (40 ∉ (queue_nr <$> items heap3))). vm_compute. exact I.
  - split; [exact H1|]. apply H2. vm_compute. lia.
Defined.

End AuxtraceHeapExamples.
