(* ===== verification/AuxtraceQueues.v ===== *)
(** Model of the buffer queues and of the event index of util/auxtrace.c and
    util/auxtrace.h: auxtrace_queues__init, auxtrace_queues__grow,
    auxtrace_queues__queue_buffer, auxtrace_queues__split_buffer,
    auxtrace_queues__add_buffer, auxtrace_queues__add_event,
    auxtrace_queues__free, auxtrace_buffer__next and the auxtrace_index
    functions.

    Whether an allocation succeeds is decided by an oracle, a list of answers
    consumed in program order (allocations succeed once it is exhausted).  The
    state is returned with every error too, because a failing call may have
    changed it.  [QOob] is an access outside the queue array. *)

From S2P Require Import Prelude.

(** * Data *)

Definition ENOMEM : Z := 12.
Definition EINVAL : Z := 22.
Definition UINT_MAX : Z := 2 ^ 32 - 1.
Definition AUXTRACE_INIT_NR_QUEUES : Z := 32.
(** sizeof(struct auxtrace_queue): the list head, tid, cpu, set and priv. *)
Definition sizeof_auxtrace_queue : Z := 40.
Definition BUFFER_LIMIT_FOR_32_BIT : Z := 32 * 1024 * 1024.

Record auxtrace_buffer := Buffer {
  b_size : Z;
  b_tid : Z;
  b_cpu : Z;
  b_data : option Z;
  b_data_offset : Z;
  b_data_needs_freeing : bool;
  b_consecutive : bool;
  b_offset : Z;
  b_reference : Z;
  b_buffer_nr : Z
}.

Record auxtrace_queue := Queue {
  q_head : list auxtrace_buffer;
  q_tid : Z;
  q_cpu : Z;
  q_set : bool
}.

Record auxtrace_queues := Queues {
  queue_array : list auxtrace_queue;
  new_data : bool;
  populated : bool;
  next_buffer_nr : Z
}.

Definition nr_queues (qs : auxtrace_queues) : Z := zlen (queue_array qs).

Definition empty_queue : auxtrace_queue := Queue [] 0 0 false.
#[export] Instance auxtrace_queue_inhabited : Inhabited auxtrace_queue := populate empty_queue.

(** The fields of a PERF_RECORD_AUXTRACE event. *)
Record auxtrace_event := AuxEvent {
  ev_size : Z; ev_offset : Z; ev_reference : Z; ev_idx : Z; ev_tid : Z; ev_cpu : Z
}.

(** What the queues need of the session: [copy_data size] is auxtrace_copy_data
    reading the pipe, [cpu_bitmap] the --cpu filter, [bits_per_long] the word
    size of the build. *)
Record aux_session := AuxSession {
  one_mmap : bool;
  one_mmap_offset : Z;
  one_mmap_addr : Z;
  is_pipe : bool;
  copy_data : Z -> option Z;
  cpu_bitmap : option (Z -> bool);
  bits_per_long : Z
}.

(** * Results *)

Inductive qres (A : Type) : Type :=
| QOk (a : A) (qs : auxtrace_queues) (oracle : list bool)
| QErr (e : Z) (qs : auxtrace_queues) (oracle : list bool)
| QOob.
Arguments QOk {A} _ _ _.
Arguments QErr {A} _ _ _.
Arguments QOob {A}.

Definition alloc (oracle : list bool) : bool * list bool :=
  match oracle with [] => (true, []) | b :: o => (b, o) end.

(** * Queues *)

Definition auxtrace_alloc_queue_array (nr : Z) (oracle : list bool)
    : option (list auxtrace_queue) * list bool :=
  let max_nr_queues := UINT_MAX / sizeof_auxtrace_queue in
  if max_nr_queues <? nr then (None, oracle) else
  let '(ok, oracle) := alloc oracle in
  (if (ok : bool) then Some (replicate (Z.to_nat nr) empty_queue) else None, oracle).

(** [None] is -ENOMEM; the structure is not used after that. *)
Definition auxtrace_queues__init (oracle : list bool) : option auxtrace_queues * list bool :=
  let '(a, oracle) := auxtrace_alloc_queue_array AUXTRACE_INIT_NR_QUEUES oracle in
  (a ← a; Some (Queues a false false 0), oracle).

(** [while (nr_queues && nr_queues < new_nr_queues) nr_queues <<= 1;]: after 32
    turns an [unsigned int] is zero. *)
Fixpoint grow_loop (fuel : nat) (nr new_nr : Z) : Z :=
  match fuel with
  | O => nr
  | S fuel =>
      if negb (nr =? 0) && (nr <? new_nr) then grow_loop fuel (u32 (Z.shiftl nr 1)) new_nr else nr
  end.

Definition auxtrace_queues__grow (qs : auxtrace_queues) (new_nr : Z) (oracle : list bool) : qres unit :=
  let nr := nr_queues qs in
  let nr := if nr =? 0 then AUXTRACE_INIT_NR_QUEUES else nr in
  let nr := grow_loop 33 nr new_nr in
  if (nr <? nr_queues qs) || (nr <? new_nr) then QErr (- EINVAL) qs oracle else
  let '(a, oracle) := auxtrace_alloc_queue_array nr oracle in
  match a with
  | None => QErr (- ENOMEM) qs oracle
  | Some a =>
      QOk () (Queues (queue_array qs ++ drop (length (queue_array qs)) a)
                (new_data qs) (populated qs) (next_buffer_nr qs)) oracle
  end.

Definition set_queue (qs : auxtrace_queues) (idx : Z) (q : auxtrace_queue) : auxtrace_queues :=
  Queues (<[Z.to_nat idx := q]> (queue_array qs)) (new_data qs) (populated qs) (next_buffer_nr qs).

Definition number_buffer (b : auxtrace_buffer) (nr : Z) : auxtrace_buffer :=
  Buffer (b_size b) (b_tid b) (b_cpu b) (b_data b) (b_data_offset b) (b_data_needs_freeing b)
    (b_consecutive b) (b_offset b) (b_reference b) nr.

(** The part of auxtrace_queues__queue_buffer after the array is large enough.
    The result is the buffer as queued. *)
Definition queue_at (qs : auxtrace_queues) (idx : Z) (b : auxtrace_buffer) (oracle : list bool)
    : qres auxtrace_buffer :=
  match queue_array qs !! Z.to_nat idx with
  | None => QOob
  | Some q =>
      let put (q : auxtrace_queue) :=
        let b := number_buffer b (next_buffer_nr qs) in
        let qs := set_queue qs idx (Queue (q_head q ++ [b]) (q_tid q) (q_cpu q) (q_set q)) in
        QOk b (Queues (queue_array qs) true true (u64 (next_buffer_nr qs + 1))) oracle in
      if negb (q_set q) then put (Queue (q_head q) (b_tid b) (b_cpu b) true)
      else if negb (b_cpu b =? q_cpu q) || negb (b_tid b =? q_tid q)
      then QErr (- EINVAL) qs oracle
      else put q
  end.

Definition auxtrace_queues__queue_buffer (qs : auxtrace_queues) (idx : Z) (b : auxtrace_buffer)
    (oracle : list bool) : qres auxtrace_buffer :=
  if nr_queues qs <=? idx then
    match auxtrace_queues__grow qs (u32 (idx + 1)) oracle with
    | QOk _ qs oracle => queue_at qs idx b oracle
    | QErr e qs oracle => QErr e qs oracle
    | QOob => QOob
    end
  else queue_at qs idx b oracle.

(** A buffer at another part of the file. *)
Definition part (b : auxtrace_buffer) (data_offset size : Z) (consecutive : bool) : auxtrace_buffer :=
  Buffer size (b_tid b) (b_cpu b) (b_data b) data_offset (b_data_needs_freeing b) consecutive
    (b_offset b) (b_reference b) (b_buffer_nr b).

(** [while (sz > BUFFER_LIMIT_FOR_32_BIT)]: every turn takes a full piece off
    [sz]; the result is the buffer with what is left. *)
Fixpoint split_loop (fuel : nat) (qs : auxtrace_queues) (idx : Z) (b : auxtrace_buffer)
    (sz : Z) (consecutive : bool) (oracle : list bool) : qres auxtrace_buffer :=
  match fuel with
  | O => QOob
  | S fuel =>
      if BUFFER_LIMIT_FOR_32_BIT <? sz then
        let '(ok, oracle) := alloc oracle in
        if (ok : bool) then
          match auxtrace_queues__queue_buffer qs idx
                  (part b (b_data_offset b) BUFFER_LIMIT_FOR_32_BIT consecutive) oracle with
          | QOk _ qs oracle =>
              split_loop fuel qs idx
                (part b (b_data_offset b + BUFFER_LIMIT_FOR_32_BIT) (b_size b) (b_consecutive b))
                (sz - BUFFER_LIMIT_FOR_32_BIT) true oracle
          | QErr e qs oracle => QErr e qs oracle
          | QOob => QOob
          end
        else QErr (- ENOMEM) qs oracle
      else QOk (part b (b_data_offset b) sz consecutive) qs oracle
  end.

Definition auxtrace_queues__split_buffer (qs : auxtrace_queues) (idx : Z) (b : auxtrace_buffer)
    (oracle : list bool) : qres auxtrace_buffer :=
  split_loop (S (Z.to_nat (b_size b / BUFFER_LIMIT_FOR_32_BIT))) qs idx b (b_size b) false oracle.

Definition filter_cpu (s : aux_session) (cpu : Z) : bool :=
  match cpu_bitmap s with
  | Some bm => negb (cpu =? -1) && negb (bm cpu)
  | None => false
  end.

Definition set_data (b : auxtrace_buffer) (addr : Z) (needs_freeing : bool) : auxtrace_buffer :=
  Buffer (b_size b) (b_tid b) (b_cpu b) (Some addr) (b_data_offset b) needs_freeing
    (b_consecutive b) (b_offset b) (b_reference b) (b_buffer_nr b).

(** The result is the queued copy of the buffer, [None] when it was filtered
    out. *)
Definition auxtrace_queues__add_buffer (qs : auxtrace_queues) (s : aux_session) (idx : Z)
    (b : auxtrace_buffer) (oracle : list bool) : qres (option auxtrace_buffer) :=
  if filter_cpu s (b_cpu b) then QOk None qs oracle else
  let '(ok, oracle) := alloc oracle in
  if negb ok then QErr (- ENOMEM) qs oracle else
  let finish (b : auxtrace_buffer) (qs : auxtrace_queues) (oracle : list bool) :=
    match auxtrace_queues__queue_buffer qs idx b oracle with
    | QOk b qs oracle => QOk (Some b) qs oracle
    | QErr e qs oracle => QErr e qs oracle
    | QOob => QOob
    end in
  if one_mmap s then
    finish (set_data b (b_data_offset b - one_mmap_offset s + one_mmap_addr s)
              (b_data_needs_freeing b)) qs oracle
  else if is_pipe s then
    match copy_data s (b_size b) with
    | None => QErr (- ENOMEM) qs oracle
    | Some addr => finish (set_data b addr true) qs oracle
    end
  else if (bits_per_long s =? 32) && (BUFFER_LIMIT_FOR_32_BIT <? b_size b) then
    match auxtrace_queues__split_buffer qs idx b oracle with
    | QOk b qs oracle => finish b qs oracle
    | QErr e qs oracle => QErr e qs oracle
    | QOob => QOob
    end
  else finish b qs oracle.

Definition event_buffer (ev : auxtrace_event) (data_offset : Z) : auxtrace_buffer :=
  Buffer (ev_size ev) (ev_tid ev) (ev_cpu ev) None data_offset false false (ev_offset ev)
    (ev_reference ev) 0.

Definition auxtrace_queues__add_event (qs : auxtrace_queues) (s : aux_session) (ev : auxtrace_event)
    (data_offset : Z) (oracle : list bool) : qres (option auxtrace_buffer) :=
  auxtrace_queues__add_buffer qs s (ev_idx ev) (event_buffer ev data_offset) oracle.

Definition auxtrace_queues__free (qs : auxtrace_queues) : auxtrace_queues :=
  Queues [] (new_data qs) (populated qs) (next_buffer_nr qs).

(** The buffer after the one at position [pos] of the queue (the first one for
    [None]). *)
Definition auxtrace_buffer__next (q : auxtrace_queue) (pos : option nat) : option auxtrace_buffer :=
  match pos with
  | Some i => q_head q !! S i
  | None => q_head q !! 0%nat
  end.

(** * Queueing *)

(** What queue [i] holds. *)
Definition queue_of (qs : auxtrace_queues) (i : Z) : auxtrace_queue := queue_array qs !!! Z.to_nat i.
Definition buffers (qs : auxtrace_queues) (i : Z) : list auxtrace_buffer := q_head (queue_of qs i).

(** The array has grown by doubling only. *)
Definition queues_ok (qs : auxtrace_queues) : Prop :=
  exists j, 0 <= j <= 21 /\ nr_queues qs = 32 * 2 ^ j.

Lemma lookup_total_empty (l : list auxtrace_queue) n : (length l <= n)%nat -> l !!! n = empty_queue.
Proof. intros Hn. by rewrite list_lookup_total_alt, lookup_ge_None_2. Qed.

Lemma pow_bound j : 0 <= j <= 21 -> 0 < 32 * 2 ^ j <= 2 ^ 26.
Proof.
  intros Hj. pose proof (Z.pow_pos_nonneg 2 j). pose proof (Z.pow_le_mono_r 2 j 21). lia.
Qed.

Lemma grow_loop_ok t fuel : forall j,
  0 <= j <= 21 -> 21 - j < Z.of_nat fuel -> t <= 2 ^ 26 ->
  exists j', j <= j' <= 21 /\ grow_loop fuel (32 * 2 ^ j) t = 32 * 2 ^ j' /\ t <= 32 * 2 ^ j'.
Proof.
  induction fuel as [|fuel IH]; intros j Hj Hf Ht; [lia|].
  cbn [grow_loop]. pose proof (pow_bound j Hj) as Hp.
  destruct (Z.eqb_spec (32 * 2 ^ j) 0); [lia|]. cbn [negb andb].
  destruct (Z.ltb_spec (32 * 2 ^ j) t) as [Hlt|Hge]; [|exists j; split_and!; done || lia].
  assert (j < 21) by (destruct (decide (j = 21)) as [->|]; [cbn in Hlt; lia|lia]).
  rewrite Z.shiftl_mul_pow2, u32_small by lia.
  replace (32 * 2 ^ j * 2 ^ 1) with (32 * 2 ^ (j + 1)) by (rewrite Z.pow_add_r; lia).
  destruct (IH (j + 1)) as (j' & Hj' & Hg & Hle); [lia..|]. exists j'. split_and!; done || lia.
Qed.

Lemma grow_ok qs t :
  queues_ok qs -> nr_queues qs < t <= 2 ^ 26 ->
  exists qs', auxtrace_queues__grow qs t [] = QOk () qs' [] /\ queues_ok qs' /\ t <= nr_queues qs' /\
    (forall i, queue_of qs' i = queue_of qs i) /\ next_buffer_nr qs' = next_buffer_nr qs.
Proof.
  intros (j & Hj & Hnr) Ht. unfold auxtrace_queues__grow. pose proof (pow_bound j Hj).
  destruct (Z.eqb_spec (nr_queues qs) 0); [lia|]. rewrite Hnr.
  destruct (grow_loop_ok t 33 j) as (j' & Hj' & -> & Hle); [lia..|]. pose proof (pow_bound j' ltac:(lia)).
  destruct (Z.ltb_spec (32 * 2 ^ j') (32 * 2 ^ j)); [lia|].
  destruct (Z.ltb_spec (32 * 2 ^ j') t); [lia|]. cbn [orb].
  unfold auxtrace_alloc_queue_array. change (UINT_MAX / sizeof_auxtrace_queue) with 107374182.
  destruct (Z.ltb_spec 107374182 (32 * 2 ^ j')); [lia|]. cbn [alloc].
  eexists. split; [reflexivity|].
  assert (Hlen : nr_queues (Queues (queue_array qs ++ drop (length (queue_array qs))
      (replicate (Z.to_nat (32 * 2 ^ j')) empty_queue)) (new_data qs) (populated qs) (next_buffer_nr qs))
      = 32 * 2 ^ j').
  { unfold nr_queues, zlen in *. cbn [queue_array]. rewrite length_app, length_drop, length_replicate. lia. }
  rewrite Hlen. split_and!; [by exists j'; split; [lia|]|lia| |done].
  intros i. unfold queue_of. cbn [queue_array].
  destruct (decide (Z.to_nat i < length (queue_array qs))%nat) as [Hi|Hi].
  - by apply lookup_total_app_l.
  - rewrite lookup_total_app_r by lia. rewrite (lookup_total_empty (queue_array qs)) by lia.
    rewrite drop_replicate, list_lookup_total_alt.
    destruct (replicate _ empty_queue !! _) eqn:Hr; [|done].
    by apply lookup_replicate in Hr as [-> _].
Qed.

(** The buffer may join the queue: the queue is unused or of the same cpu and
    thread. *)
Definition joins (b : auxtrace_buffer) (q : auxtrace_queue) : Prop :=
  q_set q = false \/ (q_cpu q = b_cpu b /\ q_tid q = b_tid b).

(** [qs'] is [qs] with [b] appended to queue [idx]. *)
Record appended (qs qs' : auxtrace_queues) (idx : Z) (b : auxtrace_buffer) : Prop := {
  ap_ok : queues_ok qs';
  ap_nr : next_buffer_nr qs' = u64 (next_buffer_nr qs + 1);
  ap_other : forall i, 0 <= i -> i <> idx -> queue_of qs' i = queue_of qs i;
  ap_queue : queue_of qs' idx = Queue (buffers qs idx ++ [b]) (b_tid b) (b_cpu b) true
}.

Lemma queue_at_ok qs idx b :
  queues_ok qs -> 0 <= idx < nr_queues qs -> joins b (queue_of qs idx) ->
  exists qs', queue_at qs idx b [] = QOk (number_buffer b (next_buffer_nr qs)) qs' [] /\
    appended qs qs' idx (number_buffer b (next_buffer_nr qs)).
Proof.
  intros Hok Hi Hj. unfold queue_at, queue_of, nr_queues, zlen in *.
  destruct (lookup_lt_is_Some_2 (queue_array qs) (Z.to_nat idx)) as [q Hq]; [lia|]. rewrite Hq.
  rewrite (list_lookup_total_correct _ _ _ Hq) in Hj.
  assert (Hput : forall q', q_head q' = q_head q -> q_tid q' = b_tid b -> q_cpu q' = b_cpu b -> q_set q' = true ->
    let b' := number_buffer b (next_buffer_nr qs) in
    let qs1 := set_queue qs idx (Queue (q_head q' ++ [b']) (q_tid q') (q_cpu q') (q_set q')) in
    appended qs (Queues (queue_array qs1) true true (u64 (next_buffer_nr qs1 + 1))) idx b').
  { intros q' H1 H2 H3 H4 b' qs1. split.
    - destruct Hok as (j & Hjj & Hnr). exists j. split; [done|]. rewrite <- Hnr.
      unfold nr_queues, zlen, qs1, set_queue. cbn [queue_array]. by rewrite length_insert.
    - done.
    - intros i H0 Hne. unfold queue_of. cbn [queue_array qs1 set_queue].
      apply list_lookup_total_insert_ne. lia.
    - unfold queue_of, buffers, queue_of. cbn [queue_array qs1 set_queue].
      rewrite list_lookup_total_insert_eq by lia.
      rewrite (list_lookup_total_correct _ _ _ Hq), H1, H2, H3, H4. done. }
  destruct (q_set q) eqn:Hset; cbn [negb].
  - destruct Hj as [Hj | [Hc Ht]]; [congruence|]. rewrite Hc, Ht, !Z.eqb_refl. cbn [negb orb].
    eexists. split; [reflexivity|]. by apply (Hput (Queue (q_head q) (b_tid b) (b_cpu b) true)).
  - eexists. split; [reflexivity|]. by apply (Hput (Queue (q_head q) (b_tid b) (b_cpu b) true)).
Qed.

Lemma queue_buffer_ok qs idx b :
  queues_ok qs -> 0 <= idx < 2 ^ 26 -> joins b (queue_of qs idx) ->
  exists qs', auxtrace_queues__queue_buffer qs idx b [] =
      QOk (number_buffer b (next_buffer_nr qs)) qs' [] /\
    appended qs qs' idx (number_buffer b (next_buffer_nr qs)).
Proof.
  intros Hok Hi Hj. unfold auxtrace_queues__queue_buffer.
  destruct (Z.leb_spec (nr_queues qs) idx) as [Hg|Hg]; [|apply queue_at_ok; done || lia].
  rewrite u32_small by lia. destruct (grow_ok qs (idx + 1) Hok) as (qs1 & -> & Hok1 & Hn1 & Hsame & Hnum); [lia|].
  rewrite <- Hsame in Hj. destruct (queue_at_ok qs1 idx b Hok1) as (qs' & Hq & [A1 A2 A3 A4]); [lia|done|].
  rewrite Hq, Hnum. exists qs'. split; [done|]. split; [done| | |].
  - by rewrite A2, Hnum.
  - intros i H0 Hne. by rewrite A3.
  - rewrite A4, Hnum. unfold buffers. by rewrite Hsame.
Qed.

(** The buffer of a file as it is queued: with its address when the whole file
    is mapped. *)
Definition placed (s : aux_session) (b : auxtrace_buffer) : auxtrace_buffer :=
  if one_mmap s
  then set_data b (b_data_offset b - one_mmap_offset s + one_mmap_addr s) (b_data_needs_freeing b)
  else b.

(** A session on a file on a 64-bit machine. *)
Definition file_session (s : aux_session) : Prop := is_pipe s = false /\ bits_per_long s = 64.

Lemma add_event_ok qs s ev off :
  queues_ok qs -> file_session s -> 0 <= ev_idx ev < 2 ^ 26 -> filter_cpu s (ev_cpu ev) = false ->
  joins (event_buffer ev off) (queue_of qs (ev_idx ev)) ->
  let b := number_buffer (placed s (event_buffer ev off)) (next_buffer_nr qs) in
  exists qs', auxtrace_queues__add_event qs s ev off [] = QOk (Some b) qs' [] /\
    appended qs qs' (ev_idx ev) b.
Proof.
  intros Hok [Hp H64] Hi Hf Hj b. unfold auxtrace_queues__add_event, auxtrace_queues__add_buffer.
  cbn [b_cpu event_buffer]. rewrite Hf. cbn [alloc negb]. rewrite Hp, H64.
  change (64 =? 32) with false. cbn [andb].
  assert (Hj' : joins (placed s (event_buffer ev off)) (queue_of qs (ev_idx ev)))
    by (unfold placed; destruct (one_mmap s); exact Hj).
  destruct (queue_buffer_ok qs (ev_idx ev) _ Hok Hi Hj') as (qs' & Hq & Ha). exists qs'.
  split; [|exact Ha]. unfold placed in *. unfold b, placed.
  destruct (one_mmap s); cbn [b_data_offset event_buffer b_data_needs_freeing] in *; by rewrite Hq.
Qed.

Lemma placed_cpu s b n : b_cpu (number_buffer (placed s b) n) = b_cpu b.
Proof. unfold placed. by destruct (one_mmap s). Qed.

Lemma placed_tid s b n : b_tid (number_buffer (placed s b) n) = b_tid b.
Proof. unfold placed. by destruct (one_mmap s). Qed.

(** Adding events in file order; [None] when one of them fails. *)
Fixpoint add_events (qs : auxtrace_queues) (s : aux_session) (evs : list (auxtrace_event * Z))
    : option auxtrace_queues :=
  match evs with
  | [] => Some qs
  | (ev, off) :: evs =>
      match auxtrace_queues__add_event qs s ev off [] with
      | QOk _ qs _ => add_events qs s evs
      | _ => None
      end
  end.

(** What queue [i] is given by the events, numbered from [n] on. *)
Fixpoint numbered (s : aux_session) (n : Z) (evs : list (auxtrace_event * Z)) (i : Z)
    : list auxtrace_buffer :=
  match evs with
  | [] => []
  | (ev, off) :: evs =>
      if filter_cpu s (ev_cpu ev) then numbered s n evs i else
      (if ev_idx ev =? i then [number_buffer (placed s (event_buffer ev off)) n] else []) ++
      numbered s (n + 1) evs i
  end.

(** Events of one queue come from one cpu and thread. *)
Definition consistent (evs : list (auxtrace_event * Z)) : Prop :=
  forall e1 e2, e1 ∈ evs.*1 -> e2 ∈ evs.*1 -> ev_idx e1 = ev_idx e2 ->
    ev_cpu e1 = ev_cpu e2 /\ ev_tid e1 = ev_tid e2.

Lemma add_events_ok s evs : forall qs,
  queues_ok qs -> file_session s -> Forall (fun e => 0 <= ev_idx e.1 < 2 ^ 26) evs -> consistent evs ->
  (forall e, e ∈ evs.*1 -> q_set (queue_of qs (ev_idx e)) = false \/
     (q_cpu (queue_of qs (ev_idx e)) = ev_cpu e /\ q_tid (queue_of qs (ev_idx e)) = ev_tid e)) ->
  0 <= next_buffer_nr qs -> next_buffer_nr qs + zlen evs < 2 ^ 64 ->
  exists qs', add_events qs s evs = Some qs' /\
    forall i, 0 <= i -> buffers qs' i = buffers qs i ++ numbered s (next_buffer_nr qs) evs i.
Proof.
  induction evs as [|[ev off] evs IH]; intros qs Hok Hs Hidx Hcons Hj H0 H64.
  { exists qs. split; [done|]. intros i _. cbn. by rewrite app_nil_r. }
  apply Forall_cons in Hidx as [Hi Hidx]. cbn [fst] in Hi. rewrite zlen_cons in H64.
  assert (Hsub : forall e, e ∈ evs.*1 -> e ∈ ((ev, off) :: evs).*1)
    by (intros e He; by apply list_elem_of_further).
  assert (Hhd : ev ∈ ((ev, off) :: evs).*1) by apply list_elem_of_here.
  assert (Hcons' : consistent evs) by (intros e1 e2 H1 H2; apply Hcons; auto).
  pose proof (zlen_nonneg evs). cbn [add_events numbered].
  destruct (filter_cpu s (ev_cpu ev)) eqn:Hf.
  { unfold auxtrace_queues__add_event, auxtrace_queues__add_buffer. cbn [b_cpu event_buffer]. rewrite Hf.
    apply IH; auto. lia. }
  destruct (add_event_ok qs s ev off Hok Hs Hi Hf) as (qs1 & -> & [A1 A2 A3 A4]).
  { unfold joins. cbn. by apply Hj. }
  rewrite u64_small in A2 by lia.
  destruct (IH qs1) as (qs' & Hadd & Hbuf); try done; rewrite ?A2; try lia.
  { intros e He. destruct (decide (ev_idx e = ev_idx ev)) as [Heq|Hne].
    - right. rewrite Heq, A4, placed_cpu, placed_tid. cbn.
      destruct (Hcons e ev) as [-> ->]; auto.
    - assert (He0 : 0 <= ev_idx e).
      { apply list_elem_of_fmap in He as ([e' o'] & -> & He'). rewrite Forall_forall in Hidx.
        by destruct (Hidx _ He'). }
      rewrite A3 by done. apply Hj. auto. }
  exists qs'. split; [done|]. intros i Hi0. rewrite (Hbuf i Hi0), A2, app_assoc. f_equal.
  unfold buffers. destruct (Z.eqb_spec (ev_idx ev) i) as [<-|Hne].
  - by rewrite A4.
  - rewrite A3 by done. by rewrite app_nil_r.
Qed.

Lemma init_ok :
  exists qs, auxtrace_queues__init [] = (Some qs, []) /\ queues_ok qs /\ next_buffer_nr qs = 0 /\
    forall i, queue_of qs i = empty_queue.
Proof.
  eexists. split; [reflexivity|]. split_and!; [by exists 0|done|].
  intros i. unfold queue_of. cbn [queue_array]. rewrite list_lookup_total_alt.
  destruct (replicate _ empty_queue !! _) eqn:Hr; [|done]. by apply lookup_replicate in Hr as [-> _].
Qed.

(** C22: From freshly initialized queues, adding the AUX area events of a file on a
    64-bit machine puts into every queue exactly the events that name it, in file order
    and numbered in the order of arrival, skipping those the cpu filter excludes, and
    refuses none, also when the array of queues has to grow, provided that the queue
    indices are below 2^26 (a larger one can wrap the size of the array,
    [auxtrace_queues_index_wraps]), that the events of each queue come from one cpu and
    thread, and that no allocation fails. *)
Theorem auxtrace_queues_file_order s evs :
  file_session s -> Forall (fun e => 0 <= ev_idx e.1 < 2 ^ 26) evs -> consistent evs ->
  zlen evs < 2 ^ 64 ->
  exists qs qs', auxtrace_queues__init [] = (Some qs, []) /\ add_events qs s evs = Some qs' /\
    forall i, 0 <= i -> buffers qs' i = numbered s 0 evs i.
Proof.
  intros Hs Hidx Hcons H64. destruct init_ok as (qs & Hinit & Hok & Hn & Hempty). exists qs.
  destruct (add_events_ok s evs qs Hok Hs Hidx Hcons) as (qs' & Hadd & Hbuf); [|lia..|].
  { intros e _. left. by rewrite Hempty. }
  exists qs'. split_and!; try done. intros i Hi. rewrite (Hbuf i Hi), Hn. unfold buffers. by rewrite Hempty.
Qed.

(** The index of a queue comes from the file unchecked: for the largest
    index the size to grow to wraps to zero, growing succeeds without making
    the array any larger, and the queue is accessed outside the array. *)
Theorem auxtrace_queues_index_wraps qs b oracle :
  queues_ok qs -> fst (alloc oracle) = true ->
  auxtrace_queues__queue_buffer qs UINT_MAX b oracle = QOob.
Proof.
  intros (j & Hj & Hnr) Ha. pose proof (pow_bound j Hj). unfold auxtrace_queues__queue_buffer.
  destruct (Z.leb_spec (nr_queues qs) UINT_MAX); [|unfold UINT_MAX in *; lia].
  change (u32 (UINT_MAX + 1)) with 0. unfold auxtrace_queues__grow.
  destruct (Z.eqb_spec (nr_queues qs) 0); [lia|]. cbn [grow_loop].
  destruct (Z.ltb_spec (nr_queues qs) 0); [lia|]. rewrite andb_false_r, Z.ltb_irrefl.
  destruct (Z.ltb_spec (nr_queues qs) 0); [lia|]. cbn [orb].
  unfold auxtrace_alloc_queue_array. change (UINT_MAX / sizeof_auxtrace_queue) with 107374182.
  destruct (Z.ltb_spec 107374182 (nr_queues qs)); [lia|].
  destruct (alloc oracle) as [ok o]. cbn in Ha. subst ok.
  unfold queue_at. cbn [queue_array]. rewrite lookup_ge_None_2; [done|].
  rewrite length_app, length_drop, length_replicate. unfold nr_queues, zlen, UINT_MAX in *. lia.
Qed.

(** * Splitting large buffers *)

(** The buffers cover [sz] bytes of the file from [off] on, without gap or
    overlap, in pieces of at most the limit. *)
Fixpoint tiles (off : Z) (bs : list auxtrace_buffer) (sz : Z) : Prop :=
  match bs with
  | [] => sz = 0
  | b :: bs => b_data_offset b = off /\ 0 < b_size b <= BUFFER_LIMIT_FOR_32_BIT /\
               tiles (off + b_size b) bs (sz - b_size b)
  end.

Lemma joins_appended qs qs' idx b b' :
  appended qs qs' idx b -> b_cpu b' = b_cpu b -> b_tid b' = b_tid b -> joins b' (queue_of qs' idx).
Proof. intros [_ _ _ A] Hc Ht. right. rewrite A. cbn. by rewrite Hc, Ht. Qed.

Lemma split_loop_ok idx fuel : forall qs b sz c,
  queues_ok qs -> 0 <= idx < 2 ^ 26 -> joins b (queue_of qs idx) -> 0 < sz ->
  sz / BUFFER_LIMIT_FOR_32_BIT < Z.of_nat fuel ->
  exists qs' parts last, split_loop fuel qs idx b sz c [] = QOk last qs' [] /\ queues_ok qs' /\
    buffers qs' idx = buffers qs idx ++ parts /\ joins last (queue_of qs' idx) /\
    tiles (b_data_offset b) (parts ++ [last]) sz /\
    b_consecutive <$> parts ++ [last] = c :: replicate (length parts) true /\
    (forall i, 0 <= i -> i <> idx -> queue_of qs' i = queue_of qs i).
Proof.
  induction fuel as [|fuel IH]; intros qs b sz c Hok Hi Hj Hsz Hf.
  { pose proof (Z.div_pos sz BUFFER_LIMIT_FOR_32_BIT). unfold BUFFER_LIMIT_FOR_32_BIT in *. lia. }
  cbn [split_loop]. destruct (Z.ltb_spec BUFFER_LIMIT_FOR_32_BIT sz) as [Hbig|Hsmall].
  2: { exists qs, [], (part b (b_data_offset b) sz c). cbn. rewrite app_nil_r. split_and!; try done; lia. }
  cbn [alloc]. set (p := part b (b_data_offset b) BUFFER_LIMIT_FOR_32_BIT c).
  destruct (queue_buffer_ok qs idx p Hok Hi) as (qs1 & -> & Ha); [exact Hj|].
  set (b1 := part b (b_data_offset b + BUFFER_LIMIT_FOR_32_BIT) (b_size b) (b_consecutive b)).
  assert (Hl : 0 < BUFFER_LIMIT_FOR_32_BIT) by done.
  destruct (IH qs1 b1 (sz - BUFFER_LIMIT_FOR_32_BIT) true) as (qs' & parts & last & -> & Hok' & Hb & Hj' & Ht & Hc & Ho);
    [by destruct Ha|done|by apply (joins_appended qs qs1 idx _ b1 Ha)|lia| |].
  { replace (sz - BUFFER_LIMIT_FOR_32_BIT) with (sz + (-1) * BUFFER_LIMIT_FOR_32_BIT) by lia.
    rewrite Z.div_add by lia. lia. }
  destruct Ha as [A1 A2 A3 A4].
  exists qs', (number_buffer p (next_buffer_nr qs) :: parts), last. split_and!; try done.
  - rewrite Hb. unfold buffers at 1. rewrite A4. cbn [q_head]. by rewrite <- app_assoc.
  - cbn [app fmap list_fmap length replicate]. by rewrite Hc.
  - intros i H0 Hne. rewrite Ho, A3; done.
Qed.

(** On a 32-bit build a buffer larger than the limit is queued as
    consecutive pieces of at most 32 MiB that tile exactly its part of the file;
    only the first piece is not marked consecutive. *)
Theorem auxtrace_split_tiles qs s idx b :
  queues_ok qs -> 0 <= idx < 2 ^ 26 -> joins b (queue_of qs idx) ->
  filter_cpu s (b_cpu b) = false -> one_mmap s = false -> is_pipe s = false -> bits_per_long s = 32 ->
  BUFFER_LIMIT_FOR_32_BIT < b_size b ->
  exists qs' r parts, auxtrace_queues__add_buffer qs s idx b [] = QOk r qs' [] /\
    buffers qs' idx = buffers qs idx ++ parts /\ tiles (b_data_offset b) parts (b_size b) /\
    b_consecutive <$> parts = false :: replicate (length parts - 1) true /\
    (forall i, 0 <= i -> i <> idx -> queue_of qs' i = queue_of qs i).
Proof.
  intros Hok Hi Hj Hf H1 H2 H3 Hbig. unfold auxtrace_queues__add_buffer. rewrite Hf. cbn [alloc negb].
  rewrite H1, H2, H3. change (32 =? 32) with true. destruct (Z.ltb_spec BUFFER_LIMIT_FOR_32_BIT (b_size b)); [|lia].
  cbn [andb]. unfold auxtrace_queues__split_buffer.
  destruct (split_loop_ok idx (S (Z.to_nat (b_size b / BUFFER_LIMIT_FOR_32_BIT))) qs b (b_size b) false)
    as (qs1 & parts & last & -> & Hok1 & Hb & Hj1 & Ht & Hc & Ho); try done.
  { unfold BUFFER_LIMIT_FOR_32_BIT in Hbig. lia. }
  { pose proof (Z.div_pos (b_size b) BUFFER_LIMIT_FOR_32_BIT). unfold BUFFER_LIMIT_FOR_32_BIT in *. lia. }
  destruct (queue_buffer_ok qs1 idx last Hok1 Hi Hj1) as (qs' & -> & [A1 A2 A3 A4]).
  set (n := next_buffer_nr qs1) in *. exists qs', (Some (number_buffer last n)), (parts ++ [number_buffer last n]).
  split_and!; try done.
  - unfold buffers at 1. rewrite A4. cbn [q_head]. by rewrite Hb, <- app_assoc.
  - clear -Ht. revert Ht. generalize (b_data_offset b), (b_size b).
    induction parts as [|p ps IH]; intros off sz; cbn; [done|]. intros (? & ? & Hps). split_and!; try done; try lia. auto.
  - rewrite length_app. cbn [length]. rewrite Nat.add_sub, fmap_app in *. exact Hc.
  - intros i H0 Hne. by rewrite A3, Ho.
Qed.

(** * The index of AUX area events *)

Definition PERF_AUXTRACE_INDEX_ENTRY_COUNT : nat := 256.

Record auxtrace_index_entry := IndexEntry { file_offset : Z; entry_sz : Z }.

(** A list of arrays of entries; an array is the entries it holds. *)
Abbreviation auxtrace_index := (list (list auxtrace_index_entry)) (only parsing).

Definition auxtrace_index__alloc (head : auxtrace_index) (oracle : list bool)
    : option auxtrace_index * list bool :=
  let '(ok, oracle) := alloc oracle in (if (ok : bool) then Some (head ++ [[]]) else None, oracle).

(** The index with room in its last array; [None] when out of memory. *)
Definition auxtrace_index__last (head : auxtrace_index) (oracle : list bool)
    : option auxtrace_index * list bool :=
  let '(h, oracle) :=
    match head with [] => auxtrace_index__alloc head oracle | _ => (Some head, oracle) end in
  match h with
  | None => (None, oracle)
  | Some head =>
      if decide (PERF_AUXTRACE_INDEX_ENTRY_COUNT <= length (default [] (last head)))%nat
      then auxtrace_index__alloc head oracle else (Some head, oracle)
  end.

(** [entries\[nr\] = ent; nr += 1] on the last array. *)
Definition put_entry (head : auxtrace_index) (ent : auxtrace_index_entry) : auxtrace_index :=
  match last head with
  | None => head
  | Some a => take (length head - 1) head ++ [a ++ [ent]]
  end.

Definition auxtrace_index__auxtrace_event (head : auxtrace_index) (hdr_size off : Z) (oracle : list bool)
    : Z * auxtrace_index * list bool :=
  let '(h, oracle) := auxtrace_index__last head oracle in
  match h with
  | None => (- ENOMEM, head, oracle)
  | Some head => (0, put_entry head (IndexEntry off hdr_size), oracle)
  end.

(** What is written to the file; writen does not fail. *)
Definition entry_bytes (e : auxtrace_index_entry) : bytes :=
  le_bytes 8 (file_offset e) ++ le_bytes 8 (entry_sz e).

Definition auxtrace_index__do_write (a : list auxtrace_index_entry) : bytes := concat (entry_bytes <$> a).

Definition auxtrace_index__write (head : auxtrace_index) : bytes :=
  let total := foldl (fun t a => u64 (t + zlen a)) 0 head in
  le_bytes 8 total ++ concat (auxtrace_index__do_write <$> head).

(** The file descriptor is the bytes left to read. *)
Definition readn (fd : bytes) (n : nat) : option (bytes * bytes) :=
  if decide (n <= length fd)%nat then Some (take n fd, drop n fd) else None.

Definition swap64 (needs_swap : bool) (v : Z) : Z := if needs_swap then bswap_64 v else v.

(** [None] is the return value -1. *)
Definition auxtrace_index__process_entry (fd : bytes) (head : auxtrace_index) (needs_swap : bool)
    (oracle : list bool) : option (bytes * auxtrace_index * list bool) :=
  '(ent, fd) ← readn fd 16;
  let '(h, oracle) := auxtrace_index__last head oracle in
  head ← h;
  let off := swap64 needs_swap (le_val (take 8 ent)) in
  let sz := swap64 needs_swap (le_val (drop 8 ent)) in
  Some (fd, put_entry head (IndexEntry off sz), oracle).

(** [while (nr--)]. *)
Fixpoint process_loop (nr : nat) (fd : bytes) (head : auxtrace_index) (needs_swap : bool)
    (oracle : list bool) : option (bytes * auxtrace_index * list bool) :=
  match nr with
  | O => Some (fd, head, oracle)
  | S nr =>
      '(fd, head, oracle) ← auxtrace_index__process_entry fd head needs_swap oracle;
      process_loop nr fd head needs_swap oracle
  end.

Definition auxtrace_index__process (fd : bytes) (size : Z) (head : auxtrace_index) (needs_swap : bool)
    (oracle : list bool) : option (bytes * auxtrace_index * list bool) :=
  '(n, fd) ← readn fd 8;
  let nr := swap64 needs_swap (le_val n) in
  if size <? u64 (8 + u64 (nr * 16)) then None else
  process_loop (Z.to_nat nr) fd head needs_swap oracle.

(** ** Round trip *)

Definition entry_ok (e : auxtrace_index_entry) : Prop := is_uint 64 (file_offset e) /\ is_uint 64 (entry_sz e).

Definition arrays_ok (head : auxtrace_index) : Prop :=
  Forall (fun a => (length a <= PERF_AUXTRACE_INDEX_ENTRY_COUNT)%nat) head.

Lemma last_ok head :
  arrays_ok head ->
  exists pre a, auxtrace_index__last head [] = (Some (pre ++ [a]), []) /\ concat (pre ++ [a]) = concat head /\
    arrays_ok pre /\ (length a < PERF_AUXTRACE_INDEX_ENTRY_COUNT)%nat.
Proof.
  intros Ha. destruct head as [|a pre _] using rev_ind.
  { exists [], []. split_and!; try done. unfold PERF_AUXTRACE_INDEX_ENTRY_COUNT. cbn. lia. }
  apply Forall_app in Ha as [Hpre Ha]. apply Forall_cons in Ha as [Ha _].
  unfold auxtrace_index__last.
  assert (Hm : (match pre ++ [a] with [] => auxtrace_index__alloc (pre ++ [a]) [] | _ => (Some (pre ++ [a]), []) end)
    = (Some (pre ++ [a]), [])) by (by destruct pre).
  rewrite Hm, last_snoc. change (default [] (Some a)) with a.
  destruct (decide (PERF_AUXTRACE_INDEX_ENTRY_COUNT <= length a)%nat) as [Hfull|Hroom].
  - exists (pre ++ [a]), []. split_and!; try done.
    + rewrite (concat_app (pre ++ [a])). cbn. by rewrite app_nil_r.
    + apply Forall_app. split; [done|]. by apply Forall_singleton.
    + unfold PERF_AUXTRACE_INDEX_ENTRY_COUNT. cbn. lia.
  - exists pre, a. split_and!; try done. lia.
Qed.

Lemma put_entry_ok pre a e :
  arrays_ok pre -> (length a < PERF_AUXTRACE_INDEX_ENTRY_COUNT)%nat ->
  arrays_ok (put_entry (pre ++ [a]) e) /\ concat (put_entry (pre ++ [a]) e) = concat (pre ++ [a]) ++ [e].
Proof.
  intros Hp Ha. unfold put_entry. rewrite last_snoc, length_app, Nat.add_sub, take_app_length. split.
  - apply Forall_app. split; [done|]. apply Forall_singleton. rewrite length_app. cbn. lia.
  - rewrite !concat_app. cbn. by rewrite !app_nil_r, app_assoc.
Qed.

(** The index as a machine of the reader's byte order ([swap = false]) or of the
    other one writes it. *)
Definition entry_file (swap : bool) (e : auxtrace_index_entry) : bytes :=
  le_bytes 8 (swap64 swap (file_offset e)) ++ le_bytes 8 (swap64 swap (entry_sz e)).
Definition index_file (swap : bool) (es : list auxtrace_index_entry) : bytes :=
  le_bytes 8 (swap64 swap (zlen es)) ++ concat (entry_file swap <$> es).

Lemma swap64_word swap v : is_uint 64 v -> swap64 swap (le_val (le_bytes 8 (swap64 swap v))) = v.
Proof.
  intros Hv. rewrite le_val_bytes. change (256 ^ Z.of_nat 8) with (2 ^ 64). unfold swap64.
  destruct swap; [|by apply Z.mod_small].
  rewrite Z.mod_small by apply (bswap_bound 8). by apply bswap_involutive.
Qed.

Lemma readn_app b rest n : length b = n -> readn (b ++ rest) n = Some (b, rest).
Proof.
  intros <-. unfold readn. rewrite decide_True by (rewrite length_app; lia).
  by rewrite take_app_length, drop_app_length.
Qed.

Lemma process_entry_ok e rest head swap :
  entry_ok e -> arrays_ok head ->
  exists head', auxtrace_index__process_entry (entry_file swap e ++ rest) head swap [] =
      Some (rest, head', []) /\ arrays_ok head' /\ concat head' = concat head ++ [e].
Proof.
  intros [Ho Hs] Ha. unfold auxtrace_index__process_entry.
  rewrite readn_app by (unfold entry_file; by rewrite length_app, !length_le_bytes). mred.
  destruct (last_ok head Ha) as (pre & a & -> & Hc & Hp & Hl). mred.
  unfold entry_file. rewrite take_app_length', drop_app_length' by (by rewrite length_le_bytes).
  rewrite !swap64_word by done. eexists. split; [reflexivity|].
  destruct (put_entry_ok pre a (IndexEntry (file_offset e) (entry_sz e)) Hp Hl) as [H1 H2].
  split; [done|]. rewrite H2, Hc. by destruct e.
Qed.

Lemma process_loop_ok swap rest es : forall head,
  Forall entry_ok es -> arrays_ok head ->
  exists head', process_loop (length es) (concat (entry_file swap <$> es) ++ rest) head swap [] =
      Some (rest, head', []) /\ arrays_ok head' /\ concat head' = concat head ++ es.
Proof.
  induction es as [|e es IH]; intros head Hes Ha.
  { exists head. cbn. by rewrite app_nil_r. }
  apply Forall_cons in Hes as [He Hes]. cbn [fmap list_fmap concat length process_loop].
  rewrite <- app_assoc.
  destruct (process_entry_ok e (concat (entry_file swap <$> es) ++ rest) head swap He Ha) as (h1 & -> & Ha1 & Hc1).
  mred. destruct (IH h1 Hes Ha1) as (h' & Hp & Ha' & Hc'). exists h'. split; [exact Hp|].
  split; [done|]. by rewrite Hc', Hc1, <- app_assoc.
Qed.

Lemma zlen_index_file swap es : zlen (index_file swap es) = 8 + 16 * zlen es.
Proof.
  unfold index_file. rewrite zlen_app, zlen_le_bytes. change (Z.of_nat 8) with 8. f_equal.
  induction es as [|e es IH]; [done|]. cbn [fmap list_fmap concat]. rewrite zlen_app, zlen_cons, IH.
  unfold entry_file. rewrite zlen_app, !zlen_le_bytes. lia.
Qed.

Lemma total_entries (head : auxtrace_index) t :
  0 <= t -> t + zlen (concat head) < 2 ^ 64 ->
  foldl (fun t a => u64 (t + zlen a)) t head = t + zlen (concat head).
Proof.
  revert t. induction head as [|a head IH]; intros t H0 Hl; cbn [foldl concat] in *.
  - rewrite zlen_nil. lia.
  - rewrite zlen_app in *. pose proof (zlen_nonneg a). pose proof (zlen_nonneg (concat head)).
    rewrite u64_small by lia. rewrite IH; lia.
Qed.

Lemma write_is_file head :
  zlen (concat head) < 2 ^ 64 -> auxtrace_index__write head = index_file false (concat head).
Proof.
  intros Hl. unfold auxtrace_index__write, index_file. rewrite total_entries by lia. f_equal.
  clear Hl. induction head as [|a head IH]; [done|].
  cbn [fmap list_fmap concat]. rewrite IH, fmap_app, concat_app. done.
Qed.

(** The index of AUX area events survives the file: what
    auxtrace_index__write stores, auxtrace_index__process reads back as the same
    entries in the same order and leaves the file behind the index, also when
    the file was written on a machine of the other byte order. *)
Theorem auxtrace_index_roundtrip swap head rest :
  Forall entry_ok (concat head) -> zlen (concat head) < 2 ^ 59 ->
  auxtrace_index__write head = index_file false (concat head) /\
  exists head', auxtrace_index__process (index_file swap (concat head) ++ rest)
      (8 + 16 * zlen (concat head)) [] swap [] = Some (rest, head', []) /\
    concat head' = concat head /\ arrays_ok head'.
Proof.
  intros Hes Hl. split; [apply write_is_file; lia|]. set (es := concat head) in *.
  pose proof (zlen_nonneg es). unfold auxtrace_index__process, index_file. rewrite <- app_assoc.
  rewrite readn_app by apply length_le_bytes. mred. rewrite swap64_word by (unfold is_uint; lia).
  rewrite (u64_small (zlen es * 16)), u64_small by lia.
  destruct (Z.ltb_spec (8 + 16 * zlen es) (8 + zlen es * 16)); [lia|].
  replace (Z.to_nat (zlen es)) with (length es) by (unfold zlen; lia).
  destruct (process_loop_ok swap rest es []) as (h' & Hp & Ha & Hc); [done|constructor|]. eauto.
Qed.

(** * Concrete instances *)

Module AuxtraceQueuesExamples.

Definition file_sess : aux_session := AuxSession false 0 0 false (fun _ => None) None 64.
Definition sess32 : aux_session := AuxSession false 0 0 false (fun _ => None) None 32.

Definition three_events : list (auxtrace_event * Z) :=
  [(AuxEvent 100 0 1 0 7 0, 1000); (AuxEvent 200 0 2 40 8 1, 2000); (AuxEvent 300 100 3 0 7 0, 3000)].

Lemma auxtrace_queues_file_order_witness :
  exists qs qs', auxtrace_queues__init [] = (Some qs, []) /\
    add_events qs file_sess three_events = Some qs' /\
    forall i, 0 <= i -> buffers qs' i = numbered file_sess 0 three_events i.
Proof.
  apply auxtrace_queues_file_order.
  - split; reflexivity.
  - repeat (apply Forall_cons; split; [cbn; lia|]). apply Forall_nil. exact I.
  - intros e1 e2 H1 H2 Hi.
    repeat (apply elem_of_cons in H1 as [-> | H1]); [..|by apply not_elem_of_nil in H1];
      repeat (apply elem_of_cons in H2 as [-> | H2]);
      try (by apply not_elem_of_nil in H2); cbn in Hi |- *; split; congruence || lia.
  - reflexivity.
Defined.

Definition init_queues : auxtrace_queues := Queues (replicate 32 empty_queue) false false 0.

Lemma init_queues_ok : queues_ok init_queues.
Proof. exists 0. split; [lia|reflexivity]. Qed.

Lemma auxtrace_queues_index_wraps_witness :
  auxtrace_queues__queue_buffer init_queues UINT_MAX (event_buffer (AuxEvent 100 0 1 UINT_MAX 7 0) 0) [] = QOob.
Proof. apply auxtrace_queues_index_wraps; [exact init_queues_ok|reflexivity]. Defined.

Definition big_buffer : auxtrace_buffer := event_buffer (AuxEvent (80 * 1024 * 1024) 0 1 3 7 0) 4096.

Lemma auxtrace_split_tiles_witness :
  exists qs' r parts, auxtrace_queues__add_buffer init_queues sess32 3 big_buffer [] = QOk r qs' [] /\
    buffers qs' 3 = buffers init_queues 3 ++ parts /\ tiles 4096 parts (80 * 1024 * 1024) /\
    b_consecutive <$> parts = false :: replicate (length parts - 1) true /\
    (forall i, 0 <= i -> i <> 3 -> queue_of qs' i = queue_of init_queues i).
Proof.
  apply (auxtrace_split_tiles init_queues sess32 3 big_buffer);
    [exact init_queues_ok|lia|left; reflexivity|reflexivity..].
Defined.

Lemma auxtrace_index_roundtrip_witness :
  auxtrace_index__write [[IndexEntry 5 6]; [IndexEntry 7 8]] =
    index_file false [IndexEntry 5 6; IndexEntry 7 8] /\
  exists head', auxtrace_index__process (index_file true [IndexEntry 5 6; IndexEntry 7 8] ++ [1])
      40 [] true [] = Some ([1], head', []) /\
    concat head' = [IndexEntry 5 6; IndexEntry 7 8] /\ arrays_ok head'.
Proof.
  apply (auxtrace_index_roundtrip true [[IndexEntry 5 6]; [IndexEntry 7 8]] [1]); [|reflexivity].
  repeat (apply Forall_cons; split; [split; split; discriminate || reflexivity|]). apply Forall_nil. exact I.
Defined.

End AuxtraceQueuesExamples.
