(* ===== verification/BlockRange.v ===== *)
(** Model of util/block-range.c and util/block-range.h, the global set of
    address ranges that perf annotate splits basic blocks into, and of its
    users: process_basic_block (builtin-annotate.c), annotate__address_color,
    annotate__asm_color and annotate__branch_printf (util/annotate.c).

    A block_range embeds its tree node, so a tree node carries the record
    together with its address ([nat], the number of the allocation).  A pointer
    to a child slot ([struct rb_node **p]) is the path from the root.
    rb_insert_color, rb_first and rb_next are library code: the class [RbTree]
    states what the code relies on.  malloc is an oracle on the number of the
    allocation.  A failed assert, an access through a pointer to no node and a
    loop that runs out of turns are values of [out]. *)

From S2P Require Import Prelude.
#[local] Open Scope Z_scope.

(** * Data *)

Record block_range := BlockRange {
  sym : option nat;
  start : Z;
  end_ : Z;
  is_target : bool;
  is_branch : bool;
  coverage : Z;
  entry : Z;
  taken : Z;
  pred : Z
}.

(** Fields that the initializer does not name are zero. *)
Definition mk_range (s e : Z) (target branch : bool) (cov ent tak prd : Z) : block_range :=
  BlockRange None s e target branch cov ent tak prd.

Record rb_cell := Cell { addr : nat; br : block_range }.

Inductive rb_color := RB_RED | RB_BLACK.

Inductive rbtree :=
| rb_null
| rb_node (c : rb_color) (rb_left : rbtree) (n : rb_cell) (rb_right : rbtree).

Fixpoint inorder (t : rbtree) : list rb_cell :=
  match t with
  | rb_null => []
  | rb_node _ l n r => inorder l ++ n :: inorder r
  end.

Abbreviation addrs t := (addr <$> inorder t).

(** What the code relies on of lib/rbtree.c. *)
Class RbTree := {
  rb_insert_color : nat -> rbtree -> rbtree;
  rb_first : rbtree -> option nat;
  rb_next : rbtree -> nat -> option nat;
  rb_insert_color_inorder n t : inorder (rb_insert_color n t) = inorder t;
  rb_first_spec t : rb_first t = addr <$> head (inorder t);
  rb_next_spec t l1 n l2 :
    inorder t = l1 ++ n :: l2 -> NoDup (addrs t) -> rb_next t (addr n) = addr <$> head l2
}.

Record block_ranges := BlockRanges {
  root : rbtree;
  blocks : Z;
  mallocs : nat
}.

Record block_range_iter := Iter { iter_start : option nat; iter_end : option nat }.

Inductive out (A : Type) : Type :=
| Ret (a : A)
| Abort
| BadPtr
| Spin.
Arguments Ret {A} _.
Arguments Abort {A}.
Arguments BadPtr {A}.
Arguments Spin {A}.

#[export] Instance out_bind : MBind out := fun A B f m =>
  match m with Ret a => f a | Abort => Abort | BadPtr => BadPtr | Spin => Spin end.

Definition assert (b : bool) : out unit := if b then Ret () else Abort.

(** Accesses through a pointer to a range. *)
Definition deref (t : rbtree) (a : nat) : out block_range :=
  match list_find (fun n => addr n = a) (inorder t) with
  | Some (_, n) => Ret (br n)
  | None => BadPtr
  end.

Fixpoint set_range (t : rbtree) (a : nat) (f : block_range -> block_range) : rbtree :=
  match t with
  | rb_null => rb_null
  | rb_node c l n r =>
      rb_node c (set_range l a f)
        (if decide (addr n = a) then Cell a (f (br n)) else n) (set_range r a f)
  end.

(** rb_link_node: the slot [p], given as the directions from the root
    ([true] is right), receives a red node without children. *)
Definition leaf (n : rb_cell) : rbtree := rb_node RB_RED rb_null n rb_null.

Fixpoint rb_link_node (n : rb_cell) (t : rbtree) (p : list bool) : rbtree :=
  match t, p with
  | rb_null, _ => leaf n
  | rb_node c l m r, false :: p => rb_node c (rb_link_node n l p) m r
  | rb_node c l m r, true :: p => rb_node c l m (rb_link_node n r p)
  | _, [] => leaf n
  end.

(** The two loops that look for a free slot next to a node. *)
Fixpoint link_rightmost (n : rb_cell) (t : rbtree) : rbtree :=
  match t with
  | rb_null => leaf n
  | rb_node c l m r => rb_node c l m (link_rightmost n r)
  end.

Fixpoint link_leftmost (n : rb_cell) (t : rbtree) : rbtree :=
  match t with
  | rb_null => leaf n
  | rb_node c l m r => rb_node c (link_leftmost n l) m r
  end.

Fixpoint rb_link_left_of_node (left : rb_cell) (node : nat) (t : rbtree) : rbtree :=
  match t with
  | rb_null => rb_null
  | rb_node c l m r =>
      if decide (addr m = node) then rb_node c (link_rightmost left l) m r
      else rb_node c (rb_link_left_of_node left node l) m (rb_link_left_of_node left node r)
  end.

Fixpoint rb_link_right_of_node (right : rb_cell) (node : nat) (t : rbtree) : rbtree :=
  match t with
  | rb_null => rb_null
  | rb_node c l m r =>
      if decide (addr m = node) then rb_node c l m (link_leftmost right r)
      else rb_node c (rb_link_right_of_node right node l) m (rb_link_right_of_node right node r)
  end.

(** * Operations *)

Section Ops.
Context `{RbTree}.
Variable malloc_ok : nat -> bool.

(** rb_first, then rb_next until it fails. *)
Fixpoint walk (fuel : nat) (t : rbtree) (rb : option nat) (old : Z) : out unit :=
  match rb with
  | None => Ret ()
  | Some a =>
      match fuel with
      | O => Spin
      | S fuel =>
          e ← deref t a;
          _ ← assert (old <? start e);
          _ ← assert (start e <=? end_ e);
          walk fuel t (rb_next t a) (end_ e)
      end
  end.

Definition block_range__debug (t : rbtree) : out unit :=
  walk (length (inorder t)) t (rb_first t) 0.

Fixpoint block_range__find (t : rbtree) (a : Z) : option nat :=
  match t with
  | rb_null => None
  | rb_node _ l n r =>
      if a <? start (br n) then block_range__find l a
      else if end_ (br n) <? a then block_range__find r a
      else Some (addr n)
  end.

Definition block_range__next (t : rbtree) (a : nat) : option nat := rb_next t a.

(** The descent of block_range__create: [p], and the last [entry]. *)
Fixpoint descend (t : rbtree) (s : Z) (ent : option nat) : list bool * option nat * bool :=
  match t with
  | rb_null => ([], ent, false)
  | rb_node _ l n r =>
      if s <? start (br n) then
        let '(p, e, f) := descend l s (Some (addr n)) in (false :: p, e, f)
      else if end_ (br n) <? s then
        let '(p, e, f) := descend r s (Some (addr n)) in (true :: p, e, f)
      else ([], Some (addr n), true)
  end.

(** What follows every initialisation of a new range at address [a]: [link]
    puts the node into the tree. *)
Definition insert_range (st : block_ranges) (a : nat) (r : block_range)
    (link : rb_cell -> rbtree -> rbtree) : out block_ranges :=
  let t := rb_insert_color a (link (Cell a r) (root st)) in
  _ ← block_range__debug t;
  Ret (BlockRanges t (blocks st) (mallocs st)).

(** malloc: the number of the allocation is the address. *)
Definition bump (st : block_ranges) : block_ranges :=
  BlockRanges (root st) (blocks st) (S (mallocs st)).

Definition malloc (st : block_ranges) : block_ranges * option nat :=
  (bump st,
   if malloc_ok (mallocs st) then Some (mallocs st) else None).

Definition store (st : block_ranges) (a : nat) (f : block_range -> block_range) : block_ranges :=
  BlockRanges (set_range (root st) a f) (blocks st) (mallocs st).

Definition done_ (st : block_ranges) (is_ ie : nat) (s e : Z)
    : out (block_ranges * block_range_iter) :=
  rs ← deref (root st) is_;
  _ ← assert ((start rs =? s) && is_target rs);
  re ← deref (root st) ie;
  _ ← assert ((end_ re =? e) && is_branch re);
  Ret (BlockRanges (root st) (blocks st +64 1) (mallocs st), Iter (Some is_) (Some ie)).

Definition do_whole (st : block_ranges) (p : list bool) (s e : Z)
    : out (block_ranges * block_range_iter) :=
  match malloc st with
  | (st, None) => Ret (st, Iter None None)
  | (st, Some a) =>
      st ← insert_range st a (mk_range s e true true 0 0 0 0) (fun n t => rb_link_node n t p);
      done_ st a a s e
  end.

(** The label add_tail: [r] is the range at [ent]. *)
Definition add_tail (st : block_ranges) (is_ ent : nat) (r : block_range) (s e : Z)
    : out (block_ranges * block_range_iter) :=
  match malloc st with
  | (st, None) => Ret (st, Iter (Some is_) None)
  | (st, Some a) =>
      st ← insert_range st a (mk_range (end_ r +64 1) e false true 0 0 0 0) (fun n t => rb_link_right_of_node n ent t);
      done_ st is_ a s e
  end.

(** The loop at do_tail; [is_] is iter.start, [ent] the variable entry. *)
Fixpoint do_tail (fuel : nat) (st : block_ranges) (is_ ent : nat) (s e : Z)
    : out (block_ranges * block_range_iter) :=
  match fuel with
  | O => Spin
  | S fuel =>
      r ← deref (root st) ent;
      if e <? end_ r then
        match malloc st with
        | (st, None) => Ret (st, Iter (Some is_) None)
        | (st, Some a) =>
            let tail := mk_range (e +64 1) (end_ r) false (is_branch r)
                          (coverage r) 0 (taken r) (pred r) in
            let st := store st ent (fun r =>
              BlockRange (sym r) (start r) e (is_target r) true (coverage r) (entry r) 0 0) in
            st ← insert_range st a tail (fun n t => rb_link_right_of_node n ent t);
            done_ st is_ ent s e
        end
      else if e =? end_ r then
        let st := store st ent (fun r =>
          BlockRange (sym r) (start r) (end_ r) (is_target r) true
            (coverage r) (entry r) (taken r) (pred r)) in
        done_ st is_ ent s e
      else
        match block_range__next (root st) ent with
        | None => add_tail st is_ ent r s e
        | Some nx =>
            rn ← deref (root st) nx;
            if e <? start rn then add_tail st is_ ent r s e
            else if negb (end_ r +64 1 =? start rn) then
              match malloc st with
              | (st, None) => Ret (st, Iter (Some is_) None)
              | (st, Some a) =>
                  st ← insert_range st a (mk_range (end_ r +64 1) (start rn -64 1) false false 0 0 0 0)
                         (fun n t => rb_link_left_of_node n nx t);
                  do_tail fuel st is_ nx s e
              end
            else do_tail fuel st is_ nx s e
        end
  end.

(** A turn moves on to the next of the ranges that were there at the start. *)
Definition tail_loop (st : block_ranges) (is_ : nat) (s e : Z) :=
  do_tail (length (inorder (root st))) st is_ is_ s e.

Definition block_range__create (st : block_ranges) (s e : Z)
    : out (block_ranges * block_range_iter) :=
  match descend (root st) s None with
  | (p, None, _) => do_whole st p s e
  | (p, Some ent, false) =>
      r ← deref (root st) ent;
      match (if end_ r <? s then rb_next (root st) ent else Some ent) with
      | None => do_whole st p s e
      | Some nx =>
          rn ← deref (root st) nx;
          if start rn <=? e then
            match malloc st with
            | (st, None) => Ret (st, Iter None None)
            | (st, Some a) =>
                st ← insert_range st a (mk_range s (start rn -64 1) true false 0 0 0 0)
                       (fun n t => rb_link_left_of_node n nx t);
                tail_loop st a s e
            end
          else do_whole st p s e
      end
  | (_, Some ent, true) =>
      r ← deref (root st) ent;
      if start r <? s then
        match malloc st with
        | (st, None) => Ret (st, Iter None None)
        | (st, Some a) =>
            let head := mk_range (start r) (s -64 1) (is_target r) false
                          (coverage r) (entry r) 0 0 in
            let st := store st ent (fun r =>
              BlockRange (sym r) s (end_ r) true (is_branch r) (coverage r) 0 (taken r) (pred r)) in
            st ← insert_range st a head (fun n t => rb_link_left_of_node n ent t);
            tail_loop st ent s e
        end
      else
        let st := if start r =? s then store st ent (fun r =>
          BlockRange (sym r) (start r) (end_ r) true (is_branch r)
            (coverage r) (entry r) (taken r) (pred r)) else st in
        tail_loop st ent s e
  end.

Definition block_range_iter__valid (it : block_range_iter) : bool :=
  match it with Iter (Some _) (Some _) => true | _ => false end.

Definition block_range_iter__next (t : rbtree) (it : block_range_iter)
    : bool * block_range_iter :=
  if decide (iter_start it = iter_end it) then (false, it)
  else (true, Iter (a ← iter_start it; block_range__next t a) (iter_end it)).

(** The state of perf annotate: the ranges, and max_coverage of the
    annotation of each symbol. *)
Record annotate := Annotate { ranges : block_ranges; max_coverage : nat -> Z }.

(** block_range__coverage; the quotient of two u64 is kept as a fraction. *)
Inductive cov := CovConst (z : Z) | CovRatio (num den : Z).

Definition block_range__coverage (an : annotate) (r : option block_range) : cov :=
  match r with
  | None => if blocks (ranges an) =? 0 then CovConst (-1) else CovConst 0
  | Some r =>
      match sym r with
      | None => CovConst (-1)
      | Some s => CovRatio (coverage r) (max_coverage an s)
      end
  end.

Definition iter_ptr (it : block_range_iter) : out nat :=
  match iter_start it with Some a => Ret a | None => BadPtr end.

(** The do-while loop of process_basic_block; a turn leaves one range behind. *)
Fixpoint cover_loop (fuel : nat) (an : annotate) (it : block_range_iter) (s : option nat)
    : out (annotate * block_range_iter) :=
  match fuel with
  | O => Spin
  | S fuel =>
      a ← iter_ptr it;
      r ← deref (root (ranges an)) a;
      let c := coverage r +64 1 in
      let st := store (ranges an) a (fun r =>
        BlockRange s (start r) (end_ r) (is_target r) (is_branch r) c (entry r) (taken r) (pred r)) in
      let mc := match s with
                | None => max_coverage an
                | Some s => fun s' => if decide (s' = s) then Z.max (max_coverage an s) c
                                      else max_coverage an s'
                end in
      let an := Annotate st mc in
      match block_range_iter__next (root st) it with
      | (true, it) => cover_loop fuel an it s
      | (false, it) => Ret (an, it)
      end
  end.

(** A basic block: symbol and address of the start, address of the end, and
    whether the branch at the end was predicted. *)
Record basic_block := Block { b_sym : option nat; b_start : Z; b_end : Z; b_pred : bool }.

Definition process_basic_block (an : annotate) (b : basic_block) : out annotate :=
  if (b_start b =? 0) || (b_end b <? b_start b) then Ret an else
  '(st, it) ← block_range__create (ranges an) (b_start b) (b_end b);
  if negb (block_range_iter__valid it) then Ret (Annotate st (max_coverage an)) else
  a ← iter_ptr it;
  r ← deref (root st) a;
  _ ← assert (is_target r);
  let st := store st a (fun r =>
    BlockRange (sym r) (start r) (end_ r) (is_target r) (is_branch r)
      (coverage r) (entry r +64 1) (taken r) (pred r)) in
  '(an, it) ← cover_loop (length (inorder (root st))) (Annotate st (max_coverage an)) it (b_sym b);
  a ← iter_ptr it;
  r ← deref (root (ranges an)) a;
  _ ← assert (is_branch r);
  Ret (Annotate (store (ranges an) a (fun r =>
    BlockRange (sym r) (start r) (end_ r) (is_target r) (is_branch r) (coverage r) (entry r)
      (taken r +64 1) (if b_pred b then pred r +64 1 else pred r))) (max_coverage an)).

(** process_branch_stack: [bi] is the array that sample__resolve_bstack
    returns, the most recent branch first: the block between two branches
    starts at the target of the older and ends at the source of the newer. *)
Record branch_info := BranchInfo {
  from_addr : Z; to_addr : Z; to_sym : option nat; flags_predicted : bool }.

Fixpoint branch_stack_loop (an : annotate) (prev : option branch_info) (bi : list branch_info)
    : out annotate :=
  match bi with
  | [] => Ret an
  | b :: bi =>
      an ← match prev with
           | None => Ret an
           | Some p => process_basic_block an
                         (Block (to_sym p) (to_addr p) (from_addr b) (flags_predicted b))
           end;
      branch_stack_loop an (Some b) bi
  end.

Definition process_branch_stack (an : annotate) (bi : list branch_info) : out annotate :=
  branch_stack_loop an None (reverse bi).

(** [while (!branch->is_branch) branch = block_range__next(branch);] *)
Fixpoint find_branch (fuel : nat) (t : rbtree) (a : option nat) : out block_range :=
  match fuel with
  | O => Spin
  | S fuel =>
      match a with
      | None => BadPtr
      | Some a =>
          r ← deref t a;
          if is_branch r then Ret r else find_branch fuel t (block_range__next t a)
      end
  end.

(** The percentages that annotate__branch_printf prints, as fractions: the
    share of coverage that enters at the line, and the share that leaves with
    its prediction ratio.  [p > 0.1] is decided on the fraction. *)
Definition above_tenth (num den : Z) : bool := den <? 1000 * num.

Definition annotate__branch_printf (t : rbtree) (a : option nat) (line : Z)
    : out (option (Z * Z) * option ((Z * Z) * (Z * Z))) :=
  match a with
  | None => Ret (None, None)
  | Some a =>
      r ← deref t a;
      joined ← (if is_target r && (start r =? line) then
                  b ← find_branch (length (inorder t)) t (Some a);
                  Ret (if above_tenth (entry r) (coverage b)
                       then Some (entry r, coverage b) else None)
                else Ret None);
      Ret (joined,
           if is_branch r && (end_ r =? line) then
             if above_tenth (taken r) (coverage r)
             then Some ((taken r, coverage r), (pred r, taken r)) else None
           else None)
  end.
End Ops.

(** * The tree as a list *)

(** Ranges in order, from above [o] to at most [o']: what block_range__debug
    asserts. *)
Fixpoint chain (o : Z) (l : list rb_cell) (o' : Z) : Prop :=
  match l with
  | [] => o = o'
  | n :: l => o < start (br n) /\ start (br n) <= end_ (br n) /\ chain (end_ (br n)) l o'
  end.

(** Ranges without a hole from [s] up to before [e]. *)
Fixpoint tiles (s : Z) (l : list rb_cell) (e : Z) : Prop :=
  match l with
  | [] => s = e
  | n :: l => start (br n) = s /\ s <= end_ (br n) /\ tiles (end_ (br n) + 1) l e
  end.

Lemma chain_app o l k o' : chain o (l ++ k) o' <-> exists m, chain o l m /\ chain m k o'.
Proof.
  revert o; induction l as [|n l IH]; intros o; cbn.
  - split; [by exists o|by intros (m & -> & ?)].
  - rewrite IH. split; [intros (? & ? & m & ? & ?)|intros (m & (? & ? & ?) & ?)]; eauto 6.
Qed.

Lemma chain_le o l o' : chain o l o' -> o <= o'.
Proof. revert o; induction l as [|n l IH]; cbn; intros o Hc; [lia|]. destruct Hc as (? & ? & Hc%IH). lia. Qed.

Lemma chain_bounds o l o' n : chain o l o' -> n ∈ l ->
  o < start (br n) /\ start (br n) <= end_ (br n) <= o'.
Proof.
  revert o; induction l as [|m l IH]; cbn; intros o Hc Hn; [by apply elem_of_nil in Hn|].
  destruct Hc as (? & ? & Hc). pose proof (chain_le _ _ _ Hc).
  apply elem_of_cons in Hn as [->|Hn]; [lia|]. specialize (IH _ Hc Hn). lia.
Qed.

Lemma tiles_app s l k e : tiles s (l ++ k) e <-> exists m, tiles s l m /\ tiles m k e.
Proof.
  revert s; induction l as [|n l IH]; intros s; cbn.
  - split; [by exists s|by intros (m & -> & ?)].
  - rewrite IH. split; [intros (? & ? & m & ? & ?)|intros (m & (? & ? & ?) & ?)]; eauto 6.
Qed.

Lemma tiles_le s l e : tiles s l e -> s <= e.
Proof. revert s; induction l as [|n l IH]; cbn; intros s Hc; [lia|]. destruct Hc as (? & ? & Hc%IH). lia. Qed.

Lemma tiles_bounds s l e n : tiles s l e -> n ∈ l ->
  s <= start (br n) /\ start (br n) <= end_ (br n) < e.
Proof.
  revert s; induction l as [|m l IH]; cbn; intros s Hc Hn; [by apply elem_of_nil in Hn|].
  destruct Hc as (? & ? & Hc). pose proof (tiles_le _ _ _ Hc).
  apply elem_of_cons in Hn as [->|Hn]; [lia|]. specialize (IH _ Hc Hn). lia.
Qed.

Lemma tiles_cover s l e x : tiles s l e -> s <= x < e ->
  exists n, n ∈ l /\ start (br n) <= x <= end_ (br n).
Proof.
  revert s; induction l as [|m l IH]; cbn; intros s Hc Hx; [lia|].
  destruct Hc as (? & ? & Hc). destruct (Z.le_gt_cases x (end_ (br m))).
  - exists m. split; [left|lia].
  - destruct (IH _ Hc) as (n & ? & ?); [lia|]. exists n. split; [by right|done].
Qed.

(** The list view of every tree operation. *)
Definition upd (a : nat) (f : block_range -> block_range) (n : rb_cell) : rb_cell :=
  if decide (addr n = a) then Cell a (f (br n)) else n.

Lemma inorder_set t a f : inorder (set_range t a f) = upd a f <$> inorder t.
Proof. induction t as [|c l IHl n r IHr]; cbn; [done|]. by rewrite IHl, IHr, fmap_app. Qed.

Lemma upd_notin a f (l : list rb_cell) : a ∉ addr <$> l -> (upd a f <$> l) = l.
Proof.
  induction l as [|n l IH]; cbn; [done|]. rewrite not_elem_of_cons. intros [Hn Hl].
  rewrite IH by done. unfold upd. by rewrite decide_False by congruence.
Qed.

Lemma upd_addrs a f (l : list rb_cell) : addr <$> (upd a f <$> l) = addr <$> l.
Proof.
  induction l as [|n l IH]; cbn; [done|]. f_equal; [|done].
  unfold upd. by case_decide.
Qed.

Lemma nodup_mid (l1 l2 : list rb_cell) n :
  NoDup (addr <$> l1 ++ n :: l2) ->
  (addr n ∉ addr <$> l1) /\ (addr n ∉ addr <$> l2).
Proof.
  rewrite fmap_app, fmap_cons. intros Hd.
  apply NoDup_app in Hd as (_ & H1 & [H2 _]%NoDup_cons).
  split; [|done]. intros Hin. apply (H1 _ Hin). left.
Qed.

Lemma upd_mid l1 n l2 f :
  NoDup (addr <$> l1 ++ n :: l2) ->
  upd (addr n) f <$> (l1 ++ n :: l2) = l1 ++ Cell (addr n) (f (br n)) :: l2.
Proof.
  intros [H1 H2]%nodup_mid. rewrite fmap_app, fmap_cons, !upd_notin by done.
  unfold upd. by rewrite decide_True.
Qed.

Lemma deref_mid t l1 n l2 :
  inorder t = l1 ++ n :: l2 -> NoDup (addrs t) -> deref t (addr n) = Ret (br n).
Proof.
  intros Hi Hd. unfold deref. rewrite Hi in *. apply nodup_mid in Hd as [Hd _].
  rewrite (proj2 (list_find_app_Some _ l1 (n :: l2) (length l1) n)); [done|].
  right. split; [lia|]. split.
  - apply list_find_None. apply Forall_forall. intros m Hm He.
    apply Hd, list_elem_of_fmap. by exists m.
  - rewrite Nat.sub_diag. cbn. by rewrite decide_True.
Qed.

Definition ins_left (x : rb_cell) (a : nat) (l : list rb_cell) : list rb_cell :=
  l ≫= (fun m => if decide (addr m = a) then [x; m] else [m]).
Definition ins_right (x : rb_cell) (a : nat) (l : list rb_cell) : list rb_cell :=
  l ≫= (fun m => if decide (addr m = a) then [m; x] else [m]).

Lemma ins_left_notin x a (l : list rb_cell) : a ∉ addr <$> l -> ins_left x a l = l.
Proof.
  induction l as [|n l IH]; cbn; [done|]. rewrite not_elem_of_cons. intros [Hn Hl].
  rewrite decide_False by congruence. cbn. f_equal. by apply IH.
Qed.

Lemma ins_right_notin x a (l : list rb_cell) : a ∉ addr <$> l -> ins_right x a l = l.
Proof.
  induction l as [|n l IH]; cbn; [done|]. rewrite not_elem_of_cons. intros [Hn Hl].
  rewrite decide_False by congruence. cbn. f_equal. by apply IH.
Qed.

Lemma inorder_rightmost x t : inorder (link_rightmost x t) = inorder t ++ [x].
Proof. induction t as [|c l IHl n r IHr]; cbn; [done|]. by rewrite IHr, <- app_assoc. Qed.

Lemma inorder_leftmost x t : inorder (link_leftmost x t) = x :: inorder t.
Proof. induction t as [|c l IHl n r IHr]; cbn; [done|]. by rewrite IHl. Qed.

Lemma nodup_node l n r :
  NoDup (addr <$> inorder l ++ n :: inorder r) -> NoDup (addrs l) /\ NoDup (addrs r).
Proof.
  rewrite fmap_app, fmap_cons. intros (? & _ & [_ ?]%NoDup_cons)%NoDup_app. done.
Qed.

Lemma inorder_link_left x a t : NoDup (addrs t) ->
  inorder (rb_link_left_of_node x a t) = ins_left x a (inorder t).
Proof.
  induction t as [|c l IHl n r IHr]; cbn; [done|]. intros Hd.
  pose proof (nodup_node _ _ _ Hd) as [Hl Hr]. apply nodup_mid in Hd as [H1 H2].
  unfold ins_left. rewrite bind_app, bind_cons. case_decide as Ha.
  - subst a. cbn. fold (ins_left x (addr n) (inorder l)) (ins_left x (addr n) (inorder r)).
    rewrite !ins_left_notin by done. by rewrite inorder_rightmost, <- app_assoc.
  - cbn. by rewrite IHl, IHr.
Qed.

Lemma inorder_link_right x a t : NoDup (addrs t) ->
  inorder (rb_link_right_of_node x a t) = ins_right x a (inorder t).
Proof.
  induction t as [|c l IHl n r IHr]; cbn; [done|]. intros Hd.
  pose proof (nodup_node _ _ _ Hd) as [Hl Hr]. apply nodup_mid in Hd as [H1 H2].
  unfold ins_right. rewrite bind_app, bind_cons. case_decide as Ha.
  - subst a. cbn. fold (ins_right x (addr n) (inorder l)) (ins_right x (addr n) (inorder r)).
    rewrite !ins_right_notin by done. by rewrite inorder_leftmost.
  - cbn. by rewrite IHl, IHr.
Qed.

Lemma ins_left_mid x l1 n l2 : NoDup (addr <$> l1 ++ n :: l2) ->
  ins_left x (addr n) (l1 ++ n :: l2) = l1 ++ x :: n :: l2.
Proof.
  intros [H1 H2]%nodup_mid. unfold ins_left. rewrite bind_app, bind_cons.
  fold (ins_left x (addr n) l1) (ins_left x (addr n) l2).
  rewrite !ins_left_notin by done. by rewrite decide_True.
Qed.

Lemma ins_right_mid x l1 n l2 : NoDup (addr <$> l1 ++ n :: l2) ->
  ins_right x (addr n) (l1 ++ n :: l2) = l1 ++ n :: x :: l2.
Proof.
  intros [H1 H2]%nodup_mid. unfold ins_right. rewrite bind_app, bind_cons.
  fold (ins_right x (addr n) l1) (ins_right x (addr n) l2).
  rewrite !ins_right_notin by done. by rewrite decide_True.
Qed.

(** * Search *)

(** Both search loops decide where [x] lies among the ranges. *)
Lemma find_spec t o o' x : chain o (inorder t) o' ->
  match block_range__find t x with
  | Some a => exists n, n ∈ inorder t /\ addr n = a /\ start (br n) <= x <= end_ (br n)
  | None => forall n, n ∈ inorder t -> ~ start (br n) <= x <= end_ (br n)
  end.
Proof.
  revert o o'; induction t as [|c l IHl n r IHr]; cbn; intros o o'.
  { intros _ n Hn. by apply elem_of_nil in Hn. }
  intros (m & Hl & Hlo & Hse & Hr)%chain_app.
  destruct (Z.ltb_spec x (start (br n))); [|destruct (Z.ltb_spec (end_ (br n)) x)].
  - specialize (IHl _ _ Hl). destruct (block_range__find l x).
    + destruct IHl as (k & Hk & ? & ?). exists k. by rewrite elem_of_app; eauto.
    + intros k [Hk|[->|Hk]%elem_of_cons]%elem_of_app; [by apply IHl|lia|].
      pose proof (chain_bounds _ _ _ _ Hr Hk). lia.
  - specialize (IHr _ _ Hr). destruct (block_range__find r x).
    + destruct IHr as (k & Hk & ? & ?). exists k. split; [|done].
      apply elem_of_app. right. by right.
    + intros k [Hk|[->|Hk]%elem_of_cons]%elem_of_app; [|lia|by apply IHr].
      pose proof (chain_bounds _ _ _ _ Hl Hk). lia.
  - exists n. split; [|split; [done|lia]]. apply elem_of_app. right. left.
Qed.

(** The slot that the descent ends at, and the neighbour it saw last. *)
Definition hole_at (t : rbtree) (p : list bool) (x : Z) (l1 l2 : list rb_cell) : Prop :=
  inorder t = l1 ++ l2 /\
  (forall y, inorder (rb_link_node y t p) = l1 ++ y :: l2) /\
  Forall (fun n => end_ (br n) < x) l1 /\ Forall (fun n => x < start (br n)) l2.

Lemma Forall_chain_lt o l o' x : chain o l o' -> o' < x ->
  Forall (fun n => end_ (br n) < x) l.
Proof. intros Hc Hx. apply Forall_forall. intros n Hn. pose proof (chain_bounds _ _ _ _ Hc Hn). lia. Qed.

Lemma Forall_chain_gt o l o' x : chain o l o' -> x <= o ->
  Forall (fun n => x < start (br n)) l.
Proof. intros Hc Hx. apply Forall_forall. intros n Hn. pose proof (chain_bounds _ _ _ _ Hc Hn). lia. Qed.

Lemma descend_null t x ent p e o o' : chain o (inorder t) o' ->
  descend t x ent = (p, e, false) ->
  exists l1 l2, hole_at t p x l1 l2 /\
    match t with
    | rb_null => e = ent
    | _ => (exists n, e = Some (addr n) /\ last l1 = Some n) \/
           (exists n, e = Some (addr n) /\ head l2 = Some n)
    end.
Proof.
  revert ent p e o o'; induction t as [|c l IHl n r IHr]; cbn; intros ent p e o o' Hc.
  { intros [= <- <-]. exists [], []. split; [|done]. split; [done|]. by repeat split. }
  apply chain_app in Hc as (m & Hl & Hlo & Hse & Hr).
  destruct (Z.ltb_spec x (start (br n))); [|destruct (Z.ltb_spec (end_ (br n)) x)]; [..|done].
  - destruct (descend l x (Some (addr n))) as [[p' e'] f'] eqn:Hd. intros [= <- <- ->].
    destruct (IHl _ _ _ _ _ Hl Hd) as (l1 & l2 & (Hi & Hln & H1 & H2) & He).
    exists l1, (l2 ++ n :: inorder r). split.
    + split; [cbn; by rewrite Hi, <- app_assoc|]. split; [intros y; cbn; by rewrite Hln, <- app_assoc|].
      split; [done|]. apply Forall_app. split; [done|]. constructor; [done|].
      apply (Forall_chain_gt _ _ _ _ Hr). lia.
    + destruct l; [subst e'; right; exists n; split; [done|]; by destruct l1, l2|].
      destruct He as [?|(k & ? & Hk)]; [by left|right; exists k; split; [done|]]. by destruct l2.
  - destruct (descend r x (Some (addr n))) as [[p' e'] f'] eqn:Hd. intros [= <- <- ->].
    destruct (IHr _ _ _ _ _ Hr Hd) as (l1 & l2 & (Hi & Hln & H1 & H2) & He).
    exists (inorder l ++ n :: l1), l2. split.
    + split; [cbn; by rewrite Hi, <- app_assoc|]. split; [intros y; cbn; by rewrite Hln, <- app_assoc|].
      split; [|done]. apply Forall_app. split; [apply (Forall_chain_lt _ _ _ _ Hl); lia|].
      by constructor.
    + destruct r; [subst e'; left; exists n; split; [done|]|].
      * destruct l1, l2; try done. by rewrite last_snoc.
      * destruct He as [(k & ? & Hk)|?]; [left; exists k; split; [done|]|by right].
        by rewrite last_app, last_cons, Hk.
Qed.

Lemma descend_found t x ent p e o o' : chain o (inorder t) o' ->
  descend t x ent = (p, e, true) ->
  exists l1 n l2, inorder t = l1 ++ n :: l2 /\ e = Some (addr n) /\
    start (br n) <= x <= end_ (br n).
Proof.
  revert ent p e o o'; induction t as [|c l IHl n r IHr]; cbn; intros ent p e o o' Hc; [done|].
  apply chain_app in Hc as (m & Hl & Hlo & Hse & Hr).
  destruct (Z.ltb_spec x (start (br n))); [|destruct (Z.ltb_spec (end_ (br n)) x)].
  - destruct (descend l x (Some (addr n))) as [[p' e'] f'] eqn:Hd. intros [= <- <- ->].
    destruct (IHl _ _ _ _ _ Hl Hd) as (l1 & k & l2 & Hi & ? & ?).
    exists l1, k, (l2 ++ n :: inorder r). by rewrite Hi, <- app_assoc.
  - destruct (descend r x (Some (addr n))) as [[p' e'] f'] eqn:Hd. intros [= <- <- ->].
    destruct (IHr _ _ _ _ _ Hr Hd) as (l1 & k & l2 & Hi & ? & ?).
    exists (inorder l ++ n :: l1), k, l2. by rewrite Hi, <- app_assoc.
  - intros [= <- <-]. exists (inorder l), n, (inorder r). split; [done|]. split; [done|lia].
Qed.

(** * The state as a list *)

Definition U64 : Z := 18446744073709551616.

Definition rep (st : block_ranges) (L : list rb_cell) : Prop :=
  inorder (root st) = L /\ NoDup (addr <$> L) /\
  Forall (fun n => addr n < mallocs st)%nat L /\
  exists o, chain 0 L o /\ o < U64.

(** The changes that block_range__create makes to the ranges, one at a time:
    cutting a range in two, filling a hole, raising a flag. *)
Inductive step : list rb_cell -> list rb_cell -> Prop :=
| step_cut l1 l2 n a1 a2 x sy1 sy2 b1 t2 :
    start (br n) < x <= end_ (br n) ->
    (sy1 = None \/ sy1 = sym (br n)) -> (sy2 = None \/ sy2 = sym (br n)) ->
    step (l1 ++ n :: l2)
      (l1 ++ Cell a1 (BlockRange sy1 (start (br n)) (x - 1) (is_target (br n)) b1
                        (coverage (br n)) (entry (br n)) 0 0)
          :: Cell a2 (BlockRange sy2 x (end_ (br n)) t2 (is_branch (br n))
                        (coverage (br n)) 0 (taken (br n)) (pred (br n))) :: l2)
| step_fill l1 l2 a s e t b o :
    chain 0 (l1 ++ Cell a (mk_range s e t b 0 0 0 0) :: l2) o ->
    (l2 = [] -> b = true) ->
    step (l1 ++ l2) (l1 ++ Cell a (mk_range s e t b 0 0 0 0) :: l2)
| step_flag l1 l2 n t b :
    (is_target (br n) = true -> t = true) -> (is_branch (br n) = true -> b = true) ->
    step (l1 ++ n :: l2)
      (l1 ++ Cell (addr n) (BlockRange (sym (br n)) (start (br n)) (end_ (br n)) t b
                (coverage (br n)) (entry (br n)) (taken (br n)) (pred (br n))) :: l2).

(** The iterator spans [s..e]: it is invalid, or its ends are the ends of a part
    of the list that tiles the interval. *)
Definition spans (st : block_ranges) (it : block_range_iter) (L : list rb_cell) (s e : Z) : Prop :=
  exists l1 m l2 n1 n2, L = l1 ++ m ++ l2 /\ tiles s m (e + 1) /\
    head m = Some n1 /\ last m = Some n2 /\
    it = Iter (Some (addr n1)) (Some (addr n2)) /\
    is_target (br n1) = true /\ is_branch (br n2) = true.

Section Create.
Context `{RbTree}.
Variable malloc_ok : nat -> bool.

Lemma walk_chain t l1 l2 o o' : inorder t = l1 ++ l2 -> NoDup (addrs t) ->
  chain o l2 o' -> walk (length l2) t (addr <$> head l2) o = Ret ().
Proof using.
  intros Hi Hd. revert l1 o Hi; induction l2 as [|n l2 IH]; intros l1 o Hi Hc; [done|].
  destruct Hc as (? & ? & Hc). cbn [length walk head fmap option_fmap option_map].
  rewrite (deref_mid _ _ _ _ Hi Hd). cbn [mbind out_bind].
  unfold assert. rewrite (proj2 (Z.ltb_lt _ _)), (proj2 (Z.leb_le _ _)) by lia. cbn.
  rewrite (rb_next_spec _ _ _ _ Hi Hd). apply (IH (l1 ++ [n])); [|done].
  by rewrite <- app_assoc.
Qed.

Lemma debug_chain t o : NoDup (addrs t) -> chain 0 (inorder t) o -> block_range__debug t = Ret ().
Proof using.
  intros Hd Hc. unfold block_range__debug. rewrite rb_first_spec.
  by apply (walk_chain t [] (inorder t) 0 o).
Qed.

Lemma rep_deref st l1 n l2 : rep st (l1 ++ n :: l2) -> deref (root st) (addr n) = Ret (br n).
Proof using. intros (Hi & Hd & _). apply (deref_mid _ l1 n l2); [done|]. by rewrite Hi. Qed.

Lemma rep_next st l1 n l2 : rep st (l1 ++ n :: l2) -> rb_next (root st) (addr n) = addr <$> head l2.
Proof using. intros (Hi & Hd & _). apply (rb_next_spec _ l1 n l2); [done|]. by rewrite Hi. Qed.

Lemma rep_store st l1 n l2 f o :
  rep st (l1 ++ n :: l2) -> chain 0 (l1 ++ Cell (addr n) (f (br n)) :: l2) o -> o < U64 ->
  rep (store st (addr n) f) (l1 ++ Cell (addr n) (f (br n)) :: l2).
Proof using.
  intros (Hi & Hd & Hm & _) Hc Ho. unfold rep, store; cbn [root mallocs].
  rewrite inorder_set, Hi, upd_mid by done. split; [done|]. split; [|split].
  - rewrite <- (upd_mid l1 n l2 f), upd_addrs by done. done.
  - rewrite Forall_app, Forall_cons in *. naive_solver.
  - eauto.
Qed.

(** A new node between [l1] and [l2]. *)
Lemma rep_insert st a r link l1 l2 o :
  rep st (l1 ++ l2) -> (a < mallocs st)%nat -> a ∉ addr <$> (l1 ++ l2) ->
  inorder (link (Cell a r) (root st)) = l1 ++ Cell a r :: l2 ->
  chain 0 (l1 ++ Cell a r :: l2) o -> o < U64 ->
  exists t, insert_range st a r link = Ret (BlockRanges t (blocks st) (mallocs st)) /\
    rep (BlockRanges t (blocks st) (mallocs st)) (l1 ++ Cell a r :: l2).
Proof using.
  intros (Hi & Hd & Hm & _) Ha Hf Hl Hc Ho.
  assert (Hd' : NoDup (addr <$> l1 ++ Cell a r :: l2)).
  { rewrite !fmap_app, fmap_cons in *. apply NoDup_app in Hd as (? & Hx & ?).
    rewrite elem_of_app in Hf. apply NoDup_app. split; [done|]. split.
    - intros x Hx1 [->|?]%elem_of_cons; [by apply Hf; left|by eapply Hx].
    - apply NoDup_cons. split; [|done]. intros ?. apply Hf. by right. }
  exists (rb_insert_color a (link (Cell a r) (root st))). unfold insert_range.
  rewrite (debug_chain _ o) by (rewrite rb_insert_color_inorder, Hl; done).
  split; [done|]. unfold rep. cbn [root mallocs]. rewrite rb_insert_color_inorder, Hl.
  split; [done|]. split; [done|]. split; [|eauto].
  rewrite Forall_app in *. destruct Hm. split; [done|]. by constructor.
Qed.

Lemma rep_insert_left st a r l1 n l2 o :
  rep st (l1 ++ n :: l2) -> (a < mallocs st)%nat -> a ∉ addr <$> (l1 ++ n :: l2) ->
  chain 0 (l1 ++ Cell a r :: n :: l2) o -> o < U64 ->
  exists t, insert_range st a r (fun x t => rb_link_left_of_node x (addr n) t) =
              Ret (BlockRanges t (blocks st) (mallocs st)) /\
    rep (BlockRanges t (blocks st) (mallocs st)) (l1 ++ Cell a r :: n :: l2).
Proof using.
  intros Hr Ha Hf. apply rep_insert; [done..|]. destruct Hr as (Hi & Hd & _).
  rewrite inorder_link_left, Hi by (by rewrite Hi). by apply ins_left_mid.
Qed.

Lemma rep_insert_right st a r l1 n l2 o :
  rep st (l1 ++ n :: l2) -> (a < mallocs st)%nat -> a ∉ addr <$> (l1 ++ n :: l2) ->
  chain 0 (l1 ++ n :: Cell a r :: l2) o -> o < U64 ->
  exists t, insert_range st a r (fun x t => rb_link_right_of_node x (addr n) t) =
              Ret (BlockRanges t (blocks st) (mallocs st)) /\
    rep (BlockRanges t (blocks st) (mallocs st)) (l1 ++ n :: Cell a r :: l2).
Proof using.
  intros Hr Ha Hf Hc Ho. change (n :: l2) with ([n] ++ l2) in Hr, Hf.
  change (n :: Cell a r :: l2) with ([n] ++ Cell a r :: l2) in Hc |- *.
  rewrite app_assoc in Hr, Hf, Hc |- *. apply (rep_insert _ _ _ _ _ _ o); try done.
  destruct Hr as (Hi & Hd & _). rewrite <- app_assoc in Hi, Hd |- *.
  rewrite inorder_link_right, Hi by (by rewrite Hi). by apply ins_right_mid.
Qed.

(** What the state is after malloc. *)
Lemma rep_malloc st L : rep st L ->
  rep (bump st) L /\ (mallocs st ∉ addr <$> L) /\
  blocks (bump st) = blocks st /\
  mallocs (bump st) = S (mallocs st).
Proof using.
  intros (Hi & Hd & Hm & Hc). split; [|split; [|done]].
  - split; [done|]. split; [done|]. split; [|done]. cbn.
    eapply Forall_impl; [done|]. cbn; lia.
  - intros (n & He & Hn)%list_elem_of_fmap. rewrite Forall_forall in Hm.
    specialize (Hm _ Hn). lia.
Qed.

Lemma tiles_last s m e n : tiles s m (e + 1) -> last m = Some n -> end_ (br n) = e.
Proof using.
  intros Ht Hl. apply last_Some in Hl as [m' ->].
  apply tiles_app in Ht as (k & _ & _ & _ & Hk). cbn in Hk. lia.
Qed.

Lemma tiles_head s m e n : tiles s m e -> head m = Some n -> start (br n) = s.
Proof using. destruct m; cbn; [done|]. intros (? & _) [= <-]. done. Qed.

(** What block_range__create promises, for the continuations of its labels. *)
Definition promise (st : block_ranges) (L : list rb_cell) (s e : Z)
    (o : out (block_ranges * block_range_iter)) : Prop :=
  exists st' it L', o = Ret (st', it) /\ rep st' L' /\ rtc step L L' /\
    (if block_range_iter__valid it
     then spans st' it L' s e /\ blocks st' = blocks st +64 1
     else blocks st' = blocks st /\ exists i, malloc_ok i = false).

Lemma promise_step st st1 L L1 s e o :
  rtc step L L1 -> blocks st1 = blocks st -> promise st1 L1 s e o -> promise st L s e o.
Proof using.
  intros Hs Hb (st' & it & L' & ? & ? & Hs' & Hv). exists st', it, L'.
  split; [done|]. split; [done|]. split; [by etrans|]. by rewrite <- Hb.
Qed.

Lemma promise_fail st L s e o :
  rep st L -> malloc_ok (mallocs st) = false ->
  promise st L s e (Ret ((bump st), Iter o None)).
Proof using.
  intros Hr Hf. destruct (rep_malloc st L Hr) as (Hr' & _ & ? & _).
  exists (bump st), (Iter o None), L. split; [done|]. split; [done|]. split; [done|].
  destruct o; cbn; eauto.
Qed.

Lemma promise_done st l1 m l2 n1 n2 s e :
  rep st (l1 ++ m ++ l2) -> tiles s m (e + 1) -> head m = Some n1 -> last m = Some n2 ->
  is_target (br n1) = true -> is_branch (br n2) = true ->
  promise st (l1 ++ m ++ l2) s e (done_ st (addr n1) (addr n2) s e).
Proof using.
  intros Hr Ht Hh Hl Hn1 Hn2. unfold done_.
  destruct m as [|n m]; [done|]. injection Hh as ->.
  rewrite (rep_deref st l1 n1 (m ++ l2)) by done. cbn [mbind out_bind].
  rewrite (tiles_head s (n1 :: m) (e + 1) n1), Z.eqb_refl, Hn1 by done. cbn.
  pose proof Hl as [m' Hm]%last_Some.
  rewrite (rep_deref st (l1 ++ m') n2 l2); cycle 1.
  { rewrite Hm, <- !app_assoc in Hr. by rewrite <- app_assoc. }
  cbn. rewrite (tiles_last _ _ _ _ Ht Hl), Z.eqb_refl, Hn2. cbn.
  eexists _, _, _. split; [done|]. split; [exact Hr|]. split; [done|]. cbn.
  split; [|done]. exists l1, (n1 :: m), l2, n1, n2. done.
Qed.

Lemma chain_fill l1 l2 a r o :
  chain 0 (l1 ++ l2) o -> o < U64 -> 0 < start r -> start r <= end_ r -> end_ r < U64 ->
  Forall (fun n => end_ (br n) < start r) l1 ->
  (forall n, head l2 = Some n -> end_ r < start (br n)) ->
  exists o', chain 0 (l1 ++ Cell a r :: l2) o' /\ o' < U64.
Proof using.
  intros (m & H1 & H2)%chain_app Ho Hs He Hu Hl Hh.
  assert (Hm : m < start r).
  { clear H2. destruct l1 as [|n l1 _] using rev_ind; [cbn in H1; lia|].
    apply chain_app in H1 as (k & _ & ? & ? & <-).
    apply Forall_app in Hl as [_ Hl]. inversion Hl; subst; done. }
  destruct l2 as [|n l2].
  - exists (end_ r). split; [|done]. apply chain_app. exists m. by repeat split.
  - exists o. split; [|done]. apply chain_app. exists m. destruct H2 as (? & ? & ?).
    specialize (Hh n eq_refl). by repeat split.
Qed.

Lemma chain_mono o l o' p : chain o l o' -> p <= o -> exists o'', chain p l o'' /\ o'' <= o'.
Proof using.
  destruct l as [|n l]; cbn; [intros ->; eauto|]. intros (? & ? & ?) ?. exists o'.
  split; [|lia]. split; [lia|done].
Qed.

Lemma chain_shrink l1 n l2 n' o : chain 0 (l1 ++ n :: l2) o ->
  start (br n) <= start (br n') <= end_ (br n') /\ end_ (br n') <= end_ (br n) ->
  exists o', chain 0 (l1 ++ n' :: l2) o' /\ o' <= o.
Proof using.
  intros (m & H1 & H2 & H3 & H4)%chain_app Hn.
  destruct (chain_mono _ _ _ (end_ (br n')) H4) as (o' & H5 & Ho'); [lia|].
  exists o'. split; [|done]. apply chain_app. exists m. split; [done|]. cbn. split; [lia|].
  split; [lia|done].
Qed.

Lemma malloc_cases st :
  malloc malloc_ok st =
    (bump st, if malloc_ok (mallocs st) then Some (mallocs st) else None).
Proof using. done. Qed.

Lemma promise_whole st p l1 l2 s e :
  rep st (l1 ++ l2) -> hole_at (root st) p s l1 l2 -> 0 < s -> s <= e < U64 ->
  (forall n, head l2 = Some n -> e < start (br n)) ->
  promise st (l1 ++ l2) s e (do_whole malloc_ok st p s e).
Proof using.
  intros Hr (_ & Hln & Hl & _) Hs He Hh. unfold do_whole. rewrite malloc_cases.
  destruct (malloc_ok (mallocs st)) eqn:Hm; [|by apply promise_fail].
  destruct (rep_malloc st _ Hr) as (Hr1 & Hf & Hb & Hms).
  destruct Hr as (_ & _ & _ & o & Hc & Ho).
  set (r := mk_range s e true true 0 0 0 0).
  destruct (chain_fill l1 l2 (mallocs st) r o Hc Ho) as (o' & Hc' & Ho'); cbn; [lia..|done|done|].
  destruct (rep_insert (bump st) (mallocs st) r (fun n t => rb_link_node n t p)
              l1 l2 o' Hr1) as (t & -> & Hr2); [rewrite Hms; lia|done|apply Hln|done|done|].
  cbn [mbind out_bind]. eapply (promise_step st (BlockRanges t (blocks (bump st)) (mallocs (bump st)))).
  - apply rtc_once. by apply (step_fill l1 l2 (mallocs st) s e true true o').
  - exact Hb.
  - apply (promise_done _ l1 [Cell (mallocs st) r] l2 (Cell (mallocs st) r) (Cell (mallocs st) r));
      try done; cbn; lia.
Qed.

Lemma tiles_snoc_lt l1 pre n l2 o s : chain 0 (l1 ++ pre ++ n :: l2) o ->
  s = end_ (br n) + 1 -> Forall (fun k => end_ (br k) < s) (l1 ++ pre ++ [n]).
Proof using.
  intros Hc ->. change (n :: l2) with ([n] ++ l2) in Hc. rewrite !app_assoc in Hc.
  rewrite app_assoc. apply chain_app in Hc as (m & Hc & _).
  pose proof Hc as (k & _ & _ & _ & <-)%chain_app. apply (Forall_chain_lt _ _ _ _ Hc). lia.
Qed.

Lemma snoc2 (l : list rb_cell) x y : l ++ [x; y] = (l ++ [x]) ++ [y].
Proof using. by rewrite <- app_assoc. Qed.

Lemma promise_add_tail st l1 pre n l2 n1 s e :
  rep st (l1 ++ pre ++ n :: l2) -> tiles s (pre ++ [n]) (end_ (br n) + 1) ->
  head (pre ++ [n]) = Some n1 -> is_target (br n1) = true ->
  0 < s -> end_ (br n) < e < U64 -> (forall k, head l2 = Some k -> e < start (br k)) ->
  promise st (l1 ++ pre ++ n :: l2) s e (add_tail malloc_ok st (addr n1) (addr n) (br n) s e).
Proof using.
  intros Hr Ht Hh Htg Hs He Hk. unfold add_tail. rewrite malloc_cases.
  destruct (malloc_ok (mallocs st)) eqn:Hm; [|by apply promise_fail].
  destruct (rep_malloc st _ Hr) as (Hr1 & Hf & Hb & Hms).
  destruct Hr as (_ & _ & _ & o & Hc & Ho).
  assert (Hn : 0 < end_ (br n)).
  { destruct (chain_bounds 0 _ o n Hc); [|lia]. rewrite !elem_of_app, elem_of_cons. auto. }
  assert (Hw : end_ (br n) +64 1 = end_ (br n) + 1) by (apply u64_small; unfold U64 in *; lia).
  rewrite Hw. set (r := mk_range (end_ (br n) + 1) e false true 0 0 0 0).
  set (a := mallocs st) in *.
  assert (HL : forall x, l1 ++ pre ++ n :: x = (l1 ++ pre ++ [n]) ++ x) by (intros; by rewrite <- !app_assoc).
  destruct (chain_fill (l1 ++ pre ++ [n]) l2 a r o) as (o' & Hc' & Ho'); cbn;
    [by rewrite <- HL|lia..| |done|].
  { by apply (tiles_snoc_lt l1 pre n l2 o). }
  rewrite <- HL in Hc'.
  destruct (rep_insert_right (bump st) a r (l1 ++ pre) n l2 o') as (t & Hi & Hr2);
    [by rewrite <- app_assoc|rewrite Hms; lia|by rewrite <- app_assoc|by rewrite <- app_assoc|done|].
  rewrite Hi. cbn [mbind out_bind]. rewrite <- app_assoc in Hr2.
  eapply (promise_step st (BlockRanges t (blocks (bump st)) (mallocs (bump st)))).
  - apply rtc_once. rewrite (HL l2). apply (step_fill _ l2 a (end_ (br n) + 1) e false true o'); [|done].
    by rewrite <- HL.
  - exact Hb.
  - assert (HL2 : forall x, ((l1 ++ pre ++ [n]) ++ x :: l2) = l1 ++ (pre ++ [n; x]) ++ l2)
      by (intros; by rewrite <- !app_assoc).
    rewrite HL in Hr2. rewrite HL2 in Hr2 |- *.
    apply (promise_done _ l1 _ l2 n1 (Cell a r)); try done.
    + rewrite snoc2. apply tiles_app.
      exists (end_ (br n) + 1). split; [done|]. cbn. lia.
    + by destruct pre.
    + by rewrite snoc2, last_snoc.
Qed.

(** Changing the last range keeps the first one's address and target flag. *)
Lemma head_snoc pre n n' n1 :
  head (pre ++ [n]) = Some n1 -> addr n' = addr n -> is_target (br n') = is_target (br n) ->
  exists n1', head (pre ++ [n']) = Some n1' /\ addr n1' = addr n1 /\
    is_target (br n1') = is_target (br n1).
Proof using. destruct pre; cbn; intros [= <-] ??; eauto. Qed.

(** Case: the end lies inside [n]. *)
Lemma promise_split_tail st l1 pre n l2 n1 s e :
  rep st (l1 ++ pre ++ n :: l2) -> tiles s (pre ++ [n]) (end_ (br n) + 1) ->
  head (pre ++ [n]) = Some n1 -> is_target (br n1) = true ->
  0 < s -> start (br n) <= e < end_ (br n) -> malloc_ok (mallocs st) = true ->
  promise st (l1 ++ pre ++ n :: l2) s e
    (st ← insert_range (store (bump st) (addr n) (fun r =>
              BlockRange (sym r) (start r) e (is_target r) true (coverage r) (entry r) 0 0))
            (mallocs st)
            (mk_range (e +64 1) (end_ (br n)) false (is_branch (br n))
               (coverage (br n)) 0 (taken (br n)) (pred (br n)))
            (fun x t => rb_link_right_of_node x (addr n) t);
     done_ st (addr n1) (addr n) s e).
Proof using.
  intros Hr Ht Hh Htg Hs He Hm.
  destruct (rep_malloc st _ Hr) as (Hr1 & Hf & Hb & Hms).
  destruct Hr as (_ & _ & _ & o & Hc & Ho).
  assert (HL : forall x y, l1 ++ pre ++ x :: y = (l1 ++ pre) ++ x :: y) by (intros; by rewrite <- !app_assoc).
  rewrite HL in Hr1, Hf, Hc |- *.
  pose proof Hc as (m & Hc1 & Hc2 & Hc3 & Hc4)%chain_app. pose proof (chain_le _ _ _ Hc4).
  pose proof (chain_le _ _ _ Hc1).
  assert (Hw : e +64 1 = e + 1) by (apply u64_small; unfold U64 in *; lia). rewrite Hw.
  set (f := fun r : block_range => BlockRange (sym r) (start r) e (is_target r) true (coverage r) (entry r) 0 0).
  set (n' := Cell (addr n) (f (br n))).
  destruct (chain_shrink (l1 ++ pre) n l2 n' o Hc) as (o1 & Hc' & Ho1); [cbn; lia|].
  pose proof (rep_store (bump st) (l1 ++ pre) n l2 f o1 Hr1 Hc' ltac:(lia)) as Hr2. fold n' in Hr2.
  set (r := mk_range (e + 1) (end_ (br n)) false (is_branch (br n))
               (coverage (br n)) 0 (taken (br n)) (pred (br n))).
  set (a := mallocs st) in *.
  assert (HL2 : forall x y, (l1 ++ pre) ++ x :: y = (l1 ++ pre ++ [x]) ++ y) by (intros; by rewrite <- !app_assoc).
  destruct (chain_fill (l1 ++ pre ++ [n']) l2 a r o1) as (o2 & Hc2' & Ho2); cbn [start end_ r mk_range];
    [by rewrite <- HL2|lia..| | |].
  { apply (tiles_snoc_lt l1 pre n' l2 o1); [by rewrite HL|done]. }
  { intros k Hk. destruct l2; [done|]. injection Hk as ->. destruct Hc4. lia. }
  rewrite <- HL2 in Hc2'.
  destruct (rep_insert_right (store (bump st) (addr n) f) a r (l1 ++ pre) n' l2 o2)
    as (t & Hi & Hr3); [done|cbn; lia| |done|done|].
  { unfold n'. rewrite <- (upd_mid (l1 ++ pre) n l2 f), upd_addrs by apply Hr1. done. }
  cbn [addr n'] in Hi. rewrite Hi. cbn [mbind out_bind].
  eapply (promise_step st (BlockRanges t (blocks (bump st)) (mallocs (bump st)))).
  - apply rtc_once.
    pose proof (step_cut (l1 ++ pre) l2 n (addr n) a (e + 1) (sym (br n)) None true false) as Hst.
    rewrite Z.add_simpl_r in Hst. apply Hst; [lia|auto..].
  - exact Hb.
  - destruct (head_snoc pre n n' n1) as (n1' & Hh' & <- & Htg'); [done..|].
    rewrite HL2, <- !app_assoc in Hr3. rewrite HL2, <- !app_assoc.
    rewrite (app_assoc pre) in Hr3 |- *.
    apply (promise_done _ l1 (pre ++ [n']) (Cell a r :: l2) n1' n'); try done.
    + apply tiles_app in Ht as (k & Ht1 & Ht2 & Ht3 & _). apply tiles_app. exists k.
      split; [done|]. cbn. lia.
    + apply last_snoc.
    + by rewrite Htg'.
Qed.

(** Filling the hole between [n] and [k]. *)
Lemma rep_hole st l1 n k l2 :
  rep st (l1 ++ n :: k :: l2) -> end_ (br n) + 1 < start (br k) ->
  let r := mk_range (end_ (br n) + 1) (start (br k) - 1) false false 0 0 0 0 in
  let a := mallocs st in
  exists t, insert_range (bump st) a r (fun x t => rb_link_left_of_node x (addr k) t) =
      Ret (BlockRanges t (blocks st) (S a)) /\
    rep (BlockRanges t (blocks st) (S a)) (l1 ++ n :: Cell a r :: k :: l2) /\
    step (l1 ++ n :: k :: l2) (l1 ++ n :: Cell a r :: k :: l2).
Proof using.
  intros Hr Hlt r a. destruct (rep_malloc st _ Hr) as (Hr1 & Hf & Hb & Hms).
  destruct Hr as (_ & _ & _ & o & Hc & Ho).
  assert (HL : forall x, l1 ++ n :: x = (l1 ++ [n]) ++ x) by (intros; by rewrite <- !app_assoc).
  assert (Hn : 0 < start (br n) <= end_ (br n)).
  { destruct (chain_bounds 0 _ o n Hc); [|lia]. rewrite elem_of_app, elem_of_cons. auto. }
  assert (Hk : start (br k) <= end_ (br k) <= o).
  { destruct (chain_bounds 0 _ o k Hc); [|lia]. rewrite elem_of_app, !elem_of_cons. auto. }
  destruct (chain_fill (l1 ++ [n]) (k :: l2) a r o) as (o' & Hc' & Ho'); cbn [start end_ r mk_range];
    [by rewrite <- HL|lia..| | |].
  { apply (tiles_snoc_lt l1 [] n (k :: l2) o); [done|lia]. }
  { intros x [= ->]. lia. }
  rewrite (HL (k :: l2)) in Hr1, Hf |- *.
  destruct (rep_insert_left (bump st) a r (l1 ++ [n]) k l2 o') as (t & Hi & Hr2);
    [done|cbn; lia|done|done|done|].
  exists t. rewrite (HL (Cell a r :: k :: l2)). split; [exact Hi|]. split; [exact Hr2|].
  by apply (step_fill _ (k :: l2) a (end_ (br n) + 1) (start (br k) - 1) false false o').
Qed.

Definition set_branch (r : block_range) : block_range :=
  BlockRange (sym r) (start r) (end_ r) (is_target r) true (coverage r) (entry r) (taken r) (pred r).

(** Case: the end is the end of [n]. *)
Lemma promise_match st l1 pre n l2 n1 s :
  rep st (l1 ++ pre ++ n :: l2) -> tiles s (pre ++ [n]) (end_ (br n) + 1) ->
  head (pre ++ [n]) = Some n1 -> is_target (br n1) = true ->
  promise st (l1 ++ pre ++ n :: l2) s (end_ (br n))
    (done_ (store st (addr n) set_branch) (addr n1) (addr n) s (end_ (br n))).
Proof using.
  intros Hr Ht Hh Htg. set (n' := Cell (addr n) (set_branch (br n))).
  assert (HL : forall x y, l1 ++ pre ++ x :: y = (l1 ++ pre) ++ x :: y)
    by (intros; by rewrite <- !app_assoc).
  assert (HL2 : l1 ++ (pre ++ [n']) ++ l2 = (l1 ++ pre) ++ n' :: l2) by (by rewrite <- !app_assoc).
  apply (promise_step st (store st (addr n) set_branch) _ (l1 ++ (pre ++ [n']) ++ l2)); [|done|].
  - apply rtc_once. rewrite HL2, HL. by apply step_flag.
  - destruct (head_snoc pre n n' n1) as (n1' & Hh' & <- & Htg'); [done..|].
    apply (promise_done _ l1 _ l2 n1' n'); try done.
    + rewrite HL2. rewrite HL in Hr. pose proof Hr as (_ & _ & _ & o & Hc & Ho).
      apply (rep_store st (l1 ++ pre) n l2 _ o); [done| |done].
      apply chain_app in Hc as (m & ? & ?). apply chain_app. by exists m.
    + apply tiles_app in Ht as (k & ? & ? & ? & _). apply tiles_app. exists k. by repeat split.
    + by rewrite last_snoc.
    + by rewrite Htg'.
Qed.

Lemma tiles_snoc s pre n e e' :
  tiles s pre (start (br n)) -> start (br n) <= end_ (br n) -> e' = end_ (br n) + 1 -> e = e' ->
  tiles s (pre ++ [n]) e.
Proof using. intros Hp Hn -> ->. apply tiles_app. exists (start (br n)). by repeat split. Qed.

Lemma do_tail_ok fuel : forall st l1 pre n l2 n1 s e,
  rep st (l1 ++ pre ++ n :: l2) -> tiles s (pre ++ [n]) (end_ (br n) + 1) ->
  head (pre ++ [n]) = Some n1 -> is_target (br n1) = true ->
  0 < s -> start (br n) <= e < U64 -> (length l2 < fuel)%nat ->
  promise st (l1 ++ pre ++ n :: l2) s e (do_tail malloc_ok fuel st (addr n1) (addr n) s e).
Proof using.
  induction fuel as [|fuel IH]; intros st l1 pre n l2 n1 s e Hr Ht Hh Htg Hs He Hfu; [lia|].
  cbn [do_tail]. assert (HL : forall x y, l1 ++ pre ++ x :: y = (l1 ++ pre) ++ x :: y)
    by (intros; by rewrite <- !app_assoc).
  pose proof Hr as Hr'. rewrite HL in Hr'. rewrite (rep_deref st (l1 ++ pre) n l2) by done.
  cbn [mbind out_bind]. destruct (Z.ltb_spec e (end_ (br n))).
  { rewrite malloc_cases. destruct (malloc_ok (mallocs st)) eqn:Hm; [|by apply promise_fail].
    apply promise_split_tail; try done; lia. }
  pose proof Hr as (_ & _ & _ & o & Hc & Ho).
  destruct (Z.eqb_spec e (end_ (br n))) as [->|].
  { by apply promise_match. }
  unfold block_range__next. rewrite (rep_next st (l1 ++ pre) n l2) by done.
  destruct l2 as [|k l2]; cbn [head fmap option_fmap option_map].
  { apply promise_add_tail; try done. lia. }
  assert (HL2 : forall x y, l1 ++ pre ++ n :: x :: y = (l1 ++ pre ++ [n]) ++ x :: y)
    by (intros; by rewrite <- !app_assoc).
  pose proof Hr as Hr2. rewrite HL2 in Hr2. rewrite (rep_deref _ _ _ _ Hr2). cbn [mbind out_bind].
  destruct (Z.ltb_spec e (start (br k))).
  { apply promise_add_tail; try done; [lia|]. by intros ? [= ->]. }
  rewrite HL2 in Hc. pose proof Hc as (m & Hc1 & Hk1 & Hk2 & Hc2)%chain_app.
  pose proof (chain_le _ _ _ Hc2).
  rewrite app_assoc in Hc1. pose proof Hc1 as (m' & Hc3 & Hn1 & Hn2 & Hn3)%chain_app. cbn in Hn3. subst m.
  pose proof (chain_le _ _ _ Hc3).
  assert (Hw : end_ (br n) +64 1 = end_ (br n) + 1) by (apply u64_small; unfold U64 in *; lia).
  rewrite Hw. destruct (Z.eqb_spec (end_ (br n) + 1) (start (br k))) as [Heq|]; cbn [negb].
  - assert (HL3 : l1 ++ pre ++ n :: k :: l2 = l1 ++ (pre ++ [n]) ++ k :: l2) by (by rewrite <- !app_assoc).
    rewrite HL3 in Hr |- *. apply IH; try done; [|by destruct pre|lia|cbn in Hfu; lia].
    eapply tiles_snoc; [by rewrite <- Heq|done..].
  - rewrite malloc_cases. destruct (malloc_ok (mallocs st)) eqn:Hm; [|by apply promise_fail].
    assert (Hw2 : start (br k) -64 1 = start (br k) - 1) by (apply u64_small; unfold U64 in *; lia).
    rewrite Hw2. destruct (rep_hole st (l1 ++ pre) n k l2) as (t & Hi & Hr3 & Hst);
      [by rewrite <- app_assoc|lia|].
    rewrite Hi. cbn [mbind out_bind].
    rewrite HL. apply (promise_step st (BlockRanges t (blocks st) (S (mallocs st))) _ _ _ _ _
             (rtc_once _ _ Hst)); [done|].
    match type of Hr3 with rep _ (_ ++ _ :: ?x :: _) =>
      assert (HL3 : (l1 ++ pre) ++ n :: x :: k :: l2 = l1 ++ (pre ++ [n; x]) ++ k :: l2)
        by (by rewrite <- !app_assoc) end.
    rewrite HL3 in Hr3 |- *. apply IH; try done; [|by destruct pre|lia|cbn in Hfu; lia].
    eapply tiles_snoc; [|done..]. rewrite snoc2. eapply tiles_snoc; [exact Ht|cbn;lia|done|cbn; lia].
Qed.

(** The loop as it is entered: [n] starts at [s]. *)
Lemma tail_loop_ok st l1 n l2 s e :
  rep st (l1 ++ n :: l2) -> start (br n) = s -> is_target (br n) = true -> s <= e < U64 ->
  promise st (l1 ++ n :: l2) s e (tail_loop malloc_ok st (addr n) s e).
Proof using.
  intros Hr Hs Htg He. pose proof Hr as (Hi & _ & _ & o & Hc & _).
  destruct (chain_bounds _ _ _ n Hc) as [? ?]; [rewrite elem_of_app, elem_of_cons; auto|].
  unfold tail_loop. rewrite Hi. apply (do_tail_ok _ st l1 [] n l2 n); try done; cbn; try lia.
  rewrite length_app. cbn. lia.
Qed.

(** Case: a hole at [s], and the next range [k] starts at or before [e]. *)
Lemma promise_head st l1 k l2 s e :
  rep st (l1 ++ k :: l2) -> Forall (fun n => end_ (br n) < s) l1 ->
  0 < s -> s < start (br k) -> start (br k) <= e < U64 -> malloc_ok (mallocs st) = true ->
  promise st (l1 ++ k :: l2) s e
    (st' ← insert_range (bump st) (mallocs st) (mk_range s (start (br k) -64 1) true false 0 0 0 0)
             (fun x t => rb_link_left_of_node x (addr k) t);
     tail_loop malloc_ok st' (mallocs st) s e).
Proof using.
  intros Hr Hl Hs Hsk He Hm. destruct (rep_malloc st _ Hr) as (Hr1 & Hf & Hb & Hms).
  destruct Hr as (_ & _ & _ & o & Hc & Ho).
  assert (Hw : start (br k) -64 1 = start (br k) - 1) by (apply u64_small; unfold U64 in *; lia).
  rewrite Hw. set (r := mk_range s (start (br k) - 1) true false 0 0 0 0). set (a := mallocs st) in *.
  destruct (chain_fill l1 (k :: l2) a r o) as (o' & Hc' & Ho'); cbn [start end_ r mk_range];
    [done|lia..|done| |].
  { intros ? [= ->]. lia. }
  destruct (rep_insert_left (bump st) a r l1 k l2 o') as (t & Hi & Hr2);
    [done|cbn; lia|done|done|done|].
  rewrite Hi. cbn [mbind out_bind].
  apply (promise_step st (BlockRanges t (blocks (bump st)) (mallocs (bump st))) _
           (l1 ++ Cell a r :: k :: l2)); [|done|].
  - apply rtc_once. by apply (step_fill l1 (k :: l2) a s (start (br k) - 1) true false o').
  - apply (tail_loop_ok _ l1 (Cell a r) (k :: l2)); try done; cbn; lia.
Qed.

Definition head_cut (s : Z) (r : block_range) : block_range :=
  BlockRange (sym r) s (end_ r) true (is_branch r) (coverage r) 0 (taken r) (pred r).

(** Case: [s] lies inside [n]. *)
Lemma promise_split_head st l1 n l2 s e :
  rep st (l1 ++ n :: l2) -> start (br n) < s <= end_ (br n) -> s <= e < U64 ->
  malloc_ok (mallocs st) = true ->
  promise st (l1 ++ n :: l2) s e
    (st' ← insert_range (store (bump st) (addr n) (head_cut s)) (mallocs st)
             (mk_range (start (br n)) (s -64 1) (is_target (br n)) false
                (coverage (br n)) (entry (br n)) 0 0)
             (fun x t => rb_link_left_of_node x (addr n) t);
     tail_loop malloc_ok st' (addr n) s e).
Proof using.
  intros Hr Hs He Hm. destruct (rep_malloc st _ Hr) as (Hr1 & Hf & Hb & Hms).
  destruct Hr as (_ & _ & _ & o & Hc & Ho).
  destruct (chain_bounds _ _ _ n Hc) as [? ?]; [rewrite elem_of_app, elem_of_cons; auto|].
  assert (Hw : s -64 1 = s - 1) by (apply u64_small; unfold U64 in *; lia). rewrite Hw.
  set (r := mk_range (start (br n)) (s - 1) (is_target (br n)) false
                (coverage (br n)) (entry (br n)) 0 0). set (a := mallocs st) in *.
  set (n' := Cell (addr n) (head_cut s (br n))).
  destruct (chain_shrink l1 n l2 n' o Hc) as (o1 & Hc' & Ho1); [cbn; lia|].
  pose proof (rep_store (bump st) l1 n l2 (head_cut s) o1 Hr1 Hc' ltac:(lia)) as Hr2. fold n' in Hr2.
  destruct (chain_fill l1 (n' :: l2) a r o1) as (o2 & Hc2 & Ho2); cbn [start end_ r mk_range];
    [done|lia..| | |].
  { apply chain_app in Hc as (m & Hc1 & ? & _). apply (Forall_chain_lt _ _ _ _ Hc1). lia. }
  { intros x [= <-]. cbn. lia. }
  destruct (rep_insert_left (store (bump st) (addr n) (head_cut s)) a r l1 n' l2 o2)
    as (t & Hi & Hr3); [done|cbn; lia| |done|done|].
  { unfold n'. rewrite <- (upd_mid l1 n l2 (head_cut s)), upd_addrs by apply Hr1. done. }
  cbn [addr n'] in Hi. rewrite Hi. cbn [mbind out_bind].
  eapply (promise_step st (BlockRanges t (blocks (bump st)) (mallocs (bump st)))
            _ (l1 ++ Cell a r :: n' :: l2)); [|done|].
  - apply rtc_once. by apply (step_cut l1 l2 n a (addr n) s None (sym (br n)) false true); auto.
  - replace (l1 ++ Cell a r :: n' :: l2) with ((l1 ++ [Cell a r]) ++ n' :: l2) in Hr3 |- *
      by (by rewrite <- app_assoc).
    by apply (tail_loop_ok _ (l1 ++ [Cell a r]) n').
Qed.

Definition set_target (r : block_range) : block_range :=
  BlockRange (sym r) (start r) (end_ r) true (is_branch r) (coverage r) (entry r) (taken r) (pred r).

Lemma promise_same_start st l1 n l2 e :
  rep st (l1 ++ n :: l2) -> start (br n) <= e < U64 ->
  promise st (l1 ++ n :: l2) (start (br n)) e
    (tail_loop malloc_ok (store st (addr n) set_target) (addr n) (start (br n)) e).
Proof using.
  intros Hr He. set (n' := Cell (addr n) (set_target (br n))).
  apply (promise_step st (store st (addr n) set_target) _ (l1 ++ n' :: l2)); [|done|].
  - apply rtc_once. by apply step_flag.
  - apply (tail_loop_ok _ l1 n'); try done.
    pose proof Hr as (_ & _ & _ & o & Hc & Ho). apply (rep_store st l1 n l2 _ o); [done| |done].
    apply chain_app in Hc as (m & ? & ?). apply chain_app. by exists m.
Qed.

(** The next range after a hole, whichever neighbour the descent saw last. *)
Lemma next_after_hole st p s l1 l2 n :
  rep st (l1 ++ l2) -> hole_at (root st) p s l1 l2 ->
  last l1 = Some n \/ head l2 = Some n ->
  deref (root st) (addr n) = Ret (br n) /\
  (if end_ (br n) <? s then rb_next (root st) (addr n) else Some (addr n)) = addr <$> head l2.
Proof using.
  intros Hr (_ & _ & Hl1 & Hl2) [Hn|Hn].
  - apply last_Some in Hn as [l ->]. rewrite <- app_assoc in Hr. cbn in Hr.
    split; [by eapply rep_deref|]. apply Forall_app in Hl1 as [_ Hl1].
    inversion Hl1; subst. rewrite (proj2 (Z.ltb_lt _ _)) by done. by apply (rep_next st l n l2).
  - destruct l2 as [|k l2]; [done|]. injection Hn as ->.
    split; [by eapply rep_deref|]. inversion Hl2; subst.
    pose proof Hr as (_ & _ & _ & o & (m & _ & ? & ? & _)%chain_app & _).
    by rewrite (proj2 (Z.ltb_ge _ _)) by lia.
Qed.

Lemma create_ok st L s e : rep st L -> 0 < s -> s <= e < U64 ->
  promise st L s e (block_range__create malloc_ok st s e).
Proof using.
  intros Hr Hs He. unfold block_range__create.
  destruct (descend (root st) s None) as [[p ent] f] eqn:Hd.
  pose proof Hr as (Hi & _ & _ & o & Hc & Ho). rewrite <- Hi in Hc. destruct f.
  - destruct (descend_found _ _ _ _ _ _ _ Hc Hd) as (l1 & n & l2 & Hl & -> & Hn).
    rewrite Hi in Hl. rewrite Hl in Hr |- *. rewrite (rep_deref st l1 n l2) by done. cbn [mbind out_bind].
    destruct (Z.ltb_spec (start (br n)) s).
    + rewrite malloc_cases. destruct (malloc_ok (mallocs st)) eqn:Hm; [|by apply promise_fail].
      apply promise_split_head; try done; lia.
    + assert (Hse : start (br n) = s) by lia. rewrite <- Hse at 1 2 3. rewrite Z.eqb_refl.
      apply promise_same_start; [done|lia].
  - destruct (descend_null _ _ _ _ _ _ _ Hc Hd) as (l1 & l2 & Hh & Hn).
    pose proof Hh as (Hl & _ & Hl1 & Hl2). rewrite Hi in Hl. rewrite Hl in Hr, Hi |- *. clear L Hl.
    destruct (root st) eqn:Hroot.
    { subst ent. apply promise_whole; try done; [by rewrite Hroot|].
      cbn in Hi. by destruct l1, l2. }
    rewrite <- Hroot in *. clear Hroot.
    assert (exists x, ent = Some (addr x) /\ (last l1 = Some x \/ head l2 = Some x)) as (x & -> & Hx)
      by (destruct Hn as [(x & ? & ?)|(x & ? & ?)]; eauto).
    destruct (next_after_hole st p s l1 l2 x) as [-> Hnx]; [done..|]. cbn [mbind out_bind].
    rewrite Hnx. destruct l2 as [|k l2]; cbn [head fmap option_fmap option_map].
    { by apply promise_whole. }
    rewrite (rep_deref st l1 k l2) by done. cbn [mbind out_bind].
    destruct (Z.leb_spec (start (br k)) e).
    + rewrite malloc_cases. destruct (malloc_ok (mallocs st)) eqn:Hm; [|by apply promise_fail].
      inversion Hl2; subst. apply promise_head; try done; lia.
    + apply promise_whole; try done. by intros ? [= ->].
Qed.
End Create.

(** * What the counters mean *)

Definition count (P : basic_block -> Prop) `{!forall b, Decision (P b)} (B : list basic_block) : Z :=
  zlen (filter P B).

Section Count.
Context (P Q : basic_block -> Prop) `{!forall b, Decision (P b), !forall b, Decision (Q b)}.

Lemma count_cons b B : count P (b :: B) = (if decide (P b) then 1 else 0) + count P B.
Proof using.
  unfold count. rewrite filter_cons. case_decide; [|lia]. by rewrite zlen_cons.
Qed.

Lemma count_le B : (forall b, b ∈ B -> P b -> Q b) -> count P B <= count Q B.
Proof using.
  induction B as [|b B IH]; intros HB; [done|].
  assert (count P B <= count Q B) by (apply IH; intros; apply HB; [by right|done]).
  pose proof (HB b (list_elem_of_here b B)). unfold count in *. rewrite !filter_cons.
  repeat case_decide; rewrite ?zlen_cons; try lia. naive_solver.
Qed.

Lemma count_bound B : 0 <= count P B <= zlen B.
Proof using.
  unfold count, zlen. pose proof (length_filter P B). lia.
Qed.

Lemma count_zero B : (forall b, b ∈ B -> ~ P b) -> count P B = 0.
Proof using.
  induction B as [|b B IH]; intros HB; [done|].
  rewrite count_cons, decide_False by (apply HB; left). rewrite IH; [done|].
  intros; apply HB; by right.
Qed.

Lemma count_pos B b : b ∈ B -> P b -> 1 <= count P B.
Proof using.
  intros Hb HP. unfold count, zlen.
  assert (b ∈ filter P B) as Hf by (by apply list_elem_of_filter).
  destruct (filter P B); [by apply elem_of_nil in Hf|]. cbn. lia.
Qed.
End Count.

Lemma count_ext P Q `{!forall b, Decision (P b), !forall b, Decision (Q b)} B :
  (forall b, b ∈ B -> P b <-> Q b) -> count P B = count Q B.
Proof. intros HB. apply Z.le_antisymm; apply count_le; intros b Hb; by apply HB. Qed.

Definition covers (r : block_range) (b : basic_block) : Prop :=
  b_start b <= start r /\ end_ r <= b_end b.
Definition enters (r : block_range) (b : basic_block) : Prop := b_start b = start r.
Definition leaves (r : block_range) (b : basic_block) : Prop := b_end b = end_ r.
Definition leaves_pred (r : block_range) (b : basic_block) : Prop :=
  b_end b = end_ r /\ b_pred b = true.

#[export] Instance covers_dec r b : Decision (covers r b).
Proof. unfold covers. apply _. Defined.
#[export] Instance enters_dec r b : Decision (enters r b).
Proof. unfold enters. apply _. Defined.
#[export] Instance leaves_dec r b : Decision (leaves r b).
Proof. unfold leaves. apply _. Defined.
#[export] Instance leaves_pred_dec r b : Decision (leaves_pred r b).
Proof. unfold leaves_pred. apply _. Defined.

(** A range against the blocks processed so far: no block ends or starts inside
    it, and its counters are the numbers of blocks that the comments of struct
    block_range promise. *)
Record good (B : list basic_block) (mc : nat -> Z) (r : block_range) : Prop := Good {
  g_align : forall b, b ∈ B -> covers r b \/ end_ r < b_start b \/ b_end b < start r;
  g_coverage : coverage r = u64 (count (covers r) B);
  g_entry : entry r = u64 (count (enters r) B);
  g_taken : taken r = u64 (count (leaves r) B);
  g_pred : pred r = u64 (count (leaves_pred r) B);
  g_target : forall b, b ∈ B -> enters r b -> is_target r = true;
  g_branch : forall b, b ∈ B -> leaves r b -> is_branch r = true;
  g_sym : forall s, sym r = Some s ->
    coverage r <= mc s /\ exists b, b ∈ B /\ covers r b
}.

Definition block_ok (b : basic_block) : Prop := 0 < b_start b <= b_end b /\ b_end b < U64.

#[export] Instance block_ok_dec b : Decision (block_ok b).
Proof. unfold block_ok. apply _. Defined.

Record counted (B : list basic_block) (mc : nat -> Z) (L : list rb_cell) : Prop := Counted {
  c_blocks : Forall block_ok B;
  c_good : Forall (fun n => good B mc (br n)) L;
  c_cover : forall b x, b ∈ B -> b_start b <= x <= b_end b ->
    exists n, n ∈ L /\ start (br n) <= x <= end_ (br n);
  c_last : forall n, last L = Some n -> is_branch (br n) = true
}.

Lemma block_ok_le B b : Forall block_ok B -> b ∈ B -> 0 < b_start b <= b_end b.
Proof. rewrite Forall_forall. intros HB Hb. apply (HB b Hb). Qed.

Lemma cut_good B mc r x sy1 sy2 b1 t2 :
  Forall block_ok B -> good B mc r -> start r < x <= end_ r ->
  (sy1 = None \/ sy1 = sym r) -> (sy2 = None \/ sy2 = sym r) ->
  good B mc (BlockRange sy1 (start r) (x - 1) (is_target r) b1 (coverage r) (entry r) 0 0) /\
  good B mc (BlockRange sy2 x (end_ r) t2 (is_branch r) (coverage r) 0 (taken r) (pred r)).
Proof.
  intros HB [Ga Gc Ge Gt Gp Gtg Gbr Gs] Hx Hs1 Hs2.
  assert (Hb : forall b, b ∈ B -> 0 < b_start b <= b_end b) by (intros b; by apply block_ok_le).
  split; constructor; cbn [start end_ is_target is_branch coverage entry taken pred sym];
    unfold covers, enters, leaves, leaves_pred in *;
    cbn [start end_ is_target is_branch coverage entry taken pred sym] in *.
  all: try (intros b HbB; specialize (Ga b HbB); specialize (Hb b HbB); lia).
  all: try (intros b HbB He; specialize (Ga b HbB); specialize (Hb b HbB); lia).
  all: try done.
  all: try (rewrite count_zero; [done|]; intros b HbB; specialize (Ga b HbB); specialize (Hb b HbB); lia).
  all: try (rewrite Gc; f_equal; apply count_ext; intros b HbB;
            specialize (Ga b HbB); specialize (Hb b HbB); lia).
  all: intros s Hs; destruct (Gs s) as (? & b & HbB & ?);
    [destruct Hs1, Hs2; congruence|]; split; [done|];
    exists b; split; [done|]; lia.
Qed.

(** Ranges of a chain are pairwise apart. *)
Lemma chain_apart l1 n l2 o k x : chain 0 (l1 ++ n :: l2) o -> k ∈ l1 ++ l2 ->
  start (br n) <= x <= end_ (br n) -> start (br k) <= x <= end_ (br k) -> False.
Proof.
  intros (m & H1 & H2 & H3 & H4)%chain_app [Hk|Hk]%elem_of_app Hx Hx'.
  - pose proof (chain_bounds _ _ _ _ H1 Hk). lia.
  - pose proof (chain_bounds _ _ _ _ H4 Hk). lia.
Qed.

Lemma step_chain L L' o : step L L' -> chain 0 L o -> exists o', chain 0 L' o'.
Proof.
  intros [l1 l2 n a1 a2 x sy1 sy2 b1 t2 Hx _ _|l1 l2 a s e t b o' Hc _|l1 l2 n t b _ _];
    [|by exists o'|]; intros (m & H1 & H2 & H3 & H4)%chain_app; exists o; apply chain_app; exists m;
    cbn; repeat split; try done; lia.
Qed.

(** No block reaches into a hole. *)
Lemma fill_good B mc l1 l2 a s e t b o :
  chain 0 (l1 ++ Cell a (mk_range s e t b 0 0 0 0) :: l2) o -> Forall block_ok B ->
  (forall b x, b ∈ B -> b_start b <= x <= b_end b ->
    exists n, n ∈ l1 ++ l2 /\ start (br n) <= x <= end_ (br n)) ->
  good B mc (mk_range s e t b 0 0 0 0).
Proof.
  intros Hc HB HC.
  assert (Hse : s <= e) by (apply chain_app in Hc as (? & _ & _ & ? & _); done).
  assert (Hno : forall b', b' ∈ B -> e < b_start b' \/ b_end b' < s).
  { intros b' Hb'. pose proof (block_ok_le _ _ HB Hb').
    destruct (Z.le_gt_cases (b_start b') e), (Z.le_gt_cases s (b_end b')); try lia.
    destruct (HC b' (Z.max (b_start b') s) Hb') as (k & Hk & ?); [lia|].
    exfalso. apply (chain_apart l1 _ l2 o k (Z.max (b_start b') s) Hc Hk); cbn; lia. }
  constructor; cbn; unfold covers, enters, leaves, leaves_pred; cbn; try done.
  all: try (rewrite count_zero; [done|]); intros b' Hb'; pose proof (block_ok_le _ _ HB Hb');
    specialize (Hno b' Hb'); lia.
Qed.

Lemma step_counted B mc L L' o :
  step L L' -> chain 0 L o -> counted B mc L -> counted B mc L'.
Proof.
  intros [l1 l2 n a1 a2 x sy1 sy2 b1 t2 Hx Hs1 Hs2|l1 l2 a s e t b o' Hc' Hlast|l1 l2 n t b Ht Hb]
    Hc [HB HG HC HLast].
  - rewrite Forall_app, Forall_cons in HG. destruct HG as (HG1 & HGn & HG2).
    destruct (cut_good B mc (br n) x sy1 sy2 b1 t2) as [HN1 HN2]; [done..|].
    split; [done| | |].
    + rewrite Forall_app, !Forall_cons. done.
    + intros b y Hb Hy. destruct (HC b y Hb Hy) as (k & [Hk|[->|Hk]%elem_of_cons]%elem_of_app & ?).
      * exists k. split; [|done]. apply elem_of_app. by left.
      * destruct (Z.le_gt_cases x y); eexists; (split; [apply elem_of_app; right|]);
          [right; left|cbn; lia|left|cbn; lia].
      * exists k. split; [|done]. apply elem_of_app. right. right. by right.
    + revert HLast. rewrite !last_app_cons, !last_cons.
      intros HLast k. destruct (last l2); intros [= <-]; cbn; by apply HLast.
  - split; [done| | |].
    + rewrite Forall_app in *. destruct HG as [HG1 HG2]. split; [done|]. constructor; [|done].
      by apply (fill_good B mc l1 l2 a s e t b o').
    + intros b' y Hb' Hy. destruct (HC b' y Hb' Hy) as (k & Hk & ?). exists k. split; [|done].
      rewrite elem_of_app, elem_of_cons. apply elem_of_app in Hk. tauto.
    + revert HLast. rewrite last_app_cons, last_cons, last_app. intros HLast k.
      destruct (last l2) eqn:El; intros [= <-]; [by apply HLast|]. by apply Hlast, last_None.
  - rewrite Forall_app, Forall_cons in HG. destruct HG as (HG1 & [Ga Gc Ge Gt Gp Gtg Gbr Gs] & HG2).
    split; [done| | |].
    + rewrite Forall_app, Forall_cons. split; [done|]. split; [|done].
      constructor; cbn; eauto.
    + intros b' y Hb' Hy. destruct (HC b' y Hb' Hy) as (k & [Hk|[->|Hk]%elem_of_cons]%elem_of_app & ?);
        eexists; rewrite elem_of_app, elem_of_cons; eauto.
    + revert HLast. rewrite !last_app_cons, !last_cons. intros HLast k.
      destruct (last l2); intros [= <-]; [by apply HLast|]. by apply Hb, HLast.
Qed.

Lemma steps_counted B mc L L' o :
  rtc step L L' -> chain 0 L o -> counted B mc L -> counted B mc L'.
Proof.
  intros Hs. revert o. induction Hs as [|L L1 L2 Hs _ IH]; [done|]. intros o Hc HB.
  destruct (step_chain _ _ _ Hs Hc) as [o' Hc']. apply (IH o' Hc').
  by apply (step_counted B mc L L1 o).
Qed.

(** * Processing a block *)

(** The effect of process_basic_block on a range of the block. *)
Definition account (b : basic_block) (r : block_range) : block_range :=
  BlockRange (b_sym b) (start r) (end_ r) (is_target r) (is_branch r) (coverage r +64 1)
    (if start r =? b_start b then entry r +64 1 else entry r)
    (if end_ r =? b_end b then taken r +64 1 else taken r)
    (if (end_ r =? b_end b) && b_pred b then pred r +64 1 else pred r).

Definition on_cell (f : block_range -> block_range) (n : rb_cell) : rb_cell := Cell (addr n) (f (br n)).

Definition cov_one (s : option nat) (r : block_range) : block_range :=
  BlockRange s (start r) (end_ r) (is_target r) (is_branch r) (coverage r +64 1)
    (entry r) (taken r) (pred r).

Definition cell_same (f : block_range -> block_range) : Prop :=
  forall r, start (f r) = start r /\ end_ (f r) = end_ r.

Lemma chain_on_cell f o l o' : cell_same f -> chain o (on_cell f <$> l) o' <-> chain o l o'.
Proof.
  intros Hf. revert o; induction l as [|n l IH]; intros o; cbn; [done|].
  destruct (Hf (br n)) as [-> ->]. by rewrite IH.
Qed.

Lemma rep_update st l1 n l2 f : cell_same f ->
  rep st (l1 ++ n :: l2) -> rep (store st (addr n) f) (l1 ++ on_cell f n :: l2).
Proof.
  intros Hf Hr. pose proof Hr as (_ & _ & _ & o & Hc & Ho). apply (rep_store st l1 n l2 f o); [done| |done].
  apply chain_app in Hc as (m & H1 & H2 & H3 & H4). apply chain_app. exists m.
  destruct (Hf (br n)) as [E1 E2]. cbn. rewrite E1, E2. by repeat split.
Qed.

Section Process.
Context `{RbTree}.
Variable malloc_ok : nat -> bool.

Lemma cover_loop_ok s fuel : forall an l1 n m l2 n2,
  rep (ranges an) (l1 ++ (n :: m) ++ l2) -> last (n :: m) = Some n2 -> (length m < fuel)%nat ->
  exists an', cover_loop fuel an (Iter (Some (addr n)) (Some (addr n2))) s =
                Ret (an', Iter (Some (addr n2)) (Some (addr n2))) /\
    rep (ranges an') (l1 ++ (on_cell (cov_one s) <$> n :: m) ++ l2) /\
    blocks (ranges an') = blocks (ranges an) /\
    (forall y, max_coverage an y <= max_coverage an' y) /\
    (forall k y, k ∈ n :: m -> s = Some y -> coverage (br k) +64 1 <= max_coverage an' y).
Proof using.
  induction fuel as [|fuel IH]; intros an l1 n m l2 n2 Hr Hl Hfu; [lia|].
  cbn [cover_loop iter_ptr iter_start mbind out_bind].
  rewrite (rep_deref _ l1 n (m ++ l2)) by done. cbn [mbind out_bind].
  set (mc := match s with None => _ | Some _ => _ end).
  assert (Hmc : (forall y, max_coverage an y <= mc y) /\
                (forall y, s = Some y -> coverage (br n) +64 1 <= mc y)).
  { unfold mc. destruct s as [s'|]; [|split; [done|by intros]]. split.
    - intros y. case_decide; subst; lia.
    - intros y [= <-]. rewrite decide_True by done. lia. }
  clearbody mc. destruct Hmc as [Hmc1 Hmc2].
  set (st := store (ranges an) (addr n) _).
  assert (Hst : rep st (l1 ++ on_cell (cov_one s) n :: m ++ l2))
    by (apply (rep_update (ranges an) l1 n (m ++ l2) (fun r =>
          BlockRange s (start r) (end_ r) (is_target r) (is_branch r) (coverage (br n) +64 1)
            (entry r) (taken r) (pred r))); done).
  unfold block_range_iter__next. cbn [iter_start iter_end]. destruct m as [|k m].
  - injection Hl as <-. rewrite decide_True by done. eexists (Annotate st mc).
    split; [done|]. split; [done|]. split; [done|]. split; [done|]. cbn.
    intros k y ->%list_elem_of_singleton Hs. auto.
  - rewrite decide_False; cycle 1.
    { intros [= He]. destruct Hr as (_ & Hd & _). apply (nodup_mid l1 ((k :: m) ++ l2) n) in Hd as [_ Hd].
      rewrite last_cons_cons in Hl. apply last_Some_elem_of in Hl. apply Hd. rewrite He.
      apply list_elem_of_fmap_2. by apply elem_of_app; left. }
    cbn [mbind option_bind]. unfold block_range__next.
    change (addr n) with (addr (on_cell (cov_one s) n)) at 1.
    rewrite (rep_next st l1 _ _ Hst). cbn [app head fmap option_fmap option_map].
    destruct (IH (Annotate st mc) (l1 ++ [on_cell (cov_one s) n]) k m l2 n2)
      as (an' & Hrun & Hr' & Hb & Hm1 & Hm2).
    + rewrite <- app_assoc. exact Hst.
    + by rewrite last_cons_cons in Hl.
    + cbn in Hfu. lia.
    + exists an'. split; [exact Hrun|]. rewrite <- app_assoc in Hr'.
      split; [exact Hr'|]. split; [by rewrite Hb|]. cbn in Hm1.
      split; [intros y; specialize (Hmc1 y); specialize (Hm1 y); lia|].
      intros x y [->|Hx]%elem_of_cons Hs; [|by apply Hm2].
      specialize (Hmc2 y Hs). specialize (Hm1 y). lia.
Qed.

Definition enter_one (r : block_range) : block_range :=
  BlockRange (sym r) (start r) (end_ r) (is_target r) (is_branch r)
    (coverage r) (entry r +64 1) (taken r) (pred r).
Definition leave_one (p : bool) (r : block_range) : block_range :=
  BlockRange (sym r) (start r) (end_ r) (is_target r) (is_branch r) (coverage r) (entry r)
    (taken r +64 1) (if p then pred r +64 1 else pred r).

(** The stores of process_basic_block, as one update of every range. *)
Lemma account_one b n :
  tiles (b_start b) [n] (b_end b + 1) ->
  on_cell (account b) n = on_cell (leave_one (b_pred b)) (on_cell (cov_one (b_sym b)) (on_cell enter_one n)).
Proof using.
  cbn. intros (Hs & _ & He). unfold account, on_cell; cbn.
  by rewrite (proj2 (Z.eqb_eq (start (br n)) (b_start b))),
    (proj2 (Z.eqb_eq (end_ (br n)) (b_end b))) by lia.
Qed.

Lemma account_many b n1 mid n2 :
  tiles (b_start b) (n1 :: mid ++ [n2]) (b_end b + 1) ->
  on_cell (account b) <$> (n1 :: mid ++ [n2]) =
    on_cell (cov_one (b_sym b)) (on_cell enter_one n1) :: (on_cell (cov_one (b_sym b)) <$> mid) ++
      [on_cell (leave_one (b_pred b)) (on_cell (cov_one (b_sym b)) n2)].
Proof using.
  cbn [tiles]. intros (Hs & Hn1 & (k & Hm & Hk & Hn2 & He)%tiles_app). cbn in He.
  pose proof (tiles_le _ _ _ Hm). cbn [fmap list_fmap]. rewrite fmap_app. f_equal; [|f_equal].
  - unfold account, on_cell; cbn.
    by rewrite (proj2 (Z.eqb_eq (start (br n1)) (b_start b))),
      (proj2 (Z.eqb_neq (end_ (br n1)) (b_end b))) by lia.
  - apply list_fmap_ext. intros i x Hx%list_elem_of_lookup_2.
    pose proof (tiles_bounds _ _ _ _ Hm Hx). unfold account, on_cell; cbn.
    by rewrite (proj2 (Z.eqb_neq (end_ (br x)) (b_end b))),
       (proj2 (Z.eqb_neq (start (br x)) (b_start b))) by lia.
  - unfold account, on_cell; cbn.
    by rewrite (proj2 (Z.eqb_eq (end_ (br n2)) (b_end b))),
       (proj2 (Z.eqb_neq (start (br n2)) (b_start b))) by lia.
Qed.

(** The flags of a spanned part. *)
Lemma spans_flags s e m n1 n2 k :
  tiles s m (e + 1) -> head m = Some n1 -> last m = Some n2 ->
  is_target (br n1) = true -> is_branch (br n2) = true -> k ∈ m ->
  (start (br k) = s -> is_target (br k) = true) /\ (end_ (br k) = e -> is_branch (br k) = true).
Proof using.
  intros Ht Hh Hl Htg Hbr Hk. apply last_Some in Hl as [m' Hl]. split; intros He.
  - destruct m as [|n mt]; [done|]. injection Hh as ->. destruct Ht as (_ & ? & Ht).
    apply elem_of_cons in Hk as [->|Hk]; [done|]. pose proof (tiles_bounds _ _ _ _ Ht Hk). lia.
  - subst m. apply tiles_app in Ht as (x & Ht & ? & ? & ?).
    apply elem_of_app in Hk as [Hk|Hk%list_elem_of_singleton]; [|by subst k].
    pose proof (tiles_bounds _ _ _ _ Ht Hk). cbn in *. lia.
Qed.

(** After block_range__create: what the rest of process_basic_block does. *)
Lemma account_ok st mc b it L :
  rep st L -> spans st it L (b_start b) (b_end b) ->
  exists l1 m l2 an', L = l1 ++ m ++ l2 /\ tiles (b_start b) m (b_end b + 1) /\
    (forall k, k ∈ m -> (start (br k) = b_start b -> is_target (br k) = true) /\
                        (end_ (br k) = b_end b -> is_branch (br k) = true)) /\
    (a ← iter_ptr it; r ← deref (root st) a; _ ← assert (is_target r);
     '(an, it) ← cover_loop (length (inorder (root (store st a enter_one))))
                   (Annotate (store st a enter_one) mc) it (b_sym b);
     a ← iter_ptr it; r ← deref (root (ranges an)) a; _ ← assert (is_branch r);
     Ret (Annotate (store (ranges an) a (leave_one (b_pred b))) (max_coverage an))) = Ret an' /\
    rep (ranges an') (l1 ++ (on_cell (account b) <$> m) ++ l2) /\
    blocks (ranges an') = blocks st /\
    (forall y, mc y <= max_coverage an' y) /\
    (forall k y, k ∈ m -> b_sym b = Some y -> coverage (br k) +64 1 <= max_coverage an' y).
Proof using.
  intros Hr (l1 & m & l2 & n1 & n2 & -> & Ht & Hh & Hl & -> & Htg & Hbr).
  pose proof (fun k => spans_flags _ _ _ _ _ k Ht Hh Hl Htg Hbr) as Hfl.
  destruct m as [|n mt]; [done|]. injection Hh as ->.
  exists l1, (n1 :: mt), l2. cbn [iter_ptr iter_start mbind out_bind].
  rewrite (rep_deref st l1 n1 (mt ++ l2)) by done. cbn [mbind out_bind]. rewrite Htg. cbn [assert mbind out_bind].
  set (st1 := store st (addr n1) enter_one).
  assert (Hr1 : rep st1 (l1 ++ (on_cell enter_one n1 :: mt) ++ l2)) by (apply (rep_update st l1 n1 (mt ++ l2)); done).
  assert (exists n2', last (on_cell enter_one n1 :: mt) = Some n2' /\ addr n2' = addr n2 /\
           is_branch (br n2') = true) as (n2' & Hl' & Ha & Hb').
  { rewrite last_cons in Hl |- *. destruct (last mt); injection Hl as ->; eauto. }
  destruct (cover_loop_ok (b_sym b) (length (inorder (root st1))) (Annotate st1 mc) l1
              (on_cell enter_one n1) mt l2 n2') as (an & Hrun & Hr2 & Hbl & Hm1 & Hm2); [done|done| |].
  { destruct Hr1 as (-> & _). rewrite length_app. cbn. rewrite length_app. lia. }
  change (addr (on_cell enter_one n1)) with (addr n1) in Hrun. rewrite Ha in Hrun. rewrite Hrun.
  cbn [mbind out_bind iter_ptr iter_start].
  pose proof Hl' as [m0 Hm0]%last_Some. rewrite Hm0, fmap_app in Hr2. cbn [fmap list_fmap] in Hr2.
  rewrite <- (app_assoc _ [_]), (app_assoc l1) in Hr2.
  set (x := on_cell (cov_one (b_sym b)) n2') in *.
  replace (addr n2) with (addr x) by done.
  rewrite (rep_deref _ _ _ _ Hr2). cbn [mbind out_bind]. 
  replace (is_branch (br x)) with true by done. cbn [assert mbind out_bind].
  eexists. split; [done|]. split; [done|]. split; [done|]. split; [reflexivity|]. cbn [ranges max_coverage].
  pose proof (rep_update (ranges an) _ x l2 (leave_one (b_pred b)) ltac:(done) Hr2) as Hr3.
  split; [|split; [done|split; [done|]]].
  - rewrite <- app_assoc in Hr3. replace (on_cell (account b) <$> n1 :: mt)
      with ((on_cell (cov_one (b_sym b)) <$> m0) ++ [on_cell (leave_one (b_pred b)) x]); [by rewrite <- app_assoc|].
    destruct m0 as [|y m0]; injection Hm0 as Hy ->.
    + cbn. unfold x. rewrite <- Hy. by rewrite (account_one b n1).
    + rewrite (account_many b n1 m0 n2'), <- Hy by done. done.
  - intros k y [->|Hk]%elem_of_cons Hs.
    + by apply (Hm2 (on_cell enter_one n1)); [left|].
    + apply Hm2; [by right|done].
Qed.

Lemma u64_succ z : u64 z +64 1 = u64 (1 + z).
Proof using. unfold wrap. rewrite Zplus_mod_idemp_l. f_equal. lia. Qed.

Lemma account_good B mc mc' b r :
  good B mc r -> covers r b ->
  (start r = b_start b -> is_target r = true) -> (end_ r = b_end b -> is_branch r = true) ->
  (forall y, b_sym b = Some y -> coverage r +64 1 <= mc' y) ->
  good (b :: B) mc' (account b r).
Proof using.
  intros [Ga Gc Ge Gt Gp Gtg Gbr Gs] Hb Ht Hbr Hmc.
  constructor.
  - intros b' [->|Hb']%elem_of_cons; [by left|by apply Ga].
  - change (coverage r +64 1 = u64 (count (covers r) (b :: B))).
    by rewrite Gc, u64_succ, count_cons, decide_True.
  - change ((if start r =? b_start b then entry r +64 1 else entry r) = u64 (count (enters r) (b :: B))).
    rewrite Ge, count_cons. destruct (Z.eqb_spec (start r) (b_start b)).
    + rewrite decide_True by done. by rewrite u64_succ.
    + by rewrite decide_False by (unfold enters; lia).
  - change ((if end_ r =? b_end b then taken r +64 1 else taken r) = u64 (count (leaves r) (b :: B))).
    rewrite Gt, count_cons. destruct (Z.eqb_spec (end_ r) (b_end b)).
    + rewrite decide_True by done. by rewrite u64_succ.
    + by rewrite decide_False by (unfold leaves; lia).
  - change ((if (end_ r =? b_end b) && b_pred b then pred r +64 1 else pred r) =
            u64 (count (leaves_pred r) (b :: B))).
    rewrite Gp, count_cons. destruct (Z.eqb_spec (end_ r) (b_end b)), (b_pred b) eqn:Hp; cbn [andb].
    + rewrite decide_True by done. by rewrite u64_succ.
    + rewrite decide_False; [done|]. unfold leaves_pred. rewrite Hp. by intros [_ ?].
    + by rewrite decide_False by (unfold leaves_pred; lia).
    + by rewrite decide_False by (unfold leaves_pred; lia).
  - intros b' [->|Hb']%elem_of_cons He; [by apply Ht|by eapply Gtg].
  - intros b' [->|Hb']%elem_of_cons He; [by apply Hbr|by eapply Gbr].
  - intros y Hy. split; [by apply Hmc|]. exists b. split; [left|done].
Qed.

Lemma other_good B mc mc' b r :
  good B mc r -> block_ok b -> start r <= end_ r -> end_ r < b_start b \/ b_end b < start r ->
  (forall y, mc y <= mc' y) -> good (b :: B) mc' r.
Proof using.
  intros [Ga Gc Ge Gt Gp Gtg Gbr Gs] [Hok _] Hr Hb Hmc. constructor.
  - intros b' [->|Hb']%elem_of_cons; [by right|by apply Ga].
  - rewrite Gc, count_cons, decide_False by (unfold covers; lia). done.
  - rewrite Ge, count_cons, decide_False by (unfold enters; lia). done.
  - rewrite Gt, count_cons, decide_False by (unfold leaves; lia). done.
  - rewrite Gp, count_cons, decide_False by (unfold leaves_pred; lia). done.
  - intros b' [->|Hb']%elem_of_cons He; [unfold enters in He; lia|by eapply Gtg].
  - intros b' [->|Hb']%elem_of_cons He; [unfold leaves in He; lia|by eapply Gbr].
  - intros y Hy. destruct (Gs y Hy) as (? & b' & ? & ?). specialize (Hmc y). split; [lia|].
    exists b'. split; [by right|done].
Qed.

Lemma last_on_cell f l n : last (on_cell f <$> l) = Some n -> exists k, last l = Some k /\ n = on_cell f k.
Proof using. rewrite fmap_last. destruct (last l); [intros [= <-]; eauto|done]. Qed.

Lemma account_counted B mc mc' b l1 m l2 o :
  counted B mc (l1 ++ m ++ l2) -> chain 0 (l1 ++ m ++ l2) o -> block_ok b ->
  tiles (b_start b) m (b_end b + 1) ->
  (forall k, k ∈ m -> (start (br k) = b_start b -> is_target (br k) = true) /\
                      (end_ (br k) = b_end b -> is_branch (br k) = true)) ->
  (forall y, mc y <= mc' y) ->
  (forall k y, k ∈ m -> b_sym b = Some y -> coverage (br k) +64 1 <= mc' y) ->
  counted (b :: B) mc' (l1 ++ (on_cell (account b) <$> m) ++ l2).
Proof using.
  intros [HB HG HC HL] Hc Hb Ht Hf Hmc Hmc'. rewrite !Forall_app in HG. destruct HG as (HG1 & HGm & HG2).
  assert (Hch : forall k, k ∈ l1 \/ k ∈ l2 -> start (br k) <= end_ (br k) /\
            (end_ (br k) < b_start b \/ b_end b < start (br k))).
  { apply chain_app in Hc as (x & Hc1 & (y & Hcm & Hc2)%chain_app).
    destruct m as [|n1 mt _] using rev_ind; [cbn in Ht; destruct Hb; lia|].
    pose proof Hcm as (z & Hcm1 & Hn1 & Hn2 & Hn3)%chain_app. cbn in Hn3. subst y.
    apply tiles_app in Ht as (w & Ht1 & Ht2 & Ht3 & Ht4). cbn in Ht4.
    assert (x < b_start b).
    { destruct mt as [|n2 mt]; cbn in Hcm, Ht1; [lia|]. destruct Hcm as [? _], Ht1 as [? _]. lia. }
    intros k [Hk|Hk].
    - pose proof (chain_bounds _ _ _ _ Hc1 Hk). lia.
    - pose proof (chain_bounds _ _ _ _ Hc2 Hk). lia. }
  assert (Ho : forall l, (forall k, k ∈ l -> k ∈ l1 \/ k ∈ l2) ->
            Forall (fun n => good B mc (br n)) l -> Forall (fun n => good (b :: B) mc' (br n)) l).
  { intros l Hin Hg. rewrite Forall_forall in Hg |- *. intros k Hk. destruct (Hch k (Hin k Hk)).
    by apply (other_good B mc); [apply Hg| | | |]. }
  split.
  - by constructor.
  - rewrite !Forall_app. split; [apply Ho; auto|]. split; [|apply Ho; auto].
    rewrite Forall_fmap. rewrite Forall_forall in HGm |- *. intros k Hk. cbn.
    pose proof (tiles_bounds _ _ _ _ Ht Hk). apply (account_good B mc); [by apply HGm|split; lia|by apply Hf..|].
    by intros y; apply Hmc'.
  - intros b' x Hb' Hx.
    assert (exists n, n ∈ l1 ++ m ++ l2 /\ start (br n) <= x <= end_ (br n)) as (k & Hk & ?).
    { apply elem_of_cons in Hb' as [->|Hb']; [|by apply (HC b')].
      destruct (tiles_cover _ _ _ x Ht) as (k & ? & ?); [lia|]. exists k. rewrite !elem_of_app. auto. }
    rewrite !elem_of_app in Hk. destruct Hk as [Hk|[Hk|Hk]].
    + exists k. rewrite !elem_of_app. auto.
    + exists (on_cell (account b) k). rewrite !elem_of_app. split; [|done]. right. left.
      by apply list_elem_of_fmap_2.
    + exists k. rewrite !elem_of_app. auto.
  - revert HL. rewrite !last_app, fmap_last. intros HL n.
    destruct (last l2); cbn; [apply HL|]. destruct (last m); cbn; [|apply HL].
    intros [= <-]. cbn. by apply HL.
Qed.

(** An annotation state that accounts for the blocks [B]. *)
Definition accounts (an : annotate) (B : list basic_block) : Prop :=
  exists L, rep (ranges an) L /\ counted B (max_coverage an) L.

Definition addrs_ok (b : basic_block) : Prop := 0 <= b_start b < U64 /\ 0 <= b_end b < U64.

Lemma process_ok an B b : accounts an B -> addrs_ok b ->
  exists an', process_basic_block malloc_ok an b = Ret an' /\
    ((block_ok b /\ accounts an' (b :: B)) \/
     (accounts an' B /\ (block_ok b -> exists i, malloc_ok i = false))).
Proof using.
  intros (L & Hr & Hcnt) [Hs He]. unfold process_basic_block.
  destruct (Z.eqb_spec (b_start b) 0); [|destruct (Z.ltb_spec (b_end b) (b_start b))]; cbn [orb].
  1,2: exists an; split; [done|]; right; (split; [by exists L|]); intros [[? ?] ?]; lia.
  assert (Hb : block_ok b) by (split; lia).
  destruct (create_ok malloc_ok (ranges an) L (b_start b) (b_end b)) as (st & it & L' & -> & Hr' & Hst & Hv);
    [done|lia|lia|]. cbn [mbind out_bind].
  pose proof Hr as (_ & _ & _ & o & Hc & _).
  pose proof (steps_counted _ _ _ _ _ Hst Hc Hcnt) as Hcnt'.
  destruct (block_range_iter__valid it) eqn:Hval; cbn [negb].
  - destruct Hv as [Hsp Hbl].
    destruct (account_ok st (max_coverage an) b it L' Hr' Hsp)
      as (l1 & m & l2 & an' & -> & Ht & Hfl & Hrun & Hr2 & _ & Hm1 & Hm2).
    exists an'. split; [exact Hrun|]. left. split; [done|].
    exists (l1 ++ (on_cell (account b) <$> m) ++ l2). split; [done|].
    pose proof Hr' as (_ & _ & _ & o' & Hc' & _).
    by apply (account_counted B (max_coverage an) _ b l1 m l2 o').
  - exists (Annotate st (max_coverage an)). split; [done|]. right.
    split; [by exists L'|]. intros _. apply Hv.
Qed.

(** The blocks of a branch stack, the oldest first. *)
Fixpoint blocks_from (prev : option branch_info) (bi : list branch_info) : list basic_block :=
  match bi with
  | [] => []
  | b :: bi =>
      match prev with
      | None => []
      | Some p => [Block (to_sym p) (to_addr p) (from_addr b) (flags_predicted b)]
      end ++ blocks_from (Some b) bi
  end.

Definition blocks_of (bi : list branch_info) : list basic_block := blocks_from None (reverse bi).

Fixpoint process_samples (an : annotate) (stacks : list (list branch_info)) : out annotate :=
  match stacks with
  | [] => Ret an
  | bi :: stacks => an ← process_branch_stack malloc_ok an bi; process_samples an stacks
  end.

Definition info_ok (i : branch_info) : Prop := 0 <= from_addr i < U64 /\ 0 <= to_addr i < U64.

(** [B'] are among the real blocks of [B], and all of them if no allocation
    fails. *)
Definition accounted (B' B : list basic_block) : Prop :=
  forall (P : basic_block -> Prop) (HP : forall b, Decision (P b)),
    count P B' <= count (fun b => block_ok b /\ P b) B /\
    ((forall i, malloc_ok i = true) -> count P B' = count (fun b => block_ok b /\ P b) B).

Lemma accounted_nil : accounted [] [].
Proof using. by intros P HP. Qed.

Lemma count_app P `{!forall b, Decision (P b)} B1 B2 : count P (B1 ++ B2) = count P B1 + count P B2.
Proof using. unfold count. by rewrite filter_app, zlen_app. Qed.

Lemma accounted_snoc B' B b :
  accounted B' B ->
  (block_ok b -> accounted (b :: B') (B ++ [b])) /\
  ((block_ok b -> exists i, malloc_ok i = false) -> accounted B' (B ++ [b])).
Proof using.
  intros Hac. assert (Hz : forall Q HQ, @count Q HQ [] = 0) by done.
  split; intros Hb P HP; destruct (Hac P HP) as [H1 H2];
    rewrite ?count_app, ?count_cons, Hz; (split; [|intros Hm; specialize (H2 Hm)]);
    repeat case_decide; try lia; try tauto.
  destruct Hb as [i Hi]; [tauto|]. by rewrite Hm in Hi.
Qed.

Lemma branch_stack_ok bi : forall an prev B' B,
  accounts an B' -> accounted B' B -> Forall info_ok bi ->
  (forall p, prev = Some p -> info_ok p) ->
  exists an' B'', branch_stack_loop malloc_ok an prev bi = Ret an' /\
    accounts an' B'' /\ accounted B'' (B ++ blocks_from prev bi).
Proof using.
  induction bi as [|i bi IH]; intros an prev B' B Ha Hac Hok Hp; cbn [branch_stack_loop blocks_from].
  { exists an, B'. by rewrite app_nil_r. }
  inversion Hok as [|? ? Hi Hok']; subst. destruct prev as [p|]; cbn [mbind out_bind app].
  - set (b := Block _ _ _ _).
    destruct (process_ok an B' b Ha) as (an1 & -> & Hcase); [split; [apply Hp|apply Hi]; done|].
    destruct (accounted_snoc B' B b Hac) as [Hs1 Hs2]. cbn [mbind out_bind].
    assert (exists B1, accounts an1 B1 /\ accounted B1 (B ++ [b])) as (B1 & Ha1 & Hac1)
      by (destruct Hcase as [[? ?]|[? ?]]; eauto).
    destruct (IH an1 (Some i) B1 (B ++ [b]) Ha1 Hac1 Hok') as (an2 & B2 & ? & ? & ?);
      [by intros ? [= <-]|].
    exists an2, B2. by rewrite <- app_assoc in *.
  - apply (IH an (Some i) B' B Ha Hac Hok'). by intros ? [= <-].
Qed.

Lemma process_samples_ok stacks : forall an B' B,
  accounts an B' -> accounted B' B -> Forall (Forall info_ok) stacks ->
  exists an' B'', process_samples an stacks = Ret an' /\
    accounts an' B'' /\ accounted B'' (B ++ concat (blocks_of <$> stacks)).
Proof using.
  induction stacks as [|bi stacks IH]; intros an B' B Ha Hac Hok; cbn.
  { exists an, B'. by rewrite app_nil_r. }
  inversion Hok as [|? ? Hi Hok']; subst. unfold process_branch_stack.
  destruct (branch_stack_ok (reverse bi) an None B' B) as (an1 & B1 & -> & Ha1 & Hac1);
    [done|done|by apply Forall_reverse|done|].
  destruct (IH an1 B1 _ Ha1 Hac1 Hok') as (an2 & B2 & ? & ? & ?).
  exists an2, B2. cbn [mbind out_bind]. by rewrite <- app_assoc in *.
Qed.

Definition annotate_init : annotate := Annotate (BlockRanges rb_null 0 0) (fun _ => 0).

Lemma accounts_init : accounts annotate_init [].
Proof using.
  exists []. split.
  - split; [done|]. split; [apply NoDup_nil_2|]. split; [constructor|]. by exists 0.
  - split; [constructor|constructor| |done]. intros b x Hb. by apply elem_of_nil in Hb.
Qed.

(** Searching a state that accounts for [B]. *)
Lemma accounts_find an B x : accounts an B ->
  match block_range__find (root (ranges an)) x with
  | Some a => exists l1 n l2, rep (ranges an) (l1 ++ n :: l2) /\
      counted B (max_coverage an) (l1 ++ n :: l2) /\ addr n = a /\
      start (br n) <= x <= end_ (br n)
  | None => forall b, b ∈ B -> ~ b_start b <= x <= b_end b
  end.
Proof using.
  intros (L & Hr & Hcnt). pose proof Hr as (Hi & _ & _ & o & Hc & _). rewrite <- Hi in Hc.
  pose proof (find_spec _ _ _ x Hc) as Hf. destruct (block_range__find (root (ranges an)) x).
  - destruct Hf as (k & Hk & Ha & Hx). rewrite Hi in Hk.
    apply list_elem_of_split in Hk as (l1 & l2 & ->). by exists l1, k, l2.
  - intros b Hb Hx. destruct (c_cover _ _ _ Hcnt b x Hb Hx) as (k & Hk & ?).
    rewrite <- Hi in Hk. by apply (Hf k Hk).
Qed.

Lemma covers_point B mc r x : Forall block_ok B -> good B mc r -> start r <= x <= end_ r ->
  count (covers r) B = count (fun b => b_start b <= x <= b_end b) B.
Proof using.
  intros HB HG Hx. apply count_ext. intros b Hb. pose proof (g_align _ _ _ HG b Hb).
  unfold covers in *. lia.
Qed.
End Process.

(** * Theorems *)

(** A tree library that never rebalances, for the witnesses. *)
#[local] Instance plain_rbtree : RbTree.
Proof.
  refine {|
    rb_insert_color := fun _ t => t;
    rb_first := fun t => addr <$> head (inorder t);
    rb_next := fun t a =>
      match list_find (fun n => addr n = a) (inorder t) with
      | Some (i, _) => addr <$> inorder t !! S i
      | None => None
      end |}; [done..|].
  intros t l1 n l2 Hi Hd. rewrite Hi in *. apply nodup_mid in Hd as [Hd _].
  rewrite (proj2 (list_find_app_Some _ l1 (n :: l2) (length l1) n)).
  - rewrite lookup_app_r, Nat.sub_succ_l, Nat.sub_diag by lia. cbn. by destruct l2.
  - right. split; [lia|]. split.
    + apply list_find_None. apply Forall_forall. intros m Hm He.
      apply Hd, list_elem_of_fmap. by exists m.
    + rewrite Nat.sub_diag. cbn. by rewrite decide_True.
Defined.

(** block_range__create on any set of ranges that satisfies the asserts, for
    a real interval and whatever malloc does: no assert fails, no pointer is
    bad and the loop ends; old ranges are only cut, holes only filled and flags
    only raised; if the iterator is valid, walking it from its start to its end
    visits ranges that tile [start..end] exactly, the first a target and the
    last a branch; it is invalid only if malloc failed. *)
Theorem create_spans_range `{RbTree} malloc_ok st L s e :
  rep st L -> 0 < s -> s <= e < U64 ->
  exists st' it L', block_range__create malloc_ok st s e = Ret (st', it) /\
    rep st' L' /\ rtc step L L' /\
    (if block_range_iter__valid it
     then spans st' it L' s e /\ blocks st' = blocks st +64 1
     else blocks st' = blocks st /\ exists i, malloc_ok i = false).
Proof. apply create_ok. Qed.

Lemma create_spans_range_witness :
  exists st' it L', block_range__create (fun _ => true) (BlockRanges rb_null 0 0) 16 31 = Ret (st', it) /\
    rep st' L' /\ rtc step [] L' /\
    (if block_range_iter__valid it
     then spans st' it L' 16 31 /\ blocks st' = 0 +64 1
     else blocks st' = 0 /\ exists i : nat, true = false).
Proof.
  apply (create_spans_range (fun _ => true) (BlockRanges rb_null 0 0) [] 16 31); [|done|done].
  split; [done|]. split; [apply NoDup_nil_2|]. split; [constructor|]. by exists 0.
Defined.

Lemma zlen_count_small P `{!forall b, Decision (P b)} B : zlen B < U64 -> u64 (count P B) = count P B.
Proof. intros HB. pose proof (count_bound P B). apply u64_small. unfold U64 in HB. lia. Qed.

(** The counters of the range [r] that holds [x], compared by [R] with the
    numbers of real blocks of [B] around [x]. *)
Definition counters_of (R : Z -> Z -> Prop) (B : list basic_block) (r : block_range) (x : Z) : Prop :=
  R (coverage r) (count (fun b => block_ok b /\ b_start b <= x <= b_end b) B) /\
  R (entry r) (count (fun b => block_ok b /\ b_start b = start r) B) /\
  R (taken r) (count (fun b => block_ok b /\ b_end b = end_ r) B) /\
  R (pred r) (count (fun b => block_ok b /\ b_end b = end_ r /\ b_pred b = true) B).

Lemma accounted_counters malloc_ok B' B mc r x :
  zlen B' < U64 -> Forall block_ok B' -> accounted malloc_ok B' B -> good B' mc r ->
  start r <= x <= end_ r ->
  counters_of Z.le B r x /\ ((forall i, malloc_ok i = true) -> counters_of eq B r x).
Proof.
  intros HU HB Hac HG Hx. pose proof (covers_point _ _ _ _ HB HG Hx) as Hcov.
  destruct HG as [_ Gc Ge Gt Gp _ _ _].
  rewrite zlen_count_small in Gc, Ge, Gt, Gp by done. rewrite Hcov in Gc.
  unfold counters_of. rewrite Gc, Ge, Gt, Gp.
  split; [|intros Hm]; (split; [|split; [|split]]);
    apply (Hac _ _); done.
Qed.

Lemma accounted_zlen malloc_ok B' B : accounted malloc_ok B' B -> zlen B' <= zlen B.
Proof.
  intros Hac. destruct (Hac (fun _ => True) _) as [Hle _].
  assert (Ht : count (fun _ => True) B' = zlen B').
  { clear. induction B' as [|b B' IH]; [done|]. by rewrite count_cons, decide_True, IH, zlen_cons. }
  pose proof (count_bound (fun b => block_ok b /\ True) B). lia.
Qed.

(** C24: processing the branch stacks of any samples, from the empty set of
    ranges: the run ends and no assert fails.  Looking an address up finds a
    range unless no real block contains the address (with no failed malloc), and
    in the range found the coverage is the number of blocks that contain the
    address, entry the number that start at the start of the range, taken the
    number that end at its end and pred the number of those that were
    predicted.  If malloc failed on the way, the counters are at most those. *)
Theorem blocks_counted_exactly `{RbTree} malloc_ok stacks :
  Forall (Forall info_ok) stacks -> zlen (concat (blocks_of <$> stacks)) < U64 ->
  exists an, process_samples malloc_ok annotate_init stacks = Ret an /\ forall x,
    match block_range__find (root (ranges an)) x with
    | Some a => exists r, deref (root (ranges an)) a = Ret r /\ start r <= x <= end_ r /\
        counters_of Z.le (concat (blocks_of <$> stacks)) r x /\
        ((forall i, malloc_ok i = true) -> counters_of eq (concat (blocks_of <$> stacks)) r x)
    | None => (forall i, malloc_ok i = true) ->
        count (fun b => block_ok b /\ b_start b <= x <= b_end b) (concat (blocks_of <$> stacks)) = 0
    end.
Proof.
  intros Hok HU.
  destruct (process_samples_ok malloc_ok stacks annotate_init [] [] accounts_init (accounted_nil _) Hok)
    as (an & B' & Hrun & Ha & Hac). rewrite app_nil_l in Hac.
  exists an. split; [done|]. intros x. pose proof (accounted_zlen _ _ _ Hac).
  pose proof (accounts_find an B' x Ha) as Hf.
  destruct (block_range__find (root (ranges an)) x) as [a|].
  - destruct Hf as (l1 & n & l2 & Hr & Hcnt & <- & Hx). exists (br n).
    split; [by eapply rep_deref|]. split; [done|].
    apply (accounted_counters malloc_ok B' _ (max_coverage an)); try done; [lia|apply Hcnt|].
    pose proof (c_good _ _ _ Hcnt) as HG. rewrite Forall_forall in HG. apply HG.
    apply elem_of_app. right. left.
  - intros Hm. destruct (Hac (fun b => b_start b <= x <= b_end b) _) as [_ <-]; [|done].
    by apply count_zero.
Qed.

(** Blocks [16..31] and [20..40]. *)
Definition example_stacks : list (list branch_info) :=
  [[BranchInfo 40 1 None true; BranchInfo 31 20 (Some 7%nat) true; BranchInfo 50 16 (Some 7%nat) false]].

Lemma blocks_counted_exactly_witness :
  exists an, process_samples (fun _ => true) annotate_init
      example_stacks = Ret an /\
    forall x,
    match block_range__find (root (ranges an)) x with
    | Some a => exists r, deref (root (ranges an)) a = Ret r /\ start r <= x <= end_ r /\
        counters_of Z.le (concat (blocks_of <$> example_stacks)) r x /\
        ((forall i : nat, true = true) -> counters_of eq (concat (blocks_of <$> example_stacks)) r x)
    | None => (forall i : nat, true = true) ->
        count (fun b => block_ok b /\ b_start b <= x <= b_end b) (concat (blocks_of <$> example_stacks)) = 0
    end.
Proof.
  apply (blocks_counted_exactly (fun _ => true)
           example_stacks); [|vm_compute; done].
  repeat constructor; cbn; unfold U64; lia.
Defined.

Section Print.
Context `{RbTree}.

(** The search for the branch that matches a target ends at the first branch
    at or after it. *)
Lemma find_branch_ok st l2 : forall fuel l1 n x,
  rep st (l1 ++ n :: l2) -> last (n :: l2) = Some x -> is_branch (br x) = true ->
  (length l2 < fuel)%nat ->
  exists p k q, n :: l2 = p ++ k :: q /\ find_branch fuel (root st) (Some (addr n)) = Ret (br k) /\
    is_branch (br k) = true /\ Forall (fun m => is_branch (br m) = false) p.
Proof using.
  induction l2 as [|n' l2 IH]; intros fuel l1 n x Hr Hl Hx Hfu; destruct fuel as [|fuel]; try lia;
    cbn [find_branch]; rewrite (rep_deref st l1 n _ Hr); cbn [mbind out_bind];
    (destruct (is_branch (br n)) eqn:Hb; [by eexists [], n, _|]).
  - injection Hl as <-. congruence.
  - unfold block_range__next. rewrite (rep_next st l1 n _ Hr). cbn [head fmap option_fmap option_map].
    destruct (IH fuel (l1 ++ [n]) n' x) as (p & k & q & -> & ? & ? & ?);
      [by rewrite <- app_assoc|by rewrite last_cons_cons in Hl|done|cbn in Hfu; lia|].
    exists (n :: p), k, q. split; [done|]. split; [done|]. split; [done|]. by constructor.
Qed.

(** Blocks that enter at [n] cover the first branch after it. *)
Lemma entry_le_coverage B mc l1 n p k q o :
  counted B mc (l1 ++ p ++ k :: q) -> chain 0 (l1 ++ p ++ k :: q) o ->
  head (p ++ [k]) = Some n -> Forall (fun m => is_branch (br m) = false) p ->
  count (enters (br n)) B <= count (covers (br k)) B.
Proof using.
  intros [HB HG HC _] Hc Hh Hp. apply count_le. intros b Hb He. unfold enters in He.
  rewrite Forall_forall in HG.
  apply chain_app in Hc as (y & Hc1 & (z & Hc2 & Hk1 & Hk2 & Hc3)%chain_app).
  assert (Hn : y < start (br n) <= start (br k)).
  { destruct p as [|n' p]; injection Hh as ->; [cbn in Hc2; lia|].
    pose proof (chain_bounds _ _ _ n Hc2 ltac:(left)). destruct Hc2 as [? _]. lia. }
  pose proof (block_ok_le _ _ HB Hb).
  destruct (g_align _ _ _ (HG k ltac:(rewrite !elem_of_app, elem_of_cons; auto)) b Hb) as [?|[?|Hlt]];
    [done|lia|].
  destruct (HC b (b_end b) Hb) as (c & Hcin & Hcx); [lia|].
  assert (Hbr : is_branch (br c) = true).
  { apply (g_branch _ _ _ (HG c Hcin) b Hb). unfold leaves.
    destruct (g_align _ _ _ (HG c Hcin) b Hb) as [[? ?]|[?|?]]; lia. }
  rewrite !elem_of_app, elem_of_cons in Hcin. destruct Hcin as [Hin|[Hin|[->|Hin]]].
  - pose proof (chain_bounds _ _ _ _ Hc1 Hin). lia.
  - rewrite Forall_forall in Hp. specialize (Hp c Hin). congruence.
  - lia.
  - pose proof (chain_bounds _ _ _ _ Hc3 Hin). lia.
Qed.

(** The share [num]/[den] is a percentage of at most one hundred. *)
Definition share (f : Z * Z) : Prop := 0 <= f.1 <= f.2 /\ 0 < f.2.

Definition shares_ok (o : option (Z * Z) * option ((Z * Z) * (Z * Z))) : Prop :=
  (forall f, o.1 = Some f -> share f) /\
  (forall f g, o.2 = Some (f, g) -> share f /\ share g).

Definition cov_ok (c : cov) : Prop :=
  match c with CovConst z => z = 0 \/ z = -1 | CovRatio num den => 0 < num <= den end.

Lemma above_tenth_share num den : 0 <= num <= den -> above_tenth num den = true -> share (num, den).
Proof using. unfold above_tenth, share. cbn. intros ? ?%Z.ltb_lt. lia. Qed.

Lemma leave_share B mc r f g : zlen B < U64 -> Forall block_ok B -> good B mc r ->
  (if above_tenth (taken r) (coverage r)
   then Some ((taken r, coverage r), (pred r, taken r)) else None) = Some (f, g) ->
  share f /\ share g.
Proof using.
  intros HU HB [Ga Gc _ Gt Gp _ _ _]. pose proof (fun b => block_ok_le B b HB) as Hbl.
  destruct (above_tenth (taken r) (coverage r)) eqn:Ht; [|done]. intros [= <- <-].
  rewrite !zlen_count_small in Gc, Gt, Gp by done.
  pose proof (count_bound (leaves r) B). pose proof (count_bound (leaves_pred r) B).
  assert (count (leaves r) B <= count (covers r) B).
  { apply count_le. intros b Hb Hl. specialize (Ga b Hb). specialize (Hbl b Hb).
    unfold leaves, covers in *. lia. }
  assert (count (leaves_pred r) B <= count (leaves r) B) by (by apply count_le; intros b _ [? _]).
  rewrite Gc, Gt, Gp in *. split; [apply above_tenth_share; [lia|done]|].
  unfold above_tenth in Ht. apply Z.ltb_lt in Ht. unfold share. cbn. lia.
Qed.

Lemma enter_share B mc st l1 n l2 : zlen B < U64 ->
  rep st (l1 ++ n :: l2) -> counted B mc (l1 ++ n :: l2) ->
  exists k, find_branch (length (inorder (root st))) (root st) (Some (addr n)) = Ret (br k) /\
    0 <= entry (br n) <= coverage (br k).
Proof using.
  intros HU Hr Hcnt. pose proof (c_good _ _ _ Hcnt) as HG. rewrite Forall_forall in HG.
  pose proof Hr as (Hi & _ & _ & o & Hc & Ho).
  destruct (last (n :: l2)) as [y|] eqn:Hl; [|by apply last_None in Hl].
  destruct (find_branch_ok st l2 (length (inorder (root st))) l1 n y)
    as (p & k & q & Hpk & Hfb & Hkb & Hp); [done|done| | |].
  { apply (c_last _ _ _ Hcnt). by rewrite last_app, Hl. }
  { rewrite Hi, length_app. cbn. lia. }
  exists k. split; [done|]. rewrite Hpk in Hcnt, Hc, HG.
  assert (Hh : head (p ++ [k]) = Some n) by (destruct p; injection Hpk as -> _; done).
  pose proof (entry_le_coverage _ _ _ _ _ _ _ _ Hcnt Hc Hh Hp).
  assert (Hn : n ∈ p ++ k :: q) by (rewrite <- Hpk; left).
  rewrite (g_entry _ _ _ (HG n ltac:(apply elem_of_app; by right))).
  rewrite (g_coverage _ _ _ (HG k ltac:(rewrite !elem_of_app, elem_of_cons; auto))).
  rewrite !zlen_count_small by done. pose proof (count_bound (enters (br n)) B). lia.
Qed.

Lemma print_shares_ok an B x a : accounts an B -> zlen B < U64 ->
  block_range__find (root (ranges an)) x = Some a ->
  (exists o, annotate__branch_printf (root (ranges an)) (Some a) x = Ret o /\ shares_ok o) /\
  (exists r, deref (root (ranges an)) a = Ret r /\ cov_ok (block_range__coverage an (Some r))).
Proof using.
  intros Ha HU Hfind. pose proof (accounts_find an B x Ha) as Hf. rewrite Hfind in Hf.
  destruct Hf as (l1 & n & l2 & Hr & Hcnt & <- & Hx).
  pose proof (c_good _ _ _ Hcnt) as HG. rewrite Forall_forall in HG.
  assert (Hn : good B (max_coverage an) (br n)) by (apply HG, elem_of_app; right; left).
  split.
  - unfold annotate__branch_printf. rewrite (rep_deref _ _ _ _ Hr). cbn [mbind out_bind].
    pose proof (fun f g => leave_share B _ (br n) f g HU (c_blocks _ _ _ Hcnt) Hn) as Hleave.
    destruct (is_target (br n) && (start (br n) =? x)) eqn:Htg; cbn [mbind out_bind].
    + destruct (enter_share B _ (ranges an) l1 n l2 HU Hr Hcnt) as (k & -> & Hle). cbn [mbind out_bind].
      eexists. split; [done|]. split; cbn [fst snd].
      * intros f. destruct (above_tenth (entry (br n)) (coverage (br k))) eqn:Ht; [|discriminate]. intros [= <-]. by apply above_tenth_share.
      * intros f g. destruct (is_branch (br n) && (end_ (br n) =? x)); [|discriminate].
        by apply Hleave.
    + eexists. split; [done|]. split; [done|]. cbn [fst snd]. intros f g.
      destruct (is_branch (br n) && (end_ (br n) =? x)); [|discriminate]. by apply Hleave.
  - exists (br n). split; [by eapply rep_deref|]. cbn. destruct (sym (br n)) as [sy|] eqn:Hs; [|by right].
    destruct (g_sym _ _ _ Hn sy Hs) as (Hle & b & Hb & Hcv). cbn.
    rewrite (g_coverage _ _ _ Hn), zlen_count_small in Hle |- * by done.
    pose proof (count_pos (covers (br n)) B b Hb Hcv). lia.
Qed.
End Print.

(** C25: What perf annotate prints from the ranges, after the branch stacks of any
    samples and whatever malloc did: for a line whose address has a range, the
    search for the branch that matches a target ends at a range, and the shares
    printed (entered, left, predicted) have a denominator above zero and are at
    most one hundred percent; block_range__coverage is -1, or a ratio above
    zero and at most one. *)
Theorem printed_shares_bounded `{RbTree} malloc_ok stacks an x a :
  Forall (Forall info_ok) stacks -> zlen (concat (blocks_of <$> stacks)) < U64 ->
  process_samples malloc_ok annotate_init stacks = Ret an ->
  block_range__find (root (ranges an)) x = Some a ->
  (exists o, annotate__branch_printf (root (ranges an)) (Some a) x = Ret o /\ shares_ok o) /\
  (exists r, deref (root (ranges an)) a = Ret r /\ cov_ok (block_range__coverage an (Some r))).
Proof.
  intros Hok HU Hrun Hfind.
  destruct (process_samples_ok malloc_ok stacks annotate_init [] [] accounts_init (accounted_nil _) Hok)
    as (an' & B' & Hrun' & Ha & Hac). rewrite Hrun in Hrun'. injection Hrun' as <-.
  pose proof (accounted_zlen _ _ _ Hac). apply (print_shares_ok an B'); [done|cbn in *; lia|done].
Qed.

Definition example_state : annotate :=
  match process_samples (fun _ => true) annotate_init example_stacks with
  | Ret an => an
  | _ => annotate_init
  end.

Lemma printed_shares_bounded_witness :
  (exists o, annotate__branch_printf (root (ranges example_state)) (Some 0%nat) 20 = Ret o /\ shares_ok o) /\
  (exists r, deref (root (ranges example_state)) 0%nat = Ret r /\ cov_ok (block_range__coverage example_state (Some r))).
Proof.
  apply (printed_shares_bounded (fun _ => true) example_stacks);
    [repeat constructor; cbn; unfold U64; lia|vm_compute; done|vm_compute; reflexivity|vm_compute; reflexivity].
Defined.

(** Cutting a range leaves its first part without a symbol: the addresses
    [16..19] of the example were covered by a block of symbol 7, and
    block_range__coverage calls them "no data". *)
Theorem cut_forgets_symbol :
  exists a r, block_range__find (root (ranges example_state)) 18 = Some a /\
    deref (root (ranges example_state)) a = Ret r /\ coverage r = 1 /\
    max_coverage example_state 7%nat = 2 /\
    block_range__coverage example_state (Some r) = CovConst (-1).
Proof. eexists _, _. split; [vm_compute; reflexivity|]. by vm_compute. Qed.
