(* ===== verification/CallPath.v ===== *)
(** Model of util/call-path.c: the tree of call paths that call/return
    processing and the database export share.

    A call_path is a node numbered by its allocation (the root is node 0); the
    children of a node are a search tree ordered by symbol address and ip, whose
    rebalancing is library code ([CallTree]).  Nodes live in blocks: an
    allocation, which may fail, is made when the places of the blocks are used
    up.  An access through a pointer to nothing is [None].

    The theorem: asking for the nodes of call paths interns them, one node per
    sequence of frames. *)

From S2P Require Import Prelude.
#[local] Open Scope Z_scope.

(** Symbols are addresses of struct symbol; 0 is NULL. *)
Record call_path := CallPath {
  cp_parent : option nat;
  cp_sym : Z;
  cp_ip : Z;
  in_kernel : bool
}.

Inductive ctree :=
| cnil
| cnode (l : ctree) (cp : nat) (r : ctree).

Fixpoint celems (t : ctree) : list nat :=
  match t with cnil => [] | cnode l n r => celems l ++ n :: celems r end.

(** rb_insert_color keeps the nodes and their order. *)
Class CallTree := {
  crebalance : nat -> ctree -> ctree;
  crebalance_elems n t : celems (crebalance n t) = celems t
}.

(** The root (node 0) and the nodes of the blocks, with the children of each;
    [cp_sz] is the number of places in the blocks. *)
Record call_path_root := CallPathRoot {
  paths : list call_path;
  children : list ctree;
  cp_sz : nat
}.

Definition CALL_PATH_BLOCK_SIZE : nat := 256.

Definition call_path_root__new : call_path_root :=
  CallPathRoot [CallPath None 0 0 false] [cnil] 0.

(** cpr->next: the root is not in a block. *)
Definition cp_next (r : call_path_root) : nat := length (paths r) - 1.

(** [sym < cp->sym || (sym == cp->sym && ip < cp->ip)] *)
Definition key_lt (s1 ip1 s2 ip2 : Z) : bool := (s1 <? s2) || ((s1 =? s2) && (ip1 <? ip2)).

Definition key_eq (s1 ip1 s2 ip2 : Z) : bool := (s1 =? s2) && (ip1 =? ip2).

Fixpoint cfind (ps : list call_path) (t : ctree) (s ip : Z) : option nat :=
  match t with
  | cnil => None
  | cnode l n r =>
      match ps !! n with
      | None => None
      | Some cp =>
          if key_eq (cp_sym cp) (cp_ip cp) s ip then Some n
          else if key_lt s ip (cp_sym cp) (cp_ip cp) then cfind ps l s ip else cfind ps r s ip
      end
  end.

Fixpoint clink (ps : list call_path) (t : ctree) (s ip : Z) (new : nat) : ctree :=
  match t with
  | cnil => cnode cnil new cnil
  | cnode l n r =>
      match ps !! n with
      | None => t
      | Some cp =>
          if key_lt s ip (cp_sym cp) (cp_ip cp) then cnode (clink ps l s ip new) n r
          else cnode l n (clink ps r s ip new)
      end
  end.

Section CallPaths.
Context `{CallTree}.
Variable alloc_ok : nat -> bool.

Definition call_path__init (parent : option nat) (s ip : Z) (in_kernel : bool) : call_path :=
  CallPath parent s (if s =? 0 then ip else 0) in_kernel.

(** [a] allocations were made before. *)
Definition call_path__new (r : call_path_root) (a : nat) (parent : option nat) (s ip : Z)
    (in_kernel : bool) : option nat * call_path_root * nat :=
  let new := length (paths r) in
  let node := call_path__init parent s ip in_kernel in
  if (cp_next r <? cp_sz r)%nat then
    (Some new, CallPathRoot (paths r ++ [node]) (children r ++ [cnil]) (cp_sz r), a)
  else if alloc_ok a then
    (Some new, CallPathRoot (paths r ++ [node]) (children r ++ [cnil])
                 (cp_sz r + CALL_PATH_BLOCK_SIZE), S a)
  else (None, r, S a).

Definition link_child (r : call_path_root) (parent : nat) (ch : ctree) : call_path_root :=
  CallPathRoot (paths r) (<[parent := ch]> (children r)) (cp_sz r).

Definition call_path__findnew (r : call_path_root) (a : nat) (parent : option nat) (s ip ks : Z)
    : option (option nat * call_path_root * nat) :=
  let in_kernel := ks <=? ip in
  let ip := if s =? 0 then ip else 0 in
  match parent with
  | None => Some (call_path__new r a parent s ip in_kernel)
  | Some pa =>
      ch ← children r !! pa;
      match cfind (paths r) ch s ip with
      | Some n => Some (Some n, r, a)
      | None =>
          match call_path__new r a parent s ip in_kernel with
          | (None, r', a) => Some (None, r', a)
          | (Some new, r', a) =>
              Some (Some new, link_child r' pa (crebalance new (clink (paths r) ch s ip new)), a)
          end
      end
  end.
End CallPaths.
#[global] Arguments call_path__findnew : simpl never.

(** * Search trees of children *)

Definition kof (ps : list call_path) (n : nat) : Z * Z :=
  match ps !! n with Some p => (cp_sym p, cp_ip p) | None => (0, 0) end.

Definition klt (a b : Z * Z) : Prop := a.1 < b.1 \/ (a.1 = b.1 /\ a.2 < b.2).

Definition csorted (ps : list call_path) (l : list nat) : Prop :=
  StronglySorted (fun n m => klt (kof ps n) (kof ps m)) l.

#[export] Instance klt_trans : Transitive klt.
Proof. intros [] [] []; unfold klt; simpl; lia. Qed.

Lemma klt_irrefl a : ~ klt a a.
Proof. destruct a; unfold klt; simpl; lia. Qed.

Lemma key_lt_klt s1 i1 s2 i2 : key_lt s1 i1 s2 i2 = true <-> klt (s1, i1) (s2, i2).
Proof. unfold key_lt, klt. simpl. rewrite orb_true_iff, andb_true_iff. lia. Qed.

Lemma key_eq_pair s1 i1 s2 i2 : key_eq s1 i1 s2 i2 = true <-> (s1, i1) = (s2, i2).
Proof.
  unfold key_eq. rewrite andb_true_iff, !Z.eqb_eq. split; [intros [-> ->]; done|by intros [=]].
Qed.

Lemma klt_total a b : a <> b -> ~ klt a b -> klt b a.
Proof.
  destruct a as [a1 a2], b as [b1 b2]. unfold klt. simpl. intros Hne Hn.
  destruct (decide (a1 = b1)) as [->|]; [|lia].
  destruct (decide (a2 = b2)) as [->|]; [done|lia].
Qed.

#[local] Instance kof_lt_trans ps : Transitive (fun n m => klt (kof ps n) (kof ps m)).
Proof. intros x y z Hxy Hyz. by etrans. Qed.

Lemma csorted_node ps a n b :
  csorted ps (a ++ n :: b) <->
  csorted ps a /\ csorted ps b /\ (forall x, x ∈ a -> klt (kof ps x) (kof ps n)) /\
  (forall x, x ∈ b -> klt (kof ps n) (kof ps x)).
Proof. exact (StronglySorted_mid (fun n m => klt (kof ps n) (kof ps m)) a n b). Qed.

Lemma kof_lookup ps n p : ps !! n = Some p -> kof ps n = (cp_sym p, cp_ip p).
Proof. unfold kof. by intros ->. Qed.

Definition in_range (ps : list call_path) (l : list nat) : Prop :=
  forall n, n ∈ l -> is_Some (ps !! n).

Lemma in_range_node ps a n b :
  in_range ps (a ++ n :: b) -> in_range ps a /\ in_range ps b /\ is_Some (ps !! n).
Proof.
  intros Hr. split_and!; try (intros x Hx); apply Hr; set_solver.
Qed.

Lemma cfind_spec ps t s i :
  in_range ps (celems t) -> csorted ps (celems t) ->
  match cfind ps t s i with
  | Some n => n ∈ celems t /\ kof ps n = (s, i)
  | None => forall n, n ∈ celems t -> kof ps n <> (s, i)
  end.
Proof.
  induction t as [|l IHl n r IHr]; simpl; intros Hr Hs; [set_solver|].
  apply in_range_node in Hr as (Hrl & Hrr & [p Hp]).
  apply csorted_node in Hs as (Hsl & Hsr & Hl & Hg).
  specialize (IHl Hrl Hsl). specialize (IHr Hrr Hsr).
  pose proof (kof_lookup _ _ _ Hp) as Hk. rewrite Hp.
  destruct (key_eq (cp_sym p) (cp_ip p) s i) eqn:Eq.
  { apply key_eq_pair in Eq. split; [set_solver|congruence]. }
  assert (Hne : kof ps n <> (s, i)).
  { rewrite Hk. intros He. apply key_eq_pair in He. congruence. }
  destruct (key_lt s i (cp_sym p) (cp_ip p)) eqn:El.
  - apply key_lt_klt in El. rewrite <- Hk in El.
    destruct (cfind ps l s i) as [m|]; [split; [apply elem_of_app; tauto|tauto]|].
    intros m [Hm|[->|Hm]%elem_of_cons]%elem_of_app; [by apply IHl|done|].
    intros He. apply Hg in Hm. rewrite He in Hm. apply (klt_irrefl (s, i)). by etrans.
  - assert (Hg' : klt (kof ps n) (s, i)).
    { apply klt_total; [done|]. rewrite Hk. intros Hc. apply key_lt_klt in Hc. congruence. }
    destruct (cfind ps r s i) as [m|]; [split; [apply elem_of_app; right; right; tauto|tauto]|].
    intros m [Hm|[->|Hm]%elem_of_cons]%elem_of_app; [|done|by apply IHr].
    intros He. apply Hl in Hm. rewrite He in Hm. apply (klt_irrefl (s, i)). by etrans.
Qed.

(** The new node goes where its key belongs. *)
Lemma clink_spec ps t s i new :
  in_range ps (celems t) -> csorted ps (celems t) ->
  (forall n, n ∈ celems t -> kof ps n <> (s, i)) ->
  exists a b, celems t = a ++ b /\ celems (clink ps t s i new) = a ++ new :: b /\
    (forall x, x ∈ a -> klt (kof ps x) (s, i)) /\ (forall x, x ∈ b -> klt (s, i) (kof ps x)).
Proof.
  induction t as [|l IHl n r IHr]; simpl; intros Hr Hs Hn.
  { exists [], []. set_solver. }
  apply in_range_node in Hr as (Hrl & Hrr & [p Hp]).
  apply csorted_node in Hs as (Hsl & Hsr & Hl & Hg).
  pose proof (kof_lookup _ _ _ Hp) as Hk. rewrite Hp.
  destruct (key_lt s i (cp_sym p) (cp_ip p)) eqn:El.
  - apply key_lt_klt in El. rewrite <- Hk in El.
    destruct IHl as (a & b & E1 & E2 & Ha & Hb); [done..|set_solver|].
    exists a, (b ++ n :: celems r). simpl. rewrite E1, E2, <- !app_assoc.
    split_and!; try done. intros x [Hx|[->|Hx]%elem_of_cons]%elem_of_app; [by apply Hb|done|].
    etrans; [exact El|by apply Hg].
  - assert (Hg' : klt (kof ps n) (s, i)).
    { apply klt_total; [intros He; apply (Hn n); set_solver|].
      rewrite Hk. intros Hc. apply key_lt_klt in Hc. congruence. }
    destruct IHr as (a & b & E1 & E2 & Ha & Hb); [done..|set_solver|].
    exists (celems l ++ n :: a), b. simpl. rewrite E1, E2, <- !app_assoc.
    split_and!; try done. intros x [Hx|[->|Hx]%elem_of_cons]%elem_of_app; [|done|by apply Ha].
    etrans; [by apply Hl|exact Hg'].
Qed.

(** * The tree of call paths *)

Record cpr_ok (r : call_path_root) : Prop := {
  ok_len : length (children r) = length (paths r);
  ok_kids pa ch n : children r !! pa = Some ch ->
    n ∈ celems ch <-> exists p, paths r !! n = Some p /\ cp_parent p = Some pa;
  ok_sorted pa ch : children r !! pa = Some ch -> csorted (paths r) (celems ch);
  ok_parent n p pa : paths r !! n = Some p -> cp_parent p = Some pa -> (pa < n)%nat;
  ok_orphan n p : paths r !! n = Some p -> cp_parent p = None <-> n = 0%nat;
  ok_root : is_Some (paths r !! 0%nat)
}.

Lemma cpr_ok_new : cpr_ok call_path_root__new.
Proof.
  assert (H0 : forall n p, [CallPath None 0 0 false] !! n = Some p -> n = 0%nat /\ cp_parent p = None)
    by (intros [|[]] p; simpl; intros [= <-]; done).
  assert (Hc : forall n ch, [cnil] !! n = Some ch -> ch = cnil)
    by (intros [|[]] ch; simpl; intros [= <-]; done).
  constructor; simpl; try done.
  - intros pa ch n ->%Hc. split; [set_solver|]. intros (p & Hp & Hpar).
    apply H0 in Hp as [_ Hp]. congruence.
  - intros pa ch ->%Hc. constructor.
  - intros n p pa Hp Hpar. apply H0 in Hp as [_ Hp]. congruence.
  - intros n p Hp. apply H0 in Hp. tauto.
Qed.

Lemma ok_child_range r pa ch : cpr_ok r -> children r !! pa = Some ch -> in_range (paths r) (celems ch).
Proof. intros Hok Hch n Hn. apply (ok_kids r Hok pa ch n Hch) in Hn as (p & -> & _). done. Qed.

(** What [call_path__new] leaves but for the place among the children. *)
Definition add_node (r : call_path_root) (node : call_path) (pa : nat) (ch : ctree) (z : nat)
    : call_path_root :=
  CallPathRoot (paths r ++ [node]) (<[pa := ch]> (children r ++ [cnil])) z.

Lemma lookup_snoc {A} (l : list A) x n y :
  (l ++ [x]) !! n = Some y <-> l !! n = Some y \/ (n = length l /\ y = x).
Proof.
  rewrite lookup_app_Some, list_lookup_singleton_Some. split.
  - intros [?|(? & ? & ->)]; [by left|]. right. split; [lia|done].
  - intros [?|[-> ->]]; [by left|]. right. split_and!; [done|lia|done].
Qed.

Lemma kof_snoc ps node n : is_Some (ps !! n) -> kof (ps ++ [node]) n = kof ps n.
Proof. intros [p Hp]. unfold kof. by rewrite (lookup_app_l_Some _ _ _ _ Hp), Hp. Qed.

Lemma csorted_snoc ps node l : in_range ps l -> csorted ps l -> csorted (ps ++ [node]) l.
Proof.
  intros Hr Hs. induction Hs as [|x l Hs IH Hx]; [constructor|].
  constructor; [apply IH; intros n Hn; apply Hr; set_solver|].
  rewrite Forall_forall in Hx |- *. intros y Hy.
  rewrite !kof_snoc by (apply Hr; set_solver). by apply Hx.
Qed.

Lemma csorted_link ps node a b :
  let new := length ps in
  in_range ps (a ++ b) -> csorted ps (a ++ b) ->
  (forall x, x ∈ a -> klt (kof ps x) (cp_sym node, cp_ip node)) ->
  (forall x, x ∈ b -> klt (cp_sym node, cp_ip node) (kof ps x)) ->
  csorted (ps ++ [node]) (a ++ new :: b).
Proof.
  intros new Hr Hs Ha Hb.
  assert (Hn : kof (ps ++ [node]) new = (cp_sym node, cp_ip node)).
  { apply kof_lookup, lookup_snoc. by right. }
  apply csorted_node. split_and!.
  - apply csorted_snoc; [intros n Hn'; apply Hr; set_solver|by eapply StronglySorted_app_1_l].
  - apply csorted_snoc; [intros n Hn'; apply Hr; set_solver|by eapply StronglySorted_app_1_r].
  - intros x Hx. rewrite Hn, kof_snoc by (apply Hr; set_solver). by apply Ha.
  - intros x Hx. rewrite Hn, kof_snoc by (apply Hr; set_solver). by apply Hb.
Qed.

Lemma lookup_children_add r pa ch z node i c :
  cpr_ok r -> (pa < length (paths r))%nat ->
  children (add_node r node pa ch z) !! i = Some c ->
  (i = pa /\ c = ch) \/ (i <> pa /\ children r !! i = Some c) \/
  (i <> pa /\ i = length (paths r) /\ c = cnil).
Proof.
  intros Hok Hpa. unfold add_node. simpl.
  destruct (decide (i = pa)) as [->|Hne].
  - rewrite list_lookup_insert_eq by (rewrite length_app, (ok_len r Hok); simpl; lia).
    intros [= <-]. by left.
  - rewrite list_lookup_insert_ne by done. intros Hi. apply lookup_snoc in Hi.
    rewrite (ok_len r Hok) in Hi. tauto.
Qed.

Lemma cpr_ok_add r pa ch z node a b t :
  cpr_ok r -> children r !! pa = Some ch -> cp_parent node = Some pa ->
  celems ch = a ++ b -> celems t = a ++ length (paths r) :: b ->
  (forall x, x ∈ a -> klt (kof (paths r) x) (cp_sym node, cp_ip node)) ->
  (forall x, x ∈ b -> klt (cp_sym node, cp_ip node) (kof (paths r) x)) ->
  cpr_ok (add_node r node pa t z).
Proof.
  intros Hok Hch Hpar Ech Et Ha Hb. set (new := length (paths r)) in *.
  pose proof (lookup_lt_Some _ _ _ Hch) as Hpa. rewrite (ok_len r Hok) in Hpa.
  assert (Hout : forall n p, paths r !! n = Some p -> (n < new)%nat) by (intros; by eapply lookup_lt_Some).
  constructor.
  - simpl. rewrite length_insert, !length_app. simpl. by rewrite (ok_len r Hok).
  - intros i c n Hc. simpl. setoid_rewrite lookup_snoc.
    apply lookup_children_add in Hc as [(-> & ->)|[(Hi & Hc)|(Hi & -> & ->)]]; try done.
    + assert (Hch' : n ∈ celems t <-> n ∈ celems ch \/ n = new)
        by (rewrite Et, Ech, !elem_of_app, elem_of_cons; tauto).
      rewrite Hch', (ok_kids r Hok pa ch n Hch). split.
      * intros [(p & Hp & Hpp)| ->]; [exists p; tauto|exists node; tauto].
      * intros (p & [Hp|[-> ->]] & Hpp); [left; by exists p|by right].
    + rewrite (ok_kids r Hok i c n Hc). split; [intros (p & Hp & Hpp); exists p; tauto|].
      intros (p & [Hp|[-> ->]] & Hpp); [by exists p|congruence].
    + split; [set_solver|]. intros (p & [Hp|[-> ->]] & Hpp); [|congruence].
      pose proof (ok_parent r Hok _ _ _ Hp Hpp). apply Hout in Hp. lia.
  - intros i c Hc. apply lookup_children_add in Hc as [(-> & ->)|[(Hi & Hc)|(Hi & -> & ->)]]; try done.
    + rewrite Et. apply csorted_link; [rewrite <- Ech..| |]; try done.
      * by eapply ok_child_range.
      * by eapply ok_sorted.
    + apply csorted_snoc; [by eapply ok_child_range|by eapply ok_sorted].
    + constructor.
  - simpl. intros n p q. rewrite lookup_snoc. intros [Hp|[-> ->]] Hq; [by eapply ok_parent|].
    rewrite Hpar in Hq. injection Hq as <-. done.
  - simpl. intros n p. rewrite lookup_snoc. intros [Hp|[-> ->]]; [by eapply ok_orphan|].
    rewrite Hpar. split; [done|]. pose proof (ok_root r Hok) as [p Hp]. apply Hout in Hp. lia.
  - simpl. destruct (ok_root r Hok) as [p Hp]. exists p. apply lookup_snoc. by left.
Qed.

(** [ip] is not part of the key of a frame with a symbol. *)
Definition norm (f : Z * Z) : Z * Z := (f.1, if f.1 =? 0 then f.2 else 0).

Section Findnew.
Context `{CallTree}.
Variable alloc_ok : nat -> bool.

Lemma call_path_new_cases r a parent s i k :
  call_path__new alloc_ok r a parent s i k = (None, r, S a) /\ alloc_ok a = false \/
  exists z a', call_path__new alloc_ok r a parent s i k =
    (Some (length (paths r)),
     CallPathRoot (paths r ++ [call_path__init parent s i k]) (children r ++ [cnil]) z, a').
Proof.
  unfold call_path__new. destruct (cp_next r <? cp_sz r)%nat; [right; by eexists _, _|].
  destruct (alloc_ok a) eqn:E; [right; by eexists _, _|by left].
Qed.

(** The node that was found or made has the frame and the parent asked for. *)
Lemma findnew_spec r a pa s i ks :
  cpr_ok r -> (pa < length (paths r))%nat ->
  exists c r' a', call_path__findnew alloc_ok r a (Some pa) s i ks = Some (c, r', a') /\
    cpr_ok r' /\ paths r `prefix_of` paths r' /\
    match c with
    | None => exists m, alloc_ok m = false
    | Some n => exists p, paths r' !! n = Some p /\ cp_parent p = Some pa /\
                          (cp_sym p, cp_ip p) = norm (s, i)
    end.
Proof.
  intros Hok Hpa. unfold call_path__findnew.
  assert (Hc : is_Some (children r !! pa)) by (apply lookup_lt_is_Some; rewrite (ok_len r Hok); lia).
  destruct Hc as [ch Hch]. rewrite Hch. simpl.
  set (i' := if s =? 0 then i else 0).
  pose proof (ok_child_range r pa ch Hok Hch) as Hr.
  pose proof (ok_sorted r Hok pa ch Hch) as Hs.
  pose proof (cfind_spec (paths r) ch s i' Hr Hs) as Hf.
  destruct (cfind (paths r) ch s i') as [n|] eqn:Ef.
  { destruct Hf as [Hn Hk]. exists (Some n), r, a. split_and!; try done.
    apply (ok_kids r Hok pa ch n Hch) in Hn as (p & Hp & Hpar).
    exists p. split_and!; try done. by rewrite <- (kof_lookup _ _ _ Hp). }
  destruct (call_path_new_cases r a (Some pa) s i' (ks <=? i)) as [[-> Ha]|(z & a' & ->)].
  { exists None, r, (S a). split_and!; try done. by exists a. }
  destruct (clink_spec (paths r) ch s i' (length (paths r)) Hr Hs Hf) as (l1 & l2 & E1 & E2 & H1 & H2).
  set (t := crebalance _ _).
  assert (Hi : (if s =? 0 then i' else 0) = i') by (unfold i'; by destruct (s =? 0)).
  eexists (Some _), (add_node r _ pa t z), a'. split; [reflexivity|]. split_and!.
  - eapply (cpr_ok_add r pa ch z _ l1 l2 t); try done; simpl.
    + unfold t. by rewrite crebalance_elems, E2.
    + by rewrite Hi.
    + by rewrite Hi.
  - simpl. by eexists.
  - eexists. split; [apply lookup_snoc; by right|]. split; [done|]. simpl. by rewrite Hi.
Qed.
End Findnew.

(** * One node per sequence of frames *)

(** The frames from the root to a node. *)
Inductive names (r : call_path_root) : nat -> list (Z * Z) -> Prop :=
| names_root : names r 0%nat []
| names_child n p pa fs :
    paths r !! n = Some p -> cp_parent p = Some pa -> names r pa fs ->
    names r n (fs ++ [(cp_sym p, cp_ip p)]).

Lemma names_mono r r' n fs : paths r `prefix_of` paths r' -> names r n fs -> names r' n fs.
Proof.
  intros [k Hk]. induction 1 as [|n p pa fs Hp Hpar _ IH]; [constructor|].
  apply (names_child r' n p pa fs); try done. rewrite Hk. by apply lookup_app_l_Some.
Qed.

Lemma names_functional r n fs gs : cpr_ok r -> names r n fs -> names r n gs -> fs = gs.
Proof.
  intros Hok Hf. revert gs. induction Hf as [|n p pa fs Hp Hpar _ IH]; intros gs Hg.
  - inversion Hg as [|? p' pa' ? Hp' Hpar']; subst; [done|].
    by pose proof (ok_parent r Hok _ _ _ Hp' Hpar') as Hlt; apply Nat.nlt_0_r in Hlt.
  - inversion Hg as [|? p' pa' gs' Hp' Hpar' Hn']; subst.
    { by pose proof (ok_parent r Hok _ _ _ Hp Hpar) as Hlt; apply Nat.nlt_0_r in Hlt. }
    rewrite Hp in Hp'. injection Hp' as <-. rewrite Hpar in Hpar'. injection Hpar' as <-.
    by rewrite (IH _ Hn').
Qed.

Lemma csorted_inj ps l n m : csorted ps l -> n ∈ l -> m ∈ l -> kof ps n = kof ps m -> n = m.
Proof.
  induction 1 as [|x l Hs IH Hx]; intros Hn Hm He; [set_solver|].
  rewrite Forall_forall in Hx.
  apply elem_of_cons in Hn as [->|Hn], Hm as [->|Hm]; try done; [..|by apply IH];
    exfalso; [apply Hx in Hm|apply Hx in Hn]; eapply klt_irrefl.
  - by rewrite He in Hm.
  - by rewrite He in Hn.
Qed.

Lemma names_inj r n m fs : cpr_ok r -> names r n fs -> names r m fs -> n = m.
Proof.
  intros Hok Hn. revert m. induction Hn as [|n p pa fs Hp Hpar _ IH]; intros m Hm.
  - inversion Hm as [|? p' pa' fs' Hp' Hpar' Hn' Heq]; [done|].
    by destruct fs'.
  - remember (fs ++ [(cp_sym p, cp_ip p)]) as gs eqn:Heq.
    destruct Hm as [|m p' pa' fs' Hp' Hpar' Hn']; [by destruct fs|]. symmetry in Heq.
    apply app_inj_tail in Heq as [<- Hk]. specialize (IH _ Hn') as <-.
    assert (Hc : is_Some (children r !! pa)).
    { apply lookup_lt_is_Some. rewrite (ok_len r Hok).
      pose proof (ok_parent r Hok _ _ _ Hp Hpar). apply lookup_lt_Some in Hp. lia. }
    destruct Hc as [ch Hch]. eapply csorted_inj; [by eapply ok_sorted| | |].
    + apply (ok_kids r Hok pa ch n Hch). by exists p.
    + apply (ok_kids r Hok pa ch m Hch). by exists p'.
    + by rewrite (kof_lookup _ _ _ Hp), (kof_lookup _ _ _ Hp').
Qed.

Section Interning.
Context `{CallTree}.
Variable alloc_ok : nat -> bool.

(** The node of a call chain, from the root down: how the database export turns
    a sample's call chain into a call path. *)
Fixpoint resolve (r : call_path_root) (a n : nat) (ks : Z) (fs : list (Z * Z))
    : option (option nat * call_path_root * nat) :=
  match fs with
  | [] => Some (Some n, r, a)
  | f :: fs =>
      '(c, r, a) ← call_path__findnew alloc_ok r a (Some n) f.1 f.2 ks;
      match c with Some n => resolve r a n ks fs | None => Some (None, r, a) end
  end.

Fixpoint intern (r : call_path_root) (a : nat) (ks : Z) (l : list (list (Z * Z)))
    : option (list (option nat) * call_path_root) :=
  match l with
  | [] => Some ([], r)
  | fs :: l =>
      '(c, r, a) ← resolve r a 0 ks fs;
      '(cs, r) ← intern r a ks l;
      Some (c :: cs, r)
  end.

(** A node that was given out, or no memory for it. *)
Definition named (r : call_path_root) (c : option nat) (fs : list (Z * Z)) : Prop :=
  match c with Some n => names r n fs | None => exists m, alloc_ok m = false end.

Lemma names_lt r n fs : cpr_ok r -> names r n fs -> (n < length (paths r))%nat.
Proof.
  intros Hok Hn. destruct Hn as [|n p pa fs Hp]; [|by eapply lookup_lt_Some].
  destruct (ok_root r Hok) as [p Hp]. by eapply lookup_lt_Some.
Qed.

Lemma resolve_spec r a n ks fs gs :
  cpr_ok r -> names r n gs ->
  exists c r' a', resolve r a n ks fs = Some (c, r', a') /\ cpr_ok r' /\
    paths r `prefix_of` paths r' /\ named r' c (gs ++ (norm <$> fs)).
Proof.
  revert r a n gs. induction fs as [|[s i] fs IH]; intros r a n gs Hok Hn; simpl.
  { exists (Some n), r, a. rewrite app_nil_r. done. }
  destruct (findnew_spec alloc_ok r a n s i ks Hok (names_lt _ _ _ Hok Hn))
    as (c & r1 & a1 & -> & Hok1 & Hpre & Hc). simpl.
  destruct c as [m|]; [|by exists None, r1, a1].
  destruct Hc as (p & Hp & Hpar & Hk).
  destruct (IH r1 a1 m (gs ++ [norm (s, i)]) Hok1) as (c & r2 & a2 & E & Hok2 & Hpre2 & Hc).
  { rewrite <- Hk. apply (names_child r1 m p n gs); [done..|]. by eapply names_mono. }
  exists c, r2, a2. split_and!; try done; [by etrans|].
  by rewrite <- app_assoc in Hc.
Qed.

Lemma intern_spec r a ks l :
  cpr_ok r ->
  exists cs r', intern r a ks l = Some (cs, r') /\ cpr_ok r' /\ paths r `prefix_of` paths r' /\
    Forall2 (fun c fs => named r' c (norm <$> fs)) cs l.
Proof.
  revert r a. induction l as [|fs l IH]; intros r a Hok; simpl; [by exists [], r|].
  destruct (resolve_spec r a 0 ks fs [] Hok (names_root r)) as (c & r1 & a1 & -> & Hok1 & Hpre1 & Hc).
  destruct (IH r1 a1 Hok1) as (cs & r2 & E & Hok2 & Hpre2 & Hcs). simpl. rewrite E. simpl.
  exists (c :: cs), r2. split_and!; try done; [by etrans|]. constructor; [|done].
  destruct c as [n|]; [|done]. by eapply names_mono.
Qed.

(** C29: Asking the root for the nodes of any call chains, one after another,
    never follows a pointer to nothing and interns them: every chain gets a
    node, unless an allocation failed, and two chains get the same node exactly
    when they have the same frames, where the ip counts only in a frame without
    a symbol. *)
Theorem call_paths_interned (a : nat) (ks : Z) (l : list (list (Z * Z))) :
  exists cs r, intern call_path_root__new a ks l = Some (cs, r) /\ length cs = length l /\
    (forall i, cs !! i = Some None -> exists m, alloc_ok m = false) /\
    (forall i j n m fs gs,
       cs !! i = Some (Some n) -> cs !! j = Some (Some m) ->
       l !! i = Some fs -> l !! j = Some gs ->
       n = m <-> (norm <$> fs) = (norm <$> gs)).
Proof.
  destruct (intern_spec call_path_root__new a ks l cpr_ok_new) as (cs & r & E & Hok & _ & Hcs).
  exists cs, r. split; [done|]. split; [by eapply Forall2_length|]. split.
  - intros i Hi. destruct (Forall2_lookup_l _ _ _ _ _ Hcs Hi) as (fs & _ & Hn). done.
  - intros i j n m fs gs Hi Hj Hfs Hgs.
    pose proof (Forall2_lookup_lr _ _ _ _ _ _ Hcs Hi Hfs) as Hn.
    pose proof (Forall2_lookup_lr _ _ _ _ _ _ Hcs Hj Hgs) as Hm. simpl in Hn, Hm. split.
    + intros ->. by eapply names_functional.
    + intros He. rewrite He in Hn. by eapply names_inj.
Qed.
End Interning.

(** * Concrete call chains *)

#[local] Instance plain_call_tree : CallTree := {| crebalance _ t := t; crebalance_elems _ _ := eq_refl |}.

(** The second chain differs from the first in an ip under a symbol, the third
    in an ip without one. *)
Lemma call_paths_interned_witness :
  exists cs r, intern (fun _ => true) call_path_root__new 0 1000
      [[(7, 100); (0, 200)]; [(7, 150); (0, 200)]; [(7, 100); (0, 201)]] = Some (cs, r) /\
    length cs = 3%nat /\ cs = [Some 2%nat; Some 2%nat; Some 3%nat].
Proof.
  destruct (call_paths_interned (fun _ => true) 0 1000
    [[(7, 100); (0, 200)]; [(7, 150); (0, 200)]; [(7, 100); (0, 201)]]) as (cs & r & E & Hl & _).
  exists cs, r. split; [exact E|]. split; [exact Hl|]. by injection E as <- _.
Defined.
