(* ===== verification/ThreadStack.v ===== *)
(** Model of util/thread-stack.c: the call stacks that perf builds from the
    branch samples of hardware tracers.

    The entries are an array of the allocated size; [cnt] of
    them are in use and the contents of fresh memory are arbitrary ([junk]).
    The stacks of a thread are an array, one per cpu for the idle task.
    Allocations are numbered and may fail; the callback of a call/return
    processor is a function of what it was given before.  An access outside an
    array or through a pointer to nothing is [None]. *)

From Stdlib Require Import String.
From S2P Require Import Prelude CallPath.
#[local] Open Scope Z_scope.

(** * Thread stacks *)

Inductive retpoline_state_t := RETPOLINE_NONE | X86_RETPOLINE_POSSIBLE | X86_RETPOLINE_DETECTED.

#[export] Instance retpoline_eq_dec : EqDecision retpoline_state_t.
Proof. solve_decision. Defined.

Record thread_stack_entry := Entry {
  ret_addr : Z;
  timestamp : Z;
  ref : Z;
  branch_count : Z;
  db_id : Z;
  cp : option nat;
  no_call : bool;
  trace_end : bool;
  non_call : bool
}.

Record thread_stack := ThreadStack {
  stack : option (list thread_stack_entry);
  cnt : nat;
  trace_nr : Z;
  ts_branch_count : Z;
  kernel_start : Z;
  last_time : Z;
  crp : bool;
  comm : Z;
  arr_sz : nat;
  rstate : retpoline_state_t
}.

Definition sz (ts : thread_stack) : nat := match stack ts with Some l => length l | None => 0 end.

Definition zero_ts : thread_stack := ThreadStack None 0 0 0 0 0 false 0 0 RETPOLINE_NONE.

(** thread->mg->machine: its kernel start and whether its architecture is x86. *)
Record thread := Thread {
  tid : Z;
  pid_ : Z;
  machine : option (Z * bool);
  tss : option (list thread_stack)
}.

Record call_return := CallReturn {
  cr_comm : Z;
  cr_cp : option nat;
  call_time : Z;
  return_time : Z;
  cr_branch_count : Z;
  call_ref : Z;
  return_ref : Z;
  cr_db_id : Z;
  flags : Z
}.

Definition CALL_RETURN_NO_CALL : Z := 1.
Definition CALL_RETURN_NO_RETURN : Z := 2.
Definition CALL_RETURN_NON_CALL : Z := 4.

Definition PERF_IP_FLAG_BRANCH : Z := 1.
Definition PERF_IP_FLAG_CALL : Z := 2.
Definition PERF_IP_FLAG_RETURN : Z := 4.
Definition PERF_IP_FLAG_TRACE_BEGIN : Z := 256.
Definition PERF_IP_FLAG_TRACE_END : Z := 512.

Definition PERF_CONTEXT_KERNEL : Z := u64 (-128).
Definition PERF_CONTEXT_USER : Z := u64 (-512).

Definition STACK_GROWTH : nat := 2048.
Definition ENOMEM : Z := 12.
Definition EINVAL : Z := 22.

(** Everything outside the stacks: the call paths, what the callback was given
    and the number of allocations. *)
Record world := World {
  cpr : call_path_root;
  log : list call_return;
  allocs : nat
}.

(** The parts of struct perf_sample that matter here. *)
Record branch_sample := PerfSample {
  ip : Z;
  s_addr : Z;
  time : Z;
  s_flags : Z;
  insn_len : Z;
  s_cpu : Z
}.

Record addr_location := AddrLocation { al_sym : Z; al_addr : Z }.

Section Stacks.
Context `{CallTree}.
Variable alloc_ok : nat -> bool.
(** Fresh memory: the number of the allocation and the position. *)
Variable junk : nat -> nat -> thread_stack_entry.
(** crp->process: what it was given before, the call/return and the db_id of the
    parent; its result and the db_id of the parent after it. *)
Variable process : list call_return -> call_return -> option Z -> Z * Z.
(** The start and the name of a symbol. *)
Variable sym_start : Z -> Z.
Variable sym_name : Z -> string.

Definition count_alloc (w : world) : world := World (cpr w) (log w) (S (allocs w)).

(** The call paths of a new processor, or [None] for NULL; and the number of
    allocations. *)
Definition call_return_processor__new (a : nat) : option call_path_root * nat :=
  if alloc_ok a then
    if alloc_ok (S a) then (Some call_path_root__new, S (S a)) else (None, S (S a))
  else (None, S a).

(** call_path__findnew on the processor's call paths. *)
Definition find_path (w : world) (parent : option nat) (s ip ks : Z) : option (option nat * world) :=
  '(c, r, a) ← call_path__findnew alloc_ok (cpr w) (allocs w) parent s ip ks;
  Some (c, World r (log w) a).

(** ** The array of entries *)

Definition rd_entry (ts : thread_stack) (i : nat) : option thread_stack_entry :=
  st ← stack ts; st !! i.

Definition wr_entry (ts : thread_stack) (i : nat) (f : thread_stack_entry -> thread_stack_entry)
    : option thread_stack :=
  st ← stack ts; e ← st !! i;
  Some (ThreadStack (Some (<[i := f e]> st)) (cnt ts) (trace_nr ts) (ts_branch_count ts)
    (kernel_start ts) (last_time ts) (crp ts) (comm ts) (arr_sz ts) (rstate ts)).

Definition set_cnt (ts : thread_stack) (n : nat) : thread_stack :=
  ThreadStack (stack ts) n (trace_nr ts) (ts_branch_count ts) (kernel_start ts) (last_time ts)
    (crp ts) (comm ts) (arr_sz ts) (rstate ts).

Definition set_trace_nr (ts : thread_stack) (nr : Z) : thread_stack :=
  ThreadStack (stack ts) (cnt ts) nr (ts_branch_count ts) (kernel_start ts) (last_time ts)
    (crp ts) (comm ts) (arr_sz ts) (rstate ts).

Definition set_comm (ts : thread_stack) (c : Z) : thread_stack :=
  ThreadStack (stack ts) (cnt ts) (trace_nr ts) (ts_branch_count ts) (kernel_start ts) (last_time ts)
    (crp ts) c (arr_sz ts) (rstate ts).

Definition set_rstate (ts : thread_stack) (r : retpoline_state_t) : thread_stack :=
  ThreadStack (stack ts) (cnt ts) (trace_nr ts) (ts_branch_count ts) (kernel_start ts) (last_time ts)
    (crp ts) (comm ts) (arr_sz ts) r.

(** The entry at [ts->cnt - k]; below 0 the index is out of range. *)
Definition top_entry (ts : thread_stack) (k : nat) : option thread_stack_entry :=
  if (cnt ts <? k)%nat then None else rd_entry ts (cnt ts - k).

Definition thread_stack__grow (ts : thread_stack) (w : world) : Z * thread_stack * world :=
  if alloc_ok (allocs w) then
    (0, ThreadStack (Some (default [] (stack ts) ++ (junk (allocs w) <$> seq 0 STACK_GROWTH)))
          (cnt ts) (trace_nr ts) (ts_branch_count ts) (kernel_start ts) (last_time ts)
          (crp ts) (comm ts) (arr_sz ts) (rstate ts), count_alloc w)
  else (- ENOMEM, ts, count_alloc w).

Definition thread_stack__init (ts : thread_stack) (th : thread) (p : bool) (w : world)
    : Z * thread_stack * world :=
  match thread_stack__grow ts w with
  | (0, ts, w) =>
      let '(ks, r) := match machine th with
                      | Some (ks, x86) => (ks, if x86 : bool then X86_RETPOLINE_POSSIBLE else rstate ts)
                      | None => (Z.shiftl 1 63, rstate ts)
                      end in
      (0, ThreadStack (stack ts) (cnt ts) (trace_nr ts) (ts_branch_count ts) ks (last_time ts)
            p (comm ts) (arr_sz ts) r, w)
  | r => r
  end.

(** ** The stacks of a thread *)

Definition thread_stack__per_cpu (th : thread) : bool := (tid th =? 0) && (pid_ th =? 0).

(** The power of two at or above [n]. *)
Definition roundup_pow_of_two (n : Z) : Z := 2 ^ Z.log2_up n.

Definition set_tss (th : thread) (l : option (list thread_stack)) : thread :=
  Thread (tid th) (pid_ th) (machine th) l.

Definition set_arr_sz (ts : thread_stack) (n : nat) : thread_stack :=
  ThreadStack (stack ts) (cnt ts) (trace_nr ts) (ts_branch_count ts) (kernel_start ts) (last_time ts)
    (crp ts) (comm ts) n (rstate ts).

(** The array after a new one was allocated and the old one copied. *)
Definition grow_array (new_sz : nat) (old_sz : nat) (l : list thread_stack) : list thread_stack :=
  let a := take old_sz l ++ replicate (new_sz - old_sz) zero_ts in
  match a with [] => [] | t :: a => set_arr_sz t new_sz :: a end.

(** The array for a cpu: the old one, or a new one that is larger. *)
Definition array_for (th : thread) (cpu : Z) (w : world) : option (list thread_stack) * world :=
  let old_sz := match tss th with Some (t :: _) => arr_sz t | _ => 0%nat end in
  let new_sz := if thread_stack__per_cpu th && (0 <? cpu)
                then Z.to_nat (roundup_pow_of_two (cpu + 1)) else 1%nat in
  if match tss th with None => true | Some _ => (old_sz <? new_sz)%nat end then
    if alloc_ok (allocs w) then (Some (grow_array new_sz old_sz (default [] (tss th))), count_alloc w)
    else (None, count_alloc w)
  else (tss th, w).

(** The position of the stack to use, or [None] for NULL. *)
Definition thread_stack__new (th : thread) (cpu : Z) (p : bool) (w : world)
    : option (option nat * thread * world) :=
  match array_for th cpu w with
  | (None, w) => Some (None, th, w)
  | (Some l, w) =>
      first ← head l;
      let pos := if thread_stack__per_cpu th && (0 <? cpu) && (cpu <? Z.of_nat (arr_sz first))
                 then Z.to_nat cpu else 0%nat in
      ts ← l !! pos;
      match stack ts with
      | Some _ => Some (Some pos, set_tss th (Some l), w)
      | None =>
          let '(err, ts, w) := thread_stack__init ts th p w in
          let th := set_tss th (Some (<[pos := ts]> l)) in
          if err =? 0 then Some (Some pos, th, w) else Some (None, th, w)
      end
  end.

Definition thread__cpu_stack (th : thread) (cpu : Z) : option nat :=
  let cpu := if cpu <? 0 then 0 else cpu in
  match tss th with
  | Some ((t :: _) as l) =>
      if Z.of_nat (arr_sz t) <=? cpu then None else
      match l !! Z.to_nat cpu with
      | Some ts => match stack ts with Some _ => Some (Z.to_nat cpu) | None => None end
      | None => None
      end
  | _ => None
  end.

(** The position of the stack for a cpu, or [None] for NULL. *)
Definition thread__stack (th : option thread) (cpu : Z) : option nat :=
  match th with
  | None => None
  | Some th =>
      if thread_stack__per_cpu th then thread__cpu_stack th cpu
      else match tss th with Some _ => Some 0%nat | None => None end
  end.

Definition get_ts (th : thread) (pos : nat) : option thread_stack := l ← tss th; l !! pos.

Definition put_ts (th : thread) (pos : nat) (ts : thread_stack) : thread :=
  set_tss th (<[pos := ts]> <$> tss th).

(** ** Stacks of return addresses *)

Definition thread_stack__push (ts : thread_stack) (ret : Z) (te : bool) (w : world)
    : option (Z * thread_stack * world) :=
  let '(err, ts, w) :=
    if (cnt ts =? sz ts)%nat then
      let '(err, ts, w) := thread_stack__grow ts w in
      if err =? 0 then (err, ts, w) else (err, set_cnt ts 0, w)
    else (0, ts, w) in
  ts ← wr_entry ts (cnt ts) (fun e =>
         Entry ret (timestamp e) (ref e) (branch_count e) (db_id e) (cp e) (no_call e) te (non_call e));
  Some (err, set_cnt ts (S (cnt ts)), w).

Fixpoint pop_search (ts : thread_stack) (ret : Z) (i : nat) : option thread_stack :=
  match i with
  | O => Some ts
  | S i =>
      e ← rd_entry ts i;
      if ret_addr e =? ret then Some (set_cnt ts i) else pop_search ts ret i
  end.

Definition thread_stack__pop (ts : thread_stack) (ret : Z) : option thread_stack :=
  pop_search ts ret (cnt ts).

Fixpoint pop_trace_end_loop (ts : thread_stack) (i : nat) : option thread_stack :=
  match i with
  | O => Some ts
  | S i =>
      e ← rd_entry ts i;
      if trace_end e then pop_trace_end_loop (set_cnt ts i) i else Some ts
  end.

Definition thread_stack__pop_trace_end (ts : thread_stack) : option thread_stack :=
  pop_trace_end_loop ts (cnt ts).

(** ** Calls and returns *)

(** The call path of an entry: a pointer to nothing is [None]. *)
Definition entry_path (w : world) (e : thread_stack_entry) : option call_path :=
  n ← cp e; paths (cpr w) !! n.

Definition thread_stack__in_kernel (ts : thread_stack) (w : world) : option bool :=
  if (cnt ts =? 0)%nat then Some false else
  e ← top_entry ts 1; p ← entry_path w e; Some (in_kernel p).

Definition set_db_id (v : Z) (e : thread_stack_entry) : thread_stack_entry :=
  Entry (ret_addr e) (timestamp e) (ref e) (branch_count e) v (cp e) (no_call e) (trace_end e) (non_call e).

Definition set_non_call (e : thread_stack_entry) : thread_stack_entry :=
  Entry (ret_addr e) (timestamp e) (ref e) (branch_count e) (db_id e) (cp e) (no_call e) (trace_end e) true.

Definition set_cp (c : nat) (e : thread_stack_entry) : thread_stack_entry :=
  Entry (ret_addr e) (timestamp e) (ref e) (branch_count e) (db_id e) (Some c) (no_call e) (trace_end e)
    (non_call e).

(** [flags |= bit] when the condition holds. *)
Definition or_flag (b : bool) (bit fl : Z) : Z := if b then Z.lor fl bit else fl.

Definition make_call_return (ts : thread_stack) (tse : thread_stack_entry) (tm rf : Z)
    (no_return : bool) : call_return :=
  CallReturn (comm ts) (cp tse) (timestamp tse) tm (u64 (ts_branch_count ts - branch_count tse))
    (ref tse) rf (db_id tse)
    (or_flag (non_call tse) CALL_RETURN_NON_CALL
      (or_flag no_return CALL_RETURN_NO_RETURN (or_flag (no_call tse) CALL_RETURN_NO_CALL 0))).

Definition thread_stack__call_return (ts : thread_stack) (w : world) (idx : nat) (tm rf : Z)
    (no_return : bool) : option (Z * thread_stack * world) :=
  tse ← rd_entry ts idx;
  let cr := make_call_return ts tse tm rf no_return in
  let w' := World (cpr w) (log w ++ [cr]) (allocs w) in
  match idx with
  | O => Some ((process (log w) cr None).1, ts, w')
  | S i =>
      par ← rd_entry ts i;
      let '(err, id) := process (log w) cr (Some (db_id par)) in
      ts ← wr_entry ts i (set_db_id id);
      Some (err, ts, w')
  end.

(** [thread_stack__call_return(thread, ts, --ts->cnt, ...)] *)
Definition pop_return (ts : thread_stack) (w : world) (tm rf : Z) (no_return : bool)
    : option (Z * thread_stack * world) :=
  match cnt ts with
  | O => None
  | S i => thread_stack__call_return (set_cnt ts i) w i tm rf no_return
  end.

Fixpoint flush_entries (n : nat) (ts : thread_stack) (w : world) : option (Z * thread_stack * world) :=
  match n with
  | O => Some (0, ts, w)
  | S n =>
      '(err, ts, w) ← pop_return ts w (last_time ts) 0 true;
      if err =? 0 then flush_entries n ts w else Some (err, set_cnt ts 0, w)
  end.

Definition __thread_stack__flush (ts : thread_stack) (w : world) : option (Z * thread_stack * world) :=
  if crp ts then flush_entries (cnt ts) ts w else Some (0, set_cnt ts 0, w).

(** The stacks from [pos] on, [n] of them; an earlier error stays unless
    another follows. *)
Fixpoint flush_each (n pos : nat) (l : list thread_stack) (w : world) (err : Z)
    : option (Z * list thread_stack * world) :=
  match n with
  | O => Some (err, l, w)
  | S n =>
      ts ← l !! pos;
      '(ret, ts, w) ← __thread_stack__flush ts w;
      flush_each n (S pos) (<[pos := ts]> l) w (if ret =? 0 then err else ret)
  end.

Definition thread_stack__flush (th : thread) (w : world) : option (Z * thread * world) :=
  match tss th with
  | None => Some (0, th, w)
  | Some l =>
      first ← head l;
      '(err, l, w) ← flush_each (arr_sz first) 0 l w 0;
      Some (err, set_tss th (Some l), w)
  end.

(** The trace number changed: [flush] unless it was 0. *)
Definition change_trace_nr (ts : thread_stack) (w : world) (nr : Z) : option (thread_stack * world) :=
  if nr =? trace_nr ts then Some (ts, w) else
  '(ts, w) ← (if trace_nr ts =? 0 then Some (ts, w)
              else '(_, ts, w) ← __thread_stack__flush ts w; Some (ts, w));
  Some (set_trace_nr ts nr, w).

(** thread_stack__event once there is a stack, from the comparison of trace
    numbers on. *)
Definition event_on (ts : thread_stack) (w : world) (fl from_ip to_ip insn_len nr : Z)
    : option (Z * thread_stack * world) :=
  '(ts, w) ← change_trace_nr ts w nr;
  if crp ts then Some (0, ts, w) else
  if hasf fl PERF_IP_FLAG_CALL then
    if to_ip =? 0 then Some (0, ts, w) else
    let ret := from_ip +64 insn_len in
    if ret =? to_ip then Some (0, ts, w) else
    thread_stack__push ts ret (hasf fl PERF_IP_FLAG_TRACE_END) w
  else if hasf fl PERF_IP_FLAG_TRACE_BEGIN then
    ts ← thread_stack__pop ts to_ip;
    ts ← thread_stack__pop_trace_end ts;
    Some (0, ts, w)
  else if hasf fl PERF_IP_FLAG_RETURN && negb (from_ip =? 0) then
    ts ← thread_stack__pop ts to_ip;
    Some (0, ts, w)
  else Some (0, ts, w).

Definition thread_stack__event (th : option thread) (cpu fl from_ip to_ip insn_len nr : Z) (w : world)
    : option (Z * option thread * world) :=
  let pos := thread__stack th cpu in
  match th with
  | None => Some (- EINVAL, None, w)
  | Some th =>
      '(pos, th, w) ←
        match pos with
        | Some pos => Some (Some pos, th, w)
        | None =>
            '(pos, th, w) ← thread_stack__new th cpu false w;
            match pos with
            | None => Some (None, th, w)
            | Some pos => ts ← get_ts th pos; Some (Some pos, put_ts th pos (set_trace_nr ts nr), w)
            end
        end;
      match pos with
      | None => Some (- ENOMEM, Some th, w)
      | Some pos =>
          ts ← get_ts th pos;
          '(err, ts, w) ← event_on ts w fl from_ip to_ip insn_len nr;
          Some (err, Some (put_ts th pos ts), w)
      end
  end.

Definition thread_stack__set_trace_nr (th : thread) (cpu nr : Z) (w : world) : option (thread * world) :=
  match thread__stack (Some th) cpu with
  | None => Some (th, w)
  | Some pos =>
      ts ← get_ts th pos;
      '(ts, w) ← change_trace_nr ts w nr;
      Some (put_ts th pos ts, w)
  end.

Definition __thread_stack__free (ts : thread_stack) (w : world) : option (thread_stack * world) :=
  '(_, ts, w) ← __thread_stack__flush ts w;
  Some (ThreadStack None (cnt ts) (trace_nr ts) (ts_branch_count ts) (kernel_start ts) (last_time ts)
          (crp ts) (comm ts) (arr_sz ts) (rstate ts), w).

Definition thread_stack__reset (ts : thread_stack) (w : world) : option (thread_stack * world) :=
  '(_, w) ← __thread_stack__free ts w;
  Some (set_arr_sz zero_ts (arr_sz ts), w).

Fixpoint free_each (n pos : nat) (l : list thread_stack) (w : world) : option world :=
  match n with
  | O => Some w
  | S n =>
      ts ← l !! pos;
      '(ts, w) ← __thread_stack__free ts w;
      free_each n (S pos) (<[pos := ts]> l) w
  end.

Definition thread_stack__free (th : thread) (w : world) : option (thread * world) :=
  match tss th with
  | None => Some (th, w)
  | Some l => first ← head l; w ← free_each (arr_sz first) 0 l w; Some (set_tss th None, w)
  end.

(** ** Sampling the stack *)

Definition callchain_context (ip ks : Z) : Z :=
  if ip <? ks then PERF_CONTEXT_USER else PERF_CONTEXT_KERNEL.

(** [chain->ips[i] = v] *)
Definition wr_ip (ips : list Z) (i : nat) (v : Z) : option (list Z) :=
  if (i <? length ips)%nat then Some (<[i := v]> ips) else None.

(** [n] entries are left to visit: [n = ts->cnt - j + 1]. *)
Fixpoint sample_loop (ts : thread_stack) (ks : Z) (size n i : nat) (last_context : Z) (ips : list Z)
    : option (nat * list Z) :=
  if (size <=? i)%nat then Some (i, ips) else
  match n with
  | O => Some (i, ips)
  | S n =>
      e ← rd_entry ts n;
      let ip := ret_addr e in
      let context := callchain_context ip ks in
      if context =? last_context then
        ips ← wr_ip ips i ip;
        sample_loop ts ks size n (S i) last_context ips
      else if (size - 1 <=? i)%nat then Some (i, ips)
      else
        ips ← wr_ip ips i context;
        ips ← wr_ip ips (S i) ip;
        sample_loop ts ks size n (S (S i)) context ips
  end.

(** The number of entries of the chain and the chain. *)
Definition thread_stack__sample (th : option thread) (cpu : Z) (ips : list Z) (size : nat) (ip ks : Z)
    : option (nat * list Z) :=
  let context := callchain_context ip ks in
  if (size <? 2)%nat then Some (0%nat, ips) else
  ips ← wr_ip ips 0 context;
  ips ← wr_ip ips 1 ip;
  match thread__stack th cpu with
  | None => Some (2%nat, ips)
  | Some pos =>
      th ← th; ts ← get_ts th pos;
      sample_loop ts ks size (cnt ts) 2 context ips
  end.

Definition thread_stack__depth (th : option thread) (cpu : Z) : option nat :=
  match thread__stack th cpu with
  | None => Some 0%nat
  | Some pos => th ← th; ts ← get_ts th pos; Some (cnt ts)
  end.

(** ** Stacks of call paths *)

Definition set_entry (rt tm rf bc : Z) (c : nat) (nc te : bool) : thread_stack_entry :=
  Entry rt tm rf bc 0 (Some c) nc te false.

(** A cp that is [None] is NULL. *)
Definition thread_stack__push_cp (ts : thread_stack) (w : world) (ret tm rf : Z) (c : option nat)
    (nc te : bool) : option (Z * thread_stack * world) :=
  match c with
  | None => Some (- ENOMEM, ts, w)
  | Some c =>
      let '(err, ts, w) := if (cnt ts =? sz ts)%nat then thread_stack__grow ts w else (0, ts, w) in
      if err =? 0 then
        ts ← wr_entry ts (cnt ts) (fun _ => set_entry ret tm rf (ts_branch_count ts) c nc te);
        Some (0, set_cnt ts (S (cnt ts)), w)
      else Some (err, ts, w)
  end.

(** The entry below [i] that a return to [ret] matches. *)
Fixpoint find_return (ts : thread_stack) (ret : Z) (i : nat) : option (option nat) :=
  match i with
  | O => Some None
  | S i =>
      e ← rd_entry ts i;
      if negb (ret_addr e =? ret) || non_call e then find_return ts ret i else Some (Some i)
  end.

(** [while (ts->cnt > i)]: [n] is how many entries are above [i]. *)
Fixpoint pop_above (n : nat) (ts : thread_stack) (w : world) (tm rf : Z)
    : option (Z * thread_stack * world) :=
  match n with
  | O => Some (0, ts, w)
  | S n =>
      '(err, ts, w) ← pop_return ts w tm rf true;
      if err =? 0 then pop_above n ts w tm rf else Some (err, ts, w)
  end.

Definition thread_stack__pop_cp (ts : thread_stack) (w : world) (ret tm rf sym : Z)
    : option (Z * thread_stack * world) :=
  if (cnt ts =? 0)%nat then Some (1, ts, w) else
  only ← (if (cnt ts =? 1)%nat then
            tse ← rd_entry ts 0; p ← entry_path w tse; Some (cp_sym p =? sym)
          else Some false);
  if only : bool then pop_return ts w tm rf false else
  top ← top_entry ts 1;
  if (ret_addr top =? ret) && negb (non_call top) then pop_return ts w tm rf false else
  found ← find_return ts ret (cnt ts - 1);
  match found with
  | None => Some (1, ts, w)
  | Some i =>
      '(err, ts, w) ← pop_above (cnt ts - S i) ts w tm rf;
      if err =? 0 then pop_return ts w tm rf false else Some (err, ts, w)
  end.

Definition thread_stack__bottom (ts : thread_stack) (w : world) (sm : branch_sample)
    (from_al to_al : addr_location) (rf : Z) : option (Z * thread_stack * world) :=
  let push ip sym :=
    '(c, w) ← find_path w (Some 0%nat) sym ip (kernel_start ts);
    thread_stack__push_cp ts w ip (time sm) rf c true false in
  if negb (ip sm =? 0) then push (ip sm) (al_sym from_al)
  else if negb (s_addr sm =? 0) then push (s_addr sm) (al_sym to_al)
  else Some (0, ts, w).

(** [while (thread_stack__in_kernel(ts))]: a turn takes an entry, so [n] starts
    as their number. *)
Fixpoint pop_kernel (n : nat) (ts : thread_stack) (w : world) (tm rf : Z)
    : option (Z * thread_stack * world) :=
  k ← thread_stack__in_kernel ts w;
  if k : bool then
    match n with
    | O => Some (0, ts, w)
    | S n =>
        '(err, ts, w) ← pop_return ts w tm rf true;
        if err =? 0 then pop_kernel n ts w tm rf else Some (err, ts, w)
    end
  else Some (0, ts, w).

(** The call path of the top entry, the root for an empty stack. *)
Definition top_path (ts : thread_stack) : option (option nat) :=
  if (cnt ts =? 0)%nat then Some (Some 0%nat) else e ← top_entry ts 1; Some (cp e).

Definition mark_non_call (ts : thread_stack) : option thread_stack :=
  match cnt ts with O => None | S i => wr_entry ts i set_non_call end.

(** thread_stack__no_call_return once the kernel's entries are popped. *)
Definition no_call_push (ts : thread_stack) (w : world) (sm : branch_sample)
    (from_al to_al : addr_location) (rf : Z) : option (Z * thread_stack * world) :=
  let ks := kernel_start ts in
  parent ← top_path ts;
  pn ← parent; par ← paths (cpr w) !! pn;
  if cp_sym par =? al_sym from_al then
    '(err, ts, w) ← (if (cnt ts =? 1)%nat then pop_return ts w (time sm) rf false else Some (0, ts, w));
    if negb (err =? 0) then Some (err, ts, w) else
    if (cnt ts =? 0)%nat then
      '(c, w) ← find_path w (Some 0%nat) (al_sym to_al) (s_addr sm) ks;
      thread_stack__push_cp ts w (s_addr sm) (time sm) rf c true false
    else
      '(c, w) ← find_path w parent (al_sym to_al) (s_addr sm) ks;
      '(err, ts, w) ← thread_stack__push_cp ts w 0 (time sm) rf c true false;
      if err =? 0 then ts ← mark_non_call ts; Some (err, ts, w) else Some (err, ts, w)
  else
    '(c, w) ← find_path w parent (al_sym to_al) (s_addr sm) ks;
    '(err, ts, w) ← thread_stack__push_cp ts w (s_addr sm) (time sm) rf c true false;
    if negb (err =? 0) then Some (err, ts, w) else
    '(c, w) ← find_path w c (al_sym from_al) (ip sm) ks;
    '(err, ts, w) ← thread_stack__push_cp ts w (ip sm) (time sm) rf c true false;
    if negb (err =? 0) then Some (err, ts, w) else
    pop_return ts w (time sm) rf false.

Definition thread_stack__no_call_return (ts : thread_stack) (w : world) (sm : branch_sample)
    (from_al to_al : addr_location) (rf : Z) : option (Z * thread_stack * world) :=
  let ks := kernel_start ts in
  if (ks <=? ip sm) && (s_addr sm <? ks) then
    '(err, ts, w) ← pop_kernel (cnt ts) ts w (time sm) rf;
    if negb (err =? 0) then Some (err, ts, w) else
    if (cnt ts =? 0)%nat then
      '(c, w) ← find_path w (Some 0%nat) (al_sym to_al) (s_addr sm) ks;
      thread_stack__push_cp ts w 0 (time sm) rf c true false
    else no_call_push ts w sm from_al to_al rf
  else
    k ← thread_stack__in_kernel ts w;
    if k && (ip sm <? ks) then
      '(err, ts, w) ← pop_kernel (cnt ts) ts w (time sm) rf;
      if negb (err =? 0) then Some (err, ts, w) else no_call_push ts w sm from_al to_al rf
    else no_call_push ts w sm from_al to_al rf.

Definition thread_stack__trace_begin (ts : thread_stack) (w : world) (tm rf : Z)
    : option (Z * thread_stack * world) :=
  if (cnt ts =? 0)%nat then Some (0, ts, w) else
  tse ← top_entry ts 1;
  if trace_end tse then pop_return ts w tm rf false else Some (0, ts, w).

Definition thread_stack__trace_end (ts : thread_stack) (w : world) (sm : branch_sample) (rf : Z)
    : option (Z * thread_stack * world) :=
  if (cnt ts =? 0)%nat then Some (0, ts, w) else
  stop ← (if (cnt ts =? 1)%nat then e ← rd_entry ts 0; Some (ref e =? rf) else Some false);
  if stop : bool then Some (0, ts, w) else
  top ← top_entry ts 1;
  '(c, w) ← find_path w (cp top) 0 0 (kernel_start ts);
  thread_stack__push_cp ts w (ip sm +64 insn_len sm) (time sm) rf c false true.

Definition is_x86_retpoline (name : string) : bool :=
  String.prefix "__x86_indirect_thunk_" name || String.eqb name "__indirect_thunk_start".

Definition replace_top (ts : thread_stack) (w : world) (sm : branch_sample) (tsym : Z)
    : option (Z * thread_stack * world) :=
  below ← top_entry ts 2;
  '(c, w) ← find_path w (cp below) tsym (s_addr sm) (kernel_start ts);
  match c, cnt ts with
  | None, _ => Some (- ENOMEM, ts, w)
  | Some _, O => None
  | Some c, S i => ts ← wr_entry ts i (set_cp c); Some (0, ts, w)
  end.

(** [ts->cnt -= 1] *)
Definition dec_cnt (ts : thread_stack) : thread_stack := set_cnt ts (cnt ts - 1).

Definition thread_stack__x86_retpoline (ts : thread_stack) (w : world) (sm : branch_sample)
    (to_al : addr_location) : option (Z * thread_stack * world) :=
  tse ← top_entry ts 1;
  p ← entry_path w tse;
  let sym := cp_sym p in
  let tsym := al_sym to_al in
  if negb (sym =? 0) && is_x86_retpoline (sym_name sym) then
    let ts := dec_cnt ts in
    e ← top_entry ts 2; p ← entry_path w e;
    let sym := cp_sym p in
    if negb (sym =? 0) && (sym =? tsym) && negb (al_addr to_al =? sym_start tsym)
    then Some (0, dec_cnt ts, w)
    else replace_top ts w sm tsym
  else if negb (sym =? 0) && (sym =? tsym) then Some (0, dec_cnt ts, w)
  else replace_top ts w sm tsym.

Definition count_branch (ts : thread_stack) (tm : Z) : thread_stack :=
  ThreadStack (stack ts) (cnt ts) (trace_nr ts) (ts_branch_count ts +64 1) (kernel_start ts) tm
    (crp ts) (comm ts) (arr_sz ts) (rstate ts).

(** The branch of a sample, once the stack has a bottom; [rst] is the state of
    the retpoline detection before the sample. *)
Definition process_branch (ts : thread_stack) (w : world) (sm : branch_sample)
    (from_al to_al : addr_location) (rf : Z) (rst : retpoline_state_t)
    : option (Z * thread_stack * world) :=
  let fl := s_flags sm in
  if hasf fl PERF_IP_FLAG_CALL then
    if (ip sm =? 0) || (s_addr sm =? 0) then Some (0, ts, w) else
    let ret := ip sm +64 insn_len sm in
    if ret =? s_addr sm then Some (0, ts, w) else
    top ← top_entry ts 1;
    '(c, w) ← find_path w (cp top) (al_sym to_al) (s_addr sm) (kernel_start ts);
    '(err, ts, w) ← thread_stack__push_cp ts w ret (time sm) rf c false (hasf fl PERF_IP_FLAG_TRACE_END);
    if (err =? 0) && bool_decide (rst = X86_RETPOLINE_POSSIBLE) && negb (al_sym to_al =? 0)
       && (al_sym from_al =? al_sym to_al) && negb (al_addr to_al =? sym_start (al_sym to_al))
    then Some (err, set_rstate ts X86_RETPOLINE_DETECTED, w) else Some (err, ts, w)
  else if hasf fl PERF_IP_FLAG_RETURN then
    if (ip sm =? 0) || (s_addr sm =? 0) then Some (0, ts, w) else
    thunk ← (if bool_decide (rst = X86_RETPOLINE_DETECTED) && (2 <? cnt ts)%nat then
               top ← top_entry ts 1; Some (negb (ret_addr top =? s_addr sm))
             else Some false);
    if thunk : bool then thread_stack__x86_retpoline ts w sm to_al else
    '(err, ts, w) ← thread_stack__pop_cp ts w (s_addr sm) (time sm) rf (al_sym from_al);
    if err <=? 0 then Some (err, ts, w)
    else thread_stack__no_call_return ts w sm from_al to_al rf
  else if hasf fl PERF_IP_FLAG_TRACE_BEGIN then thread_stack__trace_begin ts w (time sm) rf
  else if hasf fl PERF_IP_FLAG_TRACE_END then thread_stack__trace_end ts w sm rf
  else if hasf fl PERF_IP_FLAG_BRANCH && negb (al_sym from_al =? al_sym to_al)
          && negb (al_sym to_al =? 0) && (al_addr to_al =? sym_start (al_sym to_al)) then
    top ← top_entry ts 1;
    '(c, w) ← find_path w (cp top) (al_sym to_al) (s_addr sm) (kernel_start ts);
    '(err, ts, w) ← thread_stack__push_cp ts w 0 (time sm) rf c false false;
    if err =? 0 then ts ← mark_non_call ts; Some (err, ts, w) else Some (err, ts, w)
  else Some (0, ts, w).

(** thread_stack__process once there is a stack with a call/return processor. *)
Definition process_on (ts : thread_stack) (w : world) (is_leader : bool) (cm : Z) (sm : branch_sample)
    (from_al to_al : addr_location) (rf : Z) : option (Z * thread_stack * world) :=
  let rst := rstate ts in
  let ts := if bool_decide (rst = X86_RETPOLINE_DETECTED) then set_rstate ts X86_RETPOLINE_POSSIBLE
            else ts in
  '(err, ts, w) ←
    (if negb (comm ts =? cm) && is_leader then
       '(err, ts, w) ← __thread_stack__flush ts w;
       if err =? 0 then Some (0, set_comm ts cm, w) else Some (err, ts, w)
     else Some (0, ts, w));
  if negb (err =? 0) then Some (err, ts, w) else
  '(err, ts, w) ← (if (cnt ts =? 0)%nat then thread_stack__bottom ts w sm from_al to_al rf
                   else Some (0, ts, w));
  if negb (err =? 0) then Some (err, ts, w) else
  process_branch (count_branch ts (time sm)) w sm from_al to_al rf rst.

Definition thread_stack__process (th : thread) (cm : Z) (sm : branch_sample)
    (from_al to_al : addr_location) (rf : Z) (w : world) : option (Z * thread * world) :=
  (* Supersede thread_stack__event() *)
  '(pos, th, w) ←
    match thread__stack (Some th) (s_cpu sm) with
    | None => Some (None, th, w)
    | Some pos =>
        ts ← get_ts th pos;
        if crp ts then Some (Some pos, th, w)
        else '(ts, w) ← thread_stack__reset ts w; Some (None, put_ts th pos ts, w)
    end;
  '(pos, th, w) ←
    match pos with
    | Some _ => Some (pos, th, w)
    | None =>
        '(pos, th, w) ← thread_stack__new th (s_cpu sm) true w;
        match pos with
        | None => Some (None, th, w)
        | Some i => ts ← get_ts th i; Some (Some i, put_ts th i (set_comm ts cm), w)
        end
    end;
  match pos with
  | None => Some (- ENOMEM, th, w)
  | Some i =>
      ts ← get_ts th i;
      '(err, ts, w) ← process_on ts w (pid_ th =? tid th) cm sm from_al to_al rf;
      Some (err, put_ts th i ts, w)
  end.
End Stacks.

(** * The entries in use *)

Definition vis (ts : thread_stack) : list thread_stack_entry := take (cnt ts) (default [] (stack ts)).

Definition wf (ts : thread_stack) : Prop := (cnt ts <= sz ts)%nat.

(** Everything but the entries. *)
Definition hdr (ts : thread_stack) :=
  (trace_nr ts, ts_branch_count ts, kernel_start ts, last_time ts, crp ts, comm ts, arr_sz ts, rstate ts).

Lemma sz_length ts : sz ts = length (default [] (stack ts)).
Proof. unfold sz. by destruct (stack ts). Qed.

Lemma vis_length ts : wf ts -> length (vis ts) = cnt ts.
Proof. unfold wf, vis. rewrite sz_length, length_take. lia. Qed.

Lemma rd_entry_vis ts i : (i < cnt ts)%nat -> rd_entry ts i = vis ts !! i.
Proof.
  intros Hi. unfold rd_entry, vis. rewrite lookup_take_lt by done. by destruct (stack ts).
Qed.

Lemma rd_entry_some ts i e : wf ts -> vis ts !! i = Some e -> rd_entry ts i = Some e.
Proof.
  intros Hw Hi. rewrite rd_entry_vis; [done|]. rewrite <- vis_length by done. by eapply lookup_lt_Some.
Qed.

Lemma top_entry_snoc ts v e : wf ts -> vis ts = v ++ [e] -> top_entry ts 1 = Some e.
Proof.
  intros Hw Hv. pose proof (vis_length ts Hw) as Hl. rewrite Hv, length_app in Hl. simpl in Hl.
  unfold top_entry. replace (cnt ts <? 1)%nat with false by (symmetry; apply Nat.ltb_ge; lia).
  apply rd_entry_some; [done|]. rewrite Hv. replace (cnt ts - 1)%nat with (length v) by lia.
  by apply list_lookup_middle.
Qed.

Lemma top_entry_snoc2 ts v d e : wf ts -> vis ts = v ++ [d; e] -> top_entry ts 2 = Some d.
Proof.
  intros Hw Hv. pose proof (vis_length ts Hw) as Hl. rewrite Hv, length_app in Hl. simpl in Hl.
  unfold top_entry. replace (cnt ts <? 2)%nat with false by (symmetry; apply Nat.ltb_ge; lia).
  apply rd_entry_some; [done|]. rewrite Hv. replace (cnt ts - 2)%nat with (length v) by lia.
  by apply list_lookup_middle.
Qed.

Lemma vis_set_cnt ts n : (n <= cnt ts)%nat -> vis (set_cnt ts n) = take n (vis ts).
Proof. intros Hn. unfold vis. simpl. rewrite take_take. by replace (n `min` cnt ts)%nat with n by lia. Qed.

Lemma wf_set_cnt ts n : wf ts -> (n <= cnt ts)%nat -> wf (set_cnt ts n).
Proof. unfold wf, sz. simpl. lia. Qed.

Lemma vis_drop ts v e : wf ts -> vis ts = v ++ [e] -> vis (set_cnt ts (length v)) = v.
Proof.
  intros Hw Hv. pose proof (vis_length ts Hw) as Hl. rewrite Hv, length_app in Hl.
  rewrite vis_set_cnt by lia. rewrite Hv. by apply take_app_length.
Qed.

(** A write to an entry in use. *)
Lemma wr_entry_vis ts i e f :
  wf ts -> vis ts !! i = Some e ->
  exists ts', wr_entry ts i f = Some ts' /\ vis ts' = <[i := f e]> (vis ts) /\ wf ts' /\
    hdr ts' = hdr ts /\ cnt ts' = cnt ts.
Proof.
  intros Hw Hi. pose proof (rd_entry_some ts i e Hw Hi) as Hr.
  unfold rd_entry in Hr. unfold wr_entry. destruct (stack ts) as [st|] eqn:Est; [|done].
  simpl in Hr |- *. rewrite Hr. simpl. eexists. split; [done|].
  assert ((i < cnt ts)%nat) by (rewrite <- vis_length by done; by eapply lookup_lt_Some).
  split_and!; try done.
  - unfold vis. rewrite Est. simpl. by rewrite take_insert_lt.
  - unfold wf in *. rewrite sz_length in *. rewrite Est in Hw. simpl in *. by rewrite length_insert.
Qed.

(** A write to the entry after those in use takes it into use. *)
Lemma wr_entry_push ts f :
  (cnt ts < sz ts)%nat ->
  exists e ts', wr_entry ts (cnt ts) f = Some ts' /\ rd_entry ts (cnt ts) = Some e /\
    vis (set_cnt ts' (S (cnt ts))) = vis ts ++ [f e] /\ wf (set_cnt ts' (S (cnt ts))) /\
    hdr ts' = hdr ts /\ cnt ts' = cnt ts.
Proof.
  intros Hs. rewrite sz_length in Hs. unfold wr_entry, rd_entry.
  destruct (stack ts) as [st|] eqn:Est; simpl in *; [|lia].
  destruct (lookup_lt_is_Some_2 st (cnt ts) Hs) as [e He]. rewrite He. simpl.
  exists e. eexists. split; [done|]. split_and!; try done.
  - unfold vis. rewrite Est. simpl.
    rewrite (take_S_r _ _ (f e)) by (by apply list_lookup_insert_eq).
    by rewrite take_insert_ge by lia.
  - unfold wf. rewrite sz_length. simpl. rewrite length_insert. lia.
Qed.

Section Ops.
Context `{CallTree}.
Variable alloc_ok : nat -> bool.
Variable junk : nat -> nat -> thread_stack_entry.
Variable process : list call_return -> call_return -> option Z -> Z * Z.
Variable sym_start : Z -> Z.
Variable sym_name : Z -> string.

Definition logged (w : world) (cr : call_return) : world := World (cpr w) (log w ++ [cr]) (allocs w).

(** The last entry with its db_id replaced. *)
Definition upd_last (id : Z) (v : list thread_stack_entry) : list thread_stack_entry :=
  alter (set_db_id id) (pred (length v)) v.

Lemma upd_last_snoc id v e : upd_last id (v ++ [e]) = v ++ [set_db_id id e].
Proof.
  unfold upd_last. rewrite length_app, Nat.add_1_r. simpl.
  by rewrite alter_app_r_alt, Nat.sub_diag by lia.
Qed.

Lemma pop_return_eq ts w v e tm rf nr :
  wf ts -> vis ts = v ++ [e] ->
  let cr := make_call_return ts e tm rf nr in
  let res := process (log w) cr (db_id <$> list.last v) in
  exists ts', pop_return process ts w tm rf nr = Some (res.1, ts', logged w cr) /\
    wf ts' /\ vis ts' = upd_last res.2 v /\ hdr ts' = hdr ts.
Proof.
  intros Hw Hv cr res. pose proof (vis_length ts Hw) as Hl.
  rewrite Hv, length_app, Nat.add_1_r in Hl.
  assert (He : rd_entry ts (length v) = Some e)
    by (apply rd_entry_some; [done|]; rewrite Hv; by apply list_lookup_middle).
  unfold pop_return. rewrite <- Hl. unfold thread_stack__call_return.
  change (rd_entry (set_cnt ts (length v)) (length v)) with (rd_entry ts (length v)). rewrite He.
  cbn [mbind option_bind].
  assert (Hw' : wf (set_cnt ts (length v))) by (apply wf_set_cnt; [done|lia]).
  pose proof (vis_drop ts v e Hw Hv) as Hv'.
  destruct v as [|p v _] using rev_ind.
  { cbn [length]. eexists. split; [done|]. split_and!; try done. }
  rewrite length_app, Nat.add_1_r in *.
  assert (Hp : vis (set_cnt ts (S (length v))) !! length v = Some p)
    by (rewrite Hv'; by apply list_lookup_middle).
  rewrite (rd_entry_some _ _ _ Hw' Hp). cbn [mbind option_bind].
  destruct (process (log w) _ (Some (db_id p))) as [err id] eqn:Ep.
  destruct (wr_entry_vis _ _ _ (set_db_id id) Hw' Hp) as (ts' & Ew & Hvt & Hwt & Hh & Hc).
  rewrite Ew. cbn [mbind option_bind].
  unfold res. rewrite last_snoc. cbn [fmap option_fmap option_map].
  change cr with (make_call_return (set_cnt ts (S (length v))) e tm rf nr). rewrite Ep.
  exists ts'. split_and!; try done.
  by rewrite Hvt, Hv', upd_last_snoc, insert_app_r_alt, Nat.sub_diag by lia.
Qed.

Lemma grow_eq ts w :
  wf ts ->
  exists err ts', thread_stack__grow alloc_ok junk ts w = (err, ts', count_alloc w) /\
    hdr ts' = hdr ts /\ cnt ts' = cnt ts /\ vis ts' = vis ts /\ wf ts' /\
    (if alloc_ok (allocs w) then err = 0 /\ sz ts' = (sz ts + STACK_GROWTH)%nat
     else err = - ENOMEM /\ ts' = ts).
Proof.
  intros Hw. unfold thread_stack__grow.
  destruct (alloc_ok (allocs w)); eexists _, _; split; try done.
  unfold wf in *. rewrite sz_length in Hw. split_and!; try done.
  - unfold vis. cbn [stack cnt from_option id]. by rewrite take_app_le.
  - rewrite sz_length. cbn [stack cnt from_option id]. rewrite length_app. lia.
  - rewrite !sz_length. cbn [stack from_option id]. by rewrite length_app, length_fmap, length_seq.
Qed.

(** The new entry is on top, or there was no memory. *)
Lemma push_cp_eq ts w ret tm rf c nc te :
  wf ts ->
  exists err ts' w', thread_stack__push_cp alloc_ok junk ts w ret tm rf (Some c) nc te = Some (err, ts', w') /\
    wf ts' /\ hdr ts' = hdr ts /\ cpr w' = cpr w /\ log w' = log w /\
    ((err = 0 /\ vis ts' = vis ts ++ [set_entry ret tm rf (ts_branch_count ts) c nc te]) \/
     (err = - ENOMEM /\ vis ts' = vis ts /\ alloc_ok (allocs w) = false)).
Proof.
  intros Hw. unfold thread_stack__push_cp.
  set (grown := if (cnt ts =? sz ts)%nat then _ else _).
  assert (Hg : exists err t w', grown = (err, t, w') /\ hdr t = hdr ts /\ vis t = vis ts /\ wf t /\
    cpr w' = cpr w /\ log w' = log w /\
    ((err = 0 /\ (cnt t < sz t)%nat) \/ (err = - ENOMEM /\ alloc_ok (allocs w) = false))).
  { unfold grown. destruct (Nat.eqb_spec (cnt ts) (sz ts)) as [Hc|Hc].
    - destruct (grow_eq ts w Hw) as (err & t & -> & Hh & Hn & Hv & Hwt & Ha).
      eexists _, _, _. split; [done|]. split_and!; try done.
      destruct (alloc_ok (allocs w)); [left|right; tauto].
      destruct Ha as [-> ->]. split; [done|]. rewrite Hn. unfold STACK_GROWTH. lia.
    - eexists _, _, _. split; [done|]. split_and!; try done. left. split; [done|]. unfold wf in Hw. lia. }
  clearbody grown. destruct Hg as (err & t & w' & -> & Hh & Hv & Hwt & Hcp & Hlg & [[-> Hlt]|[-> Ha]]).
  - destruct (wr_entry_push t (fun _ => set_entry ret tm rf (ts_branch_count t) c nc te) Hlt)
      as (e & t' & Ew & _ & Hv' & Hw' & Hh' & Hn).
    cbn. rewrite Ew. cbn. rewrite Hn. eexists _, _, _. split; [done|]. split_and!; try done.
    + change (hdr (set_cnt t' (S (cnt t)))) with (hdr t'). congruence.
    + left. split; [done|]. rewrite Hv', Hv. by injection Hh as _ -> _ _ _ _ _ _.
  - eexists _, _, _. split; [reflexivity|]. split_and!; try done. right. done.
Qed.

(** ** Outcomes *)

Definition entry_ok (w : world) (e : thread_stack_entry) : Prop :=
  exists n, cp e = Some n /\ (n < length (paths (cpr w)))%nat.

(** A stack whose entries have call paths. *)
Definition st_ok (w : world) (ts : thread_stack) : Prop :=
  cpr_ok (cpr w) /\ wf ts /\ Forall (entry_ok w) (vis ts).

(** Call paths and reports are never taken back. *)
Definition w_le (w w' : world) : Prop :=
  paths (cpr w) `prefix_of` paths (cpr w') /\ log w `prefix_of` log w'.

#[local] Instance w_le_preorder : PreOrder w_le.
Proof.
  split; [by split|]. intros a b c [H1 H2] [H3 H4]. split; by etrans.
Qed.

Definition keeps (ts ts' : thread_stack) : Prop :=
  crp ts' = crp ts /\ arr_sz ts' = arr_sz ts /\ kernel_start ts' = kernel_start ts.

#[local] Instance keeps_preorder : PreOrder keeps.
Proof.
  split; [by split|]. intros a b c (? & ? & ?) (? & ? & ?). split_and!; congruence.
Qed.

Lemma hdr_keeps ts ts' : hdr ts' = hdr ts -> keeps ts ts'.
Proof. unfold hdr, keeps. intros [=]. done. Qed.

(** No access outside the arrays, and the invariant holds afterwards. *)
Definition safe (w : world) (ts : thread_stack) (m : option (Z * thread_stack * world))
    (Q : Z -> thread_stack -> world -> Prop) : Prop :=
  exists err ts' w', m = Some (err, ts', w') /\ st_ok w' ts' /\ w_le w w' /\ keeps ts ts' /\
    Q err ts' w'.

Lemma safe_intro w ts m err ts' w' (Q : Z -> thread_stack -> world -> Prop) :
  m = Some (err, ts', w') -> st_ok w' ts' -> w_le w w' -> keeps ts ts' -> Q err ts' w' -> safe w ts m Q.
Proof. intros. by exists err, ts', w'. Qed.

Lemma ts_safe_bind w ts m k (Q R : Z -> thread_stack -> world -> Prop) :
  safe w ts m Q ->
  (forall err ts' w', st_ok w' ts' -> w_le w w' -> keeps ts ts' -> Q err ts' w' ->
     safe w' ts' (k (err, ts', w')) R) ->
  safe w ts (m ≫= k) R.
Proof.
  intros (err & ts1 & w1 & -> & Hok & Hle & Hk & HQ) Hkk.
  destruct (Hkk _ _ _ Hok Hle Hk HQ) as (err2 & ts2 & w2 & E & Hok2 & Hle2 & Hk2 & HR).
  exists err2, ts2, w2. split_and!; try done; by etrans.
Qed.

Lemma safe_ret w ts err (Q : Z -> thread_stack -> world -> Prop) :
  st_ok w ts -> Q err ts w -> safe w ts (Some (err, ts, w)) Q.
Proof. intros. by exists err, ts, w. Qed.

Lemma safe_weaken w ts m (Q R : Z -> thread_stack -> world -> Prop) :
  safe w ts m Q -> (forall err ts' w', Q err ts' w' -> R err ts' w') -> safe w ts m R.
Proof. intros (err & ts1 & w1 & -> & ? & ? & ? & ?) HR. exists err, ts1, w1. eauto 10. Qed.

(** A stack that stands for another with the same frame. *)
Lemma safe_from w ts ts0 m Q : keeps ts0 ts -> safe w ts m Q -> safe w ts0 m Q.
Proof.
  intros Hk (err & ts1 & w1 & -> & ? & ? & ? & ?). exists err, ts1, w1. split_and!; try done. by etrans.
Qed.

Lemma safe_le w0 w ts m Q : w_le w0 w -> safe w ts m Q -> safe w0 ts m Q.
Proof.
  intros Hk (err & ts1 & w1 & -> & ? & ? & ? & ?). exists err, ts1, w1. split_and!; try done. by etrans.
Qed.

Lemma entry_ok_le w w' e : w_le w w' -> entry_ok w e -> entry_ok w' e.
Proof.
  intros [Hp _] (n & Hn & Hlt). exists n. split; [done|]. apply prefix_length in Hp. lia.
Qed.

Lemma st_ok_le w w' ts : w_le w w' -> cpr_ok (cpr w') -> st_ok w ts -> st_ok w' ts.
Proof.
  intros Hle Hc (_ & Hw & Hf). split_and!; try done.
  eapply Forall_impl; [exact Hf|]. intros e. by apply entry_ok_le.
Qed.

Lemma st_ok_same w ts ts' : stack ts' = stack ts -> cnt ts' = cnt ts -> st_ok w ts -> st_ok w ts'.
Proof. unfold st_ok, vis, wf, sz. by intros -> ->. Qed.

Lemma st_ok_set_cnt w ts n : (n <= cnt ts)%nat -> st_ok w ts -> st_ok w (set_cnt ts n).
Proof.
  intros Hn (Hc & Hw & Hf). split_and!; [done|by apply wf_set_cnt|].
  rewrite vis_set_cnt by done. by apply Forall_take.
Qed.

Lemma rd_ok w ts i : st_ok w ts -> (i < cnt ts)%nat ->
  exists e, rd_entry ts i = Some e /\ entry_ok w e.
Proof.
  intros (_ & Hw & Hf) Hi. rewrite <- vis_length in Hi by done.
  destruct (lookup_lt_is_Some_2 _ _ Hi) as [e He]. exists e.
  split; [by apply rd_entry_some|]. by eapply Forall_lookup_1.
Qed.

Lemma top_ok w ts k : st_ok w ts -> (1 <= k <= cnt ts)%nat ->
  exists e, top_entry ts k = Some e /\ entry_ok w e.
Proof.
  intros Hok Hk. unfold top_entry.
  replace (cnt ts <? k)%nat with false by (symmetry; apply Nat.ltb_ge; lia).
  apply rd_ok; [done|lia].
Qed.

Lemma entry_path_ok w e : entry_ok w e -> exists p, entry_path w e = Some p.
Proof.
  intros (n & Hn & Hlt). unfold entry_path. rewrite Hn. simpl. by apply lookup_lt_is_Some.
Qed.

Lemma vis_snoc ts : wf ts -> cnt ts <> 0%nat -> exists v e, vis ts = v ++ [e].
Proof.
  intros Hw Hc. destruct (exists_last (l := vis ts)) as (v & e & ->); [|by eauto].
  intros Hv. by rewrite <- vis_length, Hv in Hc.
Qed.

Lemma cpr_ok_pos r : cpr_ok r -> (0 < length (paths r))%nat.
Proof. intros Hok. destruct (ok_root r Hok) as [p Hp]. by eapply lookup_lt_Some. Qed.

Lemma find_path_ok w ts pa s i ks :
  st_ok w ts -> (pa < length (paths (cpr w)))%nat ->
  exists c w', find_path alloc_ok w (Some pa) s i ks = Some (c, w') /\ st_ok w' ts /\ w_le w w' /\
    log w' = log w /\ match c with Some n => (n < length (paths (cpr w')))%nat | None => True end.
Proof.
  intros Hok Hpa. unfold find_path.
  destruct (findnew_spec alloc_ok (cpr w) (allocs w) pa s i ks (proj1 Hok) Hpa)
    as (c & r & a & -> & Hr & Hpre & Hc).
  eexists _, _. split; [done|]. cbn [cpr log].
  assert (w_le w (World r (log w) a)) by done. split_and!; try done.
  - by apply (st_ok_le w).
  - destruct c; [|done]. destruct Hc as (p & Hp & _). by eapply lookup_lt_Some.
Qed.

(** ** Every operation is safe *)

Lemma entry_ok_upd_last w id v : Forall (entry_ok w) v -> Forall (entry_ok w) (upd_last id v).
Proof. intros Hv. by apply Forall_alter. Qed.

Lemma upd_last_length id v : length (upd_last id v) = length v.
Proof. apply length_alter. Qed.

Lemma pop_return_safe w ts tm rf nr :
  st_ok w ts -> cnt ts <> 0%nat ->
  safe w ts (pop_return process ts w tm rf nr)
    (fun _ ts' w' => S (cnt ts') = cnt ts /\ rstate ts' = rstate ts).
Proof.
  intros (Hc & Hw & Hf) Hn. destruct (vis_snoc ts Hw Hn) as (v & e & Hv).
  destruct (pop_return_eq ts w v e tm rf nr Hw Hv) as (ts' & -> & Hw' & Hv' & Hh).
  rewrite Hv in Hf. apply Forall_app in Hf as [Hf _].
  eapply safe_intro; [reflexivity|..].
  - split_and!; [done..|]. rewrite Hv'. by apply entry_ok_upd_last.
  - split; [done|]. by eexists.
  - by apply hdr_keeps.
  - split; [|by injection Hh].
    rewrite <- (vis_length ts'), <- (vis_length ts), Hv, Hv', upd_last_length, length_app by done.
    simpl. lia.
Qed.

Lemma push_cp_safe w ts ret tm rf c nc te :
  st_ok w ts -> match c with Some n => (n < length (paths (cpr w)))%nat | None => True end ->
  safe w ts (thread_stack__push_cp alloc_ok junk ts w ret tm rf c nc te)
    (fun err ts' w' => (err = 0 -> cnt ts' = S (cnt ts) /\ is_Some c) /\ rstate ts' = rstate ts).
Proof.
  intros Hok Hc. destruct c as [c|]; [|by apply safe_ret]. pose proof Hok as (Hcp & Hw & Hf).
  destruct (push_cp_eq ts w ret tm rf c nc te Hw) as (err & ts' & w' & -> & Hw' & Hh & Hcpr & Hlog & Hcase).
  eapply safe_intro; [reflexivity|..].
  - unfold st_ok, entry_ok. rewrite Hcpr. split_and!; [done..|].
    destruct Hcase as [[_ ->]|(_ & -> & _)]; [|done]. apply Forall_app. split; [done|].
    constructor; [|done]. by exists c.
  - unfold w_le. by rewrite Hcpr, Hlog.
  - by apply hdr_keeps.
  - split; [|by injection Hh].
    destruct Hcase as [[-> Hv]|(-> & _)]; [|done]. intros _. split; [|done].
    by rewrite <- (vis_length ts'), <- (vis_length ts), Hv, length_app, Nat.add_1_r.
Qed.

Lemma safe_if (b : bool) w ts m1 m2 Q :
  (b = true -> safe w ts m1 Q) -> (b = false -> safe w ts m2 Q) -> safe w ts (if b then m1 else m2) Q.
Proof. destruct b; auto. Qed.

Lemma pop_above_safe n w ts tm rf :
  st_ok w ts -> (n <= cnt ts)%nat ->
  safe w ts (pop_above process n ts w tm rf) (fun err ts' w' => err = 0 -> cnt ts' = (cnt ts - n)%nat).
Proof.
  revert w ts. induction n as [|n IH]; intros w ts Hok Hn; simpl.
  { apply safe_ret; [done|]. intros _. lia. }
  eapply ts_safe_bind; [apply pop_return_safe; [done|lia]|].
  intros err ts' w' Hok' _ _ [Hc _]. simpl. apply safe_if; [intros _|].
  - eapply safe_weaken; [apply IH; [done|lia]|]. simpl. intros ? ? ? Hx Hz. rewrite Hx by done. lia.
  - intros He%Z.eqb_neq. by apply safe_ret.
Qed.

Lemma flush_entries_safe n w ts :
  st_ok w ts -> cnt ts = n ->
  safe w ts (flush_entries process n ts w) (fun _ ts' _ => cnt ts' = 0%nat /\ rstate ts' = rstate ts).
Proof.
  revert w ts. induction n as [|n IH]; intros w ts Hok Hn; simpl; [by apply safe_ret|].
  eapply ts_safe_bind; [apply pop_return_safe; [done|lia]|].
  intros err ts' w' Hok' _ _ [Hc Hr]. simpl. apply safe_if; intros _.
  - eapply safe_weaken; [apply IH; [done|lia]|]. simpl. intros ? ? ? [? ?]. split; congruence.
  - apply (safe_from w' (set_cnt ts' 0)); [done|]. apply safe_ret; [|done].
    apply st_ok_set_cnt; [lia|done].
Qed.

Lemma flush_safe w ts :
  st_ok w ts ->
  safe w ts (__thread_stack__flush process ts w) (fun _ ts' _ => cnt ts' = 0%nat /\ rstate ts' = rstate ts).
Proof.
  intros Hok. unfold __thread_stack__flush. apply safe_if; intros _; [by apply flush_entries_safe|].
  apply (safe_from w (set_cnt ts 0)); [done|]. apply safe_ret; [|done].
  apply st_ok_set_cnt; [lia|done].
Qed.

Lemma find_return_ok w ts ret i :
  st_ok w ts -> (i <= cnt ts)%nat ->
  exists r, find_return ts ret i = Some r /\ forall j, r = Some j -> (j < i)%nat.
Proof.
  intros Hok. induction i as [|i IH]; intros Hi; simpl; [by exists None|].
  destruct (rd_ok w ts i Hok) as (e & -> & _); [lia|]. simpl.
  destruct (negb (ret_addr e =? ret) || non_call e); [|exists (Some i); split; [done|]; intros j [= ->]; lia].
  destruct IH as (r & -> & Hr); [lia|]. exists r. split; [done|]. intros j Hj. apply Hr in Hj. lia.
Qed.

(** A read of an entry in use. *)
Lemma safe_rd w ts i k Q :
  st_ok w ts -> (i < cnt ts)%nat ->
  (forall e, entry_ok w e -> safe w ts (k e) Q) -> safe w ts (rd_entry ts i ≫= k) Q.
Proof. intros Hok Hi Hk. destruct (rd_ok w ts i Hok Hi) as (e & -> & He). by apply Hk. Qed.

Lemma safe_top w ts n k Q :
  st_ok w ts -> (1 <= n <= cnt ts)%nat ->
  (forall e, entry_ok w e -> safe w ts (k e) Q) -> safe w ts (top_entry ts n ≫= k) Q.
Proof. intros Hok Hi Hk. destruct (top_ok w ts n Hok Hi) as (e & -> & He). by apply Hk. Qed.

Lemma safe_path w ts e k Q :
  entry_ok w e -> (forall p, safe w ts (k p) Q) -> safe w ts (entry_path w e ≫= k) Q.
Proof. intros He Hk. destruct (entry_path_ok w e He) as (p & ->). apply Hk. Qed.

Lemma safe_find w ts c s i ks k Q :
  st_ok w ts -> (exists pa, c = Some pa /\ (pa < length (paths (cpr w)))%nat) ->
  (forall c' w', st_ok w' ts -> w_le w w' ->
     match c' with Some n => (n < length (paths (cpr w')))%nat | None => True end ->
     safe w' ts (k (c', w')) Q) ->
  safe w ts (find_path alloc_ok w c s i ks ≫= k) Q.
Proof.
  intros Hok (pa & -> & Hpa) Hk.
  destruct (find_path_ok w ts pa s i ks Hok Hpa) as (c' & w' & -> & Hok' & Hle & _ & Hc).
  apply (safe_le w w' ts); [done|]. by apply (Hk c' w').
Qed.

Lemma root_ok w ts : st_ok w ts -> exists pa, Some 0%nat = Some pa /\ (pa < length (paths (cpr w)))%nat.
Proof. intros (Hc & _). exists 0%nat. split; [done|]. by apply cpr_ok_pos. Qed.

Lemma pop_cp_safe w ts ret tm rf sym :
  st_ok w ts -> safe w ts (thread_stack__pop_cp process ts w ret tm rf sym) (fun _ _ _ => True).
Proof.
  intros Hok. unfold thread_stack__pop_cp.
  apply safe_if; [intros _; by apply safe_ret|]. intros Hc%Nat.eqb_neq.
  assert (Hp : forall nr, safe w ts (pop_return process ts w tm rf nr) (fun _ _ _ => True)).
  { intros nr. eapply safe_weaken; [by apply pop_return_safe|done]. }
  set (only := if (cnt ts =? 1)%nat then _ else _).
  assert (Ho : exists b, only = Some b).
  { unfold only. destruct (cnt ts =? 1)%nat; [|by eexists].
    destruct (rd_ok w ts 0 Hok) as (e & -> & He); [lia|]. simpl.
    destruct (entry_path_ok w e He) as (p & ->). by eexists. }
  clearbody only. destruct Ho as [b ->]. simpl. apply safe_if; intros _; [done|].
  apply safe_top; [done|lia|]. intros e He. simpl. apply safe_if; intros _; [done|].
  destruct (find_return_ok w ts ret (cnt ts - 1) Hok) as (r & -> & Hr); [lia|]. simpl.
  destruct r as [i|]; [|by apply safe_ret]. specialize (Hr i eq_refl).
  eapply ts_safe_bind; [apply pop_above_safe; [done|lia]|].
  intros err ts' w' Hok' _ _ Hcnt. simpl. apply safe_if; intros He0; [|by apply safe_ret].
  apply Z.eqb_eq in He0. specialize (Hcnt He0).
  eapply safe_weaken; [apply pop_return_safe; [done|lia]|done].
Qed.

Lemma bottom_safe w ts sm fa ta rf :
  st_ok w ts ->
  safe w ts (thread_stack__bottom alloc_ok junk ts w sm fa ta rf)
    (fun err ts' _ => rstate ts' = rstate ts /\
       (err = 0 -> cnt ts' = S (cnt ts) \/ ip sm = 0 /\ s_addr sm = 0)).
Proof.
  intros Hok. unfold thread_stack__bottom.
  assert (Hp : forall i s, safe w ts
    ('(c, w) ← find_path alloc_ok w (Some 0%nat) s i (kernel_start ts);
     thread_stack__push_cp alloc_ok junk ts w i (time sm) rf c true false)
    (fun err ts' _ => rstate ts' = rstate ts /\
       (err = 0 -> cnt ts' = S (cnt ts) \/ ip sm = 0 /\ s_addr sm = 0))).
  { intros i s. apply safe_find; [done|by eapply root_ok|]. intros c w' Hok' _ Hc.
    eapply safe_weaken; [by apply push_cp_safe|]. simpl. intros ? ? ? [H1 H2]. split; [done|].
    intros He. left. by apply H1. }
  apply safe_if; [done|]. intros Hi%negb_false_iff%Z.eqb_eq.
  apply safe_if; [done|]. intros Ha%negb_false_iff%Z.eqb_eq.
  apply safe_ret; [done|]. auto.
Qed.

Lemma in_kernel_ok w ts : st_ok w ts ->
  exists b, thread_stack__in_kernel ts w = Some b /\ (b = true -> cnt ts <> 0%nat).
Proof.
  intros Hok. unfold thread_stack__in_kernel.
  destruct (Nat.eqb_spec (cnt ts) 0) as [|Hc]; [by exists false|].
  destruct (top_ok w ts 1 Hok) as (e & -> & He); [lia|]. simpl.
  destruct (entry_path_ok w e He) as (p & ->). by eexists.
Qed.

Lemma pop_kernel_safe n w ts tm rf :
  st_ok w ts -> safe w ts (pop_kernel process n ts w tm rf) (fun _ _ _ => True).
Proof.
  revert w ts. induction n as [|n IH]; intros w ts Hok; simpl;
    destruct (in_kernel_ok w ts Hok) as (b & -> & Hb); simpl;
    (destruct b; [|by apply safe_ret]); [by apply safe_ret|].
  eapply ts_safe_bind; [apply pop_return_safe; auto|].
  intros err ts' w' Hok' _ _ _. simpl. apply safe_if; intros _; [by apply IH|by apply safe_ret].
Qed.

Lemma mark_non_call_safe w ts err :
  st_ok w ts -> cnt ts <> 0%nat ->
  safe w ts (ts ← mark_non_call ts; Some (err, ts, w)) (fun _ _ _ => True).
Proof.
  intros (Hc & Hw & Hf) Hn. unfold mark_non_call.
  destruct (cnt ts) as [|i] eqn:Ec; [done|].
  destruct (lookup_lt_is_Some_2 (vis ts) i) as [e He]; [rewrite vis_length; [lia|done]|].
  destruct (wr_entry_vis ts i e set_non_call Hw He) as (ts' & -> & Hv & Hw' & Hh & _).
  eapply safe_intro; [reflexivity|..|done].
  - split_and!; [done..|]. rewrite Hv. apply Forall_insert; [done|].
    rewrite Forall_lookup in Hf. destruct (Hf _ _ He) as (n & Hn' & Hlt). by exists n.
  - done.
  - by apply hdr_keeps.
Qed.

(** A call path is found or made and an entry for it pushed. *)
Lemma find_push_safe w ts c s i ks ret tm rf nc te :
  st_ok w ts -> (exists pa, c = Some pa /\ (pa < length (paths (cpr w)))%nat) ->
  safe w ts ('(c, w) ← find_path alloc_ok w c s i ks;
             thread_stack__push_cp alloc_ok junk ts w ret tm rf c nc te)
    (fun err ts' _ => err = 0 -> cnt ts' = S (cnt ts)).
Proof.
  intros Hok Hc. apply safe_find; [done..|]. intros c' w' Hok' _ Hc'.
  eapply safe_weaken; [by apply push_cp_safe|]. simpl. intros ? ? ? [Hx _] He. by apply Hx.
Qed.

(** The same with the mark of a branch that is no call. *)
Lemma find_push_mark_safe w ts c s i ks ret tm rf nc te :
  st_ok w ts -> (exists pa, c = Some pa /\ (pa < length (paths (cpr w)))%nat) ->
  safe w ts ('(c, w) ← find_path alloc_ok w c s i ks;
             '(err, ts, w) ← thread_stack__push_cp alloc_ok junk ts w ret tm rf c nc te;
             if err =? 0 then ts ← mark_non_call ts; Some (err, ts, w) else Some (err, ts, w))
    (fun _ _ _ => True).
Proof.
  intros Hok Hc. apply safe_find; [done..|]. intros c' w' Hok' _ Hc'.
  eapply ts_safe_bind; [by apply push_cp_safe|]. intros err ts' w2 Hok2 _ _ [Hx _].
  simpl. apply safe_if; intros He; [|by apply safe_ret].
  apply Z.eqb_eq in He. apply mark_non_call_safe; [done|]. destruct Hx as [-> _]; [done|lia].
Qed.

Lemma top_path_ok w ts : st_ok w ts ->
  exists pa, top_path ts = Some (Some pa) /\ (pa < length (paths (cpr w)))%nat.
Proof.
  intros Hok. unfold top_path. destruct (Nat.eqb_spec (cnt ts) 0) as [|Hc].
  { exists 0%nat. split; [done|]. apply cpr_ok_pos, Hok. }
  destruct (top_ok w ts 1 Hok) as (e & -> & n & Hn & Hlt); [lia|]. simpl. rewrite Hn. by exists n.
Qed.

Lemma no_call_push_safe w ts sm fa ta rf :
  st_ok w ts -> safe w ts (no_call_push alloc_ok junk process ts w sm fa ta rf) (fun _ _ _ => True).
Proof.
  intros Hok. unfold no_call_push.
  destruct (top_path_ok w ts Hok) as (pa & -> & Hpa). cbn [mbind option_bind].
  destruct (lookup_lt_is_Some_2 _ _ Hpa) as [p Hp]. rewrite Hp. cbn [mbind option_bind].
  apply safe_if; intros _.
  - apply ts_safe_bind with (Q := fun _ ts' w' => (pa < length (paths (cpr w')))%nat).
    + apply safe_if; [intros H1%Nat.eqb_eq|intros _; by apply safe_ret].
      destruct (pop_return_safe w ts (time sm) rf false Hok) as (err & ts' & w' & E & Ho & Hle & Hk & _); [lia|].
      eapply safe_intro; [exact E|done..|]. destruct Hle as [Hpre _]. apply prefix_length in Hpre. lia.
    + intros err ts' w' Hok' Hle Hk Hpa'. cbn [mbind option_bind].
      apply safe_if; intros _; [by apply safe_ret|]. apply safe_if; intros _.
      * eapply safe_weaken; [apply find_push_safe; [done|by eapply root_ok]|done].
      * apply find_push_mark_safe; [done|by exists pa].
  - apply safe_find; [done|by exists pa|]. intros c w1 Hok1 _ Hc. cbn.
    eapply ts_safe_bind; [by apply push_cp_safe|]. intros err ts2 w2 Hok2 Hle2 _ [Hx _]. cbn.
    apply safe_if; intros He; [by apply safe_ret|].
    apply negb_false_iff, Z.eqb_eq in He. destruct (Hx He) as [_ [n ->]].
    apply safe_find; [done|..].
    { exists n. split; [done|]. destruct Hle2 as [Hpre _]. apply prefix_length in Hpre. lia. }
    intros c3 w3 Hok3 _ Hc3. cbn.
    eapply ts_safe_bind; [by apply push_cp_safe|]. intros err4 ts4 w4 Hok4 _ _ [Hx4 _]. cbn.
    apply safe_if; intros He4; [by apply safe_ret|].
    apply negb_false_iff, Z.eqb_eq in He4. destruct (Hx4 He4) as [Hc4 _].
    eapply safe_weaken; [apply pop_return_safe; [done|lia]|done].
Qed.

Lemma no_call_return_safe w ts sm fa ta rf :
  st_ok w ts ->
  safe w ts (thread_stack__no_call_return alloc_ok junk process ts w sm fa ta rf) (fun _ _ _ => True).
Proof.
  intros Hok. unfold thread_stack__no_call_return. apply safe_if; intros _.
  - eapply ts_safe_bind; [by apply pop_kernel_safe|]. intros err ts' w' Hok' _ _ _. cbn.
    apply safe_if; intros _; [by apply safe_ret|]. apply safe_if; intros _.
    + eapply safe_weaken; [apply find_push_safe; [done|by eapply root_ok]|done].
    + by apply no_call_push_safe.
  - destruct (in_kernel_ok w ts Hok) as (b & -> & _). cbn [mbind option_bind].
    apply safe_if; intros _; [|by apply no_call_push_safe].
    eapply ts_safe_bind; [by apply pop_kernel_safe|]. intros err ts' w' Hok' _ _ _. cbn.
    apply safe_if; intros _; [by apply safe_ret|by apply no_call_push_safe].
Qed.

Lemma trace_begin_safe w ts tm rf :
  st_ok w ts -> safe w ts (thread_stack__trace_begin process ts w tm rf) (fun _ _ _ => True).
Proof.
  intros Hok. unfold thread_stack__trace_begin. apply safe_if; [intros _; by apply safe_ret|].
  intros Hc%Nat.eqb_neq. apply safe_top; [done|lia|]. intros e _.
  apply safe_if; intros _; [|by apply safe_ret]. eapply safe_weaken; [by apply pop_return_safe|done].
Qed.

Lemma trace_end_safe w ts sm rf :
  st_ok w ts -> safe w ts (thread_stack__trace_end alloc_ok junk ts w sm rf) (fun _ _ _ => True).
Proof.
  intros Hok. unfold thread_stack__trace_end. apply safe_if; [intros _; by apply safe_ret|].
  intros Hc%Nat.eqb_neq.
  set (stop := if (cnt ts =? 1)%nat then _ else _).
  assert (Ho : exists b, stop = Some b).
  { unfold stop. destruct (cnt ts =? 1)%nat; [|by eexists].
    destruct (rd_ok w ts 0 Hok) as (e & -> & He); [lia|]. by eexists. }
  clearbody stop. destruct Ho as [b ->]. cbn [mbind option_bind].
  apply safe_if; intros _; [by apply safe_ret|].
  apply safe_top; [done|lia|]. intros e He. eapply safe_weaken; [by apply find_push_safe|done].
Qed.

Lemma replace_top_safe w ts sm tsym :
  st_ok w ts -> (2 <= cnt ts)%nat -> safe w ts (replace_top alloc_ok ts w sm tsym) (fun _ _ _ => True).
Proof.
  intros Hok Hn. unfold replace_top. apply safe_top; [done|lia|]. intros e He.
  apply safe_find; [done..|]. intros c w' Hok' _ Hc. cbn.
  destruct c as [c|]; [|by apply safe_ret]. destruct Hok' as (Hcp & Hw & Hf).
  destruct (cnt ts) as [|i] eqn:Ec; [lia|].
  destruct (lookup_lt_is_Some_2 (vis ts) i) as [d Hd]; [rewrite vis_length; [lia|done]|].
  destruct (wr_entry_vis ts i d (set_cp c) Hw Hd) as (ts' & -> & Hv & Hw' & Hh & _).
  eapply safe_intro; [reflexivity|..|done]; [|done|by apply hdr_keeps].
  split_and!; [done..|]. rewrite Hv. apply Forall_insert; [done|]. by exists c.
Qed.

Lemma dec_cnt_safe w ts err :
  st_ok w ts -> safe w ts (Some (err, dec_cnt ts, w)) (fun _ _ _ => True).
Proof.
  intros Hok. eapply safe_intro; [reflexivity|..]; try done. apply st_ok_set_cnt; [lia|done].
Qed.

Lemma x86_retpoline_safe w ts sm ta :
  st_ok w ts -> (2 < cnt ts)%nat ->
  safe w ts (thread_stack__x86_retpoline alloc_ok sym_start sym_name ts w sm ta) (fun _ _ _ => True).
Proof.
  intros Hok Hn. unfold thread_stack__x86_retpoline. apply safe_top; [done|lia|]. intros e He.
  apply safe_path; [done|]. intros p. apply safe_if; intros _.
  - assert (Hok' : st_ok w (dec_cnt ts)) by (apply st_ok_set_cnt; [lia|done]).
    assert (Hc : cnt (dec_cnt ts) = (cnt ts - 1)%nat) by done.
    apply (safe_from w (dec_cnt ts)); [done|].
    apply safe_top; [done|lia|]. intros d Hd. apply safe_path; [done|]. intros q.
    apply safe_if; intros _; [by apply dec_cnt_safe|]. apply replace_top_safe; [done|lia].
  - apply safe_if; intros _; [by apply dec_cnt_safe|]. apply replace_top_safe; [done|lia].
Qed.

(** A branch from nowhere to nowhere (both addresses 0, as of a sample that lost
    them) has no symbol where it goes to. *)
Definition sample_ok (sm : branch_sample) (ta : addr_location) : Prop :=
  ip sm = 0 -> s_addr sm = 0 -> al_sym ta = 0.

Lemma process_branch_safe w ts sm fa ta rf rst :
  st_ok w ts -> (cnt ts <> 0%nat \/ ip sm = 0 /\ s_addr sm = 0) -> sample_ok sm ta ->
  safe w ts (process_branch alloc_ok junk process sym_start sym_name ts w sm fa ta rf rst) (fun _ _ _ => True).
Proof.
  intros Hok Hb Hs. unfold process_branch. apply safe_if; intros _.
  { apply safe_if; [intros _; by apply safe_ret|]. intros [Hi Ha]%orb_false_iff.
    apply Z.eqb_neq in Hi, Ha. assert (cnt ts <> 0%nat) by tauto.
    apply safe_if; intros _; [by apply safe_ret|]. apply safe_top; [done|lia|]. intros e He.
    apply safe_find; [done..|]. intros c w' Hok' _ Hc. cbn.
    eapply ts_safe_bind; [by apply push_cp_safe|]. intros err ts2 w2 Hok2 _ _ _. cbn.
    apply safe_if; intros _; [|by apply safe_ret].
    eapply safe_intro; [reflexivity|..]; try done. }
  apply safe_if; intros _.
  { apply safe_if; intros _; [by apply safe_ret|].
    set (thunk := if bool_decide (rst = X86_RETPOLINE_DETECTED) && _ then _ else _).
    assert (Ht : exists b, thunk = Some b /\ (b = true -> (2 < cnt ts)%nat)).
    { unfold thunk. destruct (bool_decide _); [|by exists false]. simpl.
      destruct (Nat.ltb_spec 2 (cnt ts)); [|by exists false].
      destruct (top_ok w ts 1 Hok) as (e & -> & _); [lia|]. by eexists. }
    clearbody thunk. destruct Ht as (b & -> & Hn). cbn [mbind option_bind].
    apply safe_if; intros Hb'; [apply x86_retpoline_safe; auto|].
    eapply ts_safe_bind; [by apply pop_cp_safe|]. intros err ts2 w2 Hok2 _ _ _. cbn.
    apply safe_if; intros _; [by apply safe_ret|by apply no_call_return_safe]. }
  apply safe_if; intros _; [by apply trace_begin_safe|].
  apply safe_if; intros _; [by apply trace_end_safe|].
  apply safe_if; [|intros _; by apply safe_ret].
  intros [[[_ _]%andb_true_iff Hsym]%andb_true_iff _]%andb_true_iff.
  apply negb_true_iff, Z.eqb_neq in Hsym.
  assert (cnt ts <> 0%nat) by (destruct Hb as [|[Hi Ha]]; [done|by destruct Hsym; apply Hs]). apply safe_top; [done|lia|]. intros e He.
  by apply find_push_mark_safe.
Qed.

Lemma process_on_safe w ts b cm sm fa ta rf :
  st_ok w ts -> sample_ok sm ta ->
  safe w ts (process_on alloc_ok junk process sym_start sym_name ts w b cm sm fa ta rf) (fun _ _ _ => True).
Proof.
  intros Hok Hs. unfold process_on.
  set (t1 := if bool_decide _ then _ else _).
  assert (Ht : st_ok w t1 /\ keeps ts t1) by (unfold t1; by destruct (bool_decide _)).
  destruct Ht as [Hok1 Hk1]. clearbody t1. apply (safe_from w t1 ts); [done|].
  apply ts_safe_bind with (Q := fun _ _ _ => True).
  { apply safe_if; intros _; [|by apply safe_ret].
    eapply ts_safe_bind; [by apply flush_safe|]. intros err ts2 w2 Hok2 _ _ _. cbn.
    apply safe_if; intros _; [|by apply safe_ret].
    eapply safe_intro; [reflexivity|..]; try done. }
  intros err ts2 w2 Hok2 _ _ _. cbn [mbind option_bind]. apply safe_if; intros _; [by apply safe_ret|].
  apply ts_safe_bind with (Q := fun err ts _ => err = 0 -> cnt ts <> 0%nat \/ ip sm = 0 /\ s_addr sm = 0).
  { apply safe_if; [intros _|intros Hc%Nat.eqb_neq; apply safe_ret; auto].
    eapply safe_weaken; [by apply bottom_safe|]. simpl. intros ? ? ? [_ Hx] He.
    destruct (Hx He) as [->|]; auto. }
  intros err3 ts3 w3 Hok3 _ _ Hb. cbn [mbind option_bind].
  apply safe_if; intros He; [by apply safe_ret|]. apply negb_false_iff, Z.eqb_eq in He.
  apply (safe_from w3 (count_branch ts3 (time sm))); [done|].
  apply process_branch_safe; [done|by apply Hb|done].
Qed.

(** ** The array of stacks *)

Definition ts_ok (w : world) (ts : thread_stack) : Prop :=
  wf ts /\ (crp ts = true -> Forall (entry_ok w) (vis ts)).

Definition arr_ok (l : list thread_stack) : Prop := exists t k, l = t :: k /\ arr_sz t = length l.

Definition th_ok (w : world) (th : thread) : Prop :=
  cpr_ok (cpr w) /\ forall l, tss th = Some l -> arr_ok l /\ Forall (ts_ok w) l.

(** Where the stack for a cpu is. *)
Definition slot (th : thread) (cpu : Z) : nat := if thread_stack__per_cpu th then Z.to_nat cpu else 0.

Definition same_thread (th th' : thread) : Prop :=
  tid th' = tid th /\ pid_ th' = pid_ th /\ machine th' = machine th.

Lemma same_thread_slot th th' cpu : same_thread th th' -> slot th' cpu = slot th cpu.
Proof. unfold slot, thread_stack__per_cpu. by intros (-> & -> & _). Qed.

Lemma zero_ts_ok w n : ts_ok w (set_arr_sz zero_ts n).
Proof. split; [|done]. unfold wf. simpl. lia. Qed.

Lemma vis_no_stack t : stack t = None -> vis t = [].
Proof. unfold vis. intros ->. apply take_nil. Qed.

Lemma ts_ok_st w t : cpr_ok (cpr w) -> ts_ok w t -> crp t = true -> st_ok w t.
Proof. intros Hc [Hw Hf] Ht. split_and!; auto. Qed.

Lemma st_ok_ts w t : st_ok w t -> ts_ok w t.
Proof. intros (_ & Hw & Hf). by split. Qed.

Lemma ts_ok_le w w' t : w_le w w' -> ts_ok w t -> ts_ok w' t.
Proof.
  intros Hle [Hw Hf]. split; [done|]. intros Hc. eapply Forall_impl; [by apply Hf|].
  intros e. by apply entry_ok_le.
Qed.

Lemma get_put_eq th pos t ts : get_ts th pos = Some t -> get_ts (put_ts th pos ts) pos = Some ts.
Proof.
  unfold get_ts, put_ts. destruct (tss th) as [l|]; simpl; [|done]. intros Ht%lookup_lt_Some.
  by apply list_lookup_insert_eq.
Qed.

Lemma get_put_ne th pos k ts : k <> pos -> get_ts (put_ts th pos ts) k = get_ts th k.
Proof.
  unfold get_ts, put_ts. destruct (tss th) as [l|]; simpl; [|done]. intros Hk.
  by apply list_lookup_insert_ne.
Qed.

Lemma put_ts_ok w w' th pos t ts :
  th_ok w th -> w_le w w' -> cpr_ok (cpr w') -> get_ts th pos = Some t -> ts_ok w' ts ->
  arr_sz ts = arr_sz t -> th_ok w' (put_ts th pos ts).
Proof.
  intros [_ Hl] Hle Hc Hg Hts Harr. split; [done|]. unfold put_ts, get_ts in *.
  destruct (tss th) as [l|]; simpl in *; [|done]. intros l' [= <-].
  destruct (Hl l eq_refl) as [(t0 & k & -> & Ht0) Hf]. split.
  - destruct pos as [|pos]; simpl in *.
    + injection Hg as <-. exists ts, k. split; [done|]. by rewrite Harr.
    + eexists t0, _. split; [done|]. simpl. by rewrite length_insert.
  - apply Forall_insert; [|done]. eapply Forall_impl; [exact Hf|]. intros x. by apply ts_ok_le.
Qed.

Lemma th_ok_le w w' th : w_le w w' -> cpr w' = cpr w -> th_ok w th -> th_ok w' th.
Proof.
  intros Hle Hc [Hok Hl]. split; [by rewrite Hc|]. intros l Htl. destruct (Hl l Htl) as [Harr Hf].
  split; [done|]. eapply Forall_impl; [exact Hf|]. intros t. by apply ts_ok_le.
Qed.

Lemma get_ts_ok w th pos ts : th_ok w th -> get_ts th pos = Some ts -> ts_ok w ts.
Proof.
  intros [_ Hl]. unfold get_ts. destruct (tss th) as [l|] eqn:El; [|done]. intros Hg.
  destruct (Hl l eq_refl) as [_ Hf]. by eapply Forall_lookup_1.
Qed.

Lemma thread_stack_slot w th cpu pos :
  th_ok w th -> thread__stack (Some th) cpu = Some pos ->
  pos = slot th cpu /\ exists ts, get_ts th pos = Some ts /\ ts_ok w ts.
Proof.
  intros [_ Hl]. unfold thread__stack, slot, thread__cpu_stack, get_ts.
  destruct (tss th) as [l|] eqn:Et; [|by destruct (thread_stack__per_cpu th)].
  destruct (Hl l eq_refl) as [(t & k & -> & Ht) Hf]. destruct (thread_stack__per_cpu th).
  - set (cpu' := if cpu <? 0 then 0 else cpu).
    assert (Hc : Z.to_nat cpu' = Z.to_nat cpu) by (unfold cpu'; destruct (Z.ltb_spec cpu 0); lia).
    rewrite Hc. destruct (Z.of_nat (arr_sz t) <=? cpu'); [done|].
    destruct ((t :: k) !! Z.to_nat cpu) as [ts|] eqn:El; [|done].
    destruct (stack ts); [|done]. intros [= <-]. split; [done|]. exists ts. split; [done|].
    by eapply Forall_lookup_1.
  - intros [= <-]. split; [done|]. exists t. split; [done|]. by apply Forall_inv in Hf.
Qed.

Lemma thread_stack_none w th cpu ts :
  th_ok w th -> thread__stack (Some th) cpu = None -> get_ts th (slot th cpu) = Some ts ->
  stack ts = None.
Proof.
  intros [_ Hl]. unfold thread__stack, slot, thread__cpu_stack, get_ts.
  destruct (tss th) as [l|] eqn:Et; [|done].
  destruct (Hl l eq_refl) as [(t & k & -> & Ht) Hf]. destruct (thread_stack__per_cpu th); [|done].
  set (cpu' := if cpu <? 0 then 0 else cpu).
  assert (Hc : Z.to_nat cpu' = Z.to_nat cpu /\ 0 <= cpu') by (unfold cpu'; destruct (Z.ltb_spec cpu 0); lia).
  destruct Hc as [Hc Hc0]. rewrite Hc. simpl mbind. intros Hn Hg. rewrite Hg in Hn.
  destruct (Z.leb_spec (Z.of_nat (arr_sz t)) cpu') as [Hle|Hlt].
  - apply lookup_lt_Some in Hg. lia.
  - by destruct (stack ts).
Qed.

Lemma roundup_above n : 0 < n -> n <= roundup_pow_of_two n.
Proof. intros Hn. unfold roundup_pow_of_two. apply Z.log2_log2_up_spec in Hn. lia. Qed.

(** The stacks of [th] in [l], but for the size kept in the first; others are
    empty. *)
Definition copied (th : thread) (l : list thread_stack) : Prop :=
  forall k t', l !! k = Some t' ->
    match get_ts th k with
    | Some t => t' = set_arr_sz t (arr_sz t')
    | None => stack t' = None
    end.

Lemma grow_array_ok w th new_sz old :
  th_ok w th -> old = default [] (tss th) -> (length old < new_sz)%nat ->
  let l := grow_array new_sz (length old) old in
  length l = new_sz /\ arr_ok l /\ Forall (ts_ok w) l /\ copied th l.
Proof.
  intros [_ Hl] -> Hlt. set (old := default [] (tss th)) in *.
  unfold grow_array. rewrite firstn_all.
  set (a := old ++ replicate _ _).
  assert (Ha : length a = new_sz) by (unfold a; rewrite length_app, length_replicate; lia).
  assert (Hf : Forall (ts_ok w) a).
  { apply Forall_app. split; [|apply Forall_replicate, (zero_ts_ok w 0)].
    unfold old. destruct (tss th) as [l|]; [|constructor]. by apply Hl. }
  assert (Hcp : forall k t', a !! k = Some t' ->
    match get_ts th k with Some t => t' = t | None => stack t' = None end).
  { intros k t' Hk. unfold get_ts. unfold a in Hk. apply lookup_app_Some in Hk as [Hk|[Hlen Hk]].
    - unfold old in Hk. destruct (tss th) as [l|]; simpl in *; [|done]. rewrite Hk. done.
    - apply lookup_replicate in Hk as [-> _].
      destruct (tss th) as [l|]; simpl in *; [|done]. by rewrite (lookup_ge_None_2 l). }
  destruct a as [|t a]; [simpl in Ha; lia|]. simpl. split_and!.
  - done.
  - exists (set_arr_sz t new_sz), a. split; [done|]. simpl. by rewrite <- Ha.
  - apply Forall_cons in Hf as [Ht Hf]. by constructor.
  - intros [|k] t'; simpl.
    + intros [= <-]. specialize (Hcp 0%nat t eq_refl). destruct (get_ts th 0) as [t0|]; [|done].
      by subst t.
    + intros Hk. specialize (Hcp (S k) t' Hk). destruct (get_ts th (S k)) as [t0|]; [|done].
      subst t'. by destruct t0.
Qed.

Lemma array_for_ok w th cpu :
  th_ok w th ->
  match array_for alloc_ok th cpu w with
  | (None, w') => cpr w' = cpr w /\ log w' = log w /\ alloc_ok (allocs w) = false
  | (Some l, w') => cpr w' = cpr w /\ log w' = log w /\ (slot th cpu < length l)%nat /\
      arr_ok l /\ Forall (ts_ok w) l /\ copied th l /\
      (forall k t, get_ts th k = Some t -> is_Some (l !! k))
  end.
Proof.
  intros Hth. unfold array_for.
  set (new_sz := if thread_stack__per_cpu th && (0 <? cpu) then _ else 1%nat).
  assert (Hs : (slot th cpu < new_sz)%nat).
  { unfold slot, new_sz. destruct (thread_stack__per_cpu th); simpl; [|lia].
    destruct (Z.ltb_spec 0 cpu); [|lia]. pose proof (roundup_above (cpu + 1) ltac:(lia)). lia. }
  clearbody new_sz.
  set (old := default [] (tss th)).
  assert (Ho : match tss th with Some (t :: _) => arr_sz t | _ => 0%nat end = length old).
  { unfold old. destruct (tss th) as [l|] eqn:Et; [|done].
    destruct (proj2 Hth l Et) as [(t & k & -> & Ht) _]. done. }
  rewrite Ho.
  destruct (match tss th with None => true | Some _ => (length old <? new_sz)%nat end) eqn:Eg.
  - assert (Hlt : (length old < new_sz)%nat).
    { unfold old in *. destruct (tss th); [by apply Nat.ltb_lt|]. simpl. lia. }
    destruct (alloc_ok (allocs w)) eqn:Ea; [|done].
    destruct (grow_array_ok w th new_sz old Hth eq_refl Hlt) as (Hl & Harr & Hf & Hcp).
    split_and!; try done; [lia|]. intros k t Hk. apply lookup_lt_is_Some. rewrite Hl.
    unfold get_ts in Hk. unfold old in Hlt. destruct (tss th); [|done]. simpl in *.
    apply lookup_lt_Some in Hk. lia.
  - destruct (tss th) as [l|] eqn:Et; [|done].
    destruct (proj2 Hth l Et) as [Harr Hf]. apply Nat.ltb_ge in Eg. change old with l in Eg.
    split_and!; try done; [lia|..]; unfold copied, get_ts; rewrite Et; simpl.
    + intros k t' Hk. rewrite Hk. by destruct t'.
    + intros k t Hk. by exists t.
Qed.

Lemma ts_init_ok w ts th p :
  wf ts -> stack ts = None ->
  exists err ts' w', thread_stack__init alloc_ok junk ts th p w = (err, ts', w') /\
    cpr w' = cpr w /\ log w' = log w /\ wf ts' /\ vis ts' = [] /\ arr_sz ts' = arr_sz ts /\
    ((err = 0 /\ crp ts' = p /\ is_Some (stack ts')) \/
     (err = - ENOMEM /\ alloc_ok (allocs w) = false /\ ts' = ts)).
Proof.
  intros Hw Hs. unfold thread_stack__init.
  destruct (grow_eq ts w Hw) as (err & t & -> & Hh & Hc & Hv & Hwt & Ha).
  rewrite (vis_no_stack ts Hs) in Hv. destruct (alloc_ok (allocs w)).
  - destruct Ha as [-> Hsz]. assert (Hst : is_Some (stack t)).
    { unfold sz in Hsz. destruct (stack t); [done|]. by destruct (stack ts). }
    set (m := match machine th with Some (ks, x86) => _ | None => _ end).
    destruct m as [ks r]. eexists _, _, _. split; [done|].
    injection Hh as _ _ _ _ _ _ Harr _.
    split; [done|]. split; [done|]. split; [done|]. split; [done|]. split; [done|].
    left. split; [done|]. split; [done|exact Hst].
  - destruct Ha as [-> ->]. eexists _, _, _. split; [done|]. split_and!; try done. by right.
Qed.

Lemma thread_stack_new_spec w th cpu p :
  th_ok w th -> (forall ts, get_ts th (slot th cpu) = Some ts -> stack ts = None) ->
  exists o th' w', thread_stack__new alloc_ok junk th cpu p w = Some (o, th', w') /\
    th_ok w' th' /\ cpr w' = cpr w /\ log w' = log w /\ same_thread th th' /\
    match o with
    | Some pos => pos = slot th cpu /\
        exists ts, get_ts th' pos = Some ts /\ crp ts = p /\ vis ts = [] /\ is_Some (stack ts)
    | None => exists m, alloc_ok m = false
    end /\
    (forall k, k <> slot th cpu ->
       match get_ts th k, get_ts th' k with
       | Some t, Some t' => t' = set_arr_sz t (arr_sz t')
       | Some _, None => False
       | None, Some t' => stack t' = None
       | None, None => True
       end).
Proof.
  intros Hth Hfresh. unfold thread_stack__new. pose proof (array_for_ok w th cpu Hth) as Ha.
  destruct (array_for alloc_ok th cpu w) as [[l|] w1].
  2: { destruct Ha as (Hc & Hlg & Hal). exists None, th, w1. split; [done|].
       split; [|split; [done|split; [done|split; [done|split; [by eexists|]]]]].
       - apply (th_ok_le w); [|by rewrite Hc|done]. split; [by rewrite Hc|by rewrite Hlg].
       - intros k _. destruct (get_ts th k) as [[]|]; done. }
  destruct Ha as (Hc & Hlg & Hslot & Harr & Hf & Hcp & Hold).
  destruct Harr as (t0 & k0 & El & Ht0). 
  assert (Hhd : head l = Some t0) by (by rewrite El). rewrite Hhd. cbn [mbind option_bind].
  set (pos := if _ && (cpu <? Z.of_nat (arr_sz t0)) then _ else 0%nat).
  assert (Hpos : pos = slot th cpu).
  { unfold pos, slot in *. destruct (thread_stack__per_cpu th); simpl; [|done].
    destruct (Z.ltb_spec 0 cpu); simpl; [|lia].
    destruct (Z.ltb_spec cpu (Z.of_nat (arr_sz t0))); [done|]. lia. }
  clearbody pos. subst pos.
  destruct (lookup_lt_is_Some_2 _ _ Hslot) as [ts Hts]. rewrite Hts. cbn [mbind option_bind].
  assert (Hst : stack ts = None).
  { specialize (Hcp _ _ Hts). destruct (get_ts th (slot th cpu)) as [t|] eqn:Eg; [|done].
    rewrite Hcp. simpl. by apply Hfresh. }
  rewrite Hst. assert (Htw : ts_ok w ts) by (by eapply Forall_lookup_1).
  destruct (ts_init_ok w1 ts th p (proj1 Htw) Hst) as (err & ts' & w' & -> & Hc' & Hlg' & Hw' & Hv' & Harr' & Hcase).
  set (th' := set_tss th (Some (<[slot th cpu := ts']> l))).
  assert (Hle : w_le w w') by (split; [by rewrite Hc', Hc|by rewrite Hlg', Hlg]).
  assert (Hth' : th_ok w' th').
  { change th' with (put_ts (set_tss th (Some l)) (slot th cpu) ts').
    apply (put_ts_ok w w' _ _ ts); try done.
    - split; [apply Hth|]. intros l' [= <-]. split; [by exists t0, k0|done].
    - rewrite Hc', Hc. apply Hth.
    - split; [done|]. by rewrite Hv'. }
  assert (Hrest : forall k, k <> slot th cpu ->
    match get_ts th k, get_ts th' k with
    | Some t, Some t' => t' = set_arr_sz t (arr_sz t')
    | Some _, None => False
    | None, Some t' => stack t' = None
    | None, None => True
    end).
  { intros k Hk. assert (Hg : get_ts th' k = l !! k) by (by apply list_lookup_insert_ne).
    rewrite Hg. specialize (Hcp k). specialize (Hold k).
    destruct (l !! k) as [t'|]; [specialize (Hcp t' eq_refl); by destruct (get_ts th k)|].
    destruct (get_ts th k) as [t|]; [|done]. by destruct (Hold t eq_refl). }
  assert (Hget : get_ts th' (slot th cpu) = Some ts') by (by apply list_lookup_insert_eq).
  destruct Hcase as [(-> & Hcr & Hsome)|(-> & Hal & ->)].
  - exists (Some (slot th cpu)), th', w'. split; [done|]. rewrite Hc', Hc, Hlg', Hlg.
    split; [done|]. split; [done|]. split; [done|]. split; [done|]. split; [|done].
    split; [done|]. by exists ts'.
  - exists None, th', w'. split; [done|]. rewrite Hc', Hc, Hlg', Hlg.
    split; [done|]. split; [done|]. split; [done|]. split; [done|]. split; [|done]. by eexists.
Qed.

(** ** Stacks of return addresses *)

(** The return addresses from the top, each with the mark of a call at which the
    trace ended. *)
Definition pv (v : list thread_stack_entry) : list (Z * bool) :=
  (fun e => (ret_addr e, trace_end e)) <$> reverse v.

Definition view (ts : thread_stack) : list (Z * bool) := pv (vis ts).

Lemma pv_snoc v e : pv (v ++ [e]) = (ret_addr e, trace_end e) :: pv v.
Proof. unfold pv. by rewrite reverse_snoc. Qed.

Lemma pv_length v : length (pv v) = length v.
Proof. unfold pv. by rewrite length_fmap, length_reverse. Qed.

(** What is below the topmost call that returns to [r]. *)
Fixpoint below (r : Z) (s : list (Z * bool)) : option (list (Z * bool)) :=
  match s with
  | [] => None
  | x :: s => if x.1 =? r then Some s else below r s
  end.

Definition spec_return (r : Z) (s : list (Z * bool)) : list (Z * bool) := default s (below r s).

Fixpoint drop_ended (s : list (Z * bool)) : list (Z * bool) :=
  match s with
  | [] => []
  | x :: s' => if x.2 then drop_ended s' else s
  end.

(** A trace number and a stack, and what a branch does to them. *)
Definition spec_event (st : Z * list (Z * bool)) (fl from_ip to_ip insn_len nr : Z)
    : Z * list (Z * bool) :=
  let s := if negb (nr =? st.1) && negb (st.1 =? 0) then [] else st.2 in
  (nr,
   if hasf fl PERF_IP_FLAG_CALL then
     if (to_ip =? 0) || (u64 (from_ip + insn_len) =? to_ip) then s
     else (u64 (from_ip + insn_len), hasf fl PERF_IP_FLAG_TRACE_END) :: s
   else if hasf fl PERF_IP_FLAG_TRACE_BEGIN then drop_ended (spec_return to_ip s)
   else if hasf fl PERF_IP_FLAG_RETURN && negb (from_ip =? 0) then spec_return to_ip s
   else s).

Lemma take_S_vis ts i e : vis ts !! i = Some e -> take (S i) (vis ts) = take i (vis ts) ++ [e].
Proof. apply take_S_r. Qed.

Lemma vis_lookup ts i : wf ts -> (i < cnt ts)%nat -> exists e, vis ts !! i = Some e.
Proof. intros Hw Hi. apply lookup_lt_is_Some. by rewrite vis_length. Qed.

Lemma pop_search_spec ts ret i :
  wf ts -> (i <= cnt ts)%nat ->
  match below ret (pv (take i (vis ts))) with
  | Some s => exists j, (j <= cnt ts)%nat /\ pop_search ts ret i = Some (set_cnt ts j) /\ pv (take j (vis ts)) = s
  | None => pop_search ts ret i = Some ts
  end.
Proof.
  intros Hw. induction i as [|i IH]; intros Hi; [done|].
  destruct (vis_lookup ts i Hw) as [e He]; [lia|].
  rewrite (take_S_vis ts i e He), pv_snoc. cbn [below fst pop_search].
  rewrite (rd_entry_some ts i e Hw He). cbn [mbind option_bind].
  destruct (ret_addr e =? ret); [exists i; split_and!; [lia|done..]|]. apply IH. lia.
Qed.

Lemma set_cnt_same ts : set_cnt ts (cnt ts) = ts.
Proof. by destruct ts. Qed.

Lemma pop_spec ts ret :
  wf ts ->
  exists j, (j <= cnt ts)%nat /\ thread_stack__pop ts ret = Some (set_cnt ts j) /\
    view (set_cnt ts j) = spec_return ret (view ts).
Proof.
  intros Hw. unfold thread_stack__pop, spec_return, view.
  pose proof (pop_search_spec ts ret (cnt ts) Hw ltac:(lia)) as Hp.
  rewrite <- (vis_length ts Hw), firstn_all in Hp. rewrite <- (vis_length ts Hw).
  destruct (below ret (pv (vis ts))) as [s|].
  - destruct Hp as (j & Hj & -> & Hv). exists j. rewrite vis_length in Hj by done.
    split_and!; [by rewrite vis_length|done|]. by rewrite vis_set_cnt.
  - exists (cnt ts). rewrite Hp, set_cnt_same, vis_length by done. done.
Qed.

Lemma pop_trace_end_loop_spec ts i :
  wf ts -> (i <= cnt ts)%nat ->
  exists j, (j <= i)%nat /\ pop_trace_end_loop (set_cnt ts i) i = Some (set_cnt ts j) /\
    pv (take j (vis ts)) = drop_ended (pv (take i (vis ts))).
Proof.
  intros Hw. induction i as [|i IH]; intros Hi; [by exists 0%nat|].
  destruct (vis_lookup ts i Hw) as [e He]; [lia|].
  rewrite (take_S_vis ts i e He), pv_snoc. cbn [drop_ended snd pop_trace_end_loop].
  change (rd_entry (set_cnt ts (S i)) i) with (rd_entry ts i).
  rewrite (rd_entry_some ts i e Hw He). cbn [mbind option_bind]. destruct (trace_end e) eqn:Ee.
  - destruct IH as (j & Hj & E & Hv); [lia|]. exists j. split; [lia|]. split; [exact E|done].
  - exists (S i). split_and!; [done..|]. by rewrite (take_S_vis ts i e He), pv_snoc, Ee.
Qed.

Lemma pop_trace_end_spec ts :
  wf ts ->
  exists j, (j <= cnt ts)%nat /\ thread_stack__pop_trace_end ts = Some (set_cnt ts j) /\
    view (set_cnt ts j) = drop_ended (view ts).
Proof.
  intros Hw. destruct (pop_trace_end_loop_spec ts (cnt ts) Hw) as (j & Hj & E & Hv); [lia|].
  rewrite set_cnt_same in E. exists j. split_and!; [done..|]. unfold view.
  rewrite vis_set_cnt by done. rewrite Hv. by rewrite <- (vis_length ts Hw), firstn_all.
Qed.

Lemma push_spec ts ret te w :
  wf ts -> alloc_ok (allocs w) = true ->
  exists ts' w', thread_stack__push alloc_ok junk ts ret te w = Some (0, ts', w') /\ wf ts' /\
    hdr ts' = hdr ts /\ view ts' = (ret, te) :: view ts /\ cpr w' = cpr w /\ log w' = log w.
Proof.
  intros Hw Ha. unfold thread_stack__push.
  set (grown := if (cnt ts =? sz ts)%nat then _ else _).
  assert (Hg : exists t w', grown = (0, t, w') /\ hdr t = hdr ts /\ vis t = vis ts /\
    cpr w' = cpr w /\ log w' = log w /\ (cnt t < sz t)%nat).
  { unfold grown. destruct (Nat.eqb_spec (cnt ts) (sz ts)) as [Hc|Hc].
    - destruct (grow_eq ts w Hw) as (err & t & -> & Hh & Hn & Hv & Hwt & Hal).
      rewrite Ha in Hal. destruct Hal as [-> Hs]. eexists _, _. split; [done|].
      split_and!; try done. rewrite Hn, Hs. unfold STACK_GROWTH. lia.
    - eexists _, _. split; [done|]. split_and!; try done. unfold wf in Hw. lia. }
  clearbody grown. destruct Hg as (t & w' & -> & Hh & Hv & Hcp & Hlg & Hlt).
  edestruct (wr_entry_push t) as (e & t' & Ew & _ & Hv' & Hw' & Hh' & Hn); [exact Hlt|].
  rewrite Ew. cbn [mbind option_bind]. rewrite Hn. eexists _, w'. split; [reflexivity|].
  split; [exact Hw'|]. split; [|split; [|done]].
  - change (hdr (set_cnt t' (S (cnt t)))) with (hdr t'). congruence.
  - unfold view. rewrite Hv', Hv, pv_snoc. done.
Qed.

Lemma view_nil ts : view (set_cnt ts 0) = [].
Proof. done. Qed.

Lemma view_stack ts x s : view ts = x :: s -> is_Some (stack ts).
Proof.
  intros Hv. destruct (stack ts) as [l|] eqn:E; [done|].
  unfold view in Hv. by rewrite vis_no_stack in Hv.
Qed.

Lemma event_on_spec ts w fl from_ip to_ip insn_len nr :
  wf ts -> crp ts = false -> (forall n, alloc_ok n = true) ->
  exists ts' w', event_on alloc_ok junk process ts w fl from_ip to_ip insn_len nr = Some (0, ts', w') /\
    wf ts' /\ crp ts' = false /\ arr_sz ts' = arr_sz ts /\
    (trace_nr ts', view ts') = spec_event (trace_nr ts, view ts) fl from_ip to_ip insn_len nr /\
    cpr w' = cpr w /\ log w' = log w /\ (is_Some (stack ts) -> is_Some (stack ts')).
Proof.
  intros Hw Hc Ha. unfold event_on, spec_event. cbn [fst snd].
  set (s := if negb (nr =? trace_nr ts) && _ then [] else view ts).
  assert (Hch : exists t, change_trace_nr process ts w nr = Some (t, w) /\ wf t /\ crp t = false /\
    arr_sz t = arr_sz ts /\ trace_nr t = nr /\ view t = s /\ stack t = stack ts).
  { unfold change_trace_nr, s. destruct (Z.eqb_spec nr (trace_nr ts)) as [->|Hne]; [by exists ts|].
    unfold __thread_stack__flush. rewrite Hc. destruct (trace_nr ts =? 0); simpl; [by eexists|].
    eexists. split; [done|]. split_and!; try done. unfold wf. simpl. lia. }
  destruct Hch as (t & -> & Hwt & Hct & Hat & Hnt & Hvt & Hst). clearbody s. subst s.
  cbn [mbind option_bind]. rewrite Hct, <- Hat, <- Hnt, <- Hst.
  assert (Hsame : exists ts' w', Some (0, t, w) = Some (0, ts', w') /\ wf ts' /\ crp ts' = false /\
    arr_sz ts' = arr_sz t /\ (trace_nr ts', view ts') = (trace_nr t, view t) /\ cpr w' = cpr w /\ log w' = log w /\
    (is_Some (stack t) -> is_Some (stack ts')))
    by (by exists t, w).
  destruct (hasf fl PERF_IP_FLAG_CALL).
  { destruct (to_ip =? 0); [done|]. destruct (u64 (from_ip + insn_len) =? to_ip); [done|]. cbn [orb].
    destruct (push_spec t (u64 (from_ip + insn_len)) (hasf fl PERF_IP_FLAG_TRACE_END) w Hwt (Ha _))
      as (ts' & w' & -> & Hw' & Hh & Hv & Hcp & Hlg).
    exists ts', w'. injection Hh as Hnr _ _ _ Hcr _ Har _. rewrite Hnr, Hv.
    repeat (split; [congruence|]). intros _. by eapply view_stack. }
  destruct (hasf fl PERF_IP_FLAG_TRACE_BEGIN).
  { destruct (pop_spec t to_ip Hwt) as (j & Hj & -> & Hv). cbn [mbind option_bind].
    assert (Hw2 : wf (set_cnt t j)) by (by apply wf_set_cnt).
    destruct (pop_trace_end_spec (set_cnt t j) Hw2) as (i & Hi & -> & Hvi).
    eexists _, _. split; [reflexivity|]. split; [by apply wf_set_cnt|]. rewrite Hvi, Hv. done. }
  destruct (hasf fl PERF_IP_FLAG_RETURN && negb (from_ip =? 0)); [|done].
  destruct (pop_spec t to_ip Hwt) as (j & Hj & -> & Hv).
  eexists _, _. split; [reflexivity|]. split; [by apply wf_set_cnt|]. rewrite Hv. done.
Qed.

(** ** Call chains from stacks of return addresses *)

(** A return address, after the context if that changes. *)
Fixpoint segments (ks last : Z) (s : list Z) : list (list Z) :=
  match s with
  | [] => []
  | a :: s =>
      let c := callchain_context a ks in
      (if c =? last then [a] else [c; a]) :: segments ks c s
  end.

(** As many as there is room for. *)
Fixpoint fill (room : nat) (segs : list (list Z)) : list Z :=
  match segs with
  | [] => []
  | g :: gs => if (length g <=? room)%nat then g ++ fill (room - length g) gs else []
  end.

Definition spec_chain (s : list Z) (size : nat) (a ks : Z) : list Z :=
  if (size <? 2)%nat then []
  else let c := callchain_context a ks in [c; a] ++ fill (size - 2) (segments ks c s).

Lemma wr_ip_eq ips i v :
  (i < length ips)%nat -> wr_ip ips i v = Some (take i ips ++ v :: drop (S i) ips).
Proof. intros Hi. unfold wr_ip. by rewrite (proj2 (Nat.ltb_lt _ _) Hi), insert_take_drop. Qed.

Lemma take_written {A} i (ips : list A) v r : (i < length ips)%nat ->
  take (S i) (take i ips ++ v :: r) = take i ips ++ [v].
Proof.
  intros Hi. rewrite take_app_ge by (rewrite length_take; lia).
  rewrite length_take. replace (S i - i `min` length ips)%nat with 1%nat by lia. done.
Qed.

Lemma drop_written {A} i k (ips : list A) v : (i < length ips)%nat -> (i < k)%nat ->
  drop k (take i ips ++ v :: drop (S i) ips) = drop k ips.
Proof.
  intros Hi Hk. rewrite drop_app_ge by (rewrite length_take; lia).
  rewrite length_take. replace (k - i `min` length ips)%nat with (S (k - S i)) by lia.
  cbn [drop]. rewrite drop_drop. f_equal. lia.
Qed.

Lemma sample_loop_spec ts ks size n i last ips :
  wf ts -> (n <= cnt ts)%nat -> (i <= size <= length ips)%nat ->
  let out := fill (size - i) (segments ks last (fst <$> pv (take n (vis ts)))) in
  sample_loop ts ks size n i last ips =
    Some ((i + length out)%nat, take i ips ++ out ++ drop (i + length out) ips) /\
  (i + length out <= size)%nat.
Proof.
  intros Hw. revert i last ips. induction n as [|n IH]; intros i last ips Hn Hi out.
  { unfold out. simpl. rewrite Nat.add_0_r, take_drop. split; [by destruct (size <=? i)%nat|lia]. }
  destruct (vis_lookup ts n Hw) as [e He]; [lia|].
  unfold out. rewrite (take_S_vis ts n e He), pv_snoc. cbn [fmap list_fmap fst segments fill sample_loop].
  rewrite (rd_entry_some ts n e Hw He). cbn [mbind option_bind].
  destruct (Nat.leb_spec size i) as [Hs|Hs].
  { replace (size - i)%nat with 0%nat by lia.
    destruct (_ =? last); simpl; rewrite Nat.add_0_r, take_drop; split; done || lia. }
  destruct (Z.eqb_spec (callchain_context (ret_addr e) ks) last) as [<-|Hne].
  - cbn [length]. replace (1 <=? size - i)%nat with true by (symmetry; apply Nat.leb_le; lia).
    rewrite wr_ip_eq by lia. cbn [mbind option_bind].
    destruct (IH (S i) (callchain_context (ret_addr e) ks) (take i ips ++ ret_addr e :: drop (S i) ips))
      as [E Hle]; [lia|rewrite length_app, length_take; cbn [length]; rewrite length_drop; lia|].
    replace (size - i - 1)%nat with (size - S i)%nat by lia. rewrite E.
    set (o := fill _ _) in *. clearbody o.
    rewrite take_written, drop_written by lia. cbn [length app]. split; [|lia].
    do 2 f_equal; [lia|]. rewrite <- app_assoc. cbn [app]. do 3 f_equal. f_equal. lia.
  - cbn [length]. destruct (Nat.leb_spec (size - 1) i) as [Hs1|Hs1].
    { replace (2 <=? size - i)%nat with false by (symmetry; apply Nat.leb_gt; lia).
      cbn [length app]. rewrite Nat.add_0_r, take_drop. split; [done|lia]. }
    replace (2 <=? size - i)%nat with true by (symmetry; apply Nat.leb_le; lia).
    rewrite wr_ip_eq by lia. cbn [mbind option_bind].
    set (c := callchain_context (ret_addr e) ks) in *. set (i1 := take i ips ++ c :: drop (S i) ips).
    assert (H1 : length i1 = length ips).
    { unfold i1. rewrite length_app, length_take. cbn [length]. rewrite length_drop. lia. }
    rewrite wr_ip_eq by lia. cbn [mbind option_bind].
    set (i2 := take (S i) i1 ++ ret_addr e :: drop (S (S i)) i1).
    assert (H2 : length i2 = length ips).
    { unfold i2. rewrite length_app, length_take. cbn [length]. rewrite length_drop. lia. }
    destruct (IH (S (S i)) c i2) as [E Hle]; [lia|lia|].
    replace (size - i - 2)%nat with (size - S (S i))%nat by lia. rewrite E.
    set (o := fill _ _) in *. clearbody o. cbn [length app]. split; [|lia].
    unfold i2. rewrite take_written, drop_written by lia.
    unfold i1. rewrite take_written, drop_written by lia.
    do 2 f_equal; [lia|]. rewrite <- !app_assoc. cbn [app]. do 4 f_equal. f_equal. lia.
Qed.

(** ** Branches of a thread *)

Record branch := Branch {
  b_cpu : Z;
  b_flags : Z;
  b_from : Z;
  b_to : Z;
  b_insn_len : Z;
  b_trace_nr : Z
}.

(** One call of thread_stack__event after another, with their results. *)
Fixpoint run_events (th : option thread) (w : world) (bs : list branch)
    : option (list Z * option thread * world) :=
  match bs with
  | [] => Some ([], th, w)
  | b :: bs =>
      '(err, th, w) ← thread_stack__event alloc_ok junk process th (b_cpu b) (b_flags b) (b_from b)
                        (b_to b) (b_insn_len b) (b_trace_nr b) w;
      '(errs, th, w) ← run_events th w bs;
      Some (err :: errs, th, w)
  end.

(** The stack of every slot that was used. *)
#[local] Abbreviation astate := (gmap nat (Z * list (Z * bool))).

Definition spec_branch (th : thread) (σ : astate) (b : branch) : astate :=
  <[slot th (b_cpu b) :=
      spec_event (default (b_trace_nr b, []) (σ !! slot th (b_cpu b)))
        (b_flags b) (b_from b) (b_to b) (b_insn_len b) (b_trace_nr b)]> σ.

Definition spec_stack (σ : astate) (k : nat) : list Z := fst <$> (default (0, []) (σ !! k)).2.

Definition absrel (th : thread) (σ : astate) : Prop :=
  forall cpu, let k := slot th cpu in
  match σ !! k with
  | Some (nr, s) => exists ts, get_ts th k = Some ts /\ crp ts = false /\ is_Some (stack ts) /\
      trace_nr ts = nr /\ view ts = s
  | None => forall ts, get_ts th k = Some ts -> thread_stack__per_cpu th = true /\ stack ts = None
  end.

Lemma thread_stack_found w th cpu ts :
  th_ok w th -> get_ts th (slot th cpu) = Some ts -> is_Some (stack ts) ->
  thread__stack (Some th) cpu = Some (slot th cpu).
Proof.
  intros Hth Hg Hs. destruct (thread__stack (Some th) cpu) as [pos|] eqn:E.
  - by destruct (thread_stack_slot w th cpu pos Hth E) as [-> _].
  - rewrite (thread_stack_none w th cpu ts Hth E Hg) in Hs. by destruct Hs.
Qed.

Lemma thread_stack_absent w th cpu :
  th_ok w th ->
  (forall ts, get_ts th (slot th cpu) = Some ts -> thread_stack__per_cpu th = true /\ stack ts = None) ->
  thread__stack (Some th) cpu = None.
Proof.
  intros Hth Hn. destruct (thread__stack (Some th) cpu) as [pos|] eqn:E; [|done].
  destruct (thread_stack_slot w th cpu pos Hth E) as [-> (ts & Hg & _)].
  destruct (Hn ts Hg) as [Hp Hs]. unfold thread__stack in E. rewrite Hp in E.
  unfold thread__cpu_stack in E. unfold get_ts, slot in Hg. rewrite Hp in Hg.
  destruct (tss th) as [l|]; [|done]. destruct l as [|t l]; [done|].
  assert (Hc : Z.to_nat (if cpu <? 0 then 0 else cpu) = Z.to_nat cpu)
    by (destruct (Z.ltb_spec cpu 0); lia).
  cbn [mbind option_bind] in Hg. rewrite Hc, Hg, Hs in E.
  by destruct (Z.of_nat (arr_sz t) <=? (if cpu <? 0 then 0 else cpu)).
Qed.

Lemma get_set_arr th t k n : get_ts th k = Some (set_arr_sz t n) -> exists t', get_ts th k = Some t' /\
  crp t' = crp t /\ stack t' = stack t /\ trace_nr t' = trace_nr t /\ view t' = view t.
Proof. intros Hg. by eexists. Qed.

(** There is a stack for the cpu, and the others stay. *)
Lemma event_stack_ready w th cpu nr σ :
  th_ok w th -> absrel th σ -> (forall n, alloc_ok n = true) ->
  exists th' w' ts,
    match thread__stack (Some th) cpu with
    | Some pos => Some (Some pos, th, w)
    | None =>
        '(pos, th, w) ← thread_stack__new alloc_ok junk th cpu false w;
        match pos with
        | None => Some (None, th, w)
        | Some pos => ts ← get_ts th pos; Some (Some pos, put_ts th pos (set_trace_nr ts nr), w)
        end
    end = Some (Some (slot th cpu), th', w') /\
    th_ok w' th' /\ same_thread th th' /\ cpr w' = cpr w /\ log w' = log w /\
    get_ts th' (slot th cpu) = Some ts /\ crp ts = false /\ is_Some (stack ts) /\
    (trace_nr ts, view ts) = default (nr, []) (σ !! slot th cpu) /\
    (forall c, slot th c <> slot th cpu ->
       match σ !! slot th c with
       | Some (nr, s) => exists ts, get_ts th' (slot th c) = Some ts /\ crp ts = false /\
           is_Some (stack ts) /\ trace_nr ts = nr /\ view ts = s
       | None => forall ts, get_ts th' (slot th c) = Some ts ->
           thread_stack__per_cpu th = true /\ stack ts = None
       end).
Proof.
  intros Hth Hrel Hal. pose proof (Hrel cpu) as Hk. simpl in Hk.
  destruct (σ !! slot th cpu) as [[nr0 s0]|] eqn:Eσ.
  - destruct Hk as (ts & Hg & Hc & Hs & Hnr & Hv).
    rewrite (thread_stack_found w th cpu ts Hth Hg Hs). exists th, w, ts.
    split; [done|]. split; [done|]. split; [done|]. split; [done|]. split; [done|]. split; [done|].
    split; [done|]. split; [done|]. split; [by rewrite Hnr, Hv|]. intros c _. apply Hrel.
  - rewrite (thread_stack_absent w th cpu Hth Hk).
    destruct (thread_stack_new_spec w th cpu false Hth) as (o & th1 & w1 & -> & Hth1 & Hcp & Hlg & Hsame & Ho & Hrest).
    { intros ts Hg. by apply Hk. }
    destruct o as [pos|]; [|destruct Ho as [m Hm]; by rewrite Hal in Hm].
    destruct Ho as [-> (ts & Hg & Hc & Hv & Hs)]. cbn [mbind option_bind]. rewrite Hg. cbn [mbind option_bind].
    eexists _, w1, (set_trace_nr ts nr). split; [reflexivity|].
    split. { apply (put_ts_ok w1 w1 th1 _ ts); try done; [apply Hth1|]. split.
      - exact (proj1 (get_ts_ok w1 th1 _ ts Hth1 Hg)).
      - by change (vis (set_trace_nr ts nr)) with (vis ts); rewrite Hv. }
    split; [done|]. split; [done|]. split; [done|]. split; [by eapply get_put_eq|].
    split; [done|]. split; [done|]. split.
    { change (view (set_trace_nr ts nr)) with (view ts). unfold view. by rewrite Hv. }
    intros c Hne. rewrite get_put_ne by done. specialize (Hrest (slot th c) Hne). specialize (Hrel c).
    simpl in Hrel. destruct (σ !! slot th c) as [[nr' s']|].
    + destruct Hrel as (t & Ht & Hct & Hst & Hnt & Hvt). rewrite Ht in Hrest.
      destruct (get_ts th1 (slot th c)) as [t'|] eqn:Et'; [|done].
      exists t'. rewrite Hrest. done.
    + intros t' Ht'. rewrite Ht' in Hrest. destruct (get_ts th (slot th c)) as [t|] eqn:Et.
      * destruct (Hrel t eq_refl) as [Hpc Hst]. split; [done|]. by rewrite Hrest.
      * split; [|done]. unfold slot in Hne. by destruct (thread_stack__per_cpu th).
Qed.

Lemma event_spec w th b σ :
  th_ok w th -> absrel th σ -> (forall n, alloc_ok n = true) ->
  exists th' w', thread_stack__event alloc_ok junk process (Some th) (b_cpu b) (b_flags b) (b_from b)
      (b_to b) (b_insn_len b) (b_trace_nr b) w = Some (0, Some th', w') /\
    th_ok w' th' /\ same_thread th th' /\ absrel th' (spec_branch th σ b).
Proof.
  intros Hth Hrel Hal. unfold thread_stack__event.
  destruct (event_stack_ready w th (b_cpu b) (b_trace_nr b) σ Hth Hrel Hal)
    as (th1 & w1 & ts & -> & Hth1 & Hsame & _ & _ & Hg & Hc & Hs & Hst & Hrest).
  cbn [mbind option_bind]. rewrite Hg. cbn [mbind option_bind].
  pose proof (get_ts_ok w1 th1 _ ts Hth1 Hg) as Hts.
  destruct (event_on_spec ts w1 (b_flags b) (b_from b) (b_to b) (b_insn_len b) (b_trace_nr b))
    as (ts' & w' & -> & Hw' & Hc' & Har & Hsp & Hcp & Hlg & Hso); [apply Hts|done|done|].
  cbn [mbind option_bind]. exists (put_ts th1 (slot th (b_cpu b)) ts'), w'. split; [done|].
  split; [|split; [done|]].
  - apply (put_ts_ok w1 w' th1 _ ts); try done.
    + split; [by rewrite Hcp|by rewrite Hlg].
    + rewrite Hcp. apply Hth1.
    + split; [done|]. by rewrite Hc'.
  - intros cpu. simpl. set (k := slot th (b_cpu b)) in *.
    assert (Hsl : forall c, slot (put_ts th1 k ts') c = slot th c)
      by (intros c; by apply (same_thread_slot th)).
    rewrite Hsl. unfold spec_branch. fold k.
    destruct (decide (slot th cpu = k)) as [He|Hne].
    + rewrite He, lookup_insert_eq, <- Hst, <- Hsp. exists ts'. split; [by eapply get_put_eq|].
      split; [done|]. split; [by apply Hso|]. done.
    + rewrite lookup_insert_ne by done. rewrite get_put_ne by done. specialize (Hrest cpu Hne).
      destruct (σ !! slot th cpu) as [[]|]; [done|]. intros t Ht. apply Hrest in Ht.
      destruct Hsame as (E1 & E2 & _).
      unfold thread_stack__per_cpu in *. cbn. by rewrite E1, E2.
Qed.

Lemma run_events_spec w th bs σ :
  th_ok w th -> absrel th σ -> (forall n, alloc_ok n = true) ->
  exists th' w', run_events (Some th) w bs = Some (replicate (length bs) 0, Some th', w') /\
    th_ok w' th' /\ same_thread th th' /\ absrel th' (fold_left (spec_branch th) bs σ).
Proof.
  intros Hth Hrel Hal. revert w th σ Hth Hrel.
  induction bs as [|b bs IH]; intros w th σ Hth Hrel; [by exists th, w|].
  cbn [run_events]. destruct (event_spec w th b σ Hth Hrel Hal) as (th1 & w1 & -> & Hth1 & Hs1 & Hrel1).
  cbn [mbind option_bind].
  destruct (IH w1 th1 _ Hth1 Hrel1) as (th2 & w2 & -> & Hth2 & Hs2 & Hrel2).
  exists th2, w2. split; [done|]. split; [done|]. split.
  - destruct Hs1 as (? & ? & ?), Hs2 as (? & ? & ?). split_and!; congruence.
  - cbn [fold_left]. assert (Hsb : forall σ b, spec_branch th1 σ b = spec_branch th σ b).
    { intros σ' b'. unfold spec_branch. by rewrite !(same_thread_slot th th1). }
    clear -Hrel2 Hsb. set (σ1 := spec_branch th σ b) in *. clearbody σ1. revert σ1 Hrel2.
    induction bs as [|c bs IH]; intros σ1 Hr; [done|]. cbn [fold_left] in *. rewrite Hsb in Hr. by apply IH.
Qed.

Lemma absrel_sample w th σ cpu ips size a ks :
  th_ok w th -> absrel th σ -> (size <= length ips)%nat ->
  let chain := spec_chain (spec_stack σ (slot th cpu)) size a ks in
  thread_stack__sample (Some th) cpu ips size a ks =
    Some (length chain, chain ++ drop (length chain) ips) /\ (length chain <= size)%nat.
Proof.
  intros Hth Hrel Hsz chain. unfold chain, thread_stack__sample, spec_chain.
  destruct (Nat.ltb_spec size 2); [split; [done|simpl; lia]|]. set (c := callchain_context a ks).
  destruct ips as [|i0 [|i1 ips]]; [simpl in Hsz; lia..|]. cbn [wr_ip Nat.ltb Nat.leb length list_insert insert].
  unfold wr_ip. cbn [length Nat.ltb Nat.leb insert list_insert mbind option_bind].
  specialize (Hrel cpu). simpl in Hrel. unfold spec_stack.
  destruct (σ !! slot th cpu) as [[nr s]|].
  - destruct Hrel as (ts & Hg & Hc & Hs & Hnr & Hv).
    rewrite (thread_stack_found w th cpu ts Hth Hg Hs). cbn [mbind option_bind]. rewrite Hg.
    cbn [mbind option_bind].
    pose proof (proj1 (get_ts_ok w th _ ts Hth Hg)) as Hw.
    destruct (sample_loop_spec ts ks size (cnt ts) 2 c (c :: a :: ips) Hw) as [E Hle]; [lia|done|].
    rewrite E. rewrite <- (vis_length ts Hw), firstn_all in Hle |- *. fold (view ts) in *. rewrite Hv in *.
    done.
  - rewrite (thread_stack_absent w th cpu Hth Hrel). simpl. by destruct (size - 2)%nat.
Qed.

Lemma absrel_depth w th σ cpu :
  th_ok w th -> absrel th σ ->
  thread_stack__depth (Some th) cpu = Some (length (spec_stack σ (slot th cpu))).
Proof.
  intros Hth Hrel. unfold thread_stack__depth, spec_stack. specialize (Hrel cpu). simpl in Hrel.
  destruct (σ !! slot th cpu) as [[nr s]|].
  - destruct Hrel as (ts & Hg & Hc & Hs & Hnr & Hv).
    rewrite (thread_stack_found w th cpu ts Hth Hg Hs). cbn [mbind option_bind]. rewrite Hg.
    pose proof (proj1 (get_ts_ok w th _ ts Hth Hg)) as Hw.
    cbn. rewrite length_fmap, <- Hv. unfold view. by rewrite pv_length, vis_length.
  - by rewrite (thread_stack_absent w th cpu Hth Hrel).
Qed.

(** Branch samples given to [thread_stack__event] one after another, on any
    cpus, keep per slot (per cpu for the idle task) the stack of calls that have
    not returned: a call pushes its return address, a return drops everything
    down to the topmost call that returns there, or nothing if there is none, a
    trace that begins again also drops the calls at which it ended, and a new
    trace number empties the stack.  All calls succeed, [thread_stack__depth] is
    the depth of that stack, and the chain that [thread_stack__sample] writes is
    the sampled ip and the return addresses from the top, each after its context
    where that changes, as many as fit; nothing beyond the chain is written. *)
Theorem event_stacks_refine (bs : list branch) (th : thread) (a0 : nat) :
  (forall n, alloc_ok n = true) -> tss th = None ->
  exists th' w', run_events (Some th) (World call_path_root__new [] a0) bs =
      Some (replicate (length bs) 0, Some th', w') /\
    forall cpu, let s := spec_stack (fold_left (spec_branch th) bs ∅) (slot th cpu) in
      thread_stack__depth (Some th') cpu = Some (length s) /\
      forall ips size a ks, (size <= length ips)%nat ->
        let chain := spec_chain s size a ks in
        (length chain <= size)%nat /\
        thread_stack__sample (Some th') cpu ips size a ks =
          Some (length chain, chain ++ drop (length chain) ips).
Proof.
  intros Hal Hth0. set (w0 := World _ _ _).
  assert (Hth : th_ok w0 th) by (split; [apply cpr_ok_new|]; rewrite Hth0; done).
  assert (Hrel : absrel th ∅).
  { intros cpu. simpl. rewrite lookup_empty. unfold get_ts. by rewrite Hth0. }
  destruct (run_events_spec w0 th bs ∅ Hth Hrel Hal) as (th' & w' & E & Hth' & Hs & Hrel').
  exists th', w'. split; [done|]. intros cpu s. unfold s. rewrite <- (same_thread_slot th th') by done.
  split; [by eapply absrel_depth|]. intros ips size a ks Hsz.
  edestruct absrel_sample as [E' Hle]; [done..|]. split; [exact Hle|exact E'].
Qed.

(** ** Sequences of operations *)

Inductive stack_op :=
| OpEvent (b : branch)
| OpProcess (cm : Z) (sm : branch_sample) (from_al to_al : addr_location) (rf : Z)
| OpSetTraceNr (cpu nr : Z)
| OpSample (cpu : Z) (ips : list Z) (size : nat) (a ks : Z)
| OpFlush
| OpFree.

Definition run_op (th : thread) (w : world) (o : stack_op) : option (thread * world) :=
  match o with
  | OpEvent b =>
      '(_, th', w) ← thread_stack__event alloc_ok junk process (Some th) (b_cpu b) (b_flags b) (b_from b)
                       (b_to b) (b_insn_len b) (b_trace_nr b) w;
      Some (default th th', w)
  | OpProcess cm sm fa ta rf =>
      '(_, th, w) ← thread_stack__process alloc_ok junk process sym_start sym_name th cm sm fa ta rf w;
      Some (th, w)
  | OpSetTraceNr cpu nr => thread_stack__set_trace_nr process th cpu nr w
  | OpSample cpu ips size a ks => _ ← thread_stack__sample (Some th) cpu ips size a ks; Some (th, w)
  | OpFlush => '(_, th, w) ← thread_stack__flush process th w; Some (th, w)
  | OpFree => thread_stack__free process th w
  end.

Fixpoint run_ops (th : thread) (w : world) (os : list stack_op) : option (thread * world) :=
  match os with
  | [] => Some (th, w)
  | o :: os => '(th, w) ← run_op th w o; run_ops th w os
  end.

(** The conditions of the operations: a sample whose two addresses are 0 has no
    symbol where it goes to, the chain has the room it is said to have, and
    [thread_stack__event] does not run out of memory. *)
Definition op_ok (o : stack_op) : Prop :=
  match o with
  | OpEvent _ => forall n, alloc_ok n = true
  | OpProcess _ sm _ ta _ => sample_ok sm ta
  | OpSample _ ips size _ _ => (size <= length ips)%nat
  | _ => True
  end.

(** A stack after an operation that is not [safe] for want of call paths. *)
Definition tsafe (w : world) (ts ts' : thread_stack) (w' : world) : Prop :=
  cpr_ok (cpr w') /\ ts_ok w' ts' /\ w_le w w' /\ arr_sz ts' = arr_sz ts.

Lemma safe_tsafe w ts m Q :
  safe w ts m Q -> exists err ts' w', m = Some (err, ts', w') /\ tsafe w ts ts' w' /\ Q err ts' w'.
Proof.
  intros (err & ts' & w' & -> & Hok & Hle & Hk & HQ). exists err, ts', w'. split; [done|]. split; [|done].
  split; [apply Hok|]. split; [by apply st_ok_ts|]. split; [done|]. apply Hk.
Qed.

Lemma set_cnt0_ok w ts : ts_ok w (set_cnt ts 0).
Proof. split; [|done]. unfold wf. simpl. lia. Qed.

Lemma flush_tsafe w ts :
  cpr_ok (cpr w) -> ts_ok w ts ->
  exists err ts' w', __thread_stack__flush process ts w = Some (err, ts', w') /\ tsafe w ts ts' w'.
Proof.
  intros Hc Hts. destruct (crp ts) eqn:Ec.
  - destruct (safe_tsafe _ _ _ _ (flush_safe w ts (ts_ok_st w ts Hc Hts Ec))) as (err & ts' & w' & E & Ht & _).
    by exists err, ts', w'.
  - unfold __thread_stack__flush. rewrite Ec. eexists _, _, _. split; [done|].
    split; [done|]. split; [apply set_cnt0_ok|]. done.
Qed.

Lemma change_trace_nr_tsafe w ts nr :
  cpr_ok (cpr w) -> ts_ok w ts ->
  exists ts' w', change_trace_nr process ts w nr = Some (ts', w') /\ tsafe w ts ts' w'.
Proof.
  intros Hc Hts. unfold change_trace_nr. destruct (nr =? trace_nr ts); [by exists ts, w|].
  destruct (trace_nr ts =? 0); [by exists (set_trace_nr ts nr), w|].
  destruct (flush_tsafe w ts Hc Hts) as (err & ts' & w' & -> & Ht). by exists (set_trace_nr ts' nr), w'.
Qed.

Lemma tsafe_put w th pos ts ts' w' :
  th_ok w th -> get_ts th pos = Some ts -> tsafe w ts ts' w' -> th_ok w' (put_ts th pos ts').
Proof. intros Hth Hg (Hc & Ht & Hle & Har). by apply (put_ts_ok w w' th pos ts). Qed.

Lemma tsafe_keep w ts ts' w' ts2 :
  tsafe w ts ts' w' -> ts_ok w' ts2 -> arr_sz ts2 = arr_sz ts' -> tsafe w ts ts2 w'.
Proof. intros (Hc & Ht & Hle & Har) H2 Ha. split; [done|]. split; [done|]. split; [done|congruence]. Qed.

Lemma ts_ok_event w ts : wf ts -> crp ts = false -> ts_ok w ts.
Proof. intros Hw Hc. split; [done|]. by rewrite Hc. Qed.

Lemma event_on_tsafe w ts fl from_ip to_ip insn_len nr :
  cpr_ok (cpr w) -> ts_ok w ts -> (forall n, alloc_ok n = true) ->
  exists err ts' w', event_on alloc_ok junk process ts w fl from_ip to_ip insn_len nr = Some (err, ts', w') /\
    tsafe w ts ts' w'.
Proof.
  intros Hc Hts Hal. destruct (crp ts) eqn:Ec.
  - unfold event_on.
    assert (Hch : exists t w', change_trace_nr process ts w nr = Some (t, w') /\ tsafe w ts t w' /\ crp t = true).
    { unfold change_trace_nr. destruct (nr =? trace_nr ts); [by exists ts, w|].
      destruct (trace_nr ts =? 0); [by exists (set_trace_nr ts nr), w|].
      destruct (flush_safe w ts (ts_ok_st w ts Hc Hts Ec)) as (err & t & w' & -> & Hok & Hle & Hk & _).
      exists (set_trace_nr t nr), w'. split; [done|].
      destruct Hk as (Hk1 & Hk2 & _). split; [|by rewrite <- Ec].
      split; [apply Hok|]. split; [by apply st_ok_ts in Hok|]. by split. }
    destruct Hch as (t & w' & -> & Ht & Hct). cbn [mbind option_bind]. rewrite Hct. by exists 0, t, w'.
  - destruct (event_on_spec ts w fl from_ip to_ip insn_len nr (proj1 Hts) Ec Hal)
      as (ts' & w' & -> & Hw' & Hc' & Har & _ & Hcp & Hlg & _).
    exists 0, ts', w'. split; [done|]. split; [by rewrite Hcp|]. split; [by apply ts_ok_event|].
    split; [|done]. split; [by rewrite Hcp|by rewrite Hlg].
Qed.

Lemma w_le_same w w' : cpr w' = cpr w -> log w' = log w -> w_le w w'.
Proof. intros Hc Hl. split; [by rewrite Hc|by rewrite Hl]. Qed.

(** A new stack, with a field set that no invariant is about. *)
Lemma new_put_ok w th cpu p f :
  th_ok w th -> (forall ts, get_ts th (slot th cpu) = Some ts -> stack ts = None) ->
  (forall ts, stack (f ts) = stack ts /\ cnt (f ts) = cnt ts /\ crp (f ts) = crp ts /\ arr_sz (f ts) = arr_sz ts) ->
  exists o th' w',
    ('(pos, th, w) ← thread_stack__new alloc_ok junk th cpu p w;
     match pos with
     | None => Some (None, th, w)
     | Some pos => ts ← get_ts th pos; Some (Some pos, put_ts th pos (f ts), w)
     end) = Some (o, th', w') /\ th_ok w' th' /\ w_le w w' /\
    match o with
    | Some pos => exists ts, get_ts th' pos = Some ts /\ crp ts = p
    | None => True
    end.
Proof.
  intros Hth Hn Hf.
  destruct (thread_stack_new_spec w th cpu p Hth Hn) as (o & th1 & w1 & -> & Hth1 & Hcp & Hlg & _ & Ho & _).
  cbn [mbind option_bind]. pose proof (w_le_same w w1 Hcp Hlg) as Hle.
  destruct o as [pos|]; [|by exists None, th1, w1].
  destruct Ho as [_ (ts & Hg & Hc & Hv & _)]. rewrite Hg. cbn [mbind option_bind].
  destruct (Hf ts) as (H1 & H2 & H3 & H4).
  eexists (Some pos), _, w1. split; [reflexivity|]. split; [|split; [done|]].
  - apply (put_ts_ok w1 w1 th1 pos ts); try done; [apply Hth1|].
    pose proof (get_ts_ok w1 th1 pos ts Hth1 Hg) as Hts.
    unfold ts_ok, wf, sz, vis in *. by rewrite H1, H2, H3.
  - exists (f ts). split; [by eapply get_put_eq|congruence].
Qed.

Lemma event_ok w th b :
  th_ok w th -> (forall n, alloc_ok n = true) ->
  exists err th' w', thread_stack__event alloc_ok junk process (Some th) (b_cpu b) (b_flags b) (b_from b)
      (b_to b) (b_insn_len b) (b_trace_nr b) w = Some (err, Some th', w') /\ th_ok w' th' /\ w_le w w'.
Proof.
  intros Hth Hal. unfold thread_stack__event.
  set (ready := match thread__stack (Some th) (b_cpu b) with Some pos => _ | None => _ end).
  assert (Hr : exists o th' w', ready = Some (o, th', w') /\ th_ok w' th' /\ w_le w w' /\
    match o with Some pos => is_Some (get_ts th' pos) | None => True end).
  { unfold ready. destruct (thread__stack (Some th) (b_cpu b)) as [pos|] eqn:Et.
    - destruct (thread_stack_slot w th (b_cpu b) pos Hth Et) as [_ (ts & Hg & _)].
      exists (Some pos), th, w. split; [done|]. split; [done|]. split; [done|]. by exists ts.
    - destruct (new_put_ok w th (b_cpu b) false (fun ts => set_trace_nr ts (b_trace_nr b)) Hth)
        as (o & th' & w' & E & H1 & H2 & H3); [|done|].
      { intros ts Hg. by eapply thread_stack_none. }
      exists o, th', w'. split; [exact E|]. split; [done|]. split; [done|].
      destruct o; [|done]. destruct H3 as (ts & -> & _). done. }
  clearbody ready. destruct Hr as (o & th1 & w1 & -> & Hth1 & Hle1 & Ho). cbn [mbind option_bind].
  destruct o as [pos|]; [|by exists (- ENOMEM), th1, w1].
  destruct Ho as [ts Hg]. rewrite Hg. cbn [mbind option_bind].
  destruct (event_on_tsafe w1 ts (b_flags b) (b_from b) (b_to b) (b_insn_len b) (b_trace_nr b))
    as (err & ts' & w' & -> & Ht); [apply Hth1|by eapply get_ts_ok|done|].
  cbn [mbind option_bind]. eexists _, _, w'. split; [done|]. split; [by eapply tsafe_put|].
  etrans; [exact Hle1|apply Ht].
Qed.

Lemma ts_process_ok w th cm sm fa ta rf :
  th_ok w th -> sample_ok sm ta ->
  exists err th' w', thread_stack__process alloc_ok junk process sym_start sym_name th cm sm fa ta rf w =
      Some (err, th', w') /\ th_ok w' th' /\ w_le w w'.
Proof.
  intros Hth Hs. unfold thread_stack__process.
  set (old := match thread__stack (Some th) (s_cpu sm) with Some pos => _ | None => _ end).
  assert (Hold : exists o th', old = Some (o, th', w) /\ th_ok w th' /\
    match o with
    | Some pos => exists ts, get_ts th' pos = Some ts /\ crp ts = true
    | None => forall ts, get_ts th' (slot th' (s_cpu sm)) = Some ts -> stack ts = None
    end).
  { unfold old. destruct (thread__stack (Some th) (s_cpu sm)) as [pos|] eqn:Et.
    - destruct (thread_stack_slot w th (s_cpu sm) pos Hth Et) as [-> (ts & Hg & Hts)].
      rewrite Hg. cbn [mbind option_bind]. destruct (crp ts) eqn:Ec.
      + eexists (Some _), th. split; [done|]. split; [done|]. by exists ts.
      + unfold thread_stack__reset, __thread_stack__free, __thread_stack__flush. rewrite Ec.
        cbn [mbind option_bind]. eexists None, _. split; [reflexivity|]. split.
        * apply (put_ts_ok w w th _ ts); try done; [apply Hth|apply zero_ts_ok].
        * intros t. change (slot (put_ts th (slot th (s_cpu sm)) _) (s_cpu sm)) with (slot th (s_cpu sm)).
          rewrite (get_put_eq th _ ts) by done. by intros [= <-].
    - exists None, th. split; [done|]. split; [done|]. intros ts Hg. by eapply thread_stack_none. }
  clearbody old. destruct Hold as (o & th1 & -> & Hth1 & Ho). cbn [mbind option_bind].
  set (ready := match o with Some _ => _ | None => _ end).
  assert (Hr : exists o th' w', ready = Some (o, th', w') /\ th_ok w' th' /\ w_le w w' /\
    match o with Some pos => exists ts, get_ts th' pos = Some ts /\ crp ts = true | None => True end).
  { unfold ready. destruct o as [pos|]; [by eexists (Some pos), th1, w|].
    destruct (new_put_ok w th1 (s_cpu sm) true (fun ts => set_comm ts cm) Hth1 Ho)
      as (o & th' & w' & E & H1 & H2 & H3); [done|].
    by exists o, th', w'. }
  clearbody ready. destruct Hr as (o2 & th2 & w2 & -> & Hth2 & Hle2 & Ho2). cbn [mbind option_bind].
  destruct o2 as [pos|]; [|by exists (- ENOMEM), th2, w2].
  destruct Ho2 as (ts & Hg & Hc). rewrite Hg. cbn [mbind option_bind].
  pose proof (get_ts_ok w2 th2 pos ts Hth2 Hg) as Hts.
  destruct (safe_tsafe _ _ _ _ (process_on_safe w2 ts (pid_ th2 =? tid th2) cm sm fa ta rf
    (ts_ok_st w2 ts (proj1 Hth2) Hts Hc) Hs)) as (err & ts' & w' & -> & Ht & _).
  cbn [mbind option_bind]. eexists _, _, w'. split; [done|]. split; [by eapply tsafe_put|].
  etrans; [exact Hle2|apply Ht].
Qed.

Lemma Forall_ts_le w w' l : w_le w w' -> Forall (ts_ok w) l -> Forall (ts_ok w') l.
Proof. intros Hle Hf. eapply Forall_impl; [exact Hf|]. intros t. by apply ts_ok_le. Qed.

(** The sizes of the arrays stay, so the first still has that of its own. *)
Lemma flush_each_ok n pos l w err :
  cpr_ok (cpr w) -> Forall (ts_ok w) l -> (pos + n = length l)%nat ->
  exists err' l' w', flush_each process n pos l w err = Some (err', l', w') /\
    cpr_ok (cpr w') /\ Forall (ts_ok w') l' /\ w_le w w' /\ arr_sz <$> l' = arr_sz <$> l.
Proof.
  revert pos l w err. induction n as [|n IH]; intros pos l w err Hc Hf Hn; simpl; [by exists err, l, w|].
  destruct (lookup_lt_is_Some_2 l pos) as [ts Hts]; [lia|]. rewrite Hts. cbn [mbind option_bind].
  destruct (flush_tsafe w ts Hc) as (e & ts' & w1 & -> & Hc1 & Ht1 & Hle1 & Har); [by eapply Forall_lookup_1|].
  cbn [mbind option_bind].
  destruct (IH (S pos) (<[pos := ts']> l) w1 (if e =? 0 then err else e) Hc1)
    as (err' & l' & w' & -> & Hc' & Hf' & Hle' & Hm).
  { apply Forall_insert; [by eapply Forall_ts_le|done]. }
  { rewrite length_insert. lia. }
  exists err', l', w'. split; [done|]. split; [done|]. split; [done|]. split; [by etrans|].
  rewrite Hm, list_fmap_insert. apply list_insert_id. by rewrite list_lookup_fmap, Hts, Har.
Qed.

Lemma free_each_ok n pos l w :
  cpr_ok (cpr w) -> Forall (ts_ok w) l -> (pos + n = length l)%nat ->
  exists w', free_each process n pos l w = Some w' /\ cpr_ok (cpr w') /\ w_le w w'.
Proof.
  revert pos l w. induction n as [|n IH]; intros pos l w Hc Hf Hn; simpl; [by exists w|].
  destruct (lookup_lt_is_Some_2 l pos) as [ts Hts]; [lia|]. rewrite Hts. cbn [mbind option_bind].
  unfold __thread_stack__free.
  destruct (flush_tsafe w ts Hc) as (e & ts' & w1 & E & Hc1 & Ht1 & Hle1 & Har); [by eapply Forall_lookup_1|].
  assert (Hz : cnt ts' = 0%nat).
  { unfold __thread_stack__flush in E. destruct (crp ts) eqn:Ec.
    - destruct (flush_entries_safe (cnt ts) w ts) as (e2 & t2 & w2 & E2 & _ & _ & _ & Hz & _); [|done|congruence].
      apply ts_ok_st; [done| |done]. by eapply Forall_lookup_1.
    - by injection E as _ <- _. }
  rewrite E. cbn [mbind option_bind].
  match goal with |- context [<[pos := ?t]> l] => set (freed := t) end.
  assert (Hfr : ts_ok w1 freed).
  { unfold freed, ts_ok, wf, vis, sz. simpl. rewrite Hz. split; [lia|constructor]. }
  destruct (IH (S pos) (<[pos := freed]> l) w1 Hc1) as (w' & -> & Hc' & Hle').
  { apply Forall_insert; [by eapply Forall_ts_le|done]. }
  { rewrite length_insert. lia. }
  exists w'. split; [done|]. split; [done|]. by etrans.
Qed.

Lemma flush_ok w th :
  th_ok w th -> exists err th' w', thread_stack__flush process th w = Some (err, th', w') /\
    th_ok w' th' /\ w_le w w'.
Proof.
  intros [Hc Hl]. unfold thread_stack__flush. destruct (tss th) as [l|] eqn:Et.
  2: { exists 0, th, w. split; [done|]. split; [split; [done|by rewrite Et]|done]. }
  destruct (Hl l eq_refl) as [(t & k & El & Ht) Hf]. 
  assert (Hhd : head l = Some t) by (by rewrite El). rewrite Hhd. cbn [mbind option_bind].
  destruct (flush_each_ok (arr_sz t) 0 l w 0 Hc Hf) as (err & l' & w' & -> & Hc' & Hf' & Hle & Hm); [done|].
  cbn [mbind option_bind]. eexists err, _, w'. split; [done|]. split; [|done].
  split; [done|]. intros l2 [= <-]. split; [|done]. rewrite El in Hm, Ht.
  destruct l' as [|t' k']; [done|]. exists t', k'. split; [done|]. injection Hm as -> Hk.
  apply (f_equal length) in Hk. rewrite !length_fmap in Hk. simpl in *. lia.
Qed.

Lemma free_ok w th :
  th_ok w th -> exists th' w', thread_stack__free process th w = Some (th', w') /\
    th_ok w' th' /\ w_le w w'.
Proof.
  intros [Hc Hl]. unfold thread_stack__free. destruct (tss th) as [l|] eqn:Et.
  2: { exists th, w. split; [done|]. split; [split; [done|by rewrite Et]|done]. }
  destruct (Hl l eq_refl) as [(t & k & El & Ht) Hf]. 
  assert (Hhd : head l = Some t) by (by rewrite El). rewrite Hhd. cbn [mbind option_bind].
  destruct (free_each_ok (arr_sz t) 0 l w Hc Hf) as (w' & -> & Hc' & Hle); [done|].
  eexists _, w'. split; [done|]. split; [|done]. by split.
Qed.

Lemma sample_fine w th cpu ips size a ks :
  th_ok w th -> (size <= length ips)%nat ->
  exists n ips', thread_stack__sample (Some th) cpu ips size a ks = Some (n, ips') /\ (n <= size)%nat.
Proof.
  intros Hth Hsz. unfold thread_stack__sample.
  destruct (Nat.ltb_spec size 2); [exists 0%nat, ips; split; [done|lia]|].
  destruct ips as [|i0 [|i1 ips]]; [simpl in Hsz; lia..|].
  unfold wr_ip. cbn [length Nat.ltb Nat.leb insert list_insert mbind option_bind].
  destruct (thread__stack (Some th) cpu) as [pos|] eqn:Et; [|by eexists 2%nat, _].
  destruct (thread_stack_slot w th cpu pos Hth Et) as [_ (ts & Hg & Hts)].
  cbn [mbind option_bind]. rewrite Hg. cbn [mbind option_bind].
  edestruct (sample_loop_spec ts ks size (cnt ts) 2) as [-> Hle]; [apply Hts|lia| |by eauto].
  simpl in *. lia.
Qed.

Lemma set_trace_nr_ok w th cpu nr :
  th_ok w th -> exists th' w', thread_stack__set_trace_nr process th cpu nr w = Some (th', w') /\
    th_ok w' th' /\ w_le w w'.
Proof.
  intros Hth. unfold thread_stack__set_trace_nr.
  destruct (thread__stack (Some th) cpu) as [pos|] eqn:Et; [|by exists th, w].
  destruct (thread_stack_slot w th cpu pos Hth Et) as [_ (ts & Hg & Hts)]. rewrite Hg.
  cbn [mbind option_bind].
  destruct (change_trace_nr_tsafe w ts nr (proj1 Hth) Hts) as (ts' & w' & -> & Ht).
  cbn [mbind option_bind]. eexists _, w'. split; [done|]. split; [by eapply tsafe_put|apply Ht].
Qed.

Lemma ts_run_op_ok w th o :
  th_ok w th -> op_ok o -> exists th' w', run_op th w o = Some (th', w') /\ th_ok w' th' /\ w_le w w'.
Proof.
  intros Hth Ho. destruct o as [b|cm sm fa ta rf|cpu nr|cpu ips size a ks| |]; cbn [run_op op_ok] in *.
  - destruct (event_ok w th b Hth Ho) as (err & th' & w' & -> & ? & ?). by exists th', w'.
  - destruct (ts_process_ok w th cm sm fa ta rf Hth Ho) as (err & th' & w' & -> & ? & ?). by exists th', w'.
  - by apply set_trace_nr_ok.
  - destruct (sample_fine w th cpu ips size a ks Hth Ho) as (n & i' & -> & _). by exists th, w.
  - destruct (flush_ok w th Hth) as (err & th' & w' & -> & ? & ?). by exists th', w'.
  - by apply free_ok.
Qed.

Lemma ts_run_ops_ok w th os :
  th_ok w th -> Forall op_ok os ->
  exists th' w', run_ops th w os = Some (th', w') /\ th_ok w' th' /\ w_le w w'.
Proof.
  intros Hth Hos. revert w th Hth. induction Hos as [|o os Ho Hos IH]; intros w th Hth; [by exists th, w|].
  cbn [run_ops]. destruct (ts_run_op_ok w th o Hth Ho) as (th1 & w1 & -> & Hth1 & Hle1).
  destruct (IH w1 th1 Hth1) as (th2 & w2 & E & Hth2 & Hle2). exists th2, w2.
  split; [exact E|]. split; [done|]. by etrans.
Qed.


(** ** Calls that return *)

Record pstep := PStep {
  p_sm : branch_sample;
  p_from : addr_location;
  p_to : addr_location;
  p_ref : Z
}.

(** What a report says of a call; the db_ids are the callback's affair. *)
Record report := Report {
  r_path : list (Z * Z);
  r_call_time : Z;
  r_return_time : Z;
  r_branches : Z;
  r_call_ref : Z;
  r_return_ref : Z;
  r_flags : Z
}.

Definition reported (cm : Z) (r : call_path_root) (cr : call_return) (rep : report) : Prop :=
  cr_comm cr = cm /\ (exists n, cr_cp cr = Some n /\ names r n (r_path rep)) /\
  call_time cr = r_call_time rep /\ return_time cr = r_return_time rep /\
  cr_branch_count cr = r_branches rep /\ call_ref cr = r_call_ref rep /\
  return_ref cr = r_return_ref rep /\ flags cr = r_flags rep.

Definition frame_of (a : addr_location) (i : Z) : Z * Z := norm (al_sym a, i).

Definition after_call (sm : branch_sample) : Z := u64 (ip sm + insn_len sm).

Definition is_call (p : pstep) : Prop :=
  let sm := p_sm p in
  hasf (s_flags sm) PERF_IP_FLAG_CALL = true /\ ip sm <> 0 /\ s_addr sm <> 0 /\
  after_call sm <> s_addr sm.

Definition is_return (p : pstep) (addr : Z) : Prop :=
  let sm := p_sm p in
  hasf (s_flags sm) PERF_IP_FLAG_CALL = false /\ hasf (s_flags sm) PERF_IP_FLAG_RETURN = true /\
  ip sm <> 0 /\ s_addr sm = addr /\ addr <> 0.

(** A branch within a symbol. *)
Definition is_jump (p : pstep) : Prop :=
  let fl := s_flags (p_sm p) in
  hasf fl PERF_IP_FLAG_CALL = false /\ hasf fl PERF_IP_FLAG_RETURN = false /\
  hasf fl PERF_IP_FLAG_TRACE_BEGIN = false /\ hasf fl PERF_IP_FLAG_TRACE_END = false /\
  al_sym (p_from p) = al_sym (p_to p).

Definition call_report (fs : list (Z * Z)) (c r : pstep) (n : nat) : report :=
  Report fs (time (p_sm c)) (time (p_sm r)) (u64 (Z.of_nat (S n))) (p_ref c) (p_ref r) 0.

(** Branches in which every call is followed by its return, made in the frames
    [fs], and the reports of the calls as they return. *)
Inductive balanced : list (Z * Z) -> list pstep -> list report -> Prop :=
| bal_nil fs : balanced fs [] []
| bal_jump fs j ps reps : is_jump j -> balanced fs ps reps -> balanced fs (j :: ps) reps
| bal_call fs c body r ps reps1 reps2 :
    is_call c -> is_return r (after_call (p_sm c)) ->
    balanced (fs ++ [frame_of (p_to c) (s_addr (p_sm c))]) body reps1 -> balanced fs ps reps2 ->
    balanced fs (c :: body ++ r :: ps)
      (reps1 ++ call_report (fs ++ [frame_of (p_to c) (s_addr (p_sm c))]) c r (length body) :: reps2).

Section Balanced.
Variable cm : Z.
Variable leader : bool.
Hypothesis Hal : forall n, alloc_ok n = true.
Hypothesis Hproc : forall l cr d, (process l cr d).1 = 0.

(** A sample at a stack that has a processor. *)
Definition step_on (ts : thread_stack) (w : world) (p : pstep) : option (Z * thread_stack * world) :=
  if crp ts then
    process_on alloc_ok junk process sym_start sym_name ts w leader cm (p_sm p) (p_from p) (p_to p) (p_ref p)
  else None.

Fixpoint run_on (ts : thread_stack) (w : world) (ps : list pstep) : option (list Z * thread_stack * world) :=
  match ps with
  | [] => Some ([], ts, w)
  | p :: ps =>
      '(err, ts, w) ← step_on ts w p;
      '(errs, ts, w) ← run_on ts w ps;
      Some (err :: errs, ts, w)
  end.

Lemma run_on_app ts w ps qs :
  run_on ts w (ps ++ qs) =
  ('(e1, ts, w) ← run_on ts w ps; '(e2, ts, w) ← run_on ts w qs; Some (e1 ++ e2, ts, w)).
Proof.
  revert ts w. induction ps as [|p ps IH]; intros ts w; simpl.
  { destruct (run_on ts w qs) as [[[]]|]; done. }
  destruct (step_on ts w p) as [[[err t1] w1]|]; simpl; [|done]. rewrite IH.
  destruct (run_on t1 w1 ps) as [[[e1 t2] w2]|]; simpl; [|done].
  by destruct (run_on t2 w2 qs) as [[[]]|].
Qed.

(** The frames of the stack [v ++ [e]], the only one of its thread. *)
Record at_frame (fs : list (Z * Z)) (v : list thread_stack_entry) (e : thread_stack_entry)
    (ts : thread_stack) (w : world) : Prop := {
  af_cpr : cpr_ok (cpr w);
  af_wf : wf ts;
  af_vis : vis ts = v ++ [e];
  af_comm : comm ts = cm;
  af_crp : crp ts = true;
  af_arr : arr_sz ts = 1%nat;
  af_cp : exists n, cp e = Some n /\ names (cpr w) n fs
}.

Lemma at_frame_cnt fs v e ts w : at_frame fs v e ts w -> cnt ts = S (length v).
Proof.
  intros Ha. rewrite <- vis_length by apply Ha. rewrite (af_vis _ _ _ _ _ Ha), length_app. simpl. lia.
Qed.

(** A sample at a stack with a bottom. *)
Lemma step_on_eq fs v e ts w p :
  at_frame fs v e ts w ->
  exists ts1, step_on ts w p =
      process_branch alloc_ok junk process sym_start sym_name ts1 w (p_sm p) (p_from p) (p_to p) (p_ref p) (rstate ts) /\
    at_frame fs v e ts1 w /\ ts_branch_count ts1 = u64 (ts_branch_count ts + 1) /\
    last_time ts1 = time (p_sm p).
Proof.
  intros Ha. unfold step_on, process_on. rewrite (af_crp _ _ _ _ _ Ha).
  set (t1 := if bool_decide (rstate ts = X86_RETPOLINE_DETECTED) then _ else ts).
  assert (Ht : stack t1 = stack ts /\ cnt t1 = cnt ts /\ comm t1 = comm ts /\
    ts_branch_count t1 = ts_branch_count ts /\ crp t1 = crp ts /\ arr_sz t1 = arr_sz ts)
    by (unfold t1; by destruct (bool_decide _)).
  clearbody t1. destruct Ht as (H1 & H2 & H3 & H4 & H5 & H6).
  rewrite H3, (af_comm _ _ _ _ _ Ha), Z.eqb_refl. cbn [negb andb mbind option_bind].
  rewrite H2, (at_frame_cnt _ _ _ _ _ Ha). cbn.
  exists (count_branch t1 (time (p_sm p))). split; [done|]. split; [|simpl; by rewrite H4].
  destruct Ha as [Hc Hw Hv Hcm Hcr Har Hcp]. constructor; try done; [..|simpl; congruence|simpl; congruence].
  - unfold wf, sz in *. simpl. by rewrite H1, H2.
  - unfold vis in *. simpl. by rewrite H1, H2.
  - simpl. congruence.
Qed.

Lemma jump_step fs v e ts w p :
  at_frame fs v e ts w -> is_jump p ->
  exists ts1, step_on ts w p = Some (0, ts1, w) /\ at_frame fs v e ts1 w /\
    ts_branch_count ts1 = u64 (ts_branch_count ts + 1) /\ last_time ts1 = time (p_sm p).
Proof.
  intros Ha (H1 & H2 & H3 & H4 & H5).
  destruct (step_on_eq fs v e ts w p Ha) as (ts1 & -> & Ha1 & Hb). exists ts1. split; [|done].
  unfold process_branch. rewrite H1, H2, H3, H4, H5, Z.eqb_refl. cbn [negb].
  by rewrite andb_false_r.
Qed.

Lemma call_step fs v e ts w p :
  at_frame fs v e ts w -> is_call p ->
  exists ts1 w1 n, step_on ts w p = Some (0, ts1, w1) /\
    at_frame (fs ++ [frame_of (p_to p) (s_addr (p_sm p))]) (v ++ [e])
      (set_entry (after_call (p_sm p)) (time (p_sm p)) (p_ref p) (u64 (ts_branch_count ts + 1)) n false
         (hasf (s_flags (p_sm p)) PERF_IP_FLAG_TRACE_END)) ts1 w1 /\
    paths (cpr w) `prefix_of` paths (cpr w1) /\ log w1 = log w /\
    ts_branch_count ts1 = u64 (ts_branch_count ts + 1) /\ last_time ts1 = time (p_sm p).
Proof.
  intros Ha (H1 & H2 & H3 & H4).
  destruct (step_on_eq fs v e ts w p Ha) as (t1 & -> & Ha1 & Hb & Hlt).
  unfold process_branch. rewrite H1, (proj2 (Z.eqb_neq _ _) H2), (proj2 (Z.eqb_neq _ _) H3). cbn [orb].
  fold (after_call (p_sm p)). rewrite (proj2 (Z.eqb_neq _ _) H4).
  destruct Ha1 as [Hc Hw Hv Hcm Hcr Har (n & Hn & Hnm)].
  rewrite (top_entry_snoc t1 v e Hw Hv). cbn [mbind option_bind]. rewrite Hn. unfold find_path.
  destruct (findnew_spec alloc_ok (cpr w) (allocs w) n (al_sym (p_to p)) (s_addr (p_sm p)) (kernel_start t1)
    Hc (names_lt _ _ _ Hc Hnm)) as (c & r & a & -> & Hr & Hpre & Hcn).
  cbn [mbind option_bind].
  destruct c as [c|]; [|destruct Hcn as [m Hm]; by rewrite Hal in Hm].
  destruct Hcn as (pa & Hpa & Hpar & Hkey).
  destruct (push_cp_eq t1 (World r (log w) a) (after_call (p_sm p)) (time (p_sm p)) (p_ref p) c false
    (hasf (s_flags (p_sm p)) PERF_IP_FLAG_TRACE_END) Hw)
    as (err & t2 & w2 & -> & Hw2 & Hh2 & Hcp2 & Hlg2 & [[-> Hv2]|(_ & _ & Hbad)]); [|by rewrite Hal in Hbad].
  cbn [mbind option_bind]. injection Hh2 as _ Hbc _ Hlt2 Hcr2 Hcm2 Har2 _. rewrite Hb in Hv2.
  assert (Haf : forall t3, stack t3 = stack t2 -> cnt t3 = cnt t2 -> comm t3 = comm t2 -> crp t3 = crp t2 ->
    arr_sz t3 = arr_sz t2 ->
    at_frame (fs ++ [frame_of (p_to p) (s_addr (p_sm p))]) (v ++ [e])
      (set_entry (after_call (p_sm p)) (time (p_sm p)) (p_ref p) (u64 (ts_branch_count ts + 1)) c false
         (hasf (s_flags (p_sm p)) PERF_IP_FLAG_TRACE_END)) t3 w2).
  { intros t3 E1 E2 E3 E4 E5. constructor.
    - by rewrite Hcp2.
    - unfold wf, sz. by rewrite E1, E2.
    - unfold vis. rewrite E1, E2. fold (vis t2). by rewrite Hv2, Hv.
    - congruence.
    - congruence.
    - congruence.
    - exists c. split; [done|]. rewrite Hcp2. simpl. unfold frame_of. rewrite <- Hkey.
      apply (names_child r c pa n fs); [done..|]. by eapply names_mono. }
  assert (Hpre2 : paths (cpr w) `prefix_of` paths (cpr w2)) by (by rewrite Hcp2).
  match goal with |- context [if ?b then Some (0, set_rstate _ _, _) else _] => destruct b end.
  - exists (set_rstate t2 X86_RETPOLINE_DETECTED), w2, c. split; [done|]. split; [by apply Haf|].
    split; [done|]. split; [done|]. simpl. split; congruence.
  - exists t2, w2, c. split; [done|]. split; [by apply Haf|]. split; [done|]. split; [done|].
    split; congruence.
Qed.

Lemma return_step fs gs v e f ts w p :
  at_frame gs (v ++ [e]) f ts w -> is_return p (ret_addr f) -> non_call f = false ->
  (exists n, cp e = Some n /\ names (cpr w) n fs) ->
  exists t ts1 id, step_on ts w p =
      Some (0, ts1, logged w (make_call_return t f (time (p_sm p)) (p_ref p) false)) /\
    at_frame fs v (set_db_id id e) ts1 (logged w (make_call_return t f (time (p_sm p)) (p_ref p) false)) /\
    comm t = cm /\ ts_branch_count t = u64 (ts_branch_count ts + 1) /\
    ts_branch_count ts1 = u64 (ts_branch_count ts + 1) /\ last_time ts1 = time (p_sm p).
Proof.
  intros Ha (H1 & H2 & H3 & H4 & H5) Hnc He.
  destruct (step_on_eq gs (v ++ [e]) f ts w p Ha) as (t & -> & Ha1 & Hb & Hlt).
  pose proof (at_frame_cnt _ _ _ _ _ Ha1) as Hcnt. rewrite length_app, Nat.add_1_r in Hcnt.
  unfold process_branch. rewrite H1, H2, (proj2 (Z.eqb_neq _ _) H3), H4, (proj2 (Z.eqb_neq _ _) H5).
  cbn [orb].
  destruct Ha1 as [Hc Hw Hv Hcm Hcr Har Hcp].
  rewrite (top_entry_snoc t (v ++ [e]) f Hw Hv). cbn [mbind option_bind]. rewrite Z.eqb_refl. cbn [negb].
  set (thunk := if _ && (2 <? cnt t)%nat then Some false else Some false).
  assert (Ht : thunk = Some false) by (unfold thunk; by destruct (_ && _)).
  clearbody thunk. subst thunk. cbn [mbind option_bind].
  unfold thread_stack__pop_cp. rewrite Hcnt. cbn [Nat.eqb mbind option_bind].
  rewrite (top_entry_snoc t (v ++ [e]) f Hw Hv). cbn [mbind option_bind].
  rewrite Z.eqb_refl, Hnc. cbn [negb andb].
  destruct (pop_return_eq t w (v ++ [e]) f (time (p_sm p)) (p_ref p) false Hw Hv)
    as (ts1 & -> & Hw1 & Hv1 & Hh). cbn [mbind option_bind]. rewrite Hproc. cbn [Z.leb Z.compare].
  rewrite upd_last_snoc in Hv1. injection Hh as _ Hb1 _ Hlt1 Hcr1 Hcm1 Har1 _.
  eexists t, ts1, _. split; [done|]. split; [|split; [done|split; [done|split; congruence]]].
  constructor; try done; congruence.
Qed.

Lemma u64_add_l a b : u64 (u64 a + b) = u64 (a + b).
Proof. unfold wrap. by rewrite Zplus_mod_idemp_l. Qed.

(** The branches counted between a call (after its own) and its return. *)
Lemma branches_between b0 b1 b2 bt n :
  b1 = u64 (b0 + 1) -> u64 b2 = u64 (b1 + n) -> bt = u64 (b2 + 1) ->
  u64 (bt - u64 (b0 + 1)) = u64 (n + 1).
Proof.
  unfold wrap. change (2 ^ 64) with 18446744073709551616. intros. Z.div_mod_to_equations. lia.
Qed.

Lemma branches_total b0 b1 b2 b3 b4 n m :
  b1 = u64 (b0 + 1) -> u64 b2 = u64 (b1 + n) -> b3 = u64 (b2 + 1) -> u64 b4 = u64 (b3 + m) ->
  u64 b4 = u64 (b0 + (n + m + 2)).
Proof.
  unfold wrap. change (2 ^ 64) with 18446744073709551616. intros. Z.div_mod_to_equations. lia.
Qed.

Lemma reported_mono r r' crs reps :
  paths r `prefix_of` paths r' -> Forall2 (reported cm r) crs reps -> Forall2 (reported cm r') crs reps.
Proof.
  intros Hp Hf. eapply Forall2_impl; [exact Hf|].
  intros cr rep (H1 & (n & Hn & Hnm) & Hr). split; [done|]. split; [|done].
  exists n. split; [done|]. by eapply names_mono.
Qed.

Lemma balanced_run fs ps reps v e ts w :
  balanced fs ps reps -> at_frame fs v e ts w ->
  exists ts' w' id crs, run_on ts w ps = Some (replicate (length ps) 0, ts', w') /\
    at_frame fs v (set_db_id id e) ts' w' /\ paths (cpr w) `prefix_of` paths (cpr w') /\
    log w' = log w ++ crs /\ Forall2 (reported cm (cpr w')) crs reps /\
    u64 (ts_branch_count ts') = u64 (ts_branch_count ts + Z.of_nat (length ps)) /\
    last_time ts' = default (last_time ts) (time ∘ p_sm <$> list.last ps).
Proof.
  intros Hb. revert v e ts w.
  induction Hb as [fs|fs j ps reps Hj Hb IH|fs c body r ps reps1 reps2 Hcall Hret _ IH1 _ IH2];
    intros v e ts w Ha.
  - exists ts, w, (db_id e), []. split; [done|]. split; [by destruct e|]. split; [done|].
    split; [by rewrite app_nil_r|]. split; [done|]. simpl. by rewrite Z.add_0_r.
  - destruct (jump_step fs v e ts w j Ha Hj) as (t1 & E1 & Ha1 & Hb1 & Hlt1).
    destruct (IH v e t1 w Ha1) as (ts' & w' & id & crs & E & Ha' & Hp & Hl & Hf & Hbc & Hlt).
    exists ts', w', id, crs. cbn [run_on]. rewrite E1. cbn [mbind option_bind]. rewrite E.
    split; [done|]. split; [done|]. split; [done|]. split; [done|]. split; [done|].
    split; [rewrite Hbc, Hb1, u64_add_l; f_equal; simpl; lia|].
    rewrite last_cons. destruct (list.last ps); simpl in *; congruence.
  - destruct (call_step fs v e ts w c Ha Hcall) as (t1 & w1 & n & E1 & Ha1 & Hp1 & Hl1 & Hb1 & _).
    destruct (IH1 _ _ _ _ Ha1) as (t2 & w2 & id2 & crs1 & E2 & Ha2 & Hp2 & Hl2 & Hf2 & Hb2 & _).
    assert (He : exists n, cp e = Some n /\ names (cpr w2) n fs).
    { destruct (af_cp _ _ _ _ _ Ha) as (m & Hm & Hnm). exists m. split; [done|].
      eapply names_mono; [|exact Hnm]. by etrans. }
    destruct (return_step fs _ v e _ t2 w2 r Ha2 Hret eq_refl He) as (t & t3 & id3 & E3 & Ha3 & Hcm & Hbt & Hb3 & Hlt3).
    set (cr := make_call_return _ _ _ _ _) in *. set (w3 := logged w2 cr) in *.
    destruct (IH2 _ _ _ _ Ha3) as (t4 & w4 & id4 & crs2 & E4 & Ha4 & Hp4 & Hl4 & Hf4 & Hb4 & Hlt4).
    exists t4, w4, id4, (crs1 ++ cr :: crs2). cbn [run_on]. rewrite E1. cbn [mbind option_bind].
    rewrite run_on_app, E2. cbn [mbind option_bind run_on]. rewrite E3. cbn [mbind option_bind].
    rewrite E4. cbn [mbind option_bind]. split.
    { do 3 f_equal. cbn [length replicate]. by rewrite length_app, replicate_add. }
    split; [exact Ha4|]. split; [etrans; [exact Hp1|]; by etrans|]. split.
    { rewrite Hl4. unfold w3. cbn [log logged]. rewrite Hl2, Hl1, <- !app_assoc. done. }
    split.
    { apply Forall2_app; [by apply (reported_mono (cpr w2))|]. constructor; [|done].
      destruct (af_cp _ _ _ _ _ Ha2) as (m & Hm & Hnm).
      split; [done|]. split; [exists m; split; [done|]; by eapply names_mono|].
      split; [done|]. split; [done|]. split; [|done].
      transitivity (u64 (Z.of_nat (length body) + 1)); [|simpl; f_equal; lia].
      exact (branches_between _ _ _ _ _ Hb1 Hb2 Hbt). }
    split.
    { rewrite (branches_total _ _ _ _ _ _ _ Hb1 Hb2 Hb3 Hb4). f_equal. cbn [length].
      rewrite length_app. simpl. lia. }
    change (c :: body ++ r :: ps) with ((c :: body) ++ r :: ps). rewrite last_app_cons, last_cons.
    rewrite Hlt4. destruct (list.last ps); simpl in *; congruence.
Qed.
End Balanced.

(** ** From the first branch of a thread to its end *)

Fixpoint run_process (th : thread) (w : world) (cm : Z) (ps : list pstep)
    : option (list Z * thread * world) :=
  match ps with
  | [] => Some ([], th, w)
  | p :: ps =>
      '(err, th, w) ← thread_stack__process alloc_ok junk process sym_start sym_name th cm
                        (p_sm p) (p_from p) (p_to p) (p_ref p) w;
      '(errs, th, w) ← run_process th w cm ps;
      Some (err :: errs, th, w)
  end.

Section Thread.
Variable th : thread.
Variable cm : Z.
Hypothesis Hcpu : thread_stack__per_cpu th = false.
Hypothesis Hal : forall n, alloc_ok n = true.

#[local] Abbreviation leader := (pid_ th =? tid th).

Lemma process_next ts w p :
  crp ts = true ->
  thread_stack__process alloc_ok junk process sym_start sym_name (set_tss th (Some [ts])) cm
    (p_sm p) (p_from p) (p_to p) (p_ref p) w =
  ('(err, ts, w) ← step_on cm leader ts w p; Some (err, set_tss th (Some [ts]), w)).
Proof.
  intros Hc. unfold thread_stack__process, thread__stack.
  change (thread_stack__per_cpu (set_tss th (Some [ts]))) with (thread_stack__per_cpu th). rewrite Hcpu.
  cbn [tss set_tss get_ts mbind option_bind lookup list_lookup]. rewrite Hc. cbn [mbind option_bind].
  unfold step_on. rewrite Hc. cbn [get_ts tss set_tss mbind option_bind pid_ tid].
  change ([ts] !! 0%nat) with (Some ts). cbn [mbind option_bind].
  by destruct (process_on _ _ _ _ _ _ _ _ _ _ _ _) as [[[]]|].
Qed.

Lemma run_process_next ts w ps errs ts' w' :
  run_on cm leader ts w ps = Some (errs, ts', w') ->
  run_process (set_tss th (Some [ts])) w cm ps = Some (errs, set_tss th (Some [ts']), w').
Proof.
  revert ts w errs. induction ps as [|p ps IH]; intros ts w errs; simpl; [by intros [= <- <- <-]|].
  intros E. destruct (crp ts) eqn:Ec; [|by unfold step_on in E; rewrite Ec in E].
  rewrite (process_next ts w p Ec).
  destruct (step_on cm leader ts w p) as [[[err t1] w1]|]; [|done]. cbn [mbind option_bind] in *.
  destruct (run_on cm leader t1 w1 ps) as [[[es t2] w2]|] eqn:E2; [|done].
  injection E as <- <- <-. by rewrite (IH _ _ _ E2).
Qed.

(** The stack of a thread that had none. *)
Definition first_stack (w : world) : thread_stack :=
  let '(ks, r) := match machine th with
                  | Some (ks, x86) => (ks, if x86 : bool then X86_RETPOLINE_POSSIBLE else RETPOLINE_NONE)
                  | None => (Z.shiftl 1 63, RETPOLINE_NONE)
                  end in
  ThreadStack (Some (junk (S (allocs w)) <$> seq 0 STACK_GROWTH)) 0 0 0 ks 0 true cm 1 r.

Lemma process_first w p :
  tss th = None ->
  thread_stack__process alloc_ok junk process sym_start sym_name th cm
    (p_sm p) (p_from p) (p_to p) (p_ref p) w =
  ('(err, ts, w) ← step_on cm leader (first_stack w) (count_alloc (count_alloc w)) p;
   Some (err, set_tss th (Some [ts]), w)).
Proof.
  intros Ht. unfold thread_stack__process, thread__stack, thread_stack__new, array_for.
  rewrite Hcpu, Ht. cbn [mbind option_bind]. rewrite Hcpu, Ht, Hal.
  cbn -[STACK_GROWTH process_on step_on first_stack].
  unfold thread_stack__init, thread_stack__grow. rewrite Hal.
  cbn -[STACK_GROWTH process_on step_on first_stack seq].
  unfold step_on, first_stack. cbn -[STACK_GROWTH process_on seq].
  destruct (machine th) as [[ks x86]|]; cbn -[STACK_GROWTH process_on seq];
    by destruct (process_on _ _ _ _ _ _ _ _ _ _ _ _) as [[[]]|].
Qed.

(** The entry of the symbol in which the trace starts. *)
Definition bottom_entry (p : pstep) (n : nat) : thread_stack_entry :=
  set_entry (ip (p_sm p)) (time (p_sm p)) (p_ref p) 0 n true false.

Lemma first_step w w1 p :
  ip (p_sm p) <> 0 -> cpr_ok (cpr w1) ->
  exists tsb wb n, step_on cm leader (first_stack w) w1 p = step_on cm leader tsb wb p /\
    at_frame cm [frame_of (p_from p) (ip (p_sm p))] [] (bottom_entry p n) tsb wb /\
    log wb = log w1 /\ ts_branch_count tsb = 0.
Proof.
  intros Hip Hok. set (f := first_stack w).
  assert (Hf : crp f = true /\ comm f = cm /\ cnt f = 0%nat /\ vis f = [] /\ wf f /\ arr_sz f = 1%nat /\
    ts_branch_count f = 0 /\ rstate f <> X86_RETPOLINE_DETECTED).
  { unfold f, first_stack, wf.
    destruct (machine th) as [[ks [|]]|]; cbn [crp comm cnt vis arr_sz ts_branch_count rstate take];
      repeat (split; [reflexivity || apply Nat.le_0_l|]); discriminate. }
  clearbody f. destruct Hf as (Hc & Hcm & Hn & Hv & Hw & Har & Hb & Hr).
  destruct (findnew_spec alloc_ok (cpr w1) (allocs w1) 0 (al_sym (p_from p)) (ip (p_sm p)) (kernel_start f)
    Hok (cpr_ok_pos _ Hok)) as (c & r & a & E & Hrok & Hpre & Hcn).
  destruct c as [c|]; [|destruct Hcn as [m Hm]; by rewrite Hal in Hm].
  destruct Hcn as (pa & Hpa & Hpar & Hkey).
  destruct (push_cp_eq f (World r (log w1) a) (ip (p_sm p)) (time (p_sm p)) (p_ref p) c true false Hw)
    as (err & t & wb & Ep & Hwt & Hh & Hcp & Hlg & [[-> Hvt]|(_ & _ & Hbad)]); [|by rewrite Hal in Hbad].
  rewrite Hv, Hb in Hvt. injection Hh as _ Hbt _ _ Hct Hcmt Hart Hrt.
  assert (Hcnt : cnt t = 1%nat) by (by rewrite <- vis_length, Hvt).
  exists t, wb, c. split; [|split; [|split; [done|congruence]]].
  - unfold step_on, process_on. rewrite Hct, Hc, Hrt, (bool_decide_eq_false_2 _ Hr), Hcmt, Hcm, Z.eqb_refl.
    cbn [negb andb mbind option_bind Z.eqb]. rewrite Hn, Hcnt. cbn [Nat.eqb].
    unfold thread_stack__bottom. rewrite (proj2 (Z.eqb_neq _ _) Hip). cbn [negb].
    unfold find_path. rewrite E. cbn [mbind option_bind]. rewrite Ep. done.
  - constructor; try congruence; try done.
    + by rewrite Hcp.
    + exists c. split; [done|]. rewrite Hcp. simpl. unfold frame_of. rewrite <- Hkey.
      apply (names_child r c pa 0%nat []); [done..|constructor].
Qed.

(** Flushing what is left of the stack: the symbol in which the trace started. *)
Lemma flush_bottom ts w fs e :
  at_frame cm fs [] e ts w -> (forall l cr d, (process l cr d).1 = 0) ->
  exists th' w', thread_stack__flush process (set_tss th (Some [ts])) w = Some (0, th', w') /\
    log w' = log w ++ [make_call_return ts e (last_time ts) 0 true].
Proof.
  intros Ha Hp. unfold thread_stack__flush. cbn [tss set_tss head mbind option_bind].
  rewrite (af_arr _ _ _ _ _ _ Ha). cbn [flush_each]. change ([ts] !! 0%nat) with (Some ts).
  cbn [mbind option_bind]. unfold __thread_stack__flush.
  rewrite (af_crp _ _ _ _ _ _ Ha), (at_frame_cnt _ _ _ _ _ _ Ha). cbn [flush_entries length].
  destruct (pop_return_eq ts w [] e (last_time ts) 0 true (af_wf _ _ _ _ _ _ Ha) (af_vis _ _ _ _ _ _ Ha))
    as (t' & -> & _). cbn [mbind option_bind]. rewrite Hp. cbn. by eexists _, _.
Qed.

(** C30: Branch samples of a thread in which every call is followed by its return
    are reported exactly: when [thread_stack__process] has seen them from the
    first one on, every call has been given to the callback once, as it
    returned, inner calls first, with the call path of the frames it was made
    in, its times and references, the number of branches up to its return and no
    flags, and nothing else has been; a jump within a symbol leaves no trace but
    in the counts.  The flush at the end then reports the symbol the trace
    started in, marked as neither called nor returned. *)
Theorem balanced_calls_reported (a0 : nat) (p : pstep) (ps : list pstep) (reps : list report) :
  tss th = None -> ip (p_sm p) <> 0 -> (forall l cr d, (process l cr d).1 = 0) ->
  let start := [frame_of (p_from p) (ip (p_sm p))] in
  balanced start (p :: ps) reps ->
  exists th' w' th2 w2 b,
    run_process th (World call_path_root__new [] a0) cm (p :: ps) =
      Some (replicate (length (p :: ps)) 0, th', w') /\
    Forall2 (reported cm (cpr w')) (log w') reps /\
    thread_stack__flush process th' w' = Some (0, th2, w2) /\ log w2 = log w' ++ [b] /\
    reported cm (cpr w') b
      (Report start (time (p_sm p)) (time (p_sm (default p (list.last ps)))) (u64 (Z.of_nat (length (p :: ps))))
         (p_ref p) 0 (Z.lor CALL_RETURN_NO_CALL CALL_RETURN_NO_RETURN)).
Proof.
  intros Ht Hip Hp start Hbal. set (w0 := World _ _ _).
  destruct (first_step w0 (count_alloc (count_alloc w0)) p Hip cpr_ok_new) as (tsb & wb & n & E1 & Ha & Hlg & Hb).
  destruct (balanced_run cm leader Hal Hp _ _ _ _ _ _ _ Hbal Ha)
    as (ts' & w' & id & crs & E & Ha' & _ & Hl & Hf & Hbc & Hlt).
  destruct (flush_bottom ts' w' _ _ Ha' Hp) as (th2 & w2 & Efl & Hl2).
  exists (set_tss th (Some [ts'])), w', th2, w2. eexists. split; [|split; [|split; [exact Efl|split; [exact Hl2|]]]].
  - cbn [run_process run_on] in *. rewrite process_first by done. rewrite E1.
    destruct (step_on cm leader tsb wb p) as [[[err t1] w1]|]; [|done]. cbn [mbind option_bind] in *.
    destruct (run_on cm leader t1 w1 ps) as [[[es t2] w3]|] eqn:E2; [|done].
    injection E as -> -> -> ->. by rewrite (run_process_next _ _ _ _ _ _ E2).
  - rewrite Hl, Hlg. exact Hf.
  - destruct (af_cp _ _ _ _ _ _ Ha') as (m & Hm & Hnm).
    split; [by apply Ha'|]. split; [by exists m|]. split; [done|]. split.
    { cbn [return_time make_call_return]. rewrite Hlt, last_cons. by destruct (list.last ps). }
    split; [|done]. cbn -[length]. rewrite Z.sub_0_r, Hbc, Hb. done.
Qed.
End Thread.
End Ops.

(** * Concrete traces *)

#[local] Instance plain_tree : CallTree := {| crebalance _ t := t; crebalance_elems _ _ := eq_refl |}.

Definition blank : thread_stack_entry := Entry 0 0 0 0 0 None false false false.
Definition good_alloc (n : nat) : bool := true.
Definition no_callback (_ : list call_return) (_ : call_return) (_ : option Z) : Z * Z := (0, 7).

Definition demo_thread : thread := Thread 5 5 (Some (1000, true)) None.

(** Two calls and the return of the second, then a return that matches none. *)
Definition demo_branches : list branch :=
  [Branch 0 3 100 200 5 1; Branch 0 3 210 2000 2 1; Branch 0 3 2010 300 4 1;
   Branch 0 5 310 2014 1 1; Branch 0 5 2020 77 1 1].

Lemma event_stacks_refine_witness :
  exists th' w',
    run_events good_alloc (fun _ _ => blank) no_callback (Some demo_thread)
      (World call_path_root__new [] 0) demo_branches = Some ([0; 0; 0; 0; 0], Some th', w') /\
    thread_stack__depth (Some th') 0 = Some 2%nat /\
    thread_stack__sample (Some th') 0 [0; 0; 0; 0; 0; 0] 5 2020 1000 =
      Some (5%nat, [PERF_CONTEXT_KERNEL; 2020; PERF_CONTEXT_USER; 212; 105; 0]).
Proof.
  destruct (event_stacks_refine good_alloc (fun _ _ => blank) no_callback demo_branches demo_thread 0
    (fun _ => eq_refl) eq_refl) as (th' & w' & E & Hs).
  exists th', w'. split; [exact E|]. destruct (Hs 0) as [Hd Hc]. split; [exact Hd|].
  refine (proj2 (Hc [0; 0; 0; 0; 0; 0] 5%nat 2020 1000 _)). simpl. lia.
Defined.

Definition demo_sample (fl i a t : Z) : branch_sample := PerfSample i a t fl 5 0.

(** A call from symbol 1 to symbol 2 and the return. *)
Definition demo_call : pstep := PStep (demo_sample 3 100 200 10) (AddrLocation 1 100) (AddrLocation 2 200) 51.
Definition demo_return : pstep := PStep (demo_sample 5 210 105 12) (AddrLocation 2 210) (AddrLocation 1 105) 52.

Definition demo_op (p : pstep) : stack_op := OpProcess 9 (p_sm p) (p_from p) (p_to p) (p_ref p).


Lemma balanced_calls_reported_witness :
  exists th' w' th2 w2 b,
    run_process good_alloc (fun _ _ => blank) no_callback (fun s => s * 100) (fun _ => "f"%string) demo_thread
      (World call_path_root__new [] 0) 9 [demo_call; demo_return] = Some ([0; 0], th', w') /\
    Forall2 (reported 9 (cpr w')) (log w') [Report [(1, 0); (2, 0)] 10 12 1 51 52 0] /\
    thread_stack__flush no_callback th' w' = Some (0, th2, w2) /\ log w2 = log w' ++ [b] /\
    reported 9 (cpr w') b (Report [(1, 0)] 10 12 2 51 0 3).
Proof.
  apply (balanced_calls_reported good_alloc (fun _ _ => blank) no_callback (fun s => s * 100)
    (fun _ => "f"%string) demo_thread 9 eq_refl (fun _ => eq_refl) 0 demo_call [demo_return]); [done|done|done|].
  apply (bal_call [(1, 0)] demo_call [] demo_return [] [] []); try constructor; done.
Defined.

(** A branch sample without its addresses leaves the stack empty, and if a symbol
    was found for its address 0 (a symbol that starts there), the entry in front of
    the array is read. *)
Theorem branch_from_nowhere :
  thread_stack__process good_alloc (fun _ _ => blank) no_callback (fun s => (s - 3) * 100) (fun _ => "f"%string)
    demo_thread 9 (demo_sample 1 0 0 10) (AddrLocation 0 0) (AddrLocation 3 0) 51 (World call_path_root__new [] 0) = None.
Proof. vm_compute. reflexivity. Qed.

(** When the array of entries could not be allocated, the stack exists without
    one; a call that finds no memory either "discards the stack" and writes its
    entry through the null pointer. *)
Theorem event_null_stack :
  let alloc n := (n =? 0)%nat in
  exists th1 w1,
    thread_stack__event alloc (fun _ _ => blank) no_callback (Some demo_thread) 0 3 100 200 5 1
      (World call_path_root__new [] 0) = Some (- ENOMEM, Some th1, w1) /\
    thread_stack__event alloc (fun _ _ => blank) no_callback (Some th1) 0 3 100 200 5 1 w1 = None.
Proof. eexists _, _. split; reflexivity. Qed.
