(* ===== verification/Callchain.v ===== *)
(** Model of util/callchain.c, callchain.h and branch_type_count of util/branch.c:
    the trees in which perf report aggregates call chains.

    A node of the tree holds a run of frames, the hits (periods) and the count of
    the chains that end in it, and those of its children, which are a search tree
    ordered by their first frames; rebalancing is library code ([ChainTree]).  A
    cursor is a list of nodes of which the first [nr] are in use.  Parent
    pointers and the lists for the user interface are not modelled.

    Allocations are numbered and may fail.  An access outside an array is
    [None]. *)

From Stdlib Require Import String.
From S2P Require Import Prelude.
#[local] Open Scope Z_scope.

(** * Frames *)

(** What the comparisons read of struct symbol. *)
Record symbol := Symbol { sym_start : Z; sym_name : string; inlined : bool }.

(** A map is the address of its dso; [None] is no map. *)
Record frame := Frame {
  f_ip : Z;
  f_map : option Z;
  f_sym : option symbol;
  f_srcline : option string
}.

Record branch_flags := BranchFlags {
  bf_predicted : bool;
  bf_abort : bool;
  bf_cycles : Z;
  bf_type : Z
}.

Record branch_type_stat := BranchTypeStat {
  branch_to : bool;
  bt_counts : list Z;
  cond_fwd : Z;
  cond_bwd : Z;
  cross_4k : Z;
  cross_2m : Z
}.

Definition PERF_BR_UNKNOWN : Z := 0.
Definition PERF_BR_COND : Z := 1.
Definition PERF_BR_MAX : nat := 11.

Definition AREA_4K : Z := 4096.
Definition AREA_2M : Z := 2 * 1024 * 1024.

(** [size] is an int; [~(size - 1)] is converted to u64. *)
Definition cross_area (addr1 addr2 size : Z) : bool :=
  negb (Z.land addr1 (u64 (Z.lnot (size - 1))) =? Z.land addr2 (u64 (Z.lnot (size - 1)))).

(** [counts[type]++]: [None] when the type is not one of the array. *)
Definition branch_type_count (st : branch_type_stat) (fl : branch_flags) (from to : Z)
    : option branch_type_stat :=
  if (bf_type fl =? PERF_BR_UNKNOWN) || (from =? 0) then Some st else
  c ← bt_counts st !! Z.to_nat (bf_type fl);
  let counts := <[Z.to_nat (bf_type fl) := c +64 1]> (bt_counts st) in
  let '(fwd, bwd) :=
    if bf_type fl =? PERF_BR_COND then
      if from <? to then (cond_fwd st +64 1, cond_bwd st) else (cond_fwd st, cond_bwd st +64 1)
    else (cond_fwd st, cond_bwd st) in
  let '(k4, m2) :=
    if cross_area from to AREA_2M then (cross_4k st, cross_2m st +64 1)
    else if cross_area from to AREA_4K then (cross_4k st +64 1, cross_2m st)
    else (cross_4k st, cross_2m st) in
  Some (BranchTypeStat (branch_to st) counts fwd bwd k4 m2).

(** * Cursors *)

Record callchain_cursor_node := CursorNode {
  cn_frame : frame;
  cn_branch : bool;
  cn_flags : branch_flags;
  branch_from : Z;
  nr_loop_iter : Z;
  cn_iter_cycles : Z
}.

(** The nodes that were ever allocated; the first [c_nr] are in use. *)
Record callchain_cursor := Cursor {
  c_nodes : list callchain_cursor_node;
  c_nr : nat;
  c_pos : nat
}.

Definition callchain_cursor_reset (cur : callchain_cursor) : callchain_cursor :=
  Cursor (c_nodes cur) 0 (c_pos cur).

Definition callchain_cursor_commit (cur : callchain_cursor) : callchain_cursor :=
  Cursor (c_nodes cur) (c_nr cur) 0.

Definition callchain_cursor_current (cur : callchain_cursor) : option callchain_cursor_node :=
  if (c_pos cur =? c_nr cur)%nat then None else c_nodes cur !! c_pos cur.

Definition callchain_cursor_advance (cur : callchain_cursor) : callchain_cursor :=
  Cursor (c_nodes cur) (c_nr cur) (S (c_pos cur)).

Definition no_flags : branch_flags := BranchFlags false false 0 0.

(** * Nodes of the tree *)

Record callchain_list := CallchainList {
  l_frame : frame;
  branch_count : Z;
  from_count : Z;
  predicted_count : Z;
  abort_count : Z;
  cycles_count : Z;
  iter_count : Z;
  l_iter_cycles : Z;
  brtype_stat : branch_type_stat
}.

Inductive callchain_node :=
| CNode (val : list callchain_list) (val_nr count children_count hit children_hit : Z) (kids : ktree)
with ktree :=
| kleaf
| kbranch (l : ktree) (n : callchain_node) (r : ktree).

Definition n_val (n : callchain_node) := let 'CNode v _ _ _ _ _ _ := n in v.
Definition n_val_nr (n : callchain_node) := let 'CNode _ x _ _ _ _ _ := n in x.
Definition n_count (n : callchain_node) := let 'CNode _ _ x _ _ _ _ := n in x.
Definition n_children_count (n : callchain_node) := let 'CNode _ _ _ x _ _ _ := n in x.
Definition n_hit (n : callchain_node) := let 'CNode _ _ _ _ x _ _ := n in x.
Definition n_children_hit (n : callchain_node) := let 'CNode _ _ _ _ _ x _ := n in x.
Definition n_kids (n : callchain_node) := let 'CNode _ _ _ _ _ _ t := n in t.

Fixpoint kelems (t : ktree) : list callchain_node :=
  match t with kleaf => [] | kbranch l n r => kelems l ++ n :: kelems r end.

(** rb_insert_color keeps the nodes and their order. *)
Class ChainTree := {
  krebalance : ktree -> ktree;
  krebalance_elems t : kelems (krebalance t) = kelems t
}.

Record callchain_root := CallchainRoot { max_depth : Z; root_node : callchain_node }.

Definition callchain_init : callchain_root := CallchainRoot 0 (CNode [] 0 0 0 0 0 kleaf).

Definition callchain_cumul_hits (n : callchain_node) : Z := n_hit n +64 n_children_hit n.
Definition callchain_cumul_counts (n : callchain_node) : Z := u32 (n_count n + n_children_count n).

Inductive chain_key := CCKEY_FUNCTION | CCKEY_ADDRESS | CCKEY_SRCLINE.

Inductive match_result := MATCH_ERROR | MATCH_EQ | MATCH_LT | MATCH_GT.

#[export] Instance match_result_eq_dec : EqDecision match_result.
Proof. solve_decision. Defined.

(** A string that is [None] is NULL. *)
Definition match_chain_strings (left right : option string) : match_result :=
  match left, right with
  | Some l, Some r =>
      match String.compare l r with Eq => MATCH_EQ | Lt => MATCH_LT | Gt => MATCH_GT end
  | None, Some _ => MATCH_GT
  | Some _, None => MATCH_LT
  | None, None => MATCH_ERROR
  end.

Definition match_chain_dso_addresses (left_map : option Z) (left_ip : Z) (right_map : option Z)
    (right_ip : Z) : match_result :=
  let left_dso := default 0 left_map in
  let right_dso := default 0 right_map in
  if negb (left_dso =? right_dso) then if left_dso <? right_dso then MATCH_LT else MATCH_GT
  else if negb (left_ip =? right_ip) then if left_ip <? right_ip then MATCH_LT else MATCH_GT
  else MATCH_EQ.

(** The comparison of match_chain: [c] is the frame of the tree, [n] that of the
    cursor. *)
Definition match_address (c n : frame) : match_result :=
  match_chain_dso_addresses (f_map c) (f_ip c) (f_map n) (f_ip n).

Definition match_function (c n : frame) : match_result :=
  match f_sym n, f_sym c with
  | Some ns, Some cs =>
      if inlined cs || inlined ns then
        match match_chain_strings (Some (sym_name cs)) (Some (sym_name ns)) with
        | MATCH_ERROR => match_address c n
        | m => m
        end
      else match_chain_dso_addresses (f_map c) (sym_start cs) (f_map n) (sym_start ns)
  | _, _ => match_address c n
  end.

Definition match_frames (key : chain_key) (c n : frame) : match_result :=
  match key with
  | CCKEY_SRCLINE =>
      match match_chain_strings (f_srcline c) (f_srcline n) with
      | MATCH_ERROR => match_function c n
      | m => m
      end
  | CCKEY_FUNCTION => match_function c n
  | CCKEY_ADDRESS => match_address c n
  end.

Definition set_branch_to (b : bool) (st : branch_type_stat) : branch_type_stat :=
  BranchTypeStat b (bt_counts st) (cond_fwd st) (cond_bwd st) (cross_4k st) (cross_2m st).

Definition inc_if (b : bool) (x : Z) : Z := if b then x +64 1 else x.

(** What match_chain adds to a frame that matched a branch. *)
Definition count_match (node : callchain_cursor_node) (c : callchain_list) : option callchain_list :=
  if negb (branch_from node =? 0) then
    st ← branch_type_count (set_branch_to true (brtype_stat c)) (cn_flags node) (branch_from node)
           (f_ip (cn_frame node));
    Some (CallchainList (l_frame c) (branch_count c +64 1) (from_count c)
      (inc_if (bf_predicted (cn_flags node)) (predicted_count c))
      (inc_if (bf_abort (cn_flags node)) (abort_count c))
      (cycles_count c) (iter_count c) (l_iter_cycles c) st)
  else
    Some (CallchainList (l_frame c) (branch_count c +64 1) (from_count c +64 1) (predicted_count c)
      (abort_count c) (cycles_count c +64 bf_cycles (cn_flags node)) (iter_count c +64 nr_loop_iter node)
      (l_iter_cycles c +64 cn_iter_cycles node) (set_branch_to false (brtype_stat c))).

Section Chains.
Context `{ChainTree}.
Variable alloc_ok : nat -> bool.
Variable key : chain_key.

Definition match_chain (node : callchain_cursor_node) (c : callchain_list)
    : option (match_result * callchain_list) :=
  let m := match_frames key (l_frame c) (cn_frame node) in
  if bool_decide (m = MATCH_EQ) && cn_branch node then
    c ← count_match node c; Some (m, c)
  else Some (m, c).

(** ** New nodes *)

Definition zero_stat : branch_type_stat := BranchTypeStat false (replicate PERF_BR_MAX 0) 0 0 0 0.

(** The entry for a node of the cursor, in zeroed memory. *)
Definition make_call (node : callchain_cursor_node) : option callchain_list :=
  if cn_branch node then
    if negb (branch_from node =? 0) then
      st ← branch_type_count (set_branch_to true zero_stat) (cn_flags node) (branch_from node)
             (f_ip (cn_frame node));
      Some (CallchainList (cn_frame node) 1 0 (if bf_predicted (cn_flags node) then 1 else 0)
              (if bf_abort (cn_flags node) then 1 else 0) 0 0 0 st)
    else Some (CallchainList (cn_frame node) 1 0 0 0 (bf_cycles (cn_flags node))
                 (u64 (nr_loop_iter node)) (cn_iter_cycles node) zero_stat)
  else Some (CallchainList (cn_frame node) 0 0 0 0 0 0 0 zero_stat).

(** The loop of fill_node: a turn takes a node of the cursor, so [n] starts as
    their number.  The result is 0 or -1, the entries, the cursor and the number
    of allocations. *)
Fixpoint fill_loop (n : nat) (cur : callchain_cursor) (a : nat)
    : option (Z * list callchain_list * callchain_cursor * nat) :=
  match callchain_cursor_current cur, n with
  | None, _ | _, O => Some (0, [], cur, a)
  | Some node, S n =>
      if alloc_ok a then
        call ← make_call node;
        '(err, calls, cur, a) ← fill_loop n (callchain_cursor_advance cur) (S a);
        Some (err, call :: calls, cur, a)
      else Some (-1, [], cur, S a)
  end.

(** A new node, or [None] for NULL. *)
Definition add_child (cur : callchain_cursor) (period : Z) (a : nat)
    : option (option callchain_node * callchain_cursor * nat) :=
  if alloc_ok a then
    let val_nr := u32 (Z.of_nat (c_nr cur) - Z.of_nat (c_pos cur)) in
    '(err, val, cur, a) ← fill_loop (c_nr cur - c_pos cur) cur (S a);
    if err <? 0 then Some (None, cur, a)
    else Some (Some (CNode val val_nr 1 0 period 0 kleaf), cur, a)
  else Some (None, cur, S a).

(** split_add_child of a node whose first entries are [d] and whose others,
    from [to_split] on, are [r]. *)
Definition split_add_child (d r : list callchain_list) (n : callchain_node) (cur : callchain_cursor)
    (idx_parents idx_local : nat) (period : Z) (a : nat)
    : option (Z * callchain_node * callchain_cursor * nat) :=
  if negb (alloc_ok a) then
    Some (-1, CNode (d ++ r) (n_val_nr n) (n_count n) (n_children_count n) (n_hit n) (n_children_hit n)
                (n_kids n), cur, S a)
  else
  let idx_total := u32 (Z.of_nat idx_parents + Z.of_nat idx_local) in
  let new := CNode r (u32 (n_val_nr n - Z.of_nat idx_local)) (n_count n) (n_children_count n) (n_hit n)
               (n_children_hit n) (n_kids n) in
  let children_hit := callchain_cumul_hits new in
  let children_count := callchain_cumul_counts new in
  let parent ct cct h ch t := CNode d (Z.of_nat idx_local) ct cct h ch t in
  if idx_total <? Z.of_nat (c_nr cur) then
    let '(ch, cct) := (children_hit +64 period, u32 (children_count + 1)) in
    let node := callchain_cursor_current cur in
    '(o, cur, a) ← add_child cur period (S a);
    match o with
    | None => Some (-1, parent 0 cct 0 ch (kbranch kleaf new kleaf), cur, a)
    | Some c =>
        node ← node; cnode ← head r;
        '(m, cnode) ← match_chain node cnode;
        let new := CNode (cnode :: tail r) (n_val_nr new) (n_count new) (n_children_count new)
                     (n_hit new) (n_children_hit new) (n_kids new) in
        let leaf := kbranch kleaf c kleaf in
        let t := if bool_decide (m = MATCH_LT) then kbranch leaf new kleaf else kbranch kleaf new leaf in
        Some (0, parent 0 cct 0 ch (krebalance t), cur, a)
    end
  else Some (0, parent 1 children_count period children_hit (kbranch kleaf new kleaf), cur, S a).

(** ** Appending a chain *)

(** The loop over the entries of a node: those that matched, the others, the last
    comparison and the cursor. *)
Fixpoint match_vals (val : list callchain_list) (cmp : match_result) (cur : callchain_cursor)
    : option (list callchain_list * list callchain_list * match_result * callchain_cursor) :=
  match val with
  | [] => Some ([], [], cmp, cur)
  | c :: val =>
      match callchain_cursor_current cur with
      | None => Some ([], c :: val, cmp, cur)
      | Some node =>
          '(m, c) ← match_chain node c;
          if bool_decide (m = MATCH_EQ) then
            '(d, r, cmp, cur) ← match_vals val m (callchain_cursor_advance cur);
            Some (c :: d, r, cmp, cur)
          else Some ([], c :: val, m, cur)
      end
  end.

(** The search among the children: an error, a child that took the chain, or a
    new one that was linked. *)
Inductive descent := Failed | Found | Linked.

(** append_chain_children around the search among the children of [n]. *)
Definition with_children (n : callchain_node) (cur : callchain_cursor) (period : Z) (a : nat)
    (search : option (descent * ktree * callchain_cursor * nat))
    : option (Z * callchain_node * callchain_cursor * nat) :=
  match callchain_cursor_current cur with
  | None => Some (-1, n, cur, a)
  | Some _ =>
      '(res, t, cur, a) ← search;
      let 'CNode v nr ct cct h ch _ := n in
      match res with
      | Failed => Some (-1, CNode v nr ct cct h ch t, cur, a)
      | Found => Some (0, CNode v nr ct (u32 (cct + 1)) h (ch +64 period) t, cur, a)
      | Linked => Some (0, CNode v nr ct (u32 (cct + 1)) h (ch +64 period) (krebalance t), cur, a)
      end
  end.

Fixpoint append_chain (n : callchain_node) (cur : callchain_cursor) (period : Z) (a : nat)
    : option (match_result * callchain_node * callchain_cursor * nat) :=
  match n with
  | CNode val val_nr ct cct h ch kids =>
      let start := c_pos cur in
      '(d, r, cmp, cur) ← match_vals val MATCH_ERROR cur;
      let n := CNode (d ++ r) val_nr ct cct h ch kids in
      match d with
      | [] => Some (cmp, n, cur, a)
      | _ =>
          let matches := (c_pos cur - start)%nat in
          if Z.of_nat matches <? val_nr then
            '(err, n, cur, a) ← split_add_child d r n cur start matches period a;
            Some (if err <? 0 then MATCH_ERROR else MATCH_EQ, n, cur, a)
          else if (Z.of_nat matches =? val_nr) && (c_pos cur =? c_nr cur)%nat then
            Some (MATCH_EQ, CNode (d ++ r) val_nr (u32 (ct + 1)) cct (h +64 period) ch kids, cur, a)
          else
            '(err, n, cur, a) ← with_children n cur period a (search_children kids cur period a);
            Some (if err <? 0 then MATCH_ERROR else MATCH_EQ, n, cur, a)
      end
  end
with search_children (t : ktree) (cur : callchain_cursor) (period : Z) (a : nat)
    : option (descent * ktree * callchain_cursor * nat) :=
  match t with
  | kleaf =>
      '(o, cur, a) ← add_child cur period a;
      match o with
      | None => Some (Failed, kleaf, cur, a)
      | Some c => Some (Linked, kbranch kleaf c kleaf, cur, a)
      end
  | kbranch l n r =>
      '(ret, n, cur, a) ← append_chain n cur period a;
      match ret with
      | MATCH_EQ => Some (Found, kbranch l n r, cur, a)
      | MATCH_ERROR => Some (Failed, kbranch l n r, cur, a)
      | MATCH_LT => '(res, l, cur, a) ← search_children l cur period a; Some (res, kbranch l n r, cur, a)
      | MATCH_GT => '(res, r, cur, a) ← search_children r cur period a; Some (res, kbranch l n r, cur, a)
      end
  end.

Lemma append_chain_eq val val_nr ct cct h ch kids cur period a :
  append_chain (CNode val val_nr ct cct h ch kids) cur period a =
  ('(d, r, cmp, cur') ← match_vals val MATCH_ERROR cur;
   let n := CNode (d ++ r) val_nr ct cct h ch kids in
   match d with
   | [] => Some (cmp, n, cur', a)
   | _ =>
       let matches := (c_pos cur' - c_pos cur)%nat in
       if Z.of_nat matches <? val_nr then
         '(err, n, cur, a) ← split_add_child d r n cur' (c_pos cur) matches period a;
         Some (if err <? 0 then MATCH_ERROR else MATCH_EQ, n, cur, a)
       else if (Z.of_nat matches =? val_nr) && (c_pos cur' =? c_nr cur')%nat then
         Some (MATCH_EQ, CNode (d ++ r) val_nr (u32 (ct + 1)) cct (h +64 period) ch kids, cur', a)
       else
         '(err, n, cur, a) ← with_children n cur' period a (search_children kids cur' period a);
         Some (if err <? 0 then MATCH_ERROR else MATCH_EQ, n, cur, a)
   end).
Proof. done. Qed.

Lemma search_children_eq l n r cur period a :
  search_children (kbranch l n r) cur period a =
  ('(ret, n, cur, a) ← append_chain n cur period a;
   match ret with
   | MATCH_EQ => Some (Found, kbranch l n r, cur, a)
   | MATCH_ERROR => Some (Failed, kbranch l n r, cur, a)
   | MATCH_LT => '(res, l, cur, a) ← search_children l cur period a; Some (res, kbranch l n r, cur, a)
   | MATCH_GT => '(res, r, cur, a) ← search_children r cur period a; Some (res, kbranch l n r, cur, a)
   end).
Proof. done. Qed.

Definition append_chain_children (n : callchain_node) (cur : callchain_cursor) (period : Z) (a : nat)
    : option (Z * callchain_node * callchain_cursor * nat) :=
  with_children n cur period a (search_children (n_kids n) cur period a).

Definition callchain_append (root : callchain_root) (cur : callchain_cursor) (period : Z) (a : nat)
    : option (Z * callchain_root * callchain_cursor * nat) :=
  if (c_nr cur =? 0)%nat then Some (0, root, cur, a) else
  '(err, n, cur, a) ← append_chain_children (root_node root) (callchain_cursor_commit cur) period a;
  if err <? 0 then Some (-1, CallchainRoot (max_depth root) n, cur, a)
  else Some (0, CallchainRoot (Z.max (max_depth root) (Z.of_nat (c_nr cur))) n, cur, a).

(** ** Filling a cursor *)

Definition ENOMEM : Z := 12.

(** A node that was allocated before is used again; without flags it keeps the
    old ones. *)
Definition callchain_cursor_append (cur : callchain_cursor) (f : frame) (branch : bool)
    (fl : option branch_flags) (loops cycles from : Z) (a : nat) : Z * callchain_cursor * nat :=
  let set old := CursorNode f branch (default (cn_flags old) fl) from loops cycles in
  match c_nodes cur !! c_nr cur with
  | Some old => (0, Cursor (<[c_nr cur := set old]> (c_nodes cur)) (S (c_nr cur)) (c_pos cur), a)
  | None =>
      if alloc_ok a then
        let blank := CursorNode f false no_flags 0 0 0 in
        (0, Cursor (c_nodes cur ++ [set blank]) (S (c_nr cur)) (c_pos cur), S a)
      else (- ENOMEM, cur, S a)
  end.

(** ** Merging trees *)

(** The entries of a node on the cursor; the result of the append is not looked at. *)
Fixpoint append_vals (val : list callchain_list) (cur : callchain_cursor) (a : nat)
    : callchain_cursor * nat :=
  match val with
  | [] => (cur, a)
  | c :: val =>
      let '(_, cur, a) := callchain_cursor_append cur (l_frame c) false None 0 0 0 a in
      append_vals val cur a
  end.

(** The destination, the cursor and the number of allocations are threaded. *)
Fixpoint merge_chain_branch (src : callchain_node) (cur : callchain_cursor) (dst : callchain_node) (a : nat)
    : option (Z * callchain_node * callchain_cursor * nat) :=
  match src with
  | CNode val _ _ _ h _ kids =>
      let old_pos := c_nr cur in
      let '(cur, a) := append_vals val cur a in
      '(err, dst, cur, a) ←
        (if h =? 0 then Some (0, dst, cur, a)
         else append_chain_children dst (callchain_cursor_commit cur) h a);
      if err <? 0 then Some (-1, dst, cur, a) else
      '(err, dst, cur, a) ← merge_kids kids cur dst a;
      Some (err, dst, Cursor (c_nodes cur) old_pos (c_pos cur), a)
  end
with merge_kids (t : ktree) (cur : callchain_cursor) (dst : callchain_node) (a : nat)
    : option (Z * callchain_node * callchain_cursor * nat) :=
  match t with
  | kleaf => Some (0, dst, cur, a)
  | kbranch l n r =>
      '(err, dst, cur, a) ← merge_kids l cur dst a;
      if negb (err =? 0) then Some (err, dst, cur, a) else
      '(err, dst, cur, a) ← merge_chain_branch n cur dst a;
      if negb (err =? 0) then Some (err, dst, cur, a) else
      merge_kids r cur dst a
  end.

Definition callchain_merge (cur : callchain_cursor) (dst src : callchain_root) (a : nat)
    : option (Z * callchain_root * callchain_cursor * nat) :=
  '(err, n, cur, a) ← merge_chain_branch (root_node src) cur (root_node dst) a;
  Some (err, CallchainRoot (max_depth dst) n, cur, a).
End Chains.

(** * Decay *)

(** The node and what its parent adds up. *)
Fixpoint decay_callchain_node (n : callchain_node) : callchain_node * Z :=
  match n with
  | CNode val val_nr ct cct h ch kids =>
      let '(kids, child_hits) := decay_kids kids 0 in
      let h := u64 (h * 7) / 8 in
      (CNode val val_nr ct cct h child_hits kids, h)
  end
with decay_kids (t : ktree) (child_hits : Z) : ktree * Z :=
  match t with
  | kleaf => (kleaf, child_hits)
  | kbranch l n r =>
      let '(l, child_hits) := decay_kids l child_hits in
      let '(n, h) := decay_callchain_node n in
      let '(r, child_hits) := decay_kids r (child_hits +64 h) in
      (kbranch l n r, child_hits)
  end.

(** [use] is symbol_conf.use_callchain. *)
Definition decay_callchain (use : bool) (root : callchain_root) : callchain_root :=
  if use then CallchainRoot (max_depth root) (decay_callchain_node (root_node root)).1 else root.

(** * The order of frames *)

Definition kcmp (a b : Z * Z) : comparison :=
  match a.1 ?= b.1 with Eq => a.2 ?= b.2 | c => c end.

Definition klt (a b : Z * Z) : Prop := kcmp a b = Lt.

Definition to_match (c : comparison) : match_result :=
  match c with Eq => MATCH_EQ | Lt => MATCH_LT | Gt => MATCH_GT end.

Lemma kcmp_eq a b : kcmp a b = Eq <-> a = b.
Proof.
  destruct a as [a1 a2], b as [b1 b2]. unfold kcmp. simpl.
  destruct (Z.compare_spec a1 b1), (Z.compare_spec a2 b2); split; intros; simplify_eq; done || lia.
Qed.

Lemma kcmp_antisym a b : kcmp b a = CompOpp (kcmp a b).
Proof.
  unfold kcmp. rewrite (Z.compare_antisym a.1 b.1), (Z.compare_antisym a.2 b.2).
  by destruct (a.1 ?= b.1), (a.2 ?= b.2).
Qed.

Lemma klt_spec a b : klt a b <-> a.1 < b.1 \/ (a.1 = b.1 /\ a.2 < b.2).
Proof.
  unfold klt, kcmp. destruct (Z.compare_spec a.1 b.1), (Z.compare_spec a.2 b.2);
    split; intros; try done; lia.
Qed.

Lemma klt_chain_trans a b c : klt a b -> klt b c -> klt a c.
Proof. rewrite !klt_spec. lia. Qed.

Lemma klt_neq a b : klt a b -> a <> b.
Proof. intros Hl ->. apply klt_spec in Hl. lia. Qed.

(** What a comparison of frames promises to the tree: on frames that are [okf]
    it orders them by a key. *)
Class ChainKey (key : chain_key) (okf : frame -> Prop) := {
  fkey : frame -> Z * Z;
  match_key c n : okf c -> okf n -> match_frames key c n = to_match (kcmp (fkey c) (fkey n))
}.

Lemma match_dso_key m1 i1 m2 i2 :
  match_chain_dso_addresses m1 i1 m2 i2 = to_match (kcmp (default 0 m1, i1) (default 0 m2, i2)).
Proof.
  unfold match_chain_dso_addresses, kcmp. cbn [fst snd].
  destruct (Z.compare_spec (default 0 m1) (default 0 m2)) as [->|H1|H1].
  - rewrite Z.eqb_refl. cbn [negb].
    destruct (Z.compare_spec i1 i2) as [->|H2|H2]; [by rewrite Z.eqb_refl|..];
      rewrite (proj2 (Z.eqb_neq i1 i2)) by lia; cbn [negb].
    + by rewrite (proj2 (Z.ltb_lt i1 i2)).
    + rewrite (proj2 (Z.ltb_ge i1 i2)) by lia. done.
  - rewrite (proj2 (Z.eqb_neq _ _)) by lia. cbn [negb]. by rewrite (proj2 (Z.ltb_lt _ _)).
  - rewrite (proj2 (Z.eqb_neq _ _)) by lia. cbn [negb]. by rewrite (proj2 (Z.ltb_ge _ _)) by lia.
Qed.

(** By address, every frame is fine. *)
#[export, refine] Instance key_by_address : ChainKey CCKEY_ADDRESS (fun _ => True) :=
  { fkey f := (default 0 (f_map f), f_ip f) }.
Proof. intros c n _ _. apply match_dso_key. Defined.

(** By function, the frames that have a symbol that is not inlined. *)
Definition plain_symbol (f : frame) : Prop := exists s, f_sym f = Some s /\ inlined s = false.

#[export, refine] Instance key_by_function : ChainKey CCKEY_FUNCTION plain_symbol :=
  { fkey f := (default 0 (f_map f), match f_sym f with Some s => sym_start s | None => 0 end) }.
Proof.
  intros c n (cs & Hc & Ic) (ns & Hn & In). cbn [match_frames]. unfold match_function.
  rewrite Hc, Hn, Ic, In. apply match_dso_key.
Defined.

(** * Sums modulo the width of a counter *)

(** The hits ([true], 64 bits) or the counts ([false], 32 bits). *)
Definition width (sel : bool) : Z := if sel then 64 else 32.

Definition eqm (sel : bool) (a b : Z) : Prop := wrap (width sel) a = wrap (width sel) b.

#[export] Instance eqm_equiv sel : Equivalence (eqm sel).
Proof. unfold eqm. split; [done|by intros ?|]. intros ? ? ?. congruence. Qed.

#[export] Instance eqm_add sel : Proper (eqm sel ==> eqm sel ==> eqm sel) Z.add.
Proof.
  intros a b Hab c d Hcd. unfold eqm, wrap in *. rewrite Zplus_mod, Hab, Hcd, <- Zplus_mod. done.
Qed.

Lemma eqm_wrap sel a : eqm sel (wrap (width sel) a) a.
Proof. unfold eqm. apply wrap_wrap. Qed.

Lemma eqm_u64 a : eqm true (u64 a) a.
Proof. apply (eqm_wrap true). Qed.

Lemma eqm_u32 a : eqm false (u32 a) a.
Proof. apply (eqm_wrap false). Qed.

Definition self (sel : bool) (n : callchain_node) : Z := if sel then n_hit n else n_count n.
Definition below (sel : bool) (n : callchain_node) : Z :=
  if sel then n_children_hit n else n_children_count n.
Definition amount (sel : bool) (period : Z) : Z := if sel then period else 1.

Fixpoint csum (sel : bool) (l : list callchain_node) : Z :=
  match l with [] => 0 | n :: l => self sel n + below sel n + csum sel l end.

Lemma csum_app sel l k : csum sel (l ++ k) = csum sel l + csum sel k.
Proof. induction l; simpl; lia. Qed.

Fixpoint zsum (l : list Z) : Z := match l with [] => 0 | x :: l => x + zsum l end.

Lemma zsum_app l k : zsum (l ++ k) = zsum l + zsum k.
Proof. induction l; simpl; lia. Qed.

#[export] Instance csum_perm sel : Proper ((≡ₚ) ==> eq) (csum sel).
Proof. intros l k. induction 1; simpl; lia. Qed.

#[export] Instance zsum_perm : Proper ((≡ₚ) ==> eq) zsum.
Proof. intros l k. induction 1; simpl; lia. Qed.

Scheme node_mut := Induction for callchain_node Sort Prop
  with ktree_mut := Induction for ktree Sort Prop.
Combined Scheme chain_mutind from node_mut, ktree_mut.

(** * The tree as a collection of chains *)

Section Tree.
Context `{ChainTree}.
Context (key : chain_key) (okf : frame -> Prop) `{!ChainKey key okf}.

Definition lkey (c : callchain_list) : Z * Z := fkey (l_frame c).
Definition nkey (node : callchain_cursor_node) : Z * Z := fkey (cn_frame node).

(** The frames of the node, and its first. *)
Definition vkeys (n : callchain_node) : list (Z * Z) := lkey <$> n_val n.
Definition fk (n : callchain_node) : Z * Z := default (0, 0) (head (vkeys n)).

(** The hits or counts of the chains that end in nodes whose frames satisfy [P]. *)
Fixpoint hsum (sel : bool) (P : list (Z * Z) -> bool) (n : callchain_node) : Z :=
  match n with
  | CNode val _ ct _ h _ kids =>
      (if P (lkey <$> val) then if sel then h else ct else 0) +
      hsums sel (fun q => P ((lkey <$> val) ++ q)) kids
  end
with hsums (sel : bool) (P : list (Z * Z) -> bool) (t : ktree) : Z :=
  match t with
  | kleaf => 0
  | kbranch l n r => hsums sel P l + hsum sel P n + hsums sel P r
  end.

(** The node in which the chain of frames [p] ends. *)
Inductive ends_at : ktree -> list (Z * Z) -> callchain_node -> Prop :=
| ends_here t n : n ∈ kelems t -> ends_at t (vkeys n) n
| ends_below t n q m : n ∈ kelems t -> ends_at (n_kids n) q m -> ends_at t (vkeys n ++ q) m.

Definition list_ok (c : callchain_list) : Prop :=
  okf (l_frame c) /\ length (bt_counts (brtype_stat c)) = PERF_BR_MAX.

Definition node_ok (node : callchain_cursor_node) : Prop :=
  okf (cn_frame node) /\ (cn_branch node = true -> 0 <= bf_type (cn_flags node) < Z.of_nat PERF_BR_MAX).

(** The children are in descending order of their first frames. *)
Definition ksorted (l : list callchain_node) : Prop :=
  StronglySorted (fun a b => klt b a) (fk <$> l).

Fixpoint wf_node (n : callchain_node) : Prop :=
  match n with
  | CNode val val_nr ct cct h ch kids =>
      val <> [] /\ (val_nr = Z.of_nat (length val) /\ val_nr < 2 ^ 32) /\ Forall list_ok val /\
      is_uint 64 h /\ is_uint 32 ct /\
      eqm true ch (csum true (kelems kids)) /\ eqm false cct (csum false (kelems kids)) /\
      ksorted (kelems kids) /\ wf_kids kids
  end
with wf_kids (t : ktree) : Prop :=
  match t with
  | kleaf => True
  | kbranch l n r => wf_kids l /\ wf_node n /\ wf_kids r
  end.

Lemma wf_kids_elems t : wf_kids t <-> Forall wf_node (kelems t).
Proof.
  induction t as [|l IHl n r IHr]; simpl; [done|].
  rewrite IHl, IHr, Forall_app, Forall_cons. tauto.
Qed.

Lemma hsums_elems sel P t : hsums sel P t = zsum (hsum sel P <$> kelems t).
Proof.
  induction t as [|l IHl n r IHr]; [done|]. cbn [hsums kelems].
  rewrite fmap_app, fmap_cons, zsum_app, IHl, IHr. cbn [zsum]. lia.
Qed.

Lemma hsum_eq sel P n :
  hsum sel P n = (if P (vkeys n) then self sel n else 0) + hsums sel (fun q => P (vkeys n ++ q)) (n_kids n).
Proof. by destruct n, sel. Qed.

Lemma hsum_ext_mut sel :
  (forall n P Q, (forall q, P q = Q q) -> hsum sel P n = hsum sel Q n) /\
  (forall t P Q, (forall q, P q = Q q) -> hsums sel P t = hsums sel Q t).
Proof.
  apply chain_mutind; simpl; try done.
  - intros val nr ct cct h ch kids IH P Q HPQ. rewrite HPQ. f_equal. by apply IH.
  - intros l IHl n IHn r IHr P Q HPQ. by rewrite (IHl P Q), (IHn P Q), (IHr P Q).
Qed.

Lemma hsum_ext sel n P Q : (forall q, P q = Q q) -> hsum sel P n = hsum sel Q n.
Proof. apply hsum_ext_mut. Qed.

Lemma hsums_ext sel t P Q : (forall q, P q = Q q) -> hsums sel P t = hsums sel Q t.
Proof. apply hsum_ext_mut. Qed.

Lemma hsum_none_mut sel :
  (forall n P, (forall q, P q = false) -> hsum sel P n = 0) /\
  (forall t P, (forall q, P q = false) -> hsums sel P t = 0).
Proof.
  apply chain_mutind; simpl; try done.
  - intros val nr ct cct h ch kids IH P HP. rewrite HP, IH; [done|]. intros q. apply HP.
  - intros l IHl n IHn r IHr P HP. by rewrite IHl, IHn, IHr.
Qed.

(** A node has no part in a sum over chains that do not start with its frames. *)
Lemma hsum_other sel n P : (forall q, P (vkeys n ++ q) = false) -> hsum sel P n = 0.
Proof.
  intros HP. rewrite hsum_eq. rewrite <- (app_nil_r (vkeys n)) at 1. rewrite HP.
  by rewrite (proj2 (hsum_none_mut sel)).
Qed.

Lemma wf_node_parts n :
  wf_node n <->
  n_val n <> [] /\ (n_val_nr n = Z.of_nat (length (n_val n)) /\ n_val_nr n < 2 ^ 32) /\
  Forall list_ok (n_val n) /\
  is_uint 64 (n_hit n) /\ is_uint 32 (n_count n) /\
  (forall sel, eqm sel (below sel n) (csum sel (kelems (n_kids n)))) /\
  ksorted (kelems (n_kids n)) /\ wf_kids (n_kids n).
Proof.
  destruct n as [val nr ct cct h ch kids]. simpl. split.
  - intros (? & ? & ? & ? & ? & ? & ? & ? & ?). do 5 (split; [done|]). split; [by intros [|]|done].
  - intros (? & ? & ? & ? & ? & He & ? & ?). pose proof (He true). pose proof (He false).
    do 5 (split; [done|]). by split_and!.
Qed.

(** The cumulated counters of a node are those of all chains through it. *)
Lemma hsum_total_mut sel :
  (forall n, wf_node n -> eqm sel (hsum sel (fun _ => true) n) (self sel n + below sel n)) /\
  (forall t, wf_kids t -> eqm sel (hsums sel (fun _ => true) t) (csum sel (kelems t))).
Proof.
  apply chain_mutind.
  - intros val nr ct cct h ch kids IH Hw. rewrite hsum_eq.
    apply wf_node_parts in Hw as (_ & _ & _ & _ & _ & He & _ & Hk). cbn [n_kids] in *.
    rewrite (IH Hk), <- He. done.
  - done.
  - intros l IHl n IHn r IHr (Hl & Hn & Hr). cbn [hsums kelems]. rewrite csum_app. cbn [csum].
    rewrite (IHl Hl), (IHn Hn), (IHr Hr). unfold eqm. f_equal. lia.
Qed.

(** ** The cursor *)

Definition rest (cur : callchain_cursor) : list callchain_cursor_node :=
  drop (c_pos cur) (take (c_nr cur) (c_nodes cur)).

Definition cur_ok (cur : callchain_cursor) : Prop :=
  (c_pos cur <= c_nr cur <= length (c_nodes cur))%nat /\ Z.of_nat (c_nr cur) < 2 ^ 32 /\
  Forall node_ok (take (c_nr cur) (c_nodes cur)).

Definition same_cur (cur cur' : callchain_cursor) : Prop :=
  c_nodes cur' = c_nodes cur /\ c_nr cur' = c_nr cur.

Lemma rest_length cur : cur_ok cur -> length (rest cur) = (c_nr cur - c_pos cur)%nat.
Proof. intros (Hp & _). unfold rest. rewrite length_drop, length_take. lia. Qed.

Lemma rest_nil cur : cur_ok cur -> rest cur = [] -> c_pos cur = c_nr cur.
Proof.
  intros Hc Hr. pose proof (rest_length cur Hc) as Hl. rewrite Hr in Hl. destruct Hc. simpl in Hl. lia.
Qed.

Lemma current_rest cur : cur_ok cur -> callchain_cursor_current cur = head (rest cur).
Proof.
  intros (Hp & _). unfold callchain_cursor_current, rest.
  destruct (Nat.eqb_spec (c_pos cur) (c_nr cur)) as [He|He].
  - rewrite drop_ge; [done|]. rewrite length_take. lia.
  - assert (Hlt : (c_pos cur < length (take (c_nr cur) (c_nodes cur)))%nat) by (rewrite length_take; lia).
    destruct (lookup_lt_is_Some_2 _ _ Hlt) as [x Hx]. rewrite (drop_S _ _ _ Hx). simpl.
    by rewrite lookup_take_lt in Hx by lia.
Qed.

Lemma rest_cons cur x R :
  cur_ok cur -> rest cur = x :: R ->
  node_ok x /\ cur_ok (callchain_cursor_advance cur) /\ rest (callchain_cursor_advance cur) = R /\
  (c_pos cur < c_nr cur)%nat.
Proof.
  intros Hc Hr. pose proof (rest_length cur Hc) as Hl. rewrite Hr in Hl. simpl in Hl.
  pose proof Hc as (Hp & H32 & Hf). split.
  - apply (Forall_drop _ (c_pos cur)) in Hf. fold (rest cur) in Hf. rewrite Hr in Hf.
    by apply Forall_inv in Hf.
  - assert ((c_pos cur < c_nr cur)%nat) by lia. split; [|split; [|done]].
    + split; [|split; [done|exact Hf]]. simpl. lia.
    + unfold rest in *. cbn [callchain_cursor_advance c_pos c_nr c_nodes].
      change (S (c_pos cur)) with (1 + c_pos cur)%nat. rewrite Nat.add_comm, <- drop_drop, Hr. done.
Qed.

Lemma branch_type_count_ok st fl from to :
  length (bt_counts st) = PERF_BR_MAX -> 0 <= bf_type fl < Z.of_nat PERF_BR_MAX ->
  exists st', branch_type_count st fl from to = Some st' /\ length (bt_counts st') = PERF_BR_MAX.
Proof.
  intros Hl Ht. unfold branch_type_count. destruct (_ || _); [by exists st|].
  destruct (lookup_lt_is_Some_2 (bt_counts st) (Z.to_nat (bf_type fl))) as [c Hc]; [rewrite Hl; lia|].
  rewrite Hc. cbn [mbind option_bind].
  destruct (if bf_type fl =? PERF_BR_COND then _ else _) as [fwd bwd].
  destruct (if cross_area from to AREA_2M then _ else _) as [k4 m2].
  eexists. split; [done|]. cbn [bt_counts]. by rewrite length_insert.
Qed.

Lemma match_chain_ok node c :
  node_ok node -> list_ok c ->
  exists c', match_chain key node c = Some (to_match (kcmp (lkey c) (nkey node)), c') /\ list_ok c' /\
    lkey c' = lkey c /\ (kcmp (lkey c) (nkey node) <> Eq -> c' = c).
Proof.
  intros [Hn Hb] [Hc Hl]. unfold match_chain. rewrite (match_key _ _ Hc Hn).
  fold (lkey c). fold (nkey node).
  destruct (kcmp (lkey c) (nkey node)) eqn:Ek; cbn [to_match]; try (by exists c).
  destruct (bool_decide_reflect (MATCH_EQ = MATCH_EQ)); [|done]. cbn [andb].
  destruct (cn_branch node); [|by exists c]. specialize (Hb eq_refl).
  unfold count_match. destruct (negb (branch_from node =? 0)); [|by eexists].
  destruct (branch_type_count_ok (set_branch_to true (brtype_stat c)) (cn_flags node) (branch_from node)
    (f_ip (cn_frame node)) Hl Hb) as (st & -> & Hst).
  by eexists.
Qed.

Lemma match_vals_ok val cmp cur :
  Forall list_ok val -> cur_ok cur ->
  exists d r cmp' cur' M, match_vals key val cmp cur = Some (d, r, cmp', cur') /\
    cur_ok cur' /\ same_cur cur cur' /\ c_pos cur' = (c_pos cur + length d)%nat /\
    rest cur = M ++ rest cur' /\ nkey <$> M = lkey <$> d /\
    lkey <$> (d ++ r) = lkey <$> val /\ Forall list_ok (d ++ r) /\
    match r, rest cur' with
    | c :: _, x :: _ => kcmp (lkey c) (nkey x) <> Eq /\ cmp' = to_match (kcmp (lkey c) (nkey x))
    | _, _ => True
    end /\ (d = [] -> r = val /\ cur' = cur).
Proof.
  revert cmp cur. induction val as [|c val IH]; intros cmp cur Hv Hc; cbn [match_vals].
  { exists [], [], cmp, cur, []. rewrite Nat.add_0_r. done. }
  apply Forall_cons in Hv as [Hlc Hv]. rewrite (current_rest cur Hc).
  destruct (rest cur) as [|x R] eqn:Er; cbn [head].
  { exists [], (c :: val), cmp, cur, []. rewrite Er, Nat.add_0_r. split_and!; try done. by constructor. }
  destruct (rest_cons cur x R Hc Er) as (Hx & Hadv & Hrest & _).
  destruct (match_chain_ok x c Hx Hlc) as (c' & -> & Hlc' & Hk' & Hne). cbn [mbind option_bind].
  destruct (decide (kcmp (lkey c) (nkey x) = Eq)) as [Ee|Ene].
  - rewrite Ee. cbn [to_match]. destruct (bool_decide_reflect (MATCH_EQ = MATCH_EQ)); [|done].
    destruct (IH MATCH_EQ _ Hv Hadv) as (d & r & cmp' & cur' & M & -> & H1 & H2 & H3 & H4 & H5 & H6 & H7 & H8 & _).
    cbn [mbind option_bind]. exists (c' :: d), r, cmp', cur', (x :: M).
    split; [done|]. split; [done|]. split; [done|]. split; [simpl in *; lia|].
    apply kcmp_eq in Ee.
    split; [by rewrite <- Hrest, H4|]. split; [rewrite !fmap_cons, H5; congruence|].
    split; [cbn [app]; rewrite !fmap_cons, H6; congruence|]. split; [by constructor|]. by split.
  - destruct (bool_decide_reflect (to_match (kcmp (lkey c) (nkey x)) = MATCH_EQ)) as [Hm|Hm].
    { by destruct (kcmp (lkey c) (nkey x)). }
    rewrite (Hne Ene). exists [], (c :: val), (to_match (kcmp (lkey c) (nkey x))), cur, [].
    rewrite Er, Nat.add_0_r. split_and!; try done. by constructor.
Qed.

(** ** New nodes *)

Lemma make_call_ok node : node_ok node -> exists c, make_call node = Some c /\ lkey c = nkey node /\ list_ok c.
Proof.
  intros [Hn Hb]. unfold make_call. destruct (cn_branch node); [|by eexists].
  specialize (Hb eq_refl). destruct (negb (branch_from node =? 0)); [|by eexists].
  destruct (branch_type_count_ok (set_branch_to true zero_stat) (cn_flags node) (branch_from node)
    (f_ip (cn_frame node)) eq_refl Hb) as (st & -> & Hst).
  by eexists.
Qed.

Section Append.
Variable alloc_ok : nat -> bool.
Hypothesis Hal : forall n, alloc_ok n = true.

Lemma fill_loop_ok n cur a :
  cur_ok cur -> n = length (rest cur) ->
  exists calls cur' a', fill_loop alloc_ok n cur a = Some (0, calls, cur', a') /\
    lkey <$> calls = nkey <$> rest cur /\ Forall list_ok calls /\ cur_ok cur' /\ same_cur cur cur' /\
    rest cur' = [].
Proof.
  revert cur a. induction n as [|n IH]; intros cur a Hc Hn; cbn [fill_loop];
    rewrite (current_rest cur Hc); destruct (rest cur) as [|x R] eqn:Er; try done; cbn [head].
  { by exists [], cur, a. }
  destruct (rest_cons cur x R Hc Er) as (Hx & Hadv & Hrest & _). rewrite Hal.
  destruct (make_call_ok x Hx) as (c & -> & Hk & Hlc). cbn [mbind option_bind].
  destruct (IH (callchain_cursor_advance cur) (S a) Hadv) as (calls & cur' & a' & -> & H1 & H2 & H3 & H4 & H5).
  { rewrite Hrest. simpl in Hn. lia. }
  cbn [mbind option_bind]. exists (c :: calls), cur', a'. split; [done|].
  split; [rewrite !fmap_cons, Hk, H1, Hrest; done|]. split; [by constructor|]. done.
Qed.

Variable period : Z.
Hypothesis Hperiod : is_uint 64 period.

Lemma add_child_ok cur a :
  cur_ok cur -> rest cur <> [] ->
  exists c cur' a', add_child alloc_ok cur period a = Some (Some c, cur', a') /\ wf_node c /\
    vkeys c = nkey <$> rest cur /\ n_kids c = kleaf /\
    (forall sel, self sel c = amount sel period /\ below sel c = 0) /\
    cur_ok cur' /\ same_cur cur cur'.
Proof.
  intros Hc Hr. unfold add_child. rewrite Hal.
  destruct (fill_loop_ok (c_nr cur - c_pos cur) cur (S a) Hc) as (calls & cur' & a' & -> & H1 & H2 & H3 & H4 & _).
  { by rewrite rest_length. }
  cbn [mbind option_bind Z.ltb Z.compare]. eexists _, cur', a'. split; [done|].
  assert (Hlen : length calls = length (rest cur)).
  { apply (f_equal length) in H1. by rewrite !length_fmap in H1. }
  split; [|split; [done|split; [done|split; [by intros []|done]]]].
  apply wf_node_parts. cbn [n_val n_val_nr n_hit n_count n_kids]. split; [|split; [|split; [done|]]].
  - intros ->. by destruct (rest cur).
  - rewrite Hlen, rest_length by done. destruct Hc as (? & ? & _). rewrite u32_small by lia. lia.
  - split; [done|]. split; [done|]. split; [by intros []|]. split; [constructor|done].
Qed.

(** ** A node that takes a chain *)

(** Some node of [n] and below is the end of [p]. *)
Definition has_end (n : callchain_node) (p : list (Z * Z)) : Prop :=
  p = vkeys n \/ exists q m, p = vkeys n ++ q /\ ends_at (n_kids n) q m.

Record took (n n' : callchain_node) (ks : list (Z * Z)) : Prop := {
  tk_wf : wf_node n';
  tk_fk : fk n' = fk n;
  tk_sum sel P : eqm sel (hsum sel P n') (hsum sel P n + (if P ks then amount sel period else 0));
  tk_cum sel : eqm sel (self sel n' + below sel n') (self sel n + below sel n + amount sel period);
  tk_old p : has_end n p -> has_end n' p;
  tk_new : has_end n' ks
}.

Lemma ends_at_elems t t' p m :
  (forall n, n ∈ kelems t -> n ∈ kelems t') -> ends_at t p m -> ends_at t' p m.
Proof.
  intros Hs Hp. destruct Hp as [t n Hn|t n q m Hn Hq]; [constructor; auto|].
  apply ends_below; auto.
Qed.

Lemma has_end_kid t n p : n ∈ kelems t -> has_end n p -> exists m, ends_at t p m.
Proof.
  intros Hn [->|(q & m & -> & Hq)]; eexists; [by apply ends_here|by apply ends_below].
Qed.

Lemma ends_at_has t p m : ends_at t p m -> exists n, n ∈ kelems t /\ has_end n p.
Proof.
  intros Hp. destruct Hp as [t n Hn|t n q m Hn Hq]; exists n; (split; [done|]); [by left|].
  right. by exists q, m.
Qed.

Lemma fk_app d r x y z u v w : d <> [] -> fk (CNode (d ++ r) x y z u v w) = fk (CNode d x y z u v w).
Proof. by destruct d. Qed.

Lemma fk_vkeys n n' : vkeys n' = vkeys n -> fk n' = fk n.
Proof. unfold fk. by intros ->. Qed.

(** The sums of a node whose frames are cut in two. *)
Lemma hsum_cut sel P d r a0 a1 a2 a3 ct cct h ch kids :
  hsum sel P (CNode (d ++ r) a0 ct cct h ch kids) =
  hsum sel (fun q => P ((lkey <$> d) ++ q)) (CNode r a1 ct a2 h a3 kids).
Proof.
  cbn [hsum]. rewrite fmap_app. f_equal. apply hsums_ext. intros q. by rewrite app_assoc.
Qed.

Lemma has_end_cut d r a0 a1 a2 a3 ct cct h ch kids p :
  has_end (CNode (d ++ r) a0 ct cct h ch kids) p ->
  exists q, p = (lkey <$> d) ++ q /\ has_end (CNode r a1 ct a2 h a3 kids) q.
Proof.
  intros [->|(q & m & -> & Hq)]; cbn [vkeys n_val n_kids] in *; unfold vkeys; cbn [n_val]; rewrite fmap_app.
  - exists (lkey <$> r). split; [done|]. by left.
  - exists ((lkey <$> r) ++ q). split; [by rewrite app_assoc|]. right. by exists q, m.
Qed.

(** A node with the frames [d] and given children. *)
Lemma has_end_below d a0 ct cct h ch t n q :
  n ∈ kelems t -> has_end n q -> has_end (CNode d a0 ct cct h ch t) ((lkey <$> d) ++ q).
Proof.
  intros Hn Hq. destruct (has_end_kid t n q Hn Hq) as [m Hm]. right. by exists q, m.
Qed.

Lemma wf_cut d r val_nr ct cct h ch kids :
  wf_node (CNode (d ++ r) val_nr ct cct h ch kids) -> r <> [] ->
  wf_node (CNode r (u32 (val_nr - Z.of_nat (length d))) ct cct h ch kids).
Proof.
  intros (_ & [Hnr Hlt] & Hf & Hrest) Hr. apply Forall_app in Hf as [_ Hf].
  split; [done|]. split; [|by split]. rewrite length_app in Hnr. rewrite u32_small; lia.
Qed.

Lemma eqm_cumul sel n : eqm sel (if sel then callchain_cumul_hits n else callchain_cumul_counts n)
  (self sel n + below sel n).
Proof. destruct sel; [apply eqm_u64|apply eqm_u32]. Qed.

(** The cut node, with its children, and the node for the rest of the chain. *)
Lemma took_split_new d r val_nr ct cct h ch kids c t cct' ch' :
  let n := CNode (d ++ r) val_nr ct cct h ch kids in
  let new := CNode r (u32 (val_nr - Z.of_nat (length d))) ct cct h ch kids in
  let n' := CNode d (Z.of_nat (length d)) 0 cct' 0 ch' t in
  wf_node n -> d <> [] -> r <> [] -> wf_node c -> n_kids c = kleaf ->
  (forall sel, self sel c = amount sel period /\ below sel c = 0) ->
  kelems t ≡ₚ [new; c] -> ksorted (kelems t) ->
  eqm true ch' (h + ch + period) -> eqm false cct' (ct + cct + 1) ->
  took n n' ((lkey <$> d) ++ vkeys c).
Proof.
  intros n new n' Hn Hd Hr Hc Hck Hcs Ht Hs Hch Hcct.
  assert (Hnew : wf_node new) by (by apply wf_cut).
  assert (Hcsum : forall sel, csum sel (kelems t) = self sel new + below sel new + amount sel period).
  { intros sel. transitivity (csum sel [new; c]); [|simpl; destruct (Hcs sel); lia].
    by rewrite Ht. }
  assert (Hsum : forall sel P, hsums sel P t = hsum sel P new + hsum sel P c).
  { intros sel P. rewrite hsums_elems. transitivity (zsum (hsum sel P <$> [new; c])); [|simpl; lia].
    by rewrite Ht. }
  assert (Hin : forall x, x ∈ kelems t <-> x = new \/ x = c)
    by (intros x; rewrite Ht, !elem_of_cons, elem_of_nil; tauto).
  destruct Hn as (_ & [Hnr Hlt] & Hf & Hh & Hct & Hrest). rewrite length_app in Hnr.
  constructor.
  - apply wf_node_parts. unfold n'. cbn [n_val n_val_nr n_hit n_count n_kids].
    split; [done|]. split; [split; [done|lia]|]. split; [by apply Forall_app in Hf as [Hf _]|].
    split; [done|]. split; [done|]. split; [|split; [done|]].
    + intros sel. rewrite Hcsum. destruct sel; cbn; [by rewrite Hch|by rewrite Hcct].
    + apply wf_kids_elems, Forall_forall. intros x Hx. apply Hin in Hx as [->| ->]; done.
  - symmetry. by apply fk_app.
  - intros sel P. unfold n', n. rewrite (hsum_eq sel P (CNode d _ _ _ _ _ _)). cbn [n_kids]. rewrite Hsum.
    rewrite (hsum_cut sel P d r val_nr (u32 (val_nr - Z.of_nat (length d))) cct ch).
    fold new. rewrite (hsum_eq sel _ c), Hck. cbn [hsums]. destruct (Hcs sel) as [-> _].
    unfold eqm, vkeys. cbn [n_val]. f_equal. destruct (P (lkey <$> d)), sel; cbn [self n_hit n_count]; lia.
  - intros sel. cbn. destruct sel; cbn; [rewrite Hch|rewrite Hcct]; unfold eqm; f_equal; lia.
  - intros p Hp. apply (has_end_cut _ _ _ (u32 (val_nr - Z.of_nat (length d))) cct ch) in Hp as (q & -> & Hq).
    apply (has_end_below _ _ _ _ _ _ _ new); [apply Hin; by left|done].
  - apply (has_end_below _ _ _ _ _ _ _ c); [apply Hin; by right|by left].
Qed.

(** The cut node when the chain ends where it is cut. *)
Lemma took_split_end d r val_nr ct cct h ch kids cct' ch' :
  let n := CNode (d ++ r) val_nr ct cct h ch kids in
  let new := CNode r (u32 (val_nr - Z.of_nat (length d))) ct cct h ch kids in
  let n' := CNode d (Z.of_nat (length d)) 1 cct' period ch' (kbranch kleaf new kleaf) in
  wf_node n -> d <> [] -> r <> [] ->
  eqm true ch' (h + ch) -> eqm false cct' (ct + cct) -> took n n' (lkey <$> d).
Proof.
  intros n new n' Hn Hd Hr Hch Hcct.
  assert (Hnew : wf_node new) by (by apply wf_cut).
  destruct Hn as (_ & [Hnr Hlt] & Hf & Hh & Hct & Hrest). rewrite length_app in Hnr.
  constructor.
  - apply wf_node_parts. unfold n'. cbn [n_val n_val_nr n_hit n_count n_kids].
    split; [done|]. split; [split; [done|lia]|]. split; [by apply Forall_app in Hf as [Hf _]|].
    split; [done|]. split; [done|]. split; [|split; [|done]].
    + intros sel. destruct sel; cbn; [rewrite Hch|rewrite Hcct]; unfold eqm; f_equal; lia.
    + repeat constructor.
  - symmetry. by apply fk_app.
  - intros sel P. unfold n', n. rewrite (hsum_eq sel P (CNode d _ _ _ _ _ _)). cbn [n_kids hsums].
    rewrite (hsum_cut sel P d r val_nr (u32 (val_nr - Z.of_nat (length d))) cct ch).
    fold new. unfold eqm, vkeys. cbn [n_val]. f_equal.
    destruct (P (lkey <$> d)), sel; cbn [self n_hit n_count amount]; lia.
  - intros sel. cbn. destruct sel; cbn; [rewrite Hch|rewrite Hcct]; unfold eqm; f_equal; lia.
  - intros p Hp. apply (has_end_cut _ _ _ (u32 (val_nr - Z.of_nat (length d))) cct ch) in Hp as (q & -> & Hq).
    apply (has_end_below _ _ _ _ _ _ _ new); [by left|done].
  - by left.
Qed.

Lemma ksorted_two a b : klt (fk b) (fk a) -> ksorted [a; b].
Proof. intros Hlt. repeat constructor. done. Qed.

Lemma split_ok d r val_nr ct cct h ch kids cur start a :
  let n := CNode (d ++ r) val_nr ct cct h ch kids in
  wf_node n -> d <> [] -> r <> [] -> cur_ok cur -> (start + length d = c_pos cur)%nat ->
  match r, rest cur with c :: _, x :: _ => kcmp (lkey c) (nkey x) <> Eq | _, _ => True end ->
  exists n' cur' a', split_add_child alloc_ok key d r n cur start (length d) period a = Some (0, n', cur', a') /\
    took n n' ((lkey <$> d) ++ (nkey <$> rest cur)) /\ cur_ok cur' /\ same_cur cur cur'.
Proof.
  intros n Hn Hd Hr Hc Hpos Hcmp. unfold split_add_child. rewrite Hal. cbn [negb].
  pose proof Hc as (Hp & H32 & _).
  rewrite u32_small by lia. cbn [n_val_nr n_count n_children_count n_hit n_children_hit n_kids n].
  set (new := CNode r _ ct cct h ch kids).
  assert (Hh : eqm true (callchain_cumul_hits new) (h + ch)) by apply eqm_u64.
  assert (Hct : eqm false (callchain_cumul_counts new) (ct + cct)) by apply eqm_u32.
  destruct (Z.ltb_spec (Z.of_nat start + Z.of_nat (length d)) (Z.of_nat (c_nr cur))) as [Hlt|Hge].
  - assert (Hne : rest cur <> []) by (intros He; apply rest_nil in He; [lia|done]).
    destruct (add_child_ok cur (S a) Hc Hne) as (c & cur' & a' & -> & Hwc & Hvk & Hck & Hcs & Hc' & Hs').
    cbn [mbind option_bind]. rewrite (current_rest cur Hc).
    destruct (rest cur) as [|x R] eqn:Er; [done|]. cbn [head mbind option_bind].
    destruct (rest_cons cur x R Hc Er) as (Hx & _). destruct r as [|c0 r']; [done|]. cbn [head mbind option_bind].
    assert (Hl0 : list_ok c0).
    { destruct Hn as (_ & _ & Hf & _). apply Forall_app in Hf as [_ Hf]. by apply Forall_inv in Hf. }
    destruct (match_chain_ok x c0 Hx Hl0) as (c1 & -> & _ & _ & Hsame). rewrite (Hsame Hcmp).
    cbn [mbind option_bind tail n_val_nr n_count n_children_count n_hit n_children_hit n_kids new].
    fold new. eexists _, cur', a'. split; [reflexivity|]. split; [|done].
    assert (Hfc : fk c = nkey x) by (unfold fk; by rewrite Hvk).
    assert (Hfn : fk new = lkey c0) by done.
    rewrite <- Hvk. apply took_split_new; try done.
    + rewrite krebalance_elems. destruct (bool_decide _); simpl; [|done]. by rewrite Permutation_swap.
    + rewrite krebalance_elems.
      destruct (kcmp (lkey c0) (nkey x)) eqn:Ek; [done|..]; cbn [to_match].
      * rewrite bool_decide_eq_true_2 by done. apply ksorted_two. by rewrite Hfc, Hfn.
      * rewrite bool_decide_eq_false_2 by done. apply ksorted_two. rewrite Hfc, Hfn.
        unfold klt. by rewrite kcmp_antisym, Ek.
    + rewrite eqm_u64, Hh. done.
    + rewrite eqm_u32, Hct. done.
  - assert (He : rest cur = []).
    { apply nil_length_inv. rewrite rest_length by done. lia. }
    rewrite He, app_nil_r. eexists _, cur, (S a). split; [reflexivity|]. split; [|done].
    by apply took_split_end.
Qed.

(** ** Children that take a chain *)

Record took_kids (t t' : ktree) (ks : list (Z * Z)) : Prop := {
  kk_wf : wf_kids t';
  kk_sorted : ksorted (kelems t');
  kk_keys k : k ∈ fk <$> kelems t' -> k ∈ fk <$> kelems t \/ Some k = head ks;
  kk_sum sel P : eqm sel (hsums sel P t') (hsums sel P t + (if P ks then amount sel period else 0));
  kk_cum sel : eqm sel (csum sel (kelems t')) (csum sel (kelems t) + amount sel period);
  kk_old p m : ends_at t p m -> exists m', ends_at t' p m';
  kk_new : exists m, ends_at t' ks m
}.

Lemma took_kids_rebalance t t' ks : took_kids t t' ks -> took_kids t (krebalance t') ks.
Proof.
  pose proof (krebalance_elems t') as He.
  intros [H1 H2 H3 H4 H5 H6 H7]. constructor.
  - rewrite wf_kids_elems, He. by apply wf_kids_elems.
  - by rewrite He.
  - by rewrite He.
  - intros sel P. by rewrite (hsums_elems sel P (krebalance t')), He, <- hsums_elems.
  - intros sel. by rewrite He.
  - intros p m Hp. destruct (H6 p m Hp) as [m' Hm]. exists m'.
    apply (ends_at_elems t'); [|done]. by rewrite He.
  - destruct H7 as [m Hm]. exists m. apply (ends_at_elems t'); [|done]. by rewrite He.
Qed.

#[local] Instance klt_desc_trans : Transitive (fun a b => klt b a).
Proof. intros a b c Hab Hbc. by eapply klt_chain_trans. Qed.

Lemma ksorted_node l n r :
  ksorted (l ++ n :: r) <->
  ksorted l /\ ksorted r /\ (forall k, k ∈ fk <$> l -> klt (fk n) k) /\
  (forall k, k ∈ fk <$> r -> klt k (fk n)).
Proof.
  unfold ksorted. rewrite fmap_app, fmap_cons.
  exact (StronglySorted_mid (fun a b => klt b a) (fk <$> l) (fk n) (fk <$> r)).
Qed.

(** The ends below a node of a tree, seen from the tree. *)
Lemma ends_at_cases l n r p m :
  ends_at (kbranch l n r) p m -> (exists m', ends_at l p m') \/ has_end n p \/ (exists m', ends_at r p m').
Proof.
  intros Hp. apply ends_at_has in Hp as (x & Hx & Hq). cbn [kelems] in Hx.
  apply elem_of_app in Hx as [Hx|Hx]; [left; by eapply has_end_kid|].
  apply elem_of_cons in Hx as [->|Hx]; [right; by left|]. right. right. by eapply has_end_kid.
Qed.

Lemma ends_left l n r p m : ends_at l p m -> ends_at (kbranch l n r) p m.
Proof. apply ends_at_elems. intros x Hx. cbn [kelems]. apply elem_of_app. by left. Qed.

Lemma ends_right l n r p m : ends_at r p m -> ends_at (kbranch l n r) p m.
Proof. apply ends_at_elems. intros x Hx. cbn [kelems]. apply elem_of_app. right. by right. Qed.

Lemma ends_mid l n r p : has_end n p -> exists m, ends_at (kbranch l n r) p m.
Proof. apply has_end_kid. cbn [kelems]. apply elem_of_app. right. by left. Qed.

(** The chain went to the node in the middle. *)
Lemma took_mid l n n' r ks :
  wf_kids (kbranch l n r) -> ksorted (kelems (kbranch l n r)) -> took n n' ks ->
  took_kids (kbranch l n r) (kbranch l n' r) ks.
Proof.
  intros (Hl & Hn & Hr) Hs [T1 T2 T3 T4 T5 T6]. constructor.
  - done.
  - unfold ksorted in *. cbn [kelems] in *. rewrite fmap_app, fmap_cons in *. by rewrite T2.
  - intros k. cbn [kelems]. rewrite !fmap_app, !fmap_cons, T2. by left.
  - intros sel P. cbn [hsums]. rewrite (T3 sel P). unfold eqm. f_equal. lia.
  - intros sel. cbn [kelems]. rewrite !csum_app. cbn [csum]. rewrite (T4 sel). unfold eqm. f_equal. lia.
  - intros p m Hp. apply ends_at_cases in Hp as [[m' Hm]|[Hm|[m' Hm]]].
    + exists m'. by apply ends_left.
    + by apply ends_mid, T5.
    + exists m'. by apply ends_right.
  - by apply ends_mid.
Qed.

(** It went to the left or to the right. *)
Lemma took_left l l' n r ks :
  wf_kids (kbranch l n r) -> ksorted (kelems (kbranch l n r)) ->
  (forall k, Some k = head ks -> klt (fk n) k) -> took_kids l l' ks ->
  took_kids (kbranch l n r) (kbranch l' n r) ks.
Proof.
  intros (Hl & Hn & Hr) Hs Hk [T1 T2 T3 T4 T5 T6 T7]. cbn [kelems] in Hs.
  apply ksorted_node in Hs as (Sl & Sr & Kl & Kr). constructor.
  - done.
  - cbn [kelems]. apply ksorted_node. split_and!; try done.
    intros k Hkk. apply T3 in Hkk as [?|?]; auto.
  - intros k. cbn [kelems]. rewrite !fmap_app, !elem_of_app. intros [Hin|Hin]; [|tauto].
    apply T3 in Hin. tauto.
  - intros sel P. cbn [hsums]. rewrite (T4 sel P). unfold eqm. f_equal. lia.
  - intros sel. cbn [kelems]. rewrite !csum_app. cbn [csum]. rewrite (T5 sel). unfold eqm. f_equal. lia.
  - intros p m Hp. apply ends_at_cases in Hp as [[m' Hm]|[Hm|[m' Hm]]].
    + destruct (T6 p m' Hm) as [m2 Hm2]. exists m2. by apply ends_left.
    + by apply ends_mid.
    + exists m'. by apply ends_right.
  - destruct T7 as [m Hm]. exists m. by apply ends_left.
Qed.

Lemma took_right l n r r' ks :
  wf_kids (kbranch l n r) -> ksorted (kelems (kbranch l n r)) ->
  (forall k, Some k = head ks -> klt k (fk n)) -> took_kids r r' ks ->
  took_kids (kbranch l n r) (kbranch l n r') ks.
Proof.
  intros (Hl & Hn & Hr) Hs Hk [T1 T2 T3 T4 T5 T6 T7]. cbn [kelems] in Hs.
  apply ksorted_node in Hs as (Sl & Sr & Kl & Kr). constructor.
  - done.
  - cbn [kelems]. apply ksorted_node. split_and!; try done.
    intros k Hkk. apply T3 in Hkk as [?|?]; auto.
  - intros k. cbn [kelems]. rewrite !fmap_app, !fmap_cons, !elem_of_app, !elem_of_cons.
    intros [Hin|[Hin|Hin]]; [tauto..|]. apply T3 in Hin. tauto.
  - intros sel P. cbn [hsums]. rewrite (T4 sel P). unfold eqm. f_equal. lia.
  - intros sel. cbn [kelems]. rewrite !csum_app. cbn [csum]. rewrite (T5 sel). unfold eqm. f_equal. lia.
  - intros p m Hp. apply ends_at_cases in Hp as [[m' Hm]|[Hm|[m' Hm]]].
    + exists m'. by apply ends_left.
    + by apply ends_mid.
    + destruct (T6 p m' Hm) as [m2 Hm2]. exists m2. by apply ends_right.
  - destruct T7 as [m Hm]. exists m. by apply ends_right.
Qed.

(** The first child. *)
Lemma took_leaf c :
  wf_node c -> n_kids c = kleaf -> (forall sel, self sel c = amount sel period /\ below sel c = 0) ->
  took_kids kleaf (kbranch kleaf c kleaf) (vkeys c).
Proof.
  intros Hw Hk Hs. constructor.
  - done.
  - repeat constructor.
  - intros k Hk'. right. apply list_elem_of_singleton in Hk' as ->.
    apply wf_node_parts in Hw as (Hv & _). unfold fk, vkeys. by destruct (n_val c).
  - intros sel P. cbn [hsums]. rewrite hsum_eq, Hk. cbn [hsums]. destruct (Hs sel) as [-> _].
    unfold eqm. f_equal. lia.
  - intros sel. cbn. destruct (Hs sel) as [-> ->]. unfold eqm. f_equal. lia.
  - intros p m Hp. apply ends_at_has in Hp as (x & Hx & _). by apply elem_of_nil in Hx.
  - exists c. apply ends_here. by left.
Qed.

(** ** Appending *)

Lemma wf_same_keys v v' x y z u w k :
  wf_node (CNode v x y z u w k) -> lkey <$> v' = lkey <$> v -> Forall list_ok v' ->
  wf_node (CNode v' x y z u w k).
Proof.
  intros (Hv & [Hnr Hlt] & _ & Hrest) He Hf.
  assert (Hl : length v' = length v) by (apply (f_equal length) in He; by rewrite !length_fmap in He).
  split; [by intros ->; destruct v|]. split; [by rewrite Hl|]. by split.
Qed.

Lemma took_same_keys v v' x y z u w k n' ks :
  lkey <$> v' = lkey <$> v -> took (CNode v' x y z u w k) n' ks -> took (CNode v x y z u w k) n' ks.
Proof.
  intros He [T1 T2 T3 T4 T5 T6].
  assert (Hvk : vkeys (CNode v' x y z u w k) = vkeys (CNode v x y z u w k)) by done.
  constructor; try done.
  - rewrite T2. by apply fk_vkeys.
  - intros sel P. rewrite (T3 sel P). cbn [hsum]. rewrite He. done.
  - intros p Hp. apply T5. unfold has_end in *. by rewrite Hvk.
Qed.

(** The whole chain was the frames of the node. *)
Lemma took_whole v x ct cct h ch k :
  let n := CNode v x ct cct h ch k in
  wf_node n -> took n (CNode v x (u32 (ct + 1)) cct (u64 (h + period)) ch k) (lkey <$> v).
Proof.
  intros n Hn. pose proof Hn as (Hv & Hnr & Hf & Hh & Hct & Hrest). constructor.
  - split; [done|]. split; [done|]. split; [done|]. split; [apply u64_bound|]. split; [apply u32_bound|done].
  - done.
  - intros sel P. unfold n. cbn [hsum].
    destruct (P (lkey <$> v)), sel; cbn [amount]; rewrite ?eqm_u64, ?eqm_u32; unfold eqm; f_equal; lia.
  - intros sel. destruct sel; cbn; rewrite ?eqm_u64, ?eqm_u32; unfold eqm; f_equal; lia.
  - done.
  - by left.
Qed.

(** A child took the rest of the chain. *)
Lemma took_below v x ct cct h ch k k' ks :
  let n := CNode v x ct cct h ch k in
  wf_node n -> took_kids k k' ks ->
  took n (CNode v x ct (u32 (cct + 1)) h (u64 (ch + period)) k') ((lkey <$> v) ++ ks).
Proof.
  intros n Hn [T1 T2 T3 T4 T5 T6 T7].
  pose proof Hn as (Hv & Hnr & Hf & Hh & Hct & He1 & He2 & _). constructor.
  - split; [done|]. split; [done|]. split; [done|]. split; [done|]. split; [done|].
    split; [by rewrite eqm_u64, (T5 true), He1|]. split; [by rewrite eqm_u32, (T5 false), He2|done].
  - done.
  - intros sel P. unfold n. cbn [hsum]. rewrite (T4 sel). unfold eqm. f_equal. lia.
  - intros sel. destruct sel; cbn; rewrite ?eqm_u64, ?eqm_u32; unfold eqm; f_equal; lia.
  - intros p [->|(q & m & -> & Hq)]; [by left|]. right. destruct (T6 q m Hq) as [m' Hm]. by exists q, m'.
  - destruct T7 as [m Hm]. right. by exists ks, m.
Qed.

Definition hdk (cur : callchain_cursor) : Z * Z := default (0, 0) (head (nkey <$> rest cur)).

(** append_chain on a node: it compares the first frames, and takes the chain if
    they are the same. *)
Definition appends (n : callchain_node) : Prop :=
  forall cur a, wf_node n -> cur_ok cur -> rest cur <> [] ->
  exists n' cur' a',
    append_chain alloc_ok key n cur period a =
      Some (to_match (kcmp (fk n) (hdk cur)), n', cur', a') /\
    cur_ok cur' /\ same_cur cur cur' /\
    (if decide (kcmp (fk n) (hdk cur) = Eq) then took n n' (nkey <$> rest cur)
     else n' = n /\ cur' = cur).

Definition searches (t : ktree) : Prop :=
  forall cur a, wf_kids t -> ksorted (kelems t) -> cur_ok cur -> rest cur <> [] ->
  exists res t' cur' a', search_children alloc_ok key t cur period a = Some (res, t', cur', a') /\
    res <> Failed /\ cur_ok cur' /\ same_cur cur cur' /\ took_kids t t' (nkey <$> rest cur).

(** The search among the children, and the counts of their parent. *)
Lemma with_children_kids v x ct cct h ch k cur a :
  searches k -> wf_kids k -> ksorted (kelems k) -> cur_ok cur -> rest cur <> [] ->
  exists k' cur' a',
    with_children (CNode v x ct cct h ch k) cur period a (search_children alloc_ok key k cur period a) =
      Some (0, CNode v x ct (u32 (cct + 1)) h (u64 (ch + period)) k', cur', a') /\
    cur_ok cur' /\ same_cur cur cur' /\ took_kids k k' (nkey <$> rest cur).
Proof.
  intros HS Hwk Hsrt Hc Hr.
  destruct (HS cur a Hwk Hsrt Hc Hr) as (res & t' & cur' & a' & E & Hres & Hc' & Hs' & HT).
  unfold with_children. rewrite (current_rest cur Hc).
  destruct (rest cur) as [|y R] eqn:Er; [done|]. cbn [head]. rewrite E. cbn [mbind option_bind].
  destruct res; [done|..]; eexists _, cur', a'; (split; [reflexivity|]); (split; [done|]);
    (split; [done|]); [done|]. by apply took_kids_rebalance.
Qed.

Lemma with_children_ok n cur a :
  searches (n_kids n) -> wf_node n -> cur_ok cur -> rest cur <> [] ->
  exists n' cur' a',
    with_children n cur period a (search_children alloc_ok key (n_kids n) cur period a) =
      Some (0, n', cur', a') /\
    cur_ok cur' /\ same_cur cur cur' /\ took n n' (vkeys n ++ (nkey <$> rest cur)).
Proof.
  intros HS Hn Hc Hr. destruct n as [v x ct cct h ch k]. cbn [n_kids] in *.
  pose proof Hn as (_ & _ & _ & _ & _ & _ & _ & Hsrt & Hwk).
  destruct (with_children_kids v x ct cct h ch k cur a HS Hwk Hsrt Hc Hr) as (k' & cur' & a' & E & Hc' & Hs' & HT).
  eexists _, cur', a'. split; [exact E|]. split; [done|]. split; [done|]. by apply took_below.
Qed.

Lemma append_node val val_nr ct cct h ch kids :
  searches kids -> appends (CNode val val_nr ct cct h ch kids).
Proof.
  intros HS cur a Hn Hc Hr. rewrite append_chain_eq.
  pose proof Hn as (Hv & [Hnr Hlt] & Hf & _).
  destruct (match_vals_ok val MATCH_ERROR cur Hf Hc)
    as (d & r & cmp & cur' & M & -> & Hc' & Hs' & Hpos & HM & HMk & Hdr & Hfd & Hcmp & Hnil).
  cbn [mbind option_bind]. set (n := CNode val val_nr ct cct h ch kids) in *.
  assert (Hn1 : wf_node (CNode (d ++ r) val_nr ct cct h ch kids)) by (by eapply wf_same_keys).
  destruct d as [|c0 d].
  - destruct (Hnil eq_refl) as [-> ->]. cbn [app]. clear Hnil.
    destruct val as [|v0 val']; [done|]. destruct (rest cur) as [|y R] eqn:Er; [done|].
    destruct Hcmp as [Hne ->].
    assert (Hk : kcmp (fk n) (hdk cur) = kcmp (lkey v0) (nkey y)) by (unfold hdk; by rewrite Er).
    rewrite Hk. exists n, cur, a. split; [done|]. split; [done|]. split; [done|].
    by destruct (decide _).
  - set (d1 := c0 :: d) in *.
    assert (Hk : kcmp (fk n) (hdk cur) = Eq).
    { apply kcmp_eq. unfold hdk. rewrite HM, fmap_app, HMk. unfold fk, vkeys. cbn [n_val n].
      by rewrite <- Hdr. }
    rewrite Hk. cbn [to_match]. destruct (decide (Eq = Eq)); [|done].
    rewrite HM, fmap_app, HMk.
    assert (Hm : (c_pos cur' - c_pos cur)%nat = length d1) by lia. rewrite Hm.
    assert (Hlen : length (d1 ++ r) = length val).
    { apply (f_equal length) in Hdr. by rewrite !length_fmap in Hdr. }
    rewrite length_app in Hlen.
    assert (Hfin : forall n', took (CNode (d1 ++ r) val_nr ct cct h ch kids) n' ((lkey <$> d1) ++ (nkey <$> rest cur')) ->
      took n n' ((lkey <$> d1) ++ (nkey <$> rest cur'))) by (intros n'; by apply took_same_keys).
    assert (Htr : forall cur2, same_cur cur' cur2 -> same_cur cur cur2).
    { intros cur2 [E1 E2]. destruct Hs'. split; congruence. }
    destruct (Z.ltb_spec (Z.of_nat (length d1)) val_nr) as [Hl|Hl].
    + assert (Hr0 : r <> []) by (intros ->; rewrite Nat.add_0_r in Hlen; lia).
      destruct (split_ok d1 r val_nr ct cct h ch kids cur' (c_pos cur) a Hn1)
        as (n' & cur2 & a2 & -> & HT & Hc2 & Hs2); try done.
      { destruct r as [|r0 r]; [done|]. destruct (rest cur'); [done|]. by destruct Hcmp. }
      cbn [mbind option_bind Z.ltb Z.compare]. exists n', cur2, a2.
      split; [done|]. split; [done|]. split; [by apply Htr|by apply Hfin].
    + assert (Hr0 : r = []) by (apply nil_length_inv; lia). subst r. rewrite app_nil_r in *.
      destruct (Nat.eqb_spec (c_pos cur') (c_nr cur')) as [Hp|Hp].
      * replace (Z.of_nat (length d1) =? val_nr) with true by (symmetry; apply Z.eqb_eq; rewrite Nat.add_0_r in Hlen; lia).
        cbn [andb]. assert (Hrn : rest cur' = []).
        { apply nil_length_inv. rewrite rest_length by done. lia. }
        eexists _, cur', a. split; [done|]. split; [done|]. split; [done|]. apply Hfin.
        rewrite Hrn, app_nil_r. by apply took_whole.
      * rewrite andb_false_r.
        assert (Hrn : rest cur' <> []) by (intros He; by apply rest_nil in He).
        destruct (with_children_ok (CNode d1 val_nr ct cct h ch kids) cur' a HS Hn1 Hc' Hrn)
          as (n' & cur2 & a2 & E & Hc2 & Hs2 & HT).
        cbn [n_kids] in E. rewrite E. cbn [mbind option_bind Z.ltb Z.compare]. exists n', cur2, a2.
        split; [done|]. split; [done|]. split; [by apply Htr|by apply Hfin].
Qed.

Lemma append_mut : (forall n, appends n) /\ (forall t, searches t).
Proof.
  apply chain_mutind.
  - intros val val_nr ct cct h ch kids IH. by apply append_node.
  - intros cur a _ _ Hc Hr. cbn [search_children].
    destruct (add_child_ok cur a Hc Hr) as (c & cur' & a' & -> & Hw & Hvk & Hk & Hs & Hc' & Hs').
    cbn [mbind option_bind]. eexists Linked, _, cur', a'. split; [done|]. split; [done|].
    split; [done|]. split; [done|]. rewrite <- Hvk. by apply took_leaf.
  - intros l IHl n IHn r IHr cur a Hw Hs Hc Hr. pose proof Hw as (Hwl & Hwn & Hwr).
    rewrite search_children_eq. pose proof Hs as Hs0. cbn [kelems] in Hs0.
    apply ksorted_node in Hs0 as (Sl & Sr & _ & _).
    destruct (IHn cur a Hwn Hc Hr) as (n' & cur' & a' & -> & Hc' & Hs' & HT). cbn [mbind option_bind].
    assert (Hh : forall k, Some k = head (nkey <$> rest cur) -> k = hdk cur).
    { intros k Hk. unfold hdk. by rewrite <- Hk. }
    destruct (kcmp (fk n) (hdk cur)) eqn:Ek; cbn [to_match]; destruct (decide _) as [He|He]; try done.
    + eexists Found, _, cur', a'. split; [done|]. split; [done|]. split; [done|]. split; [done|].
      by apply took_mid.
    + destruct HT as [-> ->].
      destruct (IHl cur a' Hwl Sl Hc Hr) as (res & l' & cur2 & a2 & -> & Hres & Hc2 & Hs2 & HT2).
      cbn [mbind option_bind]. eexists res, _, cur2, a2. split; [done|]. split; [done|].
      split; [done|]. split; [done|]. apply took_left; try done. intros k ->%Hh. done.
    + destruct HT as [-> ->].
      destruct (IHr cur a' Hwr Sr Hc Hr) as (res & r' & cur2 & a2 & -> & Hres & Hc2 & Hs2 & HT2).
      cbn [mbind option_bind]. eexists res, _, cur2, a2. split; [done|]. split; [done|].
      split; [done|]. split; [done|]. apply took_right; try done. intros k ->%Hh.
      unfold klt. by rewrite kcmp_antisym, Ek.
Qed.

End Append.

(** ** What a node of the tree holds *)

Lemma wf_vkeys n : wf_node n -> exists k l, vkeys n = k :: l /\ fk n = k.
Proof.
  intros Hn. apply wf_node_parts in Hn as (Hv & _). unfold fk, vkeys.
  destruct (n_val n) as [|c v]; [done|]. by eexists _, _.
Qed.

Lemma hsums_zero sel P t :
  (forall x, x ∈ kelems t -> forall q, P (vkeys x ++ q) = false) -> hsums sel P t = 0.
Proof.
  intros HP. rewrite hsums_elems. induction (kelems t) as [|x l IH]; [done|]. rewrite fmap_cons. cbn [zsum].
  rewrite IH; [|intros y Hy; apply HP; by right]. rewrite hsum_other; [done|]. apply HP. by left.
Qed.

(** Only one child has a part in a sum over chains that start with its frame. *)
Lemma hsums_only sel P t n :
  wf_kids t -> ksorted (kelems t) -> n ∈ kelems t ->
  (forall q, P q = true -> head q = Some (fk n)) -> hsums sel P t = hsum sel P n.
Proof.
  intros Hw Hs Hn HP. rewrite wf_kids_elems, Forall_forall in Hw.
  assert (Ho : forall l, (forall x, x ∈ l -> wf_node x /\ fk x <> fk n) -> zsum (hsum sel P <$> l) = 0).
  { intros l Hl. induction l as [|x l IH]; [done|]. rewrite fmap_cons. cbn [zsum].
    rewrite IH by (intros; apply Hl; by right). destruct (Hl x) as [Hx Hne]; [by left|].
    rewrite hsum_other; [done|]. intros q. apply not_true_iff_false. intros Hq. apply HP in Hq.
    destruct (wf_vkeys x Hx) as (k & r & Hv & Hk). rewrite Hv in Hq. injection Hq as Hq. congruence. }
  apply list_elem_of_split in Hn as (a & b & He). rewrite He in Hs. apply ksorted_node in Hs as (_ & _ & Ha & Hb).
  rewrite hsums_elems, He, fmap_app, fmap_cons, zsum_app. cbn [zsum]. rewrite !Ho; [lia|..].
  - intros x Hx. split; [apply Hw; rewrite He; apply elem_of_app; right; by right|].
    intros Heq. apply (klt_neq (fk x) (fk n)); [|done]. apply Hb. by apply list_elem_of_fmap_2.
  - intros x Hx. split; [apply Hw; rewrite He; apply elem_of_app; by left|].
    intros Heq. apply (klt_neq (fk n) (fk x)); [|done]. apply Ha. by apply list_elem_of_fmap_2.
Qed.

Lemma wf_elem t n : wf_kids t -> n ∈ kelems t -> wf_node n.
Proof. intros Hw Hn. rewrite wf_kids_elems, Forall_forall in Hw. auto. Qed.

Lemma ends_at_head t p m : wf_kids t -> ends_at t p m -> exists n, n ∈ kelems t /\ head p = Some (fk n).
Proof.
  intros Hw Hp. destruct Hp as [t n Hn|t n q m Hn Hq]; exists n; (split; [done|]);
    destruct (wf_vkeys n) as (k & l & Hv & Hk); try (by eapply wf_elem); by rewrite Hv, Hk.
Qed.

Lemma wf_node_kids n : wf_node n -> wf_kids (n_kids n) /\ ksorted (kelems (n_kids n)).
Proof. intros Hn. apply wf_node_parts in Hn. tauto. Qed.

Lemma ends_at_self sel t p n :
  wf_kids t -> ksorted (kelems t) -> ends_at t p n ->
  hsums sel (fun q => bool_decide (q = p)) t = self sel n.
Proof.
  intros Hw Hs Hp. induction Hp as [t n Hn|t n q m Hn Hq IH]; pose proof (wf_elem t n Hw Hn) as Hwn;
    destruct (wf_vkeys n Hwn) as (k & l & Hv & Hk); destruct (wf_node_kids n Hwn) as [Hwk Hsk].
  - rewrite (hsums_only sel _ t n); try done.
    + rewrite hsum_eq, bool_decide_eq_true_2 by done. rewrite hsums_zero; [lia|].
      intros x Hx q. apply bool_decide_eq_false_2. intros He.
      rewrite <- (app_nil_r (vkeys n)) in He at 2. apply app_inv_head in He.
      destruct (wf_vkeys x) as (k' & l' & Hv' & _); [by eapply wf_elem|]. by rewrite Hv' in He.
    + intros q Hq. apply bool_decide_eq_true_1 in Hq as ->. by rewrite Hv, Hk.
  - destruct (ends_at_head _ _ _ Hwk Hq) as (x & _ & Hhq).
    rewrite (hsums_only sel _ t n); try done.
    + rewrite hsum_eq, bool_decide_eq_false_2.
      2: { intros He. rewrite <- (app_nil_r (vkeys n)) in He at 1. apply app_inv_head in He. by subst q. }
      rewrite <- IH by done. cbn [Z.add]. apply hsums_ext. intros q'.
      apply bool_decide_ext. split; [by intros He%app_inv_head|by intros ->].
    + intros q' Hq'. apply bool_decide_eq_true_1 in Hq' as ->. by rewrite Hv, Hk.
Qed.

Lemma ends_at_cumul sel t p n :
  wf_kids t -> ksorted (kelems t) -> ends_at t p n ->
  eqm sel (hsums sel (fun q => bool_decide (p `prefix_of` q)) t) (self sel n + below sel n).
Proof.
  intros Hw Hs Hp. induction Hp as [t n Hn|t n q m Hn Hq IH]; pose proof (wf_elem t n Hw Hn) as Hwn;
    destruct (wf_vkeys n Hwn) as (k & l & Hv & Hk); destruct (wf_node_kids n Hwn) as [Hwk Hsk].
  - rewrite (hsums_only sel _ t n); try done.
    + rewrite <- (proj1 (hsum_total_mut sel) n Hwn), !hsum_eq, bool_decide_eq_true_2 by done.
      unfold eqm. do 2 f_equal. apply hsums_ext. intros q. apply bool_decide_eq_true_2. by eexists.
    + intros q Hq. apply bool_decide_eq_true_1 in Hq as [r ->]. by rewrite Hv, Hk.
  - destruct (ends_at_head _ _ _ Hwk Hq) as (x & _ & Hhq).
    rewrite (hsums_only sel _ t n); try done.
    + rewrite hsum_eq, bool_decide_eq_false_2.
      2: { intros [r He]. rewrite <- (app_nil_r (vkeys n)) in He at 1. rewrite <- app_assoc in He.
           apply app_inv_head in He. by destruct q. }
      rewrite <- IH by done. cbn [Z.add]. unfold eqm. f_equal. apply hsums_ext. intros q'.
      apply bool_decide_ext. split; [by apply prefix_app_inv|by apply prefix_app].
    + intros q' Hq'. apply bool_decide_eq_true_1 in Hq' as [r ->]. by rewrite Hv, Hk.
Qed.

Lemma ksorted_inj t n m :
  ksorted (kelems t) -> n ∈ kelems t -> m ∈ kelems t -> fk n = fk m -> n = m.
Proof.
  intros Hs Hn Hm He. apply list_elem_of_split in Hn as (a & b & Hab). rewrite Hab in Hs, Hm.
  apply ksorted_node in Hs as (_ & _ & Ha & Hb).
  apply elem_of_app in Hm as [Hm|Hm]; [|apply elem_of_cons in Hm as [->|Hm]; [done|]]; exfalso.
  - apply (klt_neq (fk n) (fk m)); [|done]. apply Ha. by apply list_elem_of_fmap_2.
  - apply (klt_neq (fk m) (fk n)); [|done]. apply Hb. by apply list_elem_of_fmap_2.
Qed.

Lemma ends_at_inj t p n m :
  wf_kids t -> ksorted (kelems t) -> ends_at t p n -> ends_at t p m -> n = m.
Proof.
  intros Hw Hs Hp. revert m. induction Hp as [t n Hn|t n q n' Hn Hq IH]; intros m Hm;
    pose proof (wf_elem t n Hw Hn) as Hwn; destruct (wf_vkeys n Hwn) as (k & l & Hv & Hk).
  - remember (vkeys n) as p eqn:Hpe. destruct Hm as [t m Hm|t x q m Hx Hq].
    + apply (ksorted_inj t); try done. apply fk_vkeys. by rewrite Hpe.
    + exfalso. pose proof (wf_elem t x Hw Hx) as Hwx. destruct (wf_vkeys x Hwx) as (k' & l' & Hv' & Hk').
      assert (x = n) as ->.
      { apply (ksorted_inj t); try done. rewrite Hk, Hk'. rewrite Hv' in Hv. by injection Hv. }
      destruct (wf_node_kids n Hwn) as [Hwk Hsk]. destruct (ends_at_head _ _ _ Hwk Hq) as (y & _ & Hhq).
      rewrite <- (app_nil_r (vkeys n)) in Hpe at 2. apply app_inv_head in Hpe. by subst q.
  - remember (vkeys n ++ q) as p eqn:Hpe. destruct (wf_node_kids n Hwn) as [Hwk Hsk].
    destruct (ends_at_head _ _ _ Hwk Hq) as (y & _ & Hhq).
    destruct Hm as [t m Hm|t x q' m Hx Hq'].
    + exfalso. pose proof (wf_elem t m Hw Hm) as Hwx. destruct (wf_vkeys m Hwx) as (k' & l' & Hv' & Hk').
      assert (m = n) as ->.
      { apply (ksorted_inj t); try done. rewrite Hk, Hk'. rewrite Hv', Hv in Hpe. by injection Hpe. }
      rewrite <- (app_nil_r (vkeys n)) in Hpe at 1. apply app_inv_head in Hpe. by subst q.
    + pose proof (wf_elem t x Hw Hx) as Hwx. destruct (wf_vkeys x Hwx) as (k' & l' & Hv' & Hk').
      assert (x = n) as ->.
      { apply (ksorted_inj t); try done. rewrite Hk, Hk'. rewrite Hv', Hv in Hpe. by injection Hpe. }
      apply app_inv_head in Hpe as ->. by apply IH.
Qed.

(** ** Aggregating chains *)

(** The frames of a sample on the cursor. *)
Fixpoint fill_cursor (alloc_ok : nat -> bool) (cur : callchain_cursor) (l : list callchain_cursor_node)
    (a : nat) : callchain_cursor * nat :=
  match l with
  | [] => (cur, a)
  | x :: l =>
      let '(_, cur, a) := callchain_cursor_append alloc_ok cur (cn_frame x) (cn_branch x) (Some (cn_flags x))
                            (nr_loop_iter x) (cn_iter_cycles x) (branch_from x) a in
      fill_cursor alloc_ok cur l a
  end.

(** Chains with their periods, appended one after another with one cursor. *)
Fixpoint append_all (alloc_ok : nat -> bool) (root : callchain_root) (cur : callchain_cursor) (a : nat)
    (cs : list (list callchain_cursor_node * Z)) : option (list Z * callchain_root) :=
  match cs with
  | [] => Some ([], root)
  | (l, period) :: cs =>
      let '(cur, a) := fill_cursor alloc_ok (callchain_cursor_reset cur) l a in
      '(err, root, cur, a) ← callchain_append alloc_ok key root cur period a;
      '(errs, root) ← append_all alloc_ok root cur a cs;
      Some (err :: errs, root)
  end.

(** The periods, or the number, of the chains whose frames satisfy [P]. *)
Fixpoint total (sel : bool) (P : list (Z * Z) -> bool) (cs : list (list callchain_cursor_node * Z)) : Z :=
  match cs with
  | [] => 0
  | (l, period) :: cs => (if P (nkey <$> l) then amount sel period else 0) + total sel P cs
  end.

Definition chain_ok (c : list callchain_cursor_node * Z) : Prop :=
  Forall node_ok c.1 /\ zlen c.1 < 2 ^ 32 /\ c.1 <> [] /\ is_uint 64 c.2.

Section Aggregate.
Variable alloc_ok : nat -> bool.
Hypothesis Hal : forall n, alloc_ok n = true.

Lemma cursor_append_ok cur x a :
  (c_nr cur <= length (c_nodes cur))%nat ->
  exists cur' a', callchain_cursor_append alloc_ok cur (cn_frame x) (cn_branch x) (Some (cn_flags x))
      (nr_loop_iter x) (cn_iter_cycles x) (branch_from x) a = (0, cur', a') /\
    c_nr cur' = S (c_nr cur) /\ (c_nr cur' <= length (c_nodes cur'))%nat /\
    take (c_nr cur') (c_nodes cur') = take (c_nr cur) (c_nodes cur) ++ [x].
Proof.
  intros Hn. unfold callchain_cursor_append.
  destruct (c_nodes cur !! c_nr cur) as [old|] eqn:El.
  - pose proof (lookup_lt_Some _ _ _ El). eexists _, a. split; [done|]. cbn [c_nr c_nodes].
    split; [done|]. rewrite length_insert. split; [lia|].
    rewrite (take_S_r _ _ x) by (destruct x; by apply list_lookup_insert_eq).
    by rewrite take_insert_ge by lia.
  - apply lookup_ge_None_1 in El. rewrite Hal. eexists _, (S a). split; [done|]. cbn [c_nr c_nodes].
    split; [done|]. rewrite length_app. split; [simpl; lia|].
    replace (c_nr cur) with (length (c_nodes cur)) by lia.
    rewrite take_ge by (rewrite length_app; simpl; lia). rewrite firstn_all. by destruct x.
Qed.

Lemma fill_cursor_ok cur l a :
  (c_nr cur <= length (c_nodes cur))%nat ->
  exists cur' a', fill_cursor alloc_ok cur l a = (cur', a') /\ c_nr cur' = (c_nr cur + length l)%nat /\
    (c_nr cur' <= length (c_nodes cur'))%nat /\
    take (c_nr cur') (c_nodes cur') = take (c_nr cur) (c_nodes cur) ++ l.
Proof.
  revert cur a. induction l as [|x l IH]; intros cur a Hn; cbn [fill_cursor].
  { exists cur, a. rewrite app_nil_r, Nat.add_0_r. done. }
  destruct (cursor_append_ok cur x a Hn) as (cur1 & a1 & -> & H1 & H2 & H3).
  destruct (IH cur1 a1 H2) as (cur' & a' & -> & H4 & H5 & H6).
  exists cur', a'. split; [done|]. split; [simpl; lia|]. split; [done|]. by rewrite H6, H3, <- app_assoc.
Qed.

(** The root: a node without frames of its own. *)
Record root_ok (root : callchain_root) (cs : list (list callchain_cursor_node * Z)) : Prop := {
  ro_wf : wf_kids (n_kids (root_node root));
  ro_sorted : ksorted (kelems (n_kids (root_node root)));
  ro_sum sel P : eqm sel (hsums sel P (n_kids (root_node root))) (total sel P cs);
  ro_children : n_children_hit (root_node root) = u64 (total true (fun _ => true) cs);
  ro_ends c : c ∈ cs -> exists m, ends_at (n_kids (root_node root)) (nkey <$> c.1) m;
  ro_depth : max_depth root = foldr Z.max 0 (zlen ∘ fst <$> cs);
  ro_val : n_val (root_node root) = [] /\ n_hit (root_node root) = 0
}.

Lemma total_app_list sel P cs1 cs2 : total sel P (cs1 ++ cs2) = total sel P cs1 + total sel P cs2.
Proof. induction cs1 as [|[l p] cs1 IH]; simpl in *; lia. Qed.

Lemma total_app sel P cs c : total sel P (cs ++ [c]) =
  total sel P cs + (if P (nkey <$> c.1) then amount sel c.2 else 0).
Proof. destruct c as [l p]. rewrite total_app_list. simpl. lia. Qed.

Lemma depth_app cs c : foldr Z.max 0 (zlen ∘ fst <$> (cs ++ [c])) =
  Z.max (foldr Z.max 0 (zlen ∘ fst <$> cs)) (zlen (c : list callchain_cursor_node * Z).1).
Proof.
  induction cs as [|d cs IH]; [simpl; unfold zlen; lia|].
  cbn [app fmap list_fmap foldr] in *. unfold compose at 1 3. lia.
Qed.

Lemma callchain_append_ok root cs cur a l period :
  root_ok root cs -> chain_ok (l, period) -> c_nr cur = length l ->
  (c_nr cur <= length (c_nodes cur))%nat -> take (c_nr cur) (c_nodes cur) = l ->
  exists root' cur' a', callchain_append alloc_ok key root cur period a = Some (0, root', cur', a') /\
    root_ok root' (cs ++ [(l, period)]) /\ same_cur cur cur'.
Proof.
  intros [R1 R2 R3 R4 R5 R6 R7] (Hl & Hz & Hne & Hper) Hnr Hlen Htk. cbn [fst snd] in *.
  unfold callchain_append. destruct (Nat.eqb_spec (c_nr cur) 0) as [H0|_]; [rewrite Hnr in H0; by destruct l|].
  set (cur0 := callchain_cursor_commit cur).
  assert (Hr : rest cur0 = l) by done.
  assert (Hc : cur_ok cur0).
  { split; [simpl; lia|]. split; [cbn; rewrite Hnr; exact Hz|]. cbn. by rewrite Htk. }
  destruct root as [md [v x ct cct h ch k]]. cbn [root_node n_kids n_children_hit max_depth] in *.
  destruct (with_children_kids alloc_ok period v x ct cct h ch k cur0 a
    (proj2 (append_mut alloc_ok Hal period Hper) k) R1 R2 Hc) as (k' & cur' & a' & E & Hc' & Hs' & HT).
  { by rewrite Hr. }
  unfold append_chain_children. cbn [n_kids]. rewrite E. cbn [mbind option_bind Z.ltb Z.compare].
  eexists _, cur', a'. split; [reflexivity|]. split; [|done]. rewrite Hr in HT.
  destruct HT as [T1 T2 T3 T4 T5 T6 T7].
  constructor; cbn [root_node n_kids n_children_hit max_depth]; try done.
  - intros sel P. rewrite (T4 sel P), (R3 sel P), total_app. done.
  - rewrite total_app, R4. cbn [snd amount]. apply (eqm_add true); [apply eqm_u64|done].
  - intros c Hc0. apply elem_of_app in Hc0 as [Hc0|Hc0].
    + destruct (R5 c Hc0) as [m Hm]. by eapply T6.
    + apply list_elem_of_singleton in Hc0 as ->. exact T7.
  - rewrite depth_app, R6. cbn [fst]. unfold zlen. destruct Hs' as [_ Hs']. rewrite Hs'. cbn. by rewrite Hnr.
Qed.

Lemma append_all_ok root cs cs' cur a :
  root_ok root cs -> Forall chain_ok cs' -> (c_nr cur <= length (c_nodes cur))%nat ->
  exists root', append_all alloc_ok root cur a cs' = Some (replicate (length cs') 0, root') /\
    root_ok root' (cs ++ cs').
Proof.
  intros Hr Hcs. revert root cs cur a Hr.
  induction Hcs as [|[l period] cs' Hc Hcs IH]; intros root cs cur a Hr Hn; cbn [append_all].
  { exists root. by rewrite app_nil_r. }
  destruct (fill_cursor_ok (callchain_cursor_reset cur) l a) as (cur1 & a1 & -> & H1 & H2 & H3).
  { simpl. lia. }
  cbn [callchain_cursor_reset c_nr c_nodes take app Nat.add] in H1, H3.
  destruct (callchain_append_ok root cs cur1 a1 l period Hr Hc H1 H2 H3) as (root1 & cur2 & a2 & -> & Hr1 & [E1 E2]).
  cbn [mbind option_bind].
  destruct (IH root1 _ cur2 a2 Hr1) as (root' & -> & Hr').
  { by rewrite E1, E2. }
  exists root'. cbn [mbind option_bind]. split; [done|]. by rewrite <- app_assoc in Hr'.
Qed.

Lemma root_ok_init : root_ok callchain_init [].
Proof.
  constructor; try done; [constructor|]. intros c Hc. by apply elem_of_nil in Hc.
Qed.

(** A node holds what the sums over the tree say of its frames. *)
Lemma figures sel t p n (T : (list (Z * Z) -> bool) -> Z) :
  wf_kids t -> ksorted (kelems t) -> (forall P, eqm sel (hsums sel P t) (T P)) -> ends_at t p n ->
  self sel n = wrap (width sel) (T (fun q => bool_decide (q = p))) /\
  (if sel then callchain_cumul_hits n else callchain_cumul_counts n) =
    wrap (width sel) (T (fun q => bool_decide (p `prefix_of` q))).
Proof.
  intros Hw Hs HT Hp.
  assert (Hn : wf_node n).
  { clear -Hp Hw. induction Hp as [t n Hn|t n q m Hn Hq IH]; [by eapply wf_elem|].
    apply IH, wf_node_kids. by eapply wf_elem. }
  apply wf_node_parts in Hn as (_ & _ & _ & Hh & Hc & _). split.
  - rewrite <- (HT _), (ends_at_self sel t p n Hw Hs Hp). destruct sel; symmetry; by apply wrap_small.
  - rewrite <- (HT _), (ends_at_cumul sel t p n Hw Hs Hp). by destruct sel.
Qed.

(** C32: However call chains with their periods are appended to an empty tree, and
    however its nodes are split on the way, every appended chain ends in exactly one
    node, and a node holds exact figures: its hits and count are the sum of the periods
    and the number of the chains with exactly the frames that lead to it, its cumulated
    hits and counts those of all chains that start with them, modulo the width of the
    counters.  Every append succeeds, the root has the sum of all periods and the depth
    of the longest chain.  This holds for frames that the comparison orders by a key
    ([ChainKey]): all frames when compared by address, frames with a symbol that is not
    inlined when compared by function, which is the default; other frames can be
    compared inconsistently and a chain be entered twice ([match_not_transitive]).  The
    chains are not empty and shorter than 2^32, the branch types in them are known ones
    (below 11), and memory is there. *)
Theorem chains_aggregated (cs : list (list callchain_cursor_node * Z)) (cur : callchain_cursor) (a : nat) :
  Forall chain_ok cs -> (c_nr cur <= length (c_nodes cur))%nat ->
  exists root, append_all alloc_ok callchain_init cur a cs = Some (replicate (length cs) 0, root) /\
    let t := n_kids (root_node root) in
    (forall c, c ∈ cs -> exists n, ends_at t (nkey <$> c.1) n) /\
    (forall p n m, ends_at t p n -> ends_at t p m -> n = m) /\
    (forall p n, ends_at t p n ->
       n_hit n = u64 (total true (fun q => bool_decide (q = p)) cs) /\
       n_count n = u32 (total false (fun q => bool_decide (q = p)) cs) /\
       callchain_cumul_hits n = u64 (total true (fun q => bool_decide (p `prefix_of` q)) cs) /\
       callchain_cumul_counts n = u32 (total false (fun q => bool_decide (p `prefix_of` q)) cs)) /\
    n_children_hit (root_node root) = u64 (total true (fun _ => true) cs) /\
    max_depth root = foldr Z.max 0 (zlen ∘ fst <$> cs).
Proof.
  intros Hcs Hcur. destruct (append_all_ok _ _ cs cur a root_ok_init Hcs Hcur) as (root & E & Hr).
  exists root. split; [done|]. destruct Hr as [R1 R2 R3 R4 R5 R6 _]. cbn [app] in *.
  split; [done|]. split; [intros p n m; by apply ends_at_inj|]. split; [|done].
  intros p n Hp. destruct (figures true _ _ _ _ R1 R2 (R3 true) Hp) as [H1 H2].
  destruct (figures false _ _ _ _ R1 R2 (R3 false) Hp) as [H3 H4]. done.
Qed.

(** ** Merging trees *)

(** The most frames on the way to a node. *)
Fixpoint ndepth (n : callchain_node) : nat :=
  match n with CNode val _ _ _ _ _ kids => length val + kdepth kids end
with kdepth (t : ktree) : nat :=
  match t with kleaf => 0 | kbranch l n r => Nat.max (kdepth l) (Nat.max (ndepth n) (kdepth r)) end.

(** A cursor between two appends. *)
Definition cur_part (cur : callchain_cursor) : Prop :=
  (c_nr cur <= length (c_nodes cur))%nat /\ Forall node_ok (take (c_nr cur) (c_nodes cur)).

Definition ckeys (cur : callchain_cursor) : list (Z * Z) := nkey <$> take (c_nr cur) (c_nodes cur).

Definition same_part (cur cur' : callchain_cursor) : Prop :=
  c_nr cur' = c_nr cur /\ take (c_nr cur) (c_nodes cur') = take (c_nr cur) (c_nodes cur) /\
  (c_nr cur <= length (c_nodes cur'))%nat.

Definition dst_ok (dst : callchain_node) : Prop := wf_kids (n_kids dst) /\ ksorted (kelems (n_kids dst)).

Lemma same_part_ok cur cur' : cur_part cur -> same_part cur cur' -> cur_part cur' /\ ckeys cur' = ckeys cur.
Proof. intros [H1 H2] (E1 & E2 & E3). unfold cur_part, ckeys. by rewrite E1, E2. Qed.

Lemma same_part_trans cur1 cur2 cur3 : same_part cur1 cur2 -> same_part cur2 cur3 -> same_part cur1 cur3.
Proof.
  intros (E1 & E2 & E3) (F1 & F2 & F3). rewrite E1 in F1, F2, F3.
  split; [congruence|]. split; [by rewrite F2|done].
Qed.

Lemma append_vals_ok val cur a :
  Forall list_ok val -> cur_part cur ->
  exists cur' a', append_vals alloc_ok val cur a = (cur', a') /\ cur_part cur' /\
    c_nr cur' = (c_nr cur + length val)%nat /\ ckeys cur' = ckeys cur ++ (lkey <$> val) /\
    take (c_nr cur) (c_nodes cur') = take (c_nr cur) (c_nodes cur) /\
    (c_nr cur <= length (c_nodes cur'))%nat.
Proof.
  intros Hv. revert cur a. induction Hv as [|c val Hc Hv IH]; intros cur a Hp; cbn [append_vals].
  { exists cur, a. rewrite Nat.add_0_r, app_nil_r. destruct Hp. done. }
  set (x fl := CursorNode (l_frame c) false fl 0 0 0).
  assert (Ha : exists cur1 a1 fl, callchain_cursor_append alloc_ok cur (l_frame c) false None 0 0 0 a = (0, cur1, a1) /\
    c_nr cur1 = S (c_nr cur) /\ (c_nr cur1 <= length (c_nodes cur1))%nat /\
    take (c_nr cur1) (c_nodes cur1) = take (c_nr cur) (c_nodes cur) ++ [x fl]).
  { pose proof Hp as [Hn _]. unfold callchain_cursor_append.
    destruct (c_nodes cur !! c_nr cur) as [old|] eqn:El.
    - pose proof (lookup_lt_Some _ _ _ El). eexists _, a, _. split; [done|]. cbn [c_nr c_nodes].
      split; [done|]. rewrite length_insert. split; [lia|].
      rewrite (take_S_r _ _ (x (cn_flags old))) by (by apply list_lookup_insert_eq).
      by rewrite take_insert_ge by lia.
    - apply lookup_ge_None_1 in El. rewrite Hal. eexists _, (S a), _. split; [done|]. cbn [c_nr c_nodes].
      split; [done|]. rewrite length_app. split; [simpl; lia|].
      replace (c_nr cur) with (length (c_nodes cur)) by lia.
      rewrite take_ge by (rewrite length_app; simpl; lia). by rewrite firstn_all. }
  destruct Ha as (cur1 & a1 & fl & -> & H1 & H2 & H3).
  assert (Hp1 : cur_part cur1).
  { split; [done|]. rewrite H3. apply Forall_app. split; [by destruct Hp|].
    constructor; [|done]. destruct Hc as [Hc _]. by split. }
  destruct (IH cur1 a1 Hp1) as (cur' & a' & -> & H4 & H5 & H6 & H7 & H8).
  exists cur', a'. split; [done|]. split; [done|]. split; [simpl; lia|]. split.
  - rewrite H6. unfold ckeys at 1. rewrite H3, fmap_app, <- app_assoc. done.
  - split; [|lia]. rewrite H1 in H7.
    replace (take (c_nr cur) (c_nodes cur')) with (take (c_nr cur) (take (S (c_nr cur)) (c_nodes cur')))
      by (rewrite take_take; f_equal; lia).
    rewrite H7, <- H1, H3. rewrite take_app_le by (rewrite length_take; destruct Hp; lia).
    rewrite take_take. f_equal. lia.
Qed.

(** The chain on the cursor goes into the destination. *)
Lemma append_to_dst dst cur a h :
  dst_ok dst -> cur_part cur -> ckeys cur <> [] -> Z.of_nat (c_nr cur) < 2 ^ 32 -> is_uint 64 h ->
  exists dst' cur' a', append_chain_children alloc_ok key dst (callchain_cursor_commit cur) h a =
      Some (0, dst', cur', a') /\ dst_ok dst' /\ same_cur cur cur' /\
    (forall P, eqm true (hsums true P (n_kids dst')) (hsums true P (n_kids dst) + (if P (ckeys cur) then h else 0))).
Proof.
  intros [D1 D2] [P1 P2] Hk H32 Hh. destruct dst as [v x ct cct h0 ch k]. cbn [n_kids] in *.
  assert (Hc : cur_ok (callchain_cursor_commit cur)) by (split; [simpl; lia|done]).
  destruct (with_children_kids alloc_ok h v x ct cct h0 ch k _ a (proj2 (append_mut alloc_ok Hal h Hh) k) D1 D2 Hc)
    as (k' & cur' & a' & E & Hc' & Hs' & HT).
  { intros He. apply Hk. unfold ckeys. change (take (c_nr cur) (c_nodes cur)) with (rest (callchain_cursor_commit cur)).
    by rewrite He. }
  unfold append_chain_children. cbn [n_kids]. eexists _, cur', a'. split; [exact E|].
  destruct HT as [T1 T2 T3 T4 T5 T6 T7]. split; [done|]. split; [done|]. exact (T4 true).
Qed.

Definition merges (n : callchain_node) : Prop :=
  forall cur dst a, wf_node n -> cur_part cur -> dst_ok dst -> Z.of_nat (c_nr cur + ndepth n) < 2 ^ 32 ->
  exists dst' cur' a', merge_chain_branch alloc_ok key n cur dst a = Some (0, dst', cur', a') /\
    same_part cur cur' /\ dst_ok dst' /\
    forall P, eqm true (hsums true P (n_kids dst'))
      (hsums true P (n_kids dst) + hsum true (fun q => P (ckeys cur ++ q)) n).

Definition merges_kids (t : ktree) : Prop :=
  forall cur dst a, wf_kids t -> cur_part cur -> dst_ok dst -> Z.of_nat (c_nr cur + kdepth t) < 2 ^ 32 ->
  exists dst' cur' a', merge_kids alloc_ok key t cur dst a = Some (0, dst', cur', a') /\
    same_part cur cur' /\ dst_ok dst' /\
    forall P, eqm true (hsums true P (n_kids dst'))
      (hsums true P (n_kids dst) + hsums true (fun q => P (ckeys cur ++ q)) t).

Lemma merge_node_eq val x ct cct h ch kids cur dst a :
  merge_chain_branch alloc_ok key (CNode val x ct cct h ch kids) cur dst a =
  (let '(cur1, a1) := append_vals alloc_ok val cur a in
   '(err, dst, cur2, a) ←
     (if h =? 0 then Some (0, dst, cur1, a1)
      else append_chain_children alloc_ok key dst (callchain_cursor_commit cur1) h a1);
   if err <? 0 then Some (-1, dst, cur2, a) else
   '(err, dst, cur2, a) ← merge_kids alloc_ok key kids cur2 dst a;
   Some (err, dst, Cursor (c_nodes cur2) (c_nr cur) (c_pos cur2), a)).
Proof. done. Qed.

Lemma merge_kids_eq l n r cur dst a :
  merge_kids alloc_ok key (kbranch l n r) cur dst a =
  ('(err, dst, cur, a) ← merge_kids alloc_ok key l cur dst a;
   if negb (err =? 0) then Some (err, dst, cur, a) else
   '(err, dst, cur, a) ← merge_chain_branch alloc_ok key n cur dst a;
   if negb (err =? 0) then Some (err, dst, cur, a) else
   merge_kids alloc_ok key r cur dst a).
Proof. done. Qed.

Lemma merge_node val x ct cct h ch kids : merges_kids kids -> merges (CNode val x ct cct h ch kids).
Proof.
  intros HK cur dst a Hn Hp Hd H32. rewrite merge_node_eq. cbn [ndepth] in H32.
  pose proof Hn as (Hv & _ & Hf & Hh & _ & _ & _ & _ & Hwk).
  destruct (append_vals_ok val cur a Hf Hp) as (cur1 & a1 & -> & Hp1 & Hn1 & Hk1 & Ht1 & Hl1).
  set (app := if h =? 0 then _ else _).
  assert (Happ : exists dst1 cur2 a2, app = Some (0, dst1, cur2, a2) /\ dst_ok dst1 /\ same_cur cur1 cur2 /\
    forall P, eqm true (hsums true P (n_kids dst1)) (hsums true P (n_kids dst) + (if P (ckeys cur1) then h else 0))).
  { unfold app. destruct (Z.eqb_spec h 0) as [->|Hh0].
    - exists dst, cur1, a1. split; [done|]. split; [done|]. split; [done|]. intros P.
      replace (if P (ckeys cur1) then 0 else 0) with 0 by (by destruct (P (ckeys cur1))). by rewrite Z.add_0_r.
    - apply append_to_dst; try done; [|lia]. rewrite Hk1. destruct val; [done|]. by destruct (ckeys cur). }
  clearbody app. destruct Happ as (dst1 & cur2 & a2 & -> & Hd1 & [E1 E2] & Hsum1).
  cbn [mbind option_bind Z.ltb Z.compare].
  assert (Hp2 : cur_part cur2) by (unfold cur_part; by rewrite E1, E2).
  destruct (HK cur2 dst1 a2 Hwk Hp2 Hd1) as (dst2 & cur3 & a3 & -> & (F1 & F2 & F3) & Hd2 & Hsum2); [rewrite E2; lia|].
  cbn [mbind option_bind]. eexists dst2, _, a3. split; [done|]. split; [|split; [done|]].
  - split; [done|]. cbn [c_nodes c_nr]. rewrite E2, E1 in F2. rewrite E2 in F3. split; [|lia].
    rewrite <- Ht1. replace (c_nr cur) with (Nat.min (c_nr cur) (c_nr cur1)) by lia.
    by rewrite <- !take_take, F2.
  - intros P. assert (Hk2 : ckeys cur2 = ckeys cur ++ (lkey <$> val)) by (unfold ckeys at 1; rewrite E1, E2; exact Hk1).
    rewrite (Hsum2 P), (Hsum1 P), Hk1, Hk2. cbn [hsum].
    rewrite (hsums_ext true kids (fun q => P ((ckeys cur ++ (lkey <$> val)) ++ q))
      (fun q => P (ckeys cur ++ (lkey <$> val) ++ q))) by (intros q; by rewrite app_assoc).
    unfold eqm. f_equal. lia.
Qed.

Lemma merge_mut : (forall n, merges n) /\ (forall t, merges_kids t).
Proof.
  apply chain_mutind.
  - intros val x ct cct h ch kids. apply merge_node.
  - intros cur dst a _ Hp Hd _. exists dst, cur, a. split; [done|]. split; [by destruct Hp|].
    split; [done|]. intros P. cbn [hsums]. by rewrite Z.add_0_r.
  - intros l IHl n IHn r IHr cur dst a (Hwl & Hwn & Hwr) Hp Hd H32. cbn [kdepth] in H32. rewrite merge_kids_eq.
    destruct (IHl cur dst a Hwl Hp Hd) as (dst1 & cur1 & a1 & -> & S1 & Hd1 & Q1); [lia|].
    cbn [mbind option_bind Z.eqb negb]. destruct (same_part_ok _ _ Hp S1) as [Hp1 K1].
    pose proof S1 as (N1 & _).
    destruct (IHn cur1 dst1 a1 Hwn Hp1 Hd1) as (dst2 & cur2 & a2 & -> & S2 & Hd2 & Q2); [lia|].
    cbn [mbind option_bind Z.eqb negb]. destruct (same_part_ok _ _ Hp1 S2) as [Hp2 K2].
    pose proof S2 as (N2 & _).
    destruct (IHr cur2 dst2 a2 Hwr Hp2 Hd2) as (dst3 & cur3 & a3 & -> & S3 & Hd3 & Q3); [lia|].
    exists dst3, cur3, a3. split; [done|].
    split; [eapply same_part_trans; [|exact S3]; by eapply same_part_trans|]. split; [done|].
    intros P. rewrite (Q3 P), (Q2 P), (Q1 P), K2, K1. cbn [hsums]. unfold eqm. f_equal. lia.
Qed.

(** Hits do not come from nowhere. *)
Lemma hsum_end_mut sel :
  (forall n P, hsum sel P n <> 0 -> exists p, P p = true /\ has_end n p) /\
  (forall t P, hsums sel P t <> 0 -> exists p m, P p = true /\ ends_at t p m).
Proof.
  apply chain_mutind.
  - intros val x ct cct h ch kids IH P Hne. rewrite hsum_eq in Hne. cbn [n_kids] in Hne.
    destruct (P (vkeys (CNode val x ct cct h ch kids))) eqn:EP; [eexists; split; [exact EP|by left]|].
    destruct (IH _ Hne) as (p & m & Hp & Hm). eexists. split; [exact Hp|]. right. by exists p, m.
  - done.
  - intros l IHl n IHn r IHr P Hne. cbn [hsums] in Hne.
    destruct (decide (hsums sel P l = 0)) as [El|El];
      [destruct (decide (hsum sel P n = 0)) as [En|En]|].
    + destruct (IHr P) as (p & m & Hp & Hm); [lia|]. exists p, m. split; [done|]. by apply ends_right.
    + destruct (IHn P En) as (p & Hp & Hm). destruct (ends_mid l n r p Hm) as [m Hm']. by exists p, m.
    + destruct (IHl P El) as (p & m & Hp & Hm). exists p, m. split; [done|]. by apply ends_left.
Qed.

(** C33: Merging one tree of call chains into another, as perf report does for entries
    that turn out to be the same, never fails and adds up the hits: in the merged tree
    every node has the sum of the periods of all chains of both trees with its frames,
    and cumulated those of all that start with them; there is one node at most for a
    list of frames, and there is one if the periods of the chains with these frames do
    not add up to 0 modulo 2^64 (a chain of the source without hits is not carried
    over).  The same is asked of the chains as for [chains_aggregated]: frames that the
    comparison orders by a key ([ChainKey]), not empty, known branch types, memory; and
    the source is less than 2^32 deep.  The counts are not claimed
    ([merge_forgets_counts]). *)
Theorem chain_trees_merge (cs1 cs2 : list (list callchain_cursor_node * Z)) (cur : callchain_cursor)
    (a1 a2 a3 : nat) (e1 e2 : list Z) (dst src : callchain_root) :
  Forall chain_ok cs1 -> Forall chain_ok cs2 -> (c_nr cur <= length (c_nodes cur))%nat ->
  append_all alloc_ok callchain_init cur a1 cs1 = Some (e1, dst) ->
  append_all alloc_ok callchain_init cur a2 cs2 = Some (e2, src) ->
  Z.of_nat (kdepth (n_kids (root_node src))) < 2 ^ 32 ->
  exists root cur' a', callchain_merge alloc_ok key (callchain_cursor_reset cur) dst src a3 =
      Some (0, root, cur', a') /\
    let t := n_kids (root_node root) in
    let cs := cs1 ++ cs2 in
    (forall p n m, ends_at t p n -> ends_at t p m -> n = m) /\
    (forall p n, ends_at t p n ->
       n_hit n = u64 (total true (fun q => bool_decide (q = p)) cs) /\
       callchain_cumul_hits n = u64 (total true (fun q => bool_decide (p `prefix_of` q)) cs)) /\
    (forall p, u64 (total true (fun q => bool_decide (q = p)) cs) <> 0 -> exists n, ends_at t p n).
Proof.
  intros Hc1 Hc2 Hcur E1 E2 Hdep.
  destruct (append_all_ok _ _ cs1 cur a1 root_ok_init Hc1 Hcur) as (r1 & E1' & R1).
  destruct (append_all_ok _ _ cs2 cur a2 root_ok_init Hc2 Hcur) as (r2 & E2' & R2).
  rewrite E1 in E1'. injection E1' as -> <-. rewrite E2 in E2'. injection E2' as -> <-. cbn [app] in *.
  set (cur0 := callchain_cursor_reset cur).
  assert (Hp : cur_part cur0) by (split; [simpl; lia|constructor]).
  assert (Hd : dst_ok (root_node dst)) by (split; apply R1).
  destruct (proj2 merge_mut _ cur0 (root_node dst) a3 (ro_wf _ _ R2) Hp Hd Hdep)
    as (n & cur' & a' & E & (S1 & _) & [D1 D2] & Hsum).
  assert (Htot : forall P, eqm true (hsums true P (n_kids n)) (total true P (cs1 ++ cs2))).
  { intros P. rewrite (Hsum P), (ro_sum _ _ R1 true P), (ro_sum _ _ R2 true _), total_app_list. done. }
  unfold callchain_merge. destruct src as [md [v x ct cct h ch k]]. cbn [root_node n_kids] in *.
  pose proof (ro_val _ _ R2) as [Hv Hh]. cbn [root_node n_val n_hit] in Hv, Hh. subst v h.
  rewrite merge_node_eq. cbn [append_vals Z.eqb mbind option_bind Z.ltb Z.compare]. rewrite E.
  cbn [mbind option_bind]. eexists _, _, _. split; [reflexivity|]. cbn [root_node].
  split; [intros p n1 n2; by apply ends_at_inj|]. split.
  - intros p m Hm. exact (figures true _ _ _ _ D1 D2 Htot Hm).
  - intros p Hne. destruct (proj2 (hsum_end_mut true) (n_kids n) (fun q => bool_decide (q = p))) as (q & m & Hq & Hm).
    { intros H0. apply Hne. rewrite <- (Htot (fun q => bool_decide (q = p))), H0. done. }
    apply bool_decide_eq_true_1 in Hq as ->. by exists m.
Qed.
End Aggregate.
End Tree.

(** * Concrete trees *)

#[local] Instance plain_chain_tree : ChainTree := {| krebalance t := t; krebalance_elems _ := eq_refl |}.

Definition mem_ok (n : nat) : bool := true.
Definition no_cursor : callchain_cursor := Cursor [] 0 0.

(** A frame at [i], without symbol, that is no branch. *)
Definition at_ip (i : Z) : callchain_cursor_node :=
  CursorNode (Frame i None None None) false no_flags 0 0 0.

Definition demo_chains : list (list callchain_cursor_node * Z) :=
  [([at_ip 10; at_ip 20; at_ip 30], 5); ([at_ip 10; at_ip 40], 3); ([at_ip 10; at_ip 20], 4)].

Lemma demo_chains_ok : Forall (chain_ok (fun _ => True)) demo_chains.
Proof. repeat constructor; done. Defined.

Lemma chains_aggregated_witness :
  exists root, append_all CCKEY_ADDRESS mem_ok callchain_init no_cursor 0 demo_chains = Some ([0; 0; 0], root) /\
    n_children_hit (root_node root) = 12 /\ max_depth root = 3 /\
    (forall n, ends_at CCKEY_ADDRESS (fun _ => True) (n_kids (root_node root)) [(0, 10); (0, 20)] n ->
       n_hit n = 4 /\ callchain_cumul_hits n = 9 /\ callchain_cumul_counts n = 2) /\
    (forall n, ends_at CCKEY_ADDRESS (fun _ => True) (n_kids (root_node root)) [(0, 10)] n ->
       n_hit n = 0 /\ callchain_cumul_hits n = 12).
Proof.
  destruct (chains_aggregated CCKEY_ADDRESS (fun _ => True) mem_ok (fun _ => eq_refl) demo_chains no_cursor 0
    demo_chains_ok (le_n 0)) as (root & E & _ & _ & Hf & Hc & Hd).
  exists root. split; [exact E|]. split; [exact Hc|]. split; [exact Hd|]. split.
  - intros n Hn. destruct (Hf _ n Hn) as (H1 & _ & H3 & H4). split; [exact H1|]. split; [exact H3|exact H4].
  - intros n Hn. destruct (Hf _ n Hn) as (H1 & _ & H3 & _). split; [exact H1|exact H3].
Defined.

(** By function: other ips in the same functions. *)
Definition in_sym (start i : Z) : callchain_cursor_node :=
  CursorNode (Frame i (Some 9) (Some (Symbol start "f" false)) None) false no_flags 0 0 0.

Definition demo_first : list (list callchain_cursor_node * Z) := [([in_sym 100 101; in_sym 200 201], 5)].
Definition demo_second : list (list callchain_cursor_node * Z) :=
  [([in_sym 100 109; in_sym 200 209], 6); ([in_sym 100 109], 7)].

Definition demo_tree (cs : list (list callchain_cursor_node * Z)) : callchain_root :=
  default callchain_init (snd <$> append_all CCKEY_FUNCTION mem_ok callchain_init no_cursor 0 cs).

Lemma chain_trees_merge_witness :
  exists root cur' a',
    callchain_merge mem_ok CCKEY_FUNCTION (callchain_cursor_reset no_cursor) (demo_tree demo_first)
      (demo_tree demo_second) 0 = Some (0, root, cur', a') /\
    (forall n, ends_at CCKEY_FUNCTION plain_symbol (n_kids (root_node root)) [(9, 100); (9, 200)] n -> n_hit n = 11) /\
    (forall n, ends_at CCKEY_FUNCTION plain_symbol (n_kids (root_node root)) [(9, 100)] n ->
       callchain_cumul_hits n = 18).
Proof.
  assert (H1 : Forall (chain_ok plain_symbol) demo_first)
    by (repeat constructor; try done; eexists; split; reflexivity).
  assert (H2 : Forall (chain_ok plain_symbol) demo_second)
    by (repeat constructor; try done; eexists; split; reflexivity).
  destruct (chain_trees_merge CCKEY_FUNCTION plain_symbol mem_ok (fun _ => eq_refl) demo_first demo_second no_cursor
    0 0 0 [0] [0; 0] (demo_tree demo_first) (demo_tree demo_second) H1 H2 (le_n 0))
    as (root & cur' & a' & E & _ & Hf & _); [vm_compute; reflexivity..|].
  exists root, cur', a'. split; [exact E|]. split.
  - intros n Hn. exact (proj1 (Hf _ n Hn)).
  - intros n Hn. exact (proj2 (Hf _ n Hn)).
Defined.

(** A branch type above those the array has room for, as a record of a file can
    hold in its four bits, is counted outside it. *)
Theorem branch_type_overrun :
  branch_type_count zero_stat (BranchFlags false false 0 11) 1 2 = None /\
  branch_type_count zero_stat (BranchFlags false false 0 15) 1 2 = None.
Proof. done. Qed.

(** Frames with and without symbols are compared by different keys, so the
    order of the children is not transitive. *)
Theorem match_not_transitive :
  let f i s := Frame i None s None in
  let a := f 100 (Some (Symbol 500 "a" false)) in
  let b := f 200 None in
  let c := f 300 (Some (Symbol 50 "c" false)) in
  match_frames CCKEY_FUNCTION a b = MATCH_LT /\ match_frames CCKEY_FUNCTION b c = MATCH_LT /\
  match_frames CCKEY_FUNCTION a c = MATCH_GT.
Proof. done. Qed.

(** Merging gives every chain of the source the count 1, however often it was
    seen. *)
Theorem merge_forgets_counts :
  exists dst src root cur' a',
    append_all CCKEY_ADDRESS mem_ok callchain_init no_cursor 0 [([at_ip 10], 1); ([at_ip 10], 1)] = Some ([0; 0], dst) /\
    append_all CCKEY_ADDRESS mem_ok callchain_init no_cursor 0
      [([at_ip 10], 1); ([at_ip 10], 1); ([at_ip 10], 1)] = Some ([0; 0; 0], src) /\
    callchain_merge mem_ok CCKEY_ADDRESS no_cursor dst src 0 = Some (0, root, cur', a') /\
    n_hit <$> kelems (n_kids (root_node root)) = [5] /\ n_count <$> kelems (n_kids (root_node root)) = [3].
Proof. eexists _, _, _, _, _. do 3 (split; [reflexivity|]). done. Qed.

(** The decay gives a parent the hits of its children without those below them:
    the hits below the root fall from 24 to 7, those of its only child to 14,
    with 21 left in the nodes. *)
Theorem decay_forgets_grandchildren :
  let root := demo_tree
      [([at_ip 10; at_ip 20; at_ip 30], 8); ([at_ip 10; at_ip 20], 8); ([at_ip 10], 8)] in
  let root' := decay_callchain true root in
  n_children_hit (root_node root) = 24 /\
  callchain_cumul_hits <$> kelems (n_kids (root_node root)) = [24] /\
  n_children_hit (root_node root') = 7 /\
  callchain_cumul_hits <$> kelems (n_kids (root_node root')) = [14] /\
  hsum CCKEY_ADDRESS (fun _ => True) true (fun _ => true) (root_node root') = 21.
Proof. vm_compute. split_and!; reflexivity. Qed.
