(* ===== verification/SortKeys.v ===== *)
(** Model of the sort keys of util/sort.c and ui/hist.c: the entries of a histogram
    as the comparisons see them, the sort__*_cmp functions, the columns (struct
    perf_hpp_fmt) made of them, and the laws that a tree of entries needs of a
    comparison (class [SortKey]), proved for the keys that keep them.

    Strings are byte lists without their terminator.  A pointer that is compared is
    the number of its object.  The keys that ask for source lines or format trace
    data call libraries and are not modelled. *)

From S2P Require Import Prelude Callchain.

(** * Entries *)

(** struct he_stat; nr_events has 32 bits. *)
Record he_stat := HeStat {
  period : Z;
  period_sys : Z;
  period_us : Z;
  period_guest_sys : Z;
  period_guest_us : Z;
  weight : Z;
  nr_events : Z
}.

Record dso := Dso { dso_ptr : Z; short_name : bytes; long_name : bytes }.

(** struct map, as far as keys look at it *)
Record hist_map := HistMap {
  map_ptr : Z;
  map_start : Z;
  map_end : Z;
  map_dso : option dso;
  maj : Z;
  min : Z;
  ino : Z;
  ino_generation : Z;
  map_flags : Z
}.

Record hist_symbol := HistSymbol {
  s_ptr : Z;
  s_start : Z;
  s_end : Z;
  s_inlined : bool;
  s_name : bytes
}.

Record hist_thread := HistThread { thread_ptr : Z; tid : Z; pid_ : Z }.

Record addr_map_symbol := AddrMapSymbol {
  ams_map : option hist_map;
  ams_sym : option hist_symbol;
  ams_addr : Z;
  al_addr : Z;
  phys_addr : Z
}.

Record bflags := BFlags {
  bf_mispred : bool;
  bf_predicted : bool;
  bf_in_tx : bool;
  bf_abort : bool;
  bf_cycles : Z
}.

Record branch_info := BranchInfo { bi_from : addr_map_symbol; bi_to : addr_map_symbol; bi_flags : bflags }.

(** The members of union perf_mem_data_src that are keys. *)
Record mem_data_src := MemDataSrc { mem_lvl : Z; mem_snoop : Z; mem_lock : Z; mem_dtlb : Z }.

Record mem_info := MemInfo { iaddr : addr_map_symbol; daddr : addr_map_symbol; data_src : mem_data_src }.

Record hist_entry := HistEntry {
  stat : he_stat;
  stat_acc : option he_stat;
  ms_map : option hist_map;
  ms_sym : option hist_symbol;
  he_thread : hist_thread;
  he_comm : bytes;
  cgroup_dev : Z;
  cgroup_ino : Z;
  ip : Z;
  transaction : Z;
  he_socket : Z;
  he_cpu : Z;
  he_cpumode : Z;
  level : Z;
  filtered : Z;
  he_parent : option hist_symbol;
  he_branch_info : option branch_info;
  he_mem_info : option mem_info;
  he_time : Z;
  dummy : bool;
  (** callchain_size is not zero *)
  has_callchains : bool;
  he_callchain : callchain_root
}.

Definition set_stats (s : he_stat) (acc : option he_stat) (e : hist_entry) : hist_entry :=
  HistEntry s acc (ms_map e) (ms_sym e) (he_thread e) (he_comm e) (cgroup_dev e) (cgroup_ino e) (ip e)
    (transaction e) (he_socket e) (he_cpu e) (he_cpumode e) (level e) (filtered e) (he_parent e) (he_branch_info e)
    (he_mem_info e) (he_time e) (dummy e) (has_callchains e) (he_callchain e).
Definition set_map (m : option hist_map) (e : hist_entry) : hist_entry :=
  HistEntry (stat e) (stat_acc e) m (ms_sym e) (he_thread e) (he_comm e) (cgroup_dev e) (cgroup_ino e) (ip e)
    (transaction e) (he_socket e) (he_cpu e) (he_cpumode e) (level e) (filtered e) (he_parent e) (he_branch_info e)
    (he_mem_info e) (he_time e) (dummy e) (has_callchains e) (he_callchain e).
Definition set_filtered (f : Z) (e : hist_entry) : hist_entry :=
  HistEntry (stat e) (stat_acc e) (ms_map e) (ms_sym e) (he_thread e) (he_comm e) (cgroup_dev e) (cgroup_ino e)
    (ip e) (transaction e) (he_socket e) (he_cpu e) (he_cpumode e) (level e) f (he_parent e) (he_branch_info e)
    (he_mem_info e) (he_time e) (dummy e) (has_callchains e) (he_callchain e).
Definition set_chain (c : callchain_root) (e : hist_entry) : hist_entry :=
  HistEntry (stat e) (stat_acc e) (ms_map e) (ms_sym e) (he_thread e) (he_comm e) (cgroup_dev e) (cgroup_ino e)
    (ip e) (transaction e) (he_socket e) (he_cpu e) (he_cpumode e) (level e) (filtered e) (he_parent e)
    (he_branch_info e) (he_mem_info e) (he_time e) (dummy e) (has_callchains e) c.
Definition set_dummy (d : bool) (e : hist_entry) : hist_entry :=
  HistEntry (stat e) (stat_acc e) (ms_map e) (ms_sym e) (he_thread e) (he_comm e) (cgroup_dev e) (cgroup_ino e)
    (ip e) (transaction e) (he_socket e) (he_cpu e) (he_cpumode e) (level e) (filtered e) (he_parent e)
    (he_branch_info e) (he_mem_info e) (he_time e) d (has_callchains e) (he_callchain e).
Definition set_size (h : bool) (e : hist_entry) : hist_entry :=
  HistEntry (stat e) (stat_acc e) (ms_map e) (ms_sym e) (he_thread e) (he_comm e) (cgroup_dev e) (cgroup_ino e)
    (ip e) (transaction e) (he_socket e) (he_cpu e) (he_cpumode e) (level e) (filtered e) (he_parent e)
    (he_branch_info e) (he_mem_info e) (he_time e) (dummy e) h (he_callchain e).

(** All members that are not part of the key. *)
Definition recast (s : he_stat) (acc : option he_stat) (f : Z) (d h : bool) (c : callchain_root) (e : hist_entry) : hist_entry :=
  set_stats s acc (set_filtered f (set_dummy d (set_size h (set_chain c e)))).

(** * Comparisons *)

(** A 64-bit difference seen as int64_t. *)
Definition diff64 (a b : Z) : Z := sint 64 (a - b).

Fixpoint strcmp (a b : bytes) : Z :=
  match a, b with
  | [], [] => 0
  | [], y :: _ => - y
  | x :: _, [] => x
  | x :: a, y :: b => if x =? y then strcmp a b else x - y
  end.

Definition cmp_null {A B} (l : option A) (r : option B) : Z :=
  match l, r with
  | None, None => 0
  | None, Some _ => -1
  | Some _, _ => 1
  end.

Definition sort__thread_cmp (left right : hist_entry) : Z := sint 32 (tid (he_thread right) - tid (he_thread left)).

Definition sort__comm_cmp (left right : hist_entry) : Z := strcmp (he_comm right) (he_comm left).
Definition sort__comm_collapse (left right : hist_entry) : Z := strcmp (he_comm right) (he_comm left).
Definition sort__comm_sort (left right : hist_entry) : Z := strcmp (he_comm right) (he_comm left).

Section Verbose.
Context (verbose : Z).

Definition _sort__dso_cmp (map_l map_r : option hist_map) : Z :=
  match map_l ≫= map_dso, map_r ≫= map_dso with
  | Some dso_l, Some dso_r =>
      if 0 <? verbose then strcmp (long_name dso_l) (long_name dso_r)
      else strcmp (short_name dso_l) (short_name dso_r)
  | dso_l, dso_r => cmp_null dso_r dso_l
  end.

Definition sort__dso_cmp (left right : hist_entry) : Z := _sort__dso_cmp (ms_map right) (ms_map left).

Definition _sort__addr_cmp (left_ip right_ip : Z) : Z := diff64 right_ip left_ip.

Definition _sort__sym_cmp (sym_l sym_r : option hist_symbol) : Z :=
  match sym_l, sym_r with
  | Some l, Some r =>
      let by_start :=
        if negb (s_start l =? s_start r) then diff64 (s_start r) (s_start l) else diff64 (s_end r) (s_end l) in
      if s_ptr l =? s_ptr r then 0 else
      if s_inlined l || s_inlined r then
        let ret := strcmp (s_name l) (s_name r) in
        if negb (ret =? 0) then ret else
        if (s_start l <=? s_end r) && (s_start r <=? s_end l) then 0 else by_start
      else by_start
  | l, r => cmp_null l r
  end.

(** Both entries are of one histogram, so that the test of its dso column,
    ! has(left) || has(right), holds. *)
Definition sort__sym_cmp (left right : hist_entry) : Z :=
  match ms_sym left, ms_sym right with
  | None, None => _sort__addr_cmp (ip left) (ip right)
  | _, _ =>
      let ret := sort__dso_cmp left right in
      if negb (ret =? 0) then ret else _sort__sym_cmp (ms_sym left) (ms_sym right)
  end.

Definition sort__sym_sort (left right : hist_entry) : Z :=
  match ms_sym left, ms_sym right with
  | Some l, Some r => strcmp (s_name r) (s_name l)
  | l, r => cmp_null l r
  end.

Definition sort__parent_cmp (left right : hist_entry) : Z :=
  match he_parent left, he_parent right with
  | Some l, Some r => strcmp (s_name r) (s_name l)
  | l, r => cmp_null l r
  end.

Definition sort__cpu_cmp (left right : hist_entry) : Z := sint 32 (he_cpu right - he_cpu left).
Definition sort__socket_cmp (left right : hist_entry) : Z := sint 32 (he_socket right - he_socket left).

Definition _sort__cgroup_dev_cmp (left_dev right_dev : Z) : Z := diff64 right_dev left_dev.
Definition _sort__cgroup_inode_cmp (left_ino right_ino : Z) : Z := diff64 right_ino left_ino.
Definition sort__cgroup_id_cmp (left right : hist_entry) : Z :=
  let ret := _sort__cgroup_dev_cmp (cgroup_dev right) (cgroup_dev left) in
  if negb (ret =? 0) then ret else _sort__cgroup_inode_cmp (cgroup_ino right) (cgroup_ino left).

Definition sort__time_cmp (left right : hist_entry) : Z := diff64 (he_time right) (he_time left).
Definition sort__transaction_cmp (left right : hist_entry) : Z := diff64 (transaction left) (transaction right).

(** ** Branches *)

Definition on_branches (f : branch_info -> branch_info -> Z) (left right : hist_entry) : Z :=
  match he_branch_info left, he_branch_info right with
  | Some l, Some r => f l r
  | l, r => cmp_null l r
  end.

Definition sort__dso_from_cmp : hist_entry -> hist_entry -> Z :=
  on_branches (fun l r => _sort__dso_cmp (ams_map (bi_from l)) (ams_map (bi_from r))).
Definition sort__dso_to_cmp : hist_entry -> hist_entry -> Z :=
  on_branches (fun l r => _sort__dso_cmp (ams_map (bi_to l)) (ams_map (bi_to r))).

Definition ams_cmp (l r : addr_map_symbol) : Z :=
  match ams_sym l, ams_sym r with
  | None, None => _sort__addr_cmp (ams_addr l) (ams_addr r)
  | _, _ => _sort__sym_cmp (ams_sym l) (ams_sym r)
  end.
Definition sort__sym_from_cmp : hist_entry -> hist_entry -> Z := on_branches (fun l r => ams_cmp (bi_from l) (bi_from r)).
Definition sort__sym_to_cmp : hist_entry -> hist_entry -> Z := on_branches (fun l r => ams_cmp (bi_to l) (bi_to r)).

Definition sort__mispredict_cmp : hist_entry -> hist_entry -> Z :=
  on_branches (fun l r =>
    let mp := xorb (bf_mispred (bi_flags l)) (bf_mispred (bi_flags r)) in
    let p := xorb (bf_predicted (bi_flags l)) (bf_predicted (bi_flags r)) in
    Z.b2z (mp || p)).
Definition sort__cycles_cmp : hist_entry -> hist_entry -> Z :=
  on_branches (fun l r => bf_cycles (bi_flags l) - bf_cycles (bi_flags r)).
Definition sort__abort_cmp : hist_entry -> hist_entry -> Z :=
  on_branches (fun l r => Z.b2z (xorb (bf_abort (bi_flags l)) (bf_abort (bi_flags r)))).
Definition sort__in_tx_cmp : hist_entry -> hist_entry -> Z :=
  on_branches (fun l r => Z.b2z (xorb (bf_in_tx (bi_flags l)) (bf_in_tx (bi_flags r)))).

(** ** Memory accesses *)

Definition PERF_MEM_LOCK_NA : Z := 1.
Definition PERF_MEM_TLB_NA : Z := 1.
Definition PERF_MEM_LVL_NA : Z := 1.
Definition PERF_MEM_SNOOP_NA : Z := 1.

Definition mem_addr (f : mem_info -> Z) (e : hist_entry) : Z :=
  match he_mem_info e with Some m => f m | None => 0 end.
Definition sort__daddr_cmp (left right : hist_entry) : Z :=
  let f m := ams_addr (daddr m) in diff64 (mem_addr f right) (mem_addr f left).
Definition sort__iaddr_cmp (left right : hist_entry) : Z :=
  let f m := ams_addr (iaddr m) in diff64 (mem_addr f right) (mem_addr f left).
Definition sort__phys_daddr_cmp (left right : hist_entry) : Z :=
  let f m := phys_addr (daddr m) in diff64 (mem_addr f right) (mem_addr f left).
Definition daddr_map (e : hist_entry) : option hist_map := he_mem_info e ≫= fun m => ams_map (daddr m).
Definition sort__dso_daddr_cmp (left right : hist_entry) : Z := _sort__dso_cmp (daddr_map left) (daddr_map right).

Definition src_field (f : mem_data_src -> Z) (na : Z) (e : hist_entry) : Z :=
  match he_mem_info e with Some m => f (data_src m) | None => na end.
Definition sort__locked_cmp (left right : hist_entry) : Z :=
  src_field mem_lock PERF_MEM_LOCK_NA right - src_field mem_lock PERF_MEM_LOCK_NA left.
Definition sort__tlb_cmp (left right : hist_entry) : Z :=
  src_field mem_dtlb PERF_MEM_TLB_NA right - src_field mem_dtlb PERF_MEM_TLB_NA left.
Definition sort__lvl_cmp (left right : hist_entry) : Z :=
  src_field mem_lvl PERF_MEM_LVL_NA right - src_field mem_lvl PERF_MEM_LVL_NA left.
Definition sort__snoop_cmp (left right : hist_entry) : Z :=
  src_field mem_snoop PERF_MEM_SNOOP_NA right - src_field mem_snoop PERF_MEM_SNOOP_NA left.

(** ** Sizes and weights *)

Definition symbol__size (s : hist_symbol) : Z := s_end s -64 s_start s.
Definition map__size (m : hist_map) : Z := map_end m -64 map_start m.

Definition size_cmp (size_l size_r : Z) : Z := if size_l <? size_r then -1 else if size_l =? size_r then 0 else 1.
Definition _sort__sym_size_cmp (sym_l sym_r : option hist_symbol) : Z :=
  let size s := match s with Some s => sint 64 (symbol__size s) | None => 0 end in size_cmp (size sym_l) (size sym_r).
Definition sort__sym_size_cmp (left right : hist_entry) : Z := _sort__sym_size_cmp (ms_sym right) (ms_sym left).
Definition _sort__dso_size_cmp (map_l map_r : option hist_map) : Z :=
  let size m := match m with Some m => sint 64 (map__size m) | None => 0 end in size_cmp (size map_l) (size map_r).
Definition sort__dso_size_cmp (left right : hist_entry) : Z := _sort__dso_size_cmp (ms_map right) (ms_map left).

Definition he_weight (e : hist_entry) : Z :=
  if negb (nr_events (stat e) =? 0) then weight (stat e) / nr_events (stat e) else 0.
Definition sort__local_weight_cmp (left right : hist_entry) : Z := diff64 (he_weight left) (he_weight right).
Definition sort__global_weight_cmp (left right : hist_entry) : Z := diff64 (weight (stat left)) (weight (stat right)).

Definition PERF_RECORD_MISC_KERNEL : Z := 1.
Definition MAP_SHARED : Z := 1.
Definition descending (l r : Z) (next : Z) : Z := if r <? l then -1 else if l <? r then 1 else next.

(** [cacheline] is cacheline_size(), a power of two. *)
Definition cl_address (cacheline address : Z) : Z := Z.land address (Z.lnot (cacheline - 1)).

Definition sort__dcacheline_cmp (cacheline : Z) (left right : hist_entry) : Z :=
  match he_mem_info left, he_mem_info right with
  | None, _ => -1
  | _, None => 1
  | Some ml, Some mr =>
      descending (he_cpumode left) (he_cpumode right)
        (let addr :=
           descending (cl_address cacheline (al_addr (daddr ml))) (cl_address cacheline (al_addr (daddr mr))) 0 in
         match ams_map (daddr ml), ams_map (daddr mr) with
         | None, None => addr
         | None, Some _ => -1
         | Some _, None => 1
         | Some l, Some r =>
             descending (maj l) (maj r) (descending (min l) (min r) (descending (ino l) (ino r)
               (descending (ino_generation l) (ino_generation r)
                 (if negb (he_cpumode left =? PERF_RECORD_MISC_KERNEL) && negb (hasf (map_flags l) MAP_SHARED) &&
                     (maj l =? 0) && (min l =? 0) && (ino l =? 0) && (ino_generation l =? 0)
                  then descending (pid_ (he_thread left)) (pid_ (he_thread right)) addr
                  else addr))))
         end)
  end.

(** * Columns *)

Record sort_entry := SortEntry {
  se_cmp : hist_entry -> hist_entry -> Z;
  se_collapse : option (hist_entry -> hist_entry -> Z);
  se_sort : option (hist_entry -> hist_entry -> Z)
}.

(** A column; [undefined] is that of a trace field that this histogram lacks,
    [should_skip] is perf_hpp__should_skip. *)
Record perf_hpp_fmt := HppFmt {
  fmt_cmp : hist_entry -> hist_entry -> Z;
  fmt_collapse : hist_entry -> hist_entry -> Z;
  fmt_sort : hist_entry -> hist_entry -> Z;
  undefined : bool;
  should_skip : bool
}.

Definition __sort__hpp_cmp (se : sort_entry) : hist_entry -> hist_entry -> Z := se_cmp se.
Definition __sort__hpp_collapse (se : sort_entry) : hist_entry -> hist_entry -> Z :=
  match se_collapse se with Some f => f | None => se_cmp se end.
Definition __sort__hpp_sort (se : sort_entry) : hist_entry -> hist_entry -> Z :=
  match se_sort se with Some f => f | None => se_cmp se end.
Definition sort_column (se : sort_entry) : perf_hpp_fmt :=
  HppFmt (__sort__hpp_cmp se) (__sort__hpp_collapse se) (__sort__hpp_sort se) false false.

Definition sort_thread : sort_entry := SortEntry sort__thread_cmp None None.
Definition sort_comm : sort_entry := SortEntry sort__comm_cmp (Some sort__comm_collapse) (Some sort__comm_sort).
Definition sort_dso : sort_entry := SortEntry sort__dso_cmp None None.
Definition sort_sym : sort_entry := SortEntry sort__sym_cmp None (Some sort__sym_sort).
Definition sort_parent : sort_entry := SortEntry sort__parent_cmp None None.
Definition sort_cpu : sort_entry := SortEntry sort__cpu_cmp None None.
Definition sort_time : sort_entry := SortEntry sort__time_cmp None None.

(** ui/hist.c; events are not grouped. *)
Definition hpp__nop_cmp (a b : hist_entry) : Z := 0.
Definition field_cmp (field_a field_b : Z) : Z := if field_b <? field_a then 1 else if field_a <? field_b then -1 else 0.
Definition __hpp__sort (get_field : hist_entry -> Z) (a b : hist_entry) : Z := field_cmp (get_field a) (get_field b).

Definition he_get_acc (f : he_stat -> Z) (e : hist_entry) : Z := match stat_acc e with Some s => f s | None => 0 end.

(** [caller] is callchain_param.order == ORDER_CALLER. *)
Definition __hpp__sort_acc (cumulate use_callchain caller : bool) (get_field : hist_entry -> Z) (a b : hist_entry) : Z :=
  if negb cumulate then 0 else
  let ret := field_cmp (get_field a) (get_field b) in
  if negb (ret =? 0) then ret else
  if negb (thread_ptr (he_thread a) =? thread_ptr (he_thread b)) || negb (has_callchains a) || negb use_callchain then 0
  else
    let ret := diff64 (max_depth (he_callchain b)) (max_depth (he_callchain a)) in
    sint 32 (if caller then sint 64 (- ret) else ret).

Definition output_column (sort : hist_entry -> hist_entry -> Z) : perf_hpp_fmt :=
  HppFmt hpp__nop_cmp hpp__nop_cmp sort false false.
Definition overhead : perf_hpp_fmt := output_column (__hpp__sort (fun e => period (stat e))).
Definition overhead_children (use_callchain caller : bool) : perf_hpp_fmt :=
  output_column (__hpp__sort_acc true use_callchain caller (he_get_acc period)).

(** The loops of hist_entry__cmp, hist_entry__collapse and hist_entry__sort over
    the columns; the last one returns an int. *)
Fixpoint hist_entry__cmp (fmts : list perf_hpp_fmt) (left right : hist_entry) : Z :=
  match fmts with
  | [] => 0
  | fmt :: fmts =>
      if undefined fmt then hist_entry__cmp fmts left right else
      let cmp := fmt_cmp fmt left right in
      if negb (cmp =? 0) then cmp else hist_entry__cmp fmts left right
  end.

Fixpoint hist_entry__collapse (fmts : list perf_hpp_fmt) (left right : hist_entry) : Z :=
  match fmts with
  | [] => 0
  | fmt :: fmts =>
      if undefined fmt then hist_entry__collapse fmts left right else
      let cmp := fmt_collapse fmt left right in
      if negb (cmp =? 0) then cmp else hist_entry__collapse fmts left right
  end.

Fixpoint sort_columns (fmts : list perf_hpp_fmt) (a b : hist_entry) : Z :=
  match fmts with
  | [] => 0
  | fmt :: fmts =>
      if should_skip fmt then sort_columns fmts a b else
      let cmp := fmt_sort fmt a b in
      if negb (cmp =? 0) then cmp else sort_columns fmts a b
  end.
Definition hist_entry__sort (fmts : list perf_hpp_fmt) (a b : hist_entry) : Z := sint 32 (sort_columns fmts a b).

End Verbose.

(** * Laws *)

(** What a tree needs of a comparison, on values that are [ok]. *)
Class Order {A} (ok : A -> Prop) (cmp : A -> A -> Z) : Prop := {
  ord_sym a b : ok a -> ok b -> Z.sgn (cmp b a) = - Z.sgn (cmp a b);
  ord_trans a b c : ok a -> ok b -> ok c -> cmp a b <= 0 -> cmp b c <= 0 -> cmp a c <= 0
}.

Definition cmp_then {A} (c1 c2 : A -> A -> Z) (a b : A) : Z := if negb (c1 a b =? 0) then c1 a b else c2 a b.
Definition cmp_flip {A} (c : A -> A -> Z) (a b : A) : Z := c b a.
Definition cmp_on {A B} (g : B -> A) (c : A -> A -> Z) (a b : B) : Z := c (g a) (g b).

(** The second kind comes first. *)
Definition cmp_sum {A B} (c1 : A -> A -> Z) (c2 : B -> B -> Z) (l r : A + B) : Z :=
  match l, r with
  | inl l, inl r => c1 l r
  | inr _, inl _ => -1
  | inl _, inr _ => 1
  | inr l, inr r => c2 l r
  end.
Definition ok_sum {A B} (P : A -> Prop) (Q : B -> Prop) (x : A + B) : Prop :=
  match x with inl a => P a | inr b => Q b end.

#[global] Typeclasses Opaque cmp_flip cmp_then cmp_on cmp_sum strcmp diff64.

Section OrderFacts.
Context {A : Type} {ok : A -> Prop} {cmp : A -> A -> Z} `{!Order ok cmp}.

Lemma ord_refl a : ok a -> cmp a a = 0.
Proof. intros Ha. pose proof (ord_sym a a Ha Ha). lia. Qed.

Lemma ord_trans_lt a b c : ok a -> ok b -> ok c -> cmp a b < 0 -> cmp b c <= 0 -> cmp a c < 0.
Proof.
  intros Ha Hb Hc H1 H2. pose proof (ord_trans a b c Ha Hb Hc). pose proof (ord_trans b c a Hb Hc Ha).
  pose proof (ord_sym a c Ha Hc). pose proof (ord_sym a b Ha Hb). lia.
Qed.

Lemma ord_eq_l a b c : ok a -> ok b -> ok c -> cmp a b = 0 -> Z.sgn (cmp a c) = Z.sgn (cmp b c).
Proof.
  intros Ha Hb Hc H1. pose proof (ord_sym a b Ha Hb). pose proof (ord_sym a c Ha Hc). pose proof (ord_sym b c Hb Hc).
  pose proof (ord_trans a b c Ha Hb Hc). pose proof (ord_trans b a c Hb Ha Hc).
  pose proof (ord_trans c a b Hc Ha Hb). pose proof (ord_trans c b a Hc Hb Ha). lia.
Qed.

Lemma ord_eq_r a b c : ok a -> ok b -> ok c -> cmp b c = 0 -> Z.sgn (cmp a b) = Z.sgn (cmp a c).
Proof.
  intros Ha Hb Hc H1. pose proof (ord_eq_l b c a Hb Hc Ha H1). pose proof (ord_sym a b Ha Hb).
  pose proof (ord_sym a c Ha Hc). lia.
Qed.

End OrderFacts.

Lemma order_flip {A} (ok : A -> Prop) c : Order ok c -> Order ok (cmp_flip c).
Proof.
  intros Ho. unfold cmp_flip. split.
  - intros a b Ha Hb. by apply ord_sym.
  - intros x y z Hx Hy Hz H1 H2. by apply (ord_trans z y x).
Qed.

Lemma order_on {A B} (g : B -> A) (ok : A -> Prop) (ok' : B -> Prop) c :
  (forall b, ok' b -> ok (g b)) -> Order ok c -> Order ok' (cmp_on g c).
Proof.
  intros Hg Ho. unfold cmp_on. split.
  - intros a b Ha Hb. by apply ord_sym; apply Hg.
  - intros x y z Hx Hy Hz. by apply ord_trans; apply Hg.
Qed.

#[export] Instance order_then {A} (ok : A -> Prop) c1 c2 : Order ok c1 -> Order ok c2 -> Order ok (cmp_then c1 c2).
Proof.
  intros H1 H2. unfold cmp_then. split.
  - intros a b Ha Hb. pose proof (ord_sym (cmp := c1) a b Ha Hb). pose proof (ord_sym (cmp := c2) a b Ha Hb).
    destruct (Z.eqb_spec (c1 b a) 0), (Z.eqb_spec (c1 a b) 0); cbn [negb]; lia.
  - intros x y z Hx Hy Hz Hxy Hyz.
    destruct (Z.eqb_spec (c1 x y) 0) as [E1|E1], (Z.eqb_spec (c1 y z) 0) as [E2|E2]; cbn [negb] in *.
    + pose proof (ord_eq_l (cmp := c1) x y z Hx Hy Hz E1). rewrite (proj2 (Z.eqb_eq (c1 x z) 0)) by lia.
      by apply (ord_trans (cmp := c2) x y z).
    + pose proof (ord_eq_l (cmp := c1) x y z Hx Hy Hz E1). rewrite (proj2 (Z.eqb_neq (c1 x z) 0)) by lia. cbn. lia.
    + pose proof (ord_eq_r (cmp := c1) x y z Hx Hy Hz E2). rewrite (proj2 (Z.eqb_neq (c1 x z) 0)) by lia. cbn. lia.
    + pose proof (ord_trans_lt (cmp := c1) x y z Hx Hy Hz ltac:(lia) Hyz).
      rewrite (proj2 (Z.eqb_neq (c1 x z) 0)) by lia. cbn. lia.
Qed.

#[export] Instance order_sum {A B} (P : A -> Prop) (Q : B -> Prop) c1 c2 :
  Order P c1 -> Order Q c2 -> Order (ok_sum P Q) (cmp_sum c1 c2).
Proof.
  intros H1 H2. split.
  - intros [a|a] [b|b] Ha Hb; cbn in *; try done; by apply ord_sym.
  - intros [x|x] [y|y] [z|z] Hx Hy Hz; cbn in *; try lia; by apply ord_trans.
Qed.

Lemma order_nop {A} (ok : A -> Prop) : Order ok (fun _ _ => 0).
Proof. by split. Qed.

Lemma order_ext {A} (ok : A -> Prop) c c' :
  (forall a b, ok a -> ok b -> c' a b = c a b) -> Order ok c -> Order ok c'.
Proof.
  intros He Ho. split.
  - intros a b Ha Hb. rewrite !He by done. by apply ord_sym.
  - intros x y z Hx Hy Hz. rewrite !He by done. by apply ord_trans.
Qed.

Lemma order_sgn {A} (ok : A -> Prop) c c' :
  (forall a b, ok a -> ok b -> Z.sgn (c' a b) = Z.sgn (c a b)) -> Order ok c -> Order ok c'.
Proof.
  intros He Ho. split.
  - intros a b Ha Hb. rewrite !He by done. by apply ord_sym.
  - intros x y z Hx Hy Hz. pose proof (He x y Hx Hy). pose proof (He y z Hy Hz). pose proof (He x z Hx Hz).
    pose proof (ord_trans (cmp := c) x y z Hx Hy Hz). lia.
Qed.

#[export] Instance order_sub : Order (fun _ => True) (fun x y : Z => x - y).
Proof. split; lia. Qed.

(** ** Machine integers and strings *)

(** Values whose differences do not overflow, such as addresses of 48 bits. *)
Definition plain64 (x : Z) : Prop := - 2 ^ 62 <= sint 64 x < 2 ^ 62.

Lemma sint64_mod x : exists k, sint 64 x = x + k * 2 ^ 64.
Proof.
  unfold sint. pose proof (Z.div_mod x (2 ^ 64) ltac:(lia)). destruct (_ <? _).
  - exists (- (x / 2 ^ 64)). lia.
  - exists (- (x / 2 ^ 64) - 1). lia.
Qed.

Lemma sint64_range x : - 2 ^ 63 <= sint 64 x < 2 ^ 63.
Proof.
  unfold sint. pose proof (Z.mod_pos_bound x (2 ^ 64) ltac:(lia)). change (64 - 1) with 63.
  destruct (Z.ltb_spec (x mod 2 ^ 64) (2 ^ 63)); lia.
Qed.

Lemma diff64_plain a b : plain64 a -> plain64 b -> diff64 a b = sint 64 a - sint 64 b.
Proof.
  unfold plain64, diff64. intros Ha Hb. destruct (sint64_mod a) as [k1 E1]. destruct (sint64_mod b) as [k2 E2].
  destruct (sint64_mod (a - b)) as [k3 E3]. pose proof (sint64_range (a - b)). lia.
Qed.

Lemma sint64_inj a b : is_uint 64 a -> is_uint 64 b -> sint 64 a = sint 64 b -> a = b.
Proof.
  intros Ha Hb E. unfold is_uint in *. destruct (sint64_mod a) as [k1 E1]. destruct (sint64_mod b) as [k2 E2]. lia.
Qed.

#[export] Instance order_diff64 : Order plain64 diff64.
Proof.
  apply (order_ext _ (cmp_on (sint 64) (fun x y => x - y))); [intros a b Ha Hb; by rewrite diff64_plain|].
  apply (order_on _ (fun _ => True)); [done|apply _].
Qed.

Definition int_ok (x : Z) : Prop := -1 <= x < 2 ^ 31 - 1.
#[export] Instance order_int : Order int_ok (fun x y => sint 32 (x - y)).
Proof.
  apply (order_ext _ (fun x y => x - y)); [|by split; lia]. unfold int_ok. intros a b Ha Hb. by rewrite sint32_small by lia.
Qed.

Definition text_ok (s : bytes) : Prop := Forall (fun c => 0 < c < 256) s.

Lemma strcmp_sym a b : strcmp b a = - strcmp a b.
Proof.
  revert b. induction a as [|x a IH]; intros [|y b]; cbn [strcmp]; try lia.
  rewrite Z.eqb_sym. destruct (Z.eqb_spec x y); [apply IH|lia].
Qed.

#[export] Instance order_strcmp : Order text_ok strcmp.
Proof.
  split; [intros a b _ _; rewrite strcmp_sym; lia|].
  intros a. induction a as [|x a IH]; intros [|y b] [|z c] Ha Hb Hc; cbn [strcmp]; unfold text_ok in *;
    rewrite ?Forall_cons in *; try lia.
  destruct (Z.eqb_spec x y) as [->|], (Z.eqb_spec y z) as [->|]; try lia.
  - apply IH; tauto.
  - rewrite (proj2 (Z.eqb_neq x z)) by done. lia.
  - intros. rewrite (proj2 (Z.eqb_neq x z)) by lia. lia.
Qed.

(** ** Entries that keep the laws *)

Section Keys.
(** The symbol that a pointer points to. *)
Context (sym_at : Z -> hist_symbol) (verbose : Z).

Definition dso_ok (d : dso) : Prop := text_ok (short_name d) /\ text_ok (long_name d).
Definition map_ok (m : option hist_map) : Prop := forall x d, m = Some x -> map_dso x = Some d -> dso_ok d.
Definition sym_ok (s : hist_symbol) : Prop :=
  s = sym_at (s_ptr s) /\ s_inlined s = false /\ plain64 (s_start s) /\ plain64 (s_end s) /\
  is_uint 64 (s_start s) /\ is_uint 64 (s_end s) /\ text_ok (s_name s).
Definition opt_ok {A} (P : A -> Prop) (x : option A) : Prop := match x with Some a => P a | None => True end.

Record entry_ok (e : hist_entry) : Prop := {
  ok_tid : int_ok (tid (he_thread e));
  ok_comm : text_ok (he_comm e);
  ok_map : map_ok (ms_map e);
  ok_sym : opt_ok sym_ok (ms_sym e);
  ok_ip : plain64 (ip e);
  ok_parent : opt_ok (fun s => text_ok (s_name s)) (he_parent e);
  ok_cpu : int_ok (he_cpu e);
  ok_socket : int_ok (he_socket e);
  ok_cgroup : plain64 (cgroup_dev e) /\ plain64 (cgroup_ino e);
  ok_time : plain64 (he_time e);
  ok_transaction : plain64 (transaction e);
  ok_from : opt_ok (fun b => map_ok (ams_map (bi_from b))) (he_branch_info e);
  ok_to : opt_ok (fun b => map_ok (ams_map (bi_to b))) (he_branch_info e);
  ok_sym_from : opt_ok (fun b => opt_ok sym_ok (ams_sym (bi_from b)) /\ plain64 (ams_addr (bi_from b))) (he_branch_info e);
  ok_sym_to : opt_ok (fun b => opt_ok sym_ok (ams_sym (bi_to b)) /\ plain64 (ams_addr (bi_to b))) (he_branch_info e);
  ok_mem : opt_ok (fun m => plain64 (ams_addr (daddr m)) /\ plain64 (ams_addr (iaddr m)) /\
                            plain64 (phys_addr (daddr m)) /\ map_ok (ams_map (daddr m))) (he_mem_info e)
}.

Lemma entry_ok_recast s acc f d h c e : entry_ok e -> entry_ok (recast s acc f d h c e).
Proof. intros []. by split. Qed.
Lemma entry_ok_map e e' : entry_ok e -> entry_ok e' -> entry_ok (set_map (ms_map e') e).
Proof. intros [] []. by split. Qed.

(** A comparison that can be a key of the tree: it does not look at the figures,
    and an entry that takes over the map of an equal one keeps its place. *)
Class SortKey (cmp : hist_entry -> hist_entry -> Z) : Prop := {
  #[global] key_order :: Order entry_ok cmp;
  key_recast s acc f d h c a b : cmp (recast s acc f d h c a) b = cmp a b;
  key_map a b c : entry_ok a -> entry_ok b -> entry_ok c -> cmp a b = 0 ->
    Z.sgn (cmp (set_map (ms_map b) a) c) = Z.sgn (cmp a c)
}.

Lemma key_by_order cmp : Order entry_ok cmp ->
  (forall s acc f d h c a b, cmp (recast s acc f d h c a) b = cmp a b) ->
  (forall m a b, cmp (set_map m a) b = cmp a b) -> SortKey cmp.
Proof. intros Ho Hs Hm. split; try done. intros. by rewrite Hm. Qed.

Lemma key_then c1 c2 : SortKey c1 -> SortKey c2 -> SortKey (cmp_then c1 c2).
Proof.
  intros K1 K2. split; [apply order_then; apply key_order|..].
  - intros. unfold cmp_then. by rewrite !key_recast.
  - unfold cmp_then. intros a b c Ha Hb Hc Hz. destruct (Z.eqb_spec (c1 a b) 0) as [E|E]; cbn [negb] in Hz; [|done].
    pose proof (key_map (cmp := c1) a b c Ha Hb Hc E). pose proof (key_map (cmp := c2) a b c Ha Hb Hc Hz).
    destruct (Z.eqb_spec (c1 a c) 0), (Z.eqb_spec (c1 (set_map (ms_map b) a) c) 0); cbn [negb]; lia.
Qed.

Lemma key_ext c c' : (forall a b, c' a b = c a b) -> SortKey c -> SortKey c'.
Proof.
  intros He K. split.
  - eapply order_ext; [by intros a b _ _; apply He|apply key_order].
  - intros. rewrite !He. apply key_recast.
  - intros a b c0 Ha Hb Hc. rewrite !He. by apply key_map.
Qed.

(** ** The orders of the keys *)

Lemma order_opt {A} (P : A -> Prop) c : Order P c ->
  Order (opt_ok P) (fun l r => match l, r with Some l, Some r => c l r | l, r => cmp_null l r end).
Proof.
  intros Ho. split.
  - intros [a|] [b|] Ha Hb; cbn in *; try done. by apply ord_sym.
  - intros [x|] [y|] [z|] Hx Hy Hz; cbn in *; try lia. by apply ord_trans.
Qed.

Lemma order_opt_on {A B} (g : B -> option A) (P : A -> Prop) (Q : B -> Prop) c c' :
  (forall b, Q b -> opt_ok P (g b)) -> Order P c ->
  (forall a b, c' a b = match g a, g b with Some l, Some r => c l r | l, r => cmp_null l r end) -> Order Q c'.
Proof.
  intros Hp Ho He. eapply (order_ext _ (cmp_on g _)); [|exact (order_on g _ Q _ Hp (order_opt P c Ho))].
  intros a b _ _. rewrite He. unfold cmp_on. by destruct (g a), (g b).
Qed.

(** Values without a dso come last. *)
Lemma order_dso : Order map_ok (_sort__dso_cmp verbose).
Proof.
  apply (order_ext _ (cmp_on (fun m => m ≫= map_dso) (cmp_flip (fun l r : option dso =>
    match l, r with Some l, Some r => cmp_flip (cmp_on (if 0 <? verbose then long_name else short_name) strcmp) l r
    | l, r => cmp_null l r end)))).
  - intros a b Ha Hb. unfold _sort__dso_cmp, cmp_on, cmp_flip.
    destruct (a ≫= map_dso), (b ≫= map_dso); try done. by destruct (0 <? verbose).
  - apply (order_on _ (opt_ok dso_ok)).
    + intros [m|] Hm; [|done]. cbn. destruct (map_dso m) as [d|] eqn:Ed; [|done]. by apply (Hm m).
    + apply order_flip, order_opt, order_flip, (order_on _ text_ok); [|apply _].
      intros d [H1 H2]. by destruct (0 <? verbose).
Qed.

Definition sym_cmp (l r : hist_symbol) : Z := _sort__sym_cmp (Some l) (Some r).

Lemma order_sym : Order sym_ok sym_cmp.
Proof.
  apply (order_ext _ (cmp_then (cmp_flip (cmp_on s_start diff64)) (cmp_flip (cmp_on s_end diff64)))).
  - intros l r (Hl & Il & Sl & El & Ul & Vl & _) (Hr & Ir & Sr & Er & Ur & Vr & _).
    unfold sym_cmp, _sort__sym_cmp, cmp_then, cmp_flip, cmp_on. rewrite Il, Ir. cbn [orb].
    rewrite !diff64_plain by done. destruct (Z.eqb_spec (s_ptr l) (s_ptr r)) as [E|E].
    + rewrite E, <- Hr in Hl. subst l. rewrite !Z.sub_diag. done.
    + destruct (Z.eqb_spec (s_start l) (s_start r)) as [->|Hne]; cbn [negb].
      * by rewrite Z.sub_diag.
      * destruct (Z.eqb_spec (sint 64 (s_start r) - sint 64 (s_start l)) 0) as [E0|]; [|done].
        exfalso. apply Hne, sint64_inj; [done|done|lia].
  - apply order_then; apply order_flip, (order_on _ plain64); try apply _; intros s Hs; apply Hs.
Qed.

(** Symbols, with the addresses of those that have none before. *)
Definition symbol_of (sym : option hist_symbol) (addr : Z) : hist_symbol + Z :=
  match sym with Some s => inl s | None => inr addr end.
Definition located_ok : hist_symbol + Z -> Prop := ok_sum sym_ok plain64.
Definition located_cmp : hist_symbol + Z -> hist_symbol + Z -> Z := cmp_sum sym_cmp (cmp_flip diff64).

Lemma order_located : Order located_ok located_cmp.
Proof. apply order_sum; [apply order_sym|]. apply order_flip. apply _. Qed.

Ltac plain_key := apply key_by_order; [|intros; reflexivity..].
Ltac via g P := apply (order_on g P); [|try apply _].

#[global] Instance key_thread : SortKey sort__thread_cmp.
Proof.
  plain_key. apply (order_flip _ (cmp_on (fun e => tid (he_thread e)) (fun x y => sint 32 (x - y)))).
  via (fun e => tid (he_thread e)) int_ok. apply ok_tid.
Qed.

#[global] Instance key_comm : SortKey sort__comm_cmp.
Proof. plain_key. apply (order_flip _ (cmp_on he_comm strcmp)). via he_comm text_ok. apply ok_comm. Qed.

#[global] Instance key_cpu : SortKey sort__cpu_cmp.
Proof.
  plain_key. apply (order_flip _ (cmp_on he_cpu (fun x y => sint 32 (x - y)))). via he_cpu int_ok. apply ok_cpu.
Qed.

#[global] Instance key_socket : SortKey sort__socket_cmp.
Proof.
  plain_key. apply (order_flip _ (cmp_on he_socket (fun x y => sint 32 (x - y)))). via he_socket int_ok. apply ok_socket.
Qed.

#[global] Instance key_time : SortKey sort__time_cmp.
Proof. plain_key. apply (order_flip _ (cmp_on he_time diff64)). via he_time plain64. apply ok_time. Qed.

#[global] Instance key_transaction : SortKey sort__transaction_cmp.
Proof. plain_key. change sort__transaction_cmp with (cmp_on transaction diff64). via transaction plain64. apply ok_transaction. Qed.

#[global] Instance key_cgroup : SortKey sort__cgroup_id_cmp.
Proof.
  plain_key. change sort__cgroup_id_cmp with (cmp_then (cmp_on cgroup_dev diff64) (cmp_on cgroup_ino diff64)).
  apply order_then; [via cgroup_dev plain64|via cgroup_ino plain64]; apply ok_cgroup.
Qed.

#[global] Instance key_parent : SortKey sort__parent_cmp.
Proof.
  plain_key. eapply (order_opt_on he_parent); [apply ok_parent| |done].
  apply (order_flip _ (cmp_on s_name strcmp)). by via s_name text_ok.
Qed.

Lemma key_branch P f : (forall e, entry_ok e -> opt_ok P (he_branch_info e)) -> Order P f -> SortKey (on_branches f).
Proof. intros Hp Ho. plain_key. by eapply (order_opt_on he_branch_info). Qed.

#[global] Instance key_dso_from : SortKey (sort__dso_from_cmp verbose).
Proof. eapply key_branch; [apply ok_from|]. apply (order_on (fun b => ams_map (bi_from b)) map_ok _ (_sort__dso_cmp verbose)); [done|apply order_dso]. Qed.
#[global] Instance key_dso_to : SortKey (sort__dso_to_cmp verbose).
Proof. eapply key_branch; [apply ok_to|]. apply (order_on (fun b => ams_map (bi_to b)) map_ok _ (_sort__dso_cmp verbose)); [done|apply order_dso]. Qed.

Lemma order_ams : Order (fun a => opt_ok sym_ok (ams_sym a) /\ plain64 (ams_addr a)) ams_cmp.
Proof.
  apply (order_ext _ (cmp_on (fun a => symbol_of (ams_sym a) (ams_addr a)) located_cmp)).
  - intros a b _ _. unfold ams_cmp, cmp_on, symbol_of. by destruct (ams_sym a), (ams_sym b).
  - apply (order_on _ located_ok); [|apply order_located]. intros a [H1 H2]. unfold symbol_of. by destruct (ams_sym a).
Qed.

#[global] Instance key_sym_from : SortKey sort__sym_from_cmp.
Proof. eapply key_branch; [apply ok_sym_from|]. eapply (order_on bi_from _ _ ams_cmp); [|apply order_ams]. by intros b. Qed.
#[global] Instance key_sym_to : SortKey sort__sym_to_cmp.
Proof. eapply key_branch; [apply ok_sym_to|]. eapply (order_on bi_to _ _ ams_cmp); [|apply order_ams]. by intros b. Qed.
#[global] Instance key_cycles : SortKey sort__cycles_cmp.
Proof.
  apply (key_branch (fun _ => True)); [by intros e _; destruct (he_branch_info e)|].
  apply (order_on (fun b => bf_cycles (bi_flags b)) (fun _ => True) _ (fun x y => x - y)); [done|apply _].
Qed.

Lemma key_mem f : (forall m e, entry_ok e -> he_mem_info e = Some m -> plain64 (f m)) ->
  SortKey (fun l r => diff64 (mem_addr f r) (mem_addr f l)).
Proof.
  intros Hf. plain_key. apply (order_flip _ (cmp_on (mem_addr f) diff64)). via (mem_addr f) plain64.
  intros e He. unfold mem_addr. destruct (he_mem_info e) as [m|] eqn:Em; [by apply (Hf m e)|]. done.
Qed.

#[global] Instance key_daddr : SortKey sort__daddr_cmp.
Proof. apply key_mem. intros m e He Em. pose proof (ok_mem e He) as Hm. rewrite Em in Hm. apply Hm. Qed.
#[global] Instance key_iaddr : SortKey sort__iaddr_cmp.
Proof. apply key_mem. intros m e He Em. pose proof (ok_mem e He) as Hm. rewrite Em in Hm. apply Hm. Qed.
#[global] Instance key_phys_daddr : SortKey sort__phys_daddr_cmp.
Proof. apply key_mem. intros m e He Em. pose proof (ok_mem e He) as Hm. rewrite Em in Hm. apply Hm. Qed.
#[global] Instance key_dso_daddr : SortKey (sort__dso_daddr_cmp verbose).
Proof.
  plain_key. apply (order_on daddr_map map_ok _ (_sort__dso_cmp verbose)); [|apply order_dso]. intros e He. unfold daddr_map.
  pose proof (ok_mem e He) as Hm. destruct (he_mem_info e) as [m|]; [apply Hm|done].
Qed.

Lemma key_src f na : SortKey (fun l r => src_field f na r - src_field f na l).
Proof. plain_key. apply (order_flip _ (cmp_on (src_field f na) (fun x y => x - y))). by via (src_field f na) (fun _ : Z => True). Qed.
#[global] Instance key_locked : SortKey sort__locked_cmp.
Proof. apply key_src. Qed.
#[global] Instance key_tlb : SortKey sort__tlb_cmp.
Proof. apply key_src. Qed.
#[global] Instance key_lvl : SortKey sort__lvl_cmp.
Proof. apply key_src. Qed.
#[global] Instance key_snoop : SortKey sort__snoop_cmp.
Proof. apply key_src. Qed.

(** ** Keys that look at the map *)

Lemma key_of_map f : Order map_ok f -> SortKey (fun a b => f (ms_map a) (ms_map b)).
Proof.
  intros Ho. assert (Hs : Order entry_ok (cmp_on ms_map f)) by (apply (order_on _ map_ok); [apply ok_map|done]).
  split; [exact Hs|done..|]. intros a b c Ha Hb Hc Hz. symmetry. exact (ord_eq_l (cmp := cmp_on ms_map f) a b c Ha Hb Hc Hz).
Qed.

#[global] Instance key_dso : SortKey (sort__dso_cmp verbose).
Proof. apply (key_of_map (cmp_flip (_sort__dso_cmp verbose))), order_flip, order_dso. Qed.

Lemma order_size {A} (P : A -> Prop) (size : A -> Z) : Order P (fun l r => size_cmp (size r) (size l)).
Proof.
  apply (order_sgn _ (cmp_flip (cmp_on size (fun x y => x - y)))).
  - intros a b _ _. unfold size_cmp, cmp_flip, cmp_on. destruct (Z.ltb_spec (size b) (size a)); [lia|].
    destruct (Z.eqb_spec (size b) (size a)); lia.
  - apply order_flip, (order_on _ (fun _ => True)); [done|apply _].
Qed.

#[global] Instance key_sym_size : SortKey sort__sym_size_cmp.
Proof.
  plain_key. apply (order_size _ (fun e => match ms_sym e with Some s => sint 64 (symbol__size s) | None => 0 end)).
Qed.
#[global] Instance key_dso_size : SortKey sort__dso_size_cmp.
Proof.
  apply (key_of_map (fun l r => _sort__dso_size_cmp r l)).
  apply (order_size _ (fun m => match m with Some m => sint 64 (map__size m) | None => 0 end)).
Qed.

(** Symbols are a key only behind the dso: unresolved entries are compared by
    address, which says nothing about the dso. *)
Definition dso_sym_cmp : hist_entry -> hist_entry -> Z := cmp_then (sort__dso_cmp verbose) (sort__sym_cmp verbose).
Definition entry_symbol (e : hist_entry) : hist_symbol + Z := symbol_of (ms_sym e) (ip e).

Lemma dso_sym_located a b :
  dso_sym_cmp a b = cmp_then (sort__dso_cmp verbose) (cmp_on entry_symbol located_cmp) a b.
Proof.
  unfold dso_sym_cmp, cmp_then, sort__sym_cmp, cmp_on, entry_symbol, symbol_of.
  destruct (Z.eqb_spec (sort__dso_cmp verbose a b) 0) as [E|]; [|done]. cbn [negb].
  destruct (ms_sym a), (ms_sym b); rewrite ?E; done.
Qed.

#[global] Instance key_dso_sym : SortKey dso_sym_cmp.
Proof.
  apply (key_ext (cmp_then (sort__dso_cmp verbose) (cmp_on entry_symbol located_cmp))); [apply dso_sym_located|].
  apply key_then; [apply _|]. plain_key. apply (order_on _ located_ok); [|apply order_located].
  intros e He. unfold entry_symbol, symbol_of. pose proof (ok_sym e He) as Hs. pose proof (ok_ip e He).
  by destruct (ms_sym e).
Qed.

(** ** Columns *)

Lemma key_nop : SortKey (fun _ _ => 0).
Proof. plain_key. apply order_nop. Qed.

#[global] Instance cmp_columns_nil : SortKey (hist_entry__cmp []).
Proof. apply key_nop. Qed.

Lemma cmp_columns_cons fmt fmts : SortKey (fmt_cmp fmt) -> SortKey (hist_entry__cmp fmts) ->
  SortKey (hist_entry__cmp (fmt :: fmts)).
Proof.
  intros K1 K2. destruct (undefined fmt) eqn:Eu.
  - eapply key_ext; [|exact K2]. intros a b. cbn [hist_entry__cmp]. by rewrite Eu.
  - eapply (key_ext (cmp_then (fmt_cmp fmt) (hist_entry__cmp fmts))); [|by apply key_then].
    intros a b. cbn [hist_entry__cmp]. rewrite Eu. done.
Qed.

Lemma collapse_columns_cons fmt fmts : SortKey (fmt_collapse fmt) -> SortKey (hist_entry__collapse fmts) ->
  SortKey (hist_entry__collapse (fmt :: fmts)).
Proof.
  intros K1 K2. destruct (undefined fmt) eqn:Eu.
  - eapply key_ext; [|exact K2]. intros a b. cbn [hist_entry__collapse]. by rewrite Eu.
  - eapply (key_ext (cmp_then (fmt_collapse fmt) (hist_entry__collapse fmts))); [|by apply key_then].
    intros a b. cbn [hist_entry__collapse]. rewrite Eu. done.
Qed.

Lemma cmp_then_assoc {A} (c1 c2 c3 : A -> A -> Z) a b :
  cmp_then c1 (cmp_then c2 c3) a b = cmp_then (cmp_then c1 c2) c3 a b.
Proof.
  unfold cmp_then. destruct (Z.eqb_spec (c1 a b) 0) as [E|E]; cbn [negb]; [done|].
  by rewrite (proj2 (Z.eqb_neq _ _) E).
Qed.

(** The default order of perf report: comm, dso, symbol. *)
Definition default_columns : list perf_hpp_fmt :=
  [overhead; sort_column sort_comm; sort_column (sort_dso verbose); sort_column (sort_sym verbose)].

Lemma key_default_tail : SortKey (cmp_then (sort__dso_cmp verbose) (cmp_then (sort__sym_cmp verbose) (fun _ _ => 0))).
Proof.
  eapply (key_ext (cmp_then dso_sym_cmp (fun _ _ => 0))); [intros; apply cmp_then_assoc|].
  apply key_then; [apply _|apply key_nop].
Qed.

#[global] Instance key_default : SortKey (hist_entry__cmp default_columns).
Proof.
  apply (cmp_columns_cons overhead); [apply key_nop|].
  apply (cmp_columns_cons (sort_column sort_comm)); [apply key_comm|]. apply key_default_tail.
Qed.

#[global] Instance key_default_collapse : SortKey (hist_entry__collapse default_columns).
Proof.
  apply (collapse_columns_cons overhead); [apply key_nop|].
  apply (collapse_columns_cons (sort_column sort_comm)); [apply key_comm|]. apply key_default_tail.
Qed.

(** ** The order of the output *)

Definition int_range (c : Z) : Prop := - 2 ^ 31 <= c < 2 ^ 31.
(** A comparison of the output: its result fits an int. *)
Class OutKey (cmp : hist_entry -> hist_entry -> Z) : Prop := {
  out_order : Order entry_ok cmp;
  out_range a b : entry_ok a -> entry_ok b -> int_range (cmp a b)
}.

Lemma strcmp_range a b : text_ok a -> text_ok b -> -256 < strcmp a b < 256.
Proof.
  intros Ha. revert b. induction Ha as [|x a Hx Ha IH]; intros b Hb; destruct Hb as [|y b Hy Hb]; cbn [strcmp]; try lia.
  destruct (x =? y); [by apply IH|lia].
Qed.

Lemma out_overhead get : OutKey (__hpp__sort get).
Proof.
  unfold __hpp__sort, field_cmp. split.
  - apply (order_sgn _ (cmp_on get (fun x y => x - y))); [|apply (order_on _ (fun _ => True)); [done|apply _]].
    intros a b _ _. unfold cmp_on. destruct (Z.ltb_spec (get b) (get a)); [lia|]. destruct (Z.ltb_spec (get a) (get b)); lia.
  - intros a b _ _. unfold int_range. destruct (_ <? _); [lia|]. destruct (_ <? _); lia.
Qed.

Lemma out_comm : OutKey sort__comm_sort.
Proof.
  split; [apply key_comm|]. intros a b Ha Hb. unfold sort__comm_sort, int_range.
  pose proof (strcmp_range _ _ (ok_comm b Hb) (ok_comm a Ha)). lia.
Qed.

Lemma out_dso : OutKey (sort__dso_cmp verbose).
Proof.
  split; [apply key_dso|]. intros a b Ha Hb. pose proof (ok_map a Ha) as Ma. pose proof (ok_map b Hb) as Mb.
  unfold sort__dso_cmp, _sort__dso_cmp, int_range. destruct (ms_map b) as [mb|], (ms_map a) as [ma|]; cbn; try lia.
  - destruct (map_dso mb) as [db|] eqn:Eb, (map_dso ma) as [da|] eqn:Ea; cbn; try lia.
    destruct (Ma ma da eq_refl Ea) as [A1 A2], (Mb mb db eq_refl Eb) as [B1 B2].
    pose proof (strcmp_range _ _ B1 A1). pose proof (strcmp_range _ _ B2 A2). destruct (0 <? verbose); lia.
  - destruct (map_dso mb); cbn; lia.
  - destruct (map_dso ma); cbn; lia.
Qed.

Lemma out_sym : OutKey sort__sym_sort.
Proof.
  split.
  - eapply (order_opt_on ms_sym sym_ok); [apply ok_sym| |done].
    apply (order_flip _ (cmp_on s_name strcmp)). via s_name text_ok. intros s Hs. apply Hs.
  - intros a b Ha Hb. pose proof (ok_sym a Ha) as Sa. pose proof (ok_sym b Hb) as Sb.
    unfold sort__sym_sort, int_range. destruct (ms_sym a), (ms_sym b); cbn in *; try lia.
    destruct Sa as (_ & _ & _ & _ & _ & _ & S1), Sb as (_ & _ & _ & _ & _ & _ & S2).
    pose proof (strcmp_range _ _ S2 S1). lia.
Qed.

Lemma out_columns fmts : Forall (fun f => OutKey (fmt_sort f)) fmts -> OutKey (sort_columns fmts).
Proof.
  induction 1 as [|f fmts Hf _ IH]; [split; [apply order_nop|done]|]. destruct Hf as [Fo Fr], IH as [Io Ir].
  destruct (should_skip f) eqn:Es.
  - split; [eapply order_ext; [|exact Io]|]; intros a b Ha Hb; cbn [sort_columns]; rewrite Es; [done|by apply Ir].
  - split; [eapply (order_ext _ (cmp_then (fmt_sort f) (sort_columns fmts))); [|by apply order_then]|];
      intros a b Ha Hb; cbn [sort_columns]; rewrite Es; [done|]. destruct (negb _); [by apply Fr|by apply Ir].
Qed.

(** With such columns the int that hist_entry__sort returns orders the output. *)
Lemma output_order fmts : Forall (fun f => OutKey (fmt_sort f)) fmts -> Order entry_ok (hist_entry__sort fmts).
Proof.
  intros Hf. destruct (out_columns fmts Hf) as [Ho Hr]. eapply order_ext; [|exact Ho].
  intros a b Ha Hb. unfold hist_entry__sort. apply sint32_small. pose proof (Hr a b Ha Hb). unfold int_range in *. lia.
Qed.

Lemma default_output : Order entry_ok (hist_entry__sort default_columns).
Proof.
  apply output_order. constructor; [apply (out_overhead (fun e => period (stat e)))|].
  constructor; [exact out_comm|]. constructor; [exact out_dso|]. constructor; [exact out_sym|constructor].
Qed.

End Keys.

(** * Findings *)

Section Findings.
Context (e : hist_entry).

Definition at_dso (name : bytes) (sym : option hist_symbol) (addr : Z) : hist_entry :=
  HistEntry (stat e) None (Some (HistMap 0 0 0 (Some (Dso 0 name name)) 0 0 0 0 0)) sym (he_thread e) (he_comm e) 0 0 addr
    0 0 0 0 0 0 None None None 0 false false (he_callchain e).

(** Alone, the symbol key is no order: entries without a symbol are compared by
    address, all others by dso, and three entries can each come before the next. *)
Theorem sym_key_cycles verbose s : exists a b c,
  sort__sym_cmp verbose a b < 0 /\ sort__sym_cmp verbose b c < 0 /\ sort__sym_cmp verbose c a < 0 /\
  ms_sym a = None /\ ms_sym b = None /\ ms_sym c = Some s.
Proof.
  exists (at_dso [97] None 2), (at_dso [99] None 1), (at_dso [98] (Some s) 0).
  unfold sort__sym_cmp, sort__dso_cmp, _sort__dso_cmp. cbn [at_dso ms_sym ms_map mbind option_bind map_dso short_name long_name].
  destruct (0 <? verbose); cbn; done.
Qed.

(** Addresses all over the 64-bit range are in no order either. *)
Theorem addr_key_cycles : exists a b c,
  is_uint 64 a /\ is_uint 64 b /\ is_uint 64 c /\
  _sort__addr_cmp a b < 0 /\ _sort__addr_cmp b c < 0 /\ _sort__addr_cmp c a < 0.
Proof. exists 0, (2 ^ 63 + 2 ^ 61), (2 ^ 62 + 2 ^ 61). by vm_compute. Qed.

Definition with_branch (mispred predicted abort in_tx : bool) : hist_entry :=
  let at0 := AddrMapSymbol None None 0 0 0 in
  HistEntry (stat e) None None None (he_thread e) (he_comm e) 0 0 0 0 0 0 0 0 0 None
    (Some (BranchInfo at0 at0 (BFlags mispred predicted in_tx abort 0))) None 0 false false (he_callchain e).

(** The flags of a branch are compared for equality only: each of two different
    ones is greater than the other. *)
Theorem branch_flags_no_order :
  (let a := with_branch true false false false in let b := with_branch false true false false in
   0 < sort__mispredict_cmp a b /\ 0 < sort__mispredict_cmp b a) /\
  (let a := with_branch false false true false in let b := with_branch false false false false in
   0 < sort__abort_cmp a b /\ 0 < sort__abort_cmp b a) /\
  (let a := with_branch false false false true in let b := with_branch false false false false in
   0 < sort__in_tx_cmp a b /\ 0 < sort__in_tx_cmp b a).
Proof. done. Qed.

(** An entry without memory data is smaller than itself. *)
Theorem dcacheline_not_reflexive cacheline : he_mem_info e = None -> sort__dcacheline_cmp cacheline e e < 0.
Proof. intros E. unfold sort__dcacheline_cmp. by rewrite E. Qed.

Definition at_time (t : Z) : hist_entry :=
  HistEntry (stat e) None None None (he_thread e) (he_comm e) 0 0 0 0 0 0 0 0 0 None None None t false false (he_callchain e).

(** hist_entry__sort returns the 64-bit comparison as an int: times that lie
    between two and four seconds apart come out the wrong way round. *)
Theorem time_output_reversed t d : is_uint 62 t -> 2 ^ 31 < d < 2 ^ 32 ->
  0 < sort__time_cmp (at_time t) (at_time (t + d)) /\
  hist_entry__sort [sort_column sort_time] (at_time t) (at_time (t + d)) < 0.
Proof.
  intros Ht Hd. unfold is_uint in Ht. assert (E : sort__time_cmp (at_time t) (at_time (t + d)) = d).
  { unfold sort__time_cmp, diff64. cbn [at_time he_time]. replace (t + d - t) with d by lia.
    unfold sint. rewrite Z.mod_small by lia. change (64 - 1) with 63. by rewrite (proj2 (Z.ltb_lt d (2 ^ 63))) by lia. }
  split; [lia|]. unfold hist_entry__sort. cbn [sort_columns sort_column should_skip fmt_sort]. unfold __sort__hpp_sort.
  cbn [sort_time se_sort se_cmp]. rewrite E. rewrite (proj2 (Z.eqb_neq d 0)) by lia. cbn [negb].
  unfold sint. rewrite Z.mod_small by lia. change (32 - 1) with 31. rewrite (proj2 (Z.ltb_ge d (2 ^ 31))) by lia. lia.
Qed.

End Findings.
