(* ===== verification/Hists.v ===== *)
(** Model of the histograms of util/hist.c, without the hierarchy of --hierarchy:
    adding the entries of a sample (normal, branch, memory and cumulative mode),
    collapsing, sorting for the output, filters and decay.

    Entries are numbered objects in [ents]; an entry is in a tree of entries_in or
    entries_collapsed and in the tree of the output at once, so that both see its
    changes.  Access to an object that is gone is [None].  lib/rbtree.c is the class
    [EntryTree]; allocation is an oracle.  Column widths, sampled locations
    (--samples), the pairing of histograms and reference counts are not modelled. *)

From S2P Require Import Prelude Callchain SortKeys.

Inductive etree :=
| eleaf
| enode (l : etree) (x : nat) (r : etree).

Fixpoint elems (t : etree) : list nat :=
  match t with
  | eleaf => []
  | enode l x r => elems l ++ x :: elems r
  end.

Class EntryTree := {
  rb_insert_color : etree -> etree;
  rb_erase : nat -> etree -> etree;
  rb_insert_color_elems t : elems (rb_insert_color t) = elems t;
  rb_erase_elems x t : elems (rb_erase x t) = filter (fun y => y <> x) (elems t)
}.

(** The settings that the code asks for. *)
Record symbol_conf := SymbolConf {
  cumulate_callchain : bool;
  use_callchain : bool;
  exclude_other : bool;
  show_branchflag_count : bool;
  time_quantum : Z
}.

Record events_stats := EventsStats {
  total_period : Z;
  total_non_filtered_period : Z;
  nr_records : Z -> Z;
  nr_non_filtered_samples : Z
}.

Record hists := Hists {
  ents : gmap nat hist_entry;
  next_ent : nat;
  entries_in_array : etree * etree;
  entries_in : bool;
  entries : etree;
  entries_collapsed : etree;
  nr_entries : Z;
  nr_non_filtered_entries : Z;
  callchain_period : Z;
  callchain_non_filtered_period : Z;
  thread_filter : option Z;
  dso_filter : option Z;
  symbol_filter_str : option bytes;
  socket_filter : Z;
  stats : events_stats;
  any_callchains : bool;
  (** hpp_list->need_collapse *)
  need_collapse : bool;
  (** the global cursor and the allocations so far *)
  cursor : callchain_cursor;
  allocs : nat
}.

Definition put_ents (m : gmap nat hist_entry) (h : hists) : hists :=
  Hists m (next_ent h) (entries_in_array h) (entries_in h) (entries h) (entries_collapsed h) (nr_entries h)
    (nr_non_filtered_entries h) (callchain_period h) (callchain_non_filtered_period h) (thread_filter h) (dso_filter h)
    (symbol_filter_str h) (socket_filter h) (stats h) (any_callchains h) (need_collapse h) (cursor h) (allocs h).
Definition put_next (n : nat) (h : hists) : hists :=
  Hists (ents h) n (entries_in_array h) (entries_in h) (entries h) (entries_collapsed h) (nr_entries h)
    (nr_non_filtered_entries h) (callchain_period h) (callchain_non_filtered_period h) (thread_filter h) (dso_filter h)
    (symbol_filter_str h) (socket_filter h) (stats h) (any_callchains h) (need_collapse h) (cursor h) (allocs h).
Definition put_in (a : etree * etree) (which : bool) (h : hists) : hists :=
  Hists (ents h) (next_ent h) a which (entries h) (entries_collapsed h) (nr_entries h)
    (nr_non_filtered_entries h) (callchain_period h) (callchain_non_filtered_period h) (thread_filter h) (dso_filter h)
    (symbol_filter_str h) (socket_filter h) (stats h) (any_callchains h) (need_collapse h) (cursor h) (allocs h).
Definition put_out (t : etree) (h : hists) : hists :=
  Hists (ents h) (next_ent h) (entries_in_array h) (entries_in h) t (entries_collapsed h) (nr_entries h)
    (nr_non_filtered_entries h) (callchain_period h) (callchain_non_filtered_period h) (thread_filter h) (dso_filter h)
    (symbol_filter_str h) (socket_filter h) (stats h) (any_callchains h) (need_collapse h) (cursor h) (allocs h).
Definition put_collapsed (t : etree) (h : hists) : hists :=
  Hists (ents h) (next_ent h) (entries_in_array h) (entries_in h) (entries h) t (nr_entries h)
    (nr_non_filtered_entries h) (callchain_period h) (callchain_non_filtered_period h) (thread_filter h) (dso_filter h)
    (symbol_filter_str h) (socket_filter h) (stats h) (any_callchains h) (need_collapse h) (cursor h) (allocs h).
Definition put_nr (n m : Z) (h : hists) : hists :=
  Hists (ents h) (next_ent h) (entries_in_array h) (entries_in h) (entries h) (entries_collapsed h) n m
    (callchain_period h) (callchain_non_filtered_period h) (thread_filter h) (dso_filter h)
    (symbol_filter_str h) (socket_filter h) (stats h) (any_callchains h) (need_collapse h) (cursor h) (allocs h).
Definition put_chain_periods (p q : Z) (h : hists) : hists :=
  Hists (ents h) (next_ent h) (entries_in_array h) (entries_in h) (entries h) (entries_collapsed h) (nr_entries h)
    (nr_non_filtered_entries h) p q (thread_filter h) (dso_filter h)
    (symbol_filter_str h) (socket_filter h) (stats h) (any_callchains h) (need_collapse h) (cursor h) (allocs h).
Definition put_stats (s : events_stats) (h : hists) : hists :=
  Hists (ents h) (next_ent h) (entries_in_array h) (entries_in h) (entries h) (entries_collapsed h) (nr_entries h)
    (nr_non_filtered_entries h) (callchain_period h) (callchain_non_filtered_period h) (thread_filter h) (dso_filter h)
    (symbol_filter_str h) (socket_filter h) s (any_callchains h) (need_collapse h) (cursor h) (allocs h).
Definition put_any (b : bool) (h : hists) : hists :=
  Hists (ents h) (next_ent h) (entries_in_array h) (entries_in h) (entries h) (entries_collapsed h) (nr_entries h)
    (nr_non_filtered_entries h) (callchain_period h) (callchain_non_filtered_period h) (thread_filter h) (dso_filter h)
    (symbol_filter_str h) (socket_filter h) (stats h) b (need_collapse h) (cursor h) (allocs h).
Definition put_cursor (c : callchain_cursor) (n : nat) (h : hists) : hists :=
  Hists (ents h) (next_ent h) (entries_in_array h) (entries_in h) (entries h) (entries_collapsed h) (nr_entries h)
    (nr_non_filtered_entries h) (callchain_period h) (callchain_non_filtered_period h) (thread_filter h) (dso_filter h)
    (symbol_filter_str h) (socket_filter h) (stats h) (any_callchains h) (need_collapse h) c n.

Definition tree_in (h : hists) : etree := if entries_in h then snd (entries_in_array h) else fst (entries_in_array h).
Definition put_tree_in (t : etree) (h : hists) : hists :=
  put_in (if entries_in h then (fst (entries_in_array h), t) else (t, snd (entries_in_array h))) (entries_in h) h.
Definition put_ent (i : nat) (e : hist_entry) (h : hists) : hists := put_ents (<[i := e]> (ents h)) h.

(** * Figures *)

Definition PERF_RECORD_MISC_USER : Z := 2.
Definition PERF_RECORD_MISC_HYPERVISOR : Z := 3.
Definition PERF_RECORD_MISC_GUEST_KERNEL : Z := 4.
Definition PERF_RECORD_MISC_GUEST_USER : Z := 5.
Definition PERF_RECORD_SAMPLE : Z := 9.

Definition no_figures : he_stat := HeStat 0 0 0 0 0 0 0.

Definition he_stat__add_cpumode_period (s : he_stat) (cpumode p : Z) : he_stat :=
  if cpumode =? PERF_RECORD_MISC_KERNEL then
    HeStat (period s) (period_sys s +64 p) (period_us s) (period_guest_sys s) (period_guest_us s) (weight s) (nr_events s)
  else if cpumode =? PERF_RECORD_MISC_USER then
    HeStat (period s) (period_sys s) (period_us s +64 p) (period_guest_sys s) (period_guest_us s) (weight s) (nr_events s)
  else if cpumode =? PERF_RECORD_MISC_GUEST_KERNEL then
    HeStat (period s) (period_sys s) (period_us s) (period_guest_sys s +64 p) (period_guest_us s) (weight s) (nr_events s)
  else if cpumode =? PERF_RECORD_MISC_GUEST_USER then
    HeStat (period s) (period_sys s) (period_us s) (period_guest_sys s) (period_guest_us s +64 p) (weight s) (nr_events s)
  else s.

Definition hist_time (quantum htime : Z) : Z :=
  sint 64 (if negb (quantum =? 0) then (htime / quantum) *64 quantum else htime).

Definition he_stat__add_period (s : he_stat) (p w : Z) : he_stat :=
  HeStat (period s +64 p) (period_sys s) (period_us s) (period_guest_sys s) (period_guest_us s) (weight s +64 w)
    (u32 (nr_events s + 1)).

Definition he_stat__add_stat (dest src : he_stat) : he_stat :=
  HeStat (period dest +64 period src) (period_sys dest +64 period_sys src) (period_us dest +64 period_us src)
    (period_guest_sys dest +64 period_guest_sys src) (period_guest_us dest +64 period_guest_us src)
    (weight dest +64 weight src) (u32 (nr_events dest + nr_events src)).

Definition he_stat__decay (s : he_stat) : he_stat :=
  HeStat ((period s *64 7) / 8) (period_sys s) (period_us s) (period_guest_sys s) (period_guest_us s) (weight s)
    (u32 (nr_events s * 7) / 8).

(** * Trees *)

(** The search of an entry with [cmp]; if there is none, [new] is linked where the
    search ended. *)
Fixpoint descend (cmp : nat -> option Z) (new : nat) (t : etree) : option (nat + etree) :=
  match t with
  | eleaf => Some (inr (enode eleaf new eleaf))
  | enode l x r =>
      c ← cmp x;
      if c =? 0 then Some (inl x)
      else if c <? 0 then
        s ← descend cmp new l; Some (match s with inl y => inl y | inr l => inr (enode l x r) end)
      else
        s ← descend cmp new r; Some (match s with inl y => inl y | inr r => inr (enode l x r) end)
  end.

(** In the output an entry comes before those that it is greater than. *)
Fixpoint place (cmp : nat -> option Z) (new : nat) (t : etree) : option etree :=
  match t with
  | eleaf => Some (enode eleaf new eleaf)
  | enode l x r =>
      c ← cmp x;
      if 0 <? c then l ← place cmp new l; Some (enode l x r) else r ← place cmp new r; Some (enode l x r)
  end.

(** * Where a sample was taken *)

Record addr_location := AddrLocation {
  a_thread : hist_thread;
  a_comm : bytes;
  a_cgroup : Z * Z;
  a_map : option hist_map;
  a_sym : option hist_symbol;
  a_addr : Z;
  a_level : Z;
  a_filtered : Z;
  a_cpumode : Z;
  a_cpu : Z;
  a_socket : Z
}.

Record hist_sample := HistSample {
  sm_period : Z;
  sm_weight : Z;
  sm_transaction : Z;
  sm_time : Z;
  sm_callchain : bool
}.

Definition HIST_FILTER__DSO : Z := 0.
Definition HIST_FILTER__THREAD : Z := 1.
Definition HIST_FILTER__PARENT : Z := 2.
Definition HIST_FILTER__SYMBOL : Z := 3.
Definition HIST_FILTER__SOCKET : Z := 6.

(** The loop over the entries of a sample ends, goes wrong or has no fuel left. *)
Inductive outcome (A : Type) := Ran (a : A) | Faults | NoFuel.
Arguments Ran {A} _.
Arguments Faults {A}.
Arguments NoFuel {A}.

Section Operations.
Context `{EntryTree} `{ChainTree}.
Context (conf : symbol_conf) (fmts : list perf_hpp_fmt) (alloc_ok : nat -> bool) (key : chain_key).

Definition grab (h : hists) : bool * hists := (alloc_ok (allocs h), put_cursor (cursor h) (S (allocs h)) h).

(** * New entries *)

(** A copy of the template; the call chain of the copy is empty.  The members
    raw_data, srcline and res_samples belong to sort keys that are not modelled (trace
    fields, source lines) and to an option of the browser: they are NULL here, and
    the duplicates that the function makes of them (which can fail) are left out. *)
Definition hist_entry__init (template : hist_entry) (sample_self : bool) (h : hists) : option hist_entry * hists :=
  let he := set_size (use_callchain conf) template in
  let copy st acc := set_stats st acc (if use_callchain conf then set_chain callchain_init he else he) in
  let finish st acc h :=
    match he_branch_info template with
    | None => (Some (copy st acc), h)
    | Some _ => let '(ok, h) := grab h in (if ok then Some (copy st acc) else None, h)
    end in
  if cumulate_callchain conf then
    let '(ok, h) := grab h in
    if ok then finish (if sample_self then stat he else no_figures) (Some (stat he)) h else (None, h)
  else finish (stat he) (stat_acc he) h.

Definition hist_entry__new (template : hist_entry) (sample_self : bool) (h : hists) : option hist_entry * hists :=
  let '(ok, h) := grab h in
  if ok then hist_entry__init template sample_self h else (None, h).

Definition symbol__parent_filter (parent : option hist_symbol) : Z :=
  if exclude_other conf && bool_decide (parent = None) then Z.shiftl 1 HIST_FILTER__PARENT else 0.

Definition hist_entry__add_callchain_period (he : hist_entry) (p : Z) (h : hists) : hists :=
  if negb (has_callchains he) || negb (use_callchain conf) then h
  else put_chain_periods (callchain_period h +64 p)
         (if filtered he =? 0 then callchain_non_filtered_period h +64 p else callchain_non_filtered_period h) h.

(** The figures of both kinds; [stat_acc] is only there in cumulative mode. *)
Definition on_figures (sample_self : bool) (f : he_stat -> he_stat) (he : hist_entry) : option hist_entry :=
  let st := if sample_self then f (stat he) else stat he in
  if cumulate_callchain conf then acc ← stat_acc he; Some (set_stats st (Some (f acc)) he)
  else Some (set_stats st (stat_acc he) he).

(** A map that is the same pointer is also the same value. *)
Definition hists__findnew_entry (entry : hist_entry) (cpumode : Z) (sample_self : bool) (h : hists)
    : option (option nat * hists) :=
  let p := period (stat entry) in
  let w := weight (stat entry) in
  r ← descend (fun x => he ← ents h !! x; Some (hist_entry__cmp fmts he entry)) (next_ent h) (tree_in h);
  r ← match r with
      | inl x =>
          he ← ents h !! x;
          let h := if sample_self then hist_entry__add_callchain_period he p h else h in
          he ← on_figures sample_self (fun s => he_stat__add_period s p w) he;
          Some (Some (x, set_map (ms_map entry) he), h)
      | inr t =>
          match hist_entry__new entry sample_self h with
          | (None, h) => Some (None, h)
          | (Some he, h) =>
              let h := if sample_self then hist_entry__add_callchain_period he p h else h in
              let h := put_nr (nr_entries h +64 1) (nr_non_filtered_entries h) h in
              Some (Some (next_ent h, he), put_next (S (next_ent h)) (put_tree_in (rb_insert_color t) h))
          end
      end;
  match r with
  | (None, h) => Some (None, h)
  | (Some (x, he), h) =>
      he ← on_figures sample_self (fun s => he_stat__add_cpumode_period s cpumode p) he;
      Some (Some x, put_ent x he h)
  end.

(** The entry that __hists__add_entry looks for. *)
Definition template_of (al : addr_location) (sym_parent : option hist_symbol) (bi : option branch_info)
    (mi : option mem_info) (sample : hist_sample) : hist_entry :=
  HistEntry (HeStat (sm_period sample) 0 0 0 0 (sm_weight sample) 1) None (a_map al) (a_sym al) (a_thread al) (a_comm al)
    (fst (a_cgroup al)) (snd (a_cgroup al)) (a_addr al) (sm_transaction sample) (a_socket al) (a_cpu al) (a_cpumode al)
    (a_level al) (Z.lor (symbol__parent_filter sym_parent) (a_filtered al)) sym_parent bi mi
    (hist_time (time_quantum conf) (sm_time sample)) false false callchain_init.

Definition hists__add_entry (al : addr_location) (sym_parent : option hist_symbol) (bi : option branch_info)
    (mi : option mem_info) (sample : hist_sample) (sample_self : bool) (h : hists) : option (option nat * hists) :=
  '(r, h) ← hists__findnew_entry (template_of al sym_parent bi mi sample) (a_cpumode al) sample_self h;
  match r with
  | None => Some (None, h)
  | Some x =>
      he ← ents h !! x;
      Some (Some x, if negb (any_callchains h) && has_callchains he then put_any true h else h)
  end.

(** * Counting samples *)

Definition events_stats__inc (s : events_stats) (type : Z) : events_stats :=
  let inc t f x := if x =? t then u32 (f x + 1) else f x in
  EventsStats (total_period s) (total_non_filtered_period s) (inc type (inc 0 (nr_records s)))
    (nr_non_filtered_samples s).

Definition hists__inc_nr_samples (is_filtered : bool) (h : hists) : hists :=
  let s := events_stats__inc (stats h) PERF_RECORD_SAMPLE in
  put_stats (if is_filtered then s
             else EventsStats (total_period s) (total_non_filtered_period s) (nr_records s)
                    (u32 (nr_non_filtered_samples s + 1))) h.

(** callchain_append on the chain of an entry, with a cursor; an entry that was made
    without room for a chain has none. *)
Definition append_chain_to (x : nat) (cur : callchain_cursor) (p : Z) (h : hists)
    : option (Z * callchain_cursor * hists) :=
  he ← ents h !! x;
  if negb (has_callchains he) then None else
  '(err, root, cur, a) ← callchain_append alloc_ok key (he_callchain he) cur p (allocs h);
  Some (err, cur, put_cursor (cursor h) a (put_ent x (set_chain root he) h)).

Definition hist_entry__append_callchain (x : nat) (sample : hist_sample) (h : hists) : option (Z * hists) :=
  if (negb (use_callchain conf) || negb (sm_callchain sample)) && negb (show_branchflag_count conf) then Some (0, h)
  else '(err, cur, h) ← append_chain_to x (cursor h) (sm_period sample) h;
       Some (err, put_cursor cur (allocs h) h).

(** * One sample *)

(** What hist_entry_iter__add keeps while it adds the entries of a sample. *)
Record hist_entry_iter := Iter {
  i_sample : hist_sample;
  i_parent : option hist_symbol;
  hide_unresolved : bool;
  i_al : addr_location;
  i_he : option nat;
  i_curr : nat;
  i_total : nat;
  i_branches : option (list branch_info);
  i_mem : option mem_info;
  (** the capacity of the array and what was written *)
  i_cache : option (nat * list nat)
}.

Definition set_he (x : option nat) (i : hist_entry_iter) : hist_entry_iter :=
  Iter (i_sample i) (i_parent i) (hide_unresolved i) (i_al i) x (i_curr i) (i_total i) (i_branches i) (i_mem i) (i_cache i).
Definition set_sample (s : hist_sample) (i : hist_entry_iter) : hist_entry_iter :=
  Iter s (i_parent i) (hide_unresolved i) (i_al i) (i_he i) (i_curr i) (i_total i) (i_branches i) (i_mem i) (i_cache i).
Definition set_al (al : addr_location) (i : hist_entry_iter) : hist_entry_iter :=
  Iter (i_sample i) (i_parent i) (hide_unresolved i) al (i_he i) (i_curr i) (i_total i) (i_branches i) (i_mem i) (i_cache i).
Definition set_curr (n : nat) (i : hist_entry_iter) : hist_entry_iter :=
  Iter (i_sample i) (i_parent i) (hide_unresolved i) (i_al i) (i_he i) n (i_total i) (i_branches i) (i_mem i) (i_cache i).
Definition set_total (n : nat) (i : hist_entry_iter) : hist_entry_iter :=
  Iter (i_sample i) (i_parent i) (hide_unresolved i) (i_al i) (i_he i) (i_curr i) n (i_branches i) (i_mem i) (i_cache i).
Definition set_priv (b : option (list branch_info)) (m : option mem_info) (c : option (nat * list nat)) (i : hist_entry_iter)
    : hist_entry_iter :=
  Iter (i_sample i) (i_parent i) (hide_unresolved i) (i_al i) (i_he i) (i_curr i) (i_total i) b m c.

Definition with_period (p w : Z) (s : hist_sample) : hist_sample :=
  HistSample p w (sm_transaction s) (sm_time s) (sm_callchain s).
Definition at_place (m : option hist_map) (s : option hist_symbol) (addr : Z) (al : addr_location) : addr_location :=
  AddrLocation (a_thread al) (a_comm al) (a_cgroup al) m s addr (a_level al) (a_filtered al) (a_cpumode al) (a_cpu al)
    (a_socket al).

Definition step : Type := hist_entry_iter -> hists -> option (Z * hist_entry_iter * hists).

Record hist_iter_ops := IterOps {
  prepare_entry : step;
  add_single_entry : step;
  next_entry : step;
  add_next_entry : step;
  finish_entry : step
}.

Definition iter_next_nop_entry : step := fun i h => Some (0, i, h).
Definition iter_add_next_nop_entry : step := fun i h => Some (0, i, h).

Definition ENOMEM : Z := 12.
Definition EINVAL : Z := 22.

(** hists__add_entry at the place of the iterator, and the entry noted. *)
Definition add_here (bi : option branch_info) (mi : option mem_info) (sample_self : bool) : step := fun i h =>
  '(r, h) ← hists__add_entry (i_al i) (i_parent i) bi mi (i_sample i) sample_self h;
  match r with
  | None => Some (- ENOMEM, i, h)
  | Some x => Some (0, set_he (Some x) i, h)
  end.

Definition count_sample (x : nat) (h : hists) : option hists :=
  he ← ents h !! x; Some (hists__inc_nr_samples (negb (filtered he =? 0)) h).

(** ** Normal mode *)

Definition iter_prepare_normal_entry : step := fun i h => Some (0, i, h).
Definition iter_add_single_normal_entry : step := add_here None None true.
Definition iter_finish_normal_entry : step := fun i h =>
  match i_he i with
  | None => Some (0, i, h)
  | Some x =>
      h ← count_sample x h;
      '(err, h) ← hist_entry__append_callchain x (i_sample i) h;
      Some (err, set_he None i, h)
  end.
Definition hist_iter_normal : hist_iter_ops :=
  IterOps iter_prepare_normal_entry iter_add_single_normal_entry iter_next_nop_entry iter_add_next_nop_entry
    iter_finish_normal_entry.

(** ** Memory mode; [resolved] is the result of sample__resolve_mem. *)

Definition iter_prepare_mem_entry (resolved : option mem_info) : step := fun i h =>
  match resolved with
  | None => Some (- ENOMEM, i, h)
  | Some mi => Some (0, set_priv (i_branches i) (Some mi) (i_cache i) i, h)
  end.
Definition iter_add_single_mem_entry : step := fun i h =>
  match i_mem i with
  | None => Some (- EINVAL, i, h)
  | Some mi =>
      let cost := if sm_weight (i_sample i) =? 0 then 1 else sm_weight (i_sample i) in
      add_here None (Some mi) true (set_sample (with_period cost (sm_weight (i_sample i)) (i_sample i)) i) h
  end.
Definition iter_finish_mem_entry : step := fun i h =>
  let done err i h := Some (err, set_he None (set_priv (i_branches i) None (i_cache i) i), h) in
  match i_he i with
  | None => done (- EINVAL) i h
  | Some x =>
      h ← count_sample x h;
      '(err, h) ← hist_entry__append_callchain x (i_sample i) h;
      done err i h
  end.
Definition hist_iter_mem (resolved : option mem_info) : hist_iter_ops :=
  IterOps (iter_prepare_mem_entry resolved) iter_add_single_mem_entry iter_next_nop_entry iter_add_next_nop_entry
    iter_finish_mem_entry.

(** ** Branch mode; [resolved] is the result of sample__resolve_bstack, whose length
    is the number of branches of the sample. *)

Definition iter_prepare_branch_entry (resolved : option (list branch_info)) : step := fun i h =>
  match resolved with
  | None => Some (- ENOMEM, i, h)
  | Some bi => Some (0, set_priv (Some bi) (i_mem i) (i_cache i) (set_total (length bi) (set_curr 0 i)), h)
  end.
Definition iter_add_single_branch_entry : step := fun i h => Some (0, i, h).
Definition iter_next_branch_entry : step := fun i h =>
  match i_branches i with
  | None => Some (0, i, h)
  | Some bi =>
      if (i_total i <=? i_curr i)%nat then Some (0, i, h) else
      b ← bi !! i_curr i;
      Some (1, set_al (at_place (ams_map (bi_to b)) (ams_sym (bi_to b)) (ams_addr (bi_to b)) (i_al i)) i, h)
  end.

(** The weight is taken from the first branch of the array. *)
Definition iter_add_next_branch_entry : step := fun i h =>
  bi ← i_branches i;
  b ← bi !! i_curr i;
  if hide_unresolved i && negb (bool_decide (is_Some (ams_sym (bi_from b))) && bool_decide (is_Some (ams_sym (bi_to b))))
  then Some (0, set_curr (S (i_curr i)) (set_he None i), h)
  else
    first ← bi !! 0%nat;
    let cycles := bf_cycles (bi_flags first) in
    let i := set_sample (with_period 1 (if cycles =? 0 then 1 else cycles) (i_sample i)) i in
    '(err, i, h) ← add_here (Some b) None true i h;
    if negb (err =? 0) then Some (err, i, h) else
    x ← i_he i;
    h ← count_sample x h;
    Some (0, set_curr (S (i_curr i)) i, h).
Definition iter_finish_branch_entry : step := fun i h =>
  Some (if (i_total i <=? i_curr i)%nat then 0 else -1, set_he None (set_priv None (i_mem i) (i_cache i) i), h).
Definition hist_iter_branch (resolved : option (list branch_info)) : hist_iter_ops :=
  IterOps (iter_prepare_branch_entry resolved) iter_add_single_branch_entry iter_next_branch_entry
    iter_add_next_branch_entry iter_finish_branch_entry.

(** ** Cumulative mode *)

(** What the pointers of a frame point to, which maps are those of the kernel, and
    the machine. *)
Context (frame_map : frame -> option hist_map) (frame_sym : frame -> option hist_symbol).
Context (in_kmaps : hist_map -> bool) (host perf_guest : bool).

Definition set_mode (cpumode level : Z) (al : addr_location) : addr_location :=
  AddrLocation (a_thread al) (a_comm al) (a_cgroup al) (a_map al) (a_sym al) (a_addr al) level (a_filtered al) cpumode
    (a_cpu al) (a_socket al).

(** [None] is the access through a map that is NULL. *)
Definition fill_callchain_info (al : addr_location) (node : callchain_cursor_node) (hide : bool)
    : option (Z * addr_location) :=
  let f := cn_frame node in
  let al := at_place (frame_map f) (frame_sym f) (f_ip f) al in
  if bool_decide (a_sym al = None) && hide then Some (0, al) else
  if bool_decide (a_sym al = None) && bool_decide (a_map al = None) then Some (1, al) else
  m ← a_map al;
  Some (1, if in_kmaps m then
             if host then set_mode PERF_RECORD_MISC_KERNEL 107 al else set_mode PERF_RECORD_MISC_GUEST_KERNEL 103 al
           else if host then set_mode PERF_RECORD_MISC_USER 46 al
           else if perf_guest then set_mode PERF_RECORD_MISC_GUEST_USER 117 al
           else set_mode PERF_RECORD_MISC_HYPERVISOR 72 al).

Definition callchain_cursor_snapshot (src : callchain_cursor) : callchain_cursor :=
  Cursor (drop (c_pos src) (c_nodes src)) (c_nr src - c_pos src) (c_pos src).

Definition iter_prepare_cumulative_entry : step := fun i h =>
  let h := put_cursor (callchain_cursor_commit (cursor h)) (allocs h) h in
  let '(ok, h) := grab h in
  if ok then Some (0, set_curr 0 (set_priv (i_branches i) (i_mem i) (Some (S (c_nr (cursor h)), [])) i), h)
  else Some (- ENOMEM, i, h).

(** he_cache[iter->curr++] = he *)
Definition remember (x : nat) (i : hist_entry_iter) : option hist_entry_iter :=
  '(cap, l) ← i_cache i;
  if (cap <=? i_curr i)%nat then None
  else Some (set_curr (S (i_curr i)) (set_priv (i_branches i) (i_mem i) (Some (cap, l ++ [x])) i)).

Definition iter_add_single_cumulative_entry : step := fun i h =>
  '(err, i, h) ← add_here None None true i h;
  if negb (err =? 0) then Some (err, i, h) else
  x ← i_he i;
  i ← remember x i;
  '(_, h) ← hist_entry__append_callchain x (i_sample i) h;
  let h := put_cursor (callchain_cursor_commit (cursor h)) (allocs h) h in
  h ← count_sample x h;
  Some (0, i, h).

Definition iter_next_cumulative_entry : step := fun i h =>
  match callchain_cursor_current (cursor h) with
  | None => Some (0, i, h)
  | Some node => '(r, al) ← fill_callchain_info (i_al i) node (hide_unresolved i); Some (r, set_al al i, h)
  end.

(** The entry that recursion is looked for with; the members that the code does not
    name are zero.  The srcline and raw_data of the location, which only sort keys
    that are not modelled compare, are left out as in [hist_entry__init]. *)
Definition he_tmp (i : hist_entry_iter) : hist_entry :=
  let al := i_al i in
  HistEntry no_figures None (a_map al) (a_sym al) (a_thread al) (a_comm al) 0 0 (a_addr al) 0 0 (a_cpu al) 0 0 0
    (i_parent i) None None 0 false false callchain_init.

Fixpoint seen_before (cache : list nat) (e : hist_entry) (h : hists) : option bool :=
  match cache with
  | [] => Some false
  | x :: cache =>
      he ← ents h !! x;
      if hist_entry__cmp fmts he e =? 0 then Some true else seen_before cache e h
  end.

Definition iter_add_next_cumulative_entry : step := fun i h =>
  let snap := callchain_cursor_snapshot (cursor h) in
  let h := put_cursor (callchain_cursor_advance (cursor h)) (allocs h) h in
  '(_, cache) ← i_cache i;
  seen ← seen_before cache (he_tmp i) h;
  if (seen : bool) then Some (0, set_he None i, h) else
  '(err, i, h) ← add_here None None false i h;
  if negb (err =? 0) then Some (err, i, h) else
  x ← i_he i;
  i ← remember x i;
  he ← ents h !! x;
  if has_callchains he && use_callchain conf then
    '(_, _, h) ← append_chain_to x snap (sm_period (i_sample i)) h; Some (0, i, h)
  else Some (0, i, h).

Definition iter_finish_cumulative_entry : step := fun i h =>
  Some (0, set_he None (set_priv (i_branches i) (i_mem i) None i), h).
Definition hist_iter_cumulative : hist_iter_ops :=
  IterOps iter_prepare_cumulative_entry iter_add_single_cumulative_entry iter_next_cumulative_entry
    iter_add_next_cumulative_entry iter_finish_cumulative_entry.

(** ** The loop, once sample__resolve_callchain filled the cursor; without a callback *)

Fixpoint next_entries (fuel : nat) (ops : hist_iter_ops) (i : hist_entry_iter) (h : hists)
    : outcome (Z * hist_entry_iter * hists) :=
  match fuel with
  | O => NoFuel
  | S fuel =>
      match next_entry ops i h with
      | None => Faults
      | Some (more, i, h) =>
          if more =? 0 then Ran (0, i, h) else
          match add_next_entry ops i h with
          | None => Faults
          | Some (err, i, h) => if negb (err =? 0) then Ran (err, i, h) else next_entries fuel ops i h
          end
      end
  end.

Definition hist_entry_iter__add (fuel : nat) (ops : hist_iter_ops) (i : hist_entry_iter) (h : hists)
    : outcome (Z * hists) :=
  let finish err i h :=
    match finish_entry ops i h with
    | None => Faults
    | Some (err2, _, h) => Ran (if err =? 0 then err2 else err, h)
    end in
  match prepare_entry ops i h with
  | None => Faults
  | Some (err, i, h) =>
      if negb (err =? 0) then finish err i h else
      match add_single_entry ops i h with
      | None => Faults
      | Some (err, i, h) =>
          if negb (err =? 0) then finish err i h else
          match next_entries fuel ops i h with
          | Ran (err, i, h) => finish err i h
          | Faults => Faults
          | NoFuel => NoFuel
          end
      end
  end.

(** * Filters *)

Fixpoint strstr (haystack needle : bytes) : bool :=
  bool_decide (take (length needle) haystack = needle) ||
  match haystack with [] => false | _ :: haystack => strstr haystack needle end.

Definition mark (type : Z) (e : hist_entry) : hist_entry := set_filtered (Z.lor (filtered e) (Z.shiftl 1 type)) e.

(** Each filter tells whether it took the entry out; the first component is the
    entry afterwards. *)
Definition hists__filter_entry_by_dso (h : hists) (e : hist_entry) : hist_entry * bool :=
  match dso_filter h with
  | None => (e, false)
  | Some d =>
      match ms_map e ≫= map_dso with
      | Some d' => if dso_ptr d' =? d then (e, false) else (mark HIST_FILTER__DSO e, true)
      | None => (mark HIST_FILTER__DSO e, true)
      end
  end.

Definition hists__filter_entry_by_thread (h : hists) (e : hist_entry) : hist_entry * bool :=
  match thread_filter h with
  | None => (e, false)
  | Some t => if thread_ptr (he_thread e) =? t then (e, false) else (mark HIST_FILTER__THREAD e, true)
  end.

Definition hists__filter_entry_by_symbol (h : hists) (e : hist_entry) : hist_entry * bool :=
  match symbol_filter_str h with
  | None => (e, false)
  | Some str =>
      match ms_sym e with
      | Some s => if strstr (s_name s) str then (e, false) else (mark HIST_FILTER__SYMBOL e, true)
      | None => (mark HIST_FILTER__SYMBOL e, true)
      end
  end.

Definition hists__filter_entry_by_socket (h : hists) (e : hist_entry) : hist_entry * bool :=
  if (-1 <? socket_filter h) && negb (he_socket e =? socket_filter h) then (mark HIST_FILTER__SOCKET e, true)
  else (e, false).

Definition hists__apply_filters (h : hists) (e : hist_entry) : hist_entry :=
  let e := fst (hists__filter_entry_by_dso h e) in
  let e := fst (hists__filter_entry_by_thread h e) in
  let e := fst (hists__filter_entry_by_symbol h e) in
  fst (hists__filter_entry_by_socket h e).

Definition hists__reset_filter_stats (h : hists) : hists :=
  let s := stats h in
  put_nr (nr_entries h) 0 (put_stats (EventsStats (total_period s) 0 (nr_records s) (nr_non_filtered_samples s)) h).

Definition hists__reset_stats (h : hists) : hists :=
  let s := stats h in
  hists__reset_filter_stats (put_nr 0 (nr_non_filtered_entries h)
    (put_stats (EventsStats 0 (total_non_filtered_period s) (nr_records s) (nr_non_filtered_samples s)) h)).

Definition hists__inc_filter_stats (e : hist_entry) (h : hists) : hists :=
  let s := stats h in
  put_nr (nr_entries h) (nr_non_filtered_entries h +64 1)
    (put_stats (EventsStats (total_period s) (total_non_filtered_period s +64 period (stat e)) (nr_records s)
       (nr_non_filtered_samples s)) h).

Definition hists__inc_stats (e : hist_entry) (h : hists) : hists :=
  let h := if filtered e =? 0 then hists__inc_filter_stats e h else h in
  let s := stats h in
  put_nr (nr_entries h +64 1) (nr_non_filtered_entries h)
    (put_stats (EventsStats (total_period s +64 period (stat e)) (total_non_filtered_period s) (nr_records s)
       (nr_non_filtered_samples s)) h).

Definition hists__remove_entry_filter (x : nat) (e : hist_entry) (type : Z) (h : hists) : hists :=
  let e := set_filtered (Z.land (filtered e) (Z.lnot (Z.shiftl 1 type))) e in
  let h := put_ent x e h in
  if negb (filtered e =? 0) then h else
  let s := stats h in
  hists__inc_filter_stats e
    (put_stats (EventsStats (total_period s) (total_non_filtered_period s) (nr_records s)
       (u32 (nr_non_filtered_samples s + nr_events (stat e)))) h).

Fixpoint filter_loop (type : Z) (filter : hists -> hist_entry -> hist_entry * bool) (l : list nat) (h : hists)
    : option hists :=
  match l with
  | [] => Some h
  | x :: l =>
      e ← ents h !! x;
      let '(e', out) := filter h e in
      filter_loop type filter l
        (if (out : bool) then put_ent x e' h else hists__remove_entry_filter x e' type h)
  end.

Definition hists__filter_by_type (type : Z) (filter : hists -> hist_entry -> hist_entry * bool) (h : hists)
    : option hists :=
  let s := stats h in
  let h := put_stats (EventsStats (total_period s) (total_non_filtered_period s) (nr_records s) 0) h in
  let h := hists__reset_filter_stats h in
  filter_loop type filter (elems (entries h)) h.

Definition hists__filter_by_thread : hists -> option hists :=
  hists__filter_by_type HIST_FILTER__THREAD hists__filter_entry_by_thread.
Definition hists__filter_by_dso : hists -> option hists :=
  hists__filter_by_type HIST_FILTER__DSO hists__filter_entry_by_dso.
Definition hists__filter_by_symbol : hists -> option hists :=
  hists__filter_by_type HIST_FILTER__SYMBOL hists__filter_entry_by_symbol.
Definition hists__filter_by_socket : hists -> option hists :=
  hists__filter_by_type HIST_FILTER__SOCKET hists__filter_entry_by_socket.

(** * Collapsing *)

Definition hist_entry__delete (x : nat) (h : hists) : hists := put_ents (delete x (ents h)) h.

(** The result says whether the entry was merged (0), inserted (1) or its chain
    could not be merged (-1). *)
Definition hists__collapse_insert_entry (n : nat) (h : hists) : option (Z * hists) :=
  he ← ents h !! n;
  r ← descend (fun x => iter ← ents h !! x; Some (hist_entry__collapse fmts iter he)) n (entries_collapsed h);
  match r with
  | inl x =>
      iter ← ents h !! x;
      acc ← (if cumulate_callchain conf
             then a ← stat_acc iter; b ← stat_acc he; Some (Some (he_stat__add_stat a b)) else Some (stat_acc iter));
      let iter := set_stats (he_stat__add_stat (stat iter) (stat he)) acc iter in
      if has_callchains he && use_callchain conf then
        '(err, root, cur, a) ←
          callchain_merge alloc_ok key (callchain_cursor_reset (cursor h)) (he_callchain iter) (he_callchain he) (allocs h);
        let h := put_cursor cur a (put_ent x (set_chain root iter) h) in
        Some (if err <? 0 then -1 else 0, hist_entry__delete n h)
      else Some (0, hist_entry__delete n (put_ent x iter h))
  | inr t =>
      Some (1, put_collapsed (rb_insert_color t) (put_nr (nr_entries h +64 1) (nr_non_filtered_entries h) h))
  end.

(** The tree of new entries, and which of the two is the next one. *)
Definition hists__get_rotate_entries_in (h : hists) : bool * hists :=
  (entries_in h, put_in (entries_in_array h) (negb (entries_in h)) h).

Definition erase_in (root : bool) (x : nat) (h : hists) : hists :=
  let '(a, b) := entries_in_array h in
  put_in (if root then (a, rb_erase x b) else (rb_erase x a, b)) (entries_in h) h.

(** [session_done] is the flag that a signal sets, when the loop comes to an entry. *)
Fixpoint collapse_loop (session_done : nat -> bool) (root : bool) (l : list nat) (h : hists) : option (Z * hists) :=
  match l with
  | [] => Some (0, h)
  | n :: l =>
      if session_done n then Some (0, h) else
      '(ret, h) ← hists__collapse_insert_entry n (erase_in root n h);
      if ret <? 0 then Some (-1, h) else
      if negb (ret =? 0) then
        e ← ents h !! n;
        collapse_loop session_done root l (put_ent n (hists__apply_filters h e) h)
      else collapse_loop session_done root l h
  end.

Definition hists__collapse_resort (session_done : nat -> bool) (h : hists) : option (Z * hists) :=
  if negb (need_collapse h) then Some (0, h) else
  let h := put_nr 0 (nr_non_filtered_entries h) h in
  let '(root, h) := hists__get_rotate_entries_in h in
  collapse_loop session_done root
    (elems (if root then snd (entries_in_array h) else fst (entries_in_array h))) h.

(** * Output *)

(** The chains of an entry are sorted before, which does not change them. *)
Definition __hists__insert_output_entry (n : nat) (h : hists) : option hists :=
  he ← ents h !! n;
  t ← place (fun x => iter ← ents h !! x; Some (hist_entry__sort fmts he iter)) n (entries h);
  Some (put_out (rb_insert_color t) h).

Fixpoint output_loop (l : list nat) (h : hists) : option hists :=
  match l with
  | [] => Some h
  | n :: l =>
      h ← __hists__insert_output_entry n h;
      e ← ents h !! n;
      output_loop l (hists__inc_stats e h)
  end.

Definition output_root (h : hists) : etree := if need_collapse h then entries_collapsed h else tree_in h.

(** output_resort without a callback. *)
Definition output_resort (h : hists) : option hists :=
  let h := hists__reset_stats h in
  output_loop (elems (output_root h)) (put_out eleaf h).

(** * Decay *)

Definition hists__decay_entry (x : nat) (h : hists) : option (bool * hists) :=
  e ← ents h !! x;
  let prev_period := period (stat e) in
  if prev_period =? 0 then Some (true, h) else
  let st := he_stat__decay (stat e) in
  acc ← (if cumulate_callchain conf then a ← stat_acc e; Some (Some (he_stat__decay a)) else Some (stat_acc e));
  let e := set_chain (decay_callchain (use_callchain conf) (he_callchain e)) (set_stats st acc e) in
  let diff := prev_period -64 period st in
  let s := stats h in
  let h := put_ent x e (put_stats (EventsStats (total_period s -64 diff)
    (if filtered e =? 0 then total_non_filtered_period s -64 diff else total_non_filtered_period s)
    (nr_records s) (nr_non_filtered_samples s)) h) in
  Some (period st =? 0, h).

Definition hists__delete_entry (x : nat) (h : hists) : option hists :=
  e ← ents h !! x;
  let h := if need_collapse h then put_collapsed (rb_erase x (entries_collapsed h)) h
           else put_tree_in (rb_erase x (tree_in h)) h in
  let h := put_out (rb_erase x (entries h)) h in
  let h := put_nr (nr_entries h -64 1)
    (if filtered e =? 0 then nr_non_filtered_entries h -64 1 else nr_non_filtered_entries h) h in
  Some (hist_entry__delete x h).

Fixpoint decay_loop (zap_user zap_kernel : bool) (l : list nat) (h : hists) : option hists :=
  match l with
  | [] => Some h
  | x :: l =>
      e ← ents h !! x;
      '(gone, h) ← (if (zap_user && (level e =? 46)) || (zap_kernel && negb (level e =? 46)) then Some (true, h)
                    else hists__decay_entry x h);
      h ← (if (gone : bool) then hists__delete_entry x h else Some h);
      decay_loop zap_user zap_kernel l h
  end.

Definition hists__decay_entries (zap_user zap_kernel : bool) (h : hists) : option hists :=
  decay_loop zap_user zap_kernel (elems (entries h)) h.

Fixpoint delete_loop (l : list nat) (h : hists) : option hists :=
  match l with
  | [] => Some h
  | x :: l => h ← hists__delete_entry x h; delete_loop l h
  end.

Definition hists__delete_entries (h : hists) : option hists := delete_loop (elems (entries h)) h.

End Operations.
