(* ===== verification/HistSpec.v ===== *)
(** What the histograms of [Hists] promise: a histogram is a table of figures by
    key.  Adding a sample adds its figures to the row of its key, collapsing adds
    the rows of one table to another, the output has every row once, sorted, and
    the totals are the sums of the rows. *)

From S2P Require Import Prelude Callchain SortKeys Hists.

(** * Figures *)

Inductive figure := FPeriod | FSys | FUs | FGuestSys | FGuestUs | FWeight | FEvents.

Definition fig (f : figure) (s : he_stat) : Z :=
  match f with
  | FPeriod => period s
  | FSys => period_sys s
  | FUs => period_us s
  | FGuestSys => period_guest_sys s
  | FGuestUs => period_guest_us s
  | FWeight => weight s
  | FEvents => nr_events s
  end.

Definition fwidth (f : figure) : Z := match f with FEvents => 32 | _ => 64 end.
(** Equality of what counters of that width hold. *)
Definition eqf (f : figure) (a b : Z) : Prop := wrap (fwidth f) a = wrap (fwidth f) b.

(** What a sample adds. *)
Definition gives (f : figure) (cpumode p w : Z) : Z :=
  match f with
  | FPeriod => p
  | FSys => if cpumode =? PERF_RECORD_MISC_KERNEL then p else 0
  | FUs => if cpumode =? PERF_RECORD_MISC_USER then p else 0
  | FGuestSys => if cpumode =? PERF_RECORD_MISC_GUEST_KERNEL then p else 0
  | FGuestUs => if cpumode =? PERF_RECORD_MISC_GUEST_USER then p else 0
  | FWeight => w
  | FEvents => 1
  end.

#[export] Instance eqf_equiv f : Equivalence (eqf f).
Proof. unfold eqf. split; [done|by intros ??|by intros ???; congruence]. Qed.

Lemma eqf_wrap f a : eqf f (wrap (fwidth f) a) a.
Proof. unfold eqf. apply wrap_wrap. Qed.

#[export] Instance eqf_add f : Proper (eqf f ==> eqf f ==> eqf f) Z.add.
Proof.
  unfold eqf, wrap. intros a a' Ha b b' Hb. rewrite Zplus_mod, Ha, Hb, <- Zplus_mod. done.
Qed.

Lemma fig_add_stat f a b : eqf f (fig f (he_stat__add_stat a b)) (fig f a + fig f b).
Proof. destruct f; apply eqf_wrap. Qed.

Lemma fig_add_period f s p w : eqf f (fig f (he_stat__add_period s p w)) (fig f s + gives f (-1) p w).
Proof. destruct f; try apply eqf_wrap; cbn; rewrite Z.add_0_r; done. Qed.

Lemma fig_add_cpumode f s m p : eqf f (fig f (he_stat__add_cpumode_period s m p)) (fig f s + (gives f m p 0 - gives f (-1) p 0)).
Proof.
  unfold he_stat__add_cpumode_period, gives, PERF_RECORD_MISC_KERNEL, PERF_RECORD_MISC_USER, PERF_RECORD_MISC_GUEST_KERNEL,
    PERF_RECORD_MISC_GUEST_USER.
  destruct (Z.eqb_spec m 1) as [->|]; [|destruct (Z.eqb_spec m 2) as [->|];
    [|destruct (Z.eqb_spec m 4) as [->|]; [|destruct (Z.eqb_spec m 5) as [->|]]]];
    destruct f; cbn -[wrap Z.add Z.sub]; rewrite ?Z.sub_diag, ?Z.add_0_r, ?Z.sub_0_r; try done; apply eqf_wrap.
Qed.

(** The figures of an entry after a sample. *)
Lemma fig_sample f s m p w :
  eqf f (fig f (he_stat__add_cpumode_period (he_stat__add_period s p w) m p)) (fig f s + gives f m p w).
Proof.
  rewrite fig_add_cpumode, fig_add_period. replace (fig f s + gives f m p w) with
    (fig f s + gives f (-1) p w + (gives f m p 0 - gives f (-1) p 0)) by (destruct f; cbn; lia). done.
Qed.

Lemma fig_first f m p w :
  eqf f (fig f (he_stat__add_cpumode_period (HeStat p 0 0 0 0 w 1) m p)) (gives f m p w).
Proof.
  rewrite fig_add_cpumode. replace (gives f m p w) with
    (fig f (HeStat p 0 0 0 0 w 1) + (gives f m p 0 - gives f (-1) p 0)) by (destruct f; cbn; lia). done.
Qed.

(** * Trees of entries *)

Definition rows (m : gmap nat hist_entry) (ids : list nat) (es : list hist_entry) : Prop :=
  Forall2 (fun x e => m !! x = Some e) ids es.

(** In a tree of keys, an entry comes before those that it is greater than. *)
Definition ordered (cmp : hist_entry -> hist_entry -> Z) : list hist_entry -> Prop :=
  StronglySorted (fun a b => 0 < cmp a b).

Lemma ordered_app cmp l1 l2 : ordered cmp (l1 ++ l2) <->
  ordered cmp l1 /\ ordered cmp l2 /\ (forall a b, a ∈ l1 -> b ∈ l2 -> 0 < cmp a b).
Proof.
  unfold ordered. induction l1 as [|x l1 IH]; cbn.
  - split; [intros Hs; split; [constructor|]; split; [done|]; intros a b Ha; by apply not_elem_of_nil in Ha|tauto].
  - split.
    + intros Hs. apply StronglySorted_inv in Hs as [Hs Hf]. apply IH in Hs as (H1 & H2 & H3).
      apply Forall_app in Hf as [F1 F2]. split; [by constructor|]. split; [done|].
      intros a b [->|Ha]%elem_of_cons Hb; [|by apply H3]. rewrite Forall_forall in F2. by apply F2.
    + intros (H1 & H2 & H3). apply StronglySorted_inv in H1 as [H1 F1]. constructor.
      * apply IH. split; [done|]. split; [done|]. intros a b Ha Hb. apply H3; [by constructor|done].
      * apply Forall_app. split; [done|]. apply Forall_forall. intros b Hb. apply H3; [by constructor|done].
Qed.

Section Tree.
Context {ok : hist_entry -> Prop} (cmp : hist_entry -> hist_entry -> Z) `{!Order ok cmp}.
Context (m : gmap nat hist_entry) (e : hist_entry) (new : nat).

Abbreviation look := (fun x => he ← m !! x; Some (cmp he e)).

(** The row of the key, or the place for it. *)
Inductive search_result (t : etree) (es : list hist_entry) : option (nat + etree) -> Prop :=
| search_found ids1 x ids2 es1 he es2 :
    elems t = ids1 ++ x :: ids2 -> es = es1 ++ he :: es2 -> rows m ids1 es1 -> rows m ids2 es2 ->
    m !! x = Some he -> cmp he e = 0 -> search_result t es (Some (inl x))
| search_missed t' ids1 ids2 es1 es2 :
    elems t = ids1 ++ ids2 -> elems t' = ids1 ++ new :: ids2 -> es = es1 ++ es2 -> rows m ids1 es1 -> rows m ids2 es2 ->
    Forall (fun a => 0 < cmp a e) es1 -> Forall (fun b => cmp b e < 0) es2 -> search_result t es (Some (inr t')).

Lemma descend_spec t : forall es, rows m (elems t) es -> Forall ok es -> ordered cmp es -> ok e ->
  search_result t es (descend look new t).
Proof.
  induction t as [|l IHl x r IHr]; intros es Hr Hok Hs He.
  - inversion Hr; subst. cbn. by apply (search_missed _ _ _ [] [] [] []).
  - cbn [elems] in Hr. apply Forall2_app_inv_l in Hr as (el & er' & Hl & Hr & ->).
    apply Forall2_cons_inv_l in Hr as (he & er & Hx & Hr & ->). cbn [descend]. rewrite Hx. cbn.
    apply Forall_app in Hok as [Okl Okr]. apply Forall_cons in Okr as [Okx Okr].
    apply ordered_app in Hs as (Sl & Sr & Sc). apply StronglySorted_inv in Sr as [Sr Sx].
    destruct (Z.eqb_spec (cmp he e) 0) as [E|E]; [by apply (search_found _ _ (elems l) x (elems r) el he er)|].
    destruct (Z.ltb_spec (cmp he e) 0) as [Hlt|Hge].
    + destruct (IHl el Hl Okl Sl He) as [ids1 y ids2 es1 hy es2 E1 E2 R1 R2 Ey Ez|t' ids1 ids2 es1 es2 E1 E2 E3 R1 R2 F1 F2]; cbn.
      * apply (search_found _ _ ids1 y (ids2 ++ x :: elems r) es1 hy (es2 ++ he :: er)); try done.
        -- cbn. by rewrite E1, <- app_assoc.
        -- by rewrite E2, <- app_assoc.
        -- apply Forall2_app; [done|by constructor].
      * apply (search_missed _ _ _ ids1 (ids2 ++ x :: elems r) es1 (es2 ++ he :: er)); try done.
        -- cbn. by rewrite E1, <- app_assoc.
        -- cbn. by rewrite E2, <- app_assoc.
        -- by rewrite E3, <- app_assoc.
        -- apply Forall2_app; [done|by constructor].
        -- apply Forall_app. split; [done|]. constructor; [done|]. rewrite Forall_forall in Sx, Okr |- *.
           intros b Hb. assert (0 < cmp he b) by (by apply Sx). pose proof (ord_sym he b Okx (Okr b Hb)).
           apply (ord_trans_lt b he e); [by apply Okr|done|done|lia|lia].
    + destruct (IHr er Hr Okr Sr He) as [ids1 y ids2 es1 hy es2 E1 E2 R1 R2 Ey Ez|t' ids1 ids2 es1 es2 E1 E2 E3 R1 R2 F1 F2]; cbn.
      * apply (search_found _ _ (elems l ++ x :: ids1) y ids2 (el ++ he :: es1) hy es2); try done.
        -- cbn. by rewrite E1, <- app_assoc.
        -- by rewrite E2, <- app_assoc.
        -- apply Forall2_app; [done|by constructor].
      * apply (search_missed _ _ _ (elems l ++ x :: ids1) ids2 (el ++ he :: es1) es2); try done.
        -- cbn. by rewrite E1, <- app_assoc.
        -- cbn. by rewrite E2, <- app_assoc.
        -- by rewrite E3, <- app_assoc.
        -- apply Forall2_app; [done|by constructor].
        -- apply Forall_app. split; [|constructor; [lia|done]]. rewrite Forall_forall in Okl |- *.
           intros a Ha. pose proof (Sc a he Ha ltac:(by constructor)). pose proof (ord_sym a he (Okl a Ha) Okx).
           pose proof (ord_sym he e Okx He). pose proof (ord_sym a e (Okl a Ha) He).
           assert (L1 : cmp e he < 0) by lia. assert (L2 : cmp he a <= 0) by lia.
           pose proof (ord_trans_lt e he a He Okx (Okl a Ha) L1 L2). lia.
Qed.

(** A new row at its place. *)
Lemma ordered_insert es1 es2 : Forall ok es1 -> Forall ok es2 -> ok e -> ordered cmp (es1 ++ es2) ->
  Forall (fun a => 0 < cmp a e) es1 -> Forall (fun b => cmp b e < 0) es2 -> ordered cmp (es1 ++ e :: es2).
Proof.
  intros O1 O2 He Hs F1 F2. apply ordered_app in Hs as (S1 & S2 & S3). apply ordered_app.
  rewrite Forall_forall in O1, O2, F1, F2. split; [done|]. split.
  - constructor; [done|]. apply Forall_forall. intros b Hb. assert (cmp b e < 0) by (by apply F2). pose proof (ord_sym b e (O2 b Hb) He). lia.
  - intros a b Ha [->|Hb]%elem_of_cons; [by apply F1|by apply S3].
Qed.

End Tree.

(** ** An entry that keeps its key *)

Section SameKey.
Context {ok : hist_entry -> Prop} (cmp : hist_entry -> hist_entry -> Z) `{!Order ok cmp}.

Definition same_key (a a' : hist_entry) : Prop := ok a' /\ forall c, ok c -> Z.sgn (cmp a' c) = Z.sgn (cmp a c).

Lemma same_key_ordered a a' l1 l2 : same_key a a' -> ok a -> Forall ok (l1 ++ l2) -> ordered cmp (l1 ++ a :: l2) ->
  ordered cmp (l1 ++ a' :: l2).
Proof.
  intros [Ha' Hk] Ha Ho Hs. apply ordered_app in Hs as (S1 & S2 & S3). apply StronglySorted_inv in S2 as [S2 F2].
  rewrite Forall_forall in Ho. setoid_rewrite elem_of_app in Ho. apply ordered_app. split; [done|]. split.
  - constructor; [done|]. rewrite Forall_forall in F2 |- *. intros b Hb. assert (0 < cmp a b) by (by apply F2). pose proof (Hk b (Ho b (or_intror Hb))). lia.
  - intros x b Hx [->|Hb]%elem_of_cons; [|by apply S3; [|constructor]].
    pose proof (Ho x (or_introl Hx)) as Okx. pose proof (S3 x a Hx ltac:(by constructor)). pose proof (Hk x Okx).
    pose proof (ord_sym x a Okx Ha). pose proof (ord_sym x a' Okx Ha'). lia.
Qed.

Lemma same_key_zero a a' k : same_key a a' -> ok k -> (cmp a' k =? 0) = (cmp a k =? 0).
Proof. intros [_ Hk] Hok. pose proof (Hk k Hok). destruct (Z.eqb_spec (cmp a' k) 0), (Z.eqb_spec (cmp a k) 0); lia. Qed.

Lemma same_key_zero_r a a' k : same_key a a' -> ok a -> ok k -> (cmp k a' =? 0) = (cmp k a =? 0).
Proof.
  intros [Ha' Hk] Ha Hok. pose proof (Hk k Hok). pose proof (ord_sym k a Hok Ha). pose proof (ord_sym k a' Hok Ha').
  destruct (Z.eqb_spec (cmp k a') 0), (Z.eqb_spec (cmp k a) 0); lia.
Qed.

End SameKey.

(** * Tables *)

(** What the rows that [P] selects add up to. *)
Definition amount (P : hist_entry -> bool) (get : hist_entry -> Z) (es : list hist_entry) : Z :=
  foldr (fun e n => (if P e then get e else 0) + n) 0 es.

Lemma amount_app P get l1 l2 : amount P get (l1 ++ l2) = amount P get l1 + amount P get l2.
Proof. unfold amount. induction l1 as [|e l1 IH]; [done|]. cbn. rewrite IH. lia. Qed.

Lemma amount_cons P get e l : amount P get (e :: l) = (if P e then get e else 0) + amount P get l.
Proof. done. Qed.

Lemma amount_mid P get l1 a l2 :
  amount P get (l1 ++ a :: l2) = amount P get l1 + (if P a then get a else 0) + amount P get l2.
Proof. rewrite amount_app, amount_cons. lia. Qed.

Lemma amount_perm P get l1 l2 : l1 ≡ₚ l2 -> amount P get l1 = amount P get l2.
Proof. unfold amount. induction 1; cbn; lia. Qed.

Lemma amount_none P get es : (forall e, e ∈ es -> P e = false) -> amount P get es = 0.
Proof.
  intros Hn. induction es as [|e es IH]; [done|]. rewrite amount_cons, (Hn e) by constructor. apply IH.
  intros a Ha. apply Hn. by constructor.
Qed.

Lemma eqf_mid f A X X' B G : eqf f X' (X + G) -> eqf f (A + X' + B) (A + X + B + G).
Proof. intros HX. replace (A + X + B + G) with (A + (X + G) + B) by lia. by rewrite HX. Qed.

(** The row [he] becomes [he']. *)
Lemma amount_update P get f l1 he he' l2 G : P he' = P he -> eqf f (get he') (get he + G) ->
  eqf f (amount P get (l1 ++ he' :: l2)) (amount P get (l1 ++ he :: l2) + if P he then G else 0).
Proof.
  intros Hp Hg. rewrite !amount_mid, Hp. destruct (P he); [by apply eqf_mid|]. rewrite !Z.add_0_r. reflexivity.
Qed.

(** Selections that do not tell equal keys apart. *)
Definition by_key (ok : hist_entry -> Prop) (cmp : hist_entry -> hist_entry -> Z) (P : hist_entry -> bool) : Prop :=
  forall a b, ok a -> ok b -> cmp a b = 0 -> P a = P b.

Definition everything (e : hist_entry) : bool := true.
Definition with_key (cmp : hist_entry -> hist_entry -> Z) (k e : hist_entry) : bool := cmp e k =? 0.

Lemma by_key_everything ok cmp : by_key ok cmp everything.
Proof. done. Qed.

Lemma by_key_with ok cmp k : Order ok cmp -> ok k -> by_key ok cmp (with_key cmp k).
Proof.
  intros Ho Hk a b Ha Hb Hz. unfold with_key. pose proof (ord_eq_l (ok := ok) a b k Ha Hb Hk Hz).
  destruct (Z.eqb_spec (cmp a k) 0), (Z.eqb_spec (cmp b k) 0); lia.
Qed.

Lemma same_by_key {ok cmp} P a a' : Order ok cmp -> by_key ok cmp P -> ok a -> same_key (ok := ok) cmp a a' -> P a' = P a.
Proof.
  intros Ho Hp Ha [Ha' Hk]. apply Hp; [done|done|]. pose proof (Hk a Ha). pose proof (ord_refl (ok := ok) (cmp := cmp) a Ha). lia.
Qed.

(** In a table a key has one row. *)
Lemma amount_row {ok : hist_entry -> Prop} cmp `{!Order ok cmp} get es e : Forall ok es -> ordered cmp es -> e ∈ es ->
  amount (with_key cmp e) get es = get e.
Proof.
  intros Ho Hs He. apply list_elem_of_split in He as (l1 & l2 & ->).
  rewrite Forall_app, Forall_cons, !Forall_forall in Ho. destruct Ho as (O1 & Oe & O2).
  apply ordered_app in Hs as (_ & S2 & S3). apply StronglySorted_inv in S2 as [_ F2]. rewrite Forall_forall in F2.
  rewrite amount_mid, (amount_none _ _ l1), (amount_none _ _ l2); unfold with_key.
  - rewrite (ord_refl (cmp := cmp) e Oe), Z.eqb_refl. lia.
  - intros a Ha. assert (0 < cmp e a) by (by apply F2). pose proof (ord_sym e a Oe (O2 a Ha)). apply Z.eqb_neq. lia.
  - intros a Ha. pose proof (S3 a e Ha ltac:(by constructor)). apply Z.eqb_neq. lia.
Qed.

(** ** The key after a change of the other members *)

Definition recasts (a a' : hist_entry) : Prop := exists s acc f d h c, a' = recast s acc f d h c a.

Lemma recasts_stats s acc a : recasts a (set_stats s acc a).
Proof. by exists s, acc, (filtered a), (dummy a), (has_callchains a), (he_callchain a). Qed.
Lemma recasts_chain c a : recasts a (set_chain c a).
Proof. by exists (stat a), (stat_acc a), (filtered a), (dummy a), (has_callchains a), c; destruct a. Qed.
Lemma recasts_filtered f a : recasts a (set_filtered f a).
Proof. by exists (stat a), (stat_acc a), f, (dummy a), (has_callchains a), (he_callchain a); destruct a. Qed.
Lemma recasts_size h a : recasts a (set_size h a).
Proof. by exists (stat a), (stat_acc a), (filtered a), (dummy a), h, (he_callchain a); destruct a. Qed.
Lemma recasts_refl a : recasts a a.
Proof. by exists (stat a), (stat_acc a), (filtered a), (dummy a), (has_callchains a), (he_callchain a); destruct a. Qed.
Lemma recasts_trans a b c : recasts a b -> recasts b c -> recasts a c.
Proof. intros (s & acc & f & d & h & ch & ->) (s' & acc' & f' & d' & h' & ch' & ->). by exists s', acc', f', d', h', ch'. Qed.

Create HintDb hists.
#[export] Hint Resolve recasts_stats recasts_chain recasts_filtered recasts_size recasts_refl : hists.

Section KeyChanges.
Context (sym_at : Z -> hist_symbol) (cmp : hist_entry -> hist_entry -> Z) `{!SortKey sym_at cmp}.
Abbreviation ok := (entry_ok sym_at).

Lemma recasts_cmp a a' c : recasts a a' -> cmp a' c = cmp a c.
Proof. intros (s & acc & f & d & h & ch & ->). by apply (key_recast sym_at). Qed.

Lemma recasts_same a a' : recasts a a' -> ok a -> same_key (ok := ok) cmp a a'.
Proof.
  intros Hr Ha. split.
  - destruct Hr as (s & acc & f & d & h & ch & ->). by apply entry_ok_recast.
  - intros c _. by rewrite (recasts_cmp a a' c Hr).
Qed.

(** The entry of the table with new figures and the map of the sample. *)
Lemma refreshed_same a a1 a2 b : recasts a a1 -> recasts (set_map (ms_map b) a1) a2 -> ok a -> ok b -> cmp a b = 0 ->
  same_key (ok := ok) cmp a a2.
Proof.
  intros H1 H2 Ha Hb Hz. destruct (recasts_same a a1 H1 Ha) as [Ha1 K1].
  assert (Hm : ok (set_map (ms_map b) a1)) by (by apply entry_ok_map).
  destruct (recasts_same _ a2 H2 Hm) as [Ha2 K2]. split; [done|]. intros c Hc. rewrite K2, <- K1 by done.
  apply (key_map sym_at); [done..|]. by rewrite (recasts_cmp a a1 b H1).
Qed.

End KeyChanges.

(** * Adding a sample *)

(** The own figures of an entry ([false]) or those with its callees ([true]). *)
Definition figs (acc : bool) (f : figure) (e : hist_entry) : Z :=
  if acc then match stat_acc e with Some s => fig f s | None => 0 end else fig f (stat e).

(** What adding does not touch. *)
Record kept (h h' : hists) : Prop := {
  kept_out : entries h' = entries h;
  kept_collapsed : entries_collapsed h' = entries_collapsed h;
  kept_which : entries_in h' = entries_in h;
  kept_filters : thread_filter h' = thread_filter h /\ dso_filter h' = dso_filter h /\
    symbol_filter_str h' = symbol_filter_str h /\ socket_filter h' = socket_filter h;
  kept_stats : stats h' = stats h;
  kept_need : need_collapse h' = need_collapse h;
  kept_cursor : cursor h' = cursor h
}.

#[export] Instance kept_preorder : PreOrder kept.
Proof.
  split; [by intros h|]. intros h1 h2 h3 [A1 A2 A3 (F1 & F2 & F3 & F4) A5 A6 A7] [B1 B2 B3 (G1 & G2 & G3 & G4) B5 B6 B7].
  split; try congruence. split_and!; congruence.
Qed.

Section Adding.
Context `{EntryTree} `{ChainTree}.
Context (conf : symbol_conf) (fmts : list perf_hpp_fmt) (alloc_ok : nat -> bool) (key : chain_key).
Context (sym_at : Z -> hist_symbol) `{!SortKey sym_at (hist_entry__cmp fmts)}.
Context (memory : forall n, alloc_ok n = true).
Abbreviation ok := (entry_ok sym_at).
Abbreviation cmp := (hist_entry__cmp fmts).

(** The tree of new entries shows the table [es]. *)
Record in_table (h : hists) (es : list hist_entry) : Prop := {
  it_rows : rows (ents h) (elems (tree_in h)) es;
  it_ok : Forall ok es;
  it_ordered : ordered cmp es;
  it_nodup : NoDup (elems (tree_in h));
  it_fresh : forall x, is_Some (ents h !! x) -> (x < next_ent h)%nat;
  it_acc : cumulate_callchain conf = true -> Forall (fun e => is_Some (stat_acc e)) es;
  it_chains : use_callchain conf = true -> Forall (fun e => has_callchains e = true) es
}.

Lemma on_figures_ok self f e : (cumulate_callchain conf = true -> is_Some (stat_acc e)) ->
  exists e', on_figures conf self f e = Some e' /\
    e' = set_stats (if self then f (stat e) else stat e)
           (if cumulate_callchain conf then f <$> stat_acc e else stat_acc e) e.
Proof.
  intros Ha. unfold on_figures. destruct (cumulate_callchain conf); [|by eexists].
  destruct (Ha eq_refl) as [a ->]. by eexists.
Qed.

Lemma recasts_new (b b' : bool) st acc c e : recasts e (set_stats st acc (if b then set_chain c (set_size b' e) else set_size b' e)).
Proof.
  eapply recasts_trans; [apply (recasts_size b')|]. destruct b; [|apply recasts_stats].
  eapply recasts_trans; [apply recasts_chain|apply recasts_stats].
Qed.

(** A new entry: the template with its first figures. *)
Lemma hist_entry__new_ok e self h : stat_acc e = None ->
  exists h' e', hist_entry__new conf alloc_ok e self h = (Some e', h') /\ recasts e e' /\
    stat e' = (if cumulate_callchain conf && negb self then no_figures else stat e) /\
    stat_acc e' = (if cumulate_callchain conf then Some (stat e) else None) /\ has_callchains e' = use_callchain conf /\
    filtered e' = filtered e /\ (he_callchain e = callchain_init -> he_callchain e' = callchain_init) /\
    exists a, h' = put_cursor (cursor h) a h.
Proof.
  intros Ha. unfold hist_entry__new, hist_entry__init, grab. rewrite memory.
  pose proof (fun st acc => recasts_new (use_callchain conf) (use_callchain conf) st acc callchain_init e) as H1.
  destruct (cumulate_callchain conf); rewrite ?memory; destruct (he_branch_info e); rewrite ?memory;
    do 2 eexists; (split; [reflexivity|]); (split; [apply H1|]); cbn; destruct (use_callchain conf), self; cbn;
    rewrite ?Ha; (do 5 (split; [done|])); by eexists.
Qed.

Definition has_key (k : hist_entry) (es : list hist_entry) : Prop := exists e, e ∈ es /\ cmp e k = 0.

Lemma has_key_mid k l1 a l2 : has_key k (l1 ++ a :: l2) <-> has_key k (l1 ++ l2) \/ cmp a k = 0.
Proof.
  unfold has_key. setoid_rewrite elem_of_app. setoid_rewrite elem_of_cons. split.
  - intros (e & [He|[->|He]] & Hz); eauto.
  - intros [(e & [He|He] & Hz)|Hz]; eauto 6.
Qed.

(** What a sample does to the table: its row has the figures added. *)
Record added (entry : hist_entry) (cpumode : Z) (self : bool) (h h' : hists) (es es' : list hist_entry) (x : nat) : Prop := {
  ad_table : in_table h' es';
  ad_row : exists he, ents h' !! x = Some he /\ x ∈ elems (tree_in h') /\ he ∈ es' /\ cmp he entry = 0;
  ad_amount acc f P : by_key ok cmp P -> (acc = true -> cumulate_callchain conf = true) ->
    eqf f (amount P (figs acc f) es')
      (amount P (figs acc f) es +
       if P entry && (self || acc) then gives f cpumode (period (stat entry)) (weight (stat entry)) else 0);
  ad_keys k : ok k -> has_key k es' <-> has_key k es \/ cmp entry k = 0;
  ad_kept : kept h h';
  ad_other : (if entries_in h then fst (entries_in_array h') = fst (entries_in_array h)
              else snd (entries_in_array h') = snd (entries_in_array h));
  ad_ents y : y ∉ elems (tree_in h') -> ents h' !! y = ents h !! y;
  ad_nr : nr_entries h' = wrap 64 (nr_entries h + (zlen es' - zlen es)) \/ nr_entries h' = nr_entries h /\ zlen es' = zlen es;
  ad_ids y : y ∈ elems (tree_in h') -> y ∈ elems (tree_in h) \/ (y = next_ent h /\ next_ent h' = S (next_ent h));
  ad_next : (next_ent h <= next_ent h')%nat;
  ad_old y e : y ∈ elems (tree_in h) -> ents h !! y = Some e -> exists e', ents h' !! y = Some e' /\
    y ∈ elems (tree_in h') /\ same_key (ok := ok) cmp e e' /\ he_callchain e' = he_callchain e;
  ad_new y e : y ∈ elems (tree_in h') -> y ∉ elems (tree_in h) -> ents h' !! y = Some e -> he_callchain e = callchain_init
}.

Lemma rows_other (m : gmap nat hist_entry) x e ids es : x ∉ ids -> rows m ids es -> rows (<[x := e]> m) ids es.
Proof.
  intros Hx Hr. induction Hr as [|y e' ids es Hy Hr IH]; [constructor|]. apply not_elem_of_cons in Hx as [Hne Hx].
  constructor; [by rewrite lookup_insert_ne|by apply IH].
Qed.

Lemma rows_insert (m : gmap nat hist_entry) ids1 x ids2 es1 es2 e : x ∉ ids1 -> x ∉ ids2 ->
  rows m ids1 es1 -> rows m ids2 es2 -> rows (<[x := e]> m) (ids1 ++ x :: ids2) (es1 ++ e :: es2).
Proof.
  intros Hn1 Hn2 H1 H2. apply Forall2_app; [by apply rows_other|]. constructor; [by rewrite lookup_insert_eq|by apply rows_other].
Qed.

Lemma ids_mid {A} (l1 : list A) x l2 : NoDup (l1 ++ x :: l2) -> (x ∉ l1) /\ (x ∉ l2).
Proof.
  intros Hn. apply NoDup_app in Hn as (_ & Hd & Hn2). apply NoDup_cons in Hn2 as [Hx _]. split; [|done].
  intros Hin. apply (Hd x Hin). by constructor.
Qed.

(** The figures of a row after a sample, in the two steps of the code. *)
Lemma figs_found (self acc : bool) f he cpumode p w m :
  (acc = true -> cumulate_callchain conf = true) -> (cumulate_callchain conf = true -> is_Some (stat_acc he)) ->
  let upd (g : he_stat -> he_stat) e := set_stats (if self then g (stat e) else stat e)
    (if cumulate_callchain conf then g <$> stat_acc e else stat_acc e) e in
  eqf f (figs acc f (upd (fun s => he_stat__add_cpumode_period s cpumode p)
                       (set_map m (upd (fun s => he_stat__add_period s p w) he))))
    (figs acc f he + if self || acc then gives f cpumode p w else 0).
Proof.
  intros Hc Ha. destruct acc; cbn.
  - rewrite (Hc eq_refl) in *. destruct (Ha eq_refl) as [a ->]. cbn. rewrite orb_true_r. apply fig_sample.
  - rewrite orb_false_r. destruct self; [apply fig_sample|by rewrite Z.add_0_r].
Qed.

Lemma chain_period_put (self : bool) he p h :
  exists a b, (if self then hist_entry__add_callchain_period conf he p h else h) = put_chain_periods a b h.
Proof.
  assert (Hid : h = put_chain_periods (callchain_period h) (callchain_non_filtered_period h) h) by (by destruct h).
  unfold hist_entry__add_callchain_period. destruct self; [|by do 2 eexists]. destruct (_ || _); by do 2 eexists.
Qed.

Definition sampled (entry : hist_entry) : Prop := exists p w, stat entry = HeStat p 0 0 0 0 w 1 /\ stat_acc entry = None /\
  he_callchain entry = callchain_init.

Lemma elem_mid {A} (l1 : list A) a l2 : a ∈ l1 ++ a :: l2.
Proof. apply elem_of_app. right. by constructor. Qed.

Lemma Forall_mid {A} (P : A -> Prop) l1 a b l2 : Forall P (l1 ++ a :: l2) -> P b -> Forall P (l1 ++ b :: l2).
Proof. rewrite !Forall_app, !Forall_cons. tauto. Qed.

Lemma rows_elem m ids es x e : rows m ids es -> x ∈ ids -> m !! x = Some e -> e ∈ es.
Proof.
  intros Hr Hx Ex. induction Hr as [|y e' ids es Hy Hr IH]; [by apply not_elem_of_nil in Hx|].
  apply elem_of_cons in Hx as [->|Hx]; [|constructor; by apply IH]. rewrite Hy in Ex. injection Ex as ->. constructor.
Qed.

Lemma findnew_found entry cpumode self h es ids1 x ids2 es1 he es2 :
  in_table h es -> ok entry ->
  elems (tree_in h) = ids1 ++ x :: ids2 -> es = es1 ++ he :: es2 -> rows (ents h) ids1 es1 -> rows (ents h) ids2 es2 ->
  ents h !! x = Some he -> cmp he entry = 0 ->
  descend (fun y => e ← ents h !! y; Some (cmp e entry)) (next_ent h) (tree_in h) = Some (inl x) ->
  exists h' es', hists__findnew_entry conf fmts alloc_ok entry cpumode self h = Some (Some x, h') /\
    added entry cpumode self h h' es es' x.
Proof.
  intros Ht He Ei Ees R1 R2 Ex Ez Ed. unfold hists__findnew_entry. rewrite Ed. cbn [mbind option_bind]. rewrite Ex.
  cbn [mbind option_bind]. set (p := period (stat entry)). set (w := weight (stat entry)).
  destruct (chain_period_put self he p h) as (a & b & ->).
  assert (Hin : he ∈ es) by (rewrite Ees; apply elem_mid).
  assert (Okh : ok he) by (pose proof (it_ok _ _ Ht) as Hf; rewrite Forall_forall in Hf; by apply Hf).
  assert (Hacc : cumulate_callchain conf = true -> is_Some (stat_acc he)).
  { intros Hc. pose proof (it_acc _ _ Ht Hc) as Hf. rewrite Forall_forall in Hf. by apply Hf. }
  destruct (on_figures_ok self (fun s => he_stat__add_period s p w) he Hacc) as (e1 & -> & E1). cbn [mbind option_bind].
  set (m1 := set_map (ms_map entry) e1).
  assert (Hacc1 : cumulate_callchain conf = true -> is_Some (stat_acc m1)).
  { intros Hc. subst m1 e1. cbn. rewrite Hc. by apply fmap_is_Some, Hacc. }
  destruct (on_figures_ok self (fun s => he_stat__add_cpumode_period s cpumode p) m1 Hacc1) as (e2 & -> & E2).
  cbn [mbind option_bind]. do 2 eexists. split; [reflexivity|].
  assert (Hk : same_key (ok := ok) cmp he e2).
  { apply (refreshed_same sym_at cmp he e1 e2 entry); [|subst e2; apply recasts_stats|done..]. subst e1. apply recasts_stats. }
  assert (Hsn : has_callchains e2 = has_callchains he) by (by subst e2 m1 e1).
  pose proof (it_nodup _ _ Ht) as Hn. rewrite Ei in Hn.
  assert (Ha2 : cumulate_callchain conf = true -> is_Some (stat_acc e2)).
  { intros Hc. subst e2. cbn. rewrite Hc. by apply fmap_is_Some, Hacc1. }
  split with (es' := es1 ++ e2 :: es2).
  - destruct Ht as [_ T2 T3 _ T5 T6 T7]. subst es. split; cbn.
    + change (tree_in (put_ent x e2 (put_chain_periods a b h))) with (tree_in h). rewrite Ei. by apply rows_insert; [apply ids_mid in Hn as []..| |].
    + eapply Forall_mid; [exact T2|apply Hk].
    + eapply (same_key_ordered (ok := ok) cmp he e2); [exact Hk|done| |exact T3]. rewrite Forall_app, Forall_cons in T2. rewrite Forall_app. tauto.
    + change (tree_in (put_ent x e2 (put_chain_periods a b h))) with (tree_in h). by rewrite Ei.
    + intros y [v Hv]. apply T5. destruct (decide (y = x)) as [->|Hne]; [by rewrite Ex|]. rewrite lookup_insert_ne in Hv by done. by eexists.
    + intros Hc. eapply Forall_mid; [by apply T6|by apply Ha2].
    + intros Hc. eapply Forall_mid; [by apply T7|]. rewrite Hsn. specialize (T7 Hc). rewrite Forall_app, Forall_cons in T7. tauto.
  - exists e2. split; [by apply lookup_insert_eq|]. split; [|split; [apply elem_mid|]].
    + change (tree_in (put_ent x e2 (put_chain_periods a b h))) with (tree_in h). rewrite Ei. apply elem_mid.
    + pose proof (same_key_zero (ok := ok) cmp he e2 entry Hk He) as Hz. rewrite Ez in Hz. by apply Z.eqb_eq in Hz.
  - intros acc f P HP Hac. subst es. rewrite <- (HP he entry Okh He Ez).
    etransitivity; [eapply (amount_update P (figs acc f) f _ he e2 _ (if self || acc then gives f cpumode p w else 0))|].
    + exact (same_by_key P he e2 _ HP Okh Hk).
    + subst e2 m1 e1. by apply figs_found.
    + destruct (P he); reflexivity.
  - intros k Hok. subst es. rewrite !has_key_mid.
    pose proof (same_key_zero (ok := ok) cmp he e2 k Hk Hok) as Hz.
    pose proof (ord_eq_l (ok := ok) (cmp := cmp) he entry k Okh He Hok Ez) as Hs.
    destruct (Z.eqb_spec (cmp e2 k) 0), (Z.eqb_spec (cmp he k) 0); try done; split; intros; intuition lia.
  - by split.
  - by destruct (entries_in h).
  - intros y Hy. cbn. rewrite lookup_insert_ne; [done|]. intros <-.
    apply Hy. change (tree_in (put_ent x e2 (put_chain_periods a b h))) with (tree_in h). rewrite Ei. apply elem_mid.
  - right. split; [done|]. subst es. rewrite !zlen_app, !zlen_cons. lia.
  - intros y Hy. by left.
  - done.
  - intros y e Hy Ey. cbn. destruct (decide (y = x)) as [->|Hne].
    + assert (e = he) as -> by congruence. exists e2. rewrite lookup_insert_eq. split; [done|]. split; [done|].
      split; [done|]. by subst e2 m1 e1.
    + exists e. rewrite lookup_insert_ne by done. split; [done|]. split; [done|]. split; [|done]. split; [|done].
      pose proof (it_ok _ _ Ht) as Hf. rewrite Forall_forall in Hf. apply Hf. by eapply rows_elem; [apply Ht|..].
  - intros y e Hy Hny. done.
Qed.

Lemma rows_known m ids es x : rows m ids es -> x ∈ ids -> is_Some (m !! x).
Proof. intros Hr. induction Hr as [|y e ids es Hy Hr IH]; [by intros ?%not_elem_of_nil|]. intros [->|Hx]%elem_of_cons; [by eexists|by apply IH]. Qed.

(** The first figures of a row. *)
Lemma figs_new (self acc : bool) f e e1 cpumode p w :
  (acc = true -> cumulate_callchain conf = true) -> (self = true \/ cumulate_callchain conf = true) ->
  stat e = HeStat p 0 0 0 0 w 1 -> stat e1 = (if cumulate_callchain conf && negb self then no_figures else stat e) ->
  stat_acc e1 = (if cumulate_callchain conf then Some (stat e) else None) ->
  eqf f (figs acc f (set_stats (if self then he_stat__add_cpumode_period (stat e1) cpumode p else stat e1)
    (if cumulate_callchain conf then (fun s => he_stat__add_cpumode_period s cpumode p) <$> stat_acc e1 else stat_acc e1) e1))
    (if self || acc then gives f cpumode p w else 0).
Proof.
  intros Hc Hs E E1 E2. destruct acc; cbn.
  - rewrite (Hc eq_refl) in *. rewrite E2, E, orb_true_r. cbn. apply fig_first.
  - rewrite orb_false_r, E1. destruct self; [rewrite andb_false_r, E; apply fig_first|].
    destruct Hs as [|Hs]; [done|]. rewrite Hs. cbn. by destruct f.
Qed.

Lemma findnew_new entry cpumode self h es t' ids1 ids2 es1 es2 :
  in_table h es -> ok entry -> sampled entry -> (self = true \/ cumulate_callchain conf = true) ->
  elems (tree_in h) = ids1 ++ ids2 -> elems t' = ids1 ++ next_ent h :: ids2 -> es = es1 ++ es2 ->
  rows (ents h) ids1 es1 -> rows (ents h) ids2 es2 ->
  Forall (fun a => 0 < cmp a entry) es1 -> Forall (fun b => cmp b entry < 0) es2 ->
  descend (fun y => e ← ents h !! y; Some (cmp e entry)) (next_ent h) (tree_in h) = Some (inr t') ->
  exists h' es', hists__findnew_entry conf fmts alloc_ok entry cpumode self h = Some (Some (next_ent h), h') /\
    added entry cpumode self h h' es es' (next_ent h).
Proof.
  intros Ht He (p & w & Es & Ea & Ec) Hsc Ei Et Ees R1 R2 F1 F2 Ed. unfold hists__findnew_entry. rewrite Ed, Es.
  cbn [mbind option_bind period weight].
  destruct (hist_entry__new_ok entry self h Ea) as (h1 & e1 & -> & Hr1 & S1 & S2 & S3 & _ & S4 & al & ->).
  destruct (chain_period_put self e1 p (put_cursor (cursor h) al h)) as (a & b & ->). cbn [mbind option_bind].
  assert (Ha1 : cumulate_callchain conf = true -> is_Some (stat_acc e1)) by (intros Hc; rewrite S2, Hc; by eexists).
  destruct (on_figures_ok self (fun s => he_stat__add_cpumode_period s cpumode p) e1 Ha1) as (e2 & -> & E2).
  cbn [mbind option_bind]. change (next_ent (put_nr _ _ _)) with (next_ent h).
  set (h2 := put_ent _ e2 _). exists h2, (es1 ++ e2 :: es2). split; [done|].
  assert (Hin : elems (tree_in h2) = ids1 ++ next_ent h :: ids2).
  { unfold h2, tree_in. cbn. destruct (entries_in h); cbn; by rewrite rb_insert_color_elems, Et. }
  assert (Hr2 : recasts entry e2) by (eapply recasts_trans; [exact Hr1|subst e2; apply recasts_stats]).
  pose proof (recasts_same sym_at cmp entry e2 Hr2 He) as Hk.
  assert (Hcmp : forall c, cmp e2 c = cmp entry c) by (intros c; by apply (recasts_cmp sym_at cmp)).
  assert (Hx : next_ent h ∉ ids1 ++ ids2).
  { intros Hx. rewrite <- Ei in Hx. pose proof (it_fresh _ _ Ht _ (rows_known _ _ _ _ (it_rows _ _ Ht) Hx)). lia. }
  pose proof (it_ok _ _ Ht) as T2. rewrite Ees, Forall_app in T2. destruct T2 as [O1 O2].
  split.
  - destruct Ht as [_ _ T3 T4 T5 T6 T7]. subst es. split.
    + rewrite not_elem_of_app in Hx. rewrite Hin. unfold h2. cbn. apply rows_insert; tauto.
    + apply Forall_app. split; [done|]. constructor; [apply Hk|done].
    + eapply (same_key_ordered (ok := ok) cmp entry e2 es1 es2 Hk He); [by apply Forall_app|]. by apply (ordered_insert (ok := ok) cmp).
    + rewrite Hin. apply (NoDup_Permutation_proper _ (next_ent h :: (ids1 ++ ids2))); [by rewrite Permutation_middle|].
      constructor; [done|by rewrite <- Ei].
    + unfold h2. cbn. intros y [v Hv]. destruct (decide (y = next_ent h)) as [->|Hne]; [lia|].
      rewrite lookup_insert_ne in Hv by done. pose proof (T5 y ltac:(by eexists)). lia.
    + intros Hc. specialize (T6 Hc). rewrite Forall_app in T6 |- *. rewrite Forall_cons. split; [tauto|]. split; [|tauto].
      subst e2. cbn. rewrite Hc. by apply fmap_is_Some, Ha1.
    + intros Hc. specialize (T7 Hc). rewrite Forall_app in T7 |- *. rewrite Forall_cons. split; [tauto|]. split; [|tauto].
      subst e2. cbn. by rewrite S3.
  - exists e2. unfold h2 at 1. cbn. split; [by rewrite lookup_insert_eq|]. rewrite Hin. split; [apply elem_mid|].
    split; [apply elem_mid|]. rewrite Hcmp. by apply ord_refl.
  - intros acc f P HP Hac. subst es. rewrite amount_mid, amount_app, Es. cbn [period weight].
    rewrite (same_by_key P entry e2 _ HP He Hk). destruct (P entry); cbn [andb]; [|by rewrite !Z.add_0_r].
    pose proof (figs_new self acc f entry e1 cpumode p w Hac Hsc Es S1 S2) as Hf. rewrite <- E2 in Hf. rewrite Hf.
    replace (_ + _ + _) with (amount P (figs acc f) es1 + amount P (figs acc f) es2 +
      (if self || acc then gives f cpumode p w else 0)) by lia. reflexivity.
  - intros k Hok. subst es. by rewrite has_key_mid, Hcmp.
  - by split.
  - unfold h2, put_tree_in. cbn. by destruct (entries_in h).
  - intros y Hy. rewrite Hin in Hy. unfold h2. cbn. rewrite lookup_insert_ne; [done|]. intros <-. apply Hy, elem_mid.
  - left. unfold h2. cbn. subst es. rewrite !zlen_app, !zlen_cons. f_equal. lia.
  - intros y Hy. rewrite Hin in Hy. rewrite Ei. unfold h2. cbn. rewrite elem_of_app, elem_of_cons in Hy. rewrite elem_of_app. tauto.
  - unfold h2. cbn. lia.
  - intros y e Hy Ey. rewrite Hin. exists e. unfold h2. cbn. rewrite lookup_insert_ne by (intros <-; by rewrite <- Ei in Hx).
    split; [done|]. split; [|split; [split; [|done]|done]].
    + rewrite Ei in Hy. rewrite elem_of_app, elem_of_cons. apply elem_of_app in Hy. tauto.
    + pose proof (it_ok _ _ Ht) as Hf. rewrite Forall_forall in Hf. apply Hf. by eapply rows_elem; [apply Ht|..].
  - intros y e Hy Hny Ey. rewrite Hin, elem_of_app, elem_of_cons in Hy. rewrite Ei, elem_of_app in Hny.
    destruct Hy as [|[->|]]; [tauto| |tauto]. unfold h2 in Ey. cbn in Ey. rewrite lookup_insert_eq in Ey.
    injection Ey as <-. subst e2. cbn. by apply S4.
Qed.

(** Looking for the entry of a sample always gives one, and adds the sample to it. *)
Lemma findnew_ok entry cpumode self h es :
  in_table h es -> ok entry -> sampled entry -> (self = true \/ cumulate_callchain conf = true) ->
  exists x h' es', hists__findnew_entry conf fmts alloc_ok entry cpumode self h = Some (Some x, h') /\
    added entry cpumode self h h' es es' x.
Proof.
  intros Ht He Hsm Hsc.
  pose proof (descend_spec (ok := ok) cmp (ents h) entry (next_ent h) (tree_in h) es (it_rows _ _ Ht) (it_ok _ _ Ht)
    (it_ordered _ _ Ht) He) as Hd.
  remember (descend _ (next_ent h) (tree_in h)) as r eqn:Er. symmetry in Er.
  destruct Hd as [ids1 x ids2 es1 he es2 E1 E2 R1 R2 Ex Ez|t' ids1 ids2 es1 es2 E1 E2 E3 R1 R2 F1 F2].
  - exists x. by eapply findnew_found.
  - exists (next_ent h). by eapply findnew_new.
Qed.

(** ** Any number of samples *)

(** The arguments of hists__add_entry. *)
Record add_call := AddCall {
  c_al : addr_location;
  c_parent : option hist_symbol;
  c_branch : option branch_info;
  c_mem : option mem_info;
  c_sample : hist_sample;
  c_self : bool
}.
Definition wanted (c : add_call) : hist_entry :=
  template_of conf (c_al c) (c_parent c) (c_branch c) (c_mem c) (c_sample c).
Definition call_ok (c : add_call) : Prop := ok (wanted c) /\ (c_self c = true \/ cumulate_callchain conf = true).

Fixpoint add_all (cs : list add_call) (h : hists) : option hists :=
  match cs with
  | [] => Some h
  | c :: cs =>
      '(_, h) ← hists__add_entry conf fmts alloc_ok (c_al c) (c_parent c) (c_branch c) (c_mem c) (c_sample c) (c_self c) h;
      add_all cs h
  end.

(** What the samples that [P] selects add up to. *)
Definition given (acc : bool) (f : figure) (P : hist_entry -> bool) (cs : list add_call) : Z :=
  foldr (fun c n =>
    (if P (wanted c) && (c_self c || acc)
     then gives f (a_cpumode (c_al c)) (sm_period (c_sample c)) (sm_weight (c_sample c)) else 0) + n) 0 cs.

Lemma add_entry_ok c h es : in_table h es -> call_ok c ->
  exists x h' es', hists__add_entry conf fmts alloc_ok (c_al c) (c_parent c) (c_branch c) (c_mem c) (c_sample c) (c_self c) h =
    Some (Some x, h') /\ added (wanted c) (a_cpumode (c_al c)) (c_self c) h h' es es' x.
Proof.
  intros Ht [Ho Hs]. unfold hists__add_entry. fold (wanted c).
  destruct (findnew_ok (wanted c) (a_cpumode (c_al c)) (c_self c) h es Ht Ho) as (x & h' & es' & -> & Ha); [|done|].
  { by exists (sm_period (c_sample c)), (sm_weight (c_sample c)). }
  destruct (ad_row _ _ _ _ _ _ _ _ Ha) as (he & Ex & _). cbn. rewrite Ex. cbn.
  assert (Hput : forall b, added (wanted c) (a_cpumode (c_al c)) (c_self c) h (put_any b h') es es' x).
  { intros b. destruct Ha as [[] A2 A3 A4 [] A6 A7 A8 A9 A10 A11 A12]. by split; [split| | | |split|..]. }
  destruct (negb _ && _); do 3 eexists; (split; [reflexivity|done]).
Qed.

Lemma zlen_wrap_step a b c : wrap 64 (wrap 64 a + (b - c)) = wrap 64 (a + (b - c)).
Proof. unfold wrap. by rewrite Zplus_mod_idemp_l. Qed.

Lemma add_all_ok cs : forall h es, in_table h es -> Forall call_ok cs -> nr_entries h = wrap 64 (zlen es) ->
  exists h' es', add_all cs h = Some h' /\ in_table h' es' /\ kept h h' /\ nr_entries h' = wrap 64 (zlen es') /\
    (if entries_in h then fst (entries_in_array h') = fst (entries_in_array h)
     else snd (entries_in_array h') = snd (entries_in_array h)) /\
    (forall k, ok k -> has_key k es' <-> has_key k es \/ exists c, c ∈ cs /\ cmp (wanted c) k = 0) /\
    forall acc f P, by_key ok cmp P -> (acc = true -> cumulate_callchain conf = true) ->
      eqf f (amount P (figs acc f) es') (amount P (figs acc f) es + given acc f P cs).
Proof.
  induction cs as [|c cs IH]; intros h es Ht Hc Hn.
  - exists h, es. cbn. split; [done|]. split; [done|]. split; [reflexivity|]. split; [done|].
    split; [by destruct (entries_in h)|]. split; [|intros; by rewrite Z.add_0_r].
    intros k _. split; [by left|]. intros [|(c & []%not_elem_of_nil & _)]; done.
  - apply Forall_cons in Hc as [Hc Hcs]. cbn [add_all].
    destruct (add_entry_ok c h es Ht Hc) as (x & h1 & es1 & -> & Ha). cbn [mbind option_bind].
    destruct (IH h1 es1 (ad_table _ _ _ _ _ _ _ _ Ha) Hcs) as (h2 & es2 & -> & T2 & K2 & N2 & O2 & Y2 & A2).
    { destruct (ad_nr _ _ _ _ _ _ _ _ Ha) as [->|[-> ->]]; [|done]. rewrite Hn, zlen_wrap_step. f_equal. lia. }
    pose proof (ad_kept _ _ _ _ _ _ _ _ Ha) as K1. exists h2, es2. split; [done|]. split; [done|].
    split; [by etransitivity|]. split; [done|].
    pose proof (ad_other _ _ _ _ _ _ _ _ Ha) as O1. rewrite (kept_which _ _ K1) in O2.
    split; [destruct (entries_in h); congruence|]. split.
    { intros k Hk. rewrite (Y2 k Hk), (ad_keys _ _ _ _ _ _ _ _ Ha k Hk). setoid_rewrite elem_of_cons. split.
      - intros [[|]|(c0 & ? & ?)]; eauto 6.
      - intros [|(c0 & [->|] & ?)]; eauto 6. }
    intros acc f P HP Hac.
    rewrite A2, (ad_amount _ _ _ _ _ _ _ _ Ha) by done. cbn [given foldr]. fold (given acc f P cs).
    rewrite <- Z.add_assoc. reflexivity.
Qed.

(** An empty histogram. *)
Record fresh_hists (h : hists) : Prop := {
  fr_ents : ents h = ∅;
  fr_in : entries_in_array h = (eleaf, eleaf);
  fr_out : entries h = eleaf;
  fr_collapsed : entries_collapsed h = eleaf;
  fr_nr : nr_entries h = 0
}.

Lemma fresh_table h : fresh_hists h -> in_table h [].
Proof.
  intros [E1 E2 _ _ _]. assert (Et : tree_in h = eleaf) by (unfold tree_in; rewrite E2; by destruct (entries_in h)).
  split; rewrite ?Et; try done; try constructor. intros x. rewrite E1, lookup_empty. by intros [].
Qed.


End Adding.
