(* ===== verification/HistReport.v ===== *)
(** From the histogram to the report: collapsing, the sorted output with its totals,
    filters and decay, on the tables of [HistSpec]; then one theorem from the
    samples to the rows of the report. *)

From S2P Require Import Prelude Callchain SortKeys Hists HistSpec.

Lemma rows_agree (m m' : gmap nat hist_entry) ids es : (forall y, y ∈ ids -> m' !! y = m !! y) -> rows m ids es -> rows m' ids es.
Proof.
  intros Ha Hr. induction Hr as [|y e ids es Hy Hr IH]; [constructor|].
  constructor; [rewrite Ha; [done|by constructor]|]. apply IH. intros z Hz. apply Ha. by constructor.
Qed.

Lemma apply_filters_set h e : exists f, hists__apply_filters h e = set_filtered f e.
Proof.
  assert (Hid : forall e : hist_entry, e = set_filtered (filtered e) e) by (by intros []).
  assert (H1 : forall e, exists f, fst (hists__filter_entry_by_dso h e) = set_filtered f e).
  { intros e0. unfold hists__filter_entry_by_dso. destruct (dso_filter h); [|by eexists].
    destruct (ms_map e0 ≫= map_dso); [destruct (_ =? _)|]; by eexists. }
  assert (H2 : forall e, exists f, fst (hists__filter_entry_by_thread h e) = set_filtered f e).
  { intros e0. unfold hists__filter_entry_by_thread. destruct (thread_filter h); [destruct (_ =? _)|]; by eexists. }
  assert (H3 : forall e, exists f, fst (hists__filter_entry_by_symbol h e) = set_filtered f e).
  { intros e0. unfold hists__filter_entry_by_symbol. destruct (symbol_filter_str h); [|by eexists].
    destruct (ms_sym e0); [destruct (strstr _ _)|]; by eexists. }
  assert (H4 : forall e, exists f, fst (hists__filter_entry_by_socket h e) = set_filtered f e).
  { intros e0. unfold hists__filter_entry_by_socket. destruct (_ && _); by eexists. }
  unfold hists__apply_filters. destruct (H1 e) as [f1 ->]. destruct (H2 (set_filtered f1 e)) as [f2 ->].
  destruct (H3 (set_filtered f2 (set_filtered f1 e))) as [f3 ->].
  destruct (H4 (set_filtered f3 (set_filtered f2 (set_filtered f1 e)))) as [f4 ->]. by exists f4.
Qed.

(** * Collapsing *)

Section Collapsing.
Context `{EntryTree} `{ChainTree}.
Context (conf : symbol_conf) (fmts : list perf_hpp_fmt) (alloc_ok : nat -> bool) (key : chain_key).
Context (sym_at : Z -> hist_symbol) `{!SortKey sym_at (hist_entry__collapse fmts)}.
Context (no_chains : use_callchain conf = false).
Abbreviation ok := (entry_ok sym_at).
Abbreviation coll := (hist_entry__collapse fmts).

(** The tree [t] shows the table [es]. *)
Record table (m : gmap nat hist_entry) (t : etree) (es : list hist_entry) : Prop := {
  tb_rows : rows m (elems t) es;
  tb_ok : Forall ok es;
  tb_ordered : ordered coll es;
  tb_nodup : NoDup (elems t);
  tb_acc : cumulate_callchain conf = true -> Forall (fun e => is_Some (stat_acc e)) es
}.

Definition keyed (k : hist_entry) (es : list hist_entry) : Prop := exists e, e ∈ es /\ coll e k = 0.

(** What an entry does to the table it goes into. *)
Record collapsed_into (n : nat) (he : hist_entry) (h h' : hists) (es es' : list hist_entry) (ret : Z) : Prop := {
  ci_table : table (ents h') (entries_collapsed h') es';
  ci_amount acc f P : by_key ok coll P -> (acc = true -> cumulate_callchain conf = true) ->
    eqf f (amount P (figs acc f) es') (amount P (figs acc f) es + if P he then figs acc f he else 0);
  ci_keys k : ok k -> keyed k es' <-> keyed k es \/ coll he k = 0;
  ci_ents y : y <> n -> y ∉ elems (entries_collapsed h) -> ents h' !! y = ents h !! y;
  ci_ret : ret = 0 \/ ret = 1 /\ exists ids1 ids2 es1 es2, elems (entries_collapsed h') = ids1 ++ n :: ids2 /\
    es' = es1 ++ he :: es2 /\ rows (ents h') ids1 es1 /\ rows (ents h') ids2 es2 /\ ents h' !! n = Some he;
  ci_ids y : y ∈ elems (entries_collapsed h') -> y = n \/ y ∈ elems (entries_collapsed h);
  ci_need : need_collapse h' = need_collapse h;
  ci_nr : nr_entries h = wrap 64 (zlen es) -> nr_entries h' = wrap 64 (zlen es')
}.

Lemma keyed_mid k l1 a l2 : keyed k (l1 ++ a :: l2) <-> keyed k (l1 ++ l2) \/ coll a k = 0.
Proof.
  unfold keyed. setoid_rewrite elem_of_app. setoid_rewrite elem_of_cons. split.
  - intros (e & [He|[->|He]] & Hz); eauto.
  - intros [(e & [He|He] & Hz)|Hz]; eauto 6.
Qed.

Lemma rows_delete (m : gmap nat hist_entry) x ids es : x ∉ ids -> rows m ids es -> rows (delete x m) ids es.
Proof.
  intros Hx Hr. induction Hr as [|y e' ids es Hy Hr IH]; [constructor|]. apply not_elem_of_cons in Hx as [Hne Hx].
  constructor; [by rewrite lookup_delete_ne|by apply IH].
Qed.

Lemma figs_merge (acc : bool) f a b e : (acc = true -> cumulate_callchain conf = true) ->
  (cumulate_callchain conf = true -> is_Some (stat_acc a)) -> (cumulate_callchain conf = true -> is_Some (stat_acc b)) ->
  stat e = he_stat__add_stat (stat a) (stat b) ->
  (cumulate_callchain conf = true -> stat_acc e = (x ← stat_acc a; y ← stat_acc b; Some (he_stat__add_stat x y))) ->
  eqf f (figs acc f e) (figs acc f a + figs acc f b).
Proof.
  intros Hc Ha Hb Es Ea. destruct acc; cbn.
  - specialize (Hc eq_refl). rewrite (Ea Hc). destruct (Ha Hc) as [x ->], (Hb Hc) as [y ->]. cbn. apply fig_add_stat.
  - rewrite Es. apply fig_add_stat.
Qed.

(** An equal entry is there: it takes the figures. *)
Lemma collapse_found n he h es ids1 x ids2 es1 it es2 :
  table (ents h) (entries_collapsed h) es -> ents h !! n = Some he -> n ∉ elems (entries_collapsed h) -> ok he ->
  (cumulate_callchain conf = true -> is_Some (stat_acc he)) ->
  elems (entries_collapsed h) = ids1 ++ x :: ids2 -> es = es1 ++ it :: es2 ->
  rows (ents h) ids1 es1 -> rows (ents h) ids2 es2 -> ents h !! x = Some it -> coll it he = 0 ->
  descend (fun y => e ← ents h !! y; Some (coll e he)) n (entries_collapsed h) = Some (inl x) ->
  exists h' es', hists__collapse_insert_entry conf fmts alloc_ok key n h = Some (0, h') /\
    collapsed_into n he h h' es es' 0.
Proof.
  intros Ht En Hn Ho Ha Ei Ees R1 R2 Ex Ez Ed. unfold hists__collapse_insert_entry. rewrite En. cbn [mbind option_bind].
  rewrite Ed. cbn [mbind option_bind]. rewrite Ex, no_chains, andb_false_r. cbn [mbind option_bind].
  pose proof (tb_ok _ _ _ Ht) as T2. assert (Oit : ok it) by (rewrite Ees, Forall_app, Forall_cons in T2; tauto).
  assert (Hi : cumulate_callchain conf = true -> is_Some (stat_acc it)).
  { intros Hc. pose proof (tb_acc _ _ _ Ht Hc) as T5. rewrite Ees, Forall_app, Forall_cons in T5. tauto. }
  assert (Hacc : exists acc', (if cumulate_callchain conf
             then a ← stat_acc it; b ← stat_acc he; Some (Some (he_stat__add_stat a b)) else Some (stat_acc it)) = Some acc' /\
     (cumulate_callchain conf = true -> acc' = (a ← stat_acc it; b ← stat_acc he; Some (he_stat__add_stat a b)))).
  { destruct (cumulate_callchain conf); [|by eexists]. destruct (Hi eq_refl) as [a ->], (Ha eq_refl) as [b ->]. by eexists. }
  destruct Hacc as (acc' & -> & Eacc). cbn [mbind option_bind]. set (it' := set_stats _ acc' it).
  pose proof (recasts_same sym_at coll it it' (recasts_stats _ _ _) Oit) as Hk.
  assert (Hxn : x <> n) by (intros ->; apply Hn; rewrite Ei; apply elem_mid).
  assert (Hn' : (n ∉ ids1) /\ (n ∉ ids2)) by (rewrite Ei, not_elem_of_app, not_elem_of_cons in Hn; tauto).
  pose proof (tb_nodup _ _ _ Ht) as T4. rewrite Ei in T4. destruct (ids_mid _ _ _ T4) as [X1 X2].
  do 2 eexists. split; [reflexivity|]. split with (es' := es1 ++ it' :: es2); cbn [ents entries_collapsed hist_entry__delete put_ents put_ent need_collapse nr_entries].
  - destruct Ht as [_ _ T3 _ T5]. subst es. split.
    + rewrite Ei. apply rows_delete; [by rewrite <- Ei|]. by apply rows_insert.
    + eapply Forall_mid; [exact T2|apply Hk].
    + eapply (same_key_ordered (ok := ok) coll it it'); [exact Hk|done| |exact T3].
      rewrite Forall_app, Forall_cons in T2. rewrite Forall_app. tauto.
    + by rewrite Ei.
    + intros Hc. eapply Forall_mid; [by apply T5|]. unfold it'. cbn. rewrite (Eacc Hc).
      destruct (Hi Hc) as [a ->], (Ha Hc) as [b ->]. by eexists.
  - intros acc f P HP Hc. subst es. rewrite <- (HP it he Oit Ho Ez).
    apply (amount_update P (figs acc f) f _ it it' _ (figs acc f he)); [exact (same_by_key P it it' _ HP Oit Hk)|].
    by apply figs_merge.
  - intros k Hok. subst es. rewrite !keyed_mid. pose proof (same_key_zero (ok := ok) coll it it' k Hk Hok) as Hz.
    pose proof (ord_eq_l (ok := ok) (cmp := coll) it he k Oit Ho Hok Ez) as Hs.
    destruct (Z.eqb_spec (coll it' k) 0), (Z.eqb_spec (coll it k) 0); try done; split; intros; intuition lia.
  - intros y Hy Hyc. rewrite lookup_delete_ne, lookup_insert_ne; [done| |done].
    intros <-. apply Hyc. rewrite Ei. apply elem_mid.
  - by left.
  - by right.
  - done.
  - intros ->. subst es. by rewrite !zlen_app, !zlen_cons.
Qed.

(** There is none: the entry goes into the tree. *)
Lemma collapse_new n he h es t' ids1 ids2 es1 es2 :
  table (ents h) (entries_collapsed h) es -> ents h !! n = Some he -> n ∉ elems (entries_collapsed h) -> ok he ->
  (cumulate_callchain conf = true -> is_Some (stat_acc he)) ->
  elems (entries_collapsed h) = ids1 ++ ids2 -> elems t' = ids1 ++ n :: ids2 -> es = es1 ++ es2 ->
  rows (ents h) ids1 es1 -> rows (ents h) ids2 es2 ->
  Forall (fun a => 0 < coll a he) es1 -> Forall (fun b => coll b he < 0) es2 ->
  descend (fun y => e ← ents h !! y; Some (coll e he)) n (entries_collapsed h) = Some (inr t') ->
  exists h' es', hists__collapse_insert_entry conf fmts alloc_ok key n h = Some (1, h') /\
    collapsed_into n he h h' es es' 1.
Proof.
  intros Ht En Hn Ho Ha Ei Et Ees R1 R2 F1 F2 Ed. unfold hists__collapse_insert_entry. rewrite En. cbn [mbind option_bind].
  rewrite Ed. cbn [mbind option_bind]. do 2 eexists. split; [reflexivity|].
  pose proof (tb_ok _ _ _ Ht) as T2. rewrite Ees, Forall_app in T2. destruct T2 as [O1 O2].
  set (h' := put_collapsed _ _). assert (Ein : elems (entries_collapsed h') = ids1 ++ n :: ids2).
  { unfold h'. cbn. by rewrite rb_insert_color_elems. }
  split with (es' := es1 ++ he :: es2).
  - destruct Ht as [_ _ T3 T4 T5]. subst es. split; rewrite ?Ein; change (ents h') with (ents h).
    + apply Forall2_app; [done|by constructor].
    + apply Forall_app. split; [done|by constructor].
    + by apply (ordered_insert (ok := ok) coll).
    + rewrite <- Permutation_middle, <- Ei. by constructor.
    + intros Hc. specialize (T5 Hc). rewrite Forall_app in T5 |- *. rewrite Forall_cons. specialize (Ha Hc). tauto.
  - intros acc f P HP Hc. subst es. rewrite amount_mid, amount_app.
    replace (_ + _ + _) with (amount P (figs acc f) es1 + amount P (figs acc f) es2 + (if P he then figs acc f he else 0)) by lia.
    reflexivity.
  - intros k Hok. subst es. by rewrite keyed_mid.
  - done.
  - right. split; [done|]. by exists ids1, ids2, es1, es2.
  - intros y. rewrite Ein, Ei, !elem_of_app, elem_of_cons. tauto.
  - done.
  - intros Hnr. unfold h'. cbn. rewrite Hnr. subst es. rewrite !zlen_app, !zlen_cons.
    unfold wrap. rewrite Zplus_mod_idemp_l. f_equal. lia.
Qed.

Lemma collapse_insert_ok n he h es :
  table (ents h) (entries_collapsed h) es -> ents h !! n = Some he -> n ∉ elems (entries_collapsed h) -> ok he ->
  (cumulate_callchain conf = true -> is_Some (stat_acc he)) ->
  exists ret h' es', hists__collapse_insert_entry conf fmts alloc_ok key n h = Some (ret, h') /\
    collapsed_into n he h h' es es' ret.
Proof.
  intros Ht En Hn Ho Ha.
  pose proof (descend_spec (ok := ok) coll (ents h) he n (entries_collapsed h) es (tb_rows _ _ _ Ht) (tb_ok _ _ _ Ht)
    (tb_ordered _ _ _ Ht) Ho) as Hd.
  remember (descend _ n (entries_collapsed h)) as r eqn:Er. symmetry in Er.
  destruct Hd as [ids1 x ids2 es1 it es2 E1 E2 R1 R2 Ex Ez|t' ids1 ids2 es1 es2 E1 E2 E3 R1 R2 F1 F2].
  - exists 0. by eapply collapse_found.
  - exists 1. by eapply collapse_new.
Qed.

(** The filters mark an entry of the table. *)
Lemma collapsed_filtered n he h h' es es' f : collapsed_into n he h h' es es' 1 ->
  exists es'', collapsed_into n he h (put_ent n (set_filtered f he) h') es es'' 0.
Proof.
  intros [[T1 T2 T3 T4 T5] A K E R I N Nr].
  destruct R as [R|(_ & ids1 & ids2 & es1 & es2 & Ei & -> & R1 & R2 & En)]; [done|].
  assert (Oh : ok he) by (rewrite Forall_app, Forall_cons in T2; tauto).
  pose proof (recasts_same sym_at coll he _ (recasts_filtered f he) Oh) as Hk.
  rewrite Ei in T4. destruct (ids_mid _ _ _ T4) as [X1 X2].
  exists (es1 ++ set_filtered f he :: es2). split; cbn [put_ent put_ents ents entries_collapsed need_collapse nr_entries].
  - split; rewrite ?Ei; [by apply rows_insert| | |done|].
    + eapply Forall_mid; [exact T2|apply Hk].
    + eapply (same_key_ordered (ok := ok) coll he); [exact Hk|done| |exact T3].
      rewrite Forall_app, Forall_cons in T2. rewrite Forall_app. tauto.
    + intros Hc. specialize (T5 Hc). eapply Forall_mid; [exact T5|]. rewrite Forall_app, Forall_cons in T5. apply T5.
  - intros acc g P HP Hc. rewrite <- (A acc g P HP Hc), !amount_mid, (same_by_key P he _ _ HP Oh Hk). reflexivity.
  - intros k Hok. rewrite <- (K k Hok), !keyed_mid. by rewrite (recasts_cmp sym_at coll he _ k (recasts_filtered f he)).
  - intros y Hy Hyc. rewrite lookup_insert_ne by done. by apply E.
  - by left.
  - done.
  - done.
  - intros Hn. rewrite (Nr Hn), !zlen_app, !zlen_cons. done.
Qed.

Lemma erase_in_same root n h : ents (erase_in root n h) = ents h /\ entries_collapsed (erase_in root n h) = entries_collapsed h /\
  need_collapse (erase_in root n h) = need_collapse h /\ nr_entries (erase_in root n h) = nr_entries h.
Proof. unfold erase_in. by destruct (entries_in_array h). Qed.

Lemma collapse_loop_ok root l : forall els h es,
  table (ents h) (entries_collapsed h) es -> rows (ents h) l els -> Forall ok els -> NoDup l ->
  (forall x, x ∈ l -> x ∉ elems (entries_collapsed h)) ->
  (cumulate_callchain conf = true -> Forall (fun e => is_Some (stat_acc e)) els) ->
  nr_entries h = wrap 64 (zlen es) ->
  exists h' es', collapse_loop conf fmts alloc_ok key (fun _ => false) root l h = Some (0, h') /\
    table (ents h') (entries_collapsed h') es' /\ need_collapse h' = need_collapse h /\ nr_entries h' = wrap 64 (zlen es') /\
    (forall k, ok k -> keyed k es' <-> keyed k es \/ keyed k els) /\
    forall acc f P, by_key ok coll P -> (acc = true -> cumulate_callchain conf = true) ->
      eqf f (amount P (figs acc f) es') (amount P (figs acc f) es + amount P (figs acc f) els).
Proof.
  induction l as [|n l IH]; intros els h es Ht Hr Ho Hn Hd Ha Hnr.
  - inversion Hr; subst. exists h, es. cbn. split; [done|]. split; [done|]. split; [done|]. split; [done|]. split.
    + intros k _. split; [by left|]. intros [|(e & []%not_elem_of_nil & _)]; done.
    + intros. by rewrite Z.add_0_r.
  - apply Forall2_cons_inv_l in Hr as (he & els' & En & Hr & ->). apply Forall_cons in Ho as [Oh Ho].
    apply NoDup_cons in Hn as [Hnl Hn]. cbn [collapse_loop].
    destruct (erase_in_same root n h) as (E1 & E2 & E3 & E4).
    destruct (collapse_insert_ok n he (erase_in root n h) es) as (ret & h1 & es1 & -> & Hc);
      [by rewrite E1, E2|by rewrite E1|rewrite E2; apply Hd; by constructor|done|intros Hcu; by apply Ha, Forall_cons in Hcu as []|].
    cbn [mbind option_bind].
    assert (Hnext : exists h2 es2, collapsed_into n he (erase_in root n h) h2 es es2 0 /\
      (if ret <? 0 then Some (-1, h1) else
       if negb (ret =? 0) then
         e ← ents h1 !! n;
         collapse_loop conf fmts alloc_ok key (fun _ => false) root l (put_ent n (hists__apply_filters h1 e) h1)
       else collapse_loop conf fmts alloc_ok key (fun _ => false) root l h1) =
      collapse_loop conf fmts alloc_ok key (fun _ => false) root l h2).
    { destruct (ci_ret _ _ _ _ _ _ _ Hc) as [->|(-> & _ & _ & _ & _ & _ & _ & _ & _ & En1)]; [by exists h1, es1|].
      cbn. rewrite En1. cbn. destruct (apply_filters_set h1 he) as [f ->].
      destruct (collapsed_filtered n he _ h1 es es1 f Hc) as (es2 & Hc2). by exists (put_ent n (set_filtered f he) h1), es2. }
    destruct Hnext as (h2 & es2 & Hc2 & ->).
    destruct (IH els' h2 es2) as (h3 & es3 & -> & T3 & N3 & Nr3 & K3 & A3).
    + apply (ci_table _ _ _ _ _ _ _ Hc2).
    + apply (rows_agree (ents h)); [|done]. intros y Hy.
      rewrite (ci_ents _ _ _ _ _ _ _ Hc2), E1; [done|by intros ->|]. rewrite E2. apply Hd. by constructor.
    + done.
    + done.
    + intros y Hy [->|Hin]%(ci_ids _ _ _ _ _ _ _ Hc2); [done|]. rewrite E2 in Hin. by apply (Hd y); [constructor|].
    + intros Hcu. specialize (Ha Hcu). by apply Forall_cons in Ha as [].
    + apply (ci_nr _ _ _ _ _ _ _ Hc2). by rewrite E4.
    + exists h3, es3. split; [done|]. split; [done|]. split; [by rewrite N3, (ci_need _ _ _ _ _ _ _ Hc2)|]. split; [done|]. split.
      * intros k Hk. rewrite (K3 k Hk), (ci_keys _ _ _ _ _ _ _ Hc2 k Hk). rewrite (keyed_mid k [] he els'). cbn [app]. tauto.
      * intros acc f P HP Hcu. rewrite (A3 acc f P HP Hcu), (ci_amount _ _ _ _ _ _ _ Hc2 acc f P HP Hcu), amount_cons.
        rewrite <- Z.add_assoc. reflexivity.
Qed.

End Collapsing.

(** * Output *)

(** The figures of the whole histogram are those of its rows. *)
Definition unfiltered (e : hist_entry) : bool := filtered e =? 0.
Definition one (e : hist_entry) : Z := 1.
Definition own_period (e : hist_entry) : Z := period (stat e).

Record totals (h : hists) (es : list hist_entry) : Prop := {
  tt_period : total_period (stats h) = wrap 64 (amount everything own_period es);
  tt_unfiltered : total_non_filtered_period (stats h) = wrap 64 (amount unfiltered own_period es);
  tt_nr : nr_entries h = wrap 64 (amount everything one es);
  tt_nr_unfiltered : nr_non_filtered_entries h = wrap 64 (amount unfiltered one es)
}.

Lemma wrap_step (a b : Z) : wrap 64 (wrap 64 a + b) = wrap 64 (b + a).
Proof. unfold wrap. rewrite Zplus_mod_idemp_l. f_equal. lia. Qed.

Lemma totals_perm h l1 l2 : l1 ≡ₚ l2 -> totals h l1 -> totals h l2.
Proof. intros Hp [A B C D]. split; by rewrite <- (amount_perm _ _ _ _ Hp). Qed.

(** Counting an entry. *)
Lemma inc_stats_totals e h es : totals h es -> totals (hists__inc_stats e h) (e :: es).
Proof.
  intros [A B C D]. unfold hists__inc_stats. split; rewrite amount_cons; unfold everything, unfiltered;
    destruct (filtered e =? 0); cbn -[wrap Z.add amount]; rewrite ?A, ?B, ?C, ?D; rewrite ?wrap_step; done.
Qed.

Section Output.
Context `{EntryTree}.
Context (fmts : list perf_hpp_fmt) (ok : hist_entry -> Prop) `{!Order ok (hist_entry__sort fmts)}.
Abbreviation sort := (hist_entry__sort fmts).

(** No entry is greater than one before it. *)
Definition out_sorted : list hist_entry -> Prop := StronglySorted (fun a b => sort b a <= 0).

Lemma out_sorted_app l1 l2 : out_sorted (l1 ++ l2) <->
  out_sorted l1 /\ out_sorted l2 /\ (forall a b, a ∈ l1 -> b ∈ l2 -> sort b a <= 0).
Proof.
  unfold out_sorted. induction l1 as [|x l1 IH]; cbn.
  - split; [intros Hs; split; [constructor|]; split; [done|]; intros a b Ha; by apply not_elem_of_nil in Ha|tauto].
  - split.
    + intros Hs. apply StronglySorted_inv in Hs as [Hs Hf]. apply IH in Hs as (H1 & H2 & H3).
      apply Forall_app in Hf as [F1 F2]. split; [by constructor|]. split; [done|].
      intros a b [->|Ha]%elem_of_cons Hb; [|by apply H3]. rewrite Forall_forall in F2. by apply F2.
    + intros (H1 & H2 & H3). apply StronglySorted_inv in H1 as [H1 F1]. constructor.
      * apply IH. split; [done|]. split; [done|]. intros a b Ha Hb. apply H3; [by constructor|done].
      * apply Forall_app. split; [done|]. apply Forall_forall. intros b Hb. apply H3; [by constructor|done].
Qed.

Lemma place_spec m e new t : forall es, rows m (elems t) es -> Forall ok es -> out_sorted es -> ok e ->
  exists t' ids1 ids2 es1 es2, place (fun x => he ← m !! x; Some (sort e he)) new t = Some t' /\
    elems t = ids1 ++ ids2 /\ elems t' = ids1 ++ new :: ids2 /\ es = es1 ++ es2 /\ rows m ids1 es1 /\ rows m ids2 es2 /\
    Forall (fun a => sort e a <= 0) es1 /\ Forall (fun b => 0 < sort e b) es2.
Proof.
  induction t as [|l IHl x r IHr]; intros es Hr Hok Hs He.
  - inversion Hr; subst. by exists (enode eleaf new eleaf), [], [], [], [].
  - cbn [elems] in Hr. apply Forall2_app_inv_l in Hr as (el & er' & Hl & Hr & ->).
    apply Forall2_cons_inv_l in Hr as (he & er & Hx & Hr & ->). cbn [place elems]. rewrite Hx. cbn [mbind option_bind].
    apply Forall_app in Hok as [Okl Okr]. apply Forall_cons in Okr as [Okx Okr].
    apply out_sorted_app in Hs as (Sl & Sr & Sc). apply StronglySorted_inv in Sr as [Sr Sx].
    destruct (Z.ltb_spec 0 (sort e he)) as [Hlt|Hge].
    + destruct (IHl el Hl Okl Sl He) as (t' & ids1 & ids2 & es1 & es2 & -> & E1 & E2 & -> & R1 & R2 & F1 & F2).
      exists (enode t' x r), ids1, (ids2 ++ x :: elems r), es1, (es2 ++ he :: er). cbn [elems mbind option_bind].
      rewrite E1, E2, <- !app_assoc. do 4 (split; [done|]). split; [done|].
      split; [apply Forall2_app; [done|by constructor]|]. split; [done|].
      apply Forall_app. split; [done|]. constructor; [done|]. rewrite Forall_forall in Sx, Okr |- *. intros b Hb.
      assert (S1 : sort b he <= 0) by (by apply Sx). pose proof (Okr b Hb) as Okb.
      pose proof (ord_sym e b He Okb). pose proof (ord_trans e b he He Okb Okx). lia.
    + destruct (IHr er Hr Okr Sr He) as (t' & ids1 & ids2 & es1 & es2 & -> & E1 & E2 & -> & R1 & R2 & F1 & F2).
      exists (enode l x t'), (elems l ++ x :: ids1), ids2, (el ++ he :: es1), es2. cbn [elems mbind option_bind].
      rewrite E1, E2, <- !app_assoc. do 4 (split; [done|]).
      split; [apply Forall2_app; [done|by constructor]|]. split; [done|]. split; [|done].
      apply Forall_app. split; [|by constructor]. rewrite Forall_forall in Okl |- *. intros a Ha.
      pose proof (Sc a he Ha ltac:(by constructor)). by apply (ord_trans e he a); [|done|apply Okl| |].
Qed.

Lemma out_sorted_insert e es1 es2 : Forall ok (es1 ++ es2) -> ok e -> out_sorted (es1 ++ es2) ->
  Forall (fun a => sort e a <= 0) es1 -> Forall (fun b => 0 < sort e b) es2 -> out_sorted (es1 ++ e :: es2).
Proof.
  intros Ho He Hs F1 F2. apply out_sorted_app in Hs as (S1 & S2 & S3). apply Forall_app in Ho as [_ O2].
  rewrite Forall_forall in F1, F2, O2. apply out_sorted_app. split; [done|]. split.
  - constructor; [done|]. apply Forall_forall. intros b Hb. assert (0 < sort e b) by (by apply F2).
    pose proof (ord_sym e b He (O2 b Hb)). lia.
  - intros a b Ha [->|Hb]%elem_of_cons; [by apply F1|by apply S3].
Qed.

(** The loop: every entry once, sorted, and counted. *)
Lemma output_loop_ok l : forall els h outs,
  rows (ents h) l els -> Forall ok els -> rows (ents h) (elems (entries h)) outs -> Forall ok outs -> out_sorted outs ->
  totals h outs ->
  exists h' outs', output_loop fmts l h = Some h' /\ rows (ents h') (elems (entries h')) outs' /\ out_sorted outs' /\
    outs' ≡ₚ els ++ outs /\ elems (entries h') ≡ₚ l ++ elems (entries h) /\ totals h' outs' /\ ents h' = ents h /\
    need_collapse h' = need_collapse h.
Proof.
  induction l as [|n l IH]; intros els h outs Hr Ho Hro Hoo Hs Ht.
  - inversion Hr; subst. exists h, outs. done.
  - apply Forall2_cons_inv_l in Hr as (he & els' & En & Hr & ->). apply Forall_cons in Ho as [Oh Ho]. cbn [output_loop].
    unfold __hists__insert_output_entry. rewrite En. cbn [mbind option_bind].
    destruct (place_spec (ents h) he n (entries h) outs Hro Hoo Hs Oh)
      as (t' & ids1 & ids2 & es1 & es2 & -> & E1 & E2 & -> & R1 & R2 & F1 & F2). cbn [mbind option_bind put_out ents].
    rewrite En. cbn [mbind option_bind]. set (h1 := hists__inc_stats he _).
    assert (Ee : entries h1 = rb_insert_color t') by (unfold h1, hists__inc_stats; destruct (filtered he =? 0); done).
    assert (Em : ents h1 = ents h) by (unfold h1, hists__inc_stats; destruct (filtered he =? 0); done).
    assert (Nm : need_collapse h1 = need_collapse h) by (unfold h1, hists__inc_stats; destruct (filtered he =? 0); done).
    assert (Ei : elems (entries h1) = ids1 ++ n :: ids2) by (by rewrite Ee, rb_insert_color_elems).
    destruct (IH els' h1 (es1 ++ he :: es2)) as (h2 & outs' & -> & R & S & P & Pi & T & M & N).
    + by rewrite Em.
    + done.
    + rewrite Em, Ei. apply Forall2_app; [done|by constructor].
    + apply Forall_app in Hoo as [O1 O2]. apply Forall_app. split; [done|by constructor].
    + by apply out_sorted_insert.
    + eapply totals_perm; [apply Permutation_middle|]. apply inc_stats_totals. by destruct Ht.
    + exists h2, outs'. split; [done|]. split; [done|]. split; [done|].
      split; [rewrite P; cbn; by rewrite <- !Permutation_middle|].
      split; [rewrite Pi, Ei, E1; cbn; by rewrite <- !Permutation_middle|]. split; [done|]. split; congruence.
Qed.

Lemma output_resort_ok h es : rows (ents h) (elems (output_root h)) es -> Forall ok es ->
  exists h' outs, output_resort fmts h = Some h' /\ rows (ents h') (elems (entries h')) outs /\ out_sorted outs /\
    outs ≡ₚ es /\ elems (entries h') ≡ₚ elems (output_root h) /\ totals h' outs /\ ents h' = ents h /\
    need_collapse h' = need_collapse h.
Proof.
  intros Hr Ho. unfold output_resort. set (h0 := put_out eleaf (hists__reset_stats h)).
  change (output_root (hists__reset_stats h)) with (output_root h).
  destruct (output_loop_ok (elems (output_root h)) es h0 []) as (h' & outs & -> & R & S & P & Pi & T & M & N); try done.
  - constructor.
  - constructor.
  - exists h', outs. rewrite app_nil_r in P, Pi. done.
Qed.

End Output.

(** * From samples to the report *)

Section Report.
Context `{EntryTree} `{ChainTree}.
Context (conf : symbol_conf) (fmts : list perf_hpp_fmt) (alloc_ok : nat -> bool) (key : chain_key).
Context (sym_at : Z -> hist_symbol) `{!SortKey sym_at (hist_entry__cmp fmts)} `{!SortKey sym_at (hist_entry__collapse fmts)}
  `{!Order (entry_ok sym_at) (hist_entry__sort fmts)}.
Context (memory : forall n, alloc_ok n = true) (no_chains : use_callchain conf = false).
Abbreviation ok := (entry_ok sym_at).
Abbreviation cmp := (hist_entry__cmp fmts).
Abbreviation coll := (hist_entry__collapse fmts).
(** Entries with the same sort key are the same when they are collapsed. *)
Context (coarser : forall a b, cmp a b = 0 -> coll a b = 0).

Lemma coarser_by_key P : by_key ok coll P -> by_key ok cmp P.
Proof. intros HP a b Ha Hb Hz. by apply HP, coarser. Qed.

Lemma eleaf_table m : table conf fmts sym_at m eleaf [].
Proof. split; try done; try constructor. Qed.

Lemma collapse_resort_ok h es : in_table conf fmts sym_at h es -> need_collapse h = true -> entries_collapsed h = eleaf ->
  exists h' es', hists__collapse_resort conf fmts alloc_ok key (fun _ => false) h = Some (0, h') /\
    table conf fmts sym_at (ents h') (entries_collapsed h') es' /\ need_collapse h' = true /\
    nr_entries h' = wrap 64 (zlen es') /\
    (forall k, ok k -> keyed fmts k es' <-> keyed fmts k es) /\
    forall acc f P, by_key ok coll P -> (acc = true -> cumulate_callchain conf = true) ->
      eqf f (amount P (figs acc f) es') (amount P (figs acc f) es).
Proof.
  intros [T1 T2 _ T4 _ T6 _] Hneed He. unfold hists__collapse_resort. rewrite Hneed. cbn [negb hists__get_rotate_entries_in].
  set (h0 := put_in _ _ (put_nr 0 _ h)).
  destruct (collapse_loop_ok conf fmts alloc_ok key sym_at no_chains (entries_in h) (elems (tree_in h)) es h0 [])
    as (h' & es' & E & T & N & Nr & K & A); try done.
  - change (entries_collapsed h0) with (entries_collapsed h). rewrite He. apply eleaf_table.
  - change (entries_collapsed h0) with (entries_collapsed h). rewrite He. by intros x _ Hx%not_elem_of_nil.
  - exists h', es'. split; [|split; [done|split; [by rewrite N|split; [done|split]]]].
    + unfold h0 in E. unfold tree_in in E. cbn in *. exact E.
    + intros k Hk. rewrite (K k Hk). split; [|by right]. intros [(e & []%not_elem_of_nil & _)|]; done.
    + intros acc f P HP Hc. rewrite (A acc f P HP Hc). reflexivity.
Qed.


End Report.

(** * What stays true of a report on the screen *)

(** The totals count the rows, and besides them periods of rows that are gone: [lost]
    has those in total_period and those in total_non_filtered_period. *)
Record totals_but (lost : Z * Z) (h : hists) (es : list hist_entry) : Prop := {
  to_period : total_period (stats h) = wrap 64 (amount everything own_period es + lost.1);
  to_unfiltered : total_non_filtered_period (stats h) = wrap 64 (amount unfiltered own_period es + lost.2);
  to_nr : nr_entries h = wrap 64 (amount everything one es);
  to_nr_unfiltered : nr_non_filtered_entries h = wrap 64 (amount unfiltered one es)
}.

Lemma totals_none h es : totals_but (0, 0) h es <-> totals h es.
Proof.
  split; intros [A B C D]; split; [..|exact C|exact D|idtac|idtac|exact C|exact D]; cbn [fst snd] in *;
    rewrite ?Z.add_0_r in *; done.
Qed.

(** The output shows the rows [es], which are the entries of the histogram, and the
    totals count them and what is [lost]. *)
Record shown (conf : symbol_conf) (h : hists) (es : list hist_entry) (lost : Z * Z) : Prop := {
  sh_rows : rows (ents h) (elems (entries h)) es;
  sh_nodup : NoDup (elems (entries h));
  sh_same : elems (entries h) ≡ₚ elems (output_root h);
  sh_totals : totals_but lost h es;
  sh_acc : cumulate_callchain conf = true -> Forall (fun e => is_Some (stat_acc e)) es;
  sh_bits : Forall (fun e => 0 <= filtered e) es
}.

(** ** Filters *)

(** A filter function that tells whether it took an entry out with the bit [type]. *)
Class Filter (type : Z) (filter : hists -> hist_entry -> hist_entry * bool) : Prop := {
  filter_type : 0 <= type < 8;
  filter_marks h e : filter h e = if (snd (filter h e) : bool) then (mark type e, true) else (e, false);
  filter_local h h' e : thread_filter h' = thread_filter h -> dso_filter h' = dso_filter h ->
    symbol_filter_str h' = symbol_filter_str h -> socket_filter h' = socket_filter h -> filter h' e = filter h e;
  filter_bits h e f : snd (filter h (set_filtered f e)) = snd (filter h e)
}.

#[export] Instance dso_is_filter : Filter HIST_FILTER__DSO hists__filter_entry_by_dso.
Proof.
  split; [done|..].
  - intros h e. unfold hists__filter_entry_by_dso. destruct (dso_filter h); [|done].
    destruct (ms_map e ≫= map_dso); [by destruct (_ =? _)|done].
  - intros h h' e _ E _ _. unfold hists__filter_entry_by_dso. by rewrite E.
  - intros h e f. unfold hists__filter_entry_by_dso. cbn. destruct (dso_filter h); [|done].
    destruct (ms_map e ≫= map_dso); [by destruct (_ =? _)|done].
Qed.

#[export] Instance thread_is_filter : Filter HIST_FILTER__THREAD hists__filter_entry_by_thread.
Proof.
  split; [done|..].
  - intros h e. unfold hists__filter_entry_by_thread. destruct (thread_filter h); [by destruct (_ =? _)|done].
  - intros h h' e E _ _ _. unfold hists__filter_entry_by_thread. by rewrite E.
  - intros h e f. unfold hists__filter_entry_by_thread. cbn. destruct (thread_filter h); [by destruct (_ =? _)|done].
Qed.

#[export] Instance symbol_is_filter : Filter HIST_FILTER__SYMBOL hists__filter_entry_by_symbol.
Proof.
  split; [done|..].
  - intros h e. unfold hists__filter_entry_by_symbol. destruct (symbol_filter_str h); [|done].
    destruct (ms_sym e); [by destruct (strstr _ _)|done].
  - intros h h' e _ _ E _. unfold hists__filter_entry_by_symbol. by rewrite E.
  - intros h e f. unfold hists__filter_entry_by_symbol. cbn. destruct (symbol_filter_str h); [|done].
    destruct (ms_sym e); [by destruct (strstr _ _)|done].
Qed.

#[export] Instance socket_is_filter : Filter HIST_FILTER__SOCKET hists__filter_entry_by_socket.
Proof.
  split; [done|..].
  - intros h e. unfold hists__filter_entry_by_socket. by destruct (_ && _).
  - intros h h' e _ _ _ E. unfold hists__filter_entry_by_socket. by rewrite E.
  - intros h e f. unfold hists__filter_entry_by_socket. cbn. by destruct (_ && _).
Qed.

Section Filtering.
Context (conf : symbol_conf) (type : Z) (filt : hists -> hist_entry -> hist_entry * bool) `{!Filter type filt}.

(** An entry after the filter: its bit says whether it was taken out. *)
Definition refiltered (h : hists) (e : hist_entry) : hist_entry :=
  if snd (filt h e) then mark type e else set_filtered (Z.land (filtered e) (Z.lnot (Z.shiftl 1 type))) e.

Lemma marked_filtered e : 0 <= filtered e -> unfiltered (mark type e) = false.
Proof.
  intros He. pose proof (filter_type (filter := filt)). unfold unfiltered, mark. cbn. apply Z.eqb_neq. rewrite Z.lor_eq_0_iff.
  rewrite Z.shiftl_1_l. assert (0 < 2 ^ type) by (apply Z.pow_pos_nonneg; lia). lia.
Qed.

(** What the loop counts from zero. *)
Record counting (h : hists) (es : list hist_entry) : Prop := {
  cn_period : total_non_filtered_period (stats h) = wrap 64 (amount unfiltered own_period es);
  cn_nr : nr_non_filtered_entries h = wrap 64 (amount unfiltered one es);
  cn_samples : nr_non_filtered_samples (stats h) = wrap 32 (amount unfiltered (fun e => nr_events (stat e)) es)
}.

Record untouched (h h' : hists) : Prop := {
  un_out : entries h' = entries h;
  un_root : output_root h' = output_root h;
  un_filters : thread_filter h' = thread_filter h /\ dso_filter h' = dso_filter h /\
    symbol_filter_str h' = symbol_filter_str h /\ socket_filter h' = socket_filter h;
  un_total : total_period (stats h') = total_period (stats h) /\ nr_entries h' = nr_entries h
}.

Lemma wrap32_step (a b : Z) : u32 (wrap 32 a + b) = wrap 32 (b + a).
Proof. unfold u32, wrap. rewrite Zplus_mod_idemp_l. f_equal. lia. Qed.

(** One turn of the loop. *)
Lemma filter_step x e h es :
  0 <= filtered e -> counting h es ->
  let '(e', out) := filt h e in
  let h' := if (out : bool) then put_ent x e' h else hists__remove_entry_filter x e' type h in
  counting h' (refiltered h e :: es) /\ ents h' = <[x := refiltered h e]> (ents h) /\ untouched h h'.
Proof.
  intros He [C1 C2 C3]. rewrite (filter_marks h e). unfold refiltered. destruct (snd (filt h e)).
  - split; [|done]. split; rewrite amount_cons, (marked_filtered e He); cbn -[wrap amount]; done.
  - unfold hists__remove_entry_filter. set (e' := set_filtered _ e).
    change (filtered e' =? 0) with (unfiltered e'). destruct (unfiltered e') eqn:Eu; cbn [negb].
    + split; [|done]. split; rewrite amount_cons, Eu; cbn -[wrap amount Z.add u32]; rewrite ?C1, ?C2, ?C3, ?wrap_step, ?wrap32_step; done.
    + split; [|done]. split; rewrite amount_cons, Eu; cbn -[wrap amount]; done.
Qed.

Lemma refiltered_local h h' e : untouched h h' -> refiltered h' e = refiltered h e.
Proof. intros [_ _ (F1 & F2 & F3 & F4) _]. unfold refiltered. by rewrite (filter_local h h' e F1 F2 F3 F4). Qed.

Lemma untouched_trans h1 h2 h3 : untouched h1 h2 -> untouched h2 h3 -> untouched h1 h3.
Proof.
  intros [A1 A2 (F1 & F2 & F3 & F4) [T1 T2]] [B1 B2 (G1 & G2 & G3 & G4) [U1 U2]].
  split; [congruence|congruence| |split; congruence]. split_and!; congruence.
Qed.

Lemma filter_loop_ok l : forall es h done, rows (ents h) l es -> NoDup l -> Forall (fun e => 0 <= filtered e) es ->
  counting h done ->
  exists h', filter_loop type filt l h = Some h' /\ rows (ents h') l (refiltered h <$> es) /\
    counting h' ((refiltered h <$> es) ++ done) /\ untouched h h' /\ forall y, y ∉ l -> ents h' !! y = ents h !! y.
Proof.
  induction l as [|x l IH]; intros es h rest Hr Hn He Hc.
  - inversion Hr; subst. exists h. split; [done|]. split; [constructor|]. done.
  - apply Forall2_cons_inv_l in Hr as (e & es' & Ex & Hr & ->). apply Forall_cons in He as [He Hes].
    apply NoDup_cons in Hn as [Hx Hn]. cbn [filter_loop]. rewrite Ex. cbn [mbind option_bind].
    pose proof (filter_step x e h rest He Hc) as Hs. destruct (filt h e) as [e' out].
    set (h1 := if (out : bool) then _ else _) in *. destruct Hs as (C1 & E1 & U1).
    destruct (IH es' h1 _ ltac:(rewrite E1; by apply rows_other) Hn Hes C1) as (h2 & -> & R2 & C2 & U2 & O2).
    assert (Em : refiltered h1 <$> es' = refiltered h <$> es') by (apply list_fmap_ext; intros i y _; by apply refiltered_local).
    rewrite Em in R2, C2. exists h2. split; [done|]. rewrite fmap_cons. split; [|split; [|split]].
    + constructor; [|done]. rewrite (O2 x Hx), E1. by rewrite lookup_insert_eq.
    + destruct C2 as [D1 D2 D3]. assert (P : (refiltered h <$> es') ++ refiltered h e :: rest ≡ₚ
        (refiltered h e :: (refiltered h <$> es')) ++ rest) by (cbn; by rewrite Permutation_middle).
      split; rewrite <- (amount_perm _ _ _ _ P); done.
    + by eapply untouched_trans.
    + intros y [Hy1 Hy2]%not_elem_of_cons. rewrite (O2 y Hy2), E1. by rewrite lookup_insert_ne.
Qed.

Lemma refiltered_figures h es P get : (forall e f, P (set_filtered f e) = P e) -> (forall e f, get (set_filtered f e) = get e) ->
  amount P get (refiltered h <$> es) = amount P get es.
Proof.
  intros HP Hg. induction es as [|e es IH]; [done|]. rewrite fmap_cons, !amount_cons, IH. f_equal.
  unfold refiltered, mark. destruct (snd (filt h e)); by rewrite HP, Hg.
Qed.

Lemma refiltered_bits h e : 0 <= filtered e -> 0 <= filtered (refiltered h e).
Proof.
  intros He. pose proof (filter_type (filter := filt)). unfold refiltered, mark. destruct (snd (filt h e)); cbn.
  - apply Z.lor_nonneg. split; [done|]. apply Z.shiftl_nonneg. lia.
  - apply Z.land_nonneg. by left.
Qed.

(** The unfiltered total is counted anew, so it has nothing but the rows again. *)
Lemma filter_shown h es lost : shown conf h es lost ->
  exists h', hists__filter_by_type type filt h = Some h' /\ shown conf h' (refiltered h <$> es) (lost.1, 0) /\
    nr_non_filtered_samples (stats h') = wrap 32 (amount unfiltered (fun e => nr_events (stat e)) (refiltered h <$> es)).
Proof.
  intros [S1 S2 S3 [T1 T2 T3 T4] S5 He]. unfold hists__filter_by_type. set (h0 := hists__reset_filter_stats _).
  destruct (filter_loop_ok (elems (entries h)) es h0 []) as (h' & E & R & C & [U1 U2 _ [U3 U4]] & _); [done|done|done|by split|].
  assert (Em : refiltered h0 <$> es = refiltered h <$> es) by (apply list_fmap_ext; intros i y _; by apply refiltered_local).
  rewrite Em, ?app_nil_r in *. destruct C as [C1 C2 C3]. exists h'. split; [exact E|]. split; [|done]. split.
  - by rewrite U1.
  - by rewrite U1.
  - rewrite U1, U2. done.
  - split; cbn [fst snd]; [| | |done].
    + rewrite U3, refiltered_figures by done. exact T1.
    + by rewrite Z.add_0_r.
    + rewrite U4, refiltered_figures by done. exact T3.
  - intros Hc. specialize (S5 Hc). apply Forall_fmap. eapply Forall_impl; [exact S5|]. intros e. unfold compose, refiltered, mark.
    by destruct (snd (filt h e)).
  - apply Forall_fmap. eapply Forall_impl; [exact He|]. intros e. apply refiltered_bits.
Qed.

End Filtering.

(** ** Decay *)

Section Decay.
Context `{EntryTree}.
Context (conf : symbol_conf).

(** An entry after a round of decay; one that has nothing left goes away. *)
Definition decayed (e : hist_entry) : hist_entry :=
  set_chain (decay_callchain (use_callchain conf) (he_callchain e))
    (set_stats (he_stat__decay (stat e)) (if cumulate_callchain conf then he_stat__decay <$> stat_acc e else stat_acc e) e).
Definition survives (e : hist_entry) : option hist_entry :=
  if own_period e =? 0 then None else if own_period (decayed e) =? 0 then None else Some (decayed e).

Lemma wrap_sub a b : wrap 64 (wrap 64 a - wrap 64 b) = wrap 64 (a - b).
Proof. unfold wrap. by rewrite <- Zminus_mod. Qed.

Lemma wrap_shift a d l : wrap 64 (a - d + l) = wrap 64 (a + l - d).
Proof. f_equal. lia. Qed.

Lemma amount_exchange P get l1 a b l2 : P b = P a ->
  amount P get (l1 ++ b :: l2) = amount P get (l1 ++ a :: l2) - (if P a then get a - get b else 0).
Proof. intros E. rewrite !amount_mid, E. destruct (P a); lia. Qed.

Lemma decay_entry_ok x e h l1 l2 lost : ents h !! x = Some e -> own_period e <> 0 ->
  (cumulate_callchain conf = true -> is_Some (stat_acc e)) -> totals_but lost h (l1 ++ e :: l2) ->
  exists h', hists__decay_entry conf x h = Some (own_period (decayed e) =? 0, h') /\ ents h' = <[x := decayed e]> (ents h) /\
    entries h' = entries h /\ output_root h' = output_root h /\ totals_but lost h' (l1 ++ decayed e :: l2).
Proof.
  intros Ex Hp Ha [T1 T2 T3 T4]. unfold hists__decay_entry. rewrite Ex. cbn [mbind option_bind].
  change (period (stat e)) with (own_period e). rewrite (proj2 (Z.eqb_neq _ _) Hp).
  assert (Hacc : (if cumulate_callchain conf then a ← stat_acc e; Some (Some (he_stat__decay a)) else Some (stat_acc e)) =
    Some (if cumulate_callchain conf then he_stat__decay <$> stat_acc e else stat_acc e)).
  { destruct (cumulate_callchain conf); [|done]. destruct (Ha eq_refl) as [a ->]. done. }
  rewrite Hacc. cbn [mbind option_bind]. fold (decayed e). eexists. split; [reflexivity|]. split; [done|]. split; [done|].
  split; [done|]. assert (Hu : unfiltered (decayed e) = unfiltered e) by done.
  split; cbn [put_ent put_ents put_stats stats total_period total_non_filtered_period nr_entries nr_non_filtered_entries].
  - rewrite T1, (amount_exchange everything own_period l1 e (decayed e) l2) by done. cbn [everything].
    rewrite wrap_shift. apply wrap_sub.
  - rewrite T2, (amount_exchange unfiltered own_period l1 e (decayed e) l2 Hu). rewrite wrap_shift.
    change (filtered (decayed e) =? 0) with (unfiltered e). destruct (unfiltered e); [apply wrap_sub|]. by rewrite Z.sub_0_r.
  - rewrite T3, (amount_exchange everything one l1 e (decayed e) l2) by done. f_equal.
    change (if everything e then _ else 0) with 0. lia.
  - rewrite T4, (amount_exchange unfiltered one l1 e (decayed e) l2 Hu). f_equal.
    change (one e - one (decayed e)) with 0. destruct (unfiltered e); lia.
Qed.

Lemma filter_out (ids1 : list nat) x ids2 : NoDup (ids1 ++ x :: ids2) ->
  filter (fun y => y <> x) (ids1 ++ x :: ids2) = ids1 ++ ids2.
Proof.
  intros Hn. destruct (ids_mid _ _ _ Hn) as [H1 H2]. rewrite filter_app, filter_cons_False by auto.
  assert (Hall : forall l : list nat, x ∉ l -> filter (fun y => y <> x) l = l).
  { intros l Hl. induction l as [|y l IH]; [done|]. apply not_elem_of_cons in Hl as [Hy Hl].
    rewrite filter_cons_True by auto. by rewrite IH. }
  by rewrite !Hall.
Qed.

(** The period of an entry that is deleted stays in the totals. *)
Definition losing (e : hist_entry) (lost : Z * Z) : Z * Z :=
  (lost.1 + own_period e, lost.2 + (if unfiltered e then own_period e else 0)).

Lemma delete_entry_ok x e h ids1 ids2 l1 l2 lost : ents h !! x = Some e -> totals_but lost h (l1 ++ e :: l2) ->
  elems (entries h) = ids1 ++ x :: ids2 -> NoDup (elems (entries h)) -> elems (entries h) ≡ₚ elems (output_root h) ->
  exists h', hists__delete_entry x h = Some h' /\ ents h' = delete x (ents h) /\ elems (entries h') = ids1 ++ ids2 /\
    elems (entries h') ≡ₚ elems (output_root h') /\ totals_but (losing e lost) h' (l1 ++ l2).
Proof.
  intros Ex [T1 T2 T3 T4] Ei Hn Hp. unfold hists__delete_entry. rewrite Ex. cbn [mbind option_bind].
  eexists. split; [reflexivity|]. set (h1 := if need_collapse h then _ else _).
  assert (F : stats h1 = stats h /\ nr_entries h1 = nr_entries h /\ nr_non_filtered_entries h1 = nr_non_filtered_entries h /\
    entries h1 = entries h /\ ents h1 = ents h) by (unfold h1; by destruct (need_collapse h)).
  destruct F as (F1 & F2 & F3 & F4 & F5). split; [cbn; by rewrite F5|]. rewrite Ei in Hn.
  assert (Eo : elems (rb_erase x (entries h1)) = ids1 ++ ids2) by (by rewrite F4, rb_erase_elems, Ei, filter_out).
  split; [done|]. split.
  - cbn [hist_entry__delete put_ents put_nr put_out entries]. rewrite F4, rb_erase_elems, Hp.
    unfold output_root, h1, tree_in, put_tree_in. cbn. destruct (need_collapse h) eqn:En; cbn; rewrite ?En.
    + by rewrite rb_erase_elems.
    + destruct (entries_in h) eqn:Ew; cbn; rewrite ?Ew; cbn; by rewrite rb_erase_elems.
  - split; cbn [hist_entry__delete put_ents put_nr put_out stats nr_entries nr_non_filtered_entries]; rewrite ?F1, ?F2, ?F3.
    + rewrite T1, amount_mid, amount_app. f_equal. cbn. lia.
    + rewrite T2, amount_mid, amount_app. f_equal. cbn. destruct (unfiltered e); lia.
    + rewrite T3, amount_mid, amount_app. unfold one, everything at 2. unfold wrap. rewrite Zminus_mod_idemp_l. f_equal. lia.
    + change (filtered e =? 0) with (unfiltered e). rewrite T4, amount_mid, amount_app. unfold one at 2.
      destruct (unfiltered e); [|f_equal; lia]. unfold wrap. rewrite Zminus_mod_idemp_l. f_equal. lia.
Qed.

Lemma shown_mid h ids1 x ids2 l1 e l2 lost : shown conf h (l1 ++ e :: l2) lost -> elems (entries h) = ids1 ++ x :: ids2 ->
  length ids1 = length l1 -> rows (ents h) ids1 l1 /\ rows (ents h) ids2 l2 /\ ents h !! x = Some e.
Proof.
  intros [R _ _ _ _ _] Ei Hl. rewrite Ei in R. unfold rows in R. apply Forall2_app_inv in R as [R1 R2]; [|done].
  apply Forall2_cons in R2 as [R2 R3]. done.
Qed.

(** The rows that the keys of perf top take away at once: those of user space, or
    those of the kernel. *)
Context (zap_user zap_kernel : bool).
Definition zapped (e : hist_entry) : bool := (zap_user && (level e =? 46)) || (zap_kernel && negb (level e =? 46)).
Definition stays (e : hist_entry) : option hist_entry := if zapped e then None else survives e.
(** What the totals have too much afterwards. *)
Definition zap_loss (es : list hist_entry) (lost : Z * Z) : Z * Z :=
  (lost.1 + amount zapped own_period es, lost.2 + amount (fun e => zapped e && unfiltered e) own_period es).

Lemma delete_shown x e h h0 e0 ids1 ids2 l1 l2 lost : shown conf h (l1 ++ e :: l2) lost ->
  elems (entries h) = ids1 ++ x :: ids2 -> length ids1 = length l1 ->
  ents h0 !! x = Some e0 -> totals_but lost h0 (l1 ++ e0 :: l2) ->
  entries h0 = entries h -> output_root h0 = output_root h -> (forall y, y <> x -> ents h0 !! y = ents h !! y) ->
  exists h', hists__delete_entry x h0 = Some h' /\ shown conf h' (l1 ++ l2) (losing e0 lost) /\
    elems (entries h') = ids1 ++ ids2.
Proof.
  intros Hs Ei Hl E0 T0 En0 Er0 Eo0. destruct (shown_mid h ids1 x ids2 l1 e l2 lost Hs Ei Hl) as (R1 & R2 & Ex).
  destruct Hs as [_ Hn Hp _ Ha Hb]. pose proof Hn as Hn'. rewrite Ei in Hn'. destruct (ids_mid _ _ _ Hn') as [X1 X2].
  destruct (delete_entry_ok x e0 h0 ids1 ids2 l1 l2 lost) as (h' & -> & M & I & P & T);
    [done|done|by rewrite En0|by rewrite En0|by rewrite En0, Er0|].
  exists h'. split; [done|]. split; [|done]. split; [rewrite I|rewrite I|exact P|exact T| |].
  - apply (rows_agree (ents h)); [|by apply Forall2_app]. intros y Hy. rewrite M, lookup_delete_ne; [apply Eo0|]; intros ->;
      apply elem_of_app in Hy as [|]; done.
  - apply NoDup_app in Hn' as (N1 & N2 & N3). apply NoDup_cons in N3 as [_ N3]. apply NoDup_app. split; [done|]. split; [|done].
    intros y Hy Hy2. apply (N2 y Hy). by constructor.
  - intros Hc. specialize (Ha Hc). rewrite Forall_app, Forall_cons in Ha. rewrite Forall_app. tauto.
  - rewrite Forall_app, Forall_cons in Hb. rewrite Forall_app. tauto.
Qed.

Lemma losing_nothing e lost : own_period e = 0 -> losing e lost = lost.
Proof. intros Hz. unfold losing. rewrite Hz. destruct lost, (unfiltered e); by rewrite !Z.add_0_r. Qed.

Lemma zap_loss_cons e es lost : zap_loss (e :: es) lost = zap_loss es (if zapped e then losing e lost else lost).
Proof.
  unfold zap_loss, losing. rewrite !amount_cons. destruct (zapped e), (unfiltered e); cbn [andb fst snd]; f_equal; lia.
Qed.

(** One entry of the loop. *)
Lemma decay_step x e h ids1 ids2 l1 l2 lost : shown conf h (l1 ++ e :: l2) lost ->
  elems (entries h) = ids1 ++ x :: ids2 -> length ids1 = length l1 ->
  exists h', ('(gone, h) ← (if zapped e then Some (true, h) else hists__decay_entry conf x h);
              if (gone : bool) then hists__delete_entry x h else Some h) = Some h' /\
    shown conf h' (l1 ++ option_list (stays e) ++ l2) (if zapped e then losing e lost else lost) /\
    elems (entries h') = ids1 ++ (if stays e is Some _ then [x] else []) ++ ids2.
Proof.
  intros Hs Ei Hl. destruct (shown_mid h ids1 x ids2 l1 e l2 lost Hs Ei Hl) as (R1 & R2 & Ex).
  pose proof (delete_shown x e h) as Hdel. pose proof Hs as [_ Hn Hp Ht Ha Hb].
  assert (Hae : cumulate_callchain conf = true -> is_Some (stat_acc e))
    by (intros Hc; specialize (Ha Hc); rewrite Forall_app, Forall_cons in Ha; tauto).
  unfold stays. destruct (zapped e); [by apply (Hdel h e)|].
  unfold survives. destruct (Z.eqb_spec (own_period e) 0) as [Hz|Hz].
  - unfold hists__decay_entry. rewrite Ex. cbn [mbind option_bind]. change (period (stat e)) with (own_period e).
    rewrite Hz, Z.eqb_refl. cbn [mbind option_bind]. rewrite <- (losing_nothing e lost Hz). by apply (Hdel h e).
  - destruct (decay_entry_ok x e h l1 l2 lost Ex Hz Hae Ht) as (h1 & -> & M & En & Er & T). cbn [mbind option_bind].
    destruct (Z.eqb_spec (own_period (decayed e)) 0) as [Hz'|Hz'].
    + rewrite <- (losing_nothing (decayed e) lost Hz').
      apply (Hdel h1 (decayed e)); [done|done|done|by rewrite M, lookup_insert_eq|done|done|done|].
      intros y Hy. by rewrite M, lookup_insert_ne.
    + rewrite Ei in Hn. destruct (ids_mid _ _ _ Hn) as [X1 X2].
      exists h1. split; [done|]. split; [|by rewrite En, Ei]. split; [|by rewrite En, Ei|by rewrite En, Er|exact T| |].
      * rewrite En, Ei, M. by apply rows_insert.
      * intros Hc. specialize (Ha Hc). eapply Forall_mid; [exact Ha|]. unfold decayed. cbn. rewrite Hc.
        apply fmap_is_Some. by apply Hae.
      * eapply Forall_mid; [exact Hb|]. rewrite Forall_app, Forall_cons in Hb. apply Hb.
Qed.

Lemma decay_loop_ok ids2 : forall l2 h ids1 l1 lost, shown conf h (l1 ++ l2) lost -> elems (entries h) = ids1 ++ ids2 ->
  length ids1 = length l1 -> length ids2 = length l2 ->
  exists h', decay_loop conf zap_user zap_kernel ids2 h = Some h' /\
    shown conf h' (l1 ++ omap stays l2) (zap_loss l2 lost).
Proof.
  induction ids2 as [|x ids2 IH]; intros l2 h ids1 l1 lost Hs Ei H1 H2.
  - destruct l2; [|done]. exists h. split; [done|]. unfold zap_loss. cbn. rewrite !Z.add_0_r. by destruct lost.
  - destruct l2 as [|e l2]; [done|]. cbn [decay_loop]. rewrite zap_loss_cons.
    destruct (shown_mid h ids1 x ids2 l1 e l2 lost Hs Ei H1) as (_ & _ & Ex). rewrite Ex. cbn [mbind option_bind].
    destruct (decay_step x e h ids1 ids2 l1 l2 lost Hs Ei H1) as (h1 & E1 & S1 & Ei1). fold (zapped e).
    destruct (if zapped e then Some (true, h) else hists__decay_entry conf x h) as [[gone h0]|]; [|done].
    cbn [mbind option_bind] in *. rewrite E1. cbn [mbind option_bind].
    cbn [omap list_omap]. set (lost1 := if zapped e then _ else _) in *. destruct (stays e) as [e'|]; cbn [option_list app] in *.
    + destruct (IH l2 h1 (ids1 ++ [x]) (l1 ++ [e']) lost1) as (h2 & -> & S2).
      * by rewrite <- app_assoc.
      * by rewrite <- app_assoc.
      * rewrite !length_app. cbn. lia.
      * cbn in H2. lia.
      * exists h2. by rewrite <- app_assoc in S2.
    + destruct (IH l2 h1 ids1 l1 lost1 S1 Ei1 H1) as (h2 & -> & S2); [cbn in H2; lia|]. by exists h2.
Qed.

Lemma decay_shown h es lost : shown conf h es lost ->
  exists h', hists__decay_entries conf zap_user zap_kernel h = Some h' /\ shown conf h' (omap stays es) (zap_loss es lost).
Proof.
  intros Hs. apply (decay_loop_ok (elems (entries h)) es h [] []); [done|done|done|].
  eapply Forall2_length. apply (sh_rows _ _ _ _ Hs).
Qed.

End Decay.

Lemma zap_loss_none es : forall lost, zap_loss false false es lost = lost.
Proof.
  induction es as [|e es IH]; intros lost; [unfold zap_loss; cbn; rewrite !Z.add_0_r; by destruct lost|].
  rewrite zap_loss_cons. apply IH.
Qed.

(** ** Any use of a report *)

(** What the browsers do with a histogram: set a filter and apply it, or let the
    figures fade, where perf top can also take away the rows of user space or those
    of the kernel. *)
Inductive view_op :=
| by_thread (t : option Z)
| by_dso (d : option Z)
| by_symbol (str : option bytes)
| by_socket (n : Z)
| fade (zap_user zap_kernel : bool).

Definition set_filters (t d : option Z) (str : option bytes) (n : Z) (h : hists) : hists :=
  Hists (ents h) (next_ent h) (entries_in_array h) (entries_in h) (entries h) (entries_collapsed h) (nr_entries h)
    (nr_non_filtered_entries h) (callchain_period h) (callchain_non_filtered_period h) t d str n
    (stats h) (any_callchains h) (need_collapse h) (cursor h) (allocs h).

Section Views.
Context `{EntryTree} `{ChainTree} (conf : symbol_conf).

Definition view (op : view_op) (h : hists) : option hists :=
  match op with
  | by_thread t => hists__filter_by_thread (set_filters t (dso_filter h) (symbol_filter_str h) (socket_filter h) h)
  | by_dso d => hists__filter_by_dso (set_filters (thread_filter h) d (symbol_filter_str h) (socket_filter h) h)
  | by_symbol str => hists__filter_by_symbol (set_filters (thread_filter h) (dso_filter h) str (socket_filter h) h)
  | by_socket n => hists__filter_by_socket (set_filters (thread_filter h) (dso_filter h) (symbol_filter_str h) n h)
  | fade zap_user zap_kernel => hists__decay_entries conf zap_user zap_kernel h
  end.
Fixpoint views (ops : list view_op) (h : hists) : option hists :=
  match ops with
  | [] => Some h
  | op :: ops => h ← view op h; views ops h
  end.

(** ** What the browsers are promised *)

(** The row is not one the filter lets through. *)
Definition left_out (op : view_op) (e : hist_entry) : bool :=
  match op with
  | by_thread (Some t) => negb (thread_ptr (he_thread e) =? t)
  | by_dso (Some d) => match ms_map e ≫= map_dso with Some d' => negb (dso_ptr d' =? d) | None => true end
  | by_symbol (Some str) => match ms_sym e with Some s => negb (strstr (s_name s) str) | None => true end
  | by_socket n => (-1 <? n) && negb (he_socket e =? n)
  | _ => false
  end.
Definition filter_bit (op : view_op) : Z :=
  match op with
  | by_thread _ => HIST_FILTER__THREAD
  | by_dso _ => HIST_FILTER__DSO
  | by_symbol _ => HIST_FILTER__SYMBOL
  | _ => HIST_FILTER__SOCKET
  end.
(** The bit of the filter says whether the row is left out; the bits of the other
    filters stay. *)
Definition rebit (op : view_op) (e : hist_entry) : hist_entry :=
  set_filtered (if left_out op e then Z.lor (filtered e) (Z.shiftl 1 (filter_bit op))
                else Z.land (filtered e) (Z.lnot (Z.shiftl 1 (filter_bit op)))) e.
(** The rows after an operation, and what the totals have besides them. *)
Definition viewed (s : list hist_entry * (Z * Z)) (op : view_op) : list hist_entry * (Z * Z) :=
  match op with
  | fade zu zk => (omap (stays conf zu zk) s.1, zap_loss zu zk s.1 s.2)
  | _ => (rebit op <$> s.1, (s.2.1, 0))
  end.

Lemma filter_viewed op filt `{!Filter (filter_bit op) filt} h es lost : (forall e, snd (filt h e) = left_out op e) ->
  shown conf h es lost ->
  exists h', hists__filter_by_type (filter_bit op) filt h = Some h' /\ shown conf h' (rebit op <$> es) (lost.1, 0).
Proof.
  intros E Hs. destruct (filter_shown conf (filter_bit op) filt h es lost Hs) as (h' & Eh & S & _). exists h'. split; [done|].
  assert (Er : refiltered (filter_bit op) filt h <$> es = rebit op <$> es); [|by rewrite <- Er].
  apply list_fmap_ext. intros i e _. unfold refiltered, rebit, mark. rewrite E. by destruct (left_out op e).
Qed.

Lemma view_shown op h s : shown conf h s.1 s.2 ->
  exists h', view op h = Some h' /\ shown conf h' (viewed s op).1 (viewed s op).2.
Proof.
  destruct s as [es lost]. cbn [fst snd].
  intros Hs. assert (Hset : forall t d str n, shown conf (set_filters t d str n h) es lost)
    by (intros; by destruct Hs as [? ? ? [] ? ?]).
  destruct op as [t|d|str|n|zu zk]; cbn [view viewed fst snd]; [..|by apply decay_shown].
  - apply (filter_viewed (by_thread t) hists__filter_entry_by_thread); [|done].
    intros e. unfold hists__filter_entry_by_thread. cbn. destruct t; [by destruct (_ =? _)|done].
  - apply (filter_viewed (by_dso d) hists__filter_entry_by_dso); [|done].
    intros e. unfold hists__filter_entry_by_dso. cbn. destruct d; [|done].
    destruct (ms_map e ≫= map_dso); [by destruct (_ =? _)|done].
  - apply (filter_viewed (by_symbol str) hists__filter_entry_by_symbol); [|done].
    intros e. unfold hists__filter_entry_by_symbol. cbn. destruct str; [|done]. destruct (ms_sym e); [by destruct (strstr _ _)|done].
  - apply (filter_viewed (by_socket n) hists__filter_entry_by_socket); [|done].
    intros e. unfold hists__filter_entry_by_socket. cbn. by destruct (_ && _).
Qed.

Lemma views_shown ops : forall h s, shown conf h s.1 s.2 ->
  exists h', views ops h = Some h' /\ shown conf h' (foldl viewed s ops).1 (foldl viewed s ops).2.
Proof.
  induction ops as [|op ops IH]; intros h s Hs; [by exists h|]. cbn [views foldl].
  destruct (view_shown op h s Hs) as (h1 & -> & S1). cbn [mbind option_bind]. by apply IH.
Qed.

(** Nothing is zapped. *)
Definition no_zap (op : view_op) : Prop := if op is fade zu zk then zu = false /\ zk = false else True.

Lemma viewed_no_zap ops : forall es, Forall no_zap ops -> (foldl viewed (es, (0, 0)) ops).2 = (0, 0).
Proof.
  induction ops as [|op ops IH]; intros es Hno; [done|]. apply Forall_cons in Hno as [Hop Hno]. cbn [foldl].
  assert (Ev : viewed (es, (0, 0)) op = ((viewed (es, (0, 0)) op).1, (0, 0))).
  { destruct op as [t|d|str|n|zu zk]; try done. destruct Hop as [-> ->]. cbn [viewed fst snd]. f_equal. apply zap_loss_none. }
  rewrite Ev. by apply IH.
Qed.

(** C37: The totals of a report stay true: whatever filters are set and however often
    the figures fade (hists__filter_by_thread, _dso, _symbol, _socket and
    hists__decay_entries), no entry is used after it is gone, the output and the
    tree of the histogram keep the same entries, the rows shown are those the
    filters and the decay leave in order, each with the bits of the filters that
    leave it out, nr_entries and nr_non_filtered_entries count those rows, and
    total_period and total_non_filtered_period are the sums over those rows, as
    long as no decay is asked to zap user space or kernel rows.  The periods of
    rows that are zapped are never taken out: total_period has exactly them besides
    the rows, for good, and total_non_filtered_period has those that were not
    filtered, until the next filter counts it anew.  The report is one whose output
    was sorted before ([shown]: its rows are the entries of the tree, counted by the
    totals). *)
Theorem report_totals_stay ops h es : shown conf h es (0, 0) ->
  let s := foldl viewed (es, (0, 0)) ops in
  exists h', views ops h = Some h' /\ shown conf h' s.1 s.2 /\ (Forall no_zap ops -> totals h' s.1).
Proof.
  intros Hs s. destruct (views_shown ops h (es, (0, 0)) Hs) as (h' & E & S). exists h'. split; [exact E|].
  split; [exact S|]. intros Hno. rewrite <- totals_none, <- (viewed_no_zap ops es Hno). apply S.
Qed.

End Views.

(** * A concrete report *)

Module HistExamples.

(** Trees that are lists: erasing builds the tree again. *)
Fixpoint spine (l : list nat) : etree :=
  match l with
  | [] => eleaf
  | x :: l => enode eleaf x (spine l)
  end.
Lemma elems_spine l : elems (spine l) = l.
Proof. induction l as [|x l IH]; [done|]. cbn. by rewrite IH. Qed.

#[export] Instance spine_tree : EntryTree := {|
  rb_insert_color t := t;
  rb_erase x t := spine (filter (fun y => y <> x) (elems t));
  rb_insert_color_elems _ := eq_refl;
  rb_erase_elems x t := elems_spine _
|}.
#[export] Instance spine_chain_tree : ChainTree := {| krebalance t := t; krebalance_elems _ := eq_refl |}.

Definition cumulative : symbol_conf := SymbolConf true false false false 0.
Definition sym_of (p : Z) : hist_symbol := HistSymbol p (4096 * p) (4096 * p + 100) false [115].
Definition libc : hist_map := HistMap 1 0 65536 (Some (Dso 1 [108] [108])) 0 0 0 0 0.
Definition here (comm sym cpumode : Z) : addr_location :=
  AddrLocation (HistThread 7 70 70) [comm] (0, 0) (Some libc) (Some (sym_of sym)) (4096 * sym + 8) 0 0 cpumode 0 0.
Definition of_period (p : Z) : hist_sample := HistSample p 0 0 0 false.

(** Two samples in one function, one of them in the kernel, the caller of the
    second, and a sample of another command. *)
Definition calls : list add_call :=
  [AddCall (here 97 3 PERF_RECORD_MISC_USER) None None None (of_period 10) true;
   AddCall (here 97 2 PERF_RECORD_MISC_USER) None None None (of_period 20) true;
   AddCall (here 97 3 PERF_RECORD_MISC_USER) None None None (of_period 20) false;
   AddCall (here 98 3 PERF_RECORD_MISC_KERNEL) None None None (of_period 40) true;
   AddCall (here 97 3 PERF_RECORD_MISC_KERNEL) None None None (of_period 5) true].

Definition empty_hists : hists :=
  Hists ∅ 0 (eleaf, eleaf) false eleaf eleaf 0 0 0 0 None None None (-1)
    (EventsStats 0 0 (fun _ => 0) 0) false true (Cursor [] 0 0) 0.
Definition columns : list perf_hpp_fmt := default_columns 0.

Lemma located_entry_ok conf comm sym addr lvl cpumode p self : time_quantum conf = 0 -> 0 < comm < 256 -> 0 <= sym < 10 ->
  0 <= addr < 2 ^ 62 ->
  entry_ok sym_of (wanted conf (AddCall (AddrLocation (HistThread 7 70 70) [comm] (0, 0) (Some libc) (Some (sym_of sym)) addr
    lvl 0 cpumode 0 0) None None None (of_period p) self)).
Proof.
  intros Hq Hc Hs Ha. assert (P : forall x, 0 <= x < 2 ^ 62 -> plain64 x).
  { intros x Hx. unfold plain64, sint. rewrite Z.mod_small by lia. change (64 - 1) with 63.
    rewrite (proj2 (Z.ltb_lt x (2 ^ 63))) by lia. lia. }
  split; cbn; unfold int_ok, hist_time; rewrite ?Hq; try done; try lia; try (by apply P).
  - by constructor.
  - intros x d [= <-] [= <-]. split; repeat constructor; cbn; lia.
  - split; [done|]. unfold is_uint. cbn. split_and!; try apply P; try lia; repeat constructor; lia.
Defined.

Lemma call_at_ok comm sym cpumode p self : 0 < comm < 256 -> 0 <= sym < 10 ->
  call_ok cumulative sym_of (AddCall (here comm sym cpumode) None None None (of_period p) self).
Proof. intros Hc Hs. split; [|by right]. apply located_entry_ok; [done|done|done|lia]. Defined.

Lemma calls_ok : Forall (call_ok cumulative sym_of) calls.
Proof. repeat (constructor; [by apply call_at_ok|]). constructor. Defined.

Lemma same_collapse a b : hist_entry__cmp columns a b = 0 -> hist_entry__collapse columns a b = 0.
Proof. done. Defined.

Lemma empty_fresh : fresh_hists empty_hists.
Proof. done. Defined.

(** The rows of the tree of new entries, and of the output: period, period with
    callees, number of events. *)
Definition shown_row (h : hists) (x : nat) : option (Z * Z * Z) :=
  e ← ents h !! x; a ← stat_acc e; Some (period (stat e), period a, nr_events a).
Example new_entries :
  (h ← add_all cumulative columns mem_ok calls empty_hists; Some (shown_row h <$> elems (tree_in h))) =
  Some [Some (20, 20, 1); Some (15, 35, 3); Some (40, 40, 1)].
Proof. vm_compute. reflexivity. Qed.
Example output_rows :
  (h ← add_all cumulative columns mem_ok calls empty_hists;
   '(_, h) ← hists__collapse_resort cumulative columns mem_ok CCKEY_ADDRESS (fun _ => false) h;
   h ← output_resort columns h; Some (shown_row h <$> elems (entries h), total_period (stats h))) =
  Some ([Some (40, 40, 1); Some (20, 20, 1); Some (15, 35, 3)], 75).
Proof. vm_compute. reflexivity. Qed.


Lemma default_sorted : Order (entry_ok sym_of) (hist_entry__sort columns).
Proof. apply default_output. Defined.


(** Two rows on the screen; the second has nothing left after a round of decay. *)
Definition on_screen : list hist_entry :=
  [wanted cumulative (AddCall (here 97 3 PERF_RECORD_MISC_USER) None None None (of_period 100) true);
   wanted cumulative (AddCall (here 98 2 PERF_RECORD_MISC_USER) None None None (of_period 1) true)].
Definition own_only : symbol_conf := SymbolConf false false false false 0.
Definition screen : hists :=
  Hists (list_to_map (zip [0; 1]%nat on_screen)) 2 (eleaf, eleaf) false (spine [0; 1]%nat) (spine [1; 0]%nat) 2 2 0 0
    None None None (-1) (EventsStats 101 101 (fun _ => 0) 2) false true (Cursor [] 0 0) 0.

Lemma screen_shown : shown own_only screen on_screen (0, 0).
Proof.
  split; [..|done|].
  - repeat constructor.
  - apply (bool_decide_unpack _). reflexivity.
  - apply perm_swap.
  - done.
  - repeat constructor; discriminate.
Defined.

Lemma report_totals_stay_witness :
  let ops := [by_thread (Some 8); fade false false; by_thread None; fade false false] in
  exists h', views own_only ops screen = Some h' /\ totals h' (foldl (viewed own_only) (on_screen, (0, 0)) ops).1 /\
    (period ∘ stat) <$> (foldl (viewed own_only) (on_screen, (0, 0)) ops).1 = [76].
Proof.
  intros ops. destruct (report_totals_stay own_only ops screen on_screen screen_shown) as (h' & E & _ & T).
  exists h'. split; [exact E|]. split; [apply T; repeat constructor|reflexivity].
Defined.

(** Zapping the kernel when all rows are of the kernel: no row is left, and
    total_period is what it was. *)
Theorem zapped_rows_counted : exists h',
  hists__decay_entries own_only false true screen = Some h' /\
  elems (entries h') = [] /\ nr_entries h' = 0 /\ total_period (stats h') = 101.
Proof. eexists. split; [vm_compute; reflexivity|]. split_and!; vm_compute; reflexivity. Qed.

(** ** Keys that do not stay what they were *)

Definition weighted (w : Z) : add_call :=
  AddCall (here 97 3 PERF_RECORD_MISC_USER) None None None (HistSample 1 w 0 0 false) true.
Definition sort_global_weight : sort_entry := SortEntry sort__global_weight_cmp None None.
Definition weights (h : hists) (x : nat) : option (Z * Z) :=
  e ← ents h !! x; Some (weight (stat e), nr_events (stat e)).

(** The key of a row is the sum of the weights so far: the third sample of the same
    weight gets a row of its own, and a sample of the double weight is added to the
    row of the two others. *)
Theorem global_weight_splits : exists h,
  add_all own_only [sort_column sort_global_weight] mem_ok [weighted 7; weighted 7; weighted 7; weighted 14] empty_hists = Some h /\
  weights h <$> elems (tree_in h) = [Some (28, 3); Some (7, 1)].
Proof. eexists. split; vm_compute; reflexivity. Qed.

(** A function that calls itself, sampled at [time]. *)
Definition recursing (time : Z) : hist_entry_iter :=
  Iter (HistSample 10 0 0 time true) None false (here 97 3 PERF_RECORD_MISC_USER) None 0 0 None None None.
Definition recursion : hists :=
  put_cursor (Cursor (replicate 3 (CursorNode (Frame 12296 (Some 9) None None) false no_flags 0 0 0)) 3 0) 0 empty_hists.
Definition accumulated (fmts : list perf_hpp_fmt) (time : Z) : outcome (list (option (Z * Z * Z))) :=
  match hist_entry_iter__add 5
    (hist_iter_cumulative cumulative fmts mem_ok CCKEY_ADDRESS (fun _ => Some libc) (fun _ => Some (sym_of 3)) (fun _ => false) true false)
    (recursing time) recursion
  with
  | Ran (_, h) => Ran (shown_row h <$> elems (tree_in h))
  | Faults => Faults
  | NoFuel => NoFuel
  end.

(** The entry that the cycles of a chain are looked for with has no time: with the
    time as a key, every frame of the recursion is counted again. *)
Theorem recursion_counted_again :
  accumulated columns 1000 = Ran [Some (10, 10, 1)] /\
  accumulated (columns ++ [sort_column sort_time]) 1000 = Ran [Some (10, 40, 4)].
Proof. split; vm_compute; reflexivity. Qed.

End HistExamples.
