(* ===== verification/HistCumul.v ===== *)
(** The cumulative mode of util/hist.c (perf report --children): a sample is added
    to the row of its place and, as a callee, to the rows of its callers.  However
    often a function occurs in a call chain, its row gets the sample once.

    The chain of a sample is in the cursor when hist_entry_iter__add starts; the
    calls that fill it are those of [fill_cursor]. *)

From S2P Require Import Prelude Callchain SortKeys Hists HistSpec HistReport.

(** A comparison that only looks at the members that the search for recursive
    calls fills in. *)
Class PlaceKey (cmp : hist_entry -> hist_entry -> Z) : Prop :=
  place_only a e e' : he_thread e = he_thread e' -> he_comm e = he_comm e' -> ms_map e = ms_map e' ->
    ms_sym e = ms_sym e' -> ip e = ip e' -> he_cpu e = he_cpu e' -> he_parent e = he_parent e' -> cmp a e = cmp a e'.

#[export] Instance place_default verbose : PlaceKey (hist_entry__cmp (default_columns verbose)).
Proof.
  intros a e e' _ E2 E3 E4 E5 _ _. cbn. unfold __sort__hpp_cmp. cbn [sort_comm sort_dso sort_sym se_cmp].
  unfold sort__comm_cmp, sort__sym_cmp, sort__dso_cmp. by rewrite E2, E3, E4, E5.
Qed.

(** * Chains of the entries *)

Section Chains.
Context `{EntryTree} `{ChainTree}.
Context (conf : symbol_conf) (fmts : list perf_hpp_fmt) (alloc_ok : nat -> bool).
Context (key : chain_key) (okf : frame -> Prop) `{!ChainKey key okf}.
Context (sym_at : Z -> hist_symbol) `{!SortKey sym_at (hist_entry__cmp fmts)}.
Context (memory : forall n, alloc_ok n = true).
Abbreviation ok := (entry_ok sym_at).
Abbreviation cmp := (hist_entry__cmp fmts).
Abbreviation in_table := (in_table conf fmts sym_at).
Abbreviation has_key := (has_key fmts).

Definition good_tree (root : callchain_root) : Prop := exists cs, root_ok key okf root cs.

(** The table, with a tree of call chains in every entry. *)
Record tables (h : hists) (es : list hist_entry) : Prop := {
  tc_in : in_table h es;
  tc_trees x e : x ∈ elems (tree_in h) -> ents h !! x = Some e -> good_tree (he_callchain e)
}.

Lemma tables_ok h es x e : tables h es -> x ∈ elems (tree_in h) -> ents h !! x = Some e -> ok e.
Proof.
  intros [T _] Hx Ex. pose proof (it_ok _ _ _ _ _ T) as Hf. rewrite Forall_forall in Hf. apply Hf.
  by eapply rows_elem; [apply T|..].
Qed.

(** Only chains of entries changed. *)
Record rechained (h h' : hists) (es es' : list hist_entry) : Prop := {
  rc_tables : tables h' es';
  rc_tree : tree_in h' = tree_in h;
  rc_keys k : ok k -> has_key k es' <-> has_key k es;
  rc_amount acc f P : by_key ok cmp P -> amount P (figs acc f) es' = amount P (figs acc f) es;
  rc_old y e : y ∈ elems (tree_in h) -> ents h !! y = Some e ->
    exists e', ents h' !! y = Some e' /\ same_key (ok := ok) cmp e e'
}.

Lemma rechained_refl h es : tables h es -> rechained h h es es.
Proof.
  intros Ht. split; try done. intros y e Hy Ey. exists e. split; [done|]. split; [|done]. by eapply tables_ok.
Qed.

Lemma split_row h es x e : in_table h es -> x ∈ elems (tree_in h) -> ents h !! x = Some e ->
  exists ids1 ids2 es1 es2, elems (tree_in h) = ids1 ++ x :: ids2 /\ es = es1 ++ e :: es2 /\
    rows (ents h) ids1 es1 /\ rows (ents h) ids2 es2 /\ (x ∉ ids1) /\ (x ∉ ids2).
Proof.
  intros Ht Hx Ex. apply list_elem_of_split in Hx as (ids1 & ids2 & Ei).
  pose proof (it_nodup _ _ _ _ _ Ht) as Hn. rewrite Ei in Hn. apply ids_mid in Hn as [N1 N2].
  pose proof (it_rows _ _ _ _ _ Ht) as Hr. rewrite Ei in Hr. unfold rows in Hr.
  apply Forall2_app_inv_l in Hr as (es1 & es2 & R1 & R2 & ->). apply Forall2_cons_inv_l in R2 as (e' & es3 & E' & R2 & ->).
  rewrite Ex in E'. injection E' as <-. by exists ids1, ids2, es1, es3.
Qed.

Lemma set_chain_ok h es x e c : tables h es -> x ∈ elems (tree_in h) -> ents h !! x = Some e -> good_tree c ->
  exists es', rechained h (put_ent x (set_chain c e) h) es es'.
Proof.
  intros Htab Hx Ex Hc. pose proof (fun y v => tables_ok h es y v Htab) as Hall. destruct Htab as [Ht Hg].
  destruct (split_row h es x e Ht Hx Ex) as (ids1 & ids2 & es1 & es2 & Ei & Ees & R1 & R2 & N1 & N2).
  set (e' := set_chain c e). assert (Oe : ok e) by (by eapply Hall).
  pose proof (recasts_same sym_at cmp e e' (recasts_chain c e) Oe) as Hk. exists (es1 ++ e' :: es2).
  destruct Ht as [_ T2 T3 T4 T5 T6 T7]. subst es. change (tree_in h) with (tree_in (put_ent x e' h)) in Ei.
  split; [split; [split|]|done|..].
  - rewrite Ei. by apply rows_insert.
  - eapply Forall_mid; [exact T2|apply Hk].
  - eapply (same_key_ordered (ok := ok) cmp e e' es1 es2 Hk Oe); [|exact T3]. rewrite Forall_app, Forall_cons in T2.
    rewrite Forall_app. tauto.
  - done.
  - cbn. intros y [v Hv]. apply T5. destruct (decide (y = x)) as [->|Hne]; [by rewrite Ex|].
    rewrite lookup_insert_ne in Hv by done. by eexists.
  - intros Hq. specialize (T6 Hq). eapply Forall_mid; [exact T6|]. rewrite Forall_app, Forall_cons in T6. apply T6.
  - intros Hq. specialize (T7 Hq). eapply Forall_mid; [exact T7|]. rewrite Forall_app, Forall_cons in T7. apply T7.
  - intros y v Hy. cbn. destruct (decide (y = x)) as [->|Hne].
    + rewrite lookup_insert_eq. by intros [= <-].
    + rewrite lookup_insert_ne by done. by apply Hg.
  - intros k Hok. rewrite !has_key_mid. pose proof (same_key_zero (ok := ok) cmp e e' k Hk Hok) as Hz.
    destruct (Z.eqb_spec (cmp e' k) 0), (Z.eqb_spec (cmp e k) 0); try done; tauto.
  - intros acc f P HP. rewrite !amount_mid. by rewrite (same_by_key P e e' _ HP Oe Hk).
  - intros y v Hy Ey. cbn. destruct (decide (y = x)) as [->|Hne].
    + rewrite lookup_insert_eq. exists e'. rewrite Ex in Ey. injection Ey as <-. done.
    + rewrite lookup_insert_ne by done. exists v. split; [done|]. split; [|done]. by eapply Hall.
Qed.

(** The cursor, the counters and the statistics are no part of the table. *)
Lemma tables_cursor c a h es : tables h es -> tables (put_cursor c a h) es.
Proof. intros [[] Hg]. by split. Qed.
Lemma tables_stats s h es : tables h es -> tables (put_stats s h) es.
Proof. intros [[] Hg]. by split. Qed.
Lemma rechained_cursor c a h h' es es' : rechained h h' es es' -> rechained h (put_cursor c a h') es es'.
Proof. intros [R1 R2 R3 R4 R5]. split; try done. by apply tables_cursor. Qed.
Lemma rechained_stats s h h' es es' : rechained h h' es es' -> rechained h (put_stats s h') es es'.
Proof. intros [R1 R2 R3 R4 R5]. split; try done. by apply tables_stats. Qed.

(** The cursor holds the chain [l]. *)
Definition holds (cur : callchain_cursor) (l : list callchain_cursor_node) : Prop :=
  c_nr cur = length l /\ (c_nr cur <= length (c_nodes cur))%nat /\ take (c_nr cur) (c_nodes cur) = l.
Definition frames_ok (l : list callchain_cursor_node) : Prop := Forall (node_ok okf) l /\ zlen l < 2 ^ 32.

Lemma holds_snapshot cur l : holds cur l -> (c_pos cur <= length l)%nat ->
  holds (callchain_cursor_snapshot cur) (drop (c_pos cur) l).
Proof.
  intros (H1 & H2 & H3) Hp. unfold callchain_cursor_snapshot. split; cbn.
  - rewrite length_drop. lia.
  - rewrite length_drop. split; [lia|]. rewrite <- H3, skipn_firstn_comm. done.
Qed.

Lemma frames_drop n l : frames_ok l -> frames_ok (drop n l).
Proof. intros [H1 H2]. split; [by apply Forall_drop|]. unfold zlen in *. rewrite length_drop. lia. Qed.

Lemma append_ok h es x e cur l p : tables h es -> x ∈ elems (tree_in h) -> ents h !! x = Some e ->
  has_callchains e = true -> holds cur l -> frames_ok l -> is_uint 64 p ->
  exists cur' h' es', append_chain_to alloc_ok key x cur p h = Some (0, cur', h') /\ holds cur' l /\
    cursor h' = cursor h /\ rechained h h' es es'.
Proof.
  intros Ht Hx Ex Hs (H1 & H2 & H3) [F1 F2] Hp. unfold append_chain_to. rewrite Ex. cbn [mbind option_bind].
  rewrite Hs. cbn [negb].
  destruct (tc_trees _ _ Ht x e Hx Ex) as [cs Hr].
  assert (Happ : exists root cur' a, callchain_append alloc_ok key (he_callchain e) cur p (allocs h) = Some (0, root, cur', a) /\
    good_tree root /\ same_cur cur cur').
  { destruct l as [|n l].
    - exists (he_callchain e), cur, (allocs h). unfold callchain_append. rewrite H1. cbn. split; [done|]. split; [by exists cs|done].
    - destruct (callchain_append_ok key okf alloc_ok memory (he_callchain e) cs cur (allocs h) (n :: l) p) as (root & cur' & a & E & R & S);
        [done|by split; [|split; [|split]]|done..|]. exists root, cur', a. split; [done|]. split; [by eexists|done]. }
  destruct Happ as (root & cur' & a & -> & Hg & [S1 S2]). cbn [mbind option_bind].
  destruct (set_chain_ok h es x e root Ht Hx Ex Hg) as [es' Hc].
  eexists cur', _, es'. split; [reflexivity|]. split; [unfold holds; by rewrite S1, S2|]. split; [done|]. by apply rechained_cursor.
Qed.

(** * One sample *)

Context `{!PlaceKey (hist_entry__cmp fmts)} (cumul : cumulate_callchain conf = true).
Context (chains_there : show_branchflag_count conf = true -> use_callchain conf = true).
Context (frame_map : frame -> option hist_map) (frame_sym : frame -> option hist_symbol).
Context (in_kmaps : hist_map -> bool) (host perf_guest : bool).
Abbreviation cumulative := (hist_iter_cumulative conf fmts alloc_ok key frame_map frame_sym in_kmaps host perf_guest).
Abbreviation fill := (fill_callchain_info frame_map frame_sym in_kmaps host perf_guest).

(** The places of the callers, up to one that is hidden; [None] is the access
    through a map that is NULL. *)
Fixpoint chain_places (hide : bool) (al : addr_location) (l : list callchain_cursor_node) : option (list addr_location) :=
  match l with
  | [] => Some []
  | n :: l =>
      '(r, al) ← fill al n hide;
      if r =? 0 then Some [] else als ← chain_places hide al l; Some (al :: als)
  end.

Section Sample.
Context (s : hist_sample) (parent : option hist_symbol).
Context (Hperiod : is_uint 64 (sm_period s)).

Definition entry_at (al : addr_location) : hist_entry := wanted conf (AddCall al parent None None s false).
Definition share (f : figure) (al : addr_location) : Z := gives f (a_cpumode al) (sm_period s) (sm_weight s).

(** What the row with the key [k] gets: the sample once, in the mode of the first
    of the places with that key. *)
Fixpoint once (f : figure) (k : hist_entry) (v : list addr_location) : Z :=
  match v with
  | [] => 0
  | al :: v => if cmp (entry_at al) k =? 0 then share f al else once f k v
  end.

Lemma once_before f k v al : (exists a, a ∈ v /\ cmp (entry_at a) k = 0) -> once f k (v ++ [al]) = once f k v.
Proof.
  induction v as [|b v IH]; intros (a & Ha & Hz); [by apply not_elem_of_nil in Ha|]. cbn.
  destruct (Z.eqb_spec (cmp (entry_at b) k) 0); [done|]. apply IH. apply elem_of_cons in Ha as [->|Ha]; [done|by exists a].
Qed.

Lemma once_first f k v al : (forall a, a ∈ v -> cmp (entry_at a) k <> 0) ->
  once f k v = 0 /\ once f k (v ++ [al]) = if cmp (entry_at al) k =? 0 then share f al else 0.
Proof.
  induction v as [|b v IH]; intros Ha; [by cbn; destruct (_ =? 0)|]. cbn.
  rewrite (proj2 (Z.eqb_neq _ _) (Ha b ltac:(by constructor))). apply IH. intros a Hin. apply Ha. by constructor.
Qed.

Definition known (v : list addr_location) (k : hist_entry) : Prop := exists al, al ∈ v /\ cmp (entry_at al) k = 0.
Definition all_ok (v : list addr_location) : Prop := Forall (fun al => ok (entry_at al)) v.

Lemma known_dec v k : known v k \/ forall al, al ∈ v -> cmp (entry_at al) k <> 0.
Proof.
  induction v as [|b v IH]; [right; by intros al Hal%not_elem_of_nil|].
  destruct (Z.eq_dec (cmp (entry_at b) k) 0) as [Hz|Hz]; [left; exists b; split; [by constructor|done]|].
  destruct IH as [(a & Ha & Hz')|IH]; [left; exists a; split; [by constructor|done]|].
  right. intros al [->|Hal]%elem_of_cons; [done|by apply IH].
Qed.

(** Equal to something equal. *)
Lemma cmp_through a b c : ok a -> ok b -> ok c -> cmp a b = 0 -> cmp a c = 0 <-> cmp b c = 0.
Proof. intros Ha Hb Hc Hz. pose proof (ord_eq_l (ok := ok) (cmp := cmp) a b c Ha Hb Hc Hz). lia. Qed.
Lemma cmp_zero_sym a b : ok a -> ok b -> cmp a b = 0 -> cmp b a = 0.
Proof. intros Ha Hb Hz. pose proof (ord_sym (ok := ok) (cmp := cmp) a b Ha Hb). lia. Qed.

Lemma once_step f k v al : all_ok (v ++ [al]) -> ok k -> ~ known v (entry_at al) ->
  once f k (v ++ [al]) = once f k v + if cmp (entry_at al) k =? 0 then share f al else 0.
Proof.
  intros Hv Hk Hn. apply Forall_app in Hv as [Hv Hal]. apply Forall_cons in Hal as [Hal _].
  destruct (known_dec v k) as [Hkn|Hno].
  - rewrite once_before by done. destruct (Z.eqb_spec (cmp (entry_at al) k) 0) as [Hz|]; [|lia]. destruct Hn.
    destruct Hkn as (a & Ha & Hza). exists a. split; [done|]. rewrite Forall_forall in Hv. specialize (Hv a Ha).
    apply (cmp_through (entry_at a) k (entry_at al) Hv Hk Hal Hza). by apply cmp_zero_sym.
  - destruct (once_first f k v al Hno) as [-> ->]. done.
Qed.

Lemma add_here_ok h es al self : tables h es -> ok (entry_at al) ->
  exists x h' es', hists__add_entry conf fmts alloc_ok al parent None None s self h = Some (Some x, h') /\
    added conf fmts sym_at (entry_at al) (a_cpumode al) self h h' es es' x /\ tables h' es'.
Proof.
  intros [Ht Hg] Ho. destruct (add_entry_ok conf fmts alloc_ok sym_at memory (AddCall al parent None None s self) h es Ht)
    as (x & h' & es' & E & Ha); [split; [done|by right]|]. exists x, h', es'. split; [done|]. split; [done|].
  split; [apply Ha|]. intros y e Hy Ey. destruct (decide (y ∈ elems (tree_in h))) as [Hy'|Hy'].
  - destruct (rows_known _ _ _ y (it_rows _ _ _ _ _ Ht) Hy') as [e0 E0].
    destruct (ad_old _ _ _ _ _ _ _ _ _ _ _ Ha y e0 Hy' E0) as (e' & E' & _ & _ & Ec). rewrite Ey in E'. injection E' as <-.
    rewrite Ec. by apply (Hg y).
  - rewrite (ad_new _ _ _ _ _ _ _ _ _ _ _ Ha y e Hy Hy' Ey). exists []. apply root_ok_init.
Qed.

(** ** What is true after the places [v], of which the rows [cache] were made *)

Record progress (es0 : list hist_entry) (al0 : addr_location) (v : list addr_location) (cache : list nat) (h : hists)
    (es : list hist_entry) : Prop := {
  pr_tables : tables h es;
  pr_ok : all_ok v;
  pr_keys k : ok k -> has_key k es <-> has_key k es0 \/ known v k;
  pr_own f k : ok k -> eqf f (amount (with_key cmp k) (figs false f) es)
    (amount (with_key cmp k) (figs false f) es0 + if cmp (entry_at al0) k =? 0 then share f al0 else 0);
  pr_acc f k : ok k -> eqf f (amount (with_key cmp k) (figs true f) es)
    (amount (with_key cmp k) (figs true f) es0 + once f k v);
  pr_rows x : x ∈ cache -> exists e al, ents h !! x = Some e /\ x ∈ elems (tree_in h) /\ al ∈ v /\ cmp e (entry_at al) = 0;
  pr_all al : al ∈ v -> exists x e, x ∈ cache /\ ents h !! x = Some e /\ cmp e (entry_at al) = 0
}.

Lemma same_key_eq e e' k : same_key (ok := ok) cmp e e' -> ok k -> cmp e k = 0 -> cmp e' k = 0.
Proof. intros [_ Hs] Hk Hz. specialize (Hs k Hk). lia. Qed.

Lemma progress_rechained es0 al0 v cache h h' es es' :
  progress es0 al0 v cache h es -> rechained h h' es es' -> progress es0 al0 v cache h' es'.
Proof.
  intros [P1 P2 P3 P4 P5 P6 P7] [R1 R2 R3 R4 R5]. pose proof P2 as Hv. unfold all_ok in Hv. rewrite Forall_forall in Hv.
  assert (By : forall k, ok k -> by_key ok cmp (with_key cmp k)) by (intros k Hk; apply by_key_with; [apply _|done]).
  split; [done|done|..].
  - intros k Hk. by rewrite (R3 k Hk), (P3 k Hk).
  - intros f k Hk. rewrite (R4 false f _ (By k Hk)). by apply P4.
  - intros f k Hk. rewrite (R4 true f _ (By k Hk)). by apply P5.
  - intros x Hx. destruct (P6 x Hx) as (e & al & Ex & Hin & Hal & Hz). destruct (R5 x e Hin Ex) as (e' & Ex' & Hk).
    exists e', al. rewrite R2. split; [done|]. split; [done|]. split; [done|]. by apply (same_key_eq e e' _ Hk); [apply Hv|].
  - intros al Hal. destruct (P7 al Hal) as (x & e & Hx & Ex & Hz). destruct (P6 x Hx) as (e1 & _ & Ex1 & Hin & _).
    rewrite Ex in Ex1. injection Ex1 as <-. destruct (R5 x e Hin Ex) as (e' & Ex' & Hk). exists x, e'.
    split; [done|]. split; [done|]. by apply (same_key_eq e e' _ Hk); [apply Hv|].
Qed.

Lemma known_snoc v al k : known (v ++ [al]) k <-> known v k \/ cmp (entry_at al) k = 0.
Proof.
  unfold known. setoid_rewrite elem_of_app. setoid_rewrite list_elem_of_singleton. split.
  - intros (a & [Ha| ->] & Hz); eauto.
  - intros [(a & Ha & Hz)|Hz]; eauto.
Qed.

Lemma all_ok_snoc v al : all_ok v -> ok (entry_at al) -> all_ok (v ++ [al]).
Proof. intros Hv Hal. apply Forall_app. split; [done|]. by constructor. Qed.

Lemma by_with k : ok k -> by_key ok cmp (with_key cmp k).
Proof. intros Hk. apply by_key_with; [apply _|done]. Qed.

(** The place of the sample itself. *)
Lemma progress_first h h' es es' x al : added conf fmts sym_at (entry_at al) (a_cpumode al) true h h' es es' x -> tables h' es' ->
  ok (entry_at al) -> progress es al [al] [x] h' es'.
Proof.
  intros Ha Ht Ho. destruct (ad_row _ _ _ _ _ _ _ _ _ _ _ Ha) as (he & Ex & Hin & _ & Hz).
  split; [done|by constructor|..].
  - intros k Hk. rewrite (ad_keys _ _ _ _ _ _ _ _ _ _ _ Ha k Hk). unfold known. setoid_rewrite list_elem_of_singleton.
    split; (intros [|Hx]; [by left|]); right; [by exists al|by destruct Hx as (a & -> & Hx)].
  - intros f k Hk. rewrite (ad_amount _ _ _ _ _ _ _ _ _ _ _ Ha false f _ (by_with k Hk)) by done. unfold with_key at 2.
    cbn [orb]. rewrite andb_true_r. reflexivity.
  - intros f k Hk. rewrite (ad_amount _ _ _ _ _ _ _ _ _ _ _ Ha true f _ (by_with k Hk)) by done. unfold with_key at 2.
    cbn [orb once]. rewrite andb_true_r. reflexivity.
  - intros y ->%list_elem_of_singleton. exists he, al. split; [done|]. split; [done|]. split; [by constructor|done].
  - intros a ->%list_elem_of_singleton. exists x, he. split; [by constructor|done].
Qed.

(** A place that is met again. *)
Lemma progress_seen es0 al0 v cache h es al : progress es0 al0 v cache h es -> ok (entry_at al) -> known v (entry_at al) ->
  progress es0 al0 (v ++ [al]) cache h es.
Proof.
  intros [P1 P2 P3 P4 P5 P6 P7] Ho (a & Ha & Hz). pose proof P2 as Hv. unfold all_ok in Hv. rewrite Forall_forall in Hv.
  pose proof (Hv a Ha) as Oa.
  assert (Hkn : forall k, ok k -> known (v ++ [al]) k <-> known v k).
  { intros k Hk. rewrite known_snoc. split; [|by left]. intros [|Hx]; [done|]. exists a. split; [done|].
    by apply (cmp_through (entry_at a) (entry_at al) k). }
  split; [done|by apply all_ok_snoc|..].
  - intros k Hk. by rewrite (P3 k Hk), (Hkn k Hk).
  - done.
  - intros f k Hk. rewrite (P5 f k Hk). destruct (known_dec v k) as [Hy|Hn]; [by rewrite once_before|].
    destruct (once_first f k v al Hn) as [-> ->]. destruct (Z.eqb_spec (cmp (entry_at al) k) 0) as [Hx|]; [|done].
    destruct (Hn a Ha). by apply (cmp_through (entry_at a) (entry_at al) k).
  - intros x Hx. destruct (P6 x Hx) as (e & b & Ex & Hin & Hb & Hzb). exists e, b. split_and!; try done. by apply elem_of_app; left.
  - intros b Hb. apply elem_of_app in Hb as [Hb|Hb]; [by apply P7|]. apply list_elem_of_singleton in Hb as ->.
    destruct (P7 a Ha) as (x & e & Hx & Ex & Hza). exists x, e. split; [done|]. split; [done|].
    destruct (P6 x Hx) as (e1 & _ & Ex1 & Hin & _). rewrite Ex in Ex1. injection Ex1 as <-.
    pose proof (tables_ok h es x e P1 Hin Ex) as Oe. by apply (cmp_through e (entry_at a) (entry_at al)).
Qed.

(** A new place. *)
Lemma progress_new es0 al0 v cache h h' es es' x al : progress es0 al0 v cache h es -> ok (entry_at al) ->
  ~ known v (entry_at al) -> added conf fmts sym_at (entry_at al) (a_cpumode al) false h h' es es' x -> tables h' es' ->
  progress es0 al0 (v ++ [al]) (cache ++ [x]) h' es'.
Proof.
  intros [P1 P2 P3 P4 P5 P6 P7] Ho Hn Ha Ht. pose proof P2 as Hv. unfold all_ok in Hv. rewrite Forall_forall in Hv.
  assert (Hold : forall y e b, ents h !! y = Some e -> y ∈ elems (tree_in h) -> b ∈ v -> cmp e (entry_at b) = 0 ->
    exists e', ents h' !! y = Some e' /\ y ∈ elems (tree_in h') /\ cmp e' (entry_at b) = 0).
  { intros y e b Ey Hy Hb Hz. destruct (ad_old _ _ _ _ _ _ _ _ _ _ _ Ha y e Hy Ey) as (e' & Ey' & Hy' & Hk & _).
    exists e'. split; [done|]. split; [done|]. by apply (same_key_eq e e'); [|apply Hv|]. }
  destruct (ad_row _ _ _ _ _ _ _ _ _ _ _ Ha) as (he & Ex & Hin & _ & Hz).
  split; [done|by apply all_ok_snoc|..].
  - intros k Hk. rewrite (ad_keys _ _ _ _ _ _ _ _ _ _ _ Ha k Hk), (P3 k Hk), known_snoc. tauto.
  - intros f k Hk. rewrite (ad_amount _ _ _ _ _ _ _ _ _ _ _ Ha false f _ (by_with k Hk)) by done.
    rewrite andb_false_r, Z.add_0_r. by apply P4.
  - intros f k Hk. rewrite (ad_amount _ _ _ _ _ _ _ _ _ _ _ Ha true f _ (by_with k Hk)) by done. unfold with_key at 2.
    rewrite orb_true_r, andb_true_r, (P5 f k Hk), (once_step f k v al (all_ok_snoc v al P2 Ho) Hk Hn).
    rewrite Z.add_assoc. reflexivity.
  - intros y Hy. apply elem_of_app in Hy as [Hy|Hy].
    + destruct (P6 y Hy) as (e & b & Ey & Hiny & Hb & Hzb). destruct (Hold y e b Ey Hiny Hb Hzb) as (e' & E1 & E2 & E3).
      exists e', b. split_and!; try done. by apply elem_of_app; left.
    + apply list_elem_of_singleton in Hy as ->. exists he, al. split_and!; try done. apply elem_of_app. right. by constructor.
  - intros b Hb. apply elem_of_app in Hb as [Hb|Hb].
    + destruct (P7 b Hb) as (y & e & Hy & Ey & Hzb). destruct (P6 y Hy) as (e1 & _ & Ey1 & Hiny & _).
      rewrite Ey in Ey1. injection Ey1 as <-. destruct (Hold y e b Ey Hiny Hb Hzb) as (e' & E1 & _ & E3).
      exists y, e'. split; [by apply elem_of_app; left|done].
    + apply list_elem_of_singleton in Hb as ->. exists x, he. split; [apply elem_of_app; right; by constructor|done].
Qed.

(** The search for recursion finds the places that have a row. *)
Lemma seen_before_spec h cache e : (forall x, x ∈ cache -> is_Some (ents h !! x)) ->
  exists b, seen_before fmts cache e h = Some b /\
    (b = true <-> exists x he, x ∈ cache /\ ents h !! x = Some he /\ cmp he e = 0).
Proof.
  induction cache as [|x cache IH]; intros Hx; cbn [seen_before].
  - exists false. split; [done|]. split; [done|]. intros (x & _ & Hn%not_elem_of_nil & _). done.
  - destruct (Hx x ltac:(by constructor)) as [he Ex]. rewrite Ex. cbn [mbind option_bind].
    destruct (Z.eqb_spec (cmp he e) 0) as [Hz|Hz].
    + exists true. split; [done|]. split; [|done]. intros _. exists x, he. split; [by constructor|done].
    + destruct IH as (b & -> & Hb); [intros y Hy; apply Hx; by constructor|]. exists b. split; [done|]. rewrite Hb. split.
      * intros (y & v & Hy & Ey & Hz'). exists y, v. split; [by constructor|done].
      * intros (y & v & [->|Hy]%elem_of_cons & Ey & Hz'); [congruence|by exists y, v].
Qed.

(** ** The iterator *)

Record running (hide : bool) (l : list callchain_cursor_node) (al : addr_location) (cache : list nat) (i : hist_entry_iter) : Prop := {
  ru_sample : i_sample i = s;
  ru_parent : i_parent i = parent;
  ru_hide : hide_unresolved i = hide;
  ru_al : i_al i = al;
  ru_cache : i_cache i = Some (S (length l), cache);
  ru_curr : i_curr i = length cache
}.

Record at_frame (l : list callchain_cursor_node) (pos : nat) (cache : list nat) (h : hists) : Prop := {
  af_holds : holds (cursor h) l;
  af_pos : c_pos (cursor h) = pos;
  af_room : (length cache <= S pos)%nat
}.

Lemma known_cached es0 al0 v cache h es e : progress es0 al0 v cache h es -> ok e ->
  (exists x he, x ∈ cache /\ ents h !! x = Some he /\ cmp he e = 0) <-> known v e.
Proof.
  intros [P1 P2 P3 P4 P5 P6 P7] Ho. pose proof P2 as Hv. unfold all_ok in Hv. rewrite Forall_forall in Hv. split.
  - intros (x & he & Hx & Ex & Hz). destruct (P6 x Hx) as (he1 & al & Ex1 & Hin & Hal & Hz1). rewrite Ex in Ex1. injection Ex1 as <-.
    exists al. split; [done|]. pose proof (tables_ok h es x he P1 Hin Ex) as Oe.
    by apply (cmp_through he (entry_at al) e Oe (Hv al Hal) Ho Hz1).
  - intros (al & Hal & Hz). destruct (P7 al Hal) as (x & he & Hx & Ex & Hz1). exists x, he. split; [done|]. split; [done|].
    destruct (P6 x Hx) as (he1 & _ & Ex1 & Hin & _). rewrite Ex in Ex1. injection Ex1 as <-.
    pose proof (tables_ok h es x he P1 Hin Ex) as Oe. by apply (cmp_through he (entry_at al) e Oe (Hv al Hal) Ho Hz1).
Qed.

Lemma he_tmp_cmp i a : i_sample i = s -> i_parent i = parent -> cmp a (he_tmp i) = cmp a (entry_at (i_al i)).
Proof. intros Es Ep. by apply place_only. Qed.

Lemma progress_cursor es0 al0 v cache h es c a : progress es0 al0 v cache h es -> progress es0 al0 v cache (put_cursor c a h) es.
Proof. intros [P1 P2 P3 P4 P5 P6 P7]. split; try done. by apply tables_cursor. Qed.

Lemma add_next_ok es0 al0 v cache h es i l hide pos al : progress es0 al0 v cache h es -> running hide l al cache i ->
  at_frame l pos cache h -> frames_ok l -> (pos < length l)%nat -> ok (entry_at al) ->
  exists i' h' es' cache', iter_add_next_cumulative_entry conf fmts alloc_ok key i h = Some (0, i', h') /\
    progress es0 al0 (v ++ [al]) cache' h' es' /\ running hide l al cache' i' /\ at_frame l (S pos) cache' h'.
Proof.
  intros Hp [U1 U2 U3 U4 U5 U6] [A1 A2 A3] Hf Hpos Ho. unfold iter_add_next_cumulative_entry.
  set (h1 := put_cursor (callchain_cursor_advance (cursor h)) (allocs h) h). rewrite U5. cbn [mbind option_bind].
  pose proof (progress_cursor _ _ _ _ _ _ (callchain_cursor_advance (cursor h)) (allocs h) Hp) as Hp1. fold h1 in Hp1.
  assert (Hc1 : holds (cursor h1) l) by done. assert (Hq1 : c_pos (cursor h1) = S pos) by (cbn; by rewrite A2).
  destruct (seen_before_spec h1 cache (he_tmp i)) as (b & -> & Hb).
  { intros x Hx. destruct (pr_rows _ _ _ _ _ _ Hp1 x Hx) as (e & _ & Ex & _). by exists e. }
  setoid_rewrite (fun a => he_tmp_cmp i a U1 U2) in Hb. rewrite U4, (known_cached _ _ _ _ _ _ _ Hp1 Ho) in Hb.
  cbn [mbind option_bind]. destruct b.
  - exists (set_he None i), h1, es, cache. split; [done|]. split; [by apply progress_seen; [|..|apply Hb]|].
    split; [by split|]. split; [done|done|lia].
  - assert (Hn : ~ known v (entry_at al)) by (intros Hk; by apply Hb in Hk).
    unfold add_here. rewrite U1, U2, U4.
    destruct (add_here_ok h1 es al false (pr_tables _ _ _ _ _ _ Hp1) Ho) as (x & h2 & es2 & -> & Ha & Ht2).
    cbn -[Z.eqb]. cbn [Z.eqb negb].
    pose proof (progress_new _ _ _ _ _ _ _ _ _ _ Hp1 Ho Hn Ha Ht2) as Hp2.
    destruct (ad_row _ _ _ _ _ _ _ _ _ _ _ Ha) as (he & Ex & Hin & _ & _).
    pose proof (kept_cursor _ _ (ad_kept _ _ _ _ _ _ _ _ _ _ _ Ha)) as Ec.
    rewrite U5, U6. cbn [mbind option_bind]. rewrite (proj2 (Nat.leb_gt _ _)) by lia. rewrite Ex. cbn [mbind option_bind].
    assert (Hlen : length (cache ++ [x]) = S (length cache)) by (rewrite length_app; cbn; lia).
    set (i' := set_curr _ _). assert (Hi : running hide l al (cache ++ [x]) i') by (by split).
    destruct (has_callchains he && use_callchain conf) eqn:Ech; [apply andb_true_iff in Ech as [Ech _]|].
    + destruct (append_ok h2 es2 x he (callchain_cursor_snapshot (cursor h)) (drop pos l) (sm_period s)) as (c' & h3 & es3 & E3 & _ & C3 & R3);
        [done|done|done|done|rewrite <- A2; apply holds_snapshot; [done|lia]|by apply frames_drop|done|].
      change (i_sample i') with (i_sample i). rewrite U1, E3. cbn [mbind option_bind].
      exists i', h3, es3, (cache ++ [x]). split; [done|]. split; [by eapply progress_rechained|]. split; [done|].
      split; rewrite ?C3, ?Ec; [done|done|lia].
    + exists i', h2, es2, (cache ++ [x]). split; [done|]. split; [done|]. split; [done|]. split; rewrite ?Ec; [done|done|lia].
Qed.

(** All frames from [pos] on. *)
Lemma frames_loop es0 al0 hide l : frames_ok l -> forall rest pos v cache h es i al als fuel,
  rest = drop pos l -> (pos <= length l)%nat -> (length rest < fuel)%nat ->
  progress es0 al0 v cache h es -> running hide l al cache i -> at_frame l pos cache h ->
  chain_places hide al rest = Some als -> all_ok als ->
  exists i' h' es' cache', next_entries fuel cumulative i h = Ran (0, i', h') /\ progress es0 al0 (v ++ als) cache' h' es'.
Proof.
  intros Hf rest. induction rest as [|n rest IH]; intros pos v cache h es i al als fuel Er Hle Hfu Hp Hi Ha Hc Hok;
    (destruct fuel as [|fuel]; [lia|]); destruct Ha as [(A1 & A2 & A3) A4 A5];
    cbn [next_entries next_entry add_next_entry hist_iter_cumulative]; unfold iter_next_cumulative_entry, callchain_cursor_current.
  - pose proof (f_equal length Er) as El. rewrite length_drop in El. cbn in El.
    rewrite A4, A1, (proj2 (Nat.eqb_eq pos (length l))) by lia. cbn. injection Hc as <-. rewrite app_nil_r.
    by exists i, h, es, cache.
  - pose proof (f_equal length Er) as El. rewrite length_drop in El. cbn [length] in El.
    assert (En : c_nodes (cursor h) !! pos = Some n).
    { rewrite <- (lookup_take_lt _ (c_nr (cursor h))) by lia. rewrite A3.
      rewrite <- (Nat.add_0_r pos), <- lookup_drop, <- Er. done. }
    rewrite A4, A1, (proj2 (Nat.eqb_neq pos (length l))) by lia. rewrite En.
    cbn [chain_places] in Hc. rewrite (ru_al _ _ _ _ _ Hi), (ru_hide _ _ _ _ _ Hi).
    destruct (fill al n hide) as [[r al1]|] eqn:Ef; [|done]. cbn [mbind option_bind] in *.
    destruct (Z.eqb_spec r 0) as [->|Hr].
    + injection Hc as <-. rewrite app_nil_r. by eexists _, h, es, cache.
    + destruct (chain_places hide al1 rest) as [als'|] eqn:Eals; [|done]. injection Hc as <-. apply Forall_cons in Hok as [Ho Hok].
      assert (Hi1 : running hide l al1 cache (set_al al1 i)) by (destruct Hi; by split).
      destruct (add_next_ok _ _ _ _ _ _ _ l hide pos al1 Hp Hi1 ltac:(by split; [split; [|split]| |]) Hf ltac:(lia) Ho)
        as (i2 & h2 & es2 & cache2 & -> & Hp2 & Hi2 & Ha2). cbn [negb Z.eqb].
      destruct (IH (S pos) (v ++ [al1]) cache2 h2 es2 i2 al1 als' fuel) as (i3 & h3 & es3 & cache3 & E3 & Hp3); try done; try lia.
      * replace (S pos) with (pos + 1)%nat by lia. by rewrite <- drop_drop, <- Er.
      * cbn in Hfu. lia.
      * exists i3, h3, es3, cache3. split; [done|]. by rewrite <- app_assoc in Hp3.
Qed.

Lemma tables_chains h es x e : tables h es -> x ∈ elems (tree_in h) -> ents h !! x = Some e -> use_callchain conf = true ->
  has_callchains e = true.
Proof.
  intros [T _] Hx Ex Hu. pose proof (it_chains _ _ _ _ _ T Hu) as Hf. rewrite Forall_forall in Hf. apply Hf.
  by eapply rows_elem; [apply T|..].
Qed.

(** The chain of the sample goes to the row of its place. *)
Lemma own_chain_ok es al v cache h es1 x l : progress es al v cache h es1 -> x ∈ cache -> holds (cursor h) l -> frames_ok l ->
  exists h' es', hist_entry__append_callchain conf alloc_ok key x s h = Some (0, h') /\ progress es al v cache h' es' /\
    holds (cursor h') l.
Proof.
  intros Hp Hx Hl Hf. unfold hist_entry__append_callchain. destruct (_ && _) eqn:Eg; [by exists h, es1|].
  destruct (pr_rows _ _ _ _ _ _ Hp x Hx) as (e & _ & Ex & Hin & _).
  assert (Hu : use_callchain conf = true).
  { destruct (use_callchain conf) eqn:Eu; [done|]. cbn in Eg. apply negb_false_iff in Eg. specialize (chains_there Eg). congruence. }
  pose proof (tables_chains h es1 x e (pr_tables _ _ _ _ _ _ Hp) Hin Ex Hu) as Hs.
  destruct (append_ok h es1 x e (cursor h) l (sm_period s) (pr_tables _ _ _ _ _ _ Hp) Hin Ex Hs Hl Hf Hperiod)
    as (c' & h' & es' & -> & Hc' & _ & R). cbn [mbind option_bind].
  eexists _, es'. split; [reflexivity|]. split; [|done]. apply progress_cursor. by eapply progress_rechained.
Qed.

Lemma progress_stats es0 al0 v cache h es st : progress es0 al0 v cache h es -> progress es0 al0 v cache (put_stats st h) es.
Proof. intros [P1 P2 P3 P4 P5 P6 P7]. split; try done. by apply tables_stats. Qed.

Lemma add_single_ok h es al l hide i : tables h es -> running hide l al [] i -> holds (cursor h) l -> frames_ok l ->
  ok (entry_at al) ->
  exists i' h' es' cache, iter_add_single_cumulative_entry conf fmts alloc_ok key i h = Some (0, i', h') /\
    progress es al [al] cache h' es' /\ running hide l al cache i' /\ at_frame l 0 cache h'.
Proof.
  intros Ht [U1 U2 U3 U4 U5 U6] Hl Hf Ho. unfold iter_add_single_cumulative_entry, add_here. rewrite U1, U2, U4.
  destruct (add_here_ok h es al true Ht Ho) as (x & h1 & es1 & -> & Ha & Ht1). cbn -[Z.eqb]. cbn [Z.eqb negb].
  rewrite U5, U6. cbn [mbind option_bind length Nat.leb app]. set (i' := set_curr _ _).
  pose proof (kept_cursor _ _ (ad_kept _ _ _ _ _ _ _ _ _ _ _ Ha)) as Ec.
  destruct (own_chain_ok es al [al] [x] h1 es1 x l (progress_first _ _ _ _ _ _ Ha Ht1 Ho) ltac:(by constructor) ltac:(by rewrite Ec) Hf)
    as (h2 & es2 & E2 & Hp2 & Hl2).
  change (i_sample i') with (i_sample i). rewrite U1, E2. cbn [mbind option_bind].
  destruct (pr_rows _ _ _ _ _ _ Hp2 x ltac:(by constructor)) as (e2 & _ & Ex2 & _).
  unfold count_sample. cbn [put_cursor ents]. rewrite Ex2. cbn [mbind option_bind].
  eexists i', _, es2, [x]. split; [reflexivity|]. split; [by apply progress_stats, progress_cursor|]. split; [by split|].
  split; [done|done|cbn; lia].
Qed.

(** The iterator starts without rows, and with the chain in the cursor. *)
Definition start_iter (hide : bool) (al : addr_location) : hist_entry_iter := Iter s parent hide al None 0 0 None None None.

Lemma sample_ok h es al l hide als fuel : tables h es -> holds (cursor h) l -> frames_ok l -> (length l < fuel)%nat ->
  ok (entry_at al) -> chain_places hide al l = Some als -> all_ok als ->
  exists h' es' cache, hist_entry_iter__add fuel cumulative (start_iter hide al) h = Ran (0, h') /\
    progress es al (al :: als) cache h' es'.
Proof.
  intros Ht Hl Hf Hfu Ho Hc Hok. unfold hist_entry_iter__add, iter_prepare_cumulative_entry.
  cbn [prepare_entry add_single_entry finish_entry hist_iter_cumulative]. unfold iter_prepare_cumulative_entry, grab.
  rewrite memory. cbn [negb Z.eqb]. set (i1 := set_curr _ _). set (h1 := put_cursor _ _ _).
  assert (Hi1 : running hide l al [] i1) by (split; try done; unfold i1; cbn; by rewrite (proj1 Hl)).
  destruct (add_single_ok h1 es al l hide i1) as (i2 & h2 & es2 & cache & -> & Hp2 & Hi2 & Ha2);
    [by do 2 apply tables_cursor|done|done|done|done|]. cbn [negb Z.eqb].
  destruct (frames_loop es al hide l Hf l 0 [al] cache h2 es2 i2 al als fuel) as (i3 & h3 & es3 & cache3 & -> & Hp3); try done; [lia|].
  cbn. by exists h3, es3, cache3.
Qed.

End Sample.

(** * Any samples *)

Record chain_sample := ChainSample {
  ch_sample : hist_sample;
  ch_parent : option hist_symbol;
  ch_hide : bool;
  ch_al : addr_location;
  ch_chain : list callchain_cursor_node
}.

(** sample__resolve_callchain: the cursor is emptied, and the frames of the chain are
    appended. *)
Definition resolved (c : chain_sample) (h : hists) : hists :=
  let '(cur, a) := fill_cursor alloc_ok (callchain_cursor_reset (cursor h)) (ch_chain c) (allocs h) in put_cursor cur a h.

Fixpoint add_samples (cs : list chain_sample) (h : hists) : outcome (Z * hists) :=
  match cs with
  | [] => Ran (0, h)
  | c :: cs =>
      match hist_entry_iter__add (S (length (ch_chain c))) cumulative
              (start_iter (ch_sample c) (ch_parent c) (ch_hide c) (ch_al c)) (resolved c h) with
      | Ran (err, h) => if negb (err =? 0) then Ran (err, h) else add_samples cs h
      | Faults => Faults
      | NoFuel => NoFuel
      end
  end.

(** The place of the sample and those of its callers. *)
Definition places (c : chain_sample) : option (list addr_location) :=
  als ← chain_places (ch_hide c) (ch_al c) (ch_chain c); Some (ch_al c :: als).
Definition place_entry (c : chain_sample) : addr_location -> hist_entry := entry_at (ch_sample c) (ch_parent c).
Definition sample_good (c : chain_sample) : Prop :=
  is_uint 64 (sm_period (ch_sample c)) /\ frames_ok (ch_chain c) /\
  exists v, places c = Some v /\ Forall (fun al => ok (place_entry c al)) v.

(** What the row with the key [k] gets of the samples: as their place, and as a
    place of their chains. *)
Definition own_total (f : figure) (k : hist_entry) (cs : list chain_sample) : Z :=
  foldr (fun c n => (if cmp (place_entry c (ch_al c)) k =? 0 then share (ch_sample c) f (ch_al c) else 0) + n) 0 cs.
Definition chain_total (f : figure) (k : hist_entry) (cs : list chain_sample) : Z :=
  foldr (fun c n => once (ch_sample c) (ch_parent c) f k (default [] (places c)) + n) 0 cs.
Definition occurs (k : hist_entry) (cs : list chain_sample) : Prop :=
  exists c al, c ∈ cs /\ al ∈ default [] (places c) /\ cmp (place_entry c al) k = 0.

Lemma resolved_holds c h es : tables h es -> tables (resolved c h) es /\ holds (cursor (resolved c h)) (ch_chain c).
Proof.
  intros Ht. unfold resolved. destruct (fill_cursor_ok alloc_ok memory (callchain_cursor_reset (cursor h)) (ch_chain c) (allocs h))
    as (cur & a & -> & H1 & H2 & H3); [cbn; lia|]. split; [by apply tables_cursor|]. by split.
Qed.

Lemma add_samples_ok cs : forall h es, tables h es -> Forall sample_good cs ->
  exists h' es', add_samples cs h = Ran (0, h') /\ tables h' es' /\
    (forall k, ok k -> has_key k es' <-> has_key k es \/ occurs k cs) /\
    forall f k, ok k ->
      eqf f (amount (with_key cmp k) (figs false f) es') (amount (with_key cmp k) (figs false f) es + own_total f k cs) /\
      eqf f (amount (with_key cmp k) (figs true f) es') (amount (with_key cmp k) (figs true f) es + chain_total f k cs).
Proof.
  induction cs as [|c cs IH]; intros h es Ht Hg.
  - exists h, es. split; [done|]. split; [done|]. split.
    + intros k _. split; [by left|]. intros [|(c & al & []%not_elem_of_nil & _)]; done.
    + intros f k _. cbn. rewrite !Z.add_0_r. done.
  - apply Forall_cons in Hg as [(Hper & Hfr & v & Hv & Hok) Hg]. destruct (resolved_holds c h es Ht) as [Ht1 Hl1].
    pose proof Hv as Hv'. unfold places in Hv'. destruct (chain_places _ _ _) as [als|] eqn:Eals; [|done]. injection Hv' as <-.
    apply Forall_cons in Hok as [Hal Hok]. cbn [add_samples].
    destruct (sample_ok (ch_sample c) (ch_parent c) Hper (resolved c h) es (ch_al c) (ch_chain c) (ch_hide c) als (S (length (ch_chain c))))
      as (h1 & es1 & cache & -> & Hp); [done|done|done|lia|done|done|done|]. cbn [negb Z.eqb].
    destruct (IH h1 es1 (pr_tables _ _ _ _ _ _ _ _ Hp) Hg) as (h2 & es2 & -> & Ht2 & K2 & A2). exists h2, es2.
    split; [done|]. split; [done|]. split.
    + intros k Hk. rewrite (K2 k Hk), (pr_keys _ _ _ _ _ _ _ _ Hp k Hk). unfold occurs, known. setoid_rewrite (elem_of_cons cs). split.
      * intros [[|(al & Hal' & Hz)]|(c' & al & Hc & Hal' & Hz)]; [by left| |right; by eauto 6].
        right. exists c, al. split; [by left|]. by rewrite Hv.
      * intros [|(c' & al & [->|Hc] & Hal' & Hz)]; [by eauto| |right; by eauto 6]. rewrite Hv in Hal'. left. right. by exists al.
    + intros f k Hk. destruct (A2 f k Hk) as [-> ->]. rewrite (pr_own _ _ _ _ _ _ _ _ Hp f k Hk), (pr_acc _ _ _ _ _ _ _ _ Hp f k Hk).
      cbn [own_total chain_total foldr]. rewrite Hv. cbn [default]. rewrite <- !Z.add_assoc. done.
Qed.


End Chains.

(** * A recursive chain *)

Module CumulExamples.
Import HistExamples.

Definition with_chains : symbol_conf := SymbolConf true true false false 0.
Definition sym_in (f : frame) : option hist_symbol := Some (sym_of (f_ip f / 4096)).
Definition frame_at (sym : Z) : callchain_cursor_node :=
  CursorNode (Frame (4096 * sym + 8) (Some 9) None None) false no_flags 0 0 0.

(** 3 was called by 2, which 3 called, which 2 called; then 2, called by 5. *)
Definition samples : list chain_sample :=
  [ChainSample (of_period 10) None false (here 97 3 PERF_RECORD_MISC_USER) (frame_at <$> [3; 2; 3; 2]);
   ChainSample (of_period 4) None true (here 97 2 PERF_RECORD_MISC_USER) (frame_at <$> [2; 5])].

Abbreviation run := (add_samples with_chains columns mem_ok CCKEY_ADDRESS (fun _ => Some libc) sym_in (fun _ => false) true false).

Example children :
  match run samples empty_hists with Ran (err, h) => Some (err, shown_row h <$> elems (tree_in h)) | _ => None end =
  Some (0, [Some (4, 14, 2); Some (10, 10, 1); Some (0, 4, 1)]).
Proof. vm_compute. reflexivity. Qed.

Abbreviation good := (sample_good with_chains (fun _ => True) sym_of (fun _ => Some libc) sym_in (fun _ => false) true false).

Lemma samples_good : Forall good samples.
Proof.
  constructor; [|constructor; [|constructor]]; (split; [done|]); (split; [split; [by repeat constructor|done]|]);
    eexists; (split; [reflexivity|]); repeat (constructor; [by apply located_entry_ok|]); constructor.
Defined.


End CumulExamples.
