(* ===== verification/Maps.v ===== *)
(** Model of util/map.c, util/map_groups.h and of the users of the maps in
    util/thread.c, util/machine.c and util/symbol.c: which file was mapped where
    in the address space of a process.

    Maps and map groups are reference counted objects on a heap; a pointer is
    the number of its allocation, and a freed object is no longer on the heap.
    Every map is linked into two red-black trees of its group, by address and by
    name; trees are those of pointers, and what the code relies on of
    lib/rbtree.c is the class [MapTree].

    The functions run in the monad [M]: they return a value and the new heap,
    fail on an access to an object that was freed or on a BUG_ON ([Fault]), or
    do not end within the turns they are given ([Hang]).  Locks are not modelled:
    one thread works on the maps. *)

From Stdlib Require Import String.
From stdpp Require Import strings gmultiset pretty.
From S2P Require Import Prelude.
#[local] Open Scope Z_scope.

(** * Data *)

Inductive dso_kernel_type := DSO_TYPE_USER | DSO_TYPE_KERNEL | DSO_TYPE_GUEST_KERNEL.

#[export] Instance dso_kernel_type_eq_dec : EqDecision dso_kernel_type.
Proof. solve_decision. Defined.

(** What the functions below read of struct dso. *)
Record dso := Dso {
  dso_id : nat;
  short_name : string;
  kernel : dso_kernel_type;
  adjust_symbols : bool;
  rel : bool;
  text_offset : Z
}.

(** The values of the function pointers map_ip and unmap_ip. *)
Inductive ip_fun := map__map_ip | map__unmap_ip | identity__map_ip.

(** [linked] says that rb_node is in a tree (RB_EMPTY_NODE is its negation);
    [groups] is a pointer to the group. *)
Record map_t := Map {
  start : Z;
  end_ : Z;
  prot : Z;
  flags : Z;
  pgoff : Z;
  reloc : Z;
  map_ip : ip_fun;
  unmap_ip : ip_fun;
  map_dso : dso;
  groups : option nat;
  linked : bool;
  refcnt : Z
}.

Definition call_ip (f : ip_fun) (m : map_t) (ip : Z) : Z :=
  match f with
  | map__map_ip => (ip -64 start m) +64 pgoff m
  | map__unmap_ip => (ip +64 start m) -64 pgoff m
  | identity__map_ip => ip
  end.

Inductive tree := tnull | tnode (l : tree) (i : nat) (r : tree).

Fixpoint elems (t : tree) : list nat :=
  match t with tnull => [] | tnode l i r => elems l ++ i :: elems r end.

(** lib/rbtree.c: rebalancing keeps the order, erasing takes out one node, and
    the iteration is in order. *)
Class MapTree := {
  rb_insert_color : tree -> tree;
  rb_erase : nat -> tree -> tree;
  rb_first : tree -> option nat;
  rb_next : nat -> tree -> option nat;
  rb_insert_color_elems t : elems (rb_insert_color t) = elems t;
  rb_erase_elems l1 i l2 t : elems t = l1 ++ i :: l2 -> NoDup (elems t) -> elems (rb_erase i t) = l1 ++ l2;
  rb_first_spec t : rb_first t = head (elems t);
  rb_next_spec l1 i l2 t : elems t = l1 ++ i :: l2 -> NoDup (elems t) -> rb_next i t = head l2
}.

Record map_groups := MapGroups { entries : tree; names : tree; mg_refcnt : Z }.

(** The heap; [next] counts the allocations that were tried. *)
Record world := World { maps : gmap nat map_t; mgs : gmap nat map_groups; next : nat }.

(** * The monad *)

Inductive run (A : Type) : Type := Done (a : A) | Fault | Hang.
Arguments Done {A} _.
Arguments Fault {A}.
Arguments Hang {A}.

Definition M (A : Type) : Type := world -> run (A * world).

#[export] Instance M_ret : MRet M := fun A a w => Done (a, w).
#[export] Instance M_bind : MBind M := fun A B f m w =>
  match m w with Done (a, w) => f a w | Fault => Fault | Hang => Hang end.

Definition fault {A} : M A := fun _ => Fault.
Definition hang {A} : M A := fun _ => Hang.
Definition get : M world := fun w => Done (w, w).
Definition put (w : world) : M unit := fun _ => Done ((), w).
Definition check (b : bool) : M unit := if b then mret () else fault.

Definition lookup_map (i : nat) : M map_t := w ← get; match maps w !! i with Some m => mret m | None => fault end.
Definition lookup_mg (g : nat) : M map_groups := w ← get; match mgs w !! g with Some mg => mret mg | None => fault end.

Definition store_map (i : nat) (m : map_t) : M unit :=
  w ← get; put (World (<[i := m]> (maps w)) (mgs w) (next w)).
Definition store_mg (g : nat) (mg : map_groups) : M unit :=
  w ← get; put (World (maps w) (<[g := mg]> (mgs w)) (next w)).
Definition free_map (i : nat) : M unit :=
  w ← get; put (World (delete i (maps w)) (mgs w) (next w)).
Definition free_mg (g : nat) : M unit :=
  w ← get; put (World (maps w) (delete g (mgs w)) (next w)).

(** Changes of one field. *)
Definition put_start (x : Z) (m : map_t) : map_t :=
  Map x (end_ m) (prot m) (flags m) (pgoff m) (reloc m) (map_ip m) (unmap_ip m) (map_dso m) (groups m) (linked m) (refcnt m).
Definition put_end (x : Z) (m : map_t) : map_t :=
  Map (start m) x (prot m) (flags m) (pgoff m) (reloc m) (map_ip m) (unmap_ip m) (map_dso m) (groups m) (linked m) (refcnt m).
Definition set_pgoff (x : Z) (m : map_t) : map_t :=
  Map (start m) (end_ m) (prot m) (flags m) x (reloc m) (map_ip m) (unmap_ip m) (map_dso m) (groups m) (linked m) (refcnt m).
Definition set_ips (f g : ip_fun) (m : map_t) : map_t :=
  Map (start m) (end_ m) (prot m) (flags m) (pgoff m) (reloc m) f g (map_dso m) (groups m) (linked m) (refcnt m).
Definition set_groups (x : option nat) (m : map_t) : map_t :=
  Map (start m) (end_ m) (prot m) (flags m) (pgoff m) (reloc m) (map_ip m) (unmap_ip m) (map_dso m) x (linked m) (refcnt m).
Definition set_linked (x : bool) (m : map_t) : map_t :=
  Map (start m) (end_ m) (prot m) (flags m) (pgoff m) (reloc m) (map_ip m) (unmap_ip m) (map_dso m) (groups m) x (refcnt m).
Definition put_refcnt (x : Z) (m : map_t) : map_t :=
  Map (start m) (end_ m) (prot m) (flags m) (pgoff m) (reloc m) (map_ip m) (unmap_ip m) (map_dso m) (groups m) (linked m) x.

Definition with_map (i : nat) (f : map_t -> map_t) : M unit := m ← lookup_map i; store_map i (f m).

Definition ENOMEM : Z := 12.
Definition PROT_EXEC : Z := 4.
Definition MAP_HUGETLB : Z := 262144.

(** * Addresses for objdump *)

(** [kmap] is the name in struct kmap, for a map of the kernel; [vmlinux] is
    machine__kernel_map of the machine of its groups. *)
Definition ENTRY_TRAMPOLINE_NAME : string := "__entry_SYSCALL_64_trampoline".

Definition is_entry_trampoline (name : string) : bool := String.eqb name ENTRY_TRAMPOLINE_NAME.

Definition map__rip_2objdump (kmap : option string) (vmlinux : option map_t) (m : map_t) (rip : Z) : Z :=
  let m := match kmap, vmlinux with
           | Some name, Some kernel_map => if is_entry_trampoline name then kernel_map else m
           | _, _ => m
           end in
  if negb (adjust_symbols (map_dso m)) then rip
  else if rel (map_dso m) then rip -64 pgoff m
  else if decide (kernel (map_dso m) = DSO_TYPE_USER) then rip +64 text_offset (map_dso m)
  else call_ip (unmap_ip m) m rip -64 reloc m.

Definition map__objdump_2mem (m : map_t) (ip : Z) : Z :=
  if negb (adjust_symbols (map_dso m)) then call_ip (unmap_ip m) m ip
  else if rel (map_dso m) then call_ip (unmap_ip m) m (ip +64 pgoff m)
  else if decide (kernel (map_dso m) = DSO_TYPE_USER) then
    call_ip (unmap_ip m) m (ip -64 text_offset (map_dso m))
  else ip +64 reloc m.

(** * Kinds of memory *)

(** The string literal compared by strncmp over its own length. *)
Definition is_anon_memory (filename : string) (flags : Z) : bool :=
  hasf flags MAP_HUGETLB || String.eqb filename "//anon" || String.prefix "/dev/zero" filename ||
  String.prefix "/anon_hugepage" filename.

Definition is_no_dso_memory (filename : string) : bool :=
  String.prefix "[stack" filename || String.prefix "/SYSV" filename || String.eqb filename "[heap]".

Definition is_android_lib (filename : string) : bool :=
  String.prefix "/data/app-lib" filename || String.prefix "/system/lib" filename.

Definition is_vdso_map (filename : string) : bool := String.eqb filename "[vdso]".

Section Maps.
Context `{MapTree}.

(** Whether the n-th allocation succeeds. *)
Variable alloc_ok : nat -> bool.
(** machine__findnew_dso and machine__findnew_vdso; [None] is NULL. *)
Variable findnew_dso : string -> option dso.
Variable findnew_vdso : option dso.
(** replace_android_lib, which builds a name from the environment. *)
Variable replace_android_lib : string -> option string.
(** unwind__prepare_access: the error and the flag that it initialized. *)
Variable unwind__prepare_access : map_t -> Z * bool.

Definition alloc : M (option nat) :=
  w ← get;
  put (World (maps w) (mgs w) (S (next w)));;
  mret (if alloc_ok (next w) then Some (next w) else None).

(** * Maps *)

Definition map__init (start end_ prot flags pgoff : Z) (d : dso) : map_t :=
  Map start end_ prot flags pgoff 0 map__map_ip map__unmap_ip d None false 1.

(** [nsi] is the pid of the name space of the thread. *)
Definition dso_filename (nsi : option Z) (filename : string) (prot flags : Z) : string :=
  let anon := is_anon_memory filename flags in
  let no_dso := is_no_dso_memory filename in
  let android := is_android_lib filename in
  let filename :=
    match nsi with
    | Some pid =>
        if (anon || no_dso) && hasf prot PROT_EXEC then String.append "/tmp/perf-" (String.append (pretty pid) ".map")
        else filename
    | None => filename
    end in
  if android then default filename (replace_android_lib filename) else filename.

Definition map__new (nsi : option Z) (start len pgoff prot flags : Z) (filename : string) : M (option nat) :=
  o ← alloc;
  match o with
  | None => mret None
  | Some i =>
      let vdso := is_vdso_map filename in
      let pgoff := if vdso then 0 else pgoff in
      let d := if vdso then findnew_vdso else findnew_dso (dso_filename nsi filename prot flags) in
      match d with
      | None => mret None
      | Some d =>
          let m := map__init start (start +64 len) prot flags pgoff d in
          store_map i (if is_anon_memory filename flags || is_no_dso_memory filename
                       then set_ips identity__map_ip identity__map_ip m else m);;
          mret (Some i)
      end
  end.

Definition map__new2 (start : Z) (d : dso) : M (option nat) :=
  o ← alloc;
  match o with
  | None => mret None
  | Some i => store_map i (map__init start 0 0 0 0 d);; mret (Some i)
  end.

Definition map__delete (i : nat) : M unit :=
  m ← lookup_map i;
  check (negb (linked m));;
  free_map i.

Definition map__get (i : nat) : M unit := with_map i (fun m => put_refcnt (refcnt m + 1) m).

Definition map__put (i : nat) : M unit :=
  m ← lookup_map i;
  store_map i (put_refcnt (refcnt m - 1) m);;
  if refcnt m - 1 =? 0 then map__delete i else mret ().

Definition map__clone (from : nat) : M (option nat) :=
  m ← lookup_map from;
  o ← alloc;
  match o with
  | None => mret None
  | Some i => store_map i (set_groups None (set_linked false (put_refcnt 1 m)));; mret (Some i)
  end.

(** * The trees of a group *)

(** The descent to the place of a node with the start [ip]. *)
Fixpoint link_start (ip : Z) (x : nat) (t : tree) : M tree :=
  match t with
  | tnull => mret (tnode tnull x tnull)
  | tnode l i r =>
      m ← lookup_map i;
      if ip <? start m then l ← link_start ip x l; mret (tnode l i r)
      else r ← link_start ip x r; mret (tnode l i r)
  end.

Definition __maps__insert (g i : nat) : M unit :=
  m ← lookup_map i;
  mg ← lookup_mg g;
  t ← link_start (start m) i (entries mg);
  store_mg g (MapGroups (rb_insert_color t) (names mg) (mg_refcnt mg));;
  with_map i (set_linked true);;
  map__get i.

(** A smaller name goes to the right: the tree is in descending order. *)
Fixpoint link_name (name : string) (x : nat) (t : tree) : M tree :=
  match t with
  | tnull => mret (tnode tnull x tnull)
  | tnode l i r =>
      m ← lookup_map i;
      match String.compare (short_name (map_dso m)) name with
      | Lt => l ← link_name name x l; mret (tnode l i r)
      | _ => r ← link_name name x r; mret (tnode l i r)
      end
  end.

Definition __maps__insert_name (g i : nat) : M unit :=
  m ← lookup_map i;
  mg ← lookup_mg g;
  t ← link_name (short_name (map_dso m)) i (names mg);
  store_mg g (MapGroups (entries mg) (rb_insert_color t) (mg_refcnt mg));;
  map__get i.

Definition maps__insert (g i : nat) : M unit := __maps__insert g i;; __maps__insert_name g i.

Definition map_groups__insert (g i : nat) : M unit :=
  maps__insert g i;; with_map i (set_groups (Some g)).

Definition __map_groups__insert (g i : nat) : M unit :=
  __maps__insert g i;; __maps__insert_name g i;; with_map i (set_groups (Some g)).

(** rb_erase_init of a node that is in the tree. *)
Definition erase_entry (g i : nat) : M unit :=
  mg ← lookup_mg g;
  check (bool_decide (i ∈ elems (entries mg)));;
  store_mg g (MapGroups (rb_erase i (entries mg)) (names mg) (mg_refcnt mg));;
  with_map i (set_linked false).

Definition erase_name (g i : nat) : M unit :=
  mg ← lookup_mg g;
  check (bool_decide (i ∈ elems (names mg)));;
  store_mg g (MapGroups (entries mg) (rb_erase i (names mg)) (mg_refcnt mg)).

Definition maps__remove (g i : nat) : M unit :=
  erase_entry g i;; map__put i;; erase_name g i;; map__put i.

Fixpoint find_map (ip : Z) (t : tree) : M (option nat) :=
  match t with
  | tnull => mret None
  | tnode l i r =>
      m ← lookup_map i;
      if ip <? start m then find_map ip l else if end_ m <=? ip then find_map ip r else mret (Some i)
  end.

Definition maps__find (g : nat) (ip : Z) : M (option nat) := mg ← lookup_mg g; find_map ip (entries mg).

Definition maps__first (g : nat) : M (option nat) := mg ← lookup_mg g; mret (rb_first (entries mg)).

(** rb_next of a node in the tree of the group. *)
Definition map__next (g i : nat) : M (option nat) :=
  mg ← lookup_mg g;
  check (bool_decide (i ∈ elems (entries mg)));;
  mret (rb_next i (entries mg)).

Fixpoint find_name (name : string) (t : tree) : M (option nat) :=
  match t with
  | tnull => mret None
  | tnode l i r =>
      m ← lookup_map i;
      match String.compare (short_name (map_dso m)) name with
      | Lt => find_name name l
      | Gt => find_name name r
      | Eq => mret (Some i)
      end
  end.

Definition map_groups__find_by_name (g : nat) (name : string) : M (option nat) :=
  mg ← lookup_mg g; find_name name (names mg).

(** * Overlapping maps *)

(** The first map that ends after [s]. *)
Fixpoint find_first (s : Z) (t : tree) (first : option nat) : M (option nat) :=
  match t with
  | tnull => mret first
  | tnode l i r =>
      pos ← lookup_map i;
      if s <? end_ pos then
        if start pos <=? s then mret (Some i) else find_first s l (Some i)
      else find_first s r first
  end.

(** A part of [pos] that the new map does not overlap. *)
Definition insert_part (pos : nat) (f : map_t -> map_t) : M Z :=
  o ← map__clone pos;
  match o with
  | None => mret (- ENOMEM)
  | Some i =>
      with_map i f;;
      m ← lookup_map pos;
      match groups m with
      | None => fault
      | Some g => __map_groups__insert g i;; map__put i;; mret 0
      end
  end.

Fixpoint fixup_loop (fuel : nat) (g mapi : nat) (nxt : option nat) : M Z :=
  match nxt with
  | None => mret 0
  | Some p =>
      match fuel with
      | O => hang
      | S fuel =>
          nxt ← map__next g p;
          pos ← lookup_map p;
          m ← lookup_map mapi;
          if end_ m <=? start pos then mret 0 else
          erase_entry g p;;
          err ← (if start pos <? start m then insert_part p (put_end (start m)) else mret 0);
          err ← (if err =? 0 then
                   if end_ m <? end_ pos then insert_part p (put_start (end_ m)) else mret 0
                 else mret err);
          map__put p;;
          if err =? 0 then fixup_loop fuel g mapi nxt else mret err
      end
  end.

Definition maps__fixup_overlappings (fuel g i : nat) : M Z :=
  mg ← lookup_mg g;
  m ← lookup_map i;
  first ← find_first (start m) (entries mg) None;
  fixup_loop fuel g i first.

(** * Groups *)

Definition map_groups__new : M (option nat) :=
  o ← alloc;
  match o with
  | None => mret None
  | Some g => store_mg g (MapGroups tnull tnull 1);; mret (Some g)
  end.

Definition map_groups__get (g : nat) : M unit :=
  mg ← lookup_mg g; store_mg g (MapGroups (entries mg) (names mg) (mg_refcnt mg + 1)).

(** A turn takes a map out of the tree, so [n] starts as their number. *)
Fixpoint __maps__purge (n g : nat) (nxt : option nat) : M unit :=
  match nxt, n with
  | None, _ => mret ()
  | Some _, O => hang
  | Some pos, S n =>
      nxt ← map__next g pos;
      erase_entry g pos;;
      map__put pos;;
      __maps__purge n g nxt
  end.

Definition name__next (g i : nat) : M (option nat) :=
  mg ← lookup_mg g;
  check (bool_decide (i ∈ elems (names mg)));;
  mret (rb_next i (names mg)).

Fixpoint __maps__purge_names (n g : nat) (nxt : option nat) : M unit :=
  match nxt, n with
  | None, _ => mret ()
  | Some _, O => hang
  | Some pos, S n =>
      nxt ← name__next g pos;
      erase_name g pos;;
      map__put pos;;
      __maps__purge_names n g nxt
  end.

Definition maps__exit (g : nat) : M unit :=
  mg ← lookup_mg g;
  __maps__purge (length (elems (entries mg))) g (rb_first (entries mg));;
  __maps__purge_names (length (elems (names mg))) g (rb_first (names mg)).

Definition map_groups__delete (g : nat) : M unit := maps__exit g;; free_mg g.

Definition map_groups__put (g : nat) : M unit :=
  mg ← lookup_mg g;
  store_mg g (MapGroups (entries mg) (names mg) (mg_refcnt mg - 1));;
  if mg_refcnt mg - 1 =? 0 then map_groups__delete g else mret ().

(** The maps of [parent] into [g]; [err] is what the last turn left. *)
Fixpoint clone_loop (n g parent : nat) (err : Z) (nxt : option nat) : M Z :=
  match nxt, n with
  | None, _ => mret 0
  | Some _, O => hang
  | Some i, S n =>
      o ← map__clone i;
      match o with
      | None => mret err
      | Some new =>
          m ← lookup_map new;
          let err := (unwind__prepare_access m).1 in
          if negb (err =? 0) then mret err else
          map_groups__insert g new;;
          map__put new;;
          nxt ← map__next parent i;
          clone_loop n g parent err nxt
      end
  end.

Definition map_groups__clone (g parent : nat) : M Z :=
  mg ← lookup_mg parent;
  clone_loop (length (elems (entries mg))) g parent (- ENOMEM) (rb_first (entries mg)).

(** Modules of which only the start is known end where the next one starts. *)
Fixpoint fixup_end_loop (n g curr : nat) : M unit :=
  match n with
  | O => hang
  | S n =>
      nxt ← map__next g curr;
      m ← lookup_map curr;
      match nxt with
      | None => if end_ m =? 0 then store_map curr (put_end U64_MAX m) else mret ()
      | Some nx =>
          mn ← lookup_map nx;
          (if end_ m =? 0 then store_map curr (put_end (start mn) m) else mret ());;
          fixup_end_loop n g nx
      end
  end.

Definition map_groups__fixup_end (g : nat) : M unit :=
  mg ← lookup_mg g;
  curr ← maps__first g;
  match curr with
  | None => mret ()
  | Some curr => fixup_end_loop (length (elems (entries mg))) g curr
  end.

(** * Threads *)

(** What the functions use of struct thread; [mg] may be NULL. *)
Record thread := Thread { pid_ : Z; tid : Z; mg : option nat; nsinfo : option Z }.

(** Of struct nsinfo the pid is kept, which map__new puts into the name of a file;
    whether its mount name space has to be entered concerns only later opens. *)
Definition nsinfo__new (pid : Z) : option Z := if pid =? 0 then None else Some pid.

(** The memory for the thread, its name and its name space data is taken to be
    there. *)
Definition thread__new (pid tid : Z) : thread := Thread pid tid None (nsinfo__new pid).

Definition deref_mg (t : thread) : M nat := match mg t with Some g => mret g | None => fault end.

(** [leader] is the thread found or made for the pid. *)
Definition thread__init_map_groups (leader : option thread) (t : thread) : M (Z * thread) :=
  g ← (if (pid_ t =? tid t) || (pid_ t =? -1) then map_groups__new
       else match leader with
            | None => mret (mg t)
            | Some l =>
                match mg l with
                | None => mret None
                | Some g => map_groups__get g;; mret (Some g)
                end
            end);
  mret (match g with Some _ => 0 | None => -1 end, Thread (pid_ t) (tid t) g (nsinfo t)).

Definition thread__insert_map (fuel : nat) (t : thread) (i : nat) : M Z :=
  m ← lookup_map i;
  let ret := (unwind__prepare_access m).1 in
  if negb (ret =? 0) then mret ret else
  g ← deref_mg t;
  maps__fixup_overlappings fuel g i;;
  map_groups__insert g i;;
  mret 0.

Fixpoint prepare_loop (n g : nat) (err : Z) (nxt : option nat) : M Z :=
  match nxt, n with
  | None, _ => mret err
  | Some _, O => hang
  | Some i, S n =>
      m ← lookup_map i;
      let '(err, initialized) := unwind__prepare_access m in
      if negb (err =? 0) || initialized then mret err else
      nxt ← map__next g i;
      prepare_loop n g err nxt
  end.

Definition __thread__prepare_access (t : thread) : M Z :=
  g ← deref_mg t;
  mg ← lookup_mg g;
  prepare_loop (length (elems (entries mg))) g 0 (rb_first (entries mg)).

(** [use_callchain] is symbol_conf.use_callchain. *)
Definition thread__prepare_access (use_callchain : bool) (t : thread) : M Z :=
  if use_callchain then __thread__prepare_access t else mret 0.

Definition thread__clone_map_groups (use_callchain : bool) (t parent : thread) (do_maps_clone : bool) : M Z :=
  if pid_ t =? pid_ parent then thread__prepare_access use_callchain t
  else if decide (mg t = mg parent) then mret 0
  else if do_maps_clone then
    g ← deref_mg t; p ← deref_mg parent; map_groups__clone g p
  else mret 0.

(** * Records *)

Record map_event := MmapEvent { ev_start : Z; ev_len : Z; ev_pgoff : Z; ev_prot : Z; ev_flags : Z; ev_filename : string }.

(** The handler for a user space mapping, after the thread was found. *)
Definition process_mmap (fuel : nat) (t : thread) (e : map_event) : M Z :=
  o ← map__new (nsinfo t) (ev_start e) (ev_len e) (ev_pgoff e) (ev_prot e) (ev_flags e) (ev_filename e);
  match o with
  | None => mret 0
  | Some i => thread__insert_map fuel t i;; map__put i;; mret 0
  end.

(** [d] is the result of dso__new; the symbol that is then added to the dso is
    only an allocation here. *)
Definition machine__process_ksymbol_register (kmaps : nat) (d : option dso) (addr len : Z) : M Z :=
  o ← maps__find kmaps addr;
  ok ← (match o with
        | Some _ => mret true
        | None =>
            match d with
            | None => mret false
            | Some d =>
                o ← map__new2 0 d;
                match o with
                | None => mret false
                | Some i =>
                    with_map i (fun m => put_end (addr +64 len) (set_pgoff addr (put_start addr m)));;
                    map_groups__insert kmaps i;;
                    mret true
                end
            end
        end : M bool);
  if negb ok then mret (- ENOMEM) else
  sym ← alloc;
  mret (match sym with Some _ => 0 | None => - ENOMEM end).

Definition machine__process_ksymbol_unregister (kmaps : nat) (addr : Z) : M Z :=
  o ← maps__find kmaps addr;
  match o with Some i => maps__remove kmaps i;; mret 0 | None => mret 0 end.
End Maps.

(** * Running the functions *)

Lemma NoDup_mid {A} (l1 l2 : list A) x : NoDup (l1 ++ x :: l2) -> (x ∉ l1) /\ (x ∉ l2) /\ NoDup (l1 ++ l2).
Proof.
  rewrite !NoDup_app, NoDup_cons. intros (H1 & Hd & Hx & H2). split; [|split; [done|split; [done|split]]].
  - intros Hin. apply (Hd x Hin). left.
  - intros y Hy Hy2. apply (Hd y Hy). by right.
  - done.
Qed.

Lemma bind_done {A B} (c : M A) (f : A -> M B) w a w' : c w = Done (a, w') -> (c ≫= f) w = f a w'.
Proof. intros E. unfold mbind, M_bind. by rewrite E. Qed.

Lemma lookup_map_done w i m : maps w !! i = Some m -> lookup_map i w = Done (m, w).
Proof. intros E. unfold lookup_map. rewrite (bind_done get _ w w w) by done. by rewrite E. Qed.

Lemma lookup_mg_done w g mg : mgs w !! g = Some mg -> lookup_mg g w = Done (mg, w).
Proof. intros E. unfold lookup_mg. rewrite (bind_done get _ w w w) by done. by rewrite E. Qed.

Lemma check_done b w : b = true -> check b w = Done ((), w).
Proof. by intros ->. Qed.

Definition upd_map (i : nat) (m : map_t) (w : world) : world := World (<[i := m]> (maps w)) (mgs w) (next w).
Definition upd_mg (g : nat) (mg : map_groups) (w : world) : world := World (maps w) (<[g := mg]> (mgs w)) (next w).

Lemma store_map_done w i m : store_map i m w = Done ((), upd_map i m w).
Proof. done. Qed.

Lemma store_mg_done w g mg : store_mg g mg w = Done ((), upd_mg g mg w).
Proof. done. Qed.

Lemma with_map_done w i f m : maps w !! i = Some m -> with_map i f w = Done ((), upd_map i (f m) w).
Proof. intros E. unfold with_map. by rewrite (bind_done _ _ _ _ _ (lookup_map_done _ _ _ E)). Qed.

(** Steps through a function whose next access succeeds. *)
Ltac mstep :=
  first
    [ erewrite bind_done; [|eapply lookup_map_done; first [eassumption|cbn; simplify_map_eq; reflexivity]]
    | erewrite bind_done; [|eapply lookup_mg_done; first [eassumption|cbn; simplify_map_eq; reflexivity]]
    | erewrite bind_done; [|eapply with_map_done; first [eassumption|cbn; simplify_map_eq; reflexivity]]
    | rewrite (bind_done _ _ _ _ _ (store_map_done _ _ _))
    | rewrite (bind_done _ _ _ _ _ (store_mg_done _ _ _)) ].

Ltac mdone :=
  first [ eapply lookup_map_done | eapply lookup_mg_done | eapply with_map_done ];
  first [eassumption|cbn; simplify_map_eq; reflexivity].

(** What holds of every result of [c]; [h] is what holds if it does not end. *)
Definition wp {A} (h : Prop) (c : M A) (Q : A -> world -> Prop) (w : world) : Prop :=
  match c w with Done (a, w') => Q a w' | Fault => False | Hang => h end.

Lemma wp_done {A} h (c : M A) (Q : A -> world -> Prop) w a w' : c w = Done (a, w') -> Q a w' -> wp h c Q w.
Proof. intros E. unfold wp. by rewrite E. Qed.

Lemma wp_bind {A B} h (c : M A) (f : A -> M B) (Q : B -> world -> Prop) w :
  wp h c (fun a w' => wp h (f a) Q w') w -> wp h (c ≫= f) Q w.
Proof. unfold wp, mbind, M_bind. by destruct (c w) as [[a w']| |]. Qed.

Lemma wp_bind_done {A B} h (c : M A) (f : A -> M B) (Q : B -> world -> Prop) w a w' :
  c w = Done (a, w') -> wp h (f a) Q w' -> wp h (c ≫= f) Q w.
Proof. intros E. unfold wp. by rewrite (bind_done _ _ _ _ _ E). Qed.

Lemma wp_mono {A} h (c : M A) (Q Q' : A -> world -> Prop) w :
  wp h c Q w -> (forall a w', Q a w' -> Q' a w') -> wp h c Q' w.
Proof. unfold wp. destruct (c w) as [[a w']| |]; auto. Qed.

(** The start of a map on the heap. *)
Definition mstart (w : world) (i : nat) : Z := from_option start 0 (maps w !! i).

Definition known (w : world) (l : list nat) : Prop := Forall (fun i => is_Some (maps w !! i)) l.

Lemma known_lookup w l i : known w l -> i ∈ l -> exists m, maps w !! i = Some m.
Proof. intros Hk Hi. by eapply Forall_forall in Hk. Qed.

(** The descent inserts the pointer somewhere and, in a sorted tree, in its
    place. *)
Lemma link_start_done w ip x t :
  known w (elems t) ->
  exists t' l1 l2, link_start ip x t w = Done (t', w) /\ elems t = l1 ++ l2 /\ elems t' = l1 ++ x :: l2 /\
    (StronglySorted Z.le (mstart w <$> elems t) ->
     Forall (fun j => mstart w j <= ip) l1 /\ Forall (fun j => ip < mstart w j) l2).
Proof.
  induction t as [|l IHl i r IHr]; intros Hk.
  { exists (tnode tnull x tnull), [], []. done. }
  cbn [elems] in Hk. apply Forall_app in Hk as [Hl Hr]. apply Forall_cons in Hr as [[m Hm] Hr].
  cbn [link_start elems]. mstep.
  assert (Hs : mstart w i = start m) by (unfold mstart; by rewrite Hm).
  destruct (Z.ltb_spec ip (start m)).
  - destruct (IHl Hl) as (t' & l1 & l2 & E & E1 & E2 & Hp). rewrite (bind_done _ _ _ _ _ E).
    exists (tnode t' i r), l1, (l2 ++ i :: elems r). split; [done|]. cbn [elems]. rewrite E1, E2, <- !app_assoc.
    split; [done|]. split; [done|]. rewrite app_assoc, <- E1, fmap_app, fmap_cons. intros Hsort.
    apply StronglySorted_mid in Hsort as (HS & _ & _ & Hr'); [|apply _]. destruct (Hp HS) as [H1 H2].
    split; [done|]. apply Forall_app. split; [done|]. constructor; [lia|].
    apply Forall_forall. intros j Hj.
    assert (mstart w i <= mstart w j) by (apply Hr', list_elem_of_fmap; eauto). lia.
  - destruct (IHr Hr) as (t' & l1 & l2 & E & E1 & E2 & Hp). rewrite (bind_done _ _ _ _ _ E).
    exists (tnode l i t'), (elems l ++ i :: l1), l2. split; [done|]. cbn [elems]. rewrite E1, E2, <- !app_assoc.
    split; [done|]. split; [done|]. rewrite <- E1, fmap_app, fmap_cons. intros Hsort.
    apply StronglySorted_mid in Hsort as (_ & HS & Hl' & _); [|apply _]. destruct (Hp HS) as [H1 H2].
    split; [|done]. apply Forall_app. split; [|constructor; [lia|done]].
    apply Forall_forall. intros j Hj.
    assert (mstart w j <= mstart w i) by (apply Hl', list_elem_of_fmap; eauto). lia.
Qed.

Lemma link_name_done w name x t :
  known w (elems t) ->
  exists t' l1 l2, link_name name x t w = Done (t', w) /\ elems t = l1 ++ l2 /\ elems t' = l1 ++ x :: l2.
Proof.
  induction t as [|l IHl i r IHr]; intros Hk.
  { exists (tnode tnull x tnull), [], []. done. }
  cbn [elems] in Hk. apply Forall_app in Hk as [Hl Hr]. apply Forall_cons in Hr as [[m Hm] Hr].
  cbn [link_name elems]. mstep.
  destruct (IHl Hl) as (tl & a1 & a2 & El & E1 & E2). destruct (IHr Hr) as (tr & b1 & b2 & Er & E3 & E4).
  destruct (String.compare _ _).
  1, 3: rewrite (bind_done _ _ _ _ _ Er); exists (tnode l i tr), (elems l ++ i :: b1), b2;
    cbn [elems]; by rewrite E3, E4, <- !app_assoc.
  rewrite (bind_done _ _ _ _ _ El); exists (tnode tl i r), a1, (a2 ++ i :: elems r);
    cbn [elems]; by rewrite E1, E2, <- !app_assoc.
Qed.

Section Run.
Context `{MapTree}.

(** A map after it was linked into both trees of [g]. *)
Definition in_group (g : nat) (m : map_t) : map_t :=
  set_groups (Some g) (set_linked true (put_refcnt (refcnt m + 2) m)).

Lemma map_groups__insert_done w g i m mg :
  maps w !! i = Some m -> mgs w !! g = Some mg -> known w (elems (entries mg)) -> known w (elems (names mg)) ->
  exists te tn l1 l2 n1 n2,
    map_groups__insert g i w =
      Done ((), World (<[i := in_group g m]> (maps w)) (<[g := MapGroups te tn (mg_refcnt mg)]> (mgs w)) (next w)) /\
    elems (entries mg) = l1 ++ l2 /\ elems te = l1 ++ i :: l2 /\
    elems (names mg) = n1 ++ n2 /\ elems tn = n1 ++ i :: n2 /\
    (StronglySorted Z.le (mstart w <$> elems (entries mg)) ->
     Forall (fun j => mstart w j <= start m) l1 /\ Forall (fun j => start m < mstart w j) l2).
Proof.
  intros Hm Hg Hke Hkn.
  destruct (link_start_done w (start m) i (entries mg) Hke) as (te & l1 & l2 & E & E1 & E2 & Hp).
  set (w1 := upd_mg g (MapGroups (rb_insert_color te) (names mg) (mg_refcnt mg)) w).
  set (m1 := put_refcnt (refcnt m + 1) (set_linked true m)).
  assert (I1 : __maps__insert g i w = Done ((), upd_map i m1 w1)).
  { unfold __maps__insert. do 2 mstep. rewrite (bind_done _ _ _ _ _ E). do 2 mstep.
    unfold map__get. erewrite with_map_done by (cbn; by simplify_map_eq).
    unfold upd_map at 1. cbn. by rewrite insert_insert_eq. }
  assert (Hkn' : known (upd_map i m1 w1) (elems (names mg))).
  { eapply Forall_impl; [exact Hkn|]. intros j [m' Hj]. cbn. destruct (decide (i = j)) as [->|]; simplify_map_eq; eauto. }
  destruct (link_name_done _ (short_name (map_dso m)) i (names mg) Hkn') as (tn & n1 & n2 & EN & E3 & E4).
  exists (rb_insert_color te), (rb_insert_color tn), l1, l2, n1, n2. rewrite !rb_insert_color_elems.
  split; [|done]. unfold map_groups__insert, maps__insert.
  assert (I2 : __maps__insert_name g i (upd_map i m1 w1) =
    Done ((), upd_map i (put_refcnt (refcnt m1 + 1) m1)
      (upd_mg g (MapGroups (rb_insert_color te) (rb_insert_color tn) (mg_refcnt mg)) (upd_map i m1 w1)))).
  { unfold __maps__insert_name. do 2 mstep. cbn [names entries mg_refcnt map_dso].
    change (map_dso m1) with (map_dso m).
    rewrite (bind_done _ _ _ _ _ EN). mstep. unfold map__get. by erewrite with_map_done by (cbn; by simplify_map_eq). }
  rewrite (bind_done _ _ w () (upd_map i (put_refcnt (refcnt m1 + 1) m1)
      (upd_mg g (MapGroups (rb_insert_color te) (rb_insert_color tn) (mg_refcnt mg)) (upd_map i m1 w1))))
    by (by rewrite (bind_done _ _ _ _ _ I1)).
  erewrite with_map_done by (cbn; by simplify_map_eq). unfold upd_map, upd_mg. cbn.
  rewrite !insert_insert_eq. unfold in_group, put_refcnt, set_groups, set_linked. cbn. do 4 f_equal. f_equal. lia.
Qed.

Lemma __map_groups__insert_eq g i w : __map_groups__insert g i w = map_groups__insert g i w.
Proof.
  unfold __map_groups__insert, map_groups__insert, maps__insert, mbind, M_bind.
  by destruct (__maps__insert g i w) as [[? ?]| |].
Qed.
End Run.

(** * References *)

(** The maps in the trees of a group. *)
Definition ents (w : world) (g : nat) : list nat := default [] (elems ∘ entries <$> mgs w !! g).
Definition nams (w : world) (g : nat) : list nat := default [] (elems ∘ names <$> mgs w !! g).

Definition occ (i : nat) (l : list nat) : Z := if decide (i ∈ l) then 1 else 0.

(** The references that the trees hold. *)
Definition links (w : world) (i : nat) (m : map_t) : Z :=
  match groups m with Some g => occ i (ents w g) + occ i (nams w g) | None => 0 end.

(** A pointer [i] to a map: if it is on the heap, its references are counted,
    it is in the trees of its own group only, and linked and among the names
    when it is among the entries; if it is not, nothing refers to it. *)
Definition map_at (R : gmultiset nat) (w : world) (i : nat) : Prop :=
  match maps w !! i with
  | Some m =>
      (refcnt m = links w i m + Z.of_nat (multiplicity i R) /\ 0 < refcnt m) /\
      (forall g, i ∈ ents w g -> groups m = Some g /\ linked m = true /\ i ∈ nams w g) /\
      (forall g, i ∈ nams w g -> groups m = Some g) /\
      (linked m = true -> exists g, groups m = Some g /\ i ∈ ents w g)
  | None => multiplicity i R = 0%nat /\ forall g, (i ∉ ents w g) /\ (i ∉ nams w g)
  end.

(** Every reference is counted: [R] are the references to maps and [G] those to
    groups that are held outside the trees, [D] is a group that is being
    deleted. *)
Record inv (D : option nat) (R G : gmultiset nat) (w : world) : Prop := {
  inv_map i : map_at R w i;
  inv_nodup g : NoDup (ents w g) /\ NoDup (nams w g);
  inv_fresh i : is_Some (maps w !! i) -> (i < next w)%nat;
  inv_gfresh g : is_Some (mgs w !! g) -> (g < next w)%nat;
  inv_group g mg : mgs w !! g = Some mg ->
    mg_refcnt mg = Z.of_nat (multiplicity g G) /\ (D = Some g \/ 0 < mg_refcnt mg);
  inv_gheld g : g ∈ G -> is_Some (mgs w !! g)
}.

Lemma links_some w i m g : groups m = Some g -> links w i m = occ i (ents w g) + occ i (nams w g).
Proof. intros E. unfold links. by rewrite E. Qed.

Lemma occ_ext i l l' : (i ∈ l <-> i ∈ l') -> occ i l = occ i l'.
Proof. intros E. unfold occ. apply decide_ext, E. Qed.

Lemma occ_in i l : i ∈ l -> occ i l = 1.
Proof. intros Hi. unfold occ. by rewrite decide_True. Qed.

Lemma occ_notin i l : i ∉ l -> occ i l = 0.
Proof. intros Hi. unfold occ. by rewrite decide_False. Qed.

Lemma occ_bound i l : 0 <= occ i l <= 1.
Proof. unfold occ. case_decide; lia. Qed.

Lemma elem_of_mid {A} (l1 l2 : list A) x y : y ∈ l1 ++ x :: l2 <-> y = x \/ y ∈ l1 ++ l2.
Proof. rewrite !elem_of_app, elem_of_cons. tauto. Qed.

Lemma NoDup_insert_mid {A} (l1 l2 : list A) x : x ∉ l1 ++ l2 -> NoDup (l1 ++ l2) -> NoDup (l1 ++ x :: l2).
Proof.
  rewrite elem_of_app, !NoDup_app, NoDup_cons. intros Hx (H1 & H2 & H3). split; [done|]. split; [|tauto].
  intros y Hy [->|Hy2]%elem_of_cons; [tauto|by apply (H2 y)].
Qed.

Lemma ents_mg w g mg : mgs w !! g = Some mg -> ents w g = elems (entries mg) /\ nams w g = elems (names mg).
Proof. intros E. unfold ents, nams. by rewrite E. Qed.

Lemma inv_entry D R G w g i :
  inv D R G w -> i ∈ ents w g -> exists m, maps w !! i = Some m /\ groups m = Some g /\ linked m = true.
Proof.
  intros I Hi. pose proof (inv_map _ _ _ _ I i) as Hm. unfold map_at in Hm.
  destruct (maps w !! i) as [m|]; [|by apply Hm in Hi]. exists m. destruct Hm as (_ & Hm & _). by destruct (Hm g Hi) as (? & ? & _).
Qed.

Lemma inv_name D R G w g i :
  inv D R G w -> i ∈ nams w g -> exists m, maps w !! i = Some m /\ groups m = Some g.
Proof.
  intros I Hi. pose proof (inv_map _ _ _ _ I i) as Hm. unfold map_at in Hm.
  destruct (maps w !! i) as [m|]; [|by apply Hm in Hi]. exists m. destruct Hm as (_ & _ & Hm & _). by split; [|apply Hm].
Qed.

Lemma inv_held D R G w i : inv D R G w -> i ∈ R -> exists m, maps w !! i = Some m.
Proof.
  intros I Hi. pose proof (inv_map _ _ _ _ I i) as Hm. unfold map_at in Hm. rewrite elem_of_multiplicity in Hi.
  destruct (maps w !! i) as [m|]; [eauto|]. destruct Hm. lia.
Qed.

Lemma inv_known D R G w g mg :
  inv D R G w -> mgs w !! g = Some mg -> known w (elems (entries mg)) /\ known w (elems (names mg)).
Proof.
  intros I E. destruct (ents_mg _ _ _ E) as [E1 E2].
  split; apply Forall_forall; intros i Hi.
  - rewrite <- E1 in Hi. destruct (inv_entry _ _ _ _ _ _ I Hi) as (m & Hm & _). eauto.
  - rewrite <- E2 in Hi. destruct (inv_name _ _ _ _ _ _ I Hi) as (m & Hm & _). eauto.
Qed.

(** A map without a group is in no tree. *)
Lemma groupless D R G w i m g :
  inv D R G w -> maps w !! i = Some m -> groups m = None -> (i ∉ ents w g) /\ (i ∉ nams w g).
Proof.
  intros I Hm Hn. split; intros Hi.
  - destruct (inv_entry _ _ _ _ _ _ I Hi) as (m' & ? & ? & _). congruence.
  - destruct (inv_name _ _ _ _ _ _ I Hi) as (m' & ? & ?). congruence.
Qed.

(** A change that concerns one map. *)
Lemma inv_change D R R' G w w' i :
  inv D R G w ->
  (forall j, j <> i -> maps w' !! j = maps w !! j) ->
  (forall j g, j <> i -> (j ∈ ents w' g <-> j ∈ ents w g) /\ (j ∈ nams w' g <-> j ∈ nams w g)) ->
  (forall j, j <> i -> multiplicity j R' = multiplicity j R) ->
  (forall g, NoDup (ents w' g) /\ NoDup (nams w' g)) ->
  (next w <= next w')%nat -> (is_Some (maps w' !! i) -> (i < next w')%nat) ->
  (forall g, mg_refcnt <$> mgs w' !! g = mg_refcnt <$> mgs w !! g) ->
  map_at R' w' i -> inv D R' G w'.
Proof.
  intros I Hm Ht HR Hnd Hn Hi Hg Hat.
  assert (Hs : forall g, is_Some (mgs w' !! g) <-> is_Some (mgs w !! g))
    by (intros g; by rewrite <- !(fmap_is_Some mg_refcnt), Hg).
  constructor; [|done|..].
  - intros j. destruct (decide (j = i)) as [->|Hj]; [done|]. pose proof (inv_map _ _ _ _ I j) as Hold.
    unfold map_at in *. rewrite Hm, HR by done. destruct (maps w !! j) as [m|].
    + destruct Hold as (Hc & He & Hna & Hl). assert (links w' j m = links w j m) as ->.
      { unfold links. destruct (groups m) as [g|]; [|done]. destruct (Ht j g Hj) as [T1 T2].
        by rewrite (occ_ext _ _ _ T1), (occ_ext _ _ _ T2). }
      split; [done|]. split; [intros g; destruct (Ht j g Hj) as [-> ->]; apply He|].
      split; [intros g Hin; apply Hna; by apply (Ht j g Hj)|].
      intros Hli. destruct (Hl Hli) as (g & ? & ?). exists g. split; [done|]. by apply (Ht j g Hj).
    + destruct Hold as [Hc Hno]. split; [done|]. intros g. destruct (Ht j g Hj) as [-> ->]. apply Hno.
  - intros j. destruct (decide (j = i)) as [->|Hj]; [done|]. rewrite Hm by done. intros Hj'.
    pose proof (inv_fresh _ _ _ _ I j Hj'). lia.
  - intros g. rewrite Hs. intros Hg'. pose proof (inv_gfresh _ _ _ _ I g Hg'). lia.
  - intros g mg E. specialize (Hg g). rewrite E in Hg. destruct (mgs w !! g) as [mg'|] eqn:E'; [|done].
    injection Hg as ->. by apply (inv_group _ _ _ _ I).
  - intros g Hgi. apply Hs. by apply (inv_gheld _ _ _ _ I).
Qed.

(** What a change of the heap leaves alone: the maps other than [i] and the
    trees of the groups other than [g]. *)
Lemma ents_upd w mp g mg n g' :
  ents (World mp (<[g := mg]> (mgs w)) n) g' = if decide (g' = g) then elems (entries mg) else ents w g'.
Proof. unfold ents. cbn. case_decide as Hg; [subst; by rewrite lookup_insert_eq|by rewrite lookup_insert_ne]. Qed.

Lemma nams_upd w mp g mg n g' :
  nams (World mp (<[g := mg]> (mgs w)) n) g' = if decide (g' = g) then elems (names mg) else nams w g'.
Proof. unfold nams. cbn. case_decide as Hg; [subst; by rewrite lookup_insert_eq|by rewrite lookup_insert_ne]. Qed.

Section Refs.
Context `{MapTree}.

(** Linking a map that is in no group. *)
Lemma inv_insert D R G w g i m mg :
  inv D R G w -> maps w !! i = Some m -> groups m = None -> mgs w !! g = Some mg ->
  exists w' l1 l2,
    map_groups__insert g i w = Done ((), w') /\ inv D R G w' /\
    maps w' = <[i := in_group g m]> (maps w) /\ next w' = next w /\
    dom (mgs w') = dom (mgs w) /\
    ents w g = l1 ++ l2 /\ ents w' g = l1 ++ i :: l2 /\
    (forall g', g' <> g -> ents w' g' = ents w g') /\
    (StronglySorted Z.le (mstart w <$> ents w g) ->
     Forall (fun j => mstart w j <= start m) l1 /\ Forall (fun j => start m < mstart w j) l2).
Proof.
  intros I Hm Hn Hg. destruct (inv_known _ _ _ _ _ _ I Hg) as [K1 K2]. destruct (ents_mg _ _ _ Hg) as [EE EN].
  destruct (map_groups__insert_done w g i m mg Hm Hg K1 K2)
    as (te & tn & l1 & l2 & n1 & n2 & E & E1 & E2 & E3 & E4 & Hp).
  rewrite <- EE in E1, Hp. rewrite <- EN in E3.
  eexists _, l1, l2. split; [exact E|].
  set (w' := World _ _ _).
  assert (Le : forall g', ents w' g' = if decide (g' = g) then l1 ++ i :: l2 else ents w g')
    by (intros g'; unfold w'; rewrite ents_upd; cbn [entries]; by rewrite E2).
  assert (Ln : forall g', nams w' g' = if decide (g' = g) then n1 ++ i :: n2 else nams w g')
    by (intros g'; unfold w'; rewrite nams_upd; cbn [names]; by rewrite E4).
  assert (Hi : forall g', (i ∉ ents w g') /\ (i ∉ nams w g')) by (intros g'; by eapply groupless).
  split; [apply (inv_change D R R G w w' i I)|].
  - intros j Hj. cbn. by rewrite lookup_insert_ne.
  - intros j g' Hj. rewrite Le, Ln. case_decide as Hg'; [subst|done]. rewrite !elem_of_mid, E1, E3. tauto.
  - done.
  - intros g'. rewrite Le, Ln. destruct (inv_nodup _ _ _ _ I g') as [N1 N2]. destruct (Hi g') as [H1 H2].
    case_decide; [subst|done]. rewrite E1 in N1, H1. rewrite E3 in N2, H2. split; by apply NoDup_insert_mid.
  - done.
  - intros _. apply (inv_fresh _ _ _ _ I). eauto.
  - intros g'. cbn. destruct (decide (g' = g)) as [->|]; by simplify_map_eq.
  - pose proof (inv_map _ _ _ _ I i) as Hat. unfold map_at in *. rewrite Hm in Hat. cbn [maps w'].
    rewrite lookup_insert_eq. destruct Hat as [[C1 C2] _]. unfold links in *. rewrite Hn in C1.
    cbn [groups in_group set_groups refcnt linked set_linked put_refcnt].
    rewrite Le, Ln, !decide_True by done. rewrite !occ_in by (apply elem_of_mid; by left). split; [lia|].
    split; [|split].
    + intros g' Hin. rewrite Le in Hin. rewrite Ln. case_decide; [|by apply Hi in Hin]. subst.
      split; [done|]. split; [done|]. apply elem_of_mid. by left.
    + intros g' Hin. rewrite Ln in Hin. case_decide; [by subst|]. by apply Hi in Hin.
    + intros _. exists g. split; [done|]. rewrite Le, decide_True by done. apply elem_of_mid. by left.
  - split; [done|]. split; [done|].
    split; [cbn; by apply dom_insert_lookup_L|].
    split; [done|]. split; [by rewrite Le, decide_True|].
    split; [intros; by rewrite Le, decide_False|done].
Qed.

(** Taking a map out of the entries leaves the caller with its reference. *)
Lemma inv_erase_entry D R G w g i l1 l2 :
  inv D R G w -> ents w g = l1 ++ i :: l2 ->
  exists w' m, erase_entry g i w = Done ((), w') /\ inv D (R ⊎ {[+ i +]}) G w' /\
    maps w !! i = Some m /\ maps w' = <[i := set_linked false m]> (maps w) /\ next w' = next w /\
    dom (mgs w') = dom (mgs w) /\ ents w' g = l1 ++ l2 /\ (forall g', g' <> g -> ents w' g' = ents w g') /\
    (forall g', nams w' g' = nams w g').
Proof.
  intros I El. assert (Hi : i ∈ ents w g) by (rewrite El; apply elem_of_mid; by left).
  destruct (inv_entry _ _ _ _ _ _ I Hi) as (m & Hm & Hmg & Hl). destruct (inv_nodup _ _ _ _ I g) as [N1 N2].
  destruct (mgs w !! g) as [mg|] eqn:Hg; [|by unfold ents in Hi; rewrite Hg in Hi; apply not_elem_of_nil in Hi].
  destruct (ents_mg _ _ _ Hg) as [EE EN].
  assert (Er : elems (rb_erase i (entries mg)) = l1 ++ l2) by (apply rb_erase_elems; by rewrite <- EE).
  exists (World (<[i := set_linked false m]> (maps w))
            (<[g := MapGroups (rb_erase i (entries mg)) (names mg) (mg_refcnt mg)]> (mgs w)) (next w)), m.
  split.
  { unfold erase_entry. mstep. rewrite (bind_done _ _ _ _ _ (check_done _ w (bool_decide_eq_true_2 _ (eq_ind _ (fun l => i ∈ l) Hi _ EE)))).
    mstep. by erewrite with_map_done by exact Hm. }
  set (w' := World _ _ _).
  assert (Le : forall g', ents w' g' = if decide (g' = g) then l1 ++ l2 else ents w g')
    by (intros g'; unfold w'; rewrite ents_upd; cbn [entries]; by rewrite Er).
  assert (Ln : forall g', nams w' g' = nams w g')
    by (intros g'; unfold w'; rewrite nams_upd; cbn [names]; case_decide; [by subst|done]).
  rewrite El in N1. apply NoDup_mid in N1 as (N1 & N3 & N4).
  assert (Hne : i ∉ l1 ++ l2) by (rewrite elem_of_app; tauto).
  assert (Hno : forall g', i ∉ ents w' g').
  { intros g'. rewrite Le. case_decide as Hg'; [done|]. intros Hin.
    destruct (inv_entry _ _ _ _ _ _ I Hin) as (m' & ? & ? & _). congruence. }
  split; [apply (inv_change D R _ G w w' i I)|].
  - intros j Hj. cbn. by rewrite lookup_insert_ne.
  - intros j g' Hj. rewrite Le, Ln. case_decide as Hg'; [subst|done]. rewrite El, elem_of_mid. tauto.
  - intros j Hj. rewrite multiplicity_disj_union, multiplicity_singleton_ne by done. lia.
  - intros g'. rewrite Le, Ln. case_decide; [by subst|]. apply (inv_nodup _ _ _ _ I).
  - done.
  - intros _. apply (inv_fresh _ _ _ _ I). eauto.
  - intros g'. cbn. destruct (decide (g' = g)) as [->|]; by simplify_map_eq.
  - pose proof (inv_map _ _ _ _ I i) as Hat. unfold map_at in *. rewrite Hm in Hat. cbn [maps w'].
    rewrite lookup_insert_eq. destruct Hat as ([C1 C2] & _ & Hna & _). rewrite (links_some _ _ _ _ Hmg) in C1.
    rewrite (links_some _ _ (set_linked false m) g) by done. cbn [groups refcnt linked set_linked]. rewrite Ln, (occ_notin i _ (Hno g)).
    rewrite (occ_in _ _ Hi) in C1. rewrite multiplicity_disj_union, multiplicity_singleton_eq. split; [lia|].
    split; [intros g' Hin; by apply Hno in Hin|]. split; [intros g'; rewrite Ln; apply Hna|done].
  - split; [done|]. split; [done|]. split; [done|].
    split; [cbn; by apply dom_insert_lookup_L|]. split; [by rewrite Le, decide_True|].
    split; [intros; by rewrite Le, decide_False|done].
Qed.

Lemma inv_erase_name D R G w g i n1 n2 :
  inv D R G w -> nams w g = n1 ++ i :: n2 -> i ∉ ents w g ->
  exists w', erase_name g i w = Done ((), w') /\ inv D (R ⊎ {[+ i +]}) G w' /\
    maps w' = maps w /\ next w' = next w /\ dom (mgs w') = dom (mgs w) /\
    nams w' g = n1 ++ n2 /\ (forall g', ents w' g' = ents w g').
Proof.
  intros I El Hie. assert (Hi : i ∈ nams w g) by (rewrite El; apply elem_of_mid; by left).
  destruct (inv_name _ _ _ _ _ _ I Hi) as (m & Hm & Hmg). destruct (inv_nodup _ _ _ _ I g) as [N2 N1].
  destruct (mgs w !! g) as [mg|] eqn:Hg; [|by unfold nams in Hi; rewrite Hg in Hi; apply not_elem_of_nil in Hi].
  destruct (ents_mg _ _ _ Hg) as [EE EN].
  assert (Er : elems (rb_erase i (names mg)) = n1 ++ n2) by (apply rb_erase_elems; by rewrite <- EN).
  exists (World (maps w) (<[g := MapGroups (entries mg) (rb_erase i (names mg)) (mg_refcnt mg)]> (mgs w)) (next w)).
  split.
  { unfold erase_name. mstep. by rewrite (bind_done _ _ _ _ _ (check_done _ w (bool_decide_eq_true_2 _ (eq_ind _ (fun l => i ∈ l) Hi _ EN)))). }
  set (w' := World _ _ _).
  assert (Ln : forall g', nams w' g' = if decide (g' = g) then n1 ++ n2 else nams w g')
    by (intros g'; unfold w'; rewrite nams_upd; cbn [names]; by rewrite Er).
  assert (Le : forall g', ents w' g' = ents w g')
    by (intros g'; unfold w'; rewrite ents_upd; cbn [entries]; case_decide; [by subst|done]).
  rewrite El in N1. apply NoDup_mid in N1 as (N1 & N3 & N4).
  assert (Hne : i ∉ n1 ++ n2) by (rewrite elem_of_app; tauto).
  assert (Hno : forall g', i ∉ nams w' g').
  { intros g'. rewrite Ln. case_decide as Hg'; [done|]. intros Hin.
    destruct (inv_name _ _ _ _ _ _ I Hin) as (m' & ? & ?). congruence. }
  split; [apply (inv_change D R _ G w w' i I)|].
  - done.
  - intros j g' Hj. rewrite Le, Ln. case_decide as Hg'; [subst|done]. rewrite El, elem_of_mid. tauto.
  - intros j Hj. rewrite multiplicity_disj_union, multiplicity_singleton_ne by done. lia.
  - intros g'. rewrite Le, Ln. case_decide; [by subst|]. apply (inv_nodup _ _ _ _ I).
  - done.
  - intros _. apply (inv_fresh _ _ _ _ I). eauto.
  - intros g'. cbn. destruct (decide (g' = g)) as [->|]; by simplify_map_eq.
  - pose proof (inv_map _ _ _ _ I i) as Hat. unfold map_at in *. rewrite Hm in Hat. cbn [maps w'].
    rewrite Hm. destruct Hat as ([C1 C2] & Hen & _ & Hli). rewrite (links_some _ _ _ _ Hmg) in C1. rewrite (links_some _ _ _ _ Hmg).
    rewrite Le, (occ_notin i _ (Hno g)). rewrite (occ_in _ _ Hi) in C1.
    rewrite multiplicity_disj_union, multiplicity_singleton_eq. split; [lia|].
    split; [|split; [intros g' Hin; by apply Hno in Hin|]].
    { intros g'. rewrite Le. intros Hin. destruct (Hen g' Hin) as (Hg' & _). congruence. }
    intros Hlk. destruct (Hli Hlk) as (g' & ? & ?). exists g'. by rewrite Le.
  - split; [done|]. split; [done|]. split; [cbn; by apply dom_insert_lookup_L|].
    split; [by rewrite Ln, decide_True|done].
Qed.

(** A change of one map that keeps its group. *)
Lemma inv_set D R R' G w i m m' :
  inv D R G w -> maps w !! i = Some m -> groups m' = groups m -> linked m' = linked m ->
  (forall j, j <> i -> multiplicity j R' = multiplicity j R) ->
  refcnt m' - refcnt m = Z.of_nat (multiplicity i R') - Z.of_nat (multiplicity i R) -> 0 < refcnt m' ->
  inv D R' G (upd_map i m' w).
Proof.
  intros I Hm Hg Hl HR Hc Hp. apply (inv_change D R R' G w _ i I); try done.
  - intros j Hj. cbn. by rewrite lookup_insert_ne.
  - intros g. apply (inv_nodup _ _ _ _ I).
  - intros _. apply (inv_fresh _ _ _ _ I). eauto.
  - pose proof (inv_map _ _ _ _ I i) as Hat. unfold map_at in *. rewrite Hm in Hat. cbn.
    rewrite lookup_insert_eq. destruct Hat as ([C1 C2] & Hat). rewrite Hg, Hl.
    split; [|exact Hat]. split; [|done]. assert (links (upd_map i m' w) i m' = links w i m) as ->
      by (unfold links; by rewrite Hg). lia.
Qed.

Lemma inv_get D R G w i m :
  inv D R G w -> maps w !! i = Some m ->
  exists w', map__get i w = Done ((), w') /\ inv D (R ⊎ {[+ i +]}) G w' /\ mgs w' = mgs w.
Proof.
  intros I Hm. eexists. split; [unfold map__get; by erewrite with_map_done by exact Hm|].
  split; [|done]. pose proof (inv_map _ _ _ _ I i) as Hat. unfold map_at in Hat. rewrite Hm in Hat.
  destruct Hat as [[_ Hp] _]. eapply inv_set; [exact I|exact Hm|done..| | |]; cbn.
  - intros j Hj. rewrite multiplicity_disj_union, multiplicity_singleton_ne by done. lia.
  - rewrite multiplicity_disj_union, multiplicity_singleton_eq. lia.
  - lia.
Qed.

(** Dropping a reference: the map is freed with the last one, and is then in no
    tree. *)
Lemma inv_put D R G w i :
  inv D (R ⊎ {[+ i +]}) G w ->
  exists w', map__put i w = Done ((), w') /\ inv D R G w' /\ mgs w' = mgs w /\ next w' = next w /\
    (forall j, j <> i -> maps w' !! j = maps w !! j) /\
    exists m, maps w !! i = Some m /\ (refcnt m = 1 \/ maps w' !! i = Some (put_refcnt (refcnt m - 1) m)).
Proof.
  intros I. destruct (inv_held _ _ _ _ i I) as [m Hm]; [apply gmultiset_elem_of_disj_union; right; by apply gmultiset_elem_of_singleton|].
  pose proof (inv_map _ _ _ _ I i) as Hat. unfold map_at in Hat. rewrite Hm in Hat.
  destruct Hat as ([C1 C2] & He & Hn & Hl). rewrite multiplicity_disj_union, multiplicity_singleton_eq in C1.
  assert (HR : forall j, j <> i -> multiplicity j R = multiplicity j (R ⊎ {[+ i +]}))
    by (intros j Hj; rewrite multiplicity_disj_union, multiplicity_singleton_ne by done; lia).
  unfold map__put. mstep. mstep. destruct (Z.eqb_spec (refcnt m - 1) 0) as [Hz|Hz].
  - assert (Hk : links w i m = 0) by (unfold links in *; destruct (groups m); [|done];
      pose proof (occ_bound i (ents w n)); pose proof (occ_bound i (nams w n)); lia).
    assert (Hne : forall g, (i ∉ ents w g) /\ (i ∉ nams w g)).
    { intros g. split; intros Hin.
      - destruct (He g Hin) as [Hg _]. rewrite (links_some _ _ _ _ Hg), (occ_in _ _ Hin) in Hk.
        pose proof (occ_bound i (nams w g)). lia.
      - rewrite (links_some _ _ _ _ (Hn g Hin)), (occ_in _ _ Hin) in Hk. pose proof (occ_bound i (ents w g)). lia. }
    assert (Hlf : linked m = false).
    { destruct (linked m); [|done]. destruct (Hl eq_refl) as (g & _ & Hin). by apply Hne in Hin. }
    exists (World (delete i (maps w)) (mgs w) (next w)). split.
    { unfold map__delete. mstep. rewrite (bind_done _ _ _ _ _ (check_done _ _ (f_equal negb Hlf))).
      unfold free_map. rewrite (bind_done get _ _ _ _ eq_refl). unfold put. cbn. by rewrite delete_insert_eq. }
    split; [|split; [done|split; [done|split; [intros; cbn; by rewrite lookup_delete_ne|]]]].
    2: { exists m. split; [done|]. left. lia. }
    apply (inv_change D _ R G w _ i I); try done.
    + intros j Hj. cbn. by rewrite lookup_delete_ne.
    + intros g. apply (inv_nodup _ _ _ _ I).
    + cbn. rewrite lookup_delete_eq. by intros [? ?].
    + unfold map_at. cbn. rewrite lookup_delete_eq. split; [lia|exact Hne].
  - eexists. split; [reflexivity|]. split; [|split; [done|split; [done|split; [intros; cbn; by rewrite lookup_insert_ne|]]]].
    2: { exists m. split; [done|]. right. cbn. by rewrite lookup_insert_eq. }
    eapply inv_set; [exact I|exact Hm|done..| |]; cbn; [|lia].
    rewrite multiplicity_disj_union, multiplicity_singleton_eq. lia.
Qed.

Lemma inv_next D R G w : inv D R G w -> inv D R G (World (maps w) (mgs w) (S (next w))).
Proof.
  intros I. constructor; try apply I; cbn; intros i Hi.
  - pose proof (inv_fresh _ _ _ _ I i Hi). lia.
  - pose proof (inv_gfresh _ _ _ _ I i Hi). lia.
Qed.

Lemma next_free D R G w : inv D R G w -> maps w !! next w = None /\ mgs w !! next w = None.
Proof.
  intros I. split; apply eq_None_not_Some; intros Hs.
  - pose proof (inv_fresh _ _ _ _ I _ Hs). lia.
  - pose proof (inv_gfresh _ _ _ _ I _ Hs). lia.
Qed.

(** A new map belongs to its creator. *)
Lemma inv_new D R G w m :
  inv D R G w -> refcnt m = 1 -> groups m = None -> linked m = false ->
  inv D (R ⊎ {[+ next w +]}) G (World (<[next w := m]> (maps w)) (mgs w) (S (next w))).
Proof.
  intros I Hr Hg Hl. apply (inv_change D R _ G w _ (next w) I); try done.
  - intros j Hj. cbn. by rewrite lookup_insert_ne.
  - intros j Hj. rewrite multiplicity_disj_union, multiplicity_singleton_ne by done. lia.
  - intros g. apply (inv_nodup _ _ _ _ I).
  - cbn. lia.
  - cbn. lia.
  - pose proof (inv_map _ _ _ _ I (next w)) as Hat. unfold map_at in *. destruct (next_free _ _ _ _ I) as [Hf _].
    rewrite Hf in Hat. destruct Hat as [Hm Hno]. cbn. rewrite lookup_insert_eq.
    rewrite multiplicity_disj_union, multiplicity_singleton_eq. unfold links. rewrite Hg. split; [lia|].
    split; [intros g Hin; by apply Hno in Hin|]. split; [intros g Hin; by apply Hno in Hin|]. by rewrite Hl.
Qed.
End Refs.

(** What of a map does not depend on who refers to it. *)
Definition strip (m : map_t) : map_t := put_refcnt 0 (set_linked false (set_groups None m)).

Section Safe.
Context `{MapTree}.
Variable alloc_ok : nat -> bool.

Lemma map__clone_done D R G w p m :
  inv D R G w -> maps w !! p = Some m ->
  (alloc_ok (next w) = false /\ map__clone alloc_ok p w = Done (None, World (maps w) (mgs w) (S (next w)))) \/
  exists w', map__clone alloc_ok p w = Done (Some (next w), w') /\
    w' = World (<[next w := set_groups None (set_linked false (put_refcnt 1 m))]> (maps w)) (mgs w) (S (next w)) /\
    inv D (R ⊎ {[+ next w +]}) G w'.
Proof.
  intros I Hm. unfold map__clone. mstep. unfold alloc, mbind, M_bind, get, put. cbn.
  destruct (alloc_ok (next w)); [right|left; done].
  exists (World (<[next w := set_groups None (set_linked false (put_refcnt 1 m))]> (maps w)) (mgs w) (S (next w))).
  split; [done|]. split; [done|]. by apply inv_new.
Qed.

(** The parts of a map that a new one does not overlap. *)
Lemma insert_part_done D R G w p pm g f :
  inv D R G w -> maps w !! p = Some pm -> groups pm = Some g -> is_Some (mgs w !! g) ->
  (forall m, groups (f m) = groups m /\ linked (f m) = linked m /\ refcnt (f m) = refcnt m) ->
  (forall m, strip (f m) = f (strip m)) ->
  exists err w', insert_part alloc_ok p f w = Done (err, w') /\ inv D R G w' /\ dom (mgs w') = dom (mgs w) /\
    (forall j m, maps w !! j = Some m -> maps w' !! j = Some m) /\
    (forall g', g' <> g -> ents w' g' = ents w g') /\ (next w <= next w')%nat /\
    ((err = - ENOMEM /\ ents w' g = ents w g /\ alloc_ok (next w) = false) \/
     exists i m l1 l2, err = 0 /\ maps w !! i = None /\ maps w' !! i = Some m /\ strip m = strip (f pm) /\
       ents w g = l1 ++ l2 /\ ents w' g = l1 ++ i :: l2 /\
       (StronglySorted Z.le (mstart w <$> ents w g) ->
        Forall (fun j => mstart w j <= start (f pm)) l1 /\ Forall (fun j => start (f pm) < mstart w j) l2)).
Proof.
  intros I Hm Hmg [mg Hg] Hf Hs. unfold insert_part. destruct (next_free _ _ _ _ I) as [Hfr Hfg].
  destruct (map__clone_done _ _ _ _ _ _ I Hm) as [[Ha E]|(w1 & E & -> & I1)]; rewrite (bind_done _ _ _ _ _ E).
  { eexists _, _. split; [reflexivity|]. split; [by apply inv_next|]. split_and!; try done; [cbn; lia|by left]. }
  set (nm := set_groups None (set_linked false (put_refcnt 1 pm))) in *.
  destruct (Hf nm) as (F1 & F2 & F3).
  assert (Hpn : p <> next w) by (intros ->; congruence).
  erewrite bind_done; [|eapply with_map_done; cbn; by rewrite lookup_insert_eq].
  set (w1 := World _ _ _) in *. set (w2 := upd_map _ _ _).
  assert (I2 : inv D (R ⊎ {[+ next w +]}) G w2).
  { eapply inv_set; [exact I1|cbn; by rewrite lookup_insert_eq|done..| |]; rewrite F3; cbn; lia. }
  erewrite bind_done; [|eapply (lookup_map_done _ p pm); cbn; by rewrite !lookup_insert_ne]. rewrite Hmg.
  destruct (inv_insert _ _ _ w2 g (next w) (f nm) mg I2) as (w3 & l1 & l2 & E3 & I3 & M3 & N3 & D3 & A1 & A2 & A3 & A4);
    [cbn; by rewrite lookup_insert_eq|by rewrite F1|done|].
  rewrite <- __map_groups__insert_eq in E3. rewrite (bind_done _ _ _ _ _ E3).
  destruct (inv_put _ _ _ _ _ I3) as (w4 & E4 & I4 & M4 & N4 & P4 & m4 & L4 & L5).
  rewrite (bind_done _ _ _ _ _ E4). rewrite M3, lookup_insert_eq in L4. injection L4 as <-.
  destruct L5 as [L5|L5]; [cbn in L5; rewrite F3 in L5; cbn in L5; lia|].
  assert (Hst : start (f nm) = start (f pm)).
  { assert (Hx : strip (f nm) = strip (f pm)) by (rewrite !Hs; done). apply (f_equal start) in Hx. exact Hx. }
  assert (Eg : forall g', ents w4 g' = ents w3 g') by (intros; unfold ents; by rewrite M4).
  eexists 0, w4. split; [reflexivity|]. split; [done|]. split; [by rewrite M4, D3|].
  split. { intros j m Hj. assert (j <> next w) by (intros ->; congruence).
    rewrite P4, M3, lookup_insert_ne by done. cbn. by rewrite !lookup_insert_ne. }
  split; [intros; rewrite Eg; by apply A3|]. split; [rewrite N4, N3; cbn; lia|].
  right. eexists _, _, l1, l2. split; [done|]. split; [exact Hfr|]. split; [exact L5|].
  split; [assert (Hx : strip (f nm) = strip (f pm)) by (rewrite !Hs; done); exact Hx|].
  split; [done|]. split; [by rewrite Eg|]. rewrite <- Hst. intros Hsort.
  assert (Hms : forall j, j ∈ ents w g -> mstart w2 j = mstart w j).
  { intros j Hj. destruct (inv_entry _ _ _ _ _ _ I Hj) as (m & Hmj & _). assert (j <> next w) by (intros ->; congruence).
    unfold mstart. cbn. by rewrite !lookup_insert_ne. }
  assert (Hx : mstart w2 <$> ents w g = mstart w <$> ents w g)
    by (apply list_fmap_ext; intros k j Hj; apply Hms; by eapply list_elem_of_lookup_2).
  change (ents w2 g) with (ents w g) in *. rewrite Hx in A4. destruct (A4 Hsort) as [B1 B2].
  rewrite Forall_forall in B1, B2. rewrite !Forall_forall.
  split; intros j Hj; rewrite <- Hms by (rewrite A1; apply elem_of_app; auto); auto.
Qed.

(** The pointers [ids] point to maps that are [ps] but for their references. *)
Definition shows (w : world) (ids : list nat) (ps : list map_t) : Prop :=
  Forall2 (fun i m => strip <$> maps w !! i = Some m) ids ps.

Lemma shows_starts w ids ps : shows w ids ps -> mstart w <$> ids = start <$> ps.
Proof.
  induction 1 as [|i m ids ps Hm _ IH]; [done|]. rewrite !fmap_cons, IH. f_equal.
  apply fmap_Some in Hm as (m' & Hm & ->). unfold mstart. by rewrite Hm.
Qed.

Lemma shows_keep w w' ids ps :
  (forall j m, j ∈ ids -> maps w !! j = Some m -> exists m', maps w' !! j = Some m' /\ strip m' = strip m) ->
  shows w ids ps -> shows w' ids ps.
Proof.
  intros Hk. induction 1 as [|i m ids ps Hm _ IH]; [constructor|]. constructor.
  - apply fmap_Some in Hm as (m' & Hm & ->). destruct (Hk i m') as (m2 & Hm2 & E); [left|done|].
    rewrite Hm2. cbn. by rewrite E.
  - apply IH. intros j m' Hj. apply Hk. by right.
Qed.

(** One of the two parts, if it is wanted. *)
Lemma part_done (c : bool) D R G w p pm g f :
  inv D R G w -> maps w !! p = Some pm -> groups pm = Some g -> is_Some (mgs w !! g) ->
  (forall m, groups (f m) = groups m /\ linked (f m) = linked m /\ refcnt (f m) = refcnt m) ->
  (forall m, strip (f m) = f (strip m)) ->
  exists err w', (if c then insert_part alloc_ok p f else mret 0) w = Done (err, w') /\ inv D R G w' /\
    dom (mgs w') = dom (mgs w) /\
    (forall j m, maps w !! j = Some m -> maps w' !! j = Some m) /\
    (forall g', g' <> g -> ents w' g' = ents w g') /\
    (forall j, j ∈ ents w g -> j ∈ ents w' g) /\
    ((forall n, alloc_ok n = true) -> err = 0) /\
    (err = 0 -> exists ids l1 l2, ents w g = l1 ++ l2 /\ ents w' g = l1 ++ ids ++ l2 /\
       shows w' ids (if c then [f (strip pm)] else []) /\
       (c = true -> StronglySorted Z.le (mstart w <$> ents w g) ->
        Forall (fun j => mstart w j <= start (f pm)) l1 /\ Forall (fun j => start (f pm) < mstart w j) l2)).
Proof.
  intros I Hm Hmg Hg Hf Hs. destruct c.
  - destruct (insert_part_done D R G w p pm g f I Hm Hmg Hg Hf Hs) as (err & w' & E & I' & Hd & Hk & Ho & _ & Hres).
    exists err, w'. split; [done|]. split; [done|]. split; [done|]. split; [done|]. split; [done|].
    destruct Hres as [(-> & He & Ha)|(i & m & l1 & l2 & -> & Hi & Hi' & Hst & E1 & E2 & Hp)].
    + split; [by rewrite He|]. split; [intros Hall; by rewrite Hall in Ha|done].
    + split; [intros j Hj; rewrite E2, elem_of_mid, <- E1; by right|]. split; [done|]. intros _.
      exists [i], l1, l2. split; [done|]. split; [done|]. split; [|done].
      constructor; [|constructor]. rewrite Hi'. cbn. f_equal. by rewrite Hst.
  - exists 0, w. do 5 (split; [done|]). split; [done|]. split; [done|]. intros _.
    exists [], (ents w g), []. rewrite !app_nil_r. split; [done|]. split; [done|]. split; [constructor|done].
Qed.

(** What is left of a map when the addresses from [s] to [e] are mapped anew. *)
Definition before (s : Z) (p : map_t) : list map_t := if start p <? s then [put_end s p] else [].
Definition after (e : Z) (p : map_t) : list map_t := if e <? end_ p then [put_start e p] else [].
Definition cut (s e : Z) (p : map_t) : list map_t := before s p ++ after e p.

(** Maps that are not empty and do not overlap, in order. *)
Definition tiled (ps : list map_t) : Prop :=
  StronglySorted (fun a b => end_ a <= start b) ps /\ Forall (fun m => start m < end_ m) ps.

Lemma map__next_done D R G w g i l1 l2 :
  inv D R G w -> ents w g = l1 ++ i :: l2 -> map__next g i w = Done (head l2, w).
Proof.
  intros I El. assert (Hi : i ∈ ents w g) by (rewrite El; apply elem_of_mid; by left).
  destruct (mgs w !! g) as [mg|] eqn:Hg; [|by unfold ents in Hi; rewrite Hg in Hi; apply not_elem_of_nil in Hi].
  destruct (ents_mg _ _ _ Hg) as [EE _]. destruct (inv_nodup _ _ _ _ I g) as [N _].
  unfold map__next. mstep.
  rewrite (bind_done _ _ _ _ _ (check_done _ w (bool_decide_eq_true_2 _ (eq_ind _ (fun l => i ∈ l) Hi _ EE)))).
  unfold mret, M_ret. rewrite EE in El, N. by rewrite (rb_next_spec l1 i l2).
Qed.

Lemma split_unique (P : nat -> Prop) l1 l2 a b :
  l1 ++ l2 = a ++ b -> Forall P l1 -> Forall (fun j => ~ P j) l2 -> Forall P a -> Forall (fun j => ~ P j) b ->
  a = l1 /\ b = l2.
Proof.
  revert a. induction l1 as [|x l1 IH]; intros [|y a] E F1 F2 F3 F4; cbn in E; simplify_eq; try done.
  - apply Forall_cons in F2 as [? _]. by apply Forall_cons in F3 as [? _].
  - apply Forall_cons in F4 as [? _]. by apply Forall_cons in F1 as [? _].
  - apply Forall_cons in F1 as [? F1]. apply Forall_cons in F3 as [? F3]. destruct (IH a) as [-> ->]; done.
Qed.

Lemma shows_starts_bound w ids ps (P : Z -> Prop) :
  shows w ids ps -> Forall (fun m => P (start m)) ps -> Forall (fun j => P (mstart w j)) ids.
Proof.
  intros Hs HF. assert (HP : Forall P (mstart w <$> ids)) by (rewrite (shows_starts _ _ _ Hs); by apply Forall_fmap).
  rewrite Forall_fmap in HP. exact HP.
Qed.

Lemma tiled_starts ps : tiled ps -> StronglySorted Z.le (start <$> ps).
Proof.
  intros [Hs Hn]. induction Hs as [|p ps Hs IH Hp]; [constructor|]. apply Forall_cons in Hn as [Hp0 Hn].
  rewrite fmap_cons. constructor; [by apply IH|]. apply Forall_fmap. eapply Forall_impl; [exact Hp|]. cbn. lia.
Qed.

Lemma tiled_mid P1 p P2 :
  tiled (P1 ++ p :: P2) ->
  tiled P1 /\ tiled P2 /\ start p < end_ p /\
  Forall (fun m => end_ m <= start p) P1 /\ Forall (fun m => end_ p <= start m) P2.
Proof.
  intros [Hs Hn]. apply Forall_app in Hn as [N1 N2]. apply Forall_cons in N2 as [N2 N3].
  pose proof (StronglySorted_app_1_r _ _ _ Hs) as Hr. apply StronglySorted_cons in Hr as [Hr1 Hr2].
  pose proof (StronglySorted_app_1_l _ _ _ Hs) as Hl. split_and!; try done.
  apply Forall_forall. intros m Hm. by apply (StronglySorted_app_1_elem_of _ _ _ _ _ Hs Hm); left.
Qed.

(** The place of a map that starts between two parts of the tree. *)
Lemma insert_place w l1 l2 a b P1 P2 x :
  l1 ++ l2 = a ++ b -> shows w l1 P1 -> shows w l2 P2 ->
  Forall (fun m => start m <= x) P1 -> Forall (fun m => x < start m) P2 ->
  Forall (fun j => mstart w j <= x) a -> Forall (fun j => x < mstart w j) b -> a = l1 /\ b = l2.
Proof.
  intros E S1 S2 F1 F2 A B. apply (split_unique (fun j => mstart w j <= x) l1 l2 a b E).
  - by apply (shows_starts_bound w l1 P1 (fun z => z <= x) S1).
  - apply (shows_starts_bound w l2 P2 (fun z => ~ z <= x) S2). eapply Forall_impl; [exact F2|]. cbn. lia.
  - done.
  - eapply Forall_impl; [exact B|]. cbn. lia.
Qed.

(** Keeping the other maps is enough to keep what the pointers show. *)
Lemma shows_other w w' p ids ps :
  (forall j m, j <> p -> maps w !! j = Some m -> maps w' !! j = Some m) -> p ∉ ids -> shows w ids ps -> shows w' ids ps.
Proof.
  intros Hk Hp. apply shows_keep. intros j m Hj Hm. exists m. split; [|done]. apply Hk; [|done]. by intros ->.
Qed.

(** A part, if there is one, gets its place between [l1] and [l2]. *)
Lemma part_placed (c : bool) x q w w' g l1 l2 P1 P2 ids a b :
  ents w g = l1 ++ l2 -> shows w l1 P1 -> shows w l2 P2 -> StronglySorted Z.le (start <$> P1 ++ P2) ->
  (c = true -> Forall (fun m => start m <= x) P1 /\ Forall (fun m => x < start m) P2) ->
  ents w g = a ++ b -> ents w' g = a ++ ids ++ b -> shows w' ids (if c then [q] else []) ->
  (c = true -> StronglySorted Z.le (mstart w <$> ents w g) ->
   Forall (fun j => mstart w j <= x) a /\ Forall (fun j => x < mstart w j) b) ->
  ents w' g = l1 ++ ids ++ l2.
Proof.
  intros E S1 S2 Hs Hx Eab E' Si Hp. destruct c.
  - destruct (Hx eq_refl) as [X1 X2]. destruct (Hp eq_refl) as [Y1 Y2].
    { rewrite E, (shows_starts w (l1 ++ l2) (P1 ++ P2)); [done|by apply Forall2_app]. }
    destruct (insert_place w l1 l2 a b P1 P2 x) as [-> ->]; try done. by rewrite <- E.
  - inversion Si; subst. cbn in E' |- *. by rewrite E', <- Eab.
Qed.

(** The starts around a map that is taken out. *)
Lemma around P1 p P2 :
  tiled (P1 ++ p :: P2) ->
  Forall (fun m => start m < start p) P1 /\ Forall (fun m => end_ p <= start m) P2 /\ start p < end_ p /\
  StronglySorted Z.le (start <$> P1 ++ P2).
Proof.
  intros Ht. pose proof (tiled_mid _ _ _ Ht) as ([T1 T1'] & [T2 T2'] & T3 & T4 & T5).
  split; [|split; [done|split; [done|]]].
  - apply Forall_forall. intros m Hm. rewrite Forall_forall in T4, T1'. specialize (T4 m Hm). specialize (T1' m Hm).
    cbn in T4, T1'. lia.
  - apply tiled_starts. split; [|by apply Forall_app]. apply StronglySorted_app_2; [|done..].
    intros x y Hx Hy. rewrite Forall_forall in T4, T5. specialize (T4 x Hx). specialize (T5 y Hy). cbn in T4, T5. lia.
Qed.

(** Both parts of a map that was taken out are back in its place. *)
Lemma parts_placed s e pm g w1 w2 w3 l1 l2 P1 P2 i1 a1 a2 i2 b1 b2 :
  ents w1 g = l1 ++ l2 -> shows w1 l1 P1 -> shows w1 l2 P2 -> shows w2 l1 P1 -> shows w2 l2 P2 ->
  tiled (P1 ++ strip pm :: P2) -> s < end_ pm -> start pm < e ->
  ents w1 g = a1 ++ a2 -> ents w2 g = a1 ++ i1 ++ a2 -> shows w2 i1 (before s (strip pm)) ->
  ((start pm <? s) = true -> StronglySorted Z.le (mstart w1 <$> ents w1 g) ->
   Forall (fun j => mstart w1 j <= start pm) a1 /\ Forall (fun j => start pm < mstart w1 j) a2) ->
  ents w2 g = b1 ++ b2 -> ents w3 g = b1 ++ i2 ++ b2 -> shows w3 i2 (after e (strip pm)) ->
  ((e <? end_ pm) = true -> StronglySorted Z.le (mstart w2 <$> ents w2 g) ->
   Forall (fun j => mstart w2 j <= e) b1 /\ Forall (fun j => e < mstart w2 j) b2) ->
  ents w3 g = l1 ++ (i1 ++ i2) ++ l2.
Proof.
  intros E V1 V2 U1 U2 Ht Hs He A1 A2 A3 A4 B1 B2 B3 B4.
  destruct (around _ _ _ Ht) as (T1 & T2 & T3 & T4). cbn in T1, T2, T3.
  assert (Q1 : ents w2 g = l1 ++ i1 ++ l2).
  { apply (part_placed (start pm <? s) (start pm) (put_end s (strip pm)) w1 w2 g l1 l2 P1 P2 i1 a1 a2); try done.
    intros _. split; [eapply Forall_impl; [exact T1|]; cbn; lia|eapply Forall_impl; [exact T2|]; cbn; lia]. }
  assert (Sb : Forall (fun m => start m = start pm) (before s (strip pm)))
    by (unfold before; destruct (_ <? _); [by apply Forall_singleton|constructor]).
  assert (Q2 : ents w3 g = (l1 ++ i1) ++ i2 ++ l2).
  { apply (part_placed (e <? end_ pm) e (put_start e (strip pm)) w2 w3 g (l1 ++ i1) l2
      (P1 ++ before s (strip pm)) P2 i2 b1 b2); try done.
    - by rewrite <- app_assoc.
    - by apply Forall2_app.
    - unfold before in *. rewrite <- app_assoc. case_match; [|done]. rewrite fmap_app, fmap_app, fmap_cons. cbn.
      apply StronglySorted_mid; [apply _|]. rewrite fmap_app in T4. split; [by apply StronglySorted_app_1_l in T4|].
      split; [by apply StronglySorted_app_1_r in T4|]. rewrite Forall_forall in T1, T2.
      split; intros y (m & -> & Hm)%list_elem_of_fmap; [specialize (T1 m Hm)|specialize (T2 m Hm)]; cbn in *; lia.
    - intros Hc%Z.ltb_lt. split; [|eapply Forall_impl; [exact T2|]; cbn; lia]. apply Forall_app.
      split; [eapply Forall_impl; [exact T1|]; cbn; lia|eapply Forall_impl; [exact Sb|]; cbn; lia]. }
  by rewrite Q2, <- !app_assoc.
Qed.

(** A turn of the loop on a map that overlaps the new one. *)
Lemma fixup_step fuel D R G w g mapi mm p pm l1 l2 :
  inv D R G w -> ents w g = l1 ++ p :: l2 -> maps w !! p = Some pm -> maps w !! mapi = Some mm ->
  groups mm = None -> start pm < end_ mm ->
  exists err w',
    fixup_loop alloc_ok (S fuel) g mapi (Some p) w =
      (if err =? 0 then fixup_loop alloc_ok fuel g mapi (head l2) else mret err) w' /\
    inv D R G w' /\ dom (mgs w') = dom (mgs w) /\
    (forall j m, j <> p -> maps w !! j = Some m -> maps w' !! j = Some m) /\
    (forall g', g' <> g -> ents w' g' = ents w g') /\
    (forall j, j ∈ l1 ++ l2 -> j ∈ ents w' g) /\
    ((forall n, alloc_ok n = true) -> err = 0) /\
    (err = 0 -> forall P1 P2, shows w l1 P1 -> shows w l2 P2 -> tiled (P1 ++ strip pm :: P2) ->
     start mm < end_ pm -> start mm < end_ mm ->
     exists ids, ents w' g = l1 ++ ids ++ l2 /\ shows w' ids (cut (start mm) (end_ mm) (strip pm))).
Proof.
  intros I El Hp Hm Hgm Hov.
  assert (Hin : p ∈ ents w g) by (rewrite El; apply elem_of_mid; by left).
  destruct (inv_entry _ _ _ _ _ _ I Hin) as (pm' & Hp' & Hpg & _). rewrite Hp in Hp'. injection Hp' as <-.
  assert (Hpm : mapi <> p) by (intros ->; congruence).
  assert (Hg : is_Some (mgs w !! g))
    by (unfold ents in Hin; destruct (mgs w !! g); [eauto|by apply not_elem_of_nil in Hin]).
  destruct (inv_nodup _ _ _ _ I g) as [Hnd _]. rewrite El in Hnd. apply NoDup_mid in Hnd as (Np1 & Np2 & _).
  cbn [fixup_loop]. rewrite (bind_done _ _ _ _ _ (map__next_done _ _ _ _ _ _ _ _ I El)). do 2 mstep.
  rewrite (proj2 (Z.leb_gt (end_ mm) (start pm))) by lia.
  destruct (inv_erase_entry _ _ _ _ _ _ _ _ I El) as (w1 & pm' & E1 & I1 & Hp' & M1 & N1 & D1 & A1 & O1 & _).
  rewrite Hp in Hp'. injection Hp' as <-. rewrite (bind_done _ _ _ _ _ E1).
  assert (Hp1 : maps w1 !! p = Some (set_linked false pm)) by (rewrite M1; apply lookup_insert_eq).
  assert (K1 : forall j m, j <> p -> maps w !! j = Some m -> maps w1 !! j = Some m)
    by (intros j m Hj Hjm; rewrite M1; by rewrite lookup_insert_ne).
  assert (Hg1 : is_Some (mgs w1 !! g)) by (apply elem_of_dom; rewrite D1; by apply elem_of_dom).
  destruct (part_done (start pm <? start mm) _ _ _ w1 p _ g (put_end (start mm)) I1 Hp1 Hpg Hg1)
    as (err1 & w2 & E2 & I2 & D2 & K2 & O2 & T2 & F2 & S2); [done..|].
  rewrite (bind_done _ _ _ _ _ E2).
  assert (Hg2 : is_Some (mgs w2 !! g)) by (apply elem_of_dom; rewrite D2; by apply elem_of_dom).
  destruct (part_done (end_ mm <? end_ pm) _ _ _ w2 p _ g (put_start (end_ mm)) I2 (K2 _ _ Hp1) Hpg Hg2)
    as (err2 & w3 & E3 & I3 & D3 & K3 & O3 & T3 & F3 & S3); [done..|].
  destruct (Z.eqb_spec err1 0) as [Hz|Hz].
  - rewrite (bind_done _ _ _ _ _ E3). destruct (inv_put _ _ _ _ _ I3) as (w4 & E4 & I4 & M4 & N4 & P4 & _).
    rewrite (bind_done _ _ _ _ _ E4).
    assert (Eg : forall g', ents w4 g' = ents w3 g') by (intros; unfold ents; by rewrite M4).
    exists err2, w4. split; [done|]. split; [done|]. split; [by rewrite M4, D3, D2, D1|].
    split; [intros j m Hj Hjm; rewrite P4 by done; by apply K3, K2, K1|].
    split; [intros g' Hg'; by rewrite Eg, O3, O2, O1|].
    split; [intros j Hj; rewrite Eg; apply T3, T2; by rewrite A1|]. split; [done|].
    intros Hz2 P1 P2 W1 W2 Ht Hs1 Hs2.
    assert (V1 : shows w1 l1 P1) by (by apply (shows_other w w1 p)).
    assert (V2 : shows w1 l2 P2) by (by apply (shows_other w w1 p)).
    assert (U1 : shows w2 l1 P1) by (apply (shows_other w1 w2 p); [intros; by apply K2|done..]).
    assert (U2 : shows w2 l2 P2) by (apply (shows_other w1 w2 p); [intros; by apply K2|done..]).
    destruct (S2 Hz) as (i1 & a1 & a2 & B1 & B2 & B3 & B4). destruct (S3 Hz2) as (i2 & b1 & b2 & C1 & C2 & C3 & C4).
    assert (Q3 : ents w3 g = l1 ++ (i1 ++ i2) ++ l2)
      by (by apply (parts_placed (start mm) (end_ mm) pm g w1 w2 w3 l1 l2 P1 P2 i1 a1 a2 i2 b1 b2)).
    exists (i1 ++ i2). split; [by rewrite Eg|].
    assert (Hpe : p ∉ ents w3 g).
    { intros Hpin. destruct (inv_entry _ _ _ _ _ _ I3 Hpin) as (m & Hpm3 & _ & Hl).
      rewrite (K3 _ _ (K2 _ _ Hp1)) in Hpm3. by injection Hpm3 as <-. }
    rewrite Q3, !elem_of_app in Hpe. apply Forall2_app.
    + apply (shows_other w2 w4 p); [|tauto|done]. intros j m Hj Hjm. rewrite P4 by done. by apply K3.
    + apply (shows_other w3 w4 p); [|tauto|done]. intros j m Hj Hjm. by rewrite P4.
  - rewrite (bind_done (mret err1) _ _ err1 w2) by done. destruct (inv_put _ _ _ _ _ I2) as (w4 & E4 & I4 & M4 & N4 & P4 & _).
    rewrite (bind_done _ _ _ _ _ E4).
    assert (Eg : forall g', ents w4 g' = ents w2 g') by (intros; unfold ents; by rewrite M4).
    exists err1, w4. split; [done|]. split; [done|]. split; [by rewrite M4, D2, D1|].
    split; [intros j m Hj Hjm; rewrite P4 by done; by apply K2, K1|].
    split; [intros g' Hg'; by rewrite Eg, O2, O1|].
    split; [intros j Hj; rewrite Eg; apply T2; by rewrite A1|]. split; [done|]. done.
Qed.

(** The loop never loses a reference, whatever the maps are. *)
Lemma fixup_safe fuel D R G g mapi mm : forall w nxt,
  inv D R G w -> maps w !! mapi = Some mm -> groups mm = None ->
  (forall p, nxt = Some p -> p ∈ ents w g) ->
  wp True (fixup_loop alloc_ok fuel g mapi nxt)
    (fun _ w' => inv D R G w' /\ maps w' !! mapi = Some mm /\ dom (mgs w') = dom (mgs w)) w.
Proof.
  induction fuel as [|fuel IH]; intros w [p|] I Hm Hg Hn; try done.
  specialize (Hn p eq_refl). pose proof Hn as Hp. apply list_elem_of_split in Hp as (l1 & l2 & El).
  destruct (inv_entry _ _ _ _ _ _ I Hn) as (pm & Hp & Hpg & _).
  destruct (Z.le_gt_cases (end_ mm) (start pm)) as [Hb|Hb].
  - apply (wp_done _ _ _ _ 0 w); [|done]. cbn [fixup_loop].
    rewrite (bind_done _ _ _ _ _ (map__next_done _ _ _ _ _ _ _ _ I El)). do 2 mstep.
    by rewrite (proj2 (Z.leb_le _ _)).
  - destruct (fixup_step fuel D R G w g mapi mm p pm l1 l2 I El Hp Hm Hg Hb)
      as (err & w' & E & I' & Hd & Hk & _ & Ht & _).
    assert (Hm' : maps w' !! mapi = Some mm) by (apply Hk; [congruence|done]).
    unfold wp. rewrite E. destruct (err =? 0); [|by rewrite <- Hd].
    rewrite <- Hd. apply IH; [done..|]. intros q Hq. apply Ht. destruct l2; [done|]. injection Hq as <-.
    apply elem_of_app. right. left.
Qed.

Lemma find_first_done w s t first :
  known w (elems t) -> exists o, find_first s t first w = Done (o, w) /\ (o = first \/ exists i, o = Some i /\ i ∈ elems t).
Proof.
  revert first. induction t as [|l IHl i r IHr]; intros first Hk; [eexists; by split; [|left]|].
  cbn [elems] in *. apply Forall_app in Hk as [Hl Hr]. apply Forall_cons in Hr as [[m Hm] Hr].
  cbn [find_first]. mstep. destruct (s <? end_ m).
  - destruct (start m <=? s).
    + eexists. split; [done|]. right. exists i. split; [done|]. apply elem_of_mid. by left.
    + destruct (IHl (Some i) Hl) as (o & E & Ho). exists o. split; [done|]. right.
      destruct Ho as [->|(j & -> & Hj)]; [exists i|exists j]; (split; [done|]); apply elem_of_mid; [by left|].
      right. apply elem_of_app. by left.
  - destruct (IHr first Hr) as (o & E & Ho). exists o. split; [done|].
    destruct Ho as [->|(j & -> & Hj)]; [by left|right]. exists j. split; [done|]. apply elem_of_mid. right.
    apply elem_of_app. by right.
Qed.

Lemma find_map_done w ip t :
  known w (elems t) -> exists o, find_map ip t w = Done (o, w) /\ (forall i, o = Some i -> i ∈ elems t).
Proof.
  induction t as [|l IHl i r IHr]; intros Hk; [by exists None|].
  cbn [elems] in *. apply Forall_app in Hk as [Hl Hr]. apply Forall_cons in Hr as [[m Hm] Hr].
  cbn [find_map]. mstep. destruct (IHl Hl) as (ol & El & Hol), (IHr Hr) as (or & Er & Hor).
  destruct (ip <? start m); [|destruct (end_ m <=? ip)].
  - exists ol. split; [done|]. intros j Hj. apply elem_of_app. left. by apply Hol.
  - exists or. split; [done|]. intros j Hj. apply elem_of_app. right. right. by apply Hor.
  - exists (Some i). split; [done|]. intros j [= <-]. apply elem_of_app. right. left.
Qed.

Lemma maps__find_done D R G w g ip :
  inv D R G w -> is_Some (mgs w !! g) ->
  exists o, maps__find g ip w = Done (o, w) /\ (forall i, o = Some i -> i ∈ ents w g).
Proof.
  intros I [mg Hg]. destruct (inv_known _ _ _ _ _ _ I Hg) as [K _]. destruct (ents_mg _ _ _ Hg) as [EE _].
  destruct (find_map_done w ip (entries mg) K) as (o & E & Ho). exists o. unfold maps__find. mstep. by rewrite EE.
Qed.

Lemma maps__fixup_safe fuel D R G w g i m :
  inv D R G w -> maps w !! i = Some m -> groups m = None -> is_Some (mgs w !! g) ->
  wp True (maps__fixup_overlappings alloc_ok fuel g i)
    (fun _ w' => inv D R G w' /\ maps w' !! i = Some m /\ dom (mgs w') = dom (mgs w)) w.
Proof.
  intros I Hm Hn [mg Hg]. destruct (inv_known _ _ _ _ _ _ I Hg) as [K _]. destruct (ents_mg _ _ _ Hg) as [EE _].
  destruct (find_first_done w (start m) (entries mg) None K) as (o & E & Ho).
  unfold maps__fixup_overlappings. do 2 (eapply wp_bind_done; [by mdone|]).
  eapply wp_bind_done; [exact E|]. apply fixup_safe; try done.
  intros p ->. destruct Ho as [?|(j & [= <-] & Hj)]; [done|]. by rewrite EE.
Qed.

(** ** Groups *)

Lemma in_ents w g i : i ∈ ents w g -> is_Some (mgs w !! g).
Proof. unfold ents. destruct (mgs w !! g); [eauto|]. by intros ?%not_elem_of_nil. Qed.

Lemma in_nams w g i : i ∈ nams w g -> is_Some (mgs w !! g).
Proof. unfold nams. destruct (mgs w !! g); [eauto|]. by intros ?%not_elem_of_nil. Qed.

Lemma purge_done D R G g l : forall w,
  inv D R G w -> ents w g = l ->
  exists w', __maps__purge (length l) g (head l) w = Done ((), w') /\ inv D R G w' /\
    ents w' g = [] /\ nams w' g = nams w g /\ dom (mgs w') = dom (mgs w).
Proof.
  induction l as [|i l IH]; intros w I El; [exists w; done|].
  cbn [length head __maps__purge]. rewrite (bind_done _ _ _ _ _ (map__next_done D R G w g i [] l I El)).
  destruct (inv_erase_entry D R G w g i [] l I El) as (w1 & m & E1 & I1 & _ & _ & _ & D1 & A1 & _ & Z1).
  rewrite (bind_done _ _ _ _ _ E1). destruct (inv_put _ _ _ _ _ I1) as (w2 & E2 & I2 & M2 & _).
  rewrite (bind_done _ _ _ _ _ E2).
  destruct (IH w2 I2) as (w3 & E3 & I3 & A3 & B3 & D3); [unfold ents in *; by rewrite M2|].
  exists w3. split; [done|]. split; [done|]. split; [done|]. split; [|by rewrite D3, M2].
  rewrite B3, <- Z1. unfold nams. by rewrite M2.
Qed.

Lemma name__next_done D R G w g i l : inv D R G w -> nams w g = i :: l -> name__next g i w = Done (head l, w).
Proof.
  intros I El. assert (Hi : i ∈ nams w g) by (rewrite El; left). destruct (in_nams _ _ _ Hi) as [mg Hg].
  destruct (ents_mg _ _ _ Hg) as [_ EN]. destruct (inv_nodup _ _ _ _ I g) as [_ N].
  unfold name__next. mstep.
  rewrite (bind_done _ _ _ _ _ (check_done _ w (bool_decide_eq_true_2 _ (eq_ind _ (fun l => i ∈ l) Hi _ EN)))).
  unfold mret, M_ret. rewrite EN in El, N. by rewrite (rb_next_spec [] i l).
Qed.

Lemma purge_names_done D R G g l : forall w,
  inv D R G w -> nams w g = l -> ents w g = [] ->
  exists w', __maps__purge_names (length l) g (head l) w = Done ((), w') /\ inv D R G w' /\
    nams w' g = [] /\ ents w' g = [] /\ dom (mgs w') = dom (mgs w).
Proof.
  induction l as [|i l IH]; intros w I El Ee; [exists w; done|].
  cbn [length head __maps__purge_names]. rewrite (bind_done _ _ _ _ _ (name__next_done D R G w g i l I El)).
  destruct (inv_erase_name D R G w g i [] l I El) as (w1 & E1 & I1 & _ & _ & D1 & A1 & Z1);
    [rewrite Ee; apply not_elem_of_nil|].
  rewrite (bind_done _ _ _ _ _ E1). destruct (inv_put _ _ _ _ _ I1) as (w2 & E2 & I2 & M2 & _).
  rewrite (bind_done _ _ _ _ _ E2).
  destruct (IH w2 I2) as (w3 & E3 & I3 & A3 & B3 & D3); [unfold nams in *; by rewrite M2| |].
  { rewrite <- Ee, <- Z1. unfold ents. by rewrite M2. }
  exists w3. split; [done|]. split; [done|]. split; [done|]. split; [done|by rewrite D3, M2].
Qed.

(** Groups that have the same trees count the same references. *)
Lemma inv_groups D D' R G G' w mg' n :
  inv D R G w -> (next w <= n)%nat ->
  (forall g, ents (World (maps w) mg' n) g = ents w g /\ nams (World (maps w) mg' n) g = nams w g) ->
  (forall g, is_Some (mg' !! g) -> (g < n)%nat) ->
  (forall g mg, mg' !! g = Some mg -> mg_refcnt mg = Z.of_nat (multiplicity g G') /\ (D' = Some g \/ 0 < mg_refcnt mg)) ->
  (forall g, g ∈ G' -> is_Some (mg' !! g)) ->
  inv D' R G' (World (maps w) mg' n).
Proof.
  intros I Hn Ht Hf Hr Hh.
  assert (Hl : forall i m, links (World (maps w) mg' n) i m = links w i m).
  { intros i m. unfold links. destruct (groups m) as [g|]; [|done]. by destruct (Ht g) as [-> ->]. }
  constructor; try done.
  - intros i. pose proof (inv_map _ _ _ _ I i) as Hat. unfold map_at in *. cbn [maps].
    destruct (maps w !! i) as [m|]; [rewrite Hl|].
    + destruct Hat as (Hc & He & Hna & Hli). split; [done|].
      split; [intros g; destruct (Ht g) as [-> ->]; apply He|].
      split; [intros g; destruct (Ht g) as [_ ->]; apply Hna|].
      intros Hlk. destruct (Hli Hlk) as (g & ? & ?). exists g. by destruct (Ht g) as [-> _].
    + destruct Hat as [Hc Hno]. split; [done|]. intros g. destruct (Ht g) as [-> ->]. apply Hno.
  - intros g. destruct (Ht g) as [-> ->]. apply (inv_nodup _ _ _ _ I).
  - intros i Hi. pose proof (inv_fresh _ _ _ _ I i Hi). cbn. lia.
Qed.

Lemma upd_refcnt_trees w g mg r g' :
  mgs w !! g = Some mg ->
  ents (upd_mg g (MapGroups (entries mg) (names mg) r) w) g' = ents w g' /\
  nams (upd_mg g (MapGroups (entries mg) (names mg) r) w) g' = nams w g'.
Proof.
  intros Hg. destruct (ents_mg _ _ _ Hg) as [EE EN]. unfold upd_mg. rewrite ents_upd, nams_upd. cbn [entries names].
  case_decide; [by subst|done].
Qed.

(** Counting a reference to a group up or down. *)
Lemma inv_mg_ref D' R G G' w g mg r :
  inv None R G w -> mgs w !! g = Some mg ->
  (forall g', g' <> g -> multiplicity g' G' = multiplicity g' G) ->
  r = Z.of_nat (multiplicity g G') -> (D' = Some g \/ 0 < r) ->
  inv D' R G' (upd_mg g (MapGroups (entries mg) (names mg) r) w).
Proof.
  intros I Hg HG Hr Hd. apply (inv_groups None D' R G G' w).
  - exact I.
  - done.
  - intros g'. by apply upd_refcnt_trees.
  - intros g'. cbn. destruct (decide (g' = g)) as [->|]; simplify_map_eq; intros; apply (inv_gfresh _ _ _ _ I); eauto.
  - intros g' mg'. destruct (decide (g' = g)) as [->|Hne].
    + rewrite lookup_insert_eq. intros [= <-]. done.
    + rewrite lookup_insert_ne by done. intros Hg'. rewrite HG by done.
      destruct (inv_group _ _ _ _ I g' mg' Hg') as [? [?|?]]; [done|]. split; [done|by right].
  - intros g' Hin. destruct (decide (g' = g)) as [->|Hne]; [by rewrite lookup_insert_eq|].
    rewrite lookup_insert_ne by done. apply (inv_gheld _ _ _ _ I). rewrite elem_of_multiplicity in *. by rewrite <- HG.
Qed.

Lemma map_groups__put_done R G w g :
  inv None R (G ⊎ {[+ g +]}) w -> exists w', map_groups__put g w = Done ((), w') /\ inv None R G w'.
Proof.
  intros I. destruct (inv_gheld _ _ _ _ I g) as [mg Hg];
    [apply gmultiset_elem_of_disj_union; right; by apply gmultiset_elem_of_singleton|].
  destruct (inv_group _ _ _ _ I g mg Hg) as [Hr _]. rewrite multiplicity_disj_union, multiplicity_singleton_eq in Hr.
  assert (HG : forall g', g' <> g -> multiplicity g' G = multiplicity g' (G ⊎ {[+ g +]}))
    by (intros g' Hne; rewrite multiplicity_disj_union, multiplicity_singleton_ne by done; lia).
  unfold map_groups__put. mstep. mstep. set (mg' := MapGroups _ _ _). set (w1 := upd_mg _ _ _).
  destruct (Z.eqb_spec (mg_refcnt mg - 1) 0) as [Hz|Hz].
  - assert (I1 : inv (Some g) R G w1) by (apply (inv_mg_ref _ _ _ G _ _ _ _ I Hg HG); [lia|by left]).
    assert (Hg1 : mgs w1 !! g = Some mg') by apply lookup_insert_eq.
    destruct (ents_mg _ _ _ Hg1) as [EE EN].
    destruct (purge_done _ _ _ g _ w1 I1 eq_refl) as (w2 & E2 & I2 & A2 & B2 & D2).
    destruct (purge_names_done _ _ _ g _ w2 I2 eq_refl A2) as (w3 & E3 & I3 & A3 & B3 & D3).
    exists (World (maps w3) (delete g (mgs w3)) (next w3)). split.
    + assert (Hx : maps__exit g w1 = Done ((), w3)).
      { unfold maps__exit. mstep. rewrite !rb_first_spec, <- EE, <- EN.
        rewrite (bind_done _ _ _ _ _ E2). by rewrite <- B2. }
      unfold map_groups__delete. by rewrite (bind_done _ _ _ _ _ Hx).
    + apply (inv_groups (Some g) None R G G w3); [done..| | | |].
      * intros g'. unfold ents, nams in *. cbn. destruct (decide (g' = g)) as [->|Hne].
        -- rewrite lookup_delete_eq. rewrite B3 in *. done.
        -- by rewrite lookup_delete_ne.
      * intros g' [x Hx]%lookup_delete_is_Some. apply (inv_gfresh _ _ _ _ I3). done.
      * intros g' mg3 (Hne & Hg')%lookup_delete_Some. destruct (inv_group _ _ _ _ I3 g' mg3 Hg') as [? [?|?]]; [congruence|].
        split; [done|by right].
      * intros g' Hin. apply lookup_delete_is_Some. split; [|by apply (inv_gheld _ _ _ _ I3)].
        intros <-. rewrite elem_of_multiplicity in Hin. lia.
  - exists w1. split; [done|]. apply (inv_mg_ref _ _ _ G _ _ _ _ I Hg HG); [lia|right; lia].
Qed.

Lemma map_groups__get_done R G w g :
  inv None R G w -> is_Some (mgs w !! g) ->
  exists w', map_groups__get g w = Done ((), w') /\ inv None R (G ⊎ {[+ g +]}) w' /\ dom (mgs w') = dom (mgs w).
Proof.
  intros I [mg Hg]. unfold map_groups__get. mstep. rewrite store_mg_done. eexists. split; [reflexivity|].
  destruct (inv_group _ _ _ _ I g mg Hg) as [Hr [?|Hp]]; [done|]. split; [|cbn; by apply dom_insert_lookup_L].
  apply (inv_mg_ref _ _ G _ _ _ _ _ I Hg).
  - intros g' Hne. rewrite multiplicity_disj_union, multiplicity_singleton_ne by done. lia.
  - rewrite multiplicity_disj_union, multiplicity_singleton_eq. lia.
  - right. lia.
Qed.

Lemma map_groups__new_done R G w :
  inv None R G w ->
  exists o w', map_groups__new alloc_ok w = Done (o, w') /\
    match o with
    | None => inv None R G w' /\ mgs w' = mgs w
    | Some g => inv None R (G ⊎ {[+ g +]}) w' /\ mgs w' = <[g := MapGroups tnull tnull 1]> (mgs w) /\ mgs w !! g = None
    end.
Proof.
  intros I. destruct (next_free _ _ _ _ I) as [_ Hf].
  unfold map_groups__new, alloc, mbind, M_bind, get, put. cbn. destruct (alloc_ok (next w)); cbn.
  - exists (Some (next w)), (World (maps w) (<[next w := MapGroups tnull tnull 1]> (mgs w)) (S (next w))).
    split; [done|]. split; [|done]. apply (inv_groups None None R G _ w); [done|lia|..].
    + intros g. rewrite ents_upd, nams_upd. case_decide; [|done]. subst. unfold ents, nams. by rewrite Hf.
    + intros g. destruct (decide (g = next w)) as [->|]; [lia|]. rewrite lookup_insert_ne by done. intros Hg.
      pose proof (inv_gfresh _ _ _ _ I g Hg). lia.
    + intros g mg. destruct (decide (g = next w)) as [->|Hne].
      * rewrite lookup_insert_eq. intros [= <-]. rewrite multiplicity_disj_union, multiplicity_singleton_eq.
        destruct (decide (next w ∈ G)) as [Hin|Hin]; [apply (inv_gheld _ _ _ _ I) in Hin; rewrite Hf in Hin; by destruct Hin|].
        rewrite elem_of_multiplicity in Hin. cbn. lia.
      * rewrite lookup_insert_ne by done. intros Hg.
        rewrite multiplicity_disj_union, multiplicity_singleton_ne by done. rewrite Nat.add_0_r. by apply (inv_group _ _ _ _ I).
    + intros g [Hin|Hin]%gmultiset_elem_of_disj_union.
      * destruct (decide (g = next w)) as [->|]; [by rewrite lookup_insert_eq|]. rewrite lookup_insert_ne by done.
        by apply (inv_gheld _ _ _ _ I).
      * apply gmultiset_elem_of_singleton in Hin as ->. by rewrite lookup_insert_eq.
  - eexists None, _. split; [reflexivity|]. split; [by apply inv_next|done].
Qed.
End Safe.

(** ** What a run of perf does to the maps *)

(** The threads and the maps that the rest of the program holds. *)
Record client := Client { threads : list thread; held : list nat }.

Inductive maps_op :=
| op_spawn (pid tid : Z)                                 (* a thread without a known parent *)
| op_fork (t : nat) (pid tid : Z) (do_maps_clone : bool) (* PERF_RECORD_FORK *)
| op_exit (t : nat)                                      (* the last reference to a thread is put *)
| op_mmap (t : nat) (e : map_event)                     (* PERF_RECORD_MMAP, PERF_RECORD_MMAP2 *)
| op_hold (t : nat) (addr : Z)                           (* a report keeps the map of an address *)
| op_release (k : nat)                                   (* and lets it go *)
| op_register (t : nat) (d : option dso) (addr len : Z)  (* PERF_RECORD_KSYMBOL *)
| op_unregister (t : nat) (addr : Z).

Section Client.
Context `{MapTree}.
Variable alloc_ok : nat -> bool.
Variable findnew_dso : string -> option dso.
Variable findnew_vdso : option dso.
Variable replace_android_lib : string -> option string.
Variable unwind__prepare_access : map_t -> Z * bool.
Variable use_callchain : bool.
Variable fuel : nat.

Definition leader_of (c : client) (pid : Z) : option thread :=
  snd <$> list_find (fun t => pid_ t = pid /\ tid t = pid) (threads c).

(** [__machine__findnew_thread(machine, pid, pid)] in thread__init_map_groups: the
    leader that is there, or a new one with groups of its own. *)
Definition findnew_leader (c : client) (pid : Z) : M (option thread * client) :=
  match leader_of c pid with
  | Some l => mret (Some l, c)
  | None =>
      '(ret, l) ← thread__init_map_groups alloc_ok None (thread__new pid pid);
      if negb (ret =? 0) then mret (None, c)
      else mret (Some l, Client (threads c ++ [l]) (held c))
  end.

(** A thread whose map groups cannot be had is not kept. *)
Definition new_thread (c : client) (pid tid : Z) (k : thread -> M Z) : M client :=
  '(leader, c) ← (if (pid =? tid) || (pid =? -1) then mret (None, c) else findnew_leader c pid);
  '(ret, t) ← thread__init_map_groups alloc_ok leader (thread__new pid tid);
  if negb (ret =? 0) then mret c else
  k t;; mret (Client (threads c ++ [t]) (held c)).

Definition on_thread (c : client) (i : nat) (k : thread -> nat -> M client) : M client :=
  match threads c !! i with
  | None => mret c
  | Some t => g ← deref_mg t; k t g
  end.

Definition run_op (o : maps_op) (c : client) : M client :=
  match o with
  | op_spawn pid tid => new_thread c pid tid (fun _ => mret 0)
  | op_fork i pid tid do_maps_clone =>
      on_thread c i (fun parent _ =>
        new_thread c pid tid (fun t =>
          thread__clone_map_groups alloc_ok unwind__prepare_access use_callchain t parent do_maps_clone))
  | op_exit i =>
      on_thread c i (fun _ g => map_groups__put g;; mret (Client (delete i (threads c)) (held c)))
  | op_mmap i e =>
      on_thread c i (fun t _ =>
        process_mmap alloc_ok findnew_dso findnew_vdso replace_android_lib unwind__prepare_access fuel t e;; mret c)
  | op_hold i addr =>
      on_thread c i (fun _ g =>
        o ← maps__find g addr;
        match o with
        | None => mret c
        | Some m => map__get m;; mret (Client (threads c) (m :: held c))
        end)
  | op_release k =>
      match held c !! k with
      | None => mret c
      | Some m => map__put m;; mret (Client (threads c) (delete k (held c)))
      end
  | op_register i d addr len =>
      on_thread c i (fun _ g => machine__process_ksymbol_register alloc_ok g d addr len;; mret c)
  | op_unregister i addr => on_thread c i (fun _ g => machine__process_ksymbol_unregister g addr;; mret c)
  end.

Fixpoint run_ops (os : list maps_op) (c : client) : M client :=
  match os with [] => mret c | o :: os => c ← run_op o c; run_ops os c end.

(** The operations that leave a reference behind: a failure to set up unwinding
    while maps are cloned, and the registration of a kernel symbol. *)
Definition leaks (o : maps_op) : Prop :=
  match o with
  | op_register _ _ _ _ => True
  | op_fork _ _ _ _ => exists m, (unwind__prepare_access m).1 <> 0
  | _ => False
  end.

Lemma clone_loop_done G g p l : forall w l0 R err,
  inv None R G w -> ents w p = l0 ++ l -> g <> p -> is_Some (mgs w !! g) ->
  exists e w' L, clone_loop alloc_ok unwind__prepare_access (length l) g p err (head l) w = Done (e, w') /\
    inv None (R ⊎ L) G w' /\ ((forall m, (unwind__prepare_access m).1 = 0) -> L = ∅).
Proof.
  induction l as [|i l IH]; intros w l0 R err I El Hgp Hg.
  { exists 0, w, ∅. split; [done|]. by rewrite (right_id_L ∅ (⊎)). }
  assert (Hi : i ∈ ents w p) by (rewrite El; apply elem_of_mid; by left).
  destruct (inv_entry _ _ _ _ _ _ I Hi) as (m & Hm & Hmp & _). cbn [length head clone_loop].
  destruct (map__clone_done alloc_ok _ _ _ _ _ _ I Hm) as [[Ha E]|(w1 & E & -> & I1)]; rewrite (bind_done _ _ _ _ _ E).
  { eexists _, _, ∅. split; [reflexivity|]. rewrite (right_id_L ∅ (⊎)). split; [by apply inv_next|done]. }
  set (nm := set_groups None _) in *. set (w1 := World _ _ _) in *.
  erewrite bind_done; [|eapply lookup_map_done; cbn; by rewrite lookup_insert_eq].
  destruct (Z.eqb_spec (unwind__prepare_access nm).1 0) as [Hz|Hz]; cbn [negb].
  2: { eexists _, w1, {[+ next w +]}. split; [reflexivity|]. split; [done|]. intros Hall. by rewrite Hall in Hz. }
  destruct Hg as [mg Hg].
  destruct (inv_insert _ _ _ w1 g (next w) nm mg I1) as (w3 & l1 & l2 & E3 & I3 & M3 & N3 & D3 & A1 & A2 & A3 & _);
    [cbn; by rewrite lookup_insert_eq|done|done|].
  rewrite (bind_done _ _ _ _ _ E3). destruct (inv_put _ _ _ _ _ I3) as (w4 & E4 & I4 & M4 & _).
  rewrite (bind_done _ _ _ _ _ E4).
  assert (El4 : ents w4 p = l0 ++ i :: l) by (transitivity (ents w3 p); [unfold ents; by rewrite M4|by rewrite A3]).
  rewrite (bind_done _ _ _ _ _ (map__next_done None R G w4 p i l0 l I4 El4)).
  apply (IH w4 (l0 ++ [i]) R); [done|by rewrite <- app_assoc|done|].
  apply elem_of_dom. rewrite M4, D3. by eapply elem_of_dom_2.
Qed.

Lemma prepare_loop_done D R G g l : forall w l0 err,
  inv D R G w -> ents w g = l0 ++ l ->
  exists e, prepare_loop unwind__prepare_access (length l) g err (head l) w = Done (e, w).
Proof.
  induction l as [|i l IH]; intros w l0 err I El; [by exists err|].
  assert (Hi : i ∈ ents w g) by (rewrite El; apply elem_of_mid; by left).
  destruct (inv_entry _ _ _ _ _ _ I Hi) as (m & Hm & _). cbn [length head prepare_loop]. mstep.
  destruct (unwind__prepare_access m) as [err' [|]]; [rewrite orb_true_r; by exists err'|].
  destruct (negb (err' =? 0)); [by exists err'|].
  cbn [orb]. rewrite (bind_done _ _ _ _ _ (map__next_done D R G w g i l0 l I El)).
  apply (IH w (l0 ++ [i])); [done|by rewrite <- app_assoc].
Qed.

Lemma thread__clone_done R G w t parent g p do_maps_clone :
  inv None R G w -> mg t = Some g -> mg parent = Some p -> is_Some (mgs w !! g) -> is_Some (mgs w !! p) ->
  exists e w' L, thread__clone_map_groups alloc_ok unwind__prepare_access use_callchain t parent do_maps_clone w =
      Done (e, w') /\
    inv None (R ⊎ L) G w' /\ ((forall m, (unwind__prepare_access m).1 = 0) -> L = ∅).
Proof.
  intros I Ht Hp Hg [pmg Hpg].
  assert (Hnop : forall e : Z, exists e' w' L, (mret e : M Z) w = Done (e', w') /\
    inv None (R ⊎ L) G w' /\ ((forall m, (unwind__prepare_access m).1 = 0) -> L = ∅)).
  { intros e. exists e, w, ∅. by rewrite (right_id_L ∅ (⊎)). }
  unfold thread__clone_map_groups. destruct (pid_ t =? pid_ parent).
  - unfold thread__prepare_access. destruct use_callchain; [|apply Hnop].
    unfold __thread__prepare_access, deref_mg. rewrite Ht. rewrite (bind_done _ _ w g w eq_refl).
    destruct Hg as [mgg Hg]. mstep. destruct (ents_mg _ _ _ Hg) as [EE _]. rewrite rb_first_spec, <- EE.
    destruct (prepare_loop_done None R G g (ents w g) w [] 0 I eq_refl) as [e E].
    exists e, w, ∅. by rewrite (right_id_L ∅ (⊎)).
  - case_decide as Hne; [apply Hnop|]. destruct do_maps_clone; [|apply Hnop].
    unfold deref_mg. rewrite Ht, Hp. rewrite (bind_done _ _ w g w eq_refl), (bind_done _ _ w p w eq_refl).
    unfold map_groups__clone. mstep. destruct (ents_mg _ _ _ Hpg) as [EE _]. rewrite rb_first_spec, <- EE.
    apply (clone_loop_done G g p (ents w p) w [] R); [done|done|congruence|done].
Qed.

(** The map that a record makes, with the dso found for it. *)
Definition mapping (e : map_event) (d : dso) : map_t :=
  let m := map__init (ev_start e) (ev_start e +64 ev_len e) (ev_prot e) (ev_flags e)
             (if is_vdso_map (ev_filename e) then 0 else ev_pgoff e) d in
  if is_anon_memory (ev_filename e) (ev_flags e) || is_no_dso_memory (ev_filename e)
  then set_ips identity__map_ip identity__map_ip m else m.

Definition dso_of (nsi : option Z) (e : map_event) : option dso :=
  if is_vdso_map (ev_filename e) then findnew_vdso
  else findnew_dso (dso_filename replace_android_lib nsi (ev_filename e) (ev_prot e) (ev_flags e)).

Lemma mapping_fresh e d : groups (mapping e d) = None /\ refcnt (mapping e d) = 1 /\ linked (mapping e d) = false.
Proof. unfold mapping. by destruct (_ || _). Qed.

Abbreviation map__new_of nsi e :=
  (map__new alloc_ok findnew_dso findnew_vdso replace_android_lib nsi (ev_start e) (ev_len e) (ev_pgoff e)
     (ev_prot e) (ev_flags e) (ev_filename e)).

Lemma map__new_done D R G w nsi e :
  inv D R G w ->
  exists o w', map__new_of nsi e w = Done (o, w') /\ mgs w' = mgs w /\
    match o with
    | None => inv D R G w' /\ (alloc_ok (next w) = false \/ dso_of nsi e = None)
    | Some i => i = next w /\ inv D (R ⊎ {[+ i +]}) G w' /\
        exists d, dso_of nsi e = Some d /\ w' = World (<[i := mapping e d]> (maps w)) (mgs w) (S (next w))
    end.
Proof.
  intros I. unfold map__new, alloc, mbind, M_bind, get, put.
  cbn -[is_vdso_map is_anon_memory is_no_dso_memory dso_filename]. fold (dso_of nsi e).
  destruct (alloc_ok (next w)) eqn:Ha; cbn -[is_vdso_map is_anon_memory is_no_dso_memory dso_filename dso_of];
    [|eexists None, _; split; [reflexivity|]; split; [done|]; split; [by apply inv_next|by left]].
  destruct (dso_of nsi e) as [d|] eqn:Hd;
    [|eexists None, _; split; [reflexivity|]; split; [done|]; split; [by apply inv_next|by right]].
  destruct (mapping_fresh e d) as (H1 & H2 & H3).
  exists (Some (next w)), (World (<[next w := mapping e d]> (maps w)) (mgs w) (S (next w))).
  split; [done|]. split; [done|]. split; [done|]. split; [by apply inv_new|]. by exists d.
Qed.

Lemma thread__insert_map_safe D R G w t g i m :
  inv D R G w -> mg t = Some g -> is_Some (mgs w !! g) -> maps w !! i = Some m -> groups m = None ->
  wp True (thread__insert_map alloc_ok unwind__prepare_access fuel t i) (fun _ w' => inv D R G w') w.
Proof.
  intros I Ht Hg Hm Hn. unfold thread__insert_map. eapply wp_bind_done; [by mdone|].
  destruct (negb _); [by apply (wp_done _ _ _ _ _ _ eq_refl)|].
  unfold deref_mg. rewrite Ht. eapply wp_bind_done; [done|]. apply wp_bind.
  eapply wp_mono; [by eapply (maps__fixup_safe alloc_ok)|]. intros _ w1 (I1 & Hm1 & Hd1). cbn beta.
  assert (Hg1 : is_Some (mgs w1 !! g)) by (apply elem_of_dom; rewrite Hd1; by apply elem_of_dom). destruct Hg1 as [mg1 Hg1].
  destruct (inv_insert _ _ _ _ _ _ _ _ I1 Hm1 Hn Hg1) as (w2 & _ & _ & E2 & I2 & _).
  by eapply wp_bind_done.
Qed.

Lemma process_mmap_safe D R G w t g e :
  inv D R G w -> mg t = Some g -> is_Some (mgs w !! g) ->
  wp True (process_mmap alloc_ok findnew_dso findnew_vdso replace_android_lib unwind__prepare_access fuel t e)
    (fun _ w' => inv D R G w') w.
Proof.
  intros I Ht Hg. unfold process_mmap.
  destruct (map__new_done D R G w (nsinfo t) e I) as (o & w1 & E1 & M1 & Ho).
  eapply wp_bind_done; [exact E1|]. destruct o as [i|]; [|apply (wp_done _ _ _ _ _ _ eq_refl); apply Ho].
  destruct Ho as (-> & I1 & d & _ & Ew). apply wp_bind. eapply wp_mono.
  { eapply (thread__insert_map_safe _ _ _ w1 t g (next w) (mapping e d)); try done; [by rewrite M1| |apply mapping_fresh].
    rewrite Ew. apply lookup_insert_eq. }
  intros a w2 I2. cbn beta. destruct (inv_put _ _ _ _ _ I2) as (w3 & E3 & I3 & _). by eapply wp_bind_done.
Qed.

Lemma unregister_done D R G w g addr :
  inv D R G w -> is_Some (mgs w !! g) ->
  exists w', machine__process_ksymbol_unregister g addr w = Done (0, w') /\ inv D R G w'.
Proof.
  intros I Hg. unfold machine__process_ksymbol_unregister.
  destruct (maps__find_done _ _ _ _ _ addr I Hg) as (o & E & Ho). rewrite (bind_done _ _ _ _ _ E).
  destruct o as [i|]; [|by exists w]. specialize (Ho i eq_refl).
  pose proof (inv_map _ _ _ _ I i) as Hat. destruct (inv_entry _ _ _ _ _ _ I Ho) as (m & Hm & Hmg & _).
  unfold map_at in Hat. rewrite Hm in Hat. destruct Hat as (_ & He & _). destruct (He g Ho) as (_ & _ & Hin).
  apply list_elem_of_split in Ho as (l1 & l2 & El).
  destruct (inv_erase_entry _ _ _ _ _ _ _ _ I El) as (w1 & m1 & E1 & I1 & _ & _ & _ & _ & A1 & _ & Z1).
  destruct (inv_put _ _ _ _ _ I1) as (w2 & E2 & I2 & M2 & _).
  assert (En : nams w2 g = nams w g) by (rewrite <- Z1; unfold nams; by rewrite M2). rewrite <- En in Hin.
  apply list_elem_of_split in Hin as (n1 & n2 & En2).
  destruct (inv_erase_name _ _ _ _ _ _ _ _ I2 En2) as (w3 & E3 & I3 & _).
  { unfold ents. rewrite M2. fold (ents w1 g). rewrite A1. destruct (inv_nodup _ _ _ _ I g) as [N _].
    rewrite El in N. apply NoDup_mid in N as (? & ? & _). rewrite elem_of_app. tauto. }
  destruct (inv_put _ _ _ _ _ I3) as (w4 & E4 & I4 & _).
  exists w4. split; [|done]. unfold maps__remove.
  rewrite (bind_done _ _ w () w4); [done|].
  rewrite (bind_done _ _ _ _ _ E1), (bind_done _ _ _ _ _ E2). by rewrite (bind_done _ _ _ _ _ E3).
Qed.

Lemma map__new2_done w st d :
  map__new2 alloc_ok st d w =
  if alloc_ok (next w) then Done (Some (next w), World (<[next w := map__init st 0 0 0 0 d]> (maps w)) (mgs w) (S (next w)))
  else Done (None, World (maps w) (mgs w) (S (next w))).
Proof. unfold map__new2, alloc, mbind, M_bind, get, put. cbn. by destruct (alloc_ok (next w)). Qed.

Lemma register_done R G w g d addr len :
  inv None R G w -> is_Some (mgs w !! g) ->
  exists e w' L, machine__process_ksymbol_register alloc_ok g d addr len w = Done (e, w') /\ inv None (R ⊎ L) G w'.
Proof.
  intros I Hg. unfold machine__process_ksymbol_register.
  destruct (maps__find_done _ _ _ _ _ addr I Hg) as (o & E & _). rewrite (bind_done _ _ _ _ _ E). clear E.
  assert (Hsym : forall w1 L, inv None (R ⊎ L) G w1 -> exists e w2 L, (sym ← alloc alloc_ok; mret
    match sym with Some _ => 0 | None => - ENOMEM end : M Z) w1 = Done (e, w2) /\ inv None (R ⊎ L) G w2).
  { intros w1 L I1. unfold alloc, mbind, M_bind, get, put. cbn.
    destruct (alloc_ok (next w1)); (eexists _, _, L; split; [reflexivity|]; by apply inv_next). }
  assert (I0 : inv None (R ⊎ ∅) G w) by (by rewrite (right_id_L ∅ (⊎))).
  destruct o as [i|]; [rewrite (bind_done _ _ _ _ _ eq_refl); by apply (Hsym w ∅)|].
  destruct d as [d|]; [|rewrite (bind_done _ _ _ _ _ eq_refl); by exists (- ENOMEM), w, ∅].
  pose proof (map__new2_done w 0 d) as En. destruct (alloc_ok (next w)).
  2: { rewrite (bind_done _ _ w false (World (maps w) (mgs w) (S (next w)))) by (by rewrite (bind_done _ _ _ _ _ En)).
    eexists _, _, ∅. split; [reflexivity|]. by apply inv_next. }
  set (m := map__init 0 0 0 0 0 d) in *. set (w1 := World _ _ _) in *.
  assert (I1 : inv None (R ⊎ {[+ next w +]}) G w1) by (by apply inv_new).
  set (f := fun m => put_end (addr +64 len) (set_pgoff addr (put_start addr m))).
  assert (I2 : inv None (R ⊎ {[+ next w +]}) G (upd_map (next w) (f m) w1))
    by (eapply inv_set; [exact I1|apply lookup_insert_eq|done|done|done|cbn; lia|done]).
  pose proof (with_map_done w1 (next w) f m (lookup_insert_eq _ _ _)) as Ew. destruct Hg as [mg Hg].
  destruct (inv_insert _ _ _ _ g (next w) (f m) mg I2) as (w3 & _ & _ & E3 & I3 & _); [apply lookup_insert_eq|done|done|].
  rewrite (bind_done _ _ w true w3); [by apply (Hsym w3 {[+ next w +]})|].
  rewrite (bind_done _ _ _ _ _ En), (bind_done _ _ _ _ _ Ew). by rewrite (bind_done _ _ _ _ _ E3).
Qed.

(** The threads have groups, and every reference is accounted for: by a thread,
    by a holder, or as lost. *)
Definition good (c : client) (L : gmultiset nat) (w : world) : Prop :=
  Forall (fun t => is_Some (mg t)) (threads c) /\
  inv None (list_to_set_disj (held c) ⊎ L) (list_to_set_disj (omap mg (threads c))) w.

Lemma good_thread c L w i t :
  good c L w -> threads c !! i = Some t -> exists g, mg t = Some g /\ is_Some (mgs w !! g).
Proof.
  intros [Hf I] Ht. pose proof Ht as Hin. apply list_elem_of_lookup_2 in Hin. rewrite Forall_forall in Hf.
  destruct (Hf t Hin) as [g Hg]. exists g. split; [done|]. apply (inv_gheld _ _ _ _ I).
  apply elem_of_list_to_set_disj. apply list_elem_of_omap. by exists t.
Qed.

Lemma on_thread_wp c L w i k Q :
  good c L w -> Q c w ->
  (forall t g, threads c !! i = Some t -> mg t = Some g -> is_Some (mgs w !! g) -> wp True (k t g) Q w) ->
  wp True (on_thread c i k) Q w.
Proof.
  intros Hc HQ Hk. unfold on_thread. destruct (threads c !! i) as [t|] eqn:Ht; [|by apply (wp_done _ _ _ _ _ _ eq_refl)].
  destruct (good_thread _ _ _ _ _ Hc Ht) as (g & Hg & Hs). unfold deref_mg. rewrite Hg.
  eapply wp_bind_done; [done|]. by apply Hk.
Qed.

Lemma good_add c L w' t g :
  Forall (fun t => is_Some (mg t)) (threads c) -> mg t = Some g ->
  inv None (list_to_set_disj (held c) ⊎ L) (list_to_set_disj (omap mg (threads c)) ⊎ {[+ g +]}) w' ->
  good (Client (threads c ++ [t]) (held c)) L w'.
Proof.
  intros Hf Ht I'. split; cbn [threads held].
  - apply Forall_app. split; [done|]. by apply Forall_singleton.
  - assert (Eo : omap mg [t] = [g]) by (cbn; by rewrite Ht). rewrite omap_app, Eo.
    by rewrite list_to_set_disj_app, list_to_set_disj_cons, list_to_set_disj_nil, (right_id_L ∅ (⊎)).
Qed.

(** The leader is one of the threads, unless a new one got no memory. *)
Lemma findnew_leader_ok c L w pid : good c L w ->
  exists o c' w', findnew_leader c pid w = Done (o, c', w') /\ good c' L w' /\ held c' = held c /\
    dom (mgs w) ⊆ dom (mgs w') /\ forall l, o = Some l -> l ∈ threads c'.
Proof.
  intros Hc. pose proof Hc as [Hf I]. unfold findnew_leader. destruct (leader_of c pid) as [l|] eqn:Hl.
  - exists (Some l), c, w. repeat (split; [done|]). intros l' [= <-]. unfold leader_of in Hl.
    apply fmap_Some in Hl as ([k l'] & Hl & ->). apply list_find_Some in Hl as (Hl & _).
    by eapply list_elem_of_lookup_2.
  - destruct (map_groups__new_done alloc_ok _ _ _ I) as (o & w1 & E & Ho).
    unfold thread__init_map_groups. cbn [pid_ Maps.tid mg nsinfo thread__new]. rewrite Z.eqb_refl. cbn [orb].
    destruct o as [g|].
    + destruct Ho as (I1 & M1 & _).
      eexists (Some (Thread pid pid (Some g) (nsinfo__new pid))), _, w1. split.
      { rewrite (bind_done _ _ w (0, Thread pid pid (Some g) (nsinfo__new pid)) w1); [done|].
        by rewrite (bind_done _ _ _ _ _ E). }
      split; [by eapply good_add|]. split; [done|]. split; [rewrite M1, dom_insert_L; apply union_subseteq_r|].
      intros l [= <-]. cbn [threads]. apply elem_of_app. right. by left.
    + exists None, c, w1. split.
      { rewrite (bind_done _ _ w (-1, Thread pid pid None (nsinfo__new pid)) w1); [done|].
        by rewrite (bind_done _ _ _ _ _ E). }
      destruct Ho as [I1 M1]. split; [by split|]. split; [done|]. split; [by rewrite M1|done].
Qed.

Lemma new_thread_wp c L w pid tid k (P : gmultiset nat -> Prop) :
  good c L w -> P L ->
  (forall t g w' R, mg t = Some g -> is_Some (mgs w' !! g) -> dom (mgs w) ⊆ dom (mgs w') ->
     inv None (list_to_set_disj (held c) ⊎ L) R w' ->
     exists e w2 L', k t w' = Done (e, w2) /\ inv None (list_to_set_disj (held c) ⊎ L') R w2 /\ P L') ->
  wp True (new_thread c pid tid k) (fun c' w' => exists L', good c' L' w' /\ P L') w.
Proof.
  intros Hc HP Hk. unfold new_thread.
  assert (Hend : forall c1 t g w', Forall (fun t => is_Some (mg t)) (threads c1) -> held c1 = held c ->
     mg t = Some g -> is_Some (mgs w' !! g) -> dom (mgs w) ⊆ dom (mgs w') ->
     inv None (list_to_set_disj (held c1) ⊎ L) (list_to_set_disj (omap mg (threads c1)) ⊎ {[+ g +]}) w' ->
     wp True (k t;; mret (Client (threads c1 ++ [t]) (held c1))) (fun c' w' => exists L', good c' L' w' /\ P L') w').
  { intros c1 t g w' Hf1 Hh Ht Hg Hd I'. rewrite Hh in I'.
    destruct (Hk t g w' _ Ht Hg Hd I') as (e & w2 & L' & E & I2 & HL).
    eapply wp_bind_done; [exact E|]. apply (wp_done _ _ _ _ _ _ eq_refl). exists L'. split; [|done].
    eapply good_add; [done|done|]. by rewrite Hh. }
  unfold thread__init_map_groups. cbn [pid_ Maps.tid mg nsinfo thread__new].
  destruct ((pid =? tid) || (pid =? -1)).
  - eapply wp_bind_done; [done|]. destruct Hc as [Hf I].
    destruct (map_groups__new_done alloc_ok _ _ _ I) as (o & w1 & E & Ho).
    eapply wp_bind_done; [rewrite (bind_done _ _ _ _ _ E); done|]. destruct o as [g|]; cbn [negb].
    + destruct Ho as (I1 & M1 & _). apply (Hend c _ g); [done|done|done|rewrite M1; by rewrite lookup_insert_eq| |done].
      rewrite M1, dom_insert_L. apply union_subseteq_r.
    + apply (wp_done _ _ _ _ _ _ eq_refl). exists L. split; [|done]. split; [done|apply Ho].
  - destruct (findnew_leader_ok c L w pid Hc) as (o & c1 & w1 & E1 & [Hf1 I1] & Hh & Hd & Ho).
    eapply wp_bind_done; [exact E1|]. destruct o as [l|].
    + specialize (Ho l eq_refl). apply list_elem_of_lookup in Ho as [i Hi].
      destruct (good_thread c1 L w1 i l (conj Hf1 I1) Hi) as (g & Hg & Hs).
      destruct (map_groups__get_done _ _ _ _ I1 Hs) as (w2 & E2 & I2 & D2). rewrite Hg.
      eapply wp_bind_done; [rewrite (bind_done _ _ w1 (Some g) w2); [done|by rewrite (bind_done _ _ _ _ _ E2)]|].
      apply (Hend c1 _ g); [done|done|done| |by rewrite D2|done]. apply elem_of_dom. rewrite D2. by apply elem_of_dom.
    + eapply wp_bind_done; [done|]. apply (wp_done _ _ _ _ _ _ eq_refl). exists L. done.
Qed.

Lemma omap_delete {A} (f : A -> option nat) l i x y :
  l !! i = Some x -> f x = Some y ->
  (list_to_set_disj (omap f l) : gmultiset nat) = list_to_set_disj (omap f (delete i l)) ⊎ {[+ y +]}.
Proof.
  intros Hi Hf. assert (omap f l = omap f (take i l ++ x :: drop (S i) l)) as -> by (by rewrite take_drop_middle).
  rewrite delete_take_drop, !omap_app.
  assert (Ho : forall k, omap f (x :: k) = y :: omap f k) by (intros k; cbn; by rewrite Hf). rewrite Ho.
  rewrite !list_to_set_disj_app, list_to_set_disj_cons. by rewrite <- (assoc_L (⊎)), (comm_L (⊎) {[+ y +]}).
Qed.

Lemma run_op_safe o c L w :
  good c L w -> wp True (run_op o c) (fun c' w' => exists L', good c' L' w' /\ (~ leaks o -> L' = L)) w.
Proof.
  intros Hc. pose proof Hc as [Hf I].
  assert (Hsame : forall o', exists L', good c L' w /\ (~ leaks o' -> L' = L)) by (intros; by exists L).
  destruct o as [pid tid|i pid tid dc|i|i e|i addr|k|i d addr len|i addr]; cbn [run_op].
  - apply (new_thread_wp c L w pid tid _ (fun L' => ~ leaks (op_spawn pid tid) -> L' = L)); [done|done|].
    intros t g w' R _ _ _ I'. by exists 0, w', L.
  - apply (on_thread_wp c L w); [done|apply (Hsame (op_fork i pid tid dc))|]. intros parent p Ht Hp Hs.
    apply (new_thread_wp c L w pid tid _ (fun L' => ~ leaks (op_fork i pid tid dc) -> L' = L)); [done|done|].
    intros t g w' R Hg Hgs Hd I'.
    destruct (thread__clone_done _ _ _ t parent g p dc I' Hg Hp Hgs) as (e & w2 & L2 & E & I2 & HL).
    { apply elem_of_dom, Hd. by apply elem_of_dom. }
    exists e, w2, (L ⊎ L2). split; [done|]. rewrite (assoc_L (⊎)). split; [done|]. intros Hnl. rewrite HL, (right_id_L ∅ (⊎)); [done|].
    intros m. destruct (Z.eq_dec (unwind__prepare_access m).1 0); [done|]. destruct Hnl. by exists m.
  - apply (on_thread_wp c L w); [done|apply (Hsame (op_exit i))|]. intros t g Ht Hg Hs.
    rewrite (omap_delete mg _ _ _ _ Ht Hg) in I. destruct (map_groups__put_done _ _ _ _ I) as (w1 & E1 & I1).
    eapply wp_bind_done; [exact E1|]. apply (wp_done _ _ _ _ _ _ eq_refl). exists L. split; [|done]. split; [|done].
    cbn [threads]. by apply Forall_delete.
  - apply (on_thread_wp c L w); [done|apply (Hsame (op_mmap i e))|]. intros t g Ht Hg Hs.
    apply wp_bind. eapply wp_mono; [by apply (process_mmap_safe _ _ _ w t g e I)|].
    intros a w' I'. apply (wp_done _ _ _ _ _ _ eq_refl). exists L. by split.
  - apply (on_thread_wp c L w); [done|apply (Hsame (op_hold i addr))|]. intros t g Ht Hg Hs.
    destruct (maps__find_done _ _ _ _ _ addr I Hs) as (o & E & Ho). eapply wp_bind_done; [exact E|].
    destruct o as [m|]; [|apply (wp_done _ _ _ _ _ _ eq_refl); apply (Hsame (op_hold i addr))].
    destruct (inv_entry _ _ _ _ _ _ I (Ho m eq_refl)) as (mm & Hm & _).
    destruct (inv_get _ _ _ _ _ _ I Hm) as (w1 & E1 & I1 & _). eapply wp_bind_done; [exact E1|].
    apply (wp_done _ _ _ _ _ _ eq_refl). exists L. split; [|done]. split; [done|]. cbn [held].
    rewrite list_to_set_disj_cons. by rewrite <- (assoc_L (⊎)), (comm_L (⊎) {[+ m +]}).
  - destruct (held c !! k) as [m|] eqn:Hk; [|apply (wp_done _ _ _ _ _ _ eq_refl); apply (Hsame (op_release k))].
    pose proof (omap_delete Some _ _ _ m Hk eq_refl) as HR. rewrite <- !(list_fmap_alt (fun x => x)), !list_fmap_id in HR.
    rewrite HR, <- (assoc_L (⊎)), (comm_L (⊎) {[+ m +]}), (assoc_L (⊎)) in I. destruct (inv_put _ _ _ _ _ I) as (w1 & E1 & I1 & _). eapply wp_bind_done; [exact E1|].
    apply (wp_done _ _ _ _ _ _ eq_refl). exists L. split; [|done]. by split.
  - apply (on_thread_wp c L w); [done|apply (Hsame (op_register i d addr len))|]. intros t g Ht Hg Hs.
    destruct (register_done _ _ _ _ d addr len I Hs) as (e & w1 & L1 & E1 & I1). eapply wp_bind_done; [exact E1|].
    apply (wp_done _ _ _ _ _ _ eq_refl). exists (L ⊎ L1). split; [|by intros []]. split; [done|].
    by rewrite (assoc_L (⊎)).
  - apply (on_thread_wp c L w); [done|apply (Hsame (op_unregister i addr))|]. intros t g Ht Hg Hs.
    destruct (unregister_done _ _ _ _ _ addr I Hs) as (w1 & E1 & I1). eapply wp_bind_done; [exact E1|].
    apply (wp_done _ _ _ _ _ _ eq_refl). exists L. split; [|done]. by split.
Qed.

Lemma run_ops_safe os : forall c L w,
  good c L w -> wp True (run_ops os c) (fun c' w' => exists L', good c' L' w' /\ (Forall (fun o => ~ leaks o) os -> L' = L)) w.
Proof.
  induction os as [|o os IH]; intros c L w Hc.
  - apply (wp_done _ _ _ _ _ _ eq_refl). by exists L.
  - cbn [run_ops]. apply wp_bind. eapply wp_mono; [by apply run_op_safe|].
    intros c1 w1 (L1 & Hc1 & HL1). eapply wp_mono; [by apply IH|].
    intros c2 w2 (L2 & Hc2 & HL2). exists L2. split; [done|]. intros Hnl. apply Forall_cons in Hnl as [H1 H2].
    by rewrite HL2, HL1.
Qed.

Definition empty_world : world := World ∅ ∅ 0.

Lemma good_empty : good (Client [] []) ∅ empty_world.
Proof.
  split; [constructor|]. cbn [threads held]. change (omap mg []) with (@nil nat).
  rewrite !list_to_set_disj_nil, (right_id_L ∅ (⊎)). constructor; cbn.
  - intros i. unfold map_at, ents, nams. cbn. rewrite lookup_empty. split; [apply multiplicity_empty|].
    intros g. rewrite lookup_empty. cbn. split; apply not_elem_of_nil.
  - intros g. unfold ents, nams. cbn. rewrite lookup_empty. cbn. split; constructor.
  - intros i [? ?]. by rewrite lookup_empty in *.
  - intros i [? ?]. by rewrite lookup_empty in *.
  - intros g mg. by rewrite lookup_empty.
  - intros g ?%gmultiset_not_elem_of_empty. done.
Qed.

(** Without holders nothing is left on the heap. *)
Lemma good_nothing w : good (Client [] []) ∅ w -> maps w = ∅ /\ mgs w = ∅.
Proof.
  intros [_ I]. cbn [threads held] in I. change (omap mg []) with (@nil nat) in I.
  rewrite !list_to_set_disj_nil, (right_id_L ∅ (⊎)) in I.
  assert (Hg : mgs w = ∅).
  { apply map_eq. intros g. rewrite lookup_empty. destruct (mgs w !! g) as [mg|] eqn:Hg; [|done].
    destruct (inv_group _ _ _ _ I g mg Hg) as [Hr [?|Hp]]; [done|]. rewrite multiplicity_empty in Hr. lia. }
  split; [|done]. apply map_eq. intros i. rewrite lookup_empty. destruct (maps w !! i) as [m|] eqn:Hm; [|done].
  pose proof (inv_map _ _ _ _ I i) as Hat. unfold map_at in Hat. rewrite Hm, multiplicity_empty in Hat.
  destruct Hat as [[H1 H2] _]. unfold links, ents, nams in H1. rewrite Hg in H1. destruct (groups m); cbn in H1.
  - rewrite lookup_empty in H1. cbn in H1. rewrite occ_notin in H1 by apply not_elem_of_nil. lia.
  - lia.
Qed.

(** C39: Whatever processes appear, fork, map files and exit, whatever ranges
    their records claim, wherever allocations fail and whichever maps reports
    hold on to: no function follows a pointer to a map or a group that was
    freed, and no map is freed while it is in a tree (the BUG_ON of map__exit).
    The maps that reports hold stay on the heap; when all of them are released
    and all threads are gone, everything is freed, provided that no kernel
    symbol was registered and that no fork failed to set up unwinding. *)
Theorem maps_never_dangle (os : list maps_op) :
  match run_ops os (Client [] []) empty_world with
  | Fault => False
  | Hang => True
  | Done (c, w) =>
      Forall (fun i => is_Some (maps w !! i)) (held c) /\
      (Forall (fun o => ~ leaks o) os -> threads c = [] -> held c = [] -> maps w = ∅ /\ mgs w = ∅)
  end.
Proof.
  pose proof (run_ops_safe os _ _ _ good_empty) as Hs. unfold wp in Hs.
  destruct (run_ops os _ _) as [[[ts hs] w]| |]; [|done..]. destruct Hs as (L & Hc & HL). split.
  - destruct Hc as [_ I]. apply Forall_forall. intros i Hi. cbn [held] in *.
    destruct (inv_held _ _ _ _ i I) as [m Hm]; [|eauto]. apply gmultiset_elem_of_disj_union. left.
    by apply elem_of_list_to_set_disj.
  - cbn [threads held]. intros Hnl -> ->. rewrite HL in Hc by done. by apply good_nothing.
Qed.
End Client.

(** * The address space *)

(** What remains of the maps when the addresses from [s] to [e] are mapped anew. *)
Definition remains (s e : Z) (p : map_t) : list map_t :=
  if (e <=? start p) || (end_ p <=? s) then [p] else cut s e p.

Definition rem (s e : Z) (ps : list map_t) : list map_t := mjoin (remains s e <$> ps).

Lemma rem_cons s e p ps : rem s e (p :: ps) = remains s e p ++ rem s e ps.
Proof. done. Qed.

Lemma rem_above s e ps : Forall (fun m => e <= start m) ps -> rem s e ps = ps.
Proof.
  induction 1 as [|p ps Hp _ IH]; [done|]. rewrite rem_cons, IH. unfold remains.
  by rewrite (proj2 (Z.leb_le _ _) Hp).
Qed.

Lemma rem_below s e ps : Forall (fun m => end_ m <= s) ps -> rem s e ps = ps.
Proof.
  induction 1 as [|p ps Hp _ IH]; [done|]. rewrite rem_cons, IH. unfold remains.
  by rewrite (proj2 (Z.leb_le _ _) Hp), orb_true_r.
Qed.

Lemma rem_app s e ps qs : rem s e (ps ++ qs) = rem s e ps ++ rem s e qs.
Proof. unfold rem. by rewrite fmap_app, join_app. Qed.

Lemma elem_of_rem s e ps q : q ∈ rem s e ps <-> exists p, p ∈ ps /\ q ∈ remains s e p.
Proof.
  unfold rem. rewrite list_elem_of_join. setoid_rewrite list_elem_of_fmap. split.
  - intros (l & Hq & p & -> & Hp). by exists p.
  - intros (p & Hp & Hq). eauto.
Qed.

Lemma elem_of_cut s e p q :
  q ∈ cut s e p <-> (start p < s /\ q = put_end s p) \/ (e < end_ p /\ q = put_start e p).
Proof.
  unfold cut, before, after. rewrite elem_of_app.
  destruct (Z.ltb_spec (start p) s), (Z.ltb_spec e (end_ p)); rewrite ?list_elem_of_singleton, ?elem_of_nil; intuition lia.
Qed.

(** The parts of [p] that are not mapped anew. *)
Lemma elem_of_remains s e p q :
  start p < end_ p -> s < e ->
  q ∈ remains s e p <->
  ((e <= start p \/ end_ p <= s) /\ q = p) \/
  (start p < s < end_ p /\ q = put_end s p) \/
  (start p < e < end_ p /\ q = put_start e p).
Proof.
  intros Hp Hse. unfold remains.
  destruct (Z.leb_spec e (start p)), (Z.leb_spec (end_ p) s); cbn [orb];
    rewrite ?list_elem_of_singleton, ?elem_of_cut; intuition lia.
Qed.

Lemma tiled_replace P1 p qs P2 :
  tiled (P1 ++ p :: P2) -> tiled qs -> Forall (fun q => start p <= start q /\ end_ q <= end_ p) qs ->
  tiled (P1 ++ qs ++ P2).
Proof.
  intros Ht [Q1 Q2] Hq. apply tiled_mid in Ht as ([T1 T2] & [T3 T4] & T5 & T6 & T7).
  rewrite Forall_forall in T6, T7, Hq. split.
  - apply StronglySorted_app_2; [|done|apply StronglySorted_app_2; [|done..]].
    + intros x y Hx [Hy|Hy]%elem_of_app; specialize (T6 x Hx).
      * specialize (Hq y Hy). lia.
      * specialize (T7 y Hy). lia.
    + intros x y Hx Hy. specialize (T7 y Hy). specialize (Hq x Hx). lia.
  - by rewrite !Forall_app.
Qed.

Lemma tiled_cut s e p : start p < end_ p -> s < e -> s < end_ p -> start p < e ->
  tiled (cut s e p) /\ Forall (fun q => start p <= start q /\ end_ q <= end_ p) (cut s e p).
Proof.
  intros Hp Hse H1 H2. unfold cut, before, after.
  destruct (Z.ltb_spec (start p) s), (Z.ltb_spec e (end_ p)); cbn [app];
    (split; [split|]); repeat constructor; cbn; lia.
Qed.

Lemma rem_length s e ps : tiled ps -> s < e -> (length (rem s e ps) <= S (length ps))%nat.
Proof.
  induction ps as [|p ps IH]; intros Ht Hse; [cbn; lia|]. apply (tiled_mid [] p ps) in Ht as (_ & T & Hp & _ & Hab).
  rewrite rem_cons, length_app. cbn [length]. destruct (Z.ltb_spec e (end_ p)) as [He|He].
  - rewrite rem_above; [|eapply Forall_impl; [exact Hab|]; cbn; lia].
    unfold remains, cut, before, after. destruct (_ || _); [cbn; lia|]. rewrite length_app.
    destruct (_ <? _), (_ <? _); cbn; lia.
  - specialize (IH T Hse). unfold remains, cut, before, after. rewrite (proj2 (Z.ltb_ge _ _) He), app_nil_r.
    destruct (_ || _); [|destruct (_ <? _)]; cbn; lia.
Qed.

(** The remaining parts lie below or above the new map. *)
Lemma split_around ps s e :
  tiled ps -> s < e -> Forall (fun m => end_ m <= s \/ e <= start m) ps ->
  exists A B, ps = A ++ B /\ Forall (fun m => end_ m <= s) A /\ Forall (fun m => e <= start m) B.
Proof.
  induction ps as [|p ps IH]; intros Ht Hse Hf; [by exists [], []|].
  apply (tiled_mid [] p ps) in Ht as (_ & T & Hp & _ & Hab). apply Forall_cons in Hf as [Hf1 Hf].
  destruct (decide (e <= start p)) as [He|He].
  - exists [], (p :: ps). split; [done|]. split; [constructor|]. constructor; [done|].
    eapply Forall_impl; [exact Hab|]. cbn. lia.
  - destruct (IH T Hse Hf) as (A & B & -> & HA & HB). exists (p :: A), B. split; [done|]. split; [|done].
    constructor; [lia|done].
Qed.

Lemma shows_app_inv w l1 l2 ps :
  shows w (l1 ++ l2) ps -> exists P1 P2, ps = P1 ++ P2 /\ shows w l1 P1 /\ shows w l2 P2.
Proof. intros (P1 & P2 & ? & ? & ->)%Forall2_app_inv_l. by exists P1, P2. Qed.

Lemma shows_cons_inv w i l ps :
  shows w (i :: l) ps -> exists m ps', maps w !! i = Some m /\ ps = strip m :: ps' /\ shows w l ps'.
Proof.
  intros (p & ps' & Hp & ? & ->)%Forall2_cons_inv_l. apply fmap_Some in Hp as (m & Hm & ->). by exists m, ps'.
Qed.

(** The search for the first map that ends after [s]. *)
Lemma find_first_tiled w s t first ps :
  shows w (elems t) ps -> tiled ps ->
  exists l1 l2 P1 P2, elems t = l1 ++ l2 /\ ps = P1 ++ P2 /\ shows w l1 P1 /\ shows w l2 P2 /\
    Forall (fun m => end_ m <= s) P1 /\ Forall (fun m => s < end_ m) P2 /\
    find_first s t first w = Done (match head l2 with Some i => Some i | None => first end, w).
Proof.
  revert first ps. induction t as [|l IHl i r IHr]; intros first ps Hs Ht.
  { inversion Hs; subst. by exists [], [], [], []. }
  cbn [elems] in *. apply shows_app_inv in Hs as (PL & PR' & -> & SL & SR).
  apply shows_cons_inv in SR as (m & PR & Hm & -> & SR). pose proof (tiled_mid _ _ _ Ht) as (TL & TR & Tm & TL' & TR').
  cbn in Tm, TL', TR'. cbn [find_first]. mstep. destruct (Z.ltb_spec s (end_ m)).
  - assert (HPR : Forall (fun p => s < end_ p) PR).
    { apply Forall_forall. intros p Hp. rewrite Forall_forall in TR'. specialize (TR' p Hp).
      destruct TR as [_ TR]. rewrite Forall_forall in TR. specialize (TR p Hp). cbn in TR. lia. }
    destruct (Z.leb_spec (start m) s).
    + exists (elems l), (i :: elems r), PL, (strip m :: PR). split; [done|]. split; [done|]. split; [done|].
      split; [constructor; [by rewrite Hm|done]|]. split; [eapply Forall_impl; [exact TL'|]; cbn; lia|].
      split; [by constructor|done].
    + destruct (IHl (Some i) PL SL TL) as (l1 & l2 & P1 & P2 & E1 & -> & S1 & S2 & F1 & F2 & E).
      exists l1, (l2 ++ i :: elems r), P1, (P2 ++ strip m :: PR). rewrite E1, <- !app_assoc. split; [done|]. split; [done|].
      split; [done|]. split; [apply Forall2_app; [done|]; constructor; [by rewrite Hm|done]|]. split; [done|].
      split; [apply Forall_app; split; [done|by constructor]|]. rewrite E. by destruct l2.
  - destruct (IHr first PR SR TR) as (l1 & l2 & P1 & P2 & E1 & -> & S1 & S2 & F1 & F2 & E).
    exists (elems l ++ i :: l1), l2, (PL ++ strip m :: P1), P2. rewrite E1, <- !app_assoc. split; [done|]. split; [done|].
    split; [apply Forall2_app; [done|]; constructor; [by rewrite Hm|done]|]. split; [done|].
    split; [|done]. apply Forall_app. split; [eapply Forall_impl; [exact TL'|]; cbn; lia|]. by constructor.
Qed.

Lemma find_map_tiled w a t ps :
  shows w (elems t) ps -> tiled ps ->
  exists o, find_map a t w = Done (o, w) /\
    match o with
    | Some i => exists m, maps w !! i = Some m /\ strip m ∈ ps /\ start m <= a < end_ m
    | None => Forall (fun p => ~ (start p <= a < end_ p)) ps
    end.
Proof.
  revert ps. induction t as [|l IHl i r IHr]; intros ps Hs Ht.
  { inversion Hs; subst. exists None. split; [done|constructor]. }
  cbn [elems] in *. apply shows_app_inv in Hs as (PL & PR' & -> & SL & SR).
  apply shows_cons_inv in SR as (m & PR & Hm & -> & SR). pose proof (tiled_mid _ _ _ Ht) as (TL & TR & Tm & TL' & TR').
  cbn in Tm, TL', TR'. cbn [find_map]. mstep. destruct (Z.ltb_spec a (start m)); [|destruct (Z.leb_spec (end_ m) a)].
  - destruct (IHl PL SL TL) as (o & E & Ho). exists o. split; [done|]. destruct o as [j|].
    + destruct Ho as (mj & ? & ? & ?). exists mj. split; [done|]. split; [|done]. apply elem_of_app. by left.
    + apply Forall_app. split; [done|]. constructor; [cbn; lia|]. eapply Forall_impl; [exact TR'|]. cbn. lia.
  - destruct (IHr PR SR TR) as (o & E & Ho). exists o. split; [done|]. destruct o as [j|].
    + destruct Ho as (mj & ? & ? & ?). exists mj. split; [done|]. split; [|done]. apply elem_of_app. right. by right.
    + apply Forall_app. split; [|constructor; [cbn; lia|done]]. eapply Forall_impl; [exact TL'|]. cbn. lia.
  - exists (Some i). split; [done|]. exists m. split; [done|]. split; [|lia]. apply elem_of_app. right. left.
Qed.

Section Space.
Context `{MapTree}.
Variable alloc_ok : nat -> bool.
Hypothesis memory : forall n, alloc_ok n = true.

Lemma fixup_loop_tiled D R G g mapi mm l2 : forall fuel w l1 P1 P2,
  (length l2 <= fuel)%nat -> inv D R G w -> ents w g = l1 ++ l2 -> shows w l1 P1 -> shows w l2 P2 ->
  tiled (P1 ++ P2) -> Forall (fun m => start mm < end_ m) P2 ->
  maps w !! mapi = Some mm -> groups mm = None -> start mm < end_ mm ->
  exists w' ids, fixup_loop alloc_ok fuel g mapi (head l2) w = Done (0, w') /\ inv D R G w' /\
    dom (mgs w') = dom (mgs w) /\ maps w' !! mapi = Some mm /\ ents w' g = ids /\
    shows w' ids (P1 ++ rem (start mm) (end_ mm) P2) /\ tiled (P1 ++ rem (start mm) (end_ mm) P2).
Proof.
  induction l2 as [|p l2 IH]; intros fuel w l1 P1 P2 Hf I El S1 S2 Ht Hend Hm Hg Hse.
  { inversion S2; subst. exists w, l1. rewrite !app_nil_r in *. by destruct fuel. }
  apply shows_cons_inv in S2 as (pm & P2' & Hp & -> & S2). apply Forall_cons in Hend as [He Hend].
  pose proof (tiled_mid _ _ _ Ht) as (T1 & T2 & Tm & T3 & T4). destruct fuel as [|fuel]; [cbn in Hf; lia|].
  destruct (Z.le_gt_cases (end_ mm) (start pm)) as [Hb|Hb].
  - rewrite rem_above.
    2: { constructor; [done|]. eapply Forall_impl; [exact T4|]. cbn in Tm |- *. lia. }
    exists w, (l1 ++ p :: l2). split.
    { cbn [fixup_loop head]. rewrite (bind_done _ _ _ _ _ (map__next_done _ _ _ _ _ _ _ _ I El)). do 2 mstep.
      by rewrite (proj2 (Z.leb_le _ _)). }
    split_and!; try done. apply Forall2_app; [done|]. constructor; [by rewrite Hp|done].
  - destruct (fixup_step alloc_ok fuel D R G w g mapi mm p pm l1 l2 I El Hp Hm Hg Hb)
      as (err & w1 & E & I1 & D1 & K1 & _ & _ & Herr & Hids).
    rewrite (Herr memory) in *. destruct (Hids eq_refl P1 P2' S1 S2 Ht He Hse) as (ids & Eids & Sids).
    destruct (inv_nodup _ _ _ _ I g) as [Hnd _]. rewrite El in Hnd. apply NoDup_mid in Hnd as (N1 & N2 & _).
    destruct (tiled_cut (start mm) (end_ mm) (strip pm)) as [C1 C2]; [done..|].
    assert (Er : rem (start mm) (end_ mm) (strip pm :: P2') =
                 cut (start mm) (end_ mm) (strip pm) ++ rem (start mm) (end_ mm) P2').
    { rewrite rem_cons. unfold remains. cbn in He. cbn [start end_ strip put_refcnt set_linked set_groups].
      by rewrite (proj2 (Z.leb_gt _ _) Hb), (proj2 (Z.leb_gt _ _) He). }
    destruct (IH fuel w1 (l1 ++ ids) (P1 ++ cut (start mm) (end_ mm) (strip pm)) P2')
      as (w2 & ids2 & E2 & I2 & D2 & M2 & Ei & S3 & T5); try done.
    + cbn in Hf. lia.
    + by rewrite <- app_assoc.
    + apply Forall2_app; [|done]. by apply (shows_other w w1 p).
    + by apply (shows_other w w1 p).
    + rewrite <- app_assoc. by apply (tiled_replace P1 (strip pm)).
    + apply K1; [|done]. intros ->. rewrite Hm in Hp. injection Hp as <-.
      assert (Hin : p ∈ ents w g) by (rewrite El; apply elem_of_mid; by left).
      destruct (inv_entry _ _ _ _ _ _ I Hin) as (x & ? & ? & _). congruence.
    + exists w2, ids2. rewrite Er, (app_assoc P1). split; [cbn [head]; rewrite E; exact E2|].
      split; [done|]. split; [by rewrite D2, D1|]. done.
Qed.

Lemma rem_disjoint s e ps :
  tiled ps -> s < e -> Forall (fun m => end_ m <= s \/ e <= start m) (rem s e ps).
Proof.
  intros [_ Hn] Hse. apply Forall_forall. intros q (p & Hp & Hq)%elem_of_rem. rewrite Forall_forall in Hn.
  apply elem_of_remains in Hq; [|by apply Hn|done]. destruct Hq as [[? ->]|[[? ->]|[? ->]]]; cbn; lia.
Qed.

(** Making room for a map and linking it. *)
Lemma insert_tiled fuel D R G w g i m ps :
  inv D R G w -> is_Some (mgs w !! g) -> maps w !! i = Some m -> groups m = None -> start m < end_ m ->
  shows w (ents w g) ps -> tiled ps -> (length ps <= fuel)%nat ->
  exists w' A B, (maps__fixup_overlappings alloc_ok fuel g i;; map_groups__insert g i) w = Done ((), w') /\
    inv D R G w' /\ dom (mgs w') = dom (mgs w) /\ maps w' !! i = Some (in_group g m) /\
    A ++ B = rem (start m) (end_ m) ps /\ tiled (A ++ strip m :: B) /\ shows w' (ents w' g) (A ++ strip m :: B).
Proof.
  intros I [mg Hg] Hm Hn Hse Hs Ht Hf. destruct (ents_mg _ _ _ Hg) as [EE _].
  rewrite EE in Hs. destruct (find_first_tiled w (start m) (entries mg) None ps Hs Ht)
    as (l1 & l2 & P1 & P2 & E1 & -> & S1 & S2 & F1 & F2 & Ef). rewrite <- EE in E1.
  destruct (fixup_loop_tiled D R G g i m l2 fuel w l1 P1 P2)
    as (w1 & ids & El & I1 & D1 & M1 & Ei & S3 & T3); try done.
  { rewrite length_app in Hf. rewrite (Forall2_length _ _ _ S2). lia. }
  assert (Er : P1 ++ rem (start m) (end_ m) P2 = rem (start m) (end_ m) (P1 ++ P2)) by (by rewrite rem_app, (rem_below _ _ P1)).
  rewrite Er in *. destruct (split_around _ _ _ T3 Hse (rem_disjoint _ _ _ Ht Hse)) as (A & B & EAB & HA & HB).
  assert (Hg1 : is_Some (mgs w1 !! g)) by (apply elem_of_dom; rewrite D1; by eapply elem_of_dom_2). destruct Hg1 as [mg1 Hg1].
  rewrite EAB in *. pose proof S3 as S3'. apply Forall2_app_inv_r in S3 as (a & b & SA & SB & Eab).
  destruct (inv_insert _ _ _ _ g i m mg1 I1 M1 Hn Hg1)
    as (w2 & k1 & k2 & E2 & I2 & M2 & _ & D2 & K1 & K2 & _ & Hpos).
  assert (Hni : i ∉ ids). { rewrite <- Ei. by apply (groupless _ _ _ _ _ _ g I1 M1 Hn). }
  assert (Hsort : StronglySorted Z.le (mstart w1 <$> ents w1 g)).
  { rewrite Ei, (shows_starts _ _ _ S3'). by apply tiled_starts. }
  destruct (Hpos Hsort) as [X1 X2]. rewrite Ei, Eab in K1.
  assert (HA' : Forall (fun q => start q < end_ q) A) by (destruct T3 as [_ T3]; by apply Forall_app in T3 as [? _]).
  destruct (insert_place w1 a b k1 k2 A B (start m)) as [-> ->]; try done.
  { apply Forall_forall. intros q Hq. rewrite Forall_forall in HA, HA'. specialize (HA q Hq). specialize (HA' q Hq). cbn in HA, HA'. lia. }
  { eapply Forall_impl; [exact HB|]. cbn. lia. }
  exists w2, A, B. split.
  { unfold maps__fixup_overlappings. rewrite (bind_done _ _ w 0 w1); [done|]. do 2 mstep.
    rewrite (bind_done _ _ _ _ _ Ef). by destruct l2. }
  split; [done|]. split; [by rewrite D2, D1|]. split; [rewrite M2; apply lookup_insert_eq|]. split; [done|].
  assert (HK : forall l P, shows w1 l P -> i ∉ l -> shows w2 l P).
  { intros l P HS Hi. apply (shows_other w1 w2 i); [|done..]. intros j mj Hj Hmj. rewrite M2. by rewrite lookup_insert_ne. }
  rewrite Eab, elem_of_app in Hni. split.
  - destruct T3 as [TS TN]. apply Forall_app in TN as [TN1 TN2]. split.
    + apply StronglySorted_app_2; [|by apply StronglySorted_app_1_l in TS|].
      * intros x y Hx [->|Hy]%elem_of_cons; [rewrite Forall_forall in HA; by apply HA|].
        by apply (StronglySorted_app_1_elem_of _ _ _ _ _ TS).
      * constructor; [by apply StronglySorted_app_1_r in TS|done].
    + apply Forall_app. split; [done|]. by constructor.
  - rewrite K2. apply Forall2_app; [apply HK; tauto|]. constructor; [|apply HK; tauto].
    rewrite M2, lookup_insert_eq. done.
Qed.

(** ** What was mapped, latest first *)

Definition covers (m : map_t) (a : Z) : Prop := start m <= a < end_ m.

#[export] Instance covers_dec m a : Decision (covers m a).
Proof. unfold covers. apply _. Defined.

(** The latest mapping of an address, and those that are later. *)
Fixpoint latest (hist : list map_t) (a : Z) : option (list map_t * map_t) :=
  match hist with
  | [] => None
  | o :: older =>
      if decide (covers o a) then Some ([], o)
      else '(newer, o') ← latest older a; Some (o :: newer, o')
  end.

(** [p] is the mapping [o], cut back to addresses between two later ones. *)
Record piece_of (newer : list map_t) (o p : map_t) : Prop := {
  piece_same : p = put_start (start p) (put_end (end_ p) o);
  piece_in : start o <= start p /\ end_ p <= end_ o;
  piece_free : Forall (fun n => end_ n <= start p \/ end_ p <= start n) newer;
  piece_start : start p = start o \/ exists n, n ∈ newer /\ end_ n = start p;
  piece_end : end_ p = end_ o \/ exists n, n ∈ newer /\ start n = end_ p
}.

Definition describes (hist ps : list map_t) : Prop :=
  (forall p, p ∈ ps -> exists newer o older, hist = newer ++ o :: older /\ piece_of newer o p) /\
  (forall o a, o ∈ hist -> covers o a -> exists p, p ∈ ps /\ covers p a).

Lemma piece_remains newer o p m q :
  piece_of newer o p -> start p < end_ p -> start m < end_ m -> q ∈ remains (start m) (end_ m) p ->
  piece_of (m :: newer) o q.
Proof.
  intros [H1 H2 H3 H4 H5] Hp Hm Hq. apply elem_of_remains in Hq; [|done..].
  assert (Hsub : forall x y, start p <= x -> y <= end_ p -> Forall (fun n => end_ n <= x \/ y <= start n) newer)
    by (intros x y Hx Hy; eapply Forall_impl; [exact H3|]; cbn; lia).
  assert (H4' : start p = start o \/ exists n, n ∈ m :: newer /\ end_ n = start p)
    by (destruct H4 as [?|(n & ? & ?)]; [by left|right; exists n; split; [by right|done]]).
  assert (H5' : end_ p = end_ o \/ exists n, n ∈ m :: newer /\ start n = end_ p)
    by (destruct H5 as [?|(n & ? & ?)]; [by left|right; exists n; split; [by right|done]]).
  destruct Hq as [[Hd ->]|[[Hd ->]|[Hd ->]]].
  - constructor; [done|done| |done|done]. constructor; [lia|done].
  - constructor; cbn [start end_ put_end]; [|lia| |done|].
    + rewrite H1 at 1. done.
    + constructor; [lia|]. apply Hsub; lia.
    + right. exists m. split; [left|done].
  - constructor; cbn [start end_ put_start]; [|lia| |  |done].
    + rewrite H1 at 1. done.
    + constructor; [lia|]. apply Hsub; lia.
    + right. exists m. split; [left|done].
Qed.

Lemma describes_insert hist ps m A B :
  describes hist ps -> Forall (fun p => start p < end_ p) ps -> start m < end_ m ->
  A ++ B = rem (start m) (end_ m) ps -> describes (m :: hist) (A ++ m :: B).
Proof.
  intros [D1 D2] Hn Hm E. split.
  - intros q Hq. apply elem_of_mid in Hq as [->|Hq].
    + exists [], m, hist. split; [done|]. constructor; [by destruct m|lia|constructor|by left|by left].
    + rewrite E in Hq. apply elem_of_rem in Hq as (p & Hp & Hq). destruct (D1 p Hp) as (newer & o & older & -> & Hpo).
      exists (m :: newer), o, older. split; [done|]. rewrite Forall_forall in Hn. by eapply piece_remains; eauto.
  - intros o a Ho Ha. destruct (decide (covers m a)) as [Hma|Hma].
    { exists m. split; [apply elem_of_mid; by left|done]. }
    assert (Hin : o ∈ hist) by (apply elem_of_cons in Ho as [->|]; done).
    destruct (D2 o a Hin Ha) as (p & Hp & Hpa).
    assert (Hq : exists q, q ∈ remains (start m) (end_ m) p /\ covers q a).
    { rewrite Forall_forall in Hn. specialize (Hn p Hp). cbn in Hn. setoid_rewrite elem_of_remains; [|done..].
      unfold covers in *. destruct (decide (end_ m <= start p \/ end_ p <= start m)) as [Hd|Hd]; [exists p; tauto|].
      destruct (Z.lt_ge_cases a (start m)).
      - exists (put_end (start m) p). cbn. split; [right; left; split; [lia|done]|lia].
      - exists (put_start (end_ m) p). cbn. split; [right; right; split; [lia|done]|lia]. }
    destruct Hq as (q & Hq & Hqa). exists q. split; [|done]. apply elem_of_mid. right. rewrite E.
    apply elem_of_rem. eauto.
Qed.

(** A piece that covers an address belongs to its latest mapping. *)
Lemma latest_piece newer o older p a :
  piece_of newer o p -> covers p a -> latest (newer ++ o :: older) a = Some (newer, o).
Proof.
  intros [_ H2 H3 _ _] Ha. induction H3 as [|n newer Hn H3 IH]; cbn [latest app].
  - rewrite decide_True; [done|]. unfold covers in *. lia.
  - rewrite decide_False by (unfold covers in *; lia). by rewrite IH.
Qed.

Lemma latest_none hist a : latest hist a = None <-> Forall (fun o => ~ covers o a) hist.
Proof.
  induction hist as [|o hist IH]; [split; constructor|]. cbn [latest]. rewrite Forall_cons, <- IH.
  case_decide as Ho; [split; [done|by intros [? _]]|]. destruct (latest hist a) as [[? ?]|]; cbn; split; try done.
  by intros [_ ?].
Qed.

(** ** Processing the records of a process *)

Variable findnew_dso : string -> option dso.
Variable findnew_vdso : option dso.
Variable replace_android_lib : string -> option string.
Variable unwind__prepare_access : map_t -> Z * bool.
Variable use_callchain : bool.
Hypothesis unwinding : forall m, (unwind__prepare_access m).1 = 0.

(** Not empty, and not beyond the last address. *)
Definition valid_event (ns : option Z) (e : map_event) : Prop :=
  0 <= ev_start e /\ 0 < ev_len e /\ ev_start e + ev_len e < 2 ^ 64 /\
  is_Some (dso_of findnew_dso findnew_vdso replace_android_lib ns e).

Definition made_by (ns : option Z) (e : map_event) : list map_t :=
  option_list (strip ∘ mapping e <$> dso_of findnew_dso findnew_vdso replace_android_lib ns e).

(** The mappings of the records, latest first. *)
Fixpoint history (ns : option Z) (es : list map_event) (older : list map_t) : list map_t :=
  match es with [] => older | e :: es => history ns es (made_by ns e ++ older) end.

Lemma mapping_range e d :
  start (mapping e d) = ev_start e /\ end_ (mapping e d) = ev_start e +64 ev_len e.
Proof. unfold mapping. by destruct (_ || _). Qed.

(** The state of the heap: the entries are pieces of what was mapped. *)
Definition maps_ok (w : world) (R G : gmultiset nat) (g : nat) (hist : list map_t) : Prop :=
  inv None R G w /\ is_Some (mgs w !! g) /\
  exists ps, shows w (ents w g) ps /\ tiled ps /\ describes hist ps /\ (length ps <= 2 * length hist)%nat.

Lemma process_mmap_ok fuel w R G g t e hist :
  maps_ok w R G g hist -> mg t = Some g -> valid_event (nsinfo t) e -> (2 * length hist <= fuel)%nat ->
  exists w', process_mmap alloc_ok findnew_dso findnew_vdso replace_android_lib unwind__prepare_access fuel t e w =
    Done (0, w') /\ maps_ok w' R G g (made_by (nsinfo t) e ++ hist) /\ length (made_by (nsinfo t) e) = 1%nat.
Proof.
  intros (I & Hg & ps & Hs & Ht & Hd & Hl) Hmg (V1 & V2 & V3 & d & Vd) Hf. unfold process_mmap.
  destruct (map__new_done alloc_ok findnew_dso findnew_vdso replace_android_lib None R G w (nsinfo t) e I)
    as (o & w1 & E1 & M1 & Ho). rewrite (bind_done _ _ _ _ _ E1).
  destruct o as [i|]; [|destruct Ho as [_ [Ha|Ha]]; [by rewrite memory in Ha|congruence]].
  destruct Ho as (-> & I1 & d' & Hd' & Ew). rewrite Vd in Hd'. injection Hd' as <-.
  destruct (mapping_fresh e d) as (F1 & F2 & F3). destruct (mapping_range e d) as [R1 R2].
  rewrite u64_small in R2 by (change 18446744073709551616 with (2 ^ 64); lia).
  set (i := next w) in *. set (m := mapping e d) in *.
  assert (Hm1 : maps w1 !! i = Some m) by (rewrite Ew; apply lookup_insert_eq).
  destruct (next_free _ _ _ _ I) as [Hfr _].
  assert (Hs1 : shows w1 (ents w1 g) ps).
  { assert (ents w1 g = ents w g) as -> by (unfold ents; by rewrite M1). eapply shows_keep; [|exact Hs].
    intros j mj _ Hmj. exists mj. split; [|done]. rewrite Ew. cbn. rewrite lookup_insert_ne; [done|]. unfold i. congruence. }
  destruct (insert_tiled fuel None (R ⊎ {[+ i +]}) G w1 g i m ps) as (w2 & A & B & E2 & I2 & D2 & M2 & EAB & T2 & S2);
    try done; [by rewrite M1|lia|lia|].
  destruct (inv_put _ _ _ _ _ I2) as (w3 & E3 & I3 & M3 & _ & P3 & mi & Hmi & Hlast).
  assert (mi = in_group g m) as -> by congruence. assert (Hm3 : maps w3 !! i = Some (put_refcnt (refcnt m + 2 - 1) (in_group g m))).
  { destruct Hlast as [Hx|Hx]; [|done]. cbn in Hx. rewrite F2 in Hx. lia. }
  assert (Em : made_by (nsinfo t) e = [strip m]) by (unfold made_by; by rewrite Vd).
  exists w3. split.
  { rewrite (bind_done _ _ w1 0 w2); [by rewrite (bind_done _ _ _ _ _ E3)|].
    unfold thread__insert_map. mstep. rewrite unwinding. cbn [negb Z.eqb]. unfold deref_mg. rewrite Hmg.
    rewrite (bind_done _ _ w1 g w1) by done. unfold mbind, M_bind in E2 |- *.
    destruct (maps__fixup_overlappings alloc_ok fuel g i w1) as [[x wx]| |]; [|done..]. by rewrite E2. }
  rewrite Em. split; [|done]. split; [done|].
  split; [rewrite M3; apply elem_of_dom; rewrite D2, M1; by apply elem_of_dom|].
  exists (A ++ strip m :: B). split; [|split; [done|split]].
  - assert (ents w3 g = ents w2 g) as -> by (unfold ents; by rewrite M3). eapply shows_keep; [|exact S2].
    intros j mj _ Hmj. destruct (decide (j = i)) as [->|Hj]; [|exists mj; by rewrite P3].
    eexists. split; [exact Hm3|]. rewrite M2 in Hmj. by injection Hmj as <-.
  - apply (describes_insert hist ps (strip m) A B); [done|apply Ht|cbn; lia|done].
  - rewrite length_app. cbn [length app]. rewrite Nat.add_succ_r, <- length_app, EAB.
    pose proof (rem_length (start m) (end_ m) ps Ht ltac:(lia)). lia.
Qed.

Lemma run_mmaps fuel R G g t es : forall w hist,
  maps_ok w R G g hist -> mg t = Some g -> Forall (valid_event (nsinfo t)) es ->
  (2 * (length hist + length es) <= fuel)%nat ->
  exists w', run_ops alloc_ok findnew_dso findnew_vdso replace_android_lib unwind__prepare_access use_callchain fuel
      (op_mmap 0 <$> es) (Client [t] []) w = Done (Client [t] [], w') /\ maps_ok w' R G g (history (nsinfo t) es hist).
Proof.
  induction es as [|e es IH]; intros w hist Hok Hmg Hv Hf; [by exists w|].
  apply Forall_cons in Hv as [He Hv]. cbn [length] in Hf.
  destruct (process_mmap_ok fuel w R G g t e hist Hok Hmg He) as (w1 & E1 & Hok1 & Hl1); [lia|].
  destruct (IH w1 (made_by (nsinfo t) e ++ hist) Hok1 Hmg Hv) as (w2 & E2 & Hok2); [rewrite length_app; lia|].
  exists w2. split; [|done]. rewrite fmap_cons. cbn [run_ops run_op]. rewrite (bind_done _ _ w (Client [t] []) w1); [done|].
  unfold on_thread. cbn. unfold deref_mg. rewrite Hmg, (bind_done _ _ w g w) by done. by rewrite (bind_done _ _ _ _ _ E1).
Qed.

(** C38: After the MMAP records of a process were processed, the lookup of every address
    finds the mapping that was made last of those that contain it, or nothing if there
    is none.  The map that is found is that mapping cut back to the addresses around the
    looked up one that no later mapping took: it keeps its file, offset and protection,
    contains the address, overlaps no later mapping, and ends on both sides at the
    original end or at a later mapping.  For file mappings the offset of the address is
    counted from the start of the map found, so it is that of the file if no later
    mapping lies below the address.  Two turns of the loop per record are enough.  The
    records are not empty and do not reach past the last address, a dso is found or made
    for each (with the name space data of the process), the preparation of unwinding
    succeeds, and memory is there. *)
Theorem address_space_found (fuel : nat) (pid : Z) (es : list map_event) (a : Z) :
  let t := Thread pid pid (Some 0%nat) (nsinfo__new pid) in
  Forall (valid_event (nsinfo t)) es -> (2 * length es <= fuel)%nat ->
  exists w o,
    run_ops alloc_ok findnew_dso findnew_vdso replace_android_lib unwind__prepare_access use_callchain fuel
      (op_spawn pid pid :: (op_mmap 0 <$> es)) (Client [] []) empty_world = Done (Client [t] [], w) /\
    maps__find 0 a w = Done (o, w) /\
    match latest (history (nsinfo t) es []) a with
    | None => o = None
    | Some (newer, mp) => exists i m,
        o = Some i /\ maps w !! i = Some m /\ covers m a /\ piece_of newer mp (strip m) /\
        map_dso m = map_dso mp /\ pgoff m = pgoff mp /\ prot m = prot mp /\ map_ip m = map_ip mp /\
        (map_ip mp = map__map_ip ->
         call_ip (map_ip m) m a = u64 (a - start m + pgoff mp) /\
         (Forall (fun n => a < end_ n \/ end_ n <= start mp) newer ->
          call_ip (map_ip m) m a = u64 (a - start mp + pgoff mp)))
    end.
Proof.
  intros t Hv Hf. set (w0 := World ∅ {[ 0%nat := MapGroups tnull tnull 1 ]} 1).
  assert (E0 : run_op alloc_ok findnew_dso findnew_vdso replace_android_lib unwind__prepare_access use_callchain fuel
    (op_spawn pid pid) (Client [] []) empty_world = Done (Client [t] [], w0)).
  { cbn [run_op]. unfold new_thread, thread__init_map_groups, thread__new. cbn [pid_ tid]. rewrite !Z.eqb_refl. cbn [orb].
    unfold map_groups__new, alloc, mbind, M_bind, get, put. cbn. by rewrite memory. }
  assert (I0 : inv None ∅ {[+ 0%nat +]} w0).
  { destruct (map_groups__new_done alloc_ok _ _ _ (proj2 good_empty)) as (o & w' & E & Ho).
    unfold map_groups__new, alloc, mbind, M_bind, get, put in E. cbn in E. rewrite memory in E. injection E as <- <-.
    destruct Ho as [Ho _]. exact Ho. }
  assert (H0 : maps_ok w0 ∅ {[+ 0%nat +]} 0 []).
  { split; [done|]. split; [done|]. exists []. split; [constructor|]. split; [split; constructor|].
    split; [|done]. split; [by intros p ?%not_elem_of_nil|by intros o x ?%not_elem_of_nil]. }
  destruct (run_mmaps fuel _ _ 0 t es w0 [] H0 eq_refl Hv Hf) as (w & E & I & [mg Hg] & ps & Hs & Ht & [D1 D2] & _).
  destruct (ents_mg _ _ _ Hg) as [EE _]. rewrite EE in Hs.
  destruct (find_map_tiled w a (entries mg) ps Hs Ht) as (o & Eo & Ho).
  exists w, o. split; [cbn [run_ops]; by rewrite (bind_done _ _ _ _ _ E0)|]. split; [unfold maps__find; by mstep|].
  destruct o as [i|].
  - destruct Ho as (m & Hm & Hin & Ha). destruct (D1 _ Hin) as (newer & mp & older & Eh & Hp).
    rewrite Eh, (latest_piece _ _ _ _ a Hp Ha). exists i, m. split; [done|]. split; [done|]. split; [done|]. split; [done|].
    pose proof (piece_same _ _ _ Hp) as Hsame.
    assert (Hdso : map_dso m = map_dso mp) by (apply (f_equal map_dso) in Hsame; exact Hsame).
    assert (Hpg : pgoff m = pgoff mp) by (apply (f_equal pgoff) in Hsame; exact Hsame).
    assert (Hpr : prot m = prot mp) by (apply (f_equal prot) in Hsame; exact Hsame).
    assert (Hip : map_ip m = map_ip mp) by (apply (f_equal map_ip) in Hsame; exact Hsame).
    split; [done|]. split; [done|]. split; [done|]. split; [done|]. rewrite Hip. intros ->. cbn [call_ip]. rewrite Hpg.
    assert (Hu : forall x y z, (x -64 y) +64 z = u64 (x - y + z))
      by (intros x y z; unfold wrap; by rewrite Zplus_mod_idemp_l).
    rewrite Hu. split; [done|]. intros Hn. assert (start m = start mp) as ->; [|done].
    destruct (piece_start _ _ _ Hp) as [Hst|(n & Hnin & Hend)]; [exact Hst|].
    rewrite Forall_forall in Hn. cbn in Hend. destruct (Hn n Hnin); [lia|].
    destruct (piece_in _ _ _ Hp) as [Hlow _]. cbn in Hlow. lia.
  - assert (latest (history (nsinfo t) es []) a = None) as ->; [|done]. apply latest_none, Forall_forall. intros x Hx Hxa.
    destruct (D2 x a Hx Hxa) as (p & Hp & Hpa). rewrite Forall_forall in Ho. by apply (Ho p Hp).
Qed.
End Space.

(** * Addresses for objdump, back and forth *)

(** Both conversions of a map are offsets, or both the identity. *)
Definition ip_pair (m : map_t) : Prop :=
  (map_ip m = map__map_ip /\ unmap_ip m = map__unmap_ip) \/
  (map_ip m = identity__map_ip /\ unmap_ip m = identity__map_ip).

(** An address of objdump that is converted to a memory address converts back
    to itself: map__rip_2objdump of map_ip of map__objdump_2mem is the identity
    on 64-bit addresses, for every kind of dso (relocatable, position
    independent, executable, kernel) and for mappings of files and of
    memory, whatever the offsets; this is the check that the comment of
    map__objdump_2mem asks for.  The entry trampolines, whose code is looked up
    in another map, are excluded. *)
Theorem objdump_roundtrip (kmap : option string) (vmlinux : option map_t) (m : map_t) (ip : Z) :
  ip_pair m -> 0 <= ip < 2 ^ 64 -> kmap <> Some ENTRY_TRAMPOLINE_NAME ->
  map__rip_2objdump kmap vmlinux m (call_ip (map_ip m) m (map__objdump_2mem m ip)) = ip.
Proof.
  intros Hp Hip Hk. unfold map__rip_2objdump.
  assert (Em : match kmap, vmlinux with
               | Some name, Some kernel_map => if is_entry_trampoline name then kernel_map else m
               | _, _ => m end = m).
  { destruct kmap as [name|], vmlinux; try done. unfold is_entry_trampoline.
    destruct (String.eqb_spec name ENTRY_TRAMPOLINE_NAME); [congruence|done]. }
  rewrite Em. unfold map__objdump_2mem. change (2 ^ 64) with 18446744073709551616 in Hip.
  destruct Hp as [[-> ->]|[-> ->]]; cbn [call_ip]; unfold wrap; change (2 ^ 64) with 18446744073709551616;
    destruct (negb (adjust_symbols (map_dso m))), (rel (map_dso m)), (decide (kernel (map_dso m) = DSO_TYPE_USER));
    repeat first [rewrite Zplus_mod_idemp_l|rewrite Zminus_mod_idemp_l]; try done;
    (rewrite Z.mod_small; lia) || (Z.div_mod_to_equations; lia).
Qed.

(** * Where the code departs from its intention *)

Section Cycle.
Context `{MapTree}.
Variable alloc_ok : nat -> bool.
Hypothesis memory : forall n, alloc_ok n = true.

(** Two maps with the same start below the new map: each turn puts the part
    before the new map behind the other one, where the next turn but one meets
    it again. *)
Lemma fixup_cycles D R G g mapi mm fuel : forall w x y rest mx my,
  inv D R G w -> ents w g = x :: y :: rest -> maps w !! x = Some mx -> maps w !! y = Some my ->
  start mx = start my -> start mx < start mm -> start mm < end_ mm -> end_ mx <= end_ mm -> end_ my <= end_ mm ->
  Forall (fun j => start mx < mstart w j) rest -> StronglySorted Z.le (mstart w <$> rest) ->
  maps w !! mapi = Some mm -> groups mm = None ->
  fixup_loop alloc_ok fuel g mapi (Some x) w = Hang.
Proof.
  induction fuel as [|fuel IH]; intros w x y rest mx my I El Hx Hy Hst Hlt Hse Hex Hey Hrest Hsort Hm Hg; [done|].
  assert (Hinx : x ∈ ents w g) by (rewrite El; left).
  destruct (inv_entry _ _ _ _ _ _ I Hinx) as (mx' & Hx' & Hxg & _). rewrite Hx in Hx'. injection Hx' as <-.
  assert (Hmx : mapi <> x) by (intros ->; congruence).
  destruct (inv_nodup _ _ _ _ I g) as [Hnd _]. rewrite El in Hnd. apply NoDup_cons in Hnd as [Hnx Hnd].
  cbn [fixup_loop]. rewrite (bind_done _ _ _ _ _ (map__next_done D R G w g x [] _ I El)). do 2 mstep.
  rewrite (proj2 (Z.leb_gt _ _)) by lia.
  destruct (inv_erase_entry D R G w g x [] _ I El) as (w1 & m' & E1 & I1 & Hm' & M1 & _ & D1 & A1 & _).
  rewrite Hx in Hm'. injection Hm' as <-. rewrite (bind_done _ _ _ _ _ E1). cbn [app] in A1.
  assert (Hx1 : maps w1 !! x = Some (set_linked false mx)) by (rewrite M1; apply lookup_insert_eq).
  assert (K1 : forall j, j <> x -> maps w1 !! j = maps w !! j) by (intros j Hj; rewrite M1; by rewrite lookup_insert_ne).
  assert (Hg1 : is_Some (mgs w1 !! g)) by (apply (in_ents w1 g y); rewrite A1; left).
  destruct (part_done alloc_ok true _ _ _ w1 x _ g (put_end (start mm)) I1 Hx1 Hxg Hg1)
    as (err & w2 & E2 & I2 & _ & K2 & _ & _ & F2 & S2); [done..|]. rewrite (proj2 (Z.ltb_lt _ _) Hlt), (bind_done _ _ _ _ _ E2).
  rewrite (F2 memory) in *. destruct (S2 eq_refl) as (ids & l1 & l2 & B1 & B2 & B3 & B4). cbn [Z.eqb].
  rewrite (proj2 (Z.ltb_ge _ _)) by lia. rewrite (bind_done (mret 0) _ w2 0 w2) by done.
  destruct (inv_put _ _ _ _ _ I2) as (w3 & E3 & I3 & M3 & _ & P3 & _). rewrite (bind_done _ _ _ _ _ E3). cbn [Z.eqb head].
  assert (Hyx : y <> x) by (intros ->; apply Hnx; left).
  assert (Hms : forall j, j <> x -> mstart w1 j = mstart w j) by (intros j Hj; unfold mstart; by rewrite K1).
  assert (Hrx : forall j, j ∈ rest -> j <> x) by (intros j Hj ->; apply Hnx; by right).
  assert (Hmr : mstart w1 <$> rest = mstart w <$> rest).
  { apply list_fmap_ext. intros k j Hj. apply Hms, Hrx. by eapply list_elem_of_lookup_2. }
  assert (Hy1 : mstart w1 y = start mx) by (rewrite Hms by done; unfold mstart; by rewrite Hy).
  assert (Hrest1 : Forall (fun j => start mx < mstart w1 j) rest).
  { rewrite Forall_forall in Hrest |- *. intros j Hj. rewrite Hms by auto. auto. }
  destruct (B4 eq_refl) as [X1 X2].
  { rewrite A1, fmap_cons, Hmr, Hy1. constructor; [done|]. rewrite <- Hmr. apply Forall_fmap.
    eapply Forall_impl; [exact Hrest1|]. cbn. lia. }
  rewrite A1 in B1. destruct (split_unique (fun j => mstart w1 j <= start mx) [y] rest l1 l2) as [-> ->]; try done.
  { constructor; [lia|constructor]. }
  { eapply Forall_impl; [exact Hrest1|]. cbn. lia. }
  { eapply Forall_impl; [exact X2|]. cbn. lia. }
  inversion B3 as [|i p ids' ps Hi Hnil]; subst. inversion Hnil; subst. apply fmap_Some in Hi as (mi & Hi & Hstrip).
  assert (Hsi : start mi = start mx /\ end_ mi = start mm).
  { split; [apply (f_equal start) in Hstrip; by cbn in Hstrip|apply (f_equal end_) in Hstrip; by cbn in Hstrip]. }
  assert (Hiin : i ∈ ents w2 g) by (rewrite B2; cbn; right; left).
  assert (Hix : i <> x).
  { intros ->. destruct (inv_entry _ _ _ _ _ _ I2 Hiin) as (z & Hz & _ & Hlz). rewrite (K2 _ _ Hx1) in Hz. by injection Hz as <-. }
  assert (K3 : forall j m, j <> x -> maps w !! j = Some m -> maps w3 !! j = Some m).
  { intros j m Hj Hjm. rewrite P3 by done. apply K2. by rewrite K1. }
  assert (Hk : forall j, j ∈ rest -> mstart w3 j = mstart w j).
  { intros j Hj. assert (Hje : j ∈ ents w g) by (rewrite El; right; by right).
    destruct (inv_entry _ _ _ _ _ _ I Hje) as (z & Hz & _). unfold mstart. rewrite Hz, (K3 j z); auto. }
  apply (IH w3 y i rest my mi I3); try lia.
  - unfold ents. rewrite M3. fold (ents w2 g). by rewrite B2.
  - by apply K3.
  - by rewrite P3.
  - rewrite Forall_forall in Hrest |- *. intros j Hj. rewrite Hk by done. rewrite <- Hst. auto.
  - assert (mstart w3 <$> rest = mstart w <$> rest) as ->; [|done].
    apply list_fmap_ext. intros k j Hj. apply Hk. by eapply list_elem_of_lookup_2.
  - by apply K3.
  - done.
Qed.
End Cycle.

(** * Concrete trees *)

(** A tree without balancing, for examples. *)
Fixpoint right_spine (l : list nat) : tree := match l with [] => tnull | i :: l => tnode tnull i (right_spine l) end.

Lemma elems_right_spine l : elems (right_spine l) = l.
Proof. induction l as [|i l IH]; [done|]. cbn [right_spine elems app]. by rewrite IH. Qed.

Fixpoint erase_first (i : nat) (l : list nat) : list nat :=
  match l with [] => [] | j :: l => if decide (j = i) then l else j :: erase_first i l end.

Fixpoint next_of (i : nat) (l : list nat) : option nat :=
  match l with [] => None | j :: l => if decide (j = i) then head l else next_of i l end.

Lemma erase_first_mid i l1 l2 : i ∉ l1 -> erase_first i (l1 ++ i :: l2) = l1 ++ l2.
Proof.
  induction l1 as [|j l1 IH]; intros Hi; cbn [app erase_first]; [by rewrite decide_True|].
  apply not_elem_of_cons in Hi as [Hj Hi]. rewrite decide_False by done. by rewrite IH.
Qed.

Lemma next_of_mid i l1 l2 : i ∉ l1 -> next_of i (l1 ++ i :: l2) = head l2.
Proof.
  induction l1 as [|j l1 IH]; intros Hi; cbn [app next_of]; [by rewrite decide_True|].
  apply not_elem_of_cons in Hi as [Hj Hi]. rewrite decide_False by done. by apply IH.
Qed.

#[local, refine] Instance spine_tree : MapTree :=
  {| rb_insert_color t := t;
     rb_erase i t := right_spine (erase_first i (elems t));
     rb_first t := head (elems t);
     rb_next i t := next_of i (elems t) |}.
Proof.
  - done.
  - intros l1 i l2 t Et Hn. rewrite Et in Hn |- *. rewrite elems_right_spine. apply erase_first_mid.
    by apply NoDup_mid in Hn as [? _].
  - done.
  - intros l1 i l2 t Et Hn. rewrite Et in Hn |- *. apply next_of_mid. by apply NoDup_mid in Hn as [? _].
Defined.

Definition mem_ok (n : nat) : bool := true.
Definition demo_dso (name : string) : option dso := Some (Dso (String.length name) name DSO_TYPE_USER false false 0).
Definition no_unwind (m : map_t) : Z * bool := (0, false).

(** A run with enough memory in which every file has a dso. *)
Definition demo_run (fuel : nat) (os : list maps_op) : run (client * world) :=
  run_ops mem_ok demo_dso (demo_dso "[vdso]") (fun _ => None) no_unwind false fuel os (Client [] []) empty_world.

Definition file_at (start len pgoff : Z) (name : string) : map_event := MmapEvent start len pgoff PROT_EXEC 0 name.

Lemma run_ops_app fuel os os' :
  demo_run fuel (os ++ os') =
  match demo_run fuel os with
  | Done (c, w) => run_ops mem_ok demo_dso (demo_dso "[vdso]") (fun _ => None) no_unwind false fuel os' c w
  | Fault => Fault
  | Hang => Hang
  end.
Proof.
  unfold demo_run. generalize (Client [] []), empty_world. induction os as [|o os IH]; intros c w; [done|].
  cbn [app run_ops]. unfold mbind, M_bind.
  destruct (run_op mem_ok demo_dso (demo_dso "[vdso]") (fun _ => None) no_unwind false fuel o c w) as [[c' w']| |];
    [apply IH|done..].
Qed.

Definition demo_ops : list maps_op :=
  [op_spawn 7 7; op_mmap 0 (file_at 4096 12288 0 "liba"); op_mmap 0 (file_at 8192 4096 0 "libb");
   op_fork 0 8 8 true; op_hold 1 4096; op_exit 0; op_exit 0; op_release 0].

Lemma maps_never_dangle_witness :
  exists w, demo_run 9 demo_ops = Done (Client [] [], w) /\ maps w = ∅ /\ mgs w = ∅.
Proof.
  pose proof (maps_never_dangle mem_ok demo_dso (demo_dso "[vdso]") (fun _ => None) no_unwind false 9 demo_ops) as Hs.
  assert (E : exists w, demo_run 9 demo_ops = Done (Client [] [], w)) by (eexists; vm_compute; reflexivity).
  destruct E as [w E]. exists w. split; [exact E|]. unfold demo_run in E. rewrite E in Hs. destruct Hs as [_ Hs].
  apply Hs; [|reflexivity|reflexivity]. repeat constructor; intros Hl; try exact Hl. destruct Hl as [m Hm]. by apply Hm.
Defined.

Definition demo_events : list map_event := [file_at 4096 12288 0 "liba"; file_at 8192 4096 512 "libb"].

Lemma address_space_found_witness :
  exists w i m, demo_run 4 (op_spawn 7 7 :: (op_mmap 0 <$> demo_events)) =
      Done (Client [Thread 7 7 (Some 0%nat) (Some 7)] [], w) /\
    maps__find 0 4100 w = Done (Some i, w) /\ maps w !! i = Some m /\ short_name (map_dso m) = "liba"%string /\
    call_ip (map_ip m) m 4100 = 4.
Proof.
  destruct (address_space_found mem_ok (fun _ => eq_refl) demo_dso (demo_dso "[vdso]") (fun _ => None) no_unwind false
    (fun _ => eq_refl) 4 7 demo_events 4100) as (w & o & E & Ef & Hl).
  - repeat constructor; vm_compute; first [congruence|by eexists].
  - vm_compute. lia.
  - change (latest _ 4100) with (Some ([strip (mapping (file_at 8192 4096 512 "libb") (Dso 4 "libb" DSO_TYPE_USER false false 0))],
      strip (mapping (file_at 4096 12288 0 "liba") (Dso 4 "liba" DSO_TYPE_USER false false 0)))) in Hl.
    destruct Hl as (i & m & -> & Hm & _ & _ & Hd & _ & _ & _ & Ho). exists w, i, m. split; [exact E|]. split; [exact Ef|].
    split; [exact Hm|]. split; [by rewrite Hd|]. destruct (Ho eq_refl) as [_ Ho2]. rewrite Ho2; [reflexivity|].
    repeat constructor; vm_compute; by left.
Defined.

Lemma objdump_roundtrip_witness :
  let d := Dso 1 "vmlinux" DSO_TYPE_KERNEL true false 0 in
  let m := map__init 4096 8192 0 0 512 d in
  map__rip_2objdump (Some "vmlinux"%string) None m (call_ip (map_ip m) m (map__objdump_2mem m 7)) = 7.
Proof.
  intros d m. apply (objdump_roundtrip (Some "vmlinux"%string) None m 7); [left; done|lia|discriminate].
Defined.

(** The part of a map above a new one keeps the offset of the whole: before the
    second mapping the address 12288 is at offset 8192 of the file, after it at
    offset 0. *)
Theorem part_above_offset :
  let look os := match demo_run 9 os with
                 | Done (_, w) => match maps__find 0 12288 w with
                                  | Done (Some i, _) => (fun m => (short_name (map_dso m), call_ip (map_ip m) m 12288)) <$> maps w !! i
                                  | _ => None
                                  end
                 | _ => None
                 end in
  look [op_spawn 7 7; op_mmap 0 (file_at 4096 12288 0 "liba")] = Some ("liba"%string, 8192) /\
  look [op_spawn 7 7; op_mmap 0 (file_at 4096 12288 0 "liba"); op_mmap 0 (file_at 8192 4096 0 "libb")] =
    Some ("liba"%string, 0).
Proof. vm_compute. done. Qed.

(** An empty mapping at the start of another one, and then one inside it: the
    loop of maps__fixup_overlappings never ends. *)
Theorem empty_mmap_hangs (fuel : nat) :
  demo_run fuel [op_spawn 7 7; op_mmap 0 (file_at 4096 4096 0 "liba"); op_mmap 0 (file_at 4096 0 0 "libb");
                 op_mmap 0 (file_at 6144 4096 0 "libc")] = Hang.
Proof.
  destruct fuel as [|fuel]; [vm_compute; reflexivity|].
  set (os := [op_spawn 7 7; op_mmap 0 (file_at 4096 4096 0 "liba"); op_mmap 0 (file_at 4096 0 0 "libb")]).
  change (demo_run (S fuel) (os ++ [op_mmap 0 (file_at 6144 4096 0 "libc")]) = Hang). rewrite run_ops_app.
  pose proof (run_ops_safe mem_ok demo_dso (demo_dso "[vdso]") (fun _ => None) no_unwind false (S fuel) os _ _ _ good_empty) as Hs.
  set (e := file_at 6144 4096 0 "libc"). set (t := Thread 7 7 (Some 0%nat) (Some 7)).
  assert (E : exists w w1 mg0 ma mb mc, demo_run (S fuel) os = Done (Client [t] [], w) /\
    map__new mem_ok demo_dso (demo_dso "[vdso]") (fun _ => None) None (ev_start e) (ev_len e) (ev_pgoff e) (ev_prot e)
      (ev_flags e) (ev_filename e) w = Done (Some 3%nat, w1) /\
    mgs w1 !! 0%nat = Some mg0 /\ elems (entries mg0) = [1%nat; 2%nat] /\
    maps w1 !! 1%nat = Some ma /\ maps w1 !! 2%nat = Some mb /\ maps w1 !! 3%nat = Some mc /\
    (start ma, end_ ma, start mb, end_ mb) = (4096, 8192, 4096, 4096) /\
    (start mc, end_ mc, groups mc) = (6144, 10240, None) /\
    find_first 6144 (entries mg0) None w1 = Done (Some 1%nat, w1)).
  { eexists _, _, _, _, _, _. do 9 (split; [vm_compute; reflexivity|]). vm_compute; reflexivity. }
  destruct E as (w & w1 & mg0 & ma & mb & mc & E & E1 & Hg & El & Ha & Hb & Hc & Hr & Hrc & Hf).
  injection Hr as R1 R2 R3 R4. injection Hrc as R5 R6 R7. rewrite E.
  unfold demo_run in E. unfold wp in Hs. rewrite E in Hs. destruct Hs as (L & [_ I] & _).
  destruct (map__new_done mem_ok demo_dso (demo_dso "[vdso]") (fun _ => None) _ _ _ _ None e I) as (o & w1' & E1' & _ & Ho).
  rewrite E1 in E1'. injection E1' as <- <-. destruct Ho as (_ & I1 & _).
  assert (Hins : thread__insert_map mem_ok no_unwind (S fuel) t 3%nat w1 = Hang).
  { unfold thread__insert_map. mstep. cbn [no_unwind fst negb Z.eqb]. unfold deref_mg. cbn [mg t].
    rewrite (bind_done _ _ w1 0%nat w1) by done. unfold maps__fixup_overlappings, mbind at 1, M_bind at 1.
    do 2 mstep. rewrite R5, (bind_done _ _ _ _ _ Hf).
    assert (Ee : ents w1 0 = [1%nat; 2%nat]) by (unfold ents; rewrite Hg; exact El).
    rewrite (fixup_cycles mem_ok (fun _ => eq_refl) _ _ _ 0 3 mc (S fuel) w1 1 2 [] ma mb I1 Ee Ha Hb);
      [reflexivity|lia|lia|lia|lia|lia|constructor|constructor|exact Hc|exact R7]. }
  assert (Hp : process_mmap mem_ok demo_dso (demo_dso "[vdso]") (fun _ => None) no_unwind (S fuel) t e w = Hang)
    by (unfold process_mmap; rewrite (bind_done _ _ _ _ _ E1); unfold mbind, M_bind; by rewrite Hins).
  cbn [run_ops run_op]. unfold on_thread. cbn [threads lookup list_lookup]. unfold deref_mg. cbn [mg t].
  unfold mbind, M_bind, mret, M_ret. by rewrite Hp.
Qed.

(** The third allocation of a fork fails: the first map was copied, the second
    was not, and map_groups__clone returns 0 all the same. *)
Theorem clone_hides_failure :
  let two := [op_spawn 7 7; op_mmap 0 (file_at 4096 4096 0 "liba"); op_mmap 0 (file_at 8192 4096 0 "libb")] in
  match demo_run 9 two with
  | Done (_, w) =>
      match map_groups__new mem_ok w with
      | Done (Some g, w) =>
          match map_groups__clone (fun n => n <? 5)%nat no_unwind g 0 w with
          | Done (ret, w) => ret = 0 /\ length (ents w 0) = 2%nat /\ length (ents w g) = 1%nat
          | _ => False
          end
      | _ => False
      end
  | _ => False
  end.
Proof. vm_compute. done. Qed.

(** The registration of a kernel symbol keeps the reference that map__new2
    gave: after everything is gone the map is still on the heap. *)
Theorem ksymbol_map_leaks :
  match demo_run 9 [op_spawn 7 7; op_register 0 (demo_dso "bpf_prog") 4096 64; op_unregister 0 4096; op_exit 0] with
  | Done (c, w) => c = Client [] [] /\ size (mgs w) = 0%nat /\ size (maps w) = 1%nat
  | _ => False
  end.
Proof. vm_compute. done. Qed.

(** A map that is replaced leaves the entries but not the names: each turn of
    mapping the same address again leaves one more map behind. *)
Theorem names_keep_replaced :
  match demo_run 9 (op_spawn 7 7 :: replicate 5 (op_mmap 0 (file_at 4096 4096 0 "liba"))) with
  | Done (_, w) => length (ents w 0) = 1%nat /\ length (nams w 0) = 5%nat /\ size (maps w) = 5%nat
  | _ => False
  end.
Proof. vm_compute. done. Qed.
