(* ===== verification/Levenshtein.v ===== *)
(** Model of util/levenshtein.c, the weighted Damerau-Levenshtein distance that
    perf uses to guess a mistyped command (util/help-unknown-cmd.c).

    The three rows are arrays of [len2 + 1] ints that malloc leaves
    uninitialised: a cell is [None] until it is written.  Reading such a cell,
    an access outside a row or a string, and a signed overflow all make the
    result [None].  The row pointers rotate as in the code. *)

From S2P Require Import Prelude.
#[local] Open Scope nat_scope.

(** * The routine *)

Abbreviation row := (list (option Z)) (only parsing).

(** Signed int arithmetic: overflow is undefined. *)
Definition i32 (z : Z) : option Z :=
  if ((- 2 ^ 31 <=? z) && (z <? 2 ^ 31))%Z then Some z else None.

Definition rd_row (r : row) (j : nat) : option Z := mjoin (r !! j).

Definition wr_row (r : row) (j : nat) (v : Z) : option row :=
  if decide (j < length r) then Some (<[j := Some v]> r) else None.

(** [if (row2[j + 1] > v) row2[j + 1] = v;] *)
Definition improve (cur v : Z) : Z := if (v <? cur)%Z then v else cur.

Section Levenshtein.
Variables (string1 string2 : list Z) (w s a d : Z).

Definition swapped (i j : nat) : option bool :=
  if (i =? 0) || (j =? 0) then Some false else
  x0 ← string1 !! (i - 1); y1 ← string2 !! j;
  if negb (x0 =? y1)%Z then Some false else
  x1 ← string1 !! i; y0 ← string2 !! (j - 1);
  Some (x1 =? y0)%Z.

(** The body of the loop over [j]. *)
Definition cell (i j : nat) (row0 row1 row2 : row) : option row :=
  x ← string1 !! i; y ← string2 !! j;
  v ← rd_row row1 j; cur ← i32 (v + s * Z.b2z (negb (x =? y)%Z));
  sw ← swapped i j;
  cur ← (if sw : bool then v ← rd_row row0 (j - 1); v ← i32 (v + w); Some (improve cur v) else Some cur);
  v ← rd_row row1 (j + 1); v ← i32 (v + d);
  let cur := improve cur v in
  v ← rd_row row2 j; v ← i32 (v + a);
  wr_row row2 (j + 1) (improve cur v).

Fixpoint columns (n i j : nat) (row0 row1 row2 : row) : option row :=
  match n with
  | O => Some row2
  | S n => row2 ← cell i j row0 row1 row2; columns n i (j + 1) row0 row1 row2
  end.

(** The loop over [i]; the result is [row1]. *)
Fixpoint rows (n i : nat) (row0 row1 row2 : row) : option row :=
  match n with
  | O => Some row1
  | S n =>
      v ← i32 (Z.of_nat (i + 1) * d);
      row2 ← wr_row row2 0 v;
      row2 ← columns (length string2) i 0 row0 row1 row2;
      rows n (i + 1) row1 row2 row0
  end.

(** [for (j = 0; j <= len2; j++) row1\[j\] = j * a;] *)
Fixpoint first_row (n j : nat) (row1 : row) : option row :=
  match n with
  | O => Some row1
  | S n => v ← i32 (Z.of_nat j * a); row1 ← wr_row row1 j v; first_row n (j + 1) row1
  end.

Definition levenshtein : option Z :=
  let len2 := length string2 in
  let fresh : row := replicate (len2 + 1) None in
  row1 ← first_row (len2 + 1) 0 fresh;
  row1 ← rows (length string1) 0 fresh row1 fresh;
  rd_row row1 len2.

(** * The distance *)

(** The distance of the prefixes of lengths [i] and [j], by its recurrence. *)
Definition char1 (i : nat) : Z := default 0%Z (string1 !! i).
Definition char2 (j : nat) : Z := default 0%Z (string2 !! j).

Fixpoint dist (i : nat) : nat -> Z :=
  match i with
  | O => fun j => (Z.of_nat j * a)%Z
  | S i =>
      fix dist_i (j : nat) : Z :=
        match j with
        | O => (Z.of_nat (S i) * d)%Z
        | S j =>
            let sub := (dist i j + s * Z.b2z (negb (char1 i =? char2 j)%Z))%Z in
            let swp :=
              match i, j with
              | S i', S j' =>
                  if ((char1 i' =? char2 (S j')) && (char1 (S i') =? char2 j'))%Z
                  then Z.min sub (dist i' j' + w)%Z else sub
              | _, _ => sub
              end in
            Z.min (Z.min swp (dist i (S j) + d)) (dist_i j + a)
        end
  end.

(** Edit scripts: to change [p] into [q] letters are swapped, substituted,
    deleted and added, at the total cost given. *)
Inductive edit : list Z -> list Z -> Z -> Prop :=
| edit_nil : edit [] [] 0
| edit_keep p q c x : edit p q c -> edit (p ++ [x]) (q ++ [x]) c
| edit_subst p q c x y : x <> y -> edit p q c -> edit (p ++ [x]) (q ++ [y]) (c + s)
| edit_swap p q c x y : edit p q c -> edit (p ++ [x; y]) (q ++ [y; x]) (c + w)
| edit_del p q c x : edit p q c -> edit (p ++ [x]) q (c + d)
| edit_add p q c x : edit p q c -> edit p (q ++ [x]) (c + a).

(** * The rows hold the distances *)

Hypotheses (Hw : (0 <= w)%Z) (Hs : (0 <= s)%Z) (Ha : (0 <= a)%Z) (Hd : (0 <= d)%Z).

Lemma dist_SS i j :
  dist (S i) (S j) =
    let sub := (dist i j + s * Z.b2z (negb (char1 i =? char2 j)%Z))%Z in
    let swp :=
      match i, j with
      | S i', S j' =>
          if ((char1 i' =? char2 (S j')) && (char1 (S i') =? char2 j'))%Z
          then Z.min sub (dist i' j' + w)%Z else sub
      | _, _ => sub
      end in
    Z.min (Z.min swp (dist i (S j) + d)) (dist (S i) j + a).
Proof using. reflexivity. Qed.

Lemma dist_bounds_rec i :
  (forall i', i' < i -> forall j, (0 <= dist i' j <= Z.of_nat i' * d + Z.of_nat j * a)%Z) ->
  forall j, (0 <= dist i j <= Z.of_nat i * d + Z.of_nat j * a)%Z.
Proof using Hw Hs Ha Hd.
  intros Hi. destruct i as [|i]; intros j; [cbn; nia|].
  induction j as [|j IH]; [cbn [dist]; nia|]. rewrite dist_SS.
  pose proof (Hi i ltac:(lia) j). pose proof (Hi i ltac:(lia) (S j)).
  assert (0 <= s * Z.b2z (negb (char1 i =? char2 j)%Z))%Z by (destruct (negb _); cbn; lia).
  assert (forall i' j', i = S i' -> j = S j' -> 0 <= dist i' j')%Z
    by (intros i' j' -> _; apply Hi; lia).
  cbv zeta. split; [|lia].
  destruct i as [|i'], j as [|j']; try lia. specialize (H2 i' j' eq_refl eq_refl).
  case_test; lia.
Qed.

Lemma dist_bounds i j : (0 <= dist i j <= Z.of_nat i * d + Z.of_nat j * a)%Z.
Proof using Hw Hs Ha Hd.
  revert j. induction i as [i IH] using lt_wf_ind. by apply dist_bounds_rec.
Qed.

Hypothesis Hfit : (Z.of_nat (length string1 + 1) * d + Z.of_nat (length string2 + 1) * a + s + w < 2 ^ 31)%Z.

Lemma i32_fits i j c : i <= length string1 -> j <= length string2 -> (0 <= c)%Z ->
  (c <= d \/ c <= a \/ c <= s + w)%Z -> i32 (dist i j + c) = Some (dist i j + c)%Z.
Proof using Hw Hs Ha Hd Hfit.
  intros Hi Hj Hc Hcs. pose proof (dist_bounds i j). unfold i32.
  assert (dist i j + c < 2 ^ 31)%Z by nia.
  rewrite (proj2 (Z.leb_le _ _)), (proj2 (Z.ltb_lt _ _)) by lia. done.
Qed.

(** [r] holds the distances of row [i] up to column [n]. *)
Definition holds (r : row) (i n : nat) : Prop :=
  length r = length string2 + 1 /\ forall k, k < n -> r !! k = Some (Some (dist i k)).

Lemma holds_rd r i n k : holds r i n -> k < n -> rd_row r k = Some (dist i k).
Proof using Hw Hs Ha Hd Hfit. intros [_ Hr] Hk. unfold rd_row. by rewrite Hr. Qed.

Lemma holds_wr r i n v : holds r i n -> n <= length string2 -> v = dist i n ->
  exists r', wr_row r n v = Some r' /\ holds r' i (S n).
Proof using Hw Hs Ha Hd Hfit.
  intros [Hl Hr] Hn ->. exists (<[n := Some (dist i n)]> r). unfold wr_row.
  rewrite decide_True by lia. split; [done|]. split; [by rewrite length_insert|].
  intros k Hk. destruct (decide (k = n)) as [->|].
  - by rewrite list_lookup_insert_eq by lia.
  - rewrite list_lookup_insert_ne by done. apply Hr. lia.
Qed.

Lemma swapped_ok i j : i < length string1 -> j < length string2 ->
  swapped i j = Some (match i, j with
    | S i', S j' => (char1 i' =? char2 (S j')) && (char1 (S i') =? char2 j')
    | _, _ => false end)%Z.
Proof using Hw Hs Ha Hd Hfit.
  intros Hi Hj. unfold swapped. destruct i as [|i], j as [|j]; cbn [Nat.eqb orb]; try done.
  rewrite !Nat.sub_succ, !Nat.sub_0_r. unfold char1, char2.
  destruct (lookup_lt_is_Some_2 string1 i) as [x0 E1]; [lia|].
  destruct (lookup_lt_is_Some_2 string1 (S i)) as [x1 E2]; [lia|].
  destruct (lookup_lt_is_Some_2 string2 j) as [y0 E3]; [lia|].
  destruct (lookup_lt_is_Some_2 string2 (S j)) as [y1 E4]; [lia|].
  rewrite E1, E2, E3, E4. cbn. by destruct (x0 =? y1)%Z.
Qed.

Lemma improve_min x y : improve x y = Z.min x y.
Proof using Hw Hs Ha Hd Hfit. unfold improve. destruct (Z.ltb_spec y x); lia. Qed.

Lemma cell_ok i j row0 row1 row2 :
  i < length string1 -> j < length string2 ->
  (0 < i -> holds row0 (i - 1) (length string2 + 1)) ->
  holds row1 i (length string2 + 1) -> holds row2 (S i) (S j) ->
  exists row2', cell i j row0 row1 row2 = Some row2' /\ holds row2' (S i) (S (S j)).
Proof using Hw Hs Ha Hd Hfit.
  intros Hi Hj H0 H1 H2. unfold cell.
  destruct (lookup_lt_is_Some_2 string1 i) as [x E1]; [lia|].
  destruct (lookup_lt_is_Some_2 string2 j) as [y E2]; [lia|].
  rewrite E1, E2. mred. rewrite (holds_rd row1 i _ j H1) by lia. mred.
  assert (Hx : char1 i = x) by (unfold char1; by rewrite E1).
  assert (Hy : char2 j = y) by (unfold char2; by rewrite E2).
  assert (Hb : (0 <= s * Z.b2z (negb (x =? y)%Z) <= s)%Z) by (destruct (negb _); cbn; lia).
  rewrite i32_fits by lia. mred. rewrite swapped_ok by done. mred.
  set (sub := (dist i j + s * Z.b2z (negb (x =? y)%Z))%Z).
  set (sw := match i with O => false | S _ => _ end).
  set (swp := match i, j with
      | S i', S j' =>
          if ((char1 i' =? char2 (S j')) && (char1 (S i') =? char2 j'))%Z
          then Z.min sub (dist i' j' + w)%Z else sub
      | _, _ => sub
      end).
  assert (Hsw : (if sw then v ← rd_row row0 (j - 1); v ← i32 (v + w); Some (improve sub v) else Some sub) = Some swp).
  { unfold sw, swp. destruct i as [|i], j as [|j]; try done. case_match; [|done].
    rewrite !Nat.sub_succ, !Nat.sub_0_r in *.
    rewrite (holds_rd row0 i _ j (H0 ltac:(lia))) by lia. mred.
    rewrite i32_fits by lia. mred. by rewrite improve_min. }
  rewrite Hsw. mred. rewrite Nat.add_1_r, (holds_rd row1 i _ (S j) H1) by lia. mred.
  rewrite i32_fits by lia. mred. rewrite (holds_rd row2 (S i) _ j H2) by lia. mred.
  rewrite i32_fits by lia. mred. apply holds_wr; [done|lia|].
  rewrite !improve_min, dist_SS, Hx, Hy. done.
Qed.

Lemma columns_ok n i : forall j row0 row1 row2,
  i < length string1 -> j + n = length string2 ->
  (0 < i -> holds row0 (i - 1) (length string2 + 1)) ->
  holds row1 i (length string2 + 1) -> holds row2 (S i) (S j) ->
  exists row2', columns n i j row0 row1 row2 = Some row2' /\ holds row2' (S i) (length string2 + 1).
Proof using Hw Hs Ha Hd Hfit.
  induction n as [|n IH]; intros j row0 row1 row2 Hi Hn H0 H1 H2; cbn.
  { exists row2. split; [done|]. by replace (length string2 + 1) with (S j) by lia. }
  destruct (cell_ok i j row0 row1 row2) as (row2' & -> & H2'); [done|lia|done..|].
  mred. apply IH; [done|lia|done|done|]. by rewrite Nat.add_1_r.
Qed.

Lemma rows_ok n : forall i row0 row1 row2,
  i + n = length string1 -> length row2 = length string2 + 1 -> length row0 = length string2 + 1 ->
  (0 < i -> holds row0 (i - 1) (length string2 + 1)) -> holds row1 i (length string2 + 1) ->
  exists row1', rows n i row0 row1 row2 = Some row1' /\ holds row1' (length string1) (length string2 + 1).
Proof using Hw Hs Ha Hd Hfit.
  induction n as [|n IH]; intros i row0 row1 row2 Hn Hl2 Hl0 H0 H1; cbn [rows].
  { exists row1. split; [done|]. by replace (length string1) with i by lia. }
  assert (Hv : i32 (Z.of_nat (i + 1) * d) = Some (dist (S i) 0)).
  { rewrite Nat.add_1_r. change (Z.of_nat (S i) * d)%Z with (dist (S i) 0).
    rewrite <- (Z.add_0_r (dist (S i) 0)) at 1. rewrite i32_fits by lia. by rewrite Z.add_0_r. }
  rewrite Hv. mred.
  destruct (holds_wr row2 (S i) 0 (dist (S i) 0)) as (r & -> & Hr); [split; [done|lia]|lia|done|].
  mred. destruct (columns_ok (length string2) i 0 row0 row1 r) as (r' & -> & Hr'); [lia|lia|done..|].
  mred. apply IH; [lia|done|apply H1| |].
  - intros _. by replace (i + 1 - 1) with i by lia.
  - by replace (i + 1) with (S i) by lia.
Qed.

Lemma first_row_ok n : forall j r, j + n = length string2 + 1 -> holds r 0 j ->
  exists r', first_row n j r = Some r' /\ holds r' 0 (length string2 + 1).
Proof using Hw Hs Ha Hd Hfit.
  induction n as [|n IH]; intros j r Hn Hr; cbn [first_row].
  { exists r. split; [done|]. by replace (length string2 + 1) with j by lia. }
  assert (Hv : i32 (Z.of_nat j * a) = Some (dist 0 j)).
  { change (Z.of_nat j * a)%Z with (dist 0 j).
    rewrite <- (Z.add_0_r (dist 0 j)) at 1. rewrite i32_fits by lia. by rewrite Z.add_0_r. }
  rewrite Hv. mred. destruct (holds_wr r 0 j (dist 0 j)) as (r' & -> & Hr'); [done|lia|done|].
  mred. apply IH; [lia|]. by rewrite Nat.add_1_r.
Qed.

Lemma levenshtein_dist : levenshtein = Some (dist (length string1) (length string2)).
Proof using Hw Hs Ha Hd Hfit.
  unfold levenshtein. assert (Hl : length (replicate (length string2 + 1) (@None Z)) = length string2 + 1)
    by apply length_replicate.
  destruct (first_row_ok (length string2 + 1) 0 (replicate (length string2 + 1) None)) as (r & -> & Hr);
    [lia|split; [done|lia]|]. mred.
  destruct (rows_ok (length string1) 0 (replicate (length string2 + 1) None) r
              (replicate (length string2 + 1) None)) as (r' & -> & Hr'); [done|done|done|lia|done|].
  mred. apply (holds_rd _ _ _ _ Hr'). lia.
Qed.
End Levenshtein.

(** * The distance is the least cost of an edit script *)

Section Optimal.
Variables (string1 string2 : list Z) (w s a d : Z).
#[local] Abbreviation dist := (dist string1 string2 w s a d).
#[local] Abbreviation edit := (edit w s a d).

Lemma edit_cost p q c c' : edit p q c -> c = c' -> edit p q c'.
Proof using. by intros ? <-. Qed.

Lemma edit_min p q c1 c2 : edit p q c1 -> edit p q c2 -> edit p q (Z.min c1 c2).
Proof using. by destruct (Z.min_dec c1 c2) as [-> | ->]. Qed.

Lemma char_lookup (l : list Z) i : i < length l -> l !! i = Some (default 0%Z (l !! i)).
Proof using. intros Hi. by destruct (lookup_lt_is_Some_2 l i Hi) as [x ->]. Qed.

Lemma take_char (l : list Z) i : i < length l -> take (S i) l = take i l ++ [default 0%Z (l !! i)].
Proof using. intros Hi. by apply take_S_r, char_lookup. Qed.

(** Appending the last characters of both prefixes. *)
Lemma edit_last i j c : i < length string1 -> j < length string2 ->
  edit (take i string1) (take j string2) c ->
  edit (take (S i) string1) (take (S j) string2)
    (c + s * Z.b2z (negb (char1 string1 i =? char2 string2 j)%Z)).
Proof using.
  intros Hi Hj He. rewrite !take_char by done. fold (char1 string1 i) (char2 string2 j).
  destruct (Z.eqb_spec (char1 string1 i) (char2 string2 j)) as [->|Hne]; cbn [negb Z.b2z].
  - eapply edit_cost; [by apply edit_keep|lia].
  - eapply edit_cost; [by apply edit_subst|lia].
Qed.

Lemma dist_attained i : i <= length string1 -> forall j, j <= length string2 ->
  edit (take i string1) (take j string2) (dist i j).
Proof using.
  induction i as [i IHi] using lt_wf_ind. intros Hi. destruct i as [|i].
  { induction j as [|j IH]; intros Hj; [constructor|]. rewrite (take_char string2) by lia.
    eapply edit_cost; [apply edit_add, IH; lia|cbn [Levenshtein.dist]; lia]. }
  induction j as [|j IHj]; intros Hj.
  { rewrite take_0, (take_char string1) by lia.
    eapply edit_cost; [apply edit_del; apply (IHi i ltac:(lia) ltac:(lia) 0); lia|].
    destruct i; cbn [Levenshtein.dist]; lia. }
  rewrite dist_SS. cbv zeta. apply edit_min; [apply edit_min|].
  - assert (Hsub := edit_last i j _ ltac:(lia) ltac:(lia) (IHi i ltac:(lia) ltac:(lia) j ltac:(lia))).
    destruct i as [|i], j as [|j]; try exact Hsub.
    destruct ((char1 string1 i =? char2 string2 (S j)) && (char1 string1 (S i) =? char2 string2 j))%Z eqn:E;
      [|exact Hsub]. apply andb_true_iff in E as [E1%Z.eqb_eq E2%Z.eqb_eq].
    apply edit_min; [exact Hsub|]. rewrite !take_char, <- !app_assoc by lia.
    fold (char1 string1 i) (char1 string1 (S i)) (char2 string2 j) (char2 string2 (S j)).
    rewrite E1, E2. apply edit_swap, IHi; lia.
  - rewrite (take_char string1) by lia. apply edit_del, IHi; lia.
  - rewrite (take_char string2) by lia. apply edit_add, IHj. lia.
Qed.

Lemma take_snoc_inv (l p : list Z) x i : i <= length l -> p ++ [x] = take i l ->
  exists i', i = S i' /\ p = take i' l /\ default 0%Z (l !! i') = x /\ i' < length l.
Proof using.
  intros Hi He. destruct i as [|i]; [by destruct p|].
  rewrite take_char in He by lia. apply app_inj_tail in He as [-> ->].
  exists i. split; [done|]. split; [done|]. split; [done|lia].
Qed.

Lemma dist_le_last i j :
  (dist (S i) (S j) <= dist i j + s * Z.b2z (negb (char1 string1 i =? char2 string2 j)%Z))%Z.
Proof using.
  rewrite dist_SS. cbv zeta. destruct i, j; try lia.
  destruct ((char1 string1 i =? char2 string2 (S j)) && (char1 string1 (S i) =? char2 string2 j))%Z; lia.
Qed.

Lemma dist_minimal p q c : edit p q c -> forall i j, i <= length string1 -> j <= length string2 ->
  p = take i string1 -> q = take j string2 -> (dist i j <= c)%Z.
Proof using.
  induction 1 as [|p q c x He IH|p q c x y Hxy He IH|p q c x y He IH|p q c x He IH|p q c x He IH];
    intros i j Hi Hj Hp Hq.
  - destruct i, j; cbn in *; try done; destruct string1, string2; cbn in *; try done; lia.
  - apply take_snoc_inv in Hp as (i' & -> & -> & Hx & ?); [|done].
    apply take_snoc_inv in Hq as (j' & -> & -> & Hy & ?); [|done].
    pose proof (dist_le_last i' j') as Hle. unfold char1, char2 in Hle. rewrite Hx, Hy, Z.eqb_refl in Hle.
    specialize (IH i' j' ltac:(lia) ltac:(lia) eq_refl eq_refl). cbn [negb Z.b2z] in Hle. lia.
  - apply take_snoc_inv in Hp as (i' & -> & -> & Hx & ?); [|done].
    apply take_snoc_inv in Hq as (j' & -> & -> & Hy & ?); [|done].
    pose proof (dist_le_last i' j') as Hle. unfold char1, char2 in Hle.
    rewrite Hx, Hy, (proj2 (Z.eqb_neq x y)) in Hle by done.
    specialize (IH i' j' ltac:(lia) ltac:(lia) eq_refl eq_refl). cbn [negb Z.b2z] in Hle. lia.
  - change [x; y] with ([x] ++ [y]) in Hp. change [y; x] with ([y] ++ [x]) in Hq.
    rewrite app_assoc in Hp, Hq.
    apply take_snoc_inv in Hp as (i1 & -> & Hp & Hx & ?); [|done].
    apply take_snoc_inv in Hp as (i2 & -> & -> & Hx' & ?); [|lia].
    apply take_snoc_inv in Hq as (j1 & -> & Hq & Hy & ?); [|done].
    apply take_snoc_inv in Hq as (j2 & -> & -> & Hy' & ?); [|lia].
    specialize (IH i2 j2 ltac:(lia) ltac:(lia) eq_refl eq_refl).
    rewrite dist_SS. cbv zeta.
    fold (char1 string1 i2) in Hx'. fold (char1 string1 (S i2)) in Hx.
    fold (char2 string2 j2) in Hy'. fold (char2 string2 (S j2)) in Hy.
    rewrite Hx, Hx', Hy, Hy', !Z.eqb_refl. cbn [andb]. lia.
  - apply take_snoc_inv in Hp as (i' & -> & -> & Hx & ?); [|done].
    specialize (IH i' j ltac:(lia) ltac:(lia) eq_refl Hq).
    destruct j as [|j]; [destruct i'; cbn [Levenshtein.dist] in *; lia|]. rewrite dist_SS; cbv zeta; lia.
  - apply take_snoc_inv in Hq as (j' & -> & -> & Hx & ?); [|done].
    specialize (IH i j' ltac:(lia) ltac:(lia) Hp eq_refl).
    destruct i as [|i]; [cbn [Levenshtein.dist] in *; lia|]. rewrite dist_SS; cbv zeta; lia.
Qed.
End Optimal.

(** C26: with costs that are not negative and fit an int, levenshtein returns
    without reading a cell that was not written or outside a row, and its
    result is the least cost of a script of swaps, substitutions, deletions and
    additions that turns string1 into string2. *)
Theorem levenshtein_least_edit string1 string2 w s a d :
  (0 <= w)%Z -> (0 <= s)%Z -> (0 <= a)%Z -> (0 <= d)%Z ->
  (Z.of_nat (length string1 + 1) * d + Z.of_nat (length string2 + 1) * a + s + w < 2 ^ 31)%Z ->
  exists c, levenshtein string1 string2 w s a d = Some c /\
    edit w s a d string1 string2 c /\
    forall c', edit w s a d string1 string2 c' -> (c <= c')%Z.
Proof.
  intros Hw Hs Ha Hd Hfit.
  exists (dist string1 string2 w s a d (length string1) (length string2)).
  split; [by apply levenshtein_dist|]. split.
  - pose proof (dist_attained string1 string2 w s a d (length string1) ltac:(done)
      (length string2) ltac:(done)) as He. by rewrite !firstn_all in He.
  - intros c' He. apply (dist_minimal _ _ _ _ _ _ _ _ _ He); [done|done|..];
      by rewrite firstn_all.
Qed.

Lemma levenshtein_least_edit_witness :
  exists c, levenshtein [107;105;116]%Z [105;107;116;115]%Z 0 2 1 4 = Some c /\
    edit 0 2 1 4 [107;105;116]%Z [105;107;116;115]%Z c /\
    forall c', edit 0 2 1 4 [107;105;116]%Z [105;107;116;115]%Z c' -> (c <= c')%Z.
Proof. apply levenshtein_least_edit; done. Defined.

(** kitten, sitting: two substitutions and an addition. *)
Example levenshtein_kitten :
  levenshtein [107;105;116;116;101;110]%Z [115;105;116;116;105;110;103]%Z 0 2 1 4 = Some 5%Z.
Proof. vm_compute. reflexivity. Qed.
