(* ===== verification/Strings.v ===== *)
(** Model of the string helpers of util/string.c and util/sane_ctype.h: sizes
    with a unit (perf_atoll), splitting into words (argv_split), glob patterns
    (strglobmatch and its variants), comparison of tails, trimming and
    backslash escapes.

    A C string is the list of its characters before the NUL, as signed chars.
    A pointer into it is the suffix it points to: reading gives the head, or 0 at
    the end; moving past the NUL and reading there is [Oob]. *)

From S2P Require Import Prelude.

(** * Characters *)

Abbreviation cstr := (list Z) (only parsing).

Definition deref (p : cstr) : Z := match p with [] => 0 | c :: _ => c end.

(** A string holds no NUL. *)
Definition cstr_ok (p : cstr) : Prop := Forall (fun c => -128 <= c < 128 /\ c <> 0) p.

Definition uchar (c : Z) : Z := c mod 256.

(** The classes of the table sane_ctype that the helpers test. *)
Definition isspace (c : Z) : bool := bool_decide (uchar c ∈ [9; 10; 13; 32]).
Definition isdigit (c : Z) : bool := (48 <=? uchar c) && (uchar c <=? 57).
Definition isalpha (c : Z) : bool :=
  ((65 <=? uchar c) && (uchar c <=? 90)) || ((97 <=? uchar c) && (uchar c <=? 122)).
Definition islower (c : Z) : bool := isalpha c && Z.testbit c 5.
Definition sane_case (x high : Z) : Z :=
  if isalpha x then Z.lor (Z.land x (Z.lnot 32)) high else x.
Definition tolower (c : Z) : Z := sane_case (uchar c) 32.

(** Characters with a meaning. *)
Definition cSTAR : Z := 42.
Definition cQUEST : Z := 63.
Definition cLBRACK : Z := 91.
Definition cRBRACK : Z := 93.
Definition cBSLASH : Z := 92.
Definition cBANG : Z := 33.
Definition cDASH : Z := 45.

(** * Sizes: perf_atoll *)

(** strtoll on a string that starts with a digit: the value saturates. *)
Fixpoint strtoll_loop (acc : Z) (p : cstr) : Z * cstr :=
  match p with
  | c :: p' => if isdigit c then strtoll_loop (acc * 10 + (c - 48)) p' else (acc, p)
  | [] => (acc, p)
  end.

Definition LLONG_MAX : Z := 2 ^ 63 - 1.

Definition strtoll (p : cstr) : Z * cstr :=
  let '(v, p) := strtoll_loop 0 p in (Z.min v LLONG_MAX, p).

(** The shift of a unit letter. *)
Definition unit_shift (c : Z) : option Z :=
  if (c =? 107) || (c =? 75) then Some 10
  else if (c =? 109) || (c =? 77) then Some 20
  else if (c =? 103) || (c =? 71) then Some 30
  else if (c =? 116) || (c =? 84) then Some 40
  else None.

Definition perf_atoll (str : cstr) : Z :=
  if negb (isdigit (deref str)) then -1 else
  let '(length, p) := strtoll str in
  let c := deref p in
  let p := tail p in
  if (c =? 98) || (c =? 66) then match p with [] => length | _ => -1 end
  else if c =? 0 then length
  else match unit_shift c with
       | None => -1
       | Some k =>
           let length := sint 64 (Z.shiftl length k) in
           if islower c then (if decide (p = [98]) then length else -1)
           else (if decide (p = [66]) then length else -1)
       end.

(** * Words: argv_split *)

Fixpoint skip_sep (cp : cstr) : cstr :=
  match cp with
  | c :: cp' => if isspace c then skip_sep cp' else cp
  | [] => []
  end.

Fixpoint skip_arg (cp : cstr) : cstr :=
  match cp with
  | c :: cp' => if isspace c then cp else skip_arg cp'
  | [] => []
  end.

(** A turn consumes a separator or an argument, so the length is enough. *)
Fixpoint count_argc_loop (fuel : nat) (str : cstr) (count : Z) : option Z :=
  match str, fuel with
  | [], _ => Some count
  | _, O => None
  | _, S fuel =>
      let str := skip_sep str in
      match str with
      | [] => count_argc_loop fuel str count
      | _ => count_argc_loop fuel (skip_arg str) (count + 1)
      end
  end.

Definition count_argc (str : cstr) : option Z := count_argc_loop (length str) str 0.

(** [argv] has [argc + 1] slots; [argvp] is the number of slots filled.  The
    allocations may fail: [dup_ok n] is the result of the strndup of word [n]. *)
Fixpoint argv_loop (dup_ok : nat -> bool) (fuel : nat) (argc : Z) (argv : list cstr) (str : cstr)
    : res (option (list cstr)) :=
  match str, fuel with
  | [], _ => if zlen argv <? argc + 1 then Ok (Some argv) else Oob
  | _, O => Err 0
  | _, S fuel =>
      let str := skip_sep str in
      match str with
      | [] => argv_loop dup_ok fuel argc argv str
      | _ =>
          let p := str in
          let str := skip_arg str in
          if negb (dup_ok (length argv)) then Ok None else
          if zlen argv <? argc + 1
          then argv_loop dup_ok fuel argc (argv ++ [take (length p - length str) p]) str
          else Oob
      end
  end.

(** The words and their number; [None] if an allocation failed. *)
Definition argv_split (calloc_ok : bool) (dup_ok : nat -> bool) (str : cstr)
    : res (option (list cstr * Z)) :=
  match count_argc str with
  | None => Err 0
  | Some argc =>
      if negb calloc_ok then Ok None else
      match argv_loop dup_ok (length str) argc [] str with
      | Ok (Some argv) => Ok (Some (argv, argc))
      | Ok None => Ok None
      | Err e => Err e
      | Oob => Oob
      end
  end.

(** * Globs *)

(** The loop of __match_charclass, after the first character: [prev] is
    [*(pat - 1)].  [CEnd] and [CNo] are the ways out with the position. *)
Inductive ccres := CEnd (pat : cstr) | CNo (pat : cstr) | CError | COob.

Fixpoint charclass_loop (prev c : Z) (pat : cstr) : ccres :=
  match pat with
  | [] => CError
  | p :: pat1 =>
      if p =? cRBRACK then CNo pat
      else if (p =? cDASH) && negb (deref pat1 =? cRBRACK) then
        if (prev <=? c) && (c <=? deref pat1) then CEnd pat
        else if deref pat1 <? prev then CError
        else match pat1 with
             | [] => COob
             | q :: pat2 => charclass_loop q c pat2
             end
      else if p =? c then CEnd pat1
      else charclass_loop p c pat1
  end.

(** [while ( *pat && *pat != ']') pat++;] and the test that follows: the
    position after the bracket. *)
Fixpoint closing (pat : cstr) : option cstr :=
  match pat with
  | [] => None
  | p :: pat' => if p =? cRBRACK then Some pat' else closing pat'
  end.

(** [Ok (Some npat)] is a match, [Ok None] is false. *)
Definition charclass_end (complement ret : bool) (pat : cstr) : res (option cstr) :=
  match closing pat with
  | None => Ok None
  | Some npat => Ok (if xorb complement ret then Some npat else None)
  end.

Definition match_charclass (pat : cstr) (c : Z) : res (option cstr) :=
  let complement := deref pat =? cBANG in
  let pat := if complement then tail pat else pat in
  match pat with
  | [] => Oob
  | f :: pat =>
      if f =? c then charclass_end complement true pat else
      match charclass_loop f c pat with
      | CEnd pat => charclass_end complement true pat
      | CNo pat => charclass_end complement false pat
      | CError => Ok None
      | COob => Oob
      end
  end.

(** [while ( *pat == '*') pat++;] *)
Fixpoint skip_stars (pat : cstr) : cstr :=
  match pat with
  | p :: pat' => if p =? cSTAR then skip_stars pat' else pat
  | [] => []
  end.

(** __match_glob.  A turn of the loop and a recursive call both consume a
    character of the string or of the pattern, so the fuel is the sum of the
    lengths plus one; [Err 0] is a lack of fuel. *)
Section Glob.
Variables (ignore_space case_ins : bool).

Definition same_char (a b : Z) : bool :=
  if case_ins then tolower a =? tolower b else a =? b.

Fixpoint match_glob (fuel : nat) (str pat : cstr) : res bool :=
  match fuel with
  | O => Err 0
  | S fuel =>
      match str, pat with
      | c :: str', p :: pat' =>
          if p =? cSTAR then glob_star fuel str pat
          else if ignore_space && isspace c then match_glob fuel str' pat
          else if ignore_space && isspace p then match_glob fuel str pat'
          else if p =? cQUEST then match_glob fuel str' pat'
          else if p =? cLBRACK then
            r ← match_charclass pat' c;
            match r with
            | Some pat => match_glob fuel str' pat
            | None => Ok false
            end
          else
            let pat := if p =? cBSLASH then pat' else pat in
            if negb (same_char c (deref pat)) then Ok false
            else match_glob fuel str' (tail pat)
      | _, _ => glob_star fuel str pat
      end
  end
(** The check of the wild card, after the loop. *)
with glob_star (fuel : nat) (str pat : cstr) : res bool :=
  match fuel with
  | O => Err 0
  | S fuel =>
      if deref pat =? cSTAR then
        let pat := skip_stars pat in
        match pat with
        | [] => Ok true
        | _ =>
            (fix try (str : cstr) : res bool :=
               match str with
               | [] => Ok false
               | _ :: str' =>
                   r ← match_glob fuel str pat;
                   if r : bool then Ok true else try str'
               end) str
        end
      else Ok (match str, pat with [], [] => true | _, _ => false end)
  end.
End Glob.

Definition glob_fuel (str pat : cstr) : nat := 2 * (length str + length pat + 1).

Definition strglobmatch (str pat : cstr) : res bool :=
  match_glob false false (glob_fuel str pat) str pat.
Definition strglobmatch_nocase (str pat : cstr) : res bool :=
  match_glob false true (glob_fuel str pat) str pat.
Definition strlazymatch (str pat : cstr) : res bool :=
  match_glob true false (glob_fuel str pat) str pat.

(** * Tails, replacement and trimming *)

(** The loop runs over both strings from their last characters. *)
Fixpoint tail_loop (r1 r2 : cstr) : Z :=
  match r1, r2 with
  | c1 :: r1, c2 :: r2 => if negb (c1 =? c2) then c1 - c2 else tail_loop r1 r2
  | _, _ => 0
  end.

Definition strtailcmp (s1 s2 : cstr) : Z := tail_loop (reverse s1) (reverse s2).

(** [while ((p = strchr(p, from)) != NULL) *p++ = to;] *)
Fixpoint strxfrchar (s : cstr) (from to : Z) : cstr :=
  match s with
  | [] => []
  | c :: s => (if c =? from then to else c) :: strxfrchar s from to
  end.

Fixpoint ltrim (s : cstr) : cstr :=
  match s with
  | c :: s' => if isspace c then ltrim s' else s
  | [] => []
  end.

(** [end] moves down from the last character while it is on a space. *)
Fixpoint rtrim_end (s : cstr) (n : nat) : nat :=
  match n with
  | O => O
  | S n' => if isspace (default 0 (s !! n')) then rtrim_end s n' else n
  end.

Definition rtrim (s : cstr) : cstr :=
  match s with
  | [] => s
  | _ => take (rtrim_end s (length s)) s
  end.

(** * Escapes *)

(** strchr for a backslash: the number of characters before it. *)
Fixpoint find_bslash (s : cstr) : option nat :=
  match s with
  | [] => None
  | c :: s => if c =? cBSLASH then Some O else S <$> find_bslash s
  end.

(** The loop of strdup_esc: [out] is what lies before [d], [s] the rest after a
    backslash. *)
Fixpoint strdup_esc_loop (fuel : nat) (out s : cstr) : option cstr :=
  match fuel with
  | O => None
  | S fuel =>
      match s with
      | [] => Some out
      | _ :: s1 =>
          match find_bslash s1 with
          | Some k => strdup_esc_loop fuel (out ++ take (S k) s) (drop (S (S k)) s)
          | None => Some (out ++ s)
          end
      end
  end.

Definition strdup_esc (str : cstr) : option cstr :=
  match find_bslash str with
  | None => Some str
  | Some k => strdup_esc_loop (S (length str)) (take k str) (drop (S k) str)
  end.

(** strpbrk from position [i] of [s]. *)
Definition strpbrk (s : cstr) (i : nat) (stopset : list Z) : option nat :=
  (fun '(k, _) => (i + k)%nat) <$> list_find (fun c => c ∈ stopset) (drop i s).

(** The loop of strpbrk_esc: [i] is the position of [str].  A search starts
    after the stop that the one before found, so the length plus one is
    enough; [*(ptr - 2)] may lie before the string. *)
Fixpoint strpbrk_esc_loop (fuel : nat) (s : cstr) (i : nat) (stopset : list Z) : res (option nat) :=
  match fuel with
  | O => Err 0
  | S fuel =>
      match strpbrk s i stopset with
      | None => Ok None
      | Some p =>
          if bool_decide (p = i) then Ok (Some p)
          else
            let before := default 0 (s !! (p - 1)%nat) in
            if bool_decide (p = S i) && negb (before =? cBSLASH) then Ok (Some p)
            else if before =? cBSLASH then
              if (p <? 2)%nat then Oob
              else if default 0 (s !! (p - 2)%nat) =? cBSLASH then Ok (Some p)
              else strpbrk_esc_loop fuel s (S p) stopset
            else Ok (Some p)
      end
  end.

Definition strpbrk_esc (s : cstr) (stopset : list Z) : res (option nat) :=
  strpbrk_esc_loop (S (length s)) s 0 stopset.

(** * Reference matcher *)

(** A pattern as a sequence of tokens; a class is a list of ranges. *)
Inductive tok :=
| TAny
| TStar
| TChar (c : Z)
| TClass (complement : bool) (ranges : list (Z * Z)).

Definition in_ranges (c : Z) (rs : list (Z * Z)) : bool :=
  existsb (fun '(lo, hi) => (lo <=? c) && (c <=? hi)) rs.

(** The rest of a class after [prev], up to its bracket. *)
Fixpoint lex_ranges (prev : Z) (pat : cstr) : option (list (Z * Z) * cstr) :=
  match pat with
  | [] => None
  | p :: pat1 =>
      if p =? cRBRACK then Some ([], pat1)
      else if p =? cDASH then
        match pat1 with
        | [] => None
        | q :: pat2 =>
            if q =? cRBRACK then Some ([(p, p)], pat2)
            else if q <? prev then None
            else '(rs, rest) ← lex_ranges q pat2; Some ((prev, q) :: rs, rest)
        end
      else '(rs, rest) ← lex_ranges p pat1; Some ((p, p) :: rs, rest)
  end.

Definition lex_class (pat : cstr) : option (tok * cstr) :=
  let complement := deref pat =? cBANG in
  match (if complement then tail pat else pat) with
  | [] => None
  | f :: pat => '(rs, rest) ← lex_ranges f pat; Some (TClass complement ((f, f) :: rs), rest)
  end.

(** The tokens of a pattern; [None] if its syntax is broken. *)
Fixpoint lex (fuel : nat) (pat : cstr) : option (list tok) :=
  match fuel with
  | O => None
  | S fuel =>
      match pat with
      | [] => Some []
      | p :: pat' =>
          if p =? cSTAR then cons TStar <$> lex fuel pat'
          else if p =? cQUEST then cons TAny <$> lex fuel pat'
          else if p =? cLBRACK then
            '(t, rest) ← lex_class pat'; cons t <$> lex fuel rest
          else if p =? cBSLASH then
            match pat' with
            | [] => None
            | q :: pat'' => cons (TChar q) <$> lex fuel pat''
            end
          else cons (TChar p) <$> lex fuel pat'
      end
  end.

Definition tokens (pat : cstr) : option (list tok) := lex (S (length pat)) pat.

Section Reference.
Variable case_ins : bool.

Definition tok_match (t : tok) (c : Z) : bool :=
  match t with
  | TAny => true
  | TStar => false
  | TChar d => same_char case_ins c d
  | TClass complement rs => xorb complement (in_ranges c rs)
  end.

(** A star stands for any number of characters, every other token for one. *)
Fixpoint gmatch (ts : list tok) (str : cstr) : bool :=
  match ts with
  | [] => match str with [] => true | _ => false end
  | TStar :: ts =>
      (fix star (str : cstr) : bool :=
         gmatch ts str || match str with [] => false | _ :: str => star str end) str
  | t :: ts => match str with [] => false | c :: str => tok_match t c && gmatch ts str end
  end.
End Reference.

(** * The matcher agrees with the reference *)

Lemma lex_ranges_closing pat : forall prev rs rest,
  lex_ranges prev pat = Some (rs, rest) -> closing pat = Some rest.
Proof.
  induction pat as [pat IH] using (induction_ltof1 _ (@length Z)); unfold ltof in IH.
  destruct pat as [|p pat1]; intros prev rs rest; cbn; [done|].
  destruct (Z.eqb_spec p cRBRACK); [by intros [= _ <-]|].
  destruct (p =? cDASH).
  - destruct pat1 as [|q pat2]; [done|]. cbn. destruct (Z.eqb_spec q cRBRACK); [by intros [= _ <-]|].
    destruct (q <? prev); [done|]. destruct (lex_ranges q pat2) as [[rs' rest']|] eqn:E; [|done].
    intros [= _ <-]. eapply IH; [|done]. cbn. lia.
  - destruct (lex_ranges p pat1) as [[rs' rest']|] eqn:E; [|done].
    intros [= _ <-]. eapply IH; [|done]. cbn. lia.
Qed.

(** The loop over a class finds out whether [c] is in one of its ranges, and stays
    before the bracket. *)
Lemma charclass_loop_ok c pat : forall prev rs rest,
  lex_ranges prev pat = Some (rs, rest) ->
  exists pat', closing pat' = Some rest /\
    charclass_loop prev c pat = if in_ranges c rs then CEnd pat' else CNo pat'.
Proof.
  induction pat as [pat IH] using (induction_ltof1 _ (@length Z)); unfold ltof in IH.
  intros prev rs rest Hlex. pose proof (lex_ranges_closing _ _ _ _ Hlex) as Hcl.
  destruct pat as [|p pat1]; cbn in Hlex |- *; [done|].
  destruct (Z.eqb_spec p cRBRACK); [injection Hlex as <- <-; by exists (p :: pat1)|].
  destruct (p =? cDASH) eqn:Hd; cbn [andb].
  - destruct pat1 as [|q pat2]; [done|]. cbn [deref].
    destruct (Z.eqb_spec q cRBRACK) as [->|]; cbn [negb].
    + injection Hlex as <- <-. exists (cRBRACK :: pat2). split; [done|].
      cbn [in_ranges existsb]. rewrite orb_false_r.
      destruct (Z.eqb_spec p c), (Z.leb_spec p c), (Z.leb_spec c p); try lia; done.
    + destruct (q <? prev); [done|].
      destruct (lex_ranges q pat2) as [[rs' rest']|] eqn:E; [|done]. injection Hlex as <- <-.
      cbn [in_ranges existsb]. destruct ((prev <=? c) && (c <=? q)); cbn [orb]; [by exists (p :: q :: pat2)|].
      apply (IH pat2 ltac:(cbn; lia) q rs' rest' E).
  - destruct (lex_ranges p pat1) as [[rs' rest']|] eqn:E; [|done]. injection Hlex as <- <-.
    cbn [in_ranges existsb].
    destruct (Z.eqb_spec p c), (Z.leb_spec p c), (Z.leb_spec c p); try lia; cbn [andb orb];
      try (apply (IH pat1 ltac:(cbn; lia) p rs' rest' E)).
    exists pat1. split; [|done]. by apply (lex_ranges_closing _ _ _ _ E).
Qed.

Lemma match_charclass_ok pat c t rest : lex_class pat = Some (t, rest) ->
  match_charclass pat c = Ok (if tok_match false t c then Some rest else None).
Proof.
  unfold lex_class, match_charclass. destruct (if deref pat =? cBANG then tail pat else pat) as [|f p]; [done|].
  destruct (lex_ranges f p) as [[rs rest']|] eqn:E; [|done]. cbn. intros [= <- <-].
  cbn [tok_match in_ranges existsb].
  assert (Hf : (f <=? c) && (c <=? f) = (f =? c))
    by (destruct (Z.eqb_spec f c), (Z.leb_spec f c), (Z.leb_spec c f); try lia; done).
  rewrite Hf. destruct (f =? c); cbn [orb].
  - unfold charclass_end. by rewrite (lex_ranges_closing _ _ _ _ E).
  - destruct (charclass_loop_ok c p f rs rest' E) as (p' & Hcl & ->). fold (in_ranges c rs).
    destruct (in_ranges c rs); unfold charclass_end; by rewrite Hcl.
Qed.

Lemma tok_match_class b t c rest pat : lex_class pat = Some (t, rest) -> tok_match b t c = tok_match false t c.
Proof.
  unfold lex_class. destruct (if deref pat =? cBANG then tail pat else pat) as [|f p]; [done|].
  destruct (lex_ranges f p) as [[rs rest']|]; [|done]. by intros [= <- <-].
Qed.

Lemma lex_ranges_length pat : forall prev rs rest,
  lex_ranges prev pat = Some (rs, rest) -> (length rest < length pat)%nat.
Proof.
  intros prev rs rest Hl%lex_ranges_closing. clear prev rs. revert Hl.
  induction pat as [|p pat IH]; cbn; [done|].
  destruct (p =? cRBRACK); [intros [= <-]; lia|]. intros H%IH. lia.
Qed.

Lemma lex_class_length pat t rest : lex_class pat = Some (t, rest) -> (length rest < length pat)%nat.
Proof.
  unfold lex_class. destruct (if deref pat =? cBANG then tail pat else pat) as [|f p] eqn:E; [done|].
  destruct (lex_ranges f p) as [[rs rest']|] eqn:El; [|done]. intros [= <- <-].
  apply lex_ranges_length in El. destruct (deref pat =? cBANG), pat; cbn in *; simplify_eq; cbn in *; lia.
Qed.

(** More fuel does not change the tokens. *)
Lemma lex_fuel f1 : forall f2 pat ts, lex f1 pat = Some ts -> (length pat < f2)%nat -> lex f2 pat = Some ts.
Proof.
  induction f1 as [|f1 IH]; intros f2 pat ts; [done|]. destruct f2 as [|f2]; [lia|].
  destruct pat as [|p pat]; cbn; [done|]. intros Hl Hf.
  destruct (p =? cSTAR); [|destruct (p =? cQUEST); [|destruct (p =? cLBRACK); [|destruct (p =? cBSLASH)]]].
  - destruct (lex f1 pat) eqn:E; [|done]. by rewrite (IH f2 pat _ E) by lia.
  - destruct (lex f1 pat) eqn:E; [|done]. by rewrite (IH f2 pat _ E) by lia.
  - destruct (lex_class pat) as [[t rest]|] eqn:Ec; [|done]. cbn in *.
    apply lex_class_length in Ec. destruct (lex f1 rest) eqn:E; [|done]. by rewrite (IH f2 rest _ E) by lia.
  - destruct pat as [|q pat]; [done|]. cbn in Hf.
    destruct (lex f1 pat) eqn:E; [|done]. by rewrite (IH f2 pat _ E) by lia.
  - destruct (lex f1 pat) eqn:E; [|done]. by rewrite (IH f2 pat _ E) by lia.
Qed.

Section Agree.
Variable ci : bool.

Lemma gmatch_star ts str :
  gmatch ci (TStar :: ts) str =
    gmatch ci ts str || match str with [] => false | _ :: str => gmatch ci (TStar :: ts) str end.
Proof using. by destruct str. Qed.

Lemma gmatch_star_star ts str : gmatch ci (TStar :: TStar :: ts) str = gmatch ci (TStar :: ts) str.
Proof using.
  induction str as [|c str IH]; rewrite gmatch_star, gmatch_star; [by rewrite orb_false_r|].
  rewrite IH. by destruct (gmatch ci ts (c :: str)), (gmatch ci (TStar :: ts) str).
Qed.

Lemma gmatch_star_nil str : gmatch ci [TStar] str = true.
Proof using. induction str as [|c str IH]; rewrite gmatch_star; [done|]. by rewrite IH, orb_true_r. Qed.

Lemma tokens_cons p pat :
  tokens (p :: pat) =
    if p =? cSTAR then cons TStar <$> tokens pat
    else if p =? cQUEST then cons TAny <$> tokens pat
    else if p =? cLBRACK then '(t, rest) ← lex_class pat; cons t <$> tokens rest
    else if p =? cBSLASH then
      match pat with [] => None | q :: pat => cons (TChar q) <$> tokens pat end
    else cons (TChar p) <$> tokens pat.
Proof using.
  assert (Hl : forall f pat', (length pat' < f)%nat -> lex f pat' = tokens pat').
  { intros f pat' Hf. unfold tokens. destruct (lex f pat') eqn:E; [by rewrite (lex_fuel f _ _ _ E) by lia|].
    destruct (lex (S (length pat')) pat') eqn:E'; [|done]. by rewrite (lex_fuel _ f _ _ E' Hf) in E. }
  change (tokens (p :: pat)) with (let f := S (length pat) in
    if p =? cSTAR then cons TStar <$> lex f pat
    else if p =? cQUEST then cons TAny <$> lex f pat
    else if p =? cLBRACK then '(t, rest) ← lex_class pat; cons t <$> lex f rest
    else if p =? cBSLASH then
      match pat with [] => None | q :: pat => cons (TChar q) <$> lex f pat end
    else cons (TChar p) <$> lex f pat). cbv zeta. repeat case_test; try (by rewrite Hl by (cbn; lia)).
  - destruct (lex_class pat) as [[t rest]|] eqn:E; [|done]. mred.
    apply lex_class_length in E. by rewrite Hl by lia.
  - destruct pat as [|q pat]; [done|]. by rewrite Hl by (cbn; lia).
Qed.

(** A pattern that does not start with a star matches no empty string. *)
Lemma tokens_nonempty p pat ts : tokens (p :: pat) = Some ts -> p <> cSTAR -> gmatch ci ts [] = false.
Proof using.
  rewrite tokens_cons. intros Ht Hp. rewrite (proj2 (Z.eqb_neq p cSTAR)) in Ht by done.
  destruct (p =? cQUEST); [|destruct (p =? cLBRACK); [|destruct (p =? cBSLASH)]].
  1: destruct (tokens pat); [|done]; by injection Ht as <-.
  2: destruct pat as [|q pat]; [done|].
  2,3: destruct (tokens pat); [|done]; by injection Ht as <-.
  destruct (lex_class pat) as [[t rest]|] eqn:E; [|done]. cbn [mbind option_bind] in Ht.
  destruct (tokens rest); [|done]. injection Ht as <-. unfold lex_class in E.
  destruct (if deref pat =? cBANG then tail pat else pat); [done|].
  destruct (lex_ranges _ _) as [[? ?]|]; [|done]. by injection E as <- <-.
Qed.

Lemma skip_stars_ok pat ts : tokens pat = Some ts -> deref pat = cSTAR ->
  exists ts', tokens (skip_stars pat) = Some ts' /\
    (forall str, gmatch ci ts str = gmatch ci (TStar :: ts') str) /\
    (length (skip_stars pat) < length pat)%nat /\
    (skip_stars pat = [] \/ gmatch ci ts' [] = false).
Proof using.
  revert ts. induction pat as [|p pat IH]; intros ts; [done|]. cbn [deref skip_stars]. intros Ht ->.
  rewrite tokens_cons in Ht. change (cSTAR =? cSTAR) with true in Ht. cbn match in Ht. destruct (tokens pat) as [ts1|] eqn:E; [|done]. injection Ht as <-.
  rewrite Z.eqb_refl. destruct pat as [|q pat].
  { exists ts1. split; [done|]. split; [done|]. split; [cbn; lia|by left]. }
  destruct (decide (q = cSTAR)) as [->|Hq].
  - destruct (IH ts1 eq_refl eq_refl) as (ts' & ? & Hm & ? & ?). exists ts'. split; [done|].
    split; [|split; [cbn in *; lia|done]]. intros str.
    replace (gmatch ci (TStar :: ts') str) with (gmatch ci (TStar :: TStar :: ts') str)
      by apply gmatch_star_star.
    induction str as [|c str IHs]; rewrite gmatch_star, (gmatch_star (TStar :: ts')), Hm; [done|].
    by rewrite IHs.
  - cbn [skip_stars]. rewrite (proj2 (Z.eqb_neq q cSTAR)) by done. exists ts1. split; [done|].
    split; [done|]. split; [cbn; lia|]. right. by apply (tokens_nonempty q pat).
Qed.

Lemma Forall_suffix (P : Z -> Prop) l k : Forall P l -> suffix k l -> Forall P k.
Proof using. by intros Hl [m ->]; apply Forall_app in Hl as [_ ?]. Qed.

Lemma skip_stars_suffix pat : suffix (skip_stars pat) pat.
Proof using.
  induction pat as [|p pat IH]; cbn; [done|]. destruct (p =? cSTAR); [|done]. by apply suffix_cons_r.
Qed.

Lemma lex_class_suffix pat t rest : lex_class pat = Some (t, rest) -> suffix rest pat.
Proof using.
  unfold lex_class. destruct (if deref pat =? cBANG then tail pat else pat) as [|f p] eqn:E; [done|].
  destruct (lex_ranges f p) as [[rs rest']|] eqn:El; [|done]. intros [= <- <-].
  apply lex_ranges_closing in El.
  assert (Hcl : forall q r, closing q = Some r -> suffix r q).
  { clear. induction q as [|x q IH]; intros r; cbn; [done|].
    destruct (x =? cRBRACK); [intros [= <-]; by apply suffix_cons_r|].
    intros ?%IH. by apply suffix_cons_r. }
  apply Hcl in El. destruct (deref pat =? cBANG), pat; cbn in *; simplify_eq; try done;
    by repeat apply suffix_cons_r.
Qed.

(** The loop over the positions where the rest of the pattern may match. *)
Lemma glob_try_ok fuel pat ts str :
  match pat with [] => ts = [] | _ => True end ->
  (pat = [] \/ gmatch ci ts [] = false) ->
  (forall str', (length str' <= length str)%nat -> match_glob false ci fuel str' pat = Ok (gmatch ci ts str')) ->
  match pat with
  | [] => Ok true
  | _ =>
      (fix try (str : cstr) : res bool :=
         match str with
         | [] => Ok false
         | _ :: str' =>
             r ← match_glob false ci fuel str pat;
             if r : bool then Ok true else try str'
         end) str
  end = Ok (gmatch ci (TStar :: ts) str).
Proof using.
  intros Hnil Hend Hrec. destruct pat as [|p pat]; [subst ts; by rewrite gmatch_star_nil|].
  destruct Hend as [|Hend]; [done|].
  induction str as [|c str IH]; rewrite gmatch_star; [by rewrite Hend|].
  rewrite Hrec by done. cbn [mbind res_bind]. destruct (gmatch ci ts (c :: str)); [done|]. cbn [orb].
  apply IH. intros str' Hs. apply Hrec. cbn. lia.
Qed.

Lemma match_glob_ok fuel : forall str pat ts,
  tokens pat = Some ts -> Forall (fun c => c <> 0) pat ->
  (2 * (length str + length pat + 1) <= fuel)%nat ->
  match_glob false ci fuel str pat = Ok (gmatch ci ts str).
Proof using.
  induction fuel as [fuel IH] using lt_wf_ind. intros str pat ts Ht Hnz Hf.
  destruct fuel as [|f]; [lia|]. cbn [match_glob].
  assert (Hstar : forall p pat', pat = p :: pat' -> p = cSTAR ->
            glob_star false ci f str pat = Ok (gmatch ci ts str)).
  { intros p pat' -> ->. destruct f as [|fuel]; [lia|]. cbn [glob_star deref]. rewrite Z.eqb_refl.
    destruct (skip_stars_ok _ _ Ht eq_refl) as (ts' & Ht' & Hm & Hlen & Hend).
    rewrite Hm. apply (glob_try_ok fuel (skip_stars (cSTAR :: pat')) ts'); [|done|].
    - destruct (skip_stars (cSTAR :: pat')) eqn:Es; [|done]. by injection Ht' as <-.
    - intros str' Hs. apply IH; [lia|done| |lia].
      apply (Forall_suffix _ _ _ Hnz). apply skip_stars_suffix. }
  destruct str as [|c str]; [|destruct pat as [|p pat]].
  - destruct pat as [|p pat]; [injection Ht as <-; by destruct f; [lia|]|].
    destruct (decide (p = cSTAR)); [by apply (Hstar p pat)|].
    destruct f as [|fuel]; [lia|]. cbn. rewrite (proj2 (Z.eqb_neq p cSTAR)) by done. f_equal. symmetry. by apply (tokens_nonempty p pat).
  - injection Ht as <-. by destruct f; [lia|].
  - destruct (Z.eqb_spec p cSTAR) as [->|Hp]; [by apply (Hstar cSTAR pat)|]. cbn [andb].
    rewrite tokens_cons in Ht. rewrite (proj2 (Z.eqb_neq p cSTAR)) in Ht by done.
    inversion Hnz as [|? ? Hpz Hnz']; subst. cbn [length] in Hf.
    destruct (p =? cQUEST); [|destruct (p =? cLBRACK)].
    + destruct (tokens pat) as [ts'|] eqn:E; [|done]. injection Ht as <-. cbn [gmatch tok_match andb].
      apply IH; [lia|done|done|lia].
    + destruct (lex_class pat) as [[t rest]|] eqn:Ec; [|done]. cbn [mbind option_bind] in Ht.
      rewrite (match_charclass_ok _ c _ _ Ec). cbn [mbind res_bind].
      destruct (tokens rest) as [ts'|] eqn:E; [|done]. injection Ht as <-.
      pose proof (lex_class_length _ _ _ Ec). rewrite <- (tok_match_class ci t c rest pat Ec).
      assert (Hne : t <> TStar).
      { unfold lex_class in Ec. destruct (if deref pat =? cBANG then tail pat else pat); [done|].
        destruct (lex_ranges _ _) as [[? ?]|]; [|done]. by injection Ec as <- <-. }
      replace (gmatch ci (t :: ts') (c :: str)) with (tok_match ci t c && gmatch ci ts' str) by (by destruct t).
      destruct (tok_match ci t c); [|done]. apply IH; [lia|done| |lia].
      apply (Forall_suffix _ _ _ Hnz'). by apply (lex_class_suffix pat t).
    + destruct (p =? cBSLASH).
      * destruct pat as [|q pat]; [done|]. destruct (tokens pat) as [ts'|] eqn:E; [|done]. injection Ht as <-.
        cbn [deref tail gmatch tok_match]. destruct (same_char ci c q); [|done]. cbn [negb andb].
        inversion Hnz'; subst. cbn [length] in Hf. apply IH; [lia|done|done|lia].
      * destruct (tokens pat) as [ts'|] eqn:E; [|done]. injection Ht as <-.
        cbn [deref tail gmatch tok_match]. destruct (same_char ci c p); [|done]. cbn [negb andb].
        apply IH; [lia|done|done|lia].
Qed.
End Agree.

(** * Theorems on globs *)

(** C27: on every pattern whose syntax is not broken, strglobmatch and
    strglobmatch_nocase end, read only the two strings, and return whether the
    string matches the tokens of the pattern: a star stands for any number of
    characters, a question mark for one, a class for one character in (or not
    in) its ranges, a backslash for the character after it. *)
Theorem strglobmatch_reference str pat ts :
  cstr_ok pat -> tokens pat = Some ts ->
  strglobmatch str pat = Ok (gmatch false ts str) /\
  strglobmatch_nocase str pat = Ok (gmatch true ts str).
Proof.
  intros Hok Ht.
  assert (Hnz : Forall (fun c => c <> 0) pat) by (eapply Forall_impl; [exact Hok|]; cbn; lia).
  split; apply match_glob_ok; try done; unfold glob_fuel; lia.
Qed.

(** The pattern [*[!a-c]d?] on [xyzd1]. *)
Lemma strglobmatch_reference_witness :
  strglobmatch [120;121;122;100;49] [42;91;33;97;45;99;93;100;63] =
    Ok (gmatch false [TStar; TClass true [(97,97); (97,99)]; TChar 100; TAny] [120;121;122;100;49]) /\
  strglobmatch_nocase [120;121;122;100;49] [42;91;33;97;45;99;93;100;63] =
    Ok (gmatch true [TStar; TClass true [(97,97); (97,99)]; TChar 100; TAny] [120;121;122;100;49]).
Proof.
  apply strglobmatch_reference; [|vm_compute; reflexivity]. repeat constructor; lia.
Defined.

(** A class that is not closed right after its bracket is read beyond the end of
    the pattern: [a[] against [ab]. *)
Theorem glob_unclosed_class_overread : strglobmatch [97; 98] [97; cLBRACK] = Oob.
Proof. reflexivity. Qed.

(** A range that runs backwards is broken syntax, and still matches when an
    earlier character of the class does: [[z-a]] matches [z]. *)
Theorem glob_broken_range_matches :
  tokens [cLBRACK; 122; cDASH; 97; cRBRACK] = None /\
  strglobmatch [122] [cLBRACK; 122; cDASH; 97; cRBRACK] = Ok true.
Proof. split; reflexivity. Qed.

(** strlazymatch does not ignore a space at the end of the string. *)
Theorem lazy_match_trailing_space :
  strlazymatch [32; 97] [97] = Ok true /\ strlazymatch [97; 32] [97] = Ok false.
Proof. split; reflexivity. Qed.

(** * Words *)

(** The maximal runs of characters that are not spaces; [cur] is the run read so
    far. *)
Fixpoint words (cur str : cstr) : list cstr :=
  match str with
  | [] => match cur with [] => [] | _ => [cur] end
  | c :: str =>
      if isspace c then match cur with [] => [] | _ => [cur] end ++ words [] str
      else words (cur ++ [c]) str
  end.

Definition arg_of (p : cstr) : cstr := take (length p - length (skip_arg p)) p.

Lemma skip_arg_length p : (length (skip_arg p) <= length p)%nat.
Proof. induction p as [|c p IH]; cbn; [lia|]. destruct (isspace c); cbn; lia. Qed.

Lemma words_sep str : words [] str = words [] (skip_sep str).
Proof. induction str as [|c str IH]; cbn; [done|]. by destruct (isspace c) eqn:E; [|cbn; rewrite E]. Qed.

Lemma words_arg p : forall cur, cur ++ arg_of p <> [] ->
  words cur p = (cur ++ arg_of p) :: words [] (skip_arg p).
Proof.
  induction p as [|c p IH]; intros cur Hne; unfold arg_of in *; cbn [skip_arg words].
  { cbn in *. rewrite app_nil_r in *. by destruct cur. }
  cbn [skip_arg] in Hne. destruct (isspace c) eqn:E; cbn in *.
  - rewrite Nat.sub_diag in *. cbn [take] in *. rewrite E, app_nil_r in *. by destruct cur.
  - pose proof (skip_arg_length p). rewrite Nat.sub_succ_l in * by lia. cbn [take] in *.
    rewrite IH; [by rewrite <- app_assoc|]. by destruct cur.
Qed.

Lemma skip_sep_cases str :
  skip_sep str = [] \/ exists c p, skip_sep str = c :: p /\ isspace c = false.
Proof. induction str as [|c str IH]; cbn; [by left|]. destruct (isspace c) eqn:E; [done|]. right. by exists c, str. Qed.

Lemma skip_sep_length str : (length (skip_sep str) <= length str)%nat.
Proof. induction str as [|c p IH]; cbn; [lia|]. destruct (isspace c); cbn; lia. Qed.

(** One word: what follows is shorter. *)
Lemma words_next str c p : skip_sep str = c :: p -> isspace c = false ->
  words [] str = arg_of (c :: p) :: words [] (skip_arg (c :: p)) /\
  (length (skip_arg (c :: p)) < length str)%nat.
Proof.
  intros Hs Hc. rewrite words_sep, Hs. pose proof (skip_sep_length str) as Hl. rewrite Hs in Hl.
  pose proof (skip_arg_length p). split.
  - rewrite words_arg; [done|]. unfold arg_of. cbn. rewrite Hc. rewrite Nat.sub_succ_l by lia. done.
  - cbn in *. rewrite Hc. lia.
Qed.

Lemma count_argc_ok fuel : forall str n, (length str <= fuel)%nat ->
  count_argc_loop fuel str n = Some (n + zlen (words [] str)).
Proof.
  induction fuel as [|fuel IH]; intros str n Hf.
  { destruct str; [|cbn in Hf; lia]. cbn. f_equal. rewrite zlen_nil. lia. }
  destruct str as [|c0 str0]; [cbn; f_equal; rewrite zlen_nil; lia|]. cbn [count_argc_loop].
  destruct (skip_sep_cases (c0 :: str0)) as [Hs|(c & p & Hs & Hc)].
  - rewrite words_sep, Hs. rewrite IH by (cbn; lia). done.
  - destruct (words_next _ _ _ Hs Hc) as [Hw Hlt]. rewrite Hw, Hs. cbn [length] in *.
    rewrite IH by lia. rewrite zlen_cons. f_equal. lia.
Qed.

Lemma argv_loop_ok fuel : forall argc argv str, (length str <= fuel)%nat ->
  zlen argv + zlen (words [] str) = argc ->
  argv_loop (fun _ => true) fuel argc argv str = Ok (Some (argv ++ words [] str)).
Proof.
  induction fuel as [|fuel IH]; intros argc argv str Hf Hn.
  { destruct str; [|cbn in Hf; lia]. cbn [argv_loop words] in *. rewrite zlen_nil in Hn.
    rewrite (proj2 (Z.ltb_lt (zlen argv) (argc + 1))) by lia. by rewrite app_nil_r. }
  destruct str as [|c0 str0]; cbn [argv_loop].
  { cbn [words] in *. rewrite zlen_nil in Hn.
    rewrite (proj2 (Z.ltb_lt (zlen argv) (argc + 1))) by lia. by rewrite app_nil_r. }
  destruct (skip_sep_cases (c0 :: str0)) as [Hs|(c & p & Hs & Hc)].
  - rewrite words_sep in Hn |- *. rewrite Hs in *. apply IH; [cbn; lia|done].
  - destruct (words_next _ _ _ Hs Hc) as [Hw Hlt]. rewrite Hw in Hn |- *. rewrite Hs. cbn [length negb] in *.
    rewrite zlen_cons in Hn. pose proof (zlen_nonneg (words [] (skip_arg (c :: p)))).
    rewrite (proj2 (Z.ltb_lt _ _)) by lia. fold (arg_of (c :: p)).
    rewrite IH; [by rewrite <- app_assoc|lia|]. rewrite zlen_app, zlen_cons, zlen_nil. lia.
Qed.

(** argv_split returns the words of the string and their number, and the array
    of [argc + 1] slots has room for all of them and the closing NULL. *)
Theorem argv_split_words str :
  argv_split true (fun _ => true) str = Ok (Some (words [] str, zlen (words [] str))).
Proof.
  unfold argv_split, count_argc. rewrite count_argc_ok by done. cbn [negb].
  by rewrite argv_loop_ok by done.
Qed.

(** * Escapes *)

(** Every backslash is dropped and the character after it kept. *)
Fixpoint unescape (s : cstr) : cstr :=
  match s with
  | [] => []
  | c :: s =>
      if c =? cBSLASH then match s with [] => [] | d :: s => d :: unescape s end
      else c :: unescape s
  end.

Lemma find_bslash_None s : find_bslash s = None -> unescape s = s.
Proof.
  induction s as [|c s IH]; cbn; [done|]. destruct (c =? cBSLASH); [done|].
  destruct (find_bslash s); [done|]. intros _. by rewrite IH.
Qed.

Lemma find_bslash_Some s k : find_bslash s = Some k ->
  unescape s = take k s ++ match drop (S k) s with [] => [] | d :: t => d :: unescape t end /\
  (k < length s)%nat.
Proof.
  revert k; induction s as [|c s IH]; intros k; cbn [find_bslash]; [done|].
  destruct (c =? cBSLASH) eqn:E; [intros [= <-]; cbn; rewrite E; split; [done|lia]|].
  destruct (find_bslash s) as [k'|]; [|done]. intros [= <-].
  destruct (IH k' eq_refl) as [IHe ?]. cbn [unescape]. rewrite E, IHe. cbn. split; [done|lia].
Qed.

Lemma strdup_esc_loop_ok fuel : forall out s, (length s < fuel)%nat ->
  strdup_esc_loop fuel out s = Some (out ++ match s with [] => [] | d :: t => d :: unescape t end).
Proof.
  induction fuel as [|fuel IH]; intros out s Hf; [lia|].
  destruct s as [|d t]; cbn [strdup_esc_loop]; [by rewrite app_nil_r|].
  destruct (find_bslash t) as [k|] eqn:E.
  - destruct (find_bslash_Some _ _ E) as [He Hk]. rewrite IH; [|rewrite length_drop; cbn in *; lia].
    rewrite He, <- app_assoc. done.
  - by rewrite (find_bslash_None _ E).
Qed.

(** strdup_esc returns the string without its escapes. *)
Theorem strdup_esc_unescapes str : strdup_esc str = Some (unescape str).
Proof.
  unfold strdup_esc. destruct (find_bslash str) as [k|] eqn:E.
  - destruct (find_bslash_Some _ _ E) as [-> Hk]. apply strdup_esc_loop_ok.
    rewrite length_drop. lia.
  - by rewrite (find_bslash_None _ E).
Qed.

(** The stop at [p] is right after a single backslash. *)
Definition escaped (s : cstr) (p : nat) : Prop :=
  (1 <= p)%nat /\ s !! (p - 1)%nat = Some cBSLASH /\ ((2 <= p)%nat -> s !! (p - 2)%nat <> Some cBSLASH).

Definition stop_at (s : cstr) (stopset : list Z) (p : nat) : Prop :=
  exists c, s !! p = Some c /\ c ∈ stopset.

Lemma strpbrk_None s i st : strpbrk s i st = None -> forall q, (i <= q)%nat -> ~ stop_at s st q.
Proof.
  unfold strpbrk. rewrite fmap_None, list_find_None, Forall_forall. intros Hn q Hq (c & Hc & Hin).
  apply (Hn c); [|done]. apply (list_elem_of_lookup_2 _ (q - i)). rewrite lookup_drop.
  by replace (i + (q - i))%nat with q by lia.
Qed.

Lemma strpbrk_Some s i st p : strpbrk s i st = Some p ->
  (i <= p < length s)%nat /\ stop_at s st p /\ forall q, (i <= q < p)%nat -> ~ stop_at s st q.
Proof.
  unfold strpbrk. rewrite fmap_Some. intros ([k c] & (Hl & Hc & Hb)%list_find_Some & ->).
  rewrite lookup_drop in Hl. split; [split; [lia|by eapply lookup_lt_Some]|].
  split; [by exists c|]. intros q Hq (d & Hd & Hin). apply (Hb (q - i)%nat d); [|lia|done].
  rewrite lookup_drop. by replace (i + (q - i))%nat with q by lia.
Qed.

Lemma strpbrk_esc_loop_ok fuel s st : cBSLASH ∉ st -> forall i,
  (length s - i < fuel)%nat -> (i = 0%nat \/ stop_at s st (i - 1)) ->
  (forall q, (q < i)%nat -> stop_at s st q -> escaped s q) ->
  match strpbrk_esc_loop fuel s i st with
  | Ok (Some p) => stop_at s st p /\ ~ escaped s p /\ forall q, (q < p)%nat -> stop_at s st q -> escaped s q
  | Ok None => forall q, stop_at s st q -> escaped s q
  | Oob => s !! 0%nat = Some cBSLASH /\ stop_at s st 1
  | Err _ => False
  end.
Proof.
  intros Hst. induction fuel as [|fuel IH]; intros i Hf Hi Hq; [lia|]. cbn [strpbrk_esc_loop].
  destruct (strpbrk s i st) as [p|] eqn:E; cycle 1.
  { intros q Hs. destruct (Nat.lt_ge_cases q i); [by apply Hq|].
    by destruct (strpbrk_None _ _ _ E q). }
  destruct (strpbrk_Some _ _ _ _ E) as (Hp & Hs & Hb).
  assert (Hall : forall q, (q < p)%nat -> stop_at s st q -> escaped s q).
  { intros q Hqp Hsq. destruct (Nat.lt_ge_cases q i); [by apply Hq|]. by destruct (Hb q). }
  destruct (lookup_lt_is_Some_2 s (p - 1)) as [d Hd]; [lia|].
  case_bool_decide as Hpi.
  { subst p. split; [done|]. split; [|done]. intros (H1 & H2 & _).
    destruct Hi as [->|(c & Hc & Hin)]; [lia|]. rewrite H2 in Hc. by injection Hc as <-. }
  rewrite Hd. change (default 0 (Some d)) with d. cbv zeta. destruct (Z.eqb_spec d cBSLASH) as [->|Hdb].
  - rewrite andb_false_r. destruct (Nat.ltb_spec p 2).
    { replace p with 1%nat in * by lia. done. }
    destruct (lookup_lt_is_Some_2 s (p - 2)) as [e He]; [lia|]. rewrite He. change (default 0 (Some e)) with e.
    destruct (Z.eqb_spec e cBSLASH) as [->|Heb].
    + split; [done|]. split; [|done]. intros (_ & _ & H2). by apply H2.
    + apply (IH (S p)); [lia|right; cbn; by rewrite Nat.sub_0_r|]. intros q Hqs Hsq.
      destruct (decide (q = p)) as [->|]; [|apply Hall; [lia|done]].
      split; [lia|]. split; [done|]. intros _. rewrite He. congruence.
  - assert (Hne : ~ escaped s p) by (intros (_ & H1 & _); congruence).
    by destruct (bool_decide (p = S i) && negb false).
Qed.

(** strpbrk_esc returns the first stop that is not right after a single
    backslash; the one input it cannot handle is a string that starts with a
    backslash and a stop, where it reads before the string. *)
Theorem strpbrk_esc_first s st : cBSLASH ∉ st ->
  match strpbrk_esc s st with
  | Ok (Some p) => stop_at s st p /\ ~ escaped s p /\ forall q, (q < p)%nat -> stop_at s st q -> escaped s q
  | Ok None => forall q, stop_at s st q -> escaped s q
  | Oob => s !! 0%nat = Some cBSLASH /\ stop_at s st 1
  | Err _ => False
  end.
Proof. intros Hst. apply strpbrk_esc_loop_ok; [done|lia|by left|lia]. Qed.

(** [\:] with the stop [:]. *)
Theorem strpbrk_esc_underread : strpbrk_esc [cBSLASH; 58] [58] = Oob.
Proof. reflexivity. Qed.
