(* ===== verification/Strfilter.v ===== *)
(** Model of util/strfilter.c: filters over names, written as glob patterns
    combined by [&], [|], [!] and parentheses.

    The parser links nodes through the pointers [cur] and [last_op], which both
    lie on the right spine of the tree under construction.  The state is that
    spine: [above] are the operators from last_op up to the root, with their left
    operands, [nots] the negations between last_op and cur, and [hole] is
    cur->r.  Allocations are numbered and may fail; reading beyond the end of
    the rules is a result of its own. *)

From S2P Require Import Prelude Strings.

(** * Data *)

Inductive op := OP_and | OP_or.

Inductive node :=
| Leaf (p : cstr)
| Not (r : node)
| Bin (o : op) (l r : node).

Definition cAMP : Z := 38.
Definition cPIPE : Z := 124.
Definition cLPAR : Z := 40.
Definition cRPAR : Z := 41.

Definition op_char (o : op) : Z := match o with OP_and => cAMP | OP_or => cPIPE end.

Definition is_operator (c : Z) : bool := (c =? cPIPE) || (c =? cAMP) || (c =? cBANG).
Definition is_separator (c : Z) : bool := is_operator c || (c =? cLPAR) || (c =? cRPAR).

(** * Tokens *)

(** The loop from the label retry; [prev] is [*(p - 1)].  [None] is a read beyond
    the end of the string. *)
Fixpoint token_end (prev : Z) (p : cstr) : option cstr :=
  match p with
  | [] => if prev =? cBSLASH then None else Some []
  | d :: p' =>
      if is_separator d || isspace d then
        if (prev =? cBSLASH) || ((d =? cBANG) && (prev =? cLBRACK)) then token_end d p'
        else Some p
      else token_end d p'
  end.

(** The token and what follows it. *)
Definition get_token (s : cstr) : option (cstr * cstr) :=
  let s := skip_sep s in
  match s with
  | [] => Some (s, s)
  | c :: p => if is_separator c then Some (s, p) else e ← token_end c p; Some (s, e)
  end.

(** * Parsing *)

Record spine := Spine { above : list (op * node); nots : nat; hole : option node }.

Fixpoint negate (n : nat) (t : node) : node :=
  match n with O => t | S n => Not (negate n t) end.

(** The tree below the root when [t] hangs below last_op. *)
Fixpoint plug (ab : list (op * node)) (t : node) : node :=
  match ab with
  | [] => t
  | (o, l) :: ab => plug ab (Bin o l t)
  end.

Inductive parse_result :=
| PTree (t : node) (ep : cstr) (k : nat)
| PError (ep : cstr)
| PNoMem
| POverread
| PFuel.

Section Parse.
Variable alloc_ok : nat -> bool.

(** strfilter_node__new from the point where the next token is taken, with the
    spine built so far; [k] counts the allocations.  A turn consumes a token. *)
Fixpoint parse_loop (fuel : nat) (k : nat) (sp : spine) (input : cstr) : parse_result :=
  match fuel with
  | O => PFuel
  | S fuel =>
      match get_token input with
      | None => POverread
      | Some (s, e) =>
          let c := deref s in
          if (c =? 0) || (c =? cRPAR) then
            match hole sp with
            | None => PError s
            | Some t => PTree (plug (above sp) (negate (nots sp) t)) s k
            end
          else if c =? cAMP then
            match hole sp with
            | None => PError s
            | Some t =>
                if alloc_ok k
                then parse_loop fuel (S k)
                       (Spine ((OP_and, negate (nots sp) t) :: above sp) 0 None) e
                else PNoMem
            end
          else if c =? cPIPE then
            match hole sp with
            | None => PError s
            | Some t =>
                if alloc_ok k
                then parse_loop fuel (S k)
                       (Spine [(OP_or, plug (above sp) (negate (nots sp) t))] 0 None) e
                else PNoMem
            end
          else
            match hole sp with
            | Some _ => PError s
            | None =>
                if c =? cBANG then
                  if alloc_ok k
                  then parse_loop fuel (S k) (Spine (above sp) (S (nots sp)) None) e
                  else PNoMem
                else if c =? cLPAR then
                  match parse_loop fuel k (Spine [] 0 None) (tail s) with
                  | PTree t ep k =>
                      if deref ep =? cRPAR
                      then parse_loop fuel k (Spine (above sp) (nots sp) (Some t)) (tail ep)
                      else PError ep
                  | r => r
                  end
                else if alloc_ok k then
                  if alloc_ok (S k)
                  then parse_loop fuel (S (S k))
                         (Spine (above sp) (nots sp) (Some (Leaf (take (length s - length e) s)))) e
                  else PNoMem
                else PNoMem
            end
      end
  end.

Definition strfilter_node__new (k : nat) (s : cstr) : parse_result :=
  parse_loop (S (length s)) k (Spine [] 0 None) s.

(** The filter, or NULL with the value of [*err]: [Some None] is NULL. *)
Definition strfilter__new (rules : cstr) : res (node + option cstr) :=
  if negb (alloc_ok 0) then Ok (inr None) else
  match strfilter_node__new 1 rules with
  | PTree t [] _ => Ok (inl t)
  | PTree _ ep _ => Ok (inr (Some ep))
  | PError ep => Ok (inr (Some ep))
  | PNoMem => Ok (inr None)
  | POverread => Oob
  | PFuel => Err 0
  end.

Definition EINVAL : Z := 22.
Definition ENOMEM : Z := 12.

(** The new root and the return value. *)
Definition strfilter__append (root : node) (_or : bool) (rules : cstr) : res (node * Z) :=
  match strfilter_node__new 0 rules with
  | PTree rt [] k =>
      if alloc_ok k then Ok (Bin (if _or then OP_or else OP_and) root rt, 0)
      else Ok (root, - ENOMEM)
  | PTree _ _ _ => Ok (root, - EINVAL)
  | PError _ => Ok (root, - EINVAL)
  | PNoMem => Ok (root, - ENOMEM)
  | POverread => Oob
  | PFuel => Err 0
  end.

Definition strfilter__or (root : node) (rules : cstr) := strfilter__append root true rules.
Definition strfilter__and (root : node) (rules : cstr) := strfilter__append root false rules.
End Parse.

(** * Comparing *)

Fixpoint strfilter_node__compare (n : node) (str : cstr) : res bool :=
  match n with
  | Bin OP_or l r =>
      b ← strfilter_node__compare l str;
      if b : bool then Ok true else strfilter_node__compare r str
  | Bin OP_and l r =>
      b ← strfilter_node__compare l str;
      if b : bool then strfilter_node__compare r str else Ok false
  | Not r => b ← strfilter_node__compare r str; Ok (negb b)
  | Leaf p => strglobmatch str p
  end.

Definition strfilter__compare (filter : option node) (str : cstr) : res bool :=
  match filter with None => Ok false | Some root => strfilter_node__compare root str end.

(** * Printing *)

(** node->r is set. *)
Definition has_r (n : node) : bool := match n with Leaf _ => false | _ => true end.

(** The first pass, with [buf] NULL: the length. *)
Fixpoint sprint_len (n : node) : Z :=
  let pt n := if has_r n then 2 else 0 in
  match n with
  | Leaf p => zlen p
  | Not r => 1 + (sprint_len r + pt r)
  | Bin _ l r => (sprint_len l + pt l) + 1 + (sprint_len r + pt r)
  end.

(** The second pass writes into memory that malloc left uninitialised: a byte is
    [None] until it is written, and a write outside is [None]. *)
Abbreviation buffer := (list (option Z)) (only parsing).

Definition put (b : buffer) (off : nat) (c : Z) : option buffer :=
  if decide (off < length b)%nat then Some (<[off := Some c]> b) else None.

Fixpoint put_all (b : buffer) (off : nat) (cs : cstr) : option buffer :=
  match cs with
  | [] => Some b
  | c :: cs => b ← put b off c; put_all b (S off) cs
  end.

(** strfilter_node__sprint_pt, given strfilter_node__sprint of its node. *)
Definition sprint_pt (pt : bool) (sprint : buffer -> nat -> option (buffer * nat))
    (b : buffer) (off : nat) : option (buffer * nat) :=
  if pt then
    b ← put b off cLPAR;
    '(b, len) ← sprint b (S off);
    b ← put b (S off + len) cRPAR;
    Some (b, (len + 2)%nat)
  else sprint b off.

Fixpoint strfilter_node__sprint (n : node) (b : buffer) (off : nat) : option (buffer * nat) :=
  match n with
  | Leaf p => b ← put_all b off (p ++ [0]); Some (b, length p)
  | Not r =>
      b ← put b off cBANG;
      '(b, rlen) ← sprint_pt (has_r r) (strfilter_node__sprint r) b (S off);
      Some (b, (1 + rlen)%nat)
  | Bin o l r =>
      '(b, len) ← sprint_pt (has_r l) (strfilter_node__sprint l) b off;
      b ← put b (off + len) (op_char o);
      '(b, rlen) ← sprint_pt (has_r r) (strfilter_node__sprint r) b (off + S len);
      Some (b, (S len + rlen)%nat)
  end.

(** The memory that strfilter__string returns. *)
Definition strfilter__string (root : node) : option buffer :=
  let len := Z.to_nat (sprint_len root) in
  '(b, _) ← strfilter_node__sprint root (replicate (len + 1) None) 0; Some b.

(** * What is printed *)

Fixpoint text (n : node) : cstr :=
  let textp n := if has_r n then cLPAR :: text n ++ [cRPAR] else text n in
  match n with
  | Leaf p => p
  | Not r => cBANG :: textp r
  | Bin o l r => textp l ++ op_char o :: textp r
  end.

Definition textp (n : node) : cstr := if has_r n then cLPAR :: text n ++ [cRPAR] else text n.

Lemma text_Not r : text (Not r) = cBANG :: textp r.
Proof. done. Qed.
Lemma text_Bin o l r : text (Bin o l r) = textp l ++ op_char o :: textp r.
Proof. done. Qed.

Lemma sprint_len_text n : sprint_len n = zlen (text n).
Proof.
  assert (Hp : forall n, sprint_len n = zlen (text n) ->
    sprint_len n + (if has_r n then 2 else 0) = zlen (textp n)).
  { intros m Hm. unfold textp. destruct (has_r m); zlens; lia. }
  induction n as [p|r IH|o l IHl r IHr]; [done|..].
  - rewrite text_Not, zlen_cons. cbn [sprint_len]. by rewrite Hp.
  - rewrite text_Bin, zlen_app, zlen_cons. cbn [sprint_len]. rewrite !Hp by done. lia.
Qed.

(** The buffer after [cs] was written at [off]. *)
Definition written (b : buffer) (off : nat) (cs : list (option Z)) : buffer :=
  take off b ++ cs ++ drop (off + length cs) b.

Lemma length_written b off cs : (off + length cs <= length b)%nat -> length (written b off cs) = length b.
Proof. intros Hl. unfold written. rewrite !length_app, length_take, length_drop. lia. Qed.

Lemma written_nil b off : written b off [] = b.
Proof. unfold written. cbn. rewrite Nat.add_0_r. apply take_drop. Qed.

Lemma put_written b off c : (off < length b)%nat -> put b off c = Some (written b off [Some c]).
Proof.
  intros Hl. unfold put. rewrite decide_True by done. f_equal. unfold written.
  rewrite insert_take_drop by done. cbn. by rewrite Nat.add_1_r.
Qed.

(** Two writes, the second one over the end of the first. *)
Lemma written_written b off cs ds k :
  (k <= length cs)%nat -> (length cs <= k + length ds)%nat -> (off + k + length ds <= length b)%nat ->
  written (written b off cs) (off + k) ds = written b off (take k cs ++ ds).
Proof.
  intros Hk Hd Hb. unfold written.
  rewrite take_app, length_take, (Nat.min_l off) by lia.
  rewrite (take_ge (take off b)) by (rewrite length_take; lia).
  replace (off + k - off)%nat with k by lia. rewrite take_app_le by done.
  rewrite <- !app_assoc. do 3 f_equal.
  rewrite app_assoc, drop_app_ge by (rewrite length_app, length_take; lia).
  rewrite length_app, length_take, drop_drop. rewrite length_app, length_take. f_equal. lia.
Qed.

Lemma put_all_written b off cs : (off + length cs <= length b)%nat ->
  put_all b off cs = Some (written b off (Some <$> cs)).
Proof.
  revert b off; induction cs as [|c cs IH]; intros b off Hl; cbn [put_all]; [by rewrite written_nil|].
  cbn in Hl. rewrite put_written by lia. mred. rewrite IH by (rewrite length_written; cbn; lia).
  f_equal. rewrite <- Nat.add_1_r. rewrite (written_written b off [Some c] (Some <$> cs) 1);
    rewrite ?length_fmap; cbn; try lia. done.
Qed.

(** The last byte written is the NUL of a pattern. *)
Definition ends_nul (n : node) : bool :=
  match n with Leaf _ => true | Not r => negb (has_r r) | Bin _ _ r => negb (has_r r) end.

Definition nul (b : bool) : buffer := if b then [Some 0] else [].

Definition sprints (f : buffer -> nat -> option (buffer * nat)) (t : cstr) (z : bool) : Prop :=
  forall b off, (off + length t < length b)%nat ->
    f b off = Some (written b off ((Some <$> t) ++ nul z), length t).

Lemma take_text (t : cstr) (z : buffer) : take (length t) ((Some <$> t) ++ z) = Some <$> t.
Proof. by rewrite take_app_length' by (by rewrite length_fmap). Qed.

Lemma nul_length z : (length (nul z) <= 1)%nat.
Proof. destruct z; cbn; lia. Qed.

(** A write right after a text, over its NUL. *)
Lemma written_after b off t z ds : ds <> [] -> (off + length t + length ds <= length b)%nat ->
  written (written b off ((Some <$> t) ++ nul z)) (off + length t) ds =
    written b off ((Some <$> t) ++ ds).
Proof.
  intros Hd Hb. pose proof (nul_length z). destruct ds as [|d ds]; [done|].
  rewrite written_written; rewrite ?length_app, ?length_fmap; cbn [length] in *; try lia.
  by rewrite take_text.
Qed.

Lemma sprints_length b off t z : (off + length t < length b)%nat ->
  length (written b off ((Some <$> t) ++ nul z)) = length b.
Proof. intros Hl. apply length_written. rewrite length_app, length_fmap. pose proof (nul_length z). lia. Qed.

Lemma sprint_pt_ok n f : sprints f (text n) (ends_nul n) ->
  sprints (sprint_pt (has_r n) f) (textp n) (negb (has_r n)).
Proof.
  intros Hf b off Hl. unfold sprint_pt, textp in *. destruct (has_r n) eqn:Hr.
  - cbn [length] in Hl. rewrite length_app in Hl. cbn [length] in Hl.
    rewrite put_written by lia. mred.
    assert (Hlen : length (written b off [Some cLPAR]) = length b) by (apply length_written; cbn; lia).
    rewrite Hf by lia. mred. rewrite put_written by (rewrite sprints_length; lia). mred.
    rewrite written_after by (done || cbn; lia). f_equal. f_equal.
    + rewrite <- Nat.add_1_r. rewrite written_written; cbn [length take]; rewrite ?length_app, ?length_fmap; cbn; try lia.
      by rewrite fmap_app, app_nil_r.
    + cbn. rewrite length_app. cbn. lia.
  - destruct n; try done. cbn [negb ends_nul] in *. by apply Hf.
Qed.

Lemma sprint_ok n : sprints (strfilter_node__sprint n) (text n) (ends_nul n).
Proof.
  induction n as [p|r IH|o l IHl r IHr]; intros b off Hl.
  - cbn [strfilter_node__sprint text ends_nul nul] in *.
    rewrite put_all_written by (rewrite length_app; cbn; lia). mred. by rewrite fmap_app.
  - rewrite text_Not in *. cbn [strfilter_node__sprint length ends_nul] in *.
    rewrite put_written by lia. mred. rewrite (sprint_pt_ok r _ IH); cycle 1.
    { rewrite length_written; cbn; lia. }
    mred. f_equal. f_equal. rewrite <- Nat.add_1_r. pose proof (nul_length (negb (has_r r))).
    rewrite written_written; cbn [length take]; rewrite ?length_app, ?length_fmap; cbn; try lia. done.
  - rewrite text_Bin in *. rewrite length_app in *. cbn [strfilter_node__sprint length ends_nul] in *.
    rewrite (sprint_pt_ok l _ IHl) by lia. mred.
    rewrite put_written by (rewrite sprints_length; lia). mred.
    rewrite written_after by (done || cbn; lia).
    rewrite (sprint_pt_ok r _ IHr); cycle 1.
    { rewrite length_written; [lia|]. rewrite length_app, length_fmap. cbn. lia. }
    mred. f_equal. f_equal; [|lia]. pose proof (nul_length (negb (has_r r))).
    rewrite written_written; rewrite ?length_app, ?length_fmap; cbn [length]; try lia.
    rewrite take_ge by (rewrite length_app, length_fmap; cbn; lia).
    by rewrite fmap_app, <- !app_assoc.
Qed.

(** strfilter__string writes inside its buffer; the bytes before the last are the
    text of the filter, and the last one is a NUL, or was never written. *)
Lemma strfilter__string_ok n :
  strfilter__string n = Some ((Some <$> text n) ++ [if ends_nul n then Some 0 else None]).
Proof.
  unfold strfilter__string. rewrite sprint_len_text. unfold zlen. rewrite Nat2Z.id.
  rewrite sprint_ok by (rewrite length_replicate; lia). mred. f_equal.
  unfold written. rewrite take_0. cbn [app Nat.add]. rewrite <- app_assoc, length_app, length_fmap.
  f_equal. destruct (ends_nul n); cbn [nul length app].
  - by rewrite drop_ge by (rewrite length_replicate; lia).
  - rewrite drop_replicate. by replace (length (text n) + 1 - (length (text n) + 0))%nat with 1%nat by lia.
Qed.

(** * The grammar *)

(** Rules as they are written: [&] binds tighter than [|], [!] tighter than both;
    every token may have spaces before it. *)
Inductive alt :=
| AltOne (c : cnj)
| AltMore (a : alt) (ws : cstr) (c : cnj)
with cnj :=
| ConjOne (u : unary)
| ConjMore (u : unary) (ws : cstr) (c : cnj)
with unary :=
| UNot (ws : cstr) (u : unary)
| UPar (ws : cstr) (a : alt) (ws' : cstr)
| UPat (ws : cstr) (p : cstr).

Fixpoint alt_text (a : alt) : cstr :=
  match a with
  | AltOne c => cnj_text c
  | AltMore a ws c => alt_text a ++ ws ++ cPIPE :: cnj_text c
  end
with cnj_text (c : cnj) : cstr :=
  match c with
  | ConjOne u => unary_text u
  | ConjMore u ws c => unary_text u ++ ws ++ cAMP :: cnj_text c
  end
with unary_text (u : unary) : cstr :=
  match u with
  | UNot ws u => ws ++ cBANG :: unary_text u
  | UPar ws a ws' => ws ++ cLPAR :: alt_text a ++ ws' ++ [cRPAR]
  | UPat ws p => ws ++ p
  end.

(** The tree: [|] groups to the left, [&] to the right. *)
Fixpoint alt_tree (a : alt) : node :=
  match a with
  | AltOne c => cnj_tree c
  | AltMore a _ c => Bin OP_or (alt_tree a) (cnj_tree c)
  end
with cnj_tree (c : cnj) : node :=
  match c with
  | ConjOne u => unary_tree u
  | ConjMore u _ c => Bin OP_and (unary_tree u) (cnj_tree c)
  end
with unary_tree (u : unary) : node :=
  match u with
  | UNot _ u => Not (unary_tree u)
  | UPar _ a _ => alt_tree a
  | UPat _ p => Leaf p
  end.

(** A pattern that is one token: its separators and spaces are escaped, or a [!]
    after a bracket, and it does not end in a backslash. *)
Fixpoint pat_rest (prev : Z) (p : cstr) : bool :=
  match p with
  | [] => negb (prev =? cBSLASH)
  | d :: p =>
      (if is_separator d || isspace d
       then (prev =? cBSLASH) || ((d =? cBANG) && (prev =? cLBRACK)) else true) && pat_rest d p
  end.

Definition pat_ok (p : cstr) : bool :=
  match p with
  | [] => false
  | c :: p' => negb (c =? 0) && negb (is_separator c) && negb (isspace c) && pat_rest c p'
  end.

Definition spaces (ws : cstr) : bool := forallb isspace ws.

Fixpoint alt_ok (a : alt) : bool :=
  match a with
  | AltOne c => cnj_ok c
  | AltMore a ws c => alt_ok a && spaces ws && cnj_ok c
  end
with cnj_ok (c : cnj) : bool :=
  match c with
  | ConjOne u => unary_ok u
  | ConjMore u ws c => unary_ok u && spaces ws && cnj_ok c
  end
with unary_ok (u : unary) : bool :=
  match u with
  | UNot ws u => spaces ws && unary_ok u
  | UPar ws a ws' => spaces ws && alt_ok a && spaces ws'
  | UPat ws p => spaces ws && pat_ok p
  end.

Scheme alt_mut := Induction for alt Sort Prop
with cnj_mut := Induction for cnj Sort Prop
with unary_mut := Induction for unary Sort Prop.
Combined Scheme grammar_ind from alt_mut, cnj_mut, unary_mut.

(** What may follow a complete operand. *)
Definition follows (rest : cstr) : Prop :=
  match rest with
  | [] => True
  | c :: _ => c = cAMP \/ c = cPIPE \/ c = cRPAR \/ isspace c = true
  end.

Lemma spaces_app ws rest : spaces ws = true -> skip_sep (ws ++ rest) = skip_sep rest.
Proof.
  induction ws as [|c ws IH]; cbn; [done|]. intros [-> Hw]%andb_true_iff. by apply IH.
Qed.

Lemma follows_spaces ws c rest : spaces ws = true ->
  c = cAMP \/ c = cPIPE \/ c = cRPAR -> follows (ws ++ c :: rest).
Proof.
  destruct ws as [|d ws]; cbn; [tauto|]. intros [? _]%andb_true_iff _. auto.
Qed.

Lemma get_token_sep ws c rest : spaces ws = true -> is_separator c = true -> isspace c = false ->
  get_token (ws ++ c :: rest) = Some (c :: rest, rest).
Proof. intros Hw Hc Hs. unfold get_token. rewrite spaces_app by done. cbn. by rewrite Hs, Hc. Qed.

Lemma token_end_pat p rest : forall prev, pat_rest prev p = true -> follows rest ->
  token_end prev (p ++ rest) = Some rest.
Proof.
  induction p as [|d p IH]; intros prev Hp Hf; cbn in Hp |- *.
  - destruct rest as [|c rest]; cbn [token_end]; apply negb_true_iff in Hp; rewrite Hp; [done|].
    cbn [orb].
    destruct Hf as [->|[->|[->|Hs]]]; try done. rewrite Hs, orb_true_r.
    destruct (Z.eqb_spec c cBANG) as [->|]; [|done]. by vm_compute in Hs.
  - apply andb_true_iff in Hp as [Hd Hp]. destruct (is_separator d || isspace d); [rewrite Hd|]; by apply IH.
Qed.

Lemma get_token_pat ws p rest : spaces ws = true -> pat_ok p = true -> follows rest ->
  get_token (ws ++ p ++ rest) = Some (p ++ rest, rest).
Proof.
  intros Hw Hp Hf. unfold get_token. rewrite spaces_app by done. destruct p as [|c p]; [done|].
  cbn in Hp. rewrite !andb_true_iff, !negb_true_iff in Hp. destruct Hp as (((Hz & Hsep) & Hs) & Hr).
  cbn [app skip_sep]. rewrite Hs, Hsep. by rewrite token_end_pat.
Qed.

(** The number of tokens bounds the turns. *)
Fixpoint alt_size (a : alt) : nat :=
  match a with
  | AltOne c => cnj_size c
  | AltMore a _ c => alt_size a + S (cnj_size c)
  end
with cnj_size (c : cnj) : nat :=
  match c with
  | ConjOne u => unary_size u
  | ConjMore u _ c => unary_size u + S (cnj_size c)
  end
with unary_size (u : unary) : nat :=
  match u with
  | UNot _ u => S (unary_size u)
  | UPar _ a _ => S (S (alt_size a))
  | UPat _ _ => 1
  end%nat.

Lemma negate_S n t : negate (S n) t = negate n (Not t).
Proof. induction n as [|n IH]; cbn in *; [done|]. by rewrite <- IH. Qed.

Section ParseOk.
Variable alloc_ok : nat -> bool.
Hypothesis Hmem : forall k, alloc_ok k = true.
#[local] Abbreviation loop := (parse_loop alloc_ok).

(** One turn on an operator or a parenthesis. *)
Lemma loop_sep f k sp ws c rest : spaces ws = true -> is_separator c = true -> isspace c = false ->
  loop (S f) k sp (ws ++ c :: rest) =
    if c =? cRPAR then
      match hole sp with
      | None => PError (c :: rest)
      | Some t => PTree (plug (above sp) (negate (nots sp) t)) (c :: rest) k
      end
    else if c =? cAMP then
      match hole sp with
      | None => PError (c :: rest)
      | Some t => loop f (S k) (Spine ((OP_and, negate (nots sp) t) :: above sp) 0 None) rest
      end
    else if c =? cPIPE then
      match hole sp with
      | None => PError (c :: rest)
      | Some t => loop f (S k) (Spine [(OP_or, plug (above sp) (negate (nots sp) t))] 0 None) rest
      end
    else
      match hole sp with
      | Some _ => PError (c :: rest)
      | None =>
          if c =? cBANG then loop f (S k) (Spine (above sp) (S (nots sp)) None) rest
          else
            match loop f k (Spine [] 0 None) rest with
            | PTree t ep k =>
                if deref ep =? cRPAR
                then loop f k (Spine (above sp) (nots sp) (Some t)) (tail ep)
                else PError ep
            | r => r
            end
      end.
Proof using Hmem.
  intros Hw Hc Hs. cbn [parse_loop]. rewrite get_token_sep by done. cbn [deref tail].
  unfold is_separator, is_operator in Hc.
  destruct (Z.eqb_spec c 0) as [->|]; [done|]. cbn [orb].
  destruct (c =? cRPAR) eqn:E1; [done|]. destruct (c =? cAMP) eqn:E2; [by rewrite Hmem|].
  destruct (c =? cPIPE) eqn:E3; [by rewrite Hmem|]. destruct (hole sp); [done|].
  destruct (c =? cBANG) eqn:E4; [by rewrite Hmem|]. by destruct (c =? cLPAR).
Qed.

Lemma loop_pat f k ab n ws p rest : spaces ws = true -> pat_ok p = true -> follows rest ->
  loop (S f) k (Spine ab n None) (ws ++ p ++ rest) = loop f (S (S k)) (Spine ab n (Some (Leaf p))) rest.
Proof using Hmem.
  intros Hw Hp Hf. cbn [parse_loop]. rewrite get_token_pat by done. cbn [hole above nots].
  rewrite length_app, Nat.add_sub, take_app_length, !Hmem.
  destruct p as [|c p]; [done|]. cbn in Hp. rewrite !andb_true_iff, !negb_true_iff in Hp.
  destruct Hp as (((Hz & Hsep) & _) & _). unfold is_separator, is_operator in Hsep.
  rewrite !orb_false_iff in Hsep. destruct Hsep as ((((Hp1 & Hp2) & Hp3) & Hp4) & Hp5).
  cbn [app deref]. by rewrite Hz, Hp1, Hp2, Hp3, Hp4, Hp5.
Qed.

Lemma grammar_parsed :
  (forall a, alt_ok a = true -> forall f k rest, follows rest -> (alt_size a <= f)%nat ->
    exists f' k' ab n t, loop f k (Spine [] 0 None) (alt_text a ++ rest) = loop f' k' (Spine ab n (Some t)) rest /\
      plug ab (negate n t) = alt_tree a /\ (f <= f' + alt_size a)%nat) /\
  (forall c, cnj_ok c = true -> forall f k ab rest, follows rest -> (cnj_size c <= f)%nat ->
    exists f' k' ab' n t, loop f k (Spine ab 0 None) (cnj_text c ++ rest) = loop f' k' (Spine ab' n (Some t)) rest /\
      plug ab' (negate n t) = plug ab (cnj_tree c) /\ (f <= f' + cnj_size c)%nat) /\
  (forall u, unary_ok u = true -> forall f k ab n rest, follows rest -> (unary_size u <= f)%nat ->
    exists f' k' n' t, loop f k (Spine ab n None) (unary_text u ++ rest) = loop f' k' (Spine ab n' (Some t)) rest /\
      negate n' t = negate n (unary_tree u) /\ (f <= f' + unary_size u)%nat).
Proof using Hmem.
  apply grammar_ind; cbn [alt_ok cnj_ok unary_ok alt_text cnj_text unary_text alt_tree cnj_tree
    unary_tree alt_size cnj_size unary_size].
  - intros c IH Hok f k rest Hf Hs. apply (IH Hok f k [] rest Hf Hs).
  - intros a IHa ws c IHc ((Ha & Hw)%andb_true_iff & Hc)%andb_true_iff f k rest Hf Hs.
    rewrite <- !app_assoc. cbn [app].
    destruct (IHa Ha f k (ws ++ cPIPE :: cnj_text c ++ rest)) as (f1 & k1 & ab & n & t & -> & Ht & Hf1);
      [apply follows_spaces; auto|lia|]. destruct f1 as [|f1]; [lia|].
    rewrite loop_sep by done. cbn [hole above nots]. cbn [Z.eqb Pos.eqb cPIPE cRPAR cAMP].
    rewrite Ht. destruct (IHc Hc f1 (S k1) [(OP_or, alt_tree a)] rest Hf) as (f2 & k2 & ab2 & n2 & t2 & He & Ht2 & ?); [lia|].
    exists f2, k2, ab2, n2, t2. split; [exact He|]. split; [done|lia].
  - intros u IH Hok f k ab rest Hf Hs.
    destruct (IH Hok f k ab 0%nat rest Hf Hs) as (f' & k' & n' & t & He & Ht & ?).
    exists f', k', ab, n', t. split; [exact He|]. split; [|done]. by rewrite Ht.
  - intros u IHu ws c IHc ((Hu & Hw)%andb_true_iff & Hc)%andb_true_iff f k ab rest Hf Hs.
    rewrite <- !app_assoc. cbn [app].
    destruct (IHu Hu f k ab 0%nat (ws ++ cAMP :: cnj_text c ++ rest)) as (f1 & k1 & n & t & -> & Ht & Hf1);
      [apply follows_spaces; auto|lia|]. destruct f1 as [|f1]; [lia|].
    rewrite loop_sep by done. cbn [hole above nots]. cbn [Z.eqb Pos.eqb cRPAR cAMP].
    cbn [negate] in Ht. rewrite Ht.
    destruct (IHc Hc f1 (S k1) ((OP_and, unary_tree u) :: ab) rest Hf) as (f2 & k2 & ab2 & n2 & t2 & He & Ht2 & ?); [lia|].
    exists f2, k2, ab2, n2, t2. split; [exact He|]. split; [done|lia].
  - intros ws u IH [Hw Hu]%andb_true_iff f k ab n rest Hf Hs. rewrite <- app_assoc. cbn [app].
    destruct f as [|f]; [lia|]. rewrite loop_sep by done. cbn [hole above nots].
    cbn [Z.eqb Pos.eqb cRPAR cAMP cPIPE cBANG].
    destruct (IH Hu f (S k) ab (S n) rest Hf) as (f' & k' & n' & t & He & Ht & ?); [lia|].
    exists f', k', n', t. split; [exact He|]. split; [by rewrite Ht, negate_S|lia].
  - intros ws a IH ws' ((Hw & Ha)%andb_true_iff & Hw')%andb_true_iff f k ab n rest Hf Hs.
    rewrite <- !app_assoc. cbn [app]. rewrite <- !app_assoc. cbn [app].
    destruct f as [|f]; [lia|]. rewrite loop_sep by done. cbn [hole above nots].
    cbn [Z.eqb Pos.eqb cRPAR cAMP cPIPE cBANG cLPAR].
    destruct (IH Ha f k (ws' ++ cRPAR :: rest)) as (f1 & k1 & ab1 & n1 & t1 & -> & Ht & Hf1);
      [apply follows_spaces; auto|lia|]. destruct f1 as [|f1]; [lia|].
    rewrite loop_sep by done. cbn [hole above nots]. cbn [Z.eqb Pos.eqb cRPAR deref tail].
    rewrite Ht. exists f, k1, n, (alt_tree a). split; [done|]. split; [done|lia].
  - intros ws p [Hw Hp]%andb_true_iff f k ab n rest Hf Hs. rewrite <- app_assoc.
    destruct f as [|f]; [lia|]. rewrite loop_pat by done. eexists f, _, n, (Leaf p).
    split; [done|]. split; [done|lia].
Qed.

Lemma sizes_le :
  (forall a, alt_ok a = true -> (alt_size a <= length (alt_text a))%nat) /\
  (forall c, cnj_ok c = true -> (cnj_size c <= length (cnj_text c))%nat) /\
  (forall u, unary_ok u = true -> (unary_size u <= length (unary_text u))%nat).
Proof using.
  apply grammar_ind; cbn [alt_ok cnj_ok unary_ok alt_text cnj_text unary_text alt_size cnj_size unary_size];
    try done; intros; rewrite ?length_app in *; cbn [length] in *; rewrite ?length_app in *; cbn [length] in *;
    repeat match goal with H : _ && _ = true |- _ => apply andb_true_iff in H as [? ?] end;
    repeat match goal with IH : ?b = true -> _, H : ?b = true |- _ => specialize (IH H) end; try lia.
  destruct p; [done|cbn; lia].
Qed.

Lemma new_parses a : alt_ok a = true -> strfilter__new alloc_ok (alt_text a) = Ok (inl (alt_tree a)).
Proof using Hmem.
  intros Hok. unfold strfilter__new, strfilter_node__new. rewrite Hmem. cbn [negb].
  destruct sizes_le as (Hs & _ & _). specialize (Hs a Hok).
  destruct grammar_parsed as (Hp & _ & _).
  destruct (Hp a Hok (S (length (alt_text a))) 1%nat []) as (f' & k' & ab & n & t & He & Ht & ?); [done|lia|].
  rewrite app_nil_r in He. rewrite He. destruct f' as [|f']; [lia|]. cbn. by rewrite Ht.
Qed.
End ParseOk.

(** * Theorems *)

(** What a filter means: the reference matcher at its leaves. *)
Fixpoint accepts (n : node) (str : cstr) : bool :=
  match n with
  | Leaf p => match tokens p with Some ts => gmatch false ts str | None => false end
  | Not r => negb (accepts r str)
  | Bin OP_or l r => accepts l str || accepts r str
  | Bin OP_and l r => accepts l str && accepts r str
  end.

(** Every leaf is a pattern of correct syntax. *)
Fixpoint globs_ok (n : node) : Prop :=
  match n with
  | Leaf p => cstr_ok p /\ is_Some (tokens p)
  | Not r => globs_ok r
  | Bin _ l r => globs_ok l /\ globs_ok r
  end.

Lemma compare_accepts n str : globs_ok n -> strfilter_node__compare n str = Ok (accepts n str).
Proof.
  induction n as [p|r IH|o l IHl r IHr]; cbn [globs_ok strfilter_node__compare accepts].
  - intros [Hok [ts Ht]]. rewrite Ht. unfold strglobmatch. apply match_glob_ok; [done| |unfold glob_fuel; lia].
    eapply Forall_impl; [exact Hok|]. cbn; lia.
  - intros H. by rewrite IH.
  - intros [Hl Hr]. destruct o; rewrite IHl by done; cbn [mbind res_bind];
      destruct (accepts l str); cbn [andb orb]; auto.
Qed.

(** C28: rules written in the grammar (with [!] tighter than [&] tighter than [|],
    any parentheses and spaces) are accepted by strfilter__new and give the tree
    of the grammar; comparing a name with it gives the boolean combination of
    the matches of its patterns. *)
Theorem strfilter_rules_mean a alloc_ok :
  alt_ok a = true -> globs_ok (alt_tree a) -> (forall k, alloc_ok k = true) ->
  strfilter__new alloc_ok (alt_text a) = Ok (inl (alt_tree a)) /\
  forall str, strfilter__compare (Some (alt_tree a)) str = Ok (accepts (alt_tree a) str).
Proof.
  intros Hok Hg Hm. split; [by apply new_parses|]. intros str. by apply compare_accepts.
Qed.

(** [a* | !b & (c|d)] *)
Definition example_rules : alt :=
  AltMore (AltOne (ConjOne (UPat [] [97; 42]))) [32]
    (ConjMore (UNot [32] (UPat [] [98])) [32]
       (ConjOne (UPar [32] (AltMore (AltOne (ConjOne (UPat [] [99]))) [] (ConjOne (UPat [] [100]))) []))).

Lemma strfilter_rules_mean_witness :
  strfilter__new (fun _ => true) (alt_text example_rules) = Ok (inl (alt_tree example_rules)) /\
  forall str, strfilter__compare (Some (alt_tree example_rules)) str = Ok (accepts (alt_tree example_rules) str).
Proof.
  apply strfilter_rules_mean; [vm_compute; reflexivity| |done].
  repeat split; try (repeat constructor; lia); eexists; vm_compute; reflexivity.
Defined.

(** The rules that strfilter__string prints. *)
Fixpoint printed (n : node) : alt :=
  let operand n := match n with Leaf p => UPat [] p | _ => UPar [] (printed n) [] end in
  match n with
  | Leaf p => AltOne (ConjOne (UPat [] p))
  | Not r => AltOne (ConjOne (UNot [] (operand r)))
  | Bin OP_and l r => AltOne (ConjMore (operand l) [] (ConjOne (operand r)))
  | Bin OP_or l r => AltMore (AltOne (ConjOne (operand l))) [] (ConjOne (operand r))
  end.

Definition operand (n : node) : unary :=
  match n with Leaf p => UPat [] p | _ => UPar [] (printed n) [] end.

Fixpoint leaves_ok (n : node) : bool :=
  match n with
  | Leaf p => pat_ok p
  | Not r => leaves_ok r
  | Bin _ l r => leaves_ok l && leaves_ok r
  end.

Lemma operand_spec n : alt_text (printed n) = text n -> alt_tree (printed n) = n ->
  alt_ok (printed n) = leaves_ok n ->
  unary_text (operand n) = textp n /\ unary_tree (operand n) = n /\ unary_ok (operand n) = leaves_ok n.
Proof.
  intros Ht Hn Ho. destruct n as [p|r|o l r]; [done|..];
    unfold operand, textp; cbn [unary_text unary_tree unary_ok has_r app spaces forallb];
    rewrite Ht, Hn, Ho; split; try done; (split; [done|]); by rewrite andb_true_r.
Qed.

Lemma printed_spec n :
  alt_text (printed n) = text n /\ alt_tree (printed n) = n /\ alt_ok (printed n) = leaves_ok n.
Proof.
  induction n as [p|r IH|o l IHl r IHr]; [done|..].
  - destruct IH as (H1 & H2 & H3). destruct (operand_spec r H1 H2 H3) as (E1 & E2 & E3).
    change (printed (Not r)) with (AltOne (ConjOne (UNot [] (operand r)))).
    cbn [alt_text cnj_text unary_text alt_tree cnj_tree unary_tree alt_ok cnj_ok unary_ok app].
    rewrite E1, E2, E3. done.
  - destruct IHl as (H1 & H2 & H3), IHr as (H4 & H5 & H6).
    destruct (operand_spec l H1 H2 H3) as (E1 & E2 & E3).
    destruct (operand_spec r H4 H5 H6) as (E4 & E5 & E6). rewrite text_Bin.
    destruct o.
    + change (printed (Bin OP_and l r)) with (AltOne (ConjMore (operand l) [] (ConjOne (operand r)))).
      cbn [alt_text cnj_text alt_tree cnj_tree alt_ok cnj_ok app op_char spaces forallb leaves_ok].
      by rewrite E1, E2, E3, E4, E5, E6, andb_true_r.
    + change (printed (Bin OP_or l r)) with (AltMore (AltOne (ConjOne (operand l))) [] (ConjOne (operand r))).
      cbn [alt_text cnj_text alt_tree cnj_tree alt_ok cnj_ok app op_char spaces forallb leaves_ok].
      by rewrite E1, E2, E3, E4, E5, E6, andb_true_r.
Qed.

(** printing a filter and parsing the text gives the filter back.  The
    length of the first pass is the length of the text, the second pass writes
    only inside the memory of that length plus one, and fills all of it but the
    last byte with the text. *)
Theorem strfilter_print_parse n alloc_ok :
  leaves_ok n = true -> (forall k, alloc_ok k = true) ->
  sprint_len n = zlen (text n) /\
  strfilter__string n = Some ((Some <$> text n) ++ [if ends_nul n then Some 0 else None]) /\
  strfilter__new alloc_ok (text n) = Ok (inl n).
Proof.
  intros Hok Hm. destruct (printed_spec n) as (Ht & Hn & Ho).
  split; [apply sprint_len_text|]. split; [apply strfilter__string_ok|].
  pose proof (new_parses alloc_ok Hm (printed n)) as Hp. rewrite Ht, Hn, Ho in Hp. by apply Hp.
Qed.

Lemma strfilter_print_parse_witness :
  sprint_len (alt_tree example_rules) = zlen (text (alt_tree example_rules)) /\
  strfilter__string (alt_tree example_rules) =
    Some ((Some <$> text (alt_tree example_rules)) ++ [if ends_nul (alt_tree example_rules) then Some 0 else None]) /\
  strfilter__new (fun _ => true) (text (alt_tree example_rules)) = Ok (inl (alt_tree example_rules)).
Proof. apply strfilter_print_parse; [vm_compute; reflexivity|done]. Defined.

(** The string returned for [a&(b|c)] has no terminating NUL: the last byte of
    the memory was never written. *)
Theorem strfilter_string_unterminated :
  strfilter__string (Bin OP_and (Leaf [97]) (Bin OP_or (Leaf [98]) (Leaf [99]))) =
    Some [Some 97; Some cAMP; Some cLPAR; Some 98; Some cPIPE; Some 99; Some cRPAR; None].
Proof. reflexivity. Qed.

(** Rules that end in a backslash are read beyond their end. *)
Theorem strfilter_backslash_overread alloc_ok :
  alloc_ok 0%nat = true -> strfilter__new alloc_ok [97; cBSLASH] = Oob.
Proof. intros H0. unfold strfilter__new. rewrite H0. reflexivity. Qed.
