(* ===== verification/SessionSwap.v ===== *)
(** Model of the byte order conversion of util/session.c: the
    perf_event__*_swap operations, perf_event__swap_ops, event_swap and
    perf_event_header__bswap, on the structures of util/event.h.

    Every operation works in place on the memory that starts with the record
    and goes on after it, as the mapped file does; [Oob] is an access outside
    that memory and [Err ABORT] a failed BUG_ON.  The offsets of the members
    are computed from the structure declarations of util/event.h by the C
    layout rule; those of struct perf_event_attr are the kernel's. *)

From stdpp Require Import strings.
From S2P Require Import Prelude Sample.

(** * Record types (uapi/linux/perf_event.h and util/event.h) *)

Definition PERF_RECORD_MMAP : Z := 1.
Definition PERF_RECORD_LOST : Z := 2.
Definition PERF_RECORD_COMM : Z := 3.
Definition PERF_RECORD_EXIT : Z := 4.
Definition PERF_RECORD_THROTTLE : Z := 5.
Definition PERF_RECORD_UNTHROTTLE : Z := 6.
Definition PERF_RECORD_FORK : Z := 7.
Definition PERF_RECORD_READ : Z := 8.
Definition PERF_RECORD_MMAP2 : Z := 10.
Definition PERF_RECORD_AUX : Z := 11.
Definition PERF_RECORD_ITRACE_START : Z := 12.
Definition PERF_RECORD_LOST_SAMPLES : Z := 13.
Definition PERF_RECORD_SWITCH : Z := 14.
Definition PERF_RECORD_SWITCH_CPU_WIDE : Z := 15.
Definition PERF_RECORD_NAMESPACES : Z := 16.
Definition PERF_RECORD_USER_TYPE_START : Z := 64.
Definition PERF_RECORD_HEADER_ATTR : Z := 64.
Definition PERF_RECORD_HEADER_EVENT_TYPE : Z := 65.
Definition PERF_RECORD_HEADER_TRACING_DATA : Z := 66.
Definition PERF_RECORD_HEADER_BUILD_ID : Z := 67.
Definition PERF_RECORD_ID_INDEX : Z := 69.
Definition PERF_RECORD_AUXTRACE_INFO : Z := 70.
Definition PERF_RECORD_AUXTRACE : Z := 71.
Definition PERF_RECORD_AUXTRACE_ERROR : Z := 72.
Definition PERF_RECORD_THREAD_MAP : Z := 73.
Definition PERF_RECORD_CPU_MAP : Z := 74.
Definition PERF_RECORD_STAT_CONFIG : Z := 75.
Definition PERF_RECORD_STAT : Z := 76.
Definition PERF_RECORD_STAT_ROUND : Z := 77.
Definition PERF_RECORD_EVENT_UPDATE : Z := 78.
Definition PERF_RECORD_TIME_CONV : Z := 79.
Definition PERF_RECORD_HEADER_MAX : Z := 81.
Definition PERF_CPU_MAP__CPUS : Z := 0.
Definition PERF_CPU_MAP__MASK : Z := 1.

(** A failed BUG_ON. *)
Definition ABORT : Z := 134.

(** * Structure layout *)

(** PERF_ALIGN: round [x] up to a multiple of the power of two [a]. *)
Definition PERF_ALIGN (x a : Z) : Z := Z.land (x + (a - 1)) (Z.lnot (a - 1)).

(** A structure: its members in order, each with the size of its element.  A
    member stands at the next multiple of that size. *)
Definition layout := list (string * nat).

Fixpoint member_from (off : Z) (l : layout) (f : string) : Z * nat :=
  match l with
  | [] => (off, O)
  | (g, n) :: l =>
      let o := PERF_ALIGN off (Z.of_nat n) in
      if bool_decide (f = g) then (o, n) else member_from (o + Z.of_nat n) l f
  end.

(** Position and size of a member of a record: the header comes first. *)
Definition member (l : layout) (f : string) : Z * nat := member_from sizeof_header l f.
Definition offsetof (l : layout) (f : string) : Z := fst (member l f).
(** [&event->x + 1]; a structure with an 8 byte member or 8 bytes of header is
    padded to a multiple of 8 here. *)
Definition sizeof (l : layout) : Z := PERF_ALIGN (fst (member l "")) 8.

Definition mmap_event : layout :=
  [("pid", 4); ("tid", 4); ("start", 8); ("len", 8); ("pgoff", 8); ("filename", 1)]%nat.
Definition mmap2_event : layout :=
  [("pid", 4); ("tid", 4); ("start", 8); ("len", 8); ("pgoff", 8); ("maj", 4); ("min", 4);
   ("ino", 8); ("ino_generation", 8); ("prot", 4); ("flags", 4); ("filename", 1)]%nat.
Definition comm_event : layout := [("pid", 4); ("tid", 4); ("comm", 1)]%nat.
Definition fork_event : layout :=
  [("pid", 4); ("ppid", 4); ("tid", 4); ("ptid", 4); ("time", 8)]%nat.
Definition read_event : layout :=
  [("pid", 4); ("tid", 4); ("value", 8); ("time_enabled", 8); ("time_running", 8); ("id", 8)]%nat.
Definition throttle_event : layout := [("time", 8); ("id", 8); ("stream_id", 8)]%nat.
Definition aux_event : layout := [("aux_offset", 8); ("aux_size", 8); ("flags", 8)]%nat.
Definition itrace_start_event : layout := [("pid", 4); ("tid", 4)]%nat.
Definition context_switch_event : layout := [("next_prev_pid", 4); ("next_prev_tid", 4)]%nat.
Definition event_update_event : layout := [("type", 8); ("id", 8); ("data", 1)]%nat.
Definition event_type_event : layout := [("event_id", 8); ("name", 1)]%nat.
Definition tracing_data_event : layout := [("size", 4)]%nat.
Definition auxtrace_info_event : layout := [("type", 4); ("reserved__", 4); ("priv", 8)]%nat.
Definition auxtrace_event : layout :=
  [("size", 8); ("offset", 8); ("reference", 8); ("idx", 4); ("tid", 4); ("cpu", 4);
   ("reserved__", 4)]%nat.
Definition auxtrace_error_event : layout :=
  [("type", 4); ("code", 4); ("cpu", 4); ("pid", 4); ("tid", 4); ("fmt", 4); ("ip", 8);
   ("time", 8); ("msg", 1)]%nat.
Definition thread_map_event : layout := [("nr", 8); ("entries", 8)]%nat.
(** [u64 pid; char comm[16]] *)
Definition sizeof_thread_map_event_entry : Z := 24.
Definition cpu_map_data : layout := [("type", 2); ("data", 1)]%nat.
Definition stat_config_event : layout := [("nr", 8); ("data", 8)]%nat.
(** [u64 tag; u64 val] *)
Definition sizeof_stat_config_event_entry : Z := 16.
Definition stat_event : layout :=
  [("id", 8); ("cpu", 4); ("thread", 4); ("val", 8); ("ena", 8); ("run", 8)]%nat.
Definition stat_round_event : layout := [("type", 8); ("time", 8)]%nat.

(** struct perf_event_attr, from its own start; the bit-fields after
    [read_format] fill one 64-bit word. *)
Definition perf_event_attr_layout : layout :=
  [("type", 4); ("size", 4); ("config", 8); ("sample_period", 8); ("sample_type", 8);
   ("read_format", 8); ("flags", 8); ("wakeup_events", 4); ("bp_type", 4); ("bp_addr", 8);
   ("bp_len", 8); ("branch_sample_type", 8); ("sample_regs_user", 8); ("sample_stack_user", 4);
   ("clockid", 4); ("sample_regs_intr", 8); ("aux_watermark", 4); ("sample_max_stack", 2);
   ("__reserved_2", 2)]%nat.
Definition attr_member (f : string) : Z * nat := member_from 0 perf_event_attr_layout f.
Definition sizeof_attr : Z := fst (attr_member "").

(** * Swapping in place *)

(** [x = bswap_NN(x)] for the [n]-byte member at [off]. *)
Definition bswap_at (n : nat) (off : Z) (m : bytes) : res bytes :=
  v ← mem (rd_le m off n); mem (wrn m off (le_bytes n (bswap n v))).

(** Assignments [x = bswap_NN(x)] one after the other. *)
Fixpoint swap_fields (fs : list (Z * nat)) (m : bytes) : res bytes :=
  match fs with
  | [] => Ok m
  | (o, n) :: fs => m ← bswap_at n o m; swap_fields fs m
  end.

Definition swap_members (l : layout) (names : list string) (m : bytes) : res bytes :=
  swap_fields (member l <$> names) m.

(** mem_bswap_32; [fuel] is the number of words. *)
Fixpoint mem_bswap_32_loop (fuel : nat) (m : bytes) (off byte_size : Z) : res bytes :=
  match fuel with
  | O => Ok m
  | S fuel =>
      if 0 <? byte_size then
        m ← bswap_at 4 off m; mem_bswap_32_loop fuel m (off + 4) (byte_size - 4)
      else Ok m
  end.
Definition mem_bswap_32 (m : bytes) (off byte_size : Z) : res bytes :=
  mem_bswap_32_loop (Z.to_nat ((byte_size + 3) / 4)) m off byte_size.

Definition header_type (m : bytes) : res Z := mem (rd_le m 0 4).
Definition header_size (m : bytes) : res Z := mem (rd_le m 6 2).

Definition perf_event_header__bswap (m : bytes) : res bytes :=
  swap_fields [(0, 4%nat); (4, 2%nat); (6, 2%nat)] m.

(** [strlen] of the string at [off]; the bytes up to the end of the memory are
    scanned. *)
Fixpoint strlen_list (bs : bytes) : option Z :=
  match bs with
  | [] => None
  | b :: bs => if b =? 0 then Some 0 else l ← strlen_list bs; Some (l + 1)
  end.
Definition strlen (m : bytes) (off : Z) : res Z := mem (strlen_list (drop (Z.to_nat off) m)).

(** * The swap operations of util/session.c *)

(** [data] is an offset; the BUG_ON tests [size % sizeof(u64)]. *)
Definition swap_sample_id_all (m : bytes) (data : Z) : res bytes :=
  sz ← header_size m;
  let size := sint 32 (sz - data) in
  if negb (size mod 8 =? 0) then Err ABORT else mem_bswap_64 m data size.

Definition perf_event__all64_swap (m : bytes) (sample_id_all : bool) : res bytes :=
  sz ← header_size m; mem_bswap_64 m sizeof_header (sint 32 (sz - sizeof_header)).

(** The sample id after the NUL-terminated string at [off]. *)
Definition swap_after_string (m : bytes) (off : Z) (sample_id_all : bool) : res bytes :=
  if sample_id_all then
    len ← strlen m off; swap_sample_id_all m (off + PERF_ALIGN (len + 1) 8)
  else Ok m.

Definition swap_id_at (m : bytes) (off : Z) (sample_id_all : bool) : res bytes :=
  if sample_id_all then swap_sample_id_all m off else Ok m.

Definition perf_event__comm_swap (m : bytes) (sample_id_all : bool) : res bytes :=
  m ← swap_members comm_event ["pid"; "tid"] m;
  swap_after_string m (offsetof comm_event "comm") sample_id_all.

Definition perf_event__mmap_swap (m : bytes) (sample_id_all : bool) : res bytes :=
  m ← swap_members mmap_event ["pid"; "tid"; "start"; "len"; "pgoff"] m;
  swap_after_string m (offsetof mmap_event "filename") sample_id_all.

Definition perf_event__mmap2_swap (m : bytes) (sample_id_all : bool) : res bytes :=
  m ← swap_members mmap2_event ["pid"; "tid"; "start"; "len"; "pgoff"; "maj"; "min"; "ino"] m;
  swap_after_string m (offsetof mmap2_event "filename") sample_id_all.

Definition perf_event__task_swap (m : bytes) (sample_id_all : bool) : res bytes :=
  m ← swap_members fork_event ["pid"; "tid"; "ppid"; "ptid"; "time"] m;
  swap_id_at m (sizeof fork_event) sample_id_all.

Definition perf_event__read_swap (m : bytes) (sample_id_all : bool) : res bytes :=
  m ← swap_members read_event ["pid"; "tid"; "value"; "time_enabled"; "time_running"; "id"] m;
  swap_id_at m (sizeof read_event) sample_id_all.

Definition perf_event__aux_swap (m : bytes) (sample_id_all : bool) : res bytes :=
  m ← swap_members aux_event ["aux_offset"; "aux_size"; "flags"] m;
  swap_id_at m (sizeof aux_event) sample_id_all.

Definition perf_event__itrace_start_swap (m : bytes) (sample_id_all : bool) : res bytes :=
  m ← swap_members itrace_start_event ["pid"; "tid"] m;
  swap_id_at m (sizeof itrace_start_event) sample_id_all.

Definition perf_event__switch_swap (m : bytes) (sample_id_all : bool) : res bytes :=
  ty ← header_type m;
  m ← (if ty =? PERF_RECORD_SWITCH_CPU_WIDE
       then swap_members context_switch_event ["next_prev_pid"; "next_prev_tid"] m else Ok m);
  swap_id_at m (sizeof context_switch_event) sample_id_all.

Definition perf_event__throttle_swap (m : bytes) (sample_id_all : bool) : res bytes :=
  m ← swap_members throttle_event ["time"; "id"; "stream_id"] m;
  swap_id_at m (sizeof throttle_event) sample_id_all.

(** The masks of the three steps are those of the source; [rev] is an [int]. *)
Definition revbyte (b : Z) : Z :=
  let rev := Z.lor (Z.shiftr b 4) (Z.shiftl (Z.land b 0xf) 4) in
  let rev := Z.lor (Z.shiftr (Z.land rev 0xcc) 2) (Z.shiftl (Z.land rev 0x33) 2) in
  let rev := Z.lor (Z.shiftr (Z.land rev 0xaa) 1) (Z.shiftl (Z.land rev 0x55) 1) in
  u8 rev.

Fixpoint swap_bitfield (len : nat) (p : Z) (m : bytes) : res bytes :=
  match len with
  | O => Ok m
  | S len => b ← mem (rd8 m p); m ← mem (wrn m p [revbyte b]); swap_bitfield len (p + 1) m
  end.

(** [bswap_safe(f, n)] for the attribute at [base]: its [size] member, already
    swapped, reaches past [n] elements of [f]. *)
Definition bswap_safe (m : bytes) (base : Z) (f : string) (n : Z) : res bool :=
  sz ← mem (rd_le m (base + fst (attr_member "size")) 4);
  Ok (fst (attr_member f) + Z.of_nat (snd (attr_member f)) * n <? sz).

Definition bswap_field (base : Z) (f : string) (m : bytes) : res bytes :=
  safe ← bswap_safe m base f 0;
  if (safe : bool) then bswap_at (snd (attr_member f)) (base + fst (attr_member f)) m else Ok m.

Fixpoint bswap_attr_fields (base : Z) (fs : list string) (m : bytes) : res bytes :=
  match fs with
  | [] => Ok m
  | f :: fs => m ← bswap_field base f m; bswap_attr_fields base fs m
  end.

(** The members that perf_event__attr_swap names, in its order. *)
Definition attr_swapped_fields : list string :=
  ["config"; "sample_period"; "sample_type"; "read_format"; "wakeup_events"; "bp_type"; "bp_addr";
   "bp_len"; "branch_sample_type"; "sample_regs_user"; "sample_stack_user"; "aux_watermark";
   "sample_max_stack"].

Definition perf_event__attr_swap (base : Z) (m : bytes) : res bytes :=
  m ← bswap_at 4 (base + fst (attr_member "type")) m;
  m ← bswap_at 4 (base + fst (attr_member "size")) m;
  m ← bswap_attr_fields base attr_swapped_fields m;
  safe ← bswap_safe m base "read_format" 1;
  if (safe : bool) then swap_bitfield 8 (base + fst (attr_member "read_format") + 8) m else Ok m.

(** [size] is a [size_t] that mem_bswap_64 takes as an [int]. *)
Definition perf_event__hdr_attr_swap (m : bytes) (sample_id_all : bool) : res bytes :=
  m ← perf_event__attr_swap sizeof_header m;
  sz ← header_size m;
  let id := sizeof_header + sizeof_attr in
  mem_bswap_64 m id (sint 32 (sz - id)).

Definition perf_event__event_update_swap (m : bytes) (sample_id_all : bool) : res bytes :=
  swap_members event_update_event ["type"; "id"] m.

Definition perf_event__event_type_swap (m : bytes) (sample_id_all : bool) : res bytes :=
  swap_members event_type_event ["event_id"] m.

Definition perf_event__tracing_data_swap (m : bytes) (sample_id_all : bool) : res bytes :=
  swap_members tracing_data_event ["size"] m.

Definition perf_event__auxtrace_info_swap (m : bytes) (sample_id_all : bool) : res bytes :=
  m ← swap_members auxtrace_info_event ["type"] m;
  sz ← header_size m;
  let priv := offsetof auxtrace_info_event "priv" in
  mem_bswap_64 m priv (sint 32 (sz - priv)).

Definition perf_event__auxtrace_swap (m : bytes) (sample_id_all : bool) : res bytes :=
  swap_members auxtrace_event ["size"; "offset"; "reference"; "idx"; "tid"; "cpu"] m.

Definition perf_event__auxtrace_error_swap (m : bytes) (sample_id_all : bool) : res bytes :=
  m ← swap_members auxtrace_error_event ["type"; "code"; "cpu"; "pid"; "tid"; "fmt"; "ip"] m;
  fmt ← mem (rd_le m (offsetof auxtrace_error_event "fmt") 4);
  if negb (fmt =? 0) then swap_members auxtrace_error_event ["time"] m else Ok m.

(** [for (i = 0; i < nr; i++)] with an [unsigned i]; [fuel] bounds the number
    of iterations by the number of entries that fit into the memory, one
    more than that being an access outside it. *)
Fixpoint thread_map_loop (fuel : nat) (i nr : Z) (m : bytes) : res bytes :=
  if i <? nr then
    match fuel with
    | O => Oob
    | S fuel =>
        m ← bswap_at 8 (offsetof thread_map_event "entries" + i * sizeof_thread_map_event_entry) m;
        thread_map_loop fuel (u32 (i + 1)) nr m
    end
  else Ok m.

Definition perf_event__thread_map_swap (m : bytes) (sample_id_all : bool) : res bytes :=
  m ← swap_members thread_map_event ["nr"] m;
  nr ← mem (rd_le m (offsetof thread_map_event "nr") 8);
  thread_map_loop (length m) 0 nr m.

Fixpoint swap_u16s (n : nat) (off : Z) (m : bytes) : res bytes :=
  match n with
  | O => Ok m
  | S n => m ← bswap_at 2 off m; swap_u16s n (off + 2) m
  end.

(** [data->type] is a [u16] that is assigned [bswap_64] of itself.  The mask
    case falls through to the default one; struct cpu_map_mask has its mask
    at offset 8. *)
Definition perf_event__cpu_map_swap (m : bytes) (sample_id_all : bool) : res bytes :=
  let type_off := offsetof cpu_map_data "type" in
  let data := offsetof cpu_map_data "data" in
  ty ← mem (rd_le m type_off 2);
  m ← mem (wrn m type_off (le_bytes 2 (u16 (bswap_64 ty))));
  ty ← mem (rd_le m type_off 2);
  if ty =? PERF_CPU_MAP__CPUS then
    m ← bswap_at 2 data m;
    nr ← mem (rd_le m data 2);
    swap_u16s (Z.to_nat nr) (data + 2) m
  else if ty =? PERF_CPU_MAP__MASK then
    m ← bswap_at 2 data m;
    m ← bswap_at 2 (data + 2) m;
    nr ← mem (rd_le m data 2);
    long_size ← mem (rd_le m (data + 2) 2);
    if long_size =? 4 then mem_bswap_32 m (data + 8) nr
    else if long_size =? 8 then mem_bswap_64 m (data + 8) nr
    else Ok m
  else Ok m.

Definition perf_event__stat_config_swap (m : bytes) (sample_id_all : bool) : res bytes :=
  let nr_off := offsetof stat_config_event "nr" in
  nr ← mem (rd_le m nr_off 8);
  let size := nr *64 sizeof_stat_config_event_entry in
  let size := size +64 1 in
  mem_bswap_64 m nr_off (sint 32 size).

Definition perf_event__stat_swap (m : bytes) (sample_id_all : bool) : res bytes :=
  swap_members stat_event ["id"; "thread"; "cpu"; "val"; "ena"; "run"] m.

Definition perf_event__stat_round_swap (m : bytes) (sample_id_all : bool) : res bytes :=
  swap_members stat_round_event ["type"; "time"] m.

(** perf_event__swap_ops: [None] is an index outside the array, [Some None] a
    NULL entry, as the members without an initializer are. *)
Definition swap_op := bytes -> bool -> res bytes.

Definition perf_event__swap_ops (type : Z) : option (option swap_op) :=
  if (type <? 0) || (PERF_RECORD_HEADER_MAX <? type) then None else
  Some (
  if type =? PERF_RECORD_MMAP then Some perf_event__mmap_swap
  else if type =? PERF_RECORD_MMAP2 then Some perf_event__mmap2_swap
  else if type =? PERF_RECORD_COMM then Some perf_event__comm_swap
  else if type =? PERF_RECORD_FORK then Some perf_event__task_swap
  else if type =? PERF_RECORD_EXIT then Some perf_event__task_swap
  else if type =? PERF_RECORD_LOST then Some perf_event__all64_swap
  else if type =? PERF_RECORD_READ then Some perf_event__read_swap
  else if type =? PERF_RECORD_THROTTLE then Some perf_event__throttle_swap
  else if type =? PERF_RECORD_UNTHROTTLE then Some perf_event__throttle_swap
  else if type =? PERF_RECORD_SAMPLE then Some perf_event__all64_swap
  else if type =? PERF_RECORD_AUX then Some perf_event__aux_swap
  else if type =? PERF_RECORD_ITRACE_START then Some perf_event__itrace_start_swap
  else if type =? PERF_RECORD_LOST_SAMPLES then Some perf_event__all64_swap
  else if type =? PERF_RECORD_SWITCH then Some perf_event__switch_swap
  else if type =? PERF_RECORD_SWITCH_CPU_WIDE then Some perf_event__switch_swap
  else if type =? PERF_RECORD_HEADER_ATTR then Some perf_event__hdr_attr_swap
  else if type =? PERF_RECORD_HEADER_EVENT_TYPE then Some perf_event__event_type_swap
  else if type =? PERF_RECORD_HEADER_TRACING_DATA then Some perf_event__tracing_data_swap
  else if type =? PERF_RECORD_HEADER_BUILD_ID then None
  else if type =? PERF_RECORD_ID_INDEX then Some perf_event__all64_swap
  else if type =? PERF_RECORD_AUXTRACE_INFO then Some perf_event__auxtrace_info_swap
  else if type =? PERF_RECORD_AUXTRACE then Some perf_event__auxtrace_swap
  else if type =? PERF_RECORD_AUXTRACE_ERROR then Some perf_event__auxtrace_error_swap
  else if type =? PERF_RECORD_THREAD_MAP then Some perf_event__thread_map_swap
  else if type =? PERF_RECORD_CPU_MAP then Some perf_event__cpu_map_swap
  else if type =? PERF_RECORD_STAT_CONFIG then Some perf_event__stat_config_swap
  else if type =? PERF_RECORD_STAT then Some perf_event__stat_swap
  else if type =? PERF_RECORD_STAT_ROUND then Some perf_event__stat_round_swap
  else if type =? PERF_RECORD_EVENT_UPDATE then Some perf_event__event_update_swap
  else if type =? PERF_RECORD_TIME_CONV then Some perf_event__all64_swap
  else None).

Definition event_swap (m : bytes) (sample_id_all : bool) : res bytes :=
  type ← header_type m;
  swap ← mem (perf_event__swap_ops type);
  match swap with
  | Some swap => (swap : swap_op) m sample_id_all
  | None => Ok m
  end.

(** * Records as the producing machine and as this machine lay them out *)

(** A part of a record: an integer of [n] bytes, or bytes without an order. *)
Inductive item := Int (n : nat) (v : Z) | Raw (bs : bytes).

Definition item_size (i : item) : Z :=
  match i with Int n _ => Z.of_nat n | Raw bs => zlen bs end.

Definition item_bytes (foreign : bool) (i : item) : bytes :=
  match i with
  | Int n v => if foreign then be_bytes n v else le_bytes n v
  | Raw bs => bs
  end.

(** The record on a machine of the other and of this byte order. *)
Definition foreign (l : list item) : bytes := l ≫= item_bytes true.
Definition native (l : list item) : bytes := l ≫= item_bytes false.

Definition items_size (l : list item) : Z := zlen (native l).

(** The integers of a record that starts at [off]. *)
Fixpoint int_fields (off : Z) (l : list item) : list (Z * nat) :=
  match l with
  | [] => []
  | Int n v :: l => (off, n) :: int_fields (off + Z.of_nat n) l
  | Raw bs :: l => int_fields (off + zlen bs) l
  end.

(** A header of this machine. *)
Definition header_bytes (type misc size : Z) : bytes :=
  le_bytes 4 type ++ le_bytes 2 misc ++ le_bytes 2 size.

(** A NUL-terminated string padded to 8 bytes, and the sample id that
    follows a record when [sample_id_all] is set. *)
Definition padded_string (bs : bytes) : Prop :=
  exists s pad, bs = s ++ 0 :: pad /\ Forall (fun b => b <> 0) s /\
    zlen bs = PERF_ALIGN (zlen s + 1) 8.

Definition id_words (sample_id_all : bool) (ws : list Z) : list item :=
  if sample_id_all then Int 8 <$> ws else [].

(** The body of each record type after the header, from the structures of
    util/event.h: what another machine writes and what this one expects. *)
Inductive body (sid : bool) : Z -> list item -> Prop :=
| body_mmap pid tid start len pgoff name ws : padded_string name ->
    body sid PERF_RECORD_MMAP
      ([Int 4 pid; Int 4 tid; Int 8 start; Int 8 len; Int 8 pgoff; Raw name] ++ id_words sid ws)
| body_comm pid tid name ws : padded_string name ->
    body sid PERF_RECORD_COMM ([Int 4 pid; Int 4 tid; Raw name] ++ id_words sid ws)
| body_task type pid ppid tid ptid time ws :
    type = PERF_RECORD_FORK \/ type = PERF_RECORD_EXIT ->
    body sid type
      ([Int 4 pid; Int 4 ppid; Int 4 tid; Int 4 ptid; Int 8 time] ++ id_words sid ws)
| body_read pid tid value ena run id ws :
    body sid PERF_RECORD_READ
      ([Int 4 pid; Int 4 tid; Int 8 value; Int 8 ena; Int 8 run; Int 8 id] ++ id_words sid ws)
| body_throttle type time id stream_id ws :
    type = PERF_RECORD_THROTTLE \/ type = PERF_RECORD_UNTHROTTLE ->
    body sid type ([Int 8 time; Int 8 id; Int 8 stream_id] ++ id_words sid ws)
| body_aux offset size flags ws :
    body sid PERF_RECORD_AUX ([Int 8 offset; Int 8 size; Int 8 flags] ++ id_words sid ws)
| body_itrace_start pid tid ws :
    body sid PERF_RECORD_ITRACE_START ([Int 4 pid; Int 4 tid] ++ id_words sid ws)
| body_switch_cpu_wide pid tid ws :
    body sid PERF_RECORD_SWITCH_CPU_WIDE ([Int 4 pid; Int 4 tid] ++ id_words sid ws)
| body_words type ws :
    type ∈ [PERF_RECORD_LOST; PERF_RECORD_SAMPLE; PERF_RECORD_LOST_SAMPLES;
            PERF_RECORD_ID_INDEX; PERF_RECORD_TIME_CONV] ->
    body sid type (Int 8 <$> ws)
| body_event_type id name : body sid PERF_RECORD_HEADER_EVENT_TYPE [Int 8 id; Raw name]
| body_tracing_data size : body sid PERF_RECORD_HEADER_TRACING_DATA [Int 4 size]
| body_auxtrace_info type reserved priv : length reserved = 4%nat ->
    body sid PERF_RECORD_AUXTRACE_INFO ([Int 4 type; Raw reserved] ++ (Int 8 <$> priv))
| body_auxtrace size offset reference idx tid cpu reserved :
    body sid PERF_RECORD_AUXTRACE
      [Int 8 size; Int 8 offset; Int 8 reference; Int 4 idx; Int 4 tid; Int 4 cpu; Raw reserved]
| body_auxtrace_error type code cpu pid tid fmt ip time msg : 0 < fmt < 2 ^ 32 ->
    body sid PERF_RECORD_AUXTRACE_ERROR
      [Int 4 type; Int 4 code; Int 4 cpu; Int 4 pid; Int 4 tid; Int 4 fmt; Int 8 ip; Int 8 time;
       Raw msg]
| body_auxtrace_error_0 type code cpu pid tid ip msg :
    body sid PERF_RECORD_AUXTRACE_ERROR
      [Int 4 type; Int 4 code; Int 4 cpu; Int 4 pid; Int 4 tid; Int 4 0; Int 8 ip; Raw msg]
| body_thread_map (entries : list (Z * bytes)) :
    Forall (fun e => length e.2 = 16%nat) entries ->
    body sid PERF_RECORD_THREAD_MAP
      (Int 8 (zlen entries) :: (entries ≫= fun e => [Int 8 e.1; Raw e.2]))
| body_cpu_map cpus pad :
    body sid PERF_RECORD_CPU_MAP
      ([Int 2 PERF_CPU_MAP__CPUS; Int 2 (zlen cpus)] ++ (Int 2 <$> cpus) ++ [Raw pad])
| body_stat id cpu thread val ena run :
    body sid PERF_RECORD_STAT
      [Int 8 id; Int 4 cpu; Int 4 thread; Int 8 val; Int 8 ena; Int 8 run]
| body_stat_round type time : body sid PERF_RECORD_STAT_ROUND [Int 8 type; Int 8 time]
| body_event_update type id data :
    body sid PERF_RECORD_EVENT_UPDATE [Int 8 type; Int 8 id; Raw data].

(** * The swap of a set of members turns the foreign layout into the native *)

(** A record in the middle of the swap: which items are still foreign. *)
Definition enc (st : list (bool * item)) : bytes := st ≫= fun '(b, i) => item_bytes b i.

Fixpoint pending (off : Z) (st : list (bool * item)) : list (Z * nat) :=
  match st with
  | [] => []
  | (b, i) :: st =>
      (match i with Int n _ => if (b : bool) then [(off, n)] else [] | Raw _ => [] end)
      ++ pending (off + item_size i) st
  end.

Lemma length_be_bytes n v : length (be_bytes n v) = n.
Proof. unfold be_bytes. by rewrite length_reverse, length_le_bytes. Qed.

Lemma drop_be_bytes n v post : drop n (be_bytes n v ++ post) = post.
Proof. by rewrite drop_app_length' by (by rewrite length_be_bytes). Qed.

Lemma zlen_item b i : zlen (item_bytes b i) = item_size i.
Proof.
  destruct i as [n v|bs]; [|done]. unfold zlen. simpl.
  destruct b; by rewrite ?length_be_bytes, ?length_le_bytes.
Qed.

(** One member: its foreign bytes become its native ones. *)
Lemma bswap_at_mid n v pre post off :
  off = zlen pre ->
  bswap_at n off (pre ++ be_bytes n v ++ post) = Ok (pre ++ le_bytes n v ++ post).
Proof.
  intros ->. unfold bswap_at, rd_le.
  rewrite (rdn_mid pre (be_bytes n v) post) by (done || by rewrite length_be_bytes).
  mred. cbn [mem mbind res_bind].
  assert (Hsw : le_bytes n (bswap n (le_val (be_bytes n v))) = le_bytes n v).
  { unfold bswap. assert (Hbe : le_bytes n (le_val (be_bytes n v)) = be_bytes n v).
    { rewrite <- (length_be_bytes n v) at 1. apply le_bytes_val, Forall_reverse, le_bytes_ok. }
    rewrite Hbe. unfold be_bytes. rewrite reverse_involutive, le_val_bytes. apply le_bytes_mod. }
  rewrite Hsw, wrn_app; [|done|rewrite zlen_app; unfold zlen; rewrite length_be_bytes, length_le_bytes; lia].
  cbn [mem]. do 3 f_equal.
  by rewrite length_le_bytes, drop_be_bytes.
Qed.

Lemma bswap_pending st : forall pre post o n,
  (o, n) ∈ pending (zlen pre) st ->
  exists st', bswap_at n o (pre ++ enc st ++ post) = Ok (pre ++ enc st' ++ post) /\
    snd <$> st' = snd <$> st /\ pending (zlen pre) st ≡ₚ (o, n) :: pending (zlen pre) st'.
Proof.
  induction st as [|[b i] st IH]; intros pre post o n Hin; [by apply elem_of_nil in Hin|].
  cbn [pending] in Hin. apply elem_of_app in Hin as [Hin|Hin].
  - destruct i as [k v|]; [|by apply elem_of_nil in Hin].
    destruct b; [|by apply elem_of_nil in Hin].
    apply list_elem_of_singleton in Hin as [= -> ->].
    exists ((false, Int k v) :: st). split_and!; [|done|by cbn].
    unfold enc. cbn. rewrite <- !app_assoc. by apply bswap_at_mid.
  - rewrite <- (zlen_item b i), <- zlen_app in Hin.
    destruct (IH (pre ++ item_bytes b i) post o n Hin) as (st' & Hb & Hs & Hp).
    exists ((b, i) :: st'). split_and!.
    + unfold enc in *. cbn. rewrite <- !app_assoc in *. done.
    + cbn. by rewrite Hs.
    + cbn [pending]. rewrite <- (zlen_item b i), <- zlen_app, Hp.
      by rewrite Permutation_middle.
Qed.

Lemma enc_done st off : pending off st = [] -> enc st = native (snd <$> st).
Proof.
  revert off. induction st as [|[b i] st IH]; intros off Hp; [done|].
  cbn [pending] in Hp. apply app_nil in Hp as [Hi Hp].
  unfold enc, native in *. cbn. f_equal; [|by eapply IH].
  destruct i; [|done]. by destruct b.
Qed.

Lemma swap_fields_enc fs : forall st pre post,
  pending (zlen pre) st ≡ₚ fs ->
  swap_fields fs (pre ++ enc st ++ post) = Ok (pre ++ native (snd <$> st) ++ post).
Proof.
  induction fs as [|[o n] fs IH]; intros st pre post Hp.
  - apply Permutation_nil_r in Hp. cbn. by rewrite (enc_done _ _ Hp).
  - destruct (bswap_pending st pre post o n) as (st' & Hb & Hs & Hp').
    { rewrite Hp. by left. }
    cbn [swap_fields]. rewrite Hb. rred. rewrite <- Hs. apply IH.
    apply (Permutation_cons_inv (a := (o, n))). by rewrite <- Hp'.
Qed.

(** The members in any order. *)
Lemma swap_fields_foreign fs items pre post :
  int_fields (zlen pre) items ≡ₚ fs ->
  swap_fields fs (pre ++ foreign items ++ post) = Ok (pre ++ native items ++ post).
Proof.
  intros Hp. pose proof (swap_fields_enc fs (pair true <$> items) pre post) as H.
  assert (E1 : enc (pair true <$> items) = foreign items)
    by (unfold enc, foreign; clear; induction items; cbn; congruence).
  assert (E2 : snd <$> (pair true <$> items) = items)
    by (clear; induction items; cbn; congruence).
  assert (E3 : forall off, pending off (pair true <$> items) = int_fields off items).
  { clear. induction items as [|[n v|bs] l IH]; intros off; [done|..]; cbn; by rewrite IH. }
  rewrite E1, E2, E3 in H. by apply H.
Qed.

Lemma foreign_app l k : foreign (l ++ k) = foreign l ++ foreign k.
Proof. apply bind_app. Qed.

Lemma native_app l k : native (l ++ k) = native l ++ native k.
Proof. apply bind_app. Qed.

Lemma items_size_app l k : items_size (l ++ k) = items_size l + items_size k.
Proof. unfold items_size. by rewrite native_app, zlen_app. Qed.

Lemma items_size_cons i l : items_size (i :: l) = item_size i + items_size l.
Proof. unfold items_size, native. cbn. by rewrite zlen_app, zlen_item. Qed.

Lemma items_size_nil : items_size [] = 0.
Proof. done. Qed.

Lemma items_size_ints n ws : items_size (Int n <$> ws) = Z.of_nat n * zlen ws.
Proof.
  induction ws as [|w ws IH]; [symmetry; apply Z.mul_0_r|].
  rewrite fmap_cons, items_size_cons, IH, zlen_cons. cbn [item_size]. lia.
Qed.

Lemma items_size_nonneg l : 0 <= items_size l.
Proof. apply zlen_nonneg. Qed.

#[local] Hint Rewrite items_size_app items_size_cons items_size_nil items_size_ints : perflen.

Lemma mem_bswap_64_loop_words ws : forall fuel pre post off,
  off = zlen pre -> (length ws <= fuel)%nat ->
  mem_bswap_64_loop fuel (pre ++ foreign (Int 8 <$> ws) ++ post) off (8 * zlen ws)
  = Ok (pre ++ native (Int 8 <$> ws) ++ post).
Proof.
  induction ws as [|w ws IH]; intros fuel pre post off Hoff Hf.
  - by destruct fuel.
  - destruct fuel as [|fuel]; [cbn in Hf; lia|].
    pose proof (zlen_nonneg ws). cbn [mem_bswap_64_loop]. rewrite zlen_cons.
    destruct (Z.ltb_spec 0 (8 * (1 + zlen ws))); [|lia].
    pose proof (bswap_at_mid 8 w pre (foreign (Int 8 <$> ws) ++ post) off Hoff) as Hb.
    unfold foreign, native in *. cbn [fmap list_fmap mbind list_bind item_bytes] in *.
    rewrite <- !app_assoc. unfold bswap_at, rd64 in *.
    destruct (mem (rd_le _ off 8)) as [v|e|]; [|done..].
    rred. cbn [mbind res_bind] in Hb. rewrite Hb.
    cbn [mbind res_bind]. replace (8 * (1 + zlen ws) - 8) with (8 * zlen ws) by lia.
    rewrite (app_assoc pre). rewrite IH; [by rewrite <- app_assoc| |cbn in Hf; lia].
    rewrite zlen_app, zlen_le_bytes. lia.
Qed.

(** An array of 64-bit words. *)
Lemma mem_bswap_64_words ws pre post off size :
  off = zlen pre -> size = 8 * zlen ws ->
  mem_bswap_64 (pre ++ foreign (Int 8 <$> ws) ++ post) off size
  = Ok (pre ++ native (Int 8 <$> ws) ++ post).
Proof.
  intros -> ->. unfold mem_bswap_64. apply mem_bswap_64_loop_words; [done|].
  unfold zlen. Z.div_mod_to_equations. lia.
Qed.

Lemma zlen_header ty misc size : zlen (header_bytes ty misc size) = 8.
Proof. unfold header_bytes. by rewrite !zlen_app, !zlen_le_bytes. Qed.

Lemma header_type_of ty misc size post :
  is_uint 32 ty -> header_type (header_bytes ty misc size ++ post) = Ok ty.
Proof.
  intros Hty. unfold header_type, header_bytes. rewrite <- !app_assoc.
  pose proof (rd_le_mid [] ty (le_bytes 2 misc ++ le_bytes 2 size ++ post) 0 4) as H.
  cbn [app] in H. rewrite H; [done..|exact Hty].
Qed.

Lemma header_size_of ty misc size post :
  is_uint 16 size -> header_size (header_bytes ty misc size ++ post) = Ok size.
Proof.
  intros Hs. unfold header_size, header_bytes. rewrite (app_assoc (le_bytes 4 ty)), <- app_assoc.
  rewrite rd_le_mid; [done|by rewrite zlen_app, !zlen_le_bytes|exact Hs].
Qed.

(** The members of a record before its variable part. *)
Lemma swap_members_ok l names fixed ty misc size post :
  int_fields 8 fixed ≡ₚ (member l <$> names) ->
  swap_members l names (header_bytes ty misc size ++ foreign fixed ++ post)
  = Ok (header_bytes ty misc size ++ native fixed ++ post).
Proof. intros Hp. apply swap_fields_foreign. by rewrite zlen_header. Qed.

Lemma tail_words_ok ty misc size fixed ws rest off :
  is_uint 16 size -> off = 8 + items_size fixed -> size = off + 8 * zlen ws ->
  mem_bswap_64 (header_bytes ty misc size ++ native fixed ++ foreign (Int 8 <$> ws) ++ rest)
    off (sint 32 (size - off))
  = Ok (header_bytes ty misc size ++ native (fixed ++ (Int 8 <$> ws)) ++ rest).
Proof.
  intros Hs Hoff Hsz. unfold is_uint in Hs. pose proof (zlen_nonneg ws).
  pose proof (items_size_nonneg fixed).
  rewrite sint32_small by lia. rewrite native_app, <- app_assoc.
  rewrite (app_assoc (header_bytes _ _ _)), (app_assoc (header_bytes _ _ _) (native fixed)).
  apply mem_bswap_64_words; [|lia]. rewrite zlen_app, zlen_header. unfold items_size in Hoff. lia.
Qed.

Lemma swap_id_at_ok ty misc size fixed sid ws rest off :
  is_uint 16 size -> off = 8 + items_size fixed -> size = off + items_size (id_words sid ws) ->
  swap_id_at (header_bytes ty misc size ++ native fixed ++ foreign (id_words sid ws) ++ rest) off sid
  = Ok (header_bytes ty misc size ++ native (fixed ++ id_words sid ws) ++ rest).
Proof.
  intros Hs Hoff Hsz. unfold swap_id_at. destruct sid; cbn [id_words] in *.
  - unfold swap_sample_id_all. rewrite header_size_of by done. cbn [mbind res_bind].
    rewrite items_size_ints in Hsz. unfold is_uint in Hs. pose proof (zlen_nonneg ws).
    pose proof (items_size_nonneg fixed).
    rewrite sint32_small by lia.
    destruct (Z.eqb_spec ((size - off) mod 8) 0) as [_|Hne].
    + cbn [negb]. rewrite <- (sint32_small (size - off)) by lia. by apply tail_words_ok.
    + destruct Hne. replace (size - off) with (zlen ws * 8) by lia. apply Z_mod_mult.
  - by rewrite app_nil_r.
Qed.

Lemma strlen_list_ok s rest :
  Forall (fun b => b <> 0) s -> strlen_list (s ++ 0 :: rest) = Some (zlen s).
Proof.
  induction 1 as [|b s Hb Hs IH]; [done|]. cbn [app strlen_list].
  destruct (Z.eqb_spec b 0); [done|]. rewrite IH. mred. rewrite zlen_cons. f_equal. lia.
Qed.

Lemma strlen_ok pre s pad post off :
  off = zlen pre -> Forall (fun b => b <> 0) s ->
  strlen (pre ++ (s ++ 0 :: pad) ++ post) off = Ok (zlen s).
Proof.
  intros -> Hs. unfold strlen, zlen at 1. rewrite Nat2Z.id, drop_app_length, <- app_assoc.
  cbn [app]. by rewrite strlen_list_ok.
Qed.

Lemma swap_after_string_ok ty misc size fixed name sid ws rest off :
  is_uint 16 size -> padded_string name -> off = 8 + items_size fixed ->
  size = off + zlen name + items_size (id_words sid ws) ->
  swap_after_string
    (header_bytes ty misc size ++ native (fixed ++ [Raw name]) ++ foreign (id_words sid ws) ++ rest)
    off sid
  = Ok (header_bytes ty misc size ++ native ((fixed ++ [Raw name]) ++ id_words sid ws) ++ rest).
Proof.
  intros Hs (s & pad & -> & Hnz & Hal) Hoff Hsz. unfold swap_after_string.
  destruct sid; [|cbn [id_words]; by rewrite app_nil_r].
  assert (Hlen : strlen (header_bytes ty misc size ++ native (fixed ++ [Raw (s ++ 0 :: pad)])
                          ++ foreign (id_words true ws) ++ rest) off = Ok (zlen s)).
  { rewrite native_app, <- app_assoc, (app_assoc (header_bytes _ _ _)).
    replace (native [Raw (s ++ 0 :: pad)]) with (s ++ 0 :: pad) by (cbn; by rewrite app_nil_r).
    apply strlen_ok; [|done]. rewrite zlen_app, zlen_header. unfold items_size in Hoff. lia. }
  rewrite Hlen. cbn [mbind res_bind]. rewrite <- Hal.
  apply (swap_id_at_ok ty misc size (fixed ++ [Raw (s ++ 0 :: pad)]) true ws rest); [done| |lia].
  rewrite items_size_app, items_size_cons, items_size_nil. cbn [item_size]. lia.
Qed.

Lemma event_swap_dispatch ty op misc size post sid :
  is_uint 32 ty -> perf_event__swap_ops ty = Some (Some op) ->
  event_swap (header_bytes ty misc size ++ post) sid = op (header_bytes ty misc size ++ post) sid.
Proof. intros Hty Hop. unfold event_swap. rewrite header_type_of by done. rred. by rewrite Hop. Qed.

(** [swaps op ty sid items]: the operation makes the foreign record native
    and touches nothing else. *)
Definition swaps (op : swap_op) (ty : Z) (sid : bool) (items : list item) : Prop :=
  forall misc size rest, is_uint 16 size -> size = 8 + items_size items ->
    op (header_bytes ty misc size ++ foreign items ++ rest) sid
    = Ok (header_bytes ty misc size ++ native items ++ rest).

Ltac fields_perm := apply (bool_decide_unpack _); vm_compute; exact I.

(** The members of a record are swapped; what is left is the operation on the
    rest. *)
Ltac swap_fixed fixed :=
  rewrite ?foreign_app, <- ?app_assoc;
  rewrite (swap_members_ok _ _ fixed) by fields_perm; cbn [mbind res_bind].

Ltac sizes := autorewrite with perflen in *; cbn [item_size] in *; try lia.

Lemma swaps_task ty sid pid ppid tid ptid time ws :
  swaps perf_event__task_swap ty sid
    ([Int 4 pid; Int 4 ppid; Int 4 tid; Int 4 ptid; Int 8 time] ++ id_words sid ws).
Proof.
  intros misc size rest Hs Hsz. unfold perf_event__task_swap.
  swap_fixed [Int 4 pid; Int 4 ppid; Int 4 tid; Int 4 ptid; Int 8 time].
  apply swap_id_at_ok; [done|done|]. sizes. change (sizeof fork_event) with 32. lia.
Qed.

Lemma swaps_read sid pid tid value ena run id ws :
  swaps perf_event__read_swap PERF_RECORD_READ sid
    ([Int 4 pid; Int 4 tid; Int 8 value; Int 8 ena; Int 8 run; Int 8 id] ++ id_words sid ws).
Proof.
  intros misc size rest Hs Hsz. unfold perf_event__read_swap.
  swap_fixed [Int 4 pid; Int 4 tid; Int 8 value; Int 8 ena; Int 8 run; Int 8 id].
  apply swap_id_at_ok; [done|done|]. sizes. change (sizeof read_event) with 48. lia.
Qed.

Lemma swaps_throttle ty sid time id stream_id ws :
  swaps perf_event__throttle_swap ty sid
    ([Int 8 time; Int 8 id; Int 8 stream_id] ++ id_words sid ws).
Proof.
  intros misc size rest Hs Hsz. unfold perf_event__throttle_swap.
  swap_fixed [Int 8 time; Int 8 id; Int 8 stream_id].
  apply swap_id_at_ok; [done|done|]. sizes. change (sizeof throttle_event) with 32. lia.
Qed.

Lemma swaps_aux sid offset size' flags ws :
  swaps perf_event__aux_swap PERF_RECORD_AUX sid
    ([Int 8 offset; Int 8 size'; Int 8 flags] ++ id_words sid ws).
Proof.
  intros misc size rest Hs Hsz. unfold perf_event__aux_swap.
  swap_fixed [Int 8 offset; Int 8 size'; Int 8 flags].
  apply swap_id_at_ok; [done|done|]. sizes. change (sizeof aux_event) with 32. lia.
Qed.

Lemma swaps_itrace_start sid pid tid ws :
  swaps perf_event__itrace_start_swap PERF_RECORD_ITRACE_START sid
    ([Int 4 pid; Int 4 tid] ++ id_words sid ws).
Proof.
  intros misc size rest Hs Hsz. unfold perf_event__itrace_start_swap.
  swap_fixed [Int 4 pid; Int 4 tid].
  apply swap_id_at_ok; [done|done|]. sizes. change (sizeof itrace_start_event) with 16. lia.
Qed.

Lemma swaps_switch_cpu_wide sid pid tid ws :
  swaps perf_event__switch_swap PERF_RECORD_SWITCH_CPU_WIDE sid
    ([Int 4 pid; Int 4 tid] ++ id_words sid ws).
Proof.
  intros misc size rest Hs Hsz. unfold perf_event__switch_swap.
  rewrite header_type_of by done. cbn [mbind res_bind]. rewrite Z.eqb_refl.
  swap_fixed [Int 4 pid; Int 4 tid].
  apply swap_id_at_ok; [done|done|]. sizes. change (sizeof context_switch_event) with 16. lia.
Qed.

Lemma native_raw fixed name post :
  native fixed ++ name ++ post = native (fixed ++ [Raw name]) ++ post.
Proof. rewrite native_app, <- app_assoc. cbn. by rewrite app_nil_r. Qed.

Lemma swaps_mmap sid pid tid start len pgoff name ws :
  padded_string name ->
  swaps perf_event__mmap_swap PERF_RECORD_MMAP sid
    ([Int 4 pid; Int 4 tid; Int 8 start; Int 8 len; Int 8 pgoff; Raw name] ++ id_words sid ws).
Proof.
  intros Hn misc size rest Hs Hsz. unfold perf_event__mmap_swap.
  set (fixed := [Int 4 pid; Int 4 tid; Int 8 start; Int 8 len; Int 8 pgoff]).
  change [Int 4 pid; Int 4 tid; Int 8 start; Int 8 len; Int 8 pgoff; Raw name]
    with (fixed ++ [Raw name]) in *.
  swap_fixed fixed. replace (foreign [Raw name]) with name by (cbn; by rewrite app_nil_r).
  rewrite native_raw. apply swap_after_string_ok; [done|done|done|].
  subst fixed. sizes. change (offsetof mmap_event "filename") with 40. lia.
Qed.

Lemma swaps_comm sid pid tid name ws :
  padded_string name ->
  swaps perf_event__comm_swap PERF_RECORD_COMM sid
    ([Int 4 pid; Int 4 tid; Raw name] ++ id_words sid ws).
Proof.
  intros Hn misc size rest Hs Hsz. unfold perf_event__comm_swap.
  set (fixed := [Int 4 pid; Int 4 tid]).
  change [Int 4 pid; Int 4 tid; Raw name] with (fixed ++ [Raw name]) in *.
  swap_fixed fixed. replace (foreign [Raw name]) with name by (cbn; by rewrite app_nil_r).
  rewrite native_raw. apply swap_after_string_ok; [done|done|done|].
  subst fixed. sizes. change (offsetof comm_event "comm") with 16. lia.
Qed.

Lemma swaps_words ty sid ws : swaps perf_event__all64_swap ty sid (Int 8 <$> ws).
Proof.
  intros misc size rest Hs Hsz. unfold perf_event__all64_swap.
  rewrite header_size_of by done. cbn [mbind res_bind].
  apply (tail_words_ok ty misc size [] ws rest); [done|done|]. sizes. change sizeof_header with 8. lia.
Qed.

Lemma swaps_auxtrace_info sid type reserved priv :
  length reserved = 4%nat ->
  swaps perf_event__auxtrace_info_swap PERF_RECORD_AUXTRACE_INFO sid
    ([Int 4 type; Raw reserved] ++ (Int 8 <$> priv)).
Proof.
  intros Hr misc size rest Hs Hsz. unfold perf_event__auxtrace_info_swap.
  change [Int 4 type; Raw reserved] with ([Int 4 type] ++ [Raw reserved]) in *.
  swap_fixed [Int 4 type]. rewrite header_size_of by done. cbn [mbind res_bind].
  replace (foreign [Raw reserved]) with reserved by (cbn; by rewrite app_nil_r).
  rewrite native_raw. rewrite (app_assoc [Int 4 type] [Raw reserved]).
  assert (Hz : zlen reserved = 4) by (unfold zlen; lia).
  apply tail_words_ok; [done|..]; sizes;
    change (offsetof auxtrace_info_event "priv") with 16; lia.
Qed.

(** Records of fixed members with unordered bytes at the end. *)
Lemma swaps_members l names ty sid fixed tail :
  int_fields 8 fixed ≡ₚ (member l <$> names) ->
  swaps (fun m _ => swap_members l names m) ty sid (fixed ++ [Raw tail]).
Proof.
  intros Hp misc size rest Hs Hsz. rewrite foreign_app, <- app_assoc.
  rewrite (swap_members_ok l names fixed) by done.
  replace (foreign [Raw tail]) with tail by (cbn; by rewrite app_nil_r). by rewrite native_raw.
Qed.

Lemma swaps_members' l names ty sid fixed :
  int_fields 8 fixed ≡ₚ (member l <$> names) ->
  swaps (fun m _ => swap_members l names m) ty sid fixed.
Proof. intros Hp misc size rest Hs Hsz. by apply swap_members_ok. Qed.

(** A member that has its native bytes is read as its value. *)
Lemma rd_native pre n v post off :
  off = zlen pre -> 0 <= v < 256 ^ Z.of_nat n ->
  mem (rd_le (pre ++ le_bytes n v ++ post) off n) = Ok v.
Proof. intros Ho Hv. by rewrite rd_le_mid. Qed.

Lemma swap_error_fixed type code cpu pid tid fmt ip misc size post :
  is_uint 32 fmt ->
  let fixed := [Int 4 type; Int 4 code; Int 4 cpu; Int 4 pid; Int 4 tid; Int 4 fmt; Int 8 ip] in
  let hdr := header_bytes PERF_RECORD_AUXTRACE_ERROR misc size in
  forall sid,
  perf_event__auxtrace_error_swap (hdr ++ foreign fixed ++ post) sid
  = if negb (fmt =? 0)
    then swap_members auxtrace_error_event ["time"] (hdr ++ native fixed ++ post)
    else Ok (hdr ++ native fixed ++ post).
Proof.
  intros Hf fixed hdr sid. subst hdr. unfold perf_event__auxtrace_error_swap.
  rewrite (swap_members_ok _ _ fixed) by fields_perm. cbn [mbind res_bind].
  assert (Hfmt : mem (rd_le (header_bytes PERF_RECORD_AUXTRACE_ERROR misc size ++ native fixed ++ post)
                       (offsetof auxtrace_error_event "fmt") 4) = Ok fmt).
  { change fixed with ([Int 4 type; Int 4 code; Int 4 cpu; Int 4 pid; Int 4 tid] ++
                       [Int 4 fmt] ++ [Int 8 ip]).
    rewrite !native_app, <- !app_assoc, (app_assoc (header_bytes _ _ _)).
    replace (native [Int 4 fmt]) with (le_bytes 4 fmt) by (cbn; by rewrite ?app_nil_r).
    apply rd_native; [by rewrite zlen_app, zlen_header|exact Hf]. }
  by rewrite Hfmt.
Qed.

Lemma swaps_auxtrace_error sid type code cpu pid tid fmt ip time msg :
  0 < fmt < 2 ^ 32 ->
  swaps perf_event__auxtrace_error_swap PERF_RECORD_AUXTRACE_ERROR sid
    [Int 4 type; Int 4 code; Int 4 cpu; Int 4 pid; Int 4 tid; Int 4 fmt; Int 8 ip; Int 8 time;
     Raw msg].
Proof.
  intros Hf misc size rest Hs Hsz.
  set (fixed := [Int 4 type; Int 4 code; Int 4 cpu; Int 4 pid; Int 4 tid; Int 4 fmt; Int 8 ip]).
  change (foreign _) with (foreign (fixed ++ [Int 8 time] ++ [Raw msg])).
  change (native _) with (native (fixed ++ [Int 8 time] ++ [Raw msg])).
  rewrite !foreign_app, !native_app, <- !app_assoc. subst fixed.
  rewrite swap_error_fixed by (split; lia).
  destruct (Z.eqb_spec fmt 0); [lia|]. cbn [negb].
  rewrite (app_assoc (header_bytes _ _ _)). unfold swap_members.
  rewrite swap_fields_foreign; [by rewrite <- app_assoc|].
  rewrite zlen_app, zlen_header. fields_perm.
Qed.

Lemma swaps_auxtrace_error_0 sid type code cpu pid tid ip msg :
  swaps perf_event__auxtrace_error_swap PERF_RECORD_AUXTRACE_ERROR sid
    [Int 4 type; Int 4 code; Int 4 cpu; Int 4 pid; Int 4 tid; Int 4 0; Int 8 ip; Raw msg].
Proof.
  intros misc size rest Hs Hsz.
  set (fixed := [Int 4 type; Int 4 code; Int 4 cpu; Int 4 pid; Int 4 tid; Int 4 0; Int 8 ip]).
  change (foreign _) with (foreign (fixed ++ [Raw msg])).
  change (native _) with (native (fixed ++ [Raw msg])).
  rewrite !foreign_app, !native_app, <- !app_assoc. subst fixed.
  by rewrite swap_error_fixed by done.
Qed.

Definition entry_items (e : Z * bytes) : list item := [Int 8 e.1; Raw e.2].

Lemma foreign_entry p c l : foreign (Int 8 p :: Raw c :: l) = be_bytes 8 p ++ c ++ foreign l.
Proof. done. Qed.

Lemma native_entry p c l : native (Int 8 p :: Raw c :: l) = le_bytes 8 p ++ c ++ native l.
Proof. done. Qed.

Lemma thread_map_loop_ok entries : forall fuel i nr pre post,
  Forall (fun e => length e.2 = 16%nat) entries -> (length entries <= fuel)%nat ->
  0 <= i -> zlen pre = 16 + 24 * i -> nr = i + zlen entries -> nr < 2 ^ 32 ->
  thread_map_loop fuel i nr (pre ++ foreign (entries ≫= entry_items) ++ post)
  = Ok (pre ++ native (entries ≫= entry_items) ++ post).
Proof.
  induction entries as [|[pid comm] entries IH]; intros fuel i nr pre post Hl Hf Hi Hpre Hnr Hlt.
  - rewrite zlen_nil in Hnr. destruct fuel; cbn [thread_map_loop];
      (destruct (Z.ltb_spec i nr); [lia|done]).
  - apply Forall_cons in Hl as [Hc Hl]. destruct fuel as [|fuel]; [cbn in Hf; lia|].
    rewrite zlen_cons in Hnr. pose proof (zlen_nonneg entries).
    cbn [thread_map_loop]. destruct (Z.ltb_spec i nr); [|lia].
    rewrite bind_cons. unfold entry_items at 1 3. cbn [app fst snd] in *.
    rewrite foreign_entry, native_entry, <- !app_assoc.
    rewrite bswap_at_mid
      by (change (offsetof thread_map_event "entries") with 16;
          unfold sizeof_thread_map_event_entry; lia).
    cbn [mbind res_bind]. rewrite u32_small by lia.
    rewrite (app_assoc pre), (app_assoc (pre ++ _) comm).
    rewrite IH; [by rewrite <- !app_assoc|done|cbn in Hf; lia|lia| |lia|done].
    rewrite !zlen_app, zlen_le_bytes, Hpre. unfold zlen. lia.
Qed.

Lemma items_size_entries entries :
  Forall (fun e => length e.2 = 16%nat) entries ->
  items_size (entries ≫= entry_items) = 24 * zlen entries.
Proof.
  induction 1 as [|[p c] l Hc Hl IH]; [done|]. rewrite bind_cons, items_size_app, IH, zlen_cons.
  unfold entry_items. cbn [fst snd] in *. sizes. unfold zlen at 1. lia.
Qed.

Lemma zlen_foreign l : zlen (foreign l) = items_size l.
Proof.
  unfold items_size, foreign, native. induction l as [|i l IH]; [done|].
  cbn. by rewrite !zlen_app, !zlen_item, IH.
Qed.

Lemma swaps_thread_map sid entries :
  Forall (fun e => length e.2 = 16%nat) entries ->
  swaps perf_event__thread_map_swap PERF_RECORD_THREAD_MAP sid
    (Int 8 (zlen entries) :: (entries ≫= entry_items)).
Proof.
  intros Hl misc size rest Hs Hsz. unfold perf_event__thread_map_swap.
  pose proof (items_size_entries entries Hl) as He. pose proof (zlen_nonneg entries).
  unfold is_uint in Hs. rewrite items_size_cons, He in Hsz. cbn [item_size] in Hsz.
  change (Int 8 (zlen entries) :: (entries ≫= entry_items))
    with ([Int 8 (zlen entries)] ++ (entries ≫= entry_items)).
  swap_fixed [Int 8 (zlen entries)].
  rewrite native_app. replace (native [Int 8 (zlen entries)]) with (le_bytes 8 (zlen entries))
    by (cbn; by rewrite ?app_nil_r).
  rewrite rd_native; [|by rewrite zlen_header|split; [done|]; change (256 ^ Z.of_nat 8) with (2 ^ 64); lia].
  cbn [mbind res_bind]. rewrite (app_assoc (header_bytes _ _ _)).
  rewrite thread_map_loop_ok; [by rewrite <- !app_assoc|done| |lia| |lia|lia].
  - pose proof (zlen_foreign (entries ≫= entry_items)) as Hzf. rewrite He in Hzf.
    unfold zlen in *. rewrite !length_app. lia.
  - by rewrite zlen_app, zlen_header, zlen_le_bytes.
Qed.

Lemma swap_u16s_ok ws : forall off pre post,
  off = zlen pre ->
  swap_u16s (length ws) off (pre ++ foreign (Int 2 <$> ws) ++ post)
  = Ok (pre ++ native (Int 2 <$> ws) ++ post).
Proof.
  induction ws as [|w ws IH]; intros off pre post Hoff; [done|].
  cbn [length swap_u16s]. unfold foreign, native in *. cbn [fmap list_fmap mbind list_bind item_bytes].
  rewrite <- !app_assoc, bswap_at_mid by done. cbn [mbind res_bind].
  rewrite (app_assoc pre), IH; [by rewrite <- app_assoc|].
  rewrite zlen_app, zlen_le_bytes. lia.
Qed.

(** The type is read as [PERF_CPU_MAP__CPUS] whatever its value was. *)
Lemma cpu_map_swap_type ty misc size post sid v :
  is_uint 16 v ->
  perf_event__cpu_map_swap (header_bytes ty misc size ++ be_bytes 2 v ++ post) sid
  = (m ← bswap_at 2 10 (header_bytes ty misc size ++ le_bytes 2 0 ++ post);
     nr ← mem (rd_le m 10 2);
     swap_u16s (Z.to_nat nr) 12 m).
Proof.
  intros Hv. unfold perf_event__cpu_map_swap.
  change (offsetof cpu_map_data "type") with 8. change (offsetof cpu_map_data "data") with 10.
  assert (Hb : 0 <= le_val (be_bytes 2 v) < 65536).
  { pose proof (le_val_bound (be_bytes 2 v)) as Hb. unfold zlen in Hb.
    rewrite length_be_bytes in Hb. apply Hb, Forall_reverse, le_bytes_ok. }
  assert (Hrd : rd_le (header_bytes ty misc size ++ be_bytes 2 v ++ post) 8 2 = Some (le_val (be_bytes 2 v)))
    by (unfold rd_le; by rewrite rdn_mid by (by rewrite ?zlen_header, ?length_be_bytes)).
  rewrite Hrd. rred.
  assert (Hz : u16 (bswap_64 (le_val (be_bytes 2 v))) = 0).
  { revert Hb. generalize (le_val (be_bytes 2 v)). intros z Hz. unfold bswap.
    replace z with (z mod 65536) by (apply Z.mod_small; lia).
    rewrite (le_bytes_app 2 6). change (256 ^ Z.of_nat 2) with 65536.
    rewrite Z.div_small by (apply Z.mod_pos_bound; lia).
    rewrite reverse_app, le_val_app. change (le_val (reverse (le_bytes 6 0))) with 0.
    change (256 ^ zlen (reverse (le_bytes 6 0))) with (2 ^ 48).
    rewrite Z.add_0_l. unfold wrap. change (2 ^ 48) with (2 ^ 32 * 2 ^ 16).
    rewrite <- Z.mul_assoc, (Z.mul_comm (2 ^ 16)), Z.mul_assoc. apply Z_mod_mult. }
  rewrite Hz, wrn_app;
    [|by rewrite zlen_header|rewrite zlen_app; unfold zlen; rewrite length_be_bytes, length_le_bytes; lia].
  cbn [mem]. rewrite length_le_bytes, drop_be_bytes. rred. rewrite rd_native by (by rewrite ?zlen_header).
  done.
Qed.

Lemma swaps_cpu_map sid cpus pad :
  swaps perf_event__cpu_map_swap PERF_RECORD_CPU_MAP sid
    ([Int 2 PERF_CPU_MAP__CPUS; Int 2 (zlen cpus)] ++ (Int 2 <$> cpus) ++ [Raw pad]).
Proof.
  intros misc size rest Hs Hsz. unfold is_uint in Hs. pose proof (zlen_nonneg cpus).
  pose proof (zlen_nonneg pad). sizes.
  rewrite !foreign_app, !native_app, <- !app_assoc.
  change (foreign [Int 2 PERF_CPU_MAP__CPUS; Int 2 (zlen cpus)])
    with (be_bytes 2 0 ++ be_bytes 2 (zlen cpus) ++ []).
  change (native [Int 2 PERF_CPU_MAP__CPUS; Int 2 (zlen cpus)])
    with (le_bytes 2 0 ++ le_bytes 2 (zlen cpus) ++ []).
  rewrite !app_nil_r, <- !app_assoc, cpu_map_swap_type by done.
  rewrite (app_assoc (header_bytes _ _ _)), bswap_at_mid
    by (by rewrite zlen_app, zlen_header, zlen_le_bytes).
  cbn [mbind res_bind].
  rewrite rd_native
    by (first [by rewrite zlen_app, zlen_header, zlen_le_bytes|change (256 ^ Z.of_nat 2) with 65536; lia]).
  cbn [mbind res_bind]. unfold zlen at 1. rewrite Nat2Z.id.
  rewrite (app_assoc (header_bytes _ _ _ ++ _)), swap_u16s_ok.
  - by rewrite <- !app_assoc.
  - by rewrite !zlen_app, zlen_header, !zlen_le_bytes.
Qed.

(** * struct perf_event_attr *)

(** An attribute: the members that perf_event__attr_swap knows as integers,
    the others as the bytes of the file. *)
Record attr_file := AttrFile {
  af_type : Z; af_size : Z; af_config : Z; af_sample_period : Z; af_sample_type : Z;
  af_read_format : Z; af_flags : bytes; af_wakeup_events : Z; af_bp_type : Z; af_bp_addr : Z;
  af_bp_len : Z; af_branch_sample_type : Z; af_sample_regs_user : Z; af_sample_stack_user : Z;
  af_clockid : bytes; af_sample_regs_intr : bytes; af_aux_watermark : Z; af_sample_max_stack : Z;
  af_reserved_2 : bytes
}.

Record attr_file_ok (a : attr_file) : Prop := {
  afo_size : is_uint 32 (af_size a);
  afo_flags : length (af_flags a) = 8%nat;
  afo_clockid : length (af_clockid a) = 4%nat;
  afo_regs_intr : length (af_sample_regs_intr a) = 8%nat;
  afo_reserved : length (af_reserved_2 a) = 2%nat
}.

(** An integer at offset [off] of an attribute of which only the first [limit]
    bytes are there: beyond them it stays as it was. *)
Definition int_below (limit off : Z) (n : nat) (v : Z) : item :=
  if off <? limit then Int n v else Raw (be_bytes n v).

(** The members after [type] and [size], with the bit-fields [flags]. *)
Definition attr_before_flags (limit : Z) (a : attr_file) : list item :=
  [int_below limit 8 8 (af_config a); int_below limit 16 8 (af_sample_period a);
   int_below limit 24 8 (af_sample_type a); int_below limit 32 8 (af_read_format a)].

Definition attr_after_flags (limit : Z) (a : attr_file) : list item :=
  [int_below limit 48 4 (af_wakeup_events a); int_below limit 52 4 (af_bp_type a);
   int_below limit 56 8 (af_bp_addr a); int_below limit 64 8 (af_bp_len a);
   int_below limit 72 8 (af_branch_sample_type a); int_below limit 80 8 (af_sample_regs_user a);
   int_below limit 88 4 (af_sample_stack_user a); Raw (af_clockid a);
   Raw (af_sample_regs_intr a); int_below limit 104 4 (af_aux_watermark a);
   int_below limit 108 2 (af_sample_max_stack a); Raw (af_reserved_2 a)].

Definition attr_items (limit : Z) (flags : bytes) (a : attr_file) : list item :=
  [Int 4 (af_type a); Int 4 (af_size a)] ++ attr_before_flags limit a ++ [Raw flags]
  ++ attr_after_flags limit a.

(** The bit-fields on this machine. *)
Definition attr_flags_native (a : attr_file) : bytes :=
  if 40 <? af_size a then revbyte <$> af_flags a else af_flags a.

Lemma foreign_int_below limit off n v l :
  foreign (int_below limit off n v :: l) = be_bytes n v ++ foreign l.
Proof. unfold int_below. by destruct (off <? limit). Qed.

(** What the other machine wrote does not depend on what is swapped. *)
Lemma foreign_attr_items limit limit' flags a :
  foreign (attr_items limit flags a) = foreign (attr_items limit' flags a).
Proof.
  unfold attr_items. rewrite !foreign_app. unfold attr_before_flags, attr_after_flags.
  unfold foreign. cbn [mbind list_bind item_bytes].
  assert (Hi : forall limit off n v, item_bytes true (int_below limit off n v) = be_bytes n v)
    by (intros; unfold int_below; by destruct (_ <? _)).
  by rewrite !Hi.
Qed.

(** ** The loop over the members *)

Lemma bswap_at_prefix n off pre post m :
  zlen pre <= off -> bswap_at n off (pre ++ post) = Ok m -> exists post', m = pre ++ post'.
Proof.
  intros Ho. unfold bswap_at. destruct (rd_le _ off n) as [v|]; [|done]. rred.
  unfold wrn. pose proof (zlen_nonneg pre).
  destruct (Z.ltb_spec off 0); [lia|].
  destruct (Z.ltb_spec (zlen (pre ++ post)) (off + zlen (le_bytes n (bswap n v)))); [done|].
  cbn [orb mem]. intros [= <-]. unfold zlen in *.
  rewrite take_app_ge by lia. rewrite <- app_assoc. eauto.
Qed.

Definition attr_pos (base : Z) (f : string) : Z * nat :=
  (base + fst (attr_member f), snd (attr_member f)).

(** With the size in place the loop swaps the members below it. *)
Lemma bswap_attr_fields_ok base pre size fs : forall post,
  0 <= base -> base + 8 = zlen pre ->
  (forall post, rd_le (pre ++ post) (base + 4) 4 = Some size) ->
  Forall (fun f => 8 <= fst (attr_member f)) fs ->
  bswap_attr_fields base fs (pre ++ post)
  = swap_fields (attr_pos base <$> filter (fun f => fst (attr_member f) < size) fs) (pre ++ post).
Proof.
  induction fs as [|f fs IH]; intros post Hb Hpre Hrd Hfs; [done|].
  apply Forall_cons in Hfs as [Hf Hfs].
  cbn [bswap_attr_fields]. unfold bswap_field, bswap_safe.
  change (fst (attr_member "size")) with 4. rewrite Hrd. rred. rewrite Z.mul_0_r, Z.add_0_r.
  rewrite filter_cons. destruct (Z.ltb_spec (fst (attr_member f)) size) as [Hlt|Hge].
  - rewrite decide_True by done. rewrite fmap_cons. unfold attr_pos at 1. cbn [swap_fields].
    destruct (bswap_at _ _ (pre ++ post)) as [m|e|] eqn:Em; [|done..]. rred.
    apply bswap_at_prefix in Em as [post' ->]; [|lia]. by apply IH.
  - rewrite decide_False by lia. by apply IH.
Qed.

Lemma int_fields_below limit o n v l off :
  int_fields off (int_below limit o n v :: l)
  = (if o <? limit then [(off, n)] else []) ++ int_fields (off + Z.of_nat n) l.
Proof.
  unfold int_below. destruct (o <? limit); [done|]. cbn [int_fields app].
  unfold zlen. by rewrite length_be_bytes.
Qed.

Lemma filter_below (g : string -> Z) size f fs :
  filter (fun f => g f < size) (f :: fs)
  = (if g f <? size then [f] else []) ++ filter (fun f => g f < size) fs.
Proof.
  rewrite filter_cons. destruct (Z.ltb_spec (g f) size).
  - by rewrite decide_True.
  - by rewrite decide_False by lia.
Qed.

Lemma int_fields_raw off bs l : int_fields off (Raw bs :: l) = int_fields (off + zlen bs) l.
Proof. done. Qed.

(** The members below the size are the integers of the attribute. *)
Lemma attr_fields_perm base a :
  attr_file_ok a ->
  int_fields (base + 8)
    (attr_before_flags (af_size a) a ++ [Raw (af_flags a)] ++ attr_after_flags (af_size a) a)
  ≡ₚ (attr_pos base <$> filter (fun f => fst (attr_member f) < af_size a) attr_swapped_fields).
Proof.
  intros [_ Hf Hc Hr Hres]. unfold attr_before_flags, attr_after_flags. cbn [app].
  rewrite !int_fields_below, int_fields_raw, !int_fields_below, !int_fields_raw, !int_fields_below.
  unfold zlen. rewrite Hf, Hc, Hr.
  unfold attr_swapped_fields. rewrite !filter_below, !fmap_app.
  assert (Hif : forall (b : bool) f, attr_pos base <$> (if b then [f] else [])
                          = if b then [attr_pos base f] else []) by (by intros []).
  rewrite !Hif. apply reflexive_eq.
  repeat (apply (f_equal2 app); [|]);
    first [reflexivity |
      match goal with |- (if ?c then _ else _) = (if ?c' then _ else _) =>
        change c' with c; destruct c; [|reflexivity] end;
      unfold attr_pos; f_equal; apply (f_equal2 pair); [|reflexivity];
      rewrite <- !Z.add_assoc; reflexivity].
Qed.

(** ** The bit-fields *)

Lemma swap_bitfield_ok flags : forall pre post p,
  p = zlen pre ->
  swap_bitfield (length flags) p (pre ++ flags ++ post) = Ok (pre ++ (revbyte <$> flags) ++ post).
Proof.
  induction flags as [|b flags IH]; intros pre post p Hp; [done|].
  cbn [length swap_bitfield app]. rewrite rd8_mid by done. rred.
  rewrite wrn_app; [|done|rewrite !zlen_cons, zlen_nil; pose proof (zlen_nonneg (flags ++ post)); lia].
  change (drop (length [revbyte b]) (b :: flags ++ post)) with (flags ++ post).
  rred. rewrite (app_assoc pre), IH.
  - by rewrite <- app_assoc.
  - rewrite zlen_app, Hp. done.
Qed.

(** Bit [i] of a byte becomes bit [7 - i]. *)
Lemma revbyte_bits b i : byte_ok b -> 0 <= i < 8 -> Z.testbit (revbyte b) i = Z.testbit b (7 - i).
Proof.
  intros Hb Hi. unfold byte_ok in Hb.
  assert (Hall : forallb (fun b => forallb (fun i => Bool.eqb (Z.testbit (revbyte b) i)
                   (Z.testbit b (7 - i))) (seqZ 0 8)) (seqZ 0 256) = true) by (vm_compute; done).
  rewrite forallb_forall in Hall.
  specialize (Hall b). rewrite <- list_elem_of_In, elem_of_seqZ in Hall.
  specialize (Hall ltac:(lia)). rewrite forallb_forall in Hall.
  specialize (Hall i). rewrite <- list_elem_of_In, elem_of_seqZ in Hall.
  apply Bool.eqb_prop, Hall. lia.
Qed.

Lemma be_bytes_attr_head a pre post :
  (m ← bswap_at 4 (zlen pre) (pre ++ be_bytes 4 (af_type a) ++ be_bytes 4 (af_size a) ++ post);
   bswap_at 4 (zlen pre + 4) m)
  = Ok ((pre ++ le_bytes 4 (af_type a) ++ le_bytes 4 (af_size a)) ++ post).
Proof.
  rewrite bswap_at_mid by done. cbn [mbind res_bind].
  rewrite (app_assoc pre), bswap_at_mid by (by rewrite zlen_app, zlen_le_bytes).
  by rewrite <- !app_assoc.
Qed.

Lemma attr_size_read a pre :
  is_uint 32 (af_size a) -> forall post,
  rd_le ((pre ++ le_bytes 4 (af_type a) ++ le_bytes 4 (af_size a)) ++ post) (zlen pre + 4) 4
  = Some (af_size a).
Proof.
  intros Hs post. rewrite <- !app_assoc, (app_assoc pre).
  apply rd_le_mid; [by rewrite zlen_app, zlen_le_bytes|exact Hs].
Qed.

Lemma native_head a l :
  native ([Int 4 (af_type a); Int 4 (af_size a)] ++ l)
  = (le_bytes 4 (af_type a) ++ le_bytes 4 (af_size a)) ++ native l.
Proof. unfold native. cbn [app mbind list_bind item_bytes]. by rewrite <- app_assoc. Qed.

Lemma items_size_before limit a : items_size (attr_before_flags limit a) = 32.
Proof.
  unfold attr_before_flags, int_below. rewrite !items_size_cons.
  assert (Hi : forall (b : bool) n v, item_size (if b then Int n v else Raw (be_bytes n v)) = Z.of_nat n)
    by (intros [] n v; [done|]; unfold item_size, zlen; by rewrite length_be_bytes).
  by rewrite !Hi.
Qed.

(** The attribute at the end of [pre]. *)
Lemma attr_swap_ok a pre post :
  attr_file_ok a ->
  perf_event__attr_swap (zlen pre) (pre ++ foreign (attr_items (af_size a) (af_flags a) a) ++ post)
  = Ok (pre ++ native (attr_items (af_size a) (attr_flags_native a) a) ++ post).
Proof.
  intros Ha. pose proof Ha as [Hsz Hfl _ _ _]. unfold perf_event__attr_swap, attr_items.
  change (fst (attr_member "type")) with 0. change (fst (attr_member "size")) with 4.
  change (fst (attr_member "read_format")) with 32. rewrite Z.add_0_r.
  rewrite foreign_app, !native_head.
  replace (foreign [Int 4 (af_type a); Int 4 (af_size a)])
    with (be_bytes 4 (af_type a) ++ be_bytes 4 (af_size a)) by (unfold foreign; cbn; by rewrite ?app_nil_r).
  pose proof (be_bytes_attr_head a pre (foreign (attr_before_flags (af_size a) a ++
    [Raw (af_flags a)] ++ attr_after_flags (af_size a) a) ++ post)) as Hh.
  rewrite <- !app_assoc in Hh. rewrite <- !app_assoc.
  destruct (bswap_at 4 (zlen pre) _) as [m|e|]; [|done..]. cbn [mbind res_bind] in *.
  rewrite Hh. cbn [mbind res_bind].
  set (pre' := pre ++ le_bytes 4 (af_type a) ++ le_bytes 4 (af_size a)).
  assert (Hp' : zlen pre + 8 = zlen pre') by (subst pre'; rewrite !zlen_app, !zlen_le_bytes; lia).
  assert (Hpp : forall X, pre ++ le_bytes 4 (af_type a) ++ le_bytes 4 (af_size a) ++ X = pre' ++ X)
    by (intros X; subst pre'; by rewrite <- !app_assoc).
  rewrite !Hpp.
  rewrite (bswap_attr_fields_ok (zlen pre) pre' (af_size a));
    [|apply zlen_nonneg|done|by apply attr_size_read|
      apply (bool_decide_unpack _); vm_compute; exact I].
  rewrite swap_fields_foreign by (rewrite <- Hp'; by apply attr_fields_perm).
  cbn [mbind res_bind]. unfold bswap_safe. change (fst (attr_member "size")) with 4.
  pose proof (attr_size_read a pre Hsz) as Hrd. fold pre' in Hrd. rewrite Hrd. rred.
  change (fst (attr_member "read_format") + Z.of_nat (snd (attr_member "read_format")) * 1) with 40.
  unfold attr_flags_native. destruct (40 <? af_size a); [|done].
  rewrite !native_app. replace (native [Raw (af_flags a)]) with (af_flags a) by (cbn; by rewrite app_nil_r).
  replace (native [Raw (revbyte <$> af_flags a)]) with (revbyte <$> af_flags a)
    by (unfold native; cbn [mbind list_bind item_bytes]; by rewrite app_nil_r).
  rewrite <- !app_assoc, !(app_assoc pre'). rewrite <- Hfl. apply swap_bitfield_ok.
  rewrite zlen_app, <- Hp'. change (zlen (native (attr_before_flags (af_size a) a)))
    with (items_size (attr_before_flags (af_size a) a)). rewrite items_size_before. lia.
Qed.

(** ** What the table leaves in foreign order *)

Lemma swaps_mmap2 sid pid tid start len pgoff maj min ino gen prot flags name ws :
  length gen = 8%nat -> length prot = 4%nat -> length flags = 4%nat -> padded_string name ->
  swaps perf_event__mmap2_swap PERF_RECORD_MMAP2 sid
    ([Int 4 pid; Int 4 tid; Int 8 start; Int 8 len; Int 8 pgoff; Int 4 maj; Int 4 min; Int 8 ino;
      Raw gen; Raw prot; Raw flags; Raw name] ++ id_words sid ws).
Proof.
  intros Hg Hp Hf Hn misc size rest Hs Hsz. unfold perf_event__mmap2_swap.
  set (ints := [Int 4 pid; Int 4 tid; Int 8 start; Int 8 len; Int 8 pgoff; Int 4 maj; Int 4 min; Int 8 ino]).
  set (raws := [Raw gen; Raw prot; Raw flags]).
  change [Int 4 pid; Int 4 tid; Int 8 start; Int 8 len; Int 8 pgoff; Int 4 maj; Int 4 min; Int 8 ino;
          Raw gen; Raw prot; Raw flags; Raw name] with ((ints ++ raws) ++ [Raw name]) in *.
  swap_fixed ints. replace (foreign [Raw name]) with name by (cbn; by rewrite app_nil_r).
  change (foreign raws) with (native raws).
  rewrite (app_assoc (native ints)), <- native_app, native_raw.
  rewrite (app_assoc ints raws).
  assert (zlen gen = 8 /\ zlen prot = 4 /\ zlen flags = 4) as (Hg' & Hp' & Hf')
    by (unfold zlen; lia).
  apply swap_after_string_ok; [done|done|..]; subst ints raws; sizes;
    change (offsetof mmap2_event "filename") with 72; lia.
Qed.

Lemma switch_swap_skips misc size w ws rest :
  is_uint 16 size -> size = 8 + items_size (Int 8 <$> (w :: ws)) ->
  perf_event__switch_swap
    (header_bytes PERF_RECORD_SWITCH misc size ++ foreign (Int 8 <$> (w :: ws)) ++ rest) true
  = Ok (header_bytes PERF_RECORD_SWITCH misc size ++ be_bytes 8 w ++ native (Int 8 <$> ws) ++ rest).
Proof.
  intros Hs Hsz. unfold perf_event__switch_swap. rewrite header_type_of by done. cbn [mbind res_bind].
  change (PERF_RECORD_SWITCH =? PERF_RECORD_SWITCH_CPU_WIDE) with false. cbv iota. cbn [mbind res_bind].
  change (foreign (Int 8 <$> w :: ws)) with (be_bytes 8 w ++ foreign (Int 8 <$> ws)).
  rewrite <- app_assoc. rewrite fmap_cons in Hsz. pose proof (zlen_nonneg ws).
  pose proof (swap_id_at_ok PERF_RECORD_SWITCH misc size [Raw (be_bytes 8 w)] true ws rest 16) as Hid.
  rewrite native_app in Hid. cbn [id_words] in Hid.
  replace (native [Raw (be_bytes 8 w)]) with (be_bytes 8 w) in Hid by (cbn; by rewrite ?app_nil_r).
  rewrite <- app_assoc in Hid. change (sizeof context_switch_event) with 16.
  apply Hid; [done|by rewrite items_size_cons, items_size_nil; unfold item_size, zlen; rewrite length_be_bytes|].
  sizes.
Qed.

(** The byte count of the entries is taken from [nr] before its swap and cut
    to an [int]: only [nr] itself is swapped. *)
Lemma stat_config_swap_nr ty misc size nr post sid :
  0 <= nr < 2 ^ 24 ->
  perf_event__stat_config_swap (header_bytes ty misc size ++ be_bytes 8 nr ++ post) sid
  = Ok (header_bytes ty misc size ++ le_bytes 8 nr ++ post).
Proof.
  intros Hnr. unfold perf_event__stat_config_swap. change (offsetof stat_config_event "nr") with 8.
  assert (Hrd : rd_le (header_bytes ty misc size ++ be_bytes 8 nr ++ post) 8 8 = Some (le_val (be_bytes 8 nr)))
    by (unfold rd_le; by rewrite rdn_mid by (by rewrite ?zlen_header, ?length_be_bytes)).
  rewrite Hrd. rred.
  assert (Hv : exists k, le_val (be_bytes 8 nr) = k * 2 ^ 40).
  { unfold be_bytes. rewrite (le_bytes_app 3 5), reverse_app, le_val_app.
    change (256 ^ Z.of_nat 3) with (2 ^ 24). rewrite Z.div_small by lia.
    change (le_val (reverse (le_bytes 5 0))) with 0.
    change (256 ^ zlen (reverse (le_bytes 5 0))) with (2 ^ 40).
    exists (le_val (reverse (le_bytes 3 nr))). lia. }
  destruct Hv as [k Hk]. rewrite Hk. unfold sizeof_stat_config_event_entry.
  assert (Hone : sint 32 ((k * 2 ^ 40 *64 16) +64 1) = 1).
  { unfold sint, wrap. rewrite Zplus_mod_idemp_l.
    rewrite Z.mod_mod_divide by (by exists (2 ^ 32)).
    replace (k * 2 ^ 40 * 16 + 1) with (1 + (k * 2 ^ 12) * 2 ^ 32) by lia.
    by rewrite Z_mod_plus_full. }
  rewrite Hone. pose proof (bswap_at_mid 8 nr (header_bytes ty misc size) post 8) as Hb.
  rewrite zlen_header in Hb. specialize (Hb eq_refl). unfold bswap_at in Hb.
  unfold mem_bswap_64. change (Z.to_nat ((1 + 7) / 8)) with 1%nat. cbn [mem_bswap_64_loop].
  change (0 <? 1) with true. cbv iota. unfold rd64. destruct (mem (rd_le _ 8 8)) as [v|e|]; [|done..]. rred. cbn [mbind res_bind] in Hb.
  by rewrite Hb.
Qed.

Lemma swap_u16s_prefix n : forall off pre post m,
  zlen pre <= off -> swap_u16s n off (pre ++ post) = Ok m -> exists post', m = pre ++ post'.
Proof.
  induction n as [|n IH]; intros off pre post m Ho; cbn [swap_u16s]; [intros [= <-]; eauto|].
  destruct (bswap_at 2 off _) as [m1|e|] eqn:E; [|done..]. rred.
  apply bswap_at_prefix in E as [post' ->]; [|done]. apply IH. lia.
Qed.

Lemma cpu_map_swap_loses_type ty misc size v post sid m :
  is_uint 16 v ->
  perf_event__cpu_map_swap (header_bytes ty misc size ++ be_bytes 2 v ++ post) sid = Ok m ->
  rd_le m 8 2 = Some PERF_CPU_MAP__CPUS.
Proof.
  intros Hv. rewrite cpu_map_swap_type by done.
  rewrite (app_assoc (header_bytes _ _ _)).
  assert (Hz : zlen (header_bytes ty misc size ++ le_bytes 2 0) = 10)
    by (by rewrite zlen_app, zlen_header, zlen_le_bytes).
  destruct (bswap_at 2 10 _) as [m1|e|] eqn:E; [|done..]. rred.
  apply bswap_at_prefix in E as [post' ->]; [|by rewrite Hz].
  destruct (rd_le _ 10 2) as [nr|]; [|done]. rred. intros Hm.
  apply swap_u16s_prefix in Hm as [post'' ->]; [|by rewrite Hz].
  rewrite <- app_assoc. apply rd_le_mid; [by rewrite zlen_header|done].
Qed.

(** * Properties *)

Lemma header_bswap_ok ty misc size post :
  perf_event_header__bswap (foreign [Int 4 ty; Int 2 misc; Int 2 size] ++ post)
  = Ok (header_bytes ty misc size ++ post).
Proof.
  unfold perf_event_header__bswap.
  pose proof (swap_fields_foreign [(0, 4%nat); (4, 2%nat); (6, 2%nat)]
                [Int 4 ty; Int 2 misc; Int 2 size] [] post) as H.
  cbn [app] in H. rewrite H by (cbn; done).
  unfold native, header_bytes. cbn [mbind list_bind item_bytes]. by rewrite app_nil_r.
Qed.

(** The operation of every record type of [body]. *)
Lemma body_swaps sid ty items :
  body sid ty items ->
  exists op, perf_event__swap_ops ty = Some (Some op) /\ is_uint 32 ty /\ swaps op ty sid items.
Proof.
  intros Hb. destruct Hb as [| |ty ???????|???????|ty ?????| | | |ty ws Hty| | | | | | | | | | |].
  all: try match goal with
    | H : _ = _ \/ _ = _ |- _ => destruct H as [-> | ->]
    | H : _ ∈ [_; _; _; _; _] |- _ =>
        rewrite !elem_of_cons, elem_of_nil in H; destruct H as [-> |[-> |[-> |[-> |[-> |[]]]]]]
    end.
  all: eexists; split; [reflexivity|]; split; [done|].
  all: eauto using swaps_mmap, swaps_comm, swaps_task, swaps_read, swaps_throttle, swaps_aux,
    swaps_itrace_start, swaps_switch_cpu_wide, swaps_words, swaps_auxtrace_info,
    swaps_auxtrace_error, swaps_auxtrace_error_0, swaps_thread_map, swaps_cpu_map.
  - by apply (swaps_members event_type_event ["event_id"] _ sid [Int 8 id] name).
  - by apply (swaps_members' tracing_data_event ["size"] _ sid [Int 4 size]).
  - apply (swaps_members auxtrace_event ["size"; "offset"; "reference"; "idx"; "tid"; "cpu"] _ sid
             [Int 8 size; Int 8 offset; Int 8 reference; Int 4 idx; Int 4 tid; Int 4 cpu] reserved).
    fields_perm.
  - apply (swaps_members' stat_event ["id"; "thread"; "cpu"; "val"; "ena"; "run"] _ sid). fields_perm.
  - apply (swaps_members' stat_round_event ["type"; "time"] _ sid). fields_perm.
  - apply (swaps_members event_update_event ["type"; "id"] _ sid [Int 8 type; Int 8 id] data). fields_perm.
Qed.

(** Two u32 members in one word of a sample or of a sample id (pid and tid, cpu and
    reserved): as the machine of the other byte order writes them they are the u64
    with the first one in its upper half, and swapped as a u64 they come out native,
    but exchanged. *)
Lemma pair_word_exchanged a b : is_uint 32 a -> is_uint 32 b ->
  foreign [Int 4 a; Int 4 b] = foreign [Int 8 (b + a * 2 ^ 32)] /\
  native [Int 8 (b + a * 2 ^ 32)] = native [Int 4 b; Int 4 a].
Proof.
  unfold is_uint. intros Ha Hb.
  assert (E : le_bytes 8 (b + a * 2 ^ 32) = le_bytes 4 b ++ le_bytes 4 a).
  { rewrite (le_bytes_app 4 4). change (256 ^ Z.of_nat 4) with (2 ^ 32).
    rewrite Z.div_add, Z.div_small, Z.add_0_l by lia. f_equal.
    rewrite <- (le_bytes_mod 4 (b + a * 2 ^ 32)). change (256 ^ Z.of_nat 4) with (2 ^ 32).
    rewrite Z.mod_add, Z.mod_small by lia. done. }
  unfold foreign, native. cbn [mbind list_bind item_bytes]. rewrite !app_nil_r. unfold be_bytes.
  rewrite E. by rewrite reverse_app.
Qed.

(** C19: A record written by a machine of the other byte order is turned into
    the record of this machine, for the record types whose operation is complete,
    in the layouts of [body]: the header by perf_event_header__bswap, then the body
    by event_swap, members, arrays, entries and the trailing sample id, with the
    bytes that have no order (names, padding, messages) and everything after the
    record unchanged.  The bodies of SAMPLE, LOST, LOST_SAMPLES, ID_INDEX and
    TIME_CONV records and all trailing sample ids are meant as sequences of u64
    words here, since that is how the operations swap them: every word becomes
    native, and two u32 members that share a word are therefore native but
    exchanged ([pair_word_exchanged]), which the parser of samples undoes later
    ([cross_endian_u32s]).  MMAP2, NAMESPACES, SWITCH, STAT_CONFIG and CPU_MAP masks
    are not in [body]: parts of them stay foreign ([event_swap_stays_foreign]). *)
Theorem event_swap_native sid ty items misc size rest :
  body sid ty items -> size = 8 + items_size items -> size < 2 ^ 16 ->
  (m ← perf_event_header__bswap (foreign ([Int 4 ty; Int 2 misc; Int 2 size] ++ items) ++ rest);
   event_swap m sid)
  = Ok (native ([Int 4 ty; Int 2 misc; Int 2 size] ++ items) ++ rest).
Proof.
  intros Hb Hsz Hlt. destruct (body_swaps _ _ _ Hb) as (op & Hop & Hty & Hsw).
  rewrite foreign_app, <- app_assoc, header_bswap_ok. cbn [mbind res_bind].
  rewrite (event_swap_dispatch ty op) by done.
  pose proof (items_size_nonneg items). rewrite Hsw by (unfold is_uint; lia).
  by rewrite native_app, <- app_assoc.
Qed.

(** The attribute record.  perf_event__hdr_attr_swap makes native the
    type, the size, every integer member that starts below the size the
    file states (all but clockid and sample_regs_intr, which stay as they
    were) and the ids; members beyond the stated size are left alone, so an
    attribute of an older ABI is not damaged; and of the bit-fields, when the
    size covers them, bit [i] of each byte becomes bit [7 - i]. *)
Theorem hdr_attr_swap_native a ids misc size rest sid :
  attr_file_ok a -> bytes_ok (af_flags a) ->
  size = 8 + 112 + 8 * zlen ids -> size < 2 ^ 16 ->
  event_swap (header_bytes PERF_RECORD_HEADER_ATTR misc size
              ++ foreign (attr_items (2 ^ 32) (af_flags a) a ++ (Int 8 <$> ids)) ++ rest) sid
  = Ok (header_bytes PERF_RECORD_HEADER_ATTR misc size
        ++ native (attr_items (af_size a) (attr_flags_native a) a ++ (Int 8 <$> ids)) ++ rest)
  /\ (40 < af_size a -> forall k i b, (k < 8)%nat -> 0 <= i < 8 ->
        af_flags a !! k = Some b ->
        exists b', attr_flags_native a !! k = Some b' /\ Z.testbit b' i = Z.testbit b (7 - i)).
Proof.
  intros Ha Hok Hsz Hlt. pose proof (zlen_nonneg ids). split.
  - rewrite (event_swap_dispatch _ perf_event__hdr_attr_swap) by done.
    unfold perf_event__hdr_attr_swap. rewrite foreign_app, <- app_assoc.
    rewrite (foreign_attr_items _ (af_size a)).
    pose proof (attr_swap_ok a (header_bytes PERF_RECORD_HEADER_ATTR misc size)
                  (foreign (Int 8 <$> ids) ++ rest) Ha) as Hat.
    rewrite zlen_header in Hat. unfold sizeof_header. rewrite Hat. cbn [mbind res_bind].
    rewrite header_size_of by (unfold is_uint; lia). cbn [mbind res_bind].
    change (8 + sizeof_attr) with 120.
    apply tail_words_ok; [unfold is_uint; lia| |lia].
    unfold attr_items. rewrite !items_size_app, items_size_before.
    destruct Ha as [_ Hfl Hc Hr Hres].
    unfold attr_after_flags, attr_flags_native, int_below.
    assert (Hi : forall (b : bool) n v, item_size (if b then Int n v else Raw (be_bytes n v)) = Z.of_nat n)
      by (intros [] n v; [done|]; unfold item_size, zlen; by rewrite length_be_bytes).
    rewrite !items_size_cons, !items_size_nil, !Hi. unfold item_size, zlen.
    destruct (40 <? af_size a); rewrite ?length_fmap, Hfl, Hc, Hr, Hres; lia.
  - intros Hbig k i b Hk Hi Hb. unfold attr_flags_native.
    destruct (Z.ltb_spec 40 (af_size a)); [|lia]. exists (revbyte b).
    rewrite list_lookup_fmap, Hb. split; [done|].
    apply revbyte_bits; [|done]. by eapply bytes_ok_lookup.
Qed.

(** What the conversion leaves in the order of the file.  Of a MMAP2
    record, ino_generation, prot and flags; of the sample id of a SWITCH
    record, which follows the header at once, the first word, the swap
    starting after the members that only SWITCH_CPU_WIDE has; of a STAT_CONFIG
    record, all entries, the byte count being taken from [nr] before its swap;
    the type of a CPU_MAP record becomes PERF_CPU_MAP__CPUS whatever it was;
    and a NAMESPACES record is not touched. *)
Theorem event_swap_stays_foreign misc size rest :
  is_uint 16 size ->
  (forall sid pid tid start len pgoff maj min ino gen prot flags name ws,
     padded_string name ->
     let ints := [Int 4 pid; Int 4 tid; Int 8 start; Int 8 len; Int 8 pgoff; Int 4 maj; Int 4 min;
                  Int 8 ino] in
     size = 72 + zlen name + items_size (id_words sid ws) ->
     event_swap (header_bytes PERF_RECORD_MMAP2 misc size
       ++ foreign (ints ++ [Int 8 gen; Int 4 prot; Int 4 flags; Raw name] ++ id_words sid ws) ++ rest) sid
     = Ok (header_bytes PERF_RECORD_MMAP2 misc size
           ++ native ints ++ foreign [Int 8 gen; Int 4 prot; Int 4 flags] ++ name
           ++ native (id_words sid ws) ++ rest)) /\
  (forall w ws, size = 16 + 8 * zlen ws ->
     event_swap (header_bytes PERF_RECORD_SWITCH misc size ++ foreign (Int 8 <$> (w :: ws)) ++ rest) true
     = Ok (header_bytes PERF_RECORD_SWITCH misc size ++ be_bytes 8 w ++ native (Int 8 <$> ws) ++ rest)) /\
  (forall nr entries sid, 0 <= nr < 2 ^ 24 ->
     event_swap (header_bytes PERF_RECORD_STAT_CONFIG misc size ++ be_bytes 8 nr
                 ++ foreign (Int 8 <$> entries) ++ rest) sid
     = Ok (header_bytes PERF_RECORD_STAT_CONFIG misc size ++ le_bytes 8 nr
           ++ foreign (Int 8 <$> entries) ++ rest)) /\
  (forall type data sid m, is_uint 16 type ->
     event_swap (header_bytes PERF_RECORD_CPU_MAP misc size ++ be_bytes 2 type ++ data) sid = Ok m ->
     rd_le m (offsetof cpu_map_data "type") 2 = Some PERF_CPU_MAP__CPUS) /\
  (forall data sid,
     event_swap (header_bytes PERF_RECORD_NAMESPACES misc size ++ data) sid
     = Ok (header_bytes PERF_RECORD_NAMESPACES misc size ++ data)).
Proof.
  intros Hs. split_and!.
  - intros sid pid tid start len pgoff maj min ino gen prot flags name ws Hn ints Hsz.
    rewrite (event_swap_dispatch _ perf_event__mmap2_swap) by done.
    pose proof (swaps_mmap2 sid pid tid start len pgoff maj min ino (be_bytes 8 gen)
      (be_bytes 4 prot) (be_bytes 4 flags) name ws (length_be_bytes _ _) (length_be_bytes _ _)
      (length_be_bytes _ _) Hn misc size rest Hs) as Hm.
    assert (Hz : size = 8 + items_size ([Int 4 pid; Int 4 tid; Int 8 start; Int 8 len; Int 8 pgoff;
      Int 4 maj; Int 4 min; Int 8 ino; Raw (be_bytes 8 gen); Raw (be_bytes 4 prot);
      Raw (be_bytes 4 flags); Raw name] ++ id_words sid ws)).
    { rewrite items_size_app, !items_size_cons, items_size_nil. cbn [item_size].
      unfold zlen in *. rewrite !length_be_bytes. lia. }
    etransitivity; [exact (Hm Hz)|]. rewrite native_app, <- app_assoc. do 2 f_equal.
    unfold native, foreign. cbn [mbind list_bind item_bytes app].
    by rewrite <- !app_assoc, ?app_nil_l.
  - intros w ws Hsz. rewrite (event_swap_dispatch _ perf_event__switch_swap) by done.
    apply switch_swap_skips; [done|]. rewrite items_size_ints, zlen_cons. lia.
  - intros nr entries sid Hnr.
    rewrite (event_swap_dispatch _ perf_event__stat_config_swap) by done. by apply stat_config_swap_nr.
  - intros type data sid m Hty. rewrite (event_swap_dispatch _ perf_event__cpu_map_swap) by done.
    by apply cpu_map_swap_loses_type.
  - intros data sid. unfold event_swap. by rewrite header_type_of by done.
Qed.

Lemma bswap_at_cases n off m :
  (exists m', bswap_at n off m = Ok m' /\ zlen m' = zlen m /\ 0 <= off /\ off + Z.of_nat n <= zlen m)
  \/ (bswap_at n off m = Oob /\ (off < 0 \/ zlen m < off + Z.of_nat n)).
Proof.
  unfold bswap_at, rd_le, rdn. destruct (Z.ltb_spec off 0); [right; split; [done|lia]|].
  destruct (Z.ltb_spec (zlen m) (off + Z.of_nat n)); [right; split; [done|lia]|]. left.
  cbn [orb]. mred. cbn [mem mbind res_bind]. unfold wrn. rewrite zlen_le_bytes.
  destruct (Z.ltb_spec off 0); [lia|].
  destruct (Z.ltb_spec (zlen m) (off + Z.of_nat n)); [lia|]. cbn [orb mem].
  eexists. split; [done|]. split; [|lia].
  unfold zlen in *. rewrite !length_app, length_le_bytes, length_take, length_drop. lia.
Qed.

Lemma thread_map_loop_oob fuel : forall i nr m,
  0 <= i < nr -> nr < 2 ^ 32 -> zlen m < 16 + 24 * nr - 16 -> thread_map_loop fuel i nr m = Oob.
Proof.
  induction fuel as [|fuel IH]; intros i nr m Hi Hnr Hm; cbn [thread_map_loop];
    (destruct (Z.ltb_spec i nr); [|lia]); [done|].
  change (offsetof thread_map_event "entries") with 16. unfold sizeof_thread_map_event_entry.
  destruct (bswap_at_cases 8 (16 + i * 24) m) as [(m' & -> & Hl & _ & Hb)|[-> _]]; [|done].
  rred. rewrite u32_small by lia. apply IH; lia.
Qed.

(** What the conversion takes from the file unchecked.  A type above
    PERF_RECORD_HEADER_MAX indexes perf_event__swap_ops outside its array,
    before perf_session__process_event compares the type with that bound; a
    THREAD_MAP record whose [nr] claims an entry past the end of the memory is
    swapped past that end; and a record with a sample id whose size is not a
    multiple of 8 stops the program at the BUG_ON. *)
Theorem event_swap_trusts_file misc size post :
  (forall ty sid, PERF_RECORD_HEADER_MAX < ty < 2 ^ 32 ->
     event_swap (header_bytes ty misc size ++ post) sid = Oob) /\
  (forall nr sid, 0 < nr < 2 ^ 32 -> zlen post < 24 * nr - 16 ->
     event_swap (header_bytes PERF_RECORD_THREAD_MAP misc size ++ be_bytes 8 nr ++ post) sid = Oob) /\
  (forall ty pid ppid tid ptid time, ty = PERF_RECORD_FORK \/ ty = PERF_RECORD_EXIT ->
     is_uint 16 size -> size mod 8 <> 0 ->
     event_swap (header_bytes ty misc size
       ++ foreign [Int 4 pid; Int 4 ppid; Int 4 tid; Int 4 ptid; Int 8 time] ++ post) true = Err ABORT).
Proof.
  split_and!.
  - intros ty sid Hty. unfold PERF_RECORD_HEADER_MAX in *. unfold event_swap.
    rewrite header_type_of by (unfold is_uint; lia). rred.
    unfold perf_event__swap_ops, PERF_RECORD_HEADER_MAX.
    destruct (Z.ltb_spec ty 0); [lia|]. by destruct (Z.ltb_spec 81 ty); [|lia].
  - intros nr sid Hnr Hpost. rewrite (event_swap_dispatch _ perf_event__thread_map_swap) by done.
    unfold perf_event__thread_map_swap.
    replace (be_bytes 8 nr) with (foreign [Int 8 nr]) by (unfold foreign; cbn; by rewrite ?app_nil_r).
    rewrite (swap_members_ok _ _ [Int 8 nr]) by fields_perm. cbn [mbind res_bind].
    replace (native [Int 8 nr]) with (le_bytes 8 nr) by (unfold native; cbn; by rewrite ?app_nil_r).
    rewrite rd_native; [|by rewrite zlen_header|change (256 ^ Z.of_nat 8) with (2 ^ 64); lia].
    rred. apply thread_map_loop_oob; [lia|lia|].
    rewrite !zlen_app, zlen_header, zlen_le_bytes. lia.
  - intros ty pid ppid tid ptid time Hty Hs Hmod.
    rewrite (event_swap_dispatch _ perf_event__task_swap) by (by destruct Hty as [-> | ->]).
    unfold perf_event__task_swap. rewrite (swap_members_ok _ _ _) by fields_perm.
    cbn [mbind res_bind]. unfold swap_id_at, swap_sample_id_all.
    rewrite header_size_of by done. cbn [mbind res_bind]. change (sizeof fork_event) with 32.
    unfold is_uint in Hs. rewrite sint32_small by lia.
    destruct (Z.eqb_spec ((size - 32) mod 8) 0) as [He|]; [|done].
    destruct Hmod. replace size with (size - 32 + 4 * 8) by lia. by rewrite Z_mod_plus_full.
Qed.

(** * Witnesses *)

Module SessionSwapExamples.

Lemma abc_padded : padded_string [97; 98; 99; 0; 0; 0; 0; 0].
Proof.
  exists [97; 98; 99], [0; 0; 0; 0]. split; [done|]. split; [|done].
  repeat constructor; done.
Qed.

(** A COMM record of a big endian machine, byte by byte. *)
Lemma event_swap_native_witness :
  (m ← perf_event_header__bswap
         ([0; 0; 0; 3; 0; 0; 0; 32; 0; 0; 1; 2; 0; 0; 3; 4; 97; 98; 99; 0; 0; 0; 0; 0;
           1; 2; 3; 4; 5; 6; 7; 8] ++ [255]);
   event_swap m true)
  = Ok ([3; 0; 0; 0; 0; 0; 32; 0; 2; 1; 0; 0; 4; 3; 0; 0; 97; 98; 99; 0; 0; 0; 0; 0;
         8; 7; 6; 5; 4; 3; 2; 1] ++ [255]).
Proof.
  exact (event_swap_native true PERF_RECORD_COMM _ 0 32 [255]
    (body_comm true 258 772 [97; 98; 99; 0; 0; 0; 0; 0] [72623859790382856] abc_padded)
    eq_refl eq_refl).
Defined.

Definition v0_attr : attr_file :=
  AttrFile 1 64 2 4000 263 4 [128; 0; 0; 0; 0; 0; 0; 1] 1 0 0 0 7 0 0 (replicate 4 0) (replicate 8 0)
    0 0 (replicate 2 0).

Lemma v0_attr_ok : attr_file_ok v0_attr.
Proof. split; done. Qed.

(** An attribute of the first ABI: the member after 64 bytes is left alone,
    and the bit-field [disabled] is bit 0 on this machine. *)
Lemma hdr_attr_swap_native_witness :
  event_swap (header_bytes PERF_RECORD_HEADER_ATTR 0 128
    ++ foreign (attr_items (2 ^ 32) (af_flags v0_attr) v0_attr ++ (Int 8 <$> [5])) ++ []) false
  = Ok (header_bytes PERF_RECORD_HEADER_ATTR 0 128
        ++ native (attr_items 64 [1; 0; 0; 0; 0; 0; 0; 128] v0_attr ++ (Int 8 <$> [5])) ++ []).
Proof.
  refine (proj1 (hdr_attr_swap_native v0_attr [5] 0 128 [] false v0_attr_ok _ eq_refl eq_refl)).
  apply (bool_decide_unpack _); vm_compute; exact I.
Defined.

(** A SWITCH record with a sample id of two words. *)
Lemma event_swap_stays_foreign_witness :
  event_swap (header_bytes PERF_RECORD_SWITCH 0 24 ++ foreign (Int 8 <$> [1; 2]) ++ []) true
  = Ok (header_bytes PERF_RECORD_SWITCH 0 24 ++ be_bytes 8 1 ++ native (Int 8 <$> [2]) ++ []).
Proof.
  refine (proj1 (proj2 (event_swap_stays_foreign 0 24 [] _)) 1 [2] eq_refl).
  split; done.
Defined.

(** A THREAD_MAP record that claims 9 entries and ends after [nr]. *)
Lemma event_swap_trusts_file_witness :
  event_swap (header_bytes PERF_RECORD_THREAD_MAP 0 16 ++ be_bytes 8 9 ++ []) false = Oob.
Proof.
  refine (proj1 (proj2 (event_swap_trusts_file 0 16 [])) 9 false _ _); [lia|vm_compute; done].
Defined.

End SessionSwapExamples.
