(* ===== verification/Cpumap.v ===== *)
(** Model of util/cpumap.c and of the CPU_MAP records of util/event.c: lists of
    cpus as text (cpu_map__new, cpu_map__read, cpu_map__snprint,
    cpu_map__snprint_mask), as record data (cpu_map_data__alloc,
    cpu_map_data__synthesize, cpu_map__new_data), searching and grouping them
    (cpu_map__idx, cpu_map__build_map).

    A struct cpu_map is the list of its [nr] cpus.  [alloc n] says whether an
    allocation of [n] bytes succeeds; the figures that the system reports
    (sysconf, the topology files) are parameters.  Reading [map[i]] with
    [i >= nr] and storing outside an allocation is [Oob]. *)

From S2P Require Import Prelude Strings SessionSwap.

Definition INT_MAX : Z := 2147483647.
Definition ULONG_MAX : Z := 2 ^ 64 - 1.
Definition MAX_NR_CPUS : Z := 1024.
(** [struct cpu_map { refcount_t refcnt; int nr; int map[]; }] *)
Definition sizeof_cpu_map : Z := 8.
Definition cCOMMA : Z := 44.
Definition cNEWLINE : Z := 10.

(** * Numbers of the C library *)

(** isspace of the C locale. *)
Definition c_space (c : Z) : bool := ((9 <=? c) && (c <=? 13)) || (c =? 32).

Definition digit_of (base c : Z) : option Z :=
  let v := if (48 <=? c) && (c <=? 57) then c - 48
           else if (97 <=? c) && (c <=? 122) then c - 87
           else if (65 <=? c) && (c <=? 90) then c - 55 else 99 in
  if v <? base then Some v else None.

Fixpoint digits (base acc : Z) (p : cstr) : Z * cstr :=
  match p with
  | c :: p' => match digit_of base c with
               | Some d => digits base (acc * base + d) p'
               | None => (acc, p)
               end
  | [] => (acc, p)
  end.

Fixpoint skip_space (p : cstr) : cstr :=
  match p with
  | c :: p' => if c_space c then skip_space p' else p
  | [] => []
  end.

(** A sign of a number: the rest and whether it is a minus. *)
Definition sign_of (p : cstr) : bool * cstr :=
  match p with
  | c :: p' => if c =? cDASH then (true, p') else if c =? 43 then (false, p') else (false, p)
  | [] => (false, p)
  end.

(** The base that the prefix of a number selects, and the rest. *)
Definition base_of (p : cstr) : Z * cstr :=
  match p with
  | c :: x :: d :: p' =>
      if (c =? 48) && ((x =? 120) || (x =? 88)) && bool_decide (is_Some (digit_of 16 d))
      then (16, d :: p') else if c =? 48 then (8, p) else (10, p)
  | c :: _ => if c =? 48 then (8, p) else (10, p)
  | [] => (10, p)
  end.

(** strtoul(p, &end, 0): the value, saturated, and the end pointer. *)
Definition strtoul (p : cstr) : Z * cstr :=
  let '(neg, q) := sign_of (skip_space p) in
  let '(base, q) := base_of q in
  match q with
  | c :: _ => match digit_of base c with
              | Some _ => let '(v, r) := digits base 0 q in
                          if ULONG_MAX <? v then (ULONG_MAX, r)
                          else ((if neg then u64 (- v) else v), r)
              | None => (0, p)
              end
  | [] => (0, p)
  end.

(** The text of [%d] for a value that is not negative: [fuel] digits suffice. *)
Fixpoint udec (fuel : nat) (v : Z) (acc : cstr) : cstr :=
  match fuel with
  | O => acc
  | S fuel => let acc := 48 + v mod 10 :: acc in
              if v / 10 =? 0 then acc else udec fuel (v / 10) acc
  end.

Definition fmt_d (v : Z) : cstr :=
  if v <? 0 then cDASH :: udec 11 (- v) [] else udec 11 v [].

Section Cpumap.
Context (alloc : Z -> bool).
(** sysconf(_SC_NPROCESSORS_ONLN) *)
Context (nprocessors_onln : Z).

(** * Making maps *)

Definition cpu_map__default_new : option (list Z) :=
  if nprocessors_onln <? 0 then None
  else if alloc (sizeof_cpu_map + nprocessors_onln * 4)
       then Some (seqZ 0 nprocessors_onln) else None.

Definition cpu_map__trim_new (tmp_cpus : list Z) : option (list Z) :=
  if alloc (sizeof_cpu_map + zlen tmp_cpus * 4) then Some tmp_cpus else None.

Definition cpu_map__dummy_new : option (list Z) :=
  if alloc (sizeof_cpu_map + 4) then Some [-1] else None.

Definition cpu_map__empty_new (nr : Z) : option (list Z) :=
  if alloc (sizeof_cpu_map + 4 * nr) then Some (replicate (Z.to_nat nr) (-1)) else None.

(** The growing array [tmp_cpus] of [max_entries] ints, [nr_cpus] of them in
    use. *)
Record tmp_array := Tmp { tmp_cpus : list Z; max_entries : Z }.

Definition nr_cpus (t : tmp_array) : Z := zlen (tmp_cpus t).

(** The numbers of cpus are ints; an overflow is undefined. *)
Definition int_of (z : Z) : res Z := if (- INT_MAX - 1 <=? z) && (z <=? INT_MAX) then Ok z else Oob.

(** [max_entries = n; tmp = realloc(tmp_cpus, max_entries * sizeof(int));] *)
Definition grow (t : tmp_array) (n : Z) : option tmp_array :=
  if alloc (u64 (n * 4)) then Some (Tmp (tmp_cpus t) n) else None.

(** [tmp_cpus[nr_cpus++] = cpu] *)
Definition push (t : tmp_array) (cpu : Z) : res tmp_array :=
  if nr_cpus t <? max_entries t then Ok (Tmp (tmp_cpus t ++ [cpu]) (max_entries t)) else Oob.

(** The label [invalid] of cpu_map__new and [out_free_tmp] of cpu_map__read. *)
Definition INVALID : Z := -1.
Definition or_invalid {A} (o : option A) : res A :=
  match o with Some a => Ok a | None => Err INVALID end.

(** [if (nr_cpus == max_entries)] make room for MAX_NR_CPUS more. *)
Definition reserve (t : tmp_array) : res tmp_array :=
  if nr_cpus t =? max_entries t then
    n ← int_of (max_entries t + MAX_NR_CPUS);
    or_invalid (grow t n)
  else Ok t.

(** [for (; start_cpu <= end_cpu; start_cpu++)] of cpu_map__new, [n] times. *)
Fixpoint add_range (n : nat) (start_cpu : Z) (t : tmp_array) : res tmp_array :=
  match n with
  | O => Ok t
  | S n =>
      if bool_decide (start_cpu ∈ tmp_cpus t) then Err INVALID
      else t ← reserve t; t ← push t start_cpu; add_range n (start_cpu + 1) t
  end.

(** One turn of the loop over the list: the cpus that it names and the rest of
    the text. *)
Definition parse_item (cpu_list : cstr) (t : tmp_array) : res (tmp_array * cstr) :=
  let '(start_cpu, p) := strtoul cpu_list in
  if (INT_MAX <=? start_cpu)
     || (negb (deref p =? 0) && negb (deref p =? cCOMMA) && negb (deref p =? cDASH))
  then Err INVALID else
  '(end_cpu, p) ←
    (if deref p =? cDASH then
       let '(end_cpu, q) := strtoul (tail p) in
       if (INT_MAX <=? end_cpu) || (negb (deref q =? 0) && negb (deref q =? cCOMMA))
       then Err INVALID
       else if end_cpu <? start_cpu then Err INVALID else Ok (end_cpu, q)
     else Ok (start_cpu, p));
  t ← add_range (Z.to_nat (end_cpu - start_cpu + 1)) start_cpu t;
  Ok (t, tail p).

(** [while (isdigit( *cpu_list))]; every turn takes a character, so a fuel above
    the length is enough. *)
Fixpoint cpu_map_loop (fuel : nat) (cpu_list : cstr) (t : tmp_array) : res (tmp_array * cstr) :=
  match fuel with
  | O => Ok (t, cpu_list)
  | S fuel =>
      if isdigit (deref cpu_list) then
        '(t, p) ← parse_item cpu_list t; cpu_map_loop fuel p t
      else Ok (t, cpu_list)
  end.

Definition cpu_map__new (cpu_list : cstr) : res (option (list Z)) :=
  if negb (isdigit (deref cpu_list)) && negb (deref cpu_list =? 0) then Ok None else
  match cpu_map_loop (S (length cpu_list)) cpu_list (Tmp [] 0) with
  | Ok (t, cpu_list) =>
      Ok (if 0 <? nr_cpus t then cpu_map__trim_new (tmp_cpus t)
          else if negb (deref cpu_list =? 0) then cpu_map__default_new
          else cpu_map__dummy_new)
  | Err _ => Ok None
  | Oob => Oob
  end.

(** ** cpu_map__read *)

(** fscanf(file, "%u%c", &cpu, &sep): the number of conversions, [cpu], [sep]
    and the rest of the file; the values of before are kept where nothing is
    converted.  [cpu] is an int. *)
Definition scan_u (file : cstr) : option (Z * cstr) :=
  let '(neg, q) := sign_of (skip_space file) in
  match q with
  | c :: _ => if isdigit c then
                let '(v, r) := digits 10 0 q in
                Some ((if ULONG_MAX <? v then ULONG_MAX else if neg then - v else v), r)
              else None
  | [] => None
  end.

Definition fscanf_uc (file : cstr) (cpu sep : Z) : Z * Z * Z * cstr :=
  match scan_u file with
  | None => (0, cpu, sep, file)
  | Some (v, []) => (1, sint 32 v, sep, [])
  | Some (v, c :: r) => (2, sint 32 v, c, r)
  end.

(** [while (++prev < cpu) tmp_cpus[nr_cpus++] = prev;] *)
Fixpoint fill_range (n : nat) (prev : Z) (t : tmp_array) : res tmp_array :=
  match n with
  | O => Ok t
  | S n => t ← push t prev; fill_range n (prev + 1) t
  end.

Fixpoint read_loop (fuel : nat) (file : cstr) (cpu sep prev : Z) (t : tmp_array) : res tmp_array :=
  match fuel with
  | O => Ok t
  | S fuel =>
      let '(n, cpu, sep, file) := fscanf_uc file cpu sep in
      if n <=? 0 then Ok t else
      t ← (if 0 <=? prev then
             sum ← int_of (nr_cpus t + cpu);
             new_max ← int_of (sum - prev - 1);
             t ← (if max_entries t <=? new_max
                  then n ← int_of (new_max + MAX_NR_CPUS / 2); or_invalid (grow t n) else Ok t);
             fill_range (Z.to_nat (cpu - prev - 1)) (prev + 1) t
           else Ok t);
      t ← reserve t;
      t ← push t cpu;
      let prev := if (n =? 2) && (sep =? cDASH) then cpu else -1 in
      if (n =? 1) || (sep =? cNEWLINE) then Ok t
      else read_loop fuel file cpu sep prev t
  end.

Definition cpu_map__read (file : cstr) : res (option (list Z)) :=
  match read_loop (S (length file)) file 0 0 (-1) (Tmp [] 0) with
  | Ok t => Ok (if 0 <? nr_cpus t then cpu_map__trim_new (tmp_cpus t) else cpu_map__default_new)
  | Err _ => Ok None
  | Oob => Oob
  end.

(** cpu_map__new(NULL): [online] is the text of the file of that name, if it can
    be opened. *)
Definition cpu_map__read_all_cpu_map (online : option cstr) : res (option (list Z)) :=
  match online with
  | None => Ok cpu_map__default_new
  | Some file => cpu_map__read file
  end.

(** ** Maps from record data *)

(** [cpus->cpu[i]] for [n] indices; a u16 of -1 stands for the cpu -1. *)
Fixpoint read_cpus (n : nat) (off : Z) (m : bytes) : res (list Z) :=
  match n with
  | O => Ok []
  | S n => c ← mem (rd_le m off 2); l ← read_cpus n (off + 2) m;
           Ok ((if c =? 65535 then -1 else c) :: l)
  end.

Definition cpu_map__from_entries (m : bytes) (entries : Z) : res (option (list Z)) :=
  nr ← mem (rd_le m entries 2);
  match cpu_map__empty_new nr with
  | None => Ok None
  | Some _ =>
      cpus ← read_cpus (Z.to_nat nr) (entries + 2) m;
      Ok (Some cpus)
  end.

(** The bits below [nbits] that are set, in increasing order, as for_each_set_bit
    visits them; [w] is the bitmap as a number. *)
Definition set_bits (w nbits : Z) : list Z := filter (fun i => Z.testbit w i = true) (seqZ 0 nbits).

(** [struct cpu_map_mask { u16 nr; u16 long_size; unsigned long mask[]; }]: the
    array is 8 bytes from the start.  bitmap_weight reads whole longs. *)
Definition mask_offset : Z := 8.

Definition cpu_map__from_mask (m : bytes) (mask : Z) : res (option (list Z)) :=
  nr ← mem (rd_le m mask 2);
  long_size ← mem (rd_le m (mask + 2) 2);
  let nbits := nr * long_size * 8 in
  w ← mem (rd_le m (mask + mask_offset) (Z.to_nat ((nbits + 63) / 64 * 8)));
  let cpus := set_bits w nbits in
  match cpu_map__empty_new (zlen cpus) with
  | None => Ok None
  | Some _ => Ok (Some cpus)
  end.

(** [data] is the offset of the struct cpu_map_data in the memory [m]. *)
Definition cpu_map__new_data (m : bytes) (data : Z) : res (option (list Z)) :=
  type ← mem (rd_le m data 2);
  if type =? PERF_CPU_MAP__CPUS then cpu_map__from_entries m (data + 2)
  else cpu_map__from_mask m (data + 2).

(** * Searching *)

Definition cpu_map__idx (cpus : list Z) (cpu : Z) : Z :=
  match list_find (fun c => c = cpu) cpus with
  | Some (i, _) => Z.of_nat i
  | None => -1
  end.

Definition cpu_map__has (cpus : list Z) (cpu : Z) : bool := negb (cpu_map__idx cpus cpu =? -1).

Definition cpu_map__cpu (cpus : list Z) (idx : Z) : res Z := mem (rd8 cpus idx).

Definition cpu_map__empty (cpus : option (list Z)) : res bool :=
  match cpus with
  | None => Ok true
  | Some m => c ← cpu_map__cpu m 0; Ok (c =? -1)
  end.

Definition cpu_map__nr (cpus : option (list Z)) : Z :=
  match cpus with None => 1 | Some m => zlen m end.

(** * Grouping cpus: cpu_map__build_map *)

(** The callback; [socket_id] and [core_id] are what the topology files say, or
    a negative error. *)
Context (socket_id core_id : Z -> Z).

Definition cpu_map__get_socket (map : list Z) (idx : Z) : res Z :=
  if zlen map <? idx then Ok (-1)
  else cpu ← cpu_map__cpu map idx; Ok (socket_id cpu).

Definition cpu_map__get_core (map : list Z) (idx : Z) : res Z :=
  if zlen map <? idx then Ok (-1)
  else cpu ← cpu_map__cpu map idx;
       s ← cpu_map__get_socket map idx;
       if s =? -1 then Ok (-1)
       else Ok (sint 32 (Z.lor (Z.shiftl s 16) (Z.land (core_id cpu) 65535))).

Definition cpu_map__id_to_socket (id : Z) : Z := Z.shiftr id 16.
Definition cpu_map__id_to_cpu (id : Z) : Z := Z.land id 65535.

(** [for (cpu = 0; cpu < nr; cpu++)]; [c] has room for [nr] ids. *)
Fixpoint build_loop (n : nat) (cpu nr : Z) (f : Z -> res Z) (c : list Z) : res (list Z) :=
  match n with
  | O => Ok c
  | S n =>
      s1 ← f cpu;
      if bool_decide (s1 ∈ c) then build_loop n (cpu + 1) nr f c
      else if zlen c <? nr then build_loop n (cpu + 1) nr f (c ++ [s1])
      else Oob
  end.

(** qsort with cmp_ids, whose differences do not overflow for the ids in use:
    an ordered permutation. *)
Definition cpu_map__build_map (qsort : list Z -> list Z) (cpus : list Z)
  (f : list Z -> Z -> res Z) : res (option (list Z)) :=
  if alloc (sizeof_cpu_map + zlen cpus * 4) then
    c ← build_loop (length cpus) 0 (zlen cpus) (f cpus) [];
    Ok (Some (qsort c))
  else Ok None.

Definition cpu_map__build_socket_map qsort cpus := cpu_map__build_map qsort cpus cpu_map__get_socket.
Definition cpu_map__build_core_map qsort cpus := cpu_map__build_map qsort cpus cpu_map__get_core.

(** * Text: cpu_map__snprint *)

(** snprintf(buf + ret, size - ret, text) on the memory [m] that starts with
    [buf]; the size is a size_t.  The result is that of snprintf, the length of
    the text. *)
Definition snprintf_at (m : bytes) (ret size : Z) (text : cstr) : res bytes :=
  let n := size -64 ret in
  if n =? 0 then Ok m
  else mem (wrn m ret (take (Z.to_nat (Z.min (n - 1) (zlen text))) text ++ [0])).

Definition comma (first : bool) : cstr := if first then [] else [cCOMMA].

(** The text of the cpus of [start .. end]. *)
Definition range_text (first : bool) (a b : Z) (single : bool) : cstr :=
  comma first ++ (if single then fmt_d a else fmt_d a ++ [cDASH] ++ fmt_d b).

(** [for (i = 0; i < map->nr + 1; i++)], [n] turns left. *)
Fixpoint snprint_loop (n : nat) (map : list Z) (i start : Z) (first : bool) (ret size : Z)
  (m : bytes) : res (Z * bytes) :=
  match n with
  | O => Ok (ret, m)
  | S n =>
      let last := i =? zlen map in
      cpu ← (if last then Ok INT_MAX else cpu_map__cpu map i);
      if start =? -1 then
        if last then
          c ← cpu_map__cpu map i;
          let text := comma first ++ fmt_d c in
          m ← snprintf_at m ret size text;
          snprint_loop n map (i + 1) i first (ret +64 zlen text) size m
        else snprint_loop n map (i + 1) i first ret size m
      else
        a ← cpu_map__cpu map start;
        if negb (i - start =? sint 32 (cpu - a)) || last then
          b ← cpu_map__cpu map (i - 1);
          let text := range_text first a b (start =? i - 1) in
          m ← snprintf_at m ret size text;
          snprint_loop n map (i + 1) i false (ret +64 zlen text) size m
        else snprint_loop n map (i + 1) start first ret size m
  end.

Definition cpu_map__snprint (map : list Z) (m : bytes) (size : Z) : res (Z * bytes) :=
  snprint_loop (S (length map)) map 0 (-1) true 0 size m.

(** The buffer of cpu_map__fprintf; what it holds before is not defined. *)
Definition BUFSIZE : Z := 1024.
Definition cpu_map__fprintf (junk : bytes) (map : list Z) : res cstr :=
  '(_, m) ← cpu_map__snprint map junk BUFSIZE;
  n ← strlen m 0;
  Ok (take (Z.to_nat n) m ++ [cNEWLINE]).

(** ** cpu_map__snprint_mask *)

Definition hex_char (val : Z) : Z :=
  if val <? 10 then val + 48 else if val <? 16 then val - 10 + 97 else 63.

(** [bitmap[cpu / 8] |= 1 << (cpu % 8)] for every cpu; C divides towards zero. *)
Fixpoint mask_bits (map : list Z) (bitmap : bytes) : res bytes :=
  match map with
  | [] => Ok bitmap
  | cpu :: map =>
      b ← mem (rd8 bitmap (Z.quot cpu 8));
      bitmap ← mem (wrn bitmap (Z.quot cpu 8) [u8 (Z.lor b (Z.shiftl 1 (Z.rem cpu 8)))]);
      mask_bits map bitmap
  end.

(** [for (cpu = last_cpu / 4 * 4; cpu >= 0; cpu -= 4)]: [n] counts the digits
    that are left. *)
Fixpoint mask_digits (n : nat) (bitmap m : bytes) (ptr : Z) : res (Z * bytes) :=
  match n with
  | O => m ← mem (wrn m ptr [0]); Ok (ptr, m)
  | S n =>
      let cpu := 4 * Z.of_nat n in
      bits ← mem (rd8 bitmap (cpu / 8));
      let bits := if cpu mod 8 =? 0 then Z.land bits 15 else Z.shiftr bits 4 in
      m ← mem (wrn m ptr [hex_char bits]);
      if (cpu mod 32 =? 0) && (0 <? cpu) then
        m ← mem (wrn m (ptr + 1) [cCOMMA]); mask_digits n bitmap m (ptr + 2)
      else mask_digits n bitmap m (ptr + 1)
  end.

Definition cpu_map__snprint_mask (map : list Z) (m : bytes) (size : Z) : res (Z * bytes) :=
  last_cpu ← cpu_map__cpu map (zlen map - 1);
  if negb (alloc (Z.quot (last_cpu + 7) 8)) then m ← mem (wrn m 0 [0]); Ok (0, m) else
  bitmap ← mask_bits map (replicate (Z.to_nat (Z.quot (last_cpu + 7) 8)) 0);
  '(ptr, m) ← mask_digits (Z.to_nat (Z.quot last_cpu 4 + 1)) bitmap m 0;
  m ← mem (wrn m (size - 1) [0]);
  Ok (ptr, m).

(** * CPU_MAP records (util/event.c) *)

Definition BITS_TO_LONGS (nr : Z) : Z := (nr + 63) / 64.

Definition synthesize_cpus (map : list Z) (data : Z) (m : bytes) : res bytes :=
  m ← mem (wrn m data (le_bytes 2 (zlen map)));
  mem (wrn m (data + 2) (map ≫= le_bytes 2)).

(** set_bit on the array of longs at [addr]: the bit is in byte [nr / 8] of a
    little endian machine. *)
Definition set_bit (nr addr : Z) (m : bytes) : res bytes :=
  b ← mem (rd8 m (addr + nr / 8));
  mem (wrn m (addr + nr / 8) [Z.lor b (2 ^ (nr mod 8))]).

Fixpoint set_bit_all (map : list Z) (addr : Z) (m : bytes) : res bytes :=
  match map with
  | [] => Ok m
  | cpu :: map => m ← set_bit cpu addr m; set_bit_all map addr m
  end.

Definition synthesize_mask (map : list Z) (max data : Z) (m : bytes) : res bytes :=
  m ← mem (wrn m data (le_bytes 2 (BITS_TO_LONGS max)));
  m ← mem (wrn m (data + 2) (le_bytes 2 8));
  set_bit_all map (data + mask_offset) m.

Definition cpus_size (map : list Z) : Z := 2 + zlen map * 2.

Definition mask_step (max cpu : Z) : Z := let bit := cpu + 1 in if max <? bit then bit else max.
Definition mask_max (map : list Z) : Z := foldl mask_step 0 map.

Definition mask_size (map : list Z) : Z * Z :=
  let max := mask_max map in (mask_offset + BITS_TO_LONGS max * 8, max).

(** The size and type chosen for a map; [size] counts what precedes the data. *)
Definition cpu_map_data__alloc (map : list Z) (size : Z) : res (option (bytes * Z * Z * Z)) :=
  is_dummy ← cpu_map__empty (Some map);
  let size_cpus := cpus_size map in
  let '(size_mask, max) := mask_size map in
  let '(sz, type) := if (is_dummy : bool) || (size_cpus <? size_mask)
                     then (size_cpus, PERF_CPU_MAP__CPUS) else (size_mask, PERF_CPU_MAP__MASK) in
  let size := PERF_ALIGN (size + sz + 2) 8 in
  Ok (if alloc size then Some (replicate (Z.to_nat size) 0, size, type, max) else None).

Definition cpu_map_data__synthesize (map : list Z) (type max data : Z) (m : bytes) : res bytes :=
  m ← mem (wrn m data (le_bytes 2 type));
  if type =? PERF_CPU_MAP__CPUS then synthesize_cpus map (data + 2) m
  else if type =? PERF_CPU_MAP__MASK then synthesize_mask map max (data + 2) m
  else Ok m.

(** [struct cpu_map_event { struct perf_event_header header; struct cpu_map_data
    data; }] *)
Definition cpu_map_event_data : Z := 8.
Definition sizeof_cpu_map_event : Z := 12.

Definition cpu_map_event__new (map : list Z) : res (option bytes) :=
  a ← cpu_map_data__alloc map sizeof_cpu_map_event;
  match a with
  | None => Ok None
  | Some (event, size, type, max) =>
      event ← mem (wrn event 0 (header_bytes PERF_RECORD_CPU_MAP 0 size));
      event ← mem (wrn event cpu_map_event_data (le_bytes 2 type));
      event ← cpu_map_data__synthesize map type max cpu_map_event_data event;
      Ok (Some event)
  end.

End Cpumap.

(** * Decimal numbers *)

Lemma digit_of_dec d : 0 <= d < 10 -> digit_of 10 (48 + d) = Some d.
Proof.
  intros Hd. unfold digit_of.
  destruct (Z.leb_spec 48 (48 + d)); [|lia]. destruct (Z.leb_spec (48 + d) 57); [|lia].
  cbn [andb]. replace (48 + d - 48) with d by lia. destruct (Z.ltb_spec d 10); [done|lia].
Qed.

Lemma digits_udec fuel : forall v acc a, 0 <= v < 10 ^ Z.of_nat fuel -> (0 < fuel)%nat ->
  exists k, 0 <= k /\ digits 10 a (udec fuel v acc) = digits 10 (a * 10 ^ k + v) acc.
Proof.
  induction fuel as [|fuel IH]; intros v acc a Hv Hf; [lia|]. cbn [udec].
  rewrite Nat2Z.inj_succ, Z.pow_succ_r in Hv by lia.
  pose proof (Z.mod_pos_bound v 10). pose proof (Z.div_mod v 10).
  assert (Hd : forall x, digits 10 x (48 + v mod 10 :: acc) = digits 10 (x * 10 + v mod 10) acc)
    by (intros; cbn [digits]; rewrite digit_of_dec by lia; done).
  destruct (Z.eqb_spec (v / 10) 0) as [E|E].
  - exists 1. split; [lia|]. rewrite Hd. f_equal. lia.
  - destruct (IH (v / 10) (48 + v mod 10 :: acc) a) as (k & Hk & ->).
    + split; [apply Z.div_pos; lia|apply Z.div_lt_upper_bound; lia].
    + destruct fuel; [|lia]. cbn in Hv. lia.
    + exists (k + 1). split; [lia|]. rewrite Hd, Z.pow_add_r by lia. f_equal. lia.
Qed.

Lemma udec_head fuel : forall v acc, 0 <= v < 10 ^ Z.of_nat fuel -> (0 < fuel)%nat ->
  exists d t, udec fuel v acc = 48 + d :: t /\ 0 <= d < 10 /\ (0 < v -> 0 < d).
Proof.
  induction fuel as [|fuel IH]; intros v acc Hv Hf; [lia|]. cbn [udec].
  rewrite Nat2Z.inj_succ, Z.pow_succ_r in Hv by lia.
  pose proof (Z.mod_pos_bound v 10). pose proof (Z.div_mod v 10).
  destruct (Z.eqb_spec (v / 10) 0) as [E|E].
  - exists (v mod 10), acc. split_and!; [done|lia..].
  - destruct (IH (v / 10) (48 + v mod 10 :: acc)) as (d & t & -> & Hd & Hp).
    + split; [apply Z.div_pos; lia|apply Z.div_lt_upper_bound; lia].
    + destruct fuel; [|lia]. cbn in Hv. lia.
    + exists d, t. split_and!; [done|lia..].
Qed.

Lemma udec_app fuel : forall v acc rest, udec fuel v acc ++ rest = udec fuel v (acc ++ rest).
Proof.
  induction fuel as [|fuel IH]; intros; [done|]. cbn [udec].
  destruct (v / 10 =? 0); [done|]. by rewrite IH.
Qed.

(** A cpu number as the list of characters before [rest]. *)
Definition cpu_ok (c : Z) : Prop := 0 <= c < INT_MAX.

(** Where a number ends: at the end of the text or at one of [,], [-] and the
    end of the line. *)
Definition stop (rest : cstr) : Prop :=
  rest = [] \/ exists c r, rest = c :: r /\ (c = cCOMMA \/ c = cDASH \/ c = cNEWLINE).

Lemma stop_digits base a rest : stop rest -> base <= 16 -> digits base a rest = (a, rest).
Proof.
  intros [->|(c & r & -> & [-> | [-> | ->]])] Hb; [done|..];
    cbn [digits]; unfold digit_of; cbn -[Z.ltb]; (destruct (Z.ltb_spec 99 base); [lia|done]).
Qed.

Lemma fmt_d_spec v rest : cpu_ok v -> stop rest ->
  exists d t, fmt_d v ++ rest = 48 + d :: t /\ 0 <= d < 10 /\ (0 < v -> 0 < d) /\
    digits 10 0 (fmt_d v ++ rest) = (v, rest) /\ (v = 0 -> t = rest /\ d = 0).
Proof.
  unfold cpu_ok, INT_MAX. intros Hv Hr. unfold fmt_d. destruct (Z.ltb_spec v 0); [lia|].
  rewrite udec_app. cbn [app].
  destruct (udec_head 11 v rest) as (d & t & E & Hd & Hp); [change (10 ^ Z.of_nat 11) with 100000000000; lia|lia|].
  destruct (digits_udec 11 v rest 0) as (k & _ & E2); [change (10 ^ Z.of_nat 11) with 100000000000; lia|lia|].
  exists d, t. split_and!; [done|lia|lia|done| |].
  - rewrite E2, stop_digits by (exact Hr || lia). done.
  - intros ->. change (48 :: rest = 48 + d :: t) in E. injection E as E3 E4. split; [done|lia].
Qed.

Lemma digit_head d t : 0 <= d < 10 ->
  skip_space (48 + d :: t) = 48 + d :: t /\ sign_of (48 + d :: t) = (false, 48 + d :: t) /\
  isdigit (48 + d) = true.
Proof.
  intros Hd. unfold isdigit, uchar. rewrite Z.mod_small by lia.
  cbn [skip_space sign_of]. unfold c_space, cDASH.
  assert (E1 : (9 <=? 48 + d) && (48 + d <=? 13) || (48 + d =? 32) = false) by lia.
  assert (E2 : (48 + d =? 45) = false) by lia. assert (E3 : (48 + d =? 43) = false) by lia.
  rewrite E1, E2, E3. split_and!; [done|done|lia].
Qed.

Lemma base_of_dec d t : 0 < d < 10 -> base_of (48 + d :: t) = (10, 48 + d :: t).
Proof.
  intros Hd. unfold base_of. destruct t as [|x [|y t]]; destruct (Z.eqb_spec (48 + d) 48); try lia; done.
Qed.

Lemma base_of_zero rest : stop rest -> exists b, base_of (48 :: rest) = (b, 48 :: rest) /\ 8 <= b <= 10.
Proof.
  intros [->|(c & r & -> & Hc)]; [by exists 8|]. exists 8. split; [|lia].
  destruct r as [|y r]; [done|]. unfold base_of.
  by destruct Hc as [-> | [-> | ->]].
Qed.

(** Decimal numbers read back. *)
Lemma strtoul_fmt v rest : cpu_ok v -> stop rest -> strtoul (fmt_d v ++ rest) = (v, rest).
Proof.
  intros Hv Hr. destruct (fmt_d_spec v rest Hv Hr) as (d & t & E & Hd & Hp & Ed & H0).
  unfold strtoul. rewrite E in *. destruct (digit_head d t Hd) as (-> & -> & _).
  unfold cpu_ok, INT_MAX in Hv.
  destruct (Z.eq_dec v 0) as [->|Hn].
  - destruct (H0 eq_refl) as [-> ->].
    destruct (base_of_zero rest Hr) as (b & Eb & Hb). change (48 + 0) with 48. rewrite Eb.
    assert (Hz : digit_of b 48 = Some 0)
      by (assert (b = 8 \/ b = 9 \/ b = 10) as [-> | [-> | ->]] by lia; done).
    cbn [digits]. rewrite Hz, stop_digits by (exact Hr || lia).
    by replace (0 * b + 0) with 0 by lia.
  - rewrite base_of_dec, digit_of_dec by lia. rewrite Ed.
    replace (ULONG_MAX <? v) with false by (unfold ULONG_MAX; lia). done.
Qed.

Lemma scan_u_fmt v rest : cpu_ok v -> stop rest -> scan_u (fmt_d v ++ rest) = Some (v, rest).
Proof.
  intros Hv Hr. destruct (fmt_d_spec v rest Hv Hr) as (d & t & E & Hd & _ & Ed & _).
  unfold scan_u. rewrite E in *. destruct (digit_head d t Hd) as (-> & -> & ->). rewrite Ed.
  unfold cpu_ok, INT_MAX in Hv.
  replace (ULONG_MAX <? v) with false by (unfold ULONG_MAX; lia). done.
Qed.

Lemma fmt_d_digit v rest : cpu_ok v -> stop rest -> isdigit (deref (fmt_d v ++ rest)) = true.
Proof.
  intros Hv Hr. destruct (fmt_d_spec v rest Hv Hr) as (d & t & E & Hd & _).
  rewrite E. by destruct (digit_head d t Hd) as (_ & _ & ?).
Qed.

(** * Runs of cpus *)

(** A run of [n] cpus that starts with [a], its cpus and its text. *)
Definition run := (Z * Z)%type.
Definition run_cpus (r : run) : list Z := seqZ r.1 r.2.
Definition run_text (first : bool) (r : run) : cstr :=
  range_text first r.1 (r.1 + r.2 - 1) (r.2 =? 1).

Fixpoint runs_text (first : bool) (rs : list run) : cstr :=
  match rs with
  | [] => []
  | r :: rs => run_text first r ++ runs_text false rs
  end.

Definition run_ok (r : run) : Prop := 1 <= r.2 /\ cpu_ok r.1 /\ cpu_ok (r.1 + r.2 - 1).

Lemma run_text_comma r : run_text false r = cCOMMA :: run_text true r.
Proof. done. Qed.

Lemma stop_runs rs : stop (runs_text false rs).
Proof.
  destruct rs as [|r rs]; [by left|]. right. cbn [runs_text]. rewrite run_text_comma.
  eexists _, _. split; [reflexivity|by left].
Qed.

Lemma stop_runs_line rs : stop (runs_text false rs ++ [cNEWLINE]).
Proof.
  destruct (stop_runs rs) as [-> | (c & r & -> & Hc)]; right; eexists _, _; split; [done|auto|done|done].
Qed.

(** ** Printing gives the text of the runs *)

Lemma snprintf_at_ok out tl size text :
  zlen out + zlen text < size -> size <= zlen out + zlen tl -> size < 2 ^ 64 ->
  exists rest, snprintf_at (out ++ tl) (zlen out) size text = Ok (out ++ text ++ 0 :: rest) /\
    zlen text + 1 + zlen rest = zlen tl.
Proof.
  intros Hlt Hle Hs. pose proof (zlen_nonneg out). pose proof (zlen_nonneg text).
  unfold snprintf_at. rewrite u64_small by lia.
  destruct (Z.eqb_spec (size - zlen out) 0); [lia|].
  rewrite take_ge by (unfold zlen in *; lia).
  rewrite wrn_app by (try done; rewrite zlen_app, zlen_cons, zlen_nil; lia).
  exists (drop (length (text ++ [0])) tl). split; [by rewrite <- app_assoc|].
  unfold zlen in *. rewrite length_drop, length_app. cbn [length]. lia.
Qed.

Lemma cpu_at pre c post : cpu_map__cpu (pre ++ c :: post) (zlen pre) = Ok c.
Proof. unfold cpu_map__cpu. by rewrite rd8_mid. Qed.

Lemma seqZ_last a n pre post : 1 <= n ->
  cpu_map__cpu (pre ++ seqZ a n ++ post) (zlen pre + n - 1) = Ok (a + n - 1).
Proof.
  intros Hn. replace n with ((n - 1) + 1) at 1 by lia. rewrite seqZ_app by lia.
  change (seqZ (a + (n - 1)) 1) with [a + (n - 1)].
  rewrite <- app_assoc. cbn [app]. rewrite app_assoc.
  replace (zlen pre + n - 1) with (zlen (pre ++ seqZ a (n - 1))).
  - rewrite cpu_at. f_equal. lia.
  - rewrite zlen_app. unfold zlen at 2. rewrite length_seqZ. lia.
Qed.

Lemma zlen_seqZ a n : 0 <= n -> zlen (seqZ a n) = n.
Proof. intros. unfold zlen. rewrite length_seqZ. lia. Qed.

Lemma seqZ_first a n : 1 <= n -> seqZ a n = a :: seqZ (a + 1) (n - 1).
Proof. intros. by rewrite seqZ_cons by lia. Qed.

Lemma flush_run_ok n pre a len post first out tl size :
  1 <= len -> cpu_ok a ->
  let map := pre ++ seqZ a len ++ post in
  let i := zlen pre + len in
  (post = [] \/ exists c post', post = c :: post' /\ cpu_ok c /\ c <> a + len) ->
  let text := run_text first (a, len) in
  zlen out + zlen text < size -> size <= zlen out + zlen tl -> size < 2 ^ 64 ->
  exists rest, zlen text + 1 + zlen rest = zlen tl /\
    snprint_loop (S n) map i (zlen pre) first (zlen out) size (out ++ tl)
    = snprint_loop n map (i + 1) i false (zlen (out ++ text)) size (out ++ text ++ 0 :: rest).
Proof.
  intros Hlen Ha map i Hpost text Hlt Hle Hs. pose proof (zlen_nonneg pre). pose proof (zlen_nonneg out).
  pose proof (zlen_nonneg text).
  destruct (snprintf_at_ok out tl size text Hlt Hle Hs) as (rest & Ew & Hrest).
  exists rest. split; [exact Hrest|].
  assert (Ea : cpu_map__cpu map (zlen pre) = Ok a)
    by (subst map; rewrite (seqZ_first a len) by lia; cbn [app]; apply cpu_at).
  assert (Eb : cpu_map__cpu map (i - 1) = Ok (a + len - 1)) by (apply seqZ_last; lia).
  assert (Hmap : zlen map = i + zlen post)
    by (subst map i; rewrite !zlen_app, zlen_seqZ by lia; lia).
  assert (Hcpu : exists cpu, (if i =? zlen map then Ok INT_MAX else cpu_map__cpu map i) = Ok cpu /\
    negb (i - zlen pre =? sint 32 (cpu - a)) || (i =? zlen map) = true).
  { destruct Hpost as [-> | (c & post' & -> & Hc & Hne)].
    - exists INT_MAX. rewrite zlen_nil in Hmap. destruct (Z.eqb_spec i (zlen map)); [|lia].
      by rewrite orb_true_r.
    - exists c. rewrite zlen_cons in Hmap. pose proof (zlen_nonneg post').
      destruct (Z.eqb_spec i (zlen map)); [lia|]. split.
      + subst map i. rewrite app_assoc. rewrite <- (zlen_seqZ a len) at 2 by lia.
        rewrite <- zlen_app. apply cpu_at.
      + unfold cpu_ok, INT_MAX in *. rewrite sint32_small by lia. subst i. lia. }
  destruct Hcpu as (cpu & Ec & Et). cbn [snprint_loop]. rewrite Ec. rred.
  destruct (Z.eqb_spec (zlen pre) (-1)); [lia|]. rewrite Ea. rred. rewrite Et, Eb. rred.
  replace (zlen pre =? i - 1) with (len =? 1) by lia.
  fold text in Ew. change (range_text first a (a + len - 1) (len =? 1)) with text.
  rewrite Ew. rred. by rewrite u64_small, <- zlen_app by lia.
Qed.

(** The next cpu continues the run: the loop goes on. *)
Lemma extend_ok n pre a len post first ret size m :
  1 <= len -> cpu_ok a -> cpu_ok (a + len) ->
  snprint_loop (S n) (pre ++ seqZ a len ++ a + len :: post) (zlen pre + len) (zlen pre) first ret size m
  = snprint_loop n (pre ++ seqZ a len ++ a + len :: post) (zlen pre + len + 1) (zlen pre) first ret size m.
Proof.
  intros Hlen Ha Hc. pose proof (zlen_nonneg pre). pose proof (zlen_nonneg post).
  rewrite (seqZ_first a len) by lia. cbn [app snprint_loop].
  replace (zlen pre + len =? zlen _) with false
    by (rewrite zlen_app, zlen_cons, zlen_app, zlen_seqZ, zlen_cons by lia; lia).
  assert (E2 : cpu_map__cpu (pre ++ a :: seqZ (a + 1) (len - 1) ++ a + len :: post) (zlen pre + len)
               = Ok (a + len)).
  { replace (zlen pre + len) with (zlen (pre ++ a :: seqZ (a + 1) (len - 1)))
      by (rewrite zlen_app, zlen_cons, zlen_seqZ by lia; lia).
    rewrite app_comm_cons, app_assoc. apply cpu_at. }
  rewrite E2. rred. destruct (Z.eqb_spec (zlen pre) (-1)); [lia|]. rewrite cpu_at. rred.
  unfold cpu_ok, INT_MAX in *. rewrite sint32_small by lia.
  by replace (negb (zlen pre + len - zlen pre =? a + len - a) || false) with false by lia.
Qed.

Lemma snprint_runs post : forall pre a len,
  1 <= len -> Forall cpu_ok (seqZ a len ++ post) ->
  exists rs, seqZ a len ++ post = rs ≫= run_cpus /\ Forall run_ok rs /\ rs <> [] /\
    forall first out tl size,
      zlen out + zlen (runs_text first rs) < size -> size <= zlen out + zlen tl -> size < 2 ^ 64 ->
      exists rest, snprint_loop (S (length post)) (pre ++ seqZ a len ++ post) (zlen pre + len)
          (zlen pre) first (zlen out) size (out ++ tl)
        = Ok (zlen out + zlen (runs_text first rs), out ++ runs_text first rs ++ 0 :: rest).
Proof.
  induction post as [|c post IH]; intros pre a len Hlen Hok;
    pose proof Hok as Hok'; apply Forall_app in Hok' as [Hrun Hpost];
    assert (Ha : cpu_ok a) by (rewrite seqZ_first in Hrun by lia; by apply Forall_cons in Hrun as [? _]);
    assert (Hr : run_ok (a, len)) by
      (unfold run_ok; cbn; split; [lia|]; split; [done|];
       apply (proj1 (Forall_forall _ _) Hrun); apply elem_of_seqZ; lia).
  - exists [(a, len)]. split; [done|]. split; [by constructor|]. split; [done|].
    intros first out tl size Hlt Hle Hs. cbn [runs_text] in *. rewrite app_nil_r in *.
    destruct (flush_run_ok 0 pre a len [] first out tl size) as (rest & _ & E); try done; [by left|].
    exists rest. cbn [length]. rewrite app_nil_r in E. rewrite E. cbn [snprint_loop]. by rewrite zlen_app, app_nil_r.
  - apply Forall_cons in Hpost as [Hc Hpost]. destruct (Z.eq_dec c (a + len)) as [->|Hne].
    + destruct (IH pre a (len + 1)) as (rs & E & Hrs & Hne & Hp); [lia| |].
      { rewrite seqZ_app by lia. change (seqZ (a + len) 1) with [a + len]. by rewrite <- app_assoc. }
      assert (Es : seqZ a (len + 1) ++ post = seqZ a len ++ a + len :: post).
      { rewrite seqZ_app by lia. change (seqZ (a + len) 1) with [a + len]. by rewrite <- app_assoc. }
      exists rs. split; [by rewrite <- Es|]. split; [done|]. split; [done|].
      intros first out tl size Hlt Hle Hs. destruct (Hp first out tl size Hlt Hle Hs) as (rest & Ep).
      exists rest. rewrite <- Ep, Es. cbn [length]. rewrite extend_ok by (done || lia).
      by replace (zlen pre + (len + 1)) with (zlen pre + len + 1) by lia.
    + destruct (IH (pre ++ seqZ a len) c 1) as (rs & E & Hrs & Hn & Hp); [lia|by constructor|].
      exists ((a, len) :: rs). split; [cbn; by rewrite <- E|]. split; [by constructor|]. split; [done|].
      intros first out tl size Hlt Hle Hs. cbn [runs_text] in *. rewrite zlen_app in Hlt.
      pose proof (zlen_nonneg (runs_text false rs)).
      destruct (flush_run_ok (S (length post)) pre a len (c :: post) first out tl size) as (rest & Hl & Ef);
        [lia|done|right; by exists c, post|lia|lia|lia|].
      cbn [length]. rewrite Ef.
      destruct (Hp false (out ++ run_text first (a, len)) (0 :: rest) size) as (rest' & Ep);
        [rewrite !zlen_app; lia|rewrite zlen_app, zlen_cons; lia|done|].
      exists rest'. rewrite zlen_app, zlen_seqZ in Ep by lia.
      change (seqZ c 1) with [c] in Ep. rewrite <- !app_assoc in Ep. cbn [app] in Ep.
      rewrite Ep. rewrite !zlen_app, <- app_assoc. f_equal. f_equal. lia.
Qed.

(** cpu_map__snprint prints a map as runs that stand for its cpus in order. *)
Lemma snprint_ok map : map <> [] -> Forall cpu_ok map ->
  exists rs, map = rs ≫= run_cpus /\ Forall run_ok rs /\ rs <> [] /\
    forall m size, zlen (runs_text true rs) < size -> size <= zlen m -> size < 2 ^ 64 ->
      exists rest, cpu_map__snprint map m size
        = Ok (zlen (runs_text true rs), runs_text true rs ++ 0 :: rest).
Proof.
  intros Hne Hok. destruct map as [|a map]; [done|].
  destruct (snprint_runs map [] a 1) as (rs & E & Hrs & Hn & Hp); [lia|done|].
  exists rs. split; [done|]. split; [done|]. split; [done|]. intros m size Hlt Hle Hs.
  destruct (Hp true [] m size) as (rest & Ep); [done..|]. exists rest.
  unfold cpu_map__snprint. cbn [length]. cbn [snprint_loop].
  replace (0 =? zlen (a :: map)) with false by (rewrite zlen_cons; pose proof (zlen_nonneg map); lia).
  change (a :: map) with ([] ++ a :: map). rewrite (cpu_at [] a map : cpu_map__cpu ([] ++ a :: map) 0 = Ok a).
  rred. exact Ep.
Qed.

(** ** Reading gives the cpus of the runs *)

Section Reading.
Context (alloc : Z -> bool) (nprocessors_onln : Z).
Hypothesis memory : forall n, 0 <= n < 2 ^ 40 -> alloc n = true.

(** The array has the cpus [l] and room that was reserved in steps. *)
Definition holds (t : tmp_array) (l : list Z) : Prop :=
  tmp_cpus t = l /\ zlen l <= max_entries t <= zlen l + 1024.

(** As many cpus as leave room for the steps of the array in an int. *)
Definition few (n : Z) : Prop := n < 2 ^ 31 - 2048.

Lemma int_of_ok z : - 2147483648 <= z <= 2147483647 -> int_of z = Ok z.
Proof.
  intros Hz. unfold int_of, INT_MAX. destruct (Z.leb_spec (- (2147483647) - 1) z), (Z.leb_spec z 2147483647); (done || lia).
Qed.

Lemma cpus_grow_ok t n : 0 <= n < 2 ^ 31 -> grow alloc t n = Some (Tmp (tmp_cpus t) n).
Proof. intros Hn. unfold grow. rewrite u64_small by lia. by rewrite memory by lia. Qed.

Lemma reserve_push t l c : holds t l -> few (zlen l) ->
  exists t', (t ← reserve alloc t; push t c) = Ok t' /\ holds t' (l ++ [c]).
Proof.
  intros [<- Hm] Hl. pose proof (zlen_nonneg (tmp_cpus t)).
  exists (Tmp (tmp_cpus t ++ [c]) (if zlen (tmp_cpus t) =? max_entries t
          then max_entries t + MAX_NR_CPUS else max_entries t)).
  unfold reserve, nr_cpus, MAX_NR_CPUS. destruct (Z.eqb_spec (zlen (tmp_cpus t)) (max_entries t)) as [E|E].
  - unfold few in Hl. rewrite int_of_ok by lia. rred. rewrite cpus_grow_ok by lia. cbn [or_invalid]. rred.
    unfold push, nr_cpus. cbn [tmp_cpus max_entries].
    replace (zlen (tmp_cpus t) <? max_entries t + 1024) with true by lia. split; [done|].
    split; cbn; [done|]. rewrite zlen_app, zlen_cons, zlen_nil. lia.
  - rred. unfold push, nr_cpus. replace (zlen (tmp_cpus t) <? max_entries t) with true by lia.
    split; [done|]. split; cbn; [done|]. rewrite zlen_app, zlen_cons, zlen_nil. lia.
Qed.

Lemma add_range_ok n : forall a t l,
  holds t l -> NoDup (l ++ seqZ a (Z.of_nat n)) -> few (zlen l + Z.of_nat n) ->
  exists t', add_range alloc n a t = Ok t' /\ holds t' (l ++ seqZ a (Z.of_nat n)).
Proof.
  induction n as [|n IH]; intros a t l Ht Hnd Hl.
  - exists t. cbn [add_range]. by rewrite app_nil_r.
  - rewrite (seqZ_first a (Z.of_nat (S n))) in * by lia.
    replace (Z.of_nat (S n) - 1) with (Z.of_nat n) in * by lia. cbn [add_range].
    rewrite bool_decide_eq_false_2.
    2: { destruct Ht as [-> _]. apply NoDup_app in Hnd as (_ & Hd & _). intros Hin.
         apply (Hd a Hin). left. }
    unfold few in *. destruct (reserve_push t l a Ht ltac:(unfold few; lia)) as (t1 & E1 & Ht1).
    destruct (reserve alloc t) as [t0| |]; [|done..]. revert E1. rred. intros ->. rred.
    destruct (IH (a + 1) t1 (l ++ [a]) Ht1) as (t' & E' & Ht').
    + rewrite <- app_assoc. done.
    + rewrite zlen_app, zlen_cons, zlen_nil. lia.
    + exists t'. split; [done|]. by rewrite <- app_assoc in Ht'.
Qed.

Lemma deref_stop rest : stop rest -> rest = [] \/ deref rest = cCOMMA \/ deref rest = cDASH \/ deref rest = cNEWLINE.
Proof. intros [->|(c & r & -> & Hc)]; [by left|by right]. Qed.

(** One item of the list: a run that a comma or the end follows. *)
Lemma parse_item_ok r rest t l :
  run_ok r -> (rest = [] \/ exists rest', rest = cCOMMA :: rest') -> holds t l ->
  NoDup (l ++ run_cpus r) -> few (zlen l + r.2) ->
  exists t', parse_item alloc (run_text true r ++ rest) t = Ok (t', tail rest) /\
    holds t' (l ++ run_cpus r).
Proof.
  destruct r as [a n]. intros (Hn & Ha & Hb) Hrest Ht Hnd Hl. cbn [fst snd] in *.
  assert (Hs : stop rest) by (destruct Hrest as [->|[r' ->]]; [by left|right; eexists _, _; eauto]).
  assert (T1 : (deref rest =? cDASH) = false) by (destruct Hrest as [->|[r' ->]]; done).
  assert (T2 : negb (deref rest =? 0) && negb (deref rest =? cCOMMA) = false)
    by (destruct Hrest as [->|[r' ->]]; done).
  destruct (add_range_ok (Z.to_nat n) a t l Ht) as (t' & E & Ht');
    [rewrite Z2Nat.id by lia; done|by rewrite Z2Nat.id by lia|]. rewrite Z2Nat.id in Ht' by lia.
  exists t'. split; [|done]. unfold parse_item, run_text, range_text. cbn [fst snd comma app].
  pose proof Ha as Ha'. pose proof Hb as Hb'. unfold cpu_ok in Ha', Hb'.
  destruct (Z.eqb_spec n 1) as [->|Hn1].
  - rewrite strtoul_fmt by done. replace (INT_MAX <=? a) with false by lia.
    rewrite T2, T1. cbn [orb andb]. rred. replace (a - a + 1) with 1 by lia. rewrite E. done.
  - rewrite <- !app_assoc. rewrite strtoul_fmt; [|done|right; eexists _, _; split; [reflexivity|auto]].
    cbn [app deref tail]. replace (INT_MAX <=? a) with false by lia. rewrite strtoul_fmt by done.
    replace (INT_MAX <=? a + n - 1) with false by lia.
    replace (a + n - 1 <? a) with false by lia. rewrite T2.
    change (negb (cDASH =? 0) && negb (cDASH =? cCOMMA) && negb (cDASH =? cDASH)) with false.
    change (cDASH =? cDASH) with true. cbn [orb andb]. rred.
    replace (a + n - 1 - a + 1) with n by lia. rewrite E. done.
Qed.

Lemma run_text_digit r rest : run_ok r -> stop rest -> isdigit (deref (run_text true r ++ rest)) = true.
Proof.
  destruct r as [a n]. intros (Hn & Ha & Hb) Hs. cbn [fst snd] in *.
  unfold run_text, range_text. cbn [fst snd comma app]. destruct (n =? 1).
  - by apply fmt_d_digit.
  - rewrite <- !app_assoc. apply fmt_d_digit; [done|]. right. eexists _, _. split; [reflexivity|auto].
Qed.

Lemma runs_tail rs : tail (runs_text false rs) = runs_text true rs.
Proof. destruct rs as [|r rs]; [done|]. cbn [runs_text]. by rewrite run_text_comma. Qed.

Lemma runs_comma rs : runs_text false rs = [] \/ exists rest', runs_text false rs = cCOMMA :: rest'.
Proof. destruct rs as [|r rs]; [by left|right]. cbn [runs_text]. rewrite run_text_comma. by eexists. Qed.

(** The length of a text bounds the turns of both loops. *)
Lemma length_run_text r : run_ok r -> (1 <= length (run_text true r))%nat /\
  (r.2 <> 1 -> (3 <= length (run_text true r))%nat).
Proof.
  destruct r as [a n]. intros (Hn & Ha & Hb). cbn [fst snd] in *.
  destruct (fmt_d_spec a [] Ha) as (d & t & E & _); [by left|].
  destruct (fmt_d_spec (a + n - 1) [] Hb) as (d' & t' & E' & _); [by left|].
  rewrite app_nil_r in E, E'. unfold run_text, range_text. cbn [fst snd comma app].
  destruct (Z.eqb_spec n 1); rewrite ?length_app, E, ?E'; cbn [length]; lia.
Qed.

Lemma zlen_runs_cons r rs : run_ok r -> zlen ((r :: rs) ≫= run_cpus) = r.2 + zlen (rs ≫= run_cpus).
Proof.
  intros (Hn & _). cbn [mbind list_bind]. rewrite zlen_app. unfold run_cpus at 1.
  by rewrite zlen_seqZ by lia.
Qed.

Lemma cpu_map_loop_ok rs : forall fuel t l,
  Forall run_ok rs -> holds t l -> NoDup (l ++ (rs ≫= run_cpus)) ->
  few (zlen l + zlen (rs ≫= run_cpus)) -> (length (runs_text true rs) < fuel)%nat ->
  exists t', cpu_map_loop alloc fuel (runs_text true rs) t = Ok (t', []) /\ holds t' (l ++ (rs ≫= run_cpus)).
Proof.
  induction rs as [|r rs IH]; intros fuel t l Hrs Ht Hnd Hl Hf; (destruct fuel as [|fuel]; [lia|]).
  - exists t. cbn. by rewrite app_nil_r.
  - apply Forall_cons in Hrs as [Hr Hrs]. rewrite zlen_runs_cons in Hl by done.
    cbn [mbind list_bind] in *. cbn [runs_text] in *. cbn [cpu_map_loop].
    rewrite run_text_digit by (done || apply stop_runs). rewrite length_app in Hf.
    pose proof (length_run_text r Hr) as [Hlr _]. pose proof (zlen_nonneg (rs ≫= run_cpus)).
    destruct (parse_item_ok r (runs_text false rs) t l) as (t1 & E1 & Ht1); try done.
    { apply runs_comma. } { rewrite app_assoc in Hnd. by apply NoDup_app in Hnd as (? & _ & _). }
    { unfold few in *. lia. }
    rewrite E1, runs_tail. rred. rewrite app_assoc in Hnd |- *. apply IH; try done.
    + rewrite zlen_app. unfold few in *. unfold run_cpus at 1. rewrite zlen_seqZ by (destruct Hr; lia). lia.
    + assert (length (runs_text true rs) <= length (runs_text false rs))%nat; [|lia].
      rewrite <- runs_tail. destruct (runs_text false rs); cbn; lia.
Qed.

Lemma fill_range_ok n : forall a t l,
  tmp_cpus t = l -> zlen l + Z.of_nat n <= max_entries t ->
  fill_range n a t = Ok (Tmp (l ++ seqZ a (Z.of_nat n)) (max_entries t)).
Proof.
  induction n as [|n IH]; intros a t l <- Hm; cbn [fill_range].
  - change (seqZ a (Z.of_nat 0)) with (@nil Z). rewrite app_nil_r. by destruct t.
  - unfold push, nr_cpus. replace (zlen (tmp_cpus t) <? max_entries t) with true by lia. rred.
    rewrite (IH (a + 1) _ (tmp_cpus t ++ [a])); [|done|cbn; rewrite zlen_app, zlen_cons, zlen_nil; lia].
    cbn [max_entries]. rewrite (seqZ_first a (Z.of_nat (S n))) by lia.
    replace (Z.of_nat (S n) - 1) with (Z.of_nat n) by lia. by rewrite <- app_assoc.
Qed.

Lemma fscanf_ok v c rest cpu sep : cpu_ok v -> stop (c :: rest) ->
  fscanf_uc (fmt_d v ++ c :: rest) cpu sep = (2, v, c, rest).
Proof.
  intros Hv Hs. unfold fscanf_uc. rewrite scan_u_fmt by done. unfold cpu_ok, INT_MAX in Hv.
  by rewrite sint32_small by lia.
Qed.

(** The rest of a turn of cpu_map__read once the range is filled. *)
Lemma read_range_ok a b t l : cpu_ok a -> cpu_ok b -> a < b -> holds t (l ++ [a]) ->
  few (zlen l + (b - a)) -> zlen l + 1 + b < 2 ^ 31 ->
  exists t', (t ← (sum ← int_of (nr_cpus t + b);
                   new_max ← int_of (sum - a - 1);
                   t ← (if max_entries t <=? new_max
                        then n ← int_of (new_max + MAX_NR_CPUS / 2); or_invalid (grow alloc t n) else Ok t);
                   fill_range (Z.to_nat (b - a - 1)) (a + 1) t);
              t ← reserve alloc t; push t b) = Ok t' /\ holds t' (l ++ seqZ a (b - a + 1)).
Proof.
  unfold cpu_ok, INT_MAX. intros Ha Hb Hab [Ht Hm] Hl Hsum. unfold few in Hl. unfold nr_cpus. rewrite Ht.
  rewrite zlen_app, zlen_cons, zlen_nil in *. pose proof (zlen_nonneg l). change (MAX_NR_CPUS / 2) with 512.
  rewrite int_of_ok by lia. rred. rewrite int_of_ok by lia. rred.
  set (M := if max_entries t <=? zlen l + (1 + 0) + b - a - 1
            then zlen l + (1 + 0) + b - a - 1 + 512 else max_entries t).
  assert (Eg : (if max_entries t <=? zlen l + (1 + 0) + b - a - 1
     then n ← int_of (zlen l + (1 + 0) + b - a - 1 + 512); or_invalid (grow alloc t n) else Ok t)
     = Ok (Tmp (l ++ [a]) M)).
  { subst M. destruct (Z.leb_spec (max_entries t) (zlen l + (1 + 0) + b - a - 1)).
    - rewrite int_of_ok by lia. rred. rewrite cpus_grow_ok by lia. cbn [or_invalid]. by rewrite Ht.
    - rewrite <- Ht. by destruct t. }
  assert (HM : zlen l + (b - a) <= M <= zlen l + (b - a) + 1024).
  { subst M. destruct (Z.leb_spec (max_entries t) (zlen l + (1 + 0) + b - a - 1)); lia. }
  rewrite Eg. rred.
  rewrite (fill_range_ok _ _ _ (l ++ [a])); [|done|cbn [max_entries]; rewrite zlen_app, zlen_cons, zlen_nil; lia].
  rewrite Z2Nat.id by lia. rred. cbn [max_entries].
  assert (Eq : (l ++ [a]) ++ seqZ (a + 1) (b - a - 1) = l ++ seqZ a (b - a)).
  { rewrite (seqZ_first a (b - a)) by lia. by rewrite <- app_assoc. }
  rewrite Eq. destruct (reserve_push (Tmp (l ++ seqZ a (b - a)) M) (l ++ seqZ a (b - a)) b) as (t' & E & Ht').
  - split; [done|]. cbn [max_entries]. rewrite zlen_app, zlen_seqZ by lia. lia.
  - unfold few. rewrite zlen_app, zlen_seqZ by lia. lia.
  - exists t'. split; [done|]. replace (seqZ a (b - a + 1)) with (seqZ a (b - a) ++ [b]).
    + by rewrite app_assoc.
    + rewrite seqZ_app by lia. f_equal. by replace (a + (b - a)) with b by lia.
Qed.

(** A run and the character after it: one turn, or two for a range. *)
Lemma read_run_ok fuel r c rest t l cpu sep :
  run_ok r -> c = cCOMMA \/ c = cNEWLINE -> holds t l -> few (zlen l + r.2) -> zlen l + (r.1 + r.2) < 2 ^ 31 ->
  (length (run_text true r) <= fuel)%nat ->
  exists t' fuel' cpu', holds t' (l ++ run_cpus r) /\ (fuel - length (run_text true r) <= fuel')%nat /\
    read_loop alloc fuel (run_text true r ++ c :: rest) cpu sep (-1) t
    = if c =? cNEWLINE then Ok t' else read_loop alloc fuel' rest cpu' c (-1) t'.
Proof.
  destruct r as [a n]. intros Hr Hc Ht Hl Hsum Hf. pose proof (length_run_text _ Hr) as [Hl1 Hl3].
  destruct Hr as (Hn & Ha & Hb). cbn [fst snd] in *.
  destruct fuel as [|fuel]; [lia|]. destruct (reserve_push t l a Ht) as (t1 & E1 & Ht1); [unfold few in *; lia|].
  assert (Hs : stop (c :: rest)) by (right; eexists _, _; split; [done|tauto]).
  set (L := length (run_text true (a, n))) in *. clearbody L.
  unfold run_text, range_text. cbn [fst snd comma app] in *. destruct (Z.eqb_spec n 1) as [->|Hn1].
  - exists t1, fuel, a. split; [done|]. split; [lia|]. cbn [read_loop]. rewrite fscanf_ok by done.
    change (2 <=? 0) with false. change (0 <=? -1) with false. rred.
    destruct (reserve alloc t) as [t0| |]; [|done..]. revert E1. rred. intros ->. rred.
    by destruct Hc as [-> | ->].
  - specialize (Hl3 Hn1). rewrite <- !app_assoc. cbn [app]. destruct fuel as [|fuel]; [lia|].
    destruct (read_range_ok a (a + n - 1) t1 l) as (t2 & E2 & Ht2);
      [done|done|lia|done|unfold few in *; lia|lia|].
    exists t2, fuel, (a + n - 1). split; [|split; [lia|]].
    { unfold run_cpus. cbn [fst snd]. by replace (a + n - 1 - a + 1) with n in Ht2 by lia. }
    cbn [read_loop]. rewrite fscanf_ok; [|done|right; eexists _, _; split; [reflexivity|auto]].
    change (2 <=? 0) with false. change (0 <=? -1) with false. rred.
    destruct (reserve alloc t) as [t0| |]; [|done..]. revert E1. rred. intros ->. rred.
    change ((2 =? 1) || (cDASH =? cNEWLINE)) with false. change ((2 =? 2) && (cDASH =? cDASH)) with true.
    cbn iota. rewrite fscanf_ok by done. change (2 <=? 0) with false. cbn iota.
    replace (0 <=? a) with true by (unfold cpu_ok in Ha; lia).
    revert E2. destruct (int_of (nr_cpus t1 + _) ≫= _) as [t3| |]; [|done..].
    rred. destruct (reserve alloc t3) as [t4| |]; [|done..]. rred. intros ->. rred.
    by destruct Hc as [-> | ->].
Qed.

Lemma read_loop_ok N rs : few N -> forall fuel t l cpu sep,
  Forall run_ok rs -> rs <> [] -> holds t l -> zlen l + zlen (rs ≫= run_cpus) <= N ->
  Forall (fun r => N + (r.1 + r.2 - 1) < 2 ^ 31) rs ->
  (length (runs_text true rs) < fuel)%nat ->
  exists t', read_loop alloc fuel (runs_text true rs ++ [cNEWLINE]) cpu sep (-1) t = Ok t' /\
    holds t' (l ++ (rs ≫= run_cpus)).
Proof.
  intros HN. induction rs as [|r rs IH]; intros fuel t l cpu sep Hrs Hne Ht Hl Hbig Hf; [done|].
  apply Forall_cons in Hrs as [Hr Hrs]. apply Forall_cons in Hbig as [Hb1 Hbig]. unfold few in HN.
  assert (1 <= r.2) by (by destruct Hr). rewrite zlen_runs_cons in Hl by done.
  cbn [mbind list_bind runs_text] in *. rewrite length_app in Hf. pose proof (zlen_nonneg (rs ≫= run_cpus)).
  rewrite <- app_assoc. destruct rs as [|r' rs].
  - destruct (read_run_ok fuel r cNEWLINE [] t l cpu sep Hr) as (t' & fuel' & cpu' & Ht' & _ & E);
      [by right|done|unfold few; lia|lia|lia|]. exists t'. cbn [runs_text app mbind list_bind]. rewrite app_nil_r.
    split; [exact E|done].
  - rewrite <- (runs_tail (r' :: rs)) in IH. cbn [runs_text] in *. rewrite run_text_comma in *.
    cbn [tail app] in *. cbn [length] in Hf.
    destruct (read_run_ok fuel r cCOMMA ((run_text true r' ++ runs_text false rs) ++ [cNEWLINE]) t l cpu sep Hr)
      as (t' & fuel' & cpu' & Ht' & Hf' & E); [by left|done|unfold few; lia|lia|lia|].
    rewrite E. change (cCOMMA =? cNEWLINE) with false. cbn iota. rewrite app_assoc. apply IH; try done.
    + rewrite zlen_app. unfold run_cpus at 1. rewrite zlen_seqZ by (destruct Hr; lia). lia.
    + rewrite !length_app in *. lia.
Qed.

(** Both readers of a list give the cpus that its text stands for. *)
Lemma readers_ok rs : Forall run_ok rs -> rs <> [] -> NoDup (rs ≫= run_cpus) ->
  few (zlen (rs ≫= run_cpus)) ->
  cpu_map__new alloc nprocessors_onln (runs_text true rs) = Ok (Some (rs ≫= run_cpus)) /\
  (Forall (fun c => zlen (rs ≫= run_cpus) + c < 2 ^ 31) (rs ≫= run_cpus) ->
   cpu_map__read alloc nprocessors_onln (runs_text true rs ++ [cNEWLINE]) = Ok (Some (rs ≫= run_cpus))).
Proof.
  intros Hrs Hne Hnd Hl. unfold few in Hl.
  assert (Hpos : 0 < zlen (rs ≫= run_cpus)).
  { destruct rs as [|r rs]; [done|]. apply Forall_cons in Hrs as [Hr Hrs].
    rewrite zlen_runs_cons by done. pose proof (zlen_nonneg (rs ≫= run_cpus)). destruct Hr; lia. }
  assert (H0 : holds (Tmp [] 0) []) by (split; cbn; [done|rewrite zlen_nil; lia]).
  assert (Htrim : forall t, holds t (rs ≫= run_cpus) ->
    (if 0 <? nr_cpus t then cpu_map__trim_new alloc (tmp_cpus t) else None) = Some (rs ≫= run_cpus)).
  { intros t [Ht _]. unfold nr_cpus, cpu_map__trim_new, sizeof_cpu_map. rewrite Ht.
    replace (0 <? zlen (rs ≫= run_cpus)) with true by lia. rewrite memory by lia. done. }
  split.
  - unfold cpu_map__new. destruct (cpu_map_loop_ok rs (S (length (runs_text true rs))) (Tmp [] 0) [])
      as (t & E & Ht); try done; [lia|]. rewrite E. specialize (Htrim t Ht).
    destruct rs as [|r rs]; [done|]. apply Forall_cons in Hrs as [Hr Hrs]. cbn [runs_text].
    rewrite run_text_digit by (done || apply stop_runs). cbn [negb andb].
    destruct (0 <? nr_cpus t); [by rewrite Htrim|done].
  - intros Hbig. assert (Hruns : Forall (fun r => zlen (rs ≫= run_cpus) + (r.1 + r.2 - 1) < 2 ^ 31) rs).
    { apply Forall_forall. intros r Hr. apply (proj1 (Forall_forall _ _) Hbig (r.1 + r.2 - 1)).
      apply list_elem_of_bind. exists r. split; [|done]. apply elem_of_seqZ.
      destruct (proj1 (Forall_forall _ _) Hrs r Hr). lia. }
    unfold cpu_map__read. rewrite length_app.
    destruct (read_loop_ok _ rs Hl (S (length (runs_text true rs) + length [cNEWLINE])) (Tmp [] 0) [] 0 0)
      as (t & E & Ht); try done; [lia|]. rewrite E. specialize (Htrim t Ht).
    destruct (0 <? nr_cpus t); [by rewrite Htrim|done].
Qed.

End Reading.

(** ** The length of the text *)

Lemma length_udec fuel : forall v k acc, 0 <= v < 10 ^ Z.of_nat (S k) ->
  (length (udec fuel v acc) <= S k + length acc)%nat.
Proof.
  induction fuel as [|fuel IH]; intros v k acc Hv; cbn [udec]; [lia|].
  destruct (Z.eqb_spec (v / 10) 0) as [|Hn]; [cbn [length]; lia|].
  destruct k as [|k].
  - change (10 ^ Z.of_nat 1) with 10 in Hv. destruct Hn. by apply Z.div_small.
  - rewrite Nat2Z.inj_succ, Z.pow_succ_r in Hv by lia.
    specialize (IH (v / 10) k (48 + v mod 10 :: acc)). cbn [length] in IH.
    assert (0 <= v / 10 < 10 ^ Z.of_nat (S k)); [|lia].
    split; [apply Z.div_pos; lia|apply Z.div_lt_upper_bound; lia].
Qed.

Lemma zlen_fmt_d v : cpu_ok v -> zlen (fmt_d v) <= 10.
Proof.
  unfold cpu_ok, INT_MAX. intros Hv. unfold fmt_d. destruct (Z.ltb_spec v 0); [lia|].
  pose proof (length_udec 11 v 9 []) as H10. unfold zlen. cbn [length] in H10.
  change (10 ^ Z.of_nat 10) with 10000000000 in H10. lia.
Qed.

Lemma zlen_runs_text rs : forall first, Forall run_ok rs ->
  zlen (runs_text first rs) <= 11 * zlen (rs ≫= run_cpus).
Proof.
  induction rs as [|r rs IH]; intros first Hrs; [done|]. apply Forall_cons in Hrs as [Hr Hrs].
  rewrite zlen_runs_cons by done. cbn [runs_text]. rewrite zlen_app. specialize (IH false Hrs).
  assert (zlen (run_text first r) <= 11 * r.2); [|lia].
  destruct Hr as (Hn & Ha & Hb). apply zlen_fmt_d in Ha, Hb.
  unfold run_text, range_text, comma. rewrite zlen_app.
  assert (zlen (if first then [] else [cCOMMA]) <= 1) by (by destruct first).
  destruct (Z.eqb_spec r.2 1); rewrite ?zlen_app, ?zlen_cons, ?zlen_nil; lia.
Qed.

Lemma udec_nonzero fuel : forall v acc, 0 <= v -> Forall (fun b => b <> 0) acc ->
  Forall (fun b => b <> 0) (udec fuel v acc).
Proof.
  induction fuel as [|fuel IH]; intros v acc Hv Hacc; cbn [udec]; [done|].
  pose proof (Z.mod_pos_bound v 10). pose proof (Z.div_pos v 10).
  assert (Forall (fun b => b <> 0) (48 + v mod 10 :: acc)) by (constructor; [lia|done]).
  destruct (v / 10 =? 0); [done|]. apply IH; [lia|done].
Qed.

Lemma fmt_d_nonzero v : Forall (fun b => b <> 0) (fmt_d v).
Proof.
  unfold fmt_d. destruct (Z.ltb_spec v 0); [constructor; [done|]|]; apply udec_nonzero; (lia || constructor).
Qed.

Lemma runs_text_nonzero rs : forall first, Forall (fun b => b <> 0) (runs_text first rs).
Proof.
  induction rs as [|r rs IH]; intros first; cbn [runs_text]; [constructor|].
  apply Forall_app. split; [|apply IH]. unfold run_text, range_text, comma. apply Forall_app. split.
  - destruct first; repeat constructor; done.
  - destruct (r.2 =? 1); [apply fmt_d_nonzero|]. apply Forall_app. split; [apply fmt_d_nonzero|].
    constructor; [done|apply fmt_d_nonzero].
Qed.

(** C40: a list of cpus survives the text form.  For every map of different cpu
    numbers (not negative and below INT_MAX, fewer than 2^31 - 2048 of them) there
    is one text of at most 11 characters per cpu that cpu_map__snprint writes, with
    its terminator, into any buffer that is large enough; with memory, cpu_map__new
    (command line, NUMA header) gives back exactly the map, cpus in the same order,
    and so does cpu_map__read (sysfs) where a cpu number and the number of cpus add
    up to an int. *)
Theorem cpu_list_roundtrip alloc nprocessors_onln map :
  (forall n, 0 <= n < 2 ^ 40 -> alloc n = true) ->
  map <> [] -> NoDup map -> Forall cpu_ok map -> zlen map < 2 ^ 31 - 2048 ->
  exists text,
    zlen text <= 11 * zlen map /\ Forall (fun b => b <> 0) text /\
    (forall m size, zlen text < size -> size <= zlen m -> size < 2 ^ 64 ->
       exists rest, cpu_map__snprint map m size = Ok (zlen text, text ++ 0 :: rest)) /\
    cpu_map__new alloc nprocessors_onln text = Ok (Some map) /\
    (Forall (fun c => zlen map + c < 2 ^ 31) map ->
     cpu_map__read alloc nprocessors_onln (text ++ [cNEWLINE]) = Ok (Some map)).
Proof.
  intros Hmem Hne Hnd Hok Hl. destruct (snprint_ok map Hne Hok) as (rs & -> & Hrs & Hn & Hp).
  exists (runs_text true rs). split; [by apply zlen_runs_text|].
  split; [apply runs_text_nonzero|]. split; [done|]. by apply readers_ok.
Qed.

Lemma zlen_wrn m off bs m' : wrn m off bs = Some m' -> zlen m' = zlen m.
Proof.
  unfold wrn. destruct (Z.ltb_spec off 0); [done|].
  destruct (Z.ltb_spec (zlen m) (off + zlen bs)); [done|]. intros [= <-].
  unfold zlen in *. rewrite !length_app, length_take, length_drop. lia.
Qed.

(** The mask text of a map whose last cpu is a multiple of eight: the bitmap has
    one byte too few and the last cpu is stored behind it. *)
Lemma mask_bits_oob map : forall bitmap k,
  Forall (fun c => 0 <= c) map -> zlen bitmap <= k -> mask_bits (map ++ [8 * k]) bitmap = Oob.
Proof.
  induction map as [|c map IH]; intros bitmap k Hpos Hk; cbn [app mask_bits].
  - replace (Z.quot (8 * k) 8) with k by (rewrite Z.mul_comm, Z.quot_mul; lia).
    pose proof (zlen_nonneg bitmap). unfold rd8. destruct (Z.ltb_spec k 0); [lia|].
    by rewrite lookup_ge_None_2 by (unfold zlen in *; lia).
  - apply Forall_cons in Hpos as [Hc Hpos]. destruct (rd8 bitmap (Z.quot c 8)) as [b|]; [|done]. rred.
    destruct (wrn bitmap (Z.quot c 8) _) as [bitmap'|] eqn:E; [|done]. rred. apply IH; [done|].
    by rewrite (zlen_wrn _ _ _ _ E).
Qed.

Theorem cpu_mask_overrun alloc map k m size :
  (forall n, alloc n = true) -> 0 <= k -> Forall (fun c => 0 <= c) map ->
  cpu_map__snprint_mask alloc (map ++ [8 * k]) m size = Oob.
Proof.
  intros Hmem Hk Hpos. unfold cpu_map__snprint_mask.
  replace (zlen (map ++ [8 * k]) - 1) with (zlen map) by (rewrite zlen_app, zlen_cons, zlen_nil; lia).
  rewrite cpu_at. rred. rewrite Hmem. cbn [negb].
  rewrite mask_bits_oob; [done|done|]. unfold zlen. rewrite length_replicate.
  rewrite Z.quot_div_nonneg by lia. replace (8 * k + 7) with (7 + k * 8) by lia.
  rewrite Z.div_add, Z.div_small by lia. lia.
Qed.

(** * Record data *)

(** The bits of a little endian number are those of its bytes. *)
Lemma testbit_le_val bs : forall i, bytes_ok bs -> 0 <= i ->
  Z.testbit (le_val bs) i
  = match bs !! Z.to_nat (i / 8) with Some b => Z.testbit b (i mod 8) | None => false end.
Proof.
  induction bs as [|b bs IH]; intros i Hok Hi; [cbn [le_val]; by rewrite Z.bits_0|].
  apply Forall_cons in Hok as [Hb Hok]. unfold byte_ok in Hb. cbn [le_val].
  replace (b + 256 * le_val bs) with (b + le_val bs * 2 ^ 8) by lia.
  rewrite <- lor_add_disjoint, Z.lor_spec by lia. destruct (Z.lt_ge_cases i 8).
  - rewrite Z.shiftl_spec_low, orb_false_r, Z.div_small, Z.mod_small by lia. done.
  - rewrite (testbit_above b 8 i), Z.shiftl_spec_high, IH by (done || lia). cbn [orb].
    replace (i / 8) with (1 + (i - 8) / 8) by (replace i with (i - 8 + 1 * 8) at 2 by lia;
      rewrite Z.div_add by lia; lia).
    rewrite Z2Nat.inj_add by (try apply Z.div_pos; lia). cbn [Nat.add lookup list_lookup].
    replace ((i - 8) mod 8) with (i mod 8); [done|].
    replace i with (i - 8 + 1 * 8) at 1 by lia. by rewrite Z.mod_add by lia.
Qed.

Lemma byte_ok_lor b k : byte_ok b -> 0 <= k < 8 -> byte_ok (Z.lor b (2 ^ k)).
Proof.
  unfold byte_ok. intros Hb Hk. split; [apply Z.lor_nonneg; split; [lia|apply Z.pow_nonneg; lia]|].
  change 256 with (2 ^ 8). apply Z.log2_lt_cancel. rewrite Z.log2_pow2, Z.log2_lor by
    (try (apply Z.pow_nonneg); lia). rewrite Z.log2_pow2 by lia.
  destruct (Z.eq_dec b 0) as [->|]; [cbn; lia|].
  pose proof (Z.log2_lt_pow2 b 8). change (2 ^ 8) with 256 in *. lia.
Qed.

Lemma set_bit_ok nr pre bs post : bytes_ok bs -> 0 <= nr < 8 * zlen bs ->
  exists bs', set_bit nr (zlen pre) (pre ++ bs ++ post) = Ok (pre ++ bs' ++ post) /\
    zlen bs' = zlen bs /\ bytes_ok bs' /\
    forall i, 0 <= i -> Z.testbit (le_val bs') i = Z.testbit (le_val bs) i || (i =? nr).
Proof.
  intros Hok Hnr. pose proof (Z.mod_pos_bound nr 8). pose proof (Z.div_mod nr 8).
  assert (Hlt : (Z.to_nat (nr / 8) < length bs)%nat) by (unfold zlen in Hnr; lia).
  destruct (lookup_lt_is_Some_2 bs (Z.to_nat (nr / 8)) Hlt) as [b Eb].
  pose proof (bytes_ok_lookup _ _ _ Hok Eb) as Hb. unfold byte_ok in Hb.
  pose proof (take_drop_middle _ _ _ Eb) as Esplit.
  set (l := take (Z.to_nat (nr / 8)) bs) in *. set (r := drop (S (Z.to_nat (nr / 8))) bs) in *.
  assert (Hl : zlen l = nr / 8) by (unfold zlen, l; rewrite length_take; lia).
  clearbody l r. set (b' := Z.lor b (2 ^ (nr mod 8))).
  assert (Hb' : byte_ok b').
  { apply byte_ok_lor; [done|lia]. }
  exists (l ++ b' :: r). assert (Hz : zlen (l ++ b' :: r) = zlen bs).
  { rewrite <- Esplit. by rewrite !zlen_app, !zlen_cons. }
  assert (Hok' : bytes_ok (l ++ b' :: r)).
  { rewrite <- Esplit in Hok. apply bytes_ok_app in Hok as [Hokl Hokr].
    apply Forall_cons in Hokr as [_ Hokr]. apply bytes_ok_app. split; [done|by constructor]. }
  split; [|split; [done|split; [done|]]].
  - assert (E : pre ++ bs ++ post = (pre ++ l) ++ b :: r ++ post)
      by (rewrite <- Esplit; by rewrite <- !app_assoc).
    unfold set_bit. rewrite E, <- Hl, <- zlen_app, rd8_mid by done. rred.
    rewrite wrn_app; [|done|rewrite !zlen_cons; pose proof (zlen_nonneg (r ++ post)); rewrite zlen_nil; lia].
    rred. cbn [length drop app]. by rewrite <- !app_assoc.
  - intros i Hi. rewrite !testbit_le_val by done.
    pose proof (Z.mod_pos_bound i 8). pose proof (Z.div_mod i 8). pose proof (Z.div_pos i 8).
    assert (Hlk : (l ++ b' :: r) !! Z.to_nat (nr / 8) = Some b').
    { apply list_lookup_middle. unfold zlen in Hl. lia. }
    destruct (Z.eq_dec (i / 8) (nr / 8)) as [E|E].
    + rewrite E, Hlk, Eb. unfold b'. rewrite Z.lor_spec, Z.pow2_bits_eqb by lia. f_equal. lia.
    + assert (E2 : (l ++ b' :: r) !! Z.to_nat (i / 8) = bs !! Z.to_nat (i / 8)).
      { rewrite <- Esplit. destruct (decide (Z.to_nat (i / 8) < length l)%nat).
        - by rewrite !lookup_app_l by done.
        - rewrite !lookup_app_r by lia.
          destruct (Z.to_nat (i / 8) - length l)%nat eqn:En; [|done]. unfold zlen in Hl. lia. }
      rewrite E2. replace (i =? nr) with false by lia. by rewrite orb_false_r.
Qed.

Lemma set_bit_all_ok map : forall pre bs post, bytes_ok bs ->
  Forall (fun c => 0 <= c < 8 * zlen bs) map ->
  exists bs', set_bit_all map (zlen pre) (pre ++ bs ++ post) = Ok (pre ++ bs' ++ post) /\
    zlen bs' = zlen bs /\ bytes_ok bs' /\
    forall i, 0 <= i -> Z.testbit (le_val bs') i = Z.testbit (le_val bs) i || bool_decide (i ∈ map).
Proof.
  induction map as [|c map IH]; intros pre bs post Hok Hmap.
  - exists bs. split; [done|]. split; [done|]. split; [done|]. intros i _.
    rewrite bool_decide_eq_false_2 by (by intros ?%elem_of_nil). by rewrite orb_false_r.
  - apply Forall_cons in Hmap as [Hc Hmap].
    destruct (set_bit_ok c pre bs post Hok Hc) as (bs1 & E1 & Hz1 & Hok1 & Ht1).
    destruct (IH pre bs1 post Hok1) as (bs2 & E2 & Hz2 & Hok2 & Ht2); [by rewrite Hz1|].
    exists bs2. cbn [set_bit_all]. rewrite E1. rred. split; [done|]. split; [lia|]. split; [done|].
    intros i Hi. rewrite Ht2, Ht1, <- orb_assoc by lia. f_equal.
    destruct (Z.eqb_spec i c) as [->|Hne]; cbn [orb].
    + symmetry. apply bool_decide_eq_true_2. left.
    + apply bool_decide_ext. rewrite elem_of_cons. split; [by right|]. by intros [?|?].
Qed.

(** Strictly increasing cpus are the set bits below a bound above them. *)
Lemma set_bits_sorted w nbits map :
  StronglySorted Z.lt map -> Forall (fun c => 0 <= c < nbits) map ->
  (forall i, 0 <= i -> Z.testbit w i = bool_decide (i ∈ map)) -> set_bits w nbits = map.
Proof.
  intros Hs Hmap Hw. unfold set_bits.
  assert (Hsq : forall n a, StronglySorted Z.lt (seqZ a (Z.of_nat n))).
  { induction n as [|n IH]; intros a; [constructor|]. rewrite seqZ_first by lia.
    replace (Z.of_nat (S n) - 1) with (Z.of_nat n) by lia. constructor; [apply IH|].
    apply Forall_forall. intros y Hy%elem_of_seqZ. lia. }
  assert (Hsf : forall l : list Z, StronglySorted Z.lt l ->
    StronglySorted Z.lt (filter (fun i => Z.testbit w i = true) l)).
  { induction 1 as [|x l Hl IH Hx]; [constructor|]. rewrite filter_cons. destruct (decide _); [|done].
    constructor; [done|]. rewrite Forall_forall in Hx |- *. intros y [_ Hy]%list_elem_of_filter. by apply Hx. }
  assert (Hnd : forall l : list Z, StronglySorted Z.lt l -> NoDup l).
  { induction 1 as [|x l Hl IH Hx]; [constructor|]. constructor; [|done]. intros Hin.
    rewrite Forall_forall in Hx. apply Hx in Hin. lia. }
  assert (Hsn : StronglySorted Z.lt (seqZ 0 nbits)).
  { destruct (Z.le_gt_cases nbits 0); [rewrite seqZ_nil by lia; constructor|].
    rewrite <- (Z2Nat.id nbits) by lia. apply Hsq. }
  apply (StronglySorted_unique_strong Z.lt); [lia|by apply Hsf|done|].
  apply NoDup_Permutation; [by apply Hnd, Hsf|by apply Hnd|]. intros i.
  rewrite list_elem_of_filter, elem_of_seqZ. rewrite Forall_forall in Hmap. split.
  - intros [Ht Hi]. rewrite Hw in Ht by lia. by apply bool_decide_eq_true in Ht.
  - intros Hin. pose proof (Hmap i Hin). split; [|lia]. rewrite Hw by lia. by apply bool_decide_eq_true_2.
Qed.

Lemma PERF_ALIGN_pow2 x k : 0 <= k -> PERF_ALIGN x (2 ^ k) = (x + (2 ^ k - 1)) / 2 ^ k * 2 ^ k.
Proof.
  intros Hk. unfold PERF_ALIGN. rewrite <- Z.ldiff_land, Z.sub_1_r, <- Z.ones_equiv.
  by rewrite Z.ldiff_ones_r, Z.shiftl_mul_pow2, Z.shiftr_div_pow2 by lia.
Qed.

Lemma PERF_ALIGN_bounds x k : 0 <= k -> x <= PERF_ALIGN x (2 ^ k) < x + 2 ^ k.
Proof.
  intros Hk. rewrite PERF_ALIGN_pow2 by done. assert (0 < 2 ^ k) by (by apply Z.pow_pos_nonneg).
  pose proof (Z.div_mod (x + (2 ^ k - 1)) (2 ^ k)). pose proof (Z.mod_pos_bound (x + (2 ^ k - 1)) (2 ^ k)).
  lia.
Qed.

Lemma mask_max_ok map : forall b,
  b <= foldl mask_step b map /\ Forall (fun c => c < foldl mask_step b map) map /\
  forall B, b <= B -> Forall (fun c => c < B) map -> foldl mask_step b map <= B.
Proof.
  induction map as [|c map IH]; intros b; cbn [foldl]; [done|].
  assert (Hf : b <= mask_step b c /\ c + 1 <= mask_step b c /\ (mask_step b c = b \/ mask_step b c = c + 1))
    by (unfold mask_step; destruct (Z.ltb_spec b (c + 1)); lia).
  destruct (IH (mask_step b c)) as (H1 & H2 & H3). split; [lia|]. split.
  - constructor; [lia|done].
  - intros B HB [Hc Hm]%Forall_cons. apply H3; [lia|done].
Qed.

(** The bytes before what is still zero. *)
Definition zeros (n : Z) : bytes := replicate (Z.to_nat n) 0.

Lemma wrn_zeros pre n off bs : off = zlen pre -> zlen bs <= n ->
  wrn (pre ++ zeros n) off bs = Some ((pre ++ bs) ++ zeros (n - zlen bs)).
Proof.
  intros -> Hn. pose proof (zlen_nonneg bs).
  rewrite wrn_app; [|done|unfold zeros, zlen at 2; rewrite length_replicate; lia].
  rewrite <- app_assoc. do 3 f_equal. unfold zeros. rewrite drop_replicate. f_equal. unfold zlen in *. lia.
Qed.

Lemma zeros_split a b : 0 <= a <= b -> zeros b = zeros a ++ zeros (b - a).
Proof. intros. unfold zeros. rewrite <- replicate_add. f_equal. lia. Qed.

Lemma zlen_zeros n : 0 <= n -> zlen (zeros n) = n.
Proof. intros. unfold zlen, zeros. rewrite length_replicate. lia. Qed.

Lemma le_val_zeros n : le_val (zeros n) = 0.
Proof. unfold zeros. induction (Z.to_nat n) as [|k IH]; [done|]. cbn [replicate le_val]. lia. Qed.

Lemma zeros_ok n : bytes_ok (zeros n).
Proof. apply Forall_replicate. unfold byte_ok. lia. Qed.

(** What precedes the payload of a CPU_MAP record. *)
Definition cpu_map_head (size type : Z) : bytes :=
  header_bytes PERF_RECORD_CPU_MAP 0 size ++ le_bytes 2 type.

Lemma zlen_cpu_map_head size type : zlen (cpu_map_head size type) = 10.
Proof. unfold cpu_map_head. by rewrite zlen_app, zlen_header, zlen_le_bytes. Qed.

(** The header and the type of the record are written, the rest is zero. *)
Lemma cpu_map_event_head {A} size type (k : bytes -> res A) : 10 <= size ->
  (event ← mem (wrn (zeros size) 0 (header_bytes PERF_RECORD_CPU_MAP 0 size));
   event ← mem (wrn event cpu_map_event_data (le_bytes 2 type)); k event)
  = k (cpu_map_head size type ++ zeros (size - 10)).
Proof.
  intros Hs. change (zeros size) with ([] ++ zeros size).
  rewrite (wrn_zeros [] size 0) by (rewrite ?zlen_header; done || lia). cbn [app]. rred.
  rewrite zlen_header, wrn_zeros by (rewrite ?zlen_header, ?zlen_le_bytes; done || lia). rred.
  rewrite zlen_le_bytes. fold (cpu_map_head size type). do 2 f_equal. f_equal. lia.
Qed.

Lemma wrn_type_again size type rest :
  wrn (cpu_map_head size type ++ rest) cpu_map_event_data (le_bytes 2 type)
  = Some (cpu_map_head size type ++ rest).
Proof.
  unfold cpu_map_head. rewrite <- app_assoc, wrn_app.
  - rewrite length_le_bytes. by rewrite drop_app_length' by (by rewrite length_le_bytes).
  - by rewrite zlen_header.
  - rewrite zlen_app. pose proof (zlen_nonneg rest). lia.
Qed.

Lemma rd_type size type rest : is_uint 16 type ->
  rd_le (cpu_map_head size type ++ rest) cpu_map_event_data 2 = Some type.
Proof.
  intros Ht. unfold cpu_map_head. rewrite <- app_assoc. by apply rd_le_mid.
Qed.

Definition entry_cpu (c : Z) : Prop := c = -1 \/ 0 <= c < 65535.

Lemma zlen_entries map : zlen (map ≫= le_bytes 2) = 2 * zlen map.
Proof.
  induction map as [|c map IH]; [done|]. rewrite bind_cons, zlen_app, zlen_cons, zlen_le_bytes. lia.
Qed.

Lemma read_cpus_ok map : forall pre post, Forall entry_cpu map ->
  read_cpus (length map) (zlen pre) (pre ++ (map ≫= le_bytes 2) ++ post) = Ok map.
Proof.
  induction map as [|c map IH]; intros pre post Hmap; [done|].
  apply Forall_cons in Hmap as [Hc Hmap]. cbn [length read_cpus]. rewrite bind_cons.
  rewrite <- app_assoc, <- (le_bytes_mod 2 c). change (256 ^ Z.of_nat 2) with 65536.
  rewrite rd_le_mid by (done || apply (Z.mod_pos_bound c 65536); lia). rred.
  specialize (IH (pre ++ le_bytes 2 (c mod 65536)) post Hmap).
  rewrite zlen_app, zlen_le_bytes, <- app_assoc in IH. change (Z.of_nat 2) with 2 in IH.
  rewrite IH. rred. do 2 f_equal.
  destruct Hc as [-> | Hc]; [done|]. rewrite Z.mod_small by lia.
  by destruct (Z.eqb_spec c 65535); [lia|].
Qed.

Section Records.
Context (alloc : Z -> bool).
Hypothesis memory : forall n, 0 <= n < 2 ^ 40 -> alloc n = true.

Lemma entries_ok map size : Forall entry_cpu map -> zlen map <= 65535 -> 12 + 2 * zlen map <= size ->
  exists event, cpu_map_data__synthesize map PERF_CPU_MAP__CPUS (mask_max map) cpu_map_event_data
      (cpu_map_head size PERF_CPU_MAP__CPUS ++ zeros (size - 10))
    = Ok (cpu_map_head size PERF_CPU_MAP__CPUS ++ event) /\ zlen event = size - 10 /\
    cpu_map__new_data alloc (cpu_map_head size PERF_CPU_MAP__CPUS ++ event) cpu_map_event_data
    = Ok (Some map).
Proof.
  intros Hmap Hnr Hs. pose proof (zlen_nonneg map). set (h := cpu_map_head size PERF_CPU_MAP__CPUS).
  assert (Hh : zlen h = 10) by apply zlen_cpu_map_head.
  exists (le_bytes 2 (zlen map) ++ (map ≫= le_bytes 2) ++ zeros (size - 12 - 2 * zlen map)).
  assert (He : 10 = zlen h) by done. split; [|split].
  - unfold cpu_map_data__synthesize, h. rewrite wrn_type_again. fold h. rred. cbn [Z.eqb PERF_CPU_MAP__CPUS].
    unfold synthesize_cpus. change (cpu_map_event_data + 2) with 10.
    rewrite wrn_zeros by (rewrite ?zlen_le_bytes; done || lia). rred.
    rewrite wrn_zeros by (rewrite ?zlen_app, ?zlen_le_bytes, ?zlen_entries; done || lia). rred.
    rewrite zlen_entries, zlen_le_bytes, <- !app_assoc. do 5 f_equal. lia.
  - rewrite !zlen_app, zlen_le_bytes, zlen_entries, zlen_zeros by lia. lia.
  - unfold cpu_map__new_data. subst h. rewrite rd_type by done. rred. cbn [Z.eqb PERF_CPU_MAP__CPUS].
    unfold cpu_map__from_entries. change (cpu_map_event_data + 2) with 10.
    rewrite rd_le_mid by (done || (change (256 ^ Z.of_nat 2) with 65536; lia)). rred.
    unfold cpu_map__empty_new, sizeof_cpu_map. rewrite memory by lia.
    replace (Z.to_nat (zlen map)) with (length map) by (unfold zlen; lia). rewrite app_assoc.
    replace (10 + 2) with (zlen (cpu_map_head size PERF_CPU_MAP__CPUS ++ le_bytes 2 (zlen map)))
      by (rewrite zlen_app, zlen_le_bytes; lia).
    by rewrite read_cpus_ok.
Qed.

(** A record with a mask of [L] longs. *)
Definition mask_event (size L : Z) (bs : bytes) : bytes :=
  (cpu_map_head size PERF_CPU_MAP__MASK ++ le_bytes 2 L ++ le_bytes 2 8 ++ zeros 4) ++ bs ++
  zeros (size - 18 - 8 * L).

Lemma zlen_mask_head size L :
  zlen (cpu_map_head size PERF_CPU_MAP__MASK ++ le_bytes 2 L ++ le_bytes 2 8 ++ zeros 4) = 18.
Proof. by rewrite !zlen_app, !zlen_le_bytes, zlen_cpu_map_head. Qed.

Lemma mask_written map size :
  let L := BITS_TO_LONGS (mask_max map) in 0 <= L -> 18 + L * 8 <= size ->
  cpu_map_data__synthesize map PERF_CPU_MAP__MASK (mask_max map) cpu_map_event_data
      (cpu_map_head size PERF_CPU_MAP__MASK ++ zeros (size - 10))
  = set_bit_all map 18 (mask_event size L (zeros (8 * L))).
Proof.
  intros L HL Hs. unfold cpu_map_data__synthesize. rewrite wrn_type_again. rred.
  cbn [Z.eqb PERF_CPU_MAP__MASK]. unfold synthesize_mask. change (cpu_map_event_data + 2) with 10. fold L.
  rewrite wrn_zeros by (rewrite ?zlen_le_bytes, ?zlen_cpu_map_head; done || lia). rred.
  rewrite wrn_zeros by (rewrite ?zlen_app, ?zlen_le_bytes, ?zlen_cpu_map_head; done || lia). rred.
  rewrite !zlen_le_bytes. replace (size - 10 - Z.of_nat 2 - Z.of_nat 2) with (size - 14) by lia.
  rewrite (zeros_split 4 (size - 14)), (zeros_split (8 * L) (size - 14 - 4)) by lia.
  replace (size - 14 - 4 - 8 * L) with (size - 18 - 8 * L) by lia.
  unfold mask_event. by rewrite <- !app_assoc.
Qed.

Lemma mask_read size L bs : 0 <= L <= 1024 -> zlen bs = 8 * L ->
  cpu_map__new_data alloc (mask_event size L bs) cpu_map_event_data
  = Ok (Some (set_bits (le_val bs) (L * 8 * 8))).
Proof.
  intros HL Hz. pose proof (zlen_cpu_map_head size PERF_CPU_MAP__MASK) as Hh.
  assert (E2 : rd_le (mask_event size L bs) (10 + mask_offset) (Z.to_nat (8 * L)) = Some (le_val bs)).
  { unfold mask_event, rd_le. by rewrite rdn_mid by (rewrite ?zlen_mask_head; unfold zlen in Hz; done || lia). }
  assert (E1 : rd_le (mask_event size L bs) (10 + 2) 2 = Some 8).
  { unfold mask_event. rewrite <- !app_assoc, app_assoc.
    apply rd_le_mid; [rewrite zlen_app, zlen_le_bytes, Hh|]; done. }
  assert (E0 : rd_le (mask_event size L bs) 10 2 = Some L).
  { unfold mask_event. rewrite <- !app_assoc. apply rd_le_mid; [by rewrite Hh|].
    change (256 ^ Z.of_nat 2) with 65536. lia. }
  assert (Et : rd_le (mask_event size L bs) cpu_map_event_data 2 = Some PERF_CPU_MAP__MASK).
  { unfold mask_event. rewrite <- !app_assoc. by apply rd_type. }
  unfold cpu_map__new_data. rewrite Et. rred. cbn [Z.eqb PERF_CPU_MAP__MASK]. unfold cpu_map__from_mask.
  change (cpu_map_event_data + 2) with 10. rewrite E0. rred. rewrite E1. rred.
  replace ((L * 8 * 8 + 63) / 64 * 8) with (8 * L)
    by (replace (L * 8 * 8 + 63) with (63 + L * 64) by lia; rewrite Z.div_add, Z.div_small by lia; lia).
  rewrite E2. rred. unfold cpu_map__empty_new, sizeof_cpu_map. set (l := set_bits _ _).
  pose proof (zlen_nonneg l). assert (zlen l <= 65536); [|by rewrite memory by lia].
  unfold l, set_bits, zlen.
  pose proof (length_filter (fun i => Z.testbit (le_val bs) i = true) (seqZ 0 (L * 8 * 8))) as Hf.
  rewrite length_seqZ in Hf. lia.
Qed.

Lemma mask_longs map : Forall (fun c => 0 <= c < 65535) map ->
  let L := BITS_TO_LONGS (mask_max map) in
  0 <= L <= 1024 /\ Forall (fun c => 0 <= c < 64 * L) map.
Proof.
  intros Hmap L. destruct (mask_max_ok map 0) as (H0 & Hlt & HB). fold (mask_max map) in *.
  assert (HmB : mask_max map <= 65535)
    by (apply HB; [lia|]; eapply Forall_impl; [exact Hmap|]; cbn; lia).
  assert (HL : mask_max map <= 64 * L /\ 0 <= L <= 1024).
  { unfold L, BITS_TO_LONGS. pose proof (Z.div_mod (mask_max map + 63) 64).
    pose proof (Z.mod_pos_bound (mask_max map + 63) 64). lia. }
  split; [lia|]. rewrite Forall_forall in *. intros c Hc.
  pose proof (Hmap c Hc). pose proof (Hlt c Hc). cbn in *. lia.
Qed.

Lemma mask_ok map size : StronglySorted Z.lt map -> Forall (fun c => 0 <= c < 65535) map ->
  18 + BITS_TO_LONGS (mask_max map) * 8 <= size ->
  exists event, cpu_map_data__synthesize map PERF_CPU_MAP__MASK (mask_max map) cpu_map_event_data
      (cpu_map_head size PERF_CPU_MAP__MASK ++ zeros (size - 10))
    = Ok (cpu_map_head size PERF_CPU_MAP__MASK ++ event) /\ zlen event = size - 10 /\
    cpu_map__new_data alloc (cpu_map_head size PERF_CPU_MAP__MASK ++ event) cpu_map_event_data
    = Ok (Some map).
Proof.
  intros Hsort Hmap. destruct (mask_longs map Hmap) as [HL Hb].
  set (L := BITS_TO_LONGS (mask_max map)) in *. intros Hs.
  set (pre := cpu_map_head size PERF_CPU_MAP__MASK ++ le_bytes 2 L ++ le_bytes 2 8 ++ zeros 4).
  assert (Hpre : zlen pre = 18) by apply zlen_mask_head.
  destruct (set_bit_all_ok map pre (zeros (8 * L)) (zeros (size - 18 - 8 * L)) (zeros_ok _))
    as (bs & E & Hz & Hok & Ht).
  { rewrite zlen_zeros by lia. eapply Forall_impl; [exact Hb|]. cbn. lia. }
  rewrite zlen_zeros in Hz by lia. rewrite Hpre in E.
  exists (le_bytes 2 L ++ le_bytes 2 8 ++ zeros 4 ++ bs ++ zeros (size - 18 - 8 * L)).
  assert (Ee : mask_event size L bs = cpu_map_head size PERF_CPU_MAP__MASK ++
    le_bytes 2 L ++ le_bytes 2 8 ++ zeros 4 ++ bs ++ zeros (size - 18 - 8 * L))
    by (unfold mask_event; by rewrite <- !app_assoc).
  rewrite <- Ee. split; [|split].
  - rewrite mask_written by (fold L; lia). exact E.
  - rewrite !zlen_app, !zlen_le_bytes, !zlen_zeros, Hz by lia. lia.
  - rewrite mask_read by done. do 2 f_equal. apply set_bits_sorted; [done| |].
    + eapply Forall_impl; [exact Hb|]. cbn. lia.
    + intros i Hi. rewrite Ht by done. by rewrite le_val_zeros, Z.bits_0.
Qed.

End Records.

(** The header and the size of a record whose payload was synthesized. *)
Lemma cpu_map_event_made alloc map size type body :
  10 <= size < 65536 -> alloc size = true -> zlen body = size - 10 ->
  cpu_map_data__synthesize map type (mask_max map) cpu_map_event_data
    (cpu_map_head size type ++ zeros (size - 10)) = Ok (cpu_map_head size type ++ body) ->
  cpu_map_data__alloc alloc map sizeof_cpu_map_event
    = Ok (if alloc size then Some (zeros size, size, type, mask_max map) else None) ->
  cpu_map_event__new alloc map = Ok (Some (cpu_map_head size type ++ body)) /\
  header_size (cpu_map_head size type ++ body) = Ok (zlen (cpu_map_head size type ++ body)).
Proof.
  intros Hs Hm Hb Es Ea. split.
  - unfold cpu_map_event__new. rewrite Ea, Hm. rred.
    rewrite (cpu_map_event_head size type (fun event =>
      event ← cpu_map_data__synthesize map type (mask_max map) cpu_map_event_data event; Ok (Some event)))
      by lia.
    by rewrite Es.
  - rewrite zlen_app, zlen_cpu_map_head, Hb. unfold cpu_map_head. rewrite <- app_assoc.
    rewrite header_size_of by (unfold is_uint; lia). f_equal. lia.
Qed.

(** a CPU_MAP record gives back the map it was made from, whether the cpus
    are stored one by one or as a mask: cpu_map__new_data inverts
    cpu_map_event__new for increasing cpu numbers below 65535 and for the dummy
    map of "any cpu"; the record's header has its size. *)
Theorem cpu_map_event_roundtrip alloc map :
  (forall n, 0 <= n < 2 ^ 40 -> alloc n = true) ->
  map = [-1] \/ (map <> [] /\ StronglySorted Z.lt map /\ Forall (fun c => 0 <= c < 65535) map /\
                 zlen map <= 65535) ->
  exists event, cpu_map_event__new alloc map = Ok (Some event) /\
    header_size event = Ok (zlen event) /\
    cpu_map__new_data alloc event cpu_map_event_data = Ok (Some map).
Proof.
  intros Hmem Hmap. set (L := BITS_TO_LONGS (mask_max map)).
  assert (Hfacts : exists d, cpu_map__empty (Some map) = Ok d /\ Forall entry_cpu map /\
    zlen map <= 65535 /\ 0 <= L <= 1024 /\ (d = true -> zlen map = 1) /\
    (d = false -> StronglySorted Z.lt map /\ Forall (fun c => 0 <= c < 65535) map)).
  { destruct Hmap as [-> | (Hne & Hs & Hb & Hn)]; [by exists true; repeat constructor|].
    exists false. destruct (mask_longs map Hb) as [HL _]. fold L in HL. destruct map as [|c map]; [done|].
    pose proof Hb as Hb'. apply Forall_cons in Hb' as [Hc _].
    split; [change (Ok (c =? -1) = Ok false); f_equal; lia|]. split; [|split; [done|split; [done|split; [done|done]]]].
    eapply Forall_impl; [exact Hb|]. intros ? ?. by right. }
  destruct Hfacts as (d & Ed & Hent & Hn & HL & Ht & Hf). pose proof (zlen_nonneg map) as Hnr.
  pose proof (PERF_ALIGN_bounds (12 + (2 + zlen map * 2) + 2) 3) as HA1.
  pose proof (PERF_ALIGN_bounds (12 + (8 + L * 8) + 2) 3) as HA2. change (2 ^ 3) with 8 in *.
  assert (Ea : cpu_map_data__alloc alloc map sizeof_cpu_map_event =
    let '(sz, type) := if d || (2 + zlen map * 2 <? 8 + L * 8) then (2 + zlen map * 2, PERF_CPU_MAP__CPUS)
                       else (8 + L * 8, PERF_CPU_MAP__MASK) in
    let size := PERF_ALIGN (12 + sz + 2) 8 in
    Ok (if alloc size then Some (zeros size, size, type, mask_max map) else None))
    by (unfold cpu_map_data__alloc; by rewrite Ed).
  destruct (d || (2 + zlen map * 2 <? 8 + L * 8)) eqn:Et; set (size := PERF_ALIGN _ 8) in Ea.
  - destruct (entries_ok alloc Hmem map size Hent Hn) as (body & Es & Hb & Er); [lia|].
    assert (Hsz : 10 <= size < 65536) by (destruct d; [|cbn [orb] in Et]; lia).
    destruct (cpu_map_event_made alloc map size PERF_CPU_MAP__CPUS body) as [E1 E2];
      [done|apply Hmem; lia|done..|]. by eexists.
  - destruct d; [done|]. destruct (Hf eq_refl) as [Hs Hb].
    destruct (mask_ok alloc Hmem map size Hs Hb) as (body & Es & Hbody & Er); [fold L; lia|].
    destruct (cpu_map_event_made alloc map size PERF_CPU_MAP__MASK body) as [E1 E2];
      [lia|apply Hmem; lia|done..|]. by eexists.
Qed.

(** * Grouping *)

Lemma build_loop_ok (g : Z -> Z) f n : forall cpu nr c,
  (forall i, cpu <= i < cpu + Z.of_nat n -> f i = Ok (g i)) -> NoDup c -> zlen c + Z.of_nat n <= nr ->
  exists c', build_loop n cpu nr f c = Ok c' /\ NoDup c' /\
    forall s, s ∈ c' <-> s ∈ c \/ exists i, cpu <= i < cpu + Z.of_nat n /\ s = g i.
Proof.
  induction n as [|n IH]; intros cpu nr c Hf Hnd Hc; cbn [build_loop].
  - exists c. split; [done|]. split; [done|]. intros s. split; [by left|]. intros [?|(i & Hi & _)]; [done|lia].
  - rewrite Hf by lia. rred. destruct (bool_decide_reflect (g cpu ∈ c)) as [Hin|Hin].
    + destruct (IH (cpu + 1) nr c) as (c' & E & Hnd' & Hs); [intros; apply Hf; lia|done|lia|].
      exists c'. split; [done|]. split; [done|]. intros s. rewrite Hs. split.
      * intros [?|(i & Hi & ->)]; [by left|right; exists i; split; [lia|done]].
      * intros [?|(i & Hi & ->)]; [by left|]. destruct (Z.eq_dec i cpu) as [->|]; [by left|].
        right; exists i; split; [lia|done].
    + replace (zlen c <? nr) with true by lia.
      destruct (IH (cpu + 1) nr (c ++ [g cpu])) as (c' & E & Hnd' & Hs).
      * intros; apply Hf; lia.
      * apply NoDup_app. split; [done|]. split; [|apply NoDup_singleton].
        intros x Hx ->%list_elem_of_singleton. done.
      * rewrite zlen_app, zlen_cons, zlen_nil. lia.
      * exists c'. split; [done|]. split; [done|]. intros s.
        rewrite Hs, elem_of_app, list_elem_of_singleton. split.
        -- intros [[?| ->]|(i & Hi & ->)]; [by left|right; exists cpu; split; [lia|done]|].
           right; exists i; split; [lia|done].
        -- intros [?|(i & Hi & ->)]; [by left; left|]. destruct (Z.eq_dec i cpu) as [->|]; [by left; right|].
           right; exists i; split; [lia|done].
Qed.

(** cpu_map__build_map lists every id of the cpus once, in increasing order. *)
Theorem build_map_groups alloc qsort map f g :
  (forall n, alloc n = true) ->
  (forall l, qsort l ≡ₚ l /\ Sorted Z.le (qsort l)) ->
  (forall i, 0 <= i < zlen map -> f map i = Ok (g i)) ->
  exists ids, cpu_map__build_map alloc qsort map f = Ok (Some ids) /\ NoDup ids /\ Sorted Z.le ids /\
    forall s, s ∈ ids <-> exists i, 0 <= i < zlen map /\ s = g i.
Proof.
  intros Hm Hq Hf. destruct (build_loop_ok g (f map) (length map) 0 (zlen map) []) as (c & E & Hnd & Hs).
  - intros i Hi. apply Hf. unfold zlen. lia.
  - constructor.
  - rewrite zlen_nil. unfold zlen. lia.
  - exists (qsort c). unfold cpu_map__build_map. rewrite Hm, E. rred. split; [done|].
    destruct (Hq c) as [Hp Hsort]. split; [by rewrite Hp|]. split; [done|]. intros s. rewrite Hp, Hs.
    split; [intros [H|H]; [by apply elem_of_nil in H|done]|by right].
Qed.

(** * Examples *)

Module CpumapExamples.

Definition all_memory (n : Z) : bool := true.

Definition eight_cpus : list Z := [0; 1; 2; 3; 7; 9; 10; 12].

(** "0-3,7,9-10,12" *)
Definition eight_text : cstr := [48; 45; 51; 44; 55; 44; 57; 45; 49; 48; 44; 49; 50].

Example eight_printed :
  cpu_map__snprint eight_cpus (zeros 16) 16 = Ok (13, eight_text ++ [0; 0; 0]).
Proof. vm_compute. reflexivity. Qed.

(** "0,2147483644-2147483646": three numbers that cpu_map__new takes one by one, but
    the sum of the number of cpus and the last cpu does not fit the int new_max. *)
Example read_sum_overflows :
  cpu_map__read all_memory 8 [48; 44; 50; 49; 52; 55; 52; 56; 51; 54; 52; 52; 45; 50; 49; 52; 55; 52; 56; 51; 54; 52; 54; 10] = Oob.
Proof. vm_compute. reflexivity. Qed.

Lemma cpu_list_roundtrip_witness : exists text,
  zlen text <= 11 * zlen eight_cpus /\ Forall (fun b => b <> 0) text /\
  (forall m size, zlen text < size -> size <= zlen m -> size < 2 ^ 64 ->
     exists rest, cpu_map__snprint eight_cpus m size = Ok (zlen text, text ++ 0 :: rest)) /\
  cpu_map__new all_memory 8 text = Ok (Some eight_cpus) /\
  (Forall (fun c => zlen eight_cpus + c < 2 ^ 31) eight_cpus ->
   cpu_map__read all_memory 8 (text ++ [cNEWLINE]) = Ok (Some eight_cpus)).
Proof.
  apply (cpu_list_roundtrip all_memory 8 eight_cpus).
  - done.
  - done.
  - apply (bool_decide_unpack _). vm_compute. exact I.
  - repeat constructor; unfold INT_MAX; cbn; lia.
  - done.
Defined.

Lemma cpu_map_event_roundtrip_witness : exists event,
  cpu_map_event__new all_memory eight_cpus = Ok (Some event) /\
  header_size event = Ok (zlen event) /\
  cpu_map__new_data all_memory event cpu_map_event_data = Ok (Some eight_cpus).
Proof.
  apply (cpu_map_event_roundtrip all_memory eight_cpus); [done|]. right.
  split; [done|]. split; [repeat constructor|]. split; [|done].
  repeat constructor; cbn; lia.
Defined.

(** A cpu number of 65535 comes back as "any cpu". *)
Example last_cpu_lost :
  (event ← cpu_map_event__new all_memory [65535]; match event with
   | Some event => cpu_map__new_data all_memory event cpu_map_event_data | None => Ok None end)
  = Ok (Some [-1]).
Proof. vm_compute. reflexivity. Qed.

Lemma cpu_mask_overrun_witness :
  cpu_map__snprint_mask all_memory [0; 1; 8] (zeros 16) 16 = Oob.
Proof. apply (cpu_mask_overrun all_memory [0; 1] 1 (zeros 16) 16); [done|lia|repeat constructor; lia]. Defined.

(** Every second cpu of a machine with 800 cpus. *)
Definition even_cpus : list Z := (fun i => 2 * i) <$> seqZ 0 400.

(** The list does not fit the buffer of cpu_map__fprintf: the size that is left
    wraps around, and the text is written behind the buffer. *)
Theorem cpu_list_overflow : cpu_map__fprintf (zeros BUFSIZE) even_cpus = Oob.
Proof. vm_compute. reflexivity. Qed.

(** A map without cpus: the entry that the text is made of is not there. *)
Theorem cpu_list_empty_overread m size : cpu_map__snprint [] m size = Oob.
Proof. done. Qed.

End CpumapExamples.
