(* ===== verification/FeatFd.v ===== *)
(** Model of the input and output layer of util/header.c: reading and writing of
    a file or of a memory buffer through a struct feat_fd (do_write, write_padded,
    do_write_string, do_write_bitmap, __do_read, do_read_u32, do_read_u64,
    do_read_string, do_read_bitmap), readn and writen of util/util.c, and the
    structures that the feature sections fill (util/env.h, util/header.h).

    An operation is a computation [FM A] on the struct feat_fd.  It ends with a
    value ([Done]), with an error code ([Fail], the early return of a negative or
    nonzero int), with an access outside the memory ([Fault]) or not at all
    ([Hang]).  The state after an error is kept, since the callers go on with
    it.

    The machine that reads is little endian; [big_endian] is the byte order of the
    machine that wrote.  The class [Kernel] has what the system decides: how many
    bytes of a request one system call moves ([xfer]), how large a file may
    become ([file_limit]), which allocations succeed ([alloc]), and how many cpus
    are online.  Interrupted calls are repeated by the source and leave no
    trace. *)

From S2P Require Import Prelude Sample Strings SessionSwap Cpumap.

(** * Structures *)

(** Members of struct perf_env: strings, and numbers. *)
Inductive env_str :=
  hostname | os_release | version | arch | cpu_desc | cpuid
| cmdline | sibling_cores | sibling_threads | pmu_mappings.
Inductive env_num :=
  nr_cpus_online | nr_cpus_avail | total_mem | msr_pmu_type | nr_cmdline | nr_sibling_cores
| nr_sibling_threads | nr_numa_nodes | nr_memory_nodes | nr_pmu_mappings | nr_groups
| caches_cnt | memory_bsize | clockid_res_ns | btfs_cnt.
#[export] Instance env_str_eq_dec : EqDecision env_str.
Proof. solve_decision. Defined.
#[export] Instance env_num_eq_dec : EqDecision env_num.
Proof. solve_decision. Defined.

Record cpu_topology_map := TopologyMap { socket_id : Z; core_id : Z }.
Record cpu_cache_level := CacheLevel {
  c_level : Z; c_line_size : Z; c_sets : Z; c_ways : Z;
  c_type : bytes; c_size : bytes; c_map : bytes
}.
Record numa_node := NumaNode { n_node : Z; n_mem_total : Z; n_mem_free : Z; n_map : list Z }.
(** The bitmap of a memory node is the list of its 64-bit words. *)
Record memory_node := MemoryNode { m_node : Z; m_size : Z; m_set : list Z }.

(** [cmdline_argv] holds the offsets of the arguments in [cmdline]; [btfs] is the
    tree of BTF data, the nodes in the order of their ids. *)
Record perf_env := Env {
  env_strs : env_str -> option bytes;
  env_nums : env_num -> Z;
  env_cmdline_argv : list Z;
  env_cpu : option (list cpu_topology_map);
  env_caches : list cpu_cache_level;
  env_numa_nodes : list numa_node;
  env_memory_nodes : list memory_node;
  env_btfs : list (Z * bytes)
}.

Definition upd {K V} `{EqDecision K} (k : K) (v : V) (f : K -> V) : K -> V :=
  fun x => if decide (x = k) then v else f x.

Definition set_str (k : env_str) (v : option bytes) (e : perf_env) : perf_env :=
  Env (upd k v (env_strs e)) (env_nums e) (env_cmdline_argv e) (env_cpu e) (env_caches e)
      (env_numa_nodes e) (env_memory_nodes e) (env_btfs e).
Definition set_num (k : env_num) (v : Z) (e : perf_env) : perf_env :=
  Env (env_strs e) (upd k v (env_nums e)) (env_cmdline_argv e) (env_cpu e) (env_caches e)
      (env_numa_nodes e) (env_memory_nodes e) (env_btfs e).
Definition set_argv (v : list Z) (e : perf_env) : perf_env :=
  Env (env_strs e) (env_nums e) v (env_cpu e) (env_caches e) (env_numa_nodes e) (env_memory_nodes e)
      (env_btfs e).
Definition set_cpu (v : option (list cpu_topology_map)) (e : perf_env) : perf_env :=
  Env (env_strs e) (env_nums e) (env_cmdline_argv e) v (env_caches e) (env_numa_nodes e)
      (env_memory_nodes e) (env_btfs e).
Definition set_caches (v : list cpu_cache_level) (e : perf_env) : perf_env :=
  Env (env_strs e) (env_nums e) (env_cmdline_argv e) (env_cpu e) v (env_numa_nodes e)
      (env_memory_nodes e) (env_btfs e).
Definition set_numa (v : list numa_node) (e : perf_env) : perf_env :=
  Env (env_strs e) (env_nums e) (env_cmdline_argv e) (env_cpu e) (env_caches e) v
      (env_memory_nodes e) (env_btfs e).
Definition set_memory (v : list memory_node) (e : perf_env) : perf_env :=
  Env (env_strs e) (env_nums e) (env_cmdline_argv e) (env_cpu e) (env_caches e) (env_numa_nodes e) v
      (env_btfs e).
Definition set_btfs (v : list (Z * bytes)) (e : perf_env) : perf_env :=
  Env (env_strs e) (env_nums e) (env_cmdline_argv e) (env_cpu e) (env_caches e) (env_numa_nodes e)
      (env_memory_nodes e) v.

(** The members of struct perf_evsel that the header stores; [he_leader] is the
    position of the leader in the event list. *)
Record header_evsel := HeaderEvsel {
  he_attr : bytes;
  he_ids : list Z;
  he_name : option bytes;
  he_idx : Z;
  he_leader : Z;
  he_group_name : option bytes;
  he_nr_members : Z;
  he_needs_swap : bool
}.

(** The session around a struct perf_header: the header itself, the event list
    and the kind of the data (a pipe, a directory with its version). *)
Record session := MkSession {
  s_needs_swap : bool;
  s_version : Z;
  s_data_offset : Z;
  s_data_size : Z;
  s_feat_offset : Z;
  s_adds_features : Z;
  s_env : perf_env;
  s_evlist : list header_evsel;
  s_nr_groups : Z;
  s_first_sample_time : Z;
  s_last_sample_time : Z;
  s_is_pipe : bool;
  s_dir_version : option Z
}.

Definition set_env (v : perf_env) (s : session) : session :=
  MkSession (s_needs_swap s) (s_version s) (s_data_offset s) (s_data_size s) (s_feat_offset s)
    (s_adds_features s) v (s_evlist s) (s_nr_groups s) (s_first_sample_time s) (s_last_sample_time s)
    (s_is_pipe s) (s_dir_version s).
Definition set_evlist (v : list header_evsel) (s : session) : session :=
  MkSession (s_needs_swap s) (s_version s) (s_data_offset s) (s_data_size s) (s_feat_offset s)
    (s_adds_features s) (s_env s) v (s_nr_groups s) (s_first_sample_time s) (s_last_sample_time s)
    (s_is_pipe s) (s_dir_version s).
Definition set_nr_groups (v : Z) (s : session) : session :=
  MkSession (s_needs_swap s) (s_version s) (s_data_offset s) (s_data_size s) (s_feat_offset s)
    (s_adds_features s) (s_env s) (s_evlist s) v (s_first_sample_time s) (s_last_sample_time s)
    (s_is_pipe s) (s_dir_version s).
Definition set_times (first last : Z) (s : session) : session :=
  MkSession (s_needs_swap s) (s_version s) (s_data_offset s) (s_data_size s) (s_feat_offset s)
    (s_adds_features s) (s_env s) (s_evlist s) (s_nr_groups s) first last (s_is_pipe s) (s_dir_version s).
Definition set_dir_version (v : option Z) (s : session) : session :=
  MkSession (s_needs_swap s) (s_version s) (s_data_offset s) (s_data_size s) (s_feat_offset s)
    (s_adds_features s) (s_env s) (s_evlist s) (s_nr_groups s) (s_first_sample_time s)
    (s_last_sample_time s) (s_is_pipe s) v.

(** * Files *)

Class Kernel := {
  xfer : Z -> Z;
  file_limit : Z;
  alloc : Z -> bool;
  big_endian : bool;
  nprocessors_onln : Z
}.

(** What the proofs rely on: a system call that can make progress does, and
    small allocations succeed. *)
Class KernelOk `{Kernel} : Prop := {
  xfer_ok n : 0 < n -> 0 < xfer n <= n;
  memory n : 0 <= n < 2 ^ 40 -> alloc n = true
}.

(** An open file: its bytes and the position. *)
Record file := File { f_data : bytes; f_pos : Z }.

Definition lseek_set (off : Z) (f : file) : file := File (f_data f) off.

(** The bytes [bs] stored at [pos]; a gap behind the end reads as zeros. *)
Definition write_at (data : bytes) (pos : Z) (bs : bytes) : bytes :=
  take (Z.to_nat pos) (data ++ zeros (pos - zlen data)) ++ bs ++ drop (Z.to_nat pos + length bs) data.

Section FileIO.
Context `{Kernel}.

Definition sys_read (f : file) (n : Z) : bytes * file :=
  let bs := take (Z.to_nat (Z.min (xfer n) (zlen (f_data f)))) (drop (Z.to_nat (f_pos f)) (f_data f)) in
  (bs, File (f_data f) (f_pos f + zlen bs)).

Definition sys_write (f : file) (bs : bytes) : Z * file :=
  let n := Z.min (xfer (zlen bs)) (file_limit - f_pos f) in
  if n <=? 0 then (-1, f)
  else (n, File (write_at (f_data f) (f_pos f) (take (Z.to_nat n) bs)) (f_pos f + n)).

(** The loop of ion for reading; every turn but the last moves bytes of the file,
    so a fuel above the size of the file is enough.  The result is that of the
    function, with the bytes that arrived. *)
Fixpoint ion_read (fuel : nat) (n left : Z) (buf : bytes) (f : file) : Z * bytes * file :=
  match fuel with
  | O => (0, buf, f)
  | S fuel =>
      if left =? 0 then (n, buf, f) else
      let '(bs, f) := sys_read f left in
      if zlen bs <=? 0 then (zlen bs, buf, f)
      else ion_read fuel n (left - zlen bs) (buf ++ bs) f
  end.

Definition readn (f : file) (n : Z) : Z * bytes * file :=
  ion_read (S (S (length (f_data f)))) n n [] f.

(** The loop of ion for writing; every turn moves at least one byte. *)
Fixpoint ion_write (fuel : nat) (n : Z) (buf : bytes) (f : file) : Z * file :=
  match fuel with
  | O => (0, f)
  | S fuel =>
      match buf with
      | [] => (n, f)
      | _ => let '(ret, f) := sys_write f buf in
             if ret <=? 0 then (ret, f) else ion_write fuel n (drop (Z.to_nat ret) buf) f
      end
  end.

Definition writen (f : file) (buf : bytes) : Z * file := ion_write (S (length buf)) (zlen buf) buf f.

End FileIO.

(** * Computations on a struct feat_fd *)

(** [ff_ph] is the session of the header that [ph] points to, if any; [ff_buf]
    is the memory from [buf] on, or NULL; [ff_events] is [events]. *)
Record feat_fd := FeatFd {
  ff_ph : option session;
  ff_fd : file;
  ff_buf : option bytes;
  ff_offset : Z;
  ff_size : Z;
  ff_events : option (list header_evsel)
}.

Definition put_fd (f : file) (ff : feat_fd) : feat_fd :=
  FeatFd (ff_ph ff) f (ff_buf ff) (ff_offset ff) (ff_size ff) (ff_events ff).
Definition put_buf (buf : option bytes) (offset size : Z) (ff : feat_fd) : feat_fd :=
  FeatFd (ff_ph ff) (ff_fd ff) buf offset size (ff_events ff).
Definition put_ph (ph : option session) (ff : feat_fd) : feat_fd :=
  FeatFd ph (ff_fd ff) (ff_buf ff) (ff_offset ff) (ff_size ff) (ff_events ff).
Definition put_events (ev : option (list header_evsel)) (ff : feat_fd) : feat_fd :=
  FeatFd (ff_ph ff) (ff_fd ff) (ff_buf ff) (ff_offset ff) (ff_size ff) ev.

Inductive fx (A : Type) : Type :=
| Done (a : A) (ff : feat_fd)
| Fail (e : Z) (ff : feat_fd)
| Fault
| Hang.
Arguments Done {A} _ _.
Arguments Fail {A} _ _.
Arguments Fault {A}.
Arguments Hang {A}.

Definition FM (A : Type) : Type := feat_fd -> fx A.

#[export] Instance FM_ret : MRet FM := fun A a ff => Done a ff.
#[export] Instance FM_bind : MBind FM := fun A B k m ff =>
  match m ff with
  | Done a ff => k a ff
  | Fail e ff => Fail e ff
  | Fault => Fault
  | Hang => Hang
  end.

Definition fault {A} : FM A := fun _ => Fault.
(** [return e] for an error, and [if (m) return e]. *)
Definition fail {A} (e : Z) : FM A := fun ff => Fail e ff.
Definition or_return {A} (e : Z) (m : FM A) : FM A := fun ff =>
  match m ff with Fail _ ff => Fail e ff | r => r end.
(** The result of [m] is looked at and does not end the caller. *)
Definition try {A} (m : FM A) : FM (option A) := fun ff =>
  match m ff with
  | Done a ff => Done (Some a) ff
  | Fail _ ff => Done None ff
  | Fault => Fault
  | Hang => Hang
  end.

(** A memory access, and members of the structure. *)
Definition access {A} (o : option A) : FM A := fun ff =>
  match o with Some a => Done a ff | None => Fault end.
Definition access_res {A} (r : res A) : FM A := fun ff =>
  match r with Ok a => Done a ff | Err e => Fail e ff | Oob => Fault end.
Definition get_ff : FM feat_fd := fun ff => Done ff ff.
Definition get_ph : FM session := fun ff =>
  match ff_ph ff with Some s => Done s ff | None => Fault end.
Definition mod_ph (g : session -> session) : FM unit := fun ff =>
  match ff_ph ff with Some s => Done () (put_ph (Some (g s)) ff) | None => Fault end.
Definition mod_env (g : perf_env -> perf_env) : FM unit :=
  mod_ph (fun s => set_env (g (s_env s)) s).

(** * Writing *)

Definition E2BIG : Z := 7.
Definition NAME_ALIGN : Z := 64.
(** [0xffff - sizeof(struct perf_event_header)] *)
Definition max_size : Z := 65535 - 8.

Section Primitives.
Context `{Kernel}.

Definition __do_write_fd (bs : bytes) : FM unit := fun ff =>
  let '(ret, f) := writen (ff_fd ff) bs in
  if negb (ret =? zlen bs) then Fail (if ret <? 0 then ret else -1) (put_fd f ff)
  else Done () (put_fd f ff).

(** [while (size > (new_size - ff->offset)) new_size <<= 1;] on size_t values: a
    size of zero stays zero, so 65 turns decide. *)
Fixpoint double_size (fuel : nat) (size new_size offset : Z) : option Z :=
  match fuel with
  | O => None
  | S fuel => if size >? (new_size -64 offset)
              then double_size fuel size (new_size *64 2) offset else Some new_size
  end.

(** What realloc adds has no defined content; it is zero here. *)
Definition resize (n : Z) (buf : bytes) : bytes :=
  take (Z.to_nat n) buf ++ zeros (n - zlen buf).

Definition __do_write_buf (bs : bytes) : FM unit := fun ff =>
  let size := zlen bs in
  if max_size <? size + ff_offset ff then Fail (- E2BIG) ff else
  match double_size 66 size (ff_size ff) (ff_offset ff), ff_buf ff with
  | Some new_size, Some buf =>
      let new_size := Z.min max_size new_size in
      if (ff_size ff <? new_size) && negb (alloc new_size) then Fail (-12) ff else
      let '(buf, sz) := if ff_size ff <? new_size then (resize new_size buf, new_size)
                        else (buf, ff_size ff) in
      match wrn buf (ff_offset ff) bs with
      | Some buf => Done () (put_buf (Some buf) (ff_offset ff + size) sz ff)
      | None => Fault
      end
  | None, _ => Hang
  | _, None => Fault
  end.

Definition do_write (bs : bytes) : FM unit := fun ff =>
  match ff_buf ff with
  | None => __do_write_fd bs ff
  | Some _ => __do_write_buf bs ff
  end.

(** An integer of [n] bytes as the writing machine stores it. *)
Definition int_bytes (n : nat) (v : Z) : bytes :=
  if big_endian then be_bytes n v else le_bytes n v.

Definition do_write_u32 (v : Z) : FM unit := do_write (int_bytes 4 v).
Definition do_write_u64 (v : Z) : FM unit := do_write (int_bytes 8 v).

Definition BITS_TO_U64 (nr : Z) : Z := u64 (nr + 63) / 64.

(** [for (i = 0; (u64) i < BITS_TO_U64(size); i++)] over the words of the set. *)
Fixpoint write_words (n : nat) (words : list Z) : FM unit :=
  match n, words with
  | O, _ => mret ()
  | S n, w :: words => do_write_u64 w;; write_words n words
  | S _, [] => fault
  end.

Definition do_write_bitmap (set : list Z) (size : Z) : FM unit :=
  do_write_u64 size;; write_words (Z.to_nat (BITS_TO_U64 size)) set.

(** [zero_buf] has NAME_ALIGN bytes. *)
Definition write_padded (bf : bytes) (count_aligned : Z) : FM unit :=
  do_write bf;;
  (if NAME_ALIGN <? count_aligned - zlen bf then fault
   else do_write (zeros (count_aligned - zlen bf))).

(** [str] is the string without its terminator. *)
Definition do_write_string (str : cstr) : FM unit :=
  let olen := u32 (zlen str + 1) in
  let len := u32 (PERF_ALIGN olen NAME_ALIGN) in
  do_write_u32 len;; write_padded (str ++ [0]) len.

(** * Reading *)

Definition __do_read_fd (size : Z) : FM bytes := fun ff =>
  let '(ret, bs, f) := readn (ff_fd ff) size in
  if negb (ret =? size) then Fail (if ret <? 0 then ret else -1) (put_fd f ff)
  else Done bs (put_fd f ff).

Definition __do_read_buf (size : Z) : FM bytes := fun ff =>
  if size >? ff_size ff - ff_offset ff then Fail (-1) ff else
  match (buf ← ff_buf ff; rdn buf (ff_offset ff) (Z.to_nat size)) with
  | Some bs => Done bs (put_buf (ff_buf ff) (ff_offset ff + size) (ff_size ff) ff)
  | None => Fault
  end.

Definition __do_read (size : Z) : FM bytes := fun ff =>
  match ff_buf ff with
  | None => __do_read_fd size ff
  | Some _ => __do_read_buf size ff
  end.

(** An integer of [n] bytes, swapped if the file needs it. *)
Definition do_read_int (n : nat) : FM Z :=
  bs ← __do_read (Z.of_nat n);
  s ← get_ph;
  mret (if s_needs_swap s then bswap n (le_val bs) else le_val bs).

Definition do_read_u32 : FM Z := do_read_int 4.
Definition do_read_u64 : FM Z := do_read_int 8.

(** malloc(n), with the error that the caller returns. *)
Definition malloc (n e : Z) : FM unit := if alloc n then mret () else fail e.

(** The bytes that the string was stored in, the padding included; any failure
    is NULL. *)
Definition do_read_string : FM bytes :=
  len ← do_read_u32;
  malloc len (-1);;
  __do_read len.

(** The words are stored to an array with room for [cap] of them; the first of the
    [n] goes to index [i]. *)
Fixpoint read_words (cap i : Z) (n : nat) : FM (list Z) :=
  match n with
  | O => mret []
  | S n =>
      w ← do_read_u64;
      (if i <? cap then mret () else fault);;
      ws ← read_words cap (i + 1) n;
      mret (w :: ws)
  end.

(** The parameter of [bitmap_alloc] is an int, so the array is that of the low 32
    bits of the size, while the loop reads as many words as the size in the file
    says. *)
Definition do_read_bitmap : FM (list Z * Z) :=
  size ← do_read_u64;
  let cap := BITS_TO_U64 (u64 (sint 32 size)) in
  malloc (u64 (cap * 8)) (-12);;
  set ← read_words cap 0 (Z.to_nat (BITS_TO_U64 size));
  mret (set, size).

(** [strlen(str)] of a string that was read. *)
Definition strlen_of (str : bytes) : FM Z := access (strlen_list str).

(** The characters of such a string. *)
Definition chars (str : bytes) : FM cstr :=
  n ← strlen_of str; mret (take (Z.to_nat n) str).

End Primitives.

(** * Files: readn and writen *)

Lemma write_at_nil data pos : 0 <= pos <= zlen data -> write_at data pos [] = data.
Proof.
  intros Hp. unfold write_at. rewrite take_app_le by (unfold zlen in Hp; lia). cbn [length app].
  by rewrite Nat.add_0_r, take_drop.
Qed.

Lemma length_before data pos : 0 <= pos ->
  length (take (Z.to_nat pos) (data ++ zeros (pos - zlen data))) = Z.to_nat pos.
Proof.
  intros. rewrite length_take, length_app. unfold zeros, zlen. rewrite length_replicate. lia.
Qed.

(** Writes that follow one another are one write. *)
Lemma write_at_app data pos a b : 0 <= pos ->
  write_at (write_at data pos a) (pos + zlen a) b = write_at data pos (a ++ b).
Proof.
  intros Hp. pose proof (zlen_nonneg a). unfold write_at at 1.
  set (h := take (Z.to_nat pos) (data ++ zeros (pos - zlen data))).
  assert (Hh : length h = Z.to_nat pos) by (by apply length_before).
  assert (Hn : Z.to_nat (pos + zlen a) = (length h + length a)%nat) by (unfold zlen; lia).
  unfold write_at. fold h. rewrite Hn.
  rewrite <- !app_assoc. rewrite (app_assoc h a).
  rewrite (take_app_le (h ++ a)) by (rewrite length_app; lia).
  rewrite take_ge by (rewrite length_app; lia). rewrite <- !app_assoc. do 2 f_equal.
  f_equal. rewrite (app_assoc h a), drop_app_ge by (rewrite length_app; lia).
  rewrite length_app, drop_drop. f_equal. rewrite length_app. lia.
Qed.

(** What writing leaves behind; writing nothing does not touch the file. *)
Definition append (bs : bytes) (f : file) : file :=
  match bs with
  | [] => f
  | _ => File (write_at (f_data f) (f_pos f) bs) (f_pos f + zlen bs)
  end.

Lemma append_pos bs f : f_pos (append bs f) = f_pos f + zlen bs.
Proof. destruct bs; [rewrite zlen_nil; cbn; lia|done]. Qed.

Lemma append_app a b f : 0 <= f_pos f -> append b (append a f) = append (a ++ b) f.
Proof.
  intros Hp. destruct a as [|x a]; [done|]. destruct b as [|y b]; [by rewrite app_nil_r|].
  unfold append at 1. change (append (x :: a) f) with
    (File (write_at (f_data f) (f_pos f) (x :: a)) (f_pos f + zlen (x :: a))).
  cbn [f_data f_pos]. rewrite write_at_app by done. unfold append. cbn [app]. f_equal.
  rewrite app_comm_cons, zlen_app. lia.
Qed.

Section FileLemmas.
Context `{KernelOk}.

Lemma ion_read_ok fuel : forall n left buf f,
  0 <= left -> 0 <= f_pos f -> (length (drop (Z.to_nat (f_pos f)) (f_data f)) < fuel)%nat ->
  ion_read fuel n left buf f =
    let av := drop (Z.to_nat (f_pos f)) (f_data f) in
    if left <=? zlen av then (n, buf ++ take (Z.to_nat left) av, File (f_data f) (f_pos f + left))
    else (0, buf ++ av, File (f_data f) (f_pos f + zlen av)).
Proof.
  induction fuel as [|fuel IH]; intros n left buf f Hl Hp Hf; [lia|]. cbn [ion_read]. cbv zeta.
  set (av := drop (Z.to_nat (f_pos f)) (f_data f)) in *. pose proof (zlen_nonneg av).
  destruct (Z.eqb_spec left 0) as [->|Hne].
  - replace (0 <=? zlen av) with true by lia. rewrite Z.add_0_r, app_nil_r. by destruct f.
  - unfold sys_read. fold av. pose proof (xfer_ok left ltac:(lia)) as Hx.
    assert (Hav : zlen av <= zlen (f_data f)) by (unfold av, zlen; rewrite length_drop; lia).
    set (k := Z.min (xfer left) (zlen (f_data f))).
    set (bs := take (Z.to_nat k) av).
    assert (Hbs : zlen bs = Z.min (xfer left) (zlen av)).
    { unfold bs, k. unfold zlen in *. rewrite length_take. lia. }
    destruct (Z.leb_spec (zlen bs) 0).
    + assert (Ha : av = []) by (destruct av; [done|rewrite zlen_cons in *; pose proof (zlen_nonneg av); lia]).
      rewrite Ha in *. rewrite zlen_nil in *. replace (left <=? 0) with false by lia.
      replace (zlen bs) with 0 by lia. by rewrite app_nil_r.
    + assert (Hd : drop (Z.to_nat (f_pos f + zlen bs)) (f_data f) = drop (Z.to_nat (zlen bs)) av).
      { unfold av. rewrite drop_drop. f_equal. lia. }
      rewrite IH; cbn [f_data f_pos]; rewrite ?Hd; [|lia|lia|].
      2: { rewrite length_drop. unfold zlen in *. lia. }
      cbv zeta. set (av' := drop (Z.to_nat (zlen bs)) av).
      assert (Hav' : zlen av' = zlen av - zlen bs) by (unfold av', zlen in *; rewrite length_drop; lia).
      assert (Hsplit : av = bs ++ av').
      { unfold av'. rewrite <- (take_drop (Z.to_nat (zlen bs)) av) at 1. f_equal. unfold bs at 2.
        destruct (Z.le_gt_cases k (zlen av)); [f_equal; lia|].
        by rewrite !take_ge by (unfold zlen in *; lia). }
      clearbody bs av'. clearbody av.
      replace (left - zlen bs <=? zlen av') with (left <=? zlen av) by lia.
      destruct (Z.leb_spec left (zlen av)).
      * rewrite Hsplit, <- app_assoc, take_app_ge by (unfold zlen in *; lia).
        replace (Z.to_nat left - length bs)%nat with (Z.to_nat (left - zlen bs)) by (unfold zlen in *; lia).
        f_equal. f_equal. lia.
      * rewrite Hsplit, <- app_assoc, zlen_app. f_equal. f_equal. lia.
Qed.

(** readn gives the bytes asked for, or returns 0 at the end of the file. *)
Lemma readn_ok f n : 0 <= n -> 0 <= f_pos f ->
  readn f n =
    let av := drop (Z.to_nat (f_pos f)) (f_data f) in
    if n <=? zlen av then (n, take (Z.to_nat n) av, File (f_data f) (f_pos f + n))
    else (0, av, File (f_data f) (f_pos f + zlen av)).
Proof.
  intros Hn Hp. unfold readn. rewrite ion_read_ok; [done..|]. rewrite length_drop. lia.
Qed.

Lemma ion_write_ok fuel : forall n buf f,
  (length buf < fuel)%nat -> 0 <= f_pos f <= file_limit ->
  if f_pos f + zlen buf <=? file_limit then ion_write fuel n buf f = (n, append buf f)
  else exists part, part `prefix_of` buf /\ f_pos f + zlen part <= file_limit /\
    ion_write fuel n buf f = (-1, append part f).
Proof.
  induction fuel as [|fuel IH]; intros n buf f Hf Hp; [lia|]. cbn [ion_write].
  destruct buf as [|b buf']; [rewrite zlen_nil; by replace (f_pos f + 0 <=? file_limit) with true by lia|].
  set (buf := b :: buf') in *.
  assert (Hb : 0 < zlen buf) by (unfold buf; rewrite zlen_cons; pose proof (zlen_nonneg buf'); lia).
  unfold sys_write. pose proof (xfer_ok (zlen buf) Hb) as Hx.
  set (k := Z.min (xfer (zlen buf)) (file_limit - f_pos f)).
  destruct (Z.leb_spec k 0) as [Hk|Hk].
  - replace (f_pos f + zlen buf <=? file_limit) with false by lia. exists []. rewrite zlen_nil.
    split; [apply prefix_nil|]. split; [lia|done].
  - replace (k <=? 0) with false by lia. set (w := take (Z.to_nat k) buf). set (r := drop (Z.to_nat k) buf).
    assert (Hw : zlen w = k) by (unfold w, zlen in *; rewrite length_take; lia).
    assert (Hsplit : buf = w ++ r) by (unfold w, r; by rewrite take_drop).
    clearbody w r. clearbody buf. subst buf. rewrite zlen_app in *.
    assert (Ew : File (write_at (f_data f) (f_pos f) w) (f_pos f + k) = append w f).
    { rewrite <- Hw. destruct w; [rewrite zlen_nil in Hw; lia|done]. }
    rewrite Ew. specialize (IH n r (append w f)). rewrite append_pos, Hw in IH by lia.
    assert (Hlen : (length r < fuel)%nat) by (rewrite length_app in Hf; unfold zlen in *; lia).
    specialize (IH Hlen ltac:(lia)). rewrite <- Z.add_assoc in IH. rewrite Hw.
    destruct (Z.leb_spec (f_pos f + (k + zlen r)) file_limit).
    + by rewrite IH, append_app by lia.
    + destruct IH as (part & Hpre & Hl & E). exists (w ++ part). rewrite zlen_app, E, append_app by lia.
      split; [by apply prefix_app|]. split; [lia|done].
Qed.

(** writen stores all bytes, or fails after the first of them. *)
Lemma writen_ok f buf : 0 <= f_pos f <= file_limit ->
  if f_pos f + zlen buf <=? file_limit then writen f buf = (zlen buf, append buf f)
  else exists part, part `prefix_of` buf /\ f_pos f + zlen part <= file_limit /\ writen f buf = (-1, append part f).
Proof. intros. apply ion_write_ok; [lia|done]. Qed.

End FileLemmas.

(** * The law of writers *)

Section Writers.
Context `{KernelOk}.

(** A destination that can be written: a position within the limit of the file,
    or an offset within a buffer that is not empty. *)
Definition sink_ok (ff : feat_fd) : Prop :=
  match ff_buf ff with
  | None => 0 <= f_pos (ff_fd ff) <= file_limit
  | Some m => 0 <= ff_offset ff <= ff_size ff /\ ff_size ff <= zlen m /\ 0 < ff_size ff < 2 ^ 62 /\
              ff_offset ff <= max_size
  end.

Definition room (ff : feat_fd) (n : Z) : Prop :=
  match ff_buf ff with
  | None => f_pos (ff_fd ff) + n <= file_limit
  | Some _ => ff_offset ff + n <= max_size
  end.

#[export] Instance room_dec ff n : Decision (room ff n).
Proof. unfold room. destruct (ff_buf ff); apply _. Defined.

(** [ff'] is [ff] after the bytes [bs] were written. *)
Definition wrote (ff : feat_fd) (bs : bytes) (ff' : feat_fd) : Prop :=
  match ff_buf ff with
  | None => ff' = put_fd (append bs (ff_fd ff)) ff
  | Some m => exists m' sz', ff' = put_buf (Some m') (ff_offset ff + zlen bs) sz' ff /\
      take (Z.to_nat (ff_offset ff + zlen bs)) m' = take (Z.to_nat (ff_offset ff)) m ++ bs /\
      ff_offset ff + zlen bs <= sz' <= zlen m' /\ 0 < sz' < 2 ^ 62
  end.

(** With the header [ph], [w] writes [bs] where there is room for it and fails
    otherwise, with a negative error and only the first of the bytes written. *)
Definition Emits (ph : option session) (w : FM unit) (bs : bytes) : Prop :=
  forall ff, sink_ok ff -> ff_ph ff = ph ->
  if decide (room ff (zlen bs)) then exists ff', w ff = Done () ff' /\ wrote ff bs ff'
  else exists e ff' part, w ff = Fail e ff' /\ e < 0 /\ wrote ff part ff' /\ room ff (zlen part) /\
    part `prefix_of` bs.

Lemma wrote_app ff a ff1 b ff2 : sink_ok ff -> wrote ff a ff1 -> wrote ff1 b ff2 -> wrote ff (a ++ b) ff2.
Proof.
  unfold sink_ok, wrote. destruct (ff_buf ff) as [m|] eqn:Eb.
  - intros Hs (m1 & s1 & -> & E1 & Hs1 & Hp1). cbn [put_buf ff_buf ff_offset].
    intros (m2 & s2 & -> & E2 & Hs2 & Hp2). exists m2, s2. rewrite zlen_app.
    replace (ff_offset ff + (zlen a + zlen b)) with (ff_offset ff + zlen a + zlen b) by lia.
    split; [done|]. split; [by rewrite E2, E1, app_assoc|]. split; [lia|done].
  - intros Hs ->. cbn [put_fd ff_buf ff_fd]. rewrite Eb. intros ->. unfold put_fd. cbn.
    by rewrite append_app by lia.
Qed.

Lemma wrote_sink ff bs ff' : sink_ok ff -> room ff (zlen bs) -> wrote ff bs ff' ->
  sink_ok ff' /\ forall n, room ff' n <-> room ff (zlen bs + n).
Proof.
  unfold sink_ok, wrote, room. pose proof (zlen_nonneg bs). destruct (ff_buf ff) as [m|] eqn:Eb.
  - intros Hs Hr (m1 & s1 & -> & E1 & Hs1 & Hp1). cbn [put_buf ff_buf ff_offset ff_size].
    split; [|intros; lia]. lia.
  - intros Hs Hr ->. cbn [put_fd ff_buf ff_fd]. rewrite Eb, append_pos. split; [lia|intros; lia].
Qed.

Lemma wrote_ph ff bs ff' : wrote ff bs ff' -> ff_ph ff' = ff_ph ff.
Proof. unfold wrote. destruct (ff_buf ff); [by intros (m' & sz' & -> & _)|by intros ->]. Qed.

Lemma Emits_ret ph : Emits ph (mret ()) [].
Proof.
  intros ff Hs _. assert (Hr : room ff (zlen ([] : bytes))).
  { unfold sink_ok, room in *. rewrite zlen_nil. destruct (ff_buf ff); lia. }
  rewrite decide_True by done. exists ff. split; [done|].
  unfold wrote, sink_ok in *. destruct (ff_buf ff) as [m|] eqn:Eb; [|by destruct ff].
  exists m, (ff_size ff). rewrite zlen_nil, Z.add_0_r, app_nil_r. split; [|split; [done|lia]].
  destruct ff; cbn in *. by rewrite Eb.
Qed.

Lemma Emits_seq ph w1 w2 a b : Emits ph w1 a -> Emits ph w2 b -> Emits ph (w1;; w2) (a ++ b).
Proof.
  intros H1 H2 ff Hs Hph. specialize (H1 ff Hs Hph). rewrite zlen_app. pose proof (zlen_nonneg b).
  assert (Hle : room ff (zlen a + zlen b) -> room ff (zlen a)) by (unfold room; destruct (ff_buf ff); lia).
  unfold mbind, FM_bind. destruct (decide (room ff (zlen a))) as [Ha|Ha].
  - destruct H1 as (ff1 & -> & Hw1). destruct (wrote_sink ff a ff1 Hs Ha Hw1) as [Hs1 Hr1].
    specialize (H2 ff1 Hs1 (eq_trans (wrote_ph _ _ _ Hw1) Hph)). destruct (decide (room ff1 (zlen b))) as [Hb|Hb].
    + rewrite decide_True by (by apply Hr1). destruct H2 as (ff2 & -> & Hw2).
      exists ff2. split; [done|]. by eapply wrote_app.
    + rewrite decide_False by (by rewrite <- Hr1). destruct H2 as (e & ff2 & part & -> & He & Hw2 & Hj & Hpre).
      exists e, ff2, (a ++ part). split; [done|]. split; [done|]. split; [by eapply wrote_app|].
      rewrite zlen_app. split; [by apply Hr1|by apply prefix_app].
  - rewrite decide_False by tauto. destruct H1 as (e & ff1 & part & -> & He & Hw & Hj & Hpre).
    exists e, ff1, part. repeat (split; [done|]). by apply prefix_app_r.
Qed.

Lemma double_size_S fuel size new_size offset :
  double_size (S fuel) size new_size offset =
  if size >? (new_size -64 offset) then double_size fuel size (new_size *64 2) offset else Some new_size.
Proof. done. Qed.

Lemma double_size_ok fuel : forall size new offset,
  0 <= size -> 0 <= offset <= new -> 0 < new -> size + offset <= max_size -> new < 2 ^ 62 ->
  65536 < 2 ^ Z.of_nat fuel * new ->
  exists n, double_size (S fuel) size new offset = Some n /\ new <= n < 2 ^ 62 /\ size + offset <= n.
Proof.
  unfold max_size.
  induction fuel as [|fuel IH]; intros size new offset Hs Ho Hn Hm Hb Hf; rewrite double_size_S;
    rewrite (u64_small (new - offset)) by lia.
  - change (2 ^ Z.of_nat 0) with 1 in Hf. replace (size >? new - offset) with false by lia.
    exists new. split; [done|lia].
  - destruct (size >? new - offset) eqn:E.
    + assert (new < 65536) by lia. rewrite u64_small by lia.
      destruct (IH size (new * 2) offset) as (n & En & Hn1 & Hn2); try lia.
      { rewrite Nat2Z.inj_succ, Z.pow_succ_r in Hf by lia. lia. }
      exists n. split; [exact En|lia].
    + exists new. split; [done|lia].
Qed.

Lemma resize_ok m n off : 0 <= off <= zlen m -> off <= n ->
  take (Z.to_nat off) (resize n m) = take (Z.to_nat off) m /\ zlen (resize n m) = n.
Proof.
  intros Ho Hn. unfold resize. split.
  - rewrite take_app_le by (rewrite length_take; unfold zlen in *; lia).
    rewrite take_take. f_equal. lia.
  - rewrite zlen_app. unfold zlen, zeros. rewrite length_take, length_replicate. lia.
Qed.

Lemma wrn_at m off bs : 0 <= off -> off + zlen bs <= zlen m ->
  exists m', wrn m off bs = Some m' /\ zlen m' = zlen m /\
    take (Z.to_nat (off + zlen bs)) m' = take (Z.to_nat off) m ++ bs.
Proof.
  intros Ho Hm. destruct (wrn m off bs) as [m'|] eqn:E.
  - exists m'. split; [done|]. split; [by eapply zlen_wrn|]. revert E. unfold wrn.
    destruct (_ || _); [done|]. intros [= <-].
    rewrite app_assoc, take_app_le by (rewrite length_app, length_take; unfold zlen in *; lia).
    by rewrite take_ge by (rewrite length_app, length_take; unfold zlen in *; lia).
  - exfalso. revert E. unfold wrn.
    replace ((off <? 0) || (zlen m <? off + zlen bs)) with false by lia. done.
Qed.

Lemma Emits_write ph bs : Emits ph (do_write bs) bs.
Proof.
  intros ff Hs _. unfold do_write. pose proof (zlen_nonneg bs) as Hz.
  destruct (decide (room ff (zlen bs))) as [Hr|Hr]; unfold room, sink_ok, wrote in *; revert Hs Hr;
    destruct (ff_buf ff) as [m|] eqn:Eb; intros Hs Hr.
  - unfold __do_write_buf. rewrite Eb. destruct Hs as (Ho & Hsz & Hpos & Hom).
    replace (max_size <? zlen bs + ff_offset ff) with false by lia.
    destruct (double_size_ok 65 (zlen bs) (ff_size ff) (ff_offset ff)) as (n & -> & Hn1 & Hn2); try lia.
    set (k := Z.min max_size n). assert (Hk : ff_offset ff + zlen bs <= k) by lia.
    destruct (Z.ltb_spec (ff_size ff) k) as [Hlt|Hge].
    + rewrite memory by (unfold k, max_size; lia). cbn [negb andb].
      destruct (resize_ok m k (ff_offset ff)) as [Htk Hzk]; [lia|lia|].
      destruct (wrn_at (resize k m) (ff_offset ff) bs) as (m' & -> & Hm' & Ht); [lia|lia|].
      eexists. split; [done|]. exists m', k. rewrite Ht, Htk. unfold max_size in *.
      split; [done|]. split; [done|]. lia.
    + cbn [andb]. destruct (wrn_at m (ff_offset ff) bs) as (m' & -> & Hm' & Ht); [lia|lia|].
      eexists. split; [done|]. exists m', (ff_size ff). split; [done|]. split; [done|]. lia.
  - unfold __do_write_fd. pose proof (writen_ok (ff_fd ff) bs Hs) as Hw.
    replace (f_pos (ff_fd ff) + zlen bs <=? file_limit) with true in Hw by lia.
    rewrite Hw, Z.eqb_refl. cbn [negb]. by eexists.
  - unfold __do_write_buf. replace (max_size <? zlen bs + ff_offset ff) with true by lia.
    exists (- E2BIG), ff, []. split; [done|]. split; [done|]. rewrite zlen_nil.
    split; [|split; [lia|apply prefix_nil]].
    exists m, (ff_size ff). rewrite Z.add_0_r, app_nil_r. split; [|split; [done|lia]].
    destruct ff; cbn in *. by rewrite Eb.
  - unfold __do_write_fd. pose proof (writen_ok (ff_fd ff) bs Hs) as Hw.
    replace (f_pos (ff_fd ff) + zlen bs <=? file_limit) with false in Hw by lia.
    destruct Hw as (part & Hpre & Hj & ->). replace (-1 =? zlen bs) with false by lia. cbn [negb].
    by exists (-1), (put_fd (append part (ff_fd ff)) ff), part.
Qed.

Lemma Emits_u32 ph v : Emits ph (do_write_u32 v) (int_bytes 4 v).
Proof. apply Emits_write. Qed.
Lemma Emits_u64 ph v : Emits ph (do_write_u64 v) (int_bytes 8 v).
Proof. apply Emits_write. Qed.

Lemma Emits_words ph ws : Emits ph (write_words (length ws) ws) (ws ≫= int_bytes 8).
Proof.
  induction ws as [|w ws IH]; [apply Emits_ret|]. rewrite bind_cons.
  apply Emits_seq; [apply Emits_u64|done].
Qed.

Definition bitmap_bytes (set : list Z) (size : Z) : bytes := int_bytes 8 size ++ (set ≫= int_bytes 8).

Lemma Emits_bitmap ph set size : zlen set = BITS_TO_U64 size ->
  Emits ph (do_write_bitmap set size) (bitmap_bytes set size).
Proof.
  intros Hs. unfold do_write_bitmap, bitmap_bytes. rewrite <- Hs. unfold zlen. rewrite Nat2Z.id.
  apply Emits_seq; [apply Emits_u64|apply Emits_words].
Qed.

(** A string as it is stored: its terminator and zeros up to a multiple of 64
    bytes, after the length. *)
Definition stored (str : cstr) : bytes :=
  (str ++ [0]) ++ zeros (PERF_ALIGN (zlen str + 1) NAME_ALIGN - (zlen str + 1)).
Definition string_bytes (str : cstr) : bytes := int_bytes 4 (zlen (stored str)) ++ stored str.

(** Strings that can be written: no terminator inside, bytes, and a length whose
    rounding fits 32 bits. *)
Definition string_ok (str : cstr) : Prop :=
  Forall (fun b => b <> 0) str /\ zlen str < 2 ^ 31.

Lemma zlen_stored str : zlen (stored str) = PERF_ALIGN (zlen str + 1) NAME_ALIGN /\
  zlen str + 1 <= zlen (stored str) < zlen str + 65.
Proof.
  pose proof (PERF_ALIGN_bounds (zlen str + 1) 6) as Hb. change (2 ^ 6) with NAME_ALIGN in Hb.
  unfold NAME_ALIGN in *. unfold stored, NAME_ALIGN. rewrite !zlen_app, zlen_cons, zlen_nil, zlen_zeros by lia. lia.
Qed.

Lemma Emits_string ph str : string_ok str -> Emits ph (do_write_string str) (string_bytes str).
Proof.
  intros [_ Hl]. destruct (zlen_stored str) as [Hz Hb]. pose proof (zlen_nonneg str).
  unfold do_write_string. rewrite (u32_small (zlen str + 1)), <- Hz, u32_small by lia.
  apply Emits_seq; [apply Emits_u32|]. unfold write_padded.
  assert (Hs : zlen (str ++ [0]) = zlen str + 1) by (by rewrite zlen_app, zlen_cons, zlen_nil).
  rewrite Hs. replace (NAME_ALIGN <? zlen (stored str) - (zlen str + 1)) with false by (unfold NAME_ALIGN; lia).
  replace (zlen (stored str) - (zlen str + 1)) with (PERF_ALIGN (zlen str + 1) NAME_ALIGN - (zlen str + 1)) by lia.
  apply Emits_seq; apply Emits_write.
Qed.

End Writers.

(** * The law of readers *)

Section Readers.
Context `{KernelOk}.

(** A source that can be read, what is left of it, and the state after [n] bytes
    of it were read. *)
Definition src_ok (ff : feat_fd) : Prop :=
  match ff_buf ff with
  | None => 0 <= f_pos (ff_fd ff)
  | Some m => 0 <= ff_offset ff <= ff_size ff /\ ff_size ff <= zlen m
  end.

Definition input (ff : feat_fd) : bytes :=
  match ff_buf ff with
  | None => drop (Z.to_nat (f_pos (ff_fd ff))) (f_data (ff_fd ff))
  | Some m => take (Z.to_nat (ff_size ff - ff_offset ff)) (drop (Z.to_nat (ff_offset ff)) m)
  end.

Definition skip (n : Z) (ff : feat_fd) : feat_fd :=
  match ff_buf ff with
  | None => put_fd (File (f_data (ff_fd ff)) (f_pos (ff_fd ff) + n)) ff
  | Some m => put_buf (Some m) (ff_offset ff + n) (ff_size ff) ff
  end.

(** From the session [s], with [sz] as the size member, [r] reads exactly the bytes
    [bs], gives [v] and leaves the session [s']. *)
Definition Runs {A} (sz : Z) (s : session) (r : FM A) (bs : bytes) (v : A) (s' : session) : Prop :=
  forall ff rest, src_ok ff -> ff_ph ff = Some s -> ff_size ff = sz -> input ff = bs ++ rest ->
    r ff = Done v (put_ph (Some s') (skip (zlen bs) ff)).

Lemma skip_0 ff s : ff_ph ff = Some s -> put_ph (Some s) (skip 0 ff) = ff.
Proof.
  intros Hs. unfold skip. destruct (ff_buf ff) eqn:Eb; destruct ff as [ph [d p] b o z e]; cbn in *;
    rewrite Z.add_0_r; unfold put_ph; cbn; congruence.
Qed.

Lemma skip_src ff bs rest s : src_ok ff -> input ff = bs ++ rest ->
  let ff' := put_ph s (skip (zlen bs) ff) in
  src_ok ff' /\ input ff' = rest /\ ff_ph ff' = s /\ ff_size ff' = ff_size ff.
Proof.
  intros Hs Hi ff'. unfold src_ok, input in *. subst ff'. unfold skip. pose proof (zlen_nonneg bs).
  destruct (ff_buf ff) as [m|] eqn:Eb; cbn [put_ph put_buf put_fd ff_buf ff_offset ff_size ff_fd ff_ph f_pos f_data].
  - assert (Hl : zlen bs <= ff_size ff - ff_offset ff).
    { apply (f_equal length) in Hi. rewrite length_take, length_drop, length_app in Hi. unfold zlen in *. lia. }
    split; [lia|]. split; [|done].
    apply (f_equal (drop (length bs))) in Hi. rewrite drop_app_length in Hi. rewrite <- Hi.
    rewrite skipn_firstn_comm, drop_drop. unfold zlen in *. f_equal; [lia|]. f_equal. lia.
  - rewrite Eb. split; [lia|]. split; [|done].
    apply (f_equal (drop (length bs))) in Hi. rewrite drop_app_length in Hi. rewrite <- Hi, drop_drop.
    f_equal. unfold zlen. lia.
Qed.

Lemma skip_skip a b s1 s2 ff : put_ph s2 (skip b (put_ph s1 (skip a ff))) = put_ph s2 (skip (a + b) ff).
Proof.
  unfold skip. destruct ff as [ph [d p] [m|] o z e]; unfold put_ph, put_buf, put_fd; cbn;
    by rewrite Z.add_assoc.
Qed.

Lemma Runs_ret {A} sz s (v : A) : Runs sz s (mret v) [] v s.
Proof. intros ff rest Hs Hp Hz Hi. rewrite zlen_nil, skip_0 by done. done. Qed.

Lemma Runs_bind {A B} sz s (r : FM A) (k : A -> FM B) a v s1 b w s2 :
  Runs sz s r a v s1 -> Runs sz s1 (k v) b w s2 -> Runs sz s (r ≫= k) (a ++ b) w s2.
Proof.
  intros H1 H2 ff rest Hs Hp Hz Hi. rewrite <- app_assoc in Hi. unfold mbind, FM_bind.
  rewrite (H1 ff (b ++ rest)) by done.
  destruct (skip_src ff a (b ++ rest) (Some s1) Hs Hi) as (Hs' & Hi' & Hp' & Hz').
  rewrite (H2 _ rest) by congruence. by rewrite skip_skip, zlen_app.
Qed.

(** The same for a first part that reads nothing. *)
Lemma Runs_then {A B} sz s (r : FM A) (k : A -> FM B) v s1 b w s2 :
  Runs sz s r [] v s1 -> Runs sz s1 (k v) b w s2 -> Runs sz s (r ≫= k) b w s2.
Proof. intros H1 H2. change b with ([] ++ b). by eapply Runs_bind. Qed.

Lemma Runs_same {A} sz s (m : FM A) v s1 :
  (forall ff, ff_ph ff = Some s -> ff_size ff = sz -> m ff = Done v (put_ph (Some s1) ff)) ->
  Runs sz s m [] v s1.
Proof.
  intros Hm ff rest Hs Hp Hz _. rewrite zlen_nil, Hm by done. f_equal.
  rewrite <- (skip_0 ff s Hp) at 1. by destruct (skip 0 ff).
Qed.

Lemma Runs_get_ph sz s : Runs sz s get_ph [] s s.
Proof.
  apply Runs_same. intros ff Hp _. unfold get_ph. rewrite Hp. by destruct ff; cbn in *; subst.
Qed.

Lemma Runs_mod_ph sz s g : Runs sz s (mod_ph g) [] () (g s).
Proof. apply Runs_same. intros ff Hp _. unfold mod_ph. by rewrite Hp. Qed.

Lemma Runs_mod_env sz s g : Runs sz s (mod_env g) [] () (set_env (g (s_env s)) s).
Proof. apply (Runs_mod_ph sz s (fun s => set_env (g (s_env s)) s)). Qed.

Lemma Runs_access {A} sz s (v : A) : Runs sz s (access (Some v)) [] v s.
Proof. apply Runs_same. intros ff Hp _. unfold access. by destruct ff; cbn in *; subst. Qed.

Lemma Runs_malloc sz s n e : 0 <= n < 2 ^ 40 -> Runs sz s (malloc n e) [] () s.
Proof. intros Hn. unfold malloc. rewrite memory by done. apply Runs_ret. Qed.

Lemma Runs_or_return {A} sz s (r : FM A) e bs v s' : Runs sz s r bs v s' -> Runs sz s (or_return e r) bs v s'.
Proof. intros Hr ff rest Hs Hp Hz Hi. unfold or_return. by rewrite (Hr ff rest). Qed.

Lemma Runs_try {A} sz s (r : FM A) bs v s' : Runs sz s r bs v s' -> Runs sz s (try r) bs (Some v) s'.
Proof. intros Hr ff rest Hs Hp Hz Hi. unfold try. by rewrite (Hr ff rest). Qed.

Lemma Runs_read sz s bs n : n = zlen bs -> Runs sz s (__do_read n) bs bs s.
Proof.
  intros -> ff rest Hs Hp Hz Hi. unfold src_ok, input, skip, __do_read in *. pose proof (zlen_nonneg bs).
  revert Hs Hi. destruct (ff_buf ff) as [m|] eqn:Eb; intros Hs Hi.
  - assert (Hl : zlen bs <= ff_size ff - ff_offset ff).
    { apply (f_equal length) in Hi. rewrite length_take, length_drop, length_app in Hi. unfold zlen in *. lia. }
    unfold __do_read_buf. replace (zlen bs >? ff_size ff - ff_offset ff) with false by lia.
    rewrite Eb. mred. assert (Er : rdn m (ff_offset ff) (Z.to_nat (zlen bs)) = Some bs).
    { unfold rdn. rewrite Z2Nat.id by lia.
      replace ((ff_offset ff <? 0) || (zlen m <? ff_offset ff + zlen bs)) with false by lia. f_equal.
      apply (f_equal (take (length bs))) in Hi. rewrite take_app_length, take_take in Hi.
      etransitivity; [|exact Hi]. f_equal. unfold zlen in *. lia. }
    rewrite Er. destruct ff; cbn in *. by subst.
  - unfold __do_read_fd. rewrite readn_ok by lia. cbv zeta. rewrite Hi, zlen_app.
    pose proof (zlen_nonneg rest). replace (zlen bs <=? zlen bs + zlen rest) with true by lia.
    rewrite Z.eqb_refl. cbn [negb]. rewrite take_app_le, take_ge by (unfold zlen; lia).
    destruct ff; cbn in *. by subst.
Qed.

Lemma int_bytes_read n v : 0 <= v < 256 ^ Z.of_nat n ->
  (if big_endian then bswap n (le_val (int_bytes n v)) else le_val (int_bytes n v)) = v.
Proof.
  intros Hv. unfold int_bytes. destruct big_endian.
  - unfold be_bytes. change (le_val (reverse (le_bytes n v))) with (bswap n v). by apply bswap_involutive.
  - by rewrite le_val_bytes, Z.mod_small.
Qed.

Lemma zlen_int_bytes n v : zlen (int_bytes n v) = Z.of_nat n.
Proof. unfold int_bytes, zlen. destruct big_endian; by rewrite ?length_be_bytes, ?length_le_bytes. Qed.

(** [swapped s]: the header knows the byte order of the writer. *)
Definition swapped (s : session) : Prop := s_needs_swap s = big_endian.

Lemma Runs_int sz s n v : swapped s -> 0 <= v < 256 ^ Z.of_nat n ->
  Runs sz s (do_read_int n) (int_bytes n v) v s.
Proof.
  intros Hs Hv. rewrite <- (app_nil_r (int_bytes n v)). unfold do_read_int.
  eapply Runs_bind; [apply Runs_read; by rewrite zlen_int_bytes|].
  eapply Runs_then; [apply Runs_get_ph|]. rewrite Hs, int_bytes_read by done. apply Runs_ret.
Qed.

Lemma Runs_u32 sz s v : swapped s -> is_uint 32 v -> Runs sz s do_read_u32 (int_bytes 4 v) v s.
Proof. intros. by apply Runs_int. Qed.
Lemma Runs_u64 sz s v : swapped s -> is_uint 64 v -> Runs sz s do_read_u64 (int_bytes 8 v) v s.
Proof. intros. by apply Runs_int. Qed.

Lemma Runs_string sz s str : swapped s -> string_ok str ->
  Runs sz s do_read_string (string_bytes str) (stored str) s.
Proof.
  intros Hs [_ Hl]. destruct (zlen_stored str) as [_ Hz]. pose proof (zlen_nonneg str).
  unfold do_read_string, string_bytes. eapply Runs_bind; [apply Runs_u32; [done|unfold is_uint; lia]|].
  eapply Runs_then; [apply Runs_malloc; lia|]. by apply Runs_read.
Qed.

Lemma Runs_words sz s cap ws : swapped s -> Forall (is_uint 64) ws ->
  forall i, i + zlen ws <= cap -> Runs sz s (read_words cap i (length ws)) (ws ≫= int_bytes 8) ws s.
Proof.
  intros Hs. induction 1 as [|w ws Hw Hws IH]; intros i Hi; [apply Runs_ret|]. rewrite bind_cons.
  rewrite zlen_cons in Hi. pose proof (zlen_nonneg ws). cbn [length read_words].
  eapply Runs_bind; [by apply Runs_u64|]. replace (i <? cap) with true by lia.
  eapply Runs_then; [apply Runs_ret|]. rewrite <- (app_nil_r (ws ≫= _)).
  eapply Runs_bind; [apply IH; lia|]. apply Runs_ret.
Qed.

Lemma Runs_bitmap sz s set size : swapped s -> is_uint 31 size -> Forall (is_uint 64) set ->
  zlen set = BITS_TO_U64 size -> Runs sz s do_read_bitmap (bitmap_bytes set size) (set, size) s.
Proof.
  intros Hs Hsz Hset Hl. unfold do_read_bitmap, bitmap_bytes. unfold is_uint in Hsz.
  eapply Runs_bind; [apply Runs_u64; [done|unfold is_uint; lia]|].
  rewrite sint32_small, (u64_small size), <- Hl by lia.
  assert (Hb : zlen set <= 2 ^ 26).
  { rewrite Hl. unfold BITS_TO_U64. rewrite u64_small by lia. apply Z.div_le_upper_bound; lia. }
  pose proof (zlen_nonneg set). rewrite u64_small by lia. eapply Runs_then; [apply Runs_malloc; lia|].
  rewrite <- (app_nil_r (set ≫= _)).
  eapply Runs_bind; [unfold zlen; rewrite Nat2Z.id; apply Runs_words; [done|done|]; fold (zlen set); lia|].
  apply Runs_ret.
Qed.

Lemma Runs_strlen sz s str : string_ok str -> Runs sz s (strlen_of (stored str)) [] (zlen str) s.
Proof.
  intros [Hn _]. unfold strlen_of, stored. rewrite <- app_assoc. cbn [app]. rewrite strlen_list_ok by done.
  apply Runs_access.
Qed.

Lemma Runs_chars sz s str : string_ok str -> Runs sz s (chars (stored str)) [] str s.
Proof.
  intros Hn. unfold chars. eapply Runs_then; [by apply Runs_strlen|].
  unfold stored. rewrite <- app_assoc, take_app_le, take_ge by (unfold zlen; lia). apply Runs_ret.
Qed.

End Readers.

#[export] Hint Resolve Runs_ret Runs_u32 Runs_u64 Runs_string Runs_get_ph Runs_mod_ph Runs_mod_env
  Runs_or_return Runs_strlen Runs_chars Emits_ret Emits_seq Emits_u32 Emits_u64 Emits_string
  Emits_write Emits_bitmap : perfdb.

Section Loops.
Context `{KernelOk}.

(** The same for a last part that reads nothing. *)
Lemma Runs_last {A B} sz s (r : FM A) (k : A -> FM B) v s1 b w s2 :
  Runs sz s r b v s1 -> Runs sz s1 (k v) [] w s2 -> Runs sz s (r ≫= k) b w s2.
Proof. intros H1 H2. rewrite <- (app_nil_r b). by eapply Runs_bind. Qed.

Lemma env_id s : set_env (s_env s) s = s.
Proof. by destruct s. Qed.

Lemma Runs_env sz s e g : Runs sz (set_env e s) (mod_env g) [] () (set_env (g e) s).
Proof. apply (Runs_mod_env sz (set_env e s) g). Qed.

Lemma Runs_size {A} sz s (k : Z -> FM A) bs v s' :
  Runs sz s (k sz) bs v s' -> Runs sz s ((fun ff => Done (ff_size ff) ff) ≫= k) bs v s'.
Proof. intros Hk ff rest Hs Hp Hz Hi. unfold mbind, FM_bind. rewrite Hz. by apply (Hk ff rest). Qed.

Lemma Emits_some {A} ph (a : A) (k : A -> FM unit) bs :
  Emits ph (k a) bs -> Emits ph (mret a ≫= k) bs.
Proof. intros Hk ff Hs Hp. exact (Hk ff Hs Hp). Qed.

Lemma Emits_ph s (k : session -> FM unit) bs :
  Emits (Some s) (k s) bs -> Emits (Some s) (get_ph ≫= k) bs.
Proof.
  intros Hk ff Hs Hp. unfold mbind, FM_bind, get_ph. rewrite Hp. exact (Hk ff Hs Hp).
Qed.

(** A writer that is tried and whose result does not matter, as long as there is
    room for the rest. *)
Lemma Emits_last ph w a : Emits ph w a -> Emits ph (w;; mret ()) a.
Proof. intros Hw. rewrite <- (app_nil_r a). apply Emits_seq; [done|apply Emits_ret]. Qed.

End Loops.

(** Writing where there is room, without a law for the other case. *)
Section Room.
Context `{KernelOk}.

Definition EmitsRoom {A} (ph : option session) (w : FM A) (bs : bytes) : Prop :=
  forall ff, sink_ok ff -> ff_ph ff = ph -> room ff (zlen bs) ->
    exists a ff', w ff = Done a ff' /\ wrote ff bs ff'.

Lemma Emits_room ph w bs : Emits ph w bs -> EmitsRoom ph w bs.
Proof.
  intros Hw ff Hs Hp Hr. specialize (Hw ff Hs Hp). rewrite decide_True in Hw by done.
  destruct Hw as (ff' & E & Hw). by exists (), ff'.
Qed.

Lemma EmitsRoom_seq {A B} ph (w1 : FM A) (w2 : FM B) a b :
  EmitsRoom ph w1 a -> EmitsRoom ph w2 b -> EmitsRoom ph (w1;; w2) (a ++ b).
Proof.
  intros H1 H2 ff Hs Hp Hr. rewrite zlen_app in Hr. pose proof (zlen_nonneg b).
  assert (Ha : room ff (zlen a)) by (unfold room in *; destruct (ff_buf ff); lia).
  destruct (H1 ff Hs Hp Ha) as (x & ff1 & E1 & Hw1).
  destruct (wrote_sink ff a ff1 Hs Ha Hw1) as [Hs1 Hr1].
  destruct (H2 ff1 Hs1 (eq_trans (wrote_ph _ _ _ Hw1) Hp)) as (y & ff2 & E2 & Hw2); [by apply Hr1|].
  exists y, ff2. unfold mbind, FM_bind. rewrite E1. split; [done|]. by eapply wrote_app.
Qed.

Lemma EmitsRoom_try {A} ph (w : FM A) bs : EmitsRoom ph w bs -> EmitsRoom ph (try w) bs.
Proof.
  intros Hw ff Hs Hp Hr. destruct (Hw ff Hs Hp Hr) as (a & ff' & E & Hw').
  exists (Some a), ff'. unfold try. by rewrite E.
Qed.

End Room.
