(* ===== verification/HeaderFeat.v ===== *)
(** Model of the feature sections of util/header.c: the write_* operations, which
    store what the recording machine is, and the process_* operations, which read
    it back into struct perf_env and the event list.

    What the writers ask the system (uname, /proc, sysfs, the topology code) is
    an argument; [None] stands for a failed request.  Strings that were read are
    the bytes that malloc returned for them, padding included.  Memory that is
    lost on error paths is not modelled, nor are the locks of struct perf_env, which
    do nothing while perf is single threaded (util/rwsem.c). *)

From S2P Require Import Prelude Sample Strings SessionSwap Cpumap FeatFd.

(** A loop that ends at the first error. *)
Fixpoint for_each {A} (f : A -> FM unit) (l : list A) : FM unit :=
  match l with
  | [] => mret ()
  | a :: l => f a;; for_each f l
  end.

(** [n] values read one after the other. *)
Fixpoint read_list {A} (n : nat) (r : FM A) : FM (list A) :=
  match n with
  | O => mret []
  | S n => a ← r; l ← read_list n r; mret (a :: l)
  end.

Definition or_fail {A} (o : option A) (e : Z) : FM A :=
  match o with Some a => mret a | None => fail e end.

(** * Writers *)

Section Write.
Context `{Kernel}.

(** uname(&uts) and the member that is stored. *)
Definition write_hostname (nodename : option cstr) : FM unit :=
  s ← or_fail nodename (-1); do_write_string s.
Definition write_osrelease (release : option cstr) : FM unit :=
  s ← or_fail release (-1); do_write_string s.
Definition write_arch (machine : option cstr) : FM unit :=
  s ← or_fail machine (-1); do_write_string s.
Definition write_version (perf_version_string : cstr) : FM unit := do_write_string perf_version_string.
Definition write_cpuid (get_cpuid : option cstr) : FM unit :=
  s ← or_fail get_cpuid (-1); do_write_string s.

(** ** The description of the cpu in /proc/cpuinfo *)

Definition starts_with (search buf : cstr) : bool := bool_decide (take (length search) buf = search).

Fixpoint strchr (s : cstr) (c : Z) : option cstr :=
  match s with
  | [] => None
  | x :: s' => if x =? c then Some s else strchr s' c
  end.

(** The part of a line after the colon, without the end of the line. *)
Fixpoint cut_line (s : cstr) : cstr :=
  match s with
  | [] => []
  | c :: s => if c =? cNEWLINE then [] else c :: cut_line s
  end.

Definition after_colon (buf : cstr) : cstr :=
  match strchr buf 58 with
  | Some (_ :: c1 :: c2 :: p) => if c1 =? 32 then c2 :: p else buf
  | _ => buf
  end.

(** Runs of white space become one space; [sp] says that the character before
    was one. *)
Fixpoint squash (sp : bool) (s : cstr) : cstr :=
  match s with
  | [] => []
  | c :: s => if isspace c then if sp then squash true s else 32 :: squash true s
              else c :: squash false s
  end.

Definition __write_cpudesc (cpuinfo : option (list cstr)) (search : option cstr) : FM unit :=
  search ← or_fail search (-1);
  lines ← or_fail cpuinfo (-1);
  match list_find (fun buf => starts_with search buf = true) lines with
  | None => fail (-1)
  | Some (_, buf) => do_write_string (squash false (cut_line (after_colon buf)))
  end.

(** The first name of CPUINFO_PROC that gives a description. *)
Fixpoint write_cpudesc (cpuinfo : option (list cstr)) (cpuinfo_procs : list (option cstr)) : FM unit :=
  match cpuinfo_procs with
  | [] => fail (-1)
  | search :: rest =>
      r ← try (__write_cpudesc cpuinfo search);
      match r with Some _ => mret () | None => write_cpudesc cpuinfo rest end
  end.

(** [nr] is a long, the values stored are u32. *)
Definition write_nrcpus (max_present_cpu nr : Z) : FM unit :=
  let nrc := u32 max_present_cpu in
  if nr <? 0 then fail (-1) else
  let nra := u32 nr in
  do_write_u32 nrc;; do_write_u32 nra.

(** One event: its attribute, the number of its ids, its name and the ids.  The
    attribute is written as the structure lies in memory. *)
Definition write_event (attr : header_evsel -> bytes) (name : header_evsel -> cstr) (evsel : header_evsel)
  : FM unit :=
  do_write (attr evsel);;
  do_write_u32 (zlen (he_ids evsel));;
  do_write_string (name evsel);;
  do_write (he_ids evsel ≫= int_bytes 8).

Definition write_event_desc attr name (evlist : list header_evsel) : FM unit :=
  do_write_u32 (zlen evlist);;
  do_write_u32 sizeof_attr;;
  for_each (write_event attr name) evlist.

Definition write_cmdline (exe : cstr) (cmdline_argv : list cstr) : FM unit :=
  do_write_u32 (zlen cmdline_argv + 1);;
  do_write_string exe;;
  for_each do_write_string cmdline_argv.

Record cpu_topology := CpuTopology { core_siblings : list cstr; thread_siblings : list cstr }.

(** An error in the loop over the threads ends the loop, not the function.
    [topology_map] is what perf_env__read_cpu_topology_map finds. *)
Definition write_cpu_topology (tp : option cpu_topology) (topology_map : option (list cpu_topology_map))
  : FM unit :=
  tp ← or_fail tp (-1);
  do_write_u32 (zlen (core_siblings tp));;
  for_each do_write_string (core_siblings tp);;
  do_write_u32 (zlen (thread_siblings tp));;
  try (for_each do_write_string (thread_siblings tp));;
  map ← or_fail topology_map (-1);
  for_each (fun c => do_write_u32 (u32 (core_id c));; do_write_u32 (u32 (socket_id c))) map.

(** sscanf(buf, "%*s %lu", &mem) on the line of /proc/meminfo; when nothing is
    converted the function returns 0 without writing. *)
Fixpoint skip_word (p : cstr) : cstr :=
  match p with
  | c :: p' => if c_space c then p else skip_word p'
  | [] => []
  end.

(** The digits of %lu: a number that is too large becomes the largest one, and a
    minus sign negates modulo 2^64. *)
Definition scan_digits (minus : bool) (q : cstr) : option Z :=
  match q with
  | c :: _ =>
      if isdigit c then
        let v := (digits 10 0 q).1 in
        Some (if 2 ^ 64 <=? v then 2 ^ 64 - 1 else if minus then u64 (- v) else v)
      else None
  | [] => None
  end.

Definition scan_mem (buf : cstr) : option Z :=
  match skip_space (skip_word (skip_space buf)) with
  | 43 :: q => scan_digits false q
  | 45 :: q => scan_digits true q
  | q => scan_digits false q
  end.

Definition MemTotal : cstr := [77; 101; 109; 84; 111; 116; 97; 108; 58].

Definition write_total_mem (meminfo : option (list cstr)) : FM unit :=
  lines ← or_fail meminfo (-1);
  match list_find (fun buf => starts_with MemTotal buf = true) lines with
  | None => fail (-1)
  | Some (_, buf) => match scan_mem buf with
                     | Some mem => do_write_u64 mem
                     | None => mret ()
                     end
  end.

Record numa_topology_node := TopologyNode {
  t_cpus : cstr; t_node : Z; t_mem_total : Z; t_mem_free : Z
}.

Definition write_numa_topology (tp : option (list numa_topology_node)) : FM unit :=
  nodes ← or_fail tp (-12);
  do_write_u32 (zlen nodes);;
  for_each (fun n => do_write_u32 (t_node n);; do_write_u64 (t_mem_total n);;
                     do_write_u64 (t_mem_free n);; do_write_string (t_cpus n)) nodes.

(** The pmus in the order of the scan: type and name, if it has one. *)
Definition named (pmus : list (Z * option cstr)) : list (Z * cstr) :=
  omap (fun p => name ← snd p; Some (fst p, name)) pmus.

Definition write_pmu_mappings (pmus : list (Z * option cstr)) : FM unit :=
  do_write_u32 (zlen (named pmus));;
  for_each (fun p => do_write_u32 (fst p);; do_write_string (snd p)) (named pmus).

(** "{anon_group}" *)
Definition anon_group : cstr := [123; 97; 110; 111; 110; 95; 103; 114; 111; 117; 112; 125].

(** [perf_evsel__is_group_leader(evsel) && evsel->nr_members > 1]; the event is at
    position [pos] of the list. *)
Definition leads (pos : Z) (evsel : header_evsel) : bool :=
  (he_leader evsel =? pos) && (1 <? he_nr_members evsel).

Fixpoint write_groups (pos : Z) (evlist : list header_evsel) : FM unit :=
  match evlist with
  | [] => mret ()
  | evsel :: rest =>
      (if leads pos evsel then
         name ← (match he_group_name evsel with Some n => chars n | None => mret anon_group end);
         do_write_string name;;
         do_write_u32 (u32 (he_idx evsel));;
         do_write_u32 (u32 (he_nr_members evsel))
       else mret ());;
      write_groups (pos + 1) rest
  end.

(** [nr] is evlist->nr_groups. *)
Definition write_group_desc (nr : Z) (evlist : list header_evsel) : FM unit :=
  do_write_u32 (u32 nr);; write_groups 0 evlist.

Definition write_branch_stack : FM unit := mret ().
Definition write_stat : FM unit := mret ().

Definition write_clockid : FM unit :=
  s ← get_ph; do_write_u64 (env_nums (s_env s) clockid_res_ns).

Definition write_sample_time (first last : Z) : FM unit := do_write_u64 first;; do_write_u64 last.

(** The data must be a directory. *)
Definition write_dir_format : FM unit :=
  s ← get_ph; v ← or_fail (s_dir_version s) (-1); do_write_u64 v.

(** [node->id], [node->data_size] and the data lie one behind the other. *)
Definition write_bpf_btf : FM unit :=
  s ← get_ph;
  do_write_u32 (env_nums (s_env s) btfs_cnt);;
  for_each (fun n => do_write (int_bytes 4 (fst n) ++ int_bytes 4 (zlen (snd n)) ++ snd n))
    (env_btfs (s_env s)).

(** ** Caches *)

Definition cpu_cache_level__cmp (a b : cpu_cache_level) : bool :=
  (c_level a =? c_level b) && (c_line_size a =? c_line_size b) && (c_sets a =? c_sets b) &&
  (c_ways a =? c_ways b) && bool_decide (c_type a = c_type b) && bool_decide (c_size a = c_size b) &&
  bool_decide (c_map a = c_map b).

(** The levels of one cpu: [read level] is what sysfs says, [None] past the last
    level, an error otherwise. *)
Fixpoint build_levels (n : nat) (level size : Z) (read : Z -> Z + option cpu_cache_level)
  (caches : list cpu_cache_level) : Z + (bool * list cpu_cache_level) :=
  match n with
  | O => inr (false, caches)
  | S n =>
      match read level with
      | inl err => inl err
      | inr None => inr (false, caches)
      | inr (Some c) =>
          let caches := if existsb (cpu_cache_level__cmp c) caches then caches else caches ++ [c] in
          if zlen caches =? size then inr (true, caches)
          else build_levels n (level + 1) size read caches
      end
  end.

Fixpoint build_cpus (n : nat) (cpu size : Z) (read : Z -> Z -> Z + option cpu_cache_level)
  (caches : list cpu_cache_level) : Z + list cpu_cache_level :=
  match n with
  | O => inr caches
  | S n =>
      match build_levels 10 0 size (read cpu) caches with
      | inl err => inl err
      | inr (true, caches) => inr caches
      | inr (false, caches) => build_cpus n (cpu + 1) size read caches
      end
  end.

(** [ncpus] is sysconf(_SC_NPROCESSORS_CONF). *)
Definition build_caches (size ncpus : Z) read : Z + list cpu_cache_level :=
  if ncpus <? 0 then inl (-1) else build_cpus (Z.to_nat (u32 ncpus)) 0 size read [].

Definition MAX_CACHES : Z := 2000.

Definition write_cache_level (c : cpu_cache_level) : FM unit :=
  do_write_u32 (c_level c);; do_write_u32 (c_line_size c);; do_write_u32 (c_sets c);;
  do_write_u32 (c_ways c);; do_write_string (c_type c);; do_write_string (c_size c);;
  do_write_string (c_map c).

(** [sort] is qsort with cpu_cache_level__sort. *)
Definition write_cache (ncpus : Z) read (sort : list cpu_cache_level -> list cpu_cache_level) : FM unit :=
  match build_caches MAX_CACHES ncpus read with
  | inl err => fail err
  | inr caches =>
      do_write_u32 1;; do_write_u32 (zlen caches);; for_each write_cache_level (sort caches)
  end.

(** [nodes] is what build_mem_topology finds. *)
Definition write_mem_topology (bsize : option Z) (nodes : option (list memory_node)) : FM unit :=
  bsize ← or_fail bsize (-1);
  nodes ← or_fail nodes (-1);
  do_write_u64 1;; do_write_u64 bsize;; do_write_u64 (zlen nodes);;
  for_each (fun n => do_write_u64 (m_node n);; do_write_u64 (m_size n);;
                     do_write_bitmap (m_set n) (m_size n)) nodes.

End Write.

(** * Readers *)

Section Process.
Context `{Kernel}.

(** FEAT_PROCESS_STR_FUN *)
Definition process_str (field : env_str) : FM unit :=
  r ← try do_read_string;
  mod_env (set_str field r);;
  match r with Some _ => mret () | None => fail (-12) end.

Definition process_hostname : FM unit := process_str hostname.
Definition process_osrelease : FM unit := process_str os_release.
Definition process_version : FM unit := process_str version.
Definition process_arch : FM unit := process_str arch.
Definition process_cpudesc : FM unit := process_str cpu_desc.
Definition process_cpuid : FM unit := process_str cpuid.

Definition process_nrcpus : FM unit :=
  avail ← do_read_u32;
  online ← do_read_u32;
  mod_env (set_num nr_cpus_avail (sint 32 avail));;
  mod_env (set_num nr_cpus_online (sint 32 online)).

Definition process_total_mem : FM unit :=
  mem ← or_return (-1) do_read_u64; mod_env (set_num total_mem mem).

(** ** Event descriptions *)

(** [evsel->attr.size] *)
Definition attr_size (attr : bytes) : Z := le_val (take 4 (drop 4 attr)).

(** The ids of an event, [nr] of them. *)
Definition read_ids (nr : Z) : FM (list Z) :=
  if nr =? 0 then mret [] else malloc (nr * 8) (-1);; read_list (Z.to_nat nr) do_read_u64.

(** One event of the description, stored in [events[i]] of an array of [cap]. *)
Definition read_event (sz cap i : Z) : FM header_evsel :=
  (if i <? cap then mret () else fault);;
  buf ← __do_read sz;
  s ← get_ph;
  buf ← (if s_needs_swap s then access_res (perf_event__attr_swap 0 buf) else mret buf);
  let msz := Z.min sz sizeof_attr in
  let attr := take (Z.to_nat msz) buf ++ zeros (sizeof_attr - msz) in
  nr ← do_read_u32;
  name ← do_read_string;
  ids ← read_ids nr;
  mret (HeaderEvsel attr ids (Some name) i 0 None 0 (s_needs_swap s)).

Fixpoint read_events (n : nat) (sz cap i : Z) : FM (list header_evsel) :=
  match n with
  | O => mret []
  | S n => e ← read_event sz cap i; l ← read_events n sz cap (i + 1); mret (e :: l)
  end.

(** [sizeof( *events)], not more than a few kilobytes. *)
Context (sizeof_evsel : Z).

(** The array has [nre + 1] elements, a u32. *)
Definition read_event_desc : FM (option (list header_evsel)) :=
  try (nre ← do_read_u32;
       sz ← do_read_u32;
       malloc sz (-1);;
       malloc (u32 (nre + 1) * sizeof_evsel) (-1);;
       read_events (Z.to_nat nre) sz (u32 (nre + 1)) 0).

Definition perf_evlist__find_by_index (evlist : list header_evsel) (idx : Z) : option nat :=
  fst <$> list_find (fun e => he_idx e = idx) evlist.

Definition with_name (name : option bytes) (e : header_evsel) : header_evsel :=
  HeaderEvsel (he_attr e) (he_ids e) name (he_idx e) (he_leader e) (he_group_name e) (he_nr_members e)
    (he_needs_swap e).

(** strdup copies the characters and a terminator, or gives NULL. *)
Definition perf_evlist__set_event_name (event : header_evsel) : FM unit :=
  s ← get_ph;
  match he_name event, perf_evlist__find_by_index (s_evlist s) (he_idx event) with
  | Some name, Some i =>
      match s_evlist s !! i with
      | Some e => match he_name e with
                  | Some _ => mret ()
                  | None => cs ← chars name;
                            if alloc (zlen cs + 1)
                            then mod_ph (set_evlist (<[i := with_name (Some (cs ++ [0])) e]> (s_evlist s)))
                            else mret ()
                  end
      | None => mret ()
      end
  | _, _ => mret ()
  end.

(** [for (evsel = events; evsel->attr.size; evsel++)] *)
Fixpoint set_event_names (events : list header_evsel) : FM unit :=
  match events with
  | [] => mret ()
  | e :: events => if attr_size (he_attr e) =? 0 then mret ()
                   else perf_evlist__set_event_name e;; set_event_names events
  end.

Definition process_event_desc : FM unit :=
  events ← read_event_desc;
  match events with
  | None => mret ()
  | Some events =>
      s ← get_ph;
      (if s_is_pipe s then fun ff => Done () (put_events (Some events) ff) else mret ());;
      set_event_names events
  end.

(** ** Command line *)

(** [memcpy(argv[i], str, strlen(str) + 1)] at [cmdline + len]; [argv] has room for
    [nargs] pointers and [len] is a u32. *)
Fixpoint cmdline_loop (n : nat) (i nargs len : Z) (buf : bytes) (argv : list Z) : FM (bytes * list Z) :=
  match n with
  | O => mret (buf, argv)
  | S n =>
      str ← do_read_string;
      (if i <? nargs then mret () else fault);;
      l ← strlen_of str;
      buf ← access (wrn buf len (take (Z.to_nat (l + 1)) str));
      cmdline_loop n (i + 1) nargs (u32 (len + (l + 1))) buf (argv ++ [len])
  end.

Definition get_size : FM Z := fun ff => Done (ff_size ff) ff.

Definition process_cmdline : FM unit :=
  nr ← or_return (-1) do_read_u32;
  mod_env (set_num nr_cmdline (sint 32 nr));;
  size ← get_size;
  malloc (size + nr + 1) (-1);;
  malloc (8 * u32 (nr + 1)) (-1);;
  '(buf, argv) ← or_return (-1) (cmdline_loop (Z.to_nat nr) 0 (u32 (nr + 1)) 0 (zeros (size + nr + 1)) []);
  mod_env (set_str cmdline (Some buf));;
  mod_env (set_argv argv).

(** ** Topology *)

(** strbuf_add: the buffer grows, or the call fails. *)
Definition strbuf_add (sb data : bytes) : FM bytes :=
  malloc (zlen sb + zlen data + 1) (-12);; mret (sb ++ data).

Definition string_size (l : Z) : Z := PERF_ALIGN (l + 1) NAME_ALIGN + 4.

(** Strings appended with their terminators, and the size they have in the file. *)
Fixpoint sibling_loop (n : nat) (sb : bytes) (size : Z) : FM (bytes * Z) :=
  match n with
  | O => mret (sb, size)
  | S n =>
      str ← do_read_string;
      l ← strlen_of str;
      sb ← strbuf_add sb (take (Z.to_nat (l + 1)) str);
      sibling_loop n sb (size +64 string_size l)
  end.

(** strncmp(s, lit, strlen(lit)) == 0 on the memory [s]. *)
Fixpoint strncmp_eq (s lit : bytes) : option bool :=
  match lit, s with
  | [], _ => Some true
  | c :: lit, x :: s => if x =? c then strncmp_eq s lit else Some false
  | _ :: _, [] => None
  end.

(** "s390" *)
Definition s390 : cstr := [115; 51; 57; 48].

(** A core id and a socket id for every cpu. *)
Fixpoint cpu_loop (n : nat) (cpu_nr : Z) (do_core_id_test : bool) : FM (list cpu_topology_map) :=
  match n with
  | O => mret []
  | S n =>
      core ← do_read_u32;
      socket ← do_read_u32;
      if do_core_id_test && negb (socket =? u32 (-1)) && (u32 cpu_nr <? socket) then fail (-1) else
      l ← cpu_loop n cpu_nr do_core_id_test;
      mret (TopologyMap (sint 32 socket) (sint 32 core) :: l)
  end.

(** [goto free_cpu] and [goto error] *)
Definition or_free_cpu {A} (m : FM A) : FM A := fun ff =>
  match m ff with
  | Fail _ ff => (mod_env (set_cpu None);; fail (-1)) ff
  | r => r
  end.

Definition process_cpu_topology : FM unit :=
  s ← get_ph;
  let cpu_nr := env_nums (s_env s) nr_cpus_avail in
  or_free_cpu (if 0 <=? cpu_nr then malloc (cpu_nr * 8) (-1) else fail (-1));;
  mod_env (set_cpu (Some (replicate (Z.to_nat cpu_nr) (TopologyMap 0 0))));;
  nr ← or_free_cpu do_read_u32;
  mod_env (set_num nr_sibling_cores (sint 32 nr));;
  or_free_cpu (malloc 129 (-1));;
  '(sb, size) ← or_free_cpu (sibling_loop (Z.to_nat nr) [] 4);
  mod_env (set_str sibling_cores (Some sb));;
  nr ← or_return (-1) do_read_u32;
  mod_env (set_num nr_sibling_threads (sint 32 nr));;
  '(sb, size) ← or_free_cpu (sibling_loop (Z.to_nat nr) [] (size +64 4));
  mod_env (set_str sibling_threads (if zlen sb =? 0 then None else Some sb));;
  sz ← get_size;
  if sz <=? size then mod_env (set_cpu None) else
  s ← get_ph;
  is_s390 ← (match env_strs (s_env s) arch with
             | Some a => access (strncmp_eq a s390)
             | None => mret false
             end);
  cpus ← or_free_cpu (cpu_loop (Z.to_nat (u32 cpu_nr)) cpu_nr (negb is_s390));
  mod_env (set_cpu (Some cpus)).

(** One node; a list of cpus that cannot be parsed is an error. *)
Definition read_numa_node : FM numa_node :=
  node ← do_read_u32;
  mem_total ← do_read_u64;
  mem_free ← do_read_u64;
  str ← do_read_string;
  cs ← chars str;
  map ← access_res (cpu_map__new alloc nprocessors_onln cs);
  match map with
  | Some map => mret (NumaNode node mem_total mem_free map)
  | None => fail (-1)
  end.

Definition process_numa_topology : FM unit :=
  nr ← or_return (-1) do_read_u32;
  malloc (32 * nr) (-12);;
  nodes ← or_return (-1) (read_list (Z.to_nat nr) read_numa_node);
  mod_env (set_num nr_numa_nodes (sint 32 nr));;
  mod_env (set_numa nodes).

(** "msr" *)
Definition msr : cstr := [109; 115; 114].

(** [while (pmu_num)] *)
Fixpoint pmu_loop (n : nat) (sb : bytes) : FM bytes :=
  match n with
  | O => mret sb
  | S n =>
      type ← do_read_u32;
      name ← do_read_string;
      cs ← chars name;
      sb ← strbuf_add sb (udec 11 type [] ++ [58] ++ cs);
      sb ← strbuf_add sb [0];
      (if bool_decide (cs = msr) then mod_env (set_num msr_pmu_type type) else mret ());;
      pmu_loop n sb
  end.

Definition process_pmu_mappings : FM unit :=
  pmu_num ← or_return (-1) do_read_u32;
  if pmu_num =? 0 then mret () else
  mod_env (set_num nr_pmu_mappings (sint 32 pmu_num));;
  malloc 129 (-1);;
  sb ← or_return (-1) (pmu_loop (Z.to_nat pmu_num) []);
  mod_env (set_str pmu_mappings (Some sb)).

(** ** Groups *)

Record group_desc := GroupDesc { g_name : bytes; g_leader_idx : Z; g_nr_members : Z }.

Definition read_group_desc : FM group_desc :=
  name ← do_read_string; idx ← do_read_u32; nr ← do_read_u32; mret (GroupDesc name idx nr).

Definition with_leader (leader : Z) (e : header_evsel) : header_evsel :=
  HeaderEvsel (he_attr e) (he_ids e) (he_name e) (he_idx e) leader (he_group_name e) (he_nr_members e)
    (he_needs_swap e).
Definition with_group (leader : Z) (name : option bytes) (nr : Z) (e : header_evsel) : header_evsel :=
  HeaderEvsel (he_attr e) (he_ids e) (he_name e) (he_idx e) leader name nr (he_needs_swap e).

(** What the memory behind the array [desc] holds where [leader_idx] of one more
    element would be. *)
Context (beyond : Z).

(** [evlist__for_each_entry]: the event is at [pos], [i] groups are done, [nr] members
    of the group of [leader] are to come.  [name] of the element behind the array
    is not a string. *)
Fixpoint group_loop (evlist : list header_evsel) (pos : Z) (desc : list group_desc) (i nr leader : Z)
  (done : list header_evsel) : FM (list header_evsel) :=
  match evlist with
  | [] => if negb (i =? zlen desc) || negb (nr =? 0)
          then (mod_ph (set_evlist done);; fail (-1)) else mret done
  | evsel :: rest =>
      let d := desc !! Z.to_nat i in
      let idx := match d with Some d => g_leader_idx d | None => beyond end in
      if he_idx evsel =? sint 32 idx then
        match d with
        | None => fault
        | Some d =>
            anon ← access (strncmp_eq (g_name d) (anon_group ++ [0]));
            let name := if (anon : bool) then he_group_name evsel else Some (g_name d) in
            let evsel := with_group pos name (sint 32 (g_nr_members d)) evsel in
            if 0 <? nr then (mod_ph (set_evlist (done ++ evsel :: rest));; fail (-1)) else
            group_loop rest (pos + 1) desc (i + 1) (u32 (he_nr_members evsel - 1)) pos (done ++ [evsel])
        end
      else if negb (nr =? 0) then
        group_loop rest (pos + 1) desc i (nr - 1) leader (done ++ [with_leader leader evsel])
      else group_loop rest (pos + 1) desc i nr leader (done ++ [evsel])
  end.

Definition process_group_desc : FM unit :=
  nr ← or_return (-1) do_read_u32;
  mod_env (set_num nr_groups (sint 32 nr));;
  if nr =? 0 then mret () else
  malloc (nr * 16) (-1);;
  desc ← or_return (-1) (read_list (Z.to_nat nr) read_group_desc);
  mod_ph (set_nr_groups (sint 32 nr));;
  s ← get_ph;
  evlist ← group_loop (s_evlist s) 0 desc 0 0 0 [];
  mod_ph (set_evlist evlist).

(** ** Caches, times, memory nodes *)

Definition read_cache_level : FM cpu_cache_level :=
  level ← do_read_u32; line_size ← do_read_u32; sets ← do_read_u32; ways ← do_read_u32;
  type ← do_read_string; size ← do_read_string; map ← do_read_string;
  mret (CacheLevel level line_size sets ways type size map).

Definition process_cache : FM unit :=
  version ← or_return (-1) do_read_u32;
  if negb (version =? 1) then fail (-1) else
  cnt ← or_return (-1) do_read_u32;
  malloc (40 * cnt) (-1);;
  caches ← or_return (-1) (read_list (Z.to_nat cnt) read_cache_level);
  mod_env (set_caches caches);;
  mod_env (set_num caches_cnt (sint 32 cnt)).

Definition process_sample_time : FM unit :=
  first ← or_return (-1) do_read_u64;
  last ← or_return (-1) do_read_u64;
  mod_ph (set_times first last).

(** A node is stored in [nodes[i]] of an array of [size] bytes; its size member is
    overwritten with that of the bitmap. *)
Fixpoint memory_loop (n : nat) (i size : Z) : FM (list memory_node) :=
  match n with
  | O => mret []
  | S n =>
      node ← do_read_u64;
      _ ← do_read_u64;
      '(set, sz) ← do_read_bitmap;
      (if 24 * (i + 1) <=? size then mret () else fault);;
      l ← memory_loop n (i + 1) size;
      mret (MemoryNode node sz set :: l)
  end.

(** The size of the array is a size_t. *)
Definition process_mem_topology : FM unit :=
  version ← or_return (-1) do_read_u64;
  if negb (version =? 1) then fail (-1) else
  bsize ← or_return (-1) do_read_u64;
  nr ← or_return (-1) do_read_u64;
  malloc (24 *64 nr) (-1);;
  nodes ← or_return (-1) (memory_loop (Z.to_nat nr) 0 (24 *64 nr));
  mod_env (set_num memory_bsize bsize);;
  mod_env (set_memory nodes);;
  mod_env (set_num nr_memory_nodes (sint 32 nr)).

Definition process_clockid : FM unit :=
  v ← or_return (-1) do_read_u64; mod_env (set_num clockid_res_ns v).

Definition process_dir_format : FM unit :=
  s ← get_ph;
  _ ← or_fail (s_dir_version s) (-1);
  v ← do_read_u64;
  mod_ph (set_dir_version (Some v)).

(** ** BTF data *)

(** perf_env__insert_btf: a new node in the order of the ids, unless there is one
    with that id. *)
Fixpoint insert_btf (id : Z) (data : bytes) (l : list (Z * bytes)) : option (list (Z * bytes)) :=
  match l with
  | [] => Some [(id, data)]
  | (id', data') :: l' =>
      if id <? id' then Some ((id, data) :: l)
      else if id' <? id then cons (id', data') <$> insert_btf id data l'
      else None
  end.

Definition perf_env__insert_btf (id : Z) (data : bytes) (e : perf_env) : perf_env :=
  match insert_btf id data (env_btfs e) with
  | Some l => set_num btfs_cnt (u32 (env_nums e btfs_cnt + 1)) (set_btfs l e)
  | None => e
  end.

Fixpoint btf_loop (n : nat) : FM unit :=
  match n with
  | O => mret ()
  | S n =>
      id ← do_read_u32;
      data_size ← do_read_u32;
      malloc (32 + data_size) (-1);;
      data ← __do_read data_size;
      mod_env (perf_env__insert_btf id data);;
      btf_loop n
  end.

Definition process_bpf_btf : FM unit :=
  s ← get_ph;
  if s_needs_swap s then mret () else
  count ← or_return (-1) do_read_u32;
  or_return (-1) (btf_loop (Z.to_nat count)).

End Process.

(** * Loops over the parts of a section *)

Section Loops.
Context `{KernelOk}.

Lemma Emits_for_each {A} ph (f : A -> FM unit) (g : A -> bytes) l :
  (forall a, a ∈ l -> Emits ph (f a) (g a)) -> Emits ph (for_each f l) (l ≫= g).
Proof.
  induction l as [|a l IH]; intros Hf; [apply Emits_ret|]. rewrite bind_cons. cbn [for_each].
  apply Emits_seq; [apply Hf; left|apply IH; intros; apply Hf; by right].
Qed.

Lemma Runs_read_list {A D} sz s (r : FM A) (g : D -> bytes) (v : D -> A) l :
  (forall d, d ∈ l -> Runs sz s r (g d) (v d) s) ->
  Runs sz s (read_list (length l) r) (l ≫= g) (v <$> l) s.
Proof.
  induction l as [|d l IH]; intros Hr; [apply Runs_ret|]. rewrite bind_cons. cbn [length read_list].
  eapply Runs_bind; [apply Hr; left|]. eapply Runs_last; [apply IH; intros; apply Hr; by right|].
  apply Runs_ret.
Qed.

Lemma to_nat_zlen {A} (l : list A) : Z.to_nat (zlen l) = length l.
Proof. unfold zlen. lia. Qed.

End Loops.

(** * The data of the features and their form in a section *)

(** What a feature section stores, with the arguments that its writer gets. *)
Inductive feature :=
| HOSTNAME (s : cstr)
| OSRELEASE (s : cstr)
| VERSION (s : cstr)
| ARCH (s : cstr)
| NRCPUS (avail online : Z)
| CPUDESC (cpuinfo : list cstr) (search : cstr)
| CPUID (s : cstr)
| TOTAL_MEM (meminfo : list cstr)
| CMDLINE (exe : cstr) (argv : list cstr)
| CPU_TOPOLOGY (tp : cpu_topology) (topology_map : list cpu_topology_map)
| NUMA_TOPOLOGY (nodes : list numa_topology_node)
| BRANCH_STACK
| PMU_MAPPINGS (pmus : list (Z * option cstr))
| STAT
| CACHE (ncpus : Z) (read : Z -> Z -> Z + option cpu_cache_level)
    (sort : list cpu_cache_level -> list cpu_cache_level)
| SAMPLE_TIME (first last : Z)
| MEM_TOPOLOGY (bsize : Z) (nodes : list memory_node)
| CLOCKID (res_ns : Z)
| DIR_FORMAT (dir_version : Z)
| BPF_BTF (btfs : list (Z * bytes)).

(** The line of a text file that starts with a word. *)
Definition line_of (lines : list cstr) (word : cstr) : option cstr :=
  snd <$> list_find (fun buf => starts_with word buf = true) lines.
Definition cpudesc_of (cpuinfo : list cstr) (search : cstr) : option cstr :=
  (fun buf => squash false (cut_line (after_colon buf))) <$> line_of cpuinfo search.
Definition caches_of (ncpus : Z) read : list cpu_cache_level :=
  match build_caches MAX_CACHES ncpus read with inr caches => caches | inl _ => [] end.
Definition total_mem_of (meminfo : list cstr) : option Z := buf ← line_of meminfo MemTotal; scan_mem buf.

Section Wire.
Context `{Kernel}.

Definition node_bytes (n : numa_topology_node) : bytes :=
  int_bytes 4 (t_node n) ++ int_bytes 8 (t_mem_total n) ++ int_bytes 8 (t_mem_free n) ++
  string_bytes (t_cpus n).
Definition pmu_bytes (p : Z * cstr) : bytes := int_bytes 4 (fst p) ++ string_bytes (snd p).
Definition cache_bytes (c : cpu_cache_level) : bytes :=
  int_bytes 4 (c_level c) ++ int_bytes 4 (c_line_size c) ++ int_bytes 4 (c_sets c) ++
  int_bytes 4 (c_ways c) ++ string_bytes (c_type c) ++ string_bytes (c_size c) ++ string_bytes (c_map c).
Definition memory_bytes (n : memory_node) : bytes :=
  int_bytes 8 (m_node n) ++ int_bytes 8 (m_size n) ++ bitmap_bytes (m_set n) (m_size n).
Definition topology_bytes (c : cpu_topology_map) : bytes :=
  int_bytes 4 (u32 (core_id c)) ++ int_bytes 4 (u32 (socket_id c)).
Definition btf_bytes (n : Z * bytes) : bytes :=
  int_bytes 4 (fst n) ++ int_bytes 4 (zlen (snd n)) ++ snd n.
Definition strings_bytes (l : list cstr) : bytes := int_bytes 4 (zlen l) ++ (l ≫= string_bytes).

Definition wire (d : feature) : bytes :=
  match d with
  | HOSTNAME s | OSRELEASE s | VERSION s | ARCH s | CPUID s => string_bytes s
  | NRCPUS avail online => int_bytes 4 avail ++ int_bytes 4 online
  | CPUDESC cpuinfo search => string_bytes (default [] (cpudesc_of cpuinfo search))
  | TOTAL_MEM meminfo => int_bytes 8 (default 0 (total_mem_of meminfo))
  | CMDLINE exe argv => strings_bytes (exe :: argv)
  | CPU_TOPOLOGY tp map =>
      strings_bytes (core_siblings tp) ++ strings_bytes (thread_siblings tp) ++ (map ≫= topology_bytes)
  | NUMA_TOPOLOGY nodes => int_bytes 4 (zlen nodes) ++ (nodes ≫= node_bytes)
  | BRANCH_STACK | STAT => []
  | PMU_MAPPINGS pmus => int_bytes 4 (zlen (named pmus)) ++ (named pmus ≫= pmu_bytes)
  | CACHE ncpus read sort =>
      let caches := caches_of ncpus read in
      int_bytes 4 1 ++ int_bytes 4 (zlen caches) ++ (sort caches ≫= cache_bytes)
  | SAMPLE_TIME first last => int_bytes 8 first ++ int_bytes 8 last
  | MEM_TOPOLOGY bsize nodes =>
      int_bytes 8 1 ++ int_bytes 8 bsize ++ int_bytes 8 (zlen nodes) ++ (nodes ≫= memory_bytes)
  | CLOCKID v => int_bytes 8 v
  | DIR_FORMAT v => int_bytes 8 v
  | BPF_BTF btfs => int_bytes 4 (zlen btfs) ++ (btfs ≫= btf_bytes)
  end.

(** The writer of each feature. *)
Definition write_feature (d : feature) : FM unit :=
  match d with
  | HOSTNAME s => write_hostname (Some s)
  | OSRELEASE s => write_osrelease (Some s)
  | VERSION s => write_version s
  | ARCH s => write_arch (Some s)
  | NRCPUS avail online => write_nrcpus avail online
  | CPUDESC cpuinfo search => write_cpudesc (Some cpuinfo) [Some search]
  | CPUID s => write_cpuid (Some s)
  | TOTAL_MEM meminfo => write_total_mem (Some meminfo)
  | CMDLINE exe argv => write_cmdline exe argv
  | CPU_TOPOLOGY tp map => write_cpu_topology (Some tp) (Some map)
  | NUMA_TOPOLOGY nodes => write_numa_topology (Some nodes)
  | BRANCH_STACK => write_branch_stack
  | PMU_MAPPINGS pmus => write_pmu_mappings pmus
  | STAT => write_stat
  | CACHE ncpus read sort => write_cache ncpus read sort
  | SAMPLE_TIME first last => write_sample_time first last
  | MEM_TOPOLOGY bsize nodes => write_mem_topology (Some bsize) (Some nodes)
  | CLOCKID _ => write_clockid
  | DIR_FORMAT _ => write_dir_format
  | BPF_BTF _ => write_bpf_btf
  end.

End Wire.

(** * What the sections hold after reading *)

Section Stores.
Context `{Kernel}.

(** Data that a section can hold: the bounds of the fields, and strings without a
    terminator inside. *)
Definition data_ok (d : feature) : Prop :=
  zlen (wire d) < 2 ^ 31 /\
  match d with
  | HOSTNAME s | OSRELEASE s | VERSION s | ARCH s | CPUID s => string_ok s
  | NRCPUS avail online => is_uint 31 avail /\ is_uint 31 online
  | CPUDESC cpuinfo search => exists s, cpudesc_of cpuinfo search = Some s /\ string_ok s
  | TOTAL_MEM meminfo => exists v, total_mem_of meminfo = Some v /\ is_uint 64 v
  | CMDLINE exe argv => Forall string_ok (exe :: argv)
  | CPU_TOPOLOGY tp map =>
      Forall string_ok (core_siblings tp) /\ Forall string_ok (thread_siblings tp) /\ map <> [] /\
      Forall (fun c => is_uint 31 (core_id c) /\ (socket_id c = -1 \/ 0 <= socket_id c <= zlen map)) map
  | NUMA_TOPOLOGY nodes =>
      Forall (fun n => is_uint 32 (t_node n) /\ is_uint 64 (t_mem_total n) /\ is_uint 64 (t_mem_free n) /\
        string_ok (t_cpus n) /\
        exists map, cpu_map__new alloc nprocessors_onln (t_cpus n) = Ok (Some map)) nodes
  | BRANCH_STACK | STAT => True
  | PMU_MAPPINGS pmus => Forall (fun p => is_uint 32 (fst p) /\ string_ok (snd p)) (named pmus)
  | CACHE ncpus read sort =>
      (exists caches, build_caches MAX_CACHES ncpus read = inr caches) /\ (forall l, sort l ≡ₚ l) /\
      Forall (fun c => is_uint 32 (c_level c) /\ is_uint 32 (c_line_size c) /\ is_uint 32 (c_sets c) /\
        is_uint 32 (c_ways c) /\ string_ok (c_type c) /\ string_ok (c_size c) /\ string_ok (c_map c))
        (caches_of ncpus read)
  | SAMPLE_TIME first last => is_uint 64 first /\ is_uint 64 last
  | MEM_TOPOLOGY bsize nodes => is_uint 64 bsize /\
      Forall (fun n => is_uint 64 (m_node n) /\ is_uint 31 (m_size n) /\ Forall (is_uint 64) (m_set n) /\
        zlen (m_set n) = BITS_TO_U64 (m_size n)) nodes
  | CLOCKID v | DIR_FORMAT v => is_uint 64 v
  | BPF_BTF btfs => big_endian = false /\ Forall (fun n => is_uint 32 (fst n)) btfs
  end.

(** Data that the writer takes from the session itself. *)
Definition source_ok (s : session) (d : feature) : Prop :=
  match d with
  | CLOCKID v => env_nums (s_env s) clockid_res_ns = v
  | DIR_FORMAT v => s_dir_version s = Some v
  | BPF_BTF btfs => env_btfs (s_env s) = btfs /\ env_nums (s_env s) btfs_cnt = zlen btfs
  | _ => True
  end.

(** The same for a header that may be missing. *)
Definition ph_ok (ph : option session) (d : feature) : Prop :=
  match d with
  | CLOCKID _ | DIR_FORMAT _ | BPF_BTF _ => exists s, ph = Some s /\ source_ok s d
  | _ => True
  end.

(** What the reader knows from sections before: the number of cpus and the
    architecture for the topology, a directory for its version. *)
Definition target_ok (s : session) (d : feature) : Prop :=
  match d with
  | CPU_TOPOLOGY tp map =>
      env_nums (s_env s) nr_cpus_avail = zlen map /\
      match env_strs (s_env s) arch with Some a => is_Some (strncmp_eq a s390) | None => True end
  | DIR_FORMAT _ => is_Some (s_dir_version s)
  | _ => True
  end.

(** The strings of a list one behind the other, with their terminators, and where
    each of them starts. *)
Definition packed (l : list cstr) : bytes := l ≫= fun s => s ++ [0].
Fixpoint offsets (len : Z) (l : list cstr) : list Z :=
  match l with
  | [] => []
  | s :: l => len :: offsets (len + (zlen s + 1)) l
  end.

Definition numa_of (n : numa_topology_node) : numa_node :=
  NumaNode (t_node n) (t_mem_total n) (t_mem_free n)
    (match cpu_map__new alloc nprocessors_onln (t_cpus n) with Ok (Some map) => map | _ => [] end).
Definition pmu_text (p : Z * cstr) : bytes := udec 11 (fst p) [] ++ [58] ++ snd p ++ [0].
Definition note_msr (e : perf_env) (p : Z * cstr) : perf_env :=
  if bool_decide (snd p = msr) then set_num msr_pmu_type (fst p) e else e.
Definition cache_of (c : cpu_cache_level) : cpu_cache_level :=
  CacheLevel (c_level c) (c_line_size c) (c_sets c) (c_ways c) (stored (c_type c)) (stored (c_size c))
    (stored (c_map c)).

Definition store_env (sz : Z) (d : feature) (e : perf_env) : perf_env :=
  match d with
  | HOSTNAME s => set_str hostname (Some (stored s)) e
  | OSRELEASE s => set_str os_release (Some (stored s)) e
  | VERSION s => set_str version (Some (stored s)) e
  | ARCH s => set_str arch (Some (stored s)) e
  | CPUID s => set_str cpuid (Some (stored s)) e
  | NRCPUS avail online => set_num nr_cpus_online online (set_num nr_cpus_avail avail e)
  | CPUDESC cpuinfo search => set_str cpu_desc (Some (stored (default [] (cpudesc_of cpuinfo search)))) e
  | TOTAL_MEM meminfo => set_num total_mem (default 0 (total_mem_of meminfo)) e
  | CMDLINE exe argv =>
      let l := exe :: argv in
      set_argv (offsets 0 l)
        (set_str cmdline (Some (packed l ++ zeros (sz + zlen l + 1 - zlen (packed l))))
          (set_num nr_cmdline (zlen l) e))
  | CPU_TOPOLOGY tp map =>
      let l := thread_siblings tp in
      set_cpu (Some map)
        (set_str sibling_threads (if zlen (packed l) =? 0 then None else Some (packed l))
          (set_num nr_sibling_threads (zlen l)
            (set_str sibling_cores (Some (packed (core_siblings tp)))
              (set_num nr_sibling_cores (zlen (core_siblings tp))
                (set_cpu (Some (replicate (length map) (TopologyMap 0 0))) e)))))
  | NUMA_TOPOLOGY nodes => set_numa (numa_of <$> nodes) (set_num nr_numa_nodes (zlen nodes) e)
  | PMU_MAPPINGS pmus =>
      let l := named pmus in
      if zlen l =? 0 then e
      else set_str pmu_mappings (Some (l ≫= pmu_text)) (foldl note_msr (set_num nr_pmu_mappings (zlen l) e) l)
  | CACHE ncpus read sort =>
      let l := sort (caches_of ncpus read) in
      set_num caches_cnt (zlen l) (set_caches (cache_of <$> l) e)
  | MEM_TOPOLOGY bsize nodes =>
      set_num nr_memory_nodes (zlen nodes) (set_memory nodes (set_num memory_bsize bsize e))
  | CLOCKID v => set_num clockid_res_ns v e
  | BPF_BTF btfs => foldl (fun e n => perf_env__insert_btf (fst n) (snd n) e) e btfs
  | BRANCH_STACK | STAT | SAMPLE_TIME _ _ | DIR_FORMAT _ => e
  end.

Definition store (sz : Z) (d : feature) (s : session) : session :=
  match d with
  | SAMPLE_TIME first last => set_times first last s
  | DIR_FORMAT v => set_dir_version (Some v) s
  | _ => set_env (store_env sz d (s_env s)) s
  end.

(** The reader of each feature; a feature without one is not read. *)
Definition process_feature (d : feature) : FM unit :=
  match d with
  | HOSTNAME _ => process_hostname
  | OSRELEASE _ => process_osrelease
  | VERSION _ => process_version
  | ARCH _ => process_arch
  | NRCPUS _ _ => process_nrcpus
  | CPUDESC _ _ => process_cpudesc
  | CPUID _ => process_cpuid
  | TOTAL_MEM _ => process_total_mem
  | CMDLINE _ _ => process_cmdline
  | CPU_TOPOLOGY _ _ => process_cpu_topology
  | NUMA_TOPOLOGY _ => process_numa_topology
  | BRANCH_STACK => mret ()
  | PMU_MAPPINGS _ => process_pmu_mappings
  | STAT => mret ()
  | CACHE _ _ _ => process_cache
  | SAMPLE_TIME _ _ => process_sample_time
  | MEM_TOPOLOGY _ _ => process_mem_topology
  | CLOCKID _ => process_clockid
  | DIR_FORMAT _ => process_dir_format
  | BPF_BTF _ => process_bpf_btf
  end.

End Stores.

(** * The writers write the sections *)

Section Emitting.
Context `{KernelOk}.

Ltac emit := repeat lazymatch goal with
  | |- Emits _ (do_write_string _) _ => apply Emits_string; tauto
  | |- Emits _ (do_write_u32 _) _ => apply Emits_u32
  | |- Emits _ (do_write_u64 _) _ => apply Emits_u64
  | |- Emits _ (do_write _) _ => apply Emits_write
  | |- Emits _ (mret ()) _ => apply Emits_ret
  | |- Emits _ (mret _ ≫= _) _ => apply Emits_some
  | |- Emits _ (_ ≫= _) _ => apply Emits_seq
  end.

Lemma emits_cpudesc ph cpuinfo search s : cpudesc_of cpuinfo search = Some s -> string_ok s ->
  Emits ph (write_cpudesc (Some cpuinfo) [Some search]) (string_bytes s).
Proof.
  unfold cpudesc_of, line_of. intros E Hs. cbn [write_cpudesc]. unfold __write_cpudesc.
  destruct (list_find _ cpuinfo) as [[i buf]|] eqn:EL; [|done]. cbn in E. injection E as <-. intros ff Hk Hp.
  set (s := squash false _) in *.
  pose proof (Emits_string ph s Hs ff Hk Hp) as Hw. unfold mbind, FM_bind, try, or_fail, mret, FM_ret.
  cbn beta iota. rewrite EL. fold s. destruct (decide (room ff (zlen (string_bytes s)))).
  - destruct Hw as (ff' & -> & Hw). by exists ff'.
  - destruct Hw as (e & ff' & junk & -> & He & Hw). exists (-1), ff', junk. split; [done|]. split; [lia|done].
Qed.

Lemma emits_strings ph l : Forall string_ok l -> zlen l < 2 ^ 32 ->
  Emits ph (do_write_u32 (zlen l);; for_each do_write_string l) (strings_bytes l).
Proof.
  intros Hl Hz. apply Emits_seq; [apply Emits_u32|]. apply Emits_for_each. intros s Hs. apply Emits_string.
  by apply (proj1 (Forall_forall _ _) Hl).
Qed.

Lemma string_bytes_long str : 68 <= zlen (string_bytes str).
Proof.
  unfold string_bytes. rewrite zlen_app, zlen_int_bytes. destruct (zlen_stored str) as [E _]. rewrite E.
  pose proof (zlen_nonneg str). change NAME_ALIGN with (2 ^ 6). rewrite PERF_ALIGN_pow2 by lia.
  change (2 ^ 6) with 64. assert (1 <= (zlen str + 1 + (64 - 1)) / 64); [apply Z.div_le_lower_bound; lia|].
  change (Z.of_nat 4) with 4. lia.
Qed.

(** The number of parts of a section is below its size. *)
Lemma parts_below {A} (g : A -> bytes) (l : list A) : (forall a, 1 <= zlen (g a)) -> zlen l <= zlen (l ≫= g).
Proof.
  intros Hg. induction l as [|a l IH]; [done|]. rewrite bind_cons, zlen_app, zlen_cons.
  pose proof (Hg a). lia.
Qed.

Lemma emits_feature ph d : data_ok d -> ph_ok ph d ->
  (forall tp map, d <> CPU_TOPOLOGY tp map) -> Emits ph (write_feature d) (wire d).
Proof.
  intros [Hz Hd] Hs Hn. destruct d; cbn [write_feature wire] in *; unfold write_hostname, write_osrelease,
    write_version, write_arch, write_cpuid, write_nrcpus, write_cmdline, write_numa_topology,
    write_branch_stack, write_pmu_mappings, write_stat, write_sample_time, write_mem_topology, write_clockid,
    write_dir_format, write_bpf_btf in *; cbn [or_fail]; try (by emit).
  - destruct Hd as [Ha Ho]. unfold is_uint in *. replace (online <? 0) with false by lia.
    rewrite !u32_small by lia. emit.
  - destruct Hd as (v & E & Hv). rewrite E. by apply emits_cpudesc.
  - destruct Hd as (v & E & Hv). rewrite E. unfold write_total_mem. cbn [or_fail default]. apply Emits_some. revert E.
    unfold total_mem_of, line_of. destruct (list_find _ meminfo) as [[i buf]|]; [|done].
    cbn. intros E. rewrite E. emit.
  - apply Forall_cons in Hd as [He Ha]. unfold strings_bytes. rewrite zlen_cons, bind_cons.
    replace (zlen argv + 1) with (1 + zlen argv) by lia. apply Emits_seq; [apply Emits_u32|].
    apply Emits_seq; [by apply Emits_string|]. apply Emits_for_each. intros x Hx. apply Emits_string.
    by apply (proj1 (Forall_forall _ _) Ha).
  - by destruct (Hn tp topology_map).
  - apply Emits_some. apply Emits_seq; [apply Emits_u32|]. apply Emits_for_each. intros n Hin.
    apply (proj1 (Forall_forall _ _) Hd) in Hin as (? & ? & ? & ? & ?). unfold node_bytes. emit.
  - apply Emits_seq; [apply Emits_u32|]. apply Emits_for_each. intros p Hin.
    apply (proj1 (Forall_forall _ _) Hd) in Hin as (? & ?). unfold pmu_bytes. emit.
  - destruct Hd as ((caches & E) & Hp & Hc). unfold write_cache, caches_of in *. rewrite E in *.
    apply Emits_seq; [apply Emits_u32|]. apply Emits_seq; [apply Emits_u32|].
    apply Emits_for_each. intros c Hin. rewrite Hp in Hin.
    apply (proj1 (Forall_forall _ _) Hc) in Hin as (? & ? & ? & ? & ? & ? & ?).
    unfold write_cache_level, cache_bytes. emit.
  - apply Emits_some, Emits_some. do 3 (apply Emits_seq; [apply Emits_u64|]). apply Emits_for_each.
    intros n Hin. destruct Hd as [_ Hd]. apply (proj1 (Forall_forall _ _) Hd) in Hin as (? & ? & ? & ?).
    unfold memory_bytes. do 2 (apply Emits_seq; [apply Emits_u64|]). by apply Emits_bitmap.
  - destruct Hs as (s & -> & Hs). apply Emits_ph. cbn [source_ok] in Hs. rewrite Hs. emit.
  - destruct Hs as (s & -> & Hs). apply Emits_ph. cbn [source_ok] in Hs. rewrite Hs. cbn [or_fail]. emit.
  - destruct Hs as (s & -> & Hs). apply Emits_ph. cbn [source_ok] in Hs. destruct Hs as [-> ->]. apply Emits_seq; [apply Emits_u32|].
    apply Emits_for_each. intros n _. apply Emits_write.
Qed.

Lemma emits_topology ph tp map : Forall string_ok (core_siblings tp) -> Forall string_ok (thread_siblings tp) ->
  zlen (wire (CPU_TOPOLOGY tp map)) < 2 ^ 31 ->
  EmitsRoom ph (write_cpu_topology (Some tp) (Some map)) (wire (CPU_TOPOLOGY tp map)).
Proof.
  intros Hc Ht Hz. cbn [wire] in *. unfold write_cpu_topology. cbn [or_fail].
  unfold strings_bytes in *. rewrite <- !app_assoc.
  apply (EmitsRoom_seq ph (do_write_u32 _)); [apply Emits_room, Emits_u32|].
  apply EmitsRoom_seq; [apply Emits_room, Emits_for_each|].
  { intros s Hs. apply Emits_string. by apply (proj1 (Forall_forall _ _) Hc). }
  apply EmitsRoom_seq; [apply Emits_room, Emits_u32|].
  apply EmitsRoom_seq; [apply EmitsRoom_try, Emits_room, Emits_for_each|].
  { intros s Hs. apply Emits_string. by apply (proj1 (Forall_forall _ _) Ht). }
  apply Emits_room, Emits_some, Emits_for_each. intros c _. apply Emits_seq; apply Emits_u32.
Qed.

End Emitting.

(** * The readers read the sections *)

Section Reading.
Context `{KernelOk}.
Implicit Types (sz : Z) (s : session) (e : perf_env).

(** One step of a reader that consumes the front of the section, all that is
    left of it, or nothing. *)
Ltac read := first
  [ eapply Runs_bind; [first [apply Runs_u32 | apply Runs_u64 | apply Runs_string
                             | apply Runs_or_return, Runs_u32 | apply Runs_or_return, Runs_u64];
                       [done|try done; try (unfold is_uint in *; lia)]|]
  | eapply Runs_last; [first [apply Runs_u32 | apply Runs_u64 | apply Runs_string
                             | apply Runs_or_return, Runs_u32 | apply Runs_or_return, Runs_u64];
                       [done|try done; try (unfold is_uint in *; lia)]|] ].
Ltac quiet := eapply Runs_then; [first [apply Runs_env | apply Runs_mod_env | apply Runs_mod_ph | apply Runs_get_ph
                                       | apply Runs_ret | apply Runs_malloc; try lia]|]; cbv beta.

Lemma runs_str sz s field str : swapped s -> string_ok str ->
  Runs sz s (process_str field) (string_bytes str) () (set_env (set_str field (Some (stored str)) (s_env s)) s).
Proof.
  intros Hs Hstr. unfold process_str. eapply Runs_last; [apply Runs_try; by apply Runs_string|].
  quiet. apply Runs_ret.
Qed.

Lemma take_stored str : take (Z.to_nat (zlen str + 1)) (stored str) = str ++ [0].
Proof.
  unfold stored. rewrite take_app_le, take_ge by (rewrite ?length_app; unfold zlen; cbn [length]; lia). done.
Qed.

Lemma packed_cons str l : packed (str :: l) = (str ++ [0]) ++ packed l.
Proof. unfold packed. by rewrite bind_cons. Qed.

Lemma zlen_packed l : zlen (packed l) <= zlen (l ≫= string_bytes).
Proof.
  induction l as [|str l IH]; [done|]. rewrite packed_cons, bind_cons, !zlen_app, zlen_cons, zlen_nil.
  unfold string_bytes at 1. rewrite zlen_app, zlen_int_bytes. destruct (zlen_stored str) as [_ Hz]. lia.
Qed.

Lemma runs_cmdline_loop sz s l : forall pre i nargs k argv, swapped s -> Forall string_ok l ->
  0 <= i -> i + zlen l <= nargs -> zlen (packed l) <= k -> zlen pre + zlen (packed l) < 2 ^ 32 ->
  Runs sz s (cmdline_loop (length l) i nargs (zlen pre) (pre ++ zeros k) argv) (l ≫= string_bytes)
    ((pre ++ packed l) ++ zeros (k - zlen (packed l)), argv ++ offsets (zlen pre) l) s.
Proof.
  induction l as [|str l IH]; intros pre i nargs k argv Hs Hl Hi Hn Hk Hb.
  - change (packed []) with ([] : bytes). rewrite (zlen_nil (A := Z)), Z.sub_0_r, !app_nil_r. apply Runs_ret.
  - apply Forall_cons in Hl as [Hstr Hl]. rewrite packed_cons in *. rewrite bind_cons.
    rewrite !zlen_app, !zlen_cons, zlen_nil in *. pose proof (zlen_nonneg str). pose proof (zlen_nonneg (packed l)).
    pose proof (zlen_nonneg pre). pose proof (zlen_nonneg l).
    cbn [length cmdline_loop offsets]. read. replace (i <? nargs) with true by lia. quiet.
    eapply Runs_then; [by apply Runs_strlen|]. rewrite take_stored.
    assert (Hz : zlen (str ++ [0]) = zlen str + 1) by (by rewrite zlen_app, zlen_cons, zlen_nil).
    rewrite (wrn_zeros pre k (zlen pre) (str ++ [0])) by (done || lia).
    eapply Runs_then; [apply Runs_access|]. rewrite u32_small by lia.
    assert (Hp : zlen (pre ++ str ++ [0]) = zlen pre + (zlen str + 1)) by (by rewrite zlen_app, Hz).
    specialize (IH (pre ++ str ++ [0]) (i + 1) nargs (k - (zlen str + 1)) (argv ++ [zlen pre]) Hs Hl).
    rewrite Hp in IH. rewrite Hz. eapply (eq_ind _ (fun v => Runs sz s _ _ v s)); [apply IH; lia|].
    f_equal; [|by rewrite <- app_assoc]. rewrite <- !app_assoc. do 5 f_equal. rewrite (zlen_nil (A := Z)). lia.
Qed.

Lemma runs_cmdline sz s exe argv : swapped s -> Forall string_ok (exe :: argv) ->
  zlen (wire (CMDLINE exe argv)) <= sz < 2 ^ 32 -> zlen (wire (CMDLINE exe argv)) < 2 ^ 31 ->
  Runs sz s process_cmdline (wire (CMDLINE exe argv)) () (store sz (CMDLINE exe argv) s).
Proof.
  cbn [wire store store_env]. intros Hs Hl Hz Hb. unfold strings_bytes in *. set (l := exe :: argv) in *.
  rewrite zlen_app, zlen_int_bytes in *. pose proof (zlen_packed l) as Hp. pose proof (zlen_nonneg l).
  assert (Hn : zlen l <= zlen (l ≫= string_bytes)).
  { apply parts_below. intros a. pose proof (string_bytes_long a). lia. }
  unfold process_cmdline. read. quiet. apply Runs_size. rewrite sint32_small, u32_small by lia.
  quiet. quiet. eapply Runs_last.
  - apply Runs_or_return. rewrite to_nat_zlen.
    apply (runs_cmdline_loop sz _ l [] 0 (zlen l + 1) (sz + zlen l + 1) []); [done|done|rewrite ?(zlen_nil (A := Z)); lia..].
  - quiet. apply Runs_env.
Qed.

(** ** Topology *)

Lemma Runs_or_free_cpu {A} sz s (r : FM A) bs v s' : Runs sz s r bs v s' -> Runs sz s (or_free_cpu r) bs v s'.
Proof. intros Hr ff rest Hs Hp Hz Hi. unfold or_free_cpu. by rewrite (Hr ff rest). Qed.

Lemma Runs_strbuf_add sz s sb data : zlen sb + zlen data < 2 ^ 39 ->
  Runs sz s (strbuf_add sb data) [] (sb ++ data) s.
Proof.
  intros Hb. pose proof (zlen_nonneg sb). pose proof (zlen_nonneg data). unfold strbuf_add. quiet. apply Runs_ret.
Qed.

Lemma string_size_ok str : string_size (zlen str) = zlen (string_bytes str).
Proof.
  unfold string_size, string_bytes. rewrite zlen_app, zlen_int_bytes. destruct (zlen_stored str) as [-> _].
  change (Z.of_nat 4) with 4. lia.
Qed.

Lemma runs_sibling_loop sz s l : forall sb size, swapped s -> Forall string_ok l ->
  zlen sb + zlen (l ≫= string_bytes) < 2 ^ 39 -> 0 <= size -> size + zlen (l ≫= string_bytes) < 2 ^ 39 ->
  Runs sz s (sibling_loop (length l) sb size) (l ≫= string_bytes)
    (sb ++ packed l, size + zlen (l ≫= string_bytes)) s.
Proof.
  induction l as [|str l IH]; intros sb size Hs Hl Hb Hz Hb2.
  - change (packed []) with ([] : bytes). cbn [mbind list_bind]. rewrite (zlen_nil (A := Z)), app_nil_r, Z.add_0_r.
    apply Runs_ret.
  - apply Forall_cons in Hl as [Hstr Hl]. rewrite packed_cons, bind_cons in *. rewrite zlen_app in *.
    pose proof (zlen_nonneg (l ≫= string_bytes)). pose proof (zlen_nonneg str).
    destruct (zlen_stored str) as [_ Hst]. pose proof (string_bytes_long str).
    assert (Hsb : zlen (string_bytes str) = 4 + zlen (stored str))
      by (unfold string_bytes; by rewrite zlen_app, zlen_int_bytes).
    assert (Hz1 : zlen (str ++ [0]) = zlen str + 1) by (by rewrite zlen_app, zlen_cons, zlen_nil).
    cbn [length sibling_loop]. read. eapply Runs_then; [by apply Runs_strlen|]. rewrite take_stored.
    eapply Runs_then; [apply Runs_strbuf_add; lia|]. rewrite string_size_ok, u64_small by lia.
    assert (Hz2 : zlen (sb ++ str ++ [0]) = zlen sb + (zlen str + 1)) by (by rewrite zlen_app, Hz1).
    specialize (IH (sb ++ str ++ [0]) (size + zlen (string_bytes str)) Hs Hl). rewrite Hz2 in IH.
    eapply (eq_ind _ (fun v => Runs sz s _ _ v s)); [apply IH; lia|]. f_equal; [|lia].
    by rewrite <- app_assoc.
Qed.

Lemma runs_cpu_loop sz s cpu_nr b map : swapped s -> 0 <= cpu_nr < 2 ^ 31 ->
  Forall (fun c => is_uint 31 (core_id c) /\ (socket_id c = -1 \/ 0 <= socket_id c <= cpu_nr)) map ->
  Runs sz s (cpu_loop (length map) cpu_nr b) (map ≫= topology_bytes) map s.
Proof.
  intros Hs Hn. induction 1 as [|c map [Hc Hsock] Hmap IH]; [apply Runs_ret|]. rewrite bind_cons.
  unfold is_uint in Hc. unfold topology_bytes at 1. rewrite <- app_assoc. cbn [length cpu_loop].
  pose proof (u32_bound (core_id c)). pose proof (u32_bound (socket_id c)). do 2 read.
  rewrite (u32_small cpu_nr) by lia.
  assert (E : b && negb (u32 (socket_id c) =? u32 (-1)) && (cpu_nr <? u32 (socket_id c)) = false).
  { destruct b; [|done]. destruct Hsock as [->|Hk]; [done|]. rewrite u32_small by lia.
    replace (cpu_nr <? socket_id c) with false by lia. by rewrite andb_false_r. }
  rewrite E. eapply Runs_last; [exact IH|]. rewrite (u32_small (core_id c)), (sint32_small (core_id c)) by lia.
  assert (Es : sint 32 (u32 (socket_id c)) = socket_id c).
  { destruct Hsock as [->|Hk]; [done|]. by rewrite u32_small, sint32_small by lia. }
  rewrite Es. destruct c. apply Runs_ret.
Qed.

(** The architecture test reads the name of the machine, if there is one. *)
Lemma runs_s390 sz s a : match a with Some a => is_Some (strncmp_eq a s390) | None => True end ->
  exists b, Runs sz s (match a with Some a => access (strncmp_eq a s390) | None => mret false end) [] b s.
Proof.
  destruct a as [a|]; [|exists false; apply Runs_ret]. intros [b ->]. exists b. apply Runs_access.
Qed.

Lemma zlen_topology map : zlen (map ≫= topology_bytes) = 8 * zlen map.
Proof.
  induction map as [|c map IH]; [done|]. rewrite bind_cons, zlen_app, zlen_cons, IH.
  unfold topology_bytes. rewrite zlen_app, !zlen_int_bytes. lia.
Qed.

Lemma runs_cpu_topology sz s tp map : swapped s -> data_ok (CPU_TOPOLOGY tp map) ->
  target_ok s (CPU_TOPOLOGY tp map) -> zlen (wire (CPU_TOPOLOGY tp map)) <= sz ->
  Runs sz s process_cpu_topology (wire (CPU_TOPOLOGY tp map)) () (store sz (CPU_TOPOLOGY tp map) s).
Proof.
  intros Hs (Hb & Hc & Ht & Hm & Hmap) [Hnr Harch] Hz. cbn [wire store store_env] in *.
  unfold strings_bytes in *. rewrite <- !app_assoc in *. rewrite !zlen_app, !zlen_int_bytes, zlen_topology in *.
  set (cl := core_siblings tp) in *. set (tl := thread_siblings tp) in *.
  assert (Hlong : forall a, 1 <= zlen (string_bytes a)) by (intros a; pose proof (string_bytes_long a); lia).
  pose proof (parts_below string_bytes cl Hlong). pose proof (parts_below string_bytes tl Hlong).
  pose proof (zlen_nonneg cl). pose proof (zlen_nonneg tl). pose proof (zlen_nonneg map).
  assert (0 < zlen map) by (destruct map; [done|rewrite zlen_cons; pose proof (zlen_nonneg map); lia]).
  unfold process_cpu_topology. quiet. rewrite Hnr, to_nat_zlen. replace (0 <=? zlen map) with true by lia.
  eapply Runs_then; [apply Runs_or_free_cpu, Runs_malloc; lia|]. quiet.
  eapply Runs_bind; [apply Runs_or_free_cpu, Runs_u32; [done|unfold is_uint; lia]|]. quiet.
  eapply Runs_then; [apply Runs_or_free_cpu, Runs_malloc; lia|]. rewrite to_nat_zlen.
  eapply Runs_bind; [apply Runs_or_free_cpu, (runs_sibling_loop sz _ cl [] 4); [done|done|rewrite ?(zlen_nil (A := Z)); lia..]|].
  quiet. read. quiet. rewrite to_nat_zlen, (u64_small (4 + zlen (cl ≫= string_bytes) + 4)) by lia.
  eapply Runs_bind; [apply Runs_or_free_cpu, (runs_sibling_loop sz _ tl [] _); [done|done|rewrite ?(zlen_nil (A := Z)); lia..]|].
  quiet. apply Runs_size.
  replace (sz <=? 4 + zlen (cl ≫= string_bytes) + 4 + zlen (tl ≫= string_bytes)) with false by lia. quiet.
  cbn [app]. rewrite !sint32_small by lia.
  match goal with |- Runs _ ?s1 (match ?a with _ => _ end ≫= _) _ _ _ => destruct (runs_s390 sz s1 a Harch) as [b Hr] end.
  eapply Runs_then; [exact Hr|]. rewrite u32_small, to_nat_zlen by lia.
  eapply Runs_last; [apply Runs_or_free_cpu, runs_cpu_loop; [done|lia|done]|]. apply Runs_env.
Qed.

(** ** Nodes, pmus, caches *)

Lemma runs_numa_node sz s n : swapped s -> is_uint 32 (t_node n) -> is_uint 64 (t_mem_total n) ->
  is_uint 64 (t_mem_free n) -> string_ok (t_cpus n) ->
  (exists map, cpu_map__new alloc nprocessors_onln (t_cpus n) = Ok (Some map)) ->
  Runs sz s read_numa_node (node_bytes n) (numa_of n) s.
Proof.
  intros Hs H1 H2 H3 H4 (map & E). unfold read_numa_node, node_bytes, numa_of. rewrite E.
  do 4 read. eapply Runs_then; [by apply Runs_chars|]. rewrite E.
  eapply Runs_then; [apply (Runs_access sz s (Some map))|]. apply Runs_ret.
Qed.

Lemma runs_numa_topology sz s nodes : swapped s -> data_ok (NUMA_TOPOLOGY nodes) ->
  Runs sz s process_numa_topology (wire (NUMA_TOPOLOGY nodes)) () (store sz (NUMA_TOPOLOGY nodes) s).
Proof.
  intros Hs [Hb Hd]. cbn [wire store store_env] in *. rewrite zlen_app, zlen_int_bytes in Hb.
  pose proof (zlen_nonneg nodes).
  assert (zlen nodes <= zlen (nodes ≫= node_bytes)).
  { apply parts_below. intros n. unfold node_bytes. rewrite !zlen_app, !zlen_int_bytes.
    pose proof (zlen_nonneg (string_bytes (t_cpus n))). lia. }
  unfold process_numa_topology. read. quiet. rewrite to_nat_zlen.
  eapply Runs_last.
  { apply Runs_or_return, (Runs_read_list sz s read_numa_node node_bytes numa_of). intros n Hn.
    apply (proj1 (Forall_forall _ _) Hd) in Hn as (? & ? & ? & ? & ?). by apply runs_numa_node. }
  rewrite sint32_small by lia. quiet. apply Runs_env.
Qed.

Lemma runs_pmu_loop sz s l : forall e sb, swapped s -> Forall (fun p => is_uint 32 (fst p) /\ string_ok (snd p)) l ->
  zlen sb + 2 * zlen (l ≫= pmu_bytes) < 2 ^ 39 ->
  Runs sz (set_env e s) (pmu_loop (length l) sb) (l ≫= pmu_bytes) (sb ++ (l ≫= pmu_text))
    (set_env (foldl note_msr e l) s).
Proof.
  induction l as [|[type name] l IH]; intros e sb Hs Hl Hb.
  - cbn [mbind list_bind foldl]. rewrite app_nil_r. apply Runs_ret.
  - apply Forall_cons in Hl as [[Ht Hn] Hl]. rewrite !bind_cons in *. cbn [fst snd] in *. rewrite zlen_app in Hb.
    pose proof (zlen_nonneg (l ≫= pmu_bytes)). pose proof (zlen_nonneg sb). pose proof (zlen_nonneg name).
    destruct (zlen_stored name) as [_ Hst].
    assert (Hp : zlen (pmu_bytes (type, name)) = 8 + zlen (stored name))
      by (unfold pmu_bytes, string_bytes; rewrite !zlen_app, !zlen_int_bytes; cbn [fst snd]; lia).
    assert (Hu : zlen (udec 11 type []) <= 11).
    { pose proof (length_udec 11 type 10 []) as Hu. unfold is_uint in Ht. unfold zlen. cbn [length] in Hu.
      change (10 ^ Z.of_nat 11) with 100000000000 in Hu. lia. }
    unfold pmu_bytes at 1. rewrite <- app_assoc. cbn [fst snd length pmu_loop].
    read. read. eapply Runs_then; [by apply Runs_chars|].
    set (t := udec 11 type [] ++ [58] ++ name).
    assert (Htl : zlen t <= 12 + zlen name) by (unfold t; rewrite !zlen_app, zlen_cons, zlen_nil; lia).
    eapply Runs_then; [apply Runs_strbuf_add; lia|].
    eapply Runs_then; [apply Runs_strbuf_add; rewrite zlen_app, zlen_cons, zlen_nil; lia|].
    eapply (Runs_then sz _ _ _ () (set_env (note_msr e (type, name)) s)).
    { unfold note_msr. cbn [fst snd]. destruct (bool_decide (name = msr)); [apply Runs_env|apply Runs_ret]. }
    assert (Et : (sb ++ t) ++ [0] = sb ++ pmu_text (type, name)).
    { unfold t, pmu_text. cbn [fst snd]. by rewrite <- !app_assoc. }
    assert (Hz : zlen (sb ++ pmu_text (type, name)) <= zlen sb + 13 + zlen name).
    { rewrite <- Et, !zlen_app, zlen_cons, zlen_nil. lia. }
    cbv beta. rewrite Et, app_assoc. cbn [foldl]. apply IH; [done|done|lia].
Qed.

Lemma runs_pmu_mappings sz s pmus : swapped s -> data_ok (PMU_MAPPINGS pmus) ->
  Runs sz s process_pmu_mappings (wire (PMU_MAPPINGS pmus)) () (store sz (PMU_MAPPINGS pmus) s).
Proof.
  intros Hs [Hb Hd]. cbn [wire store store_env] in *. set (l := named pmus) in *.
  rewrite zlen_app, zlen_int_bytes in Hb. pose proof (zlen_nonneg l).
  assert (zlen l <= zlen (l ≫= pmu_bytes)).
  { apply parts_below. intros n. unfold pmu_bytes. rewrite zlen_app, zlen_int_bytes.
    pose proof (zlen_nonneg (string_bytes (snd n))). lia. }
  unfold process_pmu_mappings. read. destruct (Z.eqb_spec (zlen l) 0) as [E|E].
  - destruct l; [|rewrite zlen_cons in *; pose proof (zlen_nonneg l); lia]. rewrite env_id. apply Runs_ret.
  - quiet. quiet. rewrite to_nat_zlen. eapply Runs_last; [apply Runs_or_return, runs_pmu_loop; [done|done|]|].
    { rewrite (zlen_nil (A := Z)). lia. }
    rewrite sint32_small by lia. apply Runs_env.
Qed.

Lemma runs_cache_level sz s c : swapped s -> is_uint 32 (c_level c) -> is_uint 32 (c_line_size c) ->
  is_uint 32 (c_sets c) -> is_uint 32 (c_ways c) -> string_ok (c_type c) -> string_ok (c_size c) ->
  string_ok (c_map c) -> Runs sz s read_cache_level (cache_bytes c) (cache_of c) s.
Proof. intros. unfold read_cache_level, cache_bytes. do 7 read. apply Runs_ret. Qed.

Lemma runs_cache sz s ncpus rd sort : swapped s -> data_ok (CACHE ncpus rd sort) ->
  Runs sz s process_cache (wire (CACHE ncpus rd sort)) () (store sz (CACHE ncpus rd sort) s).
Proof.
  intros Hs (Hb & _ & Hp & Hd). cbn [wire store store_env] in *. set (l := caches_of ncpus rd) in *.
  assert (Hl : zlen l = zlen (sort l)) by (unfold zlen; f_equal; by rewrite (Hp l)).
  rewrite <- (Hp l) in Hd. rewrite Hl in *. set (l' := sort l) in *. clearbody l'.
  rewrite !zlen_app, !zlen_int_bytes in Hb. pose proof (zlen_nonneg l').
  assert (zlen l' <= zlen (l' ≫= cache_bytes)).
  { apply parts_below. intros c. unfold cache_bytes. rewrite zlen_app, zlen_int_bytes.
    match goal with |- _ <= _ + zlen ?x => pose proof (zlen_nonneg x) end. lia. }
  unfold process_cache. read. cbn [Z.eqb Pos.eqb negb]. read. quiet. rewrite to_nat_zlen. eapply Runs_last.
  { apply Runs_or_return, (Runs_read_list sz s read_cache_level cache_bytes cache_of). intros c Hc.
    apply (proj1 (Forall_forall _ _) Hd) in Hc as (? & ? & ? & ? & ? & ? & ?). by apply runs_cache_level. }
  rewrite sint32_small by lia. quiet. apply Runs_env.
Qed.

(** ** Memory nodes and BTF data *)

Lemma runs_memory_loop sz s nodes : forall i size, swapped s -> 0 <= i -> 24 * (i + zlen nodes) <= size ->
  Forall (fun n => is_uint 64 (m_node n) /\ is_uint 31 (m_size n) /\ Forall (is_uint 64) (m_set n) /\
    zlen (m_set n) = BITS_TO_U64 (m_size n)) nodes ->
  Runs sz s (memory_loop (length nodes) i size) (nodes ≫= memory_bytes) nodes s.
Proof.
  induction nodes as [|n nodes IH]; intros i size Hs Hi Hz Hn; [apply Runs_ret|].
  apply Forall_cons in Hn as [(H1 & H2 & H3 & H4) Hn]. rewrite bind_cons, zlen_cons in *.
  pose proof (zlen_nonneg nodes). unfold memory_bytes at 1. rewrite <- !app_assoc. cbn [length memory_loop].
  do 2 read. eapply Runs_bind; [by apply Runs_bitmap|]. replace (24 * (i + 1) <=? size) with true by lia.
  quiet. eapply Runs_last; [apply IH; [done|lia|lia|done]|]. destruct n. apply Runs_ret.
Qed.

Lemma runs_mem_topology sz s bsize nodes : swapped s -> data_ok (MEM_TOPOLOGY bsize nodes) ->
  Runs sz s process_mem_topology (wire (MEM_TOPOLOGY bsize nodes)) () (store sz (MEM_TOPOLOGY bsize nodes) s).
Proof.
  intros Hs (Hb & Hsz & Hd). cbn [wire store store_env] in *. rewrite !zlen_app, !zlen_int_bytes in Hb.
  pose proof (zlen_nonneg nodes).
  assert (zlen nodes <= zlen (nodes ≫= memory_bytes)).
  { apply parts_below. intros c. unfold memory_bytes. rewrite zlen_app, zlen_int_bytes.
    match goal with |- _ <= _ + zlen ?x => pose proof (zlen_nonneg x) end. lia. }
  unfold process_mem_topology. read. cbn [Z.eqb Pos.eqb negb]. read. read. rewrite u64_small by lia.
  quiet. rewrite to_nat_zlen. eapply Runs_last; [apply Runs_or_return, runs_memory_loop; [done|lia|lia|done]|].
  quiet. quiet. rewrite sint32_small by lia. apply Runs_env.
Qed.

Lemma runs_btf_loop sz s l : forall e, swapped s -> zlen (l ≫= btf_bytes) < 2 ^ 31 ->
  Forall (fun n => is_uint 32 (fst n)) l ->
  Runs sz (set_env e s) (btf_loop (length l)) (l ≫= btf_bytes) ()
    (set_env (foldl (fun e n => perf_env__insert_btf (fst n) (snd n) e) e l) s).
Proof.
  induction l as [|[id data] l IH]; intros e Hs Hb Hl; [apply Runs_ret|].
  apply Forall_cons in Hl as [Hid Hl]. rewrite bind_cons in *. rewrite zlen_app in Hb.
  pose proof (zlen_nonneg (l ≫= btf_bytes)). pose proof (zlen_nonneg data). unfold btf_bytes at 1 in Hb.
  rewrite !zlen_app, !zlen_int_bytes in Hb. unfold btf_bytes at 1. cbn [fst snd] in *.
  rewrite <- !app_assoc. cbn [length btf_loop foldl fst snd]. do 2 read. quiet.
  eapply Runs_bind; [by apply Runs_read|]. quiet. apply IH; [done|lia|done].
Qed.

(** Every reader, on the section that the writer stores. *)
Lemma runs_feature sz s d : swapped s -> data_ok d -> target_ok s d -> zlen (wire d) <= sz < 2 ^ 32 ->
  Runs sz s (process_feature d) (wire d) () (store sz d s).
Proof.
  intros Hs Hd Ht Hz. destruct d; cbn [process_feature];
    try (by apply runs_str; [done|apply Hd]);
    try (by apply runs_cpu_topology; try lia);
    try (by apply runs_numa_topology); try (by apply runs_pmu_mappings);
    try (by apply runs_cache); try (by apply runs_mem_topology);
    try (by apply runs_cmdline; [done|apply Hd|lia|apply Hd]); destruct Hd as [Hb Hd]; cbn [wire store store_env] in *.
  - destruct Hd as [H1 H2]. unfold is_uint in *. unfold process_nrcpus. do 2 read.
    rewrite !sint32_small by lia. quiet. apply Runs_env.
  - destruct Hd as (v & -> & Hv). by apply runs_str.
  - destruct Hd as (v & -> & Hv). unfold process_total_mem. read. apply Runs_mod_env.
  - rewrite env_id. apply Runs_ret.
  - rewrite env_id. apply Runs_ret.
  - destruct Hd as [H1 H2]. unfold process_sample_time. do 2 read. apply Runs_mod_ph.
  - unfold process_clockid. read. apply Runs_mod_env.
  - destruct Ht as [v Hv]. unfold process_dir_format. quiet. rewrite Hv. quiet. read. apply Runs_mod_ph.
  - destruct Hd as [He Hl]. unfold process_bpf_btf. quiet. rewrite Hs, He. rewrite zlen_app, zlen_int_bytes in Hb.
    pose proof (zlen_nonneg btfs). assert (zlen btfs <= zlen (btfs ≫= btf_bytes)).
    { apply parts_below. intros c. unfold btf_bytes. rewrite zlen_app, zlen_int_bytes.
      match goal with |- _ <= _ + zlen ?x => pose proof (zlen_nonneg x) end. lia. }
    read. rewrite to_nat_zlen. apply Runs_or_return. rewrite <- (env_id s) at 1. apply runs_btf_loop; [done|lia|done].
Qed.

End Reading.

(** * Sections that were written and are read *)

Section Roundtrip.
Context `{KernelOk}.

(** A struct feat_fd that reads, into the session [s], what was written between
    the states [ff] and [ff'] of another one: of a file the section with its size,
    of a buffer its part up to the last offset. *)
Definition reader_of (s : session) (ff ff' : feat_fd) : feat_fd :=
  match ff_buf ff' with
  | None => FeatFd (Some s) (File (f_data (ff_fd ff')) (f_pos (ff_fd ff))) None 0
              (f_pos (ff_fd ff') - f_pos (ff_fd ff)) None
  | Some m => FeatFd (Some s) (ff_fd ff') (Some m) (ff_offset ff) (ff_offset ff') None
  end.

Definition position (ff : feat_fd) : Z :=
  match ff_buf ff with None => f_pos (ff_fd ff) | Some _ => ff_offset ff end.

Lemma drop_append bs f : 0 <= f_pos f ->
  drop (Z.to_nat (f_pos f)) (f_data (append bs f)) = bs ++ drop (Z.to_nat (f_pos f) + length bs) (f_data f).
Proof.
  intros Hp. destruct bs as [|b bs]; [cbn; by rewrite Nat.add_0_r|]. unfold append. cbn [f_data].
  unfold write_at. pose proof (length_before (f_data f) (f_pos f) Hp) as Hl.
  by rewrite drop_app_ge, Hl, Nat.sub_diag by lia.
Qed.

Lemma reader_of_ok s ff bs ff' : sink_ok ff -> wrote ff bs ff' ->
  let rd := reader_of s ff ff' in
  src_ok rd /\ ff_ph rd = Some s /\ (exists rest, input rd = bs ++ rest) /\
  zlen bs <= ff_size rd <= Z.max (zlen bs) (position ff') /\
  position ff' = position ff + zlen bs /\ position rd = position ff.
Proof.
  intros Hs Hw rd. unfold sink_ok, wrote in *. pose proof (zlen_nonneg bs). subst rd.
  destruct (ff_buf ff) as [m|] eqn:Eb; unfold position; rewrite Eb.
  - destruct Hw as (m' & sz' & -> & Ht & Hm & _). unfold reader_of. cbn [put_buf ff_buf ff_offset ff_size ff_ph ff_fd].
    unfold src_ok, input. cbn [ff_buf ff_offset ff_size]. split; [lia|]. split; [done|]. split; [|lia].
    exists []. rewrite app_nil_r. apply (f_equal (drop (Z.to_nat (ff_offset ff)))) in Ht.
    rewrite drop_app_ge, length_take in Ht by (rewrite length_take; unfold zlen in *; lia).
    rewrite take_drop_commute. replace (Z.to_nat (ff_offset ff) + Z.to_nat (ff_offset ff + zlen bs - ff_offset ff))%nat
      with (Z.to_nat (ff_offset ff + zlen bs)) by lia.
    rewrite Ht. replace (Z.to_nat (ff_offset ff) - _)%nat with O by (unfold zlen in *; lia). done.
  - subst ff'. unfold reader_of. cbn [put_fd ff_buf ff_fd]. rewrite Eb. unfold src_ok, input.
    cbn [ff_buf ff_offset ff_size ff_fd f_pos f_data ff_ph]. rewrite append_pos. split; [lia|]. split; [done|].
    split; [|lia]. eexists. apply drop_append. lia.
Qed.

Lemma source_ph s d : source_ok s d -> ph_ok (Some s) d.
Proof. intros Hs. destruct d; try done; by exists s. Qed.

Lemma emits_feature_room ph d : data_ok d -> ph_ok ph d -> EmitsRoom ph (write_feature d) (wire d).
Proof.
  intros Hd Hs. destruct d; try (by apply Emits_room, emits_feature).
  destruct Hd as (Hb & Hc & Ht & _). by apply emits_topology.
Qed.

(** What a writer stores, a reader of that form reads back. *)
Lemma section_roundtrip {A B} bs (w : FM A) (r : FM B) v sw s (st : Z -> session) ff :
  EmitsRoom (Some sw) w bs -> (forall sz, zlen bs <= sz < 2 ^ 32 -> Runs sz s r bs v (st sz)) -> zlen bs < 2 ^ 31 ->
  sink_ok ff -> ff_ph ff = Some sw -> room ff (zlen bs) ->
  exists a ff' rd', w ff = Done a ff' /\ r (reader_of s ff ff') = Done v rd' /\
    ff_ph rd' = Some (st (ff_size (reader_of s ff ff'))) /\ position rd' = position ff'.
Proof.
  intros Hw Hr Hb Hk Hp Hroom. destruct (Hw ff Hk Hp Hroom) as (a & ff' & E & Hwr).
  destruct (reader_of_ok s ff bs ff' Hk Hwr) as (Hsrc & Hph & (rest & Hi) & Hz & Hpos & Hpos').
  assert (Hlt : ff_size (reader_of s ff ff') < 2 ^ 32).
  { clear -Hz Hb Hwr Hroom Hk Hpos. unfold wrote, room, sink_ok in *. destruct (ff_buf ff) as [m|] eqn:Eb.
    - destruct Hwr as (m' & sz' & -> & _). unfold position, reader_of in *. cbn in *. rewrite Eb in *.
      unfold max_size in *. lia.
    - subst ff'. unfold reader_of in *. cbn in *. rewrite Eb in *. cbn in *. rewrite append_pos in *. lia. }
  eexists a, ff', _. split; [done|].
  split; [exact (Hr _ (conj (proj1 Hz) Hlt) _ rest Hsrc Hph eq_refl Hi)|].
  split; [done|]. rewrite Hpos, <- Hpos'. unfold position, skip.
  by destruct (ff_buf (reader_of s ff ff')) eqn:Er; cbn; rewrite ?Er.
Qed.

(** C13: Feature sections survive the header: what write_feature (the feat_ops entries
    write_hostname, write_nrcpus, write_cmdline, write_cpu_topology,
    write_numa_topology, write_pmu_mappings, write_cache, write_mem_topology,
    write_bpf_btf and so on; all features with a writer of data but EVENT_DESC,
    GROUP_DESC, TRACING_DATA, BUILD_ID, AUXTRACE and BPF_PROG_INFO) stores, in a file or
    in the buffer of a record, on a machine of either byte order (BPF_BTF only on a
    little endian one, since the reader skips foreign BTF), is what the matching
    process_* operation reads back into the session; it stops exactly at the end of the
    section.  The data is well formed ([data_ok]: a section below 2^31 bytes, members in
    the range of their fields, strings without a zero byte, cpu lists that parse, socket
    ids -1 or at most the number of cpus, core ids and bitmap sizes below 2^31), the
    writing session has what the writer takes from it ([source_ok]), the reading one
    knows the number of cpus before the topology and has a directory for DIR_FORMAT
    ([target_ok]), and there is room and memory. *)
Theorem feature_roundtrip d sw s ff : data_ok d -> source_ok sw d -> target_ok s d -> swapped s ->
  sink_ok ff -> ff_ph ff = Some sw -> room ff (zlen (wire d)) ->
  exists a ff' rd', write_feature d ff = Done a ff' /\ process_feature d (reader_of s ff ff') = Done () rd' /\
    ff_ph rd' = Some (store (ff_size (reader_of s ff ff')) d s) /\ position rd' = position ff'.
Proof.
  intros Hd Hsw Ht Hs Hk Hp Hr.
  apply (section_roundtrip (wire d) _ _ _ sw s (fun sz => store sz d s)); [by apply emits_feature_room, source_ph| |apply Hd|done..].
  intros sz Hz. by apply runs_feature.
Qed.


End Roundtrip.

(** * Readers on input that nobody vouches for *)

Section Safety.
Context `{KernelOk}.

Definition source (ff : feat_fd) : bytes := match ff_buf ff with None => f_data (ff_fd ff) | Some m => m end.

(** A source of bytes, whatever they are, and a session to fill. *)
Definition fed (ff : feat_fd) : Prop := src_ok ff /\ is_Some (ff_ph ff) /\ bytes_ok (source ff).

(** [r] stays within the memory and ends, with a value that satisfies [P] or with
    an error, and what it leaves can be read further. *)
Definition Safe {A} (r : FM A) (P : A -> Prop) : Prop := forall ff, fed ff ->
  match r ff with
  | Done a ff' => P a /\ fed ff'
  | Fail _ ff' => fed ff'
  | Fault | Hang => False
  end.

Lemma Safe_ret {A} (a : A) (P : A -> Prop) : P a -> Safe (mret a) P.
Proof. by intros Ha ff Hf. Qed.

Lemma Safe_fail {A} e (P : A -> Prop) : Safe (fail e) P.
Proof. by intros ff Hf. Qed.

Lemma Safe_bind {A B} (r : FM A) (k : A -> FM B) P Q :
  Safe r P -> (forall a, P a -> Safe (k a) Q) -> Safe (r ≫= k) Q.
Proof.
  intros Hr Hk ff Hf. specialize (Hr ff Hf). unfold mbind, FM_bind.
  destruct (r ff) as [a ff'|e ff'| |]; try done. destruct Hr as [Ha Hf']. exact (Hk a Ha ff' Hf').
Qed.

Lemma Safe_weaken {A} (r : FM A) (P Q : A -> Prop) : Safe r P -> (forall a, P a -> Q a) -> Safe r Q.
Proof.
  intros Hr HPQ ff Hf. specialize (Hr ff Hf). destruct (r ff); try done. destruct Hr. split; [by apply HPQ|done].
Qed.

Lemma Safe_or_return {A} e (r : FM A) P : Safe r P -> Safe (or_return e r) P.
Proof. intros Hr ff Hf. specialize (Hr ff Hf). unfold or_return. by destruct (r ff). Qed.

Lemma Safe_try {A} (r : FM A) P : Safe r P -> Safe (try r) (fun _ => True).
Proof. intros Hr ff Hf. specialize (Hr ff Hf). unfold try. destruct (r ff); tauto. Qed.

Lemma Safe_get_ph : Safe get_ph (fun _ => True).
Proof. intros ff Hf. pose proof Hf as (_ & [s Es] & _). unfold get_ph. by rewrite Es. Qed.

Lemma Safe_mod_ph g : Safe (mod_ph g) (fun _ => True).
Proof.
  intros ff (H1 & [s Hs] & H3). unfold mod_ph. rewrite Hs. split; [done|]. unfold fed in *. split; [done|].
  split; [by eexists|done].
Qed.

Lemma Safe_mod_env g : Safe (mod_env g) (fun _ => True).
Proof. apply Safe_mod_ph. Qed.

Lemma Safe_malloc n e : Safe (malloc n e) (fun _ => alloc n = true).
Proof. unfold malloc. destruct (alloc n) eqn:E; [by apply Safe_ret|apply Safe_fail]. Qed.

Lemma bytes_ok_take n (l : bytes) : bytes_ok l -> bytes_ok (take n l).
Proof. apply Forall_take. Qed.
Lemma bytes_ok_drop n (l : bytes) : bytes_ok l -> bytes_ok (drop n l).
Proof. apply Forall_drop. Qed.

Lemma Safe_read n : 0 <= n -> Safe (__do_read n) (fun bs => zlen bs = n /\ bytes_ok bs).
Proof.
  intros Hn ff Hf. pose proof Hf as (Hs & [s Ep] & Hb). unfold __do_read, src_ok, source in *.
  destruct (ff_buf ff) as [m|] eqn:Eb.
  - unfold __do_read_buf. destruct (n >? ff_size ff - ff_offset ff) eqn:E; [done|]. rewrite Eb. mred.
    rewrite rdn_in by lia. unfold fed, src_ok, source. cbn.
    split; [split; [|by apply bytes_ok_take, bytes_ok_drop]|split; [lia|by rewrite Ep]].
    unfold zlen in *. rewrite length_take, length_drop. lia.
  - unfold __do_read_fd. rewrite readn_ok by done. cbv zeta. set (av := drop _ _).
    pose proof (zlen_nonneg av). destruct (Z.leb_spec n (zlen av)).
    + rewrite Z.eqb_refl. cbn. unfold fed, src_ok, source. cbn. rewrite Eb.
      split; [split; [|by apply bytes_ok_take, bytes_ok_drop]|split; [lia|by rewrite Ep]].
      unfold zlen in *. rewrite length_take. lia.
    + replace (0 =? n) with false by lia. cbn. unfold fed, src_ok, source. cbn. rewrite Eb.
      split; [lia|by rewrite Ep].
Qed.

Lemma Safe_int n : Safe (do_read_int n) (fun v => 0 <= v < 256 ^ Z.of_nat n).
Proof.
  unfold do_read_int. eapply Safe_bind; [apply Safe_read; lia|]. intros bs [Hz Hb].
  eapply Safe_bind; [apply Safe_get_ph|]. intros s _. apply Safe_ret.
  destruct (s_needs_swap s); [apply bswap_bound|]. rewrite <- Hz. by apply le_val_bound.
Qed.

Lemma Safe_u32 : Safe do_read_u32 (is_uint 32).
Proof. exact (Safe_int 4). Qed.
Lemma Safe_u64 : Safe do_read_u64 (is_uint 64).
Proof. exact (Safe_int 8). Qed.

Lemma Safe_string : Safe do_read_string bytes_ok.
Proof.
  unfold do_read_string. eapply Safe_bind; [apply Safe_u32|]. intros len Hl.
  eapply Safe_bind; [apply Safe_malloc|]. intros _ _. unfold is_uint in Hl.
  eapply Safe_weaken; [apply Safe_read; lia|]. by intros bs [_ Hb].
Qed.

Lemma Safe_read_list {A} n (r : FM A) P : Safe r P -> Safe (read_list n r) (Forall P).
Proof.
  intros Hr. induction n as [|n IH]; [by apply Safe_ret|]. cbn [read_list].
  eapply Safe_bind; [exact Hr|]. intros a Ha. eapply Safe_bind; [exact IH|]. intros l Hl. apply Safe_ret. by constructor.
Qed.

Ltac safe := repeat lazymatch goal with
    | |- forall _, _ => intros ?
    | |- Safe (fail _) _ => apply Safe_fail
    | |- Safe (or_return _ _ ≫= _) _ => eapply Safe_bind; [apply Safe_or_return|]
    | |- Safe (_ ≫= _) _ => eapply Safe_bind
    | |- Safe do_read_u32 _ => apply Safe_u32
    | |- Safe do_read_u64 _ => apply Safe_u64
    | |- Safe do_read_string _ => apply Safe_string
    | |- Safe get_ph _ => apply Safe_get_ph
    | |- Safe (mod_env _) _ => apply Safe_mod_env
    | |- Safe (mod_ph _) _ => apply Safe_mod_ph
    | |- Safe (malloc _ _) _ => apply Safe_malloc
    | |- Safe (mret _) _ => by apply (Safe_ret _ (fun _ => True))
    end.

Lemma safe_str field : Safe (process_str field) (fun _ => True).
Proof. unfold process_str. eapply Safe_bind; [apply (Safe_try _ _ Safe_string)|]. intros [str|] _; safe. Qed.

Lemma safe_cache_level : Safe read_cache_level (fun _ => True).
Proof. unfold read_cache_level. safe. Qed.

Lemma safe_btf_loop n : Safe (btf_loop n) (fun _ => True).
Proof.
  induction n as [|n IH]; [by apply Safe_ret|]. cbn [btf_loop].
  eapply Safe_bind; [apply Safe_u32|]. intros id _. eapply Safe_bind; [apply Safe_u32|]. intros sz Hsz.
  eapply Safe_bind; [apply Safe_malloc|]. intros _ _. unfold is_uint in Hsz.
  eapply Safe_bind; [apply Safe_read; lia|]. intros data _. eapply Safe_bind; [apply Safe_mod_env|]. intros _ _. exact IH.
Qed.

(** The readers that neither look for the end of a string nor compute the size of
    an array in a machine integer. *)
Definition plain (d : feature) : bool :=
  match d with
  | CMDLINE _ _ | CPU_TOPOLOGY _ _ | NUMA_TOPOLOGY _ | PMU_MAPPINGS _ | MEM_TOPOLOGY _ _ => false
  | _ => true
  end.


End Safety.

(** * Readers that leave the memory *)

Section Crashing.
Context `{KernelOk}.

(** On input that starts with [bs], [r] leaves the memory. *)
Definition Crashes {A} (sz : Z) (s : session) (r : FM A) (bs : bytes) : Prop :=
  forall ff rest, src_ok ff -> ff_ph ff = Some s -> ff_size ff = sz -> input ff = bs ++ rest -> r ff = Fault.

Lemma Crashes_fault {A} sz s : Crashes sz s (fault : FM A) [].
Proof. done. Qed.

Lemma Crashes_here {A B} sz s (r : FM A) (k : A -> FM B) b : Crashes sz s r b -> Crashes sz s (r ≫= k) b.
Proof. intros Hr ff rest Hs Hp Hz Hi. unfold mbind, FM_bind. by rewrite (Hr ff rest). Qed.

Lemma Crashes_or_return {A} sz s (r : FM A) e b : Crashes sz s r b -> Crashes sz s (or_return e r) b.
Proof. intros Hr ff rest Hs Hp Hz Hi. unfold or_return. by rewrite (Hr ff rest). Qed.

Lemma Crashes_bind {A B} sz s (r : FM A) (k : A -> FM B) a v s1 b :
  Runs sz s r a v s1 -> Crashes sz s1 (k v) b -> Crashes sz s (r ≫= k) (a ++ b).
Proof.
  intros H1 H2 ff rest Hs Hp Hz Hi. rewrite <- app_assoc in Hi. unfold mbind, FM_bind.
  rewrite (H1 ff (b ++ rest)) by done.
  destruct (skip_src ff a (b ++ rest) (Some s1) Hs Hi) as (Hs' & Hi' & Hp' & Hz').
  by rewrite (H2 _ rest) by congruence.
Qed.

Lemma Crashes_then {A B} sz s (r : FM A) (k : A -> FM B) v s1 b :
  Runs sz s r [] v s1 -> Crashes sz s1 (k v) b -> Crashes sz s (r ≫= k) b.
Proof. intros H1 H2. change b with ([] ++ b). by eapply Crashes_bind. Qed.

(** The size of the array of memory nodes wraps around: with 2^61 nodes it is zero,
    and the first node is stored outside. *)
Theorem mem_topology_overflows sz s bsize node size : swapped s -> is_uint 64 bsize -> is_uint 64 node ->
  is_uint 64 size ->
  Crashes sz s process_mem_topology (int_bytes 8 1 ++ int_bytes 8 bsize ++ int_bytes 8 (2 ^ 61) ++
    int_bytes 8 node ++ int_bytes 8 size ++ bitmap_bytes [] 0 ++ []).
Proof.
  intros Hs Hb Hn Hsz. unfold process_mem_topology.
  eapply Crashes_bind; [apply Runs_or_return, Runs_u64; [done|unfold is_uint; lia]|]. cbn [Z.eqb Pos.eqb negb].
  eapply Crashes_bind; [by apply Runs_or_return, Runs_u64|].
  eapply Crashes_bind; [apply Runs_or_return, Runs_u64; [done|unfold is_uint; lia]|].
  change (24 *64 2 ^ 61) with 0. eapply Crashes_then; [apply Runs_malloc; lia|].
  apply Crashes_here, Crashes_or_return. destruct (Z.to_nat (2 ^ 61)) as [|n] eqn:En; [lia|].
  cbn [memory_loop]. clear En. eapply Crashes_bind; [by apply Runs_u64|]. eapply Crashes_bind; [by apply Runs_u64|].
  eapply Crashes_bind; [apply Runs_bitmap; [done|unfold is_uint; lia|constructor|done]|].
  cbn. apply Crashes_here, Crashes_fault.
Qed.

(** The size of a bitmap is cut to an int when its array is allocated: with 2^32 bits
    the array is empty, and the first word is stored outside. *)
Theorem bitmap_overflows sz s w : swapped s -> is_uint 64 w ->
  Crashes sz s do_read_bitmap (int_bytes 8 (2 ^ 32) ++ int_bytes 8 w ++ []).
Proof.
  intros Hs Hw. unfold do_read_bitmap.
  eapply Crashes_bind; [apply Runs_u64; [done|unfold is_uint; lia]|].
  change (BITS_TO_U64 (u64 (sint 32 (2 ^ 32)))) with 0. eapply Crashes_then; [apply Runs_malloc; vm_compute; done|].
  change (BITS_TO_U64 (2 ^ 32)) with (2 ^ 26). apply Crashes_here.
  destruct (Z.to_nat (2 ^ 26)) as [|n] eqn:En; [lia|].
  cbn [read_words]. clear En. eapply Crashes_bind; [by apply Runs_u64|].
  cbn [Z.ltb Z.compare]. apply Crashes_here, Crashes_fault.
Qed.

(** The number of pointers wraps around: with 2^32 - 1 arguments there is no array
    for them, and the first argument is stored outside. *)
Theorem cmdline_overflows sz s str : swapped s -> string_ok str -> 0 <= sz < 2 ^ 32 ->
  Crashes sz s process_cmdline (int_bytes 4 (2 ^ 32 - 1) ++ string_bytes str ++ []).
Proof.
  intros Hs Hstr Hz. unfold process_cmdline.
  eapply Crashes_bind; [apply Runs_or_return, Runs_u32; [done|unfold is_uint; lia]|].
  eapply Crashes_then; [apply Runs_mod_env|].
  eapply (Crashes_then sz _ get_size _ sz); [apply Runs_same; intros ff Hp <-; by destruct ff; cbn in *; subst|].
  change (u32 (2 ^ 32 - 1 + 1)) with 0. eapply Crashes_then; [apply Runs_malloc; lia|].
  eapply Crashes_then; [apply Runs_malloc; lia|]. apply Crashes_here, Crashes_or_return.
  destruct (Z.to_nat (2 ^ 32 - 1)) as [|n] eqn:En; [lia|]. cbn [cmdline_loop]. clear En.
  eapply Crashes_bind; [by apply Runs_string|]. cbn. apply Crashes_here, Crashes_fault.
Qed.

(** A name of a pmu without a terminator is read past its end. *)
Theorem pmu_name_overread sz s type (str : bytes) : swapped s -> is_uint 32 type -> zlen str < 2 ^ 31 ->
  Forall (fun b => b <> 0) str ->
  Crashes sz s process_pmu_mappings
    (int_bytes 4 1 ++ int_bytes 4 type ++ (int_bytes 4 (zlen str) ++ str) ++ []).
Proof.
  intros Hs Ht Hz Hn. pose proof (zlen_nonneg str). unfold process_pmu_mappings.
  eapply Crashes_bind; [apply Runs_or_return, Runs_u32; [done|unfold is_uint; lia]|]. cbn [Z.eqb].
  eapply Crashes_then; [apply Runs_mod_env|]. eapply Crashes_then; [apply Runs_malloc; lia|].
  apply Crashes_here, Crashes_or_return. change (Z.to_nat 1) with 1%nat. cbn [pmu_loop].
  eapply Crashes_bind; [by apply Runs_u32|]. eapply Crashes_bind; [|].
  { unfold do_read_string. eapply Runs_bind; [apply Runs_u32; [done|unfold is_uint; lia]|].
    eapply Runs_then; [apply Runs_malloc; lia|]. by apply Runs_read. }
  apply Crashes_here. unfold chars. apply Crashes_here. unfold strlen_of.
  assert (E : strlen_list str = None); [|by rewrite E].
  clear -Hn. induction Hn as [|b str Hb Hn IH]; [done|]. cbn [strlen_list].
  replace (b =? 0) with false by lia. by rewrite IH.
Qed.

End Crashing.

(** Without a number in its line of /proc/meminfo, write_total_mem stores nothing
    and reports no error, and a section without its value cannot be read. *)
Theorem total_mem_unwritten `{Kernel} meminfo buf ff : line_of meminfo MemTotal = Some buf -> scan_mem buf = None ->
  write_total_mem (Some meminfo) ff = Done () ff.
Proof.
  unfold line_of, write_total_mem. destruct (list_find _ meminfo) as [[i b]|] eqn:E; [|done].
  cbn. intros [= ->] Hs. unfold mbind, FM_bind, mret, FM_ret. by rewrite E, Hs.
Qed.

(** * Examples *)

Module HeaderFeatExamples.

(** A machine that moves at most five bytes with one system call. *)
Definition machine (big : bool) (limit : Z) : Kernel := {|
  xfer n := Z.min n 5; file_limit := limit; alloc n := true; big_endian := big; nprocessors_onln := 4
|}.

Lemma machine_ok big limit : KernelOk (H := machine big limit).
Proof. split; cbn; intros; [lia|done]. Qed.

Definition no_env : perf_env := Env (fun _ => None) (fun _ => 0) [] None [] [] [] [].
Definition blank (swap : bool) (env : perf_env) : session :=
  MkSession swap 2 0 0 0 0 env [] 0 0 0 false None.
Definition to_file (s : session) (data : bytes) : feat_fd := FeatFd (Some s) (File data (zlen data)) None 0 0 None.

(** perf record -a *)
Definition perf : cstr := [112; 101; 114; 102].
Definition args : list cstr := [[114; 101; 99; 111; 114; 100]; [45; 97]].
Definition cmd : feature := CMDLINE perf args.

Lemma feature_roundtrip_witness : exists a ff' rd',
  write_feature (H := machine true 1000) cmd (to_file (blank false no_env) [1; 2; 3]) = Done a ff' /\
  process_feature (H := machine true 1000) cmd
    (reader_of (blank true no_env) (to_file (blank false no_env) [1; 2; 3]) ff') = Done () rd' /\
  ff_ph rd' = Some (store (H := machine true 1000)
    (ff_size (reader_of (blank true no_env) (to_file (blank false no_env) [1; 2; 3]) ff')) cmd (blank true no_env)) /\
  position rd' = position ff'.
Proof.
  pose proof (machine_ok true 1000).
  apply (feature_roundtrip (H := machine true 1000) cmd (blank false no_env) (blank true no_env)).
  - split; [vm_compute; done|]. repeat constructor; try done; vm_compute; done.
  - done.
  - done.
  - done.
  - vm_compute. split; intros; discriminate.
  - done.
  - vm_compute. intros; discriminate.
Defined.



(** The record is almost full: the thread siblings do not fit behind their number,
    the ids of the cpu do, and write_cpu_topology reports success. *)
Definition full_record : feat_fd :=
  FeatFd (Some (blank false no_env)) (File [] 0) (Some (zeros max_size)) (max_size - 30) max_size None.

Theorem topology_error_lost :
  let tp := CpuTopology [] [[48]] in let map := [TopologyMap 0 0] in
  exists ff', write_cpu_topology (H := machine false 0) (Some tp) (Some map) full_record = Done () ff' /\
    ff_offset ff' <> ff_offset full_record + zlen (wire (H := machine false 0) (CPU_TOPOLOGY tp map)).
Proof.
  intros tp map. set (w := write_cpu_topology _ _ _).
  assert (E : match w with
              | Done _ ff' => ff_offset ff' =? max_size - 8
              | _ => false
              end = true) by (vm_compute; reflexivity).
  destruct w as [[] ff'| | |]; try discriminate. exists ff'. split; [done|].
  apply Z.eqb_eq in E. rewrite E. vm_compute. discriminate.
Qed.

End HeaderFeatExamples.
