(* ===== verification/HeaderDesc.v ===== *)
(** The event descriptions and the group descriptions of util/header.c
    (write_event_desc, read_event_desc, process_event_desc, write_group_desc,
    process_group_desc, which HeaderFeat.v models): what is read back is what was
    written, and the groups of events are rebuilt. *)

From S2P Require Import Prelude Sample Strings SessionSwap Cpumap FeatFd HeaderFeat.

(** The events of a list have the indices [pos], [pos + 1] and so on. *)
Fixpoint indexed (pos : Z) (l : list header_evsel) : Prop :=
  match l with
  | [] => True
  | e :: l => he_idx e = pos /\ indexed (pos + 1) l
  end.

Lemma indexed_app pos a b : indexed pos (a ++ b) <-> indexed pos a /\ indexed (pos + zlen a) b.
Proof.
  revert pos. induction a as [|e a IH]; intros pos; cbn [app indexed].
  - rewrite (zlen_nil (A := header_evsel)), Z.add_0_r. tauto.
  - rewrite IH, zlen_cons. replace (pos + (1 + zlen a)) with (pos + 1 + zlen a) by lia. tauto.
Qed.

Lemma indexed_bounds pos l e : indexed pos l -> e ∈ l -> pos <= he_idx e < pos + zlen l.
Proof.
  revert pos. induction l as [|x l IH]; intros pos; [by intros _ ?%not_elem_of_nil|].
  intros [Hx Hl]. rewrite zlen_cons. pose proof (zlen_nonneg l). intros [->|He]%elem_of_cons; [lia|].
  specialize (IH (pos + 1) Hl He). lia.
Qed.

(** The event with an index is the one at that place. *)
Lemma find_indexed l e r : indexed 0 (l ++ e :: r) ->
  perf_evlist__find_by_index (l ++ e :: r) (zlen l) = Some (length l).
Proof.
  intros Hi. apply indexed_app in Hi as [Hl [He _]]. unfold perf_evlist__find_by_index.
  rewrite list_find_app_r.
  - cbn [list_find]. rewrite decide_True by (rewrite He; lia). done.
  - apply list_find_None, Forall_forall. intros x Hx Ex. pose proof (indexed_bounds 0 l x Hl Hx). lia.
Qed.

(** * Event descriptions *)

Section EventDesc.
Context `{KernelOk}.
(** The attribute of an event as it lies in the memory of the writer and of the
    reader, and its name. *)
Context (attr native : header_evsel -> bytes) (name : header_evsel -> cstr) (sizeof_evsel : Z).

Definition event_bytes (e : header_evsel) : bytes :=
  attr e ++ int_bytes 4 (zlen (he_ids e)) ++ string_bytes (name e) ++ (he_ids e ≫= int_bytes 8).
Definition event_desc_bytes (l : list header_evsel) : bytes :=
  int_bytes 4 (zlen l) ++ int_bytes 4 sizeof_attr ++ (l ≫= event_bytes).

(** Attributes that perf_event__attr_swap makes native where it has to. *)
Definition event_ok (e : header_evsel) : Prop :=
  zlen (attr e) = sizeof_attr /\ zlen (native e) = sizeof_attr /\
  (if big_endian then perf_event__attr_swap 0 (attr e) = Ok (native e) else native e = attr e) /\
  string_ok (name e) /\ Forall (is_uint 64) (he_ids e).

Lemma emits_event_desc ph l : Forall event_ok l ->
  Emits ph (write_event_desc attr name l) (event_desc_bytes l).
Proof.
  intros Hl. unfold write_event_desc, event_desc_bytes. do 2 (apply Emits_seq; [apply Emits_u32|]).
  apply Emits_for_each. intros e He. apply (proj1 (Forall_forall _ _) Hl) in He as (_ & _ & _ & Hs & _).
  unfold write_event, event_bytes. apply Emits_seq; [apply Emits_write|]. apply Emits_seq; [apply Emits_u32|].
  apply Emits_seq; [by apply Emits_string|]. apply Emits_write.
Qed.

(** The event as the description gives it. *)
Definition described (i : Z) (e : header_evsel) : header_evsel :=
  HeaderEvsel (native e) (he_ids e) (Some (stored (name e))) i 0 None 0 big_endian.
Fixpoint all_described (i : Z) (l : list header_evsel) : list header_evsel :=
  match l with
  | [] => []
  | e :: l => described i e :: all_described (i + 1) l
  end.

Lemma runs_ids sz s ids : swapped s -> Forall (is_uint 64) ids -> zlen ids < 2 ^ 32 ->
  Runs sz s (read_ids (zlen ids)) (ids ≫= int_bytes 8) ids s.
Proof.
  intros Hs Hi Hz. pose proof (zlen_nonneg ids). unfold read_ids. destruct (Z.eqb_spec (zlen ids) 0) as [E|E].
  - destruct ids; [apply Runs_ret|rewrite zlen_cons in E; pose proof (zlen_nonneg ids); lia].
  - eapply Runs_then; [apply Runs_malloc; lia|]. rewrite to_nat_zlen. rewrite <- (list_fmap_id ids) at 3.
    apply (Runs_read_list sz s do_read_u64 (int_bytes 8) id). intros v Hv.
    by apply Runs_u64; [|apply (proj1 (Forall_forall _ _) Hi)].
Qed.

Lemma zlen_ids (ids : list Z) : zlen (ids ≫= int_bytes 8) = 8 * zlen ids.
Proof. induction ids as [|v ids IH]; [done|]. rewrite bind_cons, zlen_app, zlen_cons, IH, zlen_int_bytes. lia. Qed.

Lemma runs_event sz s e cap i : swapped s -> event_ok e -> zlen (event_bytes e) < 2 ^ 32 -> i < cap ->
  Runs sz s (read_event sizeof_attr cap i) (event_bytes e) (described i e) s.
Proof.
  intros Hs (Ha & Hn & Hsw & Hstr & Hids) Hz Hi. unfold read_event, event_bytes in *.
  rewrite !zlen_app, zlen_ids in Hz. pose proof (zlen_nonneg (he_ids e)). pose proof (zlen_nonneg (attr e)).
  pose proof (zlen_nonneg (int_bytes 4 (zlen (he_ids e)))). pose proof (zlen_nonneg (string_bytes (name e))).
  replace (i <? cap) with true by lia. eapply Runs_then; [apply Runs_ret|].
  eapply Runs_bind; [by apply Runs_read|]. eapply Runs_then; [apply Runs_get_ph|].
  eapply (Runs_then sz s _ _ (native e) s).
  { rewrite Hs. destruct big_endian; [rewrite Hsw; apply (Runs_access sz s (native e))|rewrite Hsw; apply Runs_ret]. }
  cbv beta zeta. rewrite Z.min_id, take_ge by (unfold zlen in *; lia). rewrite Z.sub_diag.
  change (zeros 0) with ([] : bytes). rewrite app_nil_r.
  eapply Runs_bind; [apply Runs_u32; [done|unfold is_uint; lia]|]. eapply Runs_bind; [by apply Runs_string|].
  eapply Runs_last; [apply runs_ids; [done|done|lia]|]. rewrite Hs. apply Runs_ret.
Qed.

Lemma runs_events sz s l : forall cap i, swapped s -> Forall event_ok l -> zlen (l ≫= event_bytes) < 2 ^ 32 ->
  i + zlen l <= cap ->
  Runs sz s (read_events (length l) sizeof_attr cap i) (l ≫= event_bytes) (all_described i l) s.
Proof.
  induction l as [|e l IH]; intros cap i Hs Hl Hz Hc; [apply Runs_ret|].
  apply Forall_cons in Hl as [He Hl]. rewrite bind_cons in *. rewrite zlen_app in Hz. rewrite zlen_cons in Hc.
  pose proof (zlen_nonneg (event_bytes e)). pose proof (zlen_nonneg (l ≫= event_bytes)). pose proof (zlen_nonneg l).
  cbn [length read_events all_described]. eapply Runs_bind; [apply runs_event; [done|done|lia|lia]|].
  eapply Runs_last; [apply IH; [done|done|lia|lia]|]. apply Runs_ret.
Qed.

Lemma zlen_event_long e : zlen (attr e) = sizeof_attr -> 112 <= zlen (event_bytes e).
Proof.
  intros Ha. unfold event_bytes. rewrite zlen_app, Ha.
  match goal with |- _ <= _ + zlen ?x => pose proof (zlen_nonneg x) end. change sizeof_attr with 112. lia.
Qed.

Lemma events_below l : Forall event_ok l -> 112 * zlen l <= zlen (l ≫= event_bytes).
Proof.
  induction 1 as [|e l (He & _) Hl IH]; [done|]. rewrite bind_cons, zlen_app, zlen_cons.
  pose proof (zlen_event_long e He). lia.
Qed.

Lemma runs_event_desc sz s l : swapped s -> Forall event_ok l -> zlen (event_desc_bytes l) < 2 ^ 31 ->
  0 <= sizeof_evsel < 2 ^ 12 ->
  Runs sz s (read_event_desc sizeof_evsel) (event_desc_bytes l) (Some (all_described 0 l)) s.
Proof.
  intros Hs Hl Hz Hev. unfold event_desc_bytes in *. rewrite !zlen_app, !zlen_int_bytes in Hz.
  pose proof (events_below l Hl). pose proof (zlen_nonneg l). unfold read_event_desc. apply Runs_try.
  assert (sizeof_attr = 112) by done.
  eapply Runs_bind; [apply Runs_u32; [done|unfold is_uint; lia]|].
  eapply Runs_bind; [apply Runs_u32; [done|unfold is_uint; lia]|]. rewrite u32_small by lia.
  eapply Runs_then; [apply Runs_malloc; lia|]. eapply Runs_then; [apply Runs_malloc; nia|].
  rewrite to_nat_zlen. apply runs_events; [done|done|lia|lia].
Qed.

(** The names of the description, given to the events of the session in turn. *)
Fixpoint name_all (evlist : list header_evsel) (l : list header_evsel) : list header_evsel :=
  match evlist, l with
  | x :: evlist, e :: l => with_name (Some (name e ++ [0])) x :: name_all evlist l
  | _, _ => evlist
  end.

Lemma runs_event_names sz s l : forall d r, s_evlist s = d ++ r -> indexed 0 (d ++ r) ->
  length r = length l -> Forall (fun x => he_name x = None) r ->
  Forall event_ok l -> Forall (fun e => attr_size (native e) <> 0) l ->
  Runs sz s (set_event_names (all_described (zlen d) l)) [] () (set_evlist (d ++ name_all r l) s).
Proof.
  revert s. induction l as [|e l IH]; intros s d r Es Hi Hlen Hr Hl Ha.
  - destruct r; [|done]. cbn [name_all all_described set_event_names]. rewrite <- Es.
    assert (E : set_evlist (s_evlist s) s = s) by (by destruct s). rewrite E. apply Runs_ret.
  - destruct r as [|x r]; [done|]. injection Hlen as Hlen. apply Forall_cons in Hr as [Hx Hr].
    apply Forall_cons in Hl as [He Hl]. apply Forall_cons in Ha as [Ha0 Ha].
    cbn [all_described set_event_names]. replace (attr_size (he_attr (described (zlen d) e)) =? 0) with false
      by (cbn [described he_attr]; lia).
    set (s1 := set_evlist (d ++ with_name (Some (name e ++ [0])) x :: r) s).
    apply (Runs_then sz s _ _ () s1).
    + unfold perf_evlist__set_event_name. eapply Runs_then; [apply Runs_get_ph|]. cbn [described he_name he_idx].
      rewrite Es, find_indexed by done. rewrite lookup_app_r, Nat.sub_diag by lia. cbn [lookup list_lookup].
      rewrite Hx. destruct He as (_ & _ & _ & He & _). eapply Runs_then; [by apply Runs_chars|].
      pose proof (zlen_nonneg (name e)). rewrite memory by (destruct He; lia).
      rewrite insert_app_r_alt, Nat.sub_diag by lia.
      apply Runs_mod_ph.
    + set (y := with_name _ x) in *. assert (Ez : zlen (d ++ [y]) = zlen d + 1)
        by (by rewrite zlen_app, zlen_cons, zlen_nil).
      specialize (IH s1 (d ++ [y]) r). rewrite Ez, <- !app_assoc in IH. apply IH; [done| |done|done|done|done].
      apply indexed_app in Hi as [Hd [Hx' Hr']]. apply indexed_app. split; [done|]. split; [done|exact Hr'].
Qed.

(** The event descriptions survive the header: for events with attributes of
    the size of this version, on a machine of either byte order, process_event_desc
    finds in the section that write_event_desc stored every event with its native
    attribute, ids and name, and gives the nameless events of the session, in
    order, the names of the recorded ones. *)
Theorem event_desc_roundtrip l sw s ff : Forall event_ok l -> Forall (fun e => attr_size (native e) <> 0) l ->
  zlen (event_desc_bytes l) < 2 ^ 31 -> 0 <= sizeof_evsel < 2 ^ 12 ->
  swapped s -> s_is_pipe s = false -> indexed 0 (s_evlist s) -> length (s_evlist s) = length l ->
  Forall (fun x => he_name x = None) (s_evlist s) ->
  sink_ok ff -> ff_ph ff = Some sw -> room ff (zlen (event_desc_bytes l)) ->
  exists a ff' rd1 rd2, write_event_desc attr name l ff = Done a ff' /\
    read_event_desc sizeof_evsel (reader_of s ff ff') = Done (Some (all_described 0 l)) rd1 /\
    process_event_desc sizeof_evsel (reader_of s ff ff') = Done () rd2 /\
    ff_ph rd2 = Some (set_evlist (name_all (s_evlist s) l) s) /\ position rd2 = position ff'.
Proof.
  intros Hl Ha Hb Hev Hs Hpipe Hi Hlen Hno Hk Hp Hroom.
  assert (Hw : EmitsRoom (Some sw) (write_event_desc attr name l) (event_desc_bytes l))
    by (by apply Emits_room, emits_event_desc).
  destruct (section_roundtrip _ _ _ _ sw s (fun _ => s) ff Hw (fun sz _ => runs_event_desc sz s l Hs Hl Hb Hev) Hb Hk Hp Hroom)
    as (a & ff' & rd1 & E1 & E2 & _).
  destruct (section_roundtrip (event_desc_bytes l) _ (process_event_desc sizeof_evsel) () sw s
    (fun _ => set_evlist (name_all (s_evlist s) l) s) ff Hw) as (a2 & ff2 & rd2 & E3 & E4 & E5 & E6); [|done..|].
  { intros sz _. unfold process_event_desc. eapply Runs_last; [by apply runs_event_desc|].
    eapply Runs_then; [apply Runs_get_ph|]. rewrite Hpipe. eapply Runs_then; [apply Runs_ret|].
    by apply (runs_event_names sz s l [] (s_evlist s)). }
  assert (ff2 = ff') as -> by congruence. by exists a, ff', rd1, rd2.
Qed.

End EventDesc.

(** * Groups *)

(** [grouped pos l]: from position [pos] on, the list is made of single events and
    of groups, a leader followed by its members. *)
Inductive grouped : Z -> list header_evsel -> Prop :=
| grouped_nil pos : grouped pos []
| grouped_single pos e l :
    he_leader e = pos -> he_nr_members e <= 1 -> grouped (pos + 1) l -> grouped pos (e :: l)
| grouped_group pos e ms l :
    he_leader e = pos -> he_nr_members e = 1 + zlen ms -> ms <> [] ->
    Forall (fun m => he_leader m = pos /\ he_nr_members m <= 1) ms ->
    grouped (pos + 1 + zlen ms) l -> grouped pos (e :: ms ++ l).

(** Names of groups: none, or one that is not the name for no name. *)
Definition group_name_ok (e : header_evsel) : Prop :=
  match he_group_name e with
  | None => True
  | Some n => exists g, n = g ++ [0] /\ string_ok g /\ g <> anon_group
  end.
Definition group_chars (e : header_evsel) : cstr :=
  match he_group_name e with None => anon_group | Some n => take (length n - 1) n end.

(** The events as the reader has them before the groups are rebuilt, and after. *)
Fixpoint ungrouped (pos : Z) (l : list header_evsel) : list header_evsel :=
  match l with
  | [] => []
  | e :: l => with_group pos None 0 e :: ungrouped (pos + 1) l
  end.
Definition regrouped (e : header_evsel) : header_evsel :=
  if 1 <? he_nr_members e
  then with_group (he_leader e) ((fun _ => stored (group_chars e)) <$> he_group_name e) (he_nr_members e) e
  else with_group (he_leader e) None 0 e.

Fixpoint descs (pos : Z) (l : list header_evsel) : list group_desc :=
  match l with
  | [] => []
  | e :: l => if leads pos e
              then GroupDesc (stored (group_chars e)) (u32 (he_idx e)) (u32 (he_nr_members e)) :: descs (pos + 1) l
              else descs (pos + 1) l
  end.

Lemma ungrouped_app pos a b : ungrouped pos (a ++ b) = ungrouped pos a ++ ungrouped (pos + zlen a) b.
Proof.
  revert pos. induction a as [|e a IH]; intros pos; cbn [app ungrouped].
  - by rewrite (zlen_nil (A := header_evsel)), Z.add_0_r.
  - rewrite IH, zlen_cons. do 3 f_equal. lia.
Qed.

(** Members do not lead. *)
Lemma descs_members pos p ms l : p < pos -> Forall (fun m => he_leader m = p /\ he_nr_members m <= 1) ms ->
  descs pos (ms ++ l) = descs (pos + zlen ms) l.
Proof.
  intros Hp Hm. revert pos Hp. induction Hm as [|m ms [Hl Hn] Hm IH]; intros pos Hp; cbn [app descs].
  - by rewrite (zlen_nil (A := header_evsel)), Z.add_0_r.
  - unfold leads. rewrite Hl. replace (p =? pos) with false by lia. cbn [andb].
    rewrite IH, zlen_cons by lia. f_equal. lia.
Qed.

(** The leaders described are events of the list. *)
Lemma descs_idx pos l : indexed pos l -> 0 <= pos -> pos + zlen l < 2 ^ 31 ->
  Forall (fun d => pos <= g_leader_idx d < 2 ^ 31) (descs pos l).
Proof.
  revert pos. induction l as [|e l IH]; intros pos Hi Hp Hb; cbn [descs]; [constructor|].
  destruct Hi as [He Hi]. rewrite zlen_cons in Hb. pose proof (zlen_nonneg l).
  assert (Hl : Forall (fun d => pos <= g_leader_idx d < 2 ^ 31) (descs (pos + 1) l)).
  { eapply Forall_impl; [apply IH; [done|lia|lia]|]. cbn. intros; lia. }
  destruct (leads pos e); [|done]. constructor; [|done]. cbn [g_leader_idx]. rewrite He, u32_small by lia. lia.
Qed.

Section GroupDesc.
Context `{KernelOk}.
Context (beyond : Z).

Definition desc_bytes (d : cstr * Z * Z) : bytes :=
  string_bytes d.1.1 ++ int_bytes 4 d.1.2 ++ int_bytes 4 d.2.
Fixpoint group_list (pos : Z) (l : list header_evsel) : list (cstr * Z * Z) :=
  match l with
  | [] => []
  | e :: l => if leads pos e then (group_chars e, u32 (he_idx e), u32 (he_nr_members e)) :: group_list (pos + 1) l
              else group_list (pos + 1) l
  end.
Definition desc_of (d : cstr * Z * Z) : group_desc := GroupDesc (stored d.1.1) d.1.2 d.2.

Lemma descs_list pos l : descs pos l = desc_of <$> group_list pos l.
Proof.
  revert pos. induction l as [|e l IH]; intros pos; [done|]. cbn [descs group_list].
  destruct (leads pos e); [cbn [fmap list_fmap]; by rewrite IH|apply IH].
Qed.

Definition group_desc_bytes (l : list header_evsel) : bytes :=
  int_bytes 4 (zlen (group_list 0 l)) ++ (group_list 0 l ≫= desc_bytes).

Lemma anon_ok : string_ok anon_group.
Proof. split; [repeat constructor; done|done]. Qed.

Lemma group_chars_ok e : group_name_ok e -> string_ok (group_chars e) /\
  (forall ff, (match he_group_name e with Some n => chars n | None => mret anon_group end) ff
              = Done (group_chars e) ff).
Proof.
  unfold group_name_ok, group_chars. destruct (he_group_name e) as [n|]; [|split; [apply anon_ok|done]].
  intros (g & -> & Hg & _). assert (E : take (length (g ++ [0]) - 1) (g ++ [0]) = g).
  { rewrite length_app. cbn [length]. rewrite Nat.add_sub. by rewrite take_app_length. }
  rewrite E. split; [done|]. intros ff. unfold chars, strlen_of, mbind, FM_bind, access.
  rewrite strlen_list_ok by apply Hg. rewrite to_nat_zlen, take_app_length. done.
Qed.

Lemma Emits_pure {A} ph (m : FM A) a (k : A -> FM unit) bs :
  (forall ff, m ff = Done a ff) -> Emits ph (k a) bs -> Emits ph (m ≫= k) bs.
Proof.
  intros Hm Hk ff Hs Hp. assert (E : (m ≫= k) ff = k a ff) by (unfold mbind, FM_bind; by rewrite Hm).
  rewrite E. by apply Hk.
Qed.

Lemma emits_groups ph pos l : Forall group_name_ok l ->
  Emits ph (write_groups pos l) (group_list pos l ≫= desc_bytes).
Proof.
  intros Hl. revert pos. induction Hl as [|e l He Hl IH]; intros pos; [apply Emits_ret|].
  cbn [write_groups group_list]. destruct (leads pos e).
  - rewrite bind_cons. apply Emits_seq; [|apply IH]. destruct (group_chars_ok e He) as [Hs Hc].
    apply (Emits_pure ph _ (group_chars e)); [done|]. unfold desc_bytes. cbn [fst snd].
    apply Emits_seq; [by apply Emits_string|]. apply Emits_seq; apply Emits_u32.
  - apply (Emits_seq ph (mret ()) _ []); [apply Emits_ret|apply IH].
Qed.

Lemma emits_group_desc ph l : Forall group_name_ok l -> zlen (group_list 0 l) < 2 ^ 32 ->
  Emits ph (write_group_desc (zlen (group_list 0 l)) l) (group_desc_bytes l).
Proof.
  intros Hl Hz. pose proof (zlen_nonneg (group_list 0 l)). unfold write_group_desc, group_desc_bytes.
  rewrite u32_small by lia. apply Emits_seq; [apply Emits_u32|by apply emits_groups].
Qed.

(** strcmp with the name for no name. *)
Lemma strncmp_stored lit : Forall (fun b => b <> 0) lit -> forall g rest, Forall (fun b => b <> 0) g ->
  strncmp_eq (g ++ 0 :: rest) (lit ++ [0]) = Some (bool_decide (g = lit)).
Proof.
  induction 1 as [|c lit Hc Hl IH]; intros g rest Hg; destruct Hg as [|x g Hx Hg]; cbn [app strncmp_eq].
  - rewrite bool_decide_eq_true_2 by done. by destruct rest.
  - replace (x =? 0) with false by lia. by rewrite bool_decide_eq_false_2.
  - replace (0 =? c) with false by lia. by rewrite bool_decide_eq_false_2.
  - destruct (Z.eqb_spec x c) as [->|Hne].
    + rewrite IH by done. f_equal. apply bool_decide_ext. split; [by intros ->|by intros [=]].
    + symmetry. f_equal. apply bool_decide_eq_false. by intros [= ->].
Qed.

Lemma anon_test e : group_name_ok e ->
  strncmp_eq (stored (group_chars e)) (anon_group ++ [0]) = Some (bool_decide (he_group_name e = None)).
Proof.
  intros He. destruct (group_chars_ok e He) as [Hs _]. unfold stored. rewrite <- app_assoc. cbn [app].
  rewrite strncmp_stored by (apply anon_ok || apply Hs). f_equal. apply bool_decide_ext.
  unfold group_name_ok, group_chars in *. destruct (he_group_name e) as [n|]; [|done].
  destruct He as (g & -> & _ & Hne). split; [|done]. rewrite length_app. cbn [length].
  rewrite Nat.add_sub, take_app_length. by intros ->.
Qed.

(** No event has the index that lies behind the array of descriptions, and the
    next leader is further on: the event is not taken for a leader. *)
Lemma not_leader pos e done l : he_idx e = pos -> 0 <= pos -> indexed (pos + 1) l -> pos + 1 + zlen l < 2 ^ 31 ->
  pos <> sint 32 beyond ->
  (he_idx e =? sint 32 (match (done ++ descs (pos + 1) l) !! Z.to_nat (zlen done) with
                        | Some d => g_leader_idx d | None => beyond end)) = false.
Proof.
  intros He Hp Hi Hb Hbe. rewrite to_nat_zlen, lookup_app_r, Nat.sub_diag by lia.
  pose proof (descs_idx (pos + 1) l Hi ltac:(lia) Hb) as Hd. pose proof (zlen_nonneg l).
  destruct (descs (pos + 1) l) as [|d ds]; cbn [lookup list_lookup]; [lia|].
  apply Forall_cons in Hd as [Hd _]. rewrite sint32_small by lia. lia.
Qed.

(** The members of a group get its leader. *)
Lemma group_members ms : forall pos p rest done l acc ff,
  Forall (fun m => he_leader m = p /\ he_nr_members m <= 1) ms -> indexed pos ms -> p < pos -> 0 <= pos ->
  indexed (pos + zlen ms) l -> pos + zlen ms + zlen l < 2 ^ 31 ->
  (forall e, e ∈ ms -> he_idx e <> sint 32 beyond) ->
  group_loop beyond (ungrouped pos ms ++ rest) pos (done ++ descs (pos + zlen ms) l) (zlen done) (zlen ms) p acc ff =
  group_loop beyond rest (pos + zlen ms) (done ++ descs (pos + zlen ms) l) (zlen done) 0 p
    (acc ++ (regrouped <$> ms)) ff.
Proof.
  induction ms as [|m ms IH]; intros pos p rest done l acc ff Hm Hi Hp H0' Hl Hb Hbe.
  - cbn [ungrouped app fmap list_fmap]. by rewrite (zlen_nil (A := header_evsel)), Z.add_0_r, app_nil_r.
  - apply Forall_cons in Hm as [[Hml Hmn] Hm]. destruct Hi as [Hmi Hi]. rewrite zlen_cons in *.
    replace (pos + (1 + zlen ms)) with (pos + 1 + zlen ms) in * by lia. pose proof (zlen_nonneg ms).
    cbn [ungrouped app group_loop]. pose proof (not_leader pos m done (ms ++ l) Hmi H0') as Hn.
    rewrite descs_members with (p := p), zlen_app in Hn by (done || lia).
    change (he_idx (with_group pos None 0 m)) with (he_idx m).
    rewrite Hn; [|by apply indexed_app|lia|rewrite <- Hmi; apply Hbe; left].
    replace (1 + zlen ms =? 0) with false by lia. cbn [negb].
    replace (1 + zlen ms - 1) with (zlen ms) by lia.
    rewrite IH; [|done|done|lia|lia|done|lia|intros; apply Hbe; by right].
    f_equal. cbn [fmap list_fmap]. rewrite <- app_assoc. cbn [app]. do 2 f_equal.
    unfold regrouped. replace (1 <? he_nr_members m) with false by lia. by rewrite Hml.
Qed.

Lemma group_loop_ok pos l : grouped pos l -> forall done acc leader ff, indexed pos l -> 0 <= pos ->
  pos + zlen l < 2 ^ 31 -> Forall group_name_ok l -> (forall e, e ∈ l -> he_idx e <> sint 32 beyond) ->
  group_loop beyond (ungrouped pos l) pos (done ++ descs pos l) (zlen done) 0 leader acc ff
  = Done (acc ++ (regrouped <$> l)) ff.
Proof.
  induction 1 as [pos|pos e l He Hn Hl IH|pos e ms l He Hn Hne Hms Hl IH];
    intros done acc leader ff Hi H0' Hb Hnames Hbe.
  - cbn [ungrouped group_loop descs fmap list_fmap]. rewrite !app_nil_r, Z.eqb_refl. done.
  - destruct Hi as [Hie Hi]. rewrite zlen_cons in Hb. pose proof (zlen_nonneg l).
    apply Forall_cons in Hnames as [_ Hnames]. cbn [ungrouped group_loop].
    assert (Hd : descs pos (e :: l) = descs (pos + 1) l).
    { cbn [descs]. unfold leads. replace (1 <? he_nr_members e) with false by lia. by rewrite andb_false_r. }
    rewrite Hd. pose proof (not_leader pos e done l Hie H0' Hi ltac:(lia)) as Hnl.
    change (he_idx (with_group pos None 0 e)) with (he_idx e).
    rewrite Hnl by (rewrite <- Hie; apply Hbe; left). cbn [Z.eqb negb].
    rewrite IH; [|done|lia|lia|done|intros; apply Hbe; by right]. f_equal. cbn [fmap list_fmap].
    rewrite <- app_assoc. cbn [app]. do 2 f_equal. unfold regrouped.
    replace (1 <? he_nr_members e) with false by lia. by rewrite He.
  - destruct Hi as [Hie Hi]. apply indexed_app in Hi as [Him Hi]. rewrite zlen_cons, zlen_app in Hb.
    pose proof (zlen_nonneg l). pose proof (zlen_nonneg ms).
    assert (Hz : 0 < zlen ms) by (destruct ms; [done|rewrite zlen_cons; pose proof (zlen_nonneg ms); lia]).
    apply Forall_cons in Hnames as [Hname Hnames]. apply Forall_app in Hnames as [_ Hnames].
    set (d0 := GroupDesc (stored (group_chars e)) (u32 (he_idx e)) (u32 (he_nr_members e))).
    assert (Hd : descs pos (e :: ms ++ l) = d0 :: descs (pos + 1 + zlen ms) l).
    { cbn [descs]. unfold leads. rewrite He, Z.eqb_refl. replace (1 <? he_nr_members e) with true by lia.
      cbn [andb]. rewrite (descs_members (pos + 1) pos) by (done || lia). done. }
    rewrite Hd. cbn [ungrouped group_loop]. rewrite to_nat_zlen, lookup_app_r, Nat.sub_diag by lia.
    cbn [lookup list_lookup]. change (he_idx (with_group pos None 0 e)) with (he_idx e).
    change (g_leader_idx d0) with (u32 (he_idx e)). change (g_name d0) with (stored (group_chars e)).
    change (g_nr_members d0) with (u32 (he_nr_members e)).
    rewrite Hie, (u32_small pos), (sint32_small pos), Z.eqb_refl by lia.
    rewrite anon_test by done. unfold mbind, FM_bind, access. cbn [Z.ltb Z.compare].
    rewrite (u32_small (he_nr_members e)), sint32_small by lia.
    cbn [with_group he_nr_members he_group_name he_attr he_ids he_name he_idx he_needs_swap].
    rewrite (u32_small (he_nr_members e - 1)) by lia.
    replace (he_nr_members e - 1) with (zlen ms) by lia. rewrite ungrouped_app.
    assert (Ez : zlen (done ++ [d0]) = zlen done + 1) by (by rewrite zlen_app, zlen_cons, zlen_nil).
    rewrite <- Ez. rewrite cons_middle, app_assoc.
    rewrite group_members; [|done|done|lia|lia|done|lia|].
    2: { intros x Hx. apply Hbe. right. apply elem_of_app. by left. }
    rewrite IH; [|done|lia|lia|done|intros x Hx; apply Hbe; right; apply elem_of_app; by right].
    f_equal. cbn [fmap list_fmap]. rewrite fmap_app, <- !app_assoc. cbn [app]. do 2 f_equal.
    unfold regrouped. replace (1 <? he_nr_members e) with true by lia. rewrite He. unfold with_group.
    cbn. f_equal. by destruct (he_group_name e).
Qed.

Lemma runs_group_descs sz s l : swapped s -> Forall (fun d => string_ok d.1.1 /\ is_uint 32 d.1.2 /\ is_uint 32 d.2) l ->
  Runs sz s (read_list (length l) read_group_desc) (l ≫= desc_bytes) (desc_of <$> l) s.
Proof.
  intros Hs Hl. apply Runs_read_list. intros d Hd. apply (proj1 (Forall_forall _ _) Hl) in Hd as (H1 & H2 & H3).
  unfold read_group_desc, desc_bytes. eapply Runs_bind; [by apply Runs_string|].
  eapply Runs_bind; [by apply Runs_u32|]. eapply Runs_last; [by apply Runs_u32|]. apply Runs_ret.
Qed.

Lemma groups_below l : zlen l <= zlen (l ≫= desc_bytes).
Proof.
  apply parts_below. intros d. unfold desc_bytes. rewrite zlen_app. pose proof (string_bytes_long d.1.1).
  match goal with |- _ <= _ + zlen ?x => pose proof (zlen_nonneg x) end. lia.
Qed.

Lemma group_list_ok pos l : Forall group_name_ok l ->
  Forall (fun d => string_ok d.1.1 /\ is_uint 32 d.1.2 /\ is_uint 32 d.2) (group_list pos l).
Proof.
  intros Hl. revert pos. induction Hl as [|e l He Hl IH]; intros pos; cbn [group_list]; [constructor|].
  destruct (leads pos e); [|apply IH]. constructor; [|apply IH]. cbn.
  split; [by apply group_chars_ok|]. split; apply u32_bound.
Qed.

(** The session after the groups were read. *)
Definition group_session (l : list header_evsel) (s : session) : session :=
  let nr := zlen (group_list 0 l) in
  let s := set_env (set_num nr_groups nr (s_env s)) s in
  if nr =? 0 then s else set_evlist (regrouped <$> l) (set_nr_groups nr s).

Lemma runs_group_desc sz s l : swapped s -> s_evlist s = ungrouped 0 l -> grouped 0 l -> indexed 0 l ->
  zlen l < 2 ^ 31 -> Forall group_name_ok l -> (forall e, e ∈ l -> he_idx e <> sint 32 beyond) ->
  zlen (group_desc_bytes l) < 2 ^ 31 ->
  Runs sz s (process_group_desc beyond) (group_desc_bytes l) () (group_session l s).
Proof.
  intros Hs Hev Hg Hi Hb Hn Hbe Hz. unfold process_group_desc, group_desc_bytes, group_session in *.
  pose proof (group_loop_ok 0 l Hg [] [] 0) as Hloop. rewrite descs_list in Hloop. cbn [app] in Hloop.
  pose proof (group_list_ok 0 l Hn) as Hd. set (dl := group_list 0 l) in *. pose proof (zlen_nonneg dl).
  rewrite zlen_app, zlen_int_bytes in Hz.
  pose proof (groups_below dl).
  eapply Runs_bind; [apply Runs_or_return, Runs_u32; [done|unfold is_uint; lia]|]. rewrite sint32_small by lia.
  eapply Runs_then; [apply Runs_mod_env|]. destruct (Z.eqb_spec (zlen dl) 0) as [E|E].
  - destruct dl; [apply Runs_ret|rewrite zlen_cons in E; pose proof (zlen_nonneg dl); lia].
  - eapply Runs_then; [apply Runs_malloc; lia|]. rewrite to_nat_zlen.
    eapply Runs_last; [by apply Runs_or_return, runs_group_descs|].
    eapply Runs_then; [apply Runs_mod_ph|]. eapply Runs_then; [apply Runs_get_ph|].
    cbn [set_nr_groups set_env s_evlist]. rewrite Hev.
    eapply Runs_then; [apply Runs_same; intros ff Hp _; rewrite Hloop by (done || lia); by destruct ff; cbn in *; subst|].
    apply Runs_mod_ph.
Qed.

(** Without groups there is nothing to rebuild. *)
Lemma no_groups l : grouped 0 l -> group_list 0 l = [] -> ungrouped 0 l = regrouped <$> l.
Proof.
  induction 1 as [pos|pos e l He Hn Hl IH|pos e ms l He Hn Hne Hms Hl IH]; cbn [group_list ungrouped fmap list_fmap].
  - done.
  - unfold leads. replace (1 <? he_nr_members e) with false by lia. rewrite andb_false_r. intros E.
    rewrite (IH E). f_equal. unfold regrouped. replace (1 <? he_nr_members e) with false by lia. by rewrite He.
  - unfold leads. rewrite He, Z.eqb_refl.
    assert (0 < zlen ms) by (destruct ms; [done|rewrite zlen_cons; pose proof (zlen_nonneg ms); lia]).
    replace (1 <? he_nr_members e) with true by lia. done.
Qed.

(** The groups of events survive the header: from what write_group_desc
    stores of a list made of groups and single events, process_group_desc rebuilds,
    on a list of the same events without groups, the leader of every event, and
    the name and the number of members of every group, whatever lies in the
    memory behind its array of descriptions as long as it is not the index of an
    event. *)
Theorem group_desc_roundtrip l sw s ff : grouped 0 l -> indexed 0 l -> zlen l < 2 ^ 31 -> Forall group_name_ok l ->
  zlen (group_desc_bytes l) < 2 ^ 31 -> (forall e, e ∈ l -> he_idx e <> sint 32 beyond) ->
  swapped s -> s_evlist s = ungrouped 0 l ->
  sink_ok ff -> ff_ph ff = Some sw -> room ff (zlen (group_desc_bytes l)) ->
  exists a ff' rd' s', write_group_desc (zlen (group_list 0 l)) l ff = Done a ff' /\
    process_group_desc beyond (reader_of s ff ff') = Done () rd' /\ ff_ph rd' = Some s' /\
    s_evlist s' = (regrouped <$> l) /\ env_nums (s_env s') nr_groups = zlen (group_list 0 l) /\
    position rd' = position ff'.
Proof.
  intros Hg Hi Hb Hn Hz Hbe Hs Hev Hk Hp Hroom.
  assert (Hgl : zlen (group_list 0 l) < 2 ^ 32).
  { unfold group_desc_bytes in Hz. rewrite zlen_app, zlen_int_bytes in Hz.
    pose proof (groups_below (group_list 0 l)). lia. }
  destruct (section_roundtrip (group_desc_bytes l) (write_group_desc (zlen (group_list 0 l)) l)
    (process_group_desc beyond) () sw s (fun _ => group_session l s) ff) as (a & ff' & rd' & E1 & E2 & E3 & E4);
    [by apply Emits_room, emits_group_desc|intros; by apply runs_group_desc|done..|].
  exists a, ff', rd', (group_session l s). split; [done|]. split; [done|]. split; [done|].
  unfold group_session. destruct (Z.eqb_spec (zlen (group_list 0 l)) 0) as [E|E]; [|done].
  split; [|done]. cbn [set_env s_evlist]. rewrite Hev. apply no_groups; [done|].
  destruct (group_list 0 l) as [|d dl]; [done|rewrite zlen_cons in E; pose proof (zlen_nonneg dl); lia].
Qed.

End GroupDesc.

(** * Examples *)

Module HeaderDescExamples.
Import HeaderFeatExamples.

(** An event with an attribute of [sizeof_attr] bytes whose size member is set, one id,
    and a name. *)
Definition example_attr : bytes := le_bytes 4 0 ++ le_bytes 4 112 ++ zeros 104.
Definition event (idx leader nr : Z) (group : option bytes) : header_evsel :=
  HeaderEvsel example_attr [7 + idx] None idx leader group nr false.
Definition reading (l : list header_evsel) : session := MkSession false 2 0 0 0 0 no_env l 0 0 0 false None.

Definition two_events : list header_evsel := [event 0 0 1 None; event 1 1 1 None].
Definition event_name (e : header_evsel) : cstr := [101; 48 + he_idx e].
Definition writing : feat_fd := to_file (blank false no_env) [1; 2; 3].

Lemma event_desc_roundtrip_witness : exists a ff' rd1 rd2,
  write_event_desc (H := machine false 10000) he_attr event_name two_events writing = Done a ff' /\
  read_event_desc (H := machine false 10000) 560 (reader_of (reading two_events) writing ff') =
    Done (Some (all_described (H := machine false 10000) he_attr event_name 0 two_events)) rd1 /\
  process_event_desc (H := machine false 10000) 560 (reader_of (reading two_events) writing ff') = Done () rd2 /\
  ff_ph rd2 = Some (set_evlist (name_all event_name two_events two_events) (reading two_events)) /\
  position rd2 = position ff'.
Proof.
  pose proof (machine_ok false 10000).
  apply (event_desc_roundtrip (H := machine false 10000) he_attr he_attr event_name 560 two_events
           (blank false no_env) (reading two_events)); try done.
  - repeat constructor; try done; vm_compute; done.
  - repeat constructor; vm_compute; discriminate.
  - by repeat constructor.
Defined.

(** A group with a name, a group without one, and a single event. *)
Definition pair : bytes := [112; 0].
Definition grouped_events : list header_evsel :=
  [event 0 0 2 (Some pair); event 1 0 1 None; event 2 2 3 None; event 3 2 1 None; event 4 2 0 None; event 5 5 1 None].

Lemma grouped_events_ok : grouped 0 grouped_events.
Proof.
  apply (grouped_group 0 _ [event 1 0 1 None]); try done; [by repeat constructor|].
  apply (grouped_group 2 _ [event 3 2 1 None; event 4 2 0 None]); try done; [by repeat constructor|].
  apply grouped_single; [done|done|constructor].
Qed.

Lemma group_desc_roundtrip_witness : exists a ff' rd' s',
  write_group_desc (H := machine true 10000) 2 grouped_events writing = Done a ff' /\
  process_group_desc (H := machine true 10000) 77
    (reader_of (set_evlist (ungrouped 0 grouped_events) (blank true no_env)) writing ff') = Done () rd' /\
  ff_ph rd' = Some s' /\ s_evlist s' = (regrouped <$> grouped_events) /\
  env_nums (s_env s') nr_groups = 2 /\ position rd' = position ff'.
Proof.
  pose proof (machine_ok true 10000).
  apply (group_desc_roundtrip (H := machine true 10000) 77 grouped_events (blank false no_env)
           (set_evlist (ungrouped 0 grouped_events) (blank true no_env))); try done.
  - apply grouped_events_ok.
  - repeat constructor; try done. exists [112]. split; [done|]. split; [|done]. split; [by repeat constructor|done].
  - intros e He. assert (Hb : Forall (fun e => he_idx e <> sint 32 77) grouped_events) by (repeat constructor; by vm_compute).
    by apply (proj1 (Forall_forall _ _) Hb).
Defined.

(** process_group_desc looks behind its array for every event after the last
    group: where the memory there holds the index of such an event, it goes on
    with a pointer that is none. *)
Theorem group_desc_overread :
  let s := set_evlist (ungrouped 0 grouped_events) (blank false no_env) in
  match write_group_desc (H := machine false 10000) 2 grouped_events writing with
  | Done _ ff' => process_group_desc (H := machine false 10000) 5 (reader_of s writing ff') = Fault
  | _ => False
  end.
Proof. vm_compute. reflexivity. Qed.

End HeaderDescExamples.
