(* ===== verification/HeaderFile.v ===== *)
(** Model of the layout of a data file in util/header.c: perf_session__write_header
    with perf_header__adds_write and do_write_feat, perf_session__read_header with
    perf_file_header__read, read_attr, perf_header__process_sections and
    perf_file_section__process, and the tests of magic number and byte order.

    The operations are computations on a struct feat_fd whose file is the data
    file and whose header is that of the session.  The table feat_ops is an
    argument: for the modelled features it has the operations of HeaderFeat.v, for
    the others (tracing data, build ids, AUX area, BPF programs) anything.
    [prepare] is perf_evlist__prepare_tracepoint_events, which asks libtraceevent. *)

From S2P Require Import Prelude Sample Strings SessionSwap Cpumap FeatFd HeaderFeat HeaderDesc.

(** * Structures *)

Definition HEADER_BUILD_ID : Z := 2.
Definition HEADER_HOSTNAME : Z := 3.
Definition HEADER_LAST_FEATURE : Z := 27.
Definition HEADER_FEAT_BITS : Z := 256.
Definition magic2 : Z := 0x32454c4946524550.
Definition magic2_sw : Z := 0x50455246494c4532.
(** "PERFFILE" as it lies in memory *)
Definition magic1 : bytes := [80; 69; 82; 70; 70; 73; 76; 69].
Definition PERF_HEADER_VERSION_1 : Z := 0.
Definition PERF_HEADER_VERSION_2 : Z := 1.
Definition PERF_ATTR_SIZE_VER0 : Z := 64.

(** struct perf_file_header: nine u64 and the bitmap of features. *)
Definition offsetof_adds : Z := 72.
Definition sizeof_file_header : Z := 104.
(** struct perf_file_attr: the attribute and the section of its ids. *)
Definition sizeof_file_attr : Z := sizeof_attr + 16.

Record feature_ops := FeatureOps {
  op_write : option (FM unit);
  op_process : option (FM unit);
  op_synthesize : bool
}.

Definition set_header (swap : bool) (version data_offset data_size feat_offset adds : Z) (s : session) : session :=
  MkSession swap version data_offset data_size feat_offset adds (s_env s) (s_evlist s) (s_nr_groups s)
    (s_first_sample_time s) (s_last_sample_time s) (s_is_pipe s) (s_dir_version s).
Definition set_adds (adds : Z) (s : session) : session :=
  set_header (s_needs_swap s) (s_version s) (s_data_offset s) (s_data_size s) (s_feat_offset s) adds s.
Definition set_swap (swap : bool) (s : session) : session :=
  set_header swap (s_version s) (s_data_offset s) (s_data_size s) (s_feat_offset s) (s_adds_features s) s.
Definition set_version (version : Z) (s : session) : session :=
  set_header (s_needs_swap s) version (s_data_offset s) (s_data_size s) (s_feat_offset s) (s_adds_features s) s.

(** The bits of adds_features that are set, in order. *)
Definition features (adds : Z) : list Z := filter (fun i => Z.testbit adds i = true) (seqZ 0 HEADER_FEAT_BITS).
Definition perf_header__has_feat (s : session) (feat : Z) : bool := Z.testbit (s_adds_features s) feat.
Definition perf_header__set_feat (feat : Z) (s : session) : session := set_adds (Z.setbit (s_adds_features s) feat) s.
Definition perf_header__clear_feat (feat : Z) (s : session) : session :=
  set_adds (Z.clearbit (s_adds_features s) feat) s.

(** * Positions *)

Definition tell : FM Z := fun ff => Done (f_pos (ff_fd ff)) ff.
(** lseek with SEEK_SET; the offset is an off_t, and a negative one is an error. *)
Definition lseek (off : Z) : FM bool := fun ff =>
  let o := sint 64 off in
  if o <? 0 then Done false ff else Done true (put_fd (lseek_set o (ff_fd ff)) ff).

Section HeaderFile.
Context `{Kernel}.
Context (feat_ops : Z -> feature_ops).

(** * Writing *)

(** The result of a function that is looked at: the error, or 0. *)
Definition ret_of (m : FM unit) : FM Z := fun ff =>
  match m ff with
  | Done _ ff => Done 0 ff
  | Fail e ff => Done e ff
  | Fault => Fault
  | Hang => Hang
  end.

Definition in_pipe_mode : FM bool := fun ff => Done (match ff_buf ff with Some _ => true | None => false end) ff.

(** The array of sections while it is filled: the ones in front of [p], and the offset
    that is in the slot [*p] (0 from calloc, or that of a feature that failed). *)
Definition feat_secs : Type := list (Z * Z) * Z.

(** True is the return of an error. *)
Definition do_write_feat (type : Z) (p : feat_secs) : FM (bool * feat_secs) :=
  s ← get_ph;
  if perf_header__has_feat s type then
    if HEADER_LAST_FEATURE <=? type then fault else
    match op_write (feat_ops type) with
    | None => mret (true, p)
    | Some write =>
        pipe ← in_pipe_mode;
        if (pipe : bool) then mret (true, p) else
        offset ← tell;
        err ← ret_of write;
        if err <? 0 then lseek offset;; mret (true, (p.1, offset))
        else cur ← tell; mret (false, (p.1 ++ [(offset, u64 (cur - offset))], 0))
    end
  else mret (false, p).

(** [for_each_set_bit(feat, header->adds_features, HEADER_FEAT_BITS)] *)
Fixpoint adds_loop (feats : list Z) (p : feat_secs) : FM feat_secs :=
  match feats with
  | [] => mret p
  | feat :: feats =>
      s ← get_ph;
      p ← (if perf_header__has_feat s feat then
             '(err, p) ← do_write_feat feat p;
             (if (err : bool) then mod_ph (perf_header__clear_feat feat) else mret ());;
             mret p
           else mret p);
      adds_loop feats p
  end.

Definition section_bytes (sec : Z * Z) : bytes := int_bytes 8 (fst sec) ++ int_bytes 8 (snd sec).

(** The array feat_sec comes from calloc; a slot behind the sections is left if a
    feature failed, and its offset is that of the last one that did. *)
Definition section_table (p : feat_secs) (sec_size : Z) : bytes :=
  let left := sec_size - 16 * zlen p.1 in
  (p.1 ≫= section_bytes) ++ take (Z.to_nat left) (section_bytes (p.2, 0) ++ zeros left).

Definition perf_header__adds_write : FM unit :=
  s ← get_ph;
  let nr_sections := zlen (features (s_adds_features s)) in
  if nr_sections =? 0 then mret () else
  malloc (16 * nr_sections) (-12);;
  let sec_size := 16 * nr_sections in
  let sec_start := s_feat_offset s in
  lseek (u64 (sec_start + sec_size));;
  p ← adds_loop (seqZ 0 HEADER_FEAT_BITS) ([], 0);
  lseek sec_start;;
  do_write (section_table p sec_size).

(** evsel->id_offset of every event. *)
Fixpoint write_ids (evlist : list header_evsel) : FM (list Z) :=
  match evlist with
  | [] => mret []
  | evsel :: evlist =>
      off ← tell;
      do_write (he_ids evsel ≫= int_bytes 8);;
      l ← write_ids evlist;
      mret (off :: l)
  end.

(** [attr] gives the attribute as it lies in the memory of the writer. *)
Context (attr : header_evsel -> bytes).

Definition file_attr (evsel : header_evsel) (id_offset : Z) : bytes :=
  attr evsel ++ int_bytes 8 id_offset ++ int_bytes 8 (8 * zlen (he_ids evsel)).

Fixpoint write_attrs (evlist : list header_evsel) (id_offsets : list Z) : FM unit :=
  match evlist, id_offsets with
  | evsel :: evlist, off :: offs => do_write (file_attr evsel off);; write_attrs evlist offs
  | _, _ => mret ()
  end.

(** The words of the bitmap, of a machine with longs of 64 bits. *)
Definition adds_words (adds : Z) : list Z := (fun i => u64 (Z.shiftr adds (64 * i))) <$> [0; 1; 2; 3].

Definition file_header (attr_offset nr_entries data_offset data_size adds : Z) : bytes :=
  ([magic2; sizeof_file_header; sizeof_file_attr; attr_offset; nr_entries * sizeof_file_attr;
    data_offset; data_size; 0; 0] ++ adds_words adds) ≫= int_bytes 8.

(** The event list is that of the session. *)
Definition perf_session__write_header (at_exit : bool) : FM unit :=
  lseek sizeof_file_header;;
  s ← get_ph;
  offs ← write_ids (s_evlist s);
  attr_offset ← tell;
  write_attrs (s_evlist s) offs;;
  pos ← tell;
  let data_offset := if s_data_offset s =? 0 then pos else s_data_offset s in
  mod_ph (fun s => set_header (s_needs_swap s) (s_version s) data_offset (s_data_size s)
                     (u64 (data_offset + s_data_size s)) (s_adds_features s) s);;
  (if at_exit then perf_header__adds_write else mret ());;
  s ← get_ph;
  lseek 0;;
  do_write (file_header attr_offset (zlen (s_evlist s)) (s_data_offset s) (s_data_size s) (s_adds_features s));;
  lseek (u64 (s_data_offset s + s_data_size s));;
  mret ().

Definition perf_header__write_pipe : FM unit := do_write (int_bytes 8 magic2 ++ int_bytes 8 16).

(** * Reading *)

(** readn for a caller that fails unless bytes arrived; what did arrive is at the
    front of the buffer, which keeps its rest. *)
Definition readn_into (buf : bytes) (off n : Z) : FM (Z * bytes) := fun ff =>
  let '(ret, bs, f) := readn (ff_fd ff) n in
  match wrn buf off bs with
  | Some buf => Done (ret, buf) (put_fd f ff)
  | None => Fault
  end.

(** mem_bswap_64 of the whole buffer, if the file needs it. *)
Definition swap_buffer (buf : bytes) (size : Z) : FM bytes :=
  s ← get_ph;
  if s_needs_swap s then access_res (mem_bswap_64 buf 0 size) else mret buf.

Definition perf_header__getbuffer64 (size : Z) : FM bytes :=
  '(ret, buf) ← readn_into (zeros size) 0 size;
  if ret <=? 0 then fail (-1) else swap_buffer buf size.

Definition word (i : Z) (m : bytes) : Z := le_val (take 8 (drop (Z.to_nat (8 * i)) m)).

(** A new feat_fd on the section. *)
Definition on_section (sec : Z * Z) (m : FM unit) : FM unit := fun ff =>
  match m (FeatFd (ff_ph ff) (ff_fd ff) None (fst sec) (snd sec) None) with
  | Done _ ff' => Done () (put_ph (ff_ph ff') (put_fd (ff_fd ff') ff))
  | Fail e ff' => Fail e (put_ph (ff_ph ff') (put_fd (ff_fd ff') ff))
  | Fault => Fault
  | Hang => Hang
  end.

Definition perf_file_section__process (sec : Z * Z) (feat : Z) : FM unit :=
  ok ← lseek (fst sec);
  if negb ok then mret () else
  if HEADER_LAST_FEATURE <=? feat then mret () else
  match op_process (feat_ops feat) with
  | None => mret ()
  | Some process => on_section sec process
  end.

(** [for_each_set_bit(feat, header->adds_features, HEADER_LAST_FEATURE)]; the
    bitmap is looked at again in every turn. *)
Fixpoint sections_loop (feats : list Z) (feat_sec : bytes) (sec : Z) : FM unit :=
  match feats with
  | [] => mret ()
  | feat :: feats =>
      s ← get_ph;
      if perf_header__has_feat s feat then
        err ← ret_of (perf_file_section__process (word (2 * sec) feat_sec, word (2 * sec + 1) feat_sec) feat);
        if err <? 0 then fail err else sections_loop feats feat_sec (sec + 1)
      else sections_loop feats feat_sec sec
  end.

Definition perf_header__process_sections : FM unit :=
  s ← get_ph;
  let nr_sections := zlen (features (s_adds_features s)) in
  if nr_sections =? 0 then mret () else
  malloc (16 * nr_sections) (-1);;
  lseek (s_feat_offset s);;
  feat_sec ← perf_header__getbuffer64 (16 * nr_sections);
  sections_loop (seqZ 0 HEADER_LAST_FEATURE) feat_sec 0.

(** ** Magic number and byte order *)

Definition attr_file_abi_sizes : list Z := [64; 72; 80; 96; 104].

(** The byte order of a file with an attr_size of one of the versions: its header
    needs a swap or not. *)
Fixpoint try_all_file_abis (sizes : list Z) (hdr_sz : Z) : option bool :=
  match sizes with
  | [] => None
  | size :: sizes =>
      let ref_size := size + 16 in
      if negb (hdr_sz =? ref_size) then
        if negb (bswap 8 hdr_sz =? ref_size) then try_all_file_abis sizes hdr_sz else Some true
      else Some false
  end.

Definition PERF_PIPE_HDR_VER0 : Z := 16.

(** The loop over attr_pipe_abi_sizes, which has one entry. *)
Definition try_all_pipe_abis (hdr_sz : Z) : option bool :=
  if negb (hdr_sz =? PERF_PIPE_HDR_VER0) then
    if negb (bswap 8 hdr_sz =? hdr_sz) then None else Some true
  else Some false.

Definition is_perf_magic (magic : Z) : bool :=
  (magic =? le_val magic1) || (magic =? magic2) || (magic =? magic2_sw).

(** needs_swap is only ever set. *)
Definition check_magic_endian (magic hdr_sz : Z) (is_pipe : bool) : FM unit :=
  if magic =? le_val magic1 then
    mod_ph (set_version PERF_HEADER_VERSION_1);;
    match (if is_pipe then try_all_pipe_abis hdr_sz else try_all_file_abis attr_file_abi_sizes hdr_sz) with
    | Some true => mod_ph (set_swap true)
    | Some false => mret ()
    | None => fail (-1)
    end
  else
    mod_ph (set_version PERF_HEADER_VERSION_2);;
    if magic =? magic2 then mret ()
    else if negb (magic =? magic2_sw) then fail (-1)
    else mod_ph (set_swap true).

(** ** The file header *)

Definition adds_of (header : bytes) : Z := le_val (take 32 (drop (Z.to_nat offsetof_adds) header)).

(** The bitmap of a file in the other byte order.  The size that is given to the
    swap functions counts words, not bytes. *)
Definition swap_adds (header : bytes) : FM Z :=
  let b64 := BITS_TO_U64 HEADER_FEAT_BITS in
  let b32 := (HEADER_FEAT_BITS + 31) / 32 in
  h ← access_res (mem_bswap_64 header offsetof_adds b64);
  h ← (if negb (Z.testbit (adds_of h) HEADER_HOSTNAME) then
         h ← access_res (mem_bswap_64 h offsetof_adds b64);
         access_res (mem_bswap_32 h offsetof_adds b32)
       else mret h);
  mret (if negb (Z.testbit (adds_of h) HEADER_HOSTNAME) then Z.setbit 0 HEADER_BUILD_ID else adds_of h).

(** The members of the header in its words. *)
Definition h_magic (h : bytes) : Z := word 0 h.
Definition h_size (h : bytes) : Z := word 1 h.
Definition h_attr_size (h : bytes) : Z := word 2 h.
Definition h_attrs_offset (h : bytes) : Z := word 3 h.
Definition h_attrs_size (h : bytes) : Z := word 4 h.
Definition h_data_offset (h : bytes) : Z := word 5 h.
Definition h_data_size (h : bytes) : Z := word 6 h.

(** [stack] is what the memory of the header holds before. *)
Definition perf_file_header__read (stack : bytes) : FM bytes :=
  lseek 0;;
  '(ret, h) ← readn_into stack 0 sizeof_file_header;
  if ret <=? 0 then fail (-1) else
  or_return (-1) (check_magic_endian (h_magic h) (h_attr_size h) false);;
  h ← swap_buffer h offsetof_adds;
  s ← get_ph;
  adds ← (if negb (h_size h =? sizeof_file_header) then
            if h_size h =? offsetof_adds then mret 0 else fail (-1)
          else if s_needs_swap s then swap_adds h
          else mret (adds_of h));
  mod_ph (fun s => set_header (s_needs_swap s) (s_version s) (h_data_offset h) (h_data_size h)
                     (u64 (h_data_offset h + h_data_size h)) adds s);;
  mret h.

(** ** Attributes *)

(** The struct perf_file_attr that is read: the attribute and the section.  A size
    below that of the first version makes [left] wrap around. *)
Definition read_attr : FM bytes :=
  '(ret, f_attr) ← readn_into (zeros sizeof_file_attr) 0 PERF_ATTR_SIZE_VER0;
  if ret <=? 0 then fail (-1) else
  s ← get_ph;
  let sz := attr_size f_attr in
  let sz := if s_needs_swap s then bswap 4 sz else sz in
  let sz := if sz =? 0 then PERF_ATTR_SIZE_VER0 else sz in
  if sizeof_attr <? sz then fail (-1) else
  let left := sz -64 PERF_ATTR_SIZE_VER0 in
  f_attr ← (if negb (left =? 0) then
              '(_, f_attr) ← readn_into f_attr PERF_ATTR_SIZE_VER0 left; mret f_attr
            else mret f_attr);
  '(ret, f_attr) ← readn_into f_attr sizeof_attr 16;
  if ret <=? 0 then fail (-1) else mret f_attr.

Fixpoint read_file_ids (n : nat) : FM (list Z) :=
  match n with
  | O => mret []
  | S n => buf ← perf_header__getbuffer64 8; l ← read_file_ids n; mret (word 0 buf :: l)
  end.

Definition ENOMEM : Z := 12.
Definition EINVAL : Z := 22.

(** The sizes of the objects that are allocated. *)
Context (sizeof_evlist sizeof_evsel sizeof_sample_id : Z).

(** [goto out_delete_evlist] *)
Definition or_delete (m : FM unit) : FM unit := fun ff =>
  match m ff with
  | Fail _ ff => (mod_ph (set_evlist []);; fail (- ENOMEM)) ff
  | r => r
  end.

(** perf_evsel__alloc_id for one cpu: the array of sample ids and that of ids. *)
Definition perf_evsel__alloc_id (nthreads : Z) : FM unit :=
  if nthreads =? 0 then mret () else
  malloc (u64 (40 + nthreads * sizeof_sample_id)) (- ENOMEM);; malloc (u64 (nthreads * 8)) (- ENOMEM).

(** One event of the list; [errno] is that of the last failure. *)
Definition read_file_event (errno : Z) : FM unit :=
  f_attr ← or_return (- errno) read_attr;
  s ← get_ph;
  let ids := drop (Z.to_nat sizeof_attr) f_attr in
  ids ← (if s_needs_swap s then access_res (mem_bswap_64 ids 0 16) else mret ids);
  a ← (if s_needs_swap s then access_res (perf_event__attr_swap 0 (take (Z.to_nat sizeof_attr) f_attr))
       else mret (take (Z.to_nat sizeof_attr) f_attr));
  tmp ← tell;
  let nr_ids := sint 32 (word 1 ids / 8) in
  let idx := zlen (s_evlist s) in
  let evsel l := HeaderEvsel a l None idx idx None 0 (s_needs_swap s) in
  or_delete (malloc sizeof_evsel (- ENOMEM));;
  mod_ph (fun s => set_evlist (s_evlist s ++ [evsel []]) s);;
  or_delete (perf_evsel__alloc_id nr_ids);;
  lseek (word 0 ids);;
  l ← or_return (- errno) (read_file_ids (Z.to_nat nr_ids));
  mod_ph (fun s' => set_evlist (s_evlist s ++ [evsel l]) s');;
  lseek tmp;;
  mret ().

Fixpoint read_file_events (n : nat) (errno : Z) : FM unit :=
  match n with
  | O => mret ()
  | S n => read_file_event errno;; read_file_events n errno
  end.

Definition read_pipe_header (stack : bytes) : FM unit :=
  '(ret, h) ← readn_into stack 0 16;
  if ret <=? 0 then fail (- EINVAL) else
  or_return (- EINVAL) (check_magic_endian (word 0 h) (word 1 h) true).

Context (prepare : list header_evsel -> option (list header_evsel)).

(** A division by an attr_size of zero is a fault. *)
Definition perf_session__read_header (stack : bytes) (errno : Z) : FM unit :=
  malloc sizeof_evlist (- ENOMEM);;
  mod_ph (set_evlist []);;
  s ← get_ph;
  if s_is_pipe s then read_pipe_header stack else
  h ← or_return (- EINVAL) (perf_file_header__read stack);
  if h_attr_size h =? 0 then fault else
  let nr_attrs := sint 32 (h_attrs_size h / h_attr_size h) in
  lseek (h_attrs_offset h);;
  read_file_events (Z.to_nat nr_attrs) errno;;
  ret_of perf_header__process_sections;;
  s ← get_ph;
  match prepare (s_evlist s) with
  | Some evlist => mod_ph (set_evlist evlist)
  | None => mod_ph (set_evlist []);; fail (- ENOMEM)
  end.

End HeaderFile.

(** * Bytes in a file *)

(** From [off] on the file has the bytes [b]. *)
Definition has (d : bytes) (off : Z) (b : bytes) : Prop := exists rest, drop (Z.to_nat off) d = b ++ rest.

Lemma has_nil d off : has d off [].
Proof. by eexists. Qed.

Lemma has_app d off a b : 0 <= off -> has d off (a ++ b) <-> has d off a /\ has d (off + zlen a) b.
Proof.
  intros Ho. assert (E : forall rest, drop (Z.to_nat off) d = a ++ rest -> drop (Z.to_nat (off + zlen a)) d = rest).
  { intros rest Hr. replace (Z.to_nat (off + zlen a)) with (Z.to_nat off + length a)%nat by (unfold zlen; lia).
    by rewrite <- drop_drop, Hr, drop_app_length. }
  split.
  - intros [rest Hr]. rewrite <- app_assoc in Hr. split; [by eexists|]. exists rest. by apply E.
  - intros [[r1 H1] [r2 H2]]. exists r2. rewrite H1, <- app_assoc. f_equal. by rewrite <- H2, (E r1 H1).
Qed.

(** Bytes at an offset lie within the file. *)
Lemma has_inside d off b : 0 <= off -> has d off b -> b = [] \/ off + zlen b <= zlen d.
Proof.
  intros Ho [rest E]. destruct b as [|x b]; [by left|right]. apply (f_equal length) in E.
  rewrite length_drop, length_app in E. unfold zlen. cbn [length] in *. lia.
Qed.

Lemma drop_write_at d pos bs : 0 <= pos ->
  drop (Z.to_nat pos) (write_at d pos bs) = bs ++ drop (Z.to_nat pos + length bs) d.
Proof.
  intros Hp. unfold write_at. by rewrite drop_app_ge, length_before, Nat.sub_diag by (rewrite ?length_before by done; lia).
Qed.

Lemma has_here d pos bs : 0 <= pos -> has (write_at d pos bs) pos bs.
Proof. intros Hp. eexists. by apply drop_write_at. Qed.

Lemma has_after d pos bs off b : 0 <= pos -> pos + zlen bs <= off -> has d off b -> has (write_at d pos bs) off b.
Proof.
  intros Hp Ho [rest E]. pose proof (zlen_nonneg bs). exists rest.
  replace (Z.to_nat off) with (Z.to_nat pos + (length bs + Z.to_nat (off - pos - zlen bs)))%nat by (unfold zlen in *; lia).
  rewrite <- drop_drop, drop_write_at by done. rewrite <- drop_drop, drop_app_length, drop_drop, <- E. f_equal. unfold zlen in *. lia.
Qed.

Lemma has_before d pos bs off b : 0 <= off -> off + zlen b <= pos -> has d off b -> has (write_at d pos bs) off b.
Proof.
  intros Ho Hb Hh. destruct (has_inside d off b Ho Hh) as [->|Hin]; [apply has_nil|]. destruct Hh as [rest E].
  unfold has, write_at. pose proof (zlen_nonneg b).
  rewrite drop_app_le by (rewrite length_before; unfold zlen in *; lia).
  rewrite skipn_firstn_comm, drop_app_le by (unfold zlen in *; lia). rewrite E, <- !app_assoc.
  rewrite take_app_ge by (unfold zlen in *; lia). rewrite <- !app_assoc. by eexists.
Qed.

(** The same for what writen stores. *)
Lemma has_append_after f bs off b : 0 <= f_pos f -> f_pos f + zlen bs <= off ->
  has (f_data f) off b -> has (f_data (append bs f)) off b.
Proof. destruct bs; [done|]. apply has_after. Qed.

Lemma has_append_before f bs off b : 0 <= off -> off + zlen b <= f_pos f ->
  has (f_data f) off b -> has (f_data (append bs f)) off b.
Proof. destruct bs; [done|]. apply has_before. Qed.

(** The sections of a list one behind the other. *)
Fixpoint laid (d : bytes) (pos : Z) (l : list bytes) : Prop :=
  match l with
  | [] => True
  | b :: l => has d pos b /\ laid d (pos + zlen b) l
  end.

Lemma laid_iff d pos l : 0 <= pos -> laid d pos l <-> has d pos (concat l).
Proof.
  revert pos. induction l as [|b l IH]; intros pos Hp; cbn [laid concat].
  - split; [intros; apply has_nil|done].
  - pose proof (zlen_nonneg b). rewrite has_app, IH by lia. done.
Qed.

Fixpoint placed (pos : Z) (l : list bytes) : list (Z * Z) :=
  match l with
  | [] => []
  | b :: l => (pos, zlen b) :: placed (pos + zlen b) l
  end.

Lemma length_placed pos l : length (placed pos l) = length l.
Proof. revert pos. induction l as [|b l IH]; intros pos; cbn [placed length]; [done|by rewrite IH]. Qed.

(** * Writing a data file *)

#[local] Opaque seqZ.

Section WriteFile.
Context `{KernelOk}.
Context (feat_ops : Z -> feature_ops) (attr : header_evsel -> bytes).
Context (limit_ok : file_limit < 2 ^ 63).

(** The file [f] and the session [s]. *)
Definition on (f : file) (s : session) : feat_fd := FeatFd (Some s) f None 0 0 None.

Lemma write_on bs f s : 0 <= f_pos f -> f_pos f + zlen bs <= file_limit ->
  do_write bs (on f s) = Done () (on (append bs f) s).
Proof.
  intros Hp Hl. pose proof (zlen_nonneg bs).
  pose proof (Emits_write (Some s) bs (on f s)) as Hw. unfold sink_ok, room, on in Hw. cbn in Hw.
  rewrite decide_True in Hw by done. destruct Hw as (ff' & E & ->); [lia|done|]. exact E.
Qed.

Lemma lseek_on off f s : 0 <= off < 2 ^ 63 -> lseek off (on f s) = Done true (on (lseek_set off f) s).
Proof.
  intros Ho. unfold lseek. assert (E : sint 64 off = off).
  { unfold sint. rewrite Z.mod_small by lia. replace (off <? 2 ^ (64 - 1)) with true by lia. done. }
  rewrite E. by replace (off <? 0) with false by lia.
Qed.

Definition ids_bytes (e : header_evsel) : bytes := he_ids e ≫= int_bytes 8.
Fixpoint id_offsets (pos : Z) (l : list header_evsel) : list Z :=
  match l with
  | [] => []
  | e :: l => pos :: id_offsets (pos + zlen (ids_bytes e)) l
  end.

Lemma write_ids_on l : forall f s, 0 <= f_pos f -> f_pos f + zlen (l ≫= ids_bytes) <= file_limit ->
  write_ids l (on f s) = Done (id_offsets (f_pos f) l) (on (append (l ≫= ids_bytes) f) s).
Proof.
  induction l as [|e l IH]; intros f s Hp Hl; [done|]. rewrite bind_cons in *. rewrite zlen_app in Hl.
  pose proof (zlen_nonneg (ids_bytes e)). pose proof (zlen_nonneg (l ≫= ids_bytes)).
  cbn [write_ids id_offsets]. unfold mbind at 1, FM_bind at 1, tell. cbn [on ff_fd].
  unfold mbind at 1, FM_bind at 1. rewrite (write_on (he_ids e ≫= int_bytes 8)) by (fold (ids_bytes e); lia).
  fold (ids_bytes e). unfold mbind at 1, FM_bind at 1. rewrite IH by (rewrite append_pos; lia).
  rewrite append_pos, append_app by done. done.
Qed.

Fixpoint attrs_bytes (l : list header_evsel) (offs : list Z) : bytes :=
  match l, offs with
  | e :: l, off :: offs => file_attr attr e off ++ attrs_bytes l offs
  | _, _ => []
  end.

Lemma write_attrs_on l : forall offs f s, 0 <= f_pos f -> f_pos f + zlen (attrs_bytes l offs) <= file_limit ->
  write_attrs attr l offs (on f s) = Done () (on (append (attrs_bytes l offs) f) s).
Proof.
  induction l as [|e l IH]; intros [|off offs] f s Hp Hl; try done. cbn [attrs_bytes write_attrs] in *.
  rewrite zlen_app in Hl. pose proof (zlen_nonneg (file_attr attr e off)). pose proof (zlen_nonneg (attrs_bytes l offs)).
  unfold mbind at 1, FM_bind at 1. rewrite write_on by lia. rewrite IH by (rewrite append_pos; lia).
  by rewrite append_app.
Qed.

(** What the writer of a feature stores for the session [s], whatever the bitmap;
    [None] for one that is missing or fails. *)
Context (out : Z -> option bytes).

Definition writer_ok (s : session) (feat : Z) : Prop :=
  match out feat with
  | Some bs => exists w, op_write (feat_ops feat) = Some w /\ forall adds, EmitsRoom (Some (set_adds adds s)) w bs
  | None =>
      match op_write (feat_ops feat) with
      | None => True
      | Some w => forall adds ff, sink_ok ff -> ff_ph ff = Some (set_adds adds s) ->
          exists e ff' junk, w ff = Fail e ff' /\ e < 0 /\ wrote ff junk ff' /\ room ff (zlen junk)
      end
  end.

Definition kept (adds : Z) (feats : list Z) : list Z :=
  filter (fun i => Z.testbit adds i = true /\ is_Some (out i)) feats.
Definition section (feat : Z) : bytes := default [] (out feat).
Fixpoint after_drops (adds : Z) (feats : list Z) : Z :=
  match feats with
  | [] => adds
  | i :: feats =>
      after_drops (if Z.testbit adds i then match out i with Some _ => adds | None => Z.clearbit adds i end else adds) feats
  end.

Lemma set_adds_adds a b s : set_adds a (set_adds b s) = set_adds a s.
Proof. done. Qed.

Lemma do_write_feat_eq s feat secs at_p f w : Z.testbit (s_adds_features s) feat = true -> feat < HEADER_LAST_FEATURE ->
  op_write (feat_ops feat) = Some w ->
  do_write_feat feat_ops feat (secs, at_p) (on f s) =
  match ret_of w (on f s) with
  | Done err ff => if err <? 0 then (lseek (f_pos f);; mret (true, (secs, f_pos f))) ff
                   else (cur ← tell; mret (false, (secs ++ [(f_pos f, u64 (cur - f_pos f))], 0))) ff
  | Fail e ff => Fail e ff | Fault => Fault | Hang => Hang
  end.
Proof.
  intros Hb Hf Ew. unfold do_write_feat, perf_header__has_feat, mbind, FM_bind, on. rewrite Ew.
  cbn [get_ph ff_ph]. rewrite Hb. replace (HEADER_LAST_FEATURE <=? feat) with false by lia.
  cbn [in_pipe_mode ff_buf tell ff_fd].
  destruct (ret_of w _) as [err ff| | |]; [|done..]. by destruct (err <? 0).
Qed.

Lemma write_feat_on s adds feat secs at_p f : Z.testbit adds feat = true -> feat < HEADER_LAST_FEATURE ->
  writer_ok s feat -> 0 <= f_pos f -> f_pos f + zlen (section feat) <= file_limit ->
  match out feat with
  | Some bs => do_write_feat feat_ops feat (secs, at_p) (on f (set_adds adds s)) =
                 Done (false, (secs ++ [(f_pos f, zlen bs)], 0)) (on (append bs f) (set_adds adds s))
  | None => exists junk at_p', do_write_feat feat_ops feat (secs, at_p) (on f (set_adds adds s)) =
                 Done (true, (secs, at_p')) (on (File (f_data (append junk f)) (f_pos f)) (set_adds adds s))
  end.
Proof.
  intros Hb Hf Hw Hp Hl. unfold writer_ok, section in *.
  assert (Hs : sink_ok (on f (set_adds adds s))).
  { unfold sink_ok. cbn. pose proof (zlen_nonneg (default [] (out feat))). lia. }
  destruct (out feat) as [bs|]; cbn [from_option id] in *.
  - destruct Hw as (w & Ew & Hw). destruct (Hw adds (on f (set_adds adds s)) Hs eq_refl Hl) as ([] & ff' & E & ->).
    rewrite (do_write_feat_eq _ _ _ _ _ w) by done. unfold ret_of. rewrite E.
    cbn [Z.ltb Z.compare]. unfold mbind, FM_bind, tell. cbn [put_fd ff_fd on].
    rewrite append_pos. replace (f_pos f + zlen bs - f_pos f) with (zlen bs) by lia.
    by rewrite u64_small by (pose proof (zlen_nonneg bs); lia).
  - destruct (op_write (feat_ops feat)) as [w|] eqn:Ew.
    + destruct (Hw adds (on f (set_adds adds s)) Hs eq_refl) as (e & ff' & junk & E & He & -> & Hj). exists junk, (f_pos f).
      rewrite (do_write_feat_eq _ _ _ _ _ w) by done. unfold ret_of. rewrite E. replace (e <? 0) with true by lia.
      change (put_fd (append junk (ff_fd (on f (set_adds adds s)))) (on f (set_adds adds s)))
        with (on (append junk f) (set_adds adds s)).
      unfold mbind, FM_bind. rewrite lseek_on by (rewrite (zlen_nil (A := Z)) in Hl; lia). done.
    + exists [], at_p. unfold do_write_feat, perf_header__has_feat, mbind, FM_bind. rewrite Ew.
      cbn [get_ph on ff_ph set_adds set_header s_adds_features].
      rewrite Hb. replace (HEADER_LAST_FEATURE <=? feat) with false by lia. by destruct f.
Qed.

Lemma adds_loop_cons feat feats p f s :
  adds_loop feat_ops (feat :: feats) p (on f s) =
  if Z.testbit (s_adds_features s) feat then
    match do_write_feat feat_ops feat p (on f s) with
    | Done (err, p) ff => ((if (err : bool) then mod_ph (perf_header__clear_feat feat) else mret ());;
                           adds_loop feat_ops feats p) ff
    | Fail e ff => Fail e ff | Fault => Fault | Hang => Hang
    end
  else adds_loop feat_ops feats p (on f s).
Proof.
  cbn [adds_loop]. unfold mbind, FM_bind, on. cbn [get_ph ff_ph]. unfold perf_header__has_feat.
  destruct (Z.testbit (s_adds_features s) feat); [|done].
  destruct (do_write_feat feat_ops feat p _) as [[[] p'] ff'| | |]; try done.
  by destruct (mod_ph (perf_header__clear_feat feat) ff').
Qed.

Lemma testbit_clear_other a i j : i <> j -> Z.testbit (Z.clearbit a i) j = Z.testbit a j.
Proof. intros. rewrite Z.clearbit_spec', Z.ldiff_spec, Z.pow2_bits_false by done. by rewrite andb_true_r. Qed.

Lemma kept_ext a b feats : (forall j, j ∈ feats -> Z.testbit a j = Z.testbit b j) -> kept a feats = kept b feats.
Proof.
  induction feats as [|i feats IH]; intros He; [done|]. unfold kept in *. rewrite !filter_cons.
  rewrite IH by (intros; apply He; by right). rewrite (He i) by left. done.
Qed.

(** The features in turn: sections are laid one behind the other, what lies
    before them stays, and the bits of features that failed are cleared. *)
Lemma adds_loop_on s feats : forall adds secs at_p f, NoDup feats ->
  (forall i, i ∈ feats -> Z.testbit adds i = true -> 0 <= i < HEADER_LAST_FEATURE /\ writer_ok s i) ->
  0 <= f_pos f -> f_pos f + zlen (concat (section <$> kept adds feats)) <= file_limit ->
  exists f' at_p', adds_loop feat_ops feats (secs, at_p) (on f (set_adds adds s)) =
      Done (secs ++ placed (f_pos f) (section <$> kept adds feats), at_p') (on f' (set_adds (after_drops adds feats) s)) /\
    laid (f_data f') (f_pos f) (section <$> kept adds feats) /\
    (forall off b, 0 <= off -> off + zlen b <= f_pos f -> has (f_data f) off b -> has (f_data f') off b).
Proof.
  induction feats as [|i feats IH]; intros adds secs at_p f Hnd Hok Hp Hl.
  - exists f, at_p. cbn [kept adds_loop filter list_filter fmap list_fmap placed laid after_drops]. by rewrite app_nil_r.
  - apply NoDup_cons in Hnd as [Hni Hnd]. rewrite adds_loop_cons. cbn [set_adds set_header s_adds_features after_drops].
    assert (Hkeep : forall a, (forall j, j ∈ feats -> Z.testbit a j = Z.testbit adds j) -> kept a feats = kept adds feats).
    { intros a Ha. by apply kept_ext. }
    destruct (Z.testbit adds i) eqn:Eb.
    + destruct (Hok i ltac:(left) Eb) as [Hi Hw]. unfold kept in Hl |- *. rewrite filter_cons in Hl |- *.
      fold (kept adds feats) in Hl |- *.
      pose proof (write_feat_on s adds i secs at_p f Eb ltac:(lia) Hw Hp) as Hstep. destruct (out i) as [bs|] eqn:Eo.
      * rewrite decide_True in Hl |- * by (split; [done|by eexists]). cbn [fmap list_fmap concat placed laid] in Hl |- *.
        assert (Es : section i = bs) by (unfold section; by rewrite Eo). rewrite Es, zlen_app in *.
        pose proof (zlen_nonneg bs). pose proof (zlen_nonneg (concat (section <$> kept adds feats))).
        rewrite Hstep by lia. cbn.
        destruct (IH adds (secs ++ [(f_pos f, zlen bs)]) 0 (append bs f) Hnd) as (f' & at_p' & E & Hlaid & Hkp).
        { intros j Hj Hbj. apply Hok; [by right|done]. }
        { rewrite append_pos. lia. }
        { rewrite append_pos. lia. }
        exists f', at_p'. unfold mbind, FM_bind, mret, FM_ret. rewrite E, append_pos, <- app_assoc. split; [done|].
        rewrite append_pos in Hlaid, Hkp. split.
        -- split; [|done]. apply Hkp; [done|done|]. eexists. by apply drop_append.
        -- intros off b Ho Hb Hh. pose proof (zlen_nonneg b). apply Hkp; [done|lia|].
           by apply has_append_before.
      * rewrite decide_False in Hl |- * by (intros [_ [? ?]]; congruence).
        destruct Hstep as (junk & at_p1 & ->).
        { unfold section. rewrite Eo. cbn. rewrite zlen_nil. pose proof (zlen_nonneg (concat (section <$> kept adds feats))). lia. }
        unfold mbind, FM_bind, mod_ph. cbn [on ff_ph put_ph ff_fd ff_buf ff_offset ff_size ff_events].
        unfold perf_header__clear_feat. cbn [set_adds set_header s_adds_features].
        set (f1 := File (f_data (append junk f)) (f_pos f)).
        destruct (IH (Z.clearbit adds i) secs at_p1 f1 Hnd) as (f' & at_p' & E & Hlaid & Hkp).
        { intros j Hj Hbj. apply Hok; [by right|]. rewrite testbit_clear_other in Hbj; [done|]. by intros ->. }
        { done. }
        { rewrite Hkeep; [done|]. intros j Hj. apply testbit_clear_other. by intros ->. }
        rewrite Hkeep in E, Hlaid by (intros j Hj; apply testbit_clear_other; by intros ->).
        exists f', at_p'. split; [exact E|]. split; [done|]. intros off b Ho Hb Hh. apply Hkp; [done|done|].
        by apply has_append_before.
    + destruct (IH adds secs at_p f Hnd) as (f' & at_p' & E & Hlaid & Hkp).
      { intros j Hj Hbj. apply Hok; [by right|done]. }
      { done. }
      { unfold kept in Hl |- *. rewrite filter_cons, decide_False in Hl by (intros [? _]; congruence). done. }
      exists f', at_p'. unfold kept in *. rewrite filter_cons, decide_False by (intros [? _]; congruence).
      split; [exact E|done].
Qed.

(** ** The layout of the file *)

Definition attr_offset_of (l : list header_evsel) : Z := sizeof_file_header + zlen (l ≫= ids_bytes).
Definition file_attrs (l : list header_evsel) : bytes := attrs_bytes l (id_offsets sizeof_file_header l).
Definition attrs_end (l : list header_evsel) : Z := attr_offset_of l + zlen (file_attrs l).
Definition data_start (s : session) : Z :=
  if s_data_offset s =? 0 then attrs_end (s_evlist s) else s_data_offset s.
Definition feat_start (s : session) : Z := data_start s + s_data_size s.
Definition secs_start (s : session) : Z := feat_start s + 16 * zlen (features (s_adds_features s)).
Definition stored_secs (s : session) : list bytes := section <$> kept (s_adds_features s) (seqZ 0 HEADER_FEAT_BITS).
Definition stored_adds (s : session) : Z := after_drops (s_adds_features s) (seqZ 0 HEADER_FEAT_BITS).
(** The session while the features are written, and at the end. *)
Definition located (s : session) : session :=
  set_header (s_needs_swap s) (s_version s) (data_start s) (s_data_size s) (feat_start s) (s_adds_features s) s.
Definition written (s : session) : session := set_adds (stored_adds s) (located s).
Definition stored_table (s : session) (at_p : Z) : bytes :=
  section_table (placed (secs_start s) (stored_secs s), at_p) (16 * zlen (features (s_adds_features s))).
Definition stored_header (s : session) : bytes :=
  file_header (attr_offset_of (s_evlist s)) (zlen (s_evlist s)) (data_start s) (s_data_size s) (stored_adds s).

(** The header, the features and the writers fit the file, in that order. *)
Record writable (s : session) : Prop := {
  w_data : attrs_end (s_evlist s) <= data_start s;
  w_size : 0 <= s_data_size s;
  w_room : secs_start s + zlen (concat (stored_secs s)) <= file_limit;
  w_ops : forall i, 0 <= i < HEADER_FEAT_BITS -> Z.testbit (s_adds_features s) i = true ->
    i < HEADER_LAST_FEATURE /\ writer_ok (located s) i
}.

Lemma step_done {A B} (m : FM A) (k : A -> FM B) ff a ff' : m ff = Done a ff' -> (m ≫= k) ff = k a ff'.
Proof. unfold mbind, FM_bind. by intros ->. Qed.

Lemma zlen_words (ws : list Z) : zlen (ws ≫= int_bytes 8) = 8 * zlen ws.
Proof. induction ws as [|w ws IH]; [done|]. rewrite bind_cons, zlen_app, zlen_cons, IH, zlen_int_bytes. lia. Qed.

Lemma features_few adds : 0 <= zlen (features adds) <= 256.
Proof.
  split; [apply zlen_nonneg|]. unfold features, zlen.
  pose proof (length_filter (fun i => Z.testbit adds i = true) (seqZ 0 HEADER_FEAT_BITS)) as Hf.
  rewrite length_seqZ in Hf. unfold HEADER_FEAT_BITS in *. lia.
Qed.

Lemma kept_features adds feats : kept adds feats = filter (fun i => is_Some (out i)) (filter (fun i => Z.testbit adds i = true) feats).
Proof.
  unfold kept. induction feats as [|i feats IH]; [done|]. rewrite !filter_cons, IH.
  destruct (decide (Z.testbit adds i = true)) as [Hb|Hb].
  - rewrite filter_cons. destruct (decide (is_Some (out i))); [by rewrite decide_True|by rewrite decide_False by tauto].
  - by rewrite decide_False by tauto.
Qed.

Lemma zlen_section_table secs at_p n : 0 <= n - 16 * zlen secs -> zlen (section_table (secs, at_p) n) = n.
Proof.
  intros Hn. unfold section_table. cbn [fst snd].
  set (left := n - 16 * zlen secs) in *.
  assert (El : zlen (take (Z.to_nat left) (section_bytes (at_p, 0) ++ zeros left)) = left).
  { pose proof (zlen_zeros left Hn) as Hz. unfold zlen in *. rewrite length_take, length_app. lia. }
  rewrite zlen_app, El.
  assert (E : zlen (secs ≫= section_bytes) = 16 * zlen secs); [|lia].
  clear Hn El. subst left. induction secs as [|sec secs IH]; [done|]. rewrite bind_cons, zlen_app, zlen_cons, IH.
  unfold section_bytes. rewrite zlen_app, !zlen_int_bytes. lia.
Qed.

Lemma zlen_stored_table s at_p : zlen (stored_table s at_p) = 16 * zlen (features (s_adds_features s)).
Proof.
  apply zlen_section_table. unfold zlen. rewrite length_placed. unfold stored_secs. rewrite length_fmap, kept_features.
  unfold features. pose proof (length_filter (fun i => is_Some (out i)) (filter (fun i => Z.testbit (s_adds_features s) i = true) (seqZ 0 HEADER_FEAT_BITS))).
  lia.
Qed.

(** perf_header__adds_write: the table of sections and, behind it, the sections. *)
Lemma adds_write_on f s : writable s -> 0 <= feat_start s ->
  exists f' at_p, perf_header__adds_write feat_ops (on f (located s)) = Done () (on f' (written s)) /\
    has (f_data f') (feat_start s) (stored_table s at_p) /\ laid (f_data f') (secs_start s) (stored_secs s) /\
    (forall off b, 0 <= off -> off + zlen b <= feat_start s -> has (f_data f) off b -> has (f_data f') off b).
Proof.
  intros [Hd Hsz Hr Ho] Hfs. pose proof (features_few (s_adds_features s)) as Hn. pose proof (zlen_stored_table s) as Hzt'.
  pose proof (zlen_nonneg (concat (stored_secs s))). unfold perf_header__adds_write.
  erewrite step_done by done. cbn [located set_header s_adds_features s_feat_offset].
  destruct (Z.eqb_spec (zlen (features (s_adds_features s))) 0) as [E|E].
  - assert (En : features (s_adds_features s) = []).
    { destruct (features (s_adds_features s)) as [|x l]; [done|]. rewrite zlen_cons in E. pose proof (zlen_nonneg l). lia. }
    assert (Ek : kept (s_adds_features s) (seqZ 0 HEADER_FEAT_BITS) = []).
    { rewrite kept_features. unfold features in En. by rewrite En. }
    exists f, 0. pose proof (Hzt' 0) as Hzt. rewrite E in Hzt. destruct (stored_table s 0) as [|x l]; [|rewrite zlen_cons in Hzt; pose proof (zlen_nonneg l); lia].
    split; [|split; [apply has_nil|]; unfold stored_secs; by rewrite Ek].
    unfold written, stored_adds. assert (Ea : forall feats a, filter (fun i => Z.testbit a i = true) feats = [] -> after_drops a feats = a).
    { clear. induction feats as [|i feats IH]; intros a; [done|]. rewrite filter_cons. cbn [after_drops].
      destruct (decide (Z.testbit a i = true)) as [|Hb]; [done|]. destruct (Z.testbit a i); [done|]. apply IH. }
    by rewrite (Ea _ _ En).
  - assert (Hma : alloc (16 * zlen (features (s_adds_features s))) = true) by (apply memory; lia).
    unfold malloc. rewrite Hma. erewrite step_done by done.
    unfold secs_start in *. rewrite u64_small by lia.
    erewrite step_done by (apply lseek_on; lia).
    set (f0 := lseek_set _ f).
    destruct (adds_loop_on (located s) (seqZ 0 HEADER_FEAT_BITS) (s_adds_features s) [] 0 f0) as (f1 & at_p & E1 & Hl1 & Hk1).
    { apply NoDup_seqZ. }
    { intros i Hi Hb. apply elem_of_seqZ in Hi. destruct (Ho i ltac:(lia) Hb). split; [lia|done]. }
    { cbn. lia. }
    { cbn. exact Hr. }
    fold (stored_adds s) in E1. fold (written s) in E1. fold (stored_secs s) in E1, Hl1.
    rewrite (step_done _ _ _ _ _ E1). cbn [app].
    erewrite step_done by (apply lseek_on; lia).
    pose proof (Hzt' at_p) as Hzt.
    change (section_table (placed (f_pos f0) _, at_p) _) with (stored_table s at_p).
    exists (append (stored_table s at_p) (lseek_set (feat_start s) f1)), at_p. split; [apply write_on; cbn [lseek_set f_pos]; lia|].
    assert (Hap : f_data (append (stored_table s at_p) (lseek_set (feat_start s) f1)) = write_at (f_data f1) (feat_start s) (stored_table s at_p)).
    { destruct (stored_table s at_p); [rewrite zlen_nil in Hzt; lia|done]. }
    rewrite Hap. split; [by apply has_here|]. split.
    + cbn [f0 f_pos lseek_set] in Hl1. apply laid_iff in Hl1; [|lia]. apply laid_iff; [lia|]. apply has_after; [lia|lia|done].
    + intros off b Hoff Hb Hh. apply has_before; [done|done|]. apply Hk1; [done| |exact Hh]. cbn [f0 f_pos lseek_set]. lia.
Qed.

(** perf_session__write_header at the end of a recording: where everything lies. *)
Lemma write_header_on f s : writable s ->
  exists f' at_p, perf_session__write_header feat_ops attr true (on f s) = Done () (on f' (written s)) /\
    has (f_data f') 0 (stored_header s) /\
    has (f_data f') sizeof_file_header ((s_evlist s ≫= ids_bytes) ++ file_attrs (s_evlist s)) /\
    has (f_data f') (feat_start s) (stored_table s at_p) /\ laid (f_data f') (secs_start s) (stored_secs s) /\
    (forall off b, data_start s <= off -> off + zlen b <= feat_start s -> has (f_data f) off b -> has (f_data f') off b).
Proof.
  intros Hw. pose proof Hw as [Hd Hsz Hr Ho]. pose proof (features_few (s_adds_features s)) as Hn.
  pose proof (zlen_nonneg (concat (stored_secs s))). unfold secs_start, feat_start in Hr.
  set (ib := s_evlist s ≫= ids_bytes) in *. set (ab := file_attrs (s_evlist s)) in *.
  pose proof (zlen_nonneg ib) as Hib. pose proof (zlen_nonneg ab) as Hab.
  assert (He : attrs_end (s_evlist s) = 104 + zlen ib + zlen ab) by done. assert (Hh : sizeof_file_header = 104) by done.
  unfold perf_session__write_header. erewrite step_done by (apply lseek_on; lia). erewrite step_done by done.
  erewrite step_done by (apply write_ids_on; cbn; [lia|fold ib; lia]). cbn [f_pos lseek_set]. fold ib.
  erewrite step_done by done. cbn [on ff_fd]. rewrite append_pos. cbn [lseek_set f_pos].
  change (FeatFd (Some s) ?f None 0 0 None) with (on f s).
  erewrite step_done by (apply write_attrs_on; rewrite append_pos; cbn; [lia|fold (file_attrs (s_evlist s)); fold ab; lia]).
  fold (file_attrs (s_evlist s)). fold ab. rewrite append_app by (cbn; lia). set (f1 := append (ib ++ ab) _).
  erewrite step_done by done. cbn [on ff_fd].
  assert (Hp1 : f_pos f1 = attrs_end (s_evlist s)).
  { unfold f1. rewrite append_pos, zlen_app, He. cbn. lia. }
  rewrite Hp1. fold (data_start s). change (FeatFd (Some s) f1 None 0 0 None) with (on f1 s).
  assert (Em : mod_ph (fun s' => set_header (s_needs_swap s') (s_version s') (data_start s) (s_data_size s')
    (u64 (data_start s + s_data_size s')) (s_adds_features s') s') (on f1 s) = Done () (on f1 (located s))).
  { unfold mod_ph, located, feat_start. cbn [on ff_ph]. rewrite u64_small by lia. done. }
  rewrite (step_done _ _ _ _ _ Em).
  destruct (adds_write_on f1 s Hw) as (f2 & at_p & E2 & Ht & Hl & Hk); [unfold feat_start; lia|].
  cbv beta iota. rewrite (step_done _ _ _ _ _ E2). erewrite step_done by done.
  erewrite step_done by (apply lseek_on; lia).
  change (file_header _ _ _ _ _) with (stored_header s).
  assert (Hzh : zlen (stored_header s) = 104) by (unfold stored_header, file_header; by rewrite zlen_words).
  erewrite step_done by (apply write_on; cbn [lseek_set f_pos]; lia).
  change (s_data_offset (written s) + s_data_size (written s)) with (feat_start s).
  unfold feat_start. rewrite u64_small by lia. erewrite step_done by (apply lseek_on; lia).
  eexists _, at_p. split; [reflexivity|].
  assert (Hap : f_data (lseek_set (data_start s + s_data_size s) (append (stored_header s) (lseek_set 0 f2)))
    = write_at (f_data f2) 0 (stored_header s)) by (destruct (stored_header s); [rewrite zlen_nil in Hzh; lia|done]).
  rewrite Hap. fold (feat_start s). split; [by apply has_here|].
  assert (Hfs : 104 <= feat_start s) by (unfold feat_start; lia). split.
  { apply has_after; [lia|lia|]. apply Hk; [lia|rewrite zlen_app; unfold feat_start; lia|].
    eexists. apply (drop_append (ib ++ ab) (lseek_set sizeof_file_header f)). cbn. lia. }
  split; [apply has_after; [lia|lia|done]|]. split.
  { unfold secs_start in *. apply laid_iff in Hl; [|lia]. apply laid_iff; [lia|]. apply has_after; [lia|lia|done]. }
  intros off b Hoff Hb Hd'. apply has_after; [lia|lia|]. apply Hk; [lia|done|].
  apply has_append_after; [cbn; lia| |exact Hd']. rewrite zlen_app. cbn [lseek_set f_pos]. lia.
Qed.

End WriteFile.

(** * Reading a data file *)

Section ReadFile.
Context `{KernelOk}.

Lemma readn_into_on buf off bs n f s buf' : 0 <= f_pos f -> n = zlen bs -> has (f_data f) (f_pos f) bs ->
  wrn buf off bs = Some buf' ->
  readn_into buf off n (on f s) = Done (n, buf') (on (File (f_data f) (f_pos f + n)) s).
Proof.
  intros Hp -> [rest E] Hw. unfold readn_into. cbn [on ff_fd]. pose proof (zlen_nonneg bs). pose proof (zlen_nonneg rest).
  rewrite readn_ok by (done || lia). rewrite E. cbv zeta. rewrite zlen_app. replace (zlen bs <=? zlen bs + zlen rest) with true by lia.
  rewrite to_nat_zlen, take_app_length, Hw. done.
Qed.

(** Words as the reader sees them. *)
Definition native_words (ws : list Z) : bytes := ws ≫= le_bytes 8.

Lemma zlen_native ws : zlen (native_words ws) = 8 * zlen ws.
Proof.
  unfold native_words. induction ws as [|w ws IH]; [done|]. rewrite bind_cons, zlen_app, zlen_cons, IH, zlen_le_bytes. lia.
Qed.

Lemma word_native ws post i w : ws !! Z.to_nat i = Some w -> 0 <= i -> is_uint 64 w ->
  word i (native_words ws ++ post) = w.
Proof.
  intros Hl Hi Hw. unfold word, native_words. revert i Hl Hi. induction ws as [|v ws IH]; intros i Hl Hi; [done|].
  rewrite bind_cons, <- app_assoc. destruct (decide (i = 0)) as [->|Hne].
  - injection Hl as ->. change (Z.to_nat (8 * 0)) with 0%nat.
    rewrite drop_0, take_app_le, take_ge by (rewrite length_le_bytes; lia).
    rewrite le_val_bytes. apply Z.mod_small. exact Hw.
  - replace (Z.to_nat i) with (S (Z.to_nat (i - 1))) in Hl by lia. specialize (IH (i - 1) Hl ltac:(lia)).
    replace (Z.to_nat (8 * i)) with (length (le_bytes 8 v) + Z.to_nat (8 * (i - 1)))%nat by (rewrite length_le_bytes; lia).
    by rewrite drop_app_add.
Qed.

Lemma foreign_words ws : big_endian = true -> foreign (Int 8 <$> ws) = ws ≫= int_bytes 8.
Proof.
  intros E. unfold foreign. induction ws as [|w ws IH]; [done|]. cbn [fmap list_fmap]. rewrite !bind_cons, IH.
  unfold int_bytes. by rewrite E.
Qed.

Lemma native_int8 ws : native (Int 8 <$> ws) = native_words ws.
Proof.
  unfold native, native_words. induction ws as [|w ws IH]; [done|]. cbn [fmap list_fmap]. by rewrite !bind_cons, IH.
Qed.

Lemma int_words ws : big_endian = false -> ws ≫= int_bytes 8 = native_words ws.
Proof.
  intros E. unfold native_words. induction ws as [|w ws IH]; [done|]. rewrite !bind_cons, IH. unfold int_bytes. by rewrite E.
Qed.

Lemma bswap_words ws pre post off size : big_endian = true -> off = zlen pre -> size = 8 * zlen ws ->
  mem_bswap_64 (pre ++ (ws ≫= int_bytes 8) ++ post) off size = Ok (pre ++ native_words ws ++ post).
Proof. intros E -> ->. rewrite <- foreign_words, <- native_int8 by done. by apply mem_bswap_64_words. Qed.

Lemma swap_buffer_on ws post size f s : swapped s -> size = 8 * zlen ws ->
  swap_buffer ((ws ≫= int_bytes 8) ++ post) size (on f s) = Done (native_words ws ++ post) (on f s).
Proof.
  intros Hs ->. unfold swap_buffer. erewrite step_done by done. rewrite Hs. destruct big_endian eqn:E.
  - pose proof (bswap_words ws [] post 0 _ E eq_refl eq_refl) as Hb. cbn [app] in Hb. by rewrite Hb.
  - by rewrite int_words.
Qed.

Lemma getbuffer64_on ws size f s : swapped s -> 0 <= f_pos f -> size = 8 * zlen ws -> 0 < size ->
  has (f_data f) (f_pos f) (ws ≫= int_bytes 8) ->
  perf_header__getbuffer64 size (on f s) = Done (native_words ws) (on (File (f_data f) (f_pos f + size)) s).
Proof.
  intros Hs Hp -> Hz Hh. unfold perf_header__getbuffer64.
  assert (E : 8 * zlen ws = zlen (ws ≫= int_bytes 8)) by (by rewrite zlen_words).
  erewrite step_done by (apply (readn_into_on _ _ (ws ≫= int_bytes 8)); [done|done|done|apply (wrn_zeros []); [done|lia]]).
  cbn [app]. replace (8 * zlen ws <=? 0) with false by lia. rewrite <- E, Z.sub_diag. change (zeros 0) with ([] : bytes).
  rewrite <- (app_nil_r (native_words ws)). by apply swap_buffer_on.
Qed.

(** ** The file header *)

Lemma magic_native : (if big_endian then magic2_sw else magic2) = le_val (int_bytes 8 magic2).
Proof. unfold int_bytes. by destruct big_endian. Qed.

Lemma check_magic_on hdr_sz f s : s_needs_swap s = false ->
  check_magic_endian (le_val (int_bytes 8 magic2)) hdr_sz false (on f s) =
  Done () (on f (set_swap big_endian (set_version PERF_HEADER_VERSION_2 s))).
Proof.
  intros Hs. rewrite <- magic_native. unfold check_magic_endian.
  replace ((if big_endian then magic2_sw else magic2) =? le_val magic1) with false by (by destruct big_endian).
  destruct big_endian; [done|]. destruct s. cbn in Hs. by subst.
Qed.

Lemma adds_words_value adds : 0 <= adds < 2 ^ 64 -> adds_words adds = [adds; 0; 0; 0].
Proof.
  intros Ha. unfold adds_words. cbn [fmap list_fmap].
  assert (E : forall i, 1 <= i -> u64 (Z.shiftr adds (64 * i)) = 0).
  { intros i Hi. rewrite Z.shiftr_div_pow2 by lia. rewrite Z.div_small; [done|].
    split; [lia|]. apply Z.lt_le_trans with (2 ^ 64); [lia|]. apply Z.pow_le_mono_r; lia. }
  rewrite (E 1), (E 2), (E 3) by lia. rewrite Z.mul_0_r, Z.shiftr_0_r, u64_small by lia. done.
Qed.

Lemma adds_of_native ws adds : length ws = 9%nat -> 0 <= adds < 2 ^ 64 ->
  adds_of (native_words ws ++ native_words [adds; 0; 0; 0]) = adds.
Proof.
  intros Hl Ha. unfold adds_of. pose proof (zlen_native ws) as Hw. pose proof (zlen_native [adds; 0; 0; 0]) as Hw4.
  replace (Z.to_nat offsetof_adds) with (length (native_words ws)) by (unfold zlen, offsetof_adds in *; lia).
  rewrite drop_app_length, take_ge by (unfold zlen in *; cbn [length] in *; lia).
  unfold native_words. rewrite !bind_cons. rewrite !le_val_app, !le_val_bytes.
  change (le_val (([] : list Z) ≫= le_bytes 8)) with 0. change (0 mod 256 ^ Z.of_nat 8) with 0.
  rewrite Z.mod_small by (change (256 ^ Z.of_nat 8) with (2 ^ 64); lia). lia.
Qed.

(** The bitmap of a file of the other byte order, whose host name is stored. *)
Lemma swap_adds_on ws adds f s : big_endian = true -> length ws = 9%nat -> 0 <= adds < 2 ^ 64 ->
  Z.testbit adds HEADER_HOSTNAME = true ->
  swap_adds (native_words ws ++ ([adds; 0; 0; 0] ≫= int_bytes 8)) (on f s) = Done adds (on f s).
Proof.
  intros Hbe Hl Ha Hh. unfold swap_adds. change (BITS_TO_U64 HEADER_FEAT_BITS) with 4.
  assert (E : mem_bswap_64 (native_words ws ++ ([adds; 0; 0; 0] ≫= int_bytes 8)) offsetof_adds 4
    = Ok (native_words ws ++ native_words [adds; 0; 0; 0])).
  { assert (Hz : zlen (native_words ws) = 72) by (rewrite zlen_native; unfold zlen; lia).
    change (mem_bswap_64 ?m offsetof_adds 4) with (mem_bswap_64 m offsetof_adds 8).
    change ([adds; 0; 0; 0] ≫= int_bytes 8) with (([adds] ++ [0; 0; 0]) ≫= int_bytes 8). rewrite bind_app.
    rewrite bswap_words by done. f_equal. f_equal. unfold native_words. rewrite !bind_cons. unfold int_bytes. by destruct big_endian. }
  erewrite step_done by (rewrite E; done). rewrite adds_of_native by done. rewrite Hh. cbn [negb].
  erewrite step_done by done. rewrite adds_of_native, Hh by done. done.
Qed.

(** What the header of a new file is, as the reader has it. *)
Definition header_words (attr_offset nr data_offset data_size : Z) : list Z :=
  [magic2; sizeof_file_header; sizeof_file_attr; attr_offset; nr * sizeof_file_attr; data_offset; data_size; 0; 0].

Lemma file_header_read stack f s ao nr dof ds adds :
  has (f_data f) 0 (file_header ao nr dof ds adds) -> zlen stack = sizeof_file_header -> s_needs_swap s = false ->
  Forall (is_uint 64) [ao; nr * sizeof_file_attr; dof; ds] -> is_uint 64 (dof + ds) -> 0 <= adds < 2 ^ 64 ->
  (big_endian = true -> Z.testbit adds HEADER_HOSTNAME = true) ->
  exists h, perf_file_header__read stack (on f s) =
      Done h (on (File (f_data f) sizeof_file_header)
        (set_header big_endian PERF_HEADER_VERSION_2 dof ds (dof + ds) adds s)) /\
    h_attr_size h = sizeof_file_attr /\ h_attrs_offset h = ao /\ h_attrs_size h = nr * sizeof_file_attr.
Proof.
  intros Hh Hst Hsw Hu Hds Ha Hhost. set (hw := header_words ao nr dof ds).
  unfold file_header in Hh. rewrite bind_app in Hh. fold hw in Hh. rewrite adds_words_value in Hh by done.
  set (tail := [adds; 0; 0; 0] ≫= int_bytes 8) in *. set (hb := (hw ≫= int_bytes 8) ++ tail) in *.
  assert (Hzb : zlen hb = 104) by (unfold hb, tail; rewrite zlen_app, !zlen_words; done).
  unfold perf_file_header__read. erewrite step_done by (apply lseek_on; lia).
  assert (Hw : wrn stack 0 hb = Some hb).
  { unfold wrn. change (0 <? 0) with false. unfold sizeof_file_header in Hst.
    replace (zlen stack <? 0 + zlen hb) with false by lia. cbn [orb]. change (Z.to_nat 0) with 0%nat. cbn [take Nat.add app].
    rewrite drop_ge by (unfold zlen in *; lia). by rewrite app_nil_r. }
  erewrite step_done by (apply (readn_into_on stack 0 hb); [cbn; lia|done|exact Hh|exact Hw]).
  cbv beta iota. change (sizeof_file_header <=? 0) with false. cbv iota.
  assert (Hmag : h_magic hb = le_val (int_bytes 8 magic2)).
  { unfold h_magic, word, hb, hw, header_words. rewrite bind_cons, <- !app_assoc. change (Z.to_nat (8 * 0)) with 0%nat.
    rewrite drop_0, take_app_le, take_ge; [done| |]; pose proof (zlen_int_bytes 8 magic2); unfold zlen in *; lia. }
  rewrite Hmag.
  assert (Ec : forall sz ff e, check_magic_endian (le_val (int_bytes 8 magic2)) sz false (on ff s) =
     Done () (on ff (set_swap big_endian (set_version PERF_HEADER_VERSION_2 s))) ->
     or_return e (check_magic_endian (le_val (int_bytes 8 magic2)) sz false) (on ff s) =
     Done () (on ff (set_swap big_endian (set_version PERF_HEADER_VERSION_2 s)))) by (intros ???; unfold or_return; by intros ->).
  erewrite step_done by (apply Ec, check_magic_on, Hsw). clear Ec.
  erewrite step_done by (apply swap_buffer_on; done). erewrite step_done by done.
  assert (Hword : forall i w, hw !! Z.to_nat i = Some w -> 0 <= i -> is_uint 64 w ->
     word i (native_words hw ++ tail) = w) by (intros; by apply word_native).
  rewrite !Forall_cons in Hu. destruct Hu as (H1 & H2 & H3 & H4 & _).
  unfold h_size. rewrite (Hword 1 sizeof_file_header) by (done || (unfold is_uint; done)). rewrite Z.eqb_refl. cbn [negb].
  assert (Eadds : (if s_needs_swap (set_swap big_endian (set_version PERF_HEADER_VERSION_2 s))
     then swap_adds (native_words hw ++ tail) else mret (adds_of (native_words hw ++ tail)))
     (on (File (f_data f) sizeof_file_header) (set_swap big_endian (set_version PERF_HEADER_VERSION_2 s)))
     = Done adds (on (File (f_data f) sizeof_file_header) (set_swap big_endian (set_version PERF_HEADER_VERSION_2 s)))).
  { change (s_needs_swap (set_swap big_endian _)) with big_endian. unfold tail. destruct big_endian eqn:Ebe.
    - apply swap_adds_on; [done|done|done|by apply Hhost].
    - rewrite int_words, adds_of_native by done. done. }
  erewrite step_done by exact Eadds.
  exists (native_words hw ++ tail). unfold h_data_offset, h_data_size, h_attr_size, h_attrs_offset, h_attrs_size.
  rewrite (Hword 5 dof), (Hword 6 ds), (Hword 2 sizeof_file_attr), (Hword 3 ao), (Hword 4 (nr * sizeof_file_attr))
    by (done || (unfold is_uint; done)).
  split; [|done]. erewrite step_done by done. rewrite u64_small by exact Hds. done.
Qed.

(** ** Attributes and ids *)

Context (attr native_attr : header_evsel -> bytes).

(** An event whose attribute has the size of this version and states it. *)
Definition file_event_ok (e : header_evsel) : Prop :=
  zlen (attr e) = sizeof_attr /\ take 4 (drop 4 (attr e)) = int_bytes 4 sizeof_attr /\
  (if big_endian then perf_event__attr_swap 0 (attr e) = Ok (native_attr e) else native_attr e = attr e) /\
  Forall (is_uint 64) (he_ids e) /\ zlen (he_ids e) < 2 ^ 28.

Lemma zlen_file_attr e off : zlen (attr e) = sizeof_attr -> zlen (file_attr attr e off) = 128.
Proof. intros Ha. unfold file_attr. rewrite !zlen_app, !zlen_int_bytes, Ha. done. Qed.

Lemma read_attr_on e off f s : file_event_ok e -> swapped s -> 0 <= f_pos f ->
  has (f_data f) (f_pos f) (file_attr attr e off) ->
  read_attr (on f s) = Done (file_attr attr e off) (on (File (f_data f) (f_pos f + 128)) s).
Proof.
  intros (Ha & Hsz & _) Hs Hp Hh. unfold file_attr in *. set (tl := int_bytes 8 off ++ _) in *.
  assert (Htl : zlen tl = 16) by (unfold tl; rewrite zlen_app, !zlen_int_bytes; done).
  assert (Hsa : sizeof_attr = 112) by done. rewrite Hsa in *.
  rewrite <- (take_drop 64 (attr e)) in Hh |- *. set (a1 := take 64 (attr e)) in *. set (a2 := drop 64 (attr e)) in *.
  assert (Ha1 : zlen a1 = 64) by (unfold a1, zlen in *; rewrite length_take; lia).
  assert (Ha2 : zlen a2 = 48) by (unfold a2, zlen in *; rewrite length_drop; lia).
  assert (Hsz1 : take 4 (drop 4 a1) = int_bytes 4 112).
  { unfold a1. rewrite skipn_firstn_comm, take_take, <- Hsz. done. }
  clearbody a1 a2 tl. rewrite <- app_assoc in Hh.
  apply has_app in Hh as [Hh1 Hh]; [|done]. apply has_app in Hh as [Hh2 Hh3]; [|lia]. rewrite Ha1, Ha2 in *.
  unfold read_attr. assert (Hw1 : wrn (zeros sizeof_file_attr) 0 a1 = Some (a1 ++ zeros 64)).
  { pose proof (wrn_zeros [] sizeof_file_attr 0 a1 eq_refl) as Hw. cbn [app] in Hw. rewrite Hw by (rewrite Ha1; done).
    rewrite Ha1. done. }
  erewrite step_done by (apply (readn_into_on _ _ a1); [done|by rewrite Ha1|done|exact Hw1]).
  cbv beta iota. change (PERF_ATTR_SIZE_VER0 <=? 0) with false. cbv iota. erewrite step_done by done.
  assert (Es : (if s_needs_swap s then bswap 4 (attr_size (a1 ++ zeros 64)) else attr_size (a1 ++ zeros 64)) = 112).
  { unfold attr_size. rewrite drop_app_le, take_app_le by (rewrite ?length_drop; unfold zlen in *; lia).
    rewrite Hsz1, Hs. apply int_bytes_read. done. }
  rewrite Es. cbn [Z.eqb]. change (sizeof_attr <? 112) with false. cbv iota.
  change (112 -64 PERF_ATTR_SIZE_VER0) with 48. cbn [Z.eqb negb].
  assert (Hw2 : wrn (a1 ++ zeros 64) 64 a2 = Some ((a1 ++ a2) ++ zeros 16)).
  { rewrite (wrn_zeros a1 64 64 a2) by lia. by rewrite Ha2. }
  erewrite step_done; [|erewrite step_done by (apply (readn_into_on _ _ a2); [cbn; unfold PERF_ATTR_SIZE_VER0; lia|by rewrite Ha2|exact Hh2|exact Hw2]);
    reflexivity].
  assert (Hw3 : wrn ((a1 ++ a2) ++ zeros 16) sizeof_attr tl = Some ((a1 ++ a2) ++ tl)).
  { rewrite (wrn_zeros (a1 ++ a2) 16 sizeof_attr tl) by (rewrite ?zlen_app; lia). rewrite Htl. change (zeros (16 - 16)) with ([] : bytes).
    by rewrite app_nil_r. }
  erewrite step_done by (apply (readn_into_on _ _ tl); [cbn; unfold PERF_ATTR_SIZE_VER0; lia|by rewrite Htl|exact Hh3|exact Hw3]).
  cbn [Z.leb Z.compare f_data f_pos]. unfold mret, FM_ret. do 3 f_equal. unfold PERF_ATTR_SIZE_VER0. lia.
Qed.

Lemma read_file_ids_on ids : forall f s, swapped s -> 0 <= f_pos f -> Forall (is_uint 64) ids ->
  has (f_data f) (f_pos f) (ids ≫= int_bytes 8) ->
  read_file_ids (length ids) (on f s) = Done ids (on (File (f_data f) (f_pos f + 8 * zlen ids)) s).
Proof.
  induction ids as [|v ids IH]; intros f s Hs Hp Hu Hh.
  - cbn [length read_file_ids]. rewrite (zlen_nil (A := Z)), Z.mul_0_r, Z.add_0_r. by destruct f.
  - apply Forall_cons in Hu as [Hv Hu]. rewrite bind_cons in Hh. apply has_app in Hh as [H1 H2]; [|done].
    rewrite zlen_int_bytes in H2. cbn [length read_file_ids]. rewrite zlen_cons.
    erewrite step_done by (apply (getbuffer64_on [v]); [done|done|done|lia|by rewrite bind_cons, app_nil_r]).
    erewrite step_done by (apply IH; [done|cbn; lia|done|exact H2]). cbn [f_data f_pos].
    rewrite <- (app_nil_r (native_words [v])), (word_native [v] [] 0 v) by done. unfold mret, FM_ret. do 3 f_equal. lia.
Qed.

Context (sizeof_evlist sizeof_evsel sizeof_sample_id errno : Z).
Context (evlist_small : 0 <= sizeof_evlist < 2 ^ 40) (evsel_small : 0 <= sizeof_evsel < 2 ^ 40)
  (sid_small : 0 <= sizeof_sample_id < 2 ^ 10).

(** An event as the reader has it. *)
Definition read_evsel (idx : Z) (e : header_evsel) : header_evsel :=
  HeaderEvsel (native_attr e) (he_ids e) None idx idx None 0 big_endian.
Fixpoint read_evsels (idx : Z) (l : list header_evsel) : list header_evsel :=
  match l with
  | [] => []
  | e :: l => read_evsel idx e :: read_evsels (idx + 1) l
  end.

Lemma alloc_id_on n f s : 0 <= n < 2 ^ 28 ->
  or_delete (perf_evsel__alloc_id sizeof_sample_id n) (on f s) = Done () (on f s).
Proof.
  intros Hn. unfold or_delete, perf_evsel__alloc_id. destruct (Z.eqb_spec n 0) as [|Hne]; [done|].
  assert (0 <= n * sizeof_sample_id < 2 ^ 28 * 2 ^ 10) by nia. unfold malloc.
  rewrite (u64_small (40 + n * sizeof_sample_id)), (u64_small (n * 8)) by lia. rewrite !memory by lia. done.
Qed.

Lemma read_file_event_on e off f s : file_event_ok e -> swapped s -> 0 <= f_pos f < 2 ^ 62 -> 0 <= off < 2 ^ 63 ->
  has (f_data f) (f_pos f) (file_attr attr e off) -> has (f_data f) off (he_ids e ≫= int_bytes 8) ->
  read_file_event sizeof_evsel sizeof_sample_id errno (on f s) =
  Done () (on (File (f_data f) (f_pos f + 128)) (set_evlist (s_evlist s ++ [read_evsel (zlen (s_evlist s)) e]) s)).
Proof.
  intros He Hs Hp Ho Hh Hids. pose proof He as (Ha & _ & Hsw & Hu & Hn). pose proof (zlen_nonneg (he_ids e)).
  unfold read_file_event.
  erewrite step_done by (unfold or_return; rewrite (read_attr_on e off) by (done || lia); reflexivity).
  erewrite step_done by done.
  set (ids := [off; 8 * zlen (he_ids e)]).
  assert (Hd : drop (Z.to_nat sizeof_attr) (file_attr attr e off) = (ids ≫= int_bytes 8) ++ []).
  { unfold file_attr. rewrite <- Ha, to_nat_zlen, drop_app_length. unfold ids. rewrite !bind_cons. by rewrite !app_nil_r. }
  assert (Ht : take (Z.to_nat sizeof_attr) (file_attr attr e off) = attr e).
  { unfold file_attr. by rewrite <- Ha, to_nat_zlen, take_app_length. }
  rewrite Hd, Ht. set (f1 := File (f_data f) (f_pos f + 128)).
  pose proof (swap_buffer_on ids [] 16 f1 s Hs eq_refl) as Hsb. unfold swap_buffer in Hsb.
  erewrite step_done in Hsb by done. rewrite (step_done _ _ _ _ _ Hsb). rewrite app_nil_r. clear Hsb.
  assert (Eat : (if s_needs_swap s then access_res (perf_event__attr_swap 0 (attr e)) else mret (attr e)) (on f1 s)
    = Done (native_attr e) (on f1 s)).
  { rewrite Hs. destruct big_endian; rewrite Hsw; done. }
  rewrite (step_done _ _ _ _ _ Eat). erewrite step_done by done. cbv zeta beta. cbn [on ff_fd f1 f_pos].
  change (FeatFd (Some s) f1 None 0 0 None) with (on f1 s).
  rewrite <- (app_nil_r (native_words ids)), (word_native ids [] 0 off), (word_native ids [] 1 (8 * zlen (he_ids e)))
    by (done || unfold is_uint; lia).
  rewrite Z.mul_comm, Z.div_mul, sint32_small by lia. rewrite to_nat_zlen.
  erewrite step_done by (unfold or_delete, malloc; rewrite memory by done; reflexivity).
  erewrite step_done by done. erewrite step_done by (apply (alloc_id_on _ f1); lia).
  erewrite step_done by (apply lseek_on; lia).
  erewrite step_done by (unfold or_return; rewrite read_file_ids_on by (done || (cbn; lia)); reflexivity).
  erewrite step_done by done. erewrite step_done by (apply lseek_on; lia).
  unfold read_evsel. assert (E : big_endian = s_needs_swap s) by (symmetry; exact Hs). by rewrite E.
Qed.

Lemma read_file_events_on l : forall f s pos, Forall file_event_ok l -> swapped s -> 0 <= f_pos f -> 104 <= pos ->
  f_pos f + 128 * zlen l < 2 ^ 62 -> pos + zlen (l ≫= ids_bytes) < 2 ^ 62 ->
  has (f_data f) (f_pos f) (attrs_bytes attr l (id_offsets pos l)) -> has (f_data f) pos (l ≫= ids_bytes) ->
  exists p, read_file_events sizeof_evsel sizeof_sample_id (length l) errno (on f s) =
  Done () (on (File (f_data f) p) (set_evlist (s_evlist s ++ read_evsels (zlen (s_evlist s)) l) s)).
Proof.
  induction l as [|e l IH]; intros f s pos Hl Hs Hp Hpos Hlim Hlim2 Hat Hid.
  - exists (f_pos f). cbn [length read_file_events read_evsels]. rewrite app_nil_r. by destruct f, s.
  - apply Forall_cons in Hl as [He Hl]. cbn [id_offsets attrs_bytes] in Hat. rewrite bind_cons in Hid, Hlim2.
    rewrite zlen_cons in Hlim. rewrite zlen_app in Hlim2. pose proof (zlen_nonneg l). pose proof (zlen_nonneg (ids_bytes e)).
    pose proof (zlen_nonneg (l ≫= ids_bytes)).
    apply has_app in Hat as [Ha Hat]; [|done]. rewrite zlen_file_attr in Hat by apply He.
    apply has_app in Hid as [Hi Hid]; [|lia]. cbn [length read_file_events read_evsels].
    erewrite step_done by (apply (read_file_event_on e pos); [done|done|lia|lia|done|done]).
    edestruct (IH (File (f_data f) (f_pos f + 128)) (set_evlist (s_evlist s ++ [read_evsel (zlen (s_evlist s)) e]) s)
      (pos + zlen (ids_bytes e))) as [p Ep]; [done|done|cbn; lia|lia|cbn; lia|lia|done|done|].
    exists p. rewrite Ep. cbn [set_evlist s_evlist f_data]. rewrite zlen_app, zlen_cons, zlen_nil, <- app_assoc. done.
Qed.

End ReadFile.

(** * The sections of the features *)

Section Sections.
Context `{KernelOk}.
Context (feat_ops : Z -> feature_ops) (out : Z -> option bytes).

(** The readers of the features in turn, each on its section, lead from one
    session to another. *)
Fixpoint reads (feats : list Z) (s s' : session) : Prop :=
  match feats with
  | [] => s' = s
  | i :: feats => exists s1,
      match op_process (feat_ops i) with
      | None => s1 = s
      | Some r => Runs (zlen (section out i)) s r (section out i) () s1
      end /\ s_adds_features s1 = s_adds_features s /\ reads feats s1 s'
  end.

Lemma on_section_on r off bs f s s1 : 0 <= off -> has (f_data f) off bs -> Runs (zlen bs) s r bs () s1 ->
  on_section (off, zlen bs) r (on (lseek_set off f) s) = Done () (on (File (f_data f) (off + zlen bs)) s1).
Proof.
  intros Ho [rest Hh] Hr. unfold on_section. cbn [on ff_ph ff_fd fst snd].
  rewrite (Hr _ rest); [done|done|done|done|]. exact Hh.
Qed.

Definition entry (table : bytes) (k : Z) : Z * Z := (word (2 * k) table, word (2 * k + 1) table).

Lemma sections_loop_cons feat feats table k f s :
  sections_loop feat_ops (feat :: feats) table k (on f s) =
  if Z.testbit (s_adds_features s) feat then
    match ret_of (perf_file_section__process feat_ops (entry table k) feat) (on f s) with
    | Done err ff => (if err <? 0 then fail err else sections_loop feat_ops feats table (k + 1)) ff
    | Fail e ff => Fail e ff | Fault => Fault | Hang => Hang
    end
  else sections_loop feat_ops feats table k (on f s).
Proof.
  cbn [sections_loop]. erewrite step_done by done. unfold perf_header__has_feat, entry.
  destruct (Z.testbit (s_adds_features s) feat); [|done]. unfold mbind, FM_bind. by destruct (ret_of _ _).
Qed.

Lemma section_process_on feat off f s s1 : feat < HEADER_LAST_FEATURE -> 0 <= off < 2 ^ 63 ->
  has (f_data f) off (section out feat) ->
  match op_process (feat_ops feat) with
  | None => s1 = s
  | Some r => Runs (zlen (section out feat)) s r (section out feat) () s1
  end ->
  exists p, ret_of (perf_file_section__process feat_ops (off, zlen (section out feat)) feat) (on f s)
    = Done 0 (on (File (f_data f) p) s1).
Proof.
  intros Hf Ho Hh Hr. unfold ret_of, perf_file_section__process.
  erewrite step_done by (apply lseek_on; cbn; lia). cbn [negb fst].
  replace (HEADER_LAST_FEATURE <=? feat) with false by lia. destruct (op_process (feat_ops feat)) as [r|].
  - erewrite on_section_on by (done || lia). by eexists.
  - subst. by exists off.
Qed.

Lemma sections_loop_on table adds feats : forall k pos f s s',
  s_adds_features s = adds -> (forall i, i ∈ feats -> i < HEADER_LAST_FEATURE) -> 0 <= pos -> 0 <= k ->
  let kl := filter (fun i => Z.testbit adds i = true) feats in
  (forall j sec, placed pos (section out <$> kl) !! j = Some sec -> entry table (k + Z.of_nat j) = sec) ->
  laid (f_data f) pos (section out <$> kl) -> pos + zlen (concat (section out <$> kl)) < 2 ^ 63 ->
  reads kl s s' ->
  exists p, sections_loop feat_ops feats table k (on f s) = Done () (on (File (f_data f) p) s').
Proof.
  induction feats as [|i feats IH]; intros k pos f s s' Ha Hf Hp Hk kl Ht Hl Hlim Hr; subst kl.
  - cbn in Hr. subst s'. exists (f_pos f). by destruct f.
  - rewrite sections_loop_cons, Ha. rewrite filter_cons in *.
    destruct (decide (Z.testbit adds i = true)) as [Hb|Hb].
    + rewrite Hb. cbn [fmap list_fmap placed laid concat reads] in Ht, Hl, Hlim, Hr.
      destruct Hl as [Hh Hl]. destruct Hr as (s1 & Hr1 & Ha1 & Hr). rewrite zlen_app in Hlim.
      set (bs := section out i) in *. set (rest := concat _) in *. pose proof (zlen_nonneg bs). pose proof (zlen_nonneg rest).
      pose proof (Ht 0%nat _ eq_refl) as E0. rewrite Z.add_0_r in E0. rewrite E0.
      destruct (section_process_on i pos f s s1) as [p Ep]; [apply Hf; left|lia|done|done|].
      fold bs in Ep. rewrite Ep. cbn [Z.ltb Z.compare].
      destruct (IH (k + 1) (pos + zlen bs) (File (f_data f) p) s1 s') as [p' E']; [congruence|intros; apply Hf; by right|lia|lia| |done|unfold rest in *; lia|done|].
      { intros j sec Hj. replace (k + 1 + Z.of_nat j) with (k + Z.of_nat (S j)) by lia. by apply Ht. }
      exists p'. exact E'.
    + destruct (Z.testbit adds i); [done|]. apply (IH k pos); try done. intros; apply Hf; by right.
Qed.

(** ** What the writer kept *)

Lemma after_drops_spec feats : forall adds i, NoDup feats -> 0 <= i ->
  Z.testbit (after_drops out adds feats) i =
  Z.testbit adds i && (if decide (i ∈ feats) then bool_decide (is_Some (out i)) else true).
Proof.
  induction feats as [|x feats IH]; intros adds i Hnd Hi; cbn [after_drops].
  - rewrite decide_False by apply not_elem_of_nil. by rewrite andb_true_r.
  - apply NoDup_cons in Hnd as [Hx Hnd]. rewrite IH by done.
    destruct (decide (i = x)) as [->|Hne].
    + rewrite decide_False, (decide_True (P := x ∈ x :: feats)) by (done || left). rewrite andb_true_r.
      destruct (Z.testbit adds x) eqn:Eb; [|by rewrite Eb]. destruct (out x).
      * rewrite Eb. symmetry. by rewrite bool_decide_eq_true_2 by (by eexists).
      * rewrite Z.clearbit_eq. symmetry. by rewrite bool_decide_eq_false_2 by (by intros [? ?]).
    + assert (E : Z.testbit (if Z.testbit adds x then match out x with Some _ => adds | None => Z.clearbit adds x end
        else adds) i = Z.testbit adds i).
      { destruct (Z.testbit adds x); [|done]. destruct (out x); [done|]. apply testbit_clear_other. congruence. }
      rewrite E. f_equal. destruct (decide (i ∈ feats)) as [Hin|Hin].
      * rewrite decide_True by (by right). done.
      * rewrite decide_False; [done|]. intros [?|?]%elem_of_cons; done.
Qed.

Lemma seqZ_split : seqZ 0 HEADER_FEAT_BITS = seqZ 0 HEADER_LAST_FEATURE ++ seqZ HEADER_LAST_FEATURE (HEADER_FEAT_BITS - HEADER_LAST_FEATURE).
Proof. apply (seqZ_app 0 27 229); done. Qed.

Lemma filter_ext {A} (P Q : A -> Prop) `{forall x, Decision (P x), forall x, Decision (Q x)} (l : list A) :
  (forall x, x ∈ l -> P x <-> Q x) -> filter P l = filter Q l.
Proof.
  induction l as [|x l IH]; intros He; [done|]. rewrite !filter_cons, IH by (intros; apply He; by right).
  pose proof (He x ltac:(left)). destruct (decide (P x)), (decide (Q x)); tauto.
Qed.

Lemma filter_empty {A} (P : A -> Prop) `{forall x, Decision (P x)} (l : list A) : (forall x, x ∈ l -> ~ P x) -> filter P l = [].
Proof.
  induction l as [|x l IH]; intros Hn; [done|]. rewrite filter_cons, decide_False by (apply Hn; left).
  apply IH. intros; apply Hn; by right.
Qed.

(** The bits of the stored bitmap are the features whose sections are stored. *)
Lemma stored_features adds : (forall i, 0 <= i < HEADER_FEAT_BITS -> Z.testbit adds i = true -> i < HEADER_LAST_FEATURE) ->
  let all := seqZ 0 HEADER_FEAT_BITS in
  features (after_drops out adds all) = kept out adds all /\
  filter (fun i => Z.testbit (after_drops out adds all) i = true) (seqZ 0 HEADER_LAST_FEATURE) = kept out adds all.
Proof.
  intros Hlast all. assert (Hspec : forall i, i ∈ all -> Z.testbit (after_drops out adds all) i = true <->
    Z.testbit adds i = true /\ is_Some (out i)).
  { intros i Hi. pose proof (proj1 (elem_of_seqZ _ _ _) Hi) as Hb. rewrite after_drops_spec by (apply NoDup_seqZ || lia).
    rewrite decide_True by done. rewrite andb_true_iff, bool_decide_eq_true. done. }
  split; [by apply filter_ext|].
  assert (E : filter (fun i => Z.testbit adds i = true /\ is_Some (out i)) (seqZ HEADER_LAST_FEATURE (HEADER_FEAT_BITS - HEADER_LAST_FEATURE)) = []).
  { apply filter_empty. intros i Hi [Hb _]. apply elem_of_seqZ in Hi.
    unfold HEADER_LAST_FEATURE, HEADER_FEAT_BITS in *. pose proof (Hlast i ltac:(lia) Hb). lia. }
  assert (E2 : kept out adds all = filter (fun i => Z.testbit adds i = true /\ is_Some (out i)) (seqZ 0 HEADER_LAST_FEATURE)).
  { unfold kept, all. by rewrite seqZ_split, filter_app, E, app_nil_r. }
  rewrite E2. apply filter_ext. intros i Hi. apply Hspec. unfold all. rewrite seqZ_split.
  apply elem_of_app. by left.
Qed.

End Sections.

(** * A data file that was written and is read *)

Section FileRoundtrip.
Context `{KernelOk}.
Context (feat_ops : Z -> feature_ops) (out : Z -> option bytes) (attr native_attr : header_evsel -> bytes).
Context (limit_ok : file_limit < 2 ^ 62).
Context (sizeof_evlist sizeof_evsel sizeof_sample_id errno : Z).
Context (evlist_small : 0 <= sizeof_evlist < 2 ^ 40) (evsel_small : 0 <= sizeof_evsel < 2 ^ 40)
  (sid_small : 0 <= sizeof_sample_id < 2 ^ 10).
Context (prepare : list header_evsel -> option (list header_evsel)).

Definition flat (secs : list (Z * Z)) : list Z := secs ≫= fun p => [fst p; snd p].

Lemma flat_bytes secs : secs ≫= section_bytes = flat secs ≫= int_bytes 8.
Proof.
  unfold flat. induction secs as [|p secs IH]; [done|]. rewrite !bind_cons, bind_app, IH. f_equal.
  unfold section_bytes. rewrite !bind_cons. by rewrite app_nil_r.
Qed.

Lemma zlen_flat secs : zlen (flat secs) = 2 * zlen secs.
Proof. unfold flat. induction secs as [|p secs IH]; [done|]. rewrite bind_cons, zlen_app, !zlen_cons, zlen_nil, IH. lia. Qed.

Lemma flat_lookup secs : forall j sec, secs !! j = Some sec ->
  flat secs !! (2 * j)%nat = Some (fst sec) /\ flat secs !! S (2 * j) = Some (snd sec).
Proof.
  unfold flat. induction secs as [|p secs IH]; intros j sec Hj; [done|]. rewrite bind_cons. destruct j as [|j].
  - by injection Hj as ->.
  - replace (2 * S j)%nat with (S (S (2 * j))) by lia. by apply IH.
Qed.

Lemma placed_bounds l : forall pos, 0 <= pos -> pos + zlen (concat l) < 2 ^ 63 ->
  Forall (fun sec => is_uint 64 (fst sec) /\ is_uint 64 (snd sec)) (placed pos l).
Proof.
  induction l as [|b l IH]; intros pos Hp Hl; cbn [placed concat] in *; [constructor|]. rewrite zlen_app in Hl.
  pose proof (zlen_nonneg b). pose proof (zlen_nonneg (concat l)). constructor; [unfold is_uint; cbn; lia|]. apply IH; lia.
Qed.

Lemma entry_placed l pos j sec : 0 <= pos -> pos + zlen (concat l) < 2 ^ 63 -> placed pos l !! j = Some sec ->
  entry (native_words (flat (placed pos l))) (0 + Z.of_nat j) = sec.
Proof.
  intros Hp Hl Hj. destruct (flat_lookup _ _ _ Hj) as [H1 H2].
  pose proof (proj1 (Forall_lookup _ _) (placed_bounds l pos Hp Hl) j sec Hj) as [Hu1 Hu2]. cbn beta in *.
  unfold entry. rewrite <- (app_nil_r (native_words _)). destruct sec as [o z]. cbn [fst snd] in *. f_equal.
  - apply word_native; [|lia|done]. rewrite <- H1. f_equal. lia.
  - apply word_native; [|lia|done]. rewrite <- H2. f_equal. lia.
Qed.

Lemma process_sections_on s f r r' at_p : writable feat_ops attr out s -> swapped r ->
  s_adds_features r = stored_adds out s -> s_feat_offset r = feat_start attr s ->
  has (f_data f) (feat_start attr s) (stored_table attr out s at_p) ->
  laid (f_data f) (secs_start attr s) (stored_secs out s) ->
  reads feat_ops out (kept out (s_adds_features s) (seqZ 0 HEADER_FEAT_BITS)) r r' ->
  exists p, ret_of (perf_header__process_sections feat_ops) (on f r) = Done 0 (on (File (f_data f) p) r').
Proof.
  intros Hw Hs Ha Hfo Ht Hl Hr. pose proof Hw as [Hd Hsz Hroom Hops].
  destruct (stored_features out (s_adds_features s)) as [Hf1 Hf2].
  { intros i Hi Hb. by apply Hops. }
  fold (stored_adds out s) in Hf1, Hf2. set (kl := kept _ _ _) in *.
  pose proof (features_few (s_adds_features s)) as Hn. pose proof (features_few (stored_adds out s)) as Hk.
  rewrite Hf1 in Hk. pose proof (zlen_nonneg (concat (stored_secs out s))).
  assert (Hae : 104 <= attrs_end attr (s_evlist s)).
  { unfold attrs_end, attr_offset_of, sizeof_file_header.
    pose proof (zlen_nonneg (s_evlist s ≫= ids_bytes)). pose proof (zlen_nonneg (file_attrs attr (s_evlist s))). lia. }
  assert (Hfs : 0 <= feat_start attr s) by (unfold feat_start; lia).
  assert (Hss : 0 <= secs_start attr s) by (unfold secs_start; lia).
  unfold ret_of, perf_header__process_sections. erewrite step_done by done. rewrite Ha, Hf1, Hfo.
  destruct (Z.eqb_spec (zlen kl) 0) as [E|E].
  - destruct kl as [|x l]; [|rewrite zlen_cons in E; pose proof (zlen_nonneg l); lia]. cbn in Hr. subst r'.
    exists (f_pos f). by destruct f.
  - erewrite step_done by (unfold malloc; rewrite memory by lia; reflexivity).
    unfold secs_start in *. erewrite step_done by (apply lseek_on; lia).
    unfold stored_table, section_table in Ht. apply has_app in Ht as [Ht _]; [|done]. rewrite flat_bytes in Ht.
    assert (Hzf : zlen (flat (placed (secs_start attr s) (stored_secs out s))) = 2 * zlen kl).
    { rewrite zlen_flat. unfold zlen. rewrite length_placed. unfold stored_secs. by rewrite length_fmap. }
    erewrite step_done by (apply (getbuffer64_on (flat (placed (secs_start attr s) (stored_secs out s))));
      [done|cbn; lia|lia|lia|exact Ht]).
    unfold stored_secs in *. fold kl in Hl, Hroom |- *.
    destruct (sections_loop_on feat_ops out (native_words (flat (placed (secs_start attr s) (section out <$> kl))))
      (stored_adds out s) (seqZ 0 HEADER_LAST_FEATURE) 0 (secs_start attr s)
      (File (f_data f) (feat_start attr s + 16 * zlen kl)) r r') as [p Ep].
    + exact Ha.
    + intros i Hi. apply elem_of_seqZ in Hi. lia.
    + unfold secs_start. lia.
    + lia.
    + rewrite Hf2. intros j sec Hj. apply entry_placed; [unfold secs_start; lia| |exact Hj]. unfold secs_start. lia.
    + rewrite Hf2. exact Hl.
    + rewrite Hf2. unfold secs_start. lia.
    + rewrite Hf2. exact Hr.
    + exists p. cbn [f_data lseek_set f_pos] in *. rewrite Ep. done.
Qed.

Lemma after_drops_bound feats : forall adds, 0 <= adds < 2 ^ 64 -> 0 <= after_drops out adds feats < 2 ^ 64.
Proof.
  induction feats as [|i feats IH]; intros adds Ha; [done|]. cbn [after_drops]. apply IH.
  destruct (Z.testbit adds i); [|done]. destruct (out i); [done|]. rewrite Z.clearbit_spec'.
  pose proof (Z.ldiff_le (Z.ldiff adds (2 ^ i)) adds ltac:(lia)) as Hle.
  enough (Z.ldiff (Z.ldiff adds (2 ^ i)) adds = 0) by lia. apply Z.bits_inj'. intros k Hk.
  rewrite !Z.ldiff_spec, Z.bits_0. by destruct (Z.testbit adds k), (Z.testbit (2 ^ i) k).
Qed.

(** The session of the reader before the features: the header and the events. *)
Definition opened (s r : session) : session :=
  set_evlist (read_evsels native_attr 0 (s_evlist s))
    (set_header big_endian PERF_HEADER_VERSION_2 (data_start attr s) (s_data_size s) (feat_start attr s)
       (stored_adds out s) (set_evlist [] r)).

Lemma zlen_attrs l : forall pos, Forall (file_event_ok attr native_attr) l ->
  zlen (attrs_bytes attr l (id_offsets pos l)) = 128 * zlen l.
Proof.
  induction l as [|e l IH]; intros pos Hl; [done|]. apply Forall_cons in Hl as [He Hl].
  cbn [id_offsets attrs_bytes]. rewrite zlen_app, IH, zlen_cons, zlen_file_attr by (done || apply He). lia.
Qed.

(** perf_session__read_header on a file with the layout that was written. *)
Lemma read_header_on s f r r' evl stack at_p : writable feat_ops attr out s ->
  Forall (file_event_ok attr native_attr) (s_evlist s) -> zlen (s_evlist s) < 2 ^ 31 ->
  0 <= s_adds_features s < 2 ^ 64 -> (big_endian = true -> Z.testbit (stored_adds out s) HEADER_HOSTNAME = true) ->
  s_needs_swap r = false -> s_is_pipe r = false -> zlen stack = sizeof_file_header ->
  has (f_data f) 0 (stored_header attr out s) ->
  has (f_data f) sizeof_file_header ((s_evlist s ≫= ids_bytes) ++ file_attrs attr (s_evlist s)) ->
  has (f_data f) (feat_start attr s) (stored_table attr out s at_p) ->
  laid (f_data f) (secs_start attr s) (stored_secs out s) ->
  reads feat_ops out (kept out (s_adds_features s) (seqZ 0 HEADER_FEAT_BITS)) (opened s r) r' ->
  prepare (s_evlist r') = Some evl ->
  exists p, perf_session__read_header feat_ops sizeof_evlist sizeof_evsel sizeof_sample_id prepare stack errno (on f r)
    = Done () (on (File (f_data f) p) (set_evlist evl r')).
Proof.
  intros Hw Hev Hne Ha Hhost Hsw Hpipe Hst Hh Hia Ht Hl Hr Hprep. pose proof Hw as [Hd Hsz Hroom _].
  pose proof (zlen_nonneg (s_evlist s)) as Hz0. pose proof (zlen_nonneg (s_evlist s ≫= ids_bytes)) as Hi0.
  pose proof (features_few (s_adds_features s)). pose proof (zlen_nonneg (concat (stored_secs out s))).
  pose proof (zlen_attrs (s_evlist s) sizeof_file_header Hev) as Hza. fold (file_attrs attr (s_evlist s)) in Hza.
  assert (Hend : attrs_end attr (s_evlist s) = 104 + zlen (s_evlist s ≫= ids_bytes) + 128 * zlen (s_evlist s)).
  { unfold attrs_end, attr_offset_of, sizeof_file_header. rewrite Hza. done. }
  assert (Hao : attr_offset_of (s_evlist s) = 104 + zlen (s_evlist s ≫= ids_bytes)) by done.
  unfold secs_start, feat_start in Hroom.
  unfold perf_session__read_header. erewrite step_done by (unfold malloc; rewrite memory by done; reflexivity).
  erewrite (step_done (mod_ph _)) by done. change (put_ph _ (on f r)) with (on f (set_evlist [] r)).
  erewrite (step_done get_ph) by done. change (s_is_pipe (set_evlist [] r)) with (s_is_pipe r). rewrite Hpipe.
  destruct (file_header_read stack f (set_evlist [] r) (attr_offset_of (s_evlist s)) (zlen (s_evlist s))
    (data_start attr s) (s_data_size s) (stored_adds out s)) as (h & Eh & Eh1 & Eh2 & Eh3);
    [exact Hh|exact Hst|exact Hsw| | |by apply after_drops_bound|exact Hhost|].
  { repeat constructor; unfold is_uint, sizeof_file_attr; change sizeof_attr with 112; lia. }
  { unfold is_uint. lia. }
  erewrite step_done by (unfold or_return; rewrite Eh; reflexivity). rewrite Eh1, Eh2, Eh3.
  change (sizeof_file_attr =? 0) with false. cbv iota. change sizeof_file_attr with 128.
  rewrite Z.div_mul, sint32_small by lia. erewrite step_done by (apply lseek_on; lia). rewrite to_nat_zlen.
  apply has_app in Hia as [Hi Hat]; [|done].
  destruct (read_file_events_on attr native_attr sizeof_evsel sizeof_sample_id errno evsel_small sid_small (s_evlist s)
    (File (f_data f) (attr_offset_of (s_evlist s)))
    (set_header big_endian PERF_HEADER_VERSION_2 (data_start attr s) (s_data_size s) (data_start attr s + s_data_size s)
       (stored_adds out s) (set_evlist [] r)) sizeof_file_header) as [p1 E1];
    [exact Hev|reflexivity|cbn [f_pos]; lia|unfold sizeof_file_header; lia|cbn [f_pos]; lia|unfold sizeof_file_header; lia
    |exact Hat|exact Hi|].
  erewrite step_done by exact E1. clear E1. cbn [f_data lseek_set].
  change (on (File (f_data f) p1) _) with (on (File (f_data f) p1) (opened s r)).
  destruct (process_sections_on s (File (f_data f) p1) (opened s r) r' at_p Hw) as [p2 E2];
    [reflexivity|reflexivity|reflexivity|exact Ht|exact Hl|exact Hr|].
  erewrite step_done by exact E2. erewrite step_done by done. rewrite Hprep. by exists p2.
Qed.

(** C3: A data file that perf_session__write_header finished can be opened: on a machine
    of either byte order, perf_session__read_header finds in it the header with its data
    section, every event with its native attribute and its ids, and runs the reader of
    every feature whose section was stored on exactly that section; features that are
    missing or whose writer failed are dropped and the others not disturbed, and no byte
    of the data section is touched.  For the other byte order the section of HOSTNAME
    must be among those stored, which is how perf_file_header__read recognizes the order
    of the bitmap. *)
Theorem header_roundtrip s f r r' evl stack : writable feat_ops attr out s ->
  Forall (file_event_ok attr native_attr) (s_evlist s) -> zlen (s_evlist s) < 2 ^ 31 ->
  0 <= s_adds_features s < 2 ^ 64 -> (big_endian = true -> Z.testbit (stored_adds out s) HEADER_HOSTNAME = true) ->
  s_needs_swap r = false -> s_is_pipe r = false -> zlen stack = sizeof_file_header ->
  reads feat_ops out (kept out (s_adds_features s) (seqZ 0 HEADER_FEAT_BITS)) (opened s r) r' ->
  prepare (s_evlist r') = Some evl ->
  exists f', perf_session__write_header feat_ops attr true (on f s) = Done () (on f' (written attr out s)) /\
    (forall off b, data_start attr s <= off -> off + zlen b <= feat_start attr s ->
       has (f_data f) off b -> has (f_data f') off b) /\
    forall q, exists p,
      perf_session__read_header feat_ops sizeof_evlist sizeof_evsel sizeof_sample_id prepare stack errno
        (on (File (f_data f') q) r) = Done () (on (File (f_data f') p) (set_evlist evl r')).
Proof.
  intros Hw Hev Hne Ha Hhost Hsw Hpipe Hst Hr Hprep.
  assert (Hlim : file_limit < 2 ^ 63) by lia.
  destruct (write_header_on feat_ops attr Hlim out f s Hw) as (f' & at_p & Ew & Hh & Hia & Ht & Hl & Hd).
  exists f'. split; [exact Ew|]. split; [exact Hd|]. intros q.
  apply (read_header_on s (File (f_data f') q) r r' evl stack at_p); assumption.
Qed.

End FileRoundtrip.

(** * The features of HeaderFeat.v in the table *)

Section FeatureTable.
Context `{KernelOk}.

(** The features that FEAT_OPR declares; they travel through pipes too. *)
Definition synthesized (d : feature) : bool :=
  match d with BRANCH_STACK | STAT | CACHE _ _ _ | DIR_FORMAT _ => false | _ => true end.

(** The table for given data of the features. *)
Definition ops_of (fs : Z -> option feature) (i : Z) : feature_ops :=
  match fs i with
  | Some d => FeatureOps (Some (write_feature d)) (Some (process_feature d)) (synthesized d)
  | None => FeatureOps None None false
  end.
Definition out_of (fs : Z -> option feature) (i : Z) : option bytes := wire <$> fs i.

(** The writers of HeaderFeat.v keep what the layout of the file asks of writers. *)
Lemma feature_writer_ok fs s i :
  (forall d, fs i = Some d -> data_ok d /\ source_ok s d) -> writer_ok (ops_of fs) (out_of fs) s i.
Proof.
  intros Hd. unfold writer_ok, out_of, ops_of. destruct (fs i) as [d|]; cbn; [|done].
  destruct (Hd d eq_refl) as [H1 H2]. exists (write_feature d). split; [done|]. intros adds.
  apply emits_feature_room; [done|]. apply source_ph. by destruct d.
Qed.

(** The features read one after the other. *)
Fixpoint store_all (ds : list feature) (s : session) : session :=
  match ds with
  | [] => s
  | d :: ds => store_all ds (store (zlen (wire d)) d s)
  end.
Fixpoint targets_ok (ds : list feature) (s : session) : Prop :=
  match ds with
  | [] => True
  | d :: ds => data_ok d /\ target_ok s d /\ targets_ok ds (store (zlen (wire d)) d s)
  end.

Lemma store_header sz d s : swapped s -> swapped (store sz d s) /\ s_adds_features (store sz d s) = s_adds_features s.
Proof. intros Hs. by destruct d. Qed.

Lemma feature_reads fs feats : forall ds s, fs <$> feats = Some <$> ds -> swapped s -> targets_ok ds s ->
  reads (ops_of fs) (out_of fs) feats s (store_all ds s).
Proof.
  induction feats as [|i feats IH]; intros [|d ds] s Hf Hs Ht; try done. cbn [fmap list_fmap] in Hf. injection Hf as Hi Hf.
  destruct Ht as (Hd & Ht & Hts). cbn [reads store_all]. exists (store (zlen (wire d)) d s).
  destruct (store_header (zlen (wire d)) d s Hs) as [Hs' Ha']. split; [|split; [done|by apply IH]].
  unfold section, out_of, ops_of. rewrite Hi. cbn. apply runs_feature; [done|done|done|].
  destruct Hd as [Hb _]. lia.
Qed.

End FeatureTable.

(** * Findings *)

Section HeaderFindings.
Context `{KernelOk}.

(** A header of the current format with an attr_size of zero: the number of events
    is computed with a division by zero. *)
Theorem attr_size_zero_faults feat_ops a b c prepare stack errno f r h f1 s1 :
  0 <= a < 2 ^ 40 -> s_is_pipe r = false ->
  perf_file_header__read stack (on f (set_evlist [] r)) = Done h (on f1 s1) -> h_attr_size h = 0 ->
  perf_session__read_header feat_ops a b c prepare stack errno (on f r) = Fault.
Proof.
  intros Ha Hp Eh Hz. unfold perf_session__read_header.
  erewrite step_done by (unfold malloc; rewrite memory by done; reflexivity).
  erewrite (step_done (mod_ph _)) by done. change (put_ph _ (on f r)) with (on f (set_evlist [] r)).
  erewrite (step_done get_ph) by done. change (s_is_pipe (set_evlist [] r)) with (s_is_pipe r). rewrite Hp.
  erewrite step_done by (unfold or_return; rewrite Eh; reflexivity). by rewrite Hz.
Qed.

(** An attribute that states a size below that of the first version: the number of
    bytes that are left to read wraps around, and the rest of the file is read
    over the structure. *)
Theorem short_attr_overflows a rest f s : swapped s -> zlen a = PERF_ATTR_SIZE_VER0 -> 0 <= f_pos f ->
  drop (Z.to_nat (f_pos f)) (f_data f) = a ++ rest -> 64 < zlen rest ->
  0 < (if s_needs_swap s then bswap 4 (attr_size a) else attr_size a) < PERF_ATTR_SIZE_VER0 -> zlen rest < 2 ^ 63 ->
  read_attr (on f s) = Fault.
Proof.
  intros Hs Ha Hp Hd Hr Hsz Hlim. unfold read_attr.
  assert (Hw : wrn (zeros sizeof_file_attr) 0 a = Some (a ++ zeros 64)).
  { pose proof (wrn_zeros [] sizeof_file_attr 0 a eq_refl) as Hw. cbn [app] in Hw. rewrite Hw by (rewrite Ha; done).
    rewrite Ha. done. }
  erewrite step_done by (apply (readn_into_on _ _ a); [done|by rewrite Ha|by exists rest|exact Hw]).
  cbv beta iota. change (PERF_ATTR_SIZE_VER0 <=? 0) with false. cbv iota. erewrite step_done by done.
  assert (Es : attr_size (a ++ zeros 64) = attr_size a).
  { unfold attr_size, PERF_ATTR_SIZE_VER0 in *. by rewrite drop_app_le, take_app_le by (rewrite ?length_drop; unfold zlen in *; lia). }
  rewrite Es. set (sz := if s_needs_swap s then _ else _) in *. unfold PERF_ATTR_SIZE_VER0 in *.
  replace (sz =? 0) with false by lia. change sizeof_attr with 112. replace (112 <? sz) with false by lia.
  assert (El : sz -64 64 = sz - 64 + 2 ^ 64).
  { clearbody sz. unfold u64, wrap. replace (sz - 64) with (sz - 64 + 2 ^ 64 + (-1) * 2 ^ 64) by lia.
    rewrite Z.mod_add by done. rewrite Z.mod_small by lia. lia. }
  rewrite El. replace (sz - 64 + 2 ^ 64 =? 0) with false by lia. cbn [negb].
  unfold mbind, FM_bind, readn_into. cbn [on ff_fd f_data f_pos]. rewrite readn_ok by (cbn; lia). cbn [f_data f_pos].
  assert (Hd2 : drop (Z.to_nat (f_pos f + 64)) (f_data f) = rest).
  { replace (Z.to_nat (f_pos f + 64)) with (Z.to_nat (f_pos f) + length a)%nat by (unfold zlen in Ha; lia).
    by rewrite <- drop_drop, Hd, drop_app_length. }
  rewrite Hd2. replace (sz - 64 + 2 ^ 64 <=? zlen rest) with false by lia.
  assert (Ew : wrn (a ++ zeros 64) 64 rest = None); [|by rewrite Ew].
  unfold wrn. rewrite zlen_app, Ha, zlen_zeros by lia. replace (64 + 64 <? 64 + zlen rest) with true by lia. done.
Qed.

End HeaderFindings.

(** A pipe of the old format in the other byte order is taken only if its size is a
    palindrome: the swapped size is compared with itself, not with the size that is
    known. *)
Theorem foreign_pipe_refused : try_all_pipe_abis (bswap 8 PERF_PIPE_HDR_VER0) = None.
Proof. vm_compute. reflexivity. Qed.

(** * Examples *)

Module HeaderFileExamples.
Import HeaderFeatExamples.

(** A big endian machine that recorded one event with two ids, 16 bytes of data,
    and the features host name, architecture and total memory; the last one has
    no writer. *)
Definition be : Kernel := machine true 100000.
Definition be_attr : bytes := be_bytes 4 1 ++ be_bytes 4 112 ++ be_bytes 8 7 ++ zeros 96.
Definition le_attr : bytes := le_bytes 4 1 ++ le_bytes 4 112 ++ le_bytes 8 7 ++ zeros 96.
Definition recorded : header_evsel := HeaderEvsel be_attr [11; 12] None 0 0 None 0 false.
Definition names (i : Z) : option feature :=
  if i =? 3 then Some (HOSTNAME [104; 111; 115; 116])
  else if i =? 6 then Some (ARCH [115; 51; 57; 48]) else None.
Definition recording : session := MkSession false 1 0 16 0 (2 ^ 3 + 2 ^ 6 + 2 ^ 10) no_env [recorded] 0 0 0 false None.
Definition data_file : file := File (zeros 250 ++ [1; 2; 3; 4; 5; 6; 7; 8; 9; 10; 11; 12; 13; 14; 15; 16]) 0.
Definition reader : session := blank false no_env.

Definition read_back : session :=
  store_all (H := be) [HOSTNAME [104; 111; 115; 116]; ARCH [115; 51; 57; 48]]
    (opened (H := be) (out_of (H := be) names) he_attr (fun _ => le_attr) recording reader).

Lemma machine_limit : file_limit (Kernel := be) < 2 ^ 62.
Proof. done. Qed.

Lemma recording_bits i : 0 <= i < HEADER_FEAT_BITS -> Z.testbit (s_adds_features recording) i = true ->
  i = 3 \/ i = 6 \/ i = 10.
Proof.
  intros Hi Hb. assert (Hall : forallb (fun i => negb (Z.testbit 1096 i) || ((i =? 3) || (i =? 6) || (i =? 10)))
    (seqZ 0 HEADER_FEAT_BITS) = true) by (vm_compute; reflexivity).
  rewrite forallb_forall in Hall. specialize (Hall i). rewrite <- list_elem_of_In, elem_of_seqZ in Hall.
  specialize (Hall ltac:(lia)). change (s_adds_features recording) with 1096 in Hb. rewrite Hb in Hall. cbn in Hall. lia.
Qed.

Lemma recording_writable : writable (H := be) (ops_of (H := be) names) he_attr (out_of (H := be) names) recording.
Proof.
  pose proof (machine_ok true 100000). split.
  - vm_compute. discriminate.
  - done.
  - vm_compute. discriminate.
  - intros i Hi Hb. pose proof (recording_bits i Hi Hb) as Hc. split; [unfold HEADER_LAST_FEATURE; lia|].
    apply (feature_writer_ok (H := be)). intros d Hd. destruct Hc as [-> | [-> | ->]]; try done; injection Hd as <-;
      (split; [split; [vm_compute; done|split; [by repeat constructor|vm_compute; done]]|done]).
Qed.

Lemma header_roundtrip_witness : exists f',
  perf_session__write_header (H := be) (ops_of (H := be) names) he_attr true (on data_file recording) =
    Done () (on f' (written (H := be) he_attr (out_of (H := be) names) recording)) /\
  (forall off b, data_start (H := be) he_attr recording <= off -> off + zlen b <= feat_start (H := be) he_attr recording ->
     has (f_data data_file) off b -> has (f_data f') off b) /\
  forall q, exists p,
    perf_session__read_header (H := be) (ops_of (H := be) names) 1000 600 64 Some (zeros sizeof_file_header) 0
      (on (File (f_data f') q) reader) = Done () (on (File (f_data f') p) (set_evlist (s_evlist read_back) read_back)).
Proof.
  pose proof (machine_ok true 100000).
  apply (header_roundtrip (H := be) (ops_of (H := be) names) (out_of (H := be) names) he_attr (fun _ => le_attr)
           machine_limit 1000 600 64 0); try lia; try reflexivity.
  - apply recording_writable.
  - constructor; [|constructor]. split; [reflexivity|]. split; [reflexivity|]. split; [vm_compute; reflexivity|].
    split; [repeat constructor; vm_compute; done|reflexivity].
  - vm_compute. split; [discriminate|reflexivity].
  - assert (Ek : kept (out_of (H := be) names) (s_adds_features recording) (seqZ 0 HEADER_FEAT_BITS) = [3; 6])
      by (vm_compute; reflexivity).
    rewrite Ek. apply (feature_reads (H := be)); [reflexivity|reflexivity|].
    split; [split; [vm_compute; done|split; [by repeat constructor|vm_compute; done]]|]. split; [done|].
    split; [split; [vm_compute; done|split; [by repeat constructor|vm_compute; done]]|]. split; [done|exact I].
Defined.

End HeaderFileExamples.
