(* ===== verification/HeaderPipe.v ===== *)
(** Model of the records that carry the header through a pipe, of util/header.c:
    perf_event__synthesize_attr, perf_event__synthesize_attrs,
    perf_event__synthesize_features, perf_event__process_attr and
    perf_event__process_feature, with the dispatch of the reading side
    (perf_session__process_user_event of util/session.c, process_feature_event of
    builtin-report.c).

    The callback that takes a record is an argument; it works on a state [St].  A
    record that is read is the memory from its first byte on.  Printing of
    features on arrival is not modelled. *)

From S2P Require Import Prelude Sample Strings SessionSwap Cpumap FeatFd HeaderFeat HeaderDesc HeaderFile.

Definition PERF_RECORD_HEADER_FEATURE : Z := 80.
Definition HEADER_RESERVED : Z := 0.

Section Pipe.
Context `{Kernel}.
Context {St : Type} (process : bytes -> St -> Z * St).

(** struct perf_event_header *)
Definition record_header (type misc size : Z) : bytes := int_bytes 4 type ++ int_bytes 2 misc ++ int_bytes 2 size.

(** * Attributes *)

(** The record comes from malloc; [misc] is what its misc member happens to hold. *)
Definition perf_event__synthesize_attr (misc : Z) (attr : bytes) (ids : list Z) (st : St) : Z * St :=
  let size := PERF_ALIGN sizeof_attr 8 + 8 + zlen ids * 8 in
  if negb (alloc size) then (- ENOMEM, st) else
  if wrap 16 size =? size then
    process (record_header PERF_RECORD_HEADER_ATTR misc (wrap 16 size) ++ attr ++ (ids ≫= int_bytes 8)) st
  else (- E2BIG, st).

Fixpoint perf_event__synthesize_attrs (misc : Z) (evlist : list header_evsel) (st : St) : Z * St :=
  match evlist with
  | [] => (0, st)
  | evsel :: evlist =>
      let '(err, st) := perf_event__synthesize_attr misc (he_attr evsel) (he_ids evsel) st in
      if negb (err =? 0) then (err, st) else perf_event__synthesize_attrs misc evlist st
  end.

(** * Features *)

Context (feat_ops : Z -> feature_ops).

(** sizeof( *fe) *)
Definition sizeof_feature_event : Z := 16.

(** The first 16 bytes of the buffer, a struct feature_event. *)
Definition feature_event (misc size feat : Z) : bytes :=
  record_header PERF_RECORD_HEADER_FEATURE misc size ++ int_bytes 8 feat.

(** One turn of the loop: to the next one, or a return; [None] is a fault or an
    endless loop of the writer. *)
Definition synthesize_feature (feat : Z) (ff : feat_fd) (st : St) : option ((feat_fd * St) + (Z * St)) :=
  if HEADER_LAST_FEATURE <=? feat then None else
  if negb (op_synthesize (feat_ops feat)) then Some (inl (ff, st)) else
  let ff := put_buf (ff_buf ff) sizeof_feature_event (ff_size ff) ff in
  write ← op_write (feat_ops feat);
  match ret_of write ff with
  | Done ret ff =>
      if negb (ret =? 0) || (ff_offset ff <=? sizeof_feature_event) then Some (inl (ff, st)) else
      buf ← ff_buf ff;
      buf ← wrn buf 0 (feature_event 0 (wrap 16 (ff_offset ff)) feat);
      let '(ret, st) := process (take (Z.to_nat (ff_offset ff)) buf) st in
      if negb (ret =? 0) then Some (inr (ret, st))
      else Some (inl (put_buf (Some buf) (ff_offset ff) (ff_size ff) ff, st))
  | _ => None
  end.

Fixpoint features_loop (feats : list Z) (ff : feat_fd) (st : St) : option ((feat_fd * St) + (Z * St)) :=
  match feats with
  | [] => Some (inl (ff, st))
  | feat :: feats =>
      match synthesize_feature feat ff st with
      | Some (inl (ff, st)) => features_loop feats ff st
      | r => r
      end
  end.

(** [memory] is the buffer that malloc gives, of [sz] bytes; the end mark keeps the
    misc member that is there.  The struct feat_fd has no header. *)
Definition perf_event__synthesize_features (adds : Z) (sz : Z) (memory : bytes) (st : St) : option (Z * St) :=
  if negb (alloc sz) then Some (- ENOMEM, st) else
  r ← features_loop (features adds) (FeatFd None (File [] 0) (Some memory) 0 (sz - 8) None) st;
  match r with
  | inr r => Some r
  | inl (ff, st) =>
      buf ← ff_buf ff;
      misc ← rd_le buf 4 2;
      buf ← wrn buf 0 (feature_event misc sizeof_feature_event HEADER_LAST_FEATURE);
      Some (process (take (Z.to_nat sizeof_feature_event) buf) st)
  end.

(** * The reading side *)

Context (sizeof_evsel sizeof_sample_id : Z).

(** perf_event__process_attr for a session with an event list; the number of ids is
    a u32. *)
Definition perf_event__process_attr (m : bytes) : FM unit :=
  size ← access (rd_le m 6 2);
  attr ← access (rdn m 8 (Z.to_nat sizeof_attr));
  malloc sizeof_evsel (- ENOMEM);;
  s ← get_ph;
  let idx := zlen (s_evlist s) in
  let evsel l := HeaderEvsel attr l None idx idx None 0 false in
  mod_ph (fun s => set_evlist (s_evlist s ++ [evsel []]) s);;
  let n_ids := u32 (size - (8 + sizeof_attr)) / 8 in
  perf_evsel__alloc_id sizeof_sample_id (sint 32 n_ids);;
  ids ← access_res (rd_words m (8 + sizeof_attr) (Z.to_nat n_ids));
  mod_ph (fun s' => set_evlist (s_evlist s ++ [evsel ids]) s').

(** The buffer of the feature starts behind the structure, its size is that of the
    record without its header. *)
Definition perf_event__process_feature (m : bytes) : FM unit :=
  type ← access (rd_le m 0 4);
  size ← access (rd_le m 6 2);
  feat ← access (rd_le m 8 8);
  if PERF_RECORD_HEADER_MAX <=? type then mret () else
  if (feat =? HEADER_RESERVED) || (HEADER_LAST_FEATURE <=? feat) then fail (-1) else
  match op_process (feat_ops feat) with
  | None => mret ()
  | Some process => fun ff =>
      match process (FeatFd (ff_ph ff) (File [] 0) (Some (drop (Z.to_nat sizeof_feature_event) m)) 0 (size -64 8) None) with
      | Done _ ff' => Done () (put_ph (ff_ph ff') ff)
      | Fail _ ff' => Fail (-1) (put_ph (ff_ph ff') ff)
      | Fault => Fault
      | Hang => Hang
      end
  end.

(** process_feature_event: the mark after the last feature is not given further. *)
Definition process_feature_event (m : bytes) : FM unit :=
  feat ← access (rd_le m 8 8);
  if feat <? HEADER_LAST_FEATURE then perf_event__process_feature m
  else if negb (feat =? HEADER_LAST_FEATURE) then fail (-1) else mret ().

(** The records of the header among those of perf_session__process_user_event; the
    other cases leave what is modelled here as it is, and so do the size of the id
    header and the comm_exec flag that the session notes after an attribute. *)
Definition deliver_header (m : bytes) : FM unit :=
  type ← access (rd_le m 0 4);
  if type =? PERF_RECORD_HEADER_ATTR then perf_event__process_attr m
  else if type =? PERF_RECORD_HEADER_FEATURE then process_feature_event m
  else mret ().

(** Records one behind the other in memory. *)
Fixpoint deliver_all (records : list bytes) : FM unit :=
  match records with
  | [] => mret ()
  | r :: records => deliver_header (concat (r :: records));; deliver_all records
  end.

End Pipe.

(** * A header that goes through a pipe *)

Section PipeRoundtrip.
Context `{KernelOk}.
Context (little : big_endian = false).
Context (sizeof_evsel sizeof_sample_id : Z).
Context (evsel_small : 0 <= sizeof_evsel < 2 ^ 40) (sid_small : 0 <= sizeof_sample_id < 2 ^ 10).

(** The callback of the writer appends the record to the stream. *)
Definition collect (r : bytes) (st : list bytes) : Z * list bytes := (0, st ++ [r]).

Lemma int_bytes_le n v : int_bytes n v = le_bytes n v.
Proof. unfold int_bytes. by rewrite little. Qed.

Lemma zlen_record_header type misc size : zlen (record_header type misc size) = 8.
Proof. unfold record_header. rewrite !zlen_app, !zlen_int_bytes. done. Qed.

Lemma record_type type misc size post : is_uint 32 type -> rd_le (record_header type misc size ++ post) 0 4 = Some type.
Proof.
  intros Ht. unfold record_header. rewrite !int_bytes_le, <- !app_assoc. by apply (rd_le_mid []).
Qed.

Lemma record_size type misc size post : is_uint 16 size -> rd_le (record_header type misc size ++ post) 6 2 = Some size.
Proof.
  intros Hs. unfold record_header. rewrite !int_bytes_le, (app_assoc (le_bytes 4 type)), <- app_assoc.
  apply rd_le_mid; [by rewrite zlen_app, !zlen_le_bytes|done].
Qed.

(** ** Attributes *)

Definition attr_record (misc : Z) (e : header_evsel) : bytes :=
  record_header PERF_RECORD_HEADER_ATTR misc (120 + 8 * zlen (he_ids e)) ++ he_attr e ++ (he_ids e ≫= int_bytes 8).

(** Events whose record fits its 16-bit size. *)
Definition pipe_event_ok (e : header_evsel) : Prop :=
  zlen (he_attr e) = sizeof_attr /\ 120 + 8 * zlen (he_ids e) < 2 ^ 16 /\ Forall (is_uint 64) (he_ids e).

Lemma synthesize_attrs_ok misc l : forall st, Forall pipe_event_ok l ->
  perf_event__synthesize_attrs collect misc l st = (0, st ++ (attr_record misc <$> l)).
Proof.
  induction l as [|e l IH]; intros st Hl; cbn [perf_event__synthesize_attrs fmap list_fmap]; [by rewrite app_nil_r|].
  apply Forall_cons in Hl as [(Ha & Hz & _) Hl]. pose proof (zlen_nonneg (he_ids e)).
  unfold perf_event__synthesize_attr. change (PERF_ALIGN sizeof_attr 8 + 8) with 120.
  replace (zlen (he_ids e) * 8) with (8 * zlen (he_ids e)) by lia.
  rewrite memory by lia. cbn [negb]. rewrite wrap_small by (unfold is_uint; lia). rewrite Z.eqb_refl. unfold collect at 1. cbn [Z.eqb negb].
  rewrite IH by done. by rewrite <- app_assoc.
Qed.

Lemma words_of ids : ids ≫= int_bytes 8 = words_bytes ids.
Proof.
  unfold words_bytes. induction ids as [|v ids IH]; [done|]. rewrite bind_cons, IH, int_bytes_le. done.
Qed.

Lemma deliver_attr ops misc e rest f s : pipe_event_ok e ->
  deliver_header ops sizeof_evsel sizeof_sample_id (attr_record misc e ++ rest) (on f s) =
  Done () (on f (set_evlist (s_evlist s ++ [read_evsel he_attr (zlen (s_evlist s)) e]) s)).
Proof.
  intros (Ha & Hz & Hu). pose proof (zlen_nonneg (he_ids e)). unfold deliver_header, attr_record.
  rewrite <- app_assoc. set (post := (he_attr e ++ _) ++ rest).
  erewrite step_done by (rewrite record_type by done; reflexivity).
  rewrite Z.eqb_refl. unfold perf_event__process_attr.
  erewrite step_done by (rewrite record_size by (unfold is_uint; lia); reflexivity).
  set (hdr := record_header _ _ _). assert (Hh : zlen hdr = 8) by apply zlen_record_header.
  assert (Er : rdn (hdr ++ post) 8 (Z.to_nat sizeof_attr) = Some (he_attr e)).
  { unfold post. rewrite <- app_assoc. apply rdn_mid; [done|]. rewrite <- Ha. apply to_nat_zlen. }
  erewrite step_done by (rewrite Er; reflexivity).
  erewrite step_done by (unfold malloc; rewrite memory by done; reflexivity).
  erewrite (step_done get_ph) by done. erewrite (step_done (mod_ph _)) by done.
  change (8 + sizeof_attr) with 120. cbv beta zeta.
  replace (120 + 8 * zlen (he_ids e) - 120) with (zlen (he_ids e) * 8) by lia.
  rewrite u32_small, Z.div_mul, sint32_small by lia.
  set (ff := put_ph _ (on f s)).
  assert (Eal : perf_evsel__alloc_id sizeof_sample_id (zlen (he_ids e)) ff = Done () ff).
  { unfold perf_evsel__alloc_id. destruct (Z.eqb_spec (zlen (he_ids e)) 0); [done|].
    assert (0 <= zlen (he_ids e) * sizeof_sample_id < 2 ^ 13 * 2 ^ 10) by nia. unfold malloc.
    rewrite (u64_small (40 + _)), (u64_small (_ * 8)) by lia. rewrite !memory by lia. done. }
  rewrite (step_done _ _ _ _ _ Eal). rewrite to_nat_zlen.
  assert (Ew : rd_words (hdr ++ post) 120 (length (he_ids e)) = Ok (he_ids e)).
  { apply rd_words_holds; [|done|done]. exists (hdr ++ he_attr e), rest. rewrite <- words_of. split.
    - unfold post. by rewrite <- !app_assoc.
    - rewrite zlen_app, Hh, Ha. done. }
  erewrite step_done by (rewrite Ew; reflexivity). unfold read_evsel. rewrite little. done.
Qed.

(** ** Features *)

Definition feature_record (i : Z) (d : feature) : bytes :=
  feature_event 0 (16 + zlen (wire d)) i ++ wire d.

(** Data that needs no header to be written and fits a record. *)
Definition pipe_feature_ok (d : feature) : Prop :=
  data_ok d /\ ph_ok None d /\ 0 < zlen (wire d) /\ 16 + zlen (wire d) <= max_size.

(** The buffer of the writer between two features. *)
Definition buffer_ok (ff : feat_fd) : Prop :=
  ff_ph ff = None /\ exists m, ff_buf ff = Some m /\ 16 <= ff_size ff < 2 ^ 62 /\ ff_size ff <= zlen m.

Lemma zlen_feature_event misc size i : zlen (feature_event misc size i) = 16.
Proof. unfold feature_event. rewrite zlen_app, zlen_record_header, zlen_int_bytes. done. Qed.

Lemma synthesize_feature_ok fs i ff st : i < HEADER_LAST_FEATURE -> buffer_ok ff ->
  (forall d, fs i = Some d -> synthesized d = true -> pipe_feature_ok d) ->
  exists ff', buffer_ok ff' /\ synthesize_feature collect (ops_of fs) i ff st =
    Some (inl (ff', st ++ match fs i with
                          | Some d => if synthesized d then [feature_record i d] else []
                          | None => []
                          end)).
Proof.
  intros Hi Hb Hd. unfold synthesize_feature, ops_of. replace (HEADER_LAST_FEATURE <=? i) with false by lia.
  destruct (fs i) as [d|]; cbn [op_synthesize op_write negb]; [|exists ff; by rewrite app_nil_r].
  destruct (synthesized d) eqn:Esyn; cbn [negb]; [|exists ff; by rewrite app_nil_r].
  destruct (Hd d eq_refl Esyn) as (Hok & Hph & Hpos & Hmax). destruct Hb as (Hp & m & Em & Hs & Hm).
  set (ff1 := put_buf (ff_buf ff) sizeof_feature_event (ff_size ff) ff).
  assert (Hk : sink_ok ff1).
  { unfold sink_ok, ff1. cbn. rewrite Em. unfold sizeof_feature_event, max_size. lia. }
  assert (Hr : room ff1 (zlen (wire d))).
  { unfold room, ff1. cbn. rewrite Em. unfold sizeof_feature_event. lia. }
  destruct (emits_feature_room None d Hok Hph ff1 Hk Hp Hr) as ([] & ff' & E & Hw).
  unfold wrote in Hw. replace (ff_buf ff1) with (Some m) in Hw by (symmetry; exact Em).
  destruct Hw as (m' & sz' & -> & Ht & Hsz & Hpo). mred. unfold ret_of. rewrite E.
  change (ff_offset ff1) with 16 in *. cbn [put_buf ff_offset ff_buf ff_size Z.eqb negb orb].
  replace (16 + zlen (wire d) <=? sizeof_feature_event) with false by (unfold sizeof_feature_event; lia). mred.
  unfold max_size in Hmax. rewrite wrap_small by (unfold is_uint; lia). set (fe := feature_event 0 _ i).
  assert (Hfe : zlen fe = 16) by apply zlen_feature_event.
  assert (Hlen : length (take (Z.to_nat 16) m) = 16%nat) by (rewrite length_take; unfold zlen in Hm; lia).
  assert (Em' : m' = take 16 m ++ wire d ++ drop (Z.to_nat (16 + zlen (wire d))) m').
  { rewrite <- (take_drop (Z.to_nat (16 + zlen (wire d))) m') at 1. rewrite Ht. by rewrite <- app_assoc. }
  assert (Ew : wrn m' 0 fe = Some (fe ++ wire d ++ drop (Z.to_nat (16 + zlen (wire d))) m')).
  { unfold wrn. replace ((0 <? 0) || (zlen m' <? 0 + zlen fe)) with false by lia. change (Z.to_nat 0) with 0%nat.
    rewrite take_0. cbn [app]. do 2 f_equal. rewrite Em' at 1. change (Z.to_nat 16) with 16%nat in Hlen.
    rewrite drop_app_ge by (unfold zlen in *; lia). replace (0 + length fe - _)%nat with 0%nat by (unfold zlen in *; lia).
    apply drop_0. }
  rewrite Ew. mred. unfold collect. cbn [Z.eqb negb]. eexists. split; [|].
  2: { do 4 f_equal. unfold feature_record. fold fe. f_equal.
       rewrite app_assoc, take_app_le by (rewrite length_app; unfold zlen in *; lia).
       rewrite take_ge by (rewrite length_app; unfold zlen in *; lia). done. }
  split; [exact Hp|]. eexists. split; [reflexivity|]. cbn. split; [lia|].
  pose proof (zlen_wrn _ _ _ _ Ew). lia.
Qed.

(** The features that travel, with their numbers. *)
Definition sent (fs : Z -> option feature) (feats : list Z) : list (Z * feature) :=
  omap (fun i => d ← fs i; if synthesized d then Some (i, d) else None) feats.
Definition sent_record (p : Z * feature) : bytes := feature_record (fst p) (snd p).

Lemma features_loop_ok fs feats : forall ff st, Forall (fun i => i < HEADER_LAST_FEATURE) feats -> buffer_ok ff ->
  (forall i d, fs i = Some d -> synthesized d = true -> pipe_feature_ok d) ->
  exists ff', buffer_ok ff' /\ features_loop collect (ops_of fs) feats ff st =
    Some (inl (ff', st ++ (sent_record <$> sent fs feats))).
Proof.
  induction feats as [|i feats IH]; intros ff st Hi Hb Hd; [exists ff; by rewrite app_nil_r|].
  apply Forall_cons in Hi as [Hi Hf]. cbn [features_loop].
  destruct (synthesize_feature_ok fs i ff st Hi Hb (Hd i)) as (ff1 & Hb1 & ->).
  destruct (IH ff1 (st ++ match fs i with Some d => if synthesized d then [feature_record i d] else [] | None => [] end)
              Hf Hb1 Hd) as (ff2 & Hb2 & ->).
  exists ff2. split; [exact Hb2|]. do 3 f_equal. rewrite <- app_assoc. f_equal.
  unfold sent. cbn [omap list_omap]. destruct (fs i) as [d|]; [|done]. cbn. by destruct (synthesized d).
Qed.

Definition end_mark (misc : Z) : bytes := feature_event misc sizeof_feature_event HEADER_LAST_FEATURE.

Lemma wrn_front m bs : zlen bs <= zlen m -> exists m', wrn m 0 bs = Some m' /\ take (length bs) m' = bs.
Proof.
  intros Hl. unfold wrn. replace ((0 <? 0) || (zlen m <? 0 + zlen bs)) with false by lia. eexists. split; [done|].
  rewrite take_0. cbn [app]. apply take_app_length.
Qed.

Lemma rd_le_within m off n : 0 <= off -> off + Z.of_nat n <= zlen m -> is_Some (rd_le m off n).
Proof.
  intros Ho Hn. unfold rd_le, rdn. replace ((off <? 0) || (zlen m <? off + Z.of_nat n)) with false by lia. cbn. by eexists.
Qed.

Lemma synthesize_features_ok fs adds sz memory st :
  24 <= sz < 2 ^ 40 -> zlen memory = sz -> Forall (fun i => i < HEADER_LAST_FEATURE) (features adds) ->
  (forall i d, fs i = Some d -> synthesized d = true -> pipe_feature_ok d) ->
  exists misc, perf_event__synthesize_features collect (ops_of fs) adds sz memory st =
    Some (0, st ++ (sent_record <$> sent fs (features adds)) ++ [end_mark misc]).
Proof.
  intros Hsz Hm Hf Hd. unfold perf_event__synthesize_features. rewrite FeatFd.memory by lia. cbn [negb].
  destruct (features_loop_ok fs (features adds) (FeatFd None (File [] 0) (Some memory) 0 (sz - 8) None) st Hf)
    as (ff & (_ & m & Em & Hs & Hl) & ->); [|done|].
  { split; [done|]. exists memory. cbn [ff_buf ff_size]. split; [done|lia]. }
  mred. rewrite Em. mred. destruct (rd_le_within m 4 2) as [misc ->]; [lia..|]. mred.
  destruct (wrn_front m (end_mark misc)) as (m' & Ew & Ht); [unfold end_mark; rewrite zlen_feature_event; lia|].
  exists misc. fold (end_mark misc). rewrite Ew. mred. unfold collect. rewrite <- app_assoc. do 4 f_equal.
  apply (f_equal (fun x => [x])). etransitivity; [|exact Ht]. f_equal.
  pose proof (zlen_feature_event misc sizeof_feature_event HEADER_LAST_FEATURE) as Hz.
  unfold end_mark, zlen in *. unfold sizeof_feature_event in *. lia.
Qed.

(** ** Delivery *)

(** A record states the size of its structure too: the reader of a feature is told
    eight bytes more than the section has. *)
Definition told (d : feature) : Z := zlen (wire d) + 8.
Fixpoint store_sent (ds : list feature) (s : session) : session :=
  match ds with
  | [] => s
  | d :: ds => store_sent ds (store (told d) d s)
  end.
Fixpoint sent_ok (ds : list feature) (s : session) : Prop :=
  match ds with
  | [] => True
  | d :: ds => target_ok s d /\ sent_ok ds (store (told d) d s)
  end.

Lemma event_feat misc size i post : is_uint 64 i -> rd_le (feature_event misc size i ++ post) 8 8 = Some i.
Proof.
  intros Hi. unfold feature_event. rewrite int_bytes_le, <- app_assoc.
  apply rd_le_mid; [by rewrite zlen_record_header|done].
Qed.

Lemma event_feature misc size i post :
  feature_event misc size i ++ post = record_header PERF_RECORD_HEADER_FEATURE misc size ++ (int_bytes 8 i ++ post).
Proof. unfold feature_event. by rewrite <- app_assoc. Qed.

Lemma process_feature_at fs i d size post f s : fs i = Some d -> 0 < i < HEADER_LAST_FEATURE -> data_ok d ->
  target_ok s d -> swapped s -> is_uint 16 size -> zlen (wire d) <= size - 8 <= zlen (wire d ++ post) ->
  perf_event__process_feature (ops_of fs) (feature_event 0 size i ++ wire d ++ post) (on f s) =
  Done () (on f (store (size - 8) d s)).
Proof.
  intros Ei Hi Hok Ht Hs Hu Hsz. pose proof (zlen_nonneg (wire d)). unfold is_uint in Hu.
  unfold perf_event__process_feature. rewrite event_feature.
  erewrite step_done by (rewrite record_type by done; reflexivity).
  erewrite step_done by (rewrite record_size by done; reflexivity). rewrite <- event_feature.
  erewrite step_done by (rewrite event_feat by (unfold is_uint, HEADER_LAST_FEATURE in *; lia); reflexivity). cbv beta.
  change (PERF_RECORD_HEADER_MAX <=? PERF_RECORD_HEADER_FEATURE) with false. cbv iota.
  replace ((i =? HEADER_RESERVED) || (HEADER_LAST_FEATURE <=? i)) with false by (unfold HEADER_RESERVED; lia).
  unfold ops_of. rewrite Ei. cbn [op_process]. rewrite wrap_small by (unfold is_uint; lia).
  pose proof (zlen_feature_event 0 size i) as Hfe.
  rewrite drop_app_ge by (unfold zlen, sizeof_feature_event in *; lia).
  replace (Z.to_nat sizeof_feature_event - _)%nat with 0%nat by (unfold zlen, sizeof_feature_event in *; lia).
  rewrite drop_0. assert (Hz : zlen (wire d) <= size - 8 < 2 ^ 32) by lia.
  erewrite (runs_feature (size - 8) s d Hs Hok Ht Hz _ (take (Z.to_nat (size - 8) - length (wire d)) post));
    [reflexivity| |done|done|].
  - unfold src_ok. cbn [ff_buf ff_offset ff_size]. lia.
  - unfold input. cbn [ff_buf ff_offset ff_size]. change (Z.to_nat 0) with 0%nat. rewrite drop_0, Z.sub_0_r.
    unfold zlen in *. by rewrite take_app_ge by lia.
Qed.

Lemma deliver_feature fs i d rest f s : fs i = Some d -> 0 < i < HEADER_LAST_FEATURE -> pipe_feature_ok d ->
  target_ok s d -> swapped s -> 8 <= zlen rest ->
  deliver_header (ops_of fs) sizeof_evsel sizeof_sample_id (feature_record i d ++ rest) (on f s) =
  Done () (on f (store (told d) d s)).
Proof.
  intros Ei Hi (Hok & _ & Hpos & Hmax) Ht Hs Hr. unfold max_size in *.
  unfold deliver_header, feature_record. rewrite <- app_assoc, event_feature.
  erewrite step_done by (rewrite record_type by done; reflexivity). cbv beta. rewrite <- event_feature.
  change (PERF_RECORD_HEADER_FEATURE =? PERF_RECORD_HEADER_ATTR) with false.
  rewrite Z.eqb_refl. cbv iota. unfold process_feature_event.
  erewrite step_done by (rewrite event_feat by (unfold is_uint, HEADER_LAST_FEATURE in *; lia); reflexivity). cbv beta.
  replace (i <? HEADER_LAST_FEATURE) with true by lia. cbv iota.
  replace (told d) with (16 + zlen (wire d) - 8) by (unfold told; lia).
  apply process_feature_at; try done; [unfold is_uint; lia|]. rewrite zlen_app. lia.
Qed.

Lemma deliver_end fs misc f s :
  deliver_header (ops_of fs) sizeof_evsel sizeof_sample_id (end_mark misc) (on f s) = Done () (on f s).
Proof.
  unfold deliver_header, end_mark. rewrite <- (app_nil_r (feature_event _ _ _)), event_feature.
  erewrite step_done by (rewrite record_type by done; reflexivity). cbv beta. rewrite <- event_feature.
  change (PERF_RECORD_HEADER_FEATURE =? PERF_RECORD_HEADER_ATTR) with false. rewrite Z.eqb_refl. cbv iota.
  unfold process_feature_event. erewrite step_done by (rewrite event_feat by done; reflexivity). done.
Qed.

Lemma deliver_all_cons ops r records ff s' :
  deliver_header ops sizeof_evsel sizeof_sample_id (r ++ concat records) ff = Done () s' ->
  deliver_all ops sizeof_evsel sizeof_sample_id (r :: records) ff =
  deliver_all ops sizeof_evsel sizeof_sample_id records s'.
Proof. intros E. cbn [deliver_all concat]. by rewrite (step_done _ _ _ _ _ E). Qed.

Lemma deliver_attrs ops misc tail f l : forall s, Forall pipe_event_ok l ->
  deliver_all ops sizeof_evsel sizeof_sample_id ((attr_record misc <$> l) ++ tail) (on f s) =
  deliver_all ops sizeof_evsel sizeof_sample_id tail
    (on f (set_evlist (s_evlist s ++ read_evsels he_attr (zlen (s_evlist s)) l) s)).
Proof.
  induction l as [|e l IH]; intros s Hl; [rewrite app_nil_r; by destruct s|].
  apply Forall_cons in Hl as [He Hl]. rewrite fmap_cons, <- app_comm_cons.
  rewrite (deliver_all_cons _ _ _ _ _ (deliver_attr ops misc e _ f s He)).
  rewrite (IH _ Hl). cbn [read_evsels s_evlist set_evlist]. rewrite zlen_app, zlen_cons, zlen_nil, <- app_assoc. done.
Qed.

Lemma deliver_features fs misc f l : forall s,
  Forall (fun p => fs (fst p) = Some (snd p) /\ 0 < fst p < HEADER_LAST_FEATURE /\ pipe_feature_ok (snd p)) l ->
  sent_ok (snd <$> l) s -> swapped s ->
  deliver_all (ops_of fs) sizeof_evsel sizeof_sample_id ((sent_record <$> l) ++ [end_mark misc]) (on f s) =
  Done () (on f (store_sent (snd <$> l) s)).
Proof.
  induction l as [|[i d] l IH]; intros s Hl Ht Hs.
  - cbn [fmap list_fmap app]. rewrite (deliver_all_cons _ _ _ _ (on f s)); [done|].
    cbn [concat]. rewrite app_nil_r. apply deliver_end.
  - apply Forall_cons in Hl as [(Ei & Hi & Hd) Hl]. cbn [fst snd] in *. destruct Ht as [Ht Hts].
    rewrite fmap_cons, <- app_comm_cons. unfold sent_record at 1. cbn [fst snd].
    rewrite (deliver_all_cons _ _ _ _ (on f (store (told d) d s))).
    + apply IH; [done|done|]. by apply store_header.
    + apply deliver_feature; try done. rewrite concat_app, zlen_app. cbn [concat].
      rewrite app_nil_r. unfold end_mark. rewrite zlen_feature_event.
      pose proof (zlen_nonneg (concat (sent_record <$> l))). lia.
Qed.

Lemma sent_known fs feats : Forall (fun i => 0 < i < HEADER_LAST_FEATURE) feats ->
  (forall i d, fs i = Some d -> synthesized d = true -> pipe_feature_ok d) ->
  Forall (fun p => fs (fst p) = Some (snd p) /\ 0 < fst p < HEADER_LAST_FEATURE /\ pipe_feature_ok (snd p)) (sent fs feats).
Proof.
  intros Hf Hd. apply Forall_forall. intros [i d] (j & Hj & E)%list_elem_of_omap.
  rewrite Forall_forall in Hf. specialize (Hf j Hj). destruct (fs j) as [d'|] eqn:Ej; [|done]. cbn in E.
  destruct (synthesized d') eqn:Es; [|done]. injection E as <- <-. cbn. by eauto.
Qed.


(** The buffer of a feature starts 16 bytes into the record, its size is that of the
    record less 8: a record that ends with its structure still gives its reader
    eight bytes, those of the next record. *)
Theorem empty_record_overread fs i avail online next f s : fs i = Some (NRCPUS avail online) ->
  0 < i < HEADER_LAST_FEATURE -> is_uint 31 avail -> is_uint 31 online -> swapped s ->
  perf_event__process_feature (ops_of fs)
    (feature_event 0 sizeof_feature_event i ++ (le_bytes 4 avail ++ le_bytes 4 online ++ next)) (on f s) =
  Done () (on f (set_env (set_num nr_cpus_online online (set_num nr_cpus_avail avail (s_env s))) s)).
Proof.
  intros Ei Hi Ha Ho Hs. pose proof (process_feature_at fs i (NRCPUS avail online) sizeof_feature_event next f s) as Hp.
  cbn [wire] in Hp. rewrite !int_bytes_le, <- app_assoc in Hp. apply Hp; try done.
  - split; [cbn [wire]; rewrite zlen_app, !zlen_int_bytes; lia|done].
  - rewrite !zlen_app, !zlen_le_bytes. pose proof (zlen_nonneg next). unfold sizeof_feature_event. lia.
Qed.

End PipeRoundtrip.

(** * Findings *)

(** The struct feat_fd of perf_event__synthesize_features has no header: the
    clock's resolution, the only feature that is written from the header and
    travels through pipes besides the BPF type information, is read through a null
    pointer. *)
Theorem synthesize_clockid_faults `{Kernel} {St} (process : bytes -> St -> Z * St) fs i v buf st :
  fs i = Some (CLOCKID v) -> i < HEADER_LAST_FEATURE ->
  synthesize_feature process (ops_of fs) i (FeatFd None (File [] 0) (Some buf) 0 (zlen buf) None) st = None.
Proof.
  intros Ei Hi. unfold synthesize_feature, ops_of. rewrite Ei. replace (HEADER_LAST_FEATURE <=? i) with false by lia. done.
Qed.

(** * Examples *)

Module HeaderPipeExamples.
Import HeaderFeatExamples.

(** One event with two ids; host name, cpus and, in files only, the mark of perf stat. *)
Definition le : Kernel := machine false 100000.
Definition counted : header_evsel := HeaderEvsel (le_bytes 4 1 ++ le_bytes 4 112 ++ zeros 104) [11; 12] None 0 0 None 0 false.
Definition travelling (i : Z) : option feature :=
  if i =? 3 then Some (HOSTNAME [104; 111; 115; 116])
  else if i =? 7 then Some (NRCPUS 8 4)
  else if i =? 19 then Some STAT else None.
Definition bits : Z := 2 ^ 3 + 2 ^ 7 + 2 ^ 19.

Lemma travelling_features : features bits = [3; 7; 19].
Proof. vm_compute. reflexivity. Qed.


End HeaderPipeExamples.
