(* ===== verification/Session.v ===== *)
(** Model of the event loop of util/session.c: fetch_mmaped_event and
    reader__process_events, which walk the data section of a file through
    windows mapped into memory, perf_session__process_event and
    process_finished_round, which convert, check, time stamp and queue one
    record, and __perf_session__process_events, which runs the reader and the
    final flush.

    The operations of the queue, the parser, the event list and the byte order
    conversion are those of the other files.  The system call mmap, the
    callbacks of the tool and the delivery of an event to it are parameters.
    The unmapping of old windows, the [one_mmap] fields that serve
    perf_session__peek_event and the progress display are left out.  The host
    is little endian and 64 bits wide. *)

From S2P Require Import Prelude OrderedEvents Sample Evlist SessionSwap.

Definition EINVAL : Z := 22.

(** * Reading the file *)

(** The result of a computation that may not end: [Running] when the fuel is
    used up, with the state it stopped in. *)
Inductive outcome (A B : Type) : Type :=
| Finished (a : A)
| Running (b : B)
| Faulted.
Arguments Finished {A B} _.
Arguments Running {A B} _.
Arguments Faulted {A B}.

Section Reader.

(** [session_done()], and [rd->process]: it is given the memory from the event
    to the end of the window and the position of the event in the file, and
    returns [skip], that memory and the session afterwards. *)
Context {St : Type} (page_size MMAP_SIZE : Z) (needs_swap : bool).
Context (process : St -> bytes -> Z -> res (Z * bytes * St)) (session_done : St -> bool).
(** [mmap length offset] of the data file; [inl] is [-errno]. *)
Context (mmap : Z -> Z -> Z + bytes).

Definition swap_header (m : bytes) : res bytes :=
  if needs_swap then perf_event_header__bswap m else Ok m.

(** [head] is an offset into the window [buf]; the result is the size of the
    event there, if it is in the window, and the window. *)
Definition fetch_mmaped_event (head mmap_size : Z) (buf : bytes) : res (option Z * bytes) :=
  if mmap_size <? head +64 sizeof_header then Ok (None, buf) else
  let before := take (Z.to_nat head) buf in
  event ← swap_header (drop (Z.to_nat head) buf);
  size ← header_size event;
  if mmap_size <? head +64 size then
    event ← swap_header event; Ok (None, before ++ event)
  else Ok (Some size, before ++ event).

Record reader_state := Reader {
  r_buf : bytes; r_file_offset : Z; r_head : Z; r_file_pos : Z; r_session : St
}.

(** From the label [remap] to the label [more]. *)
Definition reader_remap (mmap_size file_offset head : Z) (s : St) : Z + reader_state :=
  match mmap mmap_size file_offset with
  | inl err => inl err
  | inr buf => inr (Reader buf file_offset head (file_offset +64 head) s)
  end.

(** One pass from the label [more] to a [goto]. *)
Definition reader_step (data_size mmap_size : Z) (st : reader_state)
    : outcome (Z * St) reader_state :=
  let head := r_head st in
  match fetch_mmaped_event head mmap_size (r_buf st) with
  | Oob | Err _ => Faulted
  | Ok (None, _) =>
      let page_offset := page_size *64 (head / page_size) in
      let file_offset := r_file_offset st +64 page_offset in
      match reader_remap mmap_size file_offset (head -64 page_offset) (r_session st) with
      | inl err => Finished (err, r_session st)
      | inr st => Running st
      end
  | Ok (Some size, buf) =>
      if size <? sizeof_header then Finished (- EINVAL, r_session st) else
      match process (r_session st) (drop (Z.to_nat head) buf) (r_file_pos st) with
      | Oob | Err _ => Faulted
      | Ok (skip, event, s) =>
          if skip <? 0 then Finished (- EINVAL, s) else
          let size := if skip =? 0 then size else size +64 skip in
          let st := Reader (take (Z.to_nat head) buf ++ event) (r_file_offset st)
                      (head +64 size) (r_file_pos st +64 size) s in
          if session_done s then Finished (0, s)
          else if r_file_pos st <? data_size then Running st
          else Finished (0, s)
      end
  end.

Fixpoint reader_loop (fuel : nat) (data_size mmap_size : Z) (st : reader_state)
    : outcome (Z * St) reader_state :=
  match fuel with
  | O => Running st
  | S fuel =>
      match reader_step data_size mmap_size st with
      | Running st => reader_loop fuel data_size mmap_size st
      | o => o
      end
  end.

Definition reader__process_events (fuel : nat) (rd_data_size rd_data_offset : Z) (s : St)
    : outcome (Z * St) reader_state :=
  let page_offset := page_size *64 (rd_data_offset / page_size) in
  let file_offset := page_offset in
  let head := rd_data_offset -64 page_offset in
  let data_size := rd_data_size +64 rd_data_offset in
  let mmap_size := if data_size <? MMAP_SIZE then data_size else MMAP_SIZE in
  match reader_remap mmap_size file_offset head s with
  | inl err => Finished (err, s)
  | inr st => reader_loop fuel data_size mmap_size st
  end.

(** ** What the reader should do *)

(** A record of the data section with the bytes that follow it and are skipped
    (AUX area data). *)
Record chunk := Chunk { ck_type : Z; ck_misc : Z; ck_body : bytes; ck_aux : bytes }.

Definition ck_size (c : chunk) : Z := sizeof_header + zlen (ck_body c).

(** The record as [process] sees it, its header in the order of this machine,
    and the bytes of the file. *)
Definition ck_rec (c : chunk) : bytes :=
  header_bytes (ck_type c) (ck_misc c) (ck_size c) ++ ck_body c.

Definition ck_file_header (c : chunk) : bytes :=
  if needs_swap then foreign [Int 4 (ck_type c); Int 2 (ck_misc c); Int 2 (ck_size c)]
  else header_bytes (ck_type c) (ck_misc c) (ck_size c).

Definition ck_file (c : chunk) : bytes := ck_file_header c ++ ck_body c ++ ck_aux c.

Definition file_data (chunks : list chunk) : bytes := chunks ≫= ck_file.

(** [visits s chunks pos s']: every record is given to [process] once, in file
    order and with its position; [process] skips exactly the bytes after it. *)
Inductive visits : St -> list chunk -> Z -> St -> Prop :=
| visits_nil s pos : visits s [] pos s
| visits_cons s c chunks pos s1 s2 :
    (forall rest, exists rec', process s (ck_rec c ++ rest) pos
       = Ok (zlen (ck_aux c), rec' ++ rest, s1) /\ zlen rec' = ck_size c) ->
    session_done s1 = false ->
    visits s1 chunks (pos + zlen (ck_file c)) s2 ->
    visits s (c :: chunks) pos s2.

(** ** It does *)

Lemma zlen_ck_file_header c : zlen (ck_file_header c) = 8.
Proof.
  unfold ck_file_header. destruct needs_swap; [|apply zlen_header].
  rewrite zlen_foreign. done.
Qed.

Lemma zlen_ck_file c : zlen (ck_file c) = ck_size c + zlen (ck_aux c).
Proof. unfold ck_file, ck_size, sizeof_header. rewrite !zlen_app, zlen_ck_file_header. lia. Qed.

Lemma zlen_ck_rec c : zlen (ck_rec c) = ck_size c.
Proof. unfold ck_rec, ck_size. by rewrite zlen_app, zlen_header. Qed.

Lemma swap_header_ok c rest :
  swap_header (ck_file_header c ++ rest)
  = Ok (header_bytes (ck_type c) (ck_misc c) (ck_size c) ++ rest).
Proof. unfold swap_header, ck_file_header. destruct needs_swap; [apply header_bswap_ok|done]. Qed.

(** Swapping back never leaves the window. *)
Lemma swap_header_total m : 8 <= zlen m -> exists m', swap_header m = Ok m'.
Proof.
  intros Hm. unfold swap_header. destruct needs_swap; [|by eauto].
  unfold perf_event_header__bswap. cbn [swap_fields].
  destruct (bswap_at_cases 4 0 m) as [(m1 & -> & H1 & _)|[_ ?]]; [|lia]. rred.
  destruct (bswap_at_cases 2 4 m1) as [(m2 & -> & H2 & _)|[_ ?]]; [|lia]. rred.
  destruct (bswap_at_cases 2 6 m2) as [(m3 & -> & H3 & _)|[_ ?]]; [|lia]. rred. eauto.
Qed.

Context (file : bytes) (post : bytes) (D M : Z).

(** The end of the data section and the window are of a sane size. *)
Context (Hpage : 0 < page_size < 2 ^ 32) (HD : 0 < D < 2 ^ 62) (HM : 0 < M < 2 ^ 62).
(** One window for the whole section, or windows that hold any record. *)
Context (Hwindow : M = D \/ page_size + 2 ^ 16 <= M).
(** mmap shows the file; what it shows after the end of the file is unknown. *)
Context (mmap_file : forall len off, 0 < len -> 0 <= off -> (page_size | off) ->
  exists tl, mmap len off = inr (take (Z.to_nat len) (drop (Z.to_nat off) file) ++ tl)).

Record at_chunks (st : reader_state) (chunks : list chunk) : Prop := {
  ac_pos : r_file_pos st = r_file_offset st + r_head st;
  ac_head : 0 <= r_head st;
  ac_off : 0 <= r_file_offset st;
  ac_page : (page_size | r_file_offset st);
  ac_file : drop (Z.to_nat (r_file_pos st)) file = file_data chunks ++ post;
  ac_end : r_file_pos st + zlen (file_data chunks) = D;
  ac_len : r_file_pos st <= zlen file;
  ac_window : r_head st <= M ->
    r_head st <= zlen (r_buf st) /\
    exists tl, drop (Z.to_nat (r_head st)) (r_buf st)
      = take (Z.to_nat (M - r_head st)) (file_data chunks ++ post) ++ tl
}.

Lemma file_data_cons c chunks : file_data (c :: chunks) = ck_file c ++ file_data chunks.
Proof. done. Qed.

Lemma ck_size_bound c chunks st :
  at_chunks st (c :: chunks) -> 8 <= ck_size c /\ r_file_pos st + ck_size c <= D /\
  0 <= zlen (ck_aux c) /\ r_file_pos st + ck_size c + zlen (ck_aux c) <= D.
Proof.
  intros Hac. pose proof (ac_end _ _ Hac) as He. rewrite file_data_cons, zlen_app, zlen_ck_file in He.
  pose proof (zlen_nonneg (file_data chunks)). pose proof (zlen_nonneg (ck_aux c)).
  pose proof (zlen_nonneg (ck_body c)). unfold ck_size, sizeof_header in *. lia.
Qed.

(** The bytes of the window from the record on, when [n] of them are there. *)
Lemma window_prefix st c chunks pre rest :
  at_chunks st (c :: chunks) -> file_data (c :: chunks) ++ post = pre ++ rest ->
  r_head st + zlen pre <= M ->
  exists tl, drop (Z.to_nat (r_head st)) (r_buf st) = pre ++ tl.
Proof using HM.
  intros Hac Hpre Hfit. pose proof (zlen_nonneg pre).
  destruct (ac_window _ _ Hac) as (_ & tl & Htl); [lia|].
  rewrite Htl, Hpre, take_app_ge by (unfold zlen in *; lia). rewrite <- app_assoc. eauto.
Qed.

Lemma fetch_fits st c chunks tl :
  at_chunks st (c :: chunks) -> ck_size c < 2 ^ 16 -> r_head st + ck_size c <= M ->
  drop (Z.to_nat (r_head st)) (r_buf st) = ck_file_header c ++ tl ->
  fetch_mmaped_event (r_head st) M (r_buf st)
  = Ok (Some (ck_size c), take (Z.to_nat (r_head st)) (r_buf st) ++
          header_bytes (ck_type c) (ck_misc c) (ck_size c) ++ tl).
Proof using HM.
  intros Hac Hs Hfit Htl. destruct (ck_size_bound _ _ _ Hac) as (H8 & _).
  pose proof (ac_head _ _ Hac). unfold fetch_mmaped_event, sizeof_header.
  rewrite u64_small by lia. destruct (Z.ltb_spec M (r_head st + 8)); [lia|].
  rewrite Htl, swap_header_ok. rred. rewrite header_size_of by (unfold is_uint; lia). rred.
  rewrite u64_small by lia. by destruct (Z.ltb_spec M (r_head st + ck_size c)); [lia|].
Qed.

(** The window from the next record on. *)
Lemma window_next st c chunks tl :
  at_chunks st (c :: chunks) ->
  drop (Z.to_nat (r_head st)) (r_buf st) = ck_file_header c ++ ck_body c ++ tl ->
  r_head st + zlen (ck_file c) <= M ->
  exists tl', tl = ck_aux c ++
    take (Z.to_nat (M - (r_head st + zlen (ck_file c)))) (file_data chunks ++ post) ++ tl'.
Proof using HM.
  intros Hac Htl Hfit. pose proof (ac_head _ _ Hac). pose proof (zlen_nonneg (ck_file c)).
  destruct (ac_window _ _ Hac) as (_ & tl' & Hw); [lia|]. exists tl'.
  rewrite Hw, file_data_cons, <- app_assoc, take_app_ge in Htl by (unfold zlen in *; lia).
  unfold ck_file in Htl at 1. rewrite <- !app_assoc in Htl.
  apply app_inv_head, app_inv_head in Htl. rewrite <- Htl. do 3 f_equal. unfold zlen in *. lia.
Qed.

Lemma step_fits st c chunks s1 :
  at_chunks st (c :: chunks) -> ck_size c < 2 ^ 16 -> r_head st + ck_size c <= M ->
  (forall rest, exists rec', process (r_session st) (ck_rec c ++ rest) (r_file_pos st)
     = Ok (zlen (ck_aux c), rec' ++ rest, s1) /\ zlen rec' = ck_size c) ->
  session_done s1 = false ->
  exists st', reader_step D M st = (if r_file_pos st' <? D then Running st' else Finished (0, s1)) /\
    r_session st' = s1 /\ r_file_pos st' = r_file_pos st + zlen (ck_file c) /\ at_chunks st' chunks.
Proof using HD HM Hpage Hwindow.
  intros Hac Hs Hfit Hproc Hdone. destruct (ck_size_bound _ _ _ Hac) as (H8 & Hend & Haux & Hend').
  pose proof Hac as [Hpos Hhead Hoff Hpg Hfile Hend2 Hlen Hwin].
  destruct (window_prefix st c chunks (ck_file_header c ++ ck_body c)
    (ck_aux c ++ file_data chunks ++ post) Hac) as [tl Htl].
  { rewrite file_data_cons. unfold ck_file. by rewrite <- !app_assoc. }
  { rewrite zlen_app, zlen_ck_file_header. exact Hfit. }
  rewrite <- app_assoc in Htl. destruct (Hproc tl) as (rec' & Hp & Hrec').
  destruct (Hwin ltac:(lia)) as [Hbuf _].
  assert (Hbl : length (take (Z.to_nat (r_head st)) (r_buf st)) = Z.to_nat (r_head st))
    by (rewrite length_take; unfold zlen in *; lia).
  assert (Hbz : zlen (take (Z.to_nat (r_head st)) (r_buf st)) = r_head st) by (unfold zlen; lia).
  exists (Reader (take (Z.to_nat (r_head st)) (r_buf st) ++ rec' ++ tl) (r_file_offset st)
            (r_head st + zlen (ck_file c)) (r_file_pos st + zlen (ck_file c)) s1).
  split; [|split; [done|split; [done|]]].
  - unfold reader_step. rewrite (fetch_fits st c chunks (ck_body c ++ tl) Hac Hs Hfit Htl).
    destruct (Z.ltb_spec (ck_size c) sizeof_header); [unfold sizeof_header in *; lia|].
    rewrite drop_app_length' by done. rewrite app_assoc. fold (ck_rec c). rewrite Hp.
    destruct (Z.ltb_spec (zlen (ck_aux c)) 0); [lia|]. rewrite take_app_length' by done.
    rewrite Hdone. cbn [r_file_pos].
    assert (Hsz : (if zlen (ck_aux c) =? 0 then ck_size c else ck_size c +64 zlen (ck_aux c))
                  = zlen (ck_file c)).
    { rewrite zlen_ck_file. destruct (Z.eqb_spec (zlen (ck_aux c)) 0); [lia|]. rewrite u64_small; lia. }
    rewrite Hsz, zlen_ck_file. rewrite !u64_small by lia. done.
  - split; cbn [r_buf r_file_offset r_head r_file_pos]; try done; rewrite ?zlen_ck_file; try lia.
    + rewrite <- zlen_ck_file. rewrite Z2Nat.inj_add by (rewrite ?zlen_ck_file; lia).
      rewrite <- drop_drop, Hfile, file_data_cons, <- app_assoc.
      rewrite drop_app_length'; [done|unfold zlen; lia].
    + rewrite <- zlen_ck_file. rewrite <- Hend2, file_data_cons, zlen_app. lia.
    + pose proof (f_equal zlen Hfile) as Hl. unfold zlen in Hl at 1. rewrite length_drop in Hl.
      rewrite file_data_cons, !zlen_app, zlen_ck_file in Hl.
      pose proof (zlen_nonneg (file_data chunks)). pose proof (zlen_nonneg post). unfold zlen in *. lia.
    + intros Hfit2. rewrite <- zlen_ck_file in *.
      destruct (window_next st c chunks tl Hac Htl Hfit2) as [tl' ->]. split.
      * rewrite !zlen_app, Hrec', zlen_ck_file, Hbz.
        pose proof (zlen_nonneg (take (Z.to_nat (M - (r_head st + (ck_size c + zlen (ck_aux c)))))
          (file_data chunks ++ post))). pose proof (zlen_nonneg tl'). lia.
      * exists tl'. rewrite (app_assoc rec'), (app_assoc (take (Z.to_nat (r_head st)) (r_buf st))).
        rewrite drop_app_length'; [done|].
        rewrite !length_app, Hbl, zlen_ck_file. unfold zlen in *. lia.
Qed.

(** A record that is not in the window makes the reader map the window that
    starts at the page of the record. *)
Lemma step_remap st c chunks :
  at_chunks st (c :: chunks) -> ck_size c < 2 ^ 16 -> M < r_head st + ck_size c ->
  exists st', reader_step D M st = Running st' /\ r_session st' = r_session st /\
    r_file_pos st' = r_file_pos st /\ at_chunks st' (c :: chunks) /\ r_head st' < page_size.
Proof using HD HM Hpage Hwindow mmap_file.
  intros Hac Hs Hno. destruct (ck_size_bound _ _ _ Hac) as (H8 & Hend & _).
  pose proof Hac as [Hpos Hhead Hoff Hpg Hfile Hend2 Hlen Hwin].
  assert (Hfetch : exists b, fetch_mmaped_event (r_head st) M (r_buf st) = Ok (None, b)).
  { unfold fetch_mmaped_event, sizeof_header. rewrite u64_small by lia.
    destruct (Z.ltb_spec M (r_head st + 8)); [by eauto|].
    destruct (window_prefix st c chunks (ck_file_header c) (ck_body c ++ ck_aux c ++ file_data chunks ++ post) Hac)
      as [tl ->]; [rewrite file_data_cons; unfold ck_file; by rewrite <- !app_assoc|
                   by rewrite zlen_ck_file_header|].
    rewrite swap_header_ok. rred. rewrite header_size_of by (unfold is_uint; lia). rred.
    rewrite u64_small by lia. destruct (Z.ltb_spec M (r_head st + ck_size c)); [|lia].
    destruct (swap_header_total (header_bytes (ck_type c) (ck_misc c) (ck_size c) ++ tl)) as [m ->];
      [rewrite zlen_app, zlen_header; pose proof (zlen_nonneg tl); lia|]. rred. eauto. }
  destruct Hfetch as [b Hfetch]. unfold reader_step. rewrite Hfetch.
  pose proof (Z.div_mod (r_head st) page_size ltac:(lia)) as Hdm.
  pose proof (Z.mod_pos_bound (r_head st) page_size ltac:(lia)) as Hmod.
  set (po := page_size * (r_head st / page_size)) in *.
  assert (Hdvd : (page_size | r_file_offset st + po))
    by (apply Z.divide_add_r; [done|apply Z.divide_factor_l]).
  rewrite (u64_small po) by lia. rewrite (u64_small (r_file_offset st + po)) by lia.
  rewrite (u64_small (r_head st - po)) by lia.
  unfold reader_remap. destruct (mmap_file M (r_file_offset st + po)) as [tl Hm]; [lia..|done|].
  rewrite Hm. eexists. split; [done|]. cbn [r_session r_file_pos r_head].
  rewrite u64_small by lia. split; [done|]. split; [lia|]. split; [|lia].
  split; cbn [r_buf r_file_offset r_head r_file_pos]; try done; try lia.
  - replace (r_file_offset st + po + (r_head st - po)) with (r_file_pos st) by lia. done.
  - intros Hh. split.
    + unfold zlen in *. rewrite length_app, length_take, length_drop. lia.
    + exists tl. rewrite drop_app_le by (rewrite length_take, length_drop; unfold zlen in *; lia).
      f_equal. rewrite skipn_firstn_comm, drop_drop.
      replace (Z.to_nat (r_file_offset st + po) + Z.to_nat (r_head st - po))%nat
        with (Z.to_nat (r_file_pos st)) by lia.
      rewrite Hfile. f_equal. lia.
Qed.

Lemma visits_cons_inv s c chunks pos s2 :
  visits s (c :: chunks) pos s2 ->
  exists s1, (forall rest, exists rec', process s (ck_rec c ++ rest) pos
       = Ok (zlen (ck_aux c), rec' ++ rest, s1) /\ zlen rec' = ck_size c) /\
    session_done s1 = false /\ visits s1 chunks (pos + zlen (ck_file c)) s2.
Proof. inversion 1; subst; eauto. Qed.

(** From any point of the data section the reader gives every record that is
    left to [process], with at most one window change per record. *)
Lemma reader_loop_visits chunks : forall st s2 fuel,
  chunks <> [] -> at_chunks st chunks -> Forall (fun c => ck_size c < 2 ^ 16) chunks ->
  visits (r_session st) chunks (r_file_pos st) s2 -> (2 * length chunks <= fuel)%nat ->
  reader_loop fuel D M st = Finished (0, s2).
Proof using HD HM Hpage Hwindow mmap_file.
  induction chunks as [|c chunks IH]; intros st s2 fuel Hne Hac Hsz Hv Hfuel; [done|].
  apply Forall_cons in Hsz as [Hs Hsz]. apply visits_cons_inv in Hv as (s1 & Hp & Hdone & Hv').
  cbn [length] in Hfuel.
  assert (Hgo : forall st fuel, at_chunks st (c :: chunks) -> r_head st + ck_size c <= M ->
    (forall rest, exists rec', process (r_session st) (ck_rec c ++ rest) (r_file_pos st)
       = Ok (zlen (ck_aux c), rec' ++ rest, s1) /\ zlen rec' = ck_size c) ->
    visits s1 chunks (r_file_pos st + zlen (ck_file c)) s2 ->
    (2 * length chunks + 1 <= fuel)%nat -> reader_loop fuel D M st = Finished (0, s2)).
  { clear st Hac Hp Hv' fuel Hfuel. intros st fuel Hac Hfit Hp Hv' Hfuel.
    destruct (step_fits st c chunks s1 Hac Hs Hfit Hp Hdone) as (st' & Hst & Hs1 & Hfp & Hac').
    destruct fuel as [|fuel]; [lia|]. cbn [reader_loop]. rewrite Hst.
    pose proof (ac_end _ _ Hac') as Hend. destruct chunks as [|c' chunks].
    - inversion Hv'; subst. change (zlen (file_data [])) with 0 in Hend.
      by destruct (Z.ltb_spec (r_file_pos st') D); [lia|].
    - destruct (ck_size_bound _ _ _ Hac') as (H8 & Hlt & _).
      destruct (Z.ltb_spec (r_file_pos st') D); [|lia].
      apply IH; [done|done|done| |lia]. rewrite Hs1, Hfp. done. }
  destruct (Z.le_gt_cases (r_head st + ck_size c) M) as [Hfit|Hno];
    [apply (Hgo st fuel); try done; lia|].
  destruct (step_remap st c chunks Hac Hs ltac:(lia)) as (st' & Hst & Hses & Hfp & Hac' & Hh).
  destruct fuel as [|fuel]; [lia|]. cbn [reader_loop]. rewrite Hst.
  apply (Hgo st' fuel); [done| |by rewrite Hses, Hfp|by rewrite Hfp|lia].
  destruct Hwindow as [-> |Hbig]; [|lia]. destruct (ck_size_bound _ _ _ Hac) as (_ & Hend & _).
  pose proof (ac_pos _ _ Hac). pose proof (ac_off _ _ Hac). lia.
Qed.

End Reader.

(** The window that reader__process_events chooses. *)
Lemma reader_visits {St} page_size MMAP_SIZE needs_swap process (session_done : St -> bool) mmap
    pre chunks post fuel (s s' : St) :
  let file := pre ++ file_data needs_swap chunks ++ post in
  let data_size := zlen (file_data needs_swap chunks) in
  0 < page_size < 2 ^ 32 -> page_size + 2 ^ 16 <= MMAP_SIZE -> zlen pre + data_size < 2 ^ 62 ->
  (forall len off, 0 < len -> 0 <= off -> (page_size | off) ->
    exists tl, mmap len off = inr (take (Z.to_nat len) (drop (Z.to_nat off) file) ++ tl)) ->
  chunks <> [] -> Forall (fun c => ck_size c < 2 ^ 16) chunks ->
  visits needs_swap process session_done s chunks (zlen pre) s' -> (2 * length chunks <= fuel)%nat ->
  reader__process_events page_size MMAP_SIZE needs_swap process session_done mmap fuel
    data_size (zlen pre) s = Finished (0, s').
Proof.
  intros file data_size Hpage Hbig Hlt Hmmap Hne Hsz Hv Hfuel.
  assert (Hpos : 0 < data_size).
  { subst data_size. destruct chunks as [|c chunks]; [done|].
    rewrite file_data_cons, zlen_app, zlen_ck_file. unfold ck_size, sizeof_header.
    pose proof (zlen_nonneg (ck_body c)). pose proof (zlen_nonneg (ck_aux c)).
    pose proof (zlen_nonneg (file_data needs_swap chunks)). lia. }
  pose proof (zlen_nonneg pre) as Hpre.
  pose proof (Z.div_mod (zlen pre) page_size ltac:(lia)) as Hdm.
  pose proof (Z.mod_pos_bound (zlen pre) page_size ltac:(lia)) as Hmod.
  assert (Hpo : 0 <= page_size * (zlen pre / page_size))
    by (apply Z.mul_nonneg_nonneg; [lia|apply Z.div_pos; lia]).
  unfold reader__process_events. set (po := page_size * (zlen pre / page_size)) in *.
  rewrite (u64_small po), (u64_small (zlen pre - po)), (u64_small (data_size + zlen pre)) by lia.
  set (D := data_size + zlen pre).
  set (M := if D <? MMAP_SIZE then D else MMAP_SIZE).
  assert (HM : 0 < M < 2 ^ 62 /\ (M = D \/ page_size + 2 ^ 16 <= M))
    by (subst M; destruct (Z.ltb_spec D MMAP_SIZE); subst D; lia).
  destruct HM as [HM Hwin].
  assert (Hdvd : (page_size | po)) by apply Z.divide_factor_l.
  unfold reader_remap. destruct (Hmmap M po ltac:(lia) ltac:(lia) Hdvd) as [tl Hm]. rewrite Hm.
  rewrite u64_small by lia. replace (po + (zlen pre - po)) with (zlen pre) by lia.
  assert (Hdrop : drop (Z.to_nat (zlen pre)) file = file_data needs_swap chunks ++ post).
  { subst file. unfold zlen. by rewrite Nat2Z.id, drop_app_length. }
  assert (Hfl : zlen pre <= zlen file).
  { subst file. rewrite !zlen_app. pose proof (zlen_nonneg post). subst data_size. lia. }
  apply (reader_loop_visits page_size needs_swap process session_done mmap file post D M)
    with (chunks := chunks); try done; [subst D; lia|].
  split; cbn [r_buf r_file_offset r_head r_file_pos]; try done; try lia.
  - assert (Hhm : zlen pre - po <= M) by (subst D; lia).
    assert (Hin : (Z.to_nat (zlen pre - po) <= length (take (Z.to_nat M) (drop (Z.to_nat po) file)))%nat).
    { rewrite length_take, length_drop. clear -Hhm Hfl Hdm Hmod Hpo. unfold zlen in *. lia. }
    intros _. split.
    + rewrite zlen_app. unfold zlen at 2 3. lia.
    + exists tl. rewrite drop_app_le by done. f_equal. rewrite skipn_firstn_comm, drop_drop.
      replace (Z.to_nat po + Z.to_nat (zlen pre - po))%nat with (Z.to_nat (zlen pre)) by lia.
      rewrite Hdrop. f_equal. lia.
Qed.

(** C2: The reader gives every record of the data section to the session
    exactly once, in file order and with its file position, and returns 0:
    whatever the page size, whether the section is mapped in one window or in
    windows that only hold one record of the largest size, wherever a record
    or skipped AUX area data crosses the end of a window, and in either byte
    order of the headers.  It needs at most two passes per record. *)
Theorem reader_gives_every_record {St} page_size MMAP_SIZE needs_swap process
    (session_done : St -> bool) mmap pre chunks post fuel (s s' : St) :
  let file := pre ++ file_data needs_swap chunks ++ post in
  let data_size := zlen (file_data needs_swap chunks) in
  0 < page_size < 2 ^ 32 -> page_size + 2 ^ 16 <= MMAP_SIZE -> zlen pre + data_size < 2 ^ 62 ->
  (forall len off, 0 < len -> 0 <= off -> (page_size | off) ->
    exists tl, mmap len off = inr (take (Z.to_nat len) (drop (Z.to_nat off) file) ++ tl)) ->
  chunks <> [] -> Forall (fun c => ck_size c < 2 ^ 16) chunks ->
  visits needs_swap process session_done s chunks (zlen pre) s' -> (2 * length chunks <= fuel)%nat ->
  reader__process_events page_size MMAP_SIZE needs_swap process session_done mmap fuel
    data_size (zlen pre) s = Finished (0, s').
Proof. apply reader_visits. Qed.

(** A record on the first page of the window whose header claims more bytes
    than the window holds is never processed and never rejected: the reader
    maps the same window again for ever. *)
Theorem reader_hangs {St} page_size MMAP_SIZE process (session_done : St -> bool) mmap
    data_size data_offset buf pre ty misc size rest (s : St) fuel :
  0 < page_size < 2 ^ 32 -> 0 <= data_offset < page_size -> data_offset + 8 <= data_offset + data_size ->
  data_offset + data_size < MMAP_SIZE -> data_offset + data_size < 2 ^ 62 ->
  data_size < size < 2 ^ 16 ->
  mmap (data_size + data_offset) 0 = inr buf ->
  buf = pre ++ header_bytes ty misc size ++ rest -> zlen pre = data_offset ->
  exists st, reader__process_events page_size MMAP_SIZE false process session_done mmap fuel
    data_size data_offset s = Running st /\ r_session st = s.
Proof.
  intros Hpage Hoff H8 HMs Hlt Hsize Hmmap Hbuf Hpre. unfold reader__process_events.
  assert (H0 : data_offset / page_size = 0) by (apply Z.div_small; lia).
  rewrite H0, Z.mul_0_r. change (u64 0) with 0. rewrite Z.sub_0_r.
  rewrite (u64_small data_offset), (u64_small (data_size + data_offset)) by lia.
  destruct (Z.ltb_spec (data_size + data_offset) MMAP_SIZE); [|lia].
  unfold reader_remap. rewrite Hmmap. rewrite u64_small, Z.add_0_l by lia.
  set (st := Reader buf 0 data_offset data_offset s). exists st. split; [|done].
  assert (Hstep : reader_step page_size false process session_done mmap (data_size + data_offset)
    (data_size + data_offset) st = Running st).
  { unfold reader_step, st. cbn [r_head r_buf r_file_offset r_session]. unfold fetch_mmaped_event, sizeof_header.
    rewrite u64_small by lia. destruct (Z.ltb_spec (data_size + data_offset) (data_offset + 8)); [lia|].
    assert (Hd : drop (Z.to_nat data_offset) buf = header_bytes ty misc size ++ rest)
      by (rewrite Hbuf; apply drop_app_length'; unfold zlen in *; lia).
    rewrite Hd. cbn [swap_header]. rred. rewrite header_size_of by (unfold is_uint; lia). rred.
    rewrite u64_small by lia. destruct (Z.ltb_spec (data_size + data_offset) (data_offset + size)); [|lia].
    cbn [swap_header]. rred.
    rewrite H0, Z.mul_0_r. change (u64 0) with 0. rewrite Z.sub_0_r. change (0 +64 0) with 0.
    unfold reader_remap. rewrite Hmmap. rewrite (u64_small data_offset), Z.add_0_l by lia.
    by rewrite u64_small by lia. }
  induction fuel as [|fuel IH]; [done|]. cbn [reader_loop]. by rewrite Hstep.
Qed.

(** * Processing one record *)

Section Session.

(** What the session is given: hash_64 of linux/hash.h; the allocator of the
    queue; the tool: whether it wants ordered events, its callbacks for user
    records, and the delivery of a record to it (perf_session__deliver_event,
    which is given a pointer, NULL being [None]); session_done(). *)
Context (needs_swap : bool) (hash_64 : Z -> Z) (malloc_ok : nat -> bool) (junk : Z -> Z * Z).
Context {W : Type} (tool_ordered_events : bool).

Record perf_session := Session {
  ss_evlist : perf_evlist;
  ss_ordered_events : @ordered_events bytes;
  ss_nr_events : gmap Z Z;
  ss_world : W
}.

Context (perf_session__deliver_event : W -> option bytes -> Z -> Z * W).
Context (tool_user_event : perf_session -> bytes -> Z -> Z * perf_session).
Context (session_done : W -> bool).

Implicit Types ss : perf_session.

Definition event_size (m : bytes) : Z := match rd_le m 6 2 with Some v => v | None => 0 end.

Definition ordered_events__deliver_event (w : W) (event : @ordered_event bytes) : Z * W :=
  perf_session__deliver_event w (oev_event event) (oev_file_offset event).

Definition with_queue (oe : @ordered_events bytes) (w : W) ss : perf_session :=
  Session (ss_evlist ss) oe (ss_nr_events ss) w.

(** The record in memory as the parser takes it. *)
Definition event_of (m : bytes) : res perf_event :=
  ty ← header_type m; misc ← mem (rd_le m 4 2); size ← header_size m;
  Ok (Event ty misc size (take (Z.to_nat size) m)).

(** events_stats__inc of util/hist.c: entry 0 counts all records. *)
Definition events_stats__inc (type : Z) ss : perf_session :=
  let inc k (m : gmap Z Z) := <[k := u32 (default 0 (m !! k) + 1)]> m in
  Session (ss_evlist ss) (ss_ordered_events ss) (inc type (inc 0 (ss_nr_events ss))) (ss_world ss).

Definition process_finished_round ss : res (Z * perf_session) :=
  '(ret, oe, w) ← mem (ordered_events__flush event_size ordered_events__deliver_event session_done
                         (ss_ordered_events ss) OE_FLUSH__ROUND (ss_world ss));
  Ok (ret, with_queue oe w ss).

(** The queue keeps the record itself, not its address.  A pipe sets copy_on_queue,
    and on a 64-bit machine the whole file is one private mapping that outlives the
    queue, so the bytes of a record that waits do not change; on a 32-bit machine
    this holds for records that wait while at most 128 windows are mapped, which is
    not tracked here. *)
Definition perf_session__queue_event ss (m : bytes) (timestamp file_offset : Z)
    : res (Z * perf_session) :=
  '(ret, oe, w) ← mem (ordered_events__queue event_size malloc_ok junk ordered_events__deliver_event
                         session_done (ss_ordered_events ss) m timestamp file_offset (ss_world ss));
  Ok (ret, with_queue oe w ss).

Definition PERF_RECORD_FINISHED_ROUND : Z := 68.
Definition PERF_RECORD_HEADER_FEATURE : Z := 80.

(** The callback [finished_round] is process_finished_round for a tool with
    ordered events and a stub otherwise; the other callbacks are the tool's. *)
Definition perf_session__process_user_event ss (m : bytes) (type file_offset : Z)
    : res (Z * perf_session) :=
  if type =? PERF_RECORD_HEADER_EVENT_TYPE then Ok (0, ss)
  else if type =? PERF_RECORD_FINISHED_ROUND then
    if tool_ordered_events then process_finished_round ss else Ok (0, ss)
  else if (PERF_RECORD_HEADER_ATTR <=? type) && (type <=? PERF_RECORD_HEADER_FEATURE) then
    Ok (tool_user_event ss m file_offset)
  else Ok (- EINVAL, ss).

Definition deliver_now ss (m : bytes) (file_offset : Z) : Z * perf_session :=
  let '(ret, w) := perf_session__deliver_event (ss_world ss) (Some m) file_offset in
  (ret, with_queue (ss_ordered_events ss) w ss).

(** [m] is the memory from the record on; it is returned as the conversion
    leaves it.  The queue keeps the record itself. *)
Definition perf_session__process_event ss (m : bytes) (file_offset : Z)
    : res (Z * bytes * perf_session) :=
  m ← (if needs_swap
       then all ← mem (perf_evlist__sample_id_all (ss_evlist ss)); event_swap m all
       else Ok m);
  event ← event_of m;
  let type := hdr_type event in
  if PERF_RECORD_HEADER_MAX <=? type then Ok (- EINVAL, m, ss) else
  let ss := events_stats__inc type ss in
  if PERF_RECORD_USER_TYPE_START <=? type then
    '(ret, ss) ← perf_session__process_user_event ss m type file_offset; Ok (ret, m, ss)
  else
  let deliver := let '(ret, ss) := deliver_now ss (ev_mem event) file_offset in Ok (ret, m, ss) in
  if negb tool_ordered_events then deliver else
  let queue timestamp :=
    '(ret, ss) ← perf_session__queue_event ss (ev_mem event) timestamp file_offset;
    if negb (ret =? - ETIME) then Ok (ret, m, ss)
    else let '(ret, ss) := deliver_now ss (ev_mem event) file_offset in Ok (ret, m, ss) in
  match perf_evlist__parse_sample_timestamp hash_64 (ss_evlist ss) event with
  | Ok timestamp => queue timestamp
  | Err ret => if negb (ret =? -1) then Ok (ret, m, ss) else queue U64_MAX
  | Oob => Oob
  end.

(** * Processing a file *)

Context (page_size MMAP_SIZE : Z) (mmap : Z -> Z -> Z + bytes).
(** auxtrace__flush_events and perf_session__flush_thread_stacks. *)
Context (flush_rest : perf_session -> Z * perf_session).

(** After an error the queue is dropped as well. *)
Definition __perf_session__process_events (fuel : nat) ss (data_size data_offset : Z)
    : outcome (Z * perf_session) (@reader_state perf_session) :=
  if data_size =? 0 then Finished (-1, ss) else
  let out err ss :=
    Finished (err, with_queue (ordered_events__reinit event_size (ss_ordered_events ss)) (ss_world ss) ss) in
  match reader__process_events page_size MMAP_SIZE needs_swap perf_session__process_event
          (fun ss => session_done (ss_world ss)) mmap fuel data_size data_offset ss with
  | Running st => Running st
  | Faulted => Faulted
  | Finished (err, ss) =>
      if negb (err =? 0) then out err ss else
      match ordered_events__flush event_size ordered_events__deliver_event session_done
              (ss_ordered_events ss) OE_FLUSH__FINAL (ss_world ss) with
      | None => Faulted
      | Some (err, oe, w) =>
          let ss := with_queue oe w ss in
          if negb (err =? 0) then out err ss else
          let '(err, ss) := flush_rest ss in out err ss
      end
  end.

End Session.

(** * A file of passes *)

(** The order that the comment above process_finished_round assumes: a record
    may be older than records of its own and of the previous pass, but not
    older than any record of a pass before.  [None] is a FINISHED_ROUND record,
    [Some t] a record of time [t]; no record before the pass before the
    previous one is later than [L], none before the previous one later than
    [N], none at all later than [X]. *)
Fixpoint passes_ok (L N X : Z) (times : list (option Z)) : Prop :=
  match times with
  | [] => True
  | None :: times => passes_ok N X X times
  | Some t :: times => L <= t /\ 0 < t < U64_MAX /\ passes_ok L N (Z.max X t) times
  end.

Section Passes.
Context (hash_64 : Z -> Z) (el : perf_evlist).

Definition chunk_event (c : chunk) : perf_event :=
  Event (ck_type c) (ck_misc c) (ck_size c) (ck_rec c).

(** A record of the kernel with a time, or the end of a pass. *)
Inductive timed (c : chunk) : option Z -> Prop :=
| timed_round : ck_type c = PERF_RECORD_FINISHED_ROUND -> timed c None
| timed_record t : 0 <= ck_type c < PERF_RECORD_USER_TYPE_START ->
    perf_evlist__parse_sample_timestamp hash_64 el (chunk_event c) = Ok t -> timed c (Some t).

Definition plain (c : chunk) : Prop :=
  ck_aux c = [] /\ is_uint 16 (ck_misc c) /\ ck_size c < 2 ^ 16.

(** The records with their times and positions. *)
Fixpoint timed_records (pos : Z) (chunks : list chunk) (times : list (option Z))
    : list (Z * Z * option bytes) :=
  match chunks, times with
  | c :: chunks, Some t :: times =>
      (t, pos, Some (ck_rec c)) :: timed_records (pos + ck_size c) chunks times
  | c :: chunks, None :: times => timed_records (pos + ck_size c) chunks times
  | _, _ => []
  end.

(** A tool that writes down what it is given. *)
Definition log_event (w : list (option bytes * Z)) (m : option bytes) (file_offset : Z)
    : Z * list (option bytes * Z) := (0, w ++ [(m, file_offset)]).
Definition not_done (w : list (option bytes * Z)) : bool := false.

Context (malloc_ok : nat -> bool) (junk : Z -> Z * Z) (malloc_succeeds : forall k, malloc_ok k = true).
Abbreviation logging_session := (@perf_session (list (option bytes * Z))).
Context (tool_user_event : logging_session -> bytes -> Z -> Z * logging_session).

Abbreviation process := (perf_session__process_event false hash_64 malloc_ok junk true log_event
                           tool_user_event not_done).
Abbreviation deliver := (ordered_events__deliver_event log_event).

Lemma log_event_reliable : reliable deliver not_done.
Proof. done. Qed.

Definition payload (x : @ordered_event bytes) : option bytes * Z := (oev_event x, oev_file_offset x).

Lemma delivered_payload w d w' : delivered deliver w d w' -> w' = w ++ (payload <$> d).
Proof.
  induction 1 as [w|w x w1 l w2 Hd Hl IH]; [by rewrite app_nil_r|].
  injection Hd as <-. rewrite IH, <- app_assoc. done.
Qed.

(** The session after the records [acc]: [dl] were delivered, the others are
    queued; the queue has seen no record older than what it delivered. *)
Record session_inv (w0 : list (option bytes * Z)) (n L N X : Z) (acc : list (Z * Z * option bytes))
    (ss : perf_session) : Prop := {
  si_evlist : ss_evlist ss = el;
  si_inv : oe_inv (ss_ordered_events ss);
  si_room : room event_size (ss_ordered_events ss) n 0;
  si_log : exists dl, ss_world ss = w0 ++ (payload <$> dl) /\
    (oev_key <$> dl) ++ (oev_key <$> events (ss_ordered_events ss)) ≡ₚ acc /\
    StronglySorted le_ts dl /\
    Forall (fun x => oev_timestamp x <= last_flush (ss_ordered_events ss)) dl /\
    Forall (fun x => last_flush (ss_ordered_events ss) <= oev_timestamp x) (events (ss_ordered_events ss));
  si_last : last_flush (ss_ordered_events ss) <= L;
  si_next : next_flush (ss_ordered_events ss) <= N;
  si_max : max_timestamp (ss_ordered_events ss) <= X;
  si_order : L <= N <= X;
  si_times : Forall (fun k => k.1.1 <= U64_MAX) acc;
  si_count : zlen acc <= n
}.

Lemma event_of_chunk c rest :
  is_uint 32 (ck_type c) -> plain c -> event_of (ck_rec c ++ rest) = Ok (chunk_event c).
Proof.
  intros Hty (Haux & Hmisc & Hsz). unfold event_of, ck_rec. rewrite <- app_assoc.
  pose proof (zlen_nonneg (ck_body c)).
  assert (Hsize : is_uint 16 (ck_size c)) by (unfold is_uint, ck_size, sizeof_header in *; lia).
  rewrite header_type_of by done. cbn [mbind res_bind].
  assert (Hm : rd_le (header_bytes (ck_type c) (ck_misc c) (ck_size c) ++ ck_body c ++ rest) 4 2
               = Some (ck_misc c)).
  { unfold header_bytes. rewrite <- !app_assoc. apply rd_le_mid; [by rewrite zlen_le_bytes|exact Hmisc]. }
  rewrite Hm. cbn [mem mbind res_bind]. rewrite header_size_of by done. cbn [mbind res_bind].
  unfold chunk_event, ck_rec. do 2 f_equal. rewrite app_assoc, take_app_length'; [done|].
  pose proof (zlen_ck_rec c) as Hl. unfold ck_rec, zlen in Hl. lia.
Qed.

Lemma event_size_chunk c : plain c -> 0 <= event_size (ck_rec c) < 2 ^ 16.
Proof.
  intros (_ & _ & Hs). pose proof (zlen_nonneg (ck_body c)).
  assert (H8 : 8 <= ck_size c) by (unfold ck_size, sizeof_header; lia).
  pose proof (header_size_of (ck_type c) (ck_misc c) (ck_size c) (ck_body c) ltac:(unfold is_uint; lia)) as Hh.
  unfold event_size, ck_rec. unfold header_size in Hh. destruct (rd_le _ 6 2); [|done]. cbn in Hh. injection Hh as ->. lia.
Qed.

Lemma process_timed w0 n L N X acc ss c t pos :
  session_inv w0 n L N X acc ss -> plain c -> timed c (Some t) ->
  L <= t -> 0 < t < U64_MAX -> n < 2 ^ 40 ->
  exists ss', session_inv w0 (n + 1) L N (Z.max X t) (acc ++ [(t, pos, Some (ck_rec c))]) ss' /\
    forall rest, process ss (ck_rec c ++ rest) pos = Ok (0, ck_rec c ++ rest, ss').
Proof using malloc_succeeds.
  intros Hss Hpl Ht HL Hts Hn. inversion Ht as [|t' Hty Hp]; subst t'.
  pose proof Hss as [Hel Hinv Hroom (dl & Hw & Hperm & Hsd & Hle & Hge) Hlast Hnext Hmax Hord Htm Hcnt].
  unfold PERF_RECORD_USER_TYPE_START in Hty.
  destruct (queue_accepts event_size malloc_ok junk deliver not_done (ss_ordered_events ss) (ck_rec c) t pos
    (ss_world ss) n malloc_succeeds log_event_reliable Hinv Hroom Hn (event_size_chunk c Hpl) Hts ltac:(lia))
    as (oe' & s & Hq & Hinv' & Hev & Hlf & Hnf & Hmt & Hroom').
  assert (Hproc : forall rest, process ss (ck_rec c ++ rest) pos
    = Ok (0, ck_rec c ++ rest, with_queue oe' (ss_world ss) (events_stats__inc (ck_type c) ss))).
  { intros r. unfold perf_session__process_event. cbn [mbind res_bind].
    rewrite event_of_chunk by (done || unfold is_uint; lia). cbn [mbind res_bind chunk_event hdr_type ev_mem].
    unfold PERF_RECORD_HEADER_MAX, PERF_RECORD_USER_TYPE_START.
    destruct (Z.leb_spec 81 (ck_type c)); [lia|]. destruct (Z.leb_spec 64 (ck_type c)); [lia|].
    cbn [negb]. change (ss_evlist (events_stats__inc (ck_type c) ss)) with (ss_evlist ss).
    rewrite Hel. fold (chunk_event c). rewrite Hp. unfold perf_session__queue_event.
    change (ss_ordered_events (events_stats__inc (ck_type c) ss)) with (ss_ordered_events ss).
    change (ss_world (events_stats__inc (ck_type c) ss)) with (ss_world ss).
    rewrite Hq. rred. done. }
  eexists. split; [|apply Hproc].
  split; cbn [ss_evlist ss_ordered_events ss_world with_queue events_stats__inc]; try done.
  - exists dl. split; [done|]. rewrite Hev. split_and!; try done; rewrite ?Hlf; try done.
    + rewrite stable_insert_perm, fmap_cons, <- Hperm, <- Permutation_middle.
      by rewrite <- Permutation_cons_append.
    + rewrite stable_insert_perm. constructor; [cbn; lia|done].
  - by rewrite Hlf.
  - by rewrite Hnf.
  - lia.
  - lia.
  - apply Forall_app. split; [done|]. repeat constructor. cbn. lia.
  - rewrite zlen_app. cbn. unfold zlen at 2. cbn. lia.
Qed.

Lemma flushed_to_le lf (d : list (@ordered_event bytes)) B :
  lf <= B -> Forall (fun x => oev_timestamp x <= B) d -> flushed_to lf d <= B.
Proof.
  unfold flushed_to. intros Hlf Hd. revert lf Hlf.
  induction Hd as [|x d Hx Hd IH]; intros lf Hlf; cbn; [done|]. by apply IH.
Qed.

Lemma process_round w0 n L N X acc ss c pos :
  session_inv w0 n L N X acc ss -> plain c -> timed c None -> n < 2 ^ 40 ->
  exists ss', session_inv w0 n N X X acc ss' /\
    forall rest, process ss (ck_rec c ++ rest) pos = Ok (0, ck_rec c ++ rest, ss').
Proof.
  intros Hss Hpl Ht Hn. inversion Ht as [Hty|].
  pose proof Hss as [Hel Hinv Hroom (dl & Hw & Hperm & Hsd & Hle & Hge) Hlast Hnext Hmax Hord Htm Hcnt].
  destruct (round_flush_spec event_size deliver not_done (ss_ordered_events ss) (ss_world ss)
    log_event_reliable Hinv)
    as (oe' & w' & d & Hf & (Hinv' & He & Hd & Hlf & _) & Hal & Hmt & Hnf & Hdb).
  exists (with_queue oe' w' (events_stats__inc (ck_type c) ss)). split.
  - apply delivered_payload in Hd as ->. rewrite He in Hperm, Hge.
    pose proof (wf_sorted _ (proj1 Hinv)) as Hs. rewrite He in Hs.
    destruct (stream_extend _ dl d (events oe') Hsd Hle Hs Hge) as (H1 & H2 & H3).
    split; cbn [ss_evlist ss_ordered_events ss_world with_queue events_stats__inc]; try done.
    + by apply Hal.
    + exists (dl ++ d). rewrite Hw, fmap_app, app_assoc. split; [done|].
      rewrite fmap_app, <- app_assoc, <- fmap_app. rewrite Hlf. done.
    + rewrite Hlf. apply flushed_to_le; [lia|]. eapply Forall_impl; [exact Hdb|]. cbn. lia.
    + destruct Hnf as [-> | ->]; lia.
    + lia.
    + lia.
  - intros r. unfold perf_session__process_event. cbn [mbind res_bind].
    rewrite event_of_chunk by (done || unfold is_uint; rewrite Hty; done).
    cbn [mbind res_bind chunk_event hdr_type ev_mem]. rewrite Hty.
    unfold perf_session__process_user_event, process_finished_round.
    change (PERF_RECORD_HEADER_MAX <=? PERF_RECORD_FINISHED_ROUND) with false.
    change (PERF_RECORD_USER_TYPE_START <=? PERF_RECORD_FINISHED_ROUND) with true.
    change (PERF_RECORD_FINISHED_ROUND =? PERF_RECORD_HEADER_EVENT_TYPE) with false.
    rewrite Z.eqb_refl. cbv iota. cbn [ss_ordered_events ss_world events_stats__inc].
    rewrite Hf. by rred.
Qed.

Abbreviation visits_log := (visits false process (fun ss => not_done (ss_world ss))).

(** Every record of such a file is accepted. *)
Lemma passes_visited chunks times : Forall2 timed chunks times ->
  forall w0 n L N X acc ss pos,
  session_inv w0 n L N X acc ss -> Forall plain chunks -> passes_ok L N X times ->
  n + zlen chunks < 2 ^ 31 ->
  exists ss' n' L' N' X', visits_log ss chunks pos ss' /\
    session_inv w0 n' L' N' X' (acc ++ timed_records pos chunks times) ss' /\ n' < 2 ^ 31.
Proof using malloc_succeeds.
  induction 1 as [|c t chunks times Ht _ IH]; intros w0 n L N X acc ss pos Hss Hpl Hok Hn.
  { exists ss, n, L, N, X. cbn. rewrite app_nil_r. split; [constructor|]. by rewrite zlen_nil, Z.add_0_r in Hn. }
  apply Forall_cons in Hpl as [Hc Hpl]. rewrite zlen_cons in Hn. pose proof (zlen_nonneg chunks).
  assert (Hfile : zlen (ck_file false c) = ck_size c)
    by (rewrite zlen_ck_file; destruct Hc as (-> & _); rewrite zlen_nil; lia).
  assert (Hvisit : forall ss1 ss', (forall rest, process ss (ck_rec c ++ rest) pos = Ok (0, ck_rec c ++ rest, ss1)) ->
    visits_log ss1 chunks (pos + ck_size c) ss' -> visits_log ss (c :: chunks) pos ss').
  { intros ss1 ss' Hp Hv. apply (visits_cons _ _ _ _ _ _ _ ss1); [|done|by rewrite Hfile].
    intros rest. exists (ck_rec c). rewrite Hp. destruct Hc as (-> & _). split; [done|apply zlen_ck_rec]. }
  destruct t as [t|]; cbn [passes_ok timed_records] in *.
  - destruct Hok as (HL & Hts & Hok).
    destruct (process_timed w0 n L N X acc ss c t pos Hss Hc Ht HL Hts ltac:(lia)) as (ss1 & Hss1 & Hp).
    destruct (IH w0 (n + 1) L N (Z.max X t) _ ss1 (pos + ck_size c) Hss1 Hpl Hok ltac:(lia))
      as (ss' & n' & L' & N' & X' & Hv & Hss' & Hn').
    exists ss', n', L', N', X'. split; [by apply (Hvisit ss1)|].
    rewrite <- app_assoc in Hss'. done.
  - destruct (process_round w0 n L N X acc ss c pos Hss Hc Ht ltac:(lia)) as (ss1 & Hss1 & Hp).
    destruct (IH w0 n N X X _ ss1 (pos + ck_size c) Hss1 Hpl Hok ltac:(lia))
      as (ss' & n' & L' & N' & X' & Hv & Hss' & Hn').
    exists ss', n', L', N', X'. split; [by apply (Hvisit ss1)|done].
Qed.

(** The final flush delivers what is still queued, after everything else. *)
Lemma final_flush w0 n L N X acc ss :
  session_inv w0 n L N X acc ss -> n < 2 ^ 31 ->
  exists oe' dl, ordered_events__flush event_size deliver not_done (ss_ordered_events ss)
      OE_FLUSH__FINAL (ss_world ss) = Some (0, oe', w0 ++ (payload <$> dl)) /\
    (oev_key <$> dl) ≡ₚ acc /\ StronglySorted le_ts dl.
Proof.
  intros [_ Hinv _ (dl & Hw & Hperm & Hsd & Hle & Hge) _ _ _ _ Htm Hcnt] Hn.
  destruct (__ordered_events__flush_spec event_size deliver not_done (ss_ordered_events ss)
    OE_FLUSH__FINAL 0 (ss_world ss) log_event_reliable Hinv)
    as (oe' & w' & d & Hf & (_ & He & Hd & _) & Hnil).
  assert (Hempty : events oe' = []).
  { apply Hnil; [done| |].
    - pose proof (Permutation_length Hperm) as Hl. rewrite length_app, !length_fmap in Hl.
      unfold zlen in *. lia.
    - rewrite <- Hperm in Htm. apply Forall_app in Htm as [_ Htm].
      rewrite Forall_forall in Htm. apply Forall_forall. intros x Hx.
      apply (Htm (oev_key x)), list_elem_of_fmap. by exists x. }
  rewrite Hempty, app_nil_r in He. subst d. exists oe', (dl ++ events (ss_ordered_events ss)).
  unfold ordered_events__flush. rewrite Hf. apply delivered_payload in Hd as ->.
  rewrite Hw, !fmap_app, app_assoc. split; [done|]. split; [by rewrite <- Hperm|].
  pose proof (wf_sorted _ (proj1 Hinv)) as Hs. rewrite <- (app_nil_r (events _)) in Hs, Hge.
  by destruct (stream_extend _ dl (events (ss_ordered_events ss)) [] Hsd Hle Hs Hge) as (H1 & _).
Qed.

Lemma sorted_keys (dl : list (@ordered_event bytes)) : StronglySorted le_ts dl ->
  StronglySorted (fun a b => a.1.1 <= b.1.1) (oev_key <$> dl).
Proof.
  induction 1 as [|x l Hs IH Hx]; cbn; constructor; [done|].
  rewrite Forall_forall in Hx. apply Forall_forall. intros k (y & -> & Hy)%list_elem_of_fmap. by apply Hx.
Qed.

(** C1: From the file to the tool.  A session with ordered events reads a data
    section of kernel records and FINISHED_ROUND marks in which no record is
    older than the records of the pass before the previous one, as the
    recorder guarantees.  Processing returns 0, and the tool is given every
    record exactly once, with its file position, in non-decreasing order of
    the times that the event list parses out of them, although the records
    of a pass are in any order in the file. *)
Theorem session_delivers_in_order page_size MMAP_SIZE mmap pre chunks post times fuel w0 d counts :
  let file := pre ++ file_data false chunks ++ post in
  let data_size := zlen (file_data false chunks) in
  0 < page_size < 2 ^ 32 -> page_size + 2 ^ 16 <= MMAP_SIZE -> zlen pre + data_size < 2 ^ 62 ->
  (forall len off, 0 < len -> 0 <= off -> (page_size | off) ->
    exists tl, mmap len off = inr (take (Z.to_nat len) (drop (Z.to_nat off) file) ++ tl)) ->
  chunks <> [] -> Forall plain chunks -> Forall2 timed chunks times -> passes_ok 0 0 0 times ->
  zlen chunks < 2 ^ 31 -> (2 * length chunks <= fuel)%nat ->
  exists ss' order,
    __perf_session__process_events false hash_64 malloc_ok junk true log_event tool_user_event
      not_done page_size MMAP_SIZE mmap (fun ss => (0, ss)) fuel
      (Session el (fresh_oe d) counts w0) data_size (zlen pre) = Finished (0, ss') /\
    ss_world ss' = w0 ++ ((fun k => (k.2, k.1.2)) <$> order) /\
    order ≡ₚ timed_records (zlen pre) chunks times /\
    StronglySorted (fun a b => a.1.1 <= b.1.1) order.
Proof using malloc_succeeds.
  intros file data_size Hpage Hbig Hlt Hmmap Hne Hpl Ht Hok Hn Hfuel.
  set (ss := Session el (fresh_oe d) counts w0).
  assert (Hss : session_inv w0 0 0 0 0 [] ss).
  { split; try done; [apply (fresh_oe_inv d false U64_MAX)|].
    exists []. rewrite app_nil_r. split_and!; try done; constructor. }
  destruct (passes_visited chunks times Ht w0 0 0 0 0 [] ss (zlen pre) Hss Hpl Hok ltac:(lia))
    as (ss' & n' & L' & N' & X' & Hv & Hss' & Hn').
  destruct (final_flush _ _ _ _ _ _ _ Hss' Hn') as (oe' & dl & Hf & Hperm & Hs).
  unfold __perf_session__process_events.
  assert (Hpos : data_size <> 0).
  { subst data_size. destruct chunks as [|c chunks]; [done|].
    rewrite file_data_cons, zlen_app, zlen_ck_file. unfold ck_size, sizeof_header.
    pose proof (zlen_nonneg (ck_body c)). pose proof (zlen_nonneg (ck_aux c)).
    pose proof (zlen_nonneg (file_data false chunks)). lia. }
  destruct (Z.eqb_spec data_size 0); [done|]. subst data_size.
  rewrite (reader_visits page_size MMAP_SIZE false process (fun ss => not_done (ss_world ss)) mmap
             pre chunks post fuel ss ss'); try done.
  2:{ eapply Forall_impl; [exact Hpl|]. by intros c (_ & _ & ?). }
  change (negb (0 =? 0)) with false. cbv iota. rewrite Hf. cbv iota.
  eexists _, (oev_key <$> dl). split; [done|]. cbn [ss_world with_queue].
  split; [|split; [done|]].
  - f_equal. rewrite <- list_fmap_compose. done.
  - by apply sorted_keys.
Qed.

End Passes.

Module SessionExamples.

Import EvlistExamples.

(** One event whose samples are identifier, pid and tid, time. *)
Definition one_event : perf_evlist :=
  Evlist [(1%nat, time_evsel)] (el_heads perf_evlist__init) 1 0 1 0 [].

Definition sample_at (t : Z) : chunk :=
  Chunk PERF_RECORD_SAMPLE 2 (le_bytes 8 7 ++ le_bytes 8 42 ++ le_bytes 8 t) [].
Definition round : chunk := Chunk PERF_RECORD_FINISHED_ROUND 0 [] [].

(** Three passes; the second one has a record older than the first one's. *)
Definition passes : list chunk :=
  [sample_at 30; sample_at 10; round; sample_at 20; round; sample_at 40; sample_at 35].
Definition pass_times : list (option Z) :=
  [Some 30; Some 10; None; Some 20; None; Some 40; Some 35].

Definition file_head : bytes := replicate 20 1.
Definition perf_data : bytes := file_head ++ file_data false passes ++ [].
Definition map_file (file : bytes) (len off : Z) : Z + bytes :=
  inr (take (Z.to_nat len) (drop (Z.to_nat off) file)).

Lemma map_file_ok file page_size len off :
  0 < len -> 0 <= off -> (page_size | off) ->
  exists tl, map_file file len off = inr (take (Z.to_nat len) (drop (Z.to_nat off) file) ++ tl).
Proof. intros _ _ _. exists []. by rewrite app_nil_r. Qed.

Definition ok_malloc (k : nat) : bool := true.
Definition no_junk (s : Z) : Z * Z := (0, 0).
Definition no_user (ss : @perf_session (list (option bytes * Z))) (m : bytes) (fo : Z) := (0, ss).

Definition run_session :=
  __perf_session__process_events false hash4 ok_malloc no_junk true log_event no_user not_done
    16 70000 (map_file perf_data) (fun ss => (0, ss)) 14 (Session one_event (fresh_oe 0) ∅ [])
    (zlen (file_data false passes)) (zlen file_head).

Lemma passes_timed : Forall2 (timed hash4 one_event) passes pass_times.
Proof.
  repeat constructor; vm_compute; first [discriminate|reflexivity].
Qed.

Lemma session_delivers_in_order_witness :
  exists ss' order,
    run_session = Finished (0, ss') /\
    ss_world ss' = [] ++ ((fun k => (k.2, k.1.2)) <$> order) /\
    order ≡ₚ timed_records (zlen file_head) passes pass_times /\
    StronglySorted (fun a b => a.1.1 <= b.1.1) order.
Proof.
  refine (session_delivers_in_order hash4 one_event ok_malloc no_junk (fun _ => eq_refl) no_user 16 70000
    (map_file perf_data) file_head passes [] pass_times 14 [] 0 ∅ _ _ _ _ _ _ _ _ _ _).
  - lia.
  - vm_compute. discriminate.
  - vm_compute. reflexivity.
  - apply map_file_ok.
  - discriminate.
  - repeat constructor; vm_compute; first [discriminate|reflexivity].
  - exact passes_timed.
  - cbn. unfold U64_MAX. lia.
  - vm_compute. reflexivity.
  - cbn. lia.
Defined.

(** The positions of the records in the order of delivery. *)
Example session_order :
  match run_session with Finished (_, ss) => snd <$> ss_world ss | _ => [] end
  = [52; 92; 20; 164; 132].
Proof. vm_compute. reflexivity. Qed.

(** A session that only counts, on a file with AUX area data between two
    records and the other byte order. *)
Definition count_process (aux : Z) (n : Z) (m : bytes) (pos : Z) : res (Z * bytes * Z) :=
  Ok ((if n =? 0 then aux else 0), m, n + 1).

Definition aux_chunks : list chunk :=
  [Chunk PERF_RECORD_AUXTRACE 0 (replicate 40 0) (replicate 100 255); round].

Lemma reader_gives_every_record_witness :
  reader__process_events 16 70000 true (count_process 100) (fun _ => false)
    (map_file ([] ++ file_data true aux_chunks ++ [])) 4 (zlen (file_data true aux_chunks)) (zlen (@nil Z)) 0
  = Finished (0, 2).
Proof.
  apply (reader_gives_every_record 16 70000 true (count_process 100) (fun _ => false)
    (map_file ([] ++ file_data true aux_chunks ++ [])) [] aux_chunks [] 4 0 2).
  - lia.
  - vm_compute. discriminate.
  - vm_compute. reflexivity.
  - apply map_file_ok.
  - discriminate.
  - repeat constructor; vm_compute; reflexivity.
  - apply (visits_cons _ _ _ _ _ _ _ 1); [|done|].
    + intros rest. eexists. split; [reflexivity|]. apply zlen_ck_rec.
    + apply (visits_cons _ _ _ _ _ _ _ 2); [|done|constructor].
      intros rest. eexists. split; [reflexivity|]. apply zlen_ck_rec.
  - cbn. lia.
Defined.

(** A file of one record that claims 100 bytes and has 16. *)
Definition cut_file : bytes := header_bytes PERF_RECORD_SAMPLE 0 100 ++ replicate 8 0.

Lemma reader_hangs_witness :
  exists st, reader__process_events 4096 (2 ^ 64 - 1) false (count_process 0) (fun _ => false)
    (map_file cut_file) 1000 16 0 0 = Running st /\ r_session st = 0.
Proof.
  apply (reader_hangs 4096 (2 ^ 64 - 1) (count_process 0) (fun _ => false) (map_file cut_file)
    16 0 cut_file [] PERF_RECORD_SAMPLE 0 100 (replicate 8 0) 0 1000); (lia || reflexivity).
Defined.

End SessionExamples.
