(* ===== verification/SessionPipe.v ===== *)
(** Model of the event loop of util/session.c for data that comes through a pipe:
    __perf_session__process_pipe_events reads one record after the other into a
    buffer that grows, hands it to the session and flushes the queue at the end.

    The pipe is the file of the input layer, read by readn, whose system calls
    return any number of bytes; AUX area data that follows a record is read by the
    callback that processes the record, so the callback is given the pipe.
    [flush_rest] stands for auxtrace__flush_events and
    perf_session__flush_thread_stacks; the warnings and auxtrace__free_events at the
    end are left out. *)

From S2P Require Import Prelude OrderedEvents Sample Evlist SessionSwap FeatFd Session.

(** The bytes [bs] stored at [off]. *)
Definition put_at (off : Z) (bs buf : bytes) : bytes :=
  take (Z.to_nat off) buf ++ bs ++ drop (Z.to_nat off + length bs) buf.

(** The label that the loop leaves for: [done], or [out_err] with [err]. *)
Inductive pipe_end := ToDone | OutErr (err : Z).

Section Loop.
Context `{Kernel} {St : Type} (needs_swap : bool).
(** [process] is given the memory of the buffer, the position of the record in the
    stream and the pipe. *)
Context (process : St -> bytes -> Z -> file -> res (Z * bytes * St * file)) (session_done : St -> bool).
(** What realloc adds to the buffer. *)
Context (grown : Z -> bytes).

Record pipe_state := Pipe { p_fd : file; p_buf : bytes; p_head : Z; p_session : St }.

(** From the label [more] to the next [goto]; cur_size is the size of the buffer. *)
Definition pipe_step (st : pipe_state) : outcome (pipe_end * St) pipe_state :=
  let s := p_session st in
  let '(err, bs, fd) := readn (p_fd st) sizeof_header in
  let buf := put_at 0 bs (p_buf st) in
  if err <=? 0 then Finished (if err =? 0 then ToDone else OutErr err, s) else
  match (buf ← swap_header needs_swap buf; size ← header_size buf; Ok (buf, size)) with
  | Oob | Err _ => Faulted
  | Ok (buf, size) =>
      if size <? sizeof_header then Finished (OutErr err, s) else
      let cur_size := zlen buf in
      if (cur_size <? size) && negb (alloc size) then Finished (OutErr err, s) else
      let buf := if cur_size <? size then buf ++ grown (size - cur_size) else buf in
      let '(err, buf, fd) :=
        if size - sizeof_header =? 0 then (err, buf, fd)
        else let '(err, bs, fd) := readn fd (size - sizeof_header) in (err, put_at sizeof_header bs buf, fd) in
      if err <=? 0 then Finished (if err =? 0 then ToDone else OutErr err, s) else
      match process s buf (p_head st) fd with
      | Oob | Err _ => Faulted
      | Ok (skip, buf, s, fd) =>
          if skip <? 0 then Finished (OutErr (- EINVAL), s) else
          let head := p_head st +64 size in
          let head := if 0 <? skip then head +64 skip else head in
          if session_done s then Finished (ToDone, s) else Running (Pipe fd buf head s)
      end
  end.

Fixpoint pipe_loop (fuel : nat) (st : pipe_state) : outcome (pipe_end * St) pipe_state :=
  match fuel with
  | O => Running st
  | S fuel => match pipe_step st with Running st => pipe_loop fuel st | o => o end
  end.

(** ** What it should do *)

(** Every record is given to [process] once, in order and with its position;
    [process] takes the bytes after it from the pipe. *)
Inductive pipe_visits : St -> list chunk -> Z -> St -> Prop :=
| pipe_visits_nil s pos : pipe_visits s [] pos s
| pipe_visits_cons s c chunks pos s1 s2 :
    (forall rest data p tl, drop (Z.to_nat p) data = ck_aux c ++ tl -> 0 <= p ->
       exists rec', process s (ck_rec c ++ rest) pos (File data p)
         = Ok (zlen (ck_aux c), rec' ++ rest, s1, File data (p + zlen (ck_aux c))) /\ zlen rec' = ck_size c) ->
    session_done s1 = false ->
    pipe_visits s1 chunks (pos + zlen (ck_file needs_swap c)) s2 ->
    pipe_visits s (c :: chunks) pos s2.

Context `{!KernelOk} (grown_size : forall n, 0 <= n -> zlen (grown n) = n).

Lemma readn_here data p bs tl n : 0 <= p -> drop (Z.to_nat p) data = bs ++ tl -> n = zlen bs ->
  readn (File data p) n = (n, bs, File data (p + n)).
Proof.
  intros Hp Hd ->. rewrite readn_ok by (done || apply zlen_nonneg). cbn [f_pos f_data]. rewrite Hd.
  rewrite zlen_app. pose proof (zlen_nonneg tl). destruct (Z.leb_spec (zlen bs) (zlen bs + zlen tl)); [|lia].
  do 2 f_equal. unfold zlen. by rewrite Nat2Z.id, take_app_length.
Qed.

Lemma drop_more (data : bytes) p bs tl : 0 <= p -> drop (Z.to_nat p) data = bs ++ tl ->
  drop (Z.to_nat (p + zlen bs)) data = tl.
Proof.
  intros Hp Hd. pose proof (zlen_nonneg bs). rewrite Z2Nat.inj_add by done. rewrite <- drop_drop, Hd.
  apply drop_app_length'. unfold zlen. lia.
Qed.

(** One record. *)
Lemma pipe_step_ok c rest data p buf head s s1 : 0 <= p -> drop (Z.to_nat p) data = ck_file needs_swap c ++ rest ->
  8 <= zlen buf -> ck_size c < 2 ^ 16 -> 0 <= head -> head + zlen (ck_file needs_swap c) < 2 ^ 62 ->
  (forall rest data p tl, drop (Z.to_nat p) data = ck_aux c ++ tl -> 0 <= p ->
     exists rec', process s (ck_rec c ++ rest) head (File data p)
       = Ok (zlen (ck_aux c), rec' ++ rest, s1, File data (p + zlen (ck_aux c))) /\ zlen rec' = ck_size c) ->
  session_done s1 = false ->
  exists buf', pipe_step (Pipe (File data p) buf head s) =
      Running (Pipe (File data (p + zlen (ck_file needs_swap c))) buf' (head + zlen (ck_file needs_swap c)) s1) /\
    8 <= zlen buf'.
Proof.
  intros Hp Hd Hb Hs Hh Hlt Hproc Hdone. pose proof (zlen_nonneg (ck_body c)) as Hbody. pose proof (zlen_nonneg (ck_aux c)) as Haux.
  assert (H8 : ck_size c = 8 + zlen (ck_body c)) by done.
  pose proof (zlen_ck_file_header needs_swap c) as Hhl. unfold ck_file in Hd. rewrite <- !app_assoc in Hd.
  unfold pipe_step. cbn [p_fd p_session p_buf p_head].
  rewrite (readn_here data p (ck_file_header needs_swap c) (ck_body c ++ ck_aux c ++ rest) sizeof_header) by done.
  change (sizeof_header <=? 0) with false. cbv iota. change (p + sizeof_header) with (p + 8).
  set (later := drop 8 buf).
  assert (Hput : put_at 0 (ck_file_header needs_swap c) buf = ck_file_header needs_swap c ++ later).
  { unfold put_at, later. replace (length (ck_file_header needs_swap c)) with 8%nat by (unfold zlen in Hhl; lia). done. }
  rewrite Hput, swap_header_ok. rred. rewrite header_size_of by (unfold is_uint; lia). rred.
  destruct (Z.ltb_spec (ck_size c) sizeof_header) as [|_]; [unfold sizeof_header in *; lia|].
  rewrite (memory (ck_size c)) by lia. cbn [negb]. rewrite andb_false_r.
  set (hb := header_bytes (ck_type c) (ck_misc c) (ck_size c)). assert (Hhb : zlen hb = 8) by apply zlen_header.
  set (buf1 := if _ <? _ then _ else _).
  assert (Hbuf1 : exists tail, buf1 = hb ++ tail /\ zlen (ck_body c) <= zlen tail).
  { unfold buf1. rewrite zlen_app, Hhb. destruct (Z.ltb_spec (8 + zlen later) (ck_size c)).
    - exists (later ++ grown (ck_size c - (8 + zlen later))). split; [by rewrite app_assoc|].
      rewrite zlen_app, grown_size by lia. lia.
    - exists later. split; [done|lia]. }
  destruct Hbuf1 as (tail & -> & Htail).
  assert (Hd1 : drop (Z.to_nat (p + 8)) data = ck_body c ++ ck_aux c ++ rest)
    by (rewrite <- Hhl; by apply drop_more).
  assert (Hd2 : drop (Z.to_nat (p + ck_size c)) data = ck_aux c ++ rest).
  { rewrite H8, Z.add_assoc. by apply drop_more; [lia|]. }
  assert (Hread : exists tail', (if ck_size c - sizeof_header =? 0 then (sizeof_header, hb ++ tail, File data (p + 8))
      else let '(err, bs, fd) := readn (File data (p + 8)) (ck_size c - sizeof_header) in
           (err, put_at sizeof_header bs (hb ++ tail), fd)) =
      (if ck_size c - sizeof_header =? 0 then sizeof_header else ck_size c - sizeof_header,
       ck_rec c ++ tail', File data (p + ck_size c))).
  { destruct (Z.eqb_spec (ck_size c - sizeof_header) 0) as [Hz|Hz].
    - exists tail. assert (Hnil : ck_body c = []) by (apply nil_length_inv; unfold zlen, sizeof_header in *; lia).
      unfold ck_rec. rewrite Hnil, app_nil_r. fold hb. unfold sizeof_header in *. by replace (ck_size c) with 8 by lia.
    - rewrite (readn_here data (p + 8) (ck_body c) (ck_aux c ++ rest)) by (done || unfold sizeof_header; lia).
      exists (drop (length (ck_body c)) tail). unfold put_at, ck_rec. fold hb.
      change (Z.to_nat sizeof_header) with 8%nat. assert (Hl : length hb = 8%nat) by (unfold zlen in Hhb; lia).
      rewrite take_app_length' by done. rewrite <- drop_drop, drop_app_length' by done. rewrite <- app_assoc.
      unfold sizeof_header. by replace (p + 8 + (ck_size c - 8)) with (p + ck_size c) by lia. }
  destruct Hread as [tail' ->].
  assert (He : ((if ck_size c - sizeof_header =? 0 then sizeof_header else ck_size c - sizeof_header) <=? 0) = false).
  { unfold sizeof_header. destruct (Z.eqb_spec (ck_size c - 8) 0); lia. }
  rewrite He. destruct (Hproc tail' data (p + ck_size c) rest Hd2 ltac:(lia)) as (rec' & -> & Hrec).
  destruct (Z.ltb_spec (zlen (ck_aux c)) 0); [lia|]. rewrite Hdone. exists (rec' ++ tail').
  rewrite zlen_ck_file in *. split.
  - rewrite !Z.add_assoc. rewrite (u64_small (head + ck_size c)) by lia.
    destruct (Z.ltb_spec 0 (zlen (ck_aux c))); [by rewrite u64_small by lia|].
    by replace (head + ck_size c + zlen (ck_aux c)) with (head + ck_size c) by lia.
  - rewrite zlen_app. pose proof (zlen_nonneg tail'). lia.
Qed.

(** All records, up to the end of the pipe. *)
Lemma pipe_loop_visits chunks : forall data p buf head s s', 0 <= p -> drop (Z.to_nat p) data = file_data needs_swap chunks ->
  8 <= zlen buf -> Forall (fun c => ck_size c < 2 ^ 16) chunks -> 0 <= head ->
  head + zlen (file_data needs_swap chunks) < 2 ^ 62 -> pipe_visits s chunks head s' ->
  pipe_loop (S (length chunks)) (Pipe (File data p) buf head s) = Finished (ToDone, s').
Proof.
  induction chunks as [|c chunks IH]; intros data p buf head s s' Hp Hd Hb Hsz Hh Hlt Hv.
  - inversion Hv; subst. cbn [length pipe_loop]. unfold pipe_step. cbn [p_fd].
    rewrite readn_ok by (done || unfold sizeof_header; lia). cbn [f_pos f_data]. rewrite Hd. done.
  - inversion Hv as [|s0 c0 chunks0 pos s1 s2 Hproc Hdone Hv']; subst. apply Forall_cons in Hsz as [Hs Hsz].
    rewrite file_data_cons in Hd, Hlt. rewrite zlen_app in Hlt. pose proof (zlen_nonneg (file_data needs_swap chunks)).
    pose proof (zlen_nonneg (ck_file needs_swap c)).
    destruct (pipe_step_ok c (file_data needs_swap chunks) data p buf head s s1) as (buf' & E & Hb'); [done|done|done|done|done|lia|done|done|].
    cbn [length]. remember (S (length chunks)) as fuel eqn:Ef. cbn [pipe_loop]. rewrite E. subst fuel.
    apply IH; [lia|by apply drop_more|done|done|lia|lia|done].
Qed.

(** ** Streams that are damaged *)

(** A stream that ends within a header counts as complete. *)
Theorem cut_header_unnoticed data p buf head s : 0 <= p -> zlen (drop (Z.to_nat p) data) < 8 ->
  pipe_step (Pipe (File data p) buf head s) = Finished (ToDone, s).
Proof.
  intros Hp Hz. unfold pipe_step. cbn [p_fd]. rewrite readn_ok by (done || unfold sizeof_header; lia).
  cbn [f_pos f_data]. destruct (Z.leb_spec sizeof_header (zlen (drop (Z.to_nat p) data))); [unfold sizeof_header in *; lia|done].
Qed.

(** A record that claims to be smaller than its header ends the loop with the result
    of the last read, 8. *)
Theorem bad_size_positive data p buf head s ty misc size rest : 0 <= p -> 0 <= size < 8 ->
  drop (Z.to_nat p) data = (if needs_swap then foreign [Int 4 ty; Int 2 misc; Int 2 size] else header_bytes ty misc size) ++ rest ->
  pipe_step (Pipe (File data p) buf head s) = Finished (OutErr 8, s).
Proof.
  intros Hp Hs Hd. set (hdr := if needs_swap then _ else _) in Hd.
  assert (Hl : zlen hdr = 8) by (unfold hdr; destruct needs_swap; [by rewrite zlen_foreign|apply zlen_header]).
  unfold pipe_step. cbn [p_fd p_session p_buf p_head].
  rewrite (readn_here data p hdr rest sizeof_header) by done. change (sizeof_header <=? 0) with false. cbv iota.
  assert (Hput : exists later, put_at 0 hdr buf = hdr ++ later) by (by eexists). destruct Hput as [later ->].
  assert (Hsw : swap_header needs_swap (hdr ++ later) = Ok (header_bytes ty misc size ++ later)).
  { unfold swap_header, hdr. destruct needs_swap; [apply header_bswap_ok|done]. }
  rewrite Hsw. rred. rewrite header_size_of by (unfold is_uint; lia). rred.
  destruct (Z.ltb_spec size sizeof_header); [done|unfold sizeof_header in *; lia].
Qed.

End Loop.

(** * The session *)

Section PipeSession.
Context `{Kernel} (needs_swap : bool) (hash_64 : Z -> Z) (malloc_ok : nat -> bool) (junk : Z -> Z * Z).
Context {W : Type} (tool_ordered_events : bool).
Context (perf_session__deliver_event : W -> option bytes -> Z -> Z * W).
Context (tool_user_event : @perf_session W -> bytes -> Z -> Z * @perf_session W).
Context (session_done : W -> bool) (flush_rest : @perf_session W -> Z * @perf_session W).
Context (grown : Z -> bytes).

(** The loop of skipn; every turn moves at least one byte. *)
Fixpoint skip_loop (fuel : nat) (n : Z) (fd : file) : Z * file :=
  match fuel with
  | O => (0, fd)
  | S fuel =>
      if n <=? 0 then (0, fd) else
      let '(bs, fd) := sys_read fd (Z.min n 4096) in
      if zlen bs <=? 0 then (zlen bs, fd) else skip_loop fuel (n - zlen bs) fd
  end.
Definition skipn (fd : file) (n : Z) : Z * file := skip_loop (S (length (f_data fd))) n fd.

(** The data that a callback announces is taken from the pipe, with skipn as
    process_event_auxtrace_stub does. *)
Definition pipe_process (ss : @perf_session W) (m : bytes) (pos : Z) (fd : file)
    : res (Z * bytes * @perf_session W * file) :=
  '(skip, m, ss) ← perf_session__process_event needs_swap hash_64 malloc_ok junk tool_ordered_events
    perf_session__deliver_event tool_user_event session_done ss m pos;
  Ok (skip, m, ss, if 0 <? skip then snd (skipn fd skip) else fd).

(** [buf] is the memory of [sizeof (union perf_event)] bytes that malloc returned. *)
Definition __perf_session__process_pipe_events (fuel : nat) (buf : bytes) (fd : file) (ss : @perf_session W)
    : outcome (Z * @perf_session W) (@pipe_state (@perf_session W)) :=
  if negb (alloc (zlen buf)) then Finished (- ENOMEM, ss) else
  let ss := with_queue (ordered_events__set_copy_on_queue (ss_ordered_events ss) true) (ss_world ss) ss in
  let out err ss :=
    Finished (err, with_queue (ordered_events__free event_size (ss_ordered_events ss)) (ss_world ss) ss) in
  match pipe_loop needs_swap pipe_process (fun ss => session_done (ss_world ss)) grown fuel (Pipe fd buf 0 ss) with
  | Running st => Running st
  | Faulted => Faulted
  | Finished (OutErr err, ss) => out err ss
  | Finished (ToDone, ss) =>
      match ordered_events__flush event_size (ordered_events__deliver_event perf_session__deliver_event) session_done
              (ss_ordered_events ss) OE_FLUSH__FINAL (ss_world ss) with
      | None => Faulted
      | Some (err, oe, w) =>
          let ss := with_queue oe w ss in
          if negb (err =? 0) then out err ss else
          let '(err, ss) := flush_rest ss in out err ss
      end
  end.

(** skipn takes what is there. *)
Lemma skip_loop_ok `{!KernelOk} fuel : forall n data p, 0 <= n <= zlen (drop (Z.to_nat p) data) -> 0 <= p -> (Z.to_nat n < fuel)%nat ->
  skip_loop fuel n (File data p) = (0, File data (p + n)).
Proof.
  induction fuel as [|fuel IH]; intros n data p Hn Hp Hf; [lia|]. cbn [skip_loop].
  destruct (Z.leb_spec n 0); [by replace (p + n) with p by lia|]. unfold sys_read. cbn [f_data f_pos].
  pose proof (xfer_ok (Z.min n 4096) ltac:(lia)) as Hx. set (av := drop (Z.to_nat p) data) in *.
  assert (Hav : zlen av <= zlen data) by (unfold av, zlen; rewrite length_drop; lia).
  set (bs := take _ av). assert (Hb : zlen bs = Z.min (xfer (Z.min n 4096)) (zlen data)).
  { unfold bs, zlen in *. rewrite length_take. lia. }
  destruct (Z.leb_spec (zlen bs) 0); [lia|]. rewrite IH; [f_equal; f_equal; lia| |lia|lia].
  unfold av, zlen in *. rewrite !length_drop in *. lia.
Qed.

(** Records that a file's reader gives to the session, a pipe's reader gives to it as
    well. *)
Lemma visits_piped `{!KernelOk} ss chunks pos ss' :
  visits needs_swap (perf_session__process_event needs_swap hash_64 malloc_ok junk tool_ordered_events
    perf_session__deliver_event tool_user_event session_done) (fun ss => session_done (ss_world ss)) ss chunks pos ss' ->
  pipe_visits needs_swap pipe_process (fun ss => session_done (ss_world ss)) ss chunks pos ss'.
Proof.
  induction 1 as [|ss c chunks pos s1 s2 Hproc Hdone _ IH]; [constructor|]. econstructor; [|exact Hdone|exact IH].
  intros rest data p tl Hd Hp. destruct (Hproc rest) as (rec' & E & Hl). exists rec'. split; [|done].
  unfold pipe_process. rewrite E. rred. pose proof (zlen_nonneg (ck_aux c)).
  destruct (Z.ltb_spec 0 (zlen (ck_aux c))); [|by replace (p + zlen (ck_aux c)) with p by lia].
  assert (Hav : zlen (ck_aux c) <= zlen (drop (Z.to_nat p) data)) by (rewrite Hd, zlen_app; pose proof (zlen_nonneg tl); lia).
  unfold skipn. rewrite skip_loop_ok; [done|lia|done|]. cbn [f_data]. unfold zlen in *. rewrite length_drop in Hav. lia.
Qed.

End PipeSession.

(** C7: From the pipe to the tool.  A session with ordered events reads a stream of
    kernel records and FINISHED_ROUND marks from a pipe, with system calls that
    return any number of bytes, into a buffer that is used again for every
    record.  If no record is older than those of the pass before the previous one,
    processing ends with 0 at the end of the stream, and the tool is given every
    record exactly once, with its position in the stream and the bytes it had
    there, in non-decreasing order of the times that the event list parses out of
    them. *)
Theorem pipe_delivers_in_order `{KernelOk} hash_64 el malloc_ok junk (malloc_succeeds : forall k, malloc_ok k = true)
    tool_user_event grown (grown_size : forall n, 0 <= n -> zlen (grown n) = n) buf data pos chunks times w0 d counts :
  0 <= pos -> drop (Z.to_nat pos) data = file_data false chunks -> 8 <= zlen buf < 2 ^ 40 ->
  zlen (file_data false chunks) < 2 ^ 62 -> Forall plain chunks -> Forall2 (timed hash_64 el) chunks times ->
  passes_ok 0 0 0 times -> zlen chunks < 2 ^ 31 ->
  exists ss' order,
    __perf_session__process_pipe_events false hash_64 malloc_ok junk true log_event tool_user_event not_done
      (fun ss => (0, ss)) grown (S (length chunks)) buf (File data pos) (Session el (fresh_oe d) counts w0)
    = Finished (0, ss') /\
    ss_world ss' = w0 ++ ((fun k => (k.2, k.1.2)) <$> order) /\
    order ≡ₚ timed_records 0 chunks times /\
    StronglySorted (fun a b => a.1.1 <= b.1.1) order.
Proof.
  intros Hpos Hd Hbuf Hlt Hpl Ht Hok Hn.
  set (ss := Session el (ordered_events__set_copy_on_queue (fresh_oe d) true) counts w0).
  assert (Hss : session_inv el w0 0 0 0 0 [] ss).
  { split; try done; [apply (fresh_oe_inv d true U64_MAX)|].
    exists []. rewrite app_nil_r. split_and!; try done; constructor. }
  destruct (passes_visited hash_64 el malloc_ok junk malloc_succeeds tool_user_event chunks times Ht w0 0 0 0 0 [] ss 0 Hss Hpl Hok ltac:(lia))
    as (ss' & n' & L' & N' & X' & Hv & Hss' & Hn').
  destruct (final_flush _ _ _ _ _ _ _ _ Hss' Hn') as (oe' & dl & Hf & Hperm & Hs).
  unfold __perf_session__process_pipe_events. rewrite (memory (zlen buf)) by lia. cbn [negb].
  cbv zeta. change (with_queue (ordered_events__set_copy_on_queue _ true) _ _) with ss.
  rewrite (pipe_loop_visits false (pipe_process false hash_64 malloc_ok junk true log_event tool_user_event not_done)
    (fun ss => not_done (ss_world ss)) grown grown_size chunks data pos buf 0 ss ss'); try done.
  - rewrite Hf. cbv iota. change (negb (0 =? 0)) with false. cbv iota.
    eexists _, (oev_key <$> dl). split; [done|]. cbn [ss_world with_queue]. split; [|split; [done|]].
    + f_equal. rewrite <- list_fmap_compose. done.
    + by apply sorted_keys.
  - lia.
  - eapply Forall_impl; [exact Hpl|]. by intros c (_ & _ & ?).
  - by apply visits_piped.
Qed.

(** * A concrete pipe *)

Module PipeExamples.
Import SessionExamples.

(** Three bytes per system call. *)
#[local] Instance slow_pipe : Kernel := {|
  xfer n := Z.min n 3; file_limit := 2 ^ 62; alloc _ := true; big_endian := false; nprocessors_onln := 1
|}.
#[local] Instance slow_pipe_ok : KernelOk.
Proof. split; [|done]. intros n Hn. cbn. lia. Defined.

Definition fresh_memory (n : Z) : bytes := replicate (Z.to_nat n) 170.
Lemma fresh_memory_size n : 0 <= n -> zlen (fresh_memory n) = n.
Proof. intros Hn. unfold fresh_memory, zlen. rewrite length_replicate. lia. Defined.

(** The records of the passes, after 16 bytes of the header of the pipe. *)
Definition stream : bytes := replicate 16 1 ++ file_data false passes.
Definition run_pipe := __perf_session__process_pipe_events false EvlistExamples.hash4 ok_malloc no_junk true log_event no_user not_done
  (fun ss => (0, ss)) fresh_memory 8 (fresh_memory 9) (File stream 16) (Session one_event (fresh_oe 0) ∅ []).

Lemma pipe_delivers_in_order_witness :
  exists ss' order, run_pipe = Finished (0, ss') /\ ss_world ss' = [] ++ ((fun k => (k.2, k.1.2)) <$> order) /\
    order ≡ₚ timed_records 0 passes pass_times /\ StronglySorted (fun a b => a.1.1 <= b.1.1) order.
Proof.
  refine (pipe_delivers_in_order EvlistExamples.hash4 one_event ok_malloc no_junk (fun _ => eq_refl) no_user fresh_memory
    fresh_memory_size (fresh_memory 9) stream 16 passes pass_times [] 0 ∅ _ _ _ _ _ _ _ _).
  - lia.
  - vm_compute. reflexivity.
  - vm_compute. split; [discriminate|reflexivity].
  - vm_compute. reflexivity.
  - repeat constructor; vm_compute; first [discriminate|reflexivity].
  - exact passes_timed.
  - vm_compute. repeat split; first [discriminate|reflexivity].
  - vm_compute. reflexivity.
Defined.

(** The offsets, in the order of delivery. *)
Example pipe_order :
  match run_pipe with Finished (err, ss) => Some (err, snd <$> ss_world ss) | _ => None end = Some (0, [32; 72; 0; 144; 112]).
Proof. vm_compute. reflexivity. Qed.

End PipeExamples.
