(* ===== verification/SessionDeliver.v ===== *)
(** Model of the delivery of a record to the tool in util/session.c:
    perf_session__deliver_event parses the record, machines__deliver_event finds the
    event and the machine and calls the callback for the type of the record; samples
    of counters that are read together (PERF_SAMPLE_READ) are delivered as one
    sample per counter, with the difference to the last value as period.  Then the
    records that carry the index of sample ids (perf_event__synthesize_id_index and
    perf_event__process_id_index).

    The members of a struct perf_sample_id that change are kept by id: the table of
    the event list always finds the same object for an id.  The callbacks of the
    tool, the machines and auxtrace__process_event are parameters; dumping is left
    out. *)

From S2P Require Import Prelude Sample Evlist SessionSwap.

Definition PERF_RECORD_KSYMBOL : Z := 17.
Definition PERF_RECORD_BPF_EVENT : Z := 18.
Definition PERF_RECORD_MISC_GUEST_KERNEL : Z := 4.
Definition PERF_RECORD_MISC_GUEST_USER : Z := 5.
Definition PERF_RECORD_MISC_PROC_MAP_PARSE_TIMEOUT : Z := 2 ^ 12.
Definition PERF_AUX_FLAG_TRUNCATED : Z := 1.
Definition PERF_AUX_FLAG_PARTIAL : Z := 4.
Definition DEFAULT_GUEST_KERNEL_ID : Z := 0.
Definition EINVAL : Z := 22.
Definition ENOENT : Z := 2.
Definition ENOMEM : Z := 12.

Record sid_fields := SidFields { sf_idx : Z; sf_cpu : Z; sf_tid : Z; sf_period : Z }.
Definition new_sid : sid_fields := SidFields 0 0 0 0.

(** The members of struct events_stats that delivery counts. *)
Record events_stats := EventsStats {
  total_lost : Z;
  total_lost_samples : Z;
  total_aux_lost : Z;
  total_aux_partial : Z;
  nr_unknown_events : Z;
  nr_unknown_id : Z;
  nr_unprocessable_samples : Z;
  nr_proc_map_timeout : Z
}.

Inductive callback :=
| cb_mmap | cb_mmap2 | cb_comm | cb_namespaces | cb_fork | cb_exit | cb_lost | cb_lost_samples
| cb_throttle | cb_unthrottle | cb_aux | cb_itrace_start | cb_context_switch | cb_ksymbol | cb_bpf_event.

Section Deliver.
Context (hash_64 hweight64 : Z -> Z).
(** The tool: its state, its callbacks, and whether [lost], [lost_samples] and [aux]
    are those of util/event.c.  [None] is no machine. *)
Context {W Machine : Type}.
Context (tool_sample : W -> perf_event -> perf_sample -> nat -> Machine -> Z * W).
Context (tool_read : W -> perf_event -> perf_sample -> option nat -> option Machine -> Z * W).
Context (tool_event : callback -> W -> perf_event -> perf_sample -> option Machine -> Z * W).
Context (counts_lost counts_lost_samples counts_aux : bool).
Context (perf_guest : bool) (host : Machine) (machines__find machines__findnew : Z -> option Machine).

(** What delivery changes: the ids, the statistics of the event list and the tool. *)
Record delivery := Delivery { dl_sids : gmap Z sid_fields; dl_stats : events_stats; dl_tool : W }.

Definition sid_of (id : Z) (d : delivery) : sid_fields := default new_sid (dl_sids d !! id).
Definition set_sid (id : Z) (f : sid_fields) (d : delivery) : delivery :=
  Delivery (<[id := f]> (dl_sids d)) (dl_stats d) (dl_tool d).
Definition on_stats (f : events_stats -> events_stats) (d : delivery) : delivery :=
  Delivery (dl_sids d) (f (dl_stats d)) (dl_tool d).
(** A callback and its result. *)
Definition call (f : W -> Z * W) (d : delivery) : Z * delivery :=
  let '(ret, w) := f (dl_tool d) in (ret, Delivery (dl_sids d) (dl_stats d) w).

Definition inc_unknown_id (s : events_stats) : events_stats :=
  EventsStats (total_lost s) (total_lost_samples s) (total_aux_lost s) (total_aux_partial s) (nr_unknown_events s)
    (u32 (nr_unknown_id s + 1)) (nr_unprocessable_samples s) (nr_proc_map_timeout s).
Definition inc_unprocessable (s : events_stats) : events_stats :=
  EventsStats (total_lost s) (total_lost_samples s) (total_aux_lost s) (total_aux_partial s) (nr_unknown_events s)
    (nr_unknown_id s) (u32 (nr_unprocessable_samples s + 1)) (nr_proc_map_timeout s).
Definition inc_timeout (s : events_stats) : events_stats :=
  EventsStats (total_lost s) (total_lost_samples s) (total_aux_lost s) (total_aux_partial s) (nr_unknown_events s)
    (nr_unknown_id s) (nr_unprocessable_samples s) (u32 (nr_proc_map_timeout s + 1)).
Definition inc_unknown_events (s : events_stats) : events_stats :=
  EventsStats (total_lost s) (total_lost_samples s) (total_aux_lost s) (total_aux_partial s)
    (u32 (nr_unknown_events s + 1)) (nr_unknown_id s) (nr_unprocessable_samples s) (nr_proc_map_timeout s).
Definition add_lost (n : Z) (s : events_stats) : events_stats :=
  EventsStats (total_lost s +64 n) (total_lost_samples s) (total_aux_lost s) (total_aux_partial s) (nr_unknown_events s)
    (nr_unknown_id s) (nr_unprocessable_samples s) (nr_proc_map_timeout s).
Definition add_lost_samples (n : Z) (s : events_stats) : events_stats :=
  EventsStats (total_lost s) (total_lost_samples s +64 n) (total_aux_lost s) (total_aux_partial s) (nr_unknown_events s)
    (nr_unknown_id s) (nr_unprocessable_samples s) (nr_proc_map_timeout s).
Definition add_aux (lost partial : Z) (s : events_stats) : events_stats :=
  EventsStats (total_lost s) (total_lost_samples s) (total_aux_lost s +64 lost) (total_aux_partial s +64 partial)
    (nr_unknown_events s) (nr_unknown_id s) (nr_unprocessable_samples s) (nr_proc_map_timeout s).

Definition set_id_period (id period : Z) (s : perf_sample) : perf_sample :=
  Sample (s_ip s) (s_pid s) (s_tid s) (s_time s) (s_addr s) id (s_stream_id s) period (s_weight s) (s_transaction s)
    (s_cpu s) (s_raw_size s) (s_data_src s) (s_phys_addr s) (s_cpumode s) (s_misc s) (s_raw_data s) (s_callchain s)
    (s_branch_stack s) (s_user_regs s) (s_intr_regs s) (s_user_stack s) (s_read s).

(** * Samples *)

(** The sample is changed in place.  The event of an id is never null:
    perf_evlist__id_hash sets it. *)
Definition deliver_sample_value (el : perf_evlist) (event : perf_event) (sample : perf_sample) (value id : Z)
    (machine : Machine) (d : delivery) : res (Z * perf_sample * delivery) :=
  sid ← mem (perf_evlist__id2sid hash_64 el id);
  match sid with
  | None => Ok (0, sample, on_stats inc_unknown_id d)
  | Some sid =>
      let f := sid_of id d in
      let sample := set_id_period id (value -64 sf_period f) sample in
      let d := set_sid id (SidFields (sf_idx f) (sf_cpu f) (sf_tid f) value) d in
      if s_period sample =? 0 then Ok (0, sample, d) else
      let '(ret, d) := call (fun w => tool_sample w event sample (sid_evsel sid) machine) d in
      Ok (ret, sample, d)
  end.

(** [i] counts up to [nr]; [ret] is the result so far. *)
Fixpoint group_loop (fuel : nat) (el : perf_evlist) (event : perf_event) (sample : perf_sample) (i : Z) (values : list Z)
    (machine : Machine) (ret : Z) (d : delivery) : res (Z * delivery) :=
  match fuel with
  | O => Ok (ret, d)
  | S fuel =>
      value ← mem (values !! Z.to_nat (2 * i));
      id ← mem (values !! Z.to_nat (2 * i + 1));
      '(ret, sample, d) ← deliver_sample_value el event sample value id machine d;
      if negb (ret =? 0) then Ok (ret, d) else group_loop fuel el event sample (i + 1) values machine ret d
  end.

Definition deliver_sample_group (el : perf_evlist) (event : perf_event) (sample : perf_sample) (nr : Z) (values : list Z)
    (machine : Machine) (d : delivery) : res (Z * delivery) :=
  group_loop (Z.to_nat nr) el event sample 0 values machine (- EINVAL) d.

(** The members of the union are those of the format of the event; the other member is
    not read as well. *)
Definition perf_evlist__deliver_sample (el : perf_evlist) (event : perf_event) (sample : perf_sample) (evsel : nat)
    (machine : Machine) (d : delivery) : res (Z * delivery) :=
  e ← mem (evsel_at el evsel);
  if negb (hasf (sample_type (attr e)) PERF_SAMPLE_READ) then
    Ok (call (fun w => tool_sample w event sample evsel machine) d)
  else
    match read_vals (s_read sample) with
    | ReadGroup nr values =>
        if hasf (read_format (attr e)) PERF_FORMAT_GROUP then deliver_sample_group el event sample nr values machine d
        else Oob
    | ReadOne value id =>
        if hasf (read_format (attr e)) PERF_FORMAT_GROUP then Oob
        else '(ret, _, d) ← deliver_sample_value el event sample value id machine d; Ok (ret, d)
    end.

(** * Any record *)

Definition machines__find_for_cpumode (event : perf_event) (sample : perf_sample) : res (option Machine) :=
  if perf_guest && ((s_cpumode sample =? PERF_RECORD_MISC_GUEST_KERNEL) || (s_cpumode sample =? PERF_RECORD_MISC_GUEST_USER))
  then
    pid ← (if (hdr_type event =? PERF_RECORD_MMAP) || (hdr_type event =? PERF_RECORD_MMAP2)
           then mem (rd_le (ev_mem event) 8 4) else Ok (u32 (s_pid sample)));
    Ok (match machines__find pid with Some m => Some m | None => machines__findnew DEFAULT_GUEST_KERNEL_ID end)
  else Ok (Some host).

Definition simple_callback (type : Z) : option callback :=
  if type =? PERF_RECORD_MMAP then Some cb_mmap
  else if type =? PERF_RECORD_COMM then Some cb_comm
  else if type =? PERF_RECORD_NAMESPACES then Some cb_namespaces
  else if type =? PERF_RECORD_FORK then Some cb_fork
  else if type =? PERF_RECORD_EXIT then Some cb_exit
  else if type =? PERF_RECORD_THROTTLE then Some cb_throttle
  else if type =? PERF_RECORD_UNTHROTTLE then Some cb_unthrottle
  else if type =? PERF_RECORD_ITRACE_START then Some cb_itrace_start
  else if (type =? PERF_RECORD_SWITCH) || (type =? PERF_RECORD_SWITCH_CPU_WIDE) then Some cb_context_switch
  else if type =? PERF_RECORD_KSYMBOL then Some cb_ksymbol
  else if type =? PERF_RECORD_BPF_EVENT then Some cb_bpf_event
  else None.

Definition machines__deliver_event (el : perf_evlist) (event : perf_event) (sample : perf_sample) (d : delivery)
    : res (Z * delivery) :=
  evsel ← mem (perf_evlist__id2evsel hash_64 el (s_id sample));
  machine ← machines__find_for_cpumode event sample;
  let type := hdr_type event in
  let give cb d := Ok (call (fun w => tool_event cb w event sample machine) d) in
  if type =? PERF_RECORD_SAMPLE then
    match evsel, machine with
    | None, _ => Ok (0, on_stats inc_unknown_id d)
    | Some _, None => Ok (0, on_stats inc_unprocessable d)
    | Some evsel, Some machine => perf_evlist__deliver_sample el event sample evsel machine d
    end
  else if type =? PERF_RECORD_MMAP2 then
    give cb_mmap2 (if hasf (hdr_misc event) PERF_RECORD_MISC_PROC_MAP_PARSE_TIMEOUT then on_stats inc_timeout d else d)
  else if type =? PERF_RECORD_LOST then
    if counts_lost then lost ← mem (rd_le (ev_mem event) 16 8); give cb_lost (on_stats (add_lost lost) d)
    else give cb_lost d
  else if type =? PERF_RECORD_LOST_SAMPLES then
    if counts_lost_samples then lost ← mem (rd_le (ev_mem event) 8 8); give cb_lost_samples (on_stats (add_lost_samples lost) d)
    else give cb_lost_samples d
  else if type =? PERF_RECORD_READ then Ok (call (fun w => tool_read w event sample evsel machine) d)
  else if type =? PERF_RECORD_AUX then
    if counts_aux then
      flags ← mem (rd_le (ev_mem event) 24 8);
      give cb_aux (on_stats (add_aux (Z.b2z (hasf flags PERF_AUX_FLAG_TRUNCATED)) (Z.b2z (hasf flags PERF_AUX_FLAG_PARTIAL))) d)
    else give cb_aux d
  else match simple_callback type with
       | Some cb => give cb d
       | None => Ok (-1, on_stats inc_unknown_events d)
       end.

(** auxtrace__process_event; a positive result means that the record was for it. *)
Context (auxtrace__process_event : perf_event -> perf_sample -> W -> Z * W).

Definition perf_session__deliver_event (el : perf_evlist) (event : perf_event) (d : delivery) : res (Z * delivery) :=
  match perf_evlist__parse_sample hash_64 hweight64 el event with
  | Oob => Oob
  | Err ret => Ok (ret, d)
  | Ok sample =>
      let '(ret, d) := call (auxtrace__process_event event sample) d in
      if ret <? 0 then Ok (ret, d) else if 0 <? ret then Ok (0, d)
      else machines__deliver_event el event sample d
  end.

End Deliver.

(** * What a tool is told of counters *)

Section Reads.
Context (hash_64 : Z -> Z) (el : perf_evlist) {Machine : Type} (machine : Machine).
Context (hash_bound : forall id, 0 <= hash_64 id < PERF_EVLIST__HLIST_SIZE) (table : heads_ok (el_heads el)).

(** A tool that writes down id, period and event of its samples. *)
Abbreviation log := (list (Z * Z * nat)).
Definition log_sample (w : log) (event : perf_event) (s : perf_sample) (evsel : nat) (m : Machine) : Z * log :=
  (0, w ++ [(s_id s, s_period s, evsel)]).
Abbreviation deliver := (perf_evlist__deliver_sample hash_64 log_sample el).
Abbreviation deliver_value := (deliver_sample_value hash_64 log_sample el).

Definition owner (id : Z) : option nat := sid_evsel <$> (mjoin (perf_evlist__id2sid hash_64 el id)).

(** The values of a sample, each with the id of its counter. *)
Inductive holds_values (e : perf_evsel) (s : perf_sample) : list (Z * Z) -> Prop :=
| holds_one v id : hasf (read_format (attr e)) PERF_FORMAT_GROUP = false -> read_vals (s_read s) = ReadOne v id ->
    holds_values e s [(v, id)]
| holds_group vs : hasf (read_format (attr e)) PERF_FORMAT_GROUP = true -> vs <> [] ->
    read_vals (s_read s) = ReadGroup (zlen vs) (vs ≫= fun x => [x.1; x.2]) -> holds_values e s vs.

(** Of every value of a known counter the tool is told the difference to the value
    before, if there is one. *)
Fixpoint told (prev : Z -> Z) (vs : list (Z * Z)) : log :=
  match vs with
  | [] => []
  | (v, id) :: vs =>
      match owner id with
      | None => told prev vs
      | Some p =>
          let period := v -64 prev id in
          (if period =? 0 then [] else [(id, period, p)]) ++ told (fun x => if x =? id then v else prev x) vs
      end
  end.
(** The values after that. *)
Fixpoint after (prev : Z -> Z) (vs : list (Z * Z)) : Z -> Z :=
  match vs with
  | [] => prev
  | (v, id) :: vs => after (match owner id with None => prev | Some _ => fun x => if x =? id then v else prev x end) vs
  end.

Definition value_of (d : delivery (W := log)) (id : Z) : Z := sf_period (sid_of id d).

(** The result of delivering [vs]. *)
Definition delivered_values (vs : list (Z * Z)) (d d' : delivery (W := log)) : Prop :=
  dl_tool d' = dl_tool d ++ told (value_of d) vs /\ forall x, value_of d' x = after (value_of d) vs x.

Lemma told_ext vs : forall p q, (forall x, p x = q x) -> told p vs = told q vs /\ forall x, after p vs x = after q vs x.
Proof.
  induction vs as [|[v id] vs IH]; intros p q E; [done|]. cbn [told after]. destruct (owner id); [|by apply IH].
  rewrite (E id). destruct (IH (fun x => if x =? id then v else p x) (fun x => if x =? id then v else q x)) as [-> H];
    [intros x; by destruct (x =? id)|done].
Qed.

Lemma told_app vs1 vs2 : forall p, told p (vs1 ++ vs2) = told p vs1 ++ told (after p vs1) vs2 /\
  forall x, after p (vs1 ++ vs2) x = after (after p vs1) vs2 x.
Proof.
  induction vs1 as [|[v id] vs1 IH]; intros p; [done|]. cbn [app told after]. destruct (owner id); [|apply IH].
  destruct (IH (fun x => if x =? id then v else p x)) as [-> H]. by rewrite <- app_assoc.
Qed.

Lemma delivered_values_trans vs1 vs2 d1 d2 d3 : delivered_values vs1 d1 d2 -> delivered_values vs2 d2 d3 ->
  delivered_values (vs1 ++ vs2) d1 d3.
Proof.
  intros [A1 A2] [B1 B2]. destruct (told_app vs1 vs2 (value_of d1)) as [Et T].
  destruct (told_ext vs2 (value_of d2) (after (value_of d1) vs1) A2) as [E1 E2]. split.
  - by rewrite B1, A1, E1, Et, app_assoc.
  - intros x. by rewrite T, B2, E2.
Qed.

Lemma id2sid_known id : exists sid, perf_evlist__id2sid hash_64 el id = Some sid /\ owner id = sid_evsel <$> sid.
Proof using hash_bound table.
  destruct (heads_find_total hash_64 hash_bound (el_heads el) id table) as [sid E]. exists sid. split; [done|].
  unfold owner, perf_evlist__id2sid. by rewrite E.
Qed.

Lemma deliver_value_ok event s v id d : exists s' d', deliver_value event s v id machine d = Ok (0, s', d') /\
  s_read s' = s_read s /\ delivered_values [(v, id)] d d'.
Proof using hash_bound table.
  unfold deliver_sample_value. destruct (id2sid_known id) as (sid & -> & Eo). cbn [mem mbind res_bind].
  unfold delivered_values. cbn [told after]. rewrite Eo. destruct sid as [sid|]; cbn [fmap option_fmap option_map].
  - cbn [set_id_period s_period]. fold (value_of d id). set (d1 := set_sid _ _ d).
    assert (Hv : forall x, value_of d1 x = if x =? id then v else value_of d x).
    { intros x. unfold value_of, sid_of, d1. cbn [set_sid dl_sids]. destruct (Z.eqb_spec x id) as [->|Hne].
      - by rewrite lookup_insert_eq.
      - by rewrite lookup_insert_ne. }
    destruct (v -64 value_of d id =? 0).
    + eexists _, d1. split; [done|]. split; [done|]. split; [by rewrite app_nil_r|done].
    + eexists _, _. split; [reflexivity|]. split; [done|]. split; [done|exact Hv].
  - eexists s, _. split; [done|]. split; [done|]. cbn. by rewrite app_nil_r.
Qed.

Lemma deliver_group_ok event vs : forall done s ret d,
  exists d', group_loop hash_64 log_sample (length vs) el event s (zlen done) ((done ++ vs) ≫= fun x => [x.1; x.2]) machine ret d
    = Ok (if vs is [] then ret else 0, d') /\ delivered_values vs d d'.
Proof using hash_bound table.
  induction vs as [|[v id] vs IH]; intros rest s ret d.
  - exists d. split; [done|]. split; [by rewrite app_nil_r|done].
  - cbn [length group_loop].
    assert (Hl : length (rest ≫= fun x => [x.1; x.2]) = Z.to_nat (2 * zlen rest)).
    { unfold zlen. clear. induction rest as [|x rest IH]; [done|]. cbn. rewrite IH. lia. }
    assert (H1 : ((rest ++ (v, id) :: vs) ≫= fun x => [x.1; x.2]) !! Z.to_nat (2 * zlen rest) = Some v).
    { rewrite bind_app, lookup_app_r by lia. by rewrite Hl, Nat.sub_diag. }
    assert (H2 : ((rest ++ (v, id) :: vs) ≫= fun x => [x.1; x.2]) !! Z.to_nat (2 * zlen rest + 1) = Some id).
    { pose proof (zlen_nonneg rest). rewrite bind_app, lookup_app_r by lia. rewrite Hl.
      by replace (Z.to_nat (2 * zlen rest + 1) - Z.to_nat (2 * zlen rest))%nat with 1%nat by lia. }
    rewrite H1, H2. cbn [mem mbind res_bind].
    destruct (deliver_value_ok event s v id d) as (s1 & d1 & -> & _ & D1). cbn [mbind res_bind negb Z.eqb].
    destruct (IH (rest ++ [(v, id)]) s1 0 d1) as (d2 & E2 & D2). rewrite zlen_app, <- app_assoc in E2. cbn [app] in E2.
    change (zlen [(v, id)]) with 1 in E2. rewrite E2. exists d2. split; [by destruct vs|]. by apply (delivered_values_trans [(v, id)] vs d d1 d2).
Qed.

Lemma deliver_sample_ok event s p e vs d : evsel_at el p = Some e -> hasf (sample_type (attr e)) PERF_SAMPLE_READ = true ->
  holds_values e s vs -> exists d', deliver event s p machine d = Ok (0, d') /\ delivered_values vs d d'.
Proof using hash_bound table.
  intros Ee Hr Hh. unfold perf_evlist__deliver_sample. rewrite Ee. cbn [mem mbind res_bind]. rewrite Hr. cbn [negb].
  destruct Hh as [v id Hf Ev|vs Hf Hne Ev]; rewrite Ev, Hf.
  - destruct (deliver_value_ok event s v id d) as (s1 & d1 & -> & _ & D1). by exists d1.
  - unfold deliver_sample_group. replace (Z.to_nat (zlen vs)) with (length vs) by (unfold zlen; lia).
    destruct (deliver_group_ok event vs [] s (- EINVAL) d) as (d1 & E1 & D1). cbn [app] in E1. rewrite zlen_nil in E1. rewrite E1.
    exists d1. by destruct vs.
Qed.

(** ** Any number of samples *)

Record read_sample := ReadSample { rs_event : perf_event; rs_sample : perf_sample; rs_evsel : nat; rs_values : list (Z * Z) }.
Definition read_ok (r : read_sample) : Prop :=
  exists e, evsel_at el (rs_evsel r) = Some e /\ hasf (sample_type (attr e)) PERF_SAMPLE_READ = true /\
    holds_values e (rs_sample r) (rs_values r).

Fixpoint deliver_all (rs : list read_sample) (d : delivery) : res (Z * delivery (W := log)) :=
  match rs with
  | [] => Ok (0, d)
  | r :: rs =>
      '(ret, d) ← deliver (rs_event r) (rs_sample r) (rs_evsel r) machine d;
      if negb (ret =? 0) then Ok (ret, d) else deliver_all rs d
  end.

Lemma deliver_all_ok rs : forall d, Forall read_ok rs ->
  exists d', deliver_all rs d = Ok (0, d') /\ delivered_values (rs ≫= rs_values) d d'.
Proof using hash_bound table.
  induction rs as [|r rs IH]; intros d Hr.
  - exists d. split; [done|]. split; [by rewrite app_nil_r|done].
  - apply Forall_cons in Hr as [(e & Ee & Hf & Hh) Hr]. cbn [deliver_all].
    destruct (deliver_sample_ok (rs_event r) (rs_sample r) (rs_evsel r) e (rs_values r) d Ee Hf Hh) as (d1 & -> & D1).
    cbn [mbind res_bind negb Z.eqb]. destruct (IH d1 Hr) as (d2 & -> & D2). exists d2. split; [done|].
    cbn [mbind list_bind]. by eapply delivered_values_trans.
Qed.

(** The periods that the tool was told of a counter. *)
Fixpoint period_sum (id : Z) (l : log) : Z :=
  match l with
  | [] => 0
  | (i, period, _) :: l => (if i =? id then period else 0) + period_sum id l
  end.

Lemma period_sum_app id l1 l2 : period_sum id (l1 ++ l2) = period_sum id l1 + period_sum id l2.
Proof. induction l1 as [|[[i p] q] l1 IH]; cbn; [done|]. lia. Qed.

Lemma told_sum id vs : owner id <> None -> forall prev, u64 (prev id + period_sum id (told prev vs)) = u64 (after prev vs id).
Proof.
  intros Ho. induction vs as [|[v i] vs IH]; intros prev; cbn [told after]; [cbn; by rewrite Z.add_0_r|].
  destruct (owner i) as [p|] eqn:Ei; [|apply IH]. rewrite <- (IH (fun x => if x =? i then v else prev x)), period_sum_app. cbv beta.
  set (told' := told _ vs). assert (Hd : u64 (prev i + (v -64 prev i)) = u64 v) by (unfold wrap; rewrite Zplus_mod_idemp_r; f_equal; lia).
  assert (Hh : period_sum id (if v -64 prev i =? 0 then [] else [(i, v -64 prev i, p)]) = if i =? id then v -64 prev i else 0).
  { destruct (Z.eqb_spec (v -64 prev i) 0) as [E|E]; cbn; [rewrite E|]; destruct (i =? id); lia. }
  rewrite Hh. destruct (Z.eqb_spec i id) as [->|Hne].
  - rewrite Z.eqb_refl. rewrite Z.add_assoc. unfold wrap in *. rewrite <- (Zplus_mod_idemp_l (prev id + _)), Hd. apply Zplus_mod_idemp_l.
  - rewrite (proj2 (Z.eqb_neq id i)) by done. done.
Qed.

Lemma told_owner prev vs x : x ∈ told prev vs -> owner x.1.1 = Some x.2 /\ x.1.2 <> 0 /\ exists v, (v, x.1.1) ∈ vs.
Proof.
  revert prev. induction vs as [|[v id] vs IH]; intros prev; cbn [told]; [by intros ?%not_elem_of_nil|].
  destruct (owner id) as [p|] eqn:Eo.
  - rewrite elem_of_app. intros [Hx|Hx].
    + destruct (Z.eqb_spec (v -64 prev id) 0); [by apply not_elem_of_nil in Hx|]. apply list_elem_of_singleton in Hx as ->.
      split; [done|]. split; [done|]. exists v. by constructor.
    + destruct (IH _ Hx) as (H1 & H2 & w & H3). split; [done|]. split; [done|]. exists w. by constructor.
  - intros Hx. destruct (IH _ Hx) as (H1 & H2 & w & H3). split; [done|]. split; [done|]. exists w. by constructor.
Qed.

(** C8: Samples with counter values (single values or groups that are not empty, of
    events with PERF_SAMPLE_READ, values of unknown ids among them) are delivered to a
    tool whose callback returns 0: every delivery returns 0, every sample that the tool
    gets belongs to the event that owns the id and has a period that is not zero, and
    the periods it was told of a counter always add up to the last value of that counter
    minus the value that was stored for its id before the first of these samples (0 for
    an id that was never seen), modulo 2^64; that last value is then the one stored. *)
Theorem read_periods_exact rs d : Forall read_ok rs ->
  exists d' l, deliver_all rs d = Ok (0, d') /\ dl_tool d' = dl_tool d ++ l /\
    Forall (fun x => owner x.1.1 = Some x.2 /\ x.1.2 <> 0) l /\
    forall id, owner id <> None ->
      u64 (value_of d id + period_sum id l) = u64 (after (value_of d) (rs ≫= rs_values) id) /\
      value_of d' id = after (value_of d) (rs ≫= rs_values) id.
Proof using hash_bound table.
  intros Hr. destruct (deliver_all_ok rs d Hr) as (d' & E & D1 & D2).
  exists d', (told (value_of d) (rs ≫= rs_values)). split; [done|]. split; [done|]. split.
  - apply Forall_forall. intros x Hx. destruct (told_owner _ _ x Hx) as (H1 & H2 & _). done.
  - intros id Ho. split; [by apply told_sum|apply D2].
Qed.

End Reads.

(** * The index of sample ids *)

Definition sizeof_id_index_event : Z := 16.
Definition sizeof_id_index_entry : Z := 32.

Section IdIndex.
Context (hash_64 : Z -> Z).

(** The entries of the record in memory, from the [i]th on. *)
Fixpoint index_entries (n : nat) (el : perf_evlist) (i : Z) (m : bytes) (sids : gmap Z sid_fields) : res (Z * gmap Z sid_fields) :=
  match n with
  | O => Ok (0, sids)
  | S n =>
      let e := sizeof_id_index_event + i * sizeof_id_index_entry in
      id ← mem (rd_le m e 8);
      sid ← mem (perf_evlist__id2sid hash_64 el id);
      match sid with
      | None => Ok (- ENOENT, sids)
      | Some _ =>
          idx ← mem (rd_le m (e + 8) 8); cpu ← mem (rd_le m (e + 16) 8); tid ← mem (rd_le m (e + 24) 8);
          let f := default new_sid (sids !! id) in
          index_entries n el (i + 1) m (<[id := SidFields (sint 32 idx) (sint 32 cpu) (sint 32 tid) (sf_period f)]> sids)
      end
  end.

Definition perf_event__process_id_index (el : perf_evlist) (m : bytes) (sids : gmap Z sid_fields) : res (Z * gmap Z sid_fields) :=
  size ← mem (rd_le m 6 2);
  let max_nr := (size -64 sizeof_id_index_event) / sizeof_id_index_entry in
  nr ← mem (rd_le m 8 8);
  if max_nr <? nr then Ok (- EINVAL, sids) else index_entries (Z.to_nat nr) el 0 m sids.

(** ** Writing *)

(** The ids of the events, event by event. *)
Definition ids_of (el : perf_evlist) : list Z :=
  el_entries el ≫= fun x => snd <$> filter (fun y => y.1 = x.1) (el_ids el).

Definition index_entry (id : Z) (f : sid_fields) : bytes :=
  le_bytes 8 id ++ le_bytes 8 (u64 (sf_idx f)) ++ le_bytes 8 (u64 (sf_cpu f)) ++ le_bytes 8 (u64 (sf_tid f)).

(** The memory of [ev], whose array of entries is [slots]. *)
Definition index_record (nr : Z) (slots : list bytes) : bytes :=
  header_bytes PERF_RECORD_ID_INDEX 0 (u16 (sizeof_id_index_event + nr * sizeof_id_index_entry)) ++ le_bytes 8 nr ++ concat slots.

Context {P : Type} (process : P -> bytes -> Z * P) (alloc_ok : Z -> bool).

Fixpoint index_loop (el : perf_evlist) (sids : gmap Z sid_fields) (n : Z) (ids : list Z) (i nr : Z) (slots : list bytes) (p : P)
    : res (Z * P) :=
  match ids with
  | [] => Ok (process p (index_record nr slots))
  | id :: ids =>
      let put i nr p :=
        sid ← mem (perf_evlist__id2sid hash_64 el id);
        match sid with
        | None => Ok (- ENOENT, p)
        | Some _ =>
            _ ← mem (slots !! Z.to_nat i);
            index_loop el sids n ids (i + 1) nr (<[Z.to_nat i := index_entry id (default new_sid (sids !! id))]> slots) p
        end in
      if n <=? i then
        let '(err, p) := process p (index_record n slots) in
        if negb (err =? 0) then Ok (err, p) else put 0 (nr -64 n) p
      else put i nr p
  end.

Definition perf_event__synthesize_id_index (el : perf_evlist) (sids : gmap Z sid_fields) (p : P) : res (Z * P) :=
  let max_nr := (65535 - sizeof_id_index_event) / sizeof_id_index_entry in
  let nr := zlen (ids_of el) in
  let n := if max_nr <? nr then max_nr else nr in
  if negb (alloc_ok (sizeof_id_index_event + n * sizeof_id_index_entry)) then Ok (- ENOMEM, p)
  else index_loop el sids n (ids_of el) 0 nr (replicate (Z.to_nat n) (replicate 32 0)) p.

End IdIndex.

(** ** What the reader learns *)

(** A reader that has the entry of [id] has the place of the counter; the last value
    it was told stays. *)
Definition placed (sids p : gmap Z sid_fields) (id : Z) : sid_fields :=
  let f := default new_sid (sids !! id) in
  SidFields (sf_idx f) (sf_cpu f) (sf_tid f) (sf_period (default new_sid (p !! id))).
Definition learn (sids p : gmap Z sid_fields) (id : Z) : gmap Z sid_fields := <[id := placed sids p id]> p.

Definition int32 (z : Z) : Prop := -2147483648 <= z < 2147483648.
(** An id and its place have the types of the source. *)
Definition sid_ok (sids : gmap Z sid_fields) (id : Z) : Prop :=
  let f := default new_sid (sids !! id) in
  0 <= id < 2 ^ 64 /\ int32 (sf_idx f) /\ int32 (sf_cpu f) /\ int32 (sf_tid f).
Definition known (hash_64 : Z -> Z) (el : perf_evlist) (id : Z) : Prop :=
  exists sid, perf_evlist__id2sid hash_64 el id = Some (Some sid).

Lemma learn_all sids ids : forall p id,
  (id ∈ ids -> foldl (learn sids) p ids !! id = Some (placed sids p id)) /\
  (id ∉ ids -> foldl (learn sids) p ids !! id = p !! id).
Proof.
  induction ids as [|i ids IH] using rev_ind; intros p id; [by split; [intros ?%not_elem_of_nil|]|].
  rewrite foldl_app, elem_of_app, list_elem_of_singleton. cbn [foldl]. set (q := foldl (learn sids) p ids).
  destruct (IH p id) as [IH1 IH2]. fold q in IH1, IH2. unfold learn. destruct (decide (id = i)) as [<-|Hne].
  - split; [intros _|tauto]. rewrite lookup_insert_eq. f_equal. unfold placed. f_equal.
    destruct (decide (id ∈ ids)) as [Hi|Hi]; [by rewrite IH1|by rewrite IH2].
  - rewrite lookup_insert_ne by done. split; [intros [Hi|Hi]; [by apply IH1|done]|]. intros Hi. apply IH2. tauto.
Qed.

Lemma sint32_u64 z : int32 z -> sint 32 (u64 z) = z.
Proof.
  intros Hz. rewrite <- (sint32_small z Hz) at 2. unfold sint. replace (u64 z mod 2 ^ 32) with (z mod 2 ^ 32); [done|].
  symmetry. apply Z.mod_mod_divide. by exists (2 ^ 32).
Qed.

Lemma u64_is_uint z : is_uint 64 (u64 z).
Proof. by apply Z.mod_pos_bound. Qed.

Section Index.
Context (hash_64 : Z -> Z) (sids : gmap Z sid_fields).

Abbreviation entry := (fun id => index_entry id (default new_sid (sids !! id))).

Lemma zlen_index_entry id f : zlen (index_entry id f) = 32.
Proof. unfold index_entry. by rewrite !zlen_app, !zlen_le_bytes. Qed.

Lemma index_entries_ok el ids : forall i pre post p, zlen pre = sizeof_id_index_event + i * sizeof_id_index_entry ->
  Forall (known hash_64 el) ids -> Forall (sid_ok sids) ids ->
  index_entries hash_64 (length ids) el i (pre ++ concat (entry <$> ids) ++ post) p = Ok (0, foldl (learn sids) p ids).
Proof.
  induction ids as [|id ids IH]; intros i pre post p Hp Hk Hs; [done|].
  apply Forall_cons in Hk as [[sid Hk] Hk'], Hs as [(Hid & Hi & Hc & Ht) Hs'].
  set (m := pre ++ _).
  assert (Em : m = pre ++ entry id ++ concat (entry <$> ids) ++ post) by (unfold m; cbn [fmap list_fmap concat]; by rewrite <- app_assoc).
  set (f := default new_sid (sids !! id)) in *. set (tl := concat (entry <$> ids) ++ post) in *.
  assert (Hm : forall k z a b, entry id = a ++ le_bytes 8 z ++ b -> zlen a = k -> is_uint 64 z ->
    rd_le m (sizeof_id_index_event + i * sizeof_id_index_entry + k) 8 = Some z).
  { intros k z a b Ee Ha Hz. rewrite Em, Ee. rewrite <- !app_assoc, (app_assoc pre a).
    apply rd_le_mid; [rewrite zlen_app; lia|exact Hz]. }
  cbn [length index_entries].
  pose proof (Hm 0 id [] _ eq_refl eq_refl Hid) as H0. rewrite Z.add_0_r in H0. rewrite H0.
  rred. rewrite Hk. rred.
  rewrite (Hm 8 (u64 (sf_idx f)) (le_bytes 8 id) (le_bytes 8 (u64 (sf_cpu f)) ++ le_bytes 8 (u64 (sf_tid f))));
    [|done|by rewrite zlen_le_bytes|apply u64_is_uint].
  rewrite (Hm 16 (u64 (sf_cpu f)) (le_bytes 8 id ++ le_bytes 8 (u64 (sf_idx f))) (le_bytes 8 (u64 (sf_tid f))));
    [|unfold index_entry; by rewrite <- app_assoc|by rewrite zlen_app, !zlen_le_bytes|apply u64_is_uint].
  rewrite (Hm 24 (u64 (sf_tid f)) (le_bytes 8 id ++ le_bytes 8 (u64 (sf_idx f)) ++ le_bytes 8 (u64 (sf_cpu f))) []);
    [|unfold index_entry; by rewrite app_nil_r, <- !app_assoc|by rewrite !zlen_app, !zlen_le_bytes|apply u64_is_uint].
  cbn [mem mbind res_bind]. rewrite !sint32_u64 by done. rewrite Em, (app_assoc pre). unfold tl.
  rewrite IH; [done| |done|done]. rewrite zlen_app, zlen_index_entry. unfold sizeof_id_index_event, sizeof_id_index_entry in *. lia.
Qed.

(** A record whose first entries are those of [ids]. *)
Lemma process_index_ok el ids stale p : zlen ids <= 2047 -> Forall (known hash_64 el) ids -> Forall (sid_ok sids) ids ->
  perf_event__process_id_index hash_64 el (index_record (zlen ids) ((entry <$> ids) ++ stale)) p
  = Ok (0, foldl (learn sids) p ids).
Proof.
  intros Hl Hk Hs. pose proof (zlen_nonneg ids). unfold perf_event__process_id_index, index_record.
  set (sz := u16 _). assert (Hsz : sz = 16 + zlen ids * 32).
  { unfold sz, sizeof_id_index_event, sizeof_id_index_entry, wrap. apply Z.mod_small. lia. }
  replace (rd_le _ 6 2) with (Some sz); [|].
  2:{ symmetry. unfold header_bytes. rewrite <- !app_assoc. rewrite (app_assoc (le_bytes 4 _)).
      apply rd_le_mid; [by rewrite zlen_app, !zlen_le_bytes|lia]. }
  cbn [mem mbind res_bind]. rewrite rd_le_mid by (rewrite ?zlen_header; done || (change (256 ^ Z.of_nat 8) with (2 ^ 64); lia)).
  cbn [mem mbind res_bind]. rewrite Hsz. unfold sizeof_id_index_event at 1, sizeof_id_index_entry at 1.
  rewrite u64_small by lia. replace (16 + zlen ids * 32 - 16) with (zlen ids * 32) by lia. rewrite Z.div_mul by done.
  rewrite Z.ltb_irrefl. unfold zlen at 1. rewrite Nat2Z.id. rewrite concat_app.
  rewrite (app_assoc (header_bytes _ _ _)). apply index_entries_ok; [|done|done].
  by rewrite zlen_app, zlen_header, zlen_le_bytes.
Qed.

(** A reader with the event list [el'] that keeps what the records say. *)
Definition receive (el' : perf_evlist) (p : gmap Z sid_fields) (m : bytes) : Z * gmap Z sid_fields :=
  match perf_event__process_id_index hash_64 el' m p with Ok r => r | _ => (-1, p) end.

Context (el el' : perf_evlist) (n : Z) (n_small : n <= 2047).

Lemma receive_ok ids stale p : zlen ids <= 2047 -> Forall (known hash_64 el') ids -> Forall (sid_ok sids) ids ->
  receive el' p (index_record (zlen ids) ((entry <$> ids) ++ stale)) = (0, foldl (learn sids) p ids).
Proof. intros. unfold receive. by rewrite process_index_ok. Qed.

(** [written] are the ids whose entries are in the record. *)
Lemma index_loop_ok ids : forall written stale nr p, zlen written + zlen stale = n -> ids = [] \/ 0 < n ->
  nr = zlen written + zlen ids -> nr < 2 ^ 64 ->
  Forall (known hash_64 el) ids -> Forall (known hash_64 el') (written ++ ids) -> Forall (sid_ok sids) (written ++ ids) ->
  index_loop hash_64 (receive el') el sids n ids (zlen written) nr ((entry <$> written) ++ stale) p
  = Ok (0, foldl (learn sids) p (written ++ ids)).
Proof using n_small.
  induction ids as [|id ids IH]; intros written stale nr p Hn Hpos Hnr Hlt Hk Hk' Hs;
    pose proof (zlen_nonneg written); pose proof (zlen_nonneg stale).
  - rewrite app_nil_r in *. cbn [index_loop]. rewrite Hnr, zlen_nil, Z.add_0_r. by rewrite receive_ok by (done || lia).
  - apply Forall_cons in Hk as [[sid Hsid] Hk]. destruct Hpos as [|Hpos]; [done|]. rewrite zlen_cons in Hnr.
    pose proof (zlen_nonneg ids).
    assert (Hput : forall w x st q, zlen w + 1 + zlen st = n -> zlen w <= zlen written -> w ++ id :: ids = (w ++ [id]) ++ ids ->
      Forall (known hash_64 el') (w ++ id :: ids) -> Forall (sid_ok sids) (w ++ id :: ids) ->
      (sid ← mem (perf_evlist__id2sid hash_64 el id);
       match sid with
       | None => Ok (- ENOENT, q)
       | Some _ =>
           _ ← mem (((entry <$> w) ++ x :: st) !! Z.to_nat (zlen w));
           index_loop hash_64 (receive el') el sids n ids (zlen w + 1) (zlen w + 1 + zlen ids)
             (<[Z.to_nat (zlen w) := entry id]> ((entry <$> w) ++ x :: st)) q
       end) = Ok (0, foldl (learn sids) q (w ++ id :: ids))).
    { intros w x st q Hw Hle Ew HK HS. rewrite Hsid. rred. assert (Hl : Z.to_nat (zlen w) = (length (entry <$> w) + 0)%nat)
        by (unfold zlen; rewrite length_fmap; lia).
      rewrite Hl, lookup_app_r, insert_app_r by lia. rewrite Nat.add_0_r, Nat.sub_diag. cbn [lookup list_lookup mem mbind res_bind].
      change ((entry <$> w) ++ _) with ((entry <$> w) ++ (entry <$> [id]) ++ st).
      rewrite app_assoc, <- fmap_app. rewrite Ew in *.
      replace (zlen w + 1) with (zlen (w ++ [id])) by (by rewrite zlen_app).
      apply IH; [rewrite zlen_app; change (zlen [id]) with 1; lia|by right|done| |done|done|done].
      rewrite zlen_app. change (zlen [id]) with 1. pose proof (zlen_nonneg st). lia. }
    cbn [index_loop]. destruct (Z.leb_spec n (zlen written)) as [Hfull|Hroom].
    + assert (stale = []) as -> by (apply nil_length_inv; unfold zlen in *; lia).
      apply Forall_app in Hk' as [Hw1 Hw2], Hs as [Hs1 Hs2].
      rewrite zlen_nil, Z.add_0_r in Hn. pose proof (receive_ok written [] p ltac:(lia) Hw1 Hs1) as R. rewrite Hn in R.
      rewrite R. cbn [negb Z.eqb]. rewrite u64_small by lia. rewrite app_nil_r.
      destruct written as [|i0 written']; [rewrite zlen_nil in *; lia|]. rewrite zlen_cons in *.
      rewrite foldl_app. rewrite <- (Hput [] (entry i0) (entry <$> written') _) by
        (done || (rewrite zlen_nil in *; unfold zlen in *; rewrite length_fmap; lia)).
      replace (nr - n) with (0 + 1 + zlen ids) by lia. done.
    + destruct stale as [|x st]; [rewrite zlen_nil in *; lia|]. rewrite zlen_cons in Hn.
      rewrite <- (Hput written x st p) by (done || lia || by rewrite <- app_assoc).
      replace nr with (zlen written + 1 + zlen ids) by lia. done.
Qed.

End Index.

(** C9: Through the records of the id index a reader learns the place of every
    counter.  However many ids the events have (they are split into records whose
    size fits 16 bits), if writer and reader know the ids, writing ends with 0 and
    then the reader has for every id the index, CPU and thread that the writer has,
    negative ones included, with the last value as it was; other ids are
    unchanged. *)
Theorem id_index_roundtrip hash_64 alloc_ok el el' sids p :
  (forall sz, alloc_ok sz = true) -> zlen (ids_of el) < 2 ^ 64 ->
  Forall (known hash_64 el) (ids_of el) -> Forall (known hash_64 el') (ids_of el) -> Forall (sid_ok sids) (ids_of el) ->
  exists p', perf_event__synthesize_id_index hash_64 (receive hash_64 el') alloc_ok el sids p = Ok (0, p') /\
    (forall id, id ∈ ids_of el -> p' !! id = Some (placed sids p id)) /\
    forall id, id ∉ ids_of el -> p' !! id = p !! id.
Proof.
  intros Ha Hlt Hk Hk' Hs. exists (foldl (learn sids) p (ids_of el)).
  split; [|by split; intros id; apply (learn_all sids (ids_of el) p id)].
  unfold perf_event__synthesize_id_index. rewrite Ha. cbn [negb]. set (max := (65535 - _) / _).
  assert (Hmax : max = 2047) by reflexivity. pose proof (zlen_nonneg (ids_of el)).
  set (n := if max <? zlen (ids_of el) then max else zlen (ids_of el)).
  assert (Hn : 0 <= n <= 2047 /\ (ids_of el = [] \/ 0 < n)).
  { unfold n. rewrite Hmax. destruct (Z.ltb_spec 2047 (zlen (ids_of el))); [lia|]. split; [lia|].
    destruct (ids_of el); [by left|right]. rewrite zlen_cons. pose proof (zlen_nonneg l). lia. }
  destruct Hn as [Hn He]. change (replicate (Z.to_nat n) _) with
    (((fun id => index_entry id (default new_sid (sids !! id))) <$> []) ++ replicate (Z.to_nat n) (replicate 32 0)).
  apply (index_loop_ok hash_64 sids el el' n ltac:(lia) (ids_of el) [] (replicate (Z.to_nat n) (replicate 32 0)));
    [|done|done|done|done|done|done].
  rewrite zlen_nil. unfold zlen. rewrite length_replicate. lia.
Qed.

(** * Concrete events *)

Module DeliverExamples.
Import EvlistExamples.

(** A group of two counters, and an event that is read alone. *)
Definition group_evsel : perf_evsel := perf_evsel__init (Attr (2 ^ 16 + 2 ^ 4) 4000 12 true 0 0).
Definition single_evsel : perf_evsel := perf_evsel__init (Attr (2 ^ 16 + 2 ^ 4) 4000 4 true 0 0).
Definition counters : perf_evlist :=
  default perf_evlist__init
    (el ← perf_evlist__add perf_evlist__init 1 group_evsel; el ← perf_evlist__add el 2 group_evsel;
     el ← perf_evlist__add el 3 single_evsel;
     id_add_all hash4 el [(1%nat, 3); (2%nat, 7); (3%nat, 11)]).

Definition an_event : perf_event := Event PERF_RECORD_SAMPLE 2 8 (replicate 8 0).
Definition sample_with (v : read_values) : perf_sample :=
  Sample 0 42 43 1000 0 3 UINT64_MAX 4000 0 0 0 0 PERF_MEM_DATA_SRC_NONE 0 2 2 [] None None no_regs no_regs no_stack
    (SRead 0 0 v).
Definition sample_of_group (vs : list (Z * Z)) : read_sample :=
  ReadSample an_event (sample_with (ReadGroup (zlen vs) (vs ≫= fun x => [x.1; x.2]))) 1 vs.
(** The second value of counter 7 is what it was; 99 is unknown; counter 11 wraps. *)
Definition reads : list read_sample :=
  [sample_of_group [(100, 3); (40, 7)]; ReadSample an_event (sample_with (ReadOne 5 11)) 3 [(5, 11)];
   sample_of_group [(130, 3); (40, 7); (1, 99)]; ReadSample an_event (sample_with (ReadOne 2 11)) 3 [(2, 11)]].
Definition no_stats : events_stats := EventsStats 0 0 0 0 0 0 0 0.
Definition before : delivery (W := list (Z * Z * nat)) := Delivery ∅ no_stats [].

Lemma read_periods_exact_witness :
  exists d' l, deliver_all hash4 counters tt reads before = Ok (0, d') /\ dl_tool d' = dl_tool before ++ l /\
    Forall (fun x => owner hash4 counters x.1.1 = Some x.2 /\ x.1.2 <> 0) l /\
    forall id, owner hash4 counters id <> None ->
      u64 (value_of before id + period_sum id l) = u64 (after hash4 counters (value_of before) (reads ≫= rs_values) id) /\
      value_of d' id = after hash4 counters (value_of before) (reads ≫= rs_values) id.
Proof.
  refine (read_periods_exact hash4 counters tt hash4_bound _ reads before _).
  - vm_compute. reflexivity.
  - repeat constructor; eexists; (split; [vm_compute; reflexivity|]; split; [vm_compute; reflexivity|]);
      first [apply holds_one; vm_compute; reflexivity|apply holds_group; [vm_compute; reflexivity|discriminate|reflexivity]].
Defined.

Example read_log :
  match deliver_all hash4 counters tt reads before with Ok (ret, d) => Some (ret, dl_tool d, nr_unknown_id (dl_stats d)) | _ => None end
  = Some (0, [(3, 100, 1%nat); (7, 40, 2%nat); (11, 5, 3%nat); (3, 30, 1%nat); (11, 2 ^ 64 - 3, 3%nat)], 1).
Proof. vm_compute. reflexivity. Qed.

(** A group without values is reported as an error. *)
Example empty_group_fails :
  match perf_evlist__deliver_sample hash4 log_sample counters an_event (sample_with (ReadGroup 0 [])) 1 tt before with
  | Ok (ret, _) => Some ret
  | _ => None
  end = Some (- EINVAL).
Proof. vm_compute. reflexivity. Qed.

(** The counters of all CPUs, of all threads and of one thread on one CPU. *)
Definition places : gmap Z sid_fields :=
  <[3 := SidFields 0 4 (-1) 17]> (<[7 := SidFields 1 (-1) 1234 0]> (<[11 := SidFields 2 3 1235 0]> ∅)).

Lemma counters_ids : ids_of counters = [3; 7; 11].
Proof. vm_compute. reflexivity. Qed.
Lemma counters_known : Forall (known hash4 counters) [3; 7; 11].
Proof. repeat constructor; eexists; vm_compute; reflexivity. Qed.

Lemma id_index_roundtrip_witness :
  exists p', perf_event__synthesize_id_index hash4 (receive hash4 counters) (fun _ => true) counters places ∅ = Ok (0, p') /\
    (forall id, id ∈ ids_of counters -> p' !! id = Some (placed places ∅ id)) /\
    forall id, id ∉ ids_of counters -> p' !! id = (∅ : gmap Z sid_fields) !! id.
Proof.
  apply (id_index_roundtrip hash4 (fun _ => true) counters counters places ∅).
  - reflexivity.
  - rewrite counters_ids. vm_compute. reflexivity.
  - rewrite counters_ids. exact counters_known.
  - rewrite counters_ids. exact counters_known.
  - rewrite counters_ids. repeat constructor; vm_compute; first [discriminate|reflexivity].
Defined.

(** A record that claims 8 bytes is not refused: the room for entries wraps around and
    an entry is taken from the bytes after the record. *)
Example index_size_wraps :
  match perf_event__process_id_index hash4 counters
          (header_bytes PERF_RECORD_ID_INDEX 0 8 ++ le_bytes 8 1 ++ index_entry 7 (SidFields 5 6 8 0)) ∅ with
  | Ok (err, p) => Some (err, p !! 7)
  | _ => None
  end = Some (0, Some (SidFields 5 6 8 0)).
Proof. vm_compute. reflexivity. Qed.

End DeliverExamples.
