(* ===== verification/Config.v ===== *)
(** Model of util/config.c: the parser of configuration files, which reads character
    by character into buffers of fixed size and calls a function for every
    variable, the set of sections and items that collect_config fills, and the
    reading of values as numbers and booleans.

    Characters are bytes, 0 to 255.  A buffer is the list of what was stored so
    far; storing behind its end is [Oob].  Loops take fuel, one more than the bytes
    that are left; running out of it is [Oob] as well, so that the theorem that
    there is no [Oob] says that the parser ends and stays within its buffers. *)

From S2P Require Import Prelude Strings Cpumap.
From stdpp Require Import strings.
#[local] Open Scope Z_scope.

(** The characters of a text. *)
Fixpoint ascii_text (s : string) : bytes :=
  match s with
  | EmptyString => []
  | String c s => Z.of_N (Ascii.N_of_ascii c) :: ascii_text s
  end.

Definition MAXNAME : Z := 256.
(** sizeof(value) of parse_value. *)
Definition MAXVALUE : Z := 1024.
Definition BUFSIZ : Z := 8192.
Definition EOF : Z := -1.
Definition cNL : Z := 10.
Definition cCR : Z := 13.
Definition cTAB : Z := 9.
Definition cSP : Z := 32.
Definition cQUOTE : Z := 34.
Definition cHASH : Z := 35.
Definition cDOT : Z := 46.
Definition cSEMI : Z := 59.
Definition cEQ : Z := 61.
Definition cUNDER : Z := 95.

(** What a C string in a buffer is: up to the first NUL. *)
Fixpoint cstring (buf : bytes) : bytes :=
  match buf with
  | [] => []
  | c :: buf => if c =? 0 then [] else c :: cstring buf
  end.

(** * Reading *)

(** config_file, config_linenr and config_file_eof. *)
Record config_input := Input { in_rest : bytes; config_linenr : Z; config_file_eof : bool }.
Implicit Types f : config_input.

(** fgetc. *)
Definition fgetc (rest : bytes) : Z * bytes :=
  match rest with [] => (EOF, []) | c :: rest => (c, rest) end.

Definition get_next_char f : Z * config_input :=
  let '(c, rest) := fgetc (in_rest f) in
  let '(c, rest) :=
    if c =? cCR then
      let '(c', rest') := fgetc rest in
      if negb (c' =? cNL) then (cCR, rest) (* ungetc *) else (c', rest')
    else (c, rest) in
  let linenr := if c =? cNL then sint 32 (config_linenr f + 1) else config_linenr f in
  if c =? EOF then (cNL, Input rest linenr true) else (c, Input rest linenr (config_file_eof f)).

(** [buf[len++] = c] in a buffer of [max] bytes. *)
Definition store (max : Z) (buf : bytes) (c : Z) : res bytes := if zlen buf <? max then Ok (buf ++ [c]) else Oob.

(** The characters of the escape sequences. *)
Definition escape (c : Z) : option Z :=
  if c =? 116 then Some cTAB
  else if c =? 98 then Some 8
  else if c =? 110 then Some cNL
  else if (c =? cBSLASH) || (c =? cQUOTE) then Some c
  else None.

Fixpoint value_loop (fuel : nat) (quote comment space : bool) (value : bytes) f : res (option bytes * config_input) :=
  match fuel with
  | O => Oob
  | S fuel =>
      let '(c, f) := get_next_char f in
      if MAXVALUE - 1 <=? zlen value then Ok (None, f) else
      if c =? cNL then
        if quote then Ok (None, f) else _ ← store MAXVALUE value 0; Ok (Some (cstring value), f)
      else if comment then value_loop fuel quote comment space value f
      else if isspace c && negb quote then value_loop fuel quote comment true value f
      else if negb quote && ((c =? cSEMI) || (c =? cHASH)) then value_loop fuel quote true space value f
      else
        value ← (if space && (0 <? zlen value) then store MAXVALUE value cSP else Ok value);
        if c =? cBSLASH then
          let '(c, f) := get_next_char f in
          if c =? cNL then value_loop fuel quote comment false value f else
          match escape c with
          | None => Ok (None, f)
          | Some c => value ← store MAXVALUE value c; value_loop fuel quote comment false value f
          end
        else if c =? cQUOTE then value_loop fuel (negb quote) comment false value f
        else value ← store MAXVALUE value c; value_loop fuel quote comment false value f
  end.

Abbreviation left f := (S (length (in_rest f))).

Definition parse_value f : res (option bytes * config_input) := value_loop (left f) false false false [] f.

Definition iskeychar (c : Z) : bool := isalpha c || isdigit c || (c =? cDASH) || (c =? cUNDER).

(** The full name; [None] if it is too long.  Then the character after it. *)
Fixpoint name_loop (fuel : nat) (name : bytes) f : res (option bytes * Z * config_input) :=
  match fuel with
  | O => Oob
  | S fuel =>
      let '(c, f) := get_next_char f in
      if config_file_eof f then Ok (Some name, c, f) else
      if negb (iskeychar c) then Ok (Some name, c, f) else
      name ← store MAXNAME name c;
      if MAXNAME <=? zlen name then Ok (None, c, f) else name_loop fuel name f
  end.

Fixpoint skip_blanks (fuel : nat) (c : Z) f : res (Z * config_input) :=
  match fuel with
  | O => Oob
  | S fuel =>
      if (c =? cSP) || (c =? cTAB) then let '(c, f) := get_next_char f in skip_blanks fuel c f
      else Ok (c, f)
  end.

(** The do-while loop; [None] at the end of the line. *)
Fixpoint ext_space (fuel : nat) (c : Z) f : res (option Z * config_input) :=
  match fuel with
  | O => Oob
  | S fuel =>
      if c =? cNL then Ok (None, f) else
      let '(c, f) := get_next_char f in
      if isspace c then ext_space fuel c f else Ok (Some c, f)
  end.

(** The text between the quotes. *)
Fixpoint ext_loop (fuel : nat) (name : bytes) f : res (option bytes * config_input) :=
  match fuel with
  | O => Oob
  | S fuel =>
      let '(ch, f) := get_next_char f in
      if ch =? cNL then Ok (None, f) else
      if ch =? cQUOTE then Ok (Some name, f) else
      let '(ch, f, ended) :=
        if ch =? cBSLASH then let '(ch, f) := get_next_char f in (ch, f, ch =? cNL) else (ch, f, false) in
      if ended then Ok (None, f) else
      name ← store MAXNAME name ch;
      if MAXNAME / 2 <? zlen name then Ok (None, f) else ext_loop fuel name f
  end.

(** [Some name] is the length of what is in the buffer, [None] is -1. *)
Definition get_extended_base_var (name : bytes) (c : Z) f : res (option bytes * config_input) :=
  '(c, f) ← ext_space (S (left f)) c f;
  match c with
  | None => Ok (None, f)
  | Some c =>
      if negb (c =? cQUOTE) then Ok (None, f) else
      name ← store MAXNAME name cDOT;
      '(name, f) ← ext_loop (left f) name f;
      match name with
      | None => Ok (None, f)
      | Some name => let '(c, f) := get_next_char f in Ok (if c =? cRBRACK then Some name else None, f)
      end
  end.

Fixpoint base_loop (fuel : nat) (name : bytes) f : res (option bytes * config_input) :=
  match fuel with
  | O => Oob
  | S fuel =>
      let '(c, f) := get_next_char f in
      if config_file_eof f then Ok (None, f) else
      if c =? cRBRACK then Ok (Some name, f) else
      if isspace c then get_extended_base_var name c f else
      if negb (iskeychar c) && negb (c =? cDOT) then Ok (None, f) else
      if MAXNAME / 2 <? zlen name then Ok (None, f) else
      name ← store MAXNAME name (tolower c);
      base_loop fuel name f
  end.

Definition get_base_var f : res (option bytes * config_input) := base_loop (left f) [] f.

Definition utf8_bom : bytes := [239; 187; 191].

Section Parse.
(** The function that is called for a variable, with its data. *)
Context {St : Type} (fn : St -> bytes -> option bytes -> Z * St).

Definition get_value (name : bytes) f (s : St) : res (Z * config_input * St) :=
  '(name, c, f) ← name_loop (left f) name f;
  match name with
  | None => Ok (-1, f, s)
  | Some name =>
      _ ← store MAXNAME name 0;
      '(c, f) ← skip_blanks (S (left f)) c f;
      let call value f := let '(ret, s) := fn s (cstring name) value in Ok (ret, f, s) in
      if c =? cNL then call None f else
      if negb (c =? cEQ) then Ok (-1, f, s) else
      '(value, f) ← parse_value f;
      match value with
      | None => Ok (-1, f, s)
      | Some value => call (Some value) f
      end
  end.

(** The loop after the byte order mark, with the character [c]; [loop] is its next turn.
    [base] is the first [baselen] bytes of [var]. *)
Definition file_char (loop : bool -> bytes -> config_input -> St -> res (Z * config_input * St))
    (comment : bool) (base : bytes) (c : Z) f (s : St) : res (Z * config_input * St) :=
  if c =? cNL then
    if config_file_eof f then Ok (0, f, s) else loop false base f s
  else if comment || isspace c then loop comment base f s
  else if (c =? cHASH) || (c =? cSEMI) then loop true base f s
  else if c =? cLBRACK then
    '(name, f) ← get_base_var f;
    match name with
    | None | Some [] => Ok (-1, f, s)
    | Some name =>
        base ← store MAXNAME name cDOT;
        _ ← store MAXNAME base 0;
        loop comment base f s
    end
  else if negb (isalpha c) then Ok (-1, f, s)
  else
    var ← store MAXNAME base (tolower c);
    let line := config_linenr f in
    '(ret, f, s) ← get_value var f s;
    if ret <? 0 then Ok (-1, Input (in_rest f) line (config_file_eof f), s)
    else loop comment base f s.

(** [bom] is what bomptr points to. *)
Fixpoint file_loop (fuel : nat) (bom : option bytes) (comment : bool) (base : bytes) f (s : St) : res (Z * config_input * St) :=
  match fuel with
  | O => Oob
  | S fuel =>
      let '(c, f) := get_next_char f in
      match bom with
      | Some (b :: bs) =>
          if uchar c =? b then file_loop fuel (Some bs) comment base f s
          else if negb (bool_decide (b :: bs = utf8_bom)) then Ok (-1, f, s)
          else file_char (file_loop fuel None) comment base c f s
      | bom => file_char (file_loop fuel bom) comment base c f s
      end
  end.

Definition perf_parse_file f (s : St) : res (Z * config_input * St) := file_loop (left f) (Some utf8_bom) false [] f s.

(** [content] is what fopen finds. *)
Definition perf_config_from_file (content : option bytes) (s : St) : res (Z * St) :=
  match content with
  | None => Ok (-1, s)
  | Some bs => '(ret, _, s) ← perf_parse_file (Input bs 1 false) s; Ok (ret, s)
  end.

End Parse.

(** * Values *)

(** strtol and strtoll with base 0. *)
Definition strtol (p : bytes) : Z * bytes :=
  let '(neg, q) := sign_of (skip_space p) in
  let '(base, q) := base_of q in
  match q with
  | c :: _ => match digit_of base c with
              | Some _ => let '(v, r) := digits base 0 q in
                          (if neg then Z.max (- v) (- 2 ^ 63) else Z.min v (2 ^ 63 - 1), r)
              | None => (0, p)
              end
  | [] => (0, p)
  end.

(** strcasecmp(s, t) == 0. *)
Definition same_nocase (s t : bytes) : bool := bool_decide ((tolower <$> s) = (tolower <$> t)).

(** The factor; [None] is the result 0. *)
Definition parse_unit_factor (e : bytes) : option Z :=
  match e with
  | [] => Some 1
  | _ => if same_nocase e [107] then Some 1024
         else if same_nocase e [109] then Some (1024 * 1024)
         else if same_nocase e [103] then Some (1024 * 1024 * 1024)
         else None
  end.

(** The product is one of unsigned long. *)
Definition perf_parse_long (value : option bytes) : option Z :=
  match value with
  | Some (_ :: _ as value) =>
      let '(val, e) := strtol value in
      factor ← parse_unit_factor e;
      Some (sint 64 (u64 (val * factor)))
  | _ => None
  end.
Definition perf_parse_llong (value : option bytes) : option Z := perf_parse_long value.

(** The result and what is stored, if anything. *)
Definition perf_config_u64 (value : option bytes) : Z * option Z :=
  match perf_parse_llong value with None => (-1, None) | Some ret => (0, Some (u64 ret)) end.
Definition perf_config_int (value : option bytes) : Z * option Z :=
  match perf_parse_long value with None => (-1, None) | Some ret => (0, Some (sint 32 ret)) end.

Definition word_true : bytes := [116; 114; 117; 101].
Definition word_yes : bytes := [121; 101; 115].
Definition word_on : bytes := [111; 110].
Definition word_false : bytes := [102; 97; 108; 115; 101].
Definition word_no : bytes := [110; 111].
Definition word_off : bytes := [111; 102; 102].

(** The result and [*is_bool]. *)
Definition perf_config_bool_or_int (value : option bytes) : Z * bool :=
  match value with
  | None => (1, true)
  | Some [] => (0, true)
  | Some v =>
      if same_nocase v word_true || same_nocase v word_yes || same_nocase v word_on then (1, true)
      else if same_nocase v word_false || same_nocase v word_no || same_nocase v word_off then (0, true)
      else match perf_config_int value with (_, Some ret) => (ret, false) | (_, None) => (-1, false) end
  end.
Definition perf_config_bool (value : option bytes) : bool := negb (fst (perf_config_bool_or_int value) =? 0).

(** * Any file *)

Section Safe.

(** Reading a character takes a byte, unless the file is at its end. *)
Lemma get_next_char_less f c f1 : get_next_char f = (c, f1) ->
  (length (in_rest f1) <= length (in_rest f))%nat /\
  ((length (in_rest f1) < length (in_rest f))%nat \/
   (in_rest f = [] /\ c = cNL /\ in_rest f1 = [] /\ config_file_eof f1 = true)).
Proof.
  unfold get_next_char, fgetc. destruct (in_rest f) as [|x rest]; [intros [= <- <-]; split; [cbn; lia|by right]|].
  destruct (Z.eqb_spec x cCR) as [->|]; [|destruct (x =? EOF); intros [= <- <-]; cbn; lia].
  destruct rest as [|y rest]; [intros [= <- <-]; cbn; lia|].
  destruct (Z.eqb_spec y cNL) as [->|]; intros [= <- <-]; cbn; lia.
Qed.

Lemma store_ok max buf c : zlen buf < max -> store max buf c = Ok (buf ++ [c]).
Proof. intros H. unfold store. by destruct (Z.ltb_spec (zlen buf) max); [|lia]. Qed.

Lemma zlen_snoc (buf : bytes) c : zlen (buf ++ [c]) = zlen buf + 1.
Proof. by rewrite zlen_app. Qed.

(** Whatever happens, there is a result and no byte comes back. *)
Definition ends {A} (P : A -> Prop) (g : A -> config_input) f (r : res A) : Prop :=
  exists a, r = Ok a /\ P a /\ (length (in_rest (g a)) <= length (in_rest f))%nat.

Lemma ends_ok {A} (P : A -> Prop) g f a : P a -> (length (in_rest (g a)) <= length (in_rest f))%nat -> ends P g f (Ok a).
Proof. intros. by exists a. Qed.
Lemma ends_bind {A B} (P : A -> Prop) (Q : B -> Prop) g h f (r : res A) (k : A -> res B) :
  ends P g f r -> (forall a, P a -> (length (in_rest (g a)) <= length (in_rest f))%nat -> ends Q h f (k a)) -> ends Q h f (r ≫= k).
Proof. intros (a & -> & Hp & Hl) Hk. by apply Hk. Qed.
Lemma ends_less {A} (P : A -> Prop) g f f1 r : (length (in_rest f1) <= length (in_rest f))%nat -> ends P g f1 r -> ends P g f r.
Proof. intros H (a & -> & Hp & Hl). exists a. split_and!; [done|done|lia]. Qed.

(** The names of sections stay below half of the buffer. *)
Definition base_short {B} (r : option bytes * B) : Prop :=
  match r.1 with Some name => zlen name <= 130 | None => True end.

(** Takes the next character out of the goal. *)
Ltac next c f1 :=
  lazymatch goal with
  | |- context [get_next_char ?f] =>
      let E := fresh "E" in destruct (get_next_char f) as [c f1] eqn:E; let H := fresh "Hle" in apply get_next_char_less in E as [H E]
  end.
Ltac done_here := apply ends_ok; [cbn; first [done|split; cbn; [auto|done]|unfold base_short; cbn; lia]|cbn in *; lia].
Ltac room := rewrite store_ok by (rewrite ?zlen_snoc; unfold MAXVALUE, MAXNAME in *; lia); rred.

Lemma value_loop_safe fuel : forall quote comment space value f, (length (in_rest f) < fuel)%nat -> zlen value <= MAXVALUE ->
  ends (fun _ => True) snd f (value_loop fuel quote comment space value f).
Proof.
  induction fuel as [|fuel IH]; intros quote comment space value f Hf Hv; [lia|]. cbn [value_loop]. next c f1.
  destruct (Z.leb_spec (MAXVALUE - 1) (zlen value)); [done_here|].
  destruct (Z.eqb_spec c cNL) as [->|Hc]; [destruct quote; [done_here|]; room; done_here|].
  assert (Hl : (length (in_rest f1) < length (in_rest f))%nat) by (destruct E as [|(_ & -> & _)]; [done|by destruct Hc]).
  assert (Hgo : forall f2 q c s v, (length (in_rest f2) <= length (in_rest f1))%nat -> zlen v <= MAXVALUE ->
    ends (fun _ => True) snd f (value_loop fuel q c s v f2)).
  { intros f2 q c' s v Hl2 Hv2. apply (ends_less _ _ f f2); [lia|]. apply IH; [lia|done]. }
  destruct comment; [by apply Hgo|]. destruct (isspace c && negb quote); [by apply Hgo|].
  destruct (negb quote && _); [by apply Hgo|].
  assert (Hv' : exists v', (if space && (0 <? zlen value) then store MAXVALUE value cSP else Ok value) = Ok v' /\ zlen v' <= MAXVALUE - 1).
  { destruct (space && _); [|exists value; split; [done|lia]]. room. exists (value ++ [cSP]). rewrite zlen_snoc. split; [done|lia]. }
  destruct Hv' as (v' & -> & Hv'). rred. destruct (Z.eqb_spec c cBSLASH).
  - next c2 f2. destruct (c2 =? cNL); [apply Hgo; lia|]. destruct (escape c2); [|done_here]. room. apply Hgo; [done|rewrite zlen_snoc; lia].
  - destruct (c =? cQUOTE); [apply Hgo; lia|]. room. apply Hgo; [done|rewrite zlen_snoc; lia].
Qed.

Lemma name_loop_safe fuel : forall name f, (length (in_rest f) < fuel)%nat -> zlen name < MAXNAME ->
  ends (fun r => match r.1.1 with Some name => zlen name < MAXNAME | None => True end) snd f (name_loop fuel name f).
Proof.
  induction fuel as [|fuel IH]; intros name f Hf Hn; [lia|]. cbn [name_loop]. next c f1.
  destruct (config_file_eof f1) eqn:Ee; [done_here|]. destruct E as [Hl|(_ & _ & _ & E)]; [|congruence].
  destruct (negb (iskeychar c)); [done_here|]. room.
  destruct (Z.leb_spec MAXNAME (zlen (name ++ [c]))); [done_here|].
  apply (ends_less _ _ f f1); [lia|]. apply IH; [lia|done].
Qed.

Lemma skip_blanks_safe fuel : forall c f, (S (length (in_rest f)) < fuel)%nat -> ends (fun _ => True) snd f (skip_blanks fuel c f).
Proof.
  induction fuel as [|fuel IH]; intros c f Hf; [lia|]. cbn [skip_blanks]. destruct (_ || _); [|done_here].
  next c1 f1. destruct E as [Hl|(Er & -> & Hr & _)].
  - apply (ends_less _ _ f f1); [lia|]. apply IH. lia.
  - destruct fuel; [lia|]. cbn [skip_blanks]. change ((cNL =? cSP) || (cNL =? cTAB)) with false. cbv iota.
    apply ends_ok; [done|]. cbn. rewrite Hr. cbn. lia.
Qed.

Lemma ext_space_safe fuel : forall c f, (S (length (in_rest f)) < fuel)%nat -> ends (fun _ => True) snd f (ext_space fuel c f).
Proof.
  induction fuel as [|fuel IH]; intros c f Hf; [lia|]. cbn [ext_space]. destruct (c =? cNL); [done_here|].
  next c1 f1. destruct E as [Hl|(Er & -> & Hr & _)].
  - destruct (isspace c1); [|done_here]. apply (ends_less _ _ f f1); [lia|]. apply IH. lia.
  - destruct fuel; [lia|]. cbn [ext_space]. change (isspace cNL) with true. rewrite Z.eqb_refl. cbv iota.
    apply ends_ok; [done|]. cbn. rewrite Hr. cbn. lia.
Qed.

Lemma ext_loop_safe fuel : forall name f, (length (in_rest f) < fuel)%nat -> zlen name <= 130 ->
  ends base_short snd f (ext_loop fuel name f).
Proof.
  induction fuel as [|fuel IH]; intros name f Hf Hn; [lia|]. cbn [ext_loop]. next c f1.
  destruct (Z.eqb_spec c cNL) as [->|Hc]; [done_here|]. destruct E as [Hl|(_ & -> & _)]; [|by destruct Hc].
  destruct (c =? cQUOTE); [done_here|].
  assert (Hgo : forall ch f2, (length (in_rest f2) <= length (in_rest f1))%nat ->
    ends base_short snd f (name ← store MAXNAME name ch; if MAXNAME / 2 <? zlen name then Ok (None, f2) else ext_loop fuel name f2)).
  { intros ch f2 H2. room. destruct (Z.ltb_spec (MAXNAME / 2) (zlen (name ++ [ch]))); [done_here|].
    apply (ends_less _ _ f f2); [lia|]. apply IH; [lia|]. change (MAXNAME / 2) with 128 in *. lia. }
  destruct (c =? cBSLASH); [|by apply Hgo]. next c2 f2.
  destruct (c2 =? cNL); [done_here|by apply Hgo].
Qed.

Lemma get_extended_base_var_safe name c f : zlen name <= 129 -> ends base_short snd f (get_extended_base_var name c f).
Proof.
  intros Hn. unfold get_extended_base_var. eapply ends_bind; [apply ext_space_safe; lia|]. intros [[c1|] f1] _ H1; [|done_here].
  cbn [fst snd] in *. destruct (negb _); [done_here|]. room. eapply ends_bind.
  - apply (ends_less _ _ f f1); [done|]. apply ext_loop_safe; [lia|]. rewrite zlen_snoc. lia.
  - intros [[name'|] f2] Hs H2; [|done_here]. cbn [fst snd] in *. next c2 f3.
    apply ends_ok; [by destruct (c2 =? cRBRACK)|cbn; lia].
Qed.

Lemma base_loop_safe fuel : forall name f, (length (in_rest f) < fuel)%nat -> zlen name <= 129 ->
  ends base_short snd f (base_loop fuel name f).
Proof.
  induction fuel as [|fuel IH]; intros name f Hf Hn; [lia|]. cbn [base_loop]. next c f1.
  destruct (config_file_eof f1) eqn:Ee; [done_here|]. destruct E as [Hl|(_ & _ & _ & E)]; [|congruence].
  destruct (c =? cRBRACK); [apply ends_ok; [cbn; unfold base_short; cbn; lia|cbn; lia]|].
  destruct (isspace c); [apply (ends_less _ _ f f1); [lia|]; by apply get_extended_base_var_safe|].
  destruct (_ && _); [done_here|]. destruct (Z.ltb_spec (MAXNAME / 2) (zlen name)); [done_here|]. room.
  apply (ends_less _ _ f f1); [lia|]. apply IH; [lia|]. rewrite zlen_snoc. change (MAXNAME / 2) with 128 in *. lia.
Qed.

(** An invariant of the function's data holds at the end. *)
Context {St : Type} (fn : St -> bytes -> option bytes -> Z * St) (P : St -> Prop).
Context (fn_keeps : forall s name value, P s -> P (fn s name value).2).

Lemma get_value_safe name f s : zlen name < MAXNAME -> P s -> ends (fun r => P r.2) (fun r => r.1.2) f (get_value fn name f s).
Proof using fn_keeps.
  intros Hn Hp. assert (Hcall : forall v f1 n, (length (in_rest f1) <= length (in_rest f))%nat ->
    ends (fun r => P r.2) (fun r => r.1.2) f (let '(ret, s) := fn s n v in Ok (ret, f1, s))).
  { intros v f1 n H1. pose proof (fn_keeps s n v Hp). destruct (fn s n v). by apply ends_ok. } unfold get_value. eapply ends_bind; [apply name_loop_safe; [lia|done]|]. intros [[[name'|] c] f1] Hs H1; [|done_here].
  cbn [fst snd] in *. room. eapply ends_bind; [apply (ends_less _ _ f f1); [done|]; apply skip_blanks_safe; lia|].
  intros [c1 f2] _ H2. cbn [fst snd] in *. destruct (c1 =? cNL); [by apply Hcall|].
  destruct (negb _); [done_here|].
  eapply ends_bind; [apply (ends_less _ _ f f2); [done|]; apply value_loop_safe; [lia|rewrite zlen_nil; unfold MAXVALUE; lia]|].
  intros [[v|] f3] _ H3; cbn [fst snd] in *; [|done_here]. by apply Hcall.
Qed.

Definition fine (r : Z * config_input * St) : Prop := (r.1.1 = 0 \/ r.1.1 = -1) /\ P r.2.

Lemma file_loop_safe fuel : forall bom comment base f s, (length (in_rest f) < fuel)%nat -> zlen base <= 131 -> P s ->
  (forall bs, bom = Some bs -> Forall (fun b => b <> uchar cNL) bs) ->
  ends fine (fun r => r.1.2) f (file_loop fn fuel bom comment base f s).
Proof using fn_keeps.
  induction fuel as [|fuel IH]; intros bom comment base f s Hf Hb Hp Hbom; [lia|]. cbn [file_loop]. next c f1.
  assert (Hnone : forall bs, None = Some bs -> Forall (fun b => b <> uchar cNL) bs) by done.
  assert (Hgo : forall bom', (forall bs, bom' = Some bs -> Forall (fun b => b <> uchar cNL) bs) ->
    ends fine (fun r => r.1.2) f (file_char fn (file_loop fn fuel bom') comment base c f1 s)).
  { intros bom' Hbom'. unfold file_char. destruct (Z.eqb_spec c cNL) as [->|Hc].
    { destruct (config_file_eof f1) eqn:Ee; [done_here|]. destruct E as [Hl|(_ & _ & _ & E)]; [|congruence].
      apply (ends_less _ _ f f1); [lia|]. apply IH; [lia|done|done|done]. }
    destruct E as [Hl|(_ & -> & _)]; [|by destruct Hc]. apply (ends_less _ _ f f1); [done|].
    assert (Hrec : forall comment base f2 s, (length (in_rest f2) <= length (in_rest f1))%nat -> zlen base <= 131 -> P s ->
      ends fine (fun r => r.1.2) f1 (file_loop fn fuel bom' comment base f2 s)).
    { intros cm bs f2 s2 H2 Hbs Hp2. apply (ends_less _ _ f1 f2); [lia|]. apply IH; [lia|done|done|done]. }
    destruct (_ || _); [by apply Hrec|]. destruct (_ || _); [by apply Hrec|]. destruct (c =? cLBRACK).
    - eapply ends_bind; [apply base_loop_safe; [lia|rewrite zlen_nil; lia]|].
      intros [[name|] f2] Hs H2; [|done_here]. unfold base_short in Hs. cbn [fst snd] in *. destruct name as [|n0 name]; [done_here|].
      room. room. apply Hrec; [lia|rewrite zlen_snoc; lia|done].
    - destruct (negb _); [done_here|]. room. eapply ends_bind.
      + apply get_value_safe; [rewrite zlen_snoc; unfold MAXNAME; lia|done].
      + intros [[ret f2] s2] Hp2 H2. cbn [fst snd] in *. destruct (ret <? 0); [done_here|]. by apply Hrec. }
  destruct bom as [[|b bs]|]; [by apply Hgo| |by apply Hgo]. specialize (Hbom _ eq_refl). apply Forall_cons in Hbom as [Hb1 Hbs].
  destruct (Z.eqb_spec (uchar c) b) as [<-|]; [|destruct (negb _); [done_here|by apply Hgo]].
  destruct E as [Hl|(_ & -> & _)]; [|done]. apply (ends_less _ _ f f1); [lia|]. apply IH; [lia|done|done|]. by intros ? [= <-].
Qed.

Lemma from_file_safe content s : P s ->
  exists ret s', perf_config_from_file fn content s = Ok (ret, s') /\ (ret = 0 \/ ret = -1) /\ P s'.
Proof using fn_keeps.
  intros Hp.   destruct content as [bs|]; [|exists (-1), s; split; [done|auto]]. unfold perf_config_from_file, perf_parse_file.
  destruct (file_loop_safe (S (length bs)) (Some utf8_bom) false [] (Input bs 1 false) s) as ([[ret f] s'] & E & Hr & _).
  - cbn. lia.
  - rewrite zlen_nil. lia.
  - done.
  - intros ? [= <-]. apply (bool_decide_unpack _). vm_compute. exact I.
  - cbn [in_rest] in *. rewrite E. rred. by exists ret, s'.
Qed.

End Safe.

(** * The set of sections and items *)

Record perf_config_item := Item { ci_name : bytes; ci_value : option bytes; ci_from_system_config : bool }.
Record perf_config_section := CSection { cs_name : bytes; cs_items : list perf_config_item; cs_from_system_config : bool }.
Abbreviation perf_config_set := (list perf_config_section).

Definition sizeof_perf_config_item : Z := 40.
Definition sizeof_perf_config_section : Z := 48.

(** strsep with one delimiter: the token and what the pointer is afterwards. *)
Fixpoint strsep (s : bytes) (d : Z) : bytes * option bytes :=
  match s with
  | [] => ([], None)
  | c :: s => if c =? d then ([], Some s) else let '(tok, s) := strsep s d in (c :: tok, s)
  end.

Section Collect.
(** Memory, by size; the path of the system's file. *)
Context (alloc : Z -> bool) (perf_etc_perfconfig : bytes).

(** An object of a list is given with its place. *)
Definition find_section (sections : perf_config_set) (section_name : bytes) : option (nat * perf_config_section) :=
  list_find (fun s => cs_name s = section_name) sections.
Definition find_config_item (name : bytes) (section : perf_config_section) : option (nat * perf_config_item) :=
  list_find (fun i => ci_name i = name) (cs_items section).

Definition strdup_ok (s : bytes) : bool := alloc (zlen s + 1).

Definition add_section (sections : perf_config_set) (section_name : bytes) : option (perf_config_set * (nat * perf_config_section)) :=
  if alloc sizeof_perf_config_section && strdup_ok section_name then
    let section := CSection section_name [] false in
    Some (sections ++ [section], (length sections, section))
  else None.
Definition add_config_item (section : perf_config_section) (name : bytes) : option (perf_config_section * (nat * perf_config_item)) :=
  if alloc sizeof_perf_config_item && strdup_ok name then
    let item := Item name None false in
    Some (CSection (cs_name section) (cs_items section ++ [item]) (cs_from_system_config section), (length (cs_items section), item))
  else None.

Definition set_value (item : perf_config_item) (value : bytes) : Z * perf_config_item :=
  if strdup_ok value then (0, Item (ci_name item) (Some value) (ci_from_system_config item)) else (-1, item).

(** A changed object is put back at its place. *)
Definition collect_config (config_file_name : bytes) (set : perf_config_set) (var : bytes) (value : option bytes)
    : Z * perf_config_set :=
  if negb (strdup_ok var) then (-1, set) else
  let '(section_name, name) := strsep var cDOT in
  match name, value with
  | Some name, Some value =>
      match (match find_section set section_name with Some s => Some (set, s) | None => add_section set section_name end) with
      | None => (-1, set)
      | Some (set, (i, section)) =>
          match (match find_config_item name section with Some it => Some (section, it) | None => add_config_item section name end) with
          | None => (-1, set)
          | Some (section, (j, item)) =>
              let from_system := bool_decide (config_file_name = perf_etc_perfconfig) in
              let item := Item (ci_name item) (ci_value item) from_system in
              let '(ret, item) := set_value item value in
              (ret, <[i := CSection (cs_name section) (<[j := item]> (cs_items section)) from_system]> set)
          end
      end
  | _, _ => (-1, set)
  end.

Definition perf_config_set__collect (set : perf_config_set) (file_name var value : bytes) : Z * perf_config_set :=
  collect_config file_name set var (Some value).

End Collect.

Section Each.
Context {D : Type} (fn : D -> bytes -> bytes -> Z * D).

Fixpoint config_items (section : bytes) (items : list perf_config_item) (ret : Z) (data : D) : Z * D :=
  match items with
  | [] => (ret, data)
  | item :: items =>
      match ci_value item with
      | None => config_items section items ret data
      | Some value =>
          let key := take (Z.to_nat (BUFSIZ - 1)) (section ++ [cDOT] ++ ci_name item) in
          let '(ret, data) := fn data key value in
          if ret <? 0 then (ret, data) else config_items section items ret data
      end
  end.

(** [break] leaves the inner of the two loops of perf_config_set__for_each_entry
    only. *)
Fixpoint config_sections (set : perf_config_set) (ret : Z) (data : D) : Z * D :=
  match set with
  | [] => (ret, data)
  | section :: set => let '(ret, data) := config_items (cs_name section) (cs_items section) ret data in config_sections set ret data
  end.

Definition perf_config (set : perf_config_set) (data : D) : Z * D := config_sections set 0 data.

End Each.

(** * Lists with keys *)

Section Keyed.
Context {A : Type} (k : A -> bytes).

Definition kget (x : bytes) (l : list A) : option A := snd <$> list_find (fun a => k a = x) l.
(** [a] in the place of the element with its key, or at the end. *)
Definition kput (x : bytes) (a : A) (l : list A) : list A :=
  match list_find (fun b => k b = x) l with Some (i, _) => <[i := a]> l | None => l ++ [a] end.

Lemma kget_cons x b l : kget x (b :: l) = if decide (k b = x) then Some b else kget x l.
Proof.
  unfold kget. cbn [list_find]. destruct (decide (k b = x)); [done|].
  by destruct (list_find _ l) as [[i y]|].
Qed.
Lemma kput_cons x a b l : kput x a (b :: l) = if decide (k b = x) then a :: l else b :: kput x a l.
Proof.
  unfold kput. cbn [list_find]. destruct (decide (k b = x)); [done|].
  by destruct (list_find _ l) as [[i y]|].
Qed.

Lemma kget_kput x a l y : k a = x -> kget y (kput x a l) = if decide (y = x) then Some a else kget y l.
Proof.
  intros Hk. induction l as [|b l IH].
  - cbn [kput]. change (kput x a []) with [a]. rewrite kget_cons, Hk. by destruct (decide (x = y)), (decide (y = x)); subst.
  - rewrite kput_cons, kget_cons. destruct (decide (k b = x)) as [Hb|Hb]; rewrite kget_cons.
    + rewrite Hk, Hb. by destruct (decide (x = y)), (decide (y = x)); subst.
    + rewrite IH. destruct (decide (k b = y)), (decide (y = x)); subst; done.
Qed.

Lemma kput_keys x a l : k a = x -> k <$> kput x a l = if decide (x ∈ k <$> l) then k <$> l else (k <$> l) ++ [x].
Proof.
  intros Hk. induction l as [|b l IH].
  - change (kput x a []) with [a]. cbn. by rewrite Hk.
  - rewrite kput_cons, !fmap_cons. destruct (decide (k b = x)) as [Hb|Hb].
    + rewrite fmap_cons, Hk, Hb. rewrite decide_True by constructor. done.
    + rewrite fmap_cons, IH. destruct (decide (x ∈ k <$> l)) as [Hi|Hi].
      * by rewrite decide_True by (by constructor).
      * rewrite decide_False; [done|]. by rewrite elem_of_cons; intros [->|].
Qed.

Lemma kput_nodup x a l : k a = x -> NoDup (k <$> l) -> NoDup (k <$> kput x a l).
Proof.
  intros Hk Hn. rewrite kput_keys by done. destruct (decide _) as [|Hi]; [done|].
  apply NoDup_app. split_and!; [done| |apply NoDup_singleton]. intros y Hy ->%list_elem_of_singleton. done.
Qed.

Lemma kput_new x a l : x ∉ k <$> l -> kput x a l = l ++ [a].
Proof.
  intros Hx. unfold kput. destruct (list_find _ l) as [[i y]|] eqn:E; [|done].
  apply list_find_Some in E as (Hl & Hk & _). destruct Hx. rewrite <- Hk. apply list_elem_of_fmap_2. by eapply list_elem_of_lookup_2.
Qed.

Lemma kput_Forall (P : A -> Prop) x a l : P a -> Forall P l -> Forall P (kput x a l).
Proof.
  intros Ha Hl. induction Hl as [|b l Hb Hl IH]; [by constructor|]. rewrite kput_cons. destruct (decide _); by constructor.
Qed.

End Keyed.

(** * What is collected *)

Section Collected.
Context (alloc : Z -> bool) (perf_etc_perfconfig : bytes) (memory : forall n, alloc n = true).

(** The value that a set has for a variable. *)
Definition config_get (set : perf_config_set) (section name : bytes) : option bytes :=
  s ← kget cs_name section set; i ← kget ci_name name (cs_items s); ci_value i.

(** No section and no item is there twice. *)
Definition set_wf (set : perf_config_set) : Prop :=
  NoDup (cs_name <$> set) /\ Forall (fun s => NoDup (ci_name <$> cs_items s)) set.

(** The section [s] after the item [n] was set to [v]. *)
Definition with_item (s : perf_config_section) (n v : bytes) (from_system : bool) : perf_config_section :=
  CSection (cs_name s) (kput ci_name n (Item n (Some v) from_system) (cs_items s)) from_system.
Definition section_of (set : perf_config_set) (s : bytes) : perf_config_section :=
  default (CSection s [] false) (kget cs_name s set).

Lemma kput_find {A} (k : A -> bytes) x a l i b : list_find (fun b => k b = x) l = Some (i, b) -> kput k x a l = <[i := a]> l.
Proof. intros E. unfold kput. by rewrite E. Qed.
Lemma kput_nofind {A} (k : A -> bytes) x a l : list_find (fun b => k b = x) l = None -> kput k x a l = l ++ [a].
Proof. intros E. unfold kput. by rewrite E. Qed.

Lemma insert_snoc {A} (a b : A) l : <[length l := a]> (l ++ [b]) = l ++ [a].
Proof. rewrite <- (Nat.add_0_r (length l)). by rewrite insert_app_r. Qed.

Lemma collect_ok file set var s n v : strsep var cDOT = (s, Some n) ->
  collect_config alloc perf_etc_perfconfig file set var (Some v) =
  (0, kput cs_name s (with_item (section_of set s) n v (bool_decide (file = perf_etc_perfconfig))) set).
Proof using memory.
  intros Hsep. unfold collect_config, strdup_ok, add_section, add_config_item, set_value, strdup_ok. rewrite !memory, Hsep.
  cbn [negb andb]. unfold find_section, section_of, kget. set (fr := bool_decide _).
  assert (Hitem : forall sec, exists j item sec',
    (match find_config_item n sec with Some it => Some (sec, it) | None =>
       Some (CSection (cs_name sec) (cs_items sec ++ [Item n None false]) (cs_from_system_config sec), (length (cs_items sec), Item n None false)) end)
      = Some (sec', (j, item)) /\ ci_name item = n /\ cs_name sec' = cs_name sec /\
      <[j := Item n (Some v) fr]> (cs_items sec') = kput ci_name n (Item n (Some v) fr) (cs_items sec)).
  { intros sec. unfold find_config_item. destruct (list_find _ (cs_items sec)) as [[j it]|] eqn:E.
    - eexists j, it, sec. split; [done|]. pose proof E as (_ & Hn & _)%list_find_Some. split; [done|]. split; [done|].
      symmetry. by apply (kput_find ci_name n _ _ _ it).
    - eexists _, _, _. split; [done|]. split; [done|]. split; [done|]. cbn [cs_items]. rewrite insert_snoc.
      symmetry. by apply kput_nofind. }
  rewrite ?memory. cbv iota. destruct (list_find (fun s0 => cs_name s0 = s) set) as [[i sec]|] eqn:E.
  - destruct (Hitem sec) as (j & item & sec' & -> & Hn & Hs & Hk). cbn [fmap option_fmap option_map snd default].
    cbn [ci_name ci_value ci_from_system_config]. rewrite Hn, Hs, Hk. f_equal. symmetry. unfold with_item.
    pose proof E as (_ & Hname & _)%list_find_Some. by apply (kput_find cs_name s _ _ _ sec).
  - destruct (Hitem (CSection s [] false)) as (j & item & sec' & -> & Hn & Hs & Hk). cbn [fmap option_fmap option_map default].
    cbn [ci_name ci_value ci_from_system_config]. rewrite Hn, Hs, Hk, insert_snoc. f_equal. symmetry. by apply kput_nofind.
Qed.

Lemma section_of_name set s : cs_name (section_of set s) = s.
Proof.
  unfold section_of, kget. destruct (list_find _ set) as [[i sec]|] eqn:E; [|done].
  by apply list_find_Some in E as (_ & H & _).
Qed.

Lemma section_of_wf set s : set_wf set -> NoDup (ci_name <$> cs_items (section_of set s)).
Proof.
  intros [_ Hw]. unfold section_of, kget. destruct (list_find _ set) as [[i sec]|] eqn:E; [|constructor].
  apply list_find_Some in E as (Hl & _). rewrite Forall_forall in Hw. apply Hw. by eapply list_elem_of_lookup_2.
Qed.

Lemma collect_wf set s n v fr : set_wf set -> set_wf (kput cs_name s (with_item (section_of set s) n v fr) set).
Proof.
  intros Hw. pose proof (section_of_wf set s Hw). destruct Hw as [Hn Hi]. split.
  - apply kput_nodup; [apply section_of_name|done].
  - apply kput_Forall; [|done]. cbn. by apply kput_nodup.
Qed.

Lemma collect_get set s n v fr s' n' :
  config_get (kput cs_name s (with_item (section_of set s) n v fr) set) s' n' =
  if decide (s' = s /\ n' = n) then Some v else config_get set s' n'.
Proof.
  unfold config_get. rewrite kget_kput by apply section_of_name. destruct (decide (s' = s)) as [->|Hs].
  - cbn [mbind option_bind with_item cs_items]. rewrite kget_kput by done. destruct (decide (n' = n)) as [->|Hn].
    + by rewrite decide_True.
    + rewrite decide_False by tauto. unfold section_of. by destruct (kget cs_name s set).
  - by rewrite decide_False by tauto.
Qed.

End Collected.

(** Also when memory is short. *)
Lemma put_section_wf set i sec sec' : set_wf set -> set !! i = Some sec -> cs_name sec' = cs_name sec ->
  NoDup (ci_name <$> cs_items sec') -> set_wf (<[i := sec']> set).
Proof.
  intros [Hn Hi] Hl Hs Hd. split.
  - rewrite list_fmap_insert, Hs. rewrite list_insert_id; [done|]. by rewrite list_lookup_fmap, Hl.
  - by apply Forall_insert.
Qed.

Lemma collect_keeps_wf alloc etc file set var value : set_wf set -> set_wf (collect_config alloc etc file set var value).2.
Proof.
  intros Hw. unfold collect_config. destruct (negb _); [done|]. destruct (strsep var cDOT) as [s [n|]]; [|done].
  destruct value as [v|]; [|done]. set (found := match find_section set s with Some s => Some (set, s) | None => add_section alloc set s end).
  assert (Hs : match found with None => True | Some (set1, (i, sec)) => set_wf set1 /\ set1 !! i = Some sec end).
  { unfold found, find_section, add_section. destruct (list_find _ set) as [[i sec]|] eqn:E.
    - apply list_find_Some in E as (Hl & _). done.
    - destruct (_ && _); [|done]. split; [|by rewrite lookup_app_r, Nat.sub_diag by lia].
      rewrite <- (kput_nofind cs_name s (CSection s [] false) set E). destruct Hw as [Hn Hi]. split.
      + by apply kput_nodup.
      + apply kput_Forall; [constructor|done]. }
  destruct found as [[set1 [i sec]]|]; [|done]. destruct Hs as [Hw1 Hl].
  assert (Hsec : NoDup (ci_name <$> cs_items sec)).
  { destruct Hw1 as [_ Hi]. rewrite Forall_forall in Hi. apply Hi. by eapply list_elem_of_lookup_2. }
  set (item := match find_config_item n sec with Some it => Some (sec, it) | None => add_config_item alloc sec n end).
  assert (Hi : match item with None => True | Some (sec1, (j, it)) =>
    cs_name sec1 = cs_name sec /\ NoDup (ci_name <$> cs_items sec1) /\ cs_items sec1 !! j = Some it end).
  { unfold item, find_config_item, add_config_item. destruct (list_find _ (cs_items sec)) as [[j it]|] eqn:E.
    - apply list_find_Some in E as (Hj & _). done.
    - destruct (_ && _); [|done]. cbn. split; [done|]. split; [|by rewrite lookup_app_r, Nat.sub_diag by lia].
      rewrite <- (kput_nofind ci_name n (Item n None false) (cs_items sec) E). by apply kput_nodup. }
  destruct item as [[sec1 [j it]]|]; [|done]. destruct Hi as (Hn1 & Hd1 & Hj). unfold set_value.
  assert (Hput : forall it', ci_name it' = ci_name it ->
    set_wf (<[i := CSection (cs_name sec1) (<[j := it']> (cs_items sec1)) (bool_decide (file = etc))]> set1)).
  { intros it' Hit. apply (put_section_wf set1 i sec); [done|done|done|]. cbn. rewrite list_fmap_insert, Hit.
    rewrite list_insert_id; [done|]. by rewrite list_lookup_fmap, Hj. }
  destruct (strdup_ok _ _); by apply Hput.
Qed.

(** C11: A configuration file is parsed to the end or refused, whatever its bytes are
    and even if memory runs out: the parser ends, never writes outside its buffers
    of 256 and 1024 bytes and returns 0 or -1, and the sections and items that it
    has collected by then are there once each. *)
Theorem config_parser_safe alloc etc file content set : set_wf set ->
  exists ret set', perf_config_from_file (collect_config alloc etc file) content set = Ok (ret, set') /\
    (ret = 0 \/ ret = -1) /\ set_wf set'.
Proof.
  intros Hw. apply (from_file_safe _ set_wf); [|done]. intros s name value. apply collect_keeps_wf.
Qed.
