(* ===== verification/ConfigCmd.v ===== *)
(** Model of builtin-config.c, the command that shows and changes variables, on the
    parser and the set of util/config.c, with the choice of files in
    perf_config_set__init.

    Files are a map from path to owner and content.  The theorems are about the way
    from one run of the command to the next: what set_config writes is what the
    parser reads. *)

From S2P Require Import Prelude Strings Config.
From stdpp Require Import strings.
#[local] Open Scope Z_scope.

(** * Files *)

Record config_inode := Inode { st_uid : Z; f_content : bytes }.
Abbreviation files := (gmap bytes config_inode).

Record config_env := ConfigEnv {
  env_alloc : Z -> bool;
  etc_perfconfig : bytes;
  env_nosystem : option bytes;  (* PERF_CONFIG_NOSYSTEM *)
  env_noglobal : option bytes;  (* PERF_CONFIG_NOGLOBAL *)
  env_home : option bytes;
  env_euid : Z;
  env_readable : bytes -> bool;
  env_writable : bytes -> bool
}.

Definition PATH_MAX : Z := 4096.
Definition bad_path : bytes := ascii_text "/bad-path/".

Fixpoint skip_slashes (path : bytes) : bytes :=
  match path with c :: path' => if c =? 47 then skip_slashes path' else path | [] => [] end.
Definition cleanup_path (path : bytes) : bytes :=
  match path with
  | 46 :: 47 :: path => skip_slashes path
  | _ => path
  end.
Definition mkpath (path : bytes) : bytes := if PATH_MAX <=? zlen path then bad_path else cleanup_path path.

Definition perf_env_bool (v : option bytes) (def : bool) : bool :=
  match v with Some v => perf_config_bool (Some v) | None => def end.
Definition perf_config_system (env : config_env) : bool := negb (perf_env_bool (env_nosystem env) false).
Definition perf_config_global (env : config_env) : bool := negb (perf_env_bool (env_noglobal env) false).

Section Command.
Context (env : config_env).

(** fopen(path, "r"). *)
Definition open_config (fs : files) (path : bytes) : option bytes :=
  if env_readable env path then f_content <$> fs !! path else None.

Definition read_config (fs : files) (path : bytes) (set : perf_config_set) : res (Z * perf_config_set) :=
  perf_config_from_file (collect_config (env_alloc env) (etc_perfconfig env) path) (open_config fs path) set.

Definition perf_config_set__init (exclusive : option bytes) (fs : files) (set : perf_config_set) : res (Z * perf_config_set) :=
  match exclusive with
  | Some path => read_config fs path set
  | None =>
      let etc := etc_perfconfig env in
      '(err, set) ← (if perf_config_system env && bool_decide (is_Some (open_config fs etc)) then read_config fs etc set
                     else Ok (0, set));
      if err <? 0 then Ok (-1, set) else
      match env_home env with
      | None | Some [] => Ok (0, set)
      | Some home =>
          if negb (perf_config_global env) then Ok (0, set) else
          let user_config := mkpath (home ++ ascii_text "/.perfconfig") in
          if negb (env_alloc env (zlen user_config + 1)) then Ok (-1, set) else
          match fs !! user_config with
          | None => Ok (0, set)
          | Some st =>
              if negb (st_uid st =? 0) && negb (st_uid st =? env_euid env) then Ok (0, set)
              else if zlen (f_content st) =? 0 then Ok (0, set)
              else read_config fs user_config set
          end
      end
  end.

(** The result of reading is not looked at. *)
Definition perf_config_set__new (exclusive : option bytes) (fs : files) : res (option perf_config_set) :=
  if negb (env_alloc env 16) then Ok None else
  '(_, set) ← perf_config_set__init exclusive fs [];
  Ok (Some set).

(** * The command *)

Definition first_line : bytes := ascii_text "# this file is auto-generated.".

Definition item_text (use_system_config : bool) (item : perf_config_item) : bytes :=
  if negb use_system_config && ci_from_system_config item then [] else
  match ci_value item with
  | Some value => [cTAB] ++ ci_name item ++ ascii_text " = " ++ value ++ [cNL]
  | None => []
  end.
Definition section_text (use_system_config : bool) (section : perf_config_section) : bytes :=
  if negb use_system_config && cs_from_system_config section then [] else
  [cLBRACK] ++ cs_name section ++ [cRBRACK; cNL] ++ concat (item_text use_system_config <$> cs_items section).
Definition config_text (use_system_config : bool) (set : perf_config_set) : bytes :=
  first_line ++ [cNL] ++ concat (section_text use_system_config <$> set).

(** fopen(path, "w") keeps the owner of a file that is there. *)
Definition set_config (use_system_config : bool) (set : perf_config_set) (file_name : bytes) (fs : files) : Z * files :=
  if negb (env_writable env file_name) then (-1, fs) else
  let uid := match fs !! file_name with Some st => st_uid st | None => env_euid env end in
  (0, <[file_name := Inode uid (config_text use_system_config set)]> fs).

Definition strstarts (s prefix : bytes) : bool := bool_decide (take (length prefix) s = prefix).

(** The string that a pointer behind [n] characters of [s] points to; [Oob] behind the
    NUL. *)
Definition advance (s : bytes) (n : nat) : res bytes := if (n <=? length s)%nat then Ok (drop n s) else Oob.

(** What is printed is a list of lines; the loops end with the first match. *)
Fixpoint show_items (var : bytes) (section : bytes) (items : list perf_config_item) : res (option bytes) :=
  match items with
  | [] => Ok None
  | item :: items =>
      name ← advance var (length section + 1);
      match bool_decide (name = ci_name item), ci_value item with
      | true, Some value => Ok (Some (var ++ [cEQ] ++ value))
      | _, _ => show_items var section items
      end
  end.
Fixpoint show_spec_config (set : perf_config_set) (var : bytes) : res (list bytes) :=
  match set with
  | [] => Ok []
  | section :: set =>
      if negb (strstarts var (cs_name section)) then show_spec_config set var else
      line ← show_items var (cs_name section) (cs_items section);
      match line with Some line => Ok [line] | None => show_spec_config set var end
  end.

Definition show_config (set : perf_config_set) : list bytes :=
  set ≫= fun section => cs_items section ≫= fun item =>
    match ci_value item with
    | Some value => [cs_name section ++ [cDOT] ++ ci_name item ++ [cEQ] ++ value]
    | None => []
    end.

(** strchr: what is before the character and from it on. *)
Fixpoint strchr (s : bytes) (c : Z) : option (bytes * bytes) :=
  match s with
  | [] => None
  | x :: s' => if x =? c then Some ([], s) else '(a, b) ← strchr s' c; Some (x :: a, b)
  end.

(** The variable and the value, or an error. *)
Definition parse_config_arg (arg : bytes) : option (bytes * option bytes) :=
  match strchr arg cDOT with
  | None | Some ([], _) => None
  | Some (_, last_dot) =>
      match last_dot with
      | [] | [_] => None
      | _ =>
          match strchr arg cEQ with
          | None => Some (arg, None)
          | Some (var, value) =>
              match value with
              | [] | [_] => None
              | _ :: value => if bool_decide (var = []) then None else Some (var, Some value)
              end
          end
      end
  end.

(** The loop over the arguments: result, what was printed, the set and [changed]. *)
Fixpoint config_args (config_filename : bytes) (args : list bytes) (set : perf_config_set) (out : list bytes) (changed : bool)
    : res (Z * list bytes * perf_config_set * bool) :=
  match args with
  | [] => Ok (0, out, set, changed)
  | arg :: args =>
      if negb (env_alloc env (zlen arg + 1)) then Ok (-1, out, set, changed) else
      match parse_config_arg arg with
      | None => Ok (-1, out, set, changed)
      | Some (var, None) =>
          lines ← show_spec_config set var;
          config_args config_filename args set (out ++ lines) changed
      | Some (var, Some value) =>
          let '(ret, set) := perf_config_set__collect (env_alloc env) (etc_perfconfig env) set config_filename var value in
          if ret <? 0 then Ok (-1, out, set, changed) else config_args config_filename args set out true
      end
  end.

(** After parse_options: [list_action] for --list.  The result, what was printed and the
    files. *)
Definition cmd_config (list_action use_system_config use_user_config : bool) (args : list bytes) (exclusive : option bytes) (fs : files)
    : res (Z * list bytes * files) :=
  let user_config := mkpath (default (ascii_text "(null)") (env_home env) ++ ascii_text "/.perfconfig") in
  if use_system_config && use_user_config then Ok (-1, [], fs) else
  let exclusive := if use_system_config then Some (etc_perfconfig env) else if use_user_config then Some user_config else exclusive in
  let config_filename := default user_config exclusive in
  set ← perf_config_set__new exclusive fs;
  match set with
  | None => Ok (-1, [], fs)
  | Some set =>
      if list_action then
        match args with [] => Ok (0, show_config set, fs) | _ => Ok (0, [], fs) end
      else
        match args with
        | [] => Ok (0, show_config set, fs)
        | _ =>
            '(ret, out, set, changed) ← config_args config_filename args set [] false;
            if ret <? 0 then Ok (-1, out, fs) else
            if negb changed then Ok (0, out, fs) else
            let '(ret, fs) := set_config use_system_config set config_filename fs in
            Ok (if ret <? 0 then -1 else 0, out, fs)
        end
  end.

End Command.

(** * What can be written *)

Definition key_char (c : Z) : bool := iskeychar c && (tolower c =? c) && (0 <=? c).
(** Names that the parser reads back as they are: it takes sections in lower case and
    names that begin with a letter in lower case. *)
Definition section_ok (s : bytes) : bool := forallb key_char s && (0 <? zlen s) && (zlen s <=? 129).
Definition name_ok (n : bytes) : bool :=
  match n with [] => false | c :: n => isalpha c && key_char c && forallb (fun c => iskeychar c && (0 <=? c)) n end.

Definition value_char (c : Z) : bool :=
  negb (isspace c) && (0 <? c) && negb (bool_decide (c ∈ [cSEMI; cHASH; cBSLASH; cQUOTE])).
(** Single spaces, neither at the beginning nor at the end; [sp]: there was a space. *)
Fixpoint clean (sp : bool) (v : bytes) : bool :=
  match v with
  | [] => negb sp
  | c :: v => if c =? cSP then negb sp && clean true v else value_char c && clean false v
  end.
Definition value_ok (v : bytes) : bool := match v with [] => true | _ => clean true v end && (zlen v <? MAXVALUE - 1).

Definition entry_ok (s n v : bytes) : bool := section_ok s && name_ok n && (zlen s + 1 + zlen n <? MAXNAME) && value_ok v.

(** ** Characters *)

Lemma next_plain c rest ln eof : c <> cCR -> c <> EOF -> c <> cNL ->
  get_next_char (Input (c :: rest) ln eof) = (c, Input rest ln eof).
Proof.
  intros H1 H2 H3. unfold get_next_char, fgetc. cbn [in_rest].
  rewrite (proj2 (Z.eqb_neq c cCR)), (proj2 (Z.eqb_neq c cNL)), (proj2 (Z.eqb_neq c EOF)) by done. done.
Qed.
Lemma next_newline rest ln eof : exists ln', get_next_char (Input (cNL :: rest) ln eof) = (cNL, Input rest ln' eof).
Proof. by eexists. Qed.

Lemma not_space c : isspace c = false -> c <> cCR /\ c <> cNL /\ c <> cTAB /\ c <> cSP.
Proof. intros Hs. repeat split; intros ->; discriminate. Qed.

Lemma keychar_small c : iskeychar c = true -> 0 <= c -> isspace c = false /\ c <> cEQ /\ c <> cRBRACK /\ c <> cNL /\ c <> cCR /\ c <> cDOT /\ 0 < c.
Proof.
  intros Hk Hc. assert (H0 : 0 < c) by (destruct (Z.eq_dec c 0) as [->|]; [discriminate|lia]).
  assert (Hs : isspace c = false).
  { unfold iskeychar, isalpha, isdigit, isspace in *. apply bool_decide_eq_false. rewrite !elem_of_cons.
    unfold cDASH, cUNDER in *. intros [E|[E|[E|[E|E]]]]; try (rewrite E in Hk); [..|by apply not_elem_of_nil in E];
    destruct (Z.eqb_spec c 45), (Z.eqb_spec c 95); subst; discriminate. }
  split; [done|]. repeat split; try (intros ->; discriminate). done.
Qed.

Ltac chars H := let H1 := fresh in let H2 := fresh in apply andb_prop in H as [H1 H2].

(** ** Values *)

Lemma cstring_id v : Forall (fun c => c <> 0) v -> cstring v = v.
Proof. induction 1 as [|c v Hc _ IH]; [done|]. cbn. rewrite (proj2 (Z.eqb_neq c 0)) by done. by rewrite IH. Qed.

Lemma clean_nonzero v : forall sp, clean sp v = true -> Forall (fun c => c <> 0) v.
Proof.
  induction v as [|c v IH]; intros sp Hc; [constructor|]. cbn [clean] in Hc. destruct (Z.eqb_spec c cSP) as [->|].
  - apply andb_prop in Hc as [_ Hc]. constructor; [done|by eapply IH].
  - apply andb_prop in Hc as [Hv Hc]. constructor; [|by eapply IH]. unfold value_char in Hv. intros ->. discriminate.
Qed.

Definition pending (space : bool) (acc : bytes) : bytes := if space && (0 <? zlen acc) then [cSP] else [].

Lemma value_loop_clean v : forall fuel sp space acc rest ln eof, (length v < fuel)%nat -> clean sp v = true ->
  (sp = false -> space = false /\ acc <> []) -> (sp = true -> acc = [] \/ space = true) ->
  zlen acc + zlen (pending space acc) + zlen v < MAXVALUE - 1 ->
  exists ln', value_loop fuel false false space acc (Input (v ++ cNL :: rest) ln eof) =
    Ok (Some (cstring (acc ++ pending space acc ++ v)), Input rest ln' eof).
Proof.
  induction v as [|c v IH]; intros fuel sp space acc rest ln eof Hf Hc Hsp Hsp2 Hl; (destruct fuel as [|fuel]; [cbn in Hf; lia|]);
    cbn [value_loop app]; pose proof (zlen_nonneg acc); pose proof (zlen_nonneg (pending space acc)).
  - destruct (next_newline rest ln eof) as [ln' ->]. exists ln'. rewrite zlen_nil in Hl. unfold MAXVALUE in *.
    destruct (Z.leb_spec (1024 - 1) (zlen acc)); [lia|]. rewrite Z.eqb_refl. rewrite store_ok by lia. rred.
    cbn [clean] in Hc. destruct sp; [discriminate|]. destruct (Hsp eq_refl) as [-> _]. unfold pending. cbn [andb app]. by rewrite app_nil_r.
  - rewrite zlen_cons in Hl. pose proof (zlen_nonneg v). cbn [clean] in Hc. cbn in Hf.
    assert (Hlen : (MAXVALUE - 1 <=? zlen acc) = false) by (apply Z.leb_gt; lia).
    destruct (Z.eqb_spec c cSP) as [->|Hne].
    + apply andb_prop in Hc as [Hs Hc]. destruct sp; [discriminate|]. destruct (Hsp eq_refl) as [-> Hne].
      rewrite next_plain by done. rewrite Hlen. change (cSP =? cNL) with false. change (isspace cSP && negb false) with true. cbv iota.
      assert (Ha : 0 < zlen acc) by (destruct acc; [done|rewrite zlen_cons; pose proof (zlen_nonneg acc); lia]).
      assert (Hp : pending true acc = [cSP]) by (unfold pending; cbn; by destruct (Z.ltb_spec 0 (zlen acc)); [|lia]).
      destruct (IH fuel true true acc rest ln eof) as [ln' ->]; [lia|done|done|by right| |].
      * rewrite Hp. unfold pending in Hl. cbn [andb] in Hl. change (zlen [cSP]) with 1. rewrite zlen_nil in Hl. lia.
      * exists ln'. rewrite Hp. unfold pending. cbn [andb app]. done.
    + apply andb_prop in Hc as [Hv Hc]. unfold value_char in Hv. apply andb_prop in Hv as [Hv Hspec]. apply andb_prop in Hv as [Hns Hpos].
      apply negb_true_iff in Hns. apply Z.ltb_lt in Hpos. apply negb_true_iff, bool_decide_eq_false in Hspec.
      destruct (not_space c Hns) as (H13 & H10 & _).
      assert (Hsc : c <> cSEMI /\ c <> cHASH /\ c <> cBSLASH /\ c <> cQUOTE) by (repeat split; intros ->; apply Hspec; rewrite !elem_of_cons; auto).
      destruct Hsc as (S1 & S2 & S3 & S4).
      rewrite next_plain by (done || (unfold EOF; lia)). rewrite Hlen. rewrite (proj2 (Z.eqb_neq c cNL)) by done. rewrite Hns. cbn [andb negb].
      rewrite (proj2 (Z.eqb_neq c cSEMI)), (proj2 (Z.eqb_neq c cHASH)) by done. cbn [orb].
      assert (Hst : (if space && (0 <? zlen acc) then store MAXVALUE acc cSP else Ok acc) = Ok (acc ++ pending space acc)).
      { unfold pending. destruct (space && _); [|by rewrite app_nil_r]. apply store_ok. lia. }
      rewrite Hst. rred. rewrite (proj2 (Z.eqb_neq c cBSLASH)), (proj2 (Z.eqb_neq c cQUOTE)) by done.
      rewrite store_ok by (rewrite zlen_app; lia). rred.
      destruct (IH fuel false false ((acc ++ pending space acc) ++ [c]) rest ln eof) as [ln' ->];
        [lia|done|intros _; split; [done|by destruct (acc ++ pending space acc)]|done| |].
      * unfold pending at 2. cbn [andb]. rewrite !zlen_app, zlen_nil. change (zlen [c]) with 1. lia.
      * exists ln'. unfold pending at 2. cbn [andb app]. by rewrite <- !app_assoc.
Qed.

(** A space and a value. *)
Lemma parse_value_ok v rest ln eof : value_ok v = true ->
  exists ln', parse_value (Input (cSP :: v ++ cNL :: rest) ln eof) = Ok (Some v, Input rest ln' eof).
Proof.
  intros Hv. unfold value_ok in Hv. apply andb_prop in Hv as [Hc Hl]. apply Z.ltb_lt in Hl.
  unfold parse_value. cbn [in_rest length]. remember (S (length (v ++ cNL :: rest))) as fuel eqn:Ef. cbn [value_loop].
  rewrite next_plain by done.
  change (MAXVALUE - 1 <=? zlen []) with false. change (cSP =? cNL) with false. change (isspace cSP && negb false) with true. cbv iota.
  destruct v as [|c v].
  - subst fuel. cbn [app length value_loop]. destruct (next_newline rest ln eof) as [ln' ->]. by exists ln'.
  - destruct (value_loop_clean (c :: v) fuel true true [] rest ln eof) as [ln' E]; try done.
    + subst fuel. rewrite length_app. lia.
    + by left.
    + rewrite E. exists ln'. do 3 f_equal. cbn [app pending]. apply cstring_id. by apply (clean_nonzero _ true).
Qed.

(** ** Names *)

Lemma name_loop_ok n : forall fuel acc rest ln, (length n < fuel)%nat -> forallb (fun c => iskeychar c && (0 <=? c)) n = true ->
  zlen acc + zlen n < MAXNAME ->
  name_loop fuel acc (Input (n ++ cSP :: rest) ln false) = Ok (Some (acc ++ n), cSP, Input rest ln false).
Proof.
  induction n as [|c n IH]; intros fuel acc rest ln Hf Hk Hl; (destruct fuel as [|fuel]; [cbn in Hf; lia|]); cbn [name_loop app].
  - rewrite next_plain by done. cbn. by rewrite app_nil_r.
  - cbn [forallb] in Hk. apply andb_prop in Hk as [Hc Hk]. apply andb_prop in Hc as [Hc H0]. apply Z.leb_le in H0.
    destruct (keychar_small c Hc H0) as (Hs & _ & _ & Hnl & Hcr & _ & Hp). rewrite zlen_cons in Hl. pose proof (zlen_nonneg n).
    rewrite next_plain by (done || (unfold EOF; lia)). cbn [config_file_eof]. rewrite Hc. cbn [negb].
    rewrite store_ok by lia. rred. rewrite zlen_snoc. destruct (Z.leb_spec MAXNAME (zlen acc + 1)); [lia|].
    cbn in Hf. rewrite IH; [by rewrite <- app_assoc|lia|done|rewrite zlen_snoc; lia].
Qed.

Lemma base_loop_ok s : forall fuel acc rest ln, (length s < fuel)%nat -> forallb key_char s = true -> zlen acc + zlen s <= 129 ->
  base_loop fuel acc (Input (s ++ cRBRACK :: rest) ln false) = Ok (Some (acc ++ s), Input rest ln false).
Proof.
  induction s as [|c s IH]; intros fuel acc rest ln Hf Hk Hl; (destruct fuel as [|fuel]; [cbn in Hf; lia|]); cbn [base_loop app].
  - rewrite next_plain by done. cbn. by rewrite app_nil_r.
  - cbn [forallb] in Hk. apply andb_prop in Hk as [Hc Hk]. unfold key_char in Hc. apply andb_prop in Hc as [Hc H0].
    apply andb_prop in Hc as [Hc Ht]. apply Z.leb_le in H0. apply Z.eqb_eq in Ht.
    destruct (keychar_small c Hc H0) as (Hs & _ & Hbr & Hnl & Hcr & _ & Hp). rewrite zlen_cons in Hl. pose proof (zlen_nonneg s).
    rewrite next_plain by (done || (unfold EOF; lia)). cbn [config_file_eof]. rewrite (proj2 (Z.eqb_neq c cRBRACK)) by done.
    rewrite Hs, Hc. cbn [negb andb]. change (MAXNAME / 2) with 128. destruct (Z.ltb_spec 128 (zlen acc)); [lia|].
    rewrite store_ok by (unfold MAXNAME; lia). rred. rewrite Ht. cbn in Hf.
    rewrite IH; [by rewrite <- app_assoc|lia|done|rewrite zlen_snoc; lia].
Qed.

(** * Turns of the loop over a file *)

Section Turns.
Context {St : Type} (fn : St -> bytes -> option bytes -> Z * St).

(** The state of the loop, and that one state leads_to to another, with enough fuel. *)
Record turn := Turn { t_comment : bool; t_base : bytes; t_rest : bytes; t_line : Z; t_state : St }.
Definition run (fuel : nat) (t : turn) : res (Z * config_input * St) :=
  file_loop fn fuel None (t_comment t) (t_base t) (Input (t_rest t) (t_line t) false) (t_state t).
Definition leads_to (t u : turn) : Prop := forall fuel, (length (t_rest t) < fuel)%nat ->
  exists fuel', (length (t_rest u) < fuel')%nat /\ run fuel t = run fuel' u.

#[local] Instance leads_refl : Reflexive leads_to.
Proof. intros t fuel Hf. by exists fuel. Qed.
#[local] Instance leads_trans : Transitive leads_to.
Proof.
  intros t u v H1 H2 fuel Hf. destruct (H1 fuel Hf) as (f1 & Hf1 & ->). by apply H2.
Qed.

(** A turn that takes [taken] and goes on. *)
Lemma leads_turn cm b taken rest ln s cm' b' ln' s' : (0 < length taken)%nat ->
  (forall loop, exists c f, get_next_char (Input (taken ++ rest) ln false) = (c, f) /\
     file_char fn loop cm b c f s = loop cm' b' (Input rest ln' false) s') ->
  leads_to (Turn cm b (taken ++ rest) ln s) (Turn cm' b' rest ln' s').
Proof.
  intros Ht Hc fuel Hf. cbn [t_rest] in *. rewrite length_app in Hf. destruct fuel as [|fuel]; [lia|]. exists fuel. split; [cbn; lia|].
  unfold run. cbn [t_comment t_base t_rest t_line t_state file_loop].
  destruct (Hc (file_loop fn fuel None)) as (c & f & -> & ->). done.
Qed.

Lemma leads_newline cm b rest ln s : exists ln', leads_to (Turn cm b (cNL :: rest) ln s) (Turn false b rest ln' s).
Proof.
  destruct (next_newline rest ln false) as [ln' E]. exists ln'. apply (leads_turn cm b [cNL]); [cbn; lia|].
  intros loop. eexists _, _. split; [exact E|]. done.
Qed.

Lemma leads_tab b rest ln s : leads_to (Turn false b (cTAB :: rest) ln s) (Turn false b rest ln s).
Proof. apply (leads_turn false b [cTAB]); [cbn; lia|]. intros loop. eexists _, _. by split. Qed.

(** The rest of a comment. *)
Lemma leads_comment b text rest ln s : Forall (fun c => c <> cCR /\ c <> cNL /\ c <> EOF) text ->
  exists ln', leads_to (Turn true b (text ++ cNL :: rest) ln s) (Turn false b rest ln' s).
Proof.
  induction 1 as [|c text (H1 & H2 & H3) _ [ln' IH]]; [apply leads_newline|]. exists ln'. etrans; [|exact IH].
  apply (leads_turn true b [c]); [cbn; lia|]. intros loop. eexists _, _. split; [by apply next_plain|].
  unfold file_char. by rewrite (proj2 (Z.eqb_neq c cNL)).
Qed.

(** A section. *)
Lemma leads_section b name rest ln s : section_ok name = true ->
  exists ln', leads_to (Turn false b ([cLBRACK] ++ name ++ [cRBRACK; cNL] ++ rest) ln s) (Turn false (name ++ [cDOT]) rest ln' s).
Proof.
  intros Hn. unfold section_ok in Hn. apply andb_prop in Hn as [Hn Hmax]. apply andb_prop in Hn as [Hk Hmin].
  apply Z.leb_le in Hmax. apply Z.ltb_lt in Hmin.
  destruct (leads_newline false (name ++ [cDOT]) rest ln s) as [ln' Hnl]. exists ln'. etrans; [|exact Hnl].
  replace ([cLBRACK] ++ name ++ [cRBRACK; cNL] ++ rest) with (([cLBRACK] ++ name ++ [cRBRACK]) ++ cNL :: rest)
    by (by rewrite <- !app_assoc).
  apply leads_turn; [cbn; lia|]. intros loop. rewrite <- !app_assoc. cbn [app].
  eexists _, _. split; [by apply next_plain|]. unfold file_char. change (cLBRACK =? cNL) with false.
  change (false || isspace cLBRACK) with false. change ((cLBRACK =? cHASH) || (cLBRACK =? cSEMI)) with false. rewrite Z.eqb_refl. cbv iota.
  unfold get_base_var. cbn [in_rest]. rewrite base_loop_ok; [|rewrite length_app; cbn; lia|done|rewrite zlen_nil; lia]. rred. cbn [app].
  destruct name as [|c0 name]; [by vm_compute in Hmin|].
  rewrite store_ok by (unfold MAXNAME; lia). rred. rewrite store_ok by (rewrite zlen_snoc; unfold MAXNAME; lia). done.
Qed.

(** A variable. *)
Lemma leads_item name n v rest ln s ret s' : entry_ok name n v = true -> fn s (name ++ [cDOT] ++ n) (Some v) = (ret, s') -> 0 <= ret ->
  exists ln', leads_to (Turn false (name ++ [cDOT]) ([cTAB] ++ n ++ ascii_text " = " ++ v ++ [cNL] ++ rest) ln s)
                    (Turn false (name ++ [cDOT]) rest ln' s').
Proof.
  intros He Hfn Hret. unfold entry_ok in He. apply andb_prop in He as [He Hv]. apply andb_prop in He as [He Hl]. apply andb_prop in He as [Hs Hn].
  apply Z.ltb_lt in Hl. unfold section_ok in Hs. apply andb_prop in Hs as [Hs _]. apply andb_prop in Hs as [Hs _].
  destruct n as [|c n]; [discriminate|]. cbn [name_ok] in Hn. apply andb_prop in Hn as [Hn Hkeys]. apply andb_prop in Hn as [Halpha Hkc].
  unfold key_char in Hkc. apply andb_prop in Hkc as [Hkc H0]. apply andb_prop in Hkc as [Hkc Htl]. apply Z.leb_le in H0. apply Z.eqb_eq in Htl.
  destruct (keychar_small c Hkc H0) as (Hsp & _ & _ & Hnl & Hcr & _ & Hp). rewrite zlen_cons in Hl. pose proof (zlen_nonneg n).
  destruct (parse_value_ok v rest ln false Hv) as [ln' Hpv]. exists ln'.
  etrans; [apply leads_tab|]. change (ascii_text " = ") with [cSP; cEQ; cSP].
  replace ((c :: n) ++ [cSP; cEQ; cSP] ++ v ++ [cNL] ++ rest) with (((c :: n) ++ [cSP; cEQ; cSP] ++ v ++ [cNL]) ++ rest)
    by (by rewrite <- !app_assoc).
  apply leads_turn; [cbn; lia|]. intros loop. rewrite <- !app_assoc. cbn [app].
  eexists _, _. split; [apply next_plain; (done || unfold EOF; lia)|]. unfold file_char.
  rewrite (proj2 (Z.eqb_neq c cNL)) by done. rewrite Hsp. cbn [orb].
  assert (Hspecial : c <> cHASH /\ c <> cSEMI /\ c <> cLBRACK) by (repeat split; intros ->; discriminate). destruct Hspecial as (G1 & G2 & G3).
  rewrite (proj2 (Z.eqb_neq c cHASH)), (proj2 (Z.eqb_neq c cSEMI)), (proj2 (Z.eqb_neq c cLBRACK)) by done. cbn [orb].
  rewrite Halpha. cbn [negb]. rewrite store_ok by (rewrite zlen_snoc; lia). rred. unfold get_value. cbn [in_rest].
  rewrite name_loop_ok; [|rewrite length_app; cbn; lia|done|rewrite !zlen_snoc; lia]. rred.
  set (full := ((name ++ [cDOT]) ++ [tolower c]) ++ n).
  assert (Ef : full = name ++ cDOT :: c :: n) by (unfold full; rewrite Htl, <- !app_assoc; done).
  rewrite store_ok by (rewrite Ef, zlen_app, !zlen_cons; lia). rred.
  cbn [in_rest length skip_blanks]. change ((cSP =? cSP) || (cSP =? cTAB)) with true. cbv iota. rewrite next_plain by done.
  change ((cEQ =? cSP) || (cEQ =? cTAB)) with false. cbv iota. rred. change (cEQ =? cNL) with false. rewrite Z.eqb_refl. cbv iota. cbn [negb].
  rewrite Hpv. rred. rewrite Ef, cstring_id.
  - cbn [app] in Hfn. rewrite Hfn. rred. destruct (Z.ltb_spec ret 0); [lia|done].
  - apply Forall_app. split; [|constructor; [done|]; constructor; [lia|]].
    + apply Forall_forall. intros x Hx. rewrite forallb_forall in Hs. apply list_elem_of_In in Hx. apply Hs in Hx. unfold key_char in Hx.
      apply andb_prop in Hx as [Hx Hx0]. apply andb_prop in Hx as [Hx _]. apply Z.leb_le in Hx0. destruct (keychar_small x Hx Hx0) as (_ & _ & _ & _ & _ & _ & ?). lia.
    + apply Forall_forall. intros x Hx. rewrite forallb_forall in Hkeys. apply list_elem_of_In in Hx. apply Hkeys in Hx.
      apply andb_prop in Hx as [Hx Hx0]. apply Z.leb_le in Hx0. destruct (keychar_small x Hx Hx0) as (_ & _ & _ & _ & _ & _ & ?). lia.
Qed.

(** ** A whole file *)

(** The variables that set_config writes. *)
Definition item_entries (us : bool) (name : bytes) (items : list perf_config_item) : list (bytes * bytes * bytes) :=
  items ≫= fun item => if negb us && ci_from_system_config item then [] else
    match ci_value item with Some v => [(name, ci_name item, v)] | None => [] end.
Definition set_entries (us : bool) (set : perf_config_set) : list (bytes * bytes * bytes) :=
  set ≫= fun sec => if negb us && cs_from_system_config sec then [] else item_entries us (cs_name sec) (cs_items sec).

(** The calls for some variables, without an error. *)
Inductive calls : St -> list (bytes * bytes * bytes) -> St -> Prop :=
| calls_nil s : calls s [] s
| calls_cons s name n v l ret s1 s2 : fn s (name ++ [cDOT] ++ n) (Some v) = (ret, s1) -> 0 <= ret -> calls s1 l s2 ->
    calls s ((name, n, v) :: l) s2.

Lemma calls_app s l1 l2 s' : calls s (l1 ++ l2) s' -> exists s1, calls s l1 s1 /\ calls s1 l2 s'.
Proof.
  revert s. induction l1 as [|[[name n] v] l1 IH]; intros s Hc; [by exists s; split; [constructor|]|].
  inversion Hc as [|? ? ? ? ? ret s1 ? Hf Hr Hc']; subst. destruct (IH _ Hc') as (s2 & H1 & H2). exists s2. split; [by econstructor|done].
Qed.

Abbreviation entries_ok := (Forall (fun e => entry_ok e.1.1 e.1.2 e.2 = true)).

Lemma leads_items us name items : forall rest ln s s', entries_ok (item_entries us name items) -> calls s (item_entries us name items) s' ->
  exists ln', leads_to (Turn false (name ++ [cDOT]) (concat (item_text us <$> items) ++ rest) ln s) (Turn false (name ++ [cDOT]) rest ln' s').
Proof.
  induction items as [|it items IH]; intros rest ln s s' Hok Hc.
  - inversion Hc; subst. by exists ln.
  - unfold item_entries in Hok, Hc. cbn [mbind list_bind] in Hok, Hc. fold (item_entries us name items) in Hok, Hc.
    apply Forall_app in Hok as [Hok1 Hok]. destruct (calls_app _ _ _ _ Hc) as (s1 & Hc1 & Hc2).
    destruct (IH rest ln s1 s' Hok Hc2) as [_ _]. cbn [fmap list_fmap concat]. unfold item_text at 1.
    destruct (negb us && ci_from_system_config it); [inversion Hc1; subst; by apply IH|].
    destruct (ci_value it) as [v|]; [|inversion Hc1; subst; by apply IH].
    apply Forall_cons in Hok1 as [He _]. inversion Hc1 as [|? ? ? ? ? ret s2 ? Hf Hr Hn]; subst. inversion Hn; subst.
    destruct (leads_item name (ci_name it) v (concat (item_text us <$> items) ++ rest) ln s ret s1 He Hf Hr) as [ln1 L1].
    destruct (IH rest ln1 s1 s' Hok Hc2) as [ln2 L2]. exists ln2. rewrite <- !app_assoc. by etrans.
Qed.

Lemma leads_sections us set : forall b rest ln s s', Forall (fun sec => section_ok (cs_name sec) = true) set ->
  entries_ok (set_entries us set) -> calls s (set_entries us set) s' ->
  exists b' ln', leads_to (Turn false b (concat (section_text us <$> set) ++ rest) ln s) (Turn false b' rest ln' s').
Proof.
  induction set as [|sec set IH]; intros b rest ln s s' Hs Hok Hc.
  - inversion Hc; subst. by exists b, ln.
  - unfold set_entries in Hok, Hc. cbn [mbind list_bind] in Hok, Hc. fold (set_entries us set) in Hok, Hc.
    apply Forall_app in Hok as [Hok1 Hok]. destruct (calls_app _ _ _ _ Hc) as (s1 & Hc1 & Hc2). apply Forall_cons in Hs as [Hs1 Hs].
    cbn [fmap list_fmap concat]. unfold section_text at 1.
    destruct (negb us && cs_from_system_config sec); [inversion Hc1; subst; by apply IH|].
    rewrite <- !app_assoc.
    destruct (leads_section b (cs_name sec) (concat (item_text us <$> cs_items sec) ++ concat (section_text us <$> set) ++ rest) ln s Hs1) as [ln1 L1].
    destruct (leads_items us (cs_name sec) (cs_items sec) (concat (section_text us <$> set) ++ rest) ln1 s s1 Hok1 Hc1) as [ln2 L2].
    destruct (IH (cs_name sec ++ [cDOT]) rest ln2 s1 s' Hs Hok Hc2) as (b' & ln3 & L3). exists b', ln3. etrans; [exact L1|]. by etrans.
Qed.

Lemma file_char_hash loop b f s : file_char fn loop false b cHASH f s = loop true b f s.
Proof. reflexivity. Qed.
Lemma run_end fuel cm b ln s : run (S fuel) (Turn cm b [] ln s) = Ok (0, Input [] ln true, s).
Proof. reflexivity. Qed.
Lemma first_turn n tail ln s : file_loop fn (S n) (Some utf8_bom) false [] (Input (cHASH :: tail) ln false) s = run n (Turn true [] tail ln s).
Proof.
  cbn [file_loop]. rewrite next_plain by done. unfold utf8_bom. change (uchar cHASH =? 239) with false. cbv iota.
  rewrite bool_decide_eq_true_2 by done. cbn [negb]. apply file_char_hash.
Qed.

(** The parser calls the function for what was written. *)
Lemma config_text_parsed us set s s' : Forall (fun sec => section_ok (cs_name sec) = true) set ->
  entries_ok (set_entries us set) -> calls s (set_entries us set) s' ->
  perf_config_from_file fn (Some (config_text us set)) s = Ok (0, s').
Proof.
  intros Hs Hok Hc. unfold perf_config_from_file, perf_parse_file, config_text. cbn [in_rest].
  set (text := concat (section_text us <$> set)). set (words := ascii_text " this file is auto-generated.").
  assert (Et : first_line ++ [cNL] ++ text = cHASH :: words ++ cNL :: text) by done. rewrite Et. clear Et.
  assert (Hw : Forall (fun c => c <> cCR /\ c <> cNL /\ c <> EOF) words) by (apply (bool_decide_unpack _); vm_compute; exact I).
  destruct (leads_comment [] words text 1 s Hw) as [ln1 L1].
  destruct (leads_sections us set [] [] ln1 s s' Hs Hok Hc) as (b' & ln2 & L2). rewrite app_nil_r in L2. fold text in L2.
  destruct (leads_trans _ _ _ L1 L2 (S (length (words ++ cNL :: text)))) as (fuel' & Hf & E); [cbn [t_rest]; lia|].
  cbn [t_rest length] in Hf. cbn [length]. rewrite first_turn, E. destruct fuel' as [|fuel']; [lia|]. by rewrite run_end.
Qed.

End Turns.

(** * Sets that are written and read *)

Abbreviation assignment := (bytes * bytes * bytes)%type.
Abbreviation view := (bytes -> bytes -> option bytes).

(** A view after assignments. *)
Fixpoint updated (g : view) (l : list assignment) : view :=
  match l with
  | [] => g
  | (s, n, v) :: l => updated (fun s' n' => if decide (s' = s /\ n' = n) then Some v else g s' n') l
  end.

Lemma updated_app g l1 l2 : updated g (l1 ++ l2) = updated (updated g l1) l2.
Proof. revert g. induction l1 as [|[[s n] v] l1 IH]; intros g; [done|]. cbn. apply IH. Qed.

Lemma updated_ext l : forall g h, (forall s n, g s n = h s n) -> forall s n, updated g l s n = updated h l s n.
Proof.
  induction l as [|[[s n] v] l IH]; intros g h E; [done|]. cbn. apply IH. intros s' n'. by destruct (decide _).
Qed.

Lemma kget_none {A} (k : A -> bytes) x l : x ∉ k <$> l -> kget k x l = None.
Proof.
  induction l as [|b l IH]; [done|]. rewrite fmap_cons, not_elem_of_cons, kget_cons. intros [Hx Hl].
  by rewrite decide_False by (by intros <-); apply IH.
Qed.

Definition kept (us from_system : bool) : bool := us || negb from_system.

(** set_config writes all of the set, in a form that can be read. *)
Definition writable (us : bool) (set : perf_config_set) : Prop :=
  Forall (fun sec => section_ok (cs_name sec) = true /\ kept us (cs_from_system_config sec) = true /\
    Forall (fun it => kept us (ci_from_system_config it) = true /\
      exists v, ci_value it = Some v /\ entry_ok (cs_name sec) (ci_name it) v = true) (cs_items sec)) set.

Lemma kept_written us fr : kept us fr = true -> negb us && fr = false.
Proof. by destruct us, fr. Qed.

Lemma item_entries_view us name items : NoDup (ci_name <$> items) ->
  Forall (fun it => kept us (ci_from_system_config it) = true) items -> forall g s n,
  updated g (item_entries us name items) s n =
  if decide (s = name) then match kget ci_name n items ≫= ci_value with Some v => Some v | None => g s n end else g s n.
Proof.
  intros Hn Hk. induction items as [|it items IH]; intros g s n; [by destruct (decide _)|].
  rewrite fmap_cons in Hn. apply NoDup_cons in Hn as [Hni Hn]. apply Forall_cons in Hk as [Hk1 Hk].
  unfold item_entries. cbn [mbind list_bind]. fold (item_entries us name items). rewrite updated_app, (IH Hn Hk), kept_written by done.
  rewrite kget_cons. destruct (decide (s = name)) as [->|Hs].
  - destruct (decide (ci_name it = n)) as [<-|Hne].
    + rewrite (kget_none ci_name _ _ Hni). cbn [mbind option_bind]. destruct (ci_value it) as [v|]; [|done]. cbn. by rewrite decide_True.
    + destruct (kget ci_name n items ≫= ci_value); [done|]. destruct (ci_value it); [|done]. cbn. by rewrite decide_False by (by intros [_ ->]).
  - destruct (ci_value it); [|done]. cbn. by rewrite decide_False by (by intros [-> _]).
Qed.

Lemma set_entries_view us set : set_wf set -> writable us set -> forall g s n,
  updated g (set_entries us set) s n = match config_get set s n with Some v => Some v | None => g s n end.
Proof.
  intros [Hn Hi] Hw. induction set as [|sec set IH]; intros g s n; [done|].
  rewrite fmap_cons in Hn. apply NoDup_cons in Hn as [Hni Hn]. apply Forall_cons in Hi as [Hi1 Hi].
  apply Forall_cons in Hw as [(_ & Hk & Hit) Hw]. unfold set_entries. cbn [mbind list_bind]. fold (set_entries us set).
  rewrite updated_app, (IH Hn Hi Hw), kept_written by done.
  rewrite item_entries_view by (done || (eapply Forall_impl; [exact Hit|]; by intros it [? _])).
  unfold config_get. rewrite kget_cons. destruct (decide (cs_name sec = s)) as [<-|Hs].
  - rewrite (kget_none cs_name _ _ Hni). cbn [mbind option_bind]. rewrite decide_True by done. done.
  - rewrite decide_False by (by intros ->). done.
Qed.

Lemma writable_entries us set : writable us set -> Forall (fun sec => section_ok (cs_name sec) = true) set /\
  Forall (fun e => entry_ok e.1.1 e.1.2 e.2 = true) (set_entries us set).
Proof.
  intros Hw. split; [eapply Forall_impl; [exact Hw|]; by intros sec [? _]|]. unfold set_entries. apply Forall_bind.
  eapply Forall_impl; [exact Hw|]. intros sec (_ & Hk & Hit). unfold compose. rewrite kept_written by done. unfold item_entries. apply Forall_bind.
  eapply Forall_impl; [exact Hit|]. intros it (Hki & v & Hv & He). unfold compose. rewrite kept_written, Hv by done. by constructor.
Qed.

(** ** Collecting *)

Lemma strsep_key s n : Forall (fun c => c <> cDOT) s -> strsep (s ++ [cDOT] ++ n) cDOT = (s, Some n).
Proof. induction 1 as [|c s Hc _ IH]; [done|]. cbn [app strsep]. rewrite (proj2 (Z.eqb_neq c cDOT)) by done. cbn [app] in IH. by rewrite IH. Qed.

Lemma key_chars_dotless s : forallb key_char s = true -> Forall (fun c => c <> cDOT /\ c <> cEQ) s.
Proof.
  intros Hs. apply Forall_forall. intros x Hx. rewrite forallb_forall in Hs. apply list_elem_of_In, Hs in Hx. unfold key_char in Hx.
  apply andb_prop in Hx as [Hx Hx0]. apply andb_prop in Hx as [Hx _]. apply Z.leb_le in Hx0. destruct (keychar_small x Hx Hx0) as (_ & ? & _ & _ & _ & ? & _). done.
Qed.
Lemma section_dotless s : section_ok s = true -> Forall (fun c => c <> cDOT /\ c <> cEQ) s.
Proof. intros Hs. apply key_chars_dotless. unfold section_ok in Hs. by apply andb_prop in Hs as [[Hs _]%andb_prop _]. Qed.
Lemma name_dotless n : name_ok n = true -> Forall (fun c => c <> cDOT /\ c <> cEQ) n.
Proof.
  destruct n as [|c n]; [done|]. cbn [name_ok]. intros [[_ Hc]%andb_prop Hn]%andb_prop. constructor.
  - assert (Hl : forallb key_char [c] = true) by (cbn; by rewrite Hc). apply key_chars_dotless in Hl. by apply Forall_cons in Hl as [? _].
  - apply Forall_forall. intros x Hx. rewrite forallb_forall in Hn. apply list_elem_of_In, Hn in Hx.
    apply andb_prop in Hx as [Hx Hx0]. apply Z.leb_le in Hx0. destruct (keychar_small x Hx Hx0) as (_ & ? & _ & _ & _ & ? & _). done.
Qed.

(** A set after assignments from a file. *)
Definition assign (fr : bool) (set : perf_config_set) (a : assignment) : perf_config_set :=
  kput cs_name a.1.1 (with_item (section_of set a.1.1) a.1.2 a.2 fr) set.

Section Assign.
Context (alloc : Z -> bool) (memory : forall n, alloc n = true) (etc path : bytes).
Let fr := bool_decide (path = etc).

Lemma collect_assign set s n v : section_ok s = true ->
  collect_config alloc etc path set (s ++ [cDOT] ++ n) (Some v) = (0, assign fr set (s, n, v)).
Proof using memory.
  intros Hs. apply collect_ok; [done|]. apply strsep_key. eapply Forall_impl; [by apply section_dotless|]. by intros c [? _].
Qed.

Lemma collect_calls l : forall set, Forall (fun e => entry_ok e.1.1 e.1.2 e.2 = true) l ->
  calls (collect_config alloc etc path) set l (foldl (assign fr) set l).
Proof using memory.
  induction l as [|[[s n] v] l IH]; intros set Hl; [constructor|]. apply Forall_cons in Hl as [He Hl].
  econstructor; [apply collect_assign|done|by apply IH]. unfold entry_ok in He. by apply andb_prop in He as [[[? _]%andb_prop _]%andb_prop _].
Qed.

Lemma assigned_view l : forall set s n, config_get (foldl (assign fr) set l) s n = updated (config_get set) l s n.
Proof.
  induction l as [|[[s n] v] l IH]; intros set s' n'; [done|]. cbn [foldl updated]. rewrite IH. apply updated_ext.
  intros s1 n1. apply collect_get.
Qed.

Lemma assigned_wf l : forall set, set_wf set -> set_wf (foldl (assign fr) set l).
Proof. induction l as [|[[s n] v] l IH]; intros set Hw; [done|]. cbn. apply IH. by apply collect_wf. Qed.

Lemma assigned_writable us l : kept us fr = true -> forall set, writable us set -> Forall (fun e => entry_ok e.1.1 e.1.2 e.2 = true) l ->
  writable us (foldl (assign fr) set l).
Proof.
  intros Hk. induction l as [|[[s n] v] l IH]; intros set Hw Hl; [done|]. apply Forall_cons in Hl as [He Hl]. cbn [foldl].
  apply IH; [|done]. cbn [fst snd] in He. apply kput_Forall; [|done].
  assert (Hs : section_ok s = true) by (unfold entry_ok in He; by apply andb_prop in He as [[[? _]%andb_prop _]%andb_prop _]).
  cbn [with_item cs_name cs_items cs_from_system_config fst snd]. rewrite section_of_name. split; [done|]. split; [done|].
  apply kput_Forall; [split; [done|]; by exists v|]. unfold section_of, kget.
  destruct (list_find _ set) as [[i sec]|] eqn:E; [|constructor]. apply list_find_Some in E as (Hi & Hn & _).
  rewrite <- Hn. unfold writable in Hw. rewrite Forall_forall in Hw. cbn. apply Hw. by eapply list_elem_of_lookup_2.
Qed.

(** What is written is read back. *)
Lemma write_read us set : set_wf set -> writable us set -> kept us fr = true -> exists set',
  perf_config_from_file (collect_config alloc etc path) (Some (config_text us set)) [] = Ok (0, set') /\
  set_wf set' /\ writable us set' /\ forall s n, config_get set' s n = config_get set s n.
Proof using memory.
  intros Hwf Hw Hk. destruct (writable_entries us set Hw) as [Hs He].
  exists (foldl (assign fr) [] (set_entries us set)). split; [|split; [|split]].
  - apply config_text_parsed; [done|done|by apply collect_calls].
  - apply assigned_wf. split; constructor.
  - apply assigned_writable; [done|constructor|done].
  - intros s n. rewrite assigned_view, set_entries_view by done. by destruct (config_get set s n).
Qed.

End Assign.

(** * From one run of the command to the next *)

Lemma strchr_here a c b : Forall (fun x => x <> c) a -> strchr (a ++ c :: b) c = Some (a, c :: b).
Proof.
  induction 1 as [|x a Hx _ IH]; cbn [app strchr]; [by rewrite Z.eqb_refl|]. rewrite (proj2 (Z.eqb_neq x c)) by done. by rewrite IH.
Qed.
Lemma strchr_none a c : Forall (fun x => x <> c) a -> strchr a c = None.
Proof. induction 1 as [|x a Hx _ IH]; cbn [strchr]; [done|]. rewrite (proj2 (Z.eqb_neq x c)) by done. by rewrite IH. Qed.

Definition key_text (s n : bytes) : bytes := s ++ [cDOT] ++ n.
Definition assign_text (a : assignment) : bytes := key_text a.1.1 a.1.2 ++ [cEQ] ++ a.2.
(** What can be assigned on the command line. *)
Definition assignable (a : assignment) : Prop := entry_ok a.1.1 a.1.2 a.2 = true /\ a.2 <> [].

Lemma entry_ok_parts s n v : entry_ok s n v = true -> section_ok s = true /\ name_ok n = true.
Proof. unfold entry_ok. by intros [[[? ?]%andb_prop _]%andb_prop _]%andb_prop. Qed.

Lemma section_some s : section_ok s = true -> s <> [].
Proof. by intros Hs ->. Qed.

Lemma parse_key s n : section_ok s = true -> name_ok n = true -> forall rest,
  strchr (key_text s n ++ rest) cDOT = Some (s, cDOT :: n ++ rest) /\ s <> [] /\ n <> [] /\
  Forall (fun c => c <> cEQ) (key_text s n).
Proof.
  intros Hs Hn rest. split; [|split; [by apply section_some|split; [by intros ->|]]].
  - unfold key_text. rewrite <- !app_assoc. apply strchr_here. eapply Forall_impl; [by apply section_dotless|]. by intros c [? _].
  - unfold key_text. repeat apply Forall_app_2.
    + eapply Forall_impl; [by apply section_dotless|]. by intros c [_ ?].
    + by constructor.
    + eapply Forall_impl; [by apply name_dotless|]. by intros c [_ ?].
Qed.

Lemma parse_assign a : assignable a -> parse_config_arg (assign_text a) = Some (key_text a.1.1 a.1.2, Some a.2).
Proof.
  destruct a as [[s n] v]. intros [He Hv]. cbn [fst snd] in *. destruct (entry_ok_parts _ _ _ He) as [Hs Hn].
  destruct (parse_key s n Hs Hn (cEQ :: v)) as (Hd & Hs0 & Hn0 & Heq). unfold assign_text, parse_config_arg. cbn [fst snd].
  change ([cEQ] ++ v) with (cEQ :: v). rewrite Hd, strchr_here by done. destruct s as [|c s]; [done|]. destruct n as [|c1 n]; [done|]. cbn [app].
  destruct v as [|c2 v]; [done|]. by rewrite bool_decide_eq_false_2.
Qed.

Lemma parse_show s n : section_ok s = true -> name_ok n = true -> parse_config_arg (key_text s n) = Some (key_text s n, None).
Proof.
  intros Hs Hn. destruct (parse_key s n Hs Hn []) as (Hd & Hs0 & Hn0 & Heq). rewrite !app_nil_r in Hd. unfold parse_config_arg.
  rewrite Hd. destruct s as [|c s]; [done|]. destruct n as [|c1 n]; [done|]. by rewrite strchr_none.
Qed.

(** ** Showing *)

Lemma strstarts_prefix s t : strstarts s t = true <-> exists u, s = t ++ u.
Proof.
  unfold strstarts. rewrite bool_decide_eq_true. split.
  - intros E. exists (drop (length t) s). rewrite <- E at 1. by rewrite take_drop.
  - intros [u ->]. apply take_app_length.
Qed.

Lemma show_items_none var name items tail : advance var (length name + 1) = Ok tail -> Forall (fun it => ci_name it <> tail) items ->
  show_items var name items = Ok None.
Proof.
  intros Ha. induction 1 as [|it items Hi _ IH]; [done|]. cbn [show_items]. rewrite Ha. rred.
  rewrite bool_decide_eq_false_2 by (by intros ->). done.
Qed.

Lemma show_items_some var name items n v : advance var (length name + 1) = Ok n ->
  kget ci_name n items ≫= ci_value = Some v -> show_items var name items = Ok (Some (var ++ [cEQ] ++ v)).
Proof.
  intros Ha. induction items as [|it items IH]; [done|]. rewrite kget_cons. cbn [show_items]. rewrite Ha. rred.
  destruct (decide (ci_name it = n)) as [<-|Hne].
  - rewrite bool_decide_eq_true_2 by done. cbn [mbind option_bind]. by intros ->.
  - rewrite bool_decide_eq_false_2 by (by intros ->). done.
Qed.

(** A section that is the beginning of another one's name does not disturb. *)
Lemma show_other s n t u : Forall (fun c => c <> cDOT /\ c <> cEQ) s -> Forall (fun c => c <> cDOT /\ c <> cEQ) t ->
  key_text s n = t ++ u -> t <> s -> exists tail, advance (key_text s n) (length t + 1) = Ok tail /\ cDOT ∈ tail.
Proof.
  intros Hs Ht E Hne. revert t u Ht E Hne. induction Hs as [|c s [Hc _] Hs IH]; intros t u Ht E Hne.
  - destruct t as [|c t]; [done|]. unfold key_text in E. cbn in E. injection E as <- _. by apply Forall_cons in Ht as [[? _] _].
  - destruct t as [|c' t].
    + exists (s ++ [cDOT] ++ n). split; [|set_solver]. unfold advance, key_text. cbn [length app Nat.add]. by cbn.
    + unfold key_text in E. cbn in E. injection E as <- E. apply Forall_cons in Ht as [_ Ht].
      destruct (IH t u Ht E) as (tail & Ha & Hi); [congruence|]. exists tail. split; [|done].
      unfold advance, key_text in *. cbn [length app Nat.add]. cbn [Nat.leb drop]. exact Ha.
Qed.

Lemma advance_key s n : advance (key_text s n) (length s + 1) = Ok n.
Proof.
  unfold advance, key_text. rewrite !length_app. cbn [length]. destruct (Nat.leb_spec (length s + 1) (length s + (1 + length n))); [|lia].
  f_equal. rewrite <- drop_drop, drop_app_length. done.
Qed.

Lemma show_spec_ok us set s n v : writable us set -> section_ok s = true -> config_get set s n = Some v ->
  show_spec_config set (key_text s n) = Ok [key_text s n ++ [cEQ] ++ v].
Proof.
  intros Hw Hs. induction Hw as [|sec set (Hsec & _ & Hit) _ IH]; [done|]. unfold config_get. rewrite kget_cons. intros Hg.
  cbn [show_spec_config]. destruct (decide (cs_name sec = s)) as [Hn|Hn].
  - rewrite (proj2 (strstarts_prefix _ _)) by (rewrite Hn; by eexists). cbn [negb]. cbn [mbind option_bind] in Hg.
    rewrite (show_items_some _ _ _ n v); [done|rewrite Hn; apply advance_key|done].
  - destruct (strstarts (key_text s n) (cs_name sec)) eqn:E; cbn [negb]; [|by apply IH].
    apply strstarts_prefix in E as [u E]. destruct (show_other s n (cs_name sec) u) as (tail & Ha & Hi); [by apply section_dotless..|done|done|].
    rewrite (show_items_none _ _ _ tail Ha); [rred; by apply IH|].
    eapply Forall_impl; [exact Hit|]. intros it (_ & w & _ & He) <-. destruct (entry_ok_parts _ _ _ He) as [_ Hd].
    apply name_dotless in Hd. rewrite Forall_forall in Hd. by destruct (Hd cDOT Hi).
Qed.

(** ** The arguments *)

Section Runs.
Context (env : config_env) (memory : forall n, env_alloc env n = true).

Lemma args_assign path l : forall set out ch, Forall assignable l ->
  config_args env path (assign_text <$> l) set out ch =
  Ok (0, out, foldl (assign (bool_decide (path = etc_perfconfig env))) set l, match l with [] => ch | _ => true end).
Proof using memory.
  induction l as [|a l IH]; intros set out ch Hl; [done|]. apply Forall_cons in Hl as [Ha Hl]. rewrite fmap_cons. cbn [config_args].
  rewrite memory, parse_assign by done. cbn [negb]. unfold perf_config_set__collect. pose proof Ha as [He _].
  destruct a as [[s n] v]. cbn [fst snd] in *. destruct (entry_ok_parts _ _ _ He) as [Hs _]. unfold key_text.
  rewrite (collect_assign (env_alloc env) memory) by done. change (0 <? 0) with false. cbv iota. rewrite IH by done. by destruct l.
Qed.

(** Which file a run reads and writes. *)
Definition chosen (us uu : bool) (exclusive : option bytes) : option bytes :=
  if us then Some (etc_perfconfig env) else
  if uu then Some (mkpath (default (ascii_text "(null)") (env_home env) ++ ascii_text "/.perfconfig")) else exclusive.

Lemma new_reads path fs st set : fs !! path = Some st -> env_readable env path = true ->
  perf_config_from_file (collect_config (env_alloc env) (etc_perfconfig env) path) (Some (f_content st)) [] = Ok (0, set) ->
  perf_config_set__new env (Some path) fs = Ok (Some set).
Proof using memory.
  intros Hf Hr E. unfold perf_config_set__new. rewrite memory. cbn [negb perf_config_set__init]. unfold read_config, open_config.
  rewrite Hr, Hf. cbn [fmap option_fmap option_map]. by rewrite E.
Qed.

Lemma new_wf path fs : exists set, perf_config_set__new env (Some path) fs = Ok (Some set) /\ set_wf set.
Proof using memory.
  unfold perf_config_set__new. rewrite memory. cbn [negb perf_config_set__init]. unfold read_config.
  destruct (from_file_safe (collect_config (env_alloc env) (etc_perfconfig env) path) set_wf) with (s := @nil perf_config_section) (content := open_config env fs path)
    as (ret & set & -> & _ & Hw); [intros; by apply collect_keeps_wf|split; constructor|]. by exists set.
Qed.

End Runs.

(** C10: Settings outlive the command.  Let a run of perf config choose one file
    (--user, --system or an exclusive file, not both options) that can be read and
    written and is not the system's unless --system is given, with memory, and let the
    variables of the file and those assigned be ones the format can hold: a section of 1
    to 129 lower case letters, digits, '-' or '_', a name of a lower case letter and
    then letters, digits, '-' or '_', less than 256 characters together, and a value of
    less than 1023 characters with single spaces inside and no '#', ';', quote,
    backslash or other white space, not empty where it is assigned.  A run with
    assignments section.name=value then succeeds and prints nothing; what the next run
    reads from the file are the variables that were there, changed by the assignments in
    their order, and nothing else; the file stays one of this kind; and asking for a
    variable prints the value it has.  Outside these bounds settings do get lost
    ([hash_is_cut], [dotted_name_unreadable], [capital_lost]). *)
Theorem config_settings_persist env us uu exclusive path fs set l :
  (forall n, env_alloc env n = true) -> us && uu = false -> chosen env us uu exclusive = Some path ->
  env_readable env path = true -> env_writable env path = true -> kept us (bool_decide (path = etc_perfconfig env)) = true ->
  perf_config_set__new env (Some path) fs = Ok (Some set) -> writable us set -> Forall assignable l -> l <> [] ->
  exists fs' set',
    cmd_config env false us uu (assign_text <$> l) exclusive fs = Ok (0, [], fs') /\
    perf_config_set__new env (Some path) fs' = Ok (Some set') /\ writable us set' /\
    (forall s n, config_get set' s n = updated (config_get set) l s n) /\
    (forall s n v, section_ok s = true -> name_ok n = true -> config_get set' s n = Some v ->
       cmd_config env false us uu [key_text s n] exclusive fs' = Ok (0, [key_text s n ++ [cEQ] ++ v], fs')).
Proof.
  intros Hm Huu Hch Hr Hw Hk Hnew Hset Hl Hne.
  assert (Hwf : set_wf set).
  { destruct (new_wf env Hm path fs) as (set0 & E & Hwf). congruence. }
  set (fr := bool_decide (path = etc_perfconfig env)) in *. set (set1 := foldl (assign fr) set l).
  assert (He : Forall (fun e => entry_ok e.1.1 e.1.2 e.2 = true) l) by (eapply Forall_impl; [exact Hl|]; by intros a [? _]).
  destruct (write_read (env_alloc env) Hm (etc_perfconfig env) path us set1) as (set' & Hread & _ & Hwr' & Hget).
  { by apply assigned_wf. } { by apply assigned_writable. } { done. }
  set (uid := match fs !! path with Some st => st_uid st | None => env_euid env end).
  set (fs' := <[path := Inode uid (config_text us set1)]> fs).
  assert (Hnew' : perf_config_set__new env (Some path) fs' = Ok (Some set')).
  { eapply (new_reads env Hm path fs' (Inode uid (config_text us set1))); [apply lookup_insert_eq|done|exact Hread]. }
  exists fs', set'. split; [|split; [done|split; [done|split]]].
  - unfold cmd_config. rewrite Huu. fold (chosen env us uu exclusive). rewrite Hch. cbn [from_option]. unfold id. rewrite Hnew. rred.
    destruct (assign_text <$> l) as [|x args] eqn:Ea; [apply fmap_nil_inv in Ea; contradiction|]. rewrite <- Ea.
    rewrite (args_assign env Hm path l set [] false Hl). destruct l as [|a l']; [contradiction|]. rred. change (0 <? 0) with false. cbn [negb].
    unfold set_config. rewrite Hw. cbn [negb]. reflexivity.
  - intros s n. rewrite Hget. apply assigned_view.
  - intros s n v Hs Hn Hv. unfold cmd_config. rewrite Huu. fold (chosen env us uu exclusive). rewrite Hch. cbn [from_option]. unfold id. rewrite Hnew'. rred.
    cbn [config_args]. rewrite Hm, parse_show by done. cbn [negb].
    rewrite (show_spec_ok us set' s n v) by done. reflexivity.
Qed.

(** * Examples *)

Module ConfigExamples.

Definition user_file : bytes := ascii_text "/root/.perfconfig".
Definition test_env : config_env :=
  ConfigEnv (fun _ => true) (ascii_text "/etc/perfconfig") None None (Some (ascii_text "/root")) 0 (fun _ => true) (fun _ => true).
(** A file that was written by hand, with line ends of another system. *)
Definition by_hand : bytes :=
  ascii_text "; my settings" ++ [cCR; cNL] ++ ascii_text "[Core]" ++ [cCR; cNL] ++ ascii_text "  Pager = less   -R # paging" ++ [cNL]
  ++ ascii_text "[ui]" ++ [cNL] ++ ascii_text "show-headers=" ++ [cQUOTE] ++ ascii_text "no" ++ [cQUOTE].
Definition files0 : files := {[ user_file := Inode 0 by_hand ]}.
Definition hand_set : perf_config_set :=
  [CSection (ascii_text "core") [Item (ascii_text "pager") (Some (ascii_text "less -R")) false] false;
   CSection (ascii_text "ui") [Item (ascii_text "show-headers") (Some (ascii_text "no")) false] false].
Definition changes : list assignment :=
  [(ascii_text "ui", ascii_text "show-headers", ascii_text "yes"); (ascii_text "tui", ascii_text "report", ascii_text "a = b")].

Example by_hand_read : perf_config_set__new test_env (Some user_file) files0 = Ok (Some hand_set).
Proof. vm_compute. reflexivity. Qed.

Lemma config_parser_safe_witness :
  exists ret set', perf_config_from_file (collect_config (fun n => n <? 50) [] user_file) (Some by_hand) [] = Ok (ret, set') /\
    (ret = 0 \/ ret = -1) /\ set_wf set'.
Proof. apply (config_parser_safe (fun n => n <? 50) [] user_file (Some by_hand) []). split; constructor. Defined.

Lemma config_settings_persist_witness :
  exists fs' set',
    cmd_config test_env false false true (assign_text <$> changes) None files0 = Ok (0, [], fs') /\
    perf_config_set__new test_env (Some user_file) fs' = Ok (Some set') /\ writable false set' /\
    (forall s n, config_get set' s n = updated (config_get hand_set) changes s n) /\
    (forall s n v, section_ok s = true -> name_ok n = true -> config_get set' s n = Some v ->
       cmd_config test_env false false true [key_text s n] None fs' = Ok (0, [key_text s n ++ [cEQ] ++ v], fs')).
Proof.
  apply (config_settings_persist test_env false true None user_file files0 hand_set changes).
  - reflexivity.
  - reflexivity.
  - vm_compute. reflexivity.
  - reflexivity.
  - reflexivity.
  - vm_compute. reflexivity.
  - exact by_hand_read.
  - repeat constructor; eexists; (split; [reflexivity|vm_compute; reflexivity]).
  - repeat constructor; first [discriminate|vm_compute; reflexivity].
  - discriminate.
Defined.

(** What the command leaves in the file. *)
Example changed_file :
  match cmd_config test_env false false true (assign_text <$> changes) None files0 with
  | Ok (ret, _, fs) => Some (ret, f_content <$> fs !! user_file)
  | _ => None
  end = Some (0, Some (ascii_text "# this file is auto-generated." ++ [cNL] ++ ascii_text "[core]" ++ [cNL; cTAB]
    ++ ascii_text "pager = less -R" ++ [cNL] ++ ascii_text "[ui]" ++ [cNL; cTAB] ++ ascii_text "show-headers = yes" ++ [cNL]
    ++ ascii_text "[tui]" ++ [cNL; cTAB] ++ ascii_text "report = a = b" ++ [cNL])).
Proof. vm_compute. reflexivity. Qed.

(** ** Where it departs from its intention *)

Definition after_setting (content arg : string) (var : string) : option (Z * bytes * list bytes) :=
  let fs := {[ user_file := Inode 0 (ascii_text content) ]} in
  match cmd_config test_env false false true [ascii_text arg] None fs with
  | Ok (ret, _, fs) =>
      match cmd_config test_env false false true [ascii_text var] None fs with
      | Ok (_, out, _) => Some (ret, default [] (f_content <$> fs !! user_file), out)
      | _ => None
      end
  | _ => None
  end.
Definition shown (r : option (Z * bytes * list bytes)) : option (Z * list bytes) := (fun x => (x.1.1, x.2)) <$> r.

(** Values are written without quotes: what follows a # is lost. *)
Example hash_is_cut : shown (after_setting "" "a.b=c#d" "a.b") = Some (0, [ascii_text "a.b=c"]).
Proof. vm_compute. reflexivity. Qed.

(** A name with two dots makes a file that cannot be read, from that line on. *)
Example dotted_name_unreadable : shown (after_setting "" "a.b.c=d" "a.b.c") = Some (0, []).
Proof. vm_compute. reflexivity. Qed.

(** A section with a capital is not found again. *)
Example capital_lost : shown (after_setting "" "Core.pager=less" "Core.pager") = Some (0, []).
Proof. vm_compute. reflexivity. Qed.

(** A syntax error in the file: a later assignment writes only what was read before
    it. *)
Example error_loses_rest :
  match cmd_config test_env false false true [ascii_text "a.b=c"] None
          {[ user_file := Inode 0 (ascii_text "[x]" ++ [cNL] ++ ascii_text "y" ++ [cNL] ++ ascii_text "[z]" ++ [cNL] ++ ascii_text "k=v" ++ [cNL]) ]} with
  | Ok (ret, _, fs) => Some (ret, f_content <$> fs !! user_file)
  | _ => None
  end = Some (0, Some (ascii_text "# this file is auto-generated." ++ [cNL] ++ ascii_text "[a]" ++ [cNL; cTAB] ++ ascii_text "b = c" ++ [cNL])).
Proof. vm_compute. reflexivity. Qed.

(** A bad value, which is said to be ignored, counts as true. *)
Example bad_bool_is_true : perf_config_bool (Some (ascii_text "flase")) = true.
Proof. vm_compute. reflexivity. Qed.

(** An error is forgotten when a later section is fine. *)
Example error_forgotten :
  perf_config (fun log key value => (if bool_decide (value = ascii_text "bad") then -1 else 0, log ++ [key]))
    [CSection (ascii_text "a") [Item (ascii_text "x") (Some (ascii_text "bad")) false; Item (ascii_text "y") (Some (ascii_text "1")) false] false;
     CSection (ascii_text "b") [Item (ascii_text "z") (Some (ascii_text "2")) false] false] []
  = (0, [ascii_text "a.x"; ascii_text "b.z"]).
Proof. vm_compute. reflexivity. Qed.

End ConfigExamples.
