(* ===== verification/Pmu.v ===== *)
(** Model of the part of util/pmu.c that turns the terms of an event into the config
    words of a perf_event_attr: the formats of a PMU say which bits of which word a
    term means, aliases stand for several terms.

    The terms of an event are one list whose members are changed while it is walked
    (a term can be marked as used by an earlier one), so the list is passed along.
    The parser of the format files is generated by bison; the action that sets a
    range of bits is modelled. *)

From S2P Require Import Prelude Strings Cpumap Config.
From stdpp Require Import strings.
#[local] Open Scope Z_scope.

Definition PERF_PMU_FORMAT_BITS : Z := 64.
Definition PERF_PMU_FORMAT_VALUE_CONFIG : Z := 0.
Definition PERF_PMU_FORMAT_VALUE_CONFIG1 : Z := 1.
Definition PERF_PMU_FORMAT_VALUE_CONFIG2 : Z := 2.
Definition EINVAL : Z := 22.
Definition ENOMEM : Z := 12.

(** The bitmap is a word of 64 bits. *)
Record perf_pmu_format := Format { fm_name : bytes; fm_value : Z; fm_bits : Z }.

Inductive term_val := NumVal (num : Z) | StrVal (str : bytes).
(** [tm_hardcoded]: type_term is not PARSE_EVENTS__TERM_TYPE_USER. *)
Record parse_events_term := Term {
  tm_config : bytes;
  tm_val : term_val;
  tm_hardcoded : bool;
  tm_used : bool;
  tm_no_value : bool;
  tm_weak : bool
}.

Record pmu_attr := PmuAttr { pa_type : Z; pa_config : Z; pa_config1 : Z; pa_config2 : Z }.

(** * Formats *)

(** The loop from [b] to [to]; set_bit outside of the bitmap is [Oob]. *)
Fixpoint set_bit_range (n : nat) (b : Z) (bits : Z) : res Z :=
  match n with
  | O => Ok bits
  | S n => if (b <? 0) || (PERF_PMU_FORMAT_BITS <=? b) then Oob else set_bit_range n (b + 1) (Z.setbit bits b)
  end.
Definition perf_pmu__set_format (from to : Z) : res Z :=
  let to := if to =? 0 then from else to in
  set_bit_range (Z.to_nat (to - from + 1)) from 0.

Definition perf_pmu__new_format (alloc_ok : bool) (formats : list perf_pmu_format) (name : bytes) (config bits : Z)
    : Z * list perf_pmu_format :=
  if negb alloc_ok then (- ENOMEM, formats) else (0, formats ++ [Format name config bits]).

Definition pmu_find_format (formats : list perf_pmu_format) (name : bytes) : option perf_pmu_format :=
  snd <$> list_find (fun f => fm_name f = name) formats.

Definition perf_pmu__format_bits (formats : list perf_pmu_format) (name : bytes) : Z :=
  match pmu_find_format formats name with None => 0 | Some f => fm_bits f end.

(** bitmap_weight of the first [n] bits. *)
Fixpoint weight (bits : Z) (n : nat) : Z :=
  match n with O => 0 | S n => weight bits n + Z.b2z (Z.testbit bits (Z.of_nat n)) end.
Definition bitmap_weight (bits : Z) : Z := weight bits (Z.to_nat PERF_PMU_FORMAT_BITS).

(** The loop of pmu_format_value, [n] turns before its end. *)
Fixpoint format_loop (n : nat) (fbit vbit : Z) (format value v : Z) (zero : bool) : Z :=
  match n with
  | O => v
  | S n =>
      if negb (Z.testbit format fbit) then format_loop n (fbit + 1) vbit format value v zero else
      let v := if hasf value (Z.shiftl 1 vbit) then Z.lor v (Z.shiftl 1 fbit)
               else if zero then Z.land v (Z.lnot (Z.shiftl 1 fbit)) else v in
      format_loop n (fbit + 1) (vbit + 1) format value v zero
  end.
Definition pmu_format_value (format value v : Z) (zero : bool) : Z :=
  format_loop (Z.to_nat PERF_PMU_FORMAT_BITS) 0 0 format value v zero.

Definition pmu_format_max_value (format : Z) : Z :=
  let w := bitmap_weight format in
  if w =? 0 then 0 else if w <? 64 then u64 (Z.shiftl 1 w - 1) else u64 (-1).

(** * Terms *)

(** The first number with the name of the term, which is marked as used. *)
Fixpoint pmu_resolve_param_term (config : bytes) (head_terms : list parse_events_term) : option (Z * list parse_events_term) :=
  match head_terms with
  | [] => None
  | t :: terms =>
      match tm_val t, bool_decide (tm_config t = config) with
      | NumVal num, true =>
          Some (num, Term (tm_config t) (tm_val t) (tm_hardcoded t) true (tm_no_value t) (tm_weak t) :: terms)
      | _, _ => '(num, terms) ← pmu_resolve_param_term config terms; Some (num, t :: terms)
      end
  end.

(** The word that a format is about. *)
Definition config_word (attr : pmu_attr) (value : Z) : option Z :=
  if value =? PERF_PMU_FORMAT_VALUE_CONFIG then Some (pa_config attr)
  else if value =? PERF_PMU_FORMAT_VALUE_CONFIG1 then Some (pa_config1 attr)
  else if value =? PERF_PMU_FORMAT_VALUE_CONFIG2 then Some (pa_config2 attr)
  else None.
Definition set_config_word (attr : pmu_attr) (value v : Z) : pmu_attr :=
  if value =? PERF_PMU_FORMAT_VALUE_CONFIG then PmuAttr (pa_type attr) v (pa_config1 attr) (pa_config2 attr)
  else if value =? PERF_PMU_FORMAT_VALUE_CONFIG1 then PmuAttr (pa_type attr) (pa_config attr) v (pa_config2 attr)
  else PmuAttr (pa_type attr) (pa_config attr) (pa_config1 attr) v.

Definition question_mark : bytes := [63].

(** [err]: there is a place for the error. *)
Definition pmu_config_term (formats : list perf_pmu_format) (attr : pmu_attr) (term : parse_events_term)
    (head_terms : list parse_events_term) (zero err : bool) : Z * pmu_attr * list parse_events_term :=
  if tm_used term then (0, attr, head_terms) else
  if tm_hardcoded term then (0, attr, head_terms) else
  match pmu_find_format formats (tm_config term) with
  | None => (- EINVAL, attr, head_terms)
  | Some format =>
      match config_word attr (fm_value format) with
      | None => (- EINVAL, attr, head_terms)
      | Some vp =>
          let write val head_terms :=
            if (pmu_format_max_value (fm_bits format) <? val) && err then (- EINVAL, attr, head_terms)
            else (0, set_config_word attr (fm_value format) (pmu_format_value (fm_bits format) val vp zero), head_terms) in
          match tm_val term with
          | NumVal num =>
              if tm_no_value term && (1 <? bitmap_weight (fm_bits format)) then (- EINVAL, attr, head_terms)
              else write num head_terms
          | StrVal str =>
              if negb (bool_decide (str = question_mark)) then (- EINVAL, attr, head_terms) else
              match pmu_resolve_param_term (tm_config term) head_terms with
              | None => (- EINVAL, attr, head_terms)
              | Some (val, head_terms) => write val head_terms
              end
          end
      end
  end.

(** The loop at the [i]th term. *)
Fixpoint terms_loop (n i : nat) (formats : list perf_pmu_format) (attr : pmu_attr) (head_terms : list parse_events_term) (zero err : bool)
    : Z * pmu_attr * list parse_events_term :=
  match n, head_terms !! i with
  | S n, Some term =>
      let '(ret, attr, head_terms) := pmu_config_term formats attr term head_terms zero err in
      if negb (ret =? 0) then (- EINVAL, attr, head_terms) else terms_loop n (S i) formats attr head_terms zero err
  | _, _ => (0, attr, head_terms)
  end.
Definition perf_pmu__config_terms (formats : list perf_pmu_format) (attr : pmu_attr) (head_terms : list parse_events_term) (zero err : bool)
    : Z * pmu_attr * list parse_events_term :=
  terms_loop (length head_terms) 0 formats attr head_terms zero err.

(** * Aliases *)

Section Alias.
(** Numbers of type double: only compared with 0. *)
Context {double : Type} (zero one : double) (is_zero : double -> bool).

Record perf_pmu_alias := Alias {
  al_name : bytes;
  al_terms : list parse_events_term;
  al_unit : bytes;
  al_scale : double;
  al_per_pkg : bool;
  al_snapshot : bool;
  al_metric_expr : option bytes;
  al_metric_name : option bytes
}.
Record perf_pmu_info := Info {
  pi_unit : option bytes;
  pi_metric_expr : option bytes;
  pi_metric_name : option bytes;
  pi_scale : double;
  pi_per_pkg : bool;
  pi_snapshot : bool
}.
Record perf_pmu := Pmu { pm_type : Z; pm_default_config : bool; pm_format : list perf_pmu_format; pm_aliases : list perf_pmu_alias }.

Definition perf_pmu__config (pmu : perf_pmu) (attr : pmu_attr) (head_terms : list parse_events_term) (err : bool)
    : Z * pmu_attr * list parse_events_term :=
  let zero := pm_default_config pmu in
  let attr := PmuAttr (pm_type pmu) (pa_config attr) (pa_config1 attr) (pa_config2 attr) in
  perf_pmu__config_terms (pm_format pmu) attr head_terms zero err.

Definition pmu_find_alias (pmu : perf_pmu) (term : parse_events_term) : option perf_pmu_alias :=
  let named name := snd <$> list_find (fun a => same_nocase (al_name a) name = true) (pm_aliases pmu) in
  if tm_hardcoded term then None else
  match tm_val term with
  | NumVal num =>
      if negb (num =? 1) then None
      else match pmu_find_format (pm_format pmu) (tm_config term) with Some _ => None | None => named (tm_config term) end
  | StrVal str => if negb (same_nocase (tm_config term) (ascii_text "event")) then None else named str
  end.

Definition check_info_data (alias : perf_pmu_alias) (info : perf_pmu_info) : option perf_pmu_info :=
  let has_unit := negb (zlen (al_unit alias) =? 0) in
  let has_scale := negb (is_zero (al_scale alias)) in
  if (bool_decide (is_Some (pi_unit info)) && has_unit) || (negb (is_zero (pi_scale info)) && has_scale) || (pi_snapshot info && al_snapshot alias)
  then None
  else Some (Info (if has_unit then Some (al_unit alias) else pi_unit info) (pi_metric_expr info) (pi_metric_name info)
               (if has_scale then al_scale alias else pi_scale info) (pi_per_pkg info) (al_snapshot alias || pi_snapshot info)).

(** parse_events_term__clone, then weak. *)
Definition clone_weak (t : parse_events_term) : parse_events_term :=
  Term (tm_config t) (tm_val t) (tm_hardcoded t) false false true.

(** Clones of the terms, put behind the term; [alloc_ok]: memory for all of them. *)
Definition pmu_alias_terms (alloc_ok : bool) (alias : perf_pmu_alias) : Z * list parse_events_term :=
  if negb alloc_ok && (0 <? zlen (al_terms alias)) then (- ENOMEM, []) else (0, clone_weak <$> al_terms alias).

(** The list is [done ++ rest]; the loop keeps the next term of [rest] and does not
    visit what is put in front of it. *)
Fixpoint alias_loop (alloc_ok : bool) (pmu : perf_pmu) (before rest : list parse_events_term) (info : perf_pmu_info)
    : Z * list parse_events_term * perf_pmu_info :=
  match rest with
  | [] => (0, before, info)
  | term :: rest =>
      match pmu_find_alias pmu term with
      | None => alias_loop alloc_ok pmu (before ++ [term]) rest info
      | Some alias =>
          let '(ret, cloned) := pmu_alias_terms alloc_ok alias in
          if negb (ret =? 0) then (ret, before ++ term :: rest, info) else
          match check_info_data alias info with
          | None => (- EINVAL, before ++ term :: cloned ++ rest, info)
          | Some info =>
              let info := Info (pi_unit info) (al_metric_expr alias) (al_metric_name alias) (pi_scale info)
                            (al_per_pkg alias || pi_per_pkg info) (pi_snapshot info) in
              alias_loop alloc_ok pmu (before ++ cloned) rest info
          end
      end
  end.

Definition perf_pmu__check_alias (alloc_ok : bool) (pmu : perf_pmu) (head_terms : list parse_events_term)
    : Z * list parse_events_term * perf_pmu_info :=
  let '(ret, terms, info) := alias_loop alloc_ok pmu [] head_terms (Info None None None zero false false) in
  if negb (ret =? 0) then (ret, terms, info) else
  (0, terms, Info (Some (default [] (pi_unit info))) (pi_metric_expr info) (pi_metric_name info)
               (if is_zero (pi_scale info) then one else pi_scale info) (pi_per_pkg info) (pi_snapshot info)).

End Alias.

(** * What formats do to bits *)

Lemma weight_bounds bits n : 0 <= weight bits n <= Z.of_nat n.
Proof. induction n as [|n IH]; cbn [weight]; [lia|]. destruct (Z.testbit bits (Z.of_nat n)); cbn [Z.b2z]; lia. Qed.

Lemma hasf_bit value k : 0 <= k -> hasf value (Z.shiftl 1 k) = Z.testbit value k.
Proof.
  intros Hk. unfold hasf. rewrite Z.shiftl_1_l. destruct (Z.testbit value k) eqn:E.
  - apply negb_true_iff, Z.eqb_neq. intros H. apply (f_equal (fun z => Z.testbit z k)) in H.
    rewrite Z.land_spec, Z.pow2_bits_true, E, Z.bits_0 in H by done. discriminate.
  - apply negb_false_iff, Z.eqb_eq. apply Z.bits_inj'. intros m Hm. rewrite Z.land_spec, Z.bits_0.
    rewrite Z.pow2_bits_eqb by done. destruct (Z.eqb_spec k m) as [<-|]; [by rewrite E|by rewrite andb_false_r].
Qed.

(** Bit [p] of the result: in the format it is the bit of the value whose number is the
    number of format bits below [p]. *)
Lemma format_loop_bits format value zero n : forall k v p, (k + n = 64)%nat -> (p < 64)%nat ->
  Z.testbit (format_loop n (Z.of_nat k) (weight format k) format value v zero) (Z.of_nat p) =
  if (k <=? p)%nat && Z.testbit format (Z.of_nat p)
  then Z.testbit value (weight format p) || (negb zero && Z.testbit v (Z.of_nat p))
  else Z.testbit v (Z.of_nat p).
Proof.
  induction n as [|n IH]; intros k v p Hk Hp; cbn [format_loop].
  - destruct (Nat.leb_spec k p); [lia|done].
  - replace (Z.of_nat k + 1) with (Z.of_nat (S k)) by lia. pose proof (weight_bounds format k).
    destruct (Z.testbit format (Z.of_nat k)) eqn:Ef; cbn [negb].
    + replace (weight format k + 1) with (weight format (S k)) by (cbn [weight]; rewrite Ef; cbn; lia).
      rewrite IH by lia. rewrite hasf_bit by lia. rewrite Z.shiftl_1_l.
      set (v1 := if Z.testbit value (weight format k) then _ else _).
      assert (Hv1 : forall q, (q < 64)%nat -> Z.testbit v1 (Z.of_nat q) =
        if (q =? k)%nat then Z.testbit value (weight format k) || (negb zero && Z.testbit v (Z.of_nat q)) else Z.testbit v (Z.of_nat q)).
      { intros q Hq. unfold v1. destruct (Nat.eqb_spec q k) as [->|Hne].
        - destruct (Z.testbit value (weight format k)); [by rewrite Z.lor_spec, Z.pow2_bits_true, orb_true_r by lia|].
          destruct zero; cbn [negb andb orb]; [|done]. rewrite Z.land_spec, Z.lnot_spec, Z.pow2_bits_true by lia. by rewrite andb_false_r.
        - assert (Z.testbit (2 ^ Z.of_nat k) (Z.of_nat q) = false) by (apply Z.pow2_bits_false; lia).
          destruct (Z.testbit value (weight format k)); [rewrite Z.lor_spec, H0; apply orb_false_r|].
          destruct zero; [|done]. rewrite Z.land_spec, Z.lnot_spec, H0 by lia. apply andb_true_r. }
      rewrite Hv1 by lia. destruct (Nat.leb_spec (S k) p) as [Hlt|Hge].
      * destruct (Nat.leb_spec k p); [|lia]. destruct (Nat.eqb_spec p k); [lia|]. done.
      * cbn [andb]. destruct (Nat.eqb_spec p k) as [->|Hne].
        -- destruct (Nat.leb_spec k k); [|lia]. by rewrite Ef.
        -- destruct (Nat.leb_spec k p); [lia|done].
    + replace (weight format k) with (weight format (S k)) by (cbn [weight]; rewrite Ef; cbn; lia).
      rewrite IH by lia. destruct (Nat.leb_spec (S k) p), (Nat.leb_spec k p); try lia; try done.
      replace p with k by lia. by rewrite Ef.
Qed.

Lemma format_value_bits format value v zero p : (p < 64)%nat ->
  Z.testbit (pmu_format_value format value v zero) (Z.of_nat p) =
  if Z.testbit format (Z.of_nat p) then Z.testbit value (weight format p) || (negb zero && Z.testbit v (Z.of_nat p))
  else Z.testbit v (Z.of_nat p).
Proof. intros Hp. exact (format_loop_bits format value zero 64 0 v p eq_refl Hp). Qed.

(** The value that a word has in a format: its format bits, put together. *)
Fixpoint gathered (n : nat) (format v : Z) : Z :=
  match n with
  | O => 0
  | S n => gathered n format v +
           (if Z.testbit format (Z.of_nat n) && Z.testbit v (Z.of_nat n) then 2 ^ weight format n else 0)
  end.
Definition format_read (format v : Z) : Z := gathered 64 format v.

Lemma mod_next_bit a r : 0 <= r -> a mod 2 ^ (r + 1) = a mod 2 ^ r + (if Z.testbit a r then 2 ^ r else 0).
Proof.
  intros Hr. rewrite Z.pow_add_r, Z.pow_1_r by lia. rewrite Z.rem_mul_r by lia.
  rewrite <- Z.testbit_spec' by done. destruct (Z.testbit a r); cbn [Z.b2z]; lia.
Qed.

Lemma gathered_value format v value n :
  (forall p, (p < n)%nat -> Z.testbit format (Z.of_nat p) = true -> Z.testbit v (Z.of_nat p) = Z.testbit value (weight format p)) ->
  gathered n format v = value mod 2 ^ weight format n.
Proof.
  induction n as [|n IH]; intros Hb; cbn [gathered weight]; [by rewrite Z.mod_1_r|]. pose proof (weight_bounds format n).
  rewrite IH by (intros; apply Hb; [lia|done]). destruct (Z.testbit format (Z.of_nat n)) eqn:Ef; cbn [Z.b2z andb].
  - rewrite mod_next_bit by lia. by rewrite (Hb n) by (lia || done).
  - by rewrite !Z.add_0_r.
Qed.

Lemma max_value_fits format value : 0 <= value <= pmu_format_max_value format -> value mod 2 ^ weight format 64 = value.
Proof.
  unfold pmu_format_max_value, bitmap_weight. change (Z.to_nat PERF_PMU_FORMAT_BITS) with 64%nat. set (w := weight format 64).
  assert (Hw : 0 <= w <= 64) by apply weight_bounds. destruct (Z.eqb_spec w 0) as [->|].
  - intros Hv. replace value with 0 by lia. done.
  - destruct (Z.ltb_spec w 64).
    + rewrite Z.shiftl_1_l. assert (2 ^ w < 2 ^ 64) by (apply Z.pow_lt_mono_r; lia). pose proof (Z.pow_pos_nonneg 2 w ltac:(lia) ltac:(lia)).
      rewrite u64_small by (change 18446744073709551616 with (2 ^ 64); lia). intros Hv. apply Z.mod_small. lia.
    + replace w with 64 by lia. change (u64 (-1)) with (2 ^ 64 - 1). intros Hv. apply Z.mod_small. lia.
Qed.

(** * Terms as assignments *)

Abbreviation write := (perf_pmu_format * Z)%type.

Definition get_word (attr : pmu_attr) (w : Z) : Z := default 0 (config_word attr w).
Definition word_ok (w : Z) : Prop := 0 <= w <= 2.
Definition write_term (zero : bool) (attr : pmu_attr) (x : write) : pmu_attr :=
  set_config_word attr (fm_value x.1) (pmu_format_value (fm_bits x.1) x.2 (get_word attr (fm_value x.1)) zero).

(** What a term assigns, if it is one that can be used. *)
Definition writes_of (formats : list perf_pmu_format) (t : parse_events_term) : option (list write) :=
  if tm_used t || tm_hardcoded t then Some [] else
  match pmu_find_format formats (tm_config t), tm_val t with
  | Some f, NumVal num =>
      if bool_decide (word_ok (fm_value f) /\ 0 <= num <= pmu_format_max_value (fm_bits f)) &&
         negb (tm_no_value t && (1 <? bitmap_weight (fm_bits f)))
      then Some [(f, num)] else None
  | _, _ => None
  end.
Fixpoint all_writes (formats : list perf_pmu_format) (ts : list parse_events_term) : option (list write) :=
  match ts with
  | [] => Some []
  | t :: ts => a ← writes_of formats t; b ← all_writes formats ts; Some (a ++ b)
  end.

Lemma word_some attr w : word_ok w -> config_word attr w = Some (get_word attr w).
Proof.
  intros Hw. unfold get_word, config_word, word_ok in *.
  destruct (Z.eqb_spec w PERF_PMU_FORMAT_VALUE_CONFIG), (Z.eqb_spec w PERF_PMU_FORMAT_VALUE_CONFIG1), (Z.eqb_spec w PERF_PMU_FORMAT_VALUE_CONFIG2);
    try done. unfold PERF_PMU_FORMAT_VALUE_CONFIG, PERF_PMU_FORMAT_VALUE_CONFIG1, PERF_PMU_FORMAT_VALUE_CONFIG2 in *. lia.
Qed.

Lemma get_set_word attr a b v : word_ok a -> word_ok b -> get_word (set_config_word attr a v) b = if a =? b then v else get_word attr b.
Proof.
  intros Ha Hb. unfold word_ok in *. assert (a = 0 \/ a = 1 \/ a = 2) as [->|[->| ->]] by lia;
    assert (b = 0 \/ b = 1 \/ b = 2) as [->|[->| ->]] by lia; reflexivity.
Qed.

Lemma config_term_writes formats attr t ts ws zero err : writes_of formats t = Some ws ->
  pmu_config_term formats attr t ts zero err = (0, foldl (write_term zero) attr ws, ts).
Proof.
  unfold writes_of, pmu_config_term. destruct (tm_used t); [by intros [= <-]|]. destruct (tm_hardcoded t); [by intros [= <-]|]. cbn [orb].
  destruct (pmu_find_format formats (tm_config t)) as [f|]; [|done]. destruct (tm_val t) as [num|]; [|done].
  destruct (bool_decide _) eqn:E; [|done]. apply bool_decide_eq_true in E as [Hw Hn]. destruct (tm_no_value t && _); [done|]. cbn [negb andb].
  intros [= <-]. rewrite word_some by done. destruct (Z.ltb_spec (pmu_format_max_value (fm_bits f)) num); [lia|]. done.
Qed.

Lemma terms_loop_writes formats zero err rest : forall before attr ws, all_writes formats rest = Some ws ->
  terms_loop (length rest) (length before) formats attr (before ++ rest) zero err = (0, foldl (write_term zero) attr ws, before ++ rest).
Proof.
  induction rest as [|t rest IH]; intros before attr ws E; cbn [all_writes] in E; [by injection E as <-|].
  destruct (writes_of formats t) as [a|] eqn:Ea; [|done]. destruct (all_writes formats rest) as [b|] eqn:Eb; [|done]. injection E as <-.
  cbn [length terms_loop]. rewrite lookup_app_r, Nat.sub_diag by lia. cbn [lookup list_lookup].
  rewrite (config_term_writes _ _ _ _ _ _ _ Ea). change (negb (0 =? 0)) with false. cbv iota. rewrite foldl_app.
  replace (before ++ t :: rest) with ((before ++ [t]) ++ rest) by (by rewrite <- app_assoc).
  replace (S (length before)) with (length (before ++ [t])) by (rewrite length_app; cbn; lia). by apply IH.
Qed.

(** ** Terms that do not meet *)

Definition covers (x : write) (w : Z) (p : nat) : Prop := fm_value x.1 = w /\ Z.testbit (fm_bits x.1) (Z.of_nat p) = true.
#[export] Instance covers_dec x w p : Decision (covers x w p).
Proof. unfold covers. apply _. Defined.
Definition apart (x y : write) : Prop := forall w p, (p < 64)%nat -> covers x w p -> ~ covers y w p.
Fixpoint separate (ws : list write) : Prop :=
  match ws with [] => True | x :: ws => Forall (apart x) ws /\ separate ws end.

Definition bit (attr : pmu_attr) (w : Z) (p : nat) : bool := Z.testbit (get_word attr w) (Z.of_nat p).

(** What the assignments make of bit [p] of word [w]: each one whose format has the
    bit gives it the bit of its value; without a default configuration a bit that is
    set stays set. *)
Definition bit_after (zero : bool) (ws : list write) (w : Z) (p : nat) (b : bool) : bool :=
  foldl (fun b x => if decide (covers x w p) then Z.testbit x.2 (weight (fm_bits x.1) p) || (negb zero && b) else b) b ws.

Lemma writes_bit_after zero ws : forall attr w p, Forall (fun x => word_ok (fm_value x.1)) ws -> word_ok w -> (p < 64)%nat ->
  bit (foldl (write_term zero) attr ws) w p = bit_after zero ws w p (bit attr w p).
Proof.
  induction ws as [|x ws IH]; intros attr w p Hok Hw Hp; [done|]. apply Forall_cons in Hok as [Hx Hok].
  unfold bit_after. cbn [foldl]. rewrite IH by done. unfold bit_after. f_equal. unfold bit, write_term. rewrite get_set_word by done.
  destruct (decide (covers x w p)) as [[<- Hc]|Hn].
  - rewrite Z.eqb_refl, format_value_bits by done. by rewrite Hc.
  - destruct (Z.eqb_spec (fm_value x.1) w) as [<-|]; [|done]. rewrite format_value_bits by done.
    destruct (Z.testbit (fm_bits x.1) (Z.of_nat p)) eqn:E; [|done]. by destruct Hn.
Qed.

Lemma write_term_bit zero attr x w p : word_ok (fm_value x.1) -> word_ok w -> (p < 64)%nat -> ~ covers x w p ->
  bit (write_term zero attr x) w p = bit attr w p.
Proof.
  intros Hx Hw Hp Hn. unfold bit, write_term. rewrite get_set_word by done. destruct (Z.eqb_spec (fm_value x.1) w) as [<-|]; [|done].
  rewrite format_value_bits by done. destruct (Z.testbit (fm_bits x.1) (Z.of_nat p)) eqn:E; [|done]. by destruct Hn.
Qed.

Lemma writes_bit zero ws : forall attr w p, Forall (fun x => word_ok (fm_value x.1)) ws -> word_ok w -> (p < 64)%nat ->
  Forall (fun x => ~ covers x w p) ws -> bit (foldl (write_term zero) attr ws) w p = bit attr w p.
Proof.
  induction ws as [|x ws IH]; intros attr w p Hok Hw Hp Hn; [done|]. apply Forall_cons in Hok as [Hx Hok], Hn as [Hn1 Hn].
  cbn [foldl]. rewrite IH by done. by apply write_term_bit.
Qed.

Definition write_ok (x : write) : Prop := word_ok (fm_value x.1) /\ 0 <= x.2 <= pmu_format_max_value (fm_bits x.1).

Lemma writes_read zero ws : forall attr, Forall write_ok ws -> separate ws ->
  (zero = true \/ forall x p, x ∈ ws -> (p < 64)%nat -> covers x (fm_value x.1) p -> bit attr (fm_value x.1) p = false) ->
  Forall (fun x => format_read (fm_bits x.1) (get_word (foldl (write_term zero) attr ws) (fm_value x.1)) = x.2) ws.
Proof.
  induction ws as [|x ws IH]; intros attr Hok Hsep Hclear; [constructor|]. apply Forall_cons in Hok as [[Hw Hv] Hok]. destruct Hsep as [Hap Hsep].
  assert (Hwords : Forall (fun x => word_ok (fm_value x.1)) ws) by (eapply Forall_impl; [exact Hok|]; by intros y [? _]).
  cbn [foldl]. constructor.
  - unfold format_read. rewrite <- (max_value_fits _ _ Hv). apply gathered_value. intros p Hp Hf.
    change (bit (foldl (write_term zero) (write_term zero attr x) ws) (fm_value x.1) p = Z.testbit x.2 (weight (fm_bits x.1) p)).
    rewrite writes_bit; [|done|done|done|eapply Forall_impl; [exact Hap|]; intros y Hy; by apply Hy].
    unfold bit, write_term. rewrite get_set_word, Z.eqb_refl, format_value_bits, Hf by done.
    destruct Hclear as [->|Hclear]; [by rewrite orb_false_r|].
    specialize (Hclear x p (list_elem_of_here _ _) Hp (conj eq_refl Hf)). unfold bit in Hclear. by rewrite Hclear, andb_false_r, orb_false_r.
  - apply IH; [done|done|]. destruct Hclear as [->|Hclear]; [by left|right]. intros y p Hy Hp Hc.
    rewrite Forall_forall in Hap, Hwords. rewrite write_term_bit; [apply Hclear; [by constructor|done|done]|done|by apply Hwords|done|].
    intros Hx. by destruct (Hap y Hy (fm_value y.1) p Hp Hx).
Qed.

Lemma writes_of_ok formats t ws : writes_of formats t = Some ws -> Forall write_ok ws.
Proof.
  unfold writes_of. destruct (_ || _); [intros [= <-]; constructor|]. destruct (pmu_find_format _ _) as [f|]; [|done].
  destruct (tm_val t) as [num|]; [|done]. destruct (bool_decide _) eqn:E; [|done]. destruct (negb _); [|done]. intros [= <-].
  apply bool_decide_eq_true in E. by constructor.
Qed.
Lemma all_writes_ok formats ts : forall ws, all_writes formats ts = Some ws -> Forall write_ok ws.
Proof.
  induction ts as [|t ts IH]; intros ws E; cbn [all_writes] in E; [injection E as <-; constructor|].
  destruct (writes_of formats t) as [a|] eqn:Ea; [|done]. destruct (all_writes formats ts) as [b|]; [|done]. injection E as <-.
  apply Forall_app. split; [by eapply writes_of_ok|by apply IH].
Qed.

(** * Aliases *)

Section Expand.
Context {double : Type} (zero one : double) (is_zero : double -> bool).
Implicit Types pmu : perf_pmu (double := double).

(** Every term that names an alias is replaced by the terms of the alias. *)
Definition expanded pmu (ts : list parse_events_term) : list parse_events_term :=
  ts ≫= fun t => match pmu_find_alias pmu t with Some a => clone_weak <$> al_terms a | None => [t] end.

Lemma alias_loop_expands alloc_ok pmu rest : forall before info ts info',
  alias_loop is_zero alloc_ok pmu before rest info = (0, ts, info') -> ts = before ++ expanded pmu rest.
Proof.
  induction rest as [|t rest IH]; intros before info ts info' E; cbn [alias_loop] in E.
  - injection E as <- _. by rewrite app_nil_r.
  - unfold expanded. cbn [mbind list_bind]. fold (expanded pmu rest). destruct (pmu_find_alias pmu t) as [a|].
    + unfold pmu_alias_terms in E. destruct (negb alloc_ok && _); [discriminate|]. change (negb (0 =? 0)) with false in E. cbv iota in E.
      destruct (check_info_data is_zero a info) as [info1|]; [|discriminate]. apply IH in E. by rewrite E, <- app_assoc.
    + apply IH in E. by rewrite E, <- app_assoc.
Qed.


End Expand.

Lemma apart_land x y : fm_value x.1 <> fm_value y.1 \/ Z.land (fm_bits x.1) (fm_bits y.1) = 0 -> apart x y.
Proof.
  intros Hd w p Hp [Hx Bx] [Hy By]. destruct Hd as [Hd|Hd]; [congruence|].
  apply (f_equal (fun z => Z.testbit z (Z.of_nat p))) in Hd. by rewrite Z.land_spec, Bx, By, Z.bits_0 in Hd.
Qed.

(** * A concrete PMU *)

Module PmuExamples.

Definition format_of (name : string) (value from to : Z) : perf_pmu_format :=
  Format (ascii_text name) value (match perf_pmu__set_format from to with Ok bits => bits | _ => 0 end).
Definition event_format := format_of "event" 0 0 7.
Definition umask_format := format_of "umask" 0 8 15.
Definition edge_format := format_of "edge" 0 18 0.
Definition rsp_format := format_of "offcore_rsp" 1 0 63.
(** Bits 4 to 6 and 20 to 21 of config2. *)
Definition split_format := Format (ascii_text "chan") 2 (Z.lor (fm_bits (format_of "" 2 4 6)) (fm_bits (format_of "" 2 20 21))).

Definition number (name : string) (n : Z) : parse_events_term := Term (ascii_text name) (NumVal n) false false false false.
Definition misses : perf_pmu_alias (double := Z) :=
  Alias (ascii_text "cache-misses") [number "event" 46; number "umask" 65] (ascii_text "Joules") 3 true false None None.
Definition cpu : perf_pmu (double := Z) :=
  Pmu 4 true [event_format; umask_format; edge_format; rsp_format; split_format] [misses].
(** The default configuration has bits that the terms replace. *)
Definition defaults : pmu_attr := PmuAttr 0 (2 ^ 40 + 255) 7 0.

Definition given : list parse_events_term := [number "Cache-Misses" 1; number "chan" 22; number "offcore_rsp" (2 ^ 64 - 2); number "edge" 1].
Definition given_writes : list write :=
  [(event_format, 46); (umask_format, 65); (split_format, 22); (rsp_format, 2 ^ 64 - 2); (edge_format, 1)].

Lemma given_separate : separate given_writes.
Proof. repeat constructor; apply apart_land; first [left; vm_compute; discriminate|right; vm_compute; reflexivity]. Qed.


Example configured :
  match perf_pmu__check_alias 0 1 (fun z => z =? 0) true cpu given with
  | (0, ts, _) => Some (perf_pmu__config cpu defaults ts true).1
  | _ => None
  end = Some (0, PmuAttr 4 (2 ^ 40 + 2 ^ 18 + 65 * 256 + 46) (2 ^ 64 - 2) (6 * 16 + 2 * 2 ^ 20)).
Proof. vm_compute. reflexivity. Qed.

(** A parameter of an event is taken from another term, which is not used again. *)
Example parameter_resolved :
  perf_pmu__config_terms [event_format; edge_format] (PmuAttr 0 0 0 0)
    [Term (ascii_text "event") (StrVal question_mark) false false false false; number "event" 60] false true
  = (0, PmuAttr 0 60 0 0, [Term (ascii_text "event") (StrVal question_mark) false false false false;
                           Term (ascii_text "event") (NumVal 60) false true false false]).
Proof. vm_compute. reflexivity. Qed.

(** ** Where it departs from its intention *)

(** Without a default configuration a term that is given twice has the bits of both
    values. *)
Example repeated_term_ored :
  (perf_pmu__config_terms [event_format] (PmuAttr 0 0 0 0) [number "event" 1; number "event" 2] false true).1
  = (0, PmuAttr 0 3 0 0).
Proof. vm_compute. reflexivity. Qed.

(** A range of a format that goes beyond bit 63 writes behind the bitmap. *)
Example range_overruns : perf_pmu__set_format 0 64 = Oob.
Proof. vm_compute. reflexivity. Qed.

(** A value that is too big is cut when there is no place for the error. *)
Example too_big_is_cut :
  (perf_pmu__config_terms [event_format] (PmuAttr 0 0 0 0) [number "event" 257] false false).1 = (0, PmuAttr 0 1 0 0).
Proof. vm_compute. reflexivity. Qed.

End PmuExamples.
